(* ===== verification/_CoqProject ===== *)
-Q . S2P
Prelude.v
ObserverError.v
Json.v
ObserverConfig.v
Resilience.v
JobQueue.v
RedisJobQueue.v
Bytes.v
WireProtocol.v
WireConnection.v
Condition.v
WhereClause.v
SqlDialect.v
WhereGenerator.v
WhereSafety.v
SqlText.v
Graph.v
Cascade.v
SchemaGraph.v
GraphQL.v
Complexity.v
Fragments.v
Directives.v
EditDistance.v
Matcher.v
CacheStore.v
ResultCache.v
Chars.v
SecurityContext.v
Checksum.v
DateValidators.v
ValidationRules.v
ValidationRulesFacts.v
IdPolicy.v
ResponseCache.v
Admission.v
OrderBy.v
CacheKey.v
Invalidation.v
Aggregation.v
AggregationSql.v
AggregationFacts.v
AggregateTypes.v
CompiledSchema.v
RestParams.v
RestResource.v
RestHttp.v
Idempotency.v
RowSecurity.v
FieldAccess.v
Projection.v
ProjectionSql.v
Execution.v
RestEmbedding.v
RestHandler.v
RestFormat.v
RestStream.v
RestFacts.v
Relay.v
Mutation.v
CachedAdapter.v
RestWrites.v
RestWritesFacts.v
RestRouter.v
RestRouterFacts.v
Routing.v
SagaStore.v
SagasFacts.v
AuthTokens.v
AuthLimits.v
Redis.v
TokenRevocation.v
StateEncryption.v
PkceFlow.v
AuthWorkers.v
AuthFlow.v
ObserverActions.v
ObserverRun.v
ChangeLog.v
Listeners.v
