(* ===== verification/Prelude.v ===== *)
(** * FraiseQL: a verification library

    FraiseQL serves a database over GraphQL and REST from a schema compiled in
    advance.  This library models the parts of the Rust workspace under
    [src/crates/] that decide what a request may read, what SQL it becomes, what
    is cached, what happens after a change and who is let in, and proves what
    makes them correct.  The definitions are translated from the source, a
    function at a time, and are executable; the theorems are about these
    definitions.

    ** The program, and where its parts are

    A request to the GraphQL or REST endpoint ([fraiseql-server]) is read,
    checked against the compiled schema, turned into parameterised SQL and run
    by an adapter ([fraiseql-core], [fraiseql-db]); its rows are projected to
    the response, which two caches may keep.  Mutations call functions of the
    database and drop what they made stale.  A change in the database reaches
    the observers ([fraiseql-observers]), which evaluate conditions, run actions
    and queue jobs.  Rows can also be streamed over the PostgreSQL protocol
    ([fraiseql-wire]).  Several services are composed by federation, with sagas
    for mutations that span them ([fraiseql-federation]).  Callers are
    authenticated by [fraiseql-auth].

    Shared ground.
    - [Prelude]: results, strings, integers of a width, fixed-point and float
      notations, lists and the tactics and hints all files use.
    - [Json] ([serde_json::Value]), [Bytes] (bytes, big-endian integers, UTF-8),
      [Chars] (text as Rust handles it; ASCII text), [Redis] (the commands the
      stores of authentication use, with their laws and a concrete server).

    GraphQL documents ([fraiseql-core/src/graphql/]).
    - [GraphQL]: the syntax tree and its conversion to selections
      (types.rs, parser.rs).  [Complexity]: depth, score and aliases
      (complexity.rs).  [Fragments]: fragment_resolver.rs.  [Directives]:
      directive_evaluator/ and require_permission_directive.rs.
    - [EditDistance]: the suggestions of runtime/matcher.rs and of
      fraiseql-error/src/core_error.rs.  [Matcher]: runtime/matcher.rs,
      utils/casing.rs and the index of schema/compiled/schema.rs.

    Schema ([fraiseql-core/src/schema/]).
    - [CompiledSchema]: the definitions execution reads.  [Graph] and
      [SchemaGraph]: reachability, and dependency_graph/ with its cycles,
      unused types and impacts.

    Execution ([fraiseql-core/src/runtime/], [security/]).
    - [SecurityContext], [RowSecurity] (rls_policy.rs and injected
      conditions), [FieldAccess] (field_filter.rs): who asks, and what they may
      read.
    - [Execution]: planner.rs and executor/query.rs, from a matched query to one
      request to the adapter and from rows to the response.  [Projection],
      [ProjectionSql]: projection.rs and fraiseql-db/src/projection_generator.rs.
      [OrderBy]: the clauses of ORDER BY.
    - [Relay]: relay.rs and its two handlers.  [Mutation]: cascade.rs,
      mutation_result.rs, executor/mutation.rs.  [Routing]: classify.rs,
      execution.rs, security.rs, pipeline.rs, planning.rs, explain.rs and the
      gate in front of them.
    - [Aggregation], [AggregationSql], [AggregationFacts], [AggregateTypes]: the
      parser, planner, SQL, projection and generated types of aggregate queries.
    - [ValidationRules], [ValidationRulesFacts], [Checksum], [DateValidators],
      [IdPolicy]: the rules on inputs of [validation/].

    SQL ([fraiseql-db/src/]).
    - [WhereClause]: where_clause.rs, filters/operators.rs.  [SqlDialect]:
      dialect/, path_escape.rs, identifier.rs.  [WhereGenerator]:
      where_generator/.  [WhereSafety] and [SqlText]: what the text of the
      generator means to the database that reads it.

    Caches ([fraiseql-core/src/cache/]).
    - [CacheStore]: the store the caches are built on, as an interface, and the
      reverse index.  [ResultCache], [ResponseCache]: result.rs and
      response_cache.rs.  [CacheKey]: key.rs.  [Invalidation]: entity keys, the
      entities of a response and the dependency tracker.  [Cascade]:
      cascade_invalidator.rs.  [CachedAdapter]: adapter/, invalidation_api.rs,
      fact_table_cache.rs, fact_table_version.rs.

    REST ([fraiseql-server/src/routes/rest/]).
    - [RestParams] (params.rs), [RestResource] (resource.rs), [RestHttp] (headers
      and errors of handler.rs, cache_control.rs), [RestEmbedding]
      (embedding.rs), [RestHandler] (GET of handler.rs), [RestFormat]
      (response.rs), [RestStream] (streaming.rs, sse.rs), [RestWrites] (the other
      methods, bulk.rs), [Idempotency] (idempotency.rs), [RestRouter] (router.rs);
      [RestFacts], [RestWritesFacts] and [RestRouterFacts] hold theorems.
    - [Admission]: resilience/backpressure.rs.

    Observers ([fraiseql-observers/src/]).
    - [ObserverError], [ObserverConfig] (config/runtime.rs, event.rs, matcher.rs),
      [Condition] (condition/), [ObserverActions] (actions.rs,
      actions_additional.rs, ssrf.rs, executor/dispatch.rs), [ObserverRun]
      (matcher.rs, executor/, deduped_executor.rs, dedup/), [ChangeLog]
      (listener/change_log.rs, listener/mod.rs, executor/retry.rs),
      [Listeners] (the rest of listener/, checkpoint/), [Resilience]
      (resilience/), [JobQueue] and [RedisJobQueue] (job_queue/).

    Wire protocol ([fraiseql-wire/src/]).
    - [WireProtocol] (protocol/), [WireConnection] (connection/, json/,
      stream/).

    Federation ([fraiseql-federation/src/]).
    - [SagaStore] (saga_store.rs, saga_executor/, saga_compensator.rs,
      saga_recovery_manager.rs, saga_coordinator.rs), [SagasFacts].

    Authentication ([fraiseql-auth/src/] and routes of [fraiseql-server]).
    - [AuthTokens] (error.rs, jwt.rs, oauth/claims_validator.rs,
      operation_rbac.rs, middleware.rs), [AuthLimits] (rate_limiting.rs),
      [TokenRevocation] (fraiseql-server/src/token_revocation.rs and
      routes/auth.rs), [StateEncryption] (state_encryption.rs), [PkceFlow]
      (pkce.rs, oidc_server_client.rs, routes/auth.rs, middleware/oidc_auth.rs),
      [AuthWorkers] (audit/chain.rs, oauth/failover.rs, oauth/refresh.rs,
      constant_time.rs), [AuthFlow] (state_store.rs, session.rs,
      session_postgres.rs, handlers.rs).

    A file's own comment says which source it translates; within it a Module
    or Section has the name of the type or function it models, fields and
    constructors have the source's names, and a definition that splits a
    function of the source is named for the part.

    ** How the program is modelled

    - State that one caller owns is a Record passed from operation to operation.
      Where calls run at the same time and their steps can interleave, the
      atomic steps are a relation or a list of steps ([Resilience.Concurrent],
      [Admission.Interleaved], the read and the delete of a state in
      [AuthFlow]).
    - An error is a value of [result]; where the code can panic (a slice outside
      a character boundary, an index, an arithmetic overflow that the standard
      library turns into a panic) the result is an option, or a type with a
      constructor of its own ([RestParams.outcome]).
    - Integers are [Z] with the bounds of their width, and wrap, saturate or
      panic as the code has it.  Floats are the Standard Library's [SpecFloat].
    - Statements of a database or commands of Redis consume one entry of a
      schedule of faults ([Prelude.Fault]): a statement works, is refused, or
      has its effect and loses its answer.
    - What is outside the repository is a parameter: the hashers, ciphers and
      encodings, the readers and printers of JSON, the order hash tables are
      read in, clocks, random draws, the databases and HTTP.  Where a theorem
      needs something of them it is a hypothesis or a class of laws with what
      they document ([StoreLaws], [DialectLaws], [RedisLaws], [JobQueueLaws],
      [PkceLaws]), and a witness instantiates it with a concrete function.

    ** What the theorems show

    - What reaches the database.  Values never become part of the SQL text: the
      generated WHERE (of the operators without extensions) and aggregate SQL is
      a template whose holes are the placeholders of exactly the bound values,
      in every dialect ([WhereSafety], [AggregationFacts]); names stay inside
      their literals ([SqlText]); a filter survives its JSON exactly when it can
      be spelt there ([WhereClause.FromJsonFacts]).
    - Who may read.  The row-level policy and the conditions taken from the
      token are conjoined to every authenticated request, and the policy fails
      closed ([Execution], [RowSecurity]).
    - What is accepted and what it means.  Accepted documents are well formed
      and bounded with their fragments written out; resolving spreads is writing
      them out; matching selects the operation's fields ([Complexity],
      [Fragments], [Matcher]).  The schema's cycles are decided
      ([SchemaGraph]).
    - What is answered.  Relay pages and REST links visit every row once; the
      cache of parsed queries is transparent; a mutation drops exactly the
      responses concerned; a cached adapter answers as its database does
      ([Relay], [RestFormat], [Routing], [Mutation], [CachedAdapter]); the
      aggregate types offer what is planned ([AggregateTypes]).
    - Caches as sets.  Invalidation by views, lists and entities, and along the
      dependencies between views, is exact ([ResultCache], [Cascade]).
    - REST.  The route table is sound, a keyed POST runs once, a PUT needs every
      field, and a stream of JSON lines repeats its first page ([RestResource],
      [RestWritesFacts], [RestRouterFacts]).
    - Wire protocol.  Decoding is total and inverts encoding, messages survive
      any cutting of the stream, and streamed rows arrive once and in order
      ([WireProtocol], [WireConnection]).
    - Observers.  The executor ends and does about an event what its observers
      say; two workers start on an event within a window only after a failure;
      actions post only to URLs that were looked up to public addresses; the
      listener reads the change log once and in order; leases exclude one
      another and swaps of checkpoints follow one another ([ObserverRun],
      [ObserverActions], [ChangeLog], [Listeners]).  Printed conditions with
      plain values parse back; the Redis queue refines an abstract queue of
      jobs while clients keep to its protocol ([Condition], [RedisJobQueue]).
    - Sagas.  Whatever statements fail, the forward and compensation phases do,
      undo and record what they should ([SagasFacts]).
    - Authentication.  Codes are exchanged for states handed out, once and in
      time, in both flows; revocations last as they should; the limiter's bounds
      are exact; the audit chain binds what precedes an entry; a refresh worker's
      poll ends, or never does, as the answers have it ([AuthFlow], [PkceFlow],
      [TokenRevocation], [AuthLimits], [AuthWorkers], [AuthTokens]).
    - Some theorems and examples state what the code does against its intent:
      requests refused for ever after failed attempts ([Admission]), revocation
      by forged tokens ([TokenRevocation]), responses of a stream.

    ** Fuel and bounds

    Recursion that is not structural has fuel, and either the fuel given is shown
    to be enough or the theorem says for which fuel there is an answer.
    - Loops over text use the length of the text, each round consuming a
      character ([Bytes], [Chars], [WireProtocol], [Condition.lex_fuel],
      [SchemaGraph.parse_type_string], [RestFacts.parse_from_fits]).
    - Traversals of graphs use the number of nodes and edges ([Graph.enough],
      [SchemaGraph], [Cascade]).
    - Projection uses the size of the value ([Projection.fuel_suffices]), field
      mappings the number of types not yet visited ([Mutation.mappings_some]).
    - Retries use the attempts left ([JobQueue.retry_loop_terminates],
      [Resilience.Strategies.retry_loop_spec]); reading to the end of a query
      the messages there are ([WireConnection.read_until_ready_fuel]).
    - Where the code can run for ever the theorem says when: inherited rules
      over a cyclic chain ([ValidationRulesFacts.cyclic_rules_never_end]) and
      the refresh worker ([AuthWorkers]).

    ** Not modelled

    - Drivers, sockets, HTTP, brokers, object stores and remote services: the
      adapters and introspectors of the four databases, the transports and
      metrics of the observers, the wire client with TLS and SCRAM, Arrow Flight,
      the key services and the identity providers; they are interfaces here or
      take no part.
    - Cryptography and formats of other packages: JWT signatures, AES-GCM, HMAC of
      webhooks, SHA-256 of persisted queries.
    - Text for people: OpenAPI documents, introspection answers, design audits,
      explanations, log lines, metrics, error texts of other crates, the command
      line.
    - Composition of the server: axum layers, settings, start and administration
      routes; GraphQL and gRPC extraction around the execution modelled here.
    - Next to components that are modelled: window queries and the reading of
      fact tables from a database (the aggregate queries are modelled), the
      compiler of authored schemas (the compiled form is taken as given),
      subscriptions, persisted queries, the redirects the HTTP client of
      observers follows, federation queries and mutations (sagas are modelled),
      the token buckets of the server, custom scalars, and the timeouts and
      limits around validation.
    - In components that are modelled in part: building a security context from
      a token, cancellation of queries and the concurrency of sub-queries,
      subscriptions and the text of the compiled schema, HAVING clauses of the
      database crate, startup and pause signals of a connection, settings read
      from the environment. *)

From stdpp Require Export base tactics option list gmap strings numbers.
From Stdlib Require Export ZArith Lia.
From Stdlib Require Import SpecFloat OrderedTypeEx.
From stdpp Require Import sorting.

#[global] Open Scope Z_scope.

(** ** Notation scope of the development *)
Declare Scope fraise_scope.
Delimit Scope fraise_scope with fraise.
#[global] Open Scope fraise_scope.

(** ** Results: Rust's [Result<A, E>] *)
Inductive result (E A : Type) : Type :=
| Ok (a : A)
| Err (e : E).
Arguments Ok {E A} a.
Arguments Err {E A} e.

#[export] Instance result_ret E : MRet (result E) := fun _ a => Ok a.
#[export] Instance result_bind E : MBind (result E) :=
  fun _ _ k m => match m with Ok a => k a | Err e => Err e end.
#[export] Instance result_fmap E : FMap (result E) :=
  fun _ _ f m => match m with Ok a => Ok (f a) | Err e => Err e end.

Definition is_ok {E A} (r : result E A) : bool :=
  match r with Ok _ => true | Err _ => false end.

(** [Option::ok_or]. *)
Definition ok_or {E A} (o : option A) (e : E) : result E A :=
  match o with Some a => Ok a | None => Err e end.

(** Early return on a guard: [if c { return Err(e) }; k]. *)
Notation "'guard_err' c 'as' e ;; k" :=
  (if c then Err e else k)
  (at level 100, c at level 99, e at level 99, k at level 200, right associativity)
  : fraise_scope.

(** The Rust test [a == b] on strings. *)
Notation "a =s b" := (String.eqb a b) (at level 70, no associativity) : fraise_scope.

Lemma bind_Ok {E A B} (m : result E A) (k : A -> result E B) b :
  m ≫= k = Ok b <-> exists a, m = Ok a /\ k a = Ok b.
Proof.
  destruct m as [a|e]; cbn; split; [eauto | by intros (? & [= ->] & ?) | done | by intros (? & ? & ?)].
Qed.

Lemma bind_Err {E A B} (m : result E A) (k : A -> result E B) e :
  m ≫= k = Err e <-> m = Err e \/ exists a, m = Ok a /\ k a = Err e.
Proof.
  destruct m as [a|e']; cbn; split;
    [eauto | by intros [? | (? & [= ->] & ?)] | intros [= ->]; auto | by intros [[= ->] | (? & ? & ?)]].
Qed.

Lemma streqb_refl s : (s =s s) = true.
Proof. apply String.eqb_refl. Qed.

Lemma streqb_true s t : (s =s t) = true <-> s = t.
Proof. apply String.eqb_eq. Qed.

Lemma streqb_false s t : (s =s t) = false <-> s <> t.
Proof. apply String.eqb_neq. Qed.

(** Strings, normalised to the right. *)
Lemma str_assoc (a b c : string) : ((a ++ b) ++ c = a ++ (b ++ c))%string.
Proof. induction a as [|x a IH]; [done|]. change (String x ((a ++ b) ++ c) = String x (a ++ (b ++ c)))%string. by rewrite IH. Qed.
Lemma str_cons x (a b : string) : (String x a ++ b = String x (a ++ b))%string.
Proof. done. Qed.
Lemma str_nil (a : string) : ("" ++ a = a)%string.
Proof. done. Qed.
Lemma str_nil_r (s : string) : (s ++ "" = s)%string.
Proof. induction s as [|c s IH]; [done|]. by rewrite str_cons, IH. Qed.
Ltac str_norm := repeat first [rewrite str_assoc | rewrite str_cons | rewrite str_nil].

(** [String]'s order compares bytes; it is total, so that a sorted list is
    determined by its elements. *)
Definition str_le (a b : string) : Prop := String.leb a b = true.
#[export] Instance str_le_dec a b : Decision (str_le a b) := decide (String.leb a b = true).
#[export] Instance str_le_total : Total str_le.
Proof. intros a b. destruct (String.leb_total a b); [by left | by right]. Qed.
#[export] Instance str_le_antisymm : AntiSymm (=) str_le.
Proof. intros a b. apply String.leb_antisym. Qed.
#[export] Instance str_le_trans : Transitive str_le.
Proof.
  assert (E : forall a b, str_le a b <-> a = b \/ String_as_OT.lt a b).
  { intros a b. unfold str_le, String.leb. rewrite <- String_as_OT.cmp_lt. change String_as_OT.cmp with String.compare.
    destruct (String.compare a b) eqn:C; [|naive_solver|].
    - apply String.compare_eq_iff in C. naive_solver.
    - split; [done|]. intros [->|?]; [|done]. destruct (String.leb_total b b) as [L|L]; unfold String.leb in L; by rewrite C in L. }
  intros a b c. rewrite !E. intros [->|?] [->|?]; eauto. right. by eapply String_as_OT.lt_trans.
Qed.
Definition str_sort (l : list string) : list string := merge_sort str_le l.
Lemma str_sort_perm l : str_sort l ≡ₚ l.
Proof. apply merge_sort_Permutation. Qed.
Lemma str_sort_unique l l' : l ≡ₚ l' -> str_sort l = str_sort l'.
Proof.
  intros Hp. apply (StronglySorted_unique str_le); [apply StronglySorted_merge_sort; apply _.. |].
  by rewrite !str_sort_perm.
Qed.

(** ** Machine integers

    A [u32], [u64] or [usize] is the [Z] it denotes; the arithmetic of the
    source that can leave the range is written with the wrap-around or the
    saturation the source asks for.  [usize] is 64 bits. *)
Definition u32_max : Z := 2 ^ 32 - 1.
Definition u64_max : Z := 2 ^ 64 - 1.
Definition u32_wrap (z : Z) : Z := z mod 2 ^ 32.
Definition u64_wrap (z : Z) : Z := z mod 2 ^ 64.
Definition u64_sat (z : Z) : Z := Z.max 0 (Z.min u64_max z).
Definition u64_saturating_add (a b : Z) : Z := u64_sat (a + b).
Definition u64_saturating_sub (a b : Z) : Z := u64_sat (a - b).
Definition u64_saturating_mul (a b : Z) : Z := u64_sat (a * b).
Definition u64_saturating_pow (a b : Z) : Z := u64_sat (a ^ b).

Definition is_u32 (z : Z) : Prop := 0 <= z <= u32_max.
Definition is_u64 (z : Z) : Prop := 0 <= z <= u64_max.

Lemma u64_max_val : u64_max = 18446744073709551615.
Proof. reflexivity. Qed.

Lemma u32_max_val : u32_max = 4294967295.
Proof. reflexivity. Qed.

Lemma u64_sat_id z : is_u64 z -> u64_sat z = z.
Proof. unfold is_u64, u64_sat. lia. Qed.

Lemma u64_sat_range z : is_u64 (u64_sat z).
Proof. unfold is_u64, u64_sat. rewrite u64_max_val. lia. Qed.

Lemma u64_sat_mono a b : a <= b -> u64_sat a <= u64_sat b.
Proof. unfold u64_sat. lia. Qed.

Lemma u64_wrap_id z : is_u64 z -> u64_wrap z = z.
Proof. unfold is_u64, u64_wrap. rewrite u64_max_val. intros. apply Z.mod_small. lia. Qed.

Lemma u64_wrap_range z : is_u64 (u64_wrap z).
Proof. unfold is_u64, u64_wrap. rewrite u64_max_val. pose proof (Z.mod_pos_bound z (2 ^ 64)). lia. Qed.

(** ** [f64]

    An [f64] is an IEEE-754 binary64 datum of [SpecFloat], so that the float
    arithmetic of the source evaluates with its rounding. *)
Definition f64 : Type := spec_float.
Definition f64_of_Z (z : Z) : f64 := binary_normalize 53 1024 z 0 false.
Definition f64_zero : f64 := S754_zero false.
Definition f64_add : f64 -> f64 -> f64 := SFadd 53 1024.
Definition f64_sub : f64 -> f64 -> f64 := SFsub 53 1024.
Definition f64_mul : f64 -> f64 -> f64 := SFmul 53 1024.
Definition f64_div : f64 -> f64 -> f64 := SFdiv 53 1024.
Definition f64_lt : f64 -> f64 -> bool := SFltb.
Definition f64_le : f64 -> f64 -> bool := SFleb.
Definition f64_eq : f64 -> f64 -> bool := SFeqb.

Lemma SFcompare_antisym a b : SFcompare b a = CompOpp <$> SFcompare a b.
Proof.
  destruct a as [[]|[]| |[] m e], b as [[]|[]| |[] m' e']; cbn; try done;
  rewrite (Z.compare_antisym e e'); destruct (Z.compare e e'); cbn; try done;
  change (Pos.compare_cont Eq m' m) with (Pos.compare m' m);
  change (Pos.compare_cont Eq m m') with (Pos.compare m m');
  rewrite (Pos.compare_antisym m m'); destruct (Pos.compare m m'); try done.
Qed.

(** [a > b] is [b < a] and excludes [a <= b] (NaN makes both false). *)
Lemma f64_lt_not_le a b : f64_lt b a = true -> f64_le a b = false.
Proof.
  unfold f64_lt, f64_le, SFltb, SFleb. rewrite (SFcompare_antisym a b).
  by destruct (SFcompare a b) as [[]|].
Qed.

(** ** Statements of a database: done, refused before any effect, or done with
    the answer lost. *)
Inductive Fault : Type := Works | Refused (message : string) | Lost (message : string).

(** ** Tactics *)

(** Case analysis on every boolean test of the goal or of a hypothesis. *)
Ltac case_bool :=
  match goal with
  | |- context [if ?b then _ else _] => destruct b eqn:?
  | H : context [if ?b then _ else _] |- _ => destruct b eqn:?
  end.

(** Turn the boolean comparisons of the context into propositions. *)
Ltac to_prop :=
  repeat match goal with
  | H : (_ =? _) = true |- _ => apply Z.eqb_eq in H
  | H : (_ =? _) = false |- _ => apply Z.eqb_neq in H
  | H : (_ <? _) = true |- _ => apply Z.ltb_lt in H
  | H : (_ <? _) = false |- _ => apply Z.ltb_ge in H
  | H : (_ <=? _) = true |- _ => apply Z.leb_le in H
  | H : (_ <=? _) = false |- _ => apply Z.leb_gt in H
  | H : String.eqb _ _ = true |- _ => apply String.eqb_eq in H
  | H : String.eqb _ _ = false |- _ => apply String.eqb_neq in H
  | H : (_ && _)%bool = true |- _ => apply andb_true_iff in H as [??]
  | H : (_ || _)%bool = false |- _ => apply orb_false_iff in H as [??]
  | H : negb _ = true |- _ => apply negb_true_iff in H
  | H : negb _ = false |- _ => apply negb_false_iff in H
  end.

Ltac bool_lia := to_prop; lia.

(** Fold back a computed [u64] bound and finish with [lia]. *)
Ltac u64_lia := unfold is_u64, is_u32 in *; rewrite ?u64_max_val, ?u32_max_val in *; lia.

Create HintDb fraise.
#[export] Hint Resolve u64_sat_range u64_wrap_range : fraise.

(** ** Counting the elements of a list that pass a test *)

Definition b2z (b : bool) : Z := if b then 1 else 0.

Fixpoint countb {A} (f : A -> bool) (l : list A) : Z :=
  match l with [] => 0 | x :: l => b2z (f x) + countb f l end.

Lemma countb_range {A} (f : A -> bool) l : 0 <= countb f l <= Z.of_nat (length l).
Proof. induction l as [|x l IH]; cbn; [lia|]. destruct (f x); cbn; lia. Qed.

Lemma countb_app {A} (f : A -> bool) l1 l2 :
  countb f (l1 ++ l2) = countb f l1 + countb f l2.
Proof. induction l1 as [|x l IH]; cbn; lia. Qed.

Lemma countb_insert {A} (f : A -> bool) l i x y :
  l !! i = Some x ->
  countb f (<[i:=y]> l) = countb f l - b2z (f x) + b2z (f y).
Proof.
  revert i. induction l as [|z l IH]; intros [|i] Hi; cbn in *; try done.
  - injection Hi as ->. lia.
  - rewrite IH by done. lia.
Qed.

(** A list of tests with one failing position counts less than its length. *)
Lemma countb_lt {A} (f : A -> bool) (l : list A) i x :
  l !! i = Some x -> f x = false -> countb f l < Z.of_nat (length l).
Proof.
  revert i. induction l as [|z l IH]; intros [|i] Hi Hf; cbn in *; try done.
  - injection Hi as ->. rewrite Hf. pose proof (countb_range f l). cbn. lia.
  - specialize (IH i Hi Hf). destruct (f z); cbn; lia.
Qed.

(** ** Invariants of transition sequences *)

Lemma rtc_invariant {A} (R : relation A) (P : A -> Prop) :
  (forall x y, R x y -> P x -> P y) -> forall x y, rtc R x y -> P x -> P y.
Proof. intros HR x y. induction 1; eauto. Qed.
