(* ===== verification/ObserverError.v ===== *)
(** * Observer errors

    The error type shared by the observer components
    (crates/fraiseql-observers/src/error.rs): the error values, their codes,
    and the two classifications that drive retries and dead-lettering. *)

From S2P Require Import Prelude.

Module ObserverError.

Inductive ObserverError : Type :=
| InvalidConfig (message : string)
| NoMatchingObservers (event_type : string)
| InvalidCondition (reason : string)
| ConditionEvaluationFailed (reason : string)
| InvalidActionConfig (reason : string)
| ActionExecutionFailed (reason : string)
| ActionPermanentlyFailed (reason : string)
| TemplateRenderingFailed (reason : string)
| DatabaseError (reason : string)
| ListenerConnectionFailed (reason : string)
| ChannelFull
| DlqError (reason : string)
| RetriesExhausted (reason : string)
| UnsupportedActionType (action_type : string)
| SerializationError (msg : string)
| SqlxError (msg : string)
| CircuitBreakerOpen (message : string)
| TransportConnectionFailed (reason : string)
| TransportPublishFailed (reason : string)
| TransportSubscribeFailed (reason : string)
| StorageError (reason : string)
| DeserializationError (raw : list Byte.byte) (reason : string)
| TenantViolation (event_tenant : option string) (required_scope : string).

Module Code.
Inductive t : Type :=
| InvalidConfig | NoMatchingObservers | InvalidCondition | ConditionEvaluationFailed
| InvalidActionConfig | ActionExecutionFailed | ActionPermanentlyFailed
| TemplateRenderingFailed | DatabaseError | ListenerConnectionFailed | ChannelFull
| DlqError | RetriesExhausted | UnsupportedActionType | CircuitBreakerOpen
| TransportConnectionFailed | TransportPublishFailed | TransportSubscribeFailed
| StorageError | DeserializationError | TenantViolation.

#[export] Instance t_eq_dec : EqDecision t.
Proof. solve_decision. Defined.

Definition is_transient (c : t) : bool :=
  match c with
  | ActionExecutionFailed | DatabaseError | ListenerConnectionFailed
  | TransportConnectionFailed | TransportPublishFailed | TransportSubscribeFailed => true
  | _ => false
  end.

Definition should_dlq (c : t) : bool :=
  match c with
  | ActionPermanentlyFailed | TemplateRenderingFailed | InvalidActionConfig
  | DeserializationError => true
  | _ => false
  end.
End Code.

Definition code (e : ObserverError) : Code.t :=
  match e with
  | InvalidConfig _ | SerializationError _ => Code.InvalidConfig
  | NoMatchingObservers _ => Code.NoMatchingObservers
  | InvalidCondition _ => Code.InvalidCondition
  | ConditionEvaluationFailed _ => Code.ConditionEvaluationFailed
  | InvalidActionConfig _ => Code.InvalidActionConfig
  | ActionExecutionFailed _ => Code.ActionExecutionFailed
  | ActionPermanentlyFailed _ => Code.ActionPermanentlyFailed
  | TemplateRenderingFailed _ => Code.TemplateRenderingFailed
  | DatabaseError _ | SqlxError _ => Code.DatabaseError
  | ListenerConnectionFailed _ => Code.ListenerConnectionFailed
  | ChannelFull => Code.ChannelFull
  | DlqError _ => Code.DlqError
  | RetriesExhausted _ => Code.RetriesExhausted
  | UnsupportedActionType _ => Code.UnsupportedActionType
  | CircuitBreakerOpen _ => Code.CircuitBreakerOpen
  | TransportConnectionFailed _ => Code.TransportConnectionFailed
  | TransportPublishFailed _ => Code.TransportPublishFailed
  | TransportSubscribeFailed _ => Code.TransportSubscribeFailed
  | StorageError _ => Code.StorageError
  | DeserializationError _ _ => Code.DeserializationError
  | TenantViolation _ _ => Code.TenantViolation
  end.

Definition is_transient (e : ObserverError) : bool := Code.is_transient (code e).
Definition should_dlq (e : ObserverError) : bool := Code.should_dlq (code e).

(** [Display]; [debug] is the standard library's [Debug] of the tenant. *)
Definition to_string (debug : option string -> string) (e : ObserverError) : string :=
  match e with
  | InvalidConfig m => "OB001: Invalid observer configuration: " ++ m
  | NoMatchingObservers t =>
      "OB002: Event type '" ++ t ++ "' does not match configured observers"
  | InvalidCondition r => "OB003: Invalid condition syntax: " ++ r
  | ConditionEvaluationFailed r => "OB004: Condition evaluation failed: " ++ r
  | InvalidActionConfig r => "OB005: Invalid action configuration: " ++ r
  | ActionExecutionFailed r => "OB006: Action execution failed (transient): " ++ r
  | ActionPermanentlyFailed r => "OB007: Action execution permanently failed: " ++ r
  | TemplateRenderingFailed r => "OB008: Template rendering failed: " ++ r
  | DatabaseError r => "OB009: Database operation failed: " ++ r
  | ListenerConnectionFailed r => "OB010: PostgreSQL LISTEN connection failed: " ++ r
  | ChannelFull => "OB011: Event channel backpressure - events dropped (capacity exceeded)"
  | DlqError r => "OB012: Dead letter queue operation failed: " ++ r
  | RetriesExhausted r => "OB013: Retry logic exhausted all attempts: " ++ r
  | UnsupportedActionType t => "OB014: Unsupported action type: " ++ t
  | SerializationError m => "Serialization error: " ++ m
  | SqlxError m => "Database query error: " ++ m
  | CircuitBreakerOpen m => "OB015: Circuit breaker is open: " ++ m
  | TransportConnectionFailed r => "OB016: Event transport connection failed: " ++ r
  | TransportPublishFailed r => "OB017: Event transport publish failed: " ++ r
  | TransportSubscribeFailed r => "OB018: Event transport subscribe failed: " ++ r
  | StorageError r => "OB019: Event storage operation failed: " ++ r
  | DeserializationError _ r => "OB020: Event deserialization failed: " ++ r
  | TenantViolation t scope =>
      "OB021: Tenant violation — event tenant " ++ debug t ++ " not permitted by scope '"
        ++ scope ++ "'"
  end.

(** No error is both retried and dead-lettered on its first failure. *)
Lemma transient_not_dlq e : is_transient e = true -> should_dlq e = false.
Proof. by destruct e. Qed.

End ObserverError.
Export ObserverError.
