(* ===== verification/Json.v ===== *)
(** * JSON values

    The shape of [serde_json::Value] the crates exchange: what the source uses
    of the package (matching on a value, [get], [as_i64], [as_f64], [==]) as it
    documents them.  Parsing text to a value is a parameter wherever it is
    used. *)

From S2P Require Import Prelude.
From Stdlib Require Import SpecFloat.

(** A number keeps the form it was read in: a non-negative integer in [u64], a
    negative one in [i64], or a float. *)
Inductive json_number : Type :=
| PosInt (n : Z)
| NegInt (n : Z)
| Float (f : f64).

Inductive json : Type :=
| JNull
| JBool (b : bool)
| JNumber (n : json_number)
| JString (s : string)
| JArray (l : list json)
| JObject (fields : list (string * json)).

Definition is_finite (f : f64) : bool := match f with SpecFloat.S754_infinity _ | SpecFloat.S754_nan => false | _ => true end.

(** Induction that reaches the elements of arrays and objects. *)
Section JsonInd.
Variable P : json -> Prop.
Hypothesis Hnull : P JNull.
Hypothesis Hbool : forall b, P (JBool b).
Hypothesis Hnum : forall n, P (JNumber n).
Hypothesis Hstr : forall s, P (JString s).
Hypothesis Harr : forall l, Forall P l -> P (JArray l).
Hypothesis Hobj : forall l, Forall (fun kv => P kv.2) l -> P (JObject l).

Fixpoint json_ind' (v : json) : P v :=
  match v with
  | JNull => Hnull
  | JBool b => Hbool b
  | JNumber n => Hnum n
  | JString s => Hstr s
  | JArray l =>
      Harr l ((fix go (l : list json) : Forall P l :=
        match l with [] => Forall_nil_2 _ | x :: l => Forall_cons_2 _ x l (json_ind' x) (go l) end) l)
  | JObject l =>
      Hobj l ((fix go (l : list (string * json)) : Forall (fun kv => P kv.2) l :=
        match l with
        | [] => Forall_nil_2 _
        | kv :: l => Forall_cons_2 _ kv l (json_ind' kv.2) (go l)
        end) l)
  end.
End JsonInd.

(** The entries of an object, in order; an object has no two entries with one key. *)
Fixpoint assoc {A} (k : string) (l : list (string * A)) : option A :=
  match l with
  | [] => None
  | (k', v) :: l => if k' =s k then Some v else assoc k l
  end.

(** [Value::get(key)]: [None] unless the value is an object with the key. *)
Definition json_get (v : json) (key : string) : option json :=
  match v with JObject fields => assoc key fields | _ => None end.

Definition i64_max : Z := 2 ^ 63 - 1.
(** [u64::cast_signed] and [i64::cast_unsigned]. *)
Definition cast_signed (z : Z) : Z := if z <=? i64_max then z else z - 2 ^ 64.
Definition cast_unsigned (z : Z) : Z := if 0 <=? z then z else z + 2 ^ 64.

Definition as_i64 (v : json) : option Z :=
  match v with
  | JNumber (PosInt n) => if n <=? i64_max then Some n else None
  | JNumber (NegInt n) => Some n
  | _ => None
  end.

Definition as_f64 (v : json) : option f64 :=
  match v with
  | JNumber (PosInt n) | JNumber (NegInt n) => Some (f64_of_Z n)
  | JNumber (Float f) => Some f
  | _ => None
  end.

(** [Number]'s equality does not relate the three forms. *)
Definition json_number_eqb (a b : json_number) : bool :=
  match a, b with
  | PosInt n, PosInt m | NegInt n, NegInt m => n =? m
  | Float f, Float g => f64_eq f g
  | _, _ => false
  end.

(** [Value]'s equality; an object is a map, so its order is not compared. *)
Fixpoint json_eqb (a b : json) {struct a} : bool :=
  match a, b with
  | JNull, JNull => true
  | JBool x, JBool y => Bool.eqb x y
  | JNumber x, JNumber y => json_number_eqb x y
  | JString x, JString y => x =s y
  | JArray x, JArray y =>
      (fix go (x y : list json) : bool :=
         match x, y with
         | [], [] => true
         | v :: x, w :: y => json_eqb v w && go x y
         | _, _ => false
         end) x y
  | JObject x, JObject y =>
      (Nat.eqb (length x) (length y)) &&
      (fix go (x : list (string * json)) : bool :=
         match x with
         | [] => true
         | (k, v) :: x =>
             match assoc k y with Some w => json_eqb v w | None => false end && go x
         end) x
  | _, _ => false
  end.

(** [serde_json::Map::insert]: objects are built sorted by key. *)
Fixpoint map_insert {A} (k : string) (v : A) (l : list (string * A)) : list (string * A) :=
  match l with
  | [] => [(k, v)]
  | (k', w) :: l' =>
      if k =s k' then (k, v) :: l' else if String.ltb k k' then (k, v) :: l else (k', w) :: map_insert k v l'
  end.

Lemma assoc_map_insert {A} k k' (v : A) l : assoc k' (map_insert k v l) = if k =s k' then Some v else assoc k' l.
Proof.
  induction l as [|[k1 w] l IH]; cbn [map_insert]; [done|].
  destruct (k =s k1) eqn:E1; cbn [assoc].
  - apply String.eqb_eq in E1 as ->. by destruct (k1 =s k').
  - destruct (String.ltb k k1); cbn [assoc]; [done|]. rewrite IH. destruct (k1 =s k') eqn:E2; [|done].
    apply String.eqb_eq in E2 as ->. by rewrite E1.
Qed.

Lemma in_map_insert {A} k (v : A) l kv : kv ∈ map_insert k v l -> kv = (k, v) \/ kv ∈ l.
Proof.
  induction l as [|[k1 w] l IH]; cbn [map_insert]; [set_solver|].
  destruct (k =s k1); [set_solver|]. destruct (String.ltb k k1); set_solver.
Qed.

Definition as_u64 (v : json) : option Z := match v with JNumber (PosInt n) => Some n | _ => None end.
