(* ===== verification/ObserverConfig.v ===== *)
(** * Observer configuration and events

    crates/fraiseql-observers/src/config/runtime.rs ([Action], the retry and
    failure settings, [MultiListener]), event.rs ([Event]) and matcher.rs
    ([Matcher]). *)

From S2P Require Import Prelude ObserverError Json.

(** [HashMap<String, V>]. *)
Abbreviation strmap V := (gmap string V).

Inductive BackoffStrategy : Type := Exponential | Linear | Fixed.

#[export] Instance BackoffStrategy_eq_dec : EqDecision BackoffStrategy.
Proof. solve_decision. Defined.

Record RetryConfig : Type := {
  max_attempts : Z;
  initial_delay_ms : Z;
  max_delay_ms : Z;
  backoff_strategy : BackoffStrategy
}.

Definition default_retry : RetryConfig := {|
  max_attempts := 3; initial_delay_ms := 100; max_delay_ms := 30000;
  backoff_strategy := Exponential |}.

Inductive FailurePolicy : Type := Log | Alert | Dlq.

Module Action.

Inductive ActionConfig : Type :=
| Webhook (url url_env : option string) (headers : strmap string) (body_template : option string)
| Slack (webhook_url webhook_url_env channel message_template : option string)
| Email (to to_template subject subject_template body_template reply_to : option string)
| Sms (phone phone_template message_template : option string)
| Push (device_token title_template body_template : option string)
| Search (index : string) (id_template : option string)
| Cache (key_pattern action : string).

#[export] Instance ActionConfig_eq_dec : EqDecision ActionConfig.
Proof. solve_decision. Defined.

Definition action_type (a : ActionConfig) : string :=
  match a with
  | Webhook _ _ _ _ => "webhook"
  | Slack _ _ _ _ => "slack"
  | Email _ _ _ _ _ _ => "email"
  | Sms _ _ _ => "sms"
  | Push _ _ _ => "push"
  | Search _ _ => "search"
  | Cache _ _ => "cache"
  end.

Definition is_none {A} (o : option A) : bool := match o with None => true | Some _ => false end.

Definition invalid (reason : string) : ObserverError := InvalidActionConfig reason.

Definition validate (a : ActionConfig) : result ObserverError unit :=
  match a with
  | Webhook url url_env _ body_template =>
      guard_err is_none url && is_none url_env
        as invalid "Webhook action requires 'url' or 'url_env'" ;;
      guard_err match body_template with Some b => b =s "" | None => false end
        as invalid "Webhook body_template cannot be empty" ;;
      Ok tt
  | Slack webhook_url webhook_url_env _ _ =>
      guard_err is_none webhook_url && is_none webhook_url_env
        as invalid "Slack action requires 'webhook_url' or 'webhook_url_env'" ;;
      Ok tt
  | Email to to_template subject _ body_template _ =>
      guard_err is_none to && is_none to_template
        as invalid "Email action requires 'to' or 'to_template'" ;;
      guard_err is_none subject as invalid "Email action requires 'subject'" ;;
      guard_err is_none body_template as invalid "Email action requires 'body_template'" ;;
      Ok tt
  | Sms phone phone_template message_template =>
      guard_err is_none phone && is_none phone_template
        as invalid "SMS action requires 'phone' or 'phone_template'" ;;
      guard_err is_none message_template as invalid "SMS action requires 'message_template'" ;;
      Ok tt
  | Push device_token title_template body_template =>
      guard_err is_none device_token as invalid "Push action requires 'device_token'" ;;
      guard_err is_none title_template || is_none body_template
        as invalid "Push action requires 'title_template' and 'body_template'" ;;
      Ok tt
  | Search index _ =>
      guard_err index =s "" as invalid "Search action requires 'index'" ;; Ok tt
  | Cache key_pattern action =>
      guard_err key_pattern =s "" as invalid "Cache action requires 'key_pattern'" ;;
      guard_err negb (action =s "invalidate") && negb (action =s "refresh")
        as invalid "Cache action must be 'invalidate' or 'refresh'" ;;
      Ok tt
  end.
End Action.
Export Action.

Record ObserverDefinition : Type := {
  event_type_name : string;
  entity : string;
  condition : option string;
  actions : list ActionConfig;
  retry : RetryConfig;
  on_failure : FailurePolicy
}.

Module MultiListener.
Record MultiListenerConfig : Type := {
  enabled : bool;
  listener_id : string;
  lease_duration_ms : Z;
  health_check_interval_ms : Z;
  failover_threshold_ms : Z;
  max_listeners : Z
}.

Definition validate (c : MultiListenerConfig) : result ObserverError unit :=
  guard_err c.(lease_duration_ms) =? 0
    as InvalidConfig "lease_duration_ms must be > 0" ;;
  guard_err c.(health_check_interval_ms) =? 0
    as InvalidConfig "health_check_interval_ms must be > 0" ;;
  guard_err c.(failover_threshold_ms) <? c.(health_check_interval_ms)
    as InvalidConfig "failover_threshold_ms must be >= health_check_interval_ms" ;;
  guard_err c.(max_listeners) =? 0
    as InvalidConfig "max_listeners must be > 0" ;;
  Ok tt.
End MultiListener.

(** ** Events *)
Module Event.

Inductive EventKind : Type := Created | Updated | Deleted | Custom.

#[export] Instance EventKind_eq_dec : EqDecision EventKind.
Proof. solve_decision. Defined.

Definition as_str (k : EventKind) : string :=
  match k with
  | Created => "INSERT" | Updated => "UPDATE" | Deleted => "DELETE" | Custom => "CUSTOM"
  end.

Record FieldChanges : Type := { old : json; new : json }.

Record EntityEvent : Type := mkEvent {
  id : string;
  event_type : EventKind;
  entity_type : string;
  entity_id : string;
  data : json;
  changes : option (strmap FieldChanges);
  user_id : option string;
  tenant_id : option string;
  timestamp : Z
}.

Definition field_changed (e : EntityEvent) (field_name : string) : bool :=
  match e.(changes) with
  | Some changes => match changes !! field_name with Some _ => true | None => false end
  | None => false
  end.

Definition change_is (proj : FieldChanges -> json) (e : EntityEvent)
    (field_name : string) (expected_value : json) : bool :=
  match e.(changes) with
  | Some changes =>
      match changes !! field_name with
      | Some change => json_eqb (proj change) expected_value
      | None => false
      end
  | None => false
  end.
Definition field_changed_to := change_is new.
Definition field_changed_from := change_is old.
Definition is_new (e : EntityEvent) : bool := bool_decide (e.(event_type) = Created).
Definition is_deleted (e : EntityEvent) : bool := bool_decide (e.(event_type) = Deleted).

Lemma change_is_changed proj e f v : change_is proj e f v = true -> field_changed e f = true.
Proof. unfold change_is, field_changed. destruct (changes e) as [m|]; [destruct (m !! f)|]; done. Qed.
End Event.
Export (hints) Event.
