(* ===== verification/Resilience.v ===== *)
(** * Observer resilience

    crates/fraiseql-observers/src/resilience/: the circuit breaker
    ([CircuitBreaker], mod.rs), the per-endpoint registry ([PerEndpoint],
    per_endpoint.rs), the execution strategies ([Strategies], strategies.rs)
    and the degradation manager ([Degradation], degradation.rs).

    A guarded closure [f] is an action on a world [W] (it may fail and takes
    time); [clock] reads [Instant::now()] in nanoseconds, [sleep] is the timer
    of the async runtime.  A call is sequential here: [Concurrent] splits it
    into the atomic accesses the source makes. *)

From S2P Require Import Prelude ObserverError.

Module CircuitBreaker.

Inductive CircuitState : Type := Closed | Open | HalfOpen.

#[export] Instance CircuitState_eq_dec : EqDecision CircuitState.
Proof. solve_decision. Defined.

Record CircuitBreakerConfig : Type := {
  failure_threshold : f64;
  sample_size : Z;
  open_timeout_ms : Z;
  half_open_max_requests : Z
}.

Definition default_config : CircuitBreakerConfig := {|
  failure_threshold := f64_div (f64_of_Z 1) (f64_of_Z 2);
  sample_size := 100;
  open_timeout_ms := 30000;
  half_open_max_requests := 5
|}.

(** The configuration is immutable and passed beside the mutable state. *)
Record CircuitBreaker : Type := mk {
  state : CircuitState;
  failure_count : Z;
  success_count : Z;
  last_failure_time : option Z;
  half_open_requests : Z
}.

Definition new : CircuitBreaker := mk Closed 0 0 None 0.

Definition set_state (s : CircuitState) (b : CircuitBreaker) : CircuitBreaker :=
  mk s b.(failure_count) b.(success_count) b.(last_failure_time) b.(half_open_requests).
Definition set_half_open_requests (n : Z) (b : CircuitBreaker) : CircuitBreaker :=
  mk b.(state) b.(failure_count) b.(success_count) b.(last_failure_time) n.

(** [failure_time.elapsed().as_millis() as u64]; instants count nanoseconds. *)
Definition elapsed_ms (now t : Z) : Z := u64_wrap (Z.max 0 (now - t) / 1000000).

Definition calculate_failure_rate (cfg : CircuitBreakerConfig) (b : CircuitBreaker) : f64 :=
  let failures := f64_of_Z b.(failure_count) in
  let successes := f64_of_Z b.(success_count) in
  let total := f64_add failures successes in
  if f64_lt total (f64_of_Z cfg.(sample_size)) then f64_zero
  else f64_div failures total.

Definition reset_counters (b : CircuitBreaker) : CircuitBreaker :=
  mk b.(state) 0 0 b.(last_failure_time) b.(half_open_requests).

Definition record_success (b : CircuitBreaker) : CircuitBreaker :=
  mk b.(state) b.(failure_count) (u64_wrap (b.(success_count) + 1))
     b.(last_failure_time) b.(half_open_requests).

Definition record_failure (cfg : CircuitBreakerConfig) (now : Z) (b : CircuitBreaker)
  : CircuitBreaker :=
  let b := mk b.(state) (u64_wrap (b.(failure_count) + 1)) b.(success_count)
              (Some now) b.(half_open_requests) in
  match b.(state) with
  | Closed =>
      if f64_lt cfg.(failure_threshold) (calculate_failure_rate cfg b)
      then set_state Open b else b
  | _ => b
  end.

(** The transition logic that runs each time the state is read. *)
Definition get_state (cfg : CircuitBreakerConfig) (now : Z) (b : CircuitBreaker)
  : CircuitState * CircuitBreaker :=
  match b.(state) with
  | Open =>
      match b.(last_failure_time) with
      | Some failure_time =>
          if cfg.(open_timeout_ms) <=? elapsed_ms now failure_time
          then (HalfOpen, set_half_open_requests 0 (set_state HalfOpen b))
          else (Open, b)
      | None => (Open, b)
      end
  | HalfOpen =>
      if f64_le (calculate_failure_rate cfg b) cfg.(failure_threshold)
      then (Closed, reset_counters (set_state Closed b))
      else if cfg.(half_open_max_requests) <=? b.(half_open_requests)
      then (Open, set_state Open b)
      else (HalfOpen, b)
  | Closed => (Closed, b)
  end.

Definition err_open : ObserverError := CircuitBreakerOpen "Circuit breaker is open".
Definition err_half_open : ObserverError :=
  CircuitBreakerOpen "Half-open circuit at max requests".

Section Call.
Context {W : Type} (clock : W -> Z).
Context (cfg : CircuitBreakerConfig).

Definition run_guarded {T} (f : W -> result ObserverError T * W)
    (b : CircuitBreaker) (w : W) : result ObserverError T * CircuitBreaker * W :=
  let (r, w') := f w in
  match r with
  | Ok v => (Ok v, record_success b, w')
  | Err e => (Err e, record_failure cfg (clock w') b, w')
  end.

Definition call {T} (f : W -> result ObserverError T * W)
    (b : CircuitBreaker) (w : W) : result ObserverError T * CircuitBreaker * W :=
  let (s, b) := get_state cfg (clock w) b in
  match s with
  | Closed => run_guarded f b w
  | Open => (Err err_open, b, w)
  | HalfOpen =>
      if cfg.(half_open_max_requests) <=? b.(half_open_requests)
      then (Err err_half_open, b, w)
      else run_guarded f (set_half_open_requests (u64_wrap (b.(half_open_requests) + 1)) b) w
  end.
End Call.

(** ** Reachable breakers *)

(** The operations a client can apply, one at a time. *)
Inductive op : Type :=
| OpGetState (now : Z)
| OpCall (start finish : Z) (ok : bool).

Definition exec_op (cfg : CircuitBreakerConfig) (o : op) (b : CircuitBreaker) : CircuitBreaker :=
  match o with
  | OpGetState now => (get_state cfg now b).2
  | OpCall start finish ok =>
      (call id cfg
         (fun _ => ((if ok then Ok tt else Err ChannelFull), finish)) b start).1.2
  end.

Definition exec_ops (cfg : CircuitBreakerConfig) (os : list op) (b : CircuitBreaker)
  : CircuitBreaker := foldl (fun b o => exec_op cfg o b) b os.

Inductive reachable (cfg : CircuitBreakerConfig) : CircuitBreaker -> Prop :=
| reachable_new : reachable cfg new
| reachable_step b o : reachable cfg b -> reachable cfg (exec_op cfg o b).

(** ** Invariant *)

(** An open or probing breaker remembers a failure time, and the probe counter
    never exceeds its limit. *)
Record inv (cfg : CircuitBreakerConfig) (b : CircuitBreaker) : Prop := {
  inv_failure_time : b.(state) <> Closed -> is_Some b.(last_failure_time);
  inv_counts : is_u64 b.(failure_count) /\ is_u64 b.(success_count);
  inv_probes : 0 <= b.(half_open_requests) <= Z.max 0 cfg.(half_open_max_requests)
}.

Lemma record_success_inv cfg b : inv cfg b -> inv cfg (record_success b).
Proof. intros [Ht [Hf Hs] Hp]. split; cbn; auto using u64_wrap_range. Qed.

Lemma record_failure_inv cfg now b : inv cfg b -> inv cfg (record_failure cfg now b).
Proof.
  intros [Ht [Hf Hs] Hp]. unfold record_failure.
  destruct (state b) eqn:Hst; cbn; repeat case_bool;
    split; cbn; eauto using u64_wrap_range.
Qed.

Lemma get_state_inv cfg now b : inv cfg b -> inv cfg (get_state cfg now b).2.
Proof.
  intros [Ht [Hf Hs] Hp]. unfold get_state.
  destruct (state b) eqn:Hst; [|destruct (last_failure_time b) eqn:Hl|];
    repeat case_bool; split; cbn; rewrite ?Hst, ?Hl; eauto; try done; try u64_lia.
Qed.

Lemma get_state_fst cfg now b : (get_state cfg now b).1 = (get_state cfg now b).2.(state).
Proof.
  unfold get_state. destruct (state b) eqn:Hst; [done|destruct (last_failure_time b)|];
    repeat case_bool; cbn; auto.
Qed.

Lemma call_inv {W T} (clock : W -> Z) cfg (f : W -> result ObserverError T * W) b w :
  is_u64 cfg.(half_open_max_requests) ->
  inv cfg b -> inv cfg (call clock cfg f b w).1.2.
Proof.
  intros Hm Hi. unfold call.
  pose proof (get_state_inv cfg (clock w) b Hi) as Hg.
  destruct (get_state cfg (clock w) b) as [s b']; cbn in Hg.
  assert (forall b, inv cfg b -> inv cfg (run_guarded clock cfg f b w).1.2) as Hrun.
  { intros b0 Hb0. unfold run_guarded. destruct (f w) as [[v|e] w']; cbn;
      auto using record_success_inv, record_failure_inv. }
  destruct s; cbn; auto. case_bool; [done|]. apply Hrun.
  to_prop. destruct Hg as [Ht Hc Hp]. split; cbn; [done|done|].
  rewrite u64_wrap_id; u64_lia.
Qed.

Lemma new_inv cfg : inv cfg new.
Proof. split; cbn; [done|u64_lia|lia]. Qed.

Lemma reachable_inv cfg b :
  is_u64 cfg.(half_open_max_requests) -> reachable cfg b -> inv cfg b.
Proof.
  intros Hm. induction 1 as [|b o _ IH]; [apply new_inv|].
  destruct o; cbn; [by apply get_state_inv | by apply call_inv].
Qed.

(** ** Fail-fast, recovery and the probe budget *)

Section Properties.
Context {W : Type} (clock : W -> Z).
Context (cfg : CircuitBreakerConfig).
Hypothesis Hmax : is_u64 cfg.(half_open_max_requests).

Lemma call_open_rejects {T} (f : W -> result ObserverError T * W) b w t :
  b.(state) = Open -> b.(last_failure_time) = Some t ->
  elapsed_ms (clock w) t < cfg.(open_timeout_ms) ->
  call clock cfg f b w = (Err err_open, b, w).
Proof.
  intros Hs Ht He. unfold call, get_state. rewrite Hs, Ht.
  destruct (Z.leb_spec (open_timeout_ms cfg) (elapsed_ms (clock w) t)); [lia|done].
Qed.

(** What an open breaker does, in every reachable state: it rejects without
    running the closure until the timeout, and probes after it. *)
Theorem open_rejects_then_probes {T} (f : W -> result ObserverError T * W) b :
  reachable cfg b -> b.(state) = Open ->
  exists t, b.(last_failure_time) = Some t /\
    forall w,
      (elapsed_ms (clock w) t < cfg.(open_timeout_ms) ->
         call clock cfg f b w = (Err err_open, b, w)) /\
      (cfg.(open_timeout_ms) <= elapsed_ms (clock w) t -> 0 < cfg.(half_open_max_requests) ->
         (call clock cfg f b w).1.1 = (f w).1 /\ (call clock cfg f b w).2 = (f w).2 /\
         (call clock cfg f b w).1.2.(state) = HalfOpen /\
         (call clock cfg f b w).1.2.(half_open_requests) = 1).
Proof.
  intros Hr Hs. destruct (inv_failure_time _ _ (reachable_inv _ _ Hmax Hr)) as [t Ht];
    [by rewrite Hs|].
  exists t. split; [done|]. intros w. split; [by apply call_open_rejects|].
  intros He Hpos. unfold call, get_state, run_guarded. rewrite Hs, Ht.
  destruct (Z.leb_spec (open_timeout_ms cfg) (elapsed_ms (clock w) t)); [|lia].
  cbn. destruct (Z.leb_spec (half_open_max_requests cfg) 0); [lia|].
  by destruct (f w) as [[v|e] w'].
Qed.
End Properties.

(** The closure of a [call] was run. *)
Definition admitted (cfg : CircuitBreakerConfig) (o : op) (b : CircuitBreaker) : bool :=
  match o with
  | OpGetState _ => false
  | OpCall start _ _ =>
      let (s, b) := get_state cfg start b in
      match s with
      | Closed => true
      | Open => false
      | HalfOpen => negb (cfg.(half_open_max_requests) <=? b.(half_open_requests))
      end
  end.

(** Closures run before the breaker leaves [HalfOpen]. *)
Fixpoint probes_run (cfg : CircuitBreakerConfig) (os : list op) (b : CircuitBreaker) : Z :=
  match os with
  | [] => 0
  | o :: os =>
      let b' := exec_op cfg o b in
      match b'.(state) with
      | HalfOpen => b2z (admitted cfg o b) + probes_run cfg os b'
      | _ => 0
      end
  end.

(** Recording an outcome keeps the probe counter, and only [get_state] enters
    [HalfOpen]. *)
Lemma run_guarded_probes {W T} (clock : W -> Z) cfg (f : W -> result ObserverError T * W) b w :
  (run_guarded clock cfg f b w).1.2.(half_open_requests) = b.(half_open_requests) /\
  ((run_guarded clock cfg f b w).1.2.(state) = HalfOpen -> b.(state) = HalfOpen).
Proof.
  unfold run_guarded, record_failure. destruct (f w) as [[v|e] w']; cbn; [done|].
  destruct (state b) eqn:Hs; cbn; try done. by case_bool.
Qed.

Lemma exec_op_half_open cfg o b :
  is_u64 cfg.(half_open_max_requests) -> inv cfg b ->
  b.(state) = HalfOpen -> (exec_op cfg o b).(state) = HalfOpen ->
  (exec_op cfg o b).(half_open_requests) = b.(half_open_requests) + b2z (admitted cfg o b).
Proof.
  intros Hm [_ _ Hp] Hs. destruct o as [now|start finish ok].
  - cbn. unfold get_state; rewrite Hs; repeat case_bool; cbn; try done; lia.
  - cbn -[run_guarded]. unfold call, get_state; rewrite Hs.
    destruct (f64_le _ _); cbn -[run_guarded].
    + intros H. apply run_guarded_probes in H. done.
    + destruct (half_open_max_requests cfg <=? half_open_requests b) eqn:He;
        cbn -[run_guarded]; rewrite ?He; cbn -[run_guarded]; [lia|]. to_prop.
      intros _. rewrite (proj1 (run_guarded_probes _ _ _ _ _)). cbn.
      rewrite u64_wrap_id; u64_lia.
Qed.

(** Whatever the clients do and whatever the probes return, one stay in
    [HalfOpen] runs at most [half_open_max_requests] closures. *)
Theorem probe_budget cfg os b :
  is_u64 cfg.(half_open_max_requests) -> reachable cfg b -> b.(state) = HalfOpen ->
  b.(half_open_requests) + probes_run cfg os b <= Z.max 0 cfg.(half_open_max_requests).
Proof.
  intros Hm. revert b. induction os as [|o os IH]; intros b Hr Hs; cbn.
  - destruct (reachable_inv cfg b Hm Hr) as [_ _ ?]. lia.
  - pose proof (reachable_inv cfg b Hm Hr) as Hi. pose proof (inv_probes _ _ Hi) as Hp.
    destruct (state (exec_op cfg o b)) eqn:Hs'; [lia|lia|].
    specialize (IH _ (reachable_step _ _ o Hr) Hs').
    rewrite exec_op_half_open in IH by done. lia.
Qed.

(** A service that failed a hundred times, opened the breaker, and answers
    every probe after the timeout. *)
Definition failed_service_then_recovered : CircuitBreaker :=
  exec_ops default_config
    (replicate 100 (OpCall 0 0 false) ++
     replicate 5 (OpCall 30000000000 30000000000 true)) new.

(** The probes' outcomes are mixed with the failures that opened the breaker:
    a breaker whose probes all succeed goes back to [Open]. *)
Theorem successful_probes_reopen :
  (exec_ops default_config (replicate 100 (OpCall 0 0 false)) new).(state) = Open /\
  failed_service_then_recovered.(state) = HalfOpen /\
  failed_service_then_recovered.(success_count) = 5 /\
  (get_state default_config 30000000000 failed_service_then_recovered).1 = Open.
Proof. vm_compute. auto. Qed.


(** A breaker that one failure opens for ten milliseconds, with one probe. *)
Definition fragile_config : CircuitBreakerConfig := {|
  failure_threshold := f64_div (f64_of_Z 1) (f64_of_Z 2); sample_size := 1;
  open_timeout_ms := 10; half_open_max_requests := 1 |}.
Definition opened : CircuitBreaker :=
  exec_ops fragile_config [OpCall 0 0 false; OpGetState 0] new.
Definition probing : CircuitBreaker :=
  exec_ops fragile_config [OpGetState 50000000] opened.

Lemma opened_reachable : reachable fragile_config opened.
Proof. repeat apply reachable_step. apply reachable_new. Qed.

Lemma probing_reachable : reachable fragile_config probing.
Proof. apply (reachable_step _ _ (OpGetState 50000000)), opened_reachable. Qed.

Lemma open_rejects_then_probes_witness :
  exists t, opened.(last_failure_time) = Some t /\
    forall w : Z,
      (elapsed_ms w t < 10 ->
         call (fun w => w) fragile_config (fun w => (Ok tt, w)) opened w = (Err err_open, opened, w)) /\
      (10 <= elapsed_ms w t -> 0 < 1 ->
         (call (fun w => w) fragile_config (fun w => (Ok tt, w)) opened w).1.1 = Ok tt /\
         (call (fun w => w) fragile_config (fun w => (Ok tt, w)) opened w).2 = w /\
         (call (fun w => w) fragile_config (fun w => (Ok tt, w)) opened w).1.2.(state) = HalfOpen /\
         (call (fun w => w) fragile_config (fun w => (Ok tt, w)) opened w).1.2.(half_open_requests) = 1).
Proof.
  apply (open_rejects_then_probes (fun w : Z => w) fragile_config
           ltac:(vm_compute; split; discriminate) (fun w => (Ok tt, w)) opened opened_reachable).
  vm_compute. reflexivity.
Defined.

Lemma probe_budget_witness :
  probing.(half_open_requests)
    + probes_run fragile_config (replicate 4 (OpCall 50000000 50000000 true)) probing <= Z.max 0 1.
Proof.
  apply (probe_budget fragile_config (replicate 4 (OpCall 50000000 50000000 true)) probing
           ltac:(vm_compute; split; discriminate) probing_reachable).
  vm_compute. reflexivity.
Defined.
End CircuitBreaker.

(** * Concurrent calls

    The futures of several [call]s interleave at their awaits and on their
    atomic accesses.  A thread goes through the accesses of [call] one at a
    time: the locked [get_state], the load of the probe counter, its
    [fetch_add], the closure, and the three accesses of [record_failure]. *)
Module Concurrent.
Import CircuitBreaker.

Inductive pc : Type :=
| Start                 (* before [get_state] *)
| Admit                 (* saw [HalfOpen], before the load *)
| Granted               (* load below the limit, before the [fetch_add] *)
| Running               (* inside [f] *)
| Failed1               (* before [failure_count.fetch_add] *)
| Failed2               (* before the store of [last_failure_time] *)
| Failed3               (* before the locked check *)
| Done.

#[export] Instance pc_eq_dec : EqDecision pc.
Proof. solve_decision. Defined.

Definition granted (p : pc) : bool := match p with Granted => true | _ => false end.

Definition add_failure (b : CircuitBreaker) : CircuitBreaker :=
  mk b.(state) (u64_wrap (b.(failure_count) + 1)) b.(success_count)
     b.(last_failure_time) b.(half_open_requests).
Definition store_failure_time (now : Z) (b : CircuitBreaker) : CircuitBreaker :=
  mk b.(state) b.(failure_count) b.(success_count) (Some now) b.(half_open_requests).
Definition check_open (cfg : CircuitBreakerConfig) (b : CircuitBreaker) : CircuitBreaker :=
  match b.(state) with
  | Closed =>
      if f64_lt cfg.(failure_threshold) (calculate_failure_rate cfg b)
      then set_state Open b else b
  | _ => b
  end.

(** Run without interruption, the three accesses are [record_failure]. *)
Lemma record_failure_steps cfg now b :
  check_open cfg (store_failure_time now (add_failure b)) = record_failure cfg now b.
Proof. done. Qed.

(** One atomic access of one thread; [now] is its clock reading and [ok] the
    outcome of its closure. *)
Definition thread_step (cfg : CircuitBreakerConfig) (now : Z) (ok : bool)
    (p : pc) (b : CircuitBreaker) : pc * CircuitBreaker :=
  match p with
  | Start =>
      let (s, b) := get_state cfg now b in
      (match s with Closed => Running | Open => Done | HalfOpen => Admit end, b)
  | Admit =>
      (if cfg.(half_open_max_requests) <=? b.(half_open_requests) then Done else Granted, b)
  | Granted => (Running, set_half_open_requests (u64_wrap (b.(half_open_requests) + 1)) b)
  | Running => if ok then (Done, record_success b) else (Failed1, b)
  | Failed1 => (Failed2, add_failure b)
  | Failed2 => (Failed3, store_failure_time now b)
  | Failed3 => (Done, check_open cfg b)
  | Done => (Done, b)
  end.

Inductive step (cfg : CircuitBreakerConfig) :
    CircuitBreaker * list pc -> CircuitBreaker * list pc -> Prop :=
| step_thread b ps i p now ok :
    ps !! i = Some p ->
    step cfg (b, ps) ((thread_step cfg now ok p b).2, <[i := (thread_step cfg now ok p b).1]> ps).

Definition steps (cfg : CircuitBreakerConfig) := rtc (step cfg).

(** Threads past the check but before the increment can overshoot the limit,
    so the bound that survives interleaving counts them. *)
Definition probes_bounded (cfg : CircuitBreakerConfig) (n : Z) (c : CircuitBreaker * list pc) : Prop :=
  Z.of_nat (length c.2) = n /\ 0 <= c.1.(half_open_requests) /\
  c.1.(half_open_requests) + countb granted c.2 <= Z.max 0 (cfg.(half_open_max_requests) + n - 1).

Lemma thread_step_probes cfg now ok p b :
  p <> Granted -> 0 <= b.(half_open_requests) ->
  0 <= (thread_step cfg now ok p b).2.(half_open_requests) <= b.(half_open_requests).
Proof.
  intros Hp Hb. destruct p; try done; cbn; try lia.
  - destruct (get_state cfg now b) as [s b'] eqn:Hg. cbn.
    change b' with (s, b').2. rewrite <- Hg. unfold get_state.
    destruct (state b); [|destruct (last_failure_time b)|]; repeat case_bool; cbn; lia.
  - destruct ok; cbn; lia.
  - unfold check_open. destruct (state b); repeat case_bool; cbn; lia.
Qed.

Lemma granted_after cfg now ok p b :
  granted (thread_step cfg now ok p b).1 = true ->
  p = Admit /\ b.(half_open_requests) < cfg.(half_open_max_requests).
Proof.
  destruct p; cbn; try done.
  - destruct (get_state cfg now b) as [[] ?]; done.
  - case_bool; [done|]. intros _. to_prop. auto.
  - by destruct ok.
Qed.

Lemma step_probes_bounded cfg n c c' :
  is_u64 cfg.(half_open_max_requests) -> cfg.(half_open_max_requests) + n <= u64_max ->
  step cfg c c' -> probes_bounded cfg n c -> probes_bounded cfg n c'.
Proof.
  intros Hm Hn [b ps i p now ok Hi] (Hlen & Hnn & Hb); cbn in *.
  pose proof (countb_range granted ps) as Hr.
  assert (Z.of_nat (length ps) = n) as Hl by done.
  split; [cbn; by rewrite length_insert|]; cbn.
  rewrite (countb_insert _ _ _ _ _ Hi).
  destruct (decide (p = Granted)) as [->|Hp].
  - cbn. rewrite u64_wrap_id; [lia|]. u64_lia.
  - pose proof (thread_step_probes cfg now ok p b Hp Hnn).
    replace (granted p) with false by (by destruct p). cbn.
    destruct (granted (thread_step cfg now ok p b).1) eqn:Hg; cbn; [|lia].
    apply granted_after in Hg as [-> Hlt].
    assert (countb granted ps < n) by (rewrite <- Hl; by eapply countb_lt). lia.
Qed.

(** With [n] concurrent calls the probe counter never exceeds the limit by more
    than [n - 1]. *)
Theorem concurrent_probe_bound cfg n c :
  is_u64 cfg.(half_open_max_requests) ->
  cfg.(half_open_max_requests) + Z.of_nat n <= u64_max ->
  steps cfg (new, replicate n Start) c ->
  c.1.(half_open_requests) <= Z.max 0 (cfg.(half_open_max_requests) + Z.of_nat n - 1).
Proof.
  intros Hm Hn Hc.
  assert (probes_bounded cfg (Z.of_nat n) c) as (_ & _ & Hb).
  { eapply rtc_invariant; [| exact Hc |]; [by intros; eapply step_probes_bounded|].
    split; cbn; [by rewrite length_replicate|]. split; [lia|].
    clear. induction n as [|n IH]; cbn; lia. }
  pose proof (countb_range granted c.2). lia.
Qed.

(** One failure opens the breaker; one probe is allowed. *)
Definition one_probe_config : CircuitBreakerConfig := {|
  failure_threshold := f64_zero; sample_size := 1;
  open_timeout_ms := 0; half_open_max_requests := 1 |}.

Definition run_threads (cfg : CircuitBreakerConfig) (sched : list (nat * bool))
    (c : CircuitBreaker * list pc) : CircuitBreaker * list pc :=
  foldl (fun c ib =>
    match c.2 !! ib.1 with
    | Some p => let s := thread_step cfg 0 ib.2 p c.1 in (s.2, <[ib.1 := s.1]> c.2)
    | None => c
    end) c sched.

Lemma run_threads_steps cfg sched c : steps cfg c (run_threads cfg sched c).
Proof.
  revert c. induction sched as [|[i ok] sched IH]; intros [b ps]; [apply rtc_refl|]; cbn.
  destruct (ps !! i) as [p|] eqn:Hp; [|apply IH].
  eapply rtc_l; [by apply (step_thread cfg b ps i p 0 ok)|apply IH].
Qed.

(** Thread 0 fails and opens the breaker; threads 1 and 2 are both admitted. *)
Definition overshoot : CircuitBreaker * list pc :=
  run_threads one_probe_config
    ([(0, true); (0, false); (0, false); (0, false); (0, false)]
       ++ [(1, true); (2, true); (1, true); (2, true); (1, true); (2, true)])%nat
    (new, replicate 3 Start).

(** The bound is reached: with a limit of one, two calls that both load the
    counter before either increments it run two probes. *)
Theorem half_open_limit_overshoot :
  exists c, steps one_probe_config (new, replicate 3 Start) c /\
    c.1.(state) = HalfOpen /\ c.2 !! 1%nat = Some Running /\ c.2 !! 2%nat = Some Running /\
    one_probe_config.(half_open_max_requests) < c.1.(half_open_requests).
Proof. exists overshoot. split; [apply run_threads_steps|]. vm_compute. auto. Qed.

Lemma concurrent_probe_bound_witness :
  overshoot.1.(half_open_requests) <= Z.max 0 (1 + 3 - 1).
Proof.
  apply (concurrent_probe_bound one_probe_config 3 overshoot).
  - vm_compute; split; discriminate.
  - vm_compute; discriminate.
  - apply run_threads_steps.
Defined.
End Concurrent.

(** * Per-endpoint breakers *)
Module PerEndpoint.
Import CircuitBreaker.

(** The shared [DashMap<String, Arc<CircuitBreaker>>]; every breaker has the
    manager's [default_config]. *)
Abbreviation breakers := (gmap string CircuitBreaker).

Definition get_or_create (endpoint : string) (m : breakers) : CircuitBreaker * breakers :=
  match m !! endpoint with
  | Some b => (b, m)
  | None => (new, <[endpoint := new]> m)
  end.

Definition reset_endpoint (endpoint : string) (m : breakers) : breakers := delete endpoint m.
Definition reset_all (m : breakers) : breakers := ∅.
Definition endpoint_count (m : breakers) : nat := size m.

(** [get_all_states] runs the transition logic of every breaker it lists;
    [now] is the instant at which an entry is visited. *)
Definition get_all_states (cfg : CircuitBreakerConfig) (now : string -> Z) (m : breakers)
  : gmap string CircuitState * breakers :=
  (map_imap (fun e b => Some (get_state cfg (now e) b).1) m,
   map_imap (fun e b => Some (get_state cfg (now e) b).2) m).

Section Call.
Context {W : Type} (clock : W -> Z) (cfg : CircuitBreakerConfig).

Definition call {T} (endpoint : string) (f : W -> result ObserverError T * W)
    (m : breakers) (w : W) : result ObserverError T * breakers * W :=
  let (b, m) := get_or_create endpoint m in
  let '(r, b, w) := CircuitBreaker.call clock cfg f b w in
  (r, <[endpoint := b]> m, w).
End Call.

Inductive op : Type :=
| Call (endpoint : string) (start finish : Z) (ok : bool)
| ResetEndpoint (endpoint : string)
| ResetAll
| AllStates (now : string -> Z).

Definition exec_op (cfg : CircuitBreakerConfig) (o : op) (m : breakers) : breakers :=
  match o with
  | Call e start finish ok =>
      (call id cfg e (fun _ => ((if ok then Ok tt else Err ChannelFull), finish)) m start).1.2
  | ResetEndpoint e => reset_endpoint e m
  | ResetAll => reset_all m
  | AllStates now => (get_all_states cfg now m).2
  end.

Definition exec_ops (cfg : CircuitBreakerConfig) (os : list op) (m : breakers) : breakers :=
  foldl (fun m o => exec_op cfg o m) m os.

(** What a sequence of registry operations means to one endpoint: a breaker of
    its own, absent until its first call. *)
Definition endpoint_op (cfg : CircuitBreakerConfig) (e : string) (o : op)
    (b : option CircuitBreaker) : option CircuitBreaker :=
  match o with
  | Call e' start finish ok =>
      if decide (e' = e)
      then Some (CircuitBreaker.exec_op cfg (OpCall start finish ok) (default new b))
      else b
  | ResetEndpoint e' => if decide (e' = e) then None else b
  | ResetAll => None
  | AllStates now => CircuitBreaker.exec_op cfg (OpGetState (now e)) <$> b
  end.

Lemma exec_op_lookup cfg o m e :
  exec_op cfg o m !! e = endpoint_op cfg e o (m !! e).
Proof.
  destruct o as [e' start finish ok|e'| |now]; cbn -[CircuitBreaker.exec_op].
  - unfold call, get_or_create.
    destruct (m !! e') as [b|] eqn:Hb;
      destruct (CircuitBreaker.call _ _ _ _ _) as [[r b'] w] eqn:Hc; cbn;
      unfold CircuitBreaker.exec_op; case_decide; simplify_map_eq; by rewrite ?Hc.
  - unfold reset_endpoint. case_decide; by simplify_map_eq.
  - done.
  - rewrite map_lookup_imap. by destruct (m !! e).
Qed.

(** The registry refines independent breakers: after any operations, the entry
    of an endpoint is the breaker its own operations produce. *)
Theorem endpoints_independent cfg os m e :
  exec_ops cfg os m !! e = foldl (fun b o => endpoint_op cfg e o b) (m !! e) os.
Proof.
  revert m. induction os as [|o os IH]; intros m; cbn; [done|].
  unfold exec_ops in IH. by rewrite IH, exec_op_lookup.
Qed.
End PerEndpoint.

(** * Execution strategies *)
Module Strategies.
Import CircuitBreaker.

Inductive ResilienceStrategy : Type :=
| FailFast
| Fallback (value : string)
| RetryWithBreaker (max_attempts backoff_ms : Z).

Section Execute.
Context {W : Type} (clock : W -> Z) (sleep : Z -> W -> W).
Context (cfg : CircuitBreakerConfig).
Context {T : Type} (f : W -> result ObserverError T * W).

(** The retry loop, [attempt] being the number of attempts already made. *)
Fixpoint retry_loop (fuel : nat) (max_attempts backoff_ms attempt : Z)
    (b : CircuitBreaker) (w : W)
  : option (result ObserverError T * CircuitBreaker * W) :=
  match fuel with
  | O => None
  | S fuel =>
      let attempt := attempt + 1 in
      let '(r, b, w) := call clock cfg f b w in
      match r with
      | Ok v => Some (Ok v, b, w)
      | Err e =>
          if max_attempts <=? attempt then Some (Err e, b, w)
          else retry_loop fuel max_attempts backoff_ms attempt b (sleep backoff_ms w)
      end
  end.

(** An attempt count below [max_attempts] is a [u32], so one iteration per
    attempt (and one more when [max_attempts] is 0) is enough fuel. *)
Definition execute (strategy : ResilienceStrategy) (b : CircuitBreaker) (w : W)
  : option (result ObserverError T * CircuitBreaker * W) :=
  match strategy with
  | FailFast => Some (call clock cfg f b w)
  | Fallback _ => Some (call clock cfg f b w)
  | RetryWithBreaker max_attempts backoff_ms =>
      retry_loop (S (Z.to_nat max_attempts)) max_attempts backoff_ms 0 b w
  end.

(** The state after [n] attempts that all fail, each followed by the backoff. *)
Fixpoint after_failures (backoff_ms : Z) (n : nat) (b : CircuitBreaker) (w : W)
  : option (CircuitBreaker * W) :=
  match n with
  | O => Some (b, w)
  | S n =>
      let '(r, b, w) := call clock cfg f b w in
      if is_ok r then None else after_failures backoff_ms n b (sleep backoff_ms w)
  end.

Lemma retry_loop_spec fuel m d a b w :
  0 <= a -> m - a < Z.of_nat fuel -> (0 < fuel)%nat ->
  exists n bn wn,
    after_failures d n b w = Some (bn, wn) /\
    a + Z.of_nat n + 1 <= Z.max (a + 1) m /\
    retry_loop fuel m d a b w = Some (call clock cfg f bn wn) /\
    (is_ok (call clock cfg f bn wn).1.1 = true \/ m <= a + Z.of_nat n + 1).
Proof.
  revert a b w. induction fuel as [|fuel IH]; intros a b w Ha Hf Hpos; [lia|].
  cbn [retry_loop]. destruct (call clock cfg f b w) as [[r b'] w'] eqn:Hc.
  destruct r as [v|e].
  - exists O, b, w. cbn. rewrite Hc. cbn. repeat split; auto; lia.
  - destruct (Z.leb_spec m (a + 1)) as [Hm|Hm].
    + exists O, b, w. cbn. rewrite Hc. cbn. repeat split; auto; lia.
    + destruct (IH (a + 1) b' (sleep d w')) as (n & bn & wn & Hn & Hle & Hr & Hend); [lia..|].
      exists (S n), bn, wn. cbn [after_failures]. rewrite Hc. cbn [is_ok].
      repeat split; [done|lia|done|]. destruct Hend; [auto|right; lia].
Qed.

(** [RetryWithBreaker] always returns, with the outcome of its last attempt:
    the first success, or the failure that exhausts [max_attempts]. *)
Theorem execute_retry m d b w :
  is_u32 m ->
  exists n bn wn,
    after_failures d n b w = Some (bn, wn) /\
    Z.of_nat n + 1 <= Z.max 1 m /\
    execute (RetryWithBreaker m d) b w = Some (call clock cfg f bn wn) /\
    (is_ok (call clock cfg f bn wn).1.1 = true \/ m <= Z.of_nat n + 1).
Proof.
  intros Hm. unfold is_u32 in Hm.
  destruct (retry_loop_spec (S (Z.to_nat m)) m d 0 b w) as (n & bn & wn & ? & ? & ? & ?);
    [lia..|]. exists n, bn, wn. repeat split; try done; lia.
Qed.
End Execute.

(** A service that answers at the third attempt. *)
Definition third_time (w : Z) : result ObserverError Z * Z :=
  (if w <? 2 then Err (ActionExecutionFailed "busy") else Ok 42, w + 1).

Lemma execute_retry_witness :
  exists n bn wn,
    after_failures (fun w => w) (fun _ w => w) default_config third_time 10 n new 0 = Some (bn, wn) /\
    Z.of_nat n + 1 <= Z.max 1 5 /\
    execute (fun w => w) (fun _ w => w) default_config third_time (RetryWithBreaker 5 10) new 0
      = Some (call (fun w => w) default_config third_time bn wn) /\
    (is_ok (call (fun w => w) default_config third_time bn wn).1.1 = true \/ 5 <= Z.of_nat n + 1).
Proof.
  apply (execute_retry (fun w : Z => w) (fun _ w => w) default_config third_time 5 10 new 0).
  vm_compute; split; discriminate.
Defined.

(** The fallback value is never used: [Fallback] is [FailFast]. *)
Theorem fallback_is_fail_fast {W T} (clock : W -> Z) sleep cfg
    (f : W -> result ObserverError T * W) v b w :
  execute clock sleep cfg f (Fallback v) b w = execute clock sleep cfg f FailFast b w.
Proof. done. Qed.
End Strategies.

(** * Graceful degradation *)
Module Degradation.
Import CircuitBreaker.

Inductive DegradationLevel : Type := Normal | Degraded | Critical.

Record GracefulDegradation : Type := mk {
  circuit_breaker : CircuitBreaker;
  enabled : bool;
  degraded_mode : bool
}.

Definition new (b : CircuitBreaker) : GracefulDegradation := mk b true false.
Definition is_degraded (d : GracefulDegradation) : bool := d.(degraded_mode).
Definition is_enabled (d : GracefulDegradation) : bool := d.(enabled).
Definition set_enabled (e : bool) (d : GracefulDegradation) : GracefulDegradation :=
  mk d.(circuit_breaker) e d.(degraded_mode).

Definition get_degradation_level (cfg : CircuitBreakerConfig) (now : Z) (d : GracefulDegradation)
  : DegradationLevel * GracefulDegradation :=
  if negb d.(enabled) then (Critical, d)
  else
    let (s, b) := get_state cfg now d.(circuit_breaker) in
    (match s with Closed => Normal | HalfOpen => Degraded | Open => Critical end,
     mk b d.(enabled) d.(degraded_mode)).

Definition is_normal (l : DegradationLevel) : bool :=
  match l with Normal => true | _ => false end.

Definition with_degradation {W T} (clock : W -> Z) (cfg : CircuitBreakerConfig)
    (f : DegradationLevel -> W -> result ObserverError T * W)
    (d : GracefulDegradation) (w : W) : result ObserverError T * GracefulDegradation * W :=
  let (level, d) := get_degradation_level cfg (clock w) d in
  let d := mk d.(circuit_breaker) d.(enabled) (negb (is_normal level)) in
  let (r, w) := f level w in
  (r, d, w).

(** The closure always runs, exactly once, at the level of the breaker's state
    after its transition, and [is_degraded] tells whether that state is not
    [Closed]; a disabled manager reports [Critical] and leaves its breaker
    alone. *)
Theorem with_degradation_level {W T} (clock : W -> Z) cfg
    (f : DegradationLevel -> W -> result ObserverError T * W) d w :
  let s := (get_state cfg (clock w) d.(circuit_breaker)).2 in
  let level := if d.(enabled)
    then match s.(state) with Closed => Normal | HalfOpen => Degraded | Open => Critical end
    else Critical in
  let d' := (with_degradation clock cfg f d w).1.2 in
  (with_degradation clock cfg f d w).1.1 = (f level w).1 /\
  (with_degradation clock cfg f d w).2 = (f level w).2 /\
  (is_degraded d' = true <-> level <> Normal) /\
  d'.(circuit_breaker) = (if d.(enabled) then s else d.(circuit_breaker)).
Proof.
  cbn. unfold with_degradation, get_degradation_level.
  pose proof (get_state_fst cfg (clock w) d.(circuit_breaker)) as Hs.
  destruct (enabled d); cbn.
  - destruct (get_state cfg (clock w) (circuit_breaker d)) as [s b]; cbn in Hs |- *. subst s.
    destruct (f _ w) as [r w'] eqn:Hf; cbn; rewrite ?Hf; cbn.
    destruct (state b); cbn in *; rewrite ?Hf; repeat split; done.
  - destruct (f Critical w); cbn; repeat split; done.
Qed.
End Degradation.
