(* ===== verification/JobQueue.v ===== *)
(** * The job queue

    crates/fraiseql-observers/src/job_queue/: backoff delays ([Backoff],
    backoff.rs), the job and its lifecycle ([Job], mod.rs), the queue interface
    and its in-memory implementation (traits.rs), the Redis implementation
    ([Redis], redis.rs) and the worker loop ([JobExecutor], executor.rs).

    [JobQueue] is the trait; [JobQueueLaws] states what an implementation
    promises about where a job is.  The worker's theorems are proved from the
    laws, which both implementations satisfy. *)

From S2P Require Import Prelude ObserverError ObserverConfig.

(** ** Backoff delays *)
Module Backoff.

(** [attempt] is 1-based; a release build wraps [attempt - 1] at 0. *)
Definition calculate_exponential (attempt initial_delay_ms max_delay_ms : Z) : Z :=
  let exponent := Z.min (u32_wrap (attempt - 1)) 63 in
  let delay_ms := u64_saturating_mul initial_delay_ms (u64_saturating_pow 2 exponent) in
  Z.min delay_ms max_delay_ms.

Definition calculate_linear (attempt initial_delay_ms max_delay_ms : Z) : Z :=
  let delay_ms := u64_saturating_mul initial_delay_ms attempt in
  Z.min delay_ms max_delay_ms.

Definition calculate_backoff (strategy : BackoffStrategy)
    (attempt initial_delay_ms max_delay_ms : Z) : Z :=
  match strategy with
  | Exponential => calculate_exponential attempt initial_delay_ms max_delay_ms
  | Linear => calculate_linear attempt initial_delay_ms max_delay_ms
  | Fixed => initial_delay_ms
  end.

(** The documented formulas, over unbounded integers. *)
Definition backoff_spec (strategy : BackoffStrategy) (attempt initial_delay max_delay : Z) : Z :=
  match strategy with
  | Exponential => Z.min (initial_delay * 2 ^ (attempt - 1)) max_delay
  | Linear => Z.min (initial_delay * attempt) max_delay
  | Fixed => initial_delay
  end.

Lemma saturating_mul_min a b m :
  0 <= a -> 0 <= b -> is_u64 m -> Z.min (u64_saturating_mul a b) m = Z.min (a * b) m.
Proof.
  intros Ha Hb Hm. unfold u64_saturating_mul, u64_sat. assert (0 <= a * b) by nia. u64_lia.
Qed.

Lemma u32_wrap_pred attempt : is_u32 attempt -> 1 <= attempt -> u32_wrap (attempt - 1) = attempt - 1.
Proof. intros Ha H1. unfold u32_wrap. apply Z.mod_small. u64_lia. Qed.

Lemma saturating_pow2 e : 0 <= e <= 63 -> u64_saturating_pow 2 e = 2 ^ e.
Proof.
  intros He. unfold u64_saturating_pow. apply u64_sat_id.
  assert (2 ^ e <= 2 ^ 63) by (apply Z.pow_le_mono_r; lia).
  assert (0 < 2 ^ e) by (apply Z.pow_pos_nonneg; lia).
  unfold is_u64. rewrite u64_max_val. change (2 ^ 63) with 9223372036854775808 in *. lia.
Qed.

(** Saturation and the clamped exponent never change a delay that the cap of
    [max_delay_ms <= 2^63] milliseconds leaves visible. *)
Theorem backoff_meets_spec strategy attempt initial max :
  is_u32 attempt -> 1 <= attempt -> is_u64 initial -> is_u64 max -> max <= 2 ^ 63 ->
  calculate_backoff strategy attempt initial max = backoff_spec strategy attempt initial max.
Proof.
  intros Ha H1 Hi Hm Hmax.
  assert (0 <= initial) by (unfold is_u64 in Hi; lia).
  destruct strategy; cbn; [| |done].
  - unfold calculate_exponential. rewrite u32_wrap_pred, saturating_pow2 by (done || lia).
    assert (0 <= 2 ^ Z.min (attempt - 1) 63) by (apply Z.pow_nonneg; lia).
    rewrite saturating_mul_min by done.
    destruct (Z.le_gt_cases (attempt - 1) 63) as [Hle|Hgt]; [by rewrite (Z.min_l (attempt - 1))|].
    rewrite (Z.min_r (attempt - 1)) by lia.
    destruct (Z.eq_dec initial 0) as [->|Hnz]; [done|].
    assert (2 ^ 63 <= 2 ^ (attempt - 1)) by (apply Z.pow_le_mono_r; lia).
    rewrite !Z.min_r; nia.
  - unfold calculate_linear. apply saturating_mul_min; lia || done.
Qed.

End Backoff.

(** ** Jobs *)
Module Job.

Inductive JobState : Type := Pending | Running | Completed | Failed | DeadLettered.

#[export] Instance JobState_eq_dec : EqDecision JobState.
Proof. solve_decision. Defined.

Definition is_terminal (s : JobState) : bool :=
  match s with Completed | Failed | DeadLettered => true | _ => false end.
Definition is_active (s : JobState) : bool :=
  match s with Pending | Running => true | _ => false end.

Record JobAttempt : Type := {
  attempt_no : Z;
  started_at : Z;
  success : bool;
  error : option string
}.

(** A 128-bit identifier. *)
Definition Uuid : Type := N.

Record Job : Type := mkJob {
  id : Uuid;
  event_id : string;
  action : ActionConfig;
  created_at : Z;
  attempt : Z;
  max_attempts : Z;
  backoff_strategy : BackoffStrategy;
  initial_delay_ms : Z;
  max_delay_ms : Z;
  state : JobState;
  last_error : option string;
  retry_at : option Z;
  attempts : list JobAttempt
}.

#[export] Instance JobAttempt_eq_dec : EqDecision JobAttempt.
Proof. solve_decision. Defined.
#[export] Instance Job_eq_dec : EqDecision Job.
Proof. solve_decision. Defined.

(** [id] and [now] are the fresh UUID and the clock reading. *)
Definition new (id : Uuid) (event_id : string) (action : ActionConfig) (now max_attempts : Z)
    (backoff_strategy : BackoffStrategy) : Job :=
  mkJob id event_id action now 1 max_attempts backoff_strategy 100 30000 Pending None None [].

Definition with_config (id : Uuid) (event_id : string) (action : ActionConfig) (now max_attempts : Z)
    (backoff_strategy : BackoffStrategy) (initial_delay_ms max_delay_ms : Z) : Job :=
  mkJob id event_id action now 1 max_attempts backoff_strategy
        initial_delay_ms max_delay_ms Pending None None [].

(** Field updates. *)
Definition upd (j : Job) (attempt : Z) (state : JobState) (last_error : option string)
    (attempts : list JobAttempt) : Job :=
  mkJob j.(id) j.(event_id) j.(action) j.(created_at) attempt j.(max_attempts)
        j.(backoff_strategy) j.(initial_delay_ms) j.(max_delay_ms) state last_error
        j.(retry_at) attempts.

Definition can_retry (j : Job) : bool := j.(attempt) <? j.(max_attempts).

Definition mark_completed (now : Z) (j : Job) : Job :=
  upd j j.(attempt) Completed j.(last_error)
      (j.(attempts) ++ [{| attempt_no := j.(attempt); started_at := now;
                           success := true; error := None |}]).

Definition mark_failed (now : Z) (err : string) (j : Job) : Job :=
  let attempts := j.(attempts) ++ [{| attempt_no := j.(attempt); started_at := now;
                                      success := false; error := Some err |}] in
  if can_retry j
  then upd j (j.(attempt) + 1) Pending (Some err) attempts
  else upd j j.(attempt) Failed (Some err) attempts.

Definition mark_dead_lettered (reason : string) (j : Job) : Job :=
  upd j j.(attempt) DeadLettered (Some reason) j.(attempts).

Definition mark_running (j : Job) : Job :=
  upd j j.(attempt) Running j.(last_error) j.(attempts).

Definition action_type (j : Job) : string := Action.action_type j.(action).

Lemma mark_failed_id now err j : (mark_failed now err j).(id) = j.(id).
Proof. unfold mark_failed. by case_bool. Qed.

Lemma mark_failed_attempt now err j :
  (mark_failed now err j).(attempt) = (if can_retry j then j.(attempt) + 1 else j.(attempt)) /\
  (mark_failed now err j).(max_attempts) = j.(max_attempts).
Proof. unfold mark_failed. by case_bool. Qed.

(** The attempt counter never passes [max_attempts] (when it starts within). *)
Lemma mark_failed_bounded now err j :
  j.(attempt) <= Z.max 1 j.(max_attempts) ->
  (mark_failed now err j).(attempt) <= Z.max 1 (mark_failed now err j).(max_attempts).
Proof.
  intros. destruct (mark_failed_attempt now err j) as [-> ->].
  unfold can_retry. case_bool; bool_lia.
Qed.
End Job.
Export Job.

Lemma mark_failed_can_retry now err j :
  can_retry (mark_failed now err j) = (j.(attempt) + 1 <? j.(max_attempts)).
Proof.
  unfold can_retry at 1. destruct (mark_failed_attempt now err j) as [-> ->].
  unfold can_retry. case_bool; bool_lia || (symmetry; apply Z.ltb_ge; bool_lia) || done.
Qed.

(** ** The queue interface

    Every operation returns its [Result] and the queue it leaves; [fail] also
    returns the job it updated through [&mut].  [now] is the clock reading. *)
Class JobQueue (Q : Type) : Type := {
  enqueue : Job -> Q -> result ObserverError unit * Q;
  dequeue (now : Z) (batch_size : nat) (timeout_secs : Z) :
    Q -> result ObserverError (list Job) * Q;
  acknowledge (now : Z) : Uuid -> Q -> result ObserverError unit * Q;
  fail (now : Z) : Job -> string -> Q -> result ObserverError unit * Job * Q;
  get_status : Uuid -> Q -> result ObserverError (option JobState) * Q;
  queue_depth : Q -> result ObserverError Z * Q;
  dlq_size : Q -> result ObserverError Z * Q
}.

(** What the worker relies on.  A [healthy] queue answers every call (its store
    is reachable and serialisation succeeds); [is_pending] and [is_dlq] say
    whether the queue holds an identifier for execution or as dead. *)
Class JobQueueLaws (Q : Type) `{JobQueue Q} : Type := {
  healthy : Q -> Prop;
  is_pending : Uuid -> Q -> Prop;
  is_dlq : Uuid -> Q -> Prop;
  fail_updates_job now j err q : (fail now j err q).1.2 = mark_failed now err j;
  fail_healthy now j err q :
    healthy q -> (fail now j err q).1.1 = Ok tt /\ healthy (fail now j err q).2;
  fail_pending now j err q i :
    healthy q ->
    is_pending i (fail now j err q).2 <->
    is_pending i q \/ (i = j.(id) /\ can_retry (mark_failed now err j) = true);
  fail_dlq now j err q i :
    healthy q ->
    is_dlq i (fail now j err q).2 <->
    is_dlq i q \/ (i = j.(id) /\ can_retry (mark_failed now err j) = false);
  acknowledge_keeps now i q i' :
    healthy q ->
    healthy (acknowledge now i q).2 /\
    (is_pending i' (acknowledge now i q).2 <-> is_pending i' q) /\
    (is_dlq i' (acknowledge now i q).2 <-> is_dlq i' q)
}.

(** ** The in-memory queue *)
Module Mock.

Record MockJobQueue : Type := mkMock {
  jobs : gmap Uuid Job;
  pending : gset Uuid;
  dlq : gmap Uuid Job
}.

Definition new : MockJobQueue := mkMock ∅ ∅ ∅.

Definition enqueue (job : Job) (q : MockJobQueue) : result ObserverError unit * MockJobQueue :=
  (Ok tt, mkMock (<[job.(id) := job]> q.(jobs)) ({[job.(id)]} ∪ q.(pending)) q.(dlq)).

(** The iteration order of the concurrent map is the order of [elements]. *)
Definition dequeue (now : Z) (batch_size : nat) (timeout_secs : Z) (q : MockJobQueue)
    : result ObserverError (list Job) * MockJobQueue :=
  let to_remove := take batch_size (elements q.(pending)) in
  let running := foldr (fun i m => alter mark_running i m) q.(jobs) to_remove in
  (Ok (omap (fun i => running !! i) to_remove),
   mkMock running (q.(pending) ∖ list_to_set to_remove) q.(dlq)).

Definition acknowledge (show_uuid : Uuid -> string) (now : Z) (job_id : Uuid) (q : MockJobQueue)
    : result ObserverError unit * MockJobQueue :=
  match q.(jobs) !! job_id with
  | Some job => (Ok tt, mkMock (<[job_id := mark_completed now job]> q.(jobs)) q.(pending) q.(dlq))
  | None => (Err (InvalidConfig ("Job not found: " ++ show_uuid job_id)), q)
  end.

Definition fail (now : Z) (job : Job) (err : string) (q : MockJobQueue)
    : result ObserverError unit * Job * MockJobQueue :=
  let job := mark_failed now err job in
  let jobs := <[job.(id) := job]> q.(jobs) in
  if can_retry job
  then (Ok tt, job, mkMock jobs ({[job.(id)]} ∪ q.(pending)) q.(dlq))
  else (Ok tt, job, mkMock jobs q.(pending) (<[job.(id) := job]> q.(dlq))).

Definition get_status (job_id : Uuid) (q : MockJobQueue)
    : result ObserverError (option JobState) * MockJobQueue :=
  (Ok (state <$> q.(jobs) !! job_id), q).
Definition queue_depth (q : MockJobQueue) : result ObserverError Z * MockJobQueue :=
  (Ok (Z.of_nat (size q.(pending))), q).
Definition dlq_size (q : MockJobQueue) : result ObserverError Z * MockJobQueue :=
  (Ok (Z.of_nat (size q.(dlq))), q).

Section Instance.
Context (show_uuid : Uuid -> string).

#[export] Instance mock_queue : JobQueue MockJobQueue := {
  enqueue := enqueue; dequeue := dequeue; acknowledge := acknowledge show_uuid;
  fail := fail; get_status := get_status; queue_depth := queue_depth; dlq_size := dlq_size
}.

#[export] Program Instance mock_laws : JobQueueLaws MockJobQueue := {
  healthy _ := True;
  is_pending i q := i ∈ q.(pending);
  is_dlq i q := is_Some (q.(dlq) !! i)
}.
Next Obligation. intros; cbn; unfold fail; by case_bool. Qed.
Next Obligation. intros; cbn; unfold fail; by case_bool. Qed.
Next Obligation.
  intros; cbn; unfold fail. pose proof (mark_failed_id now err j) as Hid.
  case_bool; cbn; rewrite ?Hid; set_solver.
Qed.
Next Obligation.
  intros; cbn; unfold fail. pose proof (mark_failed_id now err j) as Hid.
  case_bool; cbn; rewrite ?Hid, ?lookup_insert; [naive_solver|]. case_decide; naive_solver.
Qed.
Next Obligation. intros; cbn; unfold acknowledge. by destruct (jobs q !! i). Qed.
End Instance.
End Mock.

(** ** The worker *)
Module JobExecutor.

(** What a worker does with one job, in order. *)
Inductive Step : Type :=
| Executed (attempt : Z)
| Slept (delay_ms : Z)
| Acknowledged
| MarkedFailed.

(** The action run behind the queue is the placeholder of the source. *)
Definition timeout_job_execution (job : Job) : result ObserverError unit := Ok tt.

Definition is_transient_error (e : ObserverError) : bool := is_transient e.

Section Worker.
Context {Q : Type} `{HQ : JobQueue Q}.
(** The action ([timeout_job_execution] in the source), the clock, and the
    text of an error. *)
Context (execution : Z -> Job -> result ObserverError unit) (clock : Z -> Z)
        (show : ObserverError -> string).

(** [n] counts the executions so far; [None] is out of fuel. *)
Fixpoint retry_loop (fuel : nat) (n : Z) (job : Job) (queue : Q) : option (list Step * Q) :=
  match fuel with
  | O => None
  | S fuel =>
      match execution n job with
      | Ok tt =>
          let '(_, queue) := acknowledge (clock n) job.(id) queue in
          Some ([Executed job.(attempt); Acknowledged], queue)
      | Err e =>
          if negb (is_transient_error e) then
            let '(_, _, queue) := fail (clock n) job (show e) queue in
            Some ([Executed job.(attempt); MarkedFailed], queue)
          else if negb (can_retry job) then
            let '(_, _, queue) := fail (clock n) job (show e) queue in
            Some ([Executed job.(attempt); MarkedFailed], queue)
          else
            let delay := Backoff.calculate_backoff job.(backoff_strategy) job.(attempt)
                           job.(initial_delay_ms) job.(max_delay_ms) in
            let steps := [Executed job.(attempt); Slept delay; MarkedFailed] in
            let updated := mark_failed (clock n) (show e) job in
            let '(res, updated, queue) := fail (clock n) updated (show e) queue in
            match res with
            | Err _ => Some (steps, queue)
            | Ok tt =>
                '(rest, queue) ← retry_loop fuel (n + 1) updated queue;
                Some (steps ++ rest, queue)
            end
      end
  end.

Definition worker_fuel (job : Job) : nat := Z.to_nat (job.(max_attempts) - job.(attempt)) + 1.

Definition execute_job_with_retry (job : Job) (queue : Q) : option (list Step * Q) :=
  retry_loop (worker_fuel job) 0 job queue.

(** [execute_batch] runs every job to its end before the next batch; with
    [concurrency] 1 the jobs run in order. *)
Fixpoint execute_batch (jobs : list Job) (queue : Q) : option (list Step * Q) :=
  match jobs with
  | [] => Some ([], queue)
  | job :: jobs =>
      '(s1, queue) ← execute_job_with_retry job queue;
      '(s2, queue) ← execute_batch jobs queue;
      Some (s1 ++ s2, queue)
  end.

Definition executions (steps : list Step) : Z :=
  countb (fun s => match s with Executed _ => true | _ => false end) steps.

Section WithLaws.
Context `{HL : !JobQueueLaws Q}.

(** Each round of the loop raises [attempt] (twice, when both updates count). *)
Lemma twice_failed_attempt now e e' j :
  can_retry j = true ->
  (mark_failed now e' (mark_failed now e j)).(attempt)
    = Z.min (j.(attempt) + 2) j.(max_attempts) /\
  (mark_failed now e' (mark_failed now e j)).(max_attempts) = j.(max_attempts).
Proof.
  intros Hr. destruct (mark_failed_attempt now e' (mark_failed now e j)) as [-> ->].
  rewrite mark_failed_can_retry. destruct (mark_failed_attempt now e j) as [-> ->].
  rewrite Hr. unfold can_retry in Hr. case_bool; bool_lia || (split; bool_lia || done).
Qed.

Lemma retry_loop_terminates fuel n job queue :
  job.(max_attempts) - job.(attempt) < Z.of_nat fuel -> (0 < fuel)%nat ->
  is_Some (retry_loop fuel n job queue).
Proof.
  revert n job queue. induction fuel as [|fuel IH]; intros n job queue Hf Hp; [lia|].
  cbn. destruct (execution n job) as [[]|e].
  { destruct (acknowledge _ _ _); eauto. }
  destruct (is_transient_error e); cbn [negb]; [|destruct (fail _ _ _ _) as [[??]?]; eauto].
  destruct (can_retry job) eqn:Hr; cbn [negb]; [|destruct (fail _ _ _ _) as [[??]?]; eauto].
  pose proof (fail_updates_job (clock n) (mark_failed (clock n) (show e) job) (show e) queue) as Hu.
  destruct (fail _ _ _ _) as [[[[]|?] u] q]; cbn in Hu; [|eauto].
  destruct (twice_failed_attempt (clock n) (show e) (show e) job Hr) as [Ha Hm].
  unfold can_retry in Hr. apply Z.ltb_lt in Hr. rewrite <- Hu in Ha, Hm.
  destruct (IH (n + 1) u q) as [[rest q'] ->]; [lia | lia |]. eauto.
Qed.

(** The retry loop ends, whatever the action and the queue return. *)
Theorem worker_terminates job queue : is_Some (execute_job_with_retry job queue).
Proof. apply retry_loop_terminates; unfold worker_fuel; lia. Qed.

(** One round on a failing action, when the queue answers. *)
Lemma retry_loop_round fuel n job queue e :
  execution n job = Err e -> is_transient e = true -> healthy queue ->
  exists queue',
    healthy queue' /\
    (if can_retry job
     then
       let u := mark_failed (clock n) (show e) (mark_failed (clock n) (show e) job) in
       (forall i, is_pending i queue' <->
          is_pending i queue \/ (i = job.(id) /\ can_retry u = true)) /\
       (forall i, is_dlq i queue' <->
          is_dlq i queue \/ (i = job.(id) /\ can_retry u = false)) /\
       exists d, retry_loop (S fuel) n job queue
         = ('(rest, q) ← retry_loop fuel (n + 1) u queue';
            Some ([Executed job.(attempt); Slept d; MarkedFailed] ++ rest, q))
     else
       (forall i, is_pending i queue' <-> is_pending i queue) /\
       (forall i, is_dlq i queue' <-> is_dlq i queue \/ i = job.(id)) /\
       retry_loop (S fuel) n job queue
         = Some ([Executed job.(attempt); MarkedFailed], queue')).
Proof.
  intros He Ht Hh. cbn [retry_loop]. rewrite He. unfold is_transient_error. rewrite Ht. cbn [negb].
  destruct (can_retry job) eqn:Hr; cbn [negb].
  - set (j1 := mark_failed (clock n) (show e) job).
    pose proof (fail_updates_job (clock n) j1 (show e) queue) as Hu.
    pose proof (fail_healthy (clock n) j1 (show e) queue Hh) as [Hok Hh'].
    pose proof (fun i => fail_pending (clock n) j1 (show e) queue i Hh) as Hp.
    pose proof (fun i => fail_dlq (clock n) j1 (show e) queue i Hh) as Hd.
    destruct (fail _ _ _ _) as [[r u] q]. cbn in Hu, Hok, Hh', Hp, Hd. subst r u.
    unfold j1 in *. rewrite mark_failed_id in Hp, Hd.
    exists q. split_and!; [done..|]. eexists. reflexivity.
  - pose proof (fail_healthy (clock n) job (show e) queue Hh) as [Hok Hh'].
    pose proof (fun i => fail_pending (clock n) job (show e) queue i Hh) as Hp.
    pose proof (fun i => fail_dlq (clock n) job (show e) queue i Hh) as Hd.
    destruct (fail _ _ _ _) as [[r u] q]. cbn in Hok, Hh', Hp, Hd. subst r.
    rewrite mark_failed_can_retry in Hp, Hd.
    assert ((attempt job + 1 <? max_attempts job) = false) as Hf
      by (unfold can_retry in Hr; apply Z.ltb_ge; bool_lia).
    rewrite Hf in Hp, Hd. exists q. split_and!; [done|naive_solver|naive_solver|done].
Qed.

(** A job whose action always fails transiently, followed to the end. *)
Lemma failing_job_run job fuel n queue :
  (forall k j, exists e, execution k j = Err e /\ is_transient e = true) ->
  healthy queue -> job.(attempt) <= job.(max_attempts) ->
  job.(max_attempts) - job.(attempt) < Z.of_nat fuel ->
  exists steps queue',
    retry_loop fuel n job queue = Some (steps, queue') /\
    executions steps = 1 + (job.(max_attempts) - job.(attempt) + 1) / 2 /\
    is_dlq job.(id) queue' /\
    (3 <= job.(max_attempts) - job.(attempt) -> is_pending job.(id) queue') /\
    (is_pending job.(id) queue -> is_pending job.(id) queue').
Proof.
  intros Hex. revert n job queue. induction fuel as [|fuel IH]; intros n job queue Hh Hle Hf; [lia|].
  destruct (Hex n job) as (e & He & Ht).
  destruct (retry_loop_round fuel n job queue e He Ht Hh) as (q & Hq & Hr).
  destruct (can_retry job) eqn:Hc; unfold can_retry in Hc.
  - destruct Hr as (Hp & Hd & d & Hr). apply Z.ltb_lt in Hc.
    destruct (twice_failed_attempt (clock n) (show e) (show e) job) as [Ha Hm];
      [by apply Z.ltb_lt|].
    set (u := mark_failed (clock n) (show e) (mark_failed (clock n) (show e) job)) in *.
    assert (u.(id) = job.(id)) as Hid by (unfold u; by rewrite !mark_failed_id).
    destruct (IH (n + 1) u q) as (steps & q' & Hrun & Hcnt & Hdlq & Hpen & Hkeep); [done|lia|lia|].
    rewrite Hr, Hrun. rewrite Hid in *. eexists _, q'. split_and!; [reflexivity| |done| |].
    + unfold executions in *. cbn [countb app b2z]. rewrite Hcnt, Ha, Hm.
      destruct (Z.le_gt_cases (attempt job + 2) (max_attempts job)).
      * rewrite Z.min_l by done.
        replace (max_attempts job - attempt job + 1)
          with (max_attempts job - (attempt job + 2) + 1 + 1 * 2) by lia.
        rewrite Z.div_add by lia. lia.
      * replace (max_attempts job) with (attempt job + 1) by lia.
        rewrite Z.min_r by lia. replace (attempt job + 1 - (attempt job + 1) + 1) with 1 by lia.
        replace (attempt job + 1 - attempt job + 1) with 2 by lia. done.
    + intros H3. apply Hkeep, Hp. right. split; [done|].
      unfold can_retry. rewrite Ha, Hm. apply Z.ltb_lt. lia.
    + intros Hpq. apply Hkeep, Hp. by left.
  - destruct Hr as (Hp & Hd & Hr). apply Z.ltb_ge in Hc. rewrite Hr.
    replace (attempt job) with (max_attempts job) by lia.
    eexists _, q. split_and!; [reflexivity| |apply Hd; by right|lia|by rewrite Hp].
    rewrite Z.sub_diag. done.
Qed.

(** The loop calls [mark_failed] and then [queue.fail], which calls it
    again: an action that keeps failing transiently runs
    [1 + max_attempts / 2] times, not [max_attempts], and from four
    attempts on the job ends both in the dead-letter queue and pending. *)
Theorem worker_halves_attempts job queue :
  (forall k j, exists e, execution k j = Err e /\ is_transient e = true) ->
  healthy queue -> job.(attempt) = 1 -> 1 <= job.(max_attempts) ->
  exists steps queue',
    execute_job_with_retry job queue = Some (steps, queue') /\
    executions steps = 1 + job.(max_attempts) / 2 /\
    is_dlq job.(id) queue' /\
    (4 <= job.(max_attempts) -> is_pending job.(id) queue').
Proof.
  intros Hex Hh Ha Hm.
  destruct (failing_job_run job (worker_fuel job) 0 queue Hex Hh) as (steps & q & Hrun & Hc & Hd & Hp & _);
    [lia|unfold worker_fuel; lia|].
  exists steps, q. unfold execute_job_with_retry. split_and!; [done| |done|intros; apply Hp; lia].
  rewrite Hc, Ha. do 2 f_equal. lia.
Qed.
End WithLaws.
End Worker.

(** What the code runs today: the placeholder succeeds, so a worker
    acknowledges every job after one execution. *)
Theorem worker_acknowledges `{JobQueue Q} clock show job (queue : Q) :
  execute_job_with_retry (fun _ j => timeout_job_execution j) clock show job queue
  = Some ([Executed job.(attempt); Acknowledged], (acknowledge (clock 0) job.(id) queue).2).
Proof.
  unfold execute_job_with_retry, worker_fuel. rewrite Nat.add_1_r. cbn [retry_loop].
  unfold timeout_job_execution. by destruct (acknowledge _ _ _).
Qed.
End JobExecutor.

(** A job of four attempts whose action always fails, on the in-memory queue. *)
Definition demo_job : Job :=
  Job.new 7%N "event" (Cache "user:*" "invalidate") 0 4 Exponential.

Lemma worker_halves_attempts_witness :
  exists steps queue',
    JobExecutor.execute_job_with_retry (HQ := Mock.mock_queue (fun _ => ""))
      (fun _ _ => Err (ActionExecutionFailed "timeout")) (fun n => n)
      (to_string (fun _ => "")) demo_job Mock.new = Some (steps, queue') /\
    JobExecutor.executions steps = 1 + 4 / 2 /\
    is_dlq (JobQueueLaws := Mock.mock_laws (fun _ => "")) 7%N queue' /\
    (4 <= 4 -> is_pending (JobQueueLaws := Mock.mock_laws (fun _ => "")) 7%N queue').
Proof.
  apply (JobExecutor.worker_halves_attempts (HL := Mock.mock_laws (fun _ => ""))
           (fun _ _ => Err (ActionExecutionFailed "timeout")) (fun n => n)
           (to_string (fun _ => "")) demo_job Mock.new); [|done|done|cbn; lia].
  intros _ _. eexists. split; reflexivity.
Defined.

Lemma backoff_meets_spec_witness :
  Backoff.calculate_backoff Exponential 5 100 30000 = Backoff.backoff_spec Exponential 5 100 30000.
Proof. apply Backoff.backoff_meets_spec; vm_compute; intuition discriminate. Defined.
