(* ===== verification/RedisJobQueue.v ===== *)
(** * The Redis job queue

    crates/fraiseql-observers/src/job_queue/redis.rs and dlq.rs: the store as
    the commands see it, the four Lua scripts, the [JobQueue] operations, and
    the dead-letter manager that shares the same keys.  Every command consumes
    one entry of the fault schedule, so that the operations' error paths and
    the states they leave are part of the model. *)

From S2P Require Import Prelude ObserverError ObserverConfig JobQueue.
From Stdlib Require Import Ascii.

Module RedisJobQueue.

(** What happens to a command: it runs; it is lost before it runs; it runs and
    its reply is lost.  The last two are an error to the caller. *)
Inductive Outcome : Type := Done | Lost | ReplyLost.

(** The keys of the queue.  A list keeps its left end first. *)
Record Store : Type := mkStore {
  pending : list string;          (* queue:pending, a list *)
  processing : gmap string Z;     (* queue:processing, member -> score *)
  dlq : list string;              (* queue:dlq, a list *)
  status : gmap string string;    (* queue:status, a hash *)
  data : gmap string string;      (* the job:{uuid} strings *)
  faults : list Outcome           (* the fate of the commands to come *)
}.

Definition set_pending s v := mkStore v s.(processing) s.(dlq) s.(status) s.(data) s.(faults).
Definition set_processing s v := mkStore s.(pending) v s.(dlq) s.(status) s.(data) s.(faults).
Definition set_dlq s v := mkStore s.(pending) s.(processing) v s.(status) s.(data) s.(faults).
Definition set_status s v := mkStore s.(pending) s.(processing) s.(dlq) v s.(data) s.(faults).
Definition set_data s v := mkStore s.(pending) s.(processing) s.(dlq) s.(status) v s.(faults).
Definition set_faults s v := mkStore s.(pending) s.(processing) s.(dlq) s.(status) s.(data) v.

Definition empty : Store := mkStore [] ∅ [] ∅ ∅ [].

(** Redis commands on the keys. *)
Definition LPUSH_pending m s := set_pending s (m :: s.(pending)).
Definition LPUSH_dlq m s := set_dlq s (m :: s.(dlq)).
Definition HSET f v s := set_status s (<[f := v]> s.(status)).
Definition HDEL f s := set_status s (delete f s.(status)).
Definition SET k v s := set_data s (<[k := v]> s.(data)).
Definition DEL k s := set_data s (delete k s.(data)).
Definition ZADD score m s := set_processing s (<[m := score]> s.(processing)).
Definition ZREM m s := set_processing s (delete m s.(processing)).
Definition LREM_dlq m s := set_dlq s (filter (fun x => x <> m) s.(dlq)).
Definition RPOP (s : Store) : option string * Store :=
  match reverse s.(pending) with
  | [] => (None, s)
  | m :: rest => (Some m, set_pending s (reverse rest))
  end.

(** The Lua scripts; a script is one command, so it runs whole or not at all. *)
Definition JOB_ENQUEUE_SCRIPT (job_key json uuid : string) (s : Store) : Store :=
  HSET uuid "pending" (LPUSH_pending uuid (SET job_key json s)).
Definition JOB_ACKNOWLEDGE_SCRIPT (job_key member uuid : string) (s : Store) : Store :=
  HDEL uuid (DEL job_key (ZREM member s)).
Definition JOB_FAIL_RETRY_SCRIPT (job_key member json uuid : string) (s : Store) : Store :=
  HSET uuid "pending" (LPUSH_pending uuid (SET job_key json (ZREM member s))).
Definition JOB_FAIL_DLQ_SCRIPT (job_key member json dlq_member uuid : string) (s : Store) : Store :=
  HSET uuid "dead_lettered" (LPUSH_dlq dlq_member (SET job_key json (ZREM member s))).
Definition DLQ_REMOVE_SCRIPT (job_key dlq_member uuid : string) (s : Store) : Store :=
  HDEL uuid (DEL job_key (LREM_dlq dlq_member s)).

(** [string.sub(member, 5)]. *)
Definition string_sub5 (m : string) : string := String.substring 4 (String.length m) m.
Definition DLQ_CLEAR_SCRIPT (s : Store) : Store :=
  set_dlq
    (foldl (fun s m => HDEL (string_sub5 m) (DEL ("job:" ++ string_sub5 m) s)) s s.(dlq)) [].

(** A state monad with errors; a command fails as the schedule says. *)
Definition Redis (A : Type) : Type := Store -> result ObserverError A * Store.

Definition ret {A} (a : A) : Redis A := fun s => (Ok a, s).
Definition throw {A} (e : ObserverError) : Redis A := fun s => (Err e, s).
Definition bind {A B} (m : Redis A) (k : A -> Redis B) : Redis B :=
  fun s => match m s with (Ok a, s) => k a s | (Err e, s) => (Err e, s) end.
Notation "'let*' x := m 'in' k" := (bind m (fun x => k))
  (at level 10, x name, m at level 100, k at level 200) : fraise_scope.
Notation "m ;;; k" := (bind m (fun _ => k)) (at level 100, right associativity) : fraise_scope.

Definition redis_error : ObserverError := DatabaseError "Redis error: connection".

Definition command {A} (c : Store -> A * Store) : Redis A := fun s =>
  match s.(faults) with
  | Lost :: fs => (Err redis_error, set_faults s fs)
  | ReplyLost :: fs => (Err redis_error, (c (set_faults s fs)).2)
  | Done :: fs => let '(a, s) := c (set_faults s fs) in (Ok a, s)
  | [] => let '(a, s) := c s in (Ok a, s)
  end.
Definition exec (c : Store -> Store) : Redis unit := command (fun s => (tt, c s)).

Definition map_err {A} (m : Redis A) (e : ObserverError) : Redis A :=
  fun s => match m s with (Err _, s) => (Err e, s) | r => r end.

Definition parse_job_state (s : string) : option JobState :=
  if s =s "pending" then Some Pending
  else if s =s "running" then Some Running
  else if s =s "completed" then Some Completed
  else if s =s "failed" then Some Failed
  else if s =s "dead_lettered" then Some DeadLettered
  else None.

Section Operations.
(** [uuid] and [serde_json], which the source only calls. *)
Context (uuid_to_string : Uuid -> string) (parse_uuid : string -> result string Uuid)
        (job_to_json : Job -> result string string) (job_from_json : string -> result string Job).

Definition job_key (job_id : Uuid) : string := "job:" ++ uuid_to_string job_id.
Definition processing_member (job_id : Uuid) : string := "processing:" ++ uuid_to_string job_id.
Definition dlq_member (job_id : Uuid) : string := "dlq:" ++ uuid_to_string job_id.

(** [r.map_err(f)?]. *)
Definition try {E A} (r : result E A) (f : E -> ObserverError) : Redis A :=
  match r with Ok a => ret a | Err e => throw (f e) end.

Definition enqueue (job : Job) : Redis unit :=
  let* json := try (job_to_json job) SerializationError in
  exec (JOB_ENQUEUE_SCRIPT (job_key job.(id)) json (uuid_to_string job.(id))).

Definition GET (key : string) : Redis (option string) :=
  command (fun s => (s.(data) !! key, s)).

(** [GET] read into a [String]: nil is an error of the client. *)
Definition GET_string (key : string) : Redis string :=
  let* v := GET key in
  match v with Some v => ret v | None => throw (DatabaseError "Redis error: nil") end.

(** One round of the loop of [dequeue]; [None] is the [break]. *)
Definition dequeue_one (expiry_timestamp : Z) : Redis (option Job) :=
  let* job_id_str := command RPOP in
  match job_id_str with
  | None => ret None
  | Some job_id_str =>
      let* job_id := try (parse_uuid job_id_str)
                       (fun e => InvalidConfig ("Invalid job ID in queue: " ++ e)) in
      let* job_json := map_err (GET_string (job_key job_id))
                         (InvalidConfig ("Job " ++ uuid_to_string job_id ++ " not found in storage")) in
      let* job := try (job_from_json job_json) SerializationError in
      exec (ZADD expiry_timestamp (processing_member job_id)) ;;;
      exec (HSET (uuid_to_string job_id) "running") ;;;
      ret (Some (mark_running job))
  end.

Fixpoint dequeue_loop (n : nat) (expiry_timestamp : Z) : Redis (list Job) :=
  match n with
  | O => ret []
  | S n =>
      let* job := dequeue_one expiry_timestamp in
      match job with
      | None => ret []
      | Some job => let* jobs := dequeue_loop n expiry_timestamp in ret (job :: jobs)
      end
  end.

(** [now] in milliseconds. *)
Definition dequeue (now : Z) (batch_size : nat) (timeout_secs : Z) : Redis (list Job) :=
  dequeue_loop batch_size (now + 1000 * timeout_secs).

Definition acknowledge (job_id : Uuid) : Redis unit :=
  exec (JOB_ACKNOWLEDGE_SCRIPT (job_key job_id) (processing_member job_id) (uuid_to_string job_id)).

(** [fail] after the job was marked. *)
Definition fail_marked (job : Job) : Redis unit :=
  let* json := try (job_to_json job) SerializationError in
  if can_retry job
  then exec (JOB_FAIL_RETRY_SCRIPT (job_key job.(id)) (processing_member job.(id)) json
               (uuid_to_string job.(id)))
  else exec (JOB_FAIL_DLQ_SCRIPT (job_key job.(id)) (processing_member job.(id)) json
               (dlq_member job.(id)) (uuid_to_string job.(id))).

Definition fail (now : Z) (job : Job) (err : string) (s : Store)
    : result ObserverError unit * Job * Store :=
  let job := mark_failed now err job in
  let '(r, s) := fail_marked job s in (r, job, s).

Definition get_status (job_id : Uuid) : Redis (option JobState) :=
  let* state_str := command (fun s => (s.(status) !! uuid_to_string job_id, s)) in
  ret (state_str ≫= parse_job_state).

Definition queue_depth : Redis Z := command (fun s => (Z.of_nat (length s.(pending)), s)).
Definition dlq_size : Redis Z := command (fun s => (Z.of_nat (length s.(dlq)), s)).

(** *** The dead-letter manager *)

Definition strip_dlq (m : string) : option string :=
  if String.prefix "dlq:" m then Some (String.substring 4 (String.length m) m) else None.

(** Unreadable members are skipped. *)
Definition list_one (member : string) : Redis (option Job) :=
  match strip_dlq member with
  | Some job_id_str =>
      match parse_uuid job_id_str with
      | Ok job_id => fun s =>
          match GET (job_key job_id) s with
          | (Ok (Some job_json), s) =>
              (Ok (match job_from_json job_json with Ok j => Some j | Err _ => None end), s)
          | (_, s) => (Ok None, s)
          end
      | Err _ => ret None
      end
  | None => ret None
  end.

Fixpoint list_members (members : list string) : Redis (list Job) :=
  match members with
  | [] => ret []
  | m :: members =>
      let* j := list_one m in
      let* js := list_members members in
      ret (from_option (fun j => [j]) [] j ++ js)
  end.

Definition list_all : Redis (list Job) :=
  let* members := command (fun s => (s.(dlq), s)) in list_members members.

Definition get (job_id : Uuid) : Redis (option Job) :=
  let* job_json := GET (job_key job_id) in
  match job_json with
  | Some json => let* job := try (job_from_json json) SerializationError in ret (Some job)
  | None => ret None
  end.

Definition count : Redis Z := command (fun s => (Z.of_nat (length s.(dlq)), s)).

Definition remove (job_id : Uuid) : Redis unit :=
  exec (DLQ_REMOVE_SCRIPT (job_key job_id) (dlq_member job_id) (uuid_to_string job_id)).

Definition clear : Redis unit := exec DLQ_CLEAR_SCRIPT.

Record DlqStats : Type := { total_jobs : Z; by_action_type : gmap string Z }.

Definition stats : Redis DlqStats :=
  let* count := count in
  let* all_jobs := list_all in
  ret {| total_jobs := count;
         by_action_type := foldl (fun m j => partial_alter (fun c => Some (default 0 c + 1)) (action_type j) m)
                             ∅ all_jobs |}.

(** ** Refinement of an abstract queue

    The abstract queue knows, for every job it holds, its state and its
    record, and the order of the pending and of the dead jobs (newest
    first).  [None] is a call outside the client protocol: an identifier
    enqueued twice, or acknowledged, failed or removed where it is not, or a
    job that cannot be serialised. *)
Record Spec : Type := mkSpec {
  order : list Uuid;
  dead : list Uuid;
  held : gmap Uuid (JobState * Job)
}.

Inductive Op : Type :=
| Enqueue (job : Job)
| Dequeue (now : Z) (batch_size : nat) (timeout_secs : Z)
| Acknowledge (job_id : Uuid)
| Fail (now : Z) (job : Job) (err : string)
| Remove (job_id : Uuid)
| Clear.

Definition spec_dequeue_one (a : Spec) : option (Job * Spec) :=
  match reverse a.(order) with
  | [] => None
  | i :: rest =>
      '(_, j) ← a.(held) !! i;
      Some (mark_running j, mkSpec (reverse rest) a.(dead) (<[i := (Running, j)]> a.(held)))
  end.

Fixpoint spec_dequeue (n : nat) (a : Spec) : list Job * Spec :=
  match n with
  | O => ([], a)
  | S n =>
      match spec_dequeue_one a with
      | None => ([], a)
      | Some (j, a) => let '(js, a) := spec_dequeue n a in (j :: js, a)
      end
  end.

Definition serialises (job : Job) : bool := is_ok (job_to_json job).

Definition spec_step (op : Op) (a : Spec) : option (list Job * Spec) :=
  match op with
  | Enqueue job =>
      match a.(held) !! job.(id), serialises job with
      | Some _, _ | None, false => None
      | None, true => Some ([], mkSpec (job.(id) :: a.(order)) a.(dead)
                            (<[job.(id) := (Pending, job)]> a.(held)))
      end
  | Dequeue _ n _ => Some (spec_dequeue n a)
  | Acknowledge i =>
      match a.(held) !! i with
      | Some (Running, _) => Some ([], mkSpec a.(order) a.(dead) (delete i a.(held)))
      | _ => None
      end
  | Fail now job err =>
      match a.(held) !! job.(id) with
      | Some (Running, _) =>
          let job := mark_failed now err job in
          if negb (serialises job) then None
          else if can_retry job
          then Some ([], mkSpec (job.(id) :: a.(order)) a.(dead)
                           (<[job.(id) := (Pending, job)]> a.(held)))
          else Some ([], mkSpec a.(order) (job.(id) :: a.(dead))
                           (<[job.(id) := (DeadLettered, job)]> a.(held)))
      | _ => None
      end
  | Remove i =>
      match a.(held) !! i with
      | Some (DeadLettered, _) =>
          Some ([], mkSpec a.(order) (filter (fun x => x <> i) a.(dead)) (delete i a.(held)))
      | _ => None
      end
  | Clear => Some ([], mkSpec a.(order) [] (filter (fun p => p.2.1 <> DeadLettered) a.(held)))
  end.

Definition redis_step (op : Op) (s : Store) : result ObserverError (list Job) * Store :=
  match op with
  | Enqueue job => bind (enqueue job) (fun _ => ret []) s
  | Dequeue now n t => dequeue now n t s
  | Acknowledge i => bind (acknowledge i) (fun _ => ret []) s
  | Fail now job err => let '(r, _, s) := fail now job err s in ((fun _ => []) <$> r, s)
  | Remove i => bind (remove i) (fun _ => ret []) s
  | Clear => bind clear (fun _ => ret []) s
  end.

(** Runs of several calls, stopping at the first error. *)
Fixpoint spec_run (ops : list Op) (a : Spec) : option (list (list Job) * Spec) :=
  match ops with
  | [] => Some ([], a)
  | op :: ops =>
      '(js, a) ← spec_step op a; '(out, a) ← spec_run ops a; Some (js :: out, a)
  end.
Fixpoint redis_run (ops : list Op) (s : Store) : result ObserverError (list (list Job)) * Store :=
  match ops with
  | [] => (Ok [], s)
  | op :: ops =>
      bind (redis_step op) (fun js => bind (redis_run ops) (fun out => ret (js :: out))) s
  end.

(** The documented behaviour of [uuid] and [serde_json]: printing then
    parsing gives the value back. *)
Context (parse_print : forall i, parse_uuid (uuid_to_string i) = Ok i)
        (json_round : forall j js, job_to_json j = Ok js -> job_from_json js = Ok j).

Definition state_str (st : JobState) : string :=
  match st with
  | Pending => "pending" | Running => "running" | Completed => "completed"
  | Failed => "failed" | DeadLettered => "dead_lettered"
  end.
Definition to_json (j : Job) : option string :=
  match job_to_json j with Ok js => Some js | Err _ => None end.

Record wf (a : Spec) : Prop := {
  wf_order : NoDup a.(order);
  wf_dead : NoDup a.(dead);
  wf_in_order i : i ∈ a.(order) <-> exists j, a.(held) !! i = Some (Pending, j);
  wf_in_dead i : i ∈ a.(dead) <-> exists j, a.(held) !! i = Some (DeadLettered, j);
  wf_id i st j : a.(held) !! i = Some (st, j) -> j.(id) = i;
  wf_json i st j : a.(held) !! i = Some (st, j) -> serialises j = true
}.

Record refines (a : Spec) (s : Store) : Prop := {
  r_pending : s.(pending) = uuid_to_string <$> a.(order);
  r_dlq : s.(dlq) = dlq_member <$> a.(dead);
  r_status i : s.(status) !! uuid_to_string i = state_str ∘ fst <$> a.(held) !! i;
  r_processing i : is_Some (s.(processing) !! processing_member i) <->
                   exists j, a.(held) !! i = Some (Running, j);
  r_data i : s.(data) !! job_key i = a.(held) !! i ≫= to_json ∘ snd;
  r_faults : s.(faults) = []
}.

#[local] Instance uuid_inj : Inj (=) (=) uuid_to_string.
Proof using parse_print. intros i i' H. pose proof (parse_print i). pose proof (parse_print i'). congruence. Qed.
#[local] Instance app_inj_prefix (p : string) : Inj (=) (=) (String.append p).
Proof. intros s t. induction p; cbn; [done|]. intros [= ?]. auto. Qed.
#[local] Instance job_key_inj : Inj (=) (=) job_key.
Proof using parse_print. intros i i' H. by apply (inj (String.append _)), (inj uuid_to_string) in H. Qed.
#[local] Instance processing_inj : Inj (=) (=) processing_member.
Proof using parse_print. intros i i' H. by apply (inj (String.append _)), (inj uuid_to_string) in H. Qed.
#[local] Instance dlq_inj : Inj (=) (=) dlq_member.
Proof using parse_print. intros i i' H. by apply (inj (String.append _)), (inj uuid_to_string) in H. Qed.

Lemma insert_key {A} (f : Uuid -> string) `{!Inj (=) (=) f} (m : gmap string A) i i' x :
  <[f i := x]> m !! f i' = if decide (i = i') then Some x else m !! f i'.
Proof. rewrite lookup_insert. repeat case_decide; naive_solver. Qed.
Lemma delete_key {A} (f : Uuid -> string) `{!Inj (=) (=) f} (m : gmap string A) i i' :
  delete (f i) m !! f i' = if decide (i = i') then None else m !! f i'.
Proof. rewrite lookup_delete. repeat case_decide; naive_solver. Qed.

Lemma to_json_ok j js : job_to_json j = Ok js <-> to_json j = Some js.
Proof. unfold to_json. destruct (job_to_json j); split; intros; congruence. Qed.

Lemma job_to_json_ok j : serialises j = true -> exists js, job_to_json j = Ok js.
Proof using Type. unfold serialises. intros Hj. destruct (job_to_json j); [eauto|done]. Qed.

Lemma exec_healthy c s : s.(faults) = [] -> exec c s = (Ok tt, c s).
Proof. intros Hs. unfold exec, command. by rewrite Hs. Qed.

(** Split the lookups of updated maps by identifier. *)
Ltac keys :=
  cbn; intros; rewrite ?insert_key, ?delete_key, ?lookup_insert, ?lookup_delete by apply _;
  repeat match goal with
  | H : <[_:=_]> _ !! _ = Some _ |- _ => rewrite lookup_insert in H
  | H : delete _ _ !! _ = Some _ |- _ => rewrite lookup_delete in H
  end;
  repeat case_decide; subst; cbn.

(** Case analysis on the abstract state of an identifier. *)
Ltac crush :=
  repeat match goal with
  | H : Some _ = Some _ |- _ => injection H as H; subst
  | H : (_, _) = (_, _) |- _ => injection H as H; subst
  | H : _ /\ _ |- _ => destruct H
  | H : _ \/ _ |- _ => destruct H
  | H : exists _, _ |- _ => destruct H
  | |- _ <-> _ => split; intros
  | |- is_Some (Some _) => by eexists
  | H : is_Some None |- _ => by destruct H
  end; try congruence; eauto; try (by left; eauto); try (by right; eauto).

Lemma enqueue_refines job a s out a' :
  wf a -> refines a s -> spec_step (Enqueue job) a = Some (out, a') ->
  wf a' /\ exists s', redis_step (Enqueue job) s = (Ok out, s') /\ refines a' s'.
Proof using parse_print.
  intros [W1 W2 W3 W4 W5 W6] [R1 R2 R3 R4 R5 R6]. cbn.
  destruct (held a !! id job) as [p|] eqn:Hh; [done|].
  destruct (serialises job) eqn:Hser; [|done]. intros [= <- <-]. split.
  - split; cbn; [constructor; [rewrite W3; naive_solver|done]|done| | | |]; keys;
      rewrite ?elem_of_cons, ?W3, ?W4; crush.
  - destruct (job_to_json_ok job Hser) as [js Hj].
    unfold enqueue, bind, try. rewrite Hj. cbn. rewrite exec_healthy by done.
    eexists. split; [reflexivity|]. apply to_json_ok in Hj.
    split; cbn; [by rewrite R1|done| | | |done]; keys; rewrite ?R3, ?R4, ?R5; crush.
Qed.

Lemma acknowledge_refines i a s out a' :
  wf a -> refines a s -> spec_step (Acknowledge i) a = Some (out, a') ->
  wf a' /\ exists s', redis_step (Acknowledge i) s = (Ok out, s') /\ refines a' s'.
Proof using parse_print.
  intros [W1 W2 W3 W4 W5 W6] [R1 R2 R3 R4 R5 R6]. cbn.
  destruct (held a !! i) as [[[] j]|] eqn:Hh; try done. intros [= <- <-]. split.
  - split; cbn; [done|done| | | |]; keys; rewrite ?W3, ?W4; crush.
  - unfold acknowledge, bind. rewrite exec_healthy by done. eexists. split; [reflexivity|].
    split; cbn; [done|done| | | |done]; keys; rewrite ?R3, ?R4, ?R5; crush.
Qed.

Lemma fail_refines now job err a s out a' :
  wf a -> refines a s -> spec_step (Fail now job err) a = Some (out, a') ->
  wf a' /\ exists s', redis_step (Fail now job err) s = (Ok out, s') /\ refines a' s'.
Proof using parse_print.
  intros [W1 W2 W3 W4 W5 W6] [R1 R2 R3 R4 R5 R6]. cbn. unfold fail, fail_marked, bind, try.
  destruct (held a !! id job) as [[[] j]|] eqn:Hh; try done.
  rewrite <- (mark_failed_id now err job) in Hh.
  set (job' := mark_failed now err job) in *. clearbody job'. clear job.
  destruct (serialises job') eqn:Hser; cbn [negb]; [|done].
  destruct (job_to_json_ok job' Hser) as [js Hj]. rewrite Hj. apply to_json_ok in Hj. cbn [ret].
  destruct (can_retry job'); intros [= <- <-]; rewrite exec_healthy by done.
  - split.
    + split; cbn; [constructor; [rewrite W3; by intros [? ?]; congruence|done]|done| | | |]; keys;
        rewrite ?elem_of_cons, ?W3, ?W4; crush.
    + eexists. split; [reflexivity|].
      split; cbn; [by rewrite R1|done| | | |done]; keys; rewrite ?R3, ?R4, ?R5; crush.
  - split.
    + split; cbn; [done|constructor; [rewrite W4; by intros [? ?]; congruence|done]| | | |]; keys;
        rewrite ?elem_of_cons, ?W3, ?W4; crush.
    + eexists. split; [reflexivity|].
      split; cbn; [done|by rewrite R2| | | |done]; keys; rewrite ?R3, ?R4, ?R5; crush.
Qed.

Lemma filter_dlq_members i (l : list Uuid) :
  filter (fun x => x <> dlq_member i) (dlq_member <$> l)
  = dlq_member <$> filter (fun x => x <> i) l.
Proof using parse_print.
  induction l as [|x l IH]; [done|]. rewrite fmap_cons, !filter_cons.
  destruct (decide (x = i)) as [->|Hx].
  - rewrite !decide_False by auto. done.
  - rewrite !decide_True; [by rewrite fmap_cons, IH | done |]. intros ?%(inj dlq_member). done.
Qed.

Lemma remove_refines i a s out a' :
  wf a -> refines a s -> spec_step (Remove i) a = Some (out, a') ->
  wf a' /\ exists s', redis_step (Remove i) s = (Ok out, s') /\ refines a' s'.
Proof using parse_print.
  intros [W1 W2 W3 W4 W5 W6] [R1 R2 R3 R4 R5 R6]. cbn.
  destruct (held a !! i) as [[[] j]|] eqn:Hh; try done. intros [= <- <-]. split.
  - split; cbn; [done|by apply list.NoDup_filter| | | |]; keys;
      rewrite ?list_elem_of_filter, ?W3, ?W4; crush.
  - unfold remove, bind. rewrite exec_healthy by done. eexists. split; [reflexivity|].
    split; cbn; [done|by rewrite R2, filter_dlq_members| | | |done]; keys;
      rewrite ?R3, ?R4, ?R5; crush.
Qed.

Lemma dequeue_one_refines t a s :
  wf a -> refines a s ->
  match spec_dequeue_one a with
  | Some (j, a') => wf a' /\ exists s', dequeue_one t s = (Ok (Some j), s') /\ refines a' s'
  | None => a.(order) = [] /\ dequeue_one t s = (Ok None, s)
  end.
Proof using parse_print json_round.
  intros [W1 W2 W3 W4 W5 W6] [R1 R2 R3 R4 R5 R6].
  unfold spec_dequeue_one, dequeue_one, bind, command. rewrite R6. unfold RPOP. rewrite R1.
  rewrite <- fmap_reverse. destruct (reverse (order a)) as [|i rest] eqn:Hr.
  { cbn. split; [|done]. by rewrite <- (reverse_involutive (order a)), Hr. }
  assert (order a = reverse rest ++ [i]) as Ho
    by (rewrite <- (reverse_involutive (order a)), Hr; by rewrite reverse_cons).
  rewrite Ho in W1. apply list.NoDup_app in W1 as (N1 & N2 & _).
  assert (i ∉ reverse rest) as Hi by (intros ?; eapply N2; [done|set_solver]).
  assert (i ∈ order a) as Hin by (rewrite Ho; set_solver).
  apply W3 in Hin as [j Hj]. rewrite Hj. cbn. unfold try. rewrite parse_print. cbn.
  unfold map_err, GET_string, GET, bind, command. cbn. rewrite R6. cbn. rewrite R5, Hj. cbn.
  destruct (job_to_json_ok j (W6 _ _ _ Hj)) as [js Hjs]. pose proof Hjs as Hjs'. apply to_json_ok in Hjs'.
  rewrite Hjs'. cbn. rewrite (json_round j js Hjs). cbn.
  unfold exec, command. cbn. rewrite R6. cbn. rewrite R6. cbn.
  assert (forall i', i' ∈ reverse rest <-> i' <> i /\ i' ∈ order a) as Hrest.
  { intros i'. rewrite Ho. set_solver. }
  split.
  - split; cbn; [done|done| | | |]; keys; rewrite ?Hrest, ?W3, ?W4; crush.
  - eexists. split; [reflexivity|].
    split; cbn; [by rewrite fmap_reverse|done| | | |done]; keys; rewrite ?R3, ?R4, ?R5, ?Hj; crush.
Qed.

Lemma dequeue_refines n t a s :
  wf a -> refines a s ->
  wf (spec_dequeue n a).2 /\
  exists s', dequeue_loop n t s = (Ok (spec_dequeue n a).1, s') /\ refines (spec_dequeue n a).2 s'.
Proof using parse_print json_round.
  revert a s. induction n as [|n IH]; intros a s Ha Hs; [cbn; eauto|].
  pose proof (dequeue_one_refines t a s Ha Hs) as H1. cbn. unfold bind.
  destruct (spec_dequeue_one a) as [[j a']|].
  - destruct H1 as (Ha' & s' & -> & Hs'). destruct (IH a' s' Ha' Hs') as (W & s'' & Hd & R).
    rewrite Hd. destruct (spec_dequeue n a') as [js a'']. eauto.
  - destruct H1 as [_ ->]. eauto.
Qed.

Lemma substring_all s : String.substring 0 (String.length s) s = s.
Proof. induction s as [|c s IH]; cbn; [done|by rewrite IH]. Qed.
Lemma substring_long n s : (String.length s <= n)%nat -> String.substring 0 n s = s.
Proof. revert n. induction s as [|c s IH]; intros [|n]; cbn; intros; [done|done|lia|]. rewrite IH; [done|lia]. Qed.

Lemma string_sub5_member i : string_sub5 (dlq_member i) = uuid_to_string i.
Proof.
  unfold string_sub5, dlq_member. simpl. change ("" +:+ ?u) with u. apply substring_long. lia.
Qed.

(** The loop of [DLQ_CLEAR_SCRIPT] deletes the status and the data of the
    members and touches nothing else. *)
Lemma clear_loop (l : list Uuid) s :
  let s' := foldl (fun s m => HDEL (string_sub5 m) (DEL ("job:" ++ string_sub5 m) s)) s
              (dlq_member <$> l) in
  s'.(pending) = s.(pending) /\ s'.(processing) = s.(processing) /\ s'.(faults) = s.(faults) /\
  forall i, s'.(status) !! uuid_to_string i
              = (if decide (i ∈ l) then None else s.(status) !! uuid_to_string i) /\
            s'.(data) !! job_key i = (if decide (i ∈ l) then None else s.(data) !! job_key i).
Proof using parse_print json_round.
  revert s. induction l as [|x l IH]; intros s; [done|]. rewrite fmap_cons. cbn [foldl].
  rewrite string_sub5_member. fold (job_key x).
  destruct (IH (HDEL (uuid_to_string x) (DEL (job_key x) s))) as (-> & -> & -> & Hi).
  split_and!; [done..|]. intros i. destruct (Hi i) as [-> ->]. cbn. rewrite !delete_key by apply _.
  destruct (decide (i ∈ l)), (decide (i ∈ x :: l)), (decide (x = i)); set_solver.
Qed.

Lemma clear_refines a s out a' :
  wf a -> refines a s -> spec_step Clear a = Some (out, a') ->
  wf a' /\ exists s', redis_step Clear s = (Ok out, s') /\ refines a' s'.
Proof using parse_print json_round.
  intros [W1 W2 W3 W4 W5 W6] [R1 R2 R3 R4 R5 R6]. cbn. intros [= <- <-].
  assert (forall i, filter (fun p : Uuid * (JobState * Job) => p.2.1 <> DeadLettered) (held a) !! i
            = if decide (i ∈ dead a) then None else held a !! i) as Hf.
  { intros i. rewrite map_lookup_filter. case_decide as Hd.
    - apply W4 in Hd as [j ->]. done.
    - rewrite W4 in Hd. destruct (held a !! i) as [[st j]|]; cbn; [|done].
      case_guard as Hg; [done|]. cbn in Hg. destruct Hd. exists j. by destruct st. }
  split.
  - split; cbn; [done|constructor| | | |]; intros i; rewrite Hf; rewrite ?W3; case_decide as Hd;
      rewrite ?W4 in Hd; crush; set_solver.
  - unfold clear, bind. rewrite exec_healthy by done. eexists. split; [reflexivity|].
    unfold DLQ_CLEAR_SCRIPT. rewrite R2.
    destruct (clear_loop (dead a) s) as (E1 & E2 & E3 & Ei).
    split; cbn; [by rewrite E1|done| | | |by rewrite E3]; intros i; rewrite Hf.
    + destruct (Ei i) as [-> _]. rewrite R3. by case_decide.
    + rewrite E2, R4. case_decide as Hd; [|done]. apply W4 in Hd as [? ?]. crush.
    + destruct (Ei i) as [_ ->]. rewrite R5. by case_decide.
Qed.

Lemma step_refines op a s out a' :
  wf a -> refines a s -> spec_step op a = Some (out, a') ->
  wf a' /\ exists s', redis_step op s = (Ok out, s') /\ refines a' s'.
Proof using parse_print json_round.
  intros Ha Hs. destruct op as [job|now n t|i|now job err|i|].
  - by apply enqueue_refines.
  - cbn. intros [= H1]. pose proof (dequeue_refines n (now + 1000 * t) a s Ha Hs) as Hd.
    rewrite H1 in Hd. exact Hd.
  - by apply acknowledge_refines.
  - by apply fail_refines.
  - by apply remove_refines.
  - by apply clear_refines.
Qed.

(** C40. While no command fails ([refines] has an empty schedule of faults) and the
    clients keep to the protocol ([spec_run] is defined: a job is enqueued under
    an id the queue does not hold, only a job that is running is acknowledged or
    failed, only a dead one removed, and jobs can be written as JSON), the calls
    behave, on the Redis keys, as on the abstract queue: the same jobs come out
    in the same (first-in first-out) order and the four keys keep saying the
    same thing about each job.  Without either condition they do not: a fault
    in a dequeue loses its job ([dequeue_fault_loses_job]), and the repository's
    own worker requeues a job it goes on running, so it leaves the protocol
    ([retried_success_poisons_queue]). *)
Theorem redis_refines_queue ops a s out a' :
  wf a -> refines a s -> spec_run ops a = Some (out, a') ->
  wf a' /\ exists s', redis_run ops s = (Ok out, s') /\ refines a' s'.
Proof using parse_print json_round.
  revert a s out. induction ops as [|op ops IH]; intros a s out Ha Hs; cbn.
  { intros [= <- <-]. eauto. }
  destruct (spec_step op a) as [[js a1]|] eqn:H1; cbn; [|done].
  destruct (spec_run ops a1) as [[js' a2]|] eqn:H2; cbn; [|done]. intros [= <- <-].
  destruct (step_refines op a s js a1 Ha Hs H1) as (Ha1 & s1 & E1 & Hs1).
  destruct (IH a1 s1 js' Ha1 Hs1 H2) as (Ha2 & s2 & E2 & Hs2).
  unfold bind. rewrite E1, E2. eauto.
Qed.

(** A script reads and writes the keys, not the schedule. *)
Definition script (c : Store -> Store) : Prop := forall s fs, c (set_faults s fs) = set_faults (c s) fs.

Lemma exec_fault c s e s' :
  script c -> exec c s = (Err e, s') ->
  set_faults s' [] = set_faults s [] \/ set_faults s' [] = (exec c (set_faults s [])).2.
Proof using Type.
  intros Hc. unfold exec, command. destruct (faults s) as [|[] fs] eqn:Hf; cbn; try done;
    intros [= <- <-]; [by left|right]. rewrite !Hc. done.
Qed.

Lemma exec_unit_fault c s e (s' : Store) :
  script c -> bind (exec c) (fun _ => ret ([] : list Job)) s = (Err e, s') ->
  set_faults s' [] = set_faults s [] \/
  set_faults s' [] = (bind (exec c) (fun _ => ret ([] : list Job)) (set_faults s [])).2.
Proof using Type.
  intros Hc. unfold bind. destruct (exec c s) as [[?|?] s1] eqn:He; [done|]. intros [= -> ->].
  destruct (exec_fault c s e s' Hc He) as [?|Hr]; [by left|right]. rewrite Hr.
  by destruct (exec c (set_faults s [])) as [[]?].
Qed.

Lemma clear_script : script DLQ_CLEAR_SCRIPT.
Proof using Type.
  intros s fs. unfold DLQ_CLEAR_SCRIPT. cbn [dlq set_faults]. generalize (dlq s) as l.
  intros l. enough (forall s, foldl (fun s m => HDEL (string_sub5 m) (DEL ("job:" ++ string_sub5 m) s)) (set_faults s fs) l
    = set_faults (foldl (fun s m => HDEL (string_sub5 m) (DEL ("job:" ++ string_sub5 m) s)) s l) fs) as ->; [done|].
  induction l as [|m l IH]; intros s1; [done|]. cbn [foldl]. by rewrite <- IH.
Qed.

Lemma fail_step now job err s :
  redis_step (Fail now job err) s
  = bind (fail_marked (mark_failed now err job)) (fun _ => ret []) s.
Proof using Type. cbn. unfold fail, bind. by destruct (fail_marked _ _) as [[]?]. Qed.

(** One atomic script per change of place: whatever the fate of the
    connection, a failing call other than [dequeue] leaves the keys as they
    were or as the finished call leaves them. *)
Theorem scripts_all_or_nothing op s e s' :
  match op with Dequeue _ _ _ => False | _ => True end ->
  redis_step op s = (Err e, s') ->
  set_faults s' [] = set_faults s [] \/
  set_faults s' [] = (redis_step op (set_faults s [])).2.
Proof using Type.
  intros Hop. destruct op as [job|now n t|i|now job err|i|]; [|done| | | |].
  - cbn [redis_step]. unfold enqueue, try. destruct (job_to_json job) as [js|je].
    + apply (exec_unit_fault (JOB_ENQUEUE_SCRIPT _ _ _)). done.
    + cbn. intros [= _ <-]. by left.
  - apply exec_unit_fault. done.
  - rewrite !fail_step. unfold fail_marked, try. set (j := mark_failed now err job).
    destruct (job_to_json j) as [js|je]; [|cbn; intros [= _ <-]; by left].
    destruct (can_retry j).
    + apply (exec_unit_fault (JOB_FAIL_RETRY_SCRIPT _ _ _ _)). done.
    + apply (exec_unit_fault (JOB_FAIL_DLQ_SCRIPT _ _ _ _ _)). done.
  - apply exec_unit_fault. done.
  - apply exec_unit_fault, clear_script.
Qed.

Lemma RPOP_snoc s rest m :
  s.(pending) = rest ++ [m] -> RPOP s = (Some m, set_pending s rest).
Proof using Type. intros Hp. unfold RPOP. rewrite Hp, reverse_snoc. by rewrite reverse_involutive. Qed.

(** [dequeue] is several commands: when the connection is lost between the
    pop and the read of a job, the job is in none of the three places, its
    status still says pending, and the call reports an error. *)
Theorem dequeue_fault_loses_job t n i rest s fs :
  s.(pending) = rest ++ [uuid_to_string i] -> uuid_to_string i ∉ rest ->
  s.(faults) = Done :: Lost :: fs ->
  exists s', dequeue_loop (S n) t s
               = (Err (InvalidConfig ("Job " ++ uuid_to_string i ++ " not found in storage")), s') /\
    uuid_to_string i ∉ s'.(pending) /\ s'.(processing) = s.(processing) /\
    s'.(dlq) = s.(dlq) /\ s'.(status) = s.(status).
Proof using parse_print.
  intros Hp Hn Hf. cbn [dequeue_loop]. unfold bind, dequeue_one, bind, command at 1. rewrite Hf.
  rewrite (RPOP_snoc (set_faults s (Lost :: fs)) rest (uuid_to_string i)) by done.
  unfold try. rewrite parse_print. cbn. unfold map_err, GET_string, GET, bind, command. cbn.
  eexists. by split.
Qed.

(** ** The queue interface *)
#[export] Instance redis_queue : JobQueue Store := {
  JobQueue.enqueue := enqueue; JobQueue.dequeue := dequeue;
  JobQueue.acknowledge _ := acknowledge; JobQueue.fail := fail;
  JobQueue.get_status := get_status; JobQueue.queue_depth := queue_depth;
  JobQueue.dlq_size := dlq_size
}.

Lemma fail_outcome now job err s :
  s.(faults) = [] -> serialises (mark_failed now err job) = true ->
  exists js, fail now job err s
    = (Ok tt, mark_failed now err job,
       if can_retry (mark_failed now err job)
       then JOB_FAIL_RETRY_SCRIPT (job_key job.(id)) (processing_member job.(id)) js
              (uuid_to_string job.(id)) s
       else JOB_FAIL_DLQ_SCRIPT (job_key job.(id)) (processing_member job.(id)) js
              (dlq_member job.(id)) (uuid_to_string job.(id)) s).
Proof using Type.
  intros Hf Hs. destruct (job_to_json_ok _ Hs) as [js Hj]. exists js.
  unfold fail, fail_marked, try, bind. rewrite Hj, mark_failed_id. cbn [ret].
  by case_bool; rewrite exec_healthy.
Qed.

(** On a reachable store, when every job serialises, Redis keeps the laws the
    worker relies on. *)
Context (json_total : forall j, serialises j = true).

#[export] Program Instance redis_laws : JobQueueLaws Store := {
  healthy s := s.(faults) = [];
  is_pending i s := uuid_to_string i ∈ s.(pending);
  is_dlq i s := dlq_member i ∈ s.(dlq)
}.
Next Obligation. intros; cbn; unfold fail. by destruct (fail_marked _ _). Qed.
Next Obligation.
  intros now j err s Hs. destruct (fail_outcome now j err s Hs) as [js Hf]; [done|].
  cbn. rewrite Hf. by case_bool.
Qed.
Next Obligation.
  intros now j err s i Hs. destruct (fail_outcome now j err s Hs) as [js Hf]; [done|].
  cbn. rewrite Hf. case_bool; cbn; rewrite ?elem_of_cons, ?(inj_iff uuid_to_string); naive_solver.
Qed.
Next Obligation.
  intros now j err s i Hs. destruct (fail_outcome now j err s Hs) as [js Hf]; [done|].
  cbn. rewrite Hf. case_bool; cbn; rewrite ?elem_of_cons, ?(inj_iff dlq_member); naive_solver.
Qed.
Next Obligation.
  intros now i s i' Hs. cbn. unfold acknowledge. by rewrite exec_healthy.
Qed.

Lemma dequeue_missing_data t n i rest s :
  s.(faults) = [] -> s.(pending) = rest ++ [uuid_to_string i] -> s.(data) !! job_key i = None ->
  (dequeue_loop (S n) t s).1
    = Err (InvalidConfig ("Job " ++ uuid_to_string i ++ " not found in storage")).
Proof using parse_print.
  intros Hf Hp Hd. cbn [dequeue_loop]. unfold bind, dequeue_one, bind, command at 1. rewrite Hf.
  rewrite (RPOP_snoc s rest (uuid_to_string i)) by done.
  unfold try. rewrite parse_print. cbn. unfold map_err, GET_string, GET, bind, command. cbn.
  rewrite Hf. cbn. by rewrite Hd.
Qed.

(** A job that fails once and then succeeds in the same worker is requeued by
    the first failure and deleted by the acknowledgement: its identifier
    stays pending without data, and the next [dequeue] is an error. *)
Theorem retried_success_poisons_queue execution clock show job s e t n now :
  s.(faults) = [] -> s.(pending) = [] ->
  job.(attempt) + 2 < job.(max_attempts) ->
  execution 0 job = Err e -> is_transient e = true ->
  (forall j, execution 1 j = Ok tt) ->
  exists steps s1,
    JobExecutor.execute_job_with_retry execution clock show job s = Some (steps, s1) /\
    (dequeue now (S n) t s1).1
      = Err (InvalidConfig ("Job " ++ uuid_to_string job.(id) ++ " not found in storage")).
Proof using parse_print json_total.
  intros Hf Hp Hm He Ht Hok.
  unfold JobExecutor.execute_job_with_retry, JobExecutor.worker_fuel.
  replace (Z.to_nat (max_attempts job - attempt job) + 1)%nat
    with (S (S (Z.to_nat (max_attempts job - attempt job) - 1))) by lia.
  assert (can_retry job = true) as Hc by (apply Z.ltb_lt; lia).
  destruct (fail_outcome (clock 0) (mark_failed (clock 0) (show e) job) (show e) s Hf) as [js Hfail]; [done|].
  destruct (JobExecutor.twice_failed_attempt (clock 0) (show e) (show e) job Hc) as [Ha Hx].
  assert (can_retry (mark_failed (clock 0) (show e) (mark_failed (clock 0) (show e) job)) = true) as Hc2
    by (apply Z.ltb_lt; lia).
  rewrite Hc2, !mark_failed_id in Hfail.
  cbn [JobExecutor.retry_loop]. rewrite He. unfold JobExecutor.is_transient_error.
  rewrite Ht, Hc. cbn [negb fail redis_queue JobQueue.fail]. rewrite Hfail, Hok. cbn [acknowledge redis_queue JobQueue.acknowledge].
  unfold acknowledge. rewrite exec_healthy by done. rewrite !mark_failed_id.
  eexists _, _. split; [reflexivity|].
  apply (dequeue_missing_data _ _ _ []); cbn; [done|by rewrite Hp|by rewrite lookup_delete_eq].
Qed.
End Operations.

(** ** A concrete run *)

(** Identifiers in binary, least significant digit first. *)
Fixpoint show_positive (p : positive) : string :=
  match p with
  | xH => "1"
  | xO p => String "0" (show_positive p)
  | xI p => String "1" (show_positive p)
  end.
Fixpoint read_positive (s : string) : option positive :=
  match s with
  | String "1"%char "" => Some xH
  | String "0"%char s => xO <$> read_positive s
  | String "1"%char s => xI <$> read_positive s
  | _ => None
  end.
Definition show_bits (n : Uuid) : string :=
  match n with N0 => "" | Npos p => show_positive p end.
Definition read_bits (s : string) : result string Uuid :=
  if s =s "" then Ok N0 else ok_or (Npos <$> read_positive s) "not a uuid".

Lemma show_positive_cons p : exists c s, show_positive p = String c s.
Proof. destruct p; cbn; eauto. Qed.

Lemma read_show_positive p : read_positive (show_positive p) = Some p.
Proof.
  induction p as [p IH|p IH|]; cbn; [|by rewrite IH|done].
  destruct (show_positive_cons p) as (c & s & Hs). rewrite Hs in *. by rewrite IH.
Qed.

Lemma read_show_bits n : read_bits (show_bits n) = Ok n.
Proof.
  destruct n as [|p]; [done|]. unfold read_bits. cbn [show_bits]. rewrite read_show_positive.
  by destruct (show_positive_cons p) as (c & s & ->).
Qed.

(** A codec for finitely many jobs: a job is sent as its position. *)
Fixpoint show_in (jobs : list Job) (n : N) (j : Job) : result string string :=
  match jobs with
  | [] => Err "unknown job"
  | j' :: jobs => if decide (j = j') then Ok (show_bits n) else show_in jobs (N.succ n) j
  end.
Definition read_in (jobs : list Job) (s : string) : result string Job :=
  match read_bits s with
  | Ok n => ok_or (jobs !! N.to_nat n) "no such job"
  | Err e => Err e
  end.

Lemma show_in_read jobs j js : show_in jobs 0 j = Ok js -> read_in jobs js = Ok j.
Proof.
  unfold read_in. cut (forall before, show_in jobs (N.of_nat (length before)) j = Ok js ->
    match read_bits js with Ok n => ok_or ((before ++ jobs) !! N.to_nat n) "no such job" | Err e => Err e end = Ok j).
  { intros H. apply (H []). }
  induction jobs as [|j' jobs IH]; intros before; cbn; [done|]. case_decide as Hj.
  - intros [= <-]. rewrite read_show_bits, Nat2N.id, list_lookup_middle by done. by subst.
  - rewrite <- Nat2N.inj_succ. intros Hs. specialize (IH (before ++ [j'])).
    rewrite length_app, Nat.add_1_r, <- app_assoc in IH. auto.
Qed.

Definition job1 : Job := Job.new 1%N "e1" (Cache "user:*" "invalidate") 0 3 Exponential.
Definition job2 : Job := Job.new 2%N "e2" (Search "users" None) 0 1 Fixed.
Definition run_jobs : list Job :=
  [job1; job2; mark_failed 9 "timeout" job1; mark_failed 9 "timeout" job2].
Definition run_ops : list Op :=
  [Enqueue job1; Enqueue job2; Dequeue 5 10 60; Fail 9 job1 "timeout"; Fail 9 job2 "timeout";
   Clear; Dequeue 20 10 60; Acknowledge 1%N].

Lemma redis_refines_queue_witness :
  exists s', redis_run show_bits read_bits (show_in run_jobs 0) (read_in run_jobs) run_ops empty
    = (Ok [[]; []; [mark_running job1; mark_running job2]; []; []; [];
           [mark_running (mark_failed 9 "timeout" job1)]; []], s') /\
    s'.(pending) = [] /\ s'.(dlq) = [].
Proof.
  destruct (redis_refines_queue show_bits read_bits (show_in run_jobs 0) (read_in run_jobs)
              read_show_bits (show_in_read run_jobs) run_ops (mkSpec [] [] ∅) empty
              (default [] (fst <$> spec_run (show_in run_jobs 0) run_ops (mkSpec [] [] ∅)))
              (mkSpec [] [] ∅)) as (_ & s' & Hrun & Hr).
  - split; cbn; [constructor|constructor|..]; intros *; rewrite ?lookup_empty; set_solver.
  - split; cbn; try done; intros i; rewrite ?lookup_empty. split; [by intros []|naive_solver].
  - vm_compute. reflexivity.
  - exists s'. split; [exact Hrun|]. split; [apply (r_pending _ _ _ _ Hr)|apply (r_dlq _ _ _ _ Hr)].
Defined.

(** A codec that serialises every job. *)
Definition any_json (j : Job) : result string string := Ok (show_bits j.(id)).

Lemma retried_success_poisons_queue_witness :
  exists steps s1,
    JobExecutor.execute_job_with_retry
      (HQ := redis_queue show_bits read_bits any_json (read_in run_jobs))
      (fun n _ => if n =? 0 then Err (ActionExecutionFailed "timeout") else Ok tt)
      (fun n => n) (to_string (fun _ => "")) (Job.new 5%N "e" (Cache "k" "refresh") 0 4 Linear) empty
      = Some (steps, s1) /\
    (dequeue show_bits read_bits (read_in run_jobs) 9 1 60 s1).1
      = Err (InvalidConfig ("Job " ++ show_bits 5%N ++ " not found in storage")).
Proof.
  apply (retried_success_poisons_queue show_bits read_bits any_json (read_in run_jobs) read_show_bits
           (fun _ => eq_refl)
           (fun n _ => if n =? 0 then Err (ActionExecutionFailed "timeout") else Ok tt)
           (fun n => n) (to_string (fun _ => "")) (Job.new 5%N "e" (Cache "k" "refresh") 0 4 Linear)
           empty (ActionExecutionFailed "timeout")); try reflexivity.
Defined.

Lemma scripts_all_or_nothing_witness :
  let s := set_faults empty [ReplyLost] in
  set_faults (redis_step show_bits read_bits any_json (read_in run_jobs) (Enqueue job1) s).2 []
    = set_faults s [] \/
  set_faults (redis_step show_bits read_bits any_json (read_in run_jobs) (Enqueue job1) s).2 []
    = (redis_step show_bits read_bits any_json (read_in run_jobs) (Enqueue job1) (set_faults s [])).2.
Proof.
  intros s. apply (scripts_all_or_nothing show_bits read_bits any_json (read_in run_jobs)
                     (Enqueue job1) s redis_error); [exact I|reflexivity].
Defined.

Definition one_pending : Store :=
  mkStore ["1"] ∅ [] {["1" := "pending"]} ∅ [Done; Lost].

Lemma dequeue_fault_loses_job_witness :
  exists s', dequeue_loop show_bits read_bits (read_in run_jobs) 3 60 one_pending
    = (Err (InvalidConfig ("Job " ++ show_bits 1%N ++ " not found in storage")), s') /\
    show_bits 1%N ∉ s'.(pending) /\ s'.(processing) = one_pending.(processing) /\
    s'.(dlq) = one_pending.(dlq) /\ s'.(status) = one_pending.(status).
Proof.
  apply (dequeue_fault_loses_job show_bits read_bits (read_in run_jobs) read_show_bits 60 2 1%N []
           one_pending []); [done|set_solver|done].
Defined.
End RedisJobQueue.
