(* ===== verification/Bytes.v ===== *)
(** * Bytes, big-endian integers and UTF-8

    What the wire crate uses of the standard library and of its own byte
    helpers (crates/fraiseql-wire/src/util/bytes.rs): bounds-checked indexing
    and slicing, [from_be_bytes] and [to_be_bytes], [String::from_utf8] and
    [String::from_utf8_lossy].  A byte is a [Z] in [0, 256); text is the bytes
    of its UTF-8 form. *)

From S2P Require Import Prelude.

Definition byte (b : Z) : Prop := 0 <= b < 256.
Definition bytes (l : list Z) : Prop := Forall byte l.

(** The kinds of [io::Error] the crate raises; a panic of the standard library
    and an exhausted fuel are values too, so that their absence is a theorem. *)
Inductive io_error : Type :=
| UnexpectedEof (msg : string)
| InvalidData (msg : string)
| Unsupported (msg : string)
| Panic
| OutOfFuel.

Abbreviation io A := (result io_error A).

Definition safe {A} (r : io A) : Prop := r <> Err Panic /\ r <> Err OutOfFuel.

Lemma safe_ok {A} (a : A) : safe (Ok a : io A).
Proof. by split. Qed.

Lemma safe_bind {A B} (m : io A) (k : A -> io B) :
  safe m -> (forall a, m = Ok a -> safe (k a)) -> safe (m ≫= k).
Proof. destruct m as [a|e]; cbn; [eauto|]. intros [? ?] _. split; congruence. Qed.

(** [data[i]], [data[a..b]], [data[a..]]. *)
Definition idx (data : list Z) (i : nat) : io Z := ok_or (data !! i) Panic.
Definition slice (data : list Z) (a b : nat) : io (list Z) :=
  if decide (a <= b <= length data)%nat then Ok (take (b - a) (drop a data)) else Err Panic.
Definition slice_from (data : list Z) (a : nat) : io (list Z) :=
  if decide (a <= length data)%nat then Ok (drop a data) else Err Panic.

Lemma idx_safe data i : (i < length data)%nat -> exists b, idx data i = Ok b.
Proof. intros Hi. unfold idx. apply lookup_lt_is_Some in Hi as [b ->]. cbn. eauto. Qed.

Lemma slice_ok data a b :
  (a <= b <= length data)%nat -> slice data a b = Ok (take (b - a) (drop a data)).
Proof. intros. unfold slice. by rewrite decide_True. Qed.

Lemma slice_from_ok data a : (a <= length data)%nat -> slice_from data a = Ok (drop a data).
Proof. intros. unfold slice_from. by rewrite decide_True. Qed.

Lemma idx_app pre b post : idx (pre ++ b :: post) (length pre) = Ok b.
Proof. unfold idx. by rewrite list_lookup_middle. Qed.

Lemma slice_app pre mid post :
  slice (pre ++ mid ++ post) (length pre) (length pre + length mid) = Ok mid.
Proof.
  rewrite slice_ok by (rewrite !length_app; lia). rewrite drop_app_length.
  replace (length pre + length mid - length pre)%nat with (length mid) by lia.
  by rewrite take_app_length.
Qed.

Lemma slice_from_app pre post : slice_from (pre ++ post) (length pre) = Ok post.
Proof. rewrite slice_from_ok by (rewrite length_app; lia). by rewrite drop_app_length. Qed.

(** [iter().position(|&b| b == 0)]. *)
Fixpoint position0 (l : list Z) : option nat :=
  match l with
  | [] => None
  | b :: l => if b =? 0 then Some O else S <$> position0 l
  end.

Lemma position0_lt l n : position0 l = Some n -> (n < length l)%nat.
Proof.
  revert n. induction l as [|b l IH]; intros n; cbn; [done|]. case_bool; [intros [= <-]; lia|].
  destruct (position0 l) as [m|]; cbn; [|done]. intros [= <-]. specialize (IH m eq_refl). lia.
Qed.

Definition nul_free (l : list Z) : Prop := Forall (fun b => b <> 0) l.

Lemma position0_app s rest : nul_free s -> position0 (s ++ 0 :: rest) = Some (length s).
Proof.
  induction 1 as [|b s Hb _ IH]; [done|]. cbn. rewrite (proj2 (Z.eqb_neq b 0) Hb), IH. done.
Qed.

Lemma position0_take l n : position0 l = Some n -> nul_free (take n l).
Proof.
  revert n. induction l as [|b l IH]; intros n; cbn; [done|].
  case_bool; [intros [= <-]; constructor|]. destruct (position0 l) as [m|]; cbn; [|done].
  intros [= <-]. cbn. constructor; [bool_lia|by apply IH].
Qed.

(** ** Big-endian integers *)

Fixpoint be (n : nat) (z : Z) : list Z :=
  match n with
  | O => []
  | S n => (z / 2 ^ (8 * Z.of_nat n)) mod 256 :: be n z
  end.
Definition from_be (l : list Z) : Z := foldl (fun acc b => acc * 256 + b) 0 l.
Definition signed (w : Z) (z : Z) : Z := if z <? 2 ^ (w - 1) then z else z - 2 ^ w.

Definition is_i32 (z : Z) : Prop := - 2 ^ 31 <= z < 2 ^ 31.
Definition is_i16 (z : Z) : Prop := - 2 ^ 15 <= z < 2 ^ 15.

Lemma length_be n z : length (be n z) = n.
Proof. induction n; cbn; congruence. Qed.

Lemma be_bytes n z : bytes (be n z).
Proof. induction n; constructor; [|done]. unfold byte. pose proof (Z.mod_pos_bound (z / 2 ^ (8 * Z.of_nat n)) 256). lia. Qed.

Lemma from_be_foldl acc l :
  foldl (fun acc b => acc * 256 + b) acc l = acc * 256 ^ Z.of_nat (length l) + from_be l.
Proof.
  unfold from_be. revert acc. induction l as [|b l IH]; intros acc; cbn [foldl length]; [cbn; lia|].
  rewrite (IH (acc * 256 + b)), (IH (0 * 256 + b)), Nat2Z.inj_succ, Z.pow_succ_r by lia. ring.
Qed.

Lemma from_be_be n z : from_be (be n z) = z mod 2 ^ (8 * Z.of_nat n).
Proof.
  induction n as [|n IH]; [by rewrite Z.mod_1_r|].
  cbn [be]. unfold from_be. cbn [foldl]. rewrite from_be_foldl, length_be, IH.
  replace (8 * Z.of_nat (S n)) with (8 * Z.of_nat n + 8) by lia.
  rewrite Z.pow_add_r by lia. change (2 ^ 8) with 256.
  rewrite (Z.rem_mul_r z (2 ^ (8 * Z.of_nat n)) 256) by lia.
  rewrite (Z.pow_mul_r 2 8) by lia. change (2 ^ 8) with 256. lia.
Qed.

Lemma from_be_range l : bytes l -> 0 <= from_be l < 256 ^ Z.of_nat (length l).
Proof.
  induction 1 as [|b l Hb Hl IH]; [cbn; lia|]. unfold from_be. cbn [foldl length].
  rewrite from_be_foldl. rewrite Nat2Z.inj_succ, Z.pow_succ_r by lia. unfold byte in Hb. nia.
Qed.

Lemma signed_mod w z : 0 < w -> - 2 ^ (w - 1) <= z < 2 ^ (w - 1) -> signed w (z mod 2 ^ w) = z.
Proof.
  intros Hw Hz. assert (2 ^ w = 2 * 2 ^ (w - 1)) as E by (rewrite <- Z.pow_succ_r by lia; f_equal; lia).
  unfold signed. destruct (Z.le_gt_cases 0 z).
  - rewrite Z.mod_small by lia. rewrite (proj2 (Z.ltb_lt _ _)); lia.
  - replace (z mod 2 ^ w) with (z + 2 ^ w).
    + rewrite (proj2 (Z.ltb_ge _ _)); lia.
    + rewrite <- (Z.mod_small (z + 2 ^ w) (2 ^ w)) by lia.
      rewrite <- (Z.mul_1_l (2 ^ w)) at 1. by rewrite Z.mod_add by lia.
Qed.

(** [i32::from_be_bytes([data[o], .., data[o + 3]])] and its 16-bit form. *)
Definition read_i32 (data : list Z) (o : nat) : io Z :=
  b0 ← idx data o; b1 ← idx data (o + 1); b2 ← idx data (o + 2); b3 ← idx data (o + 3);
  Ok (signed 32 (from_be [b0; b1; b2; b3])).
Definition read_i16 (data : list Z) (o : nat) : io Z :=
  b0 ← idx data o; b1 ← idx data (o + 1);
  Ok (signed 16 (from_be [b0; b1])).

Lemma read_i32_safe data o : (o + 4 <= length data)%nat -> exists z, read_i32 data o = Ok z.
Proof.
  intros H. unfold read_i32. destruct (idx_safe data o) as [? ->]; [lia|].
  destruct (idx_safe data (o + 1)) as [? ->]; [lia|]. destruct (idx_safe data (o + 2)) as [? ->]; [lia|].
  destruct (idx_safe data (o + 3)) as [? ->]; [lia|]. cbn. eauto.
Qed.

Lemma read_i16_safe data o : (o + 2 <= length data)%nat -> exists z, read_i16 data o = Ok z.
Proof.
  intros H. unfold read_i16. destruct (idx_safe data o) as [? ->]; [lia|].
  destruct (idx_safe data (o + 1)) as [? ->]; [lia|]. cbn. eauto.
Qed.

Lemma idx_app_at pre l post i b :
  l !! i = Some b -> idx (pre ++ l ++ post) (length pre + i) = Ok b.
Proof.
  intros Hl. unfold idx. rewrite lookup_app_r by lia.
  replace (length pre + i - length pre)%nat with i by lia.
  by rewrite lookup_app_l, Hl by (by eapply lookup_lt_Some).
Qed.

Lemma read_i32_app pre z post :
  is_i32 z -> read_i32 (pre ++ be 4 z ++ post) (length pre) = Ok z.
Proof.
  intros Hz. unfold read_i32. rewrite <- (Nat.add_0_r (length pre)) at 1.
  do 4 (erewrite idx_app_at by reflexivity; cbn [mbind result_bind]).
  change (Ok (signed 32 (from_be (be 4 z))) = (Ok z : io Z)). f_equal.
  rewrite from_be_be. by apply signed_mod.
Qed.

Lemma read_i16_app pre z post :
  is_i16 z -> read_i16 (pre ++ be 2 z ++ post) (length pre) = Ok z.
Proof.
  intros Hz. unfold read_i16. rewrite <- (Nat.add_0_r (length pre)) at 1.
  do 2 (erewrite idx_app_at by reflexivity; cbn [mbind result_bind]).
  change (Ok (signed 16 (from_be (be 2 z))) = (Ok z : io Z)). f_equal.
  rewrite from_be_be. by apply signed_mod.
Qed.

(** ** UTF-8 *)

Definition cont (b : Z) : bool := (128 <=? b) && (b <=? 191).
Definition between (a b x : Z) : bool := (a <=? x) && (x <=? b).

(** The chunk at the head of a non-empty input: its length, and whether it is
    one well-formed scalar or a maximal ill-formed part. *)
Definition utf8_chunk (l : list Z) : nat * bool :=
  match l with
  | [] => (O, true)
  | b0 :: l =>
      if b0 <=? 127 then (1%nat, true)
      else if between 194 223 b0 then
        match l with b1 :: _ => if cont b1 then (2%nat, true) else (1%nat, false) | [] => (1%nat, false) end
      else if between 224 239 b0 then
        match l with
        | b1 :: l =>
            if (if b0 =? 224 then between 160 191 b1 else if b0 =? 237 then between 128 159 b1 else cont b1)
            then match l with
                 | b2 :: _ => if cont b2 then (3%nat, true) else (2%nat, false)
                 | [] => (2%nat, false)
                 end
            else (1%nat, false)
        | [] => (1%nat, false)
        end
      else if between 240 244 b0 then
        match l with
        | b1 :: l =>
            if (if b0 =? 240 then between 144 191 b1 else if b0 =? 244 then between 128 143 b1 else cont b1)
            then match l with
                 | b2 :: l =>
                     if cont b2
                     then match l with
                          | b3 :: _ => if cont b3 then (4%nat, true) else (3%nat, false)
                          | [] => (3%nat, false)
                          end
                     else (2%nat, false)
                 | [] => (2%nat, false)
                 end
            else (1%nat, false)
        | [] => (1%nat, false)
        end
      else (1%nat, false)
  end.

(** U+FFFD. *)
Definition replacement : list Z := [239; 191; 189].

Fixpoint lossy_fuel (fuel : nat) (l : list Z) : list Z :=
  match fuel with
  | O => []
  | S fuel =>
      match l with
      | [] => []
      | _ =>
          let (n, ok) := utf8_chunk l in
          (if ok then take n l else replacement) ++ lossy_fuel fuel (drop n l)
      end
  end.
(** One unit of fuel per byte: a chunk has at least one. *)
Definition from_utf8_lossy (l : list Z) : list Z := lossy_fuel (length l) l.

Fixpoint valid_fuel (fuel : nat) (l : list Z) : bool :=
  match fuel with
  | O => match l with [] => true | _ => false end
  | S fuel =>
      match l with
      | [] => true
      | _ => let (n, ok) := utf8_chunk l in ok && valid_fuel fuel (drop n l)
      end
  end.
Definition valid_utf8 (l : list Z) : bool := valid_fuel (length l) l.

Lemma utf8_chunk_bound b l : (1 <= fst (utf8_chunk (b :: l)) <= length (b :: l))%nat.
Proof. cbn. repeat (case_match; cbn in *; try lia). Qed.

Lemma lossy_valid_fuel fuel l : valid_fuel fuel l = true -> lossy_fuel fuel l = l.
Proof.
  revert l. induction fuel as [|fuel IH]; intros [|b l]; cbn -[utf8_chunk]; try done.
  destruct (utf8_chunk (b :: l)) as [n ok]. intros [-> H]%andb_true_iff.
  rewrite IH by done. apply take_drop.
Qed.

(** Decoding valid text loses nothing. *)
Lemma lossy_valid l : valid_utf8 l = true -> from_utf8_lossy l = l.
Proof. apply lossy_valid_fuel. Qed.

Lemma lossy_length_fuel fuel l : (length (lossy_fuel fuel l) <= 3 * length l)%nat.
Proof.
  revert l. induction fuel as [|fuel IH]; intros [|b l]; cbn [lossy_fuel length]; try lia.
  pose proof (utf8_chunk_bound b l) as Hb. destruct (utf8_chunk (b :: l)) as [n ok]; cbn [fst] in Hb.
  rewrite length_app. specialize (IH (drop n (b :: l))). rewrite length_drop in IH.
  cbn [length] in *. destruct ok; [rewrite length_take; cbn [length]|cbn [replacement length]]; lia.
Qed.

Lemma lossy_nul_free_fuel fuel l : nul_free l -> nul_free (lossy_fuel fuel l).
Proof.
  revert l. induction fuel as [|fuel IH]; intros [|b l] Hl; cbn [lossy_fuel]; try constructor.
  destruct (utf8_chunk (b :: l)) as [n ok]. apply Forall_app. split; [|by apply IH, Forall_drop].
  destruct ok; [by apply Forall_take|repeat constructor; done].
Qed.

(** Text of the source, as bytes. *)
Definition text (s : string) : list Z :=
  (fix go (s : string) := match s with
   | EmptyString => []
   | String c s => Z.of_N (Ascii.N_of_ascii c) :: go s
   end) s.
