(* ===== verification/WireProtocol.v ===== *)
(** * The PostgreSQL wire protocol

    crates/fraiseql-wire/src/protocol/: constants.rs, message.rs ([Frontend]
    and backend messages), encode.rs ([Encode]) and decode.rs ([Decode]).
    A [String] is the bytes of its UTF-8 text. *)

From S2P Require Import Prelude Bytes.
From stdpp Require Import pretty.
#[local] Open Scope Z_scope.

(** ** Constants *)
Module tags.
Definition AUTHENTICATION : Z := 82.    (* 'R' *)
Definition BACKEND_KEY_DATA : Z := 75.  (* 'K' *)
Definition COMMAND_COMPLETE : Z := 67.  (* 'C' *)
Definition DATA_ROW : Z := 68.          (* 'D' *)
Definition ERROR_RESPONSE : Z := 69.    (* 'E' *)
Definition NOTICE_RESPONSE : Z := 78.   (* 'N' *)
Definition PARAMETER_STATUS : Z := 83.  (* 'S' *)
Definition READY_FOR_QUERY : Z := 90.   (* 'Z' *)
Definition ROW_DESCRIPTION : Z := 84.   (* 'T' *)
End tags.

Module auth.
Definition OK : Z := 0.
Definition CLEARTEXT_PASSWORD : Z := 3.
Definition MD5_PASSWORD : Z := 5.
Definition SASL : Z := 10.
Definition SASL_CONTINUE : Z := 11.
Definition SASL_FINAL : Z := 12.
End auth.

Definition PROTOCOL_VERSION : Z := 196608.

(** ** Messages *)
Abbreviation Text := (list Z).

Inductive FrontendMessage : Type :=
| Startup (version : Z) (params : list (Text * Text))
| Password (password : Text)
| Query (query : Text)
| Terminate
| SaslInitialResponse (mechanism : Text) (data : list Z)
| SaslResponse (data : list Z).

Inductive AuthenticationMessage : Type :=
| AuthOk
| CleartextPassword
| Md5Password (salt : list Z)
| Sasl (mechanisms : list Text)
| SaslContinue (data : list Z)
| SaslFinal (data : list Z).

Record FieldDescription : Type := mkField {
  fd_name : Text;
  table_oid : Z;
  column_attr : Z;
  type_oid : Z;
  type_size : Z;
  type_modifier : Z;
  format_code : Z
}.

Record ErrorFields : Type := mkErr {
  severity : option Text;
  code : option Text;
  message : option Text;
  detail : option Text;
  hint : option Text;
  position : option Text
}.
Definition no_fields : ErrorFields := mkErr None None None None None None.

Inductive BackendMessage : Type :=
| Authentication (m : AuthenticationMessage)
| BackendKeyData (process_id secret_key : Z)
| CommandComplete (tag : Text)
| DataRow (fields : list (option (list Z)))
| ErrorResponse (fields : ErrorFields)
| NoticeResponse (fields : ErrorFields)
| ParameterStatus (name value : Text)
| ReadyForQuery (status : Z)
| RowDescription (fields : list FieldDescription).

(** ** Encoding frontend messages *)
Module Encode.

(** [buf.put_i32]: four bytes, big-endian, of the two's complement. *)
Definition put_i32 (z : Z) : list Z := be 4 z.

(** [body] preceded by the patched length, which counts itself; the cast
    [len as i32] keeps the low 32 bits. *)
Definition with_length (body : list Z) : list Z :=
  put_i32 (Z.of_nat (4 + length body)) ++ body.

Definition cstr (s : Text) : list Z := s ++ [0].

Definition encode_startup (version : Z) (params : list (Text * Text)) : list Z :=
  with_length (put_i32 version ++ concat (map (fun kv => cstr kv.1 ++ cstr kv.2) params) ++ [0]).
Definition encode_password (password : Text) : list Z := 112 :: with_length (cstr password).
Definition encode_query (query : Text) : list Z := 81 :: with_length (cstr query).
Definition encode_terminate : list Z := 88 :: put_i32 4.
Definition encode_sasl_initial_response (mechanism : Text) (data : list Z) : list Z :=
  112 :: with_length (cstr mechanism ++ put_i32 (Z.of_nat (length data)) ++ data).
Definition encode_sasl_response (data : list Z) : list Z := 112 :: with_length data.

Definition encode_message (msg : FrontendMessage) : io (list Z) :=
  match msg with
  | Startup version params => Ok (encode_startup version params)
  | Password password => Ok (encode_password password)
  | Query query => Ok (encode_query query)
  | Terminate => Ok encode_terminate
  | SaslInitialResponse mechanism data => Ok (encode_sasl_initial_response mechanism data)
  | SaslResponse data => Ok (encode_sasl_response data)
  end.
End Encode.

(** ** Decoding backend messages *)
Module Decode.

Definition MAX_FIELD_COUNT : Z := 2048.
Definition MAX_ERROR_FIELD_BYTES : nat := 64 * 1024.
Definition MAX_SASL_MECHANISMS : nat := 32.
Definition MAX_PARAMETER_NAME_BYTES : nat := 256.
Definition MAX_PARAMETER_VALUE_BYTES : nat := 64 * 1024.

Definition show_nat (n : nat) : string := pretty (N.of_nat n).
Definition show_Z (z : Z) : string := pretty z.

(** [position(..).ok_or_else(..)] followed by the lossy conversion: the text up
    to the next NUL of [data[offset..]] and its length. *)
Definition cstr_end (data : list Z) (offset : nat) (missing : string) : io nat :=
  rest ← slice_from data offset;
  ok_or (position0 rest) (InvalidData missing).
Definition text_at (data : list Z) (offset len : nat) : io Text :=
  from_utf8_lossy <$> slice data offset (offset + len).

(** The mechanism list.  One unit of fuel per byte is enough: a round that goes
    on consumes two. *)
Fixpoint sasl_loop (fuel : nat) (remaining : list Z) (offset : nat) (mechanisms : list Text)
    : io (list Text) :=
  match fuel with
  | O => Err OutOfFuel
  | S fuel =>
      if decide (length remaining <= offset)%nat then Ok mechanisms
      else
        rest ← slice_from remaining offset;
        match position0 rest with
        | Some end_ =>
            mechanism ← text_at remaining offset end_;
            match mechanism with
            | [] => Ok mechanisms
            | _ =>
                if decide (MAX_SASL_MECHANISMS <= length mechanisms)%nat then Ok mechanisms
                else sasl_loop fuel remaining (offset + (end_ + 1)) (mechanisms ++ [mechanism])
            end
        | None => Ok mechanisms
        end
  end.

Definition decode_authentication (data : list Z) : io BackendMessage :=
  guard_err bool_decide (length data < 4)%nat as UnexpectedEof "auth type" ;;
  auth_type ← read_i32 data 0;
  Authentication <$>
    (if auth_type =? auth.OK then Ok AuthOk
     else if auth_type =? auth.CLEARTEXT_PASSWORD then Ok CleartextPassword
     else if auth_type =? auth.MD5_PASSWORD then
       guard_err bool_decide (length data < 8)%nat as UnexpectedEof "salt data" ;;
       Md5Password <$> slice data 4 8
     else if auth_type =? auth.SASL then
       remaining ← slice_from data 4;
       Sasl <$> sasl_loop (S (length remaining)) remaining 0 []
     else if auth_type =? auth.SASL_CONTINUE then SaslContinue <$> slice_from data 4
     else if auth_type =? auth.SASL_FINAL then SaslFinal <$> slice_from data 4
     else Err (Unsupported ("unsupported auth type: " ++ show_Z auth_type))).

Definition decode_backend_key_data (data : list Z) : io BackendMessage :=
  guard_err bool_decide (length data < 8)%nat as UnexpectedEof "backend key data" ;;
  process_id ← read_i32 data 0;
  secret_key ← read_i32 data 4;
  Ok (BackendKeyData process_id secret_key).

Definition decode_command_complete (data : list Z) : io BackendMessage :=
  end_ ← ok_or (position0 data) (InvalidData "missing null terminator in string");
  CommandComplete <$> text_at data 0 end_.

(** The checked field count that starts a [DataRow] and a [RowDescription]. *)
Definition field_count (kind : string) (data : list Z) : io nat :=
  guard_err bool_decide (length data < 2)%nat as UnexpectedEof "field count" ;;
  count ← read_i16 data 0;
  guard_err count <? 0 as InvalidData "negative field count" ;;
  guard_err MAX_FIELD_COUNT <? count
    as InvalidData (kind ++ " field count " ++ show_Z count ++ " exceeds maximum 2048") ;;
  Ok (Z.to_nat count).

Fixpoint data_row_fields (n : nat) (data : list Z) (offset : nat) : io (list (option (list Z))) :=
  match n with
  | O => Ok []
  | S n =>
      guard_err bool_decide (length data < offset + 4)%nat as UnexpectedEof "field length" ;;
      field_len ← read_i32 data offset;
      let offset := (offset + 4)%nat in
      if field_len =? -1 then fields ← data_row_fields n data offset; Ok (None :: fields)
      else
        guard_err field_len <? 0 as InvalidData "negative field length" ;;
        let len := Z.to_nat field_len in
        guard_err bool_decide (length data < offset + len)%nat as UnexpectedEof "field data" ;;
        field_bytes ← slice data offset (offset + len);
        fields ← data_row_fields n data (offset + len);
        Ok (Some field_bytes :: fields)
  end.

Definition decode_data_row (data : list Z) : io BackendMessage :=
  n ← field_count "DataRow" data;
  DataRow <$> data_row_fields n data 2.

Definition set_field (field_type : Z) (value : Text) (f : ErrorFields) : ErrorFields :=
  let '(mkErr s c m d h p) := f in
  if field_type =? 83 then mkErr (Some value) c m d h p
  else if field_type =? 67 then mkErr s (Some value) m d h p
  else if field_type =? 77 then mkErr s c (Some value) d h p
  else if field_type =? 68 then mkErr s c m (Some value) h p
  else if field_type =? 72 then mkErr s c m d (Some value) p
  else if field_type =? 80 then mkErr s c m d h (Some value)
  else f.

Fixpoint error_fields_loop (fuel : nat) (data : list Z) (offset : nat) (fields : ErrorFields)
    : io ErrorFields :=
  match fuel with
  | O => Err OutOfFuel
  | S fuel =>
      if decide (length data <= offset)%nat then Ok fields
      else
        field_type ← idx data offset;
        let offset := (offset + 1)%nat in
        if field_type =? 0 then Ok fields
        else
          end_ ← cstr_end data offset "missing null terminator in error field";
          guard_err bool_decide (MAX_ERROR_FIELD_BYTES < end_)%nat
            as InvalidData ("Error field too large (" ++ show_nat end_ ++ " bytes, max 65536)") ;;
          value ← text_at data offset end_;
          error_fields_loop fuel data (offset + (end_ + 1)) (set_field field_type value fields)
  end.

Definition decode_error_fields (data : list Z) : io ErrorFields :=
  error_fields_loop (S (length data)) data 0 no_fields.
Definition decode_error_response (data : list Z) : io BackendMessage :=
  ErrorResponse <$> decode_error_fields data.
Definition decode_notice_response (data : list Z) : io BackendMessage :=
  NoticeResponse <$> decode_error_fields data.

Definition decode_parameter_status (data : list Z) : io BackendMessage :=
  name_end ← cstr_end data 0 "missing null terminator in parameter name";
  guard_err bool_decide (MAX_PARAMETER_NAME_BYTES < name_end)%nat
    as InvalidData ("Parameter name too long (" ++ show_nat name_end ++ " bytes, max 256)") ;;
  name ← text_at data 0 name_end;
  let offset := (name_end + 1)%nat in
  guard_err bool_decide (length data <= offset)%nat as UnexpectedEof "parameter value" ;;
  value_end ← cstr_end data offset "missing null terminator in parameter value";
  guard_err bool_decide (MAX_PARAMETER_VALUE_BYTES < value_end)%nat
    as InvalidData ("Parameter value too long (" ++ show_nat value_end ++ " bytes, max 65536)") ;;
  value ← text_at data offset value_end;
  Ok (ParameterStatus name value).

Definition decode_ready_for_query (data : list Z) : io BackendMessage :=
  guard_err bool_decide (length data = 0)%nat as UnexpectedEof "status byte" ;;
  ReadyForQuery <$> idx data 0.

Fixpoint row_description_fields (n : nat) (data : list Z) (offset : nat) : io (list FieldDescription) :=
  match n with
  | O => Ok []
  | S n =>
      name_end ← cstr_end data offset "missing null terminator in field name";
      name ← text_at data offset name_end;
      let offset := (offset + (name_end + 1))%nat in
      guard_err bool_decide (length data < offset + 18)%nat as UnexpectedEof "field descriptor" ;;
      table_oid ← read_i32 data offset;
      column_attr ← read_i16 data (offset + 4);
      type_oid ← read_i32 data (offset + 6);
      type_size ← read_i16 data (offset + 10);
      type_modifier ← read_i32 data (offset + 12);
      format_code ← read_i16 data (offset + 16);
      fields ← row_description_fields n data (offset + 18);
      Ok (mkField name table_oid column_attr (u32_wrap type_oid) type_size type_modifier format_code
            :: fields)
  end.

Definition decode_row_description (data : list Z) : io BackendMessage :=
  n ← field_count "RowDescription" data;
  RowDescription <$> row_description_fields n data 2.

Definition decode_body (tag : Z) (msg_data : list Z) : io BackendMessage :=
  if tag =? tags.AUTHENTICATION then decode_authentication msg_data
  else if tag =? tags.BACKEND_KEY_DATA then decode_backend_key_data msg_data
  else if tag =? tags.COMMAND_COMPLETE then decode_command_complete msg_data
  else if tag =? tags.DATA_ROW then decode_data_row msg_data
  else if tag =? tags.ERROR_RESPONSE then decode_error_response msg_data
  else if tag =? tags.NOTICE_RESPONSE then decode_notice_response msg_data
  else if tag =? tags.PARAMETER_STATUS then decode_parameter_status msg_data
  else if tag =? tags.READY_FOR_QUERY then decode_ready_for_query msg_data
  else if tag =? tags.ROW_DESCRIPTION then decode_row_description msg_data
  else Err (InvalidData ("unknown message tag: " ++ show_Z tag)).

Definition decode_message (data : list Z) : io (BackendMessage * nat) :=
  guard_err bool_decide (length data < 5)%nat as UnexpectedEof "incomplete message header" ;;
  tag ← idx data 0;
  len_i32 ← read_i32 data 1;
  guard_err len_i32 <? 4 as InvalidData "message length too small" ;;
  let len := Z.to_nat len_i32 in
  guard_err bool_decide (length data < len + 1)%nat as UnexpectedEof "incomplete message body" ;;
  msg_data ← slice data 5 (len + 1);
  msg ← decode_body tag msg_data;
  Ok (msg, (len + 1)%nat).
End Decode.

(** ** Decoding never panics *)
Module DecodeSafety.
Import Decode.

Lemma safe_err_eof {A} m : safe (Err (UnexpectedEof m) : io A).
Proof. by split. Qed.
Lemma safe_err_data {A} m : safe (Err (InvalidData m) : io A).
Proof. by split. Qed.
Lemma safe_err_unsupported {A} m : safe (Err (Unsupported m) : io A).
Proof. by split. Qed.
Lemma safe_fmap {A B} (f : A -> B) (m : io A) : safe m -> safe (f <$> m).
Proof. destruct m; cbn; [by split|]. intros [? ?]. split; congruence. Qed.
Lemma safe_ok_or {A} (o : option A) m : safe (ok_or o (InvalidData m)).
Proof. by destruct o; split. Qed.
Lemma safe_idx data i : (i < length data)%nat -> safe (idx data i).
Proof. intros H. by destruct (idx_safe data i H) as [? ->]. Qed.
Lemma safe_i32 data o : (o + 4 <= length data)%nat -> safe (read_i32 data o).
Proof. intros H. by destruct (read_i32_safe data o H) as [? ->]. Qed.
Lemma safe_i16 data o : (o + 2 <= length data)%nat -> safe (read_i16 data o).
Proof. intros H. by destruct (read_i16_safe data o H) as [? ->]. Qed.
Lemma safe_slice data a b : (a <= b <= length data)%nat -> safe (slice data a b).
Proof. intros H. by rewrite slice_ok. Qed.
Lemma safe_slice_from data a : (a <= length data)%nat -> safe (slice_from data a).
Proof. intros H. by rewrite slice_from_ok. Qed.
Lemma safe_text data o n : (o + n <= length data)%nat -> safe (text_at data o n).
Proof. intros. apply safe_fmap, safe_slice. lia. Qed.

Lemma safe_cstr_end data o m : (o <= length data)%nat -> safe (cstr_end data o m).
Proof. intros. unfold cstr_end. rewrite slice_from_ok by done. apply safe_ok_or. Qed.

Lemma cstr_end_lt data o m n :
  cstr_end data o m = Ok n -> (o + n < length data)%nat.
Proof.
  unfold cstr_end, slice_from. case_decide; cbn; [|done].
  destruct (position0 (drop o data)) as [k|] eqn:Hp; cbn; [|done]. intros [= <-].
  apply position0_lt in Hp. rewrite length_drop in Hp. lia.
Qed.

(** Peel one step of a decoder. *)
Ltac safe_step :=
  first
  [ progress cbn beta zeta
  | match goal with
    | |- safe (if decide _ then _ else _) => case_decide
    | |- safe (if bool_decide _ then _ else _) => case_bool_decide
    | |- safe (if ?c then _ else _) => destruct c eqn:?
    | |- safe (let '(_, _) := _ in _) => case_match
    end
  | apply safe_err_eof | apply safe_err_data | apply safe_err_unsupported
  | apply safe_ok | apply safe_ok_or
  | apply safe_fmap
  | apply safe_idx; lia | apply safe_i32; lia | apply safe_i16; lia | apply safe_text; lia
  | apply safe_slice; lia | apply safe_slice_from; lia | apply safe_cstr_end; lia
  | apply safe_bind; [|intros ? ?]
  | match goal with H : cstr_end _ _ _ = Ok _ |- _ => apply cstr_end_lt in H end ].
Ltac solve_safe := repeat safe_step.

Lemma sasl_loop_safe fuel remaining offset mechanisms :
  (length remaining - offset < fuel)%nat -> safe (sasl_loop fuel remaining offset mechanisms).
Proof.
  revert offset mechanisms. induction fuel as [|fuel IH]; intros offset mechanisms Hf; [lia|].
  cbn [sasl_loop]. case_decide; [apply safe_ok|]. rewrite slice_from_ok by lia. cbn [mbind result_bind].
  destruct (position0 (drop offset remaining)) as [n|] eqn:Hp; [|apply safe_ok].
  apply position0_lt in Hp. rewrite length_drop in Hp.
  apply safe_bind; [solve_safe|]. intros [|c mechanism] _; [apply safe_ok|].
  case_decide; [apply safe_ok|]. apply IH. lia.
Qed.

Lemma decode_authentication_safe data : safe (decode_authentication data).
Proof.
  unfold decode_authentication. solve_safe.
  match goal with H : slice_from _ _ = Ok ?r |- _ => rename r into remaining end.
  apply sasl_loop_safe. lia.
Qed.

Lemma data_row_fields_safe n data offset :
  (offset <= length data)%nat -> safe (data_row_fields n data offset).
Proof.
  revert offset. induction n as [|n IH]; intros offset Ho; cbn [data_row_fields]; [apply safe_ok|].
  solve_safe; apply IH; lia.
Qed.

Lemma field_count_safe kind data : safe (field_count kind data).
Proof. unfold field_count. solve_safe. Qed.

Lemma field_count_length kind data n : field_count kind data = Ok n -> (2 <= length data)%nat.
Proof. unfold field_count. by case_bool_decide; [|lia]. Qed.

Lemma error_fields_safe fuel data offset fields :
  (length data - offset < fuel)%nat -> safe (error_fields_loop fuel data offset fields).
Proof.
  revert offset fields. induction fuel as [|fuel IH]; intros offset fields Hf; [lia|].
  cbn [error_fields_loop]. solve_safe. apply IH. lia.
Qed.

Lemma row_description_fields_safe n data offset :
  (offset <= length data)%nat -> safe (row_description_fields n data offset).
Proof.
  revert offset. induction n as [|n IH]; intros offset Ho; cbn [row_description_fields]; [apply safe_ok|].
  solve_safe. apply IH. lia.
Qed.

Lemma decode_body_safe tag data : safe (decode_body tag data).
Proof.
  unfold decode_body. repeat match goal with |- safe (if ?c then _ else _) => destruct c end;
    unfold decode_backend_key_data, decode_command_complete, decode_data_row, decode_error_response,
      decode_notice_response, decode_error_fields, decode_parameter_status, decode_ready_for_query,
      decode_row_description.
  - apply decode_authentication_safe.
  - solve_safe.
  - apply safe_bind; [apply safe_ok_or|]. intros n Hn.
    destruct (position0 data) as [k|] eqn:Hp; [|done]. injection Hn as ->.
    apply position0_lt in Hp. solve_safe.
  - apply safe_bind; [apply field_count_safe|]. intros n ?%field_count_length.
    apply safe_fmap, data_row_fields_safe. lia.
  - apply safe_fmap, error_fields_safe. lia.
  - apply safe_fmap, error_fields_safe. lia.
  - solve_safe.
  - solve_safe.
  - apply safe_bind; [apply field_count_safe|]. intros n ?%field_count_length.
    apply safe_fmap, row_description_fields_safe. lia.
  - apply safe_err_data.
Qed.

Lemma decode_message_safe data : safe (decode_message data).
Proof. unfold decode_message. solve_safe. apply decode_body_safe. Qed.

Lemma decode_message_consumed data msg consumed :
  decode_message data = Ok (msg, consumed) -> (5 <= consumed <= length data)%nat.
Proof.
  unfold decode_message. case_bool_decide; [done|].
  rewrite !bind_Ok. intros (tag & _ & (len & _ & H1)%bind_Ok). revert H1.
  case_bool; [done|]. case_bool_decide; [done|].
  intros (d & _ & (m & _ & [= <- <-])%bind_Ok)%bind_Ok. bool_lia.
Qed.

(** C1. On any input whatsoever decoding returns a message or a reported error: no
    index or slice is out of range and no loop runs away; and the message it
    accepts is wholly inside the buffer. *)
Theorem decode_total data :
  safe (decode_message data) /\
  forall msg consumed, decode_message data = Ok (msg, consumed) -> (5 <= consumed <= length data)%nat.
Proof. split; [apply decode_message_safe|apply decode_message_consumed]. Qed.
End DecodeSafety.

(** ** Round trip against the protocol's message formats

    [encode_backend] writes a message as the PostgreSQL protocol documentation
    lays it out; [wf_message] are the messages a conforming server sends within
    the decoder's limits. *)
Module RoundTrip.
Import Decode Encode.

Definition frame (tag : Z) (body : list Z) : list Z := tag :: with_length body.

Definition encode_auth (m : AuthenticationMessage) : list Z :=
  match m with
  | AuthOk => be 4 auth.OK
  | CleartextPassword => be 4 auth.CLEARTEXT_PASSWORD
  | Md5Password salt => be 4 auth.MD5_PASSWORD ++ salt
  | Sasl mechanisms => be 4 auth.SASL ++ concat (map cstr mechanisms) ++ [0]
  | SaslContinue data => be 4 auth.SASL_CONTINUE ++ data
  | SaslFinal data => be 4 auth.SASL_FINAL ++ data
  end.

Definition encode_field (f : option (list Z)) : list Z :=
  match f with
  | None => be 4 (-1)
  | Some bytes => be 4 (Z.of_nat (length bytes)) ++ bytes
  end.

Definition encode_column (f : FieldDescription) : list Z :=
  cstr f.(fd_name) ++ be 4 f.(table_oid) ++ be 2 f.(column_attr) ++ be 4 f.(type_oid)
    ++ be 2 f.(type_size) ++ be 4 f.(type_modifier) ++ be 2 f.(format_code).

(** The present fields with their type bytes. *)
Definition error_pairs (f : ErrorFields) : list (Z * Text) :=
  let field (ty : Z) (v : option Text) := match v with Some v => [(ty, v)] | None => [] end in
  field 83 f.(severity) ++ field 67 f.(code) ++ field 77 f.(message)
    ++ field 68 f.(detail) ++ field 72 f.(hint) ++ field 80 f.(position).
Definition encode_pairs (l : list (Z * Text)) : list Z :=
  concat (map (fun kv => kv.1 :: cstr kv.2) l) ++ [0].

Definition encode_body (m : BackendMessage) : Z * list Z :=
  match m with
  | Authentication a => (tags.AUTHENTICATION, encode_auth a)
  | BackendKeyData p s => (tags.BACKEND_KEY_DATA, be 4 p ++ be 4 s)
  | CommandComplete t => (tags.COMMAND_COMPLETE, cstr t)
  | DataRow fs =>
      (tags.DATA_ROW, be 2 (Z.of_nat (length fs)) ++ concat (map encode_field fs))
  | ErrorResponse f => (tags.ERROR_RESPONSE, encode_pairs (error_pairs f))
  | NoticeResponse f => (tags.NOTICE_RESPONSE, encode_pairs (error_pairs f))
  | ParameterStatus n v => (tags.PARAMETER_STATUS, cstr n ++ cstr v)
  | ReadyForQuery s => (tags.READY_FOR_QUERY, [s])
  | RowDescription cs =>
      (tags.ROW_DESCRIPTION, be 2 (Z.of_nat (length cs)) ++ concat (map encode_column cs))
  end.
Definition encode_backend (m : BackendMessage) : list Z :=
  frame (encode_body m).1 (encode_body m).2.

Definition wf_text (max : nat) (s : Text) : Prop :=
  nul_free s /\ valid_utf8 s = true /\ (length s <= max)%nat.
Definition wf_any (s : Text) : Prop := nul_free s /\ valid_utf8 s = true.
Definition is_len (n : nat) : Prop := Z.of_nat n < 2 ^ 31.

Definition wf_column (f : FieldDescription) : Prop :=
  wf_any f.(fd_name) /\ is_i32 f.(table_oid) /\ is_i16 f.(column_attr) /\ is_u32 f.(type_oid) /\
  is_i16 f.(type_size) /\ is_i32 f.(type_modifier) /\ is_i16 f.(format_code).

Definition wf_body (m : BackendMessage) : Prop :=
  match m with
  | Authentication (Md5Password salt) => length salt = 4%nat
  | Authentication (Sasl ms) =>
      Forall (fun s => wf_any s /\ s <> []) ms /\ (length ms <= MAX_SASL_MECHANISMS)%nat
  | Authentication _ => True
  | BackendKeyData p s => is_i32 p /\ is_i32 s
  | CommandComplete t => wf_any t
  | DataRow fs =>
      Forall (fun f => match f with Some b => is_len (length b) | None => True end) fs /\
      Z.of_nat (length fs) <= MAX_FIELD_COUNT
  | ErrorResponse f | NoticeResponse f =>
      Forall (fun kv => wf_text MAX_ERROR_FIELD_BYTES kv.2) (error_pairs f)
  | ParameterStatus n v =>
      wf_text MAX_PARAMETER_NAME_BYTES n /\ wf_text MAX_PARAMETER_VALUE_BYTES v
  | ReadyForQuery _ => True
  | RowDescription cs => Forall wf_column cs /\ Z.of_nat (length cs) <= MAX_FIELD_COUNT
  end.
Definition wf_message (m : BackendMessage) : Prop :=
  wf_body m /\ is_len (4 + length (encode_body m).2).

Lemma length_with_length body : length (with_length body) = (4 + length body)%nat.
Proof. unfold with_length, put_i32. by rewrite length_app, length_be. Qed.

Lemma text_at_app pre s post n :
  n = length pre -> valid_utf8 s = true -> text_at (pre ++ s ++ post) n (length s) = Ok s.
Proof. intros -> Hs. unfold text_at. rewrite slice_app. cbn. by rewrite lossy_valid. Qed.

Lemma cstr_end_app pre s post n m :
  n = length pre -> nul_free s -> cstr_end (pre ++ s ++ 0 :: post) n m = Ok (length s).
Proof. intros -> Hs. unfold cstr_end. rewrite slice_from_app. cbn. by rewrite position0_app. Qed.

Lemma cstr_app s l : cstr s ++ l = s ++ 0 :: l.
Proof. unfold cstr. by rewrite <- app_assoc. Qed.
Lemma length_cstr s : length (cstr s) = S (length s).
Proof. unfold cstr. rewrite length_app. cbn. lia. Qed.

Lemma sasl_loop_app ms pre acc fuel :
  Forall (fun s => wf_any s /\ s <> []) ms -> (length acc + length ms <= MAX_SASL_MECHANISMS)%nat ->
  (length (concat (map cstr ms)) < fuel)%nat ->
  sasl_loop fuel (pre ++ concat (map cstr ms) ++ [0]) (length pre) acc = Ok (acc ++ ms).
Proof.
  intros Hms. revert pre acc fuel. induction Hms as [|s ms [[Hn Hv] Hs] _ IH]; intros pre acc [|fuel] Hl Hf;
    cbn [length] in *; try lia; cbn [sasl_loop].
  - cbn [map concat app]. rewrite decide_False by (rewrite length_app; cbn; lia).
    rewrite slice_from_app. cbn. unfold text_at. rewrite slice_ok by (rewrite length_app; cbn; lia).
    rewrite Nat.add_0_r, Nat.sub_diag. cbn. by rewrite app_nil_r.
  - cbn [map concat] in *. rewrite <- (app_assoc (cstr s)), cstr_app.
    rewrite decide_False by (rewrite !length_app; cbn; lia).
    rewrite slice_from_app. cbn [mbind result_bind]. rewrite position0_app by done.
    rewrite text_at_app by done. cbn [mbind result_bind]. destruct s as [|c s]; [done|].
    rewrite decide_False by lia. set (s' := c :: s) in *.
    replace (pre ++ s' ++ 0 :: concat (map cstr ms) ++ [0])
      with ((pre ++ s' ++ [0]) ++ concat (map cstr ms) ++ [0]) by (by rewrite <- !app_assoc).
    replace (length pre + (length s' + 1))%nat with (length (pre ++ s' ++ [0]))
      by (rewrite !length_app; cbn; lia).
    rewrite IH; [by rewrite <- app_assoc| |].
    + rewrite length_app. cbn. lia.
    + rewrite length_app, length_cstr in Hf. lia.
Qed.

Lemma data_row_app fs pre :
  Forall (fun f => match f with Some b => is_len (length b) | None => True end) fs ->
  data_row_fields (length fs) (pre ++ concat (map encode_field fs)) (length pre) = Ok fs.
Proof.
  intros Hfs. revert pre. induction Hfs as [|f fs Hf _ IH]; intros pre; [done|].
  cbn [length map concat data_row_fields]. unfold is_len in Hf. destruct f as [b|]; cbn [encode_field].
  - rewrite <- app_assoc. rewrite bool_decide_false by (rewrite !length_app, length_be; lia).
    rewrite read_i32_app by (unfold is_i32; lia). cbn [mbind result_bind].
    rewrite (proj2 (Z.eqb_neq _ _)), (proj2 (Z.ltb_ge _ _)) by lia. rewrite Nat2Z.id.
    rewrite bool_decide_false by (rewrite !length_app, length_be; lia).
    rewrite app_assoc, <- (length_be 4 (Z.of_nat (length b))), <- length_app.
    rewrite slice_app. cbn [mbind result_bind]. rewrite app_assoc, <- length_app, IH. done.
  - rewrite bool_decide_false by (rewrite !length_app, length_be; lia).
    rewrite read_i32_app by (unfold is_i32; lia). cbn [mbind result_bind]. cbn [Z.eqb].
    rewrite app_assoc, <- (length_be 4 (-1)), <- length_app, IH. done.
Qed.

(** The fields a sequence of typed values leaves. *)
Definition set_fields (f : ErrorFields) (l : list (Z * Text)) : ErrorFields :=
  foldl (fun f kv => set_field kv.1 kv.2 f) f l.

Lemma set_fields_pairs f : set_fields no_fields (error_pairs f) = f.
Proof. destruct f as [[?|] [?|] [?|] [?|] [?|] [?|]]; reflexivity. Qed.

Lemma error_pairs_types f : Forall (fun kv => kv.1 <> 0) (error_pairs f).
Proof. destruct f as [[?|] [?|] [?|] [?|] [?|] [?|]]; repeat constructor; done. Qed.

Lemma pair_app ty v l l' : ((ty :: cstr v) ++ l) ++ l' = ty :: v ++ 0 :: l ++ l'.
Proof. unfold cstr. by rewrite <- app_comm_cons, <- app_assoc, <- app_comm_cons, <- app_assoc. Qed.

Lemma error_fields_app l pre fields fuel :
  Forall (fun kv => kv.1 <> 0) l ->
  Forall (fun kv => wf_text MAX_ERROR_FIELD_BYTES kv.2) l ->
  (length (encode_pairs l) <= fuel)%nat ->
  error_fields_loop fuel (pre ++ encode_pairs l) (length pre) fields = Ok (set_fields fields l).
Proof.
  intros Hty. revert pre fields fuel. induction Hty as [|[ty v] l Hty _ IH]; intros pre fields [|fuel] Hwf Hf;
    unfold encode_pairs in *; cbn [map concat fst snd] in *; try (rewrite length_app in Hf; cbn in Hf; lia).
  - cbn [error_fields_loop app]. rewrite decide_False by (rewrite length_app; cbn; lia).
    by rewrite idx_app.
  - inversion Hwf as [|? ? (Hn & Hv & Hl) Hwf']; subst. cbn [fst snd] in *.
    cbn [error_fields_loop]. rewrite pair_app.
    rewrite decide_False by (rewrite length_app; cbn; lia). rewrite idx_app. cbn [mbind result_bind].
    rewrite (proj2 (Z.eqb_neq ty 0)) by done.
    replace (pre ++ ty :: v ++ 0 :: concat (map (fun kv => kv.1 :: cstr kv.2) l) ++ [0])
      with ((pre ++ [ty]) ++ v ++ 0 :: concat (map (fun kv => kv.1 :: cstr kv.2) l) ++ [0])
      by (by rewrite <- app_assoc).
    rewrite cstr_end_app by (done || (rewrite length_app; cbn; lia)). cbn [mbind result_bind].
    rewrite bool_decide_false by lia.
    rewrite text_at_app by (done || (rewrite length_app; cbn; lia)). cbn [mbind result_bind].
    replace ((pre ++ [ty]) ++ v ++ 0 :: concat (map (fun kv => kv.1 :: cstr kv.2) l) ++ [0])
      with ((pre ++ [ty] ++ cstr v) ++ concat (map (fun kv => kv.1 :: cstr kv.2) l) ++ [0])
      by (unfold cstr; by rewrite <- !app_assoc).
    replace (length pre + 1 + (length v + 1))%nat with (length (pre ++ [ty] ++ cstr v))
      by (rewrite !length_app, length_cstr; cbn; lia).
    rewrite IH; [done|done|]. rewrite pair_app in Hf. cbn [length] in Hf.
    rewrite length_app in Hf. cbn [length] in Hf. lia.
Qed.

Lemma read_i32_at data o z pre post :
  is_i32 z -> data = pre ++ be 4 z ++ post -> o = length pre -> read_i32 data o = Ok z.
Proof. intros ? -> ->. by apply read_i32_app. Qed.
Lemma read_i16_at data o z pre post :
  is_i16 z -> data = pre ++ be 2 z ++ post -> o = length pre -> read_i16 data o = Ok z.
Proof. intros ? -> ->. by apply read_i16_app. Qed.

(** A read at the end of the known prefix [p]. *)
Ltac at_offset p :=
  first [eapply (read_i32_at _ _ _ p) | eapply (read_i16_at _ _ _ p)];
  [done | rewrite <- ?(app_assoc (A := Z)); reflexivity
  | rewrite ?length_app, ?length_cstr, ?length_be; lia].

(** The two's complement of an unsigned 32-bit number writes the same bytes. *)
Lemma be_signed32 z : is_u32 z -> be 4 (signed 32 z) = be 4 z /\ is_i32 (signed 32 z).
Proof.
  unfold is_u32, is_i32, signed. rewrite u32_max_val. intros Hz.
  change (2 ^ (32 - 1)) with 2147483648. change (2 ^ 31) with 2147483648. change (2 ^ 32) with 4294967296.
  case_bool; to_prop; [split; [done|lia]|]. split; [|lia]. cbn [be].
  change (2 ^ (8 * Z.of_nat 3)) with 16777216. change (2 ^ (8 * Z.of_nat 2)) with 65536.
  change (2 ^ (8 * Z.of_nat 1)) with 256. change (2 ^ (8 * Z.of_nat 0)) with 1.
  repeat (apply (f_equal2 cons); [Z.to_euclidean_division_equations; lia|]). done.
Qed.

Lemma column_app f pre post :
  wf_column f ->
  let o := (length pre + S (length f.(fd_name)))%nat in
  let data := pre ++ encode_column f ++ post in
  cstr_end data (length pre) "missing null terminator in field name" = Ok (length f.(fd_name)) /\
  text_at data (length pre) (length f.(fd_name)) = Ok f.(fd_name) /\
  length data = (o + 18 + length post)%nat /\
  read_i32 data o = Ok f.(table_oid) /\ read_i16 data (o + 4) = Ok f.(column_attr) /\
  read_i32 data (o + 6) = Ok (signed 32 f.(type_oid)) /\ read_i16 data (o + 10) = Ok f.(type_size) /\
  read_i32 data (o + 12) = Ok f.(type_modifier) /\ read_i16 data (o + 16) = Ok f.(format_code).
Proof.
  intros ([Hn Hv] & H1 & H2 & H3 & H4 & H5 & H6). destruct f as [name t c ty sz md fm].
  unfold encode_column; cbn [fd_name table_oid column_attr type_oid type_size type_modifier format_code] in *.
  destruct (be_signed32 ty H3) as [<- Hty].
  split_and!.
  - rewrite <- (app_assoc (cstr name)), cstr_app. by apply cstr_end_app.
  - rewrite <- (app_assoc (cstr name)), cstr_app. by apply text_at_app.
  - rewrite !length_app, length_cstr, !length_be. lia.
  - at_offset (pre ++ cstr name).
  - at_offset (pre ++ cstr name ++ be 4 t).
  - at_offset (pre ++ cstr name ++ be 4 t ++ be 2 c).
  - at_offset (pre ++ cstr name ++ be 4 t ++ be 2 c ++ be 4 (signed 32 ty)).
  - at_offset (pre ++ cstr name ++ be 4 t ++ be 2 c ++ be 4 (signed 32 ty) ++ be 2 sz).
  - at_offset (pre ++ cstr name ++ be 4 t ++ be 2 c ++ be 4 (signed 32 ty) ++ be 2 sz ++ be 4 md).
Qed.

Lemma row_description_app cs pre :
  Forall wf_column cs ->
  row_description_fields (length cs) (pre ++ concat (map encode_column cs)) (length pre) = Ok cs.
Proof.
  intros Hcs. revert pre. induction Hcs as [|f cs Hf Hcs IH]; intros pre; [done|].
  cbn [length map concat row_description_fields].
  destruct (column_app f pre (concat (map encode_column cs)) Hf)
    as (-> & E2 & E3 & E4 & E5 & E6 & E7 & E8 & E9).
  cbn [mbind result_bind]. rewrite E2. cbn [mbind result_bind].
  replace (length pre + (length (fd_name f) + 1))%nat with (length pre + S (length (fd_name f)))%nat by lia.
  rewrite bool_decide_false by lia. rewrite E4, E5, E6, E7, E8, E9. cbn [mbind result_bind].
  assert (length (pre ++ encode_column f) = length pre + S (length (fd_name f)) + 18)%nat as <-.
  { unfold encode_column. rewrite !length_app, length_cstr, !length_be. lia. }
  rewrite app_assoc, IH. cbn [mbind result_bind]. destruct Hf as (_ & _ & _ & Hty & _).
  replace (u32_wrap (signed 32 (type_oid f))) with (type_oid f); [by destruct f|].
  unfold u32_wrap, signed, is_u32 in *. rewrite u32_max_val in Hty. case_bool.
  - symmetry. apply Z.mod_small. lia.
  - rewrite <- (Z.mod_add (type_oid f - 2 ^ 32) 1) by lia.
    replace (type_oid f - 2 ^ 32 + 1 * 2 ^ 32) with (type_oid f) by lia. symmetry. apply Z.mod_small. lia.
Qed.

Lemma field_count_app kind n post :
  Z.of_nat n <= MAX_FIELD_COUNT -> field_count kind (be 2 (Z.of_nat n) ++ post) = Ok n.
Proof.
  unfold MAX_FIELD_COUNT, field_count. intros Hn.
  rewrite bool_decide_false by (rewrite length_app, length_be; lia).
  rewrite (read_i16_at _ _ (Z.of_nat n) [] post) by (done || (unfold is_i16; lia)).
  cbn [mbind result_bind]. rewrite (proj2 (Z.ltb_ge _ _)) by lia.
  unfold MAX_FIELD_COUNT. rewrite (proj2 (Z.ltb_ge _ _)) by lia. by rewrite Nat2Z.id.
Qed.

Lemma decode_error_fields_pairs f :
  Forall (fun kv => wf_text MAX_ERROR_FIELD_BYTES kv.2) (error_pairs f) ->
  decode_error_fields (encode_pairs (error_pairs f)) = Ok f.
Proof.
  intros Hf. unfold decode_error_fields.
  rewrite (error_fields_app (error_pairs f) []) by (done || apply error_pairs_types || lia).
  by rewrite set_fields_pairs.
Qed.

Lemma decode_authentication_app t data :
  is_i32 t ->
  decode_authentication (be 4 t ++ data)
  = Authentication <$>
    (if t =? auth.OK then Ok AuthOk
     else if t =? auth.CLEARTEXT_PASSWORD then Ok CleartextPassword
     else if t =? auth.MD5_PASSWORD then
       guard_err bool_decide (length data < 4)%nat as UnexpectedEof "salt data" ;;
       Ok (Md5Password (take 4 data))
     else if t =? auth.SASL then Sasl <$> sasl_loop (S (length data)) data 0 []
     else if t =? auth.SASL_CONTINUE then Ok (SaslContinue data)
     else if t =? auth.SASL_FINAL then Ok (SaslFinal data)
     else Err (Unsupported ("unsupported auth type: " ++ show_Z t))).
Proof.
  intros Ht. unfold decode_authentication.
  rewrite bool_decide_false by (rewrite length_app, length_be; lia).
  rewrite (read_i32_at _ _ t [] data) by done. cbn [mbind result_bind].
  replace (slice_from (be 4 t ++ data) 4) with (Ok data : io (list Z))
    by (rewrite <- (length_be 4 t) at 1; by rewrite slice_from_app).
  destruct (t =? auth.OK); [done|]. destruct (t =? auth.CLEARTEXT_PASSWORD); [done|].
  destruct (t =? auth.MD5_PASSWORD); [|by repeat case_match].
  rewrite length_app, length_be. destruct (decide (length data < 4)%nat).
  - by rewrite !bool_decide_true by lia.
  - rewrite !bool_decide_false by lia. by rewrite slice_ok by (rewrite length_app, length_be; lia).
Qed.

Lemma decode_body_encode m :
  wf_body m -> decode_body (encode_body m).1 (encode_body m).2 = Ok m.
Proof.
  destruct m as [a|pid key|t|fs|f|f|n v|st|cs]; cbn [encode_body fst snd wf_body]; intros Hwf.
  - change (decode_authentication (encode_auth a) = Ok (Authentication a)).
    destruct a as [| |salt|ms|d|d]; cbn [encode_auth].
    1, 2: rewrite <- (app_nil_r (be 4 _)); by rewrite decode_authentication_app.
    all: rewrite decode_authentication_app by done; cbn -[sasl_loop]; try done.
    + rewrite Hwf. cbn. by destruct salt as [|? [|? [|? [|? [|]]]]].
    + destruct Hwf as [Hms Hl]. rewrite (sasl_loop_app ms [] []) by (done || (rewrite length_app; lia)). done.
  - destruct Hwf as [H1 H2].
    change (decode_backend_key_data (be 4 pid ++ be 4 key) = Ok (BackendKeyData pid key)).
    unfold decode_backend_key_data. rewrite bool_decide_false by (rewrite length_app, !length_be; lia).
    rewrite (read_i32_at _ 0 pid [] (be 4 key)) by done. cbn [mbind result_bind].
    by rewrite (read_i32_at _ 4 key (be 4 pid) []) by (done || by rewrite app_nil_r).
  - destruct Hwf as [Hn Hv]. change (decode_command_complete (cstr t) = Ok (CommandComplete t)).
    unfold decode_command_complete, cstr. rewrite position0_app by done. cbn [ok_or mbind result_bind].
    by rewrite (text_at_app [] t [0]).
  - destruct Hwf as [Hfs Hl].
    change (decode_data_row (be 2 (Z.of_nat (length fs)) ++ concat (map encode_field fs)) = Ok (DataRow fs)).
    unfold decode_data_row. rewrite field_count_app by done. cbn [mbind result_bind].
    change 2%nat with (length (be 2 (Z.of_nat (length fs)))) at 2. by rewrite data_row_app.
  - change (decode_error_response (encode_pairs (error_pairs f)) = Ok (ErrorResponse f)).
    unfold decode_error_response. by rewrite decode_error_fields_pairs.
  - change (decode_notice_response (encode_pairs (error_pairs f)) = Ok (NoticeResponse f)).
    unfold decode_notice_response. by rewrite decode_error_fields_pairs.
  - destruct Hwf as [(Hn & Hnv & Hnl) (Hv & Hvv & Hvl)].
    change (decode_parameter_status (cstr n ++ cstr v) = Ok (ParameterStatus n v)).
    unfold decode_parameter_status. rewrite cstr_app.
    rewrite (cstr_end_app [] n (cstr v) 0 _ eq_refl Hn : cstr_end (n ++ 0 :: cstr v) 0 _ = _).
    cbn [mbind result_bind]. rewrite bool_decide_false by lia.
    rewrite (text_at_app [] n (0 :: cstr v) 0 eq_refl Hnv : text_at (n ++ 0 :: cstr v) 0 _ = _).
    cbn [mbind result_bind].
    rewrite bool_decide_false by (rewrite length_app; cbn [length]; rewrite length_cstr; lia).
    replace (n ++ 0 :: cstr v) with ((n ++ [0]) ++ v ++ [0]) by (unfold cstr; by rewrite <- app_assoc).
    assert (length (n ++ [0]) = (length n + 1)%nat) as E by (rewrite length_app; done).
    rewrite cstr_end_app by done. cbn [mbind result_bind]. rewrite bool_decide_false by lia.
    by rewrite text_at_app.
  - done.
  - destruct Hwf as [Hcs Hl].
    change (decode_row_description (be 2 (Z.of_nat (length cs)) ++ concat (map encode_column cs))
            = Ok (RowDescription cs)).
    unfold decode_row_description. rewrite field_count_app by done. cbn [mbind result_bind].
    change 2%nat with (length (be 2 (Z.of_nat (length cs)))) at 2. by rewrite row_description_app.
Qed.

(** A complete frame is decoded from its own bytes only. *)
Lemma decode_message_frame tag body rest :
  is_len (4 + length body) ->
  decode_message (frame tag body ++ rest)
  = (m ← decode_body tag body; Ok (m, length (frame tag body))).
Proof.
  unfold is_len. intros Hl. unfold decode_message.
  assert (length (frame tag body) = 5 + length body)%nat as El
    by (unfold frame; cbn [length]; rewrite length_with_length; lia).
  rewrite bool_decide_false by (rewrite length_app, El; lia).
  change (idx (frame tag body ++ rest) 0) with (Ok tag : io Z). cbn [mbind result_bind].
  rewrite (read_i32_at _ _ (Z.of_nat (4 + length body)) [tag] (body ++ rest));
    [|unfold is_i32; lia| |done].
  2:{ unfold frame, with_length, put_i32. cbn [app]. by rewrite <- app_assoc. }
  cbn [mbind result_bind]. rewrite (proj2 (Z.ltb_ge _ _)) by lia. rewrite Nat2Z.id.
  rewrite bool_decide_false by (rewrite length_app, El; lia).
  replace (slice (frame tag body ++ rest) 5 (4 + length body + 1)) with (Ok body : io (list Z)).
  - rewrite El. cbn [mbind result_bind]. destruct (decode_body tag body); cbn [mbind result_bind]; [|done].
    by replace (4 + length body + 1)%nat with (5 + length body)%nat by lia.
  - change (frame tag body ++ rest) with (tag :: (put_i32 (Z.of_nat (4 + length body)) ++ body) ++ rest).
    rewrite <- app_assoc.
    replace (4 + length body + 1)%nat
      with (length (tag :: put_i32 (Z.of_nat (4 + length body))) + length body)%nat
      by (cbn [length]; unfold put_i32; rewrite length_be; lia).
    symmetry. apply (slice_app (tag :: put_i32 (Z.of_nat (4 + length body))) body rest).
Qed.

(** C2. Decoding inverts the protocol's encoding of every message kind, and stops
    at the end of the message whatever follows it in the buffer. *)
Theorem decode_encode m rest :
  wf_message m ->
  decode_message (encode_backend m ++ rest) = Ok (m, length (encode_backend m)).
Proof.
  intros [Hb Hl]. unfold encode_backend. rewrite decode_message_frame by done.
  by rewrite decode_body_encode.
Qed.
End RoundTrip.

(** ** Concrete messages *)

(** A row of two fields, one null, followed by the start of another message. *)
Definition demo_row : BackendMessage := DataRow [Some (text "abc"); None].
Definition demo_error : BackendMessage :=
  ErrorResponse (mkErr (Some (text "ERROR")) (Some (text "42P01")) (Some (text "no such view")) None None None).

Lemma decode_total_witness :
  safe (Decode.decode_message (RoundTrip.encode_backend demo_row)) /\ (5 <= 18 <= 18)%nat.
Proof.
  split; [apply DecodeSafety.decode_total|].
  apply (proj2 (DecodeSafety.decode_total (RoundTrip.encode_backend demo_row)) demo_row 18%nat).
  vm_compute. reflexivity.
Defined.

Lemma wf_demo_error : RoundTrip.wf_message demo_error.
Proof.
  split; [|vm_compute; reflexivity].
  assert (forall kv, kv ∈ RoundTrip.error_pairs (mkErr (Some (text "ERROR")) (Some (text "42P01"))
            (Some (text "no such view")) None None None) ->
          RoundTrip.wf_text Decode.MAX_ERROR_FIELD_BYTES kv.2) as H; [|by apply Forall_forall].
  intros kv Hkv. cbn -[text] in Hkv. rewrite !elem_of_cons, elem_of_nil in Hkv.
  destruct Hkv as [-> | [-> | [-> | []]]]; (split; [repeat constructor; discriminate|]);
    (split; [vm_compute; reflexivity | apply Nat.leb_le; vm_compute; reflexivity]).
Qed.

Lemma decode_encode_witness :
  Decode.decode_message (RoundTrip.encode_backend demo_error ++ [90; 0])
  = Ok (demo_error, length (RoundTrip.encode_backend demo_error)).
Proof. apply (RoundTrip.decode_encode demo_error [90; 0] wf_demo_error). Defined.
