(* ===== verification/WireConnection.v ===== *)
(** * Connections and streamed rows

    crates/fraiseql-wire/src/connection/: the state machine (state.rs) and the
    connection's receive loop, simple and streaming queries (conn/core.rs);
    json/validate.rs, stream/chunking.rs and the row helpers of
    stream/json_stream.rs, and the polling of the stream with its memory limit.

    The transport is the sequence of results its reads give and the faults its
    writes meet.  Tracing, metrics, the pause signals and the stream's status
    flag are left out. *)

From S2P Require Import Prelude Bytes WireProtocol.
From stdpp Require Import pretty.
From Stdlib Require Import SpecFloat.
#[local] Open Scope Z_scope.

(** ** Errors *)
Inductive WireError : Type :=
| AuthenticationError (msg : string)
| Protocol (msg : string)
| Sql (fields : ErrorFields)
| JsonDecode (msg : string)
| Io (e : io_error)
| InvalidSchema (msg : string)
| ConnectionBusy (msg : string)
| InvalidState (expected actual : string)
| ConnectionClosed
| MemoryLimitExceeded (limit estimated_memory : Z).

(** ** The connection state machine *)
Module ConnectionState.

Inductive t : Type :=
| Initial | AwaitingAuth | Authenticating | Idle | QueryInProgress | ReadingResults | Closed.

#[export] Instance t_eq_dec : EqDecision t.
Proof. solve_decision. Defined.

Definition debug (s : t) : string :=
  match s with
  | Initial => "Initial" | AwaitingAuth => "AwaitingAuth" | Authenticating => "Authenticating"
  | Idle => "Idle" | QueryInProgress => "QueryInProgress" | ReadingResults => "ReadingResults"
  | Closed => "Closed"
  end.

Definition display (s : t) : string :=
  match s with
  | Initial => "initial" | AwaitingAuth => "awaiting_auth" | Authenticating => "authenticating"
  | Idle => "idle" | QueryInProgress => "query_in_progress" | ReadingResults => "reading_results"
  | Closed => "closed"
  end.

Definition can_transition_to (s next : t) : bool :=
  match s, next with
  | Initial, AwaitingAuth => true
  | AwaitingAuth, Authenticating => true
  | (Authenticating | ReadingResults), Idle => true
  | Idle, QueryInProgress => true
  | QueryInProgress, ReadingResults => true
  | _, Closed => true
  | _, _ => false
  end.

Definition transition (next s : t) : result WireError unit * t :=
  if negb (can_transition_to s next)
  then (Err (InvalidState ("valid transition from " ++ debug s) (debug next)), s)
  else (Ok tt, next).

(** States in the order a session goes through them. *)
Definition rank (s : t) : Z :=
  match s with
  | Initial => 0 | AwaitingAuth => 1 | Authenticating => 2 | Idle => 3
  | QueryInProgress => 4 | ReadingResults => 5 | Closed => 6
  end.

Definition step (s s' : t) : Prop := can_transition_to s s' = true.

(** [Closed] is final, a session authenticates at most once, and queries run
    only between two idle states. *)
Lemma step_cases s s' :
  step s s' ->
  (s' = Closed) \/ (s = ReadingResults /\ s' = Idle) \/ rank s' = rank s + 1.
Proof. unfold step. destruct s, s'; cbn; intros; try done; auto. Qed.

Theorem closed_is_final s : rtc step Closed s -> s = Closed.
Proof.
  intros H. apply (rtc_invariant step (fun s => s = Closed)) with Closed; [|done|done].
  intros x y Hxy ->. by destruct y.
Qed.
End ConnectionState.

(** ** Rows *)

Definition JSON_OID : Z := 114.
Definition JSONB_OID : Z := 3802.
Definition is_json_oid (oid : Z) : bool := (oid =? JSON_OID) || (oid =? JSONB_OID).

Definition show_text (s : Text) : string :=
  fold_right (fun b s => String (Ascii.ascii_of_N (Z.to_N b)) s) EmptyString s.

Definition validate_row_description (msg : BackendMessage) : result WireError unit :=
  match msg with
  | RowDescription fields =>
      match fields with
      | [field] =>
          guard_err negb (bool_decide (field.(fd_name) = text "data"))
            as InvalidSchema ("expected column named 'data', got '" ++ show_text field.(fd_name) ++ "'") ;;
          guard_err negb (is_json_oid field.(type_oid))
            as InvalidSchema ("expected json/jsonb type, got OID " ++ pretty field.(type_oid)) ;;
          Ok tt
      | _ => Err (InvalidSchema ("expected 1 column, got " ++ pretty (N.of_nat (length fields))))
      end
  | _ => Err (Protocol "expected RowDescription")
  end.

Definition extract_json_bytes (msg : BackendMessage) : result WireError (list Z) :=
  match msg with
  | DataRow fields =>
      match fields with
      | [field] => ok_or field (Protocol "null data field")
      | _ => Err (Protocol ("expected 1 field, got " ++ pretty (N.of_nat (length fields))))
      end
  | _ => Err (Protocol "expected DataRow")
  end.

Definition is_ready (msg : BackendMessage) : bool :=
  match msg with ReadyForQuery _ => true | _ => false end.

(** ** Connections *)
Module Connection.
Import ConnectionState.

Record Connection : Type := mkConn {
  incoming : list (io (list Z));          (* what the reads to come return *)
  write_faults : list (option io_error);  (* the fate of the writes to come *)
  sent : list Z;                          (* bytes written *)
  state : ConnectionState.t;
  read_buf : list Z
}.

Definition set_state (c : Connection) s := mkConn c.(incoming) c.(write_faults) c.(sent) s c.(read_buf).
Definition set_read (c : Connection) i b := mkConn i c.(write_faults) c.(sent) c.(state) b.

Definition Conn (A : Type) : Type := Connection -> result WireError A * Connection.
Definition ret {A} (a : A) : Conn A := fun c => (Ok a, c).
Definition throw {A} (e : WireError) : Conn A := fun c => (Err e, c).
Definition bind {A B} (m : Conn A) (k : A -> Conn B) : Conn B :=
  fun c => match m c with (Ok a, c) => k a c | (Err e, c) => (Err e, c) end.
Notation "'let*' x := m 'in' k" := (bind m (fun x => k))
  (at level 10, x name, m at level 100, k at level 200) : fraise_scope.
Notation "m ;;; k" := (bind m (fun _ => k)) (at level 100, right associativity) : fraise_scope.

Definition transition (next : ConnectionState.t) : Conn unit :=
  fun c => let (r, s) := ConnectionState.transition next c.(state) in (r, set_state c s).

Definition write_all (buf : list Z) : Conn unit := fun c =>
  match c.(write_faults) with
  | Some e :: fs => (Err (Io e), mkConn c.(incoming) fs c.(sent) c.(state) c.(read_buf))
  | None :: fs => (Ok tt, mkConn c.(incoming) fs (c.(sent) ++ buf) c.(state) c.(read_buf))
  | [] => (Ok tt, mkConn c.(incoming) [] (c.(sent) ++ buf) c.(state) c.(read_buf))
  end.

Definition send_message (msg : FrontendMessage) : Conn unit :=
  match Encode.encode_message msg with
  | Ok buf => write_all buf
  | Err e => throw (Io e)
  end.

(** The receive loop: any decoding error asks for more bytes. *)
Fixpoint receive_loop (incoming : list (io (list Z))) (buf : list Z)
    : result WireError BackendMessage * (list (io (list Z)) * list Z) :=
  match Decode.decode_message buf with
  | Ok (msg, consumed) => (Ok msg, (incoming, drop consumed buf))
  | Err _ =>
      match incoming with
      | [] => (Err ConnectionClosed, ([], buf))
      | Ok [] :: incoming => (Err ConnectionClosed, (incoming, buf))
      | Ok chunk :: incoming => receive_loop incoming (buf ++ chunk)
      | Err e :: incoming => (Err (Io e), (incoming, buf))
      end
  end.

Definition receive_message : Conn BackendMessage := fun c =>
  let '(r, (i, b)) := receive_loop c.(incoming) c.(read_buf) in (r, set_read c i b).

(** Bytes still to be decoded; every message takes at least five. *)
Definition pending_bytes (c : Connection) : nat :=
  length c.(read_buf) + length (concat (omap (fun r => match r with Ok l => Some l | Err _ => None end) c.(incoming))).

Fixpoint read_until_ready (fuel : nat) : Conn (list BackendMessage) :=
  match fuel with
  | O => throw (Io OutOfFuel)
  | S fuel =>
      let* msg := receive_message in
      if is_ready msg then ret [msg]
      else let* msgs := read_until_ready fuel in ret (msg :: msgs)
  end.

Definition simple_query (query : Text) : Conn (list BackendMessage) := fun c =>
  if negb (bool_decide (c.(state) = Idle))
  then (Err (ConnectionBusy ("connection in state: " ++ display c.(state))), c)
  else
    (transition QueryInProgress ;;;
     send_message (Query query) ;;;
     transition ReadingResults ;;;
     let* messages := (fun c => read_until_ready (S (pending_bytes c)) c) in
     transition Idle ;;;
     ret messages) c.

Definition close : Conn unit :=
  transition Closed ;;;
  (fun c => let (_, c) := send_message Terminate c in (Ok tt, c)).

(** ** Reassembly *)
Import Decode RoundTrip.

(** A stream of non-empty reads. *)
Definition reads (l : list (list Z)) : list (io (list Z)) := map Ok l.
Definition nonempty (l : list (list Z)) : Prop := Forall (fun c => c <> []) l.

(** A proper prefix of a frame is not decoded. *)
Lemma decode_partial p q tag body :
  p ++ q = frame tag body -> q <> [] -> is_len (4 + length body) ->
  exists m, decode_message p = Err (UnexpectedEof m).
Proof.
  unfold is_len. intros Hpq Hq Hl. unfold decode_message. case_bool_decide; [eauto|].
  assert (length p + length q = 5 + length body)%nat as Hlen.
  { rewrite <- length_app, Hpq. unfold frame. cbn [length]. rewrite length_with_length. lia. }
  destruct p as [|b0 [|b1 [|b2 [|b3 [|b4 p]]]]]; cbn [length] in *; try lia.
  assert (read_i32 (b0 :: b1 :: b2 :: b3 :: b4 :: p) 1 = Ok (Z.of_nat (4 + length body))) as Hr.
  { rewrite <- (read_i32_app [tag] (Z.of_nat (4 + length body)) body) by (unfold is_i32; lia).
    change ([tag] ++ be 4 (Z.of_nat (4 + length body)) ++ body) with (frame tag body).
    rewrite <- Hpq. reflexivity. }
  cbn [idx ok_or lookup list_lookup mbind result_bind]. unfold idx. cbn [lookup list_lookup ok_or mbind result_bind].
  rewrite Hr. cbn [mbind result_bind]. rewrite (proj2 (Z.ltb_ge _ _)) by lia. rewrite Nat2Z.id.
  rewrite bool_decide_true; [eauto|]. destruct q; [done|]. cbn [length] in Hlen. lia.
Qed.

Lemma receive_complete tag body m incoming r :
  is_len (4 + length body) -> decode_body tag body = Ok m ->
  receive_loop incoming (frame tag body ++ r) = (Ok m, (incoming, r)).
Proof.
  intros Hl Hm. destruct incoming; cbn [receive_loop]; rewrite decode_message_frame by done;
    rewrite Hm; cbn [mbind result_bind]; by rewrite drop_app_length.
Qed.

Lemma receive_malformed tag body e chunks r :
  is_len (4 + length body) -> decode_body tag body = Err e -> nonempty chunks ->
  receive_loop (reads chunks) (frame tag body ++ r)
  = (Err ConnectionClosed, ([], frame tag body ++ r ++ concat chunks)).
Proof.
  intros Hl He Hne. revert r. induction Hne as [|c chunks Hc _ IH]; intros r; cbn [reads map receive_loop concat];
    rewrite decode_message_frame, He by done; cbn [mbind result_bind]; [by rewrite app_nil_r|].
  destruct c as [|b c]; [done|]. rewrite <- app_assoc. fold (reads chunks). rewrite IH.
  by rewrite <- !app_assoc.
Qed.

(** One frame, however it is cut: the loop reads until the frame is complete
    and then decides on the frame alone. *)
Lemma receive_frame tag body chunks buf tail :
  is_len (4 + length body) -> nonempty chunks ->
  buf ++ concat chunks = frame tag body ++ tail ->
  match decode_body tag body with
  | Ok m => exists chunks' buf',
      nonempty chunks' /\ buf' ++ concat chunks' = tail /\
      receive_loop (reads chunks) buf = (Ok m, (reads chunks', buf'))
  | Err e => receive_loop (reads chunks) buf = (Err ConnectionClosed, ([], frame tag body ++ tail))
  end.
Proof.
  intros Hl Hne. revert buf. induction Hne as [|c chunks Hc Hne IH]; intros buf Heq;
    assert (Heq' := Heq); apply app_eq_inv in Heq' as [(r & -> & Hr)|(k & Hk & Hr)].
  - destruct (decode_body tag body) as [m|e] eqn:Hm; subst tail.
    + exists [], r. rewrite (receive_complete tag body m) by done.
      split_and!; [constructor|done|done].
    + by rewrite (receive_malformed tag body e []) by (done || constructor).
  - cbn in Hr. destruct k as [|? ?]; [|done]. rewrite app_nil_r in Hk. subst buf. cbn in Hr. subst tail.
    rewrite <- (app_nil_r (frame tag body)). destruct (decode_body tag body) as [m|e] eqn:Hm.
    + exists [], []. rewrite (receive_complete tag body m) by done.
      split_and!; [constructor|done|done].
    + rewrite (receive_malformed tag body e []) by (done || constructor). cbn. by rewrite !app_nil_r.
  - destruct (decode_body tag body) as [m|e] eqn:Hm; subst tail.
    + exists (c :: chunks), r. rewrite (receive_complete tag body m) by done.
      split_and!; [by constructor|done|done].
    + by rewrite (receive_malformed tag body e (c :: chunks)) by (done || by constructor).
  - destruct (decide (k = [])) as [->|Hk0].
    + rewrite app_nil_r in Hk. subst buf. cbn in Hr. destruct (decode_body tag body) as [m|e] eqn:Hm; subst tail;
        rewrite <- (app_nil_r (frame tag body)).
      * exists (c :: chunks), []. rewrite (receive_complete tag body m) by done.
        split_and!; [by constructor|done|done].
      * rewrite (receive_malformed tag body e (c :: chunks)) by (done || by constructor).
        by rewrite !app_nil_r.
    + destruct (decode_partial buf k tag body) as [m Hm]; [done..|].
      cbn [reads map receive_loop]. rewrite Hm. destruct c as [|b c]; [done|]. fold (reads chunks).
      apply IH. rewrite <- app_assoc. exact Heq.
Qed.

(** Receive as many messages as asked for. *)
Fixpoint receive_n (n : nat) : Conn (list BackendMessage) :=
  match n with
  | O => ret []
  | S n => let* m := receive_message in let* ms := receive_n n in ret (m :: ms)
  end.

(** A transport that reads on from where the last message ended. *)
Definition conn_at (c : Connection) (chunks : list (list Z)) (buf : list Z) : Connection :=
  set_read c (reads chunks) buf.

Lemma receive_message_encoded m chunks buf tail c :
  wf_message m -> nonempty chunks -> buf ++ concat chunks = encode_backend m ++ tail ->
  exists chunks' buf',
    nonempty chunks' /\ buf' ++ concat chunks' = tail /\
    receive_message (conn_at c chunks buf) = (Ok m, conn_at c chunks' buf').
Proof.
  intros [Hb Hl] Hne Heq.
  pose proof (receive_frame (encode_body m).1 (encode_body m).2 chunks buf tail Hl Hne Heq) as Hr.
  rewrite decode_body_encode in Hr by done. destruct Hr as (chunks' & buf' & N & E & R).
  exists chunks', buf'. split_and!; [done..|]. unfold receive_message, conn_at. cbn [incoming read_buf set_read].
  rewrite R. done.
Qed.

(** C3. The messages a server sends are received in order, each exactly once,
    wherever the network cuts the byte stream; what follows them stays
    buffered. *)
Theorem receive_reassembles ms chunks buf tail c :
  Forall wf_message ms -> nonempty chunks ->
  buf ++ concat chunks = concat (map encode_backend ms) ++ tail ->
  exists chunks' buf',
    buf' ++ concat chunks' = tail /\
    receive_n (length ms) (conn_at c chunks buf) = (Ok ms, conn_at c chunks' buf').
Proof.
  intros Hms. revert chunks buf. induction Hms as [|m ms Hm _ IH]; intros chunks buf Hne Heq.
  { exists chunks, buf. by split. }
  cbn [map concat] in Heq. rewrite <- app_assoc in Heq.
  destruct (receive_message_encoded m chunks buf _ c Hm Hne Heq) as (chunks' & buf' & N & E & R).
  destruct (IH chunks' buf' N E) as (chunks'' & buf'' & E' & R').
  exists chunks'', buf''. split; [done|]. cbn [length receive_n]. unfold bind. by rewrite R, R'.
Qed.

(** A complete but malformed message is never reported: the receive loop takes
    the decoding error for a short read, buffers whatever the server sends
    until it closes, and reports a closed connection. *)
Theorem malformed_message_swallowed tag body e chunks rest c :
  is_len (4 + length body) -> decode_body tag body = Err e -> nonempty chunks ->
  receive_message (conn_at c chunks (frame tag body ++ rest))
  = (Err ConnectionClosed, conn_at c [] (frame tag body ++ rest ++ concat chunks)).
Proof.
  intros Hl He Hne. unfold receive_message, conn_at. cbn [incoming read_buf set_read].
  by rewrite (receive_malformed tag body e).
Qed.

(** ** Queries *)

Lemma receive_loop_consumes inc buf m inc' buf' :
  receive_loop inc buf = (Ok m, (inc', buf')) ->
  (forall c, pending_bytes (set_read c inc' buf') + 5 <= pending_bytes (set_read c inc buf))%nat /\
  (forall P : io (list Z) -> Prop, Forall P inc -> Forall P inc').
Proof.
  unfold pending_bytes; cbn [read_buf incoming set_read].
  revert buf. induction inc as [|r inc IH]; intros buf; cbn [receive_loop];
    destruct (decode_message buf) as [[m' n]|e] eqn:Hd; try (intros [= <- <- <-]);
    try (apply DecodeSafety.decode_message_consumed in Hd; rewrite length_drop; split; [intros; lia|done]); try done.
  destruct r as [[|b c]|e']; [done| |done]. intros H. apply IH in H as [Hb HP]. split.
  - intros c'. specialize (Hb c'). cbn [omap list_omap concat] in *. rewrite !length_app in *. lia.
  - intros P HF. inversion HF; subst. auto.
Qed.

Lemma receive_message_consumes c m c' :
  receive_message c = (Ok m, c') ->
  (pending_bytes c' + 5 <= pending_bytes c)%nat /\
  (forall P : io (list Z) -> Prop, Forall P c.(incoming) -> Forall P c'.(incoming)).
Proof.
  unfold receive_message. destruct (receive_loop _ _) as [r [i b]] eqn:Hr. intros [= -> <-].
  destruct (receive_loop_consumes _ _ _ _ _ Hr) as [Hb HP]. split; [|apply HP].
  specialize (Hb c). by destruct c.
Qed.

Lemma receive_loop_error incoming buf e rest :
  receive_loop incoming buf = (Err e, rest) ->
  Forall (fun r => r <> Err OutOfFuel) incoming -> e <> Io OutOfFuel.
Proof.
  intros H HF. revert buf H. induction HF as [|r incoming Hr _ IH]; intros buf; cbn [receive_loop];
    destruct (decode_message buf) as [[m' n]|e']; try done; [by intros [= <- <-]|].
  destruct r as [[|b c]|e'']; [by intros [= <- <-]|apply IH|]. intros [= <- <-]. congruence.
Qed.

Lemma read_until_ready_fuel fuel c :
  (pending_bytes c < fuel)%nat -> Forall (fun r => r <> Err OutOfFuel) c.(incoming) ->
  (read_until_ready fuel c).1 <> Err (Io OutOfFuel).
Proof.
  revert c. induction fuel as [|fuel IH]; intros c Hf HF; [lia|]. cbn [read_until_ready]. unfold bind at 1.
  destruct (receive_message c) as [[m|e] c'] eqn:Hm.
  - destruct (receive_message_consumes _ _ _ Hm) as [Hb HP]. destruct (is_ready m); [done|].
    unfold bind. specialize (IH c' ltac:(lia) (HP _ HF)).
    destruct (read_until_ready fuel c') as [[?|?] ?]; cbn in *; congruence.
  - unfold receive_message in Hm. destruct (receive_loop _ _) as [r [i b]] eqn:Hr. injection Hm as -> <-.
    cbn. apply receive_loop_error in Hr; [congruence|done].
Qed.

Lemma encode_backend_length m : (5 <= length (encode_backend m))%nat.
Proof. unfold encode_backend, frame. cbn [length]. rewrite length_with_length. lia. Qed.

Lemma read_until_ready_encoded ms st chunks buf tail c fuel :
  Forall (fun m => wf_message m /\ is_ready m = false) ms -> nonempty chunks ->
  (length ms < fuel)%nat ->
  buf ++ concat chunks = concat (map encode_backend ms) ++ encode_backend (ReadyForQuery st) ++ tail ->
  exists chunks' buf',
    buf' ++ concat chunks' = tail /\
    read_until_ready fuel (conn_at c chunks buf)
    = (Ok (ms ++ [ReadyForQuery st]), conn_at c chunks' buf').
Proof.
  intros Hms. revert chunks buf fuel. induction Hms as [|m ms [Hm Hr] _ IH]; intros chunks buf [|fuel] Hne Hf Heq;
    cbn [length] in Hf; try lia; cbn [map concat app] in Heq; cbn [read_until_ready]; unfold bind at 1.
  - assert (wf_message (ReadyForQuery st)) as Hw by (split; [done|unfold is_len; cbn; lia]).
    destruct (receive_message_encoded _ chunks buf tail c Hw Hne Heq) as (chunks' & buf' & N & E & ->).
    exists chunks', buf'. by split.
  - rewrite <- app_assoc in Heq.
    destruct (receive_message_encoded m chunks buf _ c Hm Hne Heq) as (chunks' & buf' & N & E & ->).
    rewrite Hr. destruct (IH chunks' buf' fuel N ltac:(lia) E) as (chunks'' & buf'' & E' & R').
    exists chunks'', buf''. split; [done|]. unfold bind. by rewrite R'.
Qed.

Lemma concat_encode_length ms : (5 * length ms <= length (concat (map encode_backend ms)))%nat.
Proof.
  induction ms as [|m ms IH]; cbn [map concat length]; [lia|].
  rewrite length_app. pose proof (encode_backend_length m). lia.
Qed.

Lemma pending_bytes_at c chunks buf : pending_bytes (conn_at c chunks buf) = length (buf ++ concat chunks).
Proof.
  unfold pending_bytes, conn_at, reads. cbn [read_buf incoming set_read]. rewrite length_app. f_equal.
  induction chunks as [|ch chunks IH]; [done|]. cbn. rewrite !length_app. lia.
Qed.

Definition querying (q : Text) (c : Connection) : Connection :=
  mkConn c.(incoming) [] (c.(sent) ++ Encode.encode_query q) ReadingResults c.(read_buf).

Lemma simple_query_idle q c :
  c.(state) = Idle -> c.(write_faults) = [] ->
  simple_query q c
  = bind (read_until_ready (S (pending_bytes (querying q c))))
      (fun ms => transition Idle ;;; ret ms) (querying q c).
Proof. destruct c; cbn; intros -> ->. reflexivity. Qed.

(** A simple query on an idle connection sends the query and returns the
    server's messages up to and including the first [ReadyForQuery], leaving
    the connection idle and what follows buffered. *)
Theorem simple_query_runs q ms st chunks buf tail c :
  Forall (fun m => wf_message m /\ is_ready m = false) ms -> nonempty chunks ->
  c.(state) = Idle -> c.(write_faults) = [] ->
  buf ++ concat chunks = concat (map encode_backend ms) ++ encode_backend (ReadyForQuery st) ++ tail ->
  exists c',
    simple_query q (conn_at c chunks buf) = (Ok (ms ++ [ReadyForQuery st]), c') /\
    c'.(state) = Idle /\ c'.(sent) = c.(sent) ++ Encode.encode_query q /\
    exists chunks', c'.(incoming) = reads chunks' /\ c'.(read_buf) ++ concat chunks' = tail.
Proof.
  intros Hms Hne Hs Hw Heq. rewrite simple_query_idle by done. unfold bind at 1.
  set (c1 := querying q (conn_at c chunks buf)). change c1 with (conn_at c1 chunks buf).
  destruct (read_until_ready_encoded ms st chunks buf tail c1 (S (pending_bytes (conn_at c1 chunks buf))) Hms Hne)
    as (chunks' & buf' & E & R); [|done|].
  { rewrite pending_bytes_at, Heq, length_app. pose proof (concat_encode_length ms). lia. }
  rewrite R. eexists. split; [reflexivity|]. cbn. split_and!; [done|done|]. exists chunks'. by split.
Qed.

(** A query that fails after its bytes were sent leaves the connection in
    [ReadingResults]: every later query is refused as busy. *)
Theorem failed_query_stays_busy q c e c' :
  c.(state) = Idle -> c.(write_faults) = [] ->
  simple_query q c = (Err e, c') ->
  c'.(state) = ReadingResults /\
  forall q', simple_query q' c' = (Err (ConnectionBusy "connection in state: reading_results"), c').
Proof.
  intros Hs Hw. rewrite simple_query_idle by done. unfold bind at 1. set (c1 := querying q c).
  assert (forall fuel c, c.(state) = ReadingResults -> (read_until_ready fuel c).2.(state) = ReadingResults) as Hst.
  { clear. induction fuel as [|fuel IH]; intros c Hc; [done|]. cbn [read_until_ready]. unfold bind at 1, receive_message.
    destruct (receive_loop _ _) as [[m|e] [i b]]; [|done]. destruct (is_ready m); [done|]. unfold bind.
    specialize (IH (set_read c i b) Hc). by destruct (read_until_ready fuel _) as [[?|?] ?]. }
  specialize (Hst (S (pending_bytes c1)) c1 eq_refl).
  destruct (read_until_ready _ c1) as [[ms|e'] c2]; cbn in Hst |- *.
  - unfold bind, transition. rewrite Hst. done.
  - intros [= <- <-]. split; [done|]. intros q'. unfold simple_query. by rewrite Hst.
Qed.
End Connection.

(** ** Streaming queries *)
Module Streaming.
Import ConnectionState Connection.

Section Streaming.
(** [serde_json::from_slice] and the derived [Debug] of a message. *)
Context {V : Type} (from_slice : list Z -> result string V) (debug : BackendMessage -> string).

Definition parse_json (data : list Z) : result WireError V :=
  match from_slice data with Ok v => Ok v | Err e => Err (JsonDecode e) end.

(** Read up to the row description. *)
Fixpoint read_row_description (fuel : nat) : Conn BackendMessage :=
  match fuel with
  | O => throw (Io OutOfFuel)
  | S fuel =>
      let* msg := receive_message in
      match msg with
      | ErrorResponse err => read_until_ready fuel ;;; throw (Sql err)
      | BackendKeyData _ _ | ParameterStatus _ _ | NoticeResponse _ => read_row_description fuel
      | RowDescription _ => ret msg
      | ReadyForQuery _ =>
          throw (Protocol "no result set received from query - check that the entity name is correct and the table/view exists")
      | _ => throw (Protocol ("unexpected message type in query response: " ++ debug msg))
      end
  end.

(** The part of [streaming_query] before the background task. *)
Definition start (query : Text) : Conn unit := fun c =>
  if negb (bool_decide (c.(state) = Idle))
  then (Err (ConnectionBusy ("connection in state: " ++ display c.(state))), c)
  else
    (transition QueryInProgress ;;;
     send_message (Query query) ;;;
     transition ReadingResults ;;;
     let* row_desc := (fun c => read_row_description (S (pending_bytes c)) c) in
     fun c => (validate_row_description row_desc, c)) c.

(** The result channel: what the consumer got, and how many items it still
    takes before it goes away. *)
Record Channel : Type := mkChannel { delivered : list (result WireError V); room : nat }.

Definition send (item : result WireError V) (ch : Channel) : bool * Channel :=
  match ch.(room) with
  | O => (false, ch)
  | S n => (true, mkChannel (ch.(delivered) ++ [item]) n)
  end.

Fixpoint send_all (items : list (result WireError V)) (ch : Channel) : bool * Channel :=
  match items with
  | [] => (true, ch)
  | item :: items =>
      let (ok, ch) := send item ch in if ok then send_all items ch else (false, ch)
  end.

Definition BATCH_SIZE : nat := 8.

(** The loop over the rows of a chunk: the batch left over, the channel, and
    whether the loop was left by [send_error]. *)
Fixpoint process_rows (rows : list (list Z)) (batch : list (result WireError V)) (ch : Channel)
    : list (result WireError V) * Channel * bool :=
  match rows with
  | [] => (batch, ch, false)
  | row_bytes :: rows =>
      match parse_json row_bytes with
      | Ok value =>
          let batch := batch ++ [Ok value] in
          if decide (length batch = BATCH_SIZE) then
            let (ok, ch) := send_all batch ch in
            if ok then process_rows rows [] ch else ([], ch, true)
          else process_rows rows batch ch
      | Err e => let (_, ch) := send (Err e) ch in (batch, ch, true)
      end
  end.

Definition flush_chunk (rows : list (list Z)) (ch : Channel) : Channel :=
  let '(batch, ch, send_error) := process_rows rows [] ch in
  if send_error then ch else (send_all batch ch).2.

(** What the background task sees: a cancellation, or what a receive gave. *)
Inductive Event : Type :=
| Cancel
| Received (r : result WireError BackendMessage).

Fixpoint task (chunk_size : nat) (events : list Event) (chunk : list (list Z)) (ch : Channel) : Channel :=
  match events with
  | [] => ch
  | Cancel :: _ => ch
  | Received (Err e) :: _ => (send (Err e) ch).2
  | Received (Ok msg) :: events =>
      match msg with
      | DataRow _ =>
          match extract_json_bytes msg with
          | Ok json_bytes =>
              let chunk := chunk ++ [json_bytes] in
              if decide (chunk_size <= length chunk)%nat
              then task chunk_size events [] (flush_chunk chunk ch)
              else task chunk_size events chunk ch
          | Err e => (send (Err e) ch).2
          end
      | CommandComplete _ =>
          match chunk with
          | [] => task chunk_size events [] ch
          | _ => task chunk_size events [] (flush_chunk chunk ch)
          end
      | ReadyForQuery _ => ch
      | ErrorResponse err => (send (Err (Sql err)) ch).2
      | _ => (send (Err (Protocol ("unexpected message: " ++ debug msg))) ch).2
      end
  end.

(** *** Chunks and batches are invisible *)

Lemma send_all_room items ch :
  (length items <= room ch)%nat ->
  send_all items ch = (true, mkChannel (ch.(delivered) ++ items) (ch.(room) - length items)).
Proof.
  revert ch. induction items as [|i items IH]; intros [d r] Hr; cbn in *.
  - by rewrite app_nil_r, Nat.sub_0_r.
  - destruct r as [|r]; [lia|]. unfold send. cbn. rewrite IH by (cbn; lia). cbn. by rewrite <- app_assoc.
Qed.

Lemma process_rows_good rows vs batch ch :
  Forall2 (fun r v => from_slice r = Ok v) rows vs -> (length batch < BATCH_SIZE)%nat ->
  (length batch + length rows <= room ch)%nat ->
  exists batch' n,
    process_rows rows batch ch
      = (batch', mkChannel (ch.(delivered) ++ take n (batch ++ map Ok vs)) (ch.(room) - n), false) /\
    batch' = drop n (batch ++ map Ok vs) /\ (n <= length batch + length rows)%nat /\
    (length batch' < BATCH_SIZE)%nat /\ Nat.divide BATCH_SIZE n.
Proof.
  intros Hvs. revert batch ch. induction Hvs as [|r v rows vs Hv Hvs IH]; intros batch ch Hb Hr.
  - exists batch, O. cbn. rewrite app_nil_r, app_nil_r, Nat.sub_0_r, Nat.add_0_r. destruct ch.
    split_and!; [done|done|lia|done|by exists O].
  - cbn [process_rows length map] in *. unfold parse_json. rewrite Hv. case_decide as H8.
    + rewrite length_app in H8. cbn [length] in H8.
      rewrite send_all_room by (rewrite length_app; cbn; lia).
      destruct (IH [] (mkChannel (delivered ch ++ batch ++ [Ok v]) (room ch - length (batch ++ [Ok v]))))
        as (batch' & n & E & Hd & Hn & Hl & Hdv);
        [unfold BATCH_SIZE; cbn; lia | rewrite length_app; cbn; lia |].
      cbn [delivered room length app] in *. exists batch', (8 + n)%nat. rewrite E.
      assert (length (batch ++ [Ok v : result WireError V]) = 8)%nat as E8 by (rewrite length_app; exact H8).
      replace (batch ++ Ok v :: map Ok vs) with ((batch ++ [Ok v]) ++ map Ok vs) by (by rewrite <- app_assoc).
      rewrite (take_app_add' (batch ++ [Ok v])), (drop_app_add' (batch ++ [Ok v])), E8 by done.
      split_and!; [|done|rewrite length_app in E8; cbn in E8; lia|done|].
      * rewrite <- !app_assoc. do 3 f_equal. lia.
      * destruct Hdv as [k ->]. exists (S k). unfold BATCH_SIZE. lia.
    + destruct (IH (batch ++ [Ok v]) ch) as (batch' & n & E & Hd & Hn & Hl & Hdv).
      * rewrite length_app in *. cbn [length] in *. unfold BATCH_SIZE in *. lia.
      * rewrite length_app. cbn. lia.
      * rewrite <- app_assoc in E, Hd. exists batch', n. rewrite length_app in Hn. cbn in Hn.
        split_and!; [done|done|lia|done|done].
Qed.

Lemma flush_chunk_good rows vs ch :
  Forall2 (fun r v => from_slice r = Ok v) rows vs -> (length rows <= room ch)%nat ->
  flush_chunk rows ch = mkChannel (ch.(delivered) ++ map Ok vs) (ch.(room) - length rows).
Proof.
  intros Hvs Hr. unfold flush_chunk.
  destruct (process_rows_good rows vs [] ch Hvs) as (batch' & n & -> & -> & Hn & _); [unfold BATCH_SIZE; cbn; lia|done|].
  cbn [app length] in *. pose proof (Forall2_length _ _ _ Hvs) as Hl.
  rewrite send_all_room by (cbn; rewrite length_drop, length_map; lia). cbn.
  rewrite <- app_assoc, take_drop, length_drop, length_map. f_equal. lia.
Qed.

Definition row_event (r : list Z) : Event := Received (Ok (DataRow [Some r])).

Lemma task_rows chunk_size tag st more rows vs chunk cvs ch :
  Forall2 (fun r v => from_slice r = Ok v) rows vs ->
  Forall2 (fun r v => from_slice r = Ok v) chunk cvs ->
  (length chunk + length rows <= room ch)%nat ->
  (task chunk_size
     (map row_event rows ++ Received (Ok (CommandComplete tag)) :: Received (Ok (ReadyForQuery st)) :: more)
     chunk ch).(delivered)
  = ch.(delivered) ++ map Ok (cvs ++ vs).
Proof.
  intros Hvs. revert chunk cvs ch. induction Hvs as [|r v rows vs Hv Hvs IH]; intros chunk cvs ch Hc Hr.
  - cbn [map app task]. rewrite app_nil_r. destruct Hc as [|r v chunk cvs Hv Hc]; [by rewrite app_nil_r|].
    by rewrite (flush_chunk_good (r :: chunk) (v :: cvs)) by (by constructor || (cbn in *; lia)).
  - cbn [map app length] in *. unfold row_event at 1. cbn [task extract_json_bytes ok_or].
    assert (Forall2 (fun r v => from_slice r = Ok v) (chunk ++ [r]) (cvs ++ [v])) as Hc'
      by (apply Forall2_app; [done|by repeat constructor]).
    case_decide.
    + rewrite (IH [] []) by (try constructor; rewrite (flush_chunk_good _ (cvs ++ [v])) by (done || (rewrite length_app; cbn; lia)); cbn; rewrite length_app; cbn; lia).
      rewrite (flush_chunk_good _ (cvs ++ [v])) by (done || (rewrite length_app; cbn; lia)). cbn.
      rewrite <- app_assoc, <- map_app. by rewrite <- app_assoc.
    + rewrite (IH (chunk ++ [r]) (cvs ++ [v])) by (done || (rewrite length_app; cbn; lia)).
      by rewrite <- app_assoc.
Qed.

(** *** The stream a consumer polls *)
(** Tokio's bounded channel between the task and the consumer: what the task has
    still to send, what is buffered, what the consumer's polls have given, and
    whether the last of them was the end. *)
Record JsonStream : Type := mkStream {
  unsent : list (result WireError V); buffered : list (result WireError V); polled : list (result WireError V); ended : bool
}.
(** [Semaphore::MAX_PERMITS]; [mpsc::channel] panics on a capacity of zero or
    above it: no stream.  [n] is how many items the consumer takes before it
    goes away. *)
Definition MAX_PERMITS : Z := Z.shiftr u64_max 3.
Definition open_stream (chunk_size : nat) (events : list Event) (n : nat) : option JsonStream :=
  if negb (0 <? Z.of_nat chunk_size) || (MAX_PERMITS <? Z.of_nat chunk_size) then None
  else Some (mkStream (task chunk_size events [] (mkChannel [] n)).(delivered) [] [] false).

(** [limit as f32 * fail_threshold] and [as usize]. *)
Definition f32_of_Z (z : Z) : spec_float := binary_normalize 24 128 z 0 false.
Definition f32_as_usize (f : spec_float) : Z :=
  match f with
  | S754_finite false m e => Z.min u64_max (Z.shiftl (Zpos m) e)
  | S754_infinity false => u64_max
  | _ => 0
  end.
Definition memory_check (max_memory : option Z) (fail_threshold : option spec_float) (items_buffered : nat) : option WireError :=
  limit ← max_memory;
  let estimated_memory := Z.of_nat items_buffered * 2048 in
  let bound := match fail_threshold with Some t => f32_as_usize (SFmul 24 128 (f32_of_Z limit) t) | None => limit end in
  if bound <? estimated_memory then Some (MemoryLimitExceeded limit estimated_memory) else None.
(** [poll_next]; the task is through when it has nothing left to send. *)
Definition poll_next (max_memory : option Z) (fail_threshold : option spec_float) (s : JsonStream) : JsonStream :=
  match memory_check max_memory fail_threshold (length s.(buffered)) with
  | Some e => mkStream s.(unsent) s.(buffered) (s.(polled) ++ [Err e]) s.(ended)
  | None =>
      match s.(buffered), s.(unsent) with
      | item :: buffered, _ => mkStream s.(unsent) buffered (s.(polled) ++ [item]) s.(ended)
      | [], [] => mkStream [] [] s.(polled) true
      | [], _ :: _ => s
      end
  end.
(** The task and the consumer take turns in any order; a send waits for room. *)
Inductive stream_step (chunk_size : nat) (max_memory : option Z) (fail_threshold : option spec_float) : JsonStream -> JsonStream -> Prop :=
| ss_send item u b p e : (length b < chunk_size)%nat ->
    stream_step chunk_size max_memory fail_threshold (mkStream (item :: u) b p e) (mkStream u (b ++ [item]) p e)
| ss_poll s : stream_step chunk_size max_memory fail_threshold s (poll_next max_memory fail_threshold s).

Definition over_limit (r : result WireError V) : bool := match r with Err (MemoryLimitExceeded _ _) => true | _ => false end.
Definition rows_in (l : list (result WireError V)) : list (result WireError V) := List.filter (fun r => negb (over_limit r)) l.
Lemma rows_in_ok vs : rows_in (map Ok vs) = map Ok vs.
Proof. unfold rows_in. induction vs as [|v vs IH]; cbn; [done|]. by rewrite IH. Qed.
Lemma rows_in_app l l' : rows_in (l ++ l') = rows_in l ++ rows_in l'.
Proof. apply List.filter_app. Qed.

Section Polls.
Context (chunk_size : nat) (max_memory : option Z) (fail_threshold : option spec_float) (vs : list V).
#[local] Notation step := (stream_step chunk_size max_memory fail_threshold).
Definition fits : Prop := forall n, (n <= chunk_size)%nat -> memory_check max_memory fail_threshold n = None.
(** Nothing is lost, repeated or reordered, the buffer keeps its size, the end
    comes last, and a limit the buffer cannot reach stops no poll. *)
Definition in_order (s : JsonStream) : Prop :=
  rows_in s.(polled) ++ s.(buffered) ++ s.(unsent) = map Ok vs /\ (length s.(buffered) <= chunk_size)%nat
  /\ (s.(ended) = true -> s.(buffered) = [] /\ s.(unsent) = []) /\ (fits -> rows_in s.(polled) = s.(polled)).
Lemma in_order_step s s' : step s s' -> in_order s -> in_order s'.
Proof.
  unfold in_order. intros [item u b p e Hb|s0]; cbn.
  - intros (H1 & H2 & H3 & H4). rewrite length_app. cbn. split_and!; [by rewrite <- H1, <- !app_assoc|lia| |done]. by intros [_ [=]]%H3.
  - destruct s0 as [u b p e]. unfold poll_next. cbn. intros (H1 & H2 & H3 & H4). destruct (memory_check _ _ _) as [err|] eqn:Em.
    + cbn. assert (over_limit (Err err) = true) as Ho.
      { unfold memory_check in Em. destruct max_memory; [|done]. cbn in Em. destruct (_ <? _); [|done]. by injection Em as <-. }
      rewrite rows_in_app. unfold rows_in at 2. cbn [List.filter]. rewrite Ho. cbn [negb]. rewrite app_nil_r. split_and!; [done..|]. intros Hf. by rewrite Hf in Em.
    + destruct b as [|item b]; [destruct u as [|i u]|]; cbn in *; [done..|].
      assert (over_limit item = false) as Ho.
      { assert (In item (map Ok vs)) as (v & <- & _)%in_map_iff by (rewrite <- H1; apply in_app_iff; right; by left). done. }
      rewrite rows_in_app. unfold rows_in at 2. cbn [List.filter]. rewrite Ho. cbn [negb]. split_and!; [by rewrite <- app_assoc|lia| |].
      * by intros [? _]%H3.
      * intros Hf. f_equal; [by apply H4|]. unfold rows_in. cbn [List.filter]. by rewrite Ho.
Qed.
(** While no poll is over the limit, the stream can come to its end. *)
Lemma can_end s : (0 < chunk_size)%nat -> fits -> in_order s -> exists s', rtc step s s' /\ s'.(ended) = true.
Proof.
  intros Hc Hf Hs. destruct s as [u b p e]. destruct Hs as (_ & Hb & _ & _). cbn in Hb. revert b p Hb.
  assert (Hdrain : forall u b p, (length b <= chunk_size)%nat -> exists p', rtc step (mkStream u b p e) (mkStream u [] p' e)).
  { clear -Hf. intros u b. induction b as [|item b IH]; intros p Hb; [by exists p|]. cbn in Hb. destruct (IH (p ++ [item])) as [p' Hp]; [lia|].
    exists p'. eapply rtc_l; [apply ss_poll|]. unfold poll_next. cbn [buffered length]. by rewrite (Hf (S (length b))) by lia. }
  induction u as [|i u IH]; intros b p Hb.
  - destruct (Hdrain [] b p Hb) as [p' Hp]. eexists. split; [eapply rtc_r; [exact Hp|apply ss_poll]|]. unfold poll_next. cbn. by rewrite (Hf O) by lia.
  - destruct (Hdrain (i :: u) b p Hb) as [p' Hp]. destruct (IH [i] p') as (s' & Hs' & He); [cbn; lia|]. exists s'. split; [|done]. etrans; [exact Hp|].
    eapply rtc_l; [apply ss_send; cbn; lia|exact Hs'].
Qed.
End Polls.

(** C4. A streaming query whose rows all parse and whose consumer neither cancels
    nor goes away: the query panics exactly when the chunk size is 0 or above the
    channel's maximum; otherwise, however the task's sends and the consumer's
    polls interleave and whatever the memory limit, what the polls have given
    but for errors of the limit, what is buffered and what is unsent are together
    the server's rows, each once and in the server's order; the buffer stays
    within the chunk size; at the end every row has been given; and a limit that a full buffer does
    not exceed gives no error and lets the stream end.  (A limit a full buffer
    exceeds can stop the stream for good: [limited_stream_stuck].) *)
Theorem streaming_delivers_rows chunk_size tag st more rows vs n max_memory fail_threshold :
  Forall2 (fun r v => from_slice r = Ok v) rows vs -> (length rows <= n)%nat ->
  match open_stream chunk_size
          (map row_event rows ++ Received (Ok (CommandComplete tag)) :: Received (Ok (ReadyForQuery st)) :: more) n with
  | None => chunk_size = O \/ MAX_PERMITS < Z.of_nat chunk_size
  | Some s => (0 < Z.of_nat chunk_size <= MAX_PERMITS) /\ forall s', rtc (stream_step chunk_size max_memory fail_threshold) s s' ->
      rows_in s'.(polled) ++ s'.(buffered) ++ s'.(unsent) = map Ok vs /\ (length s'.(buffered) <= chunk_size)%nat
      /\ (s'.(ended) = true -> rows_in s'.(polled) = map Ok vs)
      /\ (fits chunk_size max_memory fail_threshold ->
           rows_in s'.(polled) = s'.(polled) /\ exists s'', rtc (stream_step chunk_size max_memory fail_threshold) s' s'' /\ s''.(ended) = true)
  end.
Proof.
  intros Hvs Hr. unfold open_stream. destruct (negb _ || _) eqn:Hc.
  { apply orb_true_iff in Hc as [Hc%negb_true_iff%Z.ltb_ge|Hc%Z.ltb_lt]; [left|right]; lia. }
  apply orb_false_iff in Hc as [Hc%negb_false_iff%Z.ltb_lt Hm%Z.ltb_ge]. split; [lia|]. intros s' Hs'.
  assert (in_order chunk_size max_memory fail_threshold vs s') as Ho.
  { refine (rtc_invariant _ (in_order chunk_size max_memory fail_threshold vs) _ _ _ Hs' _).
    - intros x y Hxy Hx. by eapply in_order_step.
    - unfold in_order. cbn [polled buffered unsent ended]. rewrite (task_rows _ _ _ _ _ vs [] []) by (done || constructor).
      split_and!; [done|cbn; lia|done|done]. }
  pose proof Ho as (H1 & H2 & H3 & H4). split_and!; [done|done| |].
  - intros [Hb Hu]%H3. rewrite Hb, Hu, app_nil_r in H1. done.
  - intros Hf. split; [by apply H4|]. apply (can_end chunk_size max_memory fail_threshold vs); [lia|done|done].
Qed.

(** A stream over its limit at a poll with a full buffer is over it at every
    later one: no poll takes an item, and no send finds room. *)
Theorem limited_stream_stuck chunk_size max_memory fail_threshold s s' e :
  length s.(buffered) = chunk_size -> memory_check max_memory fail_threshold chunk_size = Some e ->
  rtc (stream_step chunk_size max_memory fail_threshold) s s' ->
  s'.(buffered) = s.(buffered) /\ s'.(unsent) = s.(unsent) /\ s'.(ended) = s.(ended)
  /\ exists k, s'.(polled) = s.(polled) ++ repeat (Err e) k.
Proof.
  intros Hl He Hs.
  refine (rtc_invariant _ (fun s' => s'.(buffered) = s.(buffered) /\ s'.(unsent) = s.(unsent) /\ s'.(ended) = s.(ended)
    /\ exists k, s'.(polled) = s.(polled) ++ repeat (Err e) k) _ _ _ Hs _); cycle 1.
  { split_and!; [done..|]. exists O. by rewrite app_nil_r. }
  intros x y [i u b p en Hb|x'] (Hb' & Hu & Hen & k & Hp); cbn in *; [exfalso; subst b; lia|].
  unfold poll_next. rewrite Hb', Hl, He. cbn. split_and!; [done..|]. exists (S k). rewrite Hp, <- app_assoc. f_equal.
  symmetry. apply repeat_cons.
Qed.

Lemma process_rows_app rows vs rest batch ch :
  Forall2 (fun r v => from_slice r = Ok v) rows vs -> (length batch < BATCH_SIZE)%nat ->
  (length batch + length rows <= room ch)%nat ->
  process_rows (rows ++ rest) batch ch
  = let '(batch', ch', _) := process_rows rows batch ch in process_rows rest batch' ch'.
Proof.
  intros Hvs. revert batch ch. induction Hvs as [|r v rows vs Hv Hvs IH]; intros batch ch Hb Hr; [done|].
  cbn [process_rows app length] in *. unfold parse_json. rewrite Hv. case_decide as H8.
  - rewrite length_app in H8. cbn [length] in H8.
    rewrite send_all_room by (rewrite length_app; cbn; lia).
    rewrite IH; [done|unfold BATCH_SIZE; cbn; lia|rewrite length_app; cbn; lia].
  - rewrite IH; [done| |rewrite length_app; cbn; lia].
    rewrite length_app in *. cbn [length] in *. unfold BATCH_SIZE in *. lia.
Qed.

(** A row that does not parse takes with it the rows parsed before it in the
    same batch of eight: the consumer gets the earlier whole batches and the
    error, and the stream goes on with the next chunk. *)
Theorem bad_row_drops_batch chunk_size goods vs bad e rest events ch :
  Forall2 (fun r v => from_slice r = Ok v) goods vs -> from_slice bad = Err e ->
  (length goods < room ch)%nat -> (chunk_size = length (goods ++ bad :: rest))%nat ->
  exists n, Nat.divide 8 n /\ (n <= length vs < n + 8)%nat /\
    task chunk_size (map row_event (goods ++ bad :: rest) ++ events) [] ch
    = task chunk_size events []
        (mkChannel (ch.(delivered) ++ map Ok (take n vs) ++ [Err (JsonDecode e)]) (ch.(room) - n - 1)).
Proof.
  intros Hvs Hbad Hr Hsz.
  destruct (process_rows_good goods vs [] ch Hvs) as (batch & n & E & Hd & Hn & Hl & Hdv);
    [unfold BATCH_SIZE; cbn; lia|cbn; lia|].
  pose proof (Forall2_length _ _ _ Hvs) as Hlen. cbn [app length] in *.
  exists n. split_and!; [done|lia| |].
  { rewrite Hd, length_drop, length_map in Hl. unfold BATCH_SIZE in Hl. lia. }
  assert (forall rows chunk, rows <> [] -> chunk_size = length (chunk ++ rows) ->
    task chunk_size (map row_event rows ++ events) chunk ch
    = task chunk_size events [] (flush_chunk (chunk ++ rows) ch)) as Hfill.
  { clear. induction rows as [|r rows IH]; intros chunk Hne Hs; [done|].
    cbn [map app]. unfold row_event at 1. cbn [task extract_json_bytes ok_or].
    rewrite length_app in Hs. cbn [length] in Hs. destruct rows as [|r' rows].
    - rewrite decide_True by (rewrite length_app; cbn in *; lia). done.
    - rewrite decide_False by (rewrite length_app; cbn in *; lia).
      rewrite IH; [by rewrite <- app_assoc|done|]. rewrite !length_app. cbn in *. lia. }
  rewrite (Hfill (goods ++ bad :: rest) []) by (by destruct goods || done). cbn [app]. f_equal.
  unfold flush_chunk. rewrite (process_rows_app goods vs) by (done || (unfold BATCH_SIZE; cbn; lia) || (cbn; lia)).
  rewrite E. cbn [process_rows]. unfold parse_json. rewrite Hbad. unfold send. cbn [room].
  destruct (room ch - n)%nat as [|k] eqn:Hk; [lia|]. cbn. rewrite <- app_assoc, Nat.sub_0_r.
  by rewrite firstn_map.
Qed.
End Streaming.
End Streaming.

(** ** Concrete sessions *)
Module Demo.
Import ConnectionState Connection Streaming RoundTrip.

Definition idle (chunks : list (list Z)) (buf : list Z) : Connection :=
  mkConn (reads chunks) [] [] Idle buf.
Definition ready : BackendMessage := ReadyForQuery 73.
Definition done_tag : BackendMessage := CommandComplete (text "SELECT 1").

(** The reply of a query cut into single bytes. *)
Definition reply : list Z := encode_backend done_tag ++ encode_backend ready.
Definition trickle : list (list Z) := map (fun b => [b]) reply.

Lemma nonempty_bytes l : nonempty (map (fun b : Z => [b]) l).
Proof. induction l; constructor; done. Qed.
Lemma concat_bytes (l : list Z) : concat (map (fun b => [b]) l) = l.
Proof. induction l; cbn; congruence. Qed.

Lemma wf_done : wf_message done_tag.
Proof.
  split; [split; [repeat constructor; discriminate | vm_compute; reflexivity] | vm_compute; reflexivity].
Qed.
Lemma wf_ready : wf_message ready.
Proof. split; [exact I|vm_compute; reflexivity]. Qed.

Lemma receive_reassembles_witness :
  exists chunks' buf',
    buf' ++ concat chunks' = [] /\
    receive_n 2 (conn_at (idle [] []) trickle []) = (Ok [done_tag; ready], conn_at (idle [] []) chunks' buf').
Proof.
  apply (receive_reassembles [done_tag; ready] trickle [] [] (idle [] [])).
  - apply Forall_cons_2; [apply wf_done|]. apply Forall_cons_2; [apply wf_ready|constructor].
  - apply nonempty_bytes.
  - reflexivity.
Defined.

Lemma malformed_message_swallowed_witness :
  receive_message (conn_at (idle [] []) [[1; 2]; encode_backend ready] (frame 68 [255; 255] ++ []))
  = (Err ConnectionClosed, conn_at (idle [] []) [] (frame 68 [255; 255] ++ [] ++ [1; 2] ++ encode_backend ready ++ [])).
Proof.
  apply (malformed_message_swallowed 68 [255; 255] (InvalidData "negative field count")
           [[1; 2]; encode_backend ready] [] (idle [] [])).
  - vm_compute. reflexivity.
  - vm_compute. reflexivity.
  - repeat constructor; discriminate.
Defined.

Lemma simple_query_runs_witness :
  exists c',
    simple_query (text "SELECT 1") (conn_at (idle [] []) trickle []) = (Ok [done_tag; ready], c') /\
    c'.(state) = Idle /\ c'.(sent) = Encode.encode_query (text "SELECT 1") /\
    exists chunks', c'.(incoming) = reads chunks' /\ c'.(read_buf) ++ concat chunks' = [].
Proof.
  apply (simple_query_runs (text "SELECT 1") [done_tag] 73 trickle [] [] (idle [] [])).
  - apply Forall_cons_2; [split; [apply wf_done|reflexivity]|constructor].
  - apply nonempty_bytes.
  - reflexivity.
  - reflexivity.
  - reflexivity.
Defined.

Lemma failed_query_stays_busy_witness :
  let c' := (simple_query (text "SELECT 1") (idle [] [])).2 in
  c'.(state) = ReadingResults /\
  forall q', simple_query q' c' = (Err (ConnectionBusy "connection in state: reading_results"), c').
Proof.
  intros c'. apply (failed_query_stays_busy (text "SELECT 1") (idle [] []) ConnectionClosed); reflexivity.
Defined.

(** A decoder that accepts rows starting with an opening brace. *)
Definition brace_slice (l : list Z) : result string (list Z) :=
  match l with 123 :: _ => Ok l | _ => Err "expected value" end.
Definition rows (n : nat) : list (list Z) := map (fun i => [123; Z.of_nat i; 125]) (seq 0 n).
Definition empty_channel : Channel (V := list Z) := mkChannel [] 100.

Lemma rows_parse n : Forall2 (fun r v => brace_slice r = Ok v) (rows n) (rows n).
Proof. unfold rows. induction (seq 0 n); constructor; done. Qed.

Lemma streaming_delivers_rows_witness :
  match open_stream brace_slice (fun _ => "") 4
          (map row_event (rows 10) ++ Received (Ok done_tag) :: Received (Ok ready) :: []) 100 with
  | None => 4%nat = O \/ MAX_PERMITS < 4
  | Some s => (0 < 4 <= MAX_PERMITS) /\ forall s', rtc (stream_step 4 (Some 8192) None) s s' ->
      rows_in s'.(polled) ++ s'.(buffered) ++ s'.(unsent) = map Ok (rows 10) /\ (length s'.(buffered) <= 4)%nat
      /\ (s'.(ended) = true -> rows_in s'.(polled) = map Ok (rows 10))
      /\ (fits 4 (Some 8192) None ->
           rows_in s'.(polled) = s'.(polled) /\ exists s'', rtc (stream_step 4 (Some 8192) None) s' s'' /\ s''.(ended) = true)
  end.
Proof.
  apply (streaming_delivers_rows brace_slice (fun _ => "") 4 (text "SELECT 1") 73 [] (rows 10) (rows 10) 100 (Some 8192) None).
  - apply rows_parse.
  - cbn. lia.
Defined.

(** Four items of 2 KB are within a limit of 8 KB; one byte less, and a reader
    that lets four rows pile up gets nothing but the limit's error from then on. *)
Example fits_8192 : fits 4 (Some 8192) None.
Proof. intros n Hn. do 5 (destruct n as [|n]; [reflexivity|]). lia. Qed.
Example stuck_8191 :
  memory_check (Some 8191) None 4 = Some (MemoryLimitExceeded 8191 8192)
  /\ memory_check (Some 8192) (Some (S754_finite false 8388608 (-24))) 3 = Some (MemoryLimitExceeded 8192 6144)
  /\ open_stream brace_slice (fun _ => "") 0 [] 100 = None.
Proof. by vm_compute. Qed.
Lemma limited_stream_stuck_witness :
  let s := mkStream [Ok [5]] (map Ok (rows 4)) [] false in
  forall s', rtc (stream_step 4 (Some 8191) None) s s' ->
  s'.(buffered) = map Ok (rows 4) /\ s'.(unsent) = [Ok [5]] /\ s'.(ended) = false
  /\ exists k, s'.(polled) = [] ++ repeat (Err (MemoryLimitExceeded 8191 8192)) k.
Proof. intros s s'. by apply (limited_stream_stuck 4 (Some 8191) None s s'). Defined.

Lemma bad_row_drops_batch_witness :
  exists n, Nat.divide 8 n /\ (n <= 11 < n + 8)%nat /\
    task brace_slice (fun _ => "") 14 (map row_event (rows 11 ++ [0] :: rows 2) ++ []) [] empty_channel
    = task brace_slice (fun _ => "") 14 [] []
        (mkChannel (map Ok (take n (rows 11)) ++ [Err (JsonDecode "expected value")]) (100 - n - 1)).
Proof.
  apply (bad_row_drops_batch brace_slice (fun _ => "") 14 (rows 11) (rows 11) [0] "expected value" (rows 2) [] empty_channel).
  - apply rows_parse.
  - reflexivity.
  - cbn. lia.
  - reflexivity.
Defined.
End Demo.
