(* ===== verification/Condition.v ===== *)
(** * The condition language of observers

    crates/fraiseql-observers/src/condition/: lexer.rs ([Lexer]), parser.rs
    ([Parser]), mod.rs (the tree, its printed form and [evaluate]) and
    evaluator.rs.

    A condition is a [string] of bytes.  Outside quotes the model knows the
    ASCII classes of characters; a byte of a longer UTF-8 sequence counts as no
    letter there.  Inside quotes any bytes are kept. *)

From S2P Require Import Prelude ObserverError Json ObserverConfig.
From Stdlib Require Import Ascii.
From stdpp Require Import pretty.
#[local] Open Scope Z_scope.
#[local] Open Scope char_scope.

Inductive ConditionAst : Type :=
| Comparison (field op value : string)
| HasField (field : string)
| FieldChanged (field : string)
| FieldChangedTo (field value : string)
| FieldChangedFrom (field value : string)
| And (left right : ConditionAst)
| Or (left right : ConditionAst)
| Not (expr : ConditionAst).

(** [Display]. *)
Fixpoint show (a : ConditionAst) : string :=
  match a with
  | Comparison field op value => field ++ " " ++ op ++ " " ++ value
  | HasField field => "has_field('" ++ field ++ "')"
  | FieldChanged field => "field_changed('" ++ field ++ "')"
  | FieldChangedTo field value => "field_changed_to('" ++ field ++ "', '" ++ value ++ "')"
  | FieldChangedFrom field value => "field_changed_from('" ++ field ++ "', '" ++ value ++ "')"
  | And l r => "(" ++ show l ++ ") && (" ++ show r ++ ")"
  | Or l r => "(" ++ show l ++ ") || (" ++ show r ++ ")"
  | Not expr => "!(" ++ show expr ++ ")"
  end%string.

(** ** Lexer *)
Module Lexer.

Definition MAX_CONDITION_INPUT_BYTES : nat := 4096.
Definition MAX_CONDITION_FUNCTION_ARGS : nat := 32.

Inductive Token : Type :=
| TComparison (field op value : string)
| TFunction (name : string) (args : list string)
| TAnd | TOr | TNot | TLParen | TRParen.

Definition code (c : ascii) : nat := nat_of_ascii c.
Definition within (a b : ascii) (c : ascii) : bool := (code a <=? code c)%nat && (code c <=? code b)%nat.
Definition is_alphabetic (c : ascii) : bool := within "a" "z" c || within "A" "Z" c.
Definition is_alphanumeric (c : ascii) : bool := is_alphabetic c || within "0" "9" c.
(** [char::is_whitespace]; the outer loop of the lexer skips fewer. *)
Definition is_whitespace (c : ascii) : bool := (code c =? 32)%nat || ((9 <=? code c) && (code c <=? 13))%nat.
Definition is_blank (c : ascii) : bool :=
  (code c =? 32)%nat || (code c =? 9)%nat || (code c =? 10)%nat || (code c =? 13)%nat.
Definition is_ident_char (c : ascii) : bool := is_alphanumeric c || Ascii.eqb c "_".
Definition is_op_char (c : ascii) : bool :=
  Ascii.eqb c "=" || Ascii.eqb c "!" || Ascii.eqb c ">" || Ascii.eqb c "<".
Definition is_value_char (c : ascii) : bool := is_alphanumeric c || Ascii.eqb c "." || Ascii.eqb c "-".
Definition quote : ascii := ascii_of_nat 39.

Fixpoint take_while (p : ascii -> bool) (s : string) : string * string :=
  match s with
  | EmptyString => (EmptyString, EmptyString)
  | String c s' =>
      if p c then let (a, b) := take_while p s' in (String c a, b) else (EmptyString, s)
  end.

Definition skip_while (p : ascii -> bool) (s : string) : string := (take_while p s).2.

(** [chars.peek() == Some(&c)], then [chars.next()]. *)
Definition next_if (c : ascii) (s : string) : option string :=
  match s with
  | String c' s => if Ascii.eqb c' c then Some s else None
  | EmptyString => None
  end.

(** The text up to the closing quote, or to the end when there is none. *)
Definition quoted (s : string) : string * string :=
  let (a, s) := take_while (fun c => negb (Ascii.eqb c quote)) s in
  (a, match s with String _ s => s | EmptyString => EmptyString end).

Definition err (reason : string) : ObserverError := InvalidCondition reason.

(** The argument loop after an opening parenthesis.  A round consumes a quote,
    so one unit of fuel per byte is enough. *)
Fixpoint args_loop (fuel : nat) (s : string) (args : list string)
    : result ObserverError (list string * string) :=
  match fuel with
  | O => Ok (args, s)
  | S fuel =>
      let s := skip_while is_whitespace s in
      match next_if quote s with
      | Some s =>
          let (arg, s) := quoted s in
          guard_err bool_decide (MAX_CONDITION_FUNCTION_ARGS <= length args)%nat
            as err "Too many function arguments (max 32)" ;;
          let args := args ++ [arg] in
          let s := skip_while is_whitespace s in
          match next_if "," s, next_if ")" s with
          | Some s, _ => args_loop fuel s args
          | None, Some s => Ok (args, s)
          | None, None => Ok (args, s)
          end
      | None => Ok (args, s)
      end
  end.

Definition is_operator (op : string) : bool :=
  (op =s "==") || (op =s "!=") || (op =s ">") || (op =s "<") || (op =s ">=") || (op =s "<=").

Definition lex_comparison (ident s : string) : result ObserverError (Token * string) :=
  let (op, s) := take_while is_op_char s in
  guard_err negb (is_operator op) as err ("Unknown token: " ++ ident)%string ;;
  let s := skip_while is_whitespace s in
  let (value, s) :=
    match next_if quote s with
    | Some s => quoted s
    | None => take_while is_value_char s
    end in
  Ok (TComparison ident op value, s).

(** From the first character of an identifier. *)
Definition lex_ident (s : string) : result ObserverError (Token * string) :=
  let (ident, s) := take_while is_ident_char s in
  let s := skip_while is_whitespace s in
  match next_if "(" s with
  | Some s =>
      '(args, s) ← args_loop (S (String.length s)) s [];
      Ok (TFunction ident args, s)
  | None => lex_comparison ident s
  end.

(** The main loop; every round consumes a character. *)
Fixpoint lex (fuel : nat) (s : string) : result ObserverError (list Token) :=
  match fuel with
  | O => Ok []
  | S fuel =>
      match s with
      | EmptyString => Ok []
      | String ch rest =>
          if is_blank ch then lex fuel rest
          else if Ascii.eqb ch "(" then ts ← lex fuel rest; Ok (TLParen :: ts)
          else if Ascii.eqb ch ")" then ts ← lex fuel rest; Ok (TRParen :: ts)
          else if Ascii.eqb ch "!" then
            guard_err bool_decide (is_Some (next_if "=" rest))
              as err "!= should be part of comparison, not standalone" ;;
            ts ← lex fuel rest; Ok (TNot :: ts)
          else if Ascii.eqb ch "&" then
            rest ← ok_or (next_if "&" rest) (err "Expected '&&', got single '&'");
            ts ← lex fuel rest; Ok (TAnd :: ts)
          else if Ascii.eqb ch "|" then
            rest ← ok_or (next_if "|" rest) (err "Expected '||', got single '|'");
            ts ← lex fuel rest; Ok (TOr :: ts)
          else if is_alphabetic ch || Ascii.eqb ch "_" then
            '(t, rest) ← lex_ident s; ts ← lex fuel rest; Ok (t :: ts)
          else Err (err ("Unexpected character: " ++ String ch EmptyString)%string)
      end
  end.

Definition tokenize (condition : string) : result ObserverError (list Token) :=
  guard_err bool_decide (MAX_CONDITION_INPUT_BYTES < String.length condition)%nat
    as err ("Condition expression too long (" ++ pretty (N.of_nat (String.length condition))
              ++ " bytes, max 4096)")%string ;;
  lex (S (String.length condition)) condition.
End Lexer.

(** ** Parser *)
Module Parser.
Import Lexer.

Definition MAX_CONDITION_DEPTH : nat := 64.

(** [Debug] of the tokens that start no expression. *)
Definition debug_token (t : Token) : string :=
  match t with
  | TAnd => "And" | TOr => "Or" | TNot => "Not" | TLParen => "LParen" | TRParen => "RParen"
  | TComparison _ _ _ => "Comparison" | TFunction _ _ => "Function"
  end.

Definition arity_error (name : string) (expected : string) (args : list string) : ObserverError :=
  err (name ++ " expects " ++ expected ++ ", got " ++ pretty (N.of_nat (length args))).

Definition parse_function (name : string) (args : list string) : result ObserverError ConditionAst :=
  if name =s "has_field" then
    match args with
    | [field] => Ok (HasField field)
    | _ => Err (arity_error "has_field" "1 argument" args)
    end
  else if name =s "field_changed" then
    match args with
    | [field] => Ok (FieldChanged field)
    | _ => Err (arity_error "field_changed" "1 argument" args)
    end
  else if name =s "field_changed_to" then
    match args with
    | [field; value] => Ok (FieldChangedTo field value)
    | _ => Err (arity_error "field_changed_to" "2 arguments" args)
    end
  else if name =s "field_changed_from" then
    match args with
    | [field; value] => Ok (FieldChangedFrom field value)
    | _ => Err (arity_error "field_changed_from" "2 arguments" args)
    end
  else Err (err ("Unknown function: " ++ name)).

(** A parser takes the tokens from its position and leaves those after it. *)
Abbreviation Parse := (list Token -> result ObserverError (ConditionAst * list Token)).

Section Loops.
(** The parser of the operands. *)
Context (operand : Parse).

Fixpoint and_loop (fuel : nat) (l : ConditionAst) (ts : list Token)
    : result ObserverError (ConditionAst * list Token) :=
  match fuel, ts with
  | S fuel, TAnd :: ts => '(r, ts) ← operand ts; and_loop fuel (And l r) ts
  | _, _ => Ok (l, ts)
  end.
(** A round consumes its operator, so the fuel is not exhausted. *)
Definition parse_and : Parse := fun ts =>
  '(l, ts) ← operand ts; and_loop (length ts) l ts.

Fixpoint or_loop (fuel : nat) (l : ConditionAst) (ts : list Token)
    : result ObserverError (ConditionAst * list Token) :=
  match fuel, ts with
  | S fuel, TOr :: ts => '(r, ts) ← parse_and ts; or_loop fuel (Or l r) ts
  | _, _ => Ok (l, ts)
  end.
Definition parse_or : Parse := fun ts =>
  '(l, ts) ← parse_and ts; or_loop (length ts) l ts.
End Loops.

(** [nested] parses one level deeper. *)
Definition parse_primary (nested : Parse) : Parse := fun ts =>
  match ts with
  | [] => Err (err "Unexpected end of condition")
  | TLParen :: ts =>
      '(ast, ts) ← parse_or nested ts;
      match ts with
      | TRParen :: ts => Ok (ast, ts)
      | _ => Err (err "Expected closing parenthesis")
      end
  | TComparison field op value :: ts => Ok (Comparison field op value, ts)
  | TFunction name args :: ts => ast ← parse_function name args; Ok (ast, ts)
  | t :: _ => Err (err ("Expected expression, got " ++ debug_token t))
  end.

(** [levels] is [MAX_CONDITION_DEPTH + 1 - depth]: none left is the depth error. *)
Fixpoint parse_not (levels : nat) : Parse := fun ts =>
  match levels with
  | O => Err (err "Condition expression exceeds maximum nesting depth (64)")
  | S levels =>
      match ts with
      | TNot :: ts => '(expr, ts) ← parse_not levels ts; Ok (Not expr, ts)
      | _ => parse_primary (parse_not levels) ts
      end
  end.

Definition parse_tokens (tokens : list Token) : result ObserverError ConditionAst :=
  '(ast, rest) ← parse_or (parse_not (S MAX_CONDITION_DEPTH)) tokens;
  match rest with
  | [] => Ok ast
  | _ => Err (err "Unexpected tokens after condition")
  end.

Definition parse (condition : string) : result ObserverError ConditionAst :=
  tokens ← tokenize condition; parse_tokens tokens.
End Parser.

#[local] Close Scope char_scope.
(** ** Evaluation *)
Module Evaluator.
Import Event.

Section Evaluate.
(** [serde_json::from_str]. *)
Context (from_str : string -> option json).

Definition literal (value : string) : json := default (JString value) (from_str value).

(** [Ordering] tests. *)
Definition compare_ordered (left right : json) (f : comparison -> bool) : result ObserverError bool :=
  match as_i64 left, as_i64 right with
  | Some l, Some r => Ok (f (l ?= r))
  | _, _ =>
      l ← ok_or (as_f64 left) (InvalidCondition "Left value is not a number");
      r ← ok_or (as_f64 right) (InvalidCondition "Right value is not a number");
      ord ← ok_or (SpecFloat.SFcompare l r) (InvalidCondition "Cannot compare NaN values");
      Ok (f ord)
  end.

Definition is_gt (o : comparison) := match o with Gt => true | _ => false end.
Definition is_lt (o : comparison) := match o with Lt => true | _ => false end.
Definition is_ge (o : comparison) := negb (is_lt o).
Definition is_le (o : comparison) := negb (is_gt o).

Definition eval_comparison (field op value : string) (event : EntityEvent) : result ObserverError bool :=
  event_value ← ok_or (json_get event.(data) field) (InvalidCondition ("Field not found: " ++ field));
  let value_parsed := literal value in
  if op =s "==" then Ok (json_eqb event_value value_parsed)
  else if op =s "!=" then Ok (negb (json_eqb event_value value_parsed))
  else if op =s ">" then compare_ordered event_value value_parsed is_gt
  else if op =s "<" then compare_ordered event_value value_parsed is_lt
  else if op =s ">=" then compare_ordered event_value value_parsed is_ge
  else if op =s "<=" then compare_ordered event_value value_parsed is_le
  else Err (InvalidCondition ("Unknown operator: " ++ op)).

Definition eval_has_field (field : string) (event : EntityEvent) : bool :=
  match json_get event.(data) field with Some _ => true | None => false end.

Fixpoint evaluate (ast : ConditionAst) (event : EntityEvent) : result ObserverError bool :=
  match ast with
  | Comparison field op value => eval_comparison field op value event
  | HasField field => Ok (eval_has_field field event)
  | FieldChanged field => Ok (field_changed event field)
  | FieldChangedTo field value => Ok (field_changed_to event field (literal value))
  | FieldChangedFrom field value => Ok (field_changed_from event field (literal value))
  | And l r => b ← evaluate l event; if b : bool then evaluate r event else Ok false
  | Or l r => b ← evaluate l event; if b : bool then Ok true else evaluate r event
  | Not expr => b ← evaluate expr event; Ok (negb b)
  end.

Definition parse_and_evaluate (condition : string) (event : EntityEvent) : result ObserverError bool :=
  ast ← Parser.parse condition; evaluate ast event.
End Evaluate.
End Evaluator.

#[local] Open Scope char_scope.
(** ** Lexing consumes its input *)
Module LexerFacts.
Import Lexer.

Lemma take_while_length p s : (String.length (take_while p s).2 <= String.length s)%nat.
Proof.
  induction s as [|c s IH]; cbn; [lia|]. destruct (p c); cbn; [|lia].
  destruct (take_while p s); cbn in *; lia.
Qed.

Lemma skip_while_length p s : (String.length (skip_while p s) <= String.length s)%nat.
Proof. apply take_while_length. Qed.

Lemma next_if_length c s s' : next_if c s = Some s' -> String.length s = S (String.length s').
Proof. destruct s as [|c' s]; cbn; [done|]. case_bool; [|done]. by intros [= ->]. Qed.

Lemma quoted_length s : (String.length (quoted s).2 <= String.length s)%nat.
Proof.
  unfold quoted. pose proof (take_while_length (fun c => negb (Ascii.eqb c quote)) s).
  destruct (take_while _ s) as [a [|c b]]; cbn in *; lia.
Qed.

Lemma args_loop_length fuel s args args' s' :
  args_loop fuel s args = Ok (args', s') -> (String.length s' <= String.length s)%nat.
Proof.
  revert s args. induction fuel as [|fuel IH]; intros s args; cbn [args_loop]; [intros [= _ <-]; lia|].
  pose proof (skip_while_length is_whitespace s) as Hs.
  destruct (next_if quote (skip_while is_whitespace s)) as [s1|] eqn:H1; [|intros [= _ <-]; lia].
  apply next_if_length in H1. pose proof (quoted_length s1) as Hq.
  destruct (quoted s1) as [arg s2]. case_bool_decide; [done|].
  pose proof (skip_while_length is_whitespace s2) as Hs2. cbn in *.
  destruct (next_if "," _) as [s3|] eqn:H3; [apply next_if_length in H3; intros ?%IH; lia|].
  destruct (next_if ")" _) as [s3|] eqn:H4; [apply next_if_length in H4|]; intros [= _ <-]; lia.
Qed.

Lemma lex_comparison_length ident s t s' :
  lex_comparison ident s = Ok (t, s') -> (String.length s' <= String.length s)%nat.
Proof.
  unfold lex_comparison. pose proof (take_while_length is_op_char s) as H1.
  destruct (take_while is_op_char s) as [op s1]. case_bool; [done|].
  pose proof (skip_while_length is_whitespace s1) as H2.
  destruct (next_if quote _) as [s2|] eqn:H3.
  - apply next_if_length in H3. pose proof (quoted_length s2). destruct (quoted s2). intros [= _ <-]. cbn in *. lia.
  - pose proof (take_while_length is_value_char (skip_while is_whitespace s1)).
    destruct (take_while is_value_char _). intros [= _ <-]. cbn in *. lia.
Qed.

Lemma lex_ident_length c s t s' :
  is_ident_char c = true -> lex_ident (String c s) = Ok (t, s') ->
  (String.length s' < String.length (String c s))%nat.
Proof.
  intros Hc. unfold lex_ident. cbn [take_while]. rewrite Hc.
  pose proof (take_while_length is_ident_char s) as H1. destruct (take_while is_ident_char s) as [ident s1].
  pose proof (skip_while_length is_whitespace s1) as H2. cbn [String.length snd] in *.
  destruct (next_if "(" _) as [s2|] eqn:H3.
  - apply next_if_length in H3. intros ([args s3] & Ha & [= _ <-])%bind_Ok. apply args_loop_length in Ha. lia.
  - intros H4%lex_comparison_length. lia.
Qed.

Lemma ident_start c : is_alphabetic c || Ascii.eqb c "_" = true -> is_ident_char c = true.
Proof. unfold is_ident_char, is_alphanumeric. by destruct (is_alphabetic c), (Ascii.eqb c "_"), (within "0" "9" c). Qed.

(** The fuel of the main loop does not matter once it exceeds the input. *)
Lemma lex_fuel s n m : (String.length s < n)%nat -> (String.length s < m)%nat -> lex n s = lex m s.
Proof.
  revert s m. induction n as [|n IH]; intros s [|m] Hn Hm; try lia. cbn [lex].
  destruct s as [|ch rest]; [done|]. cbn in Hn, Hm.
  repeat match goal with |- (if ?c then _ else _) = _ => destruct c eqn:? end; try done.
  all: try (rewrite (IH rest m) by lia; done).
  - destruct (next_if "&" rest) as [r|] eqn:H; [|done]. apply next_if_length in H. cbn.
    by rewrite (IH r m) by lia.
  - destruct (next_if "|" rest) as [r|] eqn:H; [|done]. apply next_if_length in H. cbn.
    by rewrite (IH r m) by lia.
  - destruct (lex_ident (String ch rest)) as [[t r]|e] eqn:H; [|done]. cbn.
    apply lex_ident_length in H; [|by apply ident_start]. cbn in H. by rewrite (IH r m) by lia.
Qed.

Definition lexes (s : string) : result ObserverError (list Token) := lex (S (String.length s)) s.

Lemma lex_lexes n s : (String.length s < n)%nat -> lex n s = lexes s.
Proof. intros. apply lex_fuel; lia. Qed.
End LexerFacts.

(** ** Printing then parsing *)
Module RoundTrip.
#[local] Arguments String.append !_ _ /.
Import Lexer LexerFacts Parser.

Fixpoint all_chars (p : ascii -> bool) (s : string) : bool :=
  match s with EmptyString => true | String c s => p c && all_chars p s end.

Definition wf_field (f : string) : bool :=
  match f with
  | String c s => (is_alphabetic c || Ascii.eqb c "_") && all_chars is_ident_char s
  | EmptyString => false
  end.
Definition wf_arg (s : string) : bool := all_chars (fun c => negb (Ascii.eqb c quote)) s.

(** Trees whose names are identifiers, whose unquoted values are numbers or
    words, and whose quoted values hold no quote. *)
Fixpoint wf_ast (a : ConditionAst) : bool :=
  match a with
  | Comparison field op value => wf_field field && is_operator op && all_chars is_value_char value
  | HasField field | FieldChanged field => wf_arg field
  | FieldChangedTo field value | FieldChangedFrom field value => wf_arg field && wf_arg value
  | And l r | Or l r => wf_ast l && wf_ast r
  | Not e => wf_ast e
  end.

(** The levels of nesting the printed form takes. *)
Fixpoint levels (a : ConditionAst) : nat :=
  match a with
  | And l r | Or l r => S (Nat.max (levels l) (levels r))
  | Not e => S (S (levels e))
  | _ => 1
  end.

Fixpoint tokens (a : ConditionAst) : list Token :=
  match a with
  | Comparison field op value => [TComparison field op value]
  | HasField field => [TFunction "has_field" [field]]
  | FieldChanged field => [TFunction "field_changed" [field]]
  | FieldChangedTo field value => [TFunction "field_changed_to" [field; value]]
  | FieldChangedFrom field value => [TFunction "field_changed_from" [field; value]]
  | And l r => TLParen :: tokens l ++ TRParen :: TAnd :: TLParen :: tokens r ++ [TRParen]
  | Or l r => TLParen :: tokens l ++ TRParen :: TOr :: TLParen :: tokens r ++ [TRParen]
  | Not e => TNot :: TLParen :: tokens e ++ [TRParen]
  end.

(** What follows a printed tree: nothing, or a closing parenthesis. *)
Definition follows (r : string) : Prop := r = EmptyString \/ exists r', r = String ")" r'.

Lemma take_while_app p s r :
  all_chars p s = true ->
  match r with EmptyString => True | String c _ => p c = false end ->
  take_while p (s ++ r) = (s, r).
Proof.
  induction s as [|c s IH]; cbn.
  - intros _. destruct r as [|c r]; cbn; [done|]. by intros ->.
  - intros [-> Hs]%andb_true_iff Hr. by rewrite IH.
Qed.

Lemma skip_while_cons p c s : p c = true -> skip_while p (String c s) = skip_while p s.
Proof. intros Hc. unfold skip_while. cbn. rewrite Hc. by destruct (take_while p s). Qed.

Lemma quoted_app s r : wf_arg s = true -> quoted (s ++ String quote r) = (s, r).
Proof. intros Hs. unfold quoted. by rewrite take_while_app. Qed.

Lemma skip_value s r :
  all_chars is_value_char s = true -> follows r -> skip_while is_whitespace (s ++ r) = (s ++ r)%string.
Proof.
  intros Hs Hr. destruct s as [|c s]; cbn in *.
  - by destruct Hr as [-> | [r' ->]].
  - apply andb_true_iff in Hs as [Hc _]. unfold skip_while. cbn.
    destruct (is_whitespace c) eqn:Hw; [|done]. exfalso. revert Hc Hw. by destruct c as [[] [] [] [] [] [] [] []].
Qed.

Lemma next_quote_value s r :
  all_chars is_value_char s = true -> follows r -> next_if quote (s ++ r) = None.
Proof.
  intros Hs Hr. destruct s as [|c s]; cbn in *.
  - by destruct Hr as [-> | [r' ->]].
  - apply andb_true_iff in Hs as [Hc _]. destruct (Ascii.eqb_spec c quote) as [->|]; done.
Qed.

Lemma lex_comparison_show field op value r :
  is_operator op = true -> all_chars is_value_char value = true -> follows r ->
  lex_comparison field (op ++ String " " (value ++ r)) = Ok (TComparison field op value, r).
Proof.
  intros Hop Hv Hr. unfold lex_comparison.
  assert (all_chars is_op_char op = true) as Ho.
  { unfold is_operator in Hop. rewrite !orb_true_iff, !streqb_true in Hop. naive_solver. }
  rewrite take_while_app by done. rewrite Hop. cbn [negb].
  rewrite skip_while_cons by done. rewrite skip_value, next_quote_value by done.
  rewrite take_while_app; [done|done|]. by destruct Hr as [-> | [r' ->]].
Qed.

Lemma lex_ident_comparison field op value r :
  wf_field field = true -> is_operator op = true -> all_chars is_value_char value = true -> follows r ->
  lex_ident (field ++ String " " (op ++ String " " (value ++ r))) = Ok (TComparison field op value, r).
Proof.
  intros Hf Hop Hv Hr. unfold lex_ident.
  assert (all_chars is_ident_char field = true) as Hi.
  { destruct field as [|c s]; [done|]. cbn in *. apply andb_true_iff in Hf as [Hc ->].
    by rewrite (ident_start c Hc). }
  rewrite take_while_app by done.
  rewrite <- (lex_comparison_show field op value r Hop Hv Hr).
  unfold is_operator in Hop. rewrite !orb_true_iff, !streqb_true in Hop.
  destruct Hop as [[[[[-> | ->] | ->] | ->] | ->] | ->]; reflexivity.
Qed.

Lemma args_loop_one fuel a r args :
  wf_arg a = true -> (length args < 32)%nat ->
  args_loop (S fuel) (String quote (a ++ String quote (String ")" r))) args = Ok (args ++ [a], r).
Proof.
  intros Ha Hl. cbn [args_loop]. unfold skip_while at 1. cbn [take_while is_whitespace].
  change (is_whitespace quote) with false. cbn [snd].
  change (next_if quote (String quote (a ++ String quote (String ")" r))))
    with (Some (a ++ String quote (String ")" r))%string).
  cbn iota beta. rewrite quoted_app by done. rewrite bool_decide_false by (unfold MAX_CONDITION_FUNCTION_ARGS; lia).
  reflexivity.
Qed.

Lemma args_loop_two fuel a b r :
  wf_arg a = true -> wf_arg b = true ->
  args_loop (S (S fuel))
    (String quote (a ++ String quote (String "," (String " " (String quote (b ++ String quote (String ")" r))))))) []
  = Ok ([a; b], r).
Proof.
  intros Ha Hb. change [a; b] with ([a] ++ [b]). rewrite <- (args_loop_one fuel b r [a]) by (done || (cbn; lia)).
  cbn [args_loop]. unfold skip_while at 1. cbn [take_while]. change (is_whitespace quote) with false. cbn [snd].
  match goal with |- context [next_if quote (String quote ?s)] =>
    change (next_if quote (String quote s)) with (Some s) end.
  cbn iota beta. rewrite quoted_app by done. reflexivity.
Qed.

Lemma lex_paren r : lexes (String "(" r) = (ts ← lexes r; Ok (TLParen :: ts)).
Proof. reflexivity. Qed.
Lemma lex_close r : lexes (String ")" r) = (ts ← lexes r; Ok (TRParen :: ts)).
Proof. reflexivity. Qed.
Lemma lex_not_paren r : lexes (String "!" (String "(" r)) = (ts ← lexes r; Ok (TNot :: TLParen :: ts)).
Proof.
  transitivity (ts ← (ts ← lexes r; Ok (TLParen :: ts)); Ok (TNot :: ts)); [reflexivity|].
  by destruct (lexes r).
Qed.

Lemma lex_blank r : lexes (String " " r) = lexes r.
Proof. reflexivity. Qed.
Lemma lex_and r : lexes (String "&" (String "&" r)) = (ts ← lexes r; Ok (TAnd :: ts)).
Proof.
  transitivity (ts ← lex (S (S (String.length r))) r; Ok (TAnd :: ts)); [reflexivity|].
  by rewrite lex_lexes by lia.
Qed.
Lemma lex_or r : lexes (String "|" (String "|" r)) = (ts ← lexes r; Ok (TOr :: ts)).
Proof.
  transitivity (ts ← lex (S (S (String.length r))) r; Ok (TOr :: ts)); [reflexivity|].
  by rewrite lex_lexes by lia.
Qed.

Lemma lex_token_ident c s t r :
  is_alphabetic c || Ascii.eqb c "_" = true -> lex_ident (String c s) = Ok (t, r) ->
  lexes (String c s) = (ts ← lexes r; Ok (t :: ts)).
Proof.
  intros Hc Ht. unfold lexes at 1. set (m := String.length (String c s)).
  assert (Hm : (String.length (String c s) <= m)%nat) by lia. clearbody m. cbn [lex].
  assert (Ascii.eqb c "(" = false /\ Ascii.eqb c ")" = false /\ Ascii.eqb c "!" = false /\
          Ascii.eqb c "&" = false /\ Ascii.eqb c "|" = false /\ is_blank c = false) as (-> & -> & -> & -> & -> & ->).
  { revert Hc. destruct c as [[] [] [] [] [] [] [] []]; cbn; done. }
  rewrite Hc, Ht. cbn [mbind result_bind]. apply lex_ident_length in Ht; [|by apply ident_start].
  by rewrite lex_lexes by lia.
Qed.

(** A call whose argument loop is known. *)
Lemma lex_call name s args r :
  wf_field name = true ->
  (forall fuel, args_loop (S (S fuel)) s [] = Ok (args, r)) ->
  lexes (name ++ String "(" s) = (ts ← lexes r; Ok (TFunction name args :: ts)).
Proof.
  intros Hn Ha. assert (lex_ident (name ++ String "(" s) = Ok (TFunction name args, r)) as Hl.
  { unfold lex_ident. assert (all_chars is_ident_char name = true) as Hi.
    { destruct name as [|c n]; [done|]. cbn in *. apply andb_true_iff in Hn as [Hc ->].
      by rewrite (ident_start c Hc). }
    rewrite take_while_app by done.
    change (next_if "(" (skip_while is_whitespace (String "(" s))) with (Some s). cbn iota beta.
    destruct s as [|c s]; [specialize (Ha O); cbn in *; by injection Ha as <- <-|]. cbn [String.length]. by rewrite Ha. }
  destruct name as [|c n]; [done|]. cbn in Hn. apply andb_true_iff in Hn as [Hc _].
  by apply lex_token_ident.
Qed.

Lemma lex_show a r :
  wf_ast a = true -> follows r -> lexes (show a ++ r) = (ts ← lexes r; Ok (tokens a ++ ts)).
Proof.
  assert (forall x, follows (String ")" x)) as Hf by (intros x; right; eauto).
  revert r. induction a as [field op value|field|field|field value|field value|l IHl rr IHr|l IHl rr IHr|e IHe];
    cbn [wf_ast show tokens]; intros r Hwf Hr.
  - apply andb_true_iff in Hwf as [[Hfld Hop]%andb_true_iff Hv].
    assert (Hfld' := Hfld). destruct field as [|c s]; [done|]. cbn in Hfld. apply andb_true_iff in Hfld as [Hc _].
    str_norm. rewrite (lex_token_ident c _ (TComparison (String c s) op value) r); [done|done|].
    by apply (lex_ident_comparison (String c s)).
  - apply (lex_call "has_field" _ [field] r); [done|]. intros fuel. str_norm.
    apply (args_loop_one (S fuel) field r []); [done|cbn; lia].
  - apply (lex_call "field_changed" _ [field] r); [done|]. intros fuel. str_norm.
    apply (args_loop_one (S fuel) field r []); [done|cbn; lia].
  - apply andb_true_iff in Hwf as [Hf1 Hf2].
    apply (lex_call "field_changed_to" _ [field; value] r); [done|]. intros fuel. str_norm.
    by apply args_loop_two.
  - apply andb_true_iff in Hwf as [Hf1 Hf2].
    apply (lex_call "field_changed_from" _ [field; value] r); [done|]. intros fuel. str_norm.
    by apply args_loop_two.
  - apply andb_true_iff in Hwf as [Hl Hrr].
    replace (("(" ++ show l ++ ") && (" ++ show rr ++ ")") ++ r)%string
      with (String "(" (show l ++ String ")" (String " " (String "&" (String "&" (String " " (String "(" (show rr ++ String ")" r))))))))%string
      by (by str_norm).
    rewrite lex_paren, IHl, lex_close, lex_blank, lex_and, lex_blank, lex_paren, IHr, lex_close by auto.
    destruct (lexes r); cbn; [|done]. by repeat (rewrite <- app_assoc; cbn).
  - apply andb_true_iff in Hwf as [Hl Hrr].
    replace (("(" ++ show l ++ ") || (" ++ show rr ++ ")") ++ r)%string
      with (String "(" (show l ++ String ")" (String " " (String "|" (String "|" (String " " (String "(" (show rr ++ String ")" r))))))))%string
      by (by str_norm).
    rewrite lex_paren, IHl, lex_close, lex_blank, lex_or, lex_blank, lex_paren, IHr, lex_close by auto.
    destruct (lexes r); cbn; [|done]. by repeat (rewrite <- app_assoc; cbn).
  - replace (("!(" ++ show e ++ ")") ++ r)%string with (String "!" (String "(" (show e ++ String ")" r)))%string
      by (by str_norm).
    rewrite lex_not_paren, IHe, lex_close by auto. destruct (lexes r); cbn; [|done].
    by repeat (rewrite <- app_assoc; cbn).
Qed.

(** What may follow an expression: the end, or a closing parenthesis. *)
Definition stops (ts : list Token) : Prop :=
  match ts with [] | TRParen :: _ => True | _ => False end.

Lemma and_loop_stops p n l ts :
  match ts with TAnd :: _ => False | _ => True end -> and_loop p n l ts = Ok (l, ts).
Proof. destruct n; [done|]. by destruct ts as [|[] ts]. Qed.
Lemma or_loop_stops p n l ts :
  match ts with TOr :: _ => False | _ => True end -> or_loop p n l ts = Ok (l, ts).
Proof. destruct n; [done|]. by destruct ts as [|[] ts]. Qed.

Lemma parse_or_operand p a ts rest :
  p ts = Ok (a, rest) -> stops rest -> parse_or p ts = Ok (a, rest).
Proof.
  intros Hp Hr. unfold parse_or, parse_and. rewrite Hp. cbn [mbind result_bind].
  rewrite and_loop_stops by (by destruct rest as [|[] ?]). cbn [mbind result_bind].
  by rewrite or_loop_stops by (by destruct rest as [|[] ?]).
Qed.

Lemma parse_or_tokens a n rest :
  (levels a <= n)%nat -> stops rest -> parse_or (parse_not n) (tokens a ++ rest) = Ok (a, rest).
Proof.
  revert n rest.
  assert (forall a n rest,
    (forall m rest, (levels a <= m)%nat -> stops rest -> parse_or (parse_not m) (tokens a ++ rest) = Ok (a, rest)) ->
    (S (levels a) <= n)%nat ->
    parse_not n (TLParen :: tokens a ++ TRParen :: rest) = Ok (a, rest)) as Hparen.
  { clear. intros a [|n] rest IH Hn; [lia|]. cbn [parse_not parse_primary].
    rewrite IH by (done || lia). done. }
  induction a as [field op value|field|field|field value|field value|l IHl r IHr|l IHl r IHr|e IHe];
    intros [|n] rest Hn Hr; cbn [levels] in Hn; try lia; cbn [tokens app];
    rewrite <- ?app_assoc, <- ?app_comm_cons, <- ?app_assoc; cbn [app].
  1-5: by apply parse_or_operand.
  - unfold parse_or, parse_and. rewrite Hparen by (done || lia). cbn [mbind result_bind length and_loop].
    rewrite Hparen by (done || lia). by destruct rest as [|[] rest].
  - unfold parse_or, parse_and. rewrite Hparen by (done || lia). cbn [mbind result_bind].
    rewrite and_loop_stops by done. cbn [mbind result_bind length or_loop]. unfold parse_and.
    rewrite Hparen by (done || lia). by destruct rest as [|[] rest].
  - apply parse_or_operand; [|done]. cbn [parse_not]. rewrite Hparen by (done || lia). done.
Qed.

(** C35. A condition whose comparisons have plain values (words and numbers, which
    need no quotes), whose fields are identifiers and whose arguments hold no
    quote ([wf_ast]), printed, parses back to the same tree: printing keeps the
    structure the parser sees (operator precedence, nesting, arguments), and
    the two limits are the only reason to refuse it.  A comparison with a value
    that needs its quotes is printed without them ([quotes_dropped]). *)
Theorem parse_show a :
  wf_ast a = true -> (levels a <= S MAX_CONDITION_DEPTH)%nat ->
  (String.length (show a) <= MAX_CONDITION_INPUT_BYTES)%nat ->
  parse (show a) = Ok a.
Proof.
  intros Hwf Hl Hs. unfold parse, tokenize. rewrite bool_decide_false by lia.
  fold (lexes (show a)). assert (show a = show a ++ "")%string as Hnil.
  { clear. induction (show a) as [|c s IH]; [done|]. cbn. by rewrite <- IH. }
  rewrite Hnil, lex_show by (done || by left).
  change (lexes "") with (Ok [] : result ObserverError (list Token)). cbn [mbind result_bind].
  unfold parse_tokens. by rewrite parse_or_tokens.
Qed.

Definition demo_ast : ConditionAst :=
  Or (And (Comparison "total" ">=" "10.5") (Not (HasField "deleted_at")))
     (FieldChangedTo "status" "shipped, at last").

(** What is printed of a parsed condition need not parse, or parses to another
    tree: the quotes of a value are not printed. *)
Example quotes_dropped :
  let a := Comparison "status" "==" "in progress" in
  let b := Comparison "a" "==" "1 || b == 2" in
  parse "status == 'in progress'" = Ok a /\ show a = "status == in progress"%string /\ is_ok (parse (show a)) = false
  /\ parse "a == '1 || b == 2'" = Ok b /\ parse (show b) = Ok (Or (Comparison "a" "==" "1") (Comparison "b" "==" "2"))
  /\ wf_ast a = false /\ wf_ast b = false.
Proof. vm_compute. done. Qed.

Lemma parse_show_witness : parse (show demo_ast) = Ok demo_ast.
Proof.
  apply (parse_show demo_ast); [reflexivity | vm_compute; repeat constructor | apply Nat.leb_le; vm_compute; reflexivity].
Defined.
End RoundTrip.

#[local] Close Scope char_scope.

(** ** The loops of the parser run to their end *)
Module ParserFacts.
Import Lexer Parser.

Definition shrinks (p : Parse) : Prop :=
  forall ts a ts', p ts = Ok (a, ts') -> (length ts' < length ts)%nat.

Lemma and_loop_complete p n l ts a ts' :
  shrinks p -> (length ts <= n)%nat -> and_loop p n l ts = Ok (a, ts') ->
  (length ts' <= length ts)%nat /\ match ts' with TAnd :: _ => False | _ => True end.
Proof.
  intros Hp. revert l ts. induction n as [|n IH]; intros l ts Hn; cbn [and_loop].
  - destruct ts; [|cbn in Hn; lia]. by intros [= _ <-].
  - destruct ts as [|[] ts]; try (by intros [= _ <-]); [].
    intros ([r ts1] & H1%Hp & H2)%bind_Ok. cbn in Hn. apply IH in H2 as [? ?]; [|lia]. cbn. split; [lia|done].
Qed.

Lemma parse_and_shrinks p : shrinks p -> shrinks (parse_and p).
Proof.
  intros Hp ts a ts' ([l ts1] & H1%Hp & H2)%bind_Ok. apply and_loop_complete in H2 as [? _]; [lia|done|done].
Qed.

Lemma or_loop_complete p n l ts a ts' :
  shrinks p -> (length ts <= n)%nat -> or_loop p n l ts = Ok (a, ts') ->
  (length ts' <= length ts)%nat /\ match ts' with TOr :: _ => False | _ => True end.
Proof.
  intros Hp%parse_and_shrinks. revert l ts. induction n as [|n IH]; intros l ts Hn; cbn [or_loop].
  - destruct ts; [|cbn in Hn; lia]. by intros [= _ <-].
  - destruct ts as [|[] ts]; try (by intros [= _ <-]); [].
    intros ([r ts1] & H1%Hp & H2)%bind_Ok. cbn in Hn. apply IH in H2 as [? ?]; [|lia]. cbn. split; [lia|done].
Qed.

Lemma parse_or_shrinks p : shrinks p -> shrinks (parse_or p).
Proof.
  intros Hp ts a ts' ([l ts1] & H1%(parse_and_shrinks _ Hp) & H2)%bind_Ok.
  apply or_loop_complete in H2 as [? _]; [lia|done|done].
Qed.

Lemma parse_not_shrinks n : shrinks (parse_not n).
Proof.
  induction n as [|n IH]; intros ts a ts'; cbn [parse_not]; [done|].
  destruct ts as [|t ts]; [done|]. destruct t; cbn [parse_primary]; try done.
  - intros [= _ <-]. cbn. lia.
  - intros (ast & _ & [= _ <-])%bind_Ok. cbn. lia.
  - intros ([e ts1] & H1%IH & [= _ <-])%bind_Ok. cbn. lia.
  - intros ([e ts1] & H1%(parse_or_shrinks _ IH) & H2)%bind_Ok.
    destruct ts1 as [|[] ts1]; try done. injection H2 as _ <-. cbn in *. lia.
Qed.
End ParserFacts.

(** ** Evaluation *)
Module EvaluatorFacts.
Import Evaluator Event.

Section Facts.
Context (from_str : string -> option json).

(** Negation distributes over the short-circuit operators, errors and the
    operands they skip included. *)
Theorem evaluate_de_morgan l r e :
  evaluate from_str (Not (And l r)) e = evaluate from_str (Or (Not l) (Not r)) e /\
  evaluate from_str (Not (Or l r)) e = evaluate from_str (And (Not l) (Not r)) e.
Proof.
  cbn. destruct (evaluate from_str l e) as [[]|?]; cbn; [|done..]; by destruct (evaluate from_str r e).
Qed.

(** A JSON integer as [serde_json] holds it. *)
Definition json_int (n : Z) : json := JNumber (if 0 <=? n then PosInt n else NegInt n).
Definition is_i64 (n : Z) : Prop := - 2 ^ 63 <= n < 2 ^ 63.

Definition int_op (op : string) : Z -> Z -> bool :=
  if op =s "==" then Z.eqb
  else if op =s "!=" then fun x y => negb (x =? y)
  else if op =s ">" then Z.gtb
  else if op =s "<" then Z.ltb
  else if op =s ">=" then Z.geb
  else Z.leb.

Lemma as_i64_int n : is_i64 n -> as_i64 (json_int n) = Some n.
Proof.
  unfold is_i64, json_int, as_i64, i64_max. intros Hn. destruct (0 <=? n); [|done].
  by rewrite (proj2 (Z.leb_le _ _)) by lia.
Qed.

Lemma json_int_eqb x y : json_eqb (json_int x) (json_int y) = (x =? y).
Proof.
  unfold json_int. destruct (Z.leb_spec 0 x), (Z.leb_spec 0 y); cbn; try done;
    symmetry; apply Z.eqb_neq; lia.
Qed.

(** Integers compare exactly over the whole [i64] range, with every operator. *)
Theorem integer_comparison_exact field op value x y e :
  Lexer.is_operator op = true -> is_i64 x -> is_i64 y ->
  json_get e.(data) field = Some (json_int x) -> from_str value = Some (json_int y) ->
  evaluate from_str (Comparison field op value) e = Ok (int_op op x y).
Proof.
  intros Hop Hx Hy Hf Hv. cbn. unfold eval_comparison, literal. rewrite Hf, Hv. cbn [ok_or mbind result_bind default].
  unfold Datatypes.id, compare_ordered. rewrite !as_i64_int, json_int_eqb by done.
  unfold Lexer.is_operator in Hop. rewrite !orb_true_iff, !streqb_true in Hop.
  destruct Hop as [[[[[-> | ->] | ->] | ->] | ->] | ->]; cbn; try done;
    unfold Z.gtb, Z.ltb, Z.geb, Z.leb; by destruct (x ?= y).
Qed.

(** A quoted literal that reads as JSON is not a string: a text field never
    equals it, even with the same text. *)
Theorem quoted_literal_not_text field value v e :
  json_get e.(data) field = Some (JString value) -> from_str value = Some v ->
  match v with JString _ => False | _ => True end ->
  evaluate from_str (Comparison field "==" value) e = Ok false /\
  evaluate from_str (Comparison field "!=" value) e = Ok true.
Proof.
  intros Hf Hv Hs. cbn. unfold eval_comparison, literal. rewrite Hf, Hv. by destruct v.
Qed.
End Facts.

(** A reader of small decimal numbers. *)
Definition read_digits (s : string) : option json :=
  if s =s "12345" then Some (JNumber (PosInt 12345))
  else if s =s "9007199254740993" then Some (JNumber (PosInt 9007199254740993))
  else None.
Definition demo_event (v : json) : EntityEvent :=
  mkEvent "1" Created "Address" "7" (JObject [("zip", v)]) None None None 0.

Lemma integer_comparison_exact_witness :
  evaluate read_digits (Comparison "zip" ">" "9007199254740993")
    (demo_event (json_int 9007199254740994)) = Ok true.
Proof.
  apply (integer_comparison_exact read_digits "zip" ">" "9007199254740993" 9007199254740994 9007199254740993
           (demo_event (json_int 9007199254740994))); try reflexivity; split; vm_compute; congruence.
Defined.

Lemma quoted_literal_not_text_witness :
  evaluate read_digits (Comparison "zip" "==" "12345") (demo_event (JString "12345")) = Ok false /\
  evaluate read_digits (Comparison "zip" "!=" "12345") (demo_event (JString "12345")) = Ok true.
Proof.
  apply (quoted_literal_not_text read_digits "zip" "12345" (JNumber (PosInt 12345)) (demo_event (JString "12345")));
    reflexivity || exact I.
Defined.

(** A malformed call is accepted: the lexer closes an open parenthesis and an
    open quote at the end of the input. *)
Theorem unclosed_call_accepted :
  Parser.parse "has_field('email" = Ok (HasField "email") /\
  Parser.parse "has_field('email'" = Ok (HasField "email").
Proof. by vm_compute. Qed.
End EvaluatorFacts.
