(* ===== verification/WhereClause.v ===== *)
(** * WHERE clauses

    crates/fraiseql-db/src/where_clause.rs: the operators, the clause tree and
    its construction from the JSON of a GraphQL argument; filters/operators.rs:
    the operators of rich scalar types; utils.rs: snake case;
    crates/fraiseql-error/src/core_error.rs: the two errors this code returns.

    Letters are the ASCII ones: a name with other upper-case letters is left
    as it is where the source lowers it. *)

From S2P Require Import Prelude Json.
From Stdlib Require Import Ascii SpecFloat.

Definition f32 : Type := spec_float.

Inductive ExtendedOperator : Type :=
| EmailDomainEq (s : string)
| EmailDomainIn (l : list string)
| EmailDomainEndswith (s : string)
| EmailLocalPartStartswith (s : string)
| PhoneCountryCodeEq (s : string)
| PhoneCountryCodeIn (l : list string)
| PhoneIsValid (b : bool)
| PhoneTypeEq (s : string)
| UrlProtocolEq (s : string)
| UrlHostEq (s : string)
| UrlPathStartswith (s : string)
| DomainNameTldEq (s : string)
| DomainNameTldIn (l : list string)
| HostnameIsFqdn (b : bool)
| HostnameDepthEq (n : Z)
| PostalCodeCountryEq (s : string)
| PostalCodeFormatValidForCountry (s : string)
| LatitudeWithinRange (min : f64) (max : f64)
| LatitudeHemisphereEq (s : string)
| LongitudeWithinRange (min : f64) (max : f64)
| LongitudeHemisphereEq (s : string)
| CoordinatesDistanceWithin (lat : f64) (lng : f64) (radius_km : f64)
| CoordinatesWithinBoundingBox (north : f64) (south : f64) (east : f64) (west : f64)
| CoordinatesWithinPolygon (points : list (f64 * f64))
| TimezoneOffsetEq (n : Z)
| TimezoneHasDst (b : bool)
| TimezoneRegionEq (s : string)
| LocaleCodeLanguageEq (s : string)
| LocaleCodeCountryEq (s : string)
| LocaleCodeScriptEq (s : string)
| LanguageCodeFamilyEq (s : string)
| CountryCodeContinentEq (s : string)
| CountryCodeRegionEq (s : string)
| CountryCodeInEu (b : bool)
| CountryCodeInSchengen (b : bool)
| IbanCountryEq (s : string)
| IbanCountryIn (l : list string)
| IbanIsValid (b : bool)
| CusipIssuerTypeEq (s : string)
| IsinCountryEq (s : string)
| IsinAssetClassEq (s : string)
| SedolCountryEq (s : string)
| LeiEntityCategoryEq (s : string)
| MicCountryEq (s : string)
| MicSegmentEq (s : string)
| CurrencyCodeRegionEq (s : string)
| CurrencyCodeDecimalPlacesEq (n : Z)
| MoneyInCurrency (s : string)
| ExchangeCodeCountryEq (s : string)
| ExchangeRateCurrencyPairEq (s : string)
| StockSymbolExchangeEq (s : string)
| StockSymbolSectorEq (s : string)
| SlugDepthEq (n : Z)
| SlugSegmentEq (s : string)
| SemanticVersionMajorEq (n : Z)
| SemanticVersionMinorEq (n : Z)
| SemanticVersionPatchEq (n : Z)
| SemanticVersionHasPrerelease (b : bool)
| HashSha256LengthEq (n : Z)
| ApiKeyLengthEq (n : Z)
| ApiKeyPrefixEq (s : string)
| LicensePlateCountryEq (s : string)
| LicensePlateFormatValidForCountry (s : string)
| VinWmiEq (s : string)
| VinWmiIn (l : list string)
| VinCountryEq (s : string)
| VinModelYearEq (n : Z)
| VinIsValid (b : bool)
| TrackingNumberCarrierEq (s : string)
| TrackingNumberFormatValidForCarrier (s : string)
| ContainerNumberOwnerEq (s : string)
| ContainerNumberIsValid (b : bool)
| IpAddressVersionEq (n : Z)
| IpAddressIsPrivate (b : bool)
| Ipv4CidrContains (s : string)
| Ipv4IsMulticast (b : bool)
| Ipv4IsReserved (b : bool)
| Ipv6CidrContains (s : string)
| Ipv6IsMulticast (b : bool)
| MacAddressVendorEq (s : string)
| MacAddressOuiIn (l : list string)
| MacAddressIsUnicast (b : bool)
| CidrOverlapsWith (s : string)
| CidrContainsIp (s : string)
| CidrVersionEq (n : Z)
| PortServiceEq (s : string)
| PortIsWellKnown (b : bool)
| PortIsRegistered (b : bool)
| AirportCodeCountryEq (s : string)
| AirportCodeIsMajor (b : bool)
| PortCodeCountryEq (s : string)
| FlightNumberAirlineEq (s : string)
| FlightNumberAircraftTypeEq (s : string)
| MarkdownIsValid (b : bool)
| HtmlIsValid (b : bool)
| HtmlContainsTag (s : string)
| MimeTypeTypeEq (s : string)
| MimeTypeSubtypeEq (s : string)
| MimeTypeCharsetEq (s : string)
| ColorHexEq (s : string)
| ColorRgbInRange (r : Z * Z) (g : Z * Z) (b : Z * Z)
| ColorHslInRange (h : Z * Z) (s : Z * Z) (l : Z * Z)
| ImageFormatEq (s : string)
| ImageWidthGte (n : Z)
| ImageHeightGte (n : Z)
| ImageSizeLte (n : Z)
| FileExtensionEq (s : string)
| FileMimeTypeEq (s : string)
| FileSizeLte (n : Z)
| LtreeDepthEq (n : Z)
| LtreeAncestorEq (s : string)
| LtreeDescendantEq (s : string)
| DateRangeDurationGte (n : Z)
| DateRangeStartsAfter (s : string)
| DateRangeEndsBefore (s : string)
| DurationTotalSecondsEq (n : Z)
| DurationTotalMinutesGte (n : Z)
| PercentageInRange (min : f32) (max : f32)
| PercentagePercentileEq (x : f32).

(** [Display]. *)
Definition ExtendedOperator_display (op : ExtendedOperator) : string :=
  match op with
  | EmailDomainEq _ => "email_domain_eq"
  | EmailDomainIn _ => "email_domain_in"
  | EmailDomainEndswith _ => "email_domain_endswith"
  | EmailLocalPartStartswith _ => "email_local_part_startswith"
  | PhoneCountryCodeEq _ => "phone_country_code_eq"
  | PhoneCountryCodeIn _ => "phone_country_code_in"
  | PhoneIsValid _ => "phone_is_valid"
  | PhoneTypeEq _ => "phone_type_eq"
  | UrlProtocolEq _ => "url_protocol_eq"
  | UrlHostEq _ => "url_host_eq"
  | UrlPathStartswith _ => "url_path_startswith"
  | DomainNameTldEq _ => "domain_name_tld_eq"
  | DomainNameTldIn _ => "domain_name_tld_in"
  | HostnameIsFqdn _ => "hostname_is_fqdn"
  | HostnameDepthEq _ => "hostname_depth_eq"
  | PostalCodeCountryEq _ => "postal_code_country_eq"
  | PostalCodeFormatValidForCountry _ => "postal_code_format_valid_for_country"
  | LatitudeWithinRange _ _ => "latitude_within_range"
  | LatitudeHemisphereEq _ => "latitude_hemisphere_eq"
  | LongitudeWithinRange _ _ => "longitude_within_range"
  | LongitudeHemisphereEq _ => "longitude_hemisphere_eq"
  | CoordinatesDistanceWithin _ _ _ => "coordinates_distance_within"
  | CoordinatesWithinBoundingBox _ _ _ _ => "coordinates_within_bounding_box"
  | CoordinatesWithinPolygon _ => "coordinates_within_polygon"
  | TimezoneOffsetEq _ => "timezone_offset_eq"
  | TimezoneHasDst _ => "timezone_has_dst"
  | TimezoneRegionEq _ => "timezone_region_eq"
  | LocaleCodeLanguageEq _ => "locale_code_language_eq"
  | LocaleCodeCountryEq _ => "locale_code_country_eq"
  | LocaleCodeScriptEq _ => "locale_code_script_eq"
  | LanguageCodeFamilyEq _ => "language_code_family_eq"
  | CountryCodeContinentEq _ => "country_code_continent_eq"
  | CountryCodeRegionEq _ => "country_code_region_eq"
  | CountryCodeInEu _ => "country_code_in_eu"
  | CountryCodeInSchengen _ => "country_code_in_schengen"
  | IbanCountryEq _ => "iban_country_eq"
  | IbanCountryIn _ => "iban_country_in"
  | IbanIsValid _ => "iban_is_valid"
  | CusipIssuerTypeEq _ => "cusip_issuer_type_eq"
  | IsinCountryEq _ => "isin_country_eq"
  | IsinAssetClassEq _ => "isin_asset_class_eq"
  | SedolCountryEq _ => "sedol_country_eq"
  | LeiEntityCategoryEq _ => "lei_entity_category_eq"
  | MicCountryEq _ => "mic_country_eq"
  | MicSegmentEq _ => "mic_segment_eq"
  | CurrencyCodeRegionEq _ => "currency_code_region_eq"
  | CurrencyCodeDecimalPlacesEq _ => "currency_code_decimal_places_eq"
  | MoneyInCurrency _ => "money_in_currency"
  | ExchangeCodeCountryEq _ => "exchange_code_country_eq"
  | ExchangeRateCurrencyPairEq _ => "exchange_rate_currency_pair_eq"
  | StockSymbolExchangeEq _ => "stock_symbol_exchange_eq"
  | StockSymbolSectorEq _ => "stock_symbol_sector_eq"
  | SlugDepthEq _ => "slug_depth_eq"
  | SlugSegmentEq _ => "slug_segment_eq"
  | SemanticVersionMajorEq _ => "semantic_version_major_eq"
  | SemanticVersionMinorEq _ => "semantic_version_minor_eq"
  | SemanticVersionPatchEq _ => "semantic_version_patch_eq"
  | SemanticVersionHasPrerelease _ => "semantic_version_has_prerelease"
  | HashSha256LengthEq _ => "hash_sha256_length_eq"
  | ApiKeyLengthEq _ => "api_key_length_eq"
  | ApiKeyPrefixEq _ => "api_key_prefix_eq"
  | LicensePlateCountryEq _ => "license_plate_country_eq"
  | LicensePlateFormatValidForCountry _ => "license_plate_format_valid_for_country"
  | VinWmiEq _ => "vin_wmi_eq"
  | VinWmiIn _ => "vin_wmi_in"
  | VinCountryEq _ => "vin_country_eq"
  | VinModelYearEq _ => "vin_model_year_eq"
  | VinIsValid _ => "vin_is_valid"
  | TrackingNumberCarrierEq _ => "tracking_number_carrier_eq"
  | TrackingNumberFormatValidForCarrier _ => "tracking_number_format_valid_for_carrier"
  | ContainerNumberOwnerEq _ => "container_number_owner_eq"
  | ContainerNumberIsValid _ => "container_number_is_valid"
  | IpAddressVersionEq _ => "ip_address_version_eq"
  | IpAddressIsPrivate _ => "ip_address_is_private"
  | Ipv4CidrContains _ => "ipv4_cidr_contains"
  | Ipv4IsMulticast _ => "ipv4_is_multicast"
  | Ipv4IsReserved _ => "ipv4_is_reserved"
  | Ipv6CidrContains _ => "ipv6_cidr_contains"
  | Ipv6IsMulticast _ => "ipv6_is_multicast"
  | MacAddressVendorEq _ => "mac_address_vendor_eq"
  | MacAddressOuiIn _ => "mac_address_oui_in"
  | MacAddressIsUnicast _ => "mac_address_is_unicast"
  | CidrOverlapsWith _ => "cidr_overlaps_with"
  | CidrContainsIp _ => "cidr_contains_ip"
  | CidrVersionEq _ => "cidr_version_eq"
  | PortServiceEq _ => "port_service_eq"
  | PortIsWellKnown _ => "port_is_well_known"
  | PortIsRegistered _ => "port_is_registered"
  | AirportCodeCountryEq _ => "airport_code_country_eq"
  | AirportCodeIsMajor _ => "airport_code_is_major"
  | PortCodeCountryEq _ => "port_code_country_eq"
  | FlightNumberAirlineEq _ => "flight_number_airline_eq"
  | FlightNumberAircraftTypeEq _ => "flight_number_aircraft_type_eq"
  | MarkdownIsValid _ => "markdown_is_valid"
  | HtmlIsValid _ => "html_is_valid"
  | HtmlContainsTag _ => "html_contains_tag"
  | MimeTypeTypeEq _ => "mime_type_type_eq"
  | MimeTypeSubtypeEq _ => "mime_type_subtype_eq"
  | MimeTypeCharsetEq _ => "mime_type_charset_eq"
  | ColorHexEq _ => "color_hex_eq"
  | ColorRgbInRange _ _ _ => "color_rgb_in_range"
  | ColorHslInRange _ _ _ => "color_hsl_in_range"
  | ImageFormatEq _ => "image_format_eq"
  | ImageWidthGte _ => "image_width_gte"
  | ImageHeightGte _ => "image_height_gte"
  | ImageSizeLte _ => "image_size_lte"
  | FileExtensionEq _ => "file_extension_eq"
  | FileMimeTypeEq _ => "file_mime_type_eq"
  | FileSizeLte _ => "file_size_lte"
  | LtreeDepthEq _ => "ltree_depth_eq"
  | LtreeAncestorEq _ => "ltree_ancestor_eq"
  | LtreeDescendantEq _ => "ltree_descendant_eq"
  | DateRangeDurationGte _ => "date_range_duration_gte"
  | DateRangeStartsAfter _ => "date_range_starts_after"
  | DateRangeEndsBefore _ => "date_range_ends_before"
  | DurationTotalSecondsEq _ => "duration_total_seconds_eq"
  | DurationTotalMinutesGte _ => "duration_total_minutes_gte"
  | PercentageInRange _ _ => "percentage_in_range"
  | PercentagePercentileEq _ => "percentage_percentile_eq"
  end.
(** ** Operators *)
Module Op.

Inductive WhereOperator : Type :=
| Eq | Neq | Gt | Gte | Lt | Lte | In | Nin | Contains | Icontains | Startswith
| Istartswith | Endswith | Iendswith | Like | Ilike | Nlike | Nilike | Regex | Iregex
| Nregex | Niregex | IsNull | ArrayContains | ArrayContainedBy | ArrayOverlaps | LenEq
| LenGt | LenLt | LenGte | LenLte | LenNeq | CosineDistance | L2Distance | L1Distance
| HammingDistance | InnerProduct | JaccardDistance | Matches | PlainQuery | PhraseQuery
| WebsearchQuery | IsIPv4 | IsIPv6 | IsPrivate | IsPublic | IsLoopback | InSubnet
| ContainsSubnet | ContainsIP | Overlaps | StrictlyContains | AncestorOf | DescendantOf
| MatchesLquery | MatchesLtxtquery | MatchesAnyLquery | DepthEq | DepthNeq | DepthGt
| DepthGte | DepthLt | DepthLte | Lca
| Extended (op : ExtendedOperator).
Definition is_extended (op : WhereOperator) : bool :=
  match op with Extended _ => true | _ => false end.

Definition expects_array (op : WhereOperator) : bool :=
  match op with In | Nin => true | _ => false end.
Definition is_case_insensitive (op : WhereOperator) : bool :=
  match op with
  | Icontains | Istartswith | Iendswith | Ilike | Nilike | Iregex | Niregex => true
  | _ => false
  end.
Definition is_string_operator (op : WhereOperator) : bool :=
  match op with
  | Contains | Icontains | Startswith | Istartswith | Endswith | Iendswith
  | Like | Ilike | Nlike | Nilike | Regex | Iregex | Nregex | Niregex => true
  | _ => false
  end.

(** The arms of [from_str], in order. *)
Definition operator_table : list (string * WhereOperator) :=
  [("eq", Eq); ("neq", Neq); ("gt", Gt); ("gte", Gte); ("lt", Lt); ("lte", Lte); ("in", In);
   ("nin", Nin); ("notin", Nin); ("contains", Contains); ("icontains", Icontains);
   ("startswith", Startswith); ("istartswith", Istartswith); ("endswith", Endswith);
   ("iendswith", Iendswith); ("like", Like); ("ilike", Ilike); ("nlike", Nlike);
   ("nilike", Nilike); ("regex", Regex); ("iregex", Iregex); ("imatches", Iregex);
   ("nregex", Nregex); ("not_matches", Nregex); ("niregex", Niregex); ("isnull", IsNull);
   ("array_contains", ArrayContains); ("array_contained_by", ArrayContainedBy);
   ("array_overlaps", ArrayOverlaps); ("len_eq", LenEq); ("len_gt", LenGt); ("len_lt", LenLt);
   ("len_gte", LenGte); ("len_lte", LenLte); ("len_neq", LenNeq);
   ("cosine_distance", CosineDistance); ("l2_distance", L2Distance);
   ("l1_distance", L1Distance); ("hamming_distance", HammingDistance);
   ("inner_product", InnerProduct); ("jaccard_distance", JaccardDistance); ("matches", Matches);
   ("plain_query", PlainQuery); ("phrase_query", PhraseQuery);
   ("websearch_query", WebsearchQuery); ("is_ipv4", IsIPv4); ("is_ipv6", IsIPv6);
   ("is_private", IsPrivate); ("is_public", IsPublic); ("is_loopback", IsLoopback);
   ("in_subnet", InSubnet); ("inrange", InSubnet); ("contains_subnet", ContainsSubnet);
   ("contains_ip", ContainsIP); ("overlaps", Overlaps); ("strictly_contains", StrictlyContains);
   ("ancestor_of", AncestorOf); ("descendant_of", DescendantOf);
   ("matches_lquery", MatchesLquery); ("matches_ltxtquery", MatchesLtxtquery);
   ("matches_any_lquery", MatchesAnyLquery); ("depth_eq", DepthEq); ("depth_neq", DepthNeq);
   ("depth_gt", DepthGt); ("depth_gte", DepthGte); ("depth_lt", DepthLt);
   ("depth_lte", DepthLte); ("lca", Lca)].
(** The name the table gives an operator first. *)
Definition op_name (op : WhereOperator) : string :=
  match op with
  | Eq => "eq"
  | Neq => "neq"
  | Gt => "gt"
  | Gte => "gte"
  | Lt => "lt"
  | Lte => "lte"
  | In => "in"
  | Nin => "nin"
  | Contains => "contains"
  | Icontains => "icontains"
  | Startswith => "startswith"
  | Istartswith => "istartswith"
  | Endswith => "endswith"
  | Iendswith => "iendswith"
  | Like => "like"
  | Ilike => "ilike"
  | Nlike => "nlike"
  | Nilike => "nilike"
  | Regex => "regex"
  | Iregex => "iregex"
  | Nregex => "nregex"
  | Niregex => "niregex"
  | IsNull => "isnull"
  | ArrayContains => "array_contains"
  | ArrayContainedBy => "array_contained_by"
  | ArrayOverlaps => "array_overlaps"
  | LenEq => "len_eq"
  | LenGt => "len_gt"
  | LenLt => "len_lt"
  | LenGte => "len_gte"
  | LenLte => "len_lte"
  | LenNeq => "len_neq"
  | CosineDistance => "cosine_distance"
  | L2Distance => "l2_distance"
  | L1Distance => "l1_distance"
  | HammingDistance => "hamming_distance"
  | InnerProduct => "inner_product"
  | JaccardDistance => "jaccard_distance"
  | Matches => "matches"
  | PlainQuery => "plain_query"
  | PhraseQuery => "phrase_query"
  | WebsearchQuery => "websearch_query"
  | IsIPv4 => "is_ipv4"
  | IsIPv6 => "is_ipv6"
  | IsPrivate => "is_private"
  | IsPublic => "is_public"
  | IsLoopback => "is_loopback"
  | InSubnet => "in_subnet"
  | ContainsSubnet => "contains_subnet"
  | ContainsIP => "contains_ip"
  | Overlaps => "overlaps"
  | StrictlyContains => "strictly_contains"
  | AncestorOf => "ancestor_of"
  | DescendantOf => "descendant_of"
  | MatchesLquery => "matches_lquery"
  | MatchesLtxtquery => "matches_ltxtquery"
  | MatchesAnyLquery => "matches_any_lquery"
  | DepthEq => "depth_eq"
  | DepthNeq => "depth_neq"
  | DepthGt => "depth_gt"
  | DepthGte => "depth_gte"
  | DepthLt => "depth_lt"
  | DepthLte => "depth_lte"
  | Lca => "lca"
  | Extended _ => ""
  end.
End Op.

(** ** Errors *)

(** A message that prints an operator with its derived [Debug] keeps the
    operator in place of its text. *)
Inductive message : Type :=
| Text (s : string)
| DebugOp (before : string) (op : Op.WhereOperator) (after : string).

Inductive FraiseQLError : Type :=
| Parse (m location : string)
| Validation (m : message) (path : option string)
| UnknownField (field type_name : string)
| UnknownType (type_name : string)
| Database (m : string) (sql_state : option string)
| ConnectionPool (m : string)
| QueryTimeout (timeout_ms : Z) (query : option string)
| Cancelled (query_id reason : string)
| Authorization (m : string) (action resource : option string)
| Authentication (m : string)
| RateLimited (m : string) (retry_after_secs : Z)
| NotFound (resource_type identifier : string)
| Conflict (m : string)
| Configuration (m : string)
| Unsupported (m : string)
| Internal (m : message) (source : option string).

Module CoreError.
Definition is_client_error (e : FraiseQLError) : bool :=
  match e with
  | Parse _ _ | Validation _ _ | UnknownField _ _ | UnknownType _ | Authorization _ _ _
  | Authentication _ | NotFound _ _ | Conflict _ | RateLimited _ _ => true
  | _ => false
  end.
Definition is_server_error (e : FraiseQLError) : bool :=
  match e with
  | Database _ _ | ConnectionPool _ | QueryTimeout _ _ | Cancelled _ _ | Configuration _
  | Unsupported _ | Internal _ _ => true
  | _ => false
  end.
Definition is_retryable (e : FraiseQLError) : bool :=
  match e with ConnectionPool _ | QueryTimeout _ _ | Cancelled _ _ => true | _ => false end.
Definition status_code (e : FraiseQLError) : Z :=
  match e with
  | Parse _ _ | Validation _ _ | UnknownField _ _ | UnknownType _ => 400
  | Authentication _ => 401
  | Authorization _ _ _ => 403
  | NotFound _ _ => 404
  | Conflict _ => 409
  | RateLimited _ _ => 429
  | QueryTimeout _ _ | Cancelled _ _ => 408
  | Database _ _ | ConnectionPool _ | Configuration _ | Internal _ _ => 500
  | Unsupported _ => 501
  end.
Definition error_code (e : FraiseQLError) : string :=
  match e with
  | Parse _ _ => "GRAPHQL_PARSE_FAILED"
  | Validation _ _ => "GRAPHQL_VALIDATION_FAILED"
  | UnknownField _ _ => "UNKNOWN_FIELD"
  | UnknownType _ => "UNKNOWN_TYPE"
  | Database _ _ => "DATABASE_ERROR"
  | ConnectionPool _ => "CONNECTION_POOL_ERROR"
  | QueryTimeout _ _ => "TIMEOUT"
  | Cancelled _ _ => "CANCELLED"
  | Authorization _ _ _ => "FORBIDDEN"
  | Authentication _ => "UNAUTHENTICATED"
  | RateLimited _ _ => "RATE_LIMITED"
  | NotFound _ _ => "NOT_FOUND"
  | Conflict _ => "CONFLICT"
  | Configuration _ => "CONFIGURATION_ERROR"
  | Unsupported _ => "UNSUPPORTED_OPERATION"
  | Internal _ _ => "INTERNAL_SERVER_ERROR"
  end.

(** What the code of a PostgreSQL error becomes. *)
Definition from_postgres_code (code m : string) : FraiseQLError :=
  if code =s "42P01" then Database ("The table or view you're querying doesn't exist. " ++
    "Check that the schema is compiled and the database is initialized.") (Some code)
  else if code =s "42703" then Database ("A column referenced in the query doesn't exist in the table. " ++
    "This may indicate the database schema is out of sync with the compiled schema.") (Some code)
  else if code =s "23505" then
    Conflict "A unique constraint was violated. This value already exists in the database."
  else if code =s "23503" then
    Conflict "A foreign key constraint was violated. The referenced record doesn't exist."
  else if code =s "23502" then Conflict "A NOT NULL constraint was violated. The field cannot be empty."
  else if code =s "22P02" then
    Validation (Text "Invalid input value. The provided value doesn't match the expected data type.") None
  else Database m (Some code).

(** An error is the client's or the server's, and its status says which,
    timeouts and cancellations apart: the server's by kind, 408 by status. *)
Lemma status_by_side e :
  is_client_error e = negb (is_server_error e) /\
  (is_client_error e = true -> 400 <= status_code e < 500) /\
  (is_server_error e = true -> 500 <= status_code e < 600 \/ status_code e = 408).
Proof. destruct e; cbn; repeat split; try done; lia. Qed.
End CoreError.

Definition validation (s : string) : FraiseQLError := Validation (Text s) None.

Module OpParse.

Definition from_str (s : string) : result FraiseQLError Op.WhereOperator :=
  match assoc s Op.operator_table with
  | Some op => Ok op
  | None => Err (validation ("Unknown WHERE operator: " ++ s))
  end.

Lemma assoc_In {A} k (l : list (string * A)) v : assoc k l = Some v -> List.In (k, v) l.
Proof.
  induction l as [|[k' w] l IH]; cbn; [done|].
  destruct (String.eqb_spec k' k) as [->|]; [intros [= ->]; by left | intros ?; right; auto].
Qed.

Lemma from_str_not_extended s op : from_str s = Ok op -> Op.is_extended op = false.
Proof.
  unfold from_str. destruct (assoc s Op.operator_table) as [o|] eqn:E; [|done]. intros [= <-].
  apply assoc_In in E.
  assert (H : Forall (fun kv => Op.is_extended kv.2 = false) Op.operator_table)
    by (repeat constructor).
  rewrite Forall_forall in H. exact (H _ E).
Qed.

Lemma from_str_op_name op : Op.is_extended op = false -> from_str (Op.op_name op) = Ok op.
Proof. by destruct op. Qed.
End OpParse.

(** ** Snake case *)

Definition ascii_upper (c : ascii) : bool :=
  ((65 <=? nat_of_ascii c) && (nat_of_ascii c <=? 90))%nat.
Definition ascii_lower (c : ascii) : ascii :=
  if ascii_upper c then ascii_of_nat (nat_of_ascii c + 32) else c.
Fixpoint to_lowercase (s : string) : string :=
  match s with EmptyString => EmptyString | String c s => String (ascii_lower c) (to_lowercase s) end.

Fixpoint snake_from (first : bool) (s : string) : string :=
  match s with
  | EmptyString => ""
  | String ch s =>
      if ascii_upper ch && negb first
      then String "_" (String (ascii_lower ch) (snake_from false s))
      else String ch (snake_from false s)
  end.
Definition to_snake_case (name : string) : string := snake_from true name.

(** ** Clauses *)
Inductive WhereClause : Type :=
| Field (path : list string) (operator : Op.WhereOperator) (value : json)
| And (clauses : list WhereClause)
| Or (clauses : list WhereClause)
| Not (inner : WhereClause)
| NativeField (column pg_cast : string) (operator : Op.WhereOperator) (value : json).

(** Induction that reaches the clauses of a list. *)
Section ClauseInd.
Variable P : WhereClause -> Prop.
Hypothesis Hfield : forall p o v, P (Field p o v).
Hypothesis Hand : forall l, Forall P l -> P (And l).
Hypothesis Hor : forall l, Forall P l -> P (Or l).
Hypothesis Hnot : forall c, P c -> P (Not c).
Hypothesis Hnative : forall c p o v, P (NativeField c p o v).

Fixpoint clause_ind' (c : WhereClause) : P c :=
  let go := (fix go (l : list WhereClause) : Forall P l :=
    match l with [] => Forall_nil_2 _ | x :: l => Forall_cons_2 _ x l (clause_ind' x) (go l) end) in
  match c with
  | Field p o v => Hfield p o v
  | And l => Hand l (go l)
  | Or l => Hor l (go l)
  | Not c => Hnot c (clause_ind' c)
  | NativeField c p o v => Hnative c p o v
  end.
End ClauseInd.

Definition is_empty (c : WhereClause) : bool :=
  match c with And l | Or l => Nat.eqb (length l) 0 | _ => false end.

Fixpoint native_column_names (c : WhereClause) : list string :=
  match c with
  | And l | Or l => flat_map native_column_names l
  | Not inner => native_column_names inner
  | NativeField column _ _ _ => [column]
  | Field _ _ _ => []
  end.

(** ** Construction from JSON *)
Module FromJson.

(** [obj.iter()] with the early return of [?]: what each entry adds, in order. *)
Fixpoint flat_result {A B} (f : A -> result FraiseQLError (list B)) (l : list A)
  : result FraiseQLError (list B) :=
  match l with
  | [] => Ok []
  | x :: l =>
      match f x with
      | Err e => Err e
      | Ok ys => match flat_result f l with Err e => Err e | Ok zs => Ok (ys ++ zs) end
      end
  end.

(** [iter().map(f).collect::<Result<Vec<_>>>()]. *)
Fixpoint collect {A B} (f : A -> result FraiseQLError B) (l : list A)
  : result FraiseQLError (list B) :=
  match l with
  | [] => Ok []
  | x :: l =>
      match f x with
      | Err e => Err e
      | Ok y => match collect f l with Err e => Err e | Ok ys => Ok (y :: ys) end
      end
  end.

Definition finish (conditions : list WhereClause) : WhereClause :=
  match conditions with [c] => c | _ => And conditions end.

Definition not_an_object : FraiseQLError := validation "where clause must be a JSON object".

(** What one entry [key: val] of a where object adds to [conditions].  The
    source re-enters [parse_where_object] with the one-entry object
    [{op_str: op_val}] for a nested relation; here that entry is read directly
    ([nested_reenters] is the source's form). *)
Fixpoint entry (key : string) (val : json) (path_prefix : list string) {struct val}
  : result FraiseQLError (list WhereClause) :=
  let parse (v : json) : result FraiseQLError WhereClause :=
    match v with
    | JObject obj =>
        match flat_result (fun kv => entry kv.1 kv.2 path_prefix) obj with
        | Ok conditions => Ok (finish conditions) | Err e => Err e
        end
    | _ => Err not_an_object
    end in
  if key =s "_and" then
    match val with
    | JArray arr => match collect parse arr with Ok sub => Ok [And sub] | Err e => Err e end
    | _ => Err (validation "_and must be an array")
    end
  else if key =s "_or" then
    match val with
    | JArray arr => match collect parse arr with Ok sub => Ok [Or sub] | Err e => Err e end
    | _ => Err (validation "_or must be an array")
    end
  else if key =s "_not" then
    match parse val with Ok sub => Ok [Not sub] | Err e => Err e end
  else
    match val with
    | JObject ops =>
        let field_path := path_prefix ++ [to_snake_case key] in
        flat_result (fun kv =>
          match OpParse.from_str kv.1 with
          | Ok operator => Ok [Field field_path operator kv.2]
          | Err e =>
              match kv.2 with
              | JObject _ =>
                  match entry kv.1 kv.2 field_path with
                  | Ok conditions => Ok [finish conditions] | Err e => Err e
                  end
              | _ => Err e
              end
          end) ops
    | _ => Err (validation ("where field '" ++ key ++ "' must be an object of {operator: value}"))
    end.

Definition parse_where_object (value : json) (path_prefix : list string)
  : result FraiseQLError WhereClause :=
  match value with
  | JObject obj =>
      match flat_result (fun kv => entry kv.1 kv.2 path_prefix) obj with
      | Ok conditions => Ok (finish conditions) | Err e => Err e
      end
  | _ => Err not_an_object
  end.

Definition from_graphql_json (value : json) : result FraiseQLError WhereClause :=
  parse_where_object value [].

Lemma nested_reenters op_str op_val field_path :
  parse_where_object (JObject [(op_str, op_val)]) field_path =
  match entry op_str op_val field_path with
  | Ok conditions => Ok (finish conditions) | Err e => Err e
  end.
Proof. cbn. destruct (entry op_str op_val field_path); [by rewrite app_nil_r | done]. Qed.

(** The source's equations. *)
Lemma entry_and arr pre :
  entry "_and" (JArray arr) pre =
  match collect (fun v => parse_where_object v pre) arr with Ok sub => Ok [And sub] | Err e => Err e end.
Proof. reflexivity. Qed.
Lemma entry_or arr pre :
  entry "_or" (JArray arr) pre =
  match collect (fun v => parse_where_object v pre) arr with Ok sub => Ok [Or sub] | Err e => Err e end.
Proof. reflexivity. Qed.
Lemma entry_not v pre :
  entry "_not" v pre = match parse_where_object v pre with Ok sub => Ok [Not sub] | Err e => Err e end.
Proof. by destruct v. Qed.

Definition is_combinator (key : string) : bool := (key =s "_and") || (key =s "_or") || (key =s "_not").

Definition field_op (field_path : list string) (kv : string * json)
  : result FraiseQLError (list WhereClause) :=
  match OpParse.from_str kv.1 with
  | Ok operator => Ok [Field field_path operator kv.2]
  | Err e =>
      match kv.2 with
      | JObject _ =>
          match parse_where_object (JObject [kv]) field_path with
          | Ok nested => Ok [nested] | Err e => Err e
          end
      | _ => Err e
      end
  end.

Lemma entry_field key ops pre : is_combinator key = false ->
  entry key (JObject ops) pre = flat_result (field_op (pre ++ [to_snake_case key])) ops.
Proof.
  unfold is_combinator. intros Hk.
  apply orb_false_iff in Hk as [Hk Hn]. apply orb_false_iff in Hk as [Ha Ho].
  cbn [entry]. rewrite Ha, Ho, Hn. induction ops as [|[k v] ops IH]; [done|].
  cbn [flat_result]. unfold field_op at 1. cbn [fst snd].
  destruct (OpParse.from_str k); [by rewrite IH|]. destruct v; try done.
  rewrite nested_reenters. destruct (entry k _ _); [by rewrite IH|done].
Qed.
End FromJson.

(** ** What comes out of a GraphQL argument *)
Module FromJsonFacts.
Import FromJson.

(** No native column, no rich-type operator and no field without a name. *)
Fixpoint plain (c : WhereClause) : bool :=
  match c with
  | Field path op _ => negb (Op.is_extended op) && negb (bool_decide (path = []))
  | And l | Or l => forallb plain l
  | Not c => plain c
  | NativeField _ _ _ _ => false
  end.

Lemma finish_plain cs : forallb plain cs = true -> plain (finish cs) = true.
Proof. destruct cs as [|c [|d cs]]; cbn; rewrite ?andb_true_r; done. Qed.

Lemma flat_result_plain {A} (f : A -> result FraiseQLError (list WhereClause)) l cs :
  Forall (fun x => forall ys, f x = Ok ys -> forallb plain ys = true) l ->
  flat_result f l = Ok cs -> forallb plain cs = true.
Proof.
  intros Hl. revert cs. induction Hl as [|x l Hx Hl IH]; cbn; intros cs; [by intros [= <-]|].
  destruct (f x) as [ys|]; [|done]. destruct (flat_result f l) as [zs|]; [|done].
  intros [= <-]. rewrite forallb_app, (Hx ys) by done. by apply IH.
Qed.

Lemma collect_plain {A} (f : A -> result FraiseQLError WhereClause) l cs :
  Forall (fun x => forall y, f x = Ok y -> plain y = true) l ->
  collect f l = Ok cs -> forallb plain cs = true.
Proof.
  intros Hl. revert cs. induction Hl as [|x l Hx Hl IH]; cbn; intros cs; [by intros [= <-]|].
  destruct (f x) as [y|]; [|done]. destruct (collect f l) as [ys|]; [|done].
  intros [= <-]. cbn. rewrite (Hx y) by done. by apply IH.
Qed.

Definition yields_plain (v : json) : Prop :=
  (forall key pre cs, entry key v pre = Ok cs -> forallb plain cs = true) /\
  (forall pre c, parse_where_object v pre = Ok c -> plain c = true).

Lemma field_op_plain path kv ys :
  path <> [] -> yields_plain kv.2 -> field_op path kv = Ok ys -> forallb plain ys = true.
Proof.
  destruct kv as [k v]. intros Hne [He _]. unfold field_op; cbn [fst snd].
  destruct (OpParse.from_str k) as [op|] eqn:Hop.
  - intros [= <-]. cbn. by rewrite (OpParse.from_str_not_extended _ _ Hop), bool_decide_eq_false_2.
  - destruct v; try done. rewrite nested_reenters.
    destruct (entry k _ path) as [cs|] eqn:E; [|done]. intros [= <-]. cbn.
    by rewrite finish_plain by eauto.
Qed.

Lemma entry_plain key v pre cs :
  (forall pre c, parse_where_object v pre = Ok c -> plain c = true) ->
  (match v with
   | JObject ops => Forall (fun kv => yields_plain kv.2) ops
   | JArray arr => Forall yields_plain arr
   | _ => True
   end) ->
  entry key v pre = Ok cs -> forallb plain cs = true.
Proof.
  intros Hv Hsub.
  destruct (String.eqb_spec key "_and") as [->|Ha].
  { destruct v; try done. rewrite entry_and. destruct (collect _ l) as [sub|] eqn:E; [|done].
    intros [= <-]. cbn. rewrite andb_true_r. eapply collect_plain; [|done].
    eapply list.Forall_impl; [exact Hsub|]; intros w [_ Hw]. eauto. }
  destruct (String.eqb_spec key "_or") as [->|Ho].
  { destruct v; try done. rewrite entry_or. destruct (collect _ l) as [sub|] eqn:E; [|done].
    intros [= <-]. cbn. rewrite andb_true_r. eapply collect_plain; [|done].
    eapply list.Forall_impl; [exact Hsub|]; intros w [_ Hw]. eauto. }
  destruct (String.eqb_spec key "_not") as [->|Hn].
  { rewrite entry_not. destruct (parse_where_object v pre) eqn:E; [|done]. intros [= <-]. cbn.
    by rewrite (Hv _ _ E). }
  apply String.eqb_neq in Ha, Ho, Hn.
  destruct v; try (cbn; rewrite Ha, Ho, Hn; done).
  rewrite entry_field by (unfold is_combinator; by rewrite Ha, Ho, Hn).
  apply flat_result_plain. eapply list.Forall_impl; [exact Hsub|]. intros kv ? ys. apply field_op_plain; [by destruct pre|done].
Qed.

Lemma parse_plain l :
  Forall (fun kv => yields_plain kv.2) l ->
  forall pre c, parse_where_object (JObject l) pre = Ok c -> plain c = true.
Proof.
  intros Hl pre c. unfold parse_where_object.
  destruct (flat_result _ l) as [cs|] eqn:E; [|done]. intros [= <-]. apply finish_plain.
  revert E. apply flat_result_plain. eapply list.Forall_impl; [exact Hl|].
  intros [k v] [Hk _] ys. cbn. apply Hk.
Qed.

Lemma yields_plain_all v : yields_plain v.
Proof.
  induction v as [| | | |l IH|l IH] using json_ind';
    (split; [intros key pre cs; apply entry_plain; [|done]|]); try done; by apply parse_plain.
Qed.

Lemma from_graphql_plain v c : from_graphql_json v = Ok c -> plain c = true.
Proof. apply yields_plain_all. Qed.

(** [_and] and [_or] are read as operators inside a relation, where [_not] is
    a combinator. *)
Lemma nested_and_rejected name arr :
  is_combinator name = false ->
  from_graphql_json (JObject [(name, JObject [("_and", JArray arr)])]) =
  Err (validation "Unknown WHERE operator: _and").
Proof. intros Hn. unfold from_graphql_json. by rewrite nested_reenters, entry_field. Qed.

Lemma nested_not_accepted name v c :
  is_combinator name = false -> parse_where_object v [to_snake_case name] = Ok c ->
  from_graphql_json (JObject [(name, JObject [("_not", v)])]) =
  match v with JObject _ => Ok (Not c) | _ => Err (validation "Unknown WHERE operator: _not") end.
Proof.
  intros Hn Hc. unfold from_graphql_json. rewrite nested_reenters, entry_field by done.
  destruct v; try done. cbn [flat_result]. unfold field_op; cbn [fst snd].
  change (OpParse.from_str "_not") with (Err (A := Op.WhereOperator) (validation "Unknown WHERE operator: _not")).
  cbv beta iota. rewrite nested_reenters, entry_not, app_nil_l, Hc. done.
Qed.

(** *** Printing a clause as the JSON of a where argument *)
(** A field may be spelled in camel case, which no operator is: [isPrivate] is
    the field [is_private], [is_private] the operator. *)
Fixpoint camel (s : string) : string :=
  match s with
  | String "_" (String c s) => String (ascii_of_nat (nat_of_ascii c - 32)) (camel s)
  | String c s => String c (camel s)
  | EmptyString => ""
  end.
Definition is_operator (s : string) : bool := is_ok (OpParse.from_str s).
Definition spell (s : string) : string := if is_operator s then camel s else s.

Fixpoint nest (path : list string) (op : Op.WhereOperator) (v : json) : json :=
  match path with
  | [] => JObject [(Op.op_name op, v)]
  | p :: path => JObject [(spell p, nest path op v)]
  end.

Fixpoint to_json (c : WhereClause) : json :=
  match c with
  | Field path op v => nest path op v
  | And l => JObject [("_and", JArray (map to_json l))]
  | Or l => JObject [("_or", JArray (map to_json l))]
  | Not c => JObject [("_not", to_json c)]
  | NativeField _ _ _ _ => JNull
  end.

(** The clauses this spelling serves: names in snake case that are not
    combinators and, below the first, not spelled like an operator. *)
Definition good_name (s : string) : bool := (to_snake_case (spell s) =s s) && negb (is_combinator (spell s)).
Definition good_inner (s : string) : bool := good_name s && negb (is_operator (spell s)).

Fixpoint spellable (c : WhereClause) : bool :=
  match c with
  | Field (p :: path) op _ => negb (Op.is_extended op) && good_name p && forallb good_inner path
  | Field [] _ _ => false
  | And l | Or l => forallb spellable l
  | Not c => spellable c
  | NativeField _ _ _ _ => false
  end.

Lemma entry_nest op v p path pre :
  Op.is_extended op = false -> good_name p = true -> forallb good_inner path = true ->
  entry (spell p) (nest path op v) pre = Ok [Field (pre ++ p :: path) op v].
Proof.
  intros Hop. revert p pre. induction path as [|q path IH]; intros p pre Hp Hpath;
    apply andb_true_iff in Hp as [Hsnake Hcomb]; apply String.eqb_eq in Hsnake; apply negb_true_iff in Hcomb;
    cbn [nest]; rewrite entry_field by done; cbn [flat_result]; rewrite Hsnake; unfold field_op; cbn [fst snd].
  - by rewrite OpParse.from_str_op_name.
  - cbn in Hpath. apply andb_true_iff in Hpath as [Hq Hpath]. apply andb_true_iff in Hq as [Hq Hnop].
    unfold is_operator in Hnop. destruct (OpParse.from_str (spell q)) eqn:Eq; [done|].
    rewrite nested_reenters, (IH q _ Hq Hpath). cbn.
    rewrite <- app_assoc. cbn. by destruct path.
Qed.

Lemma collect_map {A B} (f : B -> result FraiseQLError A) (g : A -> B) l :
  Forall (fun x => f (g x) = Ok x) l -> collect f (map g l) = Ok l.
Proof. induction 1 as [|x l Hx Hl IH]; cbn; [done|]. by rewrite Hx, IH. Qed.

Lemma Forall_spellable (P : WhereClause -> Prop) l :
  Forall (fun c => spellable c = true -> P c) l -> forallb spellable l = true -> Forall P l.
Proof.
  induction 1 as [|c l Hc Hl IH]; cbn; [constructor|]. intros [Hs ?]%andb_true_iff.
  constructor; auto.
Qed.

Lemma combinator_no_field p v pre path op w : is_combinator p = true -> entry p v pre <> Ok [Field path op w].
Proof.
  unfold is_combinator. intros [[->%String.eqb_eq| ->%String.eqb_eq]%orb_true_iff| ->%String.eqb_eq]%orb_true_iff.
  - destruct v; try done. rewrite entry_and. by destruct (collect _ _).
  - destruct v; try done. rewrite entry_or. by destruct (collect _ _).
  - rewrite entry_not. by destruct (parse_where_object _ _).
Qed.

Lemma plain_ih (P : WhereClause -> Prop) l :
  Forall (fun c => P c -> plain c = true -> spellable c = true) l -> forallb plain l = true ->
  Forall (fun c => P c -> spellable c = true) l.
Proof.
  induction 1 as [|c l Hc Hl IH]; cbn; [constructor|]. intros [? ?]%andb_true_iff. constructor; auto.
Qed.

(** Conversely, what reads back as one field whose path ends in the names
    nested was spelled with good names. *)
Lemma entry_nest_inv op v path : Op.is_extended op = false -> forall p pre pre' op' v',
  length pre' = length pre -> entry (spell p) (nest path op v) pre = Ok [Field (pre' ++ p :: path) op' v'] ->
  pre' = pre /\ good_name p = true /\ forallb good_inner path = true.
Proof.
  intros Hop. induction path as [|q path IH]; intros p pre pre' op' v' Hl He.
  all: destruct (is_combinator (spell p)) eqn:Hcomb; [by apply combinator_no_field in He|].
  all: cbn [nest] in He; rewrite entry_field in He by done; cbn [flat_result] in He; unfold field_op in He; cbn [fst snd] in He.
  - rewrite OpParse.from_str_op_name in He by done. injection He as Hpath _ _.
    apply app_inj_tail in Hpath as [<- Hp]. unfold good_name. by rewrite Hp, String.eqb_refl, Hcomb.
  - destruct (OpParse.from_str (spell q)) eqn:Eq.
    { injection He as Hpath _ _. apply (f_equal length) in Hpath. rewrite !length_app in Hpath. cbn in Hpath. lia. }
    assert (exists o, nest path op v = JObject o) as [o Ho] by (destruct path; by eexists).
    rewrite Ho, nested_reenters, <- Ho in He.
    destruct (entry (spell q) _ _) as [cs|] eqn:E; [|done]. injection He as Hf.
    destruct cs as [|c [|? cs]]; try done. cbn in Hf. subst c.
    assert (pre' ++ p :: q :: path = (pre' ++ [p]) ++ q :: path) as Ha by (by rewrite <- app_assoc).
    rewrite Ha in E. apply IH in E as (Hpre & Hq & Hpath); [|rewrite !length_app; cbn; lia].
    apply app_inj_tail in Hpre as [-> Hp]. unfold good_name. rewrite <- Hp, String.eqb_refl, Hcomb.
    split_and!; [done..|]. cbn. unfold good_inner at 1, is_operator. by rewrite Hq, Eq, Hpath.
Qed.

Lemma collect_map_inv {B} (f : B -> result FraiseQLError WhereClause) (g : WhereClause -> B) l l' :
  collect f (map g l) = Ok l' -> Forall2 (fun x y => f (g x) = Ok y) l l'.
Proof.
  revert l'. induction l as [|x l IH]; cbn; intros l'; [intros [= <-]; constructor|].
  destruct (f (g x)) eqn:E; [|done]. destruct (collect f _) eqn:El; [|done]. intros [= <-]. constructor; auto.
Qed.

Lemma collect_spellable l :
  Forall (fun c => from_graphql_json (to_json c) = Ok c -> spellable c = true) l ->
  collect (fun v => parse_where_object v []) (map to_json l) = Ok l -> forallb spellable l = true.
Proof.
  intros Hl He%collect_map_inv. induction Hl as [|c l Hc Hl IH]; inversion He as [|? ? ? ? Hp Hps]; subst; cbn; [done|].
  by rewrite Hc, IH.
Qed.

(** C6. A clause comes back from the JSON written for it as it was exactly when
    it is [spellable]: no rich-type operator, no native column, and each field
    path is not empty and made of names in snake case that are not combinators
    and, below the first, not operators without an underscore ([is_private] is
    written [isPrivate]; a relation's field called [matches] or [in] has no
    spelling: [relation_fields]). *)
Theorem where_json_roundtrip c : from_graphql_json (to_json c) = Ok c <-> spellable c = true.
Proof.
  split.
  - intros Hc. pose proof (from_graphql_plain _ _ Hc) as Hp. revert Hc Hp. unfold from_graphql_json.
    induction c as [path op v|l IH|l IH|c IH|] using clause_ind'; cbn [spellable plain to_json]; intros Hc Hp; [..|done].
    + apply andb_true_iff in Hp as [Hop Hne%negb_true_iff%bool_decide_eq_false]. destruct path as [|p path]; [done|].
      rewrite Hop. apply negb_true_iff in Hop. cbn [nest] in Hc. rewrite nested_reenters in Hc.
      destruct (entry (spell p) _ _) as [cs|] eqn:E; [|done]. injection Hc as Hf.
      destruct cs as [|c [|? cs]]; try done. cbn in Hf. subst c.
      apply (entry_nest_inv op v path Hop p [] []) in E as (_ & -> & ->); done.
    + rewrite nested_reenters, entry_and in Hc. destruct (collect _ _) eqn:E; [|done]. injection Hc as ->.
      apply collect_spellable; [|done]. clear E. apply plain_ih; [exact IH|exact Hp].
    + rewrite nested_reenters, entry_or in Hc. destruct (collect _ _) eqn:E; [|done]. injection Hc as ->.
      apply collect_spellable; [|done]. clear E. apply plain_ih; [exact IH|exact Hp].
    + rewrite nested_reenters, entry_not in Hc. destruct (parse_where_object _ _) eqn:E; [|done]. injection Hc as ->. auto.
  - unfold from_graphql_json.
    induction c as [path op v|l IH|l IH|c IH|] using clause_ind'; cbn [spellable]; intros Hs; [..|done].
    + destruct path as [|p path]; [done|]. repeat rewrite andb_true_iff in Hs. destruct Hs as [[Hop Hp] Hpath].
      apply negb_true_iff in Hop. cbn [to_json nest]. rewrite nested_reenters.
      by rewrite (entry_nest op v p path []).
    + cbn [to_json]. rewrite nested_reenters, entry_and, collect_map; [done|]. by apply Forall_spellable.
    + cbn [to_json]. rewrite nested_reenters, entry_or, collect_map; [done|]. by apply Forall_spellable.
    + cbn [to_json]. by rewrite nested_reenters, entry_not, IH.
Qed.

(** A relation's field that is spelled like an operator is read as that operator
    on the relation, with the field's own filter as its value; the camel-case
    spelling, where it differs, and [_not] avoid it. *)
Example relation_fields :
  let eq_true := JObject [("eq", JBool true)] in
  map from_graphql_json
    [JObject [("device", JObject [("is_private", eq_true)])];
     JObject [("device", JObject [("isPrivate", eq_true)])];
     JObject [("device", JObject [("matches", eq_true)])];
     JObject [("device", JObject [("_not", JObject [("matches", eq_true)])])]]
  = [Ok (Field ["device"] Op.IsPrivate eq_true);
     Ok (Field ["device"; "is_private"] Op.Eq (JBool true));
     Ok (Field ["device"] Op.Matches eq_true);
     Ok (Not (Field ["device"; "matches"] Op.Eq (JBool true)))]
  /\ to_json (Field ["device"; "is_private"] Op.Eq (JBool true)) = JObject [("device", JObject [("isPrivate", eq_true)])]
  /\ spellable (Field ["device"; "is_private"] Op.Eq (JBool true)) = true
  /\ spellable (Field ["device"; "matches"] Op.Eq (JBool true)) = false.
Proof. by vm_compute. Qed.
End FromJsonFacts.

Lemma where_json_roundtrip_witness :
  let c := And [Field ["machine"; "is_private"; "serial_no"] Op.Icontains (JString "x'9");
                Not (Or [Field ["age"] Op.Gte (JNumber (PosInt 18))])] in
  FromJsonFacts.spellable c = true /\
  FromJson.from_graphql_json (FromJsonFacts.to_json c) = Ok c.
Proof.
  cbv zeta. split; [vm_compute; reflexivity|].
  apply (proj2 (FromJsonFacts.where_json_roundtrip _)). vm_compute. reflexivity.
Defined.
