(* ===== verification/SqlDialect.v ===== *)
(** * SQL dialects

    crates/fraiseql-db/src/dialect/: the rendering primitives of a dialect
    (trait_def.rs, a [Record]) and the four dialects (postgres.rs, mysql.rs,
    sqlite.rs, sqlserver.rs); path_escape.rs and identifier.rs: how names
    reach the SQL text. *)

From S2P Require Import Prelude Json WhereClause.
From Stdlib Require Import Ascii.
From stdpp Require Import pretty.
#[local] Open Scope Z_scope.
#[local] Open Scope string_scope.

Definition dquote : ascii := "034".
Definition dq : string := String dquote "".

(** [str::replace] of one ASCII character. *)
Fixpoint replace_char (c : ascii) (r s : string) : string :=
  match s with
  | EmptyString => EmptyString
  | String x s => if Ascii.eqb x c then r ++ replace_char c r s else String x (replace_char c r s)
  end.

(** [str::split] on one ASCII character. *)
Fixpoint split_char (c : ascii) (s : string) : list string :=
  match s with
  | EmptyString => [""]
  | String x s =>
      if Ascii.eqb x c then "" :: split_char c s
      else match split_char c s with
           | [] => [String x ""]
           | w :: ws => String x w :: ws
           end
  end.

(** [escape_like_literal] of where_generator/generic.rs. *)
Definition escape_like_literal (s : string) : string :=
  replace_char "_" "\_" (replace_char "%" "\%" (replace_char "\" "\\" s)).

(** ** Path segments *)
Module PathEscape.

Definition escape_postgres_jsonb_segment (segment : string) : string := replace_char "'" "''" segment.
Definition escape_postgres_jsonb_path (path : list string) : list string :=
  map escape_postgres_jsonb_segment path.
Definition escape_mysql_json_path (path : list string) : string :=
  "$." ++ replace_char "'" "''" (String.concat "." path).
Definition escape_sqlite_json_path (path : list string) : string :=
  "$." ++ replace_char "'" "''" (String.concat "." path).
Definition escape_sqlserver_json_path (path : list string) : string :=
  "$." ++ replace_char "'" "''" (String.concat "." path).
End PathEscape.

(** ** Schema-qualified identifiers *)
Module Identifier.

Definition quote_postgres_identifier (identifier : string) : string :=
  String.concat "." (map (fun part => dq ++ replace_char dquote (dq ++ dq) part ++ dq) (split_char "." identifier)).
Definition quote_mysql_identifier (identifier : string) : string :=
  String.concat "." (map (fun part => "`" ++ replace_char "`" "``" part ++ "`") (split_char "." identifier)).
Definition quote_sqlite_identifier (identifier : string) : string :=
  String.concat "." (map (fun part => dq ++ replace_char dquote (dq ++ dq) part ++ dq) (split_char "." identifier)).
Definition quote_sqlserver_identifier (identifier : string) : string :=
  String.concat "." (map (fun part => "[" ++ replace_char "]" "]]" part ++ "]") (split_char "." identifier)).
End Identifier.

(** ** The interface *)
Inductive RowViewColumnType : Type :=
| Text | Int32 | Int64 | Float64 | Boolean | Uuid | Timestamptz | Json | Date.

Record UnsupportedOperator : Type := mkUnsupported { uo_dialect : string; uo_operator : string }.

Definition UnsupportedOperator_display (e : UnsupportedOperator) : string :=
  "operator `" ++ e.(uo_operator) ++ "` is not supported by the " ++ e.(uo_dialect) ++ " dialect".

Definition sql : Type := result UnsupportedOperator string.

Record SqlDialect : Type := mkDialect {
  name : string;
  quote_identifier : string -> string;
  json_extract_scalar : string -> list string -> string;
  placeholder : Z -> string;
  cast_to_numeric : string -> string;
  cast_to_boolean : string -> string;
  cast_param_numeric : string -> string;
  cast_native_param : string -> string -> string;
  like_sql : string -> string -> string;
  ilike_sql : string -> string -> string;
  concat_sql : list string -> string;
  always_false : string;
  always_true : string;
  neq_operator : string;
  json_array_length : string -> string;
  array_contains_sql : string -> string -> sql;
  array_contained_by_sql : string -> string -> sql;
  array_overlaps_sql : string -> string -> sql;
  fts_matches_sql : string -> string -> sql;
  fts_plain_query_sql : string -> string -> sql;
  fts_phrase_query_sql : string -> string -> sql;
  fts_websearch_query_sql : string -> string -> sql;
  regex_sql : string -> string -> bool -> bool -> sql;
  vector_distance_sql : string -> string -> string -> sql;
  jaccard_distance_sql : string -> string -> sql;
  inet_check_sql : string -> string -> sql;
  inet_binary_sql : string -> string -> string -> sql;
  ltree_binary_sql : string -> string -> string -> string -> sql;
  ltree_any_lquery_sql : string -> list string -> sql;
  ltree_depth_sql : string -> string -> string -> sql;
  ltree_lca_sql : string -> list string -> sql;
  row_view_column_expr : string -> string -> RowViewColumnType -> string;
  create_row_view_ddl : string -> string -> list (string * string) -> string;
  generate_extended_sql :
    ExtendedOperator -> string -> list json -> result FraiseQLError (string * list json)
}.

(** The default methods of the trait. *)
Module Default.

Definition id_sql (s : string) : string := s.
Definition cast_native_param (placeholder _native_type : string) : string := placeholder.
Definition like_sql (lhs rhs : string) : string := lhs ++ " LIKE " ++ rhs.
Definition ilike_sql (lhs rhs : string) : string := "LOWER(" ++ lhs ++ ") LIKE LOWER(" ++ rhs ++ ")".
Definition concat_sql (parts : list string) : string := String.concat " || " parts.
Definition always_false : string := "FALSE".
Definition always_true : string := "TRUE".
Definition neq_operator : string := "!=".
Definition unsupported (dialect operator : string) : sql := Err (mkUnsupported dialect operator).
Definition col_list (quote : string -> string) (columns : list (string * string)) : string :=
  String.concat (String "," (String "010" "  ")) (map (fun '(alias, expr) => expr ++ " AS " ++ quote alias) columns).
Definition nl : string := String "010" "".
(** [CREATE OR REPLACE VIEW]; the other dialects change its first words. *)
Definition view_ddl (create : string -> string) (quote : string -> string)
    (view_name source_table : string) (columns : list (string * string)) : string :=
  create (quote view_name) ++ " AS" ++ nl ++ "SELECT" ++ nl ++ "  " ++ col_list quote columns
    ++ nl ++ "FROM " ++ quote source_table ++ ";".
Definition create_row_view_ddl : (string -> string) -> string -> string -> list (string * string) -> string :=
  view_ddl (fun v => "CREATE OR REPLACE VIEW " ++ v).
Definition generate_extended_sql (dialect : string) (operator : ExtendedOperator)
    (_field_sql : string) (_params : list json) : result FraiseQLError (string * list json) :=
  Err (validation ("Extended operator " ++ ExtendedOperator_display operator
                   ++ " is not supported by the " ++ dialect ++ " dialect")).
End Default.

(** ** PostgreSQL *)
Module Postgres.

(** The loop over the escaped segments: every arrow but the last keeps JSON. *)
Fixpoint arrows (segments : list string) : string :=
  match segments with
  | [] => ""
  | [segment] => "->>'" ++ segment ++ "'"
  | segment :: rest => "->'" ++ segment ++ "'" ++ arrows rest
  end.

Definition json_extract_scalar (column : string) (path : list string) : string :=
  match path with
  | [p] => column ++ "->>'" ++ PathEscape.escape_postgres_jsonb_segment p ++ "'"
  | _ => column ++ arrows (PathEscape.escape_postgres_jsonb_path path)
  end.

Definition no_cast_types : list string := ["text"; "varchar"; "character varying"; "char"; "bpchar"; "name"].

Definition cast_native_param (placeholder native_type : string) : string :=
  let t := to_lowercase native_type in
  if (t =s "boolean") || (t =s "bool") then placeholder ++ "::bool"
  else if existsb (String.eqb t) no_cast_types then placeholder
  else placeholder ++ "::text::" ++ native_type.

Definition regex_op (case_insensitive negate : bool) : string :=
  match case_insensitive, negate with
  | false, false => "~" | true, false => "~*" | false, true => "!~" | true, true => "!~*"
  end.

Definition private_ranges (lhs : string) : string :=
  lhs ++ "::inet << '10.0.0.0/8'::inet OR " ++ lhs ++ "::inet << '172.16.0.0/12'::inet OR "
  ++ lhs ++ "::inet << '192.168.0.0/16'::inet OR " ++ lhs ++ "::inet << '169.254.0.0/16'::inet)".

Definition inet_check_sql (lhs check_name : string) : sql :=
  if check_name =s "IsIPv4" then Ok ("family(" ++ lhs ++ "::inet) = 4") else
  if check_name =s "IsIPv6" then Ok ("family(" ++ lhs ++ "::inet) = 6") else
  if check_name =s "IsPrivate" then Ok ("(" ++ private_ranges lhs) else
  if check_name =s "IsPublic" then Ok ("NOT (" ++ private_ranges lhs) else
  if check_name =s "IsLoopback" then
    Ok ("(family(" ++ lhs ++ "::inet) = 4 AND " ++ lhs ++ "::inet << '127.0.0.0/8'::inet) OR (family("
        ++ lhs ++ "::inet) = 6 AND " ++ lhs ++ "::inet << '::1/128'::inet)") else
  Err (mkUnsupported "PostgreSQL" "InetCheck").

Definition pg_type (t : RowViewColumnType) : string :=
  match t with
  | Text => "text" | Int32 => "int" | Int64 => "bigint" | Float64 => "double precision"
  | Boolean => "boolean" | Uuid => "uuid" | Timestamptz => "timestamptz" | Date => "date"
  | Json => "jsonb"
  end.

(** Placeholders here are numbered by the length of [params]. *)
Definition push (params : list json) (s : string) : list json * string :=
  let params := (params ++ [JString s])%list in
  (params, "$" ++ pretty (Z.of_nat (length params))).

Fixpoint push_all (params : list json) (domains : list string) : list json * list string :=
  match domains with
  | [] => (params, [])
  | d :: ds =>
      let '(params, p) := push params d in
      let '(params, ps) := push_all params ds in (params, p :: ps)
  end.

Definition generate_extended_sql (operator : ExtendedOperator) (field_sql : string) (params : list json)
  : result FraiseQLError (string * list json) :=
  match operator with
  | EmailDomainEq domain =>
      let '(params, p) := push params domain in
      Ok ("SPLIT_PART(" ++ field_sql ++ ", '@', 2) = " ++ p, params)
  | EmailDomainIn domains =>
      let '(params, placeholders) := push_all params domains in
      Ok ("SPLIT_PART(" ++ field_sql ++ ", '@', 2) IN (" ++ String.concat ", " placeholders ++ ")", params)
  | EmailDomainEndswith suffix =>
      let '(params, p) := push params (escape_like_literal suffix) in
      Ok ("SPLIT_PART(" ++ field_sql ++ ", '@', 2) LIKE '%' || " ++ p, params)
  | EmailLocalPartStartswith prefix =>
      let '(params, p) := push params (escape_like_literal prefix) in
      Ok ("SPLIT_PART(" ++ field_sql ++ ", '@', 1) LIKE " ++ p ++ " || '%'", params)
  | VinWmiEq wmi =>
      let '(params, p) := push params wmi in
      Ok ("SUBSTRING(" ++ field_sql ++ " FROM 1 FOR 3) = " ++ p, params)
  | IbanCountryEq country =>
      let '(params, p) := push params country in
      Ok ("SUBSTRING(" ++ field_sql ++ " FROM 1 FOR 2) = " ++ p, params)
  | _ => Err (validation ("Extended operator not yet implemented for PostgreSQL: "
                          ++ ExtendedOperator_display operator))
  end.

Definition PostgresDialect : SqlDialect := {|
  name := "PostgreSQL";
  SqlDialect.quote_identifier name := dq ++ replace_char dquote (dq ++ dq) name ++ dq;
  SqlDialect.json_extract_scalar := json_extract_scalar;
  placeholder n := "$" ++ pretty n;
  cast_to_numeric expr := "(" ++ expr ++ ")::numeric";
  cast_to_boolean expr := "(" ++ expr ++ ")::boolean";
  cast_param_numeric p := "(" ++ p ++ "::text)::numeric";
  SqlDialect.cast_native_param := cast_native_param;
  like_sql := Default.like_sql;
  ilike_sql lhs rhs := lhs ++ " ILIKE " ++ rhs;
  concat_sql := Default.concat_sql;
  always_false := Default.always_false;
  always_true := Default.always_true;
  neq_operator := Default.neq_operator;
  json_array_length expr := "jsonb_array_length(" ++ expr ++ "::jsonb)";
  array_contains_sql lhs rhs := Ok (lhs ++ "::jsonb @> " ++ rhs ++ "::jsonb");
  array_contained_by_sql lhs rhs := Ok (lhs ++ "::jsonb <@ " ++ rhs ++ "::jsonb");
  array_overlaps_sql lhs rhs := Ok (lhs ++ "::jsonb && " ++ rhs ++ "::jsonb");
  fts_matches_sql expr p := Ok ("to_tsvector(" ++ expr ++ ") @@ to_tsquery(" ++ p ++ ")");
  fts_plain_query_sql expr p := Ok ("to_tsvector(" ++ expr ++ ") @@ plainto_tsquery(" ++ p ++ ")");
  fts_phrase_query_sql expr p := Ok ("to_tsvector(" ++ expr ++ ") @@ phraseto_tsquery(" ++ p ++ ")");
  fts_websearch_query_sql expr p := Ok ("to_tsvector(" ++ expr ++ ") @@ websearch_to_tsquery(" ++ p ++ ")");
  regex_sql lhs rhs ci neg := Ok (lhs ++ " " ++ regex_op ci neg ++ " " ++ rhs);
  vector_distance_sql op lhs rhs := Ok (lhs ++ "::vector " ++ op ++ " " ++ rhs ++ "::vector");
  jaccard_distance_sql lhs rhs := Ok ("(" ++ lhs ++ ")::text[] <%> (" ++ rhs ++ ")::text[]");
  SqlDialect.inet_check_sql := inet_check_sql;
  inet_binary_sql op lhs rhs := Ok (lhs ++ "::inet " ++ op ++ " " ++ rhs ++ "::inet");
  ltree_binary_sql op lhs rhs rhs_type := Ok (lhs ++ "::ltree " ++ op ++ " " ++ rhs ++ "::" ++ rhs_type);
  ltree_any_lquery_sql lhs ps := Ok (lhs ++ "::ltree ? ARRAY[" ++ String.concat ", " ps ++ "]");
  ltree_depth_sql op lhs rhs := Ok ("nlevel(" ++ lhs ++ "::ltree) " ++ op ++ " " ++ rhs);
  ltree_lca_sql lhs ps := Ok (lhs ++ "::ltree = lca(ARRAY[" ++ String.concat ", " ps ++ "])");
  row_view_column_expr column field t := "(" ++ column ++ "->>'" ++ field ++ "')::" ++ pg_type t;
  create_row_view_ddl := Default.create_row_view_ddl (fun name => dq ++ replace_char dquote (dq ++ dq) name ++ dq);
  SqlDialect.generate_extended_sql := generate_extended_sql
|}.
End Postgres.

(** ** MySQL *)
Module MySql.

Definition quote_identifier (name : string) : string := "`" ++ replace_char "`" "``" name ++ "`".

Definition mysql_type (t : RowViewColumnType) : string :=
  match t with
  | Text | Uuid => "CHAR" | Int32 | Int64 => "SIGNED" | Float64 => "DOUBLE" | Boolean => "UNSIGNED"
  | Timestamptz => "DATETIME" | Date => "DATE" | Json => "JSON"
  end.

Definition MySqlDialect : SqlDialect := {|
  name := "MySQL";
  SqlDialect.quote_identifier := quote_identifier;
  SqlDialect.json_extract_scalar column path :=
    "JSON_UNQUOTE(JSON_EXTRACT(" ++ column ++ ", '" ++ PathEscape.escape_mysql_json_path path ++ "'))";
  placeholder _ := "?";
  cast_to_numeric expr := "CAST(" ++ expr ++ " AS DECIMAL)";
  cast_to_boolean := Default.id_sql;
  cast_param_numeric := Default.id_sql;
  SqlDialect.cast_native_param := Default.cast_native_param;
  like_sql := Default.like_sql;
  ilike_sql lhs rhs := "LOWER(" ++ lhs ++ ") LIKE LOWER(" ++ rhs ++ ")";
  concat_sql parts := "CONCAT(" ++ String.concat ", " parts ++ ")";
  always_false := Default.always_false;
  always_true := Default.always_true;
  neq_operator := Default.neq_operator;
  json_array_length expr := "JSON_LENGTH(" ++ expr ++ ")";
  array_contains_sql lhs rhs := Ok ("JSON_CONTAINS(" ++ lhs ++ ", " ++ rhs ++ ")");
  array_contained_by_sql _ _ := Default.unsupported "MySQL" "ArrayContainedBy";
  array_overlaps_sql lhs rhs := Ok ("JSON_OVERLAPS(" ++ lhs ++ ", " ++ rhs ++ ")");
  fts_matches_sql expr p := Ok ("MATCH(" ++ expr ++ ") AGAINST(" ++ p ++ " IN NATURAL LANGUAGE MODE)");
  fts_plain_query_sql expr p := Ok ("MATCH(" ++ expr ++ ") AGAINST(" ++ p ++ " IN BOOLEAN MODE)");
  fts_phrase_query_sql expr p := Ok ("MATCH(" ++ expr ++ ") AGAINST(" ++ p ++ " IN NATURAL LANGUAGE MODE)");
  fts_websearch_query_sql _ _ := Default.unsupported "MySQL" "WebsearchQuery";
  regex_sql lhs rhs _ negate := Ok (if negate then lhs ++ " NOT REGEXP " ++ rhs else lhs ++ " REGEXP " ++ rhs);
  vector_distance_sql _ _ _ := Default.unsupported "MySQL" "VectorDistance";
  jaccard_distance_sql _ _ := Default.unsupported "MySQL" "JaccardDistance";
  SqlDialect.inet_check_sql _ _ := Default.unsupported "MySQL" "InetCheck";
  inet_binary_sql _ _ _ := Default.unsupported "MySQL" "InetBinaryOp";
  ltree_binary_sql _ _ _ _ := Default.unsupported "MySQL" "LTreeBinaryOp";
  ltree_any_lquery_sql _ _ := Default.unsupported "MySQL" "MatchesAnyLquery";
  ltree_depth_sql _ _ _ := Default.unsupported "MySQL" "LTreeDepth";
  ltree_lca_sql _ _ := Default.unsupported "MySQL" "Lca";
  row_view_column_expr column field t :=
    "CAST(JSON_UNQUOTE(JSON_EXTRACT(" ++ column ++ ", '$." ++ field ++ "')) AS " ++ mysql_type t ++ ")";
  create_row_view_ddl := Default.create_row_view_ddl quote_identifier;
  SqlDialect.generate_extended_sql := Default.generate_extended_sql "MySQL"
|}.
End MySql.

(** ** SQLite *)
Module Sqlite.

Definition quote_identifier (name : string) : string := dq ++ replace_char dquote (dq ++ dq) name ++ dq.

Definition sqlite_type (t : RowViewColumnType) : string :=
  match t with
  | Text | Uuid | Timestamptz | Date => "TEXT" | Int32 | Int64 | Boolean => "INTEGER"
  | Float64 => "REAL" | Json => "TEXT"
  end.

Definition SqliteDialect : SqlDialect := {|
  name := "SQLite";
  SqlDialect.quote_identifier := quote_identifier;
  SqlDialect.json_extract_scalar column path :=
    "json_extract(" ++ column ++ ", '" ++ PathEscape.escape_sqlite_json_path path ++ "')";
  placeholder _ := "?";
  cast_to_numeric expr := "CAST(" ++ expr ++ " AS REAL)";
  cast_to_boolean := Default.id_sql;
  cast_param_numeric := Default.id_sql;
  SqlDialect.cast_native_param := Default.cast_native_param;
  like_sql := Default.like_sql;
  ilike_sql := Default.ilike_sql;
  concat_sql := Default.concat_sql;
  always_false := "1=0";
  always_true := "1=1";
  neq_operator := Default.neq_operator;
  json_array_length expr := "json_array_length(" ++ expr ++ ")";
  array_contains_sql lhs rhs :=
    Ok ("EXISTS (SELECT 1 FROM json_each(" ++ lhs ++ ") WHERE value = json(" ++ rhs ++ "))");
  array_contained_by_sql _ _ := Default.unsupported "SQLite" "ArrayContainedBy";
  array_overlaps_sql _ _ := Default.unsupported "SQLite" "ArrayOverlaps";
  fts_matches_sql _ _ := Default.unsupported "SQLite" "Matches";
  fts_plain_query_sql _ _ := Default.unsupported "SQLite" "PlainQuery";
  fts_phrase_query_sql _ _ := Default.unsupported "SQLite" "PhraseQuery";
  fts_websearch_query_sql _ _ := Default.unsupported "SQLite" "WebsearchQuery";
  regex_sql _ _ _ _ := Default.unsupported "SQLite" "Regex";
  vector_distance_sql _ _ _ := Default.unsupported "SQLite" "VectorDistance";
  jaccard_distance_sql _ _ := Default.unsupported "SQLite" "JaccardDistance";
  SqlDialect.inet_check_sql _ _ := Default.unsupported "SQLite" "InetCheck";
  inet_binary_sql _ _ _ := Default.unsupported "SQLite" "InetBinaryOp";
  ltree_binary_sql _ _ _ _ := Default.unsupported "SQLite" "LTreeBinaryOp";
  ltree_any_lquery_sql _ _ := Default.unsupported "SQLite" "MatchesAnyLquery";
  ltree_depth_sql _ _ _ := Default.unsupported "SQLite" "LTreeDepth";
  ltree_lca_sql _ _ := Default.unsupported "SQLite" "Lca";
  row_view_column_expr column field t :=
    "CAST(json_extract(" ++ column ++ ", '$." ++ field ++ "') AS " ++ sqlite_type t ++ ")";
  create_row_view_ddl :=
    Default.view_ddl (fun v => "DROP VIEW IF EXISTS " ++ v ++ ";" ++ Default.nl ++ "CREATE VIEW " ++ v)
      quote_identifier;
  SqlDialect.generate_extended_sql := Default.generate_extended_sql "SQLite"
|}.
End Sqlite.

(** ** SQL Server *)
Module SqlServer.

Definition quote_identifier (name : string) : string := "[" ++ replace_char "]" "]]" name ++ "]".

Definition tsql_type (t : RowViewColumnType) : string :=
  match t with
  | Text => "NVARCHAR(MAX)" | Int32 => "INT" | Int64 => "BIGINT" | Float64 => "FLOAT" | Boolean => "BIT"
  | Uuid => "UNIQUEIDENTIFIER" | Timestamptz => "DATETIMEOFFSET" | Date => "DATE" | Json => "NVARCHAR(MAX)"
  end.

Definition SqlServerDialect : SqlDialect := {|
  name := "SQL Server";
  SqlDialect.quote_identifier := quote_identifier;
  SqlDialect.json_extract_scalar column path :=
    "JSON_VALUE(" ++ column ++ ", '" ++ PathEscape.escape_sqlserver_json_path path ++ "')";
  placeholder n := "@p" ++ pretty n;
  cast_to_numeric expr := "CAST(" ++ expr ++ " AS FLOAT)";
  cast_to_boolean := Default.id_sql;
  cast_param_numeric := Default.id_sql;
  SqlDialect.cast_native_param := Default.cast_native_param;
  like_sql lhs rhs := lhs ++ " LIKE " ++ rhs ++ " COLLATE Latin1_General_CS_AS";
  ilike_sql lhs rhs := lhs ++ " LIKE " ++ rhs ++ " COLLATE Latin1_General_CI_AI";
  concat_sql parts := String.concat " + " parts;
  always_false := "1=0";
  always_true := "1=1";
  neq_operator := "<>";
  json_array_length expr := "(SELECT COUNT(" ++ "*" ++ ") FROM OPENJSON(" ++ expr ++ "))";
  array_contains_sql lhs rhs :=
    Ok ("EXISTS (SELECT 1 FROM OPENJSON(" ++ lhs ++ ") WHERE value = " ++ rhs ++ ")");
  array_contained_by_sql _ _ := Default.unsupported "SQL Server" "ArrayContainedBy";
  array_overlaps_sql _ _ := Default.unsupported "SQL Server" "ArrayOverlaps";
  fts_matches_sql expr p := Ok ("CONTAINS(" ++ expr ++ ", " ++ p ++ ")");
  fts_plain_query_sql expr p := Ok ("CONTAINS(" ++ expr ++ ", " ++ p ++ ")");
  fts_phrase_query_sql expr p := Ok ("FREETEXT(" ++ expr ++ ", " ++ p ++ ")");
  fts_websearch_query_sql _ _ := Default.unsupported "SQL Server" "WebsearchQuery";
  regex_sql _ _ _ _ := Default.unsupported "SQL Server" "Regex";
  vector_distance_sql _ _ _ := Default.unsupported "SQL Server" "VectorDistance";
  jaccard_distance_sql _ _ := Default.unsupported "SQL Server" "JaccardDistance";
  SqlDialect.inet_check_sql _ _ := Default.unsupported "SQL Server" "InetCheck";
  inet_binary_sql _ _ _ := Default.unsupported "SQL Server" "InetBinaryOp";
  ltree_binary_sql _ _ _ _ := Default.unsupported "SQL Server" "LTreeBinaryOp";
  ltree_any_lquery_sql _ _ := Default.unsupported "SQL Server" "MatchesAnyLquery";
  ltree_depth_sql _ _ _ := Default.unsupported "SQL Server" "LTreeDepth";
  ltree_lca_sql _ _ := Default.unsupported "SQL Server" "Lca";
  row_view_column_expr column field t :=
    "CAST(JSON_VALUE(" ++ column ++ ", '$." ++ field ++ "') AS " ++ tsql_type t ++ ")";
  create_row_view_ddl := Default.view_ddl (fun v => "CREATE OR ALTER VIEW " ++ v) quote_identifier;
  SqlDialect.generate_extended_sql := Default.generate_extended_sql "SQL Server"
|}.
End SqlServer.
