(* ===== verification/WhereGenerator.v ===== *)
(** * WHERE clause generator

    crates/fraiseql-db/src/where_generator/generic.rs and counter.rs: the SQL
    text of a clause and the values bound to its placeholders, over any
    dialect.  The generator's state is the counter and the vector of values. *)

From S2P Require Import Prelude Json WhereClause SqlDialect.
From Stdlib Require Import Ascii.
From stdpp Require Import pretty.
#[local] Open Scope Z_scope.
#[local] Open Scope string_scope.

(** ** State and errors *)
Record St : Type := mkSt { params : list json; counter : Z }.

Definition M (A : Type) : Type := St -> result FraiseQLError (A * St).
Definition ret {A} (a : A) : M A := fun st => Ok (a, st).
Definition fail {A} (e : FraiseQLError) : M A := fun _ => Err e.
Definition bind {A B} (m : M A) (k : A -> M B) : M B :=
  fun st => match m st with Ok (a, st) => k a st | Err e => Err e end.
Definition lift {A} (r : result FraiseQLError A) : M A :=
  match r with Ok a => ret a | Err e => fail e end.

Notation "'let*' x := m 'in' k" := (bind m (fun x => k))
  (at level 10, x pattern, k at level 200) : fraise_scope.

(** [iter().map(f).collect()], in order, up to the first error. *)
Fixpoint traverse {A B} (f : A -> M B) (l : list A) : M (list B) :=
  match l with
  | [] => ret []
  | x :: l => let* y := f x in let* ys := traverse f l in ret (y :: ys)
  end.

(** ** Guard against regular expressions that backtrack *)
Module Regex.

Definition MAX_REGEX_PATTERN_LEN : nat := 1000.

Definition too_long : FraiseQLError :=
  validation ("Regex pattern exceeds maximum length of " ++ pretty (N.of_nat MAX_REGEX_PATTERN_LEN) ++ " bytes").
Definition nested_quantifiers : FraiseQLError :=
  validation ("Regex pattern contains nested quantifiers (potential ReDoS). Simplify the pattern to avoid "
    ++ "`(" ++ String "226" (String "128" (String "166" "")) ++ "+)+`, `("
    ++ String "226" (String "128" (String "166" "")) ++ "*" ++ ")*`, or similar constructs.").

Definition is_quantifier (c : ascii) : bool :=
  Ascii.eqb c "+" || Ascii.eqb c "*" || Ascii.eqb c "?".
Definition opens_quantifier (s : string) : bool :=
  match s with String c _ => is_quantifier c || Ascii.eqb c "{" | EmptyString => false end.
Definition mark (stack : list bool) : list bool :=
  match stack with _ :: rest => true :: rest | [] => [] end.

(** The loop over the bytes: [prev] is the byte before, [stack] the groups that
    are open, innermost first, with whether they hold a quantifier. *)
Fixpoint scan (prev : option ascii) (depth : Z) (stack : list bool) (s : string) : result FraiseQLError () :=
  match s with
  | EmptyString => Ok ()
  | String b rest =>
      let continue depth stack := scan (Some b) depth stack rest in
      if match prev with Some p => Ascii.eqb p "\" | None => false end then continue depth stack
      else if Ascii.eqb b "(" then continue (depth + 1) (false :: stack)
      else if Ascii.eqb b ")" then
        let had_quantifier := match stack with h :: _ => h | [] => false end in
        if had_quantifier && opens_quantifier rest then Err nested_quantifiers
        else continue (depth - 1) (tl stack)
      else if is_quantifier b then continue depth (mark stack)
      else if Ascii.eqb b "{" && (0 <? depth)%Z then continue depth (mark stack)
      else continue depth stack
  end.

Definition validate_regex_pattern (pattern : string) : result FraiseQLError () :=
  guard_err (MAX_REGEX_PATTERN_LEN <? String.length pattern)%nat as too_long ;;
  scan None 0 [] pattern.
End Regex.

(** ** Reading values *)
Definition is_number (v : json) : bool := match v with JNumber _ => true | _ => false end.
Definition is_boolean (v : json) : bool := match v with JBool _ => true | _ => false end.
Definition as_bool (v : json) : option bool := match v with JBool b => Some b | _ => None end.
Definition as_str (v : json) : option string := match v with JString s => Some s | _ => None end.
Definition as_array (v : json) : option (list json) := match v with JArray l => Some l | _ => None end.

(** ** The generator *)
Module Generator.
Section WithDialect.
Context (d : SqlDialect) (indexed_columns : option (gset string)).

Definition resolve_field_expr (path : list string) : string :=
  match indexed_columns with
  | Some indexed =>
      let col_name := String.concat "__" path in
      if bool_decide (col_name ∈ indexed) then d.(quote_identifier) col_name
      else d.(json_extract_scalar) "data" path
  | None => d.(json_extract_scalar) "data" path
  end.

(** [ParamCounter::next] after the push. *)
Definition push_param (v : json) : M string :=
  fun st => let n := (st.(counter) + 1)%Z in Ok (d.(placeholder) n, mkSt (st.(params) ++ [v]) n).

Definition require_str (value : json) (op : string) : M string :=
  match as_str value with
  | Some s => ret s
  | None => fail (validation (op ++ " operator requires a string value"))
  end.

(** [map_err(|e| FraiseQLError::validation(e.to_string()))]. *)
Definition of_sql (s : sql) : M string :=
  match s with Ok s => ret s | Err e => fail (validation (UnsupportedOperator_display e)) end.

(** The shape of most arms: bind the value, then render with its placeholder. *)
Definition with_param (value : json) (render : string -> string) : M string :=
  let* p := push_param value in ret (render p).
Definition with_param_sql (value : json) (render : string -> sql) : M string :=
  let* p := push_param value in of_sql (render p).

(** The arms of the LIKE family that escape the value. *)
Definition like_arm (value : json) (op : string) (render : string -> string) : M string :=
  let* val_str := require_str value op in
  with_param (JString (escape_like_literal val_str)) render.

Definition regex_arm (field_expr : string) (value : json) (case_insensitive negate : bool) : M string :=
  let* _ := match as_str value with Some s => lift (Regex.validate_regex_pattern s) | None => ret () end in
  with_param_sql value (fun p => d.(regex_sql) field_expr p case_insensitive negate).

(** The arms that bind every element of a non-empty array. *)
Definition array_arm (value : json) (not_array empty : FraiseQLError) (suffix : string)
    (render : list string -> sql) : M string :=
  match as_array value with
  | None => fail not_array
  | Some [] => fail empty
  | Some arr =>
      let* placeholders := traverse (fun v => with_param v (fun p => p ++ suffix)) arr in
      of_sql (render placeholders)
  end.

(** [cast op rhs] for numbers and booleans, [field op p] for other values. *)
Definition equality_arm (field_expr op : string) (value : json) : M string :=
  with_param value (fun p =>
    if is_number value then d.(cast_to_numeric) field_expr ++ " " ++ op ++ " " ++ d.(cast_param_numeric) p
    else if is_boolean value then d.(cast_to_boolean) field_expr ++ " " ++ op ++ " " ++ p
    else field_expr ++ " " ++ op ++ " " ++ p).

Definition order_arm (field_expr op : string) (value : json) : M string :=
  with_param value (fun p =>
    d.(cast_to_numeric) field_expr ++ " " ++ op ++ " " ++ d.(cast_param_numeric) p).

Definition in_arm (field_expr : string) (negated : bool) (value : json) : M string :=
  match as_array value with
  | None => fail (validation "IN operator requires an array value")
  | Some [] => ret (if negated then d.(always_true) else d.(always_false))
  | Some arr =>
      let* placeholders := traverse push_param arr in
      let sql := field_expr ++ " IN (" ++ String.concat ", " placeholders ++ ")" in
      ret (if negated then "NOT (" ++ sql ++ ")" else sql)
  end.

Definition len_arm (field_expr op : string) (value : json) : M string :=
  with_param value (fun p => d.(json_array_length) field_expr ++ " " ++ op ++ " " ++ p).

Definition generate_extended (field_expr : string) (op : ExtendedOperator) : M string :=
  fun st =>
    match d.(generate_extended_sql) op field_expr st.(params) with
    | Ok (s, ps) => Ok (s, mkSt ps st.(counter))
    | Err e => Err e
    end.

Definition visit_field (path : list string) (operator : Op.WhereOperator) (value : json) : M string :=
  let field_expr := resolve_field_expr path in
  match operator with
  | Op.Eq => equality_arm field_expr "=" value
  | Op.Neq => equality_arm field_expr d.(neq_operator) value
  | Op.Gt => order_arm field_expr ">" value
  | Op.Gte => order_arm field_expr ">=" value
  | Op.Lt => order_arm field_expr "<" value
  | Op.Lte => order_arm field_expr "<=" value
  | Op.In => in_arm field_expr false value
  | Op.Nin => in_arm field_expr true value
  | Op.IsNull =>
      let is_null := default true (as_bool value) in
      ret (field_expr ++ " " ++ (if is_null then "IS NULL" else "IS NOT NULL"))
  | Op.Contains =>
      like_arm value "Contains" (fun p => d.(like_sql) field_expr (d.(concat_sql) ["'%'"; p; "'%'"]))
  | Op.Icontains =>
      like_arm value "Icontains" (fun p => d.(ilike_sql) field_expr (d.(concat_sql) ["'%'"; p; "'%'"]))
  | Op.Startswith =>
      like_arm value "Startswith" (fun p => d.(like_sql) field_expr (d.(concat_sql) [p; "'%'"]))
  | Op.Istartswith =>
      like_arm value "Istartswith" (fun p => d.(ilike_sql) field_expr (d.(concat_sql) [p; "'%'"]))
  | Op.Endswith =>
      like_arm value "Endswith" (fun p => d.(like_sql) field_expr (d.(concat_sql) ["'%'"; p]))
  | Op.Iendswith =>
      like_arm value "Iendswith" (fun p => d.(ilike_sql) field_expr (d.(concat_sql) ["'%'"; p]))
  | Op.Like => with_param value (fun p => d.(like_sql) field_expr p)
  | Op.Ilike => with_param value (fun p => d.(ilike_sql) field_expr p)
  | Op.Nlike => with_param value (fun p => "NOT (" ++ d.(like_sql) field_expr p ++ ")")
  | Op.Nilike => with_param value (fun p => "NOT (" ++ d.(ilike_sql) field_expr p ++ ")")
  | Op.Regex => regex_arm field_expr value false false
  | Op.Iregex => regex_arm field_expr value true false
  | Op.Nregex => regex_arm field_expr value false true
  | Op.Niregex => regex_arm field_expr value true true
  | Op.LenEq => len_arm field_expr "=" value
  | Op.LenNeq => len_arm field_expr d.(neq_operator) value
  | Op.LenGt => len_arm field_expr ">" value
  | Op.LenGte => len_arm field_expr ">=" value
  | Op.LenLt => len_arm field_expr "<" value
  | Op.LenLte => len_arm field_expr "<=" value
  | Op.ArrayContains | Op.StrictlyContains => with_param_sql value (fun p => d.(array_contains_sql) field_expr p)
  | Op.ArrayContainedBy => with_param_sql value (fun p => d.(array_contained_by_sql) field_expr p)
  | Op.ArrayOverlaps => with_param_sql value (fun p => d.(array_overlaps_sql) field_expr p)
  | Op.Matches => with_param_sql value (fun p => d.(fts_matches_sql) field_expr p)
  | Op.PlainQuery => with_param_sql value (fun p => d.(fts_plain_query_sql) field_expr p)
  | Op.PhraseQuery => with_param_sql value (fun p => d.(fts_phrase_query_sql) field_expr p)
  | Op.WebsearchQuery => with_param_sql value (fun p => d.(fts_websearch_query_sql) field_expr p)
  | Op.CosineDistance => with_param_sql value (fun p => d.(vector_distance_sql) "<=>" field_expr p)
  | Op.L2Distance => with_param_sql value (fun p => d.(vector_distance_sql) "<->" field_expr p)
  | Op.L1Distance => with_param_sql value (fun p => d.(vector_distance_sql) "<+>" field_expr p)
  | Op.HammingDistance => with_param_sql value (fun p => d.(vector_distance_sql) "<~>" field_expr p)
  | Op.InnerProduct => with_param_sql value (fun p => d.(vector_distance_sql) "<#>" field_expr p)
  | Op.JaccardDistance => with_param_sql value (fun p => d.(jaccard_distance_sql) field_expr p)
  | Op.IsIPv4 => of_sql (d.(inet_check_sql) field_expr "IsIPv4")
  | Op.IsIPv6 => of_sql (d.(inet_check_sql) field_expr "IsIPv6")
  | Op.IsPrivate => of_sql (d.(inet_check_sql) field_expr "IsPrivate")
  | Op.IsPublic => of_sql (d.(inet_check_sql) field_expr "IsPublic")
  | Op.IsLoopback => of_sql (d.(inet_check_sql) field_expr "IsLoopback")
  | Op.InSubnet => with_param_sql value (fun p => d.(inet_binary_sql) "<<" field_expr p)
  | Op.ContainsSubnet | Op.ContainsIP => with_param_sql value (fun p => d.(inet_binary_sql) ">>" field_expr p)
  | Op.Overlaps => with_param_sql value (fun p => d.(inet_binary_sql) "&&" field_expr p)
  | Op.AncestorOf => with_param_sql value (fun p => d.(ltree_binary_sql) "@>" field_expr p "ltree")
  | Op.DescendantOf => with_param_sql value (fun p => d.(ltree_binary_sql) "<@" field_expr p "ltree")
  | Op.MatchesLquery => with_param_sql value (fun p => d.(ltree_binary_sql) "~" field_expr p "lquery")
  | Op.MatchesLtxtquery => with_param_sql value (fun p => d.(ltree_binary_sql) "@" field_expr p "ltxtquery")
  | Op.MatchesAnyLquery =>
      array_arm value (validation "matches_any_lquery operator requires an array value")
        (validation "matches_any_lquery requires at least one lquery") "::lquery"
        (fun ps => d.(ltree_any_lquery_sql) field_expr ps)
  | Op.DepthEq => with_param_sql value (fun p => d.(ltree_depth_sql) "=" field_expr p)
  | Op.DepthNeq => with_param_sql value (fun p => d.(ltree_depth_sql) "!=" field_expr p)
  | Op.DepthGt => with_param_sql value (fun p => d.(ltree_depth_sql) ">" field_expr p)
  | Op.DepthGte => with_param_sql value (fun p => d.(ltree_depth_sql) ">=" field_expr p)
  | Op.DepthLt => with_param_sql value (fun p => d.(ltree_depth_sql) "<" field_expr p)
  | Op.DepthLte => with_param_sql value (fun p => d.(ltree_depth_sql) "<=" field_expr p)
  | Op.Lca =>
      array_arm value (validation "lca operator requires an array value")
        (validation "lca operator requires at least one path") "::ltree"
        (fun ps => d.(ltree_lca_sql) field_expr ps)
  | Op.Extended op => generate_extended field_expr op
  end.

Definition visit_native_field (column pg_cast : string) (operator : Op.WhereOperator) (value : json) : M string :=
  let col_expr := d.(quote_identifier) column in
  let* p := push_param value in
  let rhs := if pg_cast =s "" then p else d.(cast_native_param) p pg_cast in
  match operator with
  | Op.Eq => ret (col_expr ++ " = " ++ rhs)
  | Op.Neq => ret (col_expr ++ " " ++ d.(neq_operator) ++ " " ++ rhs)
  | _ => fail (Validation (DebugOp "Operator " operator " is not supported for native column conditions") None)
  end.

Fixpoint visit (clause : WhereClause) : M string :=
  match clause with
  | And clauses =>
      match clauses with
      | [] => ret d.(always_true)
      | _ => let* parts := traverse visit clauses in ret ("(" ++ String.concat " AND " parts ++ ")")
      end
  | Or clauses =>
      match clauses with
      | [] => ret d.(always_false)
      | _ => let* parts := traverse visit clauses in ret ("(" ++ String.concat " OR " parts ++ ")")
      end
  | Not inner => let* s := visit inner in ret ("NOT (" ++ s ++ ")")
  | Field path operator value => visit_field path operator value
  | NativeField column pg_cast operator value => visit_native_field column pg_cast operator value
  end.

Definition generate_with_param_offset (clause : WhereClause) (offset : Z)
  : result FraiseQLError (string * list json) :=
  match visit clause (mkSt [] offset) with
  | Ok (sql, st) => Ok (sql, st.(params))
  | Err e => Err e
  end.
Definition generate (clause : WhereClause) : result FraiseQLError (string * list json) :=
  generate_with_param_offset clause 0.
End WithDialect.

Definition with_indexed_columns (cols : gset string) : option (gset string) := Some cols.
End Generator.
