(* ===== verification/WhereSafety.v ===== *)
(** * What the WHERE generator guarantees

    [DialectLaws] is what the generator needs of a dialect: a method that
    renders a bound value writes its placeholder once, between texts that do
    not depend on it.  Against that interface the generated SQL is a template
    whose holes are filled by the placeholders in the order of the bound
    values; the four dialects are instances. *)

From S2P Require Import Prelude Json WhereClause SqlDialect WhereGenerator.
From Stdlib Require Import Ascii.
From stdpp Require Import pretty.
#[local] Open Scope Z_scope.
#[local] Open Scope string_scope.

(** ** Templates *)
Module Template.

Inductive chunk : Type := Txt (s : string) | Hole.

Fixpoint holes (t : list chunk) : nat :=
  match t with [] => 0 | Txt _ :: t => holes t | Hole :: t => S (holes t) end.

(** The holes are numbered from [n + 1]. *)
Fixpoint render (ph : Z -> string) (n : Z) (t : list chunk) : string :=
  match t with
  | [] => ""
  | Txt s :: t => s ++ render ph n t
  | Hole :: t => ph (n + 1)%Z ++ render ph (n + 1) t
  end.

Lemma holes_app t u : holes (t ++ u)%list = (holes t + holes u)%nat.
Proof. induction t as [|[] t IH]; cbn; lia. Qed.

Lemma render_app ph n t u :
  render ph n (t ++ u)%list = render ph n t ++ render ph (n + Z.of_nat (holes t)) u.
Proof.
  revert n. induction t as [|[s|] t IH]; intros n; cbn [app holes render].
  - by rewrite Z.add_0_r.
  - by rewrite IH, str_assoc.
  - rewrite IH, str_assoc. do 3 f_equal. lia.
Qed.
End Template.

(** ** The interface *)

(** A text with one hole, or the same error for every placeholder. *)
Definition hole (f : string -> string) : Prop :=
  exists before after, forall p, f p = before ++ p ++ after.
Definition hole_sql (f : string -> sql) : Prop :=
  (exists before after, forall p, f p = Ok (before ++ p ++ after)) \/ (exists e, forall p, f p = Err e).
Definition holes_sql (f : list string -> sql) : Prop :=
  (exists before after, forall ps, f ps = Ok (before ++ String.concat ", " ps ++ after)) \/
  (exists e, forall ps, f ps = Err e).

Class DialectLaws (d : SqlDialect) : Prop := {
  law_cast_param : hole d.(cast_param_numeric);
  law_cast_native t : hole (fun p => d.(cast_native_param) p t);
  law_like lhs : hole (d.(like_sql) lhs);
  law_ilike lhs : hole (d.(ilike_sql) lhs);
  law_concat_both a b : hole (fun p => d.(concat_sql) [a; p; b]);
  law_concat_left b : hole (fun p => d.(concat_sql) [p; b]);
  law_concat_right a : hole (fun p => d.(concat_sql) [a; p]);
  law_array_contains lhs : hole_sql (d.(array_contains_sql) lhs);
  law_array_contained lhs : hole_sql (d.(array_contained_by_sql) lhs);
  law_array_overlaps lhs : hole_sql (d.(array_overlaps_sql) lhs);
  law_fts_matches lhs : hole_sql (d.(fts_matches_sql) lhs);
  law_fts_plain lhs : hole_sql (d.(fts_plain_query_sql) lhs);
  law_fts_phrase lhs : hole_sql (d.(fts_phrase_query_sql) lhs);
  law_fts_websearch lhs : hole_sql (d.(fts_websearch_query_sql) lhs);
  law_regex lhs ci neg : hole_sql (fun p => d.(regex_sql) lhs p ci neg);
  law_vector op lhs : hole_sql (d.(vector_distance_sql) op lhs);
  law_jaccard lhs : hole_sql (d.(jaccard_distance_sql) lhs);
  law_inet_binary op lhs : hole_sql (d.(inet_binary_sql) op lhs);
  law_ltree op lhs t : hole_sql (fun p => d.(ltree_binary_sql) op lhs p t);
  law_ltree_depth op lhs : hole_sql (d.(ltree_depth_sql) op lhs);
  law_any_lquery lhs : holes_sql (d.(ltree_any_lquery_sql) lhs);
  law_lca lhs : holes_sql (d.(ltree_lca_sql) lhs)
}.

Lemma hole_id : hole (fun p => p).
Proof. exists "", "". intros p. by rewrite str_nil, str_nil_r. Qed.
Lemma hole_post f t : hole f -> hole (fun p => f p ++ t).
Proof. intros (a & b & Hf). exists a, (b ++ t). intros p. by rewrite Hf, !str_assoc. Qed.
Lemma hole_pre f t : hole f -> hole (fun p => t ++ f p).
Proof. intros (a & b & Hf). exists (t ++ a), b. intros p. by rewrite Hf, !str_assoc. Qed.
Lemma hole_comp f g : hole f -> hole g -> hole (fun p => f (g p)).
Proof.
  intros (a & b & Hf) (a' & b' & Hg). exists (a ++ a'), (b' ++ b). intros p. by rewrite Hf, Hg, !str_assoc.
Qed.
Lemma hole_ok f : hole f -> hole_sql (fun p => Ok (f p)).
Proof. intros (a & b & Hf). left. exists a, b. intros p. by rewrite Hf. Qed.
Lemma hole_err e : hole_sql (fun _ => Err e).
Proof. right. by exists e. Qed.
Lemma hole_eq f g : (forall p, f p = g p) -> hole g -> hole f.
Proof. intros E (a & b & Hg). exists a, b. intros p. by rewrite E, Hg. Qed.

(** Close [hole] goals whose body concatenates texts and one placeholder. *)
Ltac solve_hole :=
  unfold Default.id_sql, Default.cast_native_param, Default.like_sql, Default.ilike_sql,
    Default.concat_sql, Default.unsupported;
  first
  [ done
  | apply hole_err
  | apply hole_ok; solve_hole
  | exact hole_id
  | apply hole_id
  | apply hole_post; solve_hole
  | apply hole_pre; solve_hole ].

Lemma holes_err e : holes_sql (fun _ => Err e).
Proof. right. by exists e. Qed.
Lemma holes_ok a b : holes_sql (fun ps => Ok (a ++ String.concat ", " ps ++ b)).
Proof. left. by exists a, b. Qed.
Lemma holes_ok_pre a a' b : holes_sql (fun ps => Ok (a ++ a' ++ String.concat ", " ps ++ b)).
Proof. left. exists (a ++ a'), b. intros ps. by rewrite !str_assoc. Qed.

#[export] Instance mysql_laws : DialectLaws MySql.MySqlDialect.
Proof.
  split; intros; cbn -[String.concat]; try solve_hole; try apply holes_err.
  destruct neg; solve_hole.
Qed.

#[export] Instance sqlite_laws : DialectLaws Sqlite.SqliteDialect.
Proof. split; intros; cbn -[String.concat]; try solve_hole; apply holes_err. Qed.

#[export] Instance sqlserver_laws : DialectLaws SqlServer.SqlServerDialect.
Proof. split; intros; cbn -[String.concat]; try solve_hole; apply holes_err. Qed.

#[export] Instance postgres_laws : DialectLaws Postgres.PostgresDialect.
Proof.
  split; intros; cbn -[String.concat]; try solve_hole.
  - unfold Postgres.cast_native_param. repeat case_match; solve_hole.
  - apply holes_ok_pre.
  - apply holes_ok_pre.
Qed.

(** ** Clauses of one shape *)

(** What the text of an arm reads of its value. *)
Inductive vshape : Type :=
| SNumber | SBool | SOther | SList (n : nat) | SNull (b : bool) | SText (b : bool) | SRegex (ok : bool).

Definition value_shape (op : Op.WhereOperator) (v : json) : vshape :=
  match op with
  | Op.Eq | Op.Neq => if is_number v then SNumber else if is_boolean v then SBool else SOther
  | Op.In | Op.Nin | Op.MatchesAnyLquery | Op.Lca =>
      match as_array v with Some l => SList (length l) | None => SOther end
  | Op.IsNull => SNull (default true (as_bool v))
  | Op.Contains | Op.Icontains | Op.Startswith | Op.Istartswith | Op.Endswith | Op.Iendswith =>
      SText (match as_str v with Some _ => true | None => false end)
  | Op.Regex | Op.Iregex | Op.Nregex | Op.Niregex =>
      SRegex (match as_str v with Some s => is_ok (Regex.validate_regex_pattern s) | None => true end)
  | _ => SOther
  end.

(** The same tree with other values of the same shape. *)
Inductive same_shape : WhereClause -> WhereClause -> Prop :=
| SSField path op v w :
    Op.is_extended op = false -> value_shape op v = value_shape op w ->
    same_shape (Field path op v) (Field path op w)
| SSAnd l m : Forall2 same_shape l m -> same_shape (And l) (And m)
| SSOr l m : Forall2 same_shape l m -> same_shape (Or l) (Or m)
| SSNot c e : same_shape c e -> same_shape (Not c) (Not e)
| SSNative col cast op v w : same_shape (NativeField col cast op v) (NativeField col cast op w).

(** No rich-type operator. *)
Fixpoint standard (c : WhereClause) : bool :=
  match c with
  | Field _ op _ => negb (Op.is_extended op)
  | And l | Or l => forallb standard l
  | Not c => standard c
  | NativeField _ _ _ _ => true
  end.

Lemma same_shape_refl c : standard c = true -> same_shape c c.
Proof.
  induction c as [path op v|l IH|l IH|c IH|col cast op v] using clause_ind'; cbn; intros Hs;
    try (constructor; auto; by apply negb_true_iff).
  all: constructor; induction IH as [|c l Hc Hl IHl]; [done|]; cbn in Hs;
    apply andb_true_iff in Hs as [Hs Hls]; constructor; auto.
Qed.

Lemma plain_standard c : FromJsonFacts.plain c = true -> standard c = true.
Proof.
  induction c as [path op v|l IH|l IH|c IH|col cast op v] using clause_ind'; cbn; try done.
  { by intros [? _]%andb_true_iff. }
  all: induction IH as [|c l Hc Hl IHl]; [done|]; cbn;
    intros [Hs Hls]%andb_true_iff; rewrite Hc by done; cbn; auto.
Qed.

(** ** The values a clause binds, left to right *)
Definition field_values (op : Op.WhereOperator) (v : json) : list json :=
  match op with
  | Op.In | Op.Nin | Op.MatchesAnyLquery | Op.Lca => default [] (as_array v)
  | Op.IsNull | Op.IsIPv4 | Op.IsIPv6 | Op.IsPrivate | Op.IsPublic | Op.IsLoopback => []
  | Op.Contains | Op.Icontains | Op.Startswith | Op.Istartswith | Op.Endswith | Op.Iendswith =>
      match as_str v with Some s => [JString (escape_like_literal s)] | None => [] end
  | _ => [v]
  end.

Fixpoint clause_values (c : WhereClause) : list json :=
  match c with
  | Field _ op v => field_values op v
  | And l | Or l => flat_map clause_values l
  | Not c => clause_values c
  | NativeField _ _ _ v => [v]
  end.

(** The dialect with other placeholders. *)
Definition with_placeholder (d : SqlDialect) (ph : Z -> string) : SqlDialect :=
  mkDialect  d.(name) d.(quote_identifier) d.(json_extract_scalar) ph d.(cast_to_numeric)
    d.(cast_to_boolean) d.(cast_param_numeric) d.(cast_native_param) d.(like_sql)
    d.(ilike_sql) d.(concat_sql) d.(always_false) d.(always_true) d.(neq_operator)
    d.(json_array_length) d.(array_contains_sql) d.(array_contained_by_sql)
    d.(array_overlaps_sql) d.(fts_matches_sql) d.(fts_plain_query_sql)
    d.(fts_phrase_query_sql) d.(fts_websearch_query_sql) d.(regex_sql)
    d.(vector_distance_sql) d.(jaccard_distance_sql) d.(inet_check_sql)
    d.(inet_binary_sql) d.(ltree_binary_sql) d.(ltree_any_lquery_sql) d.(ltree_depth_sql)
    d.(ltree_lca_sql) d.(row_view_column_expr) d.(create_row_view_ddl)
    d.(generate_extended_sql).

(** ** Actions as templates *)
Section Twins.
Context (d : SqlDialect) (laws : DialectLaws d).

Notation action := ((Z -> string) -> M string).
Notation actions := ((Z -> string) -> M (list string)).

Definition after (st : St) (xs : list json) : St :=
  mkSt (st.(params) ++ xs)%list (st.(counter) + Z.of_nat (length xs))%Z.

Lemma after_nil st : after st [] = st.
Proof. destruct st. unfold after. cbn. by rewrite app_nil_r, Z.add_0_r. Qed.
Lemma after_app st xs ys : after (after st xs) ys = after st (xs ++ ys)%list.
Proof. unfold after. cbn. rewrite length_app, <- app_assoc. f_equal. lia. Qed.

(** The action fills [t] with the placeholders and binds [xs]. *)
Definition templated (A : action) (t : list Template.chunk) (xs : list json) : Prop :=
  Template.holes t = length xs /\
  forall ph st, A ph st = Ok (Template.render ph st.(counter) t, after st xs).
Definition fails {X} (A : (Z -> string) -> M X) : Prop := exists e, forall ph st, A ph st = Err e.

Definition twin (A B : action) (xs ys : list json) : Prop :=
  (exists t, templated A t xs /\ templated B t ys) \/ (fails A /\ fails B).

Lemma twin_ret s : twin (fun _ => ret s) (fun _ => ret s) [] [].
Proof.
  left. exists [Template.Txt s].
  split; (split; [done|]; intros ph st; cbn; by rewrite str_nil_r, after_nil).
Qed.

Lemma twin_fail e e' xs ys : twin (fun _ => fail e) (fun _ => fail e') xs ys.
Proof. right. split; eexists; intros; done. Qed.

Lemma twin_of_sql (s : sql) : twin (fun _ => Generator.of_sql s) (fun _ => Generator.of_sql s) [] [].
Proof. destruct s; cbn; [apply twin_ret | apply twin_fail]. Qed.

Notation d' ph := (with_placeholder d ph).

Lemma templated_param v f a b :
  (forall p, f p = a ++ p ++ b) ->
  templated (fun ph => Generator.with_param (d' ph) v f) [Template.Txt a; Template.Hole; Template.Txt b] [v].
Proof.
  intros Hf. split; [done|]. intros ph st. cbn. unfold after, ret. cbn. by rewrite Hf, str_nil_r.
Qed.

Lemma twin_param v w f :
  hole f -> twin (fun ph => Generator.with_param (d' ph) v f) (fun ph => Generator.with_param (d' ph) w f) [v] [w].
Proof. intros (a & b & Hf). left. eexists. split; by apply templated_param. Qed.

Lemma twin_param_sql v w f :
  hole_sql f ->
  twin (fun ph => Generator.with_param_sql (d' ph) v f) (fun ph => Generator.with_param_sql (d' ph) w f) [v] [w].
Proof.
  intros [(a & b & Hf)|(e & Hf)].
  - left. exists [Template.Txt a; Template.Hole; Template.Txt b].
    split; (split; [done|]; intros ph st; cbn; rewrite Hf; unfold after, ret; cbn; by rewrite str_nil_r).
  - right. split; eexists; intros ph st; cbn; by rewrite Hf.
Qed.

Lemma twin_then A B xs ys f :
  hole f -> twin A B xs ys ->
  twin (fun ph => let* s := A ph in ret (f s)) (fun ph => let* s := B ph in ret (f s)) xs ys.
Proof.
  intros (a & b & Hf) [(t & [Ht HA] & [Ht' HB])|[(e & HA) (e' & HB)]].
  - left. exists ([Template.Txt a] ++ t ++ [Template.Txt b])%list.
    split; (split; [rewrite !Template.holes_app; cbn; lia|]); intros ph st; unfold bind;
      [rewrite HA | rewrite HB]; unfold ret; rewrite Hf, !Template.render_app; cbn;
        change (Z.of_nat 0) with 0; by rewrite Z.add_0_r, !str_nil_r.
  - right. split; [exists e | exists e']; intros ph st; unfold bind; [by rewrite HA | by rewrite HB].
Qed.

(** *** Lists of actions *)
Fixpoint render_list (ph : Z -> string) (n : Z) (ts : list (list Template.chunk)) : list string :=
  match ts with
  | [] => []
  | t :: ts => Template.render ph n t :: render_list ph (n + Z.of_nat (Template.holes t)) ts
  end.

Fixpoint glue (sep : string) (ts : list (list Template.chunk)) : list Template.chunk :=
  match ts with
  | [] => []
  | [t] => t
  | t :: ts => (t ++ Template.Txt sep :: glue sep ts)%list
  end.

Lemma render_glue ph n sep ts :
  Template.render ph n (glue sep ts) = String.concat sep (render_list ph n ts).
Proof.
  revert n. induction ts as [|t [|u ts] IH]; intros n; [done..|].
  cbn [glue render_list String.concat]. rewrite Template.render_app. cbn [Template.render].
  f_equal. f_equal. apply IH.
Qed.

Lemma holes_glue sep ts : Template.holes (glue sep ts) = sum_list_with Template.holes ts.
Proof.
  induction ts as [|t [|u ts] IH]; [done|cbn; lia|].
  cbn [glue sum_list_with] in *. rewrite Template.holes_app. cbn [Template.holes]. lia.
Qed.

Definition templated_list (A : actions) (ts : list (list Template.chunk)) (xs : list json) : Prop :=
  sum_list_with Template.holes ts = length xs /\
  forall ph st, A ph st = Ok (render_list ph st.(counter) ts, after st xs).

Definition twin_list (A B : actions) (xs ys : list json) : Prop :=
  (exists ts, templated_list A ts xs /\ templated_list B ts ys) \/ (fails A /\ fails B).

Lemma templated_cons A B t ts xs ys :
  templated A t xs -> templated_list B ts ys ->
  templated_list (fun ph => let* s := A ph in let* ss := B ph in ret (s :: ss)) (t :: ts) (xs ++ ys)%list.
Proof.
  intros [Ht HA] [Hts HB]. split; [cbn; rewrite length_app; lia|].
  intros ph st. unfold bind, ret. rewrite HA, HB, after_app. cbn. by rewrite Ht.
Qed.

(** The lists agree element by element. *)
Lemma twin_traverse {X} (f : (Z -> string) -> X -> M string) (val : X -> list json) l m :
  Forall2 (fun x y => twin (fun ph => f ph x) (fun ph => f ph y) (val x) (val y)) l m ->
  twin_list (fun ph => traverse (f ph) l) (fun ph => traverse (f ph) m) (flat_map val l) (flat_map val m).
Proof.
  induction 1 as [|x y l m Hxy Hlm IH].
  - left. exists []. split; (split; [done|]); intros ph st; cbn; by rewrite after_nil.
  - destruct Hxy as [(t & Hx & Hy)|[(e & Hx) (e' & Hy)]].
    + destruct IH as [(ts & Hl & Hm)|[(e & Hl) (e' & Hm)]].
      * left. exists (t :: ts). split; by apply templated_cons.
      * right. destruct Hx as [_ Hx], Hy as [_ Hy].
        split; [exists e | exists e']; intros ph st; cbn; unfold bind; [by rewrite Hx, Hl | by rewrite Hy, Hm].
    + right. split; [exists e | exists e']; intros ph st; cbn; unfold bind; [by rewrite Hx | by rewrite Hy].
Qed.

(** Join the texts of a list between two texts. *)
Lemma twin_join A B xs ys sep f :
  (exists a b, forall ss, f ss = a ++ String.concat sep ss ++ b) ->
  twin_list A B xs ys ->
  twin (fun ph => let* ss := A ph in ret (f ss)) (fun ph => let* ss := B ph in ret (f ss)) xs ys.
Proof.
  intros (a & b & Hf) [(ts & [Ht HA] & [Ht' HB])|[(e & HA) (e' & HB)]].
  - left. exists (Template.Txt a :: glue sep ts ++ [Template.Txt b])%list.
    split; (split; [cbn; rewrite Template.holes_app, holes_glue; cbn; lia|]); intros ph st; unfold bind;
      [rewrite HA | rewrite HB]; unfold ret; rewrite Hf; cbn [Template.render];
      rewrite Template.render_app, render_glue; cbn; by rewrite str_nil_r.
  - right. split; [exists e | exists e']; intros ph st; unfold bind; [by rewrite HA | by rewrite HB].
Qed.

Lemma twin_join_sql A B xs ys f :
  holes_sql f -> twin_list A B xs ys ->
  twin (fun ph => let* ss := A ph in Generator.of_sql (f ss))
       (fun ph => let* ss := B ph in Generator.of_sql (f ss)) xs ys.
Proof.
  intros [(a & b & Hf)|(e & Hf)] HT.
  - pose proof (twin_join A B xs ys ", " (fun ss => a ++ String.concat ", " ss ++ b)) as HJ.
    destruct HJ as [(t & [Ht HA] & [Ht' HB])|[(e & HA) (e' & HB)]]; [by exists a, b|done| |].
    + left. exists t. split; (split; [done|]); intros ph st; [rewrite <- HA | rewrite <- HB];
        unfold bind; (case_match; [|done]); case_match; by rewrite Hf.
    + right. split; [exists e | exists e']; intros ph st; [rewrite <- (HA ph st) | rewrite <- (HB ph st)];
        unfold bind; (case_match; [|done]); case_match; by rewrite Hf.
  - destruct HT as [(ts & [_ HA] & [_ HB])|[(e1 & HA) (e2 & HB)]]; right; split; eexists; intros ph st;
      unfold bind; first [rewrite HA | rewrite HB]; rewrite ?Hf; done.
Qed.

(** *** The arms of the generator *)
Context (indexed : option (gset string)).

Lemma twin_like v w op f :
  hole f -> value_shape Op.Contains v = value_shape Op.Contains w ->
  twin (fun ph => Generator.like_arm (d' ph) v op f) (fun ph => Generator.like_arm (d' ph) w op f)
    (field_values Op.Contains v) (field_values Op.Contains w).
Proof.
  intros Hf. unfold Generator.like_arm, Generator.require_str. cbn [value_shape field_values].
  destruct (as_str v), (as_str w); intros [=]; [by apply twin_param | apply twin_fail].
Qed.

Definition regex_guard (v : json) : result FraiseQLError () :=
  match as_str v with Some s => Regex.validate_regex_pattern s | None => Ok () end.

Lemma regex_arm_guard d0 fe v ci neg st :
  Generator.regex_arm d0 fe v ci neg st =
  match regex_guard v with
  | Ok _ => Generator.with_param_sql d0 v (fun p => d0.(regex_sql) fe p ci neg) st
  | Err e => Err e
  end.
Proof.
  unfold Generator.regex_arm, regex_guard, bind. destruct (as_str v) as [s|]; [|done].
  by destruct (Regex.validate_regex_pattern s).
Qed.

Lemma twin_ext A A' B B' xs ys :
  (forall ph st, A ph st = A' ph st) -> (forall ph st, B ph st = B' ph st) ->
  twin A' B' xs ys -> twin A B xs ys.
Proof.
  intros EA EB [(t & [Ht HA] & [Ht' HB])|[(e & HA) (e' & HB)]].
  - left. exists t. split; (split; [done|]); intros; [by rewrite EA | by rewrite EB].
  - right. split; [exists e | exists e']; intros; [by rewrite EA | by rewrite EB].
Qed.

Lemma twin_regex fe v w ci neg :
  value_shape Op.Regex v = value_shape Op.Regex w ->
  twin (fun ph => Generator.regex_arm (d' ph) fe v ci neg) (fun ph => Generator.regex_arm (d' ph) fe w ci neg) [v] [w].
Proof.
  intros [= Hs].
  assert (Hg : is_ok (regex_guard v) = is_ok (regex_guard w))
    by (unfold regex_guard; by destruct (as_str v), (as_str w)).
  eapply twin_ext; [intros; apply regex_arm_guard..|]. cbn [regex_sql with_placeholder].
  destruct (regex_guard v), (regex_guard w); try discriminate Hg.
  - apply (twin_param_sql v w (fun p => d.(regex_sql) fe p ci neg)), law_regex.
  - apply twin_fail.
Qed.

Lemma Forall2_same {X Y} (R : X -> Y -> Prop) l m :
  length l = length m -> (forall x y, R x y) -> Forall2 R l m.
Proof. intros Hl HR. revert m Hl. induction l; intros [|]; cbn; intros [=]; constructor; auto. Qed.

Lemma flat_map_singleton {X} (l : list X) : flat_map (fun x => [x]) l = l.
Proof. induction l as [|x l IH]; cbn; [done|]. by rewrite IH. Qed.

Lemma twin_array v w e0 e1 suffix f :
  holes_sql f -> value_shape Op.In v = value_shape Op.In w ->
  twin (fun ph => Generator.array_arm (d' ph) v e0 e1 suffix f)
       (fun ph => Generator.array_arm (d' ph) w e0 e1 suffix f)
    (field_values Op.In v) (field_values Op.In w).
Proof.
  intros Hf. unfold Generator.array_arm. cbn [value_shape field_values].
  destruct (as_array v) as [l|], (as_array w) as [m|]; intros Hl; try discriminate Hl; [injection Hl as Hl|apply twin_fail].
  destruct l as [|x l], m as [|y m]; try discriminate Hl; [apply twin_fail|].
  apply twin_join_sql; [done|]. cbn [default]. unfold id.
  pose proof (twin_traverse (fun ph v => Generator.with_param (d' ph) v (fun p => p ++ suffix)) (fun x => [x])
    (x :: l) (y :: m)) as HT.
  rewrite !flat_map_singleton in HT. apply HT. apply Forall2_same; [done|].
  intros a b. apply twin_param. apply (hole_post (fun p => p)), hole_id.
Qed.

Lemma twin_in fe neg v w :
  value_shape Op.In v = value_shape Op.In w ->
  twin (fun ph => Generator.in_arm (d' ph) fe neg v) (fun ph => Generator.in_arm (d' ph) fe neg w)
    (field_values Op.In v) (field_values Op.In w).
Proof.
  unfold Generator.in_arm. cbn [value_shape field_values].
  destruct (as_array v) as [l|], (as_array w) as [m|]; intros Hl; try discriminate Hl; [injection Hl as Hl|apply twin_fail].
  destruct l as [|x l], m as [|y m]; try discriminate Hl;
    [apply (twin_ret (if neg then d.(always_true) else d.(always_false)))|].
  apply (twin_join _ _ _ _ ", " (fun ss => let s := fe ++ " IN (" ++ String.concat ", " ss ++ ")" in
    if neg then "NOT (" ++ s ++ ")" else s)).
  - destruct neg; [exists ("NOT (" ++ fe ++ " IN ("), "))" | exists (fe ++ " IN ("), ")"];
      intros ss; cbv zeta; by rewrite !str_assoc.
  - cbn [default]. unfold id.
    pose proof (twin_traverse (fun ph => Generator.push_param (d' ph)) (fun x => [x]) (x :: l) (y :: m)) as HT.
    rewrite !flat_map_singleton in HT. apply HT. apply Forall2_same; [done|].
    intros a b. left. exists [Template.Hole].
    split; (split; [done|]); intros ph st; cbn; unfold after; by rewrite str_nil_r.
Qed.

Lemma twin_equality fe op v w :
  value_shape Op.Eq v = value_shape Op.Eq w ->
  twin (fun ph => Generator.equality_arm (d' ph) fe op v) (fun ph => Generator.equality_arm (d' ph) fe op w) [v] [w].
Proof.
  unfold Generator.equality_arm. cbn [value_shape cast_to_numeric cast_to_boolean cast_param_numeric with_placeholder].
  assert (Hn : hole (fun p => d.(cast_to_numeric) fe ++ " " ++ op ++ " " ++ d.(cast_param_numeric) p))
    by (do 4 apply hole_pre; apply law_cast_param).
  destruct (is_number v), (is_number w), (is_boolean v), (is_boolean w); intros Hs; try discriminate Hs;
    apply twin_param; try exact Hn; do 4 apply hole_pre; apply hole_id.
Qed.

Lemma twin_order fe op v w :
  twin (fun ph => Generator.order_arm (d' ph) fe op v) (fun ph => Generator.order_arm (d' ph) fe op w) [v] [w].
Proof.
  apply (twin_param v w (fun p => d.(cast_to_numeric) fe ++ " " ++ op ++ " " ++ d.(cast_param_numeric) p)).
  do 4 apply hole_pre. apply law_cast_param.
Qed.

Lemma twin_len fe op v w :
  twin (fun ph => Generator.len_arm (d' ph) fe op v) (fun ph => Generator.len_arm (d' ph) fe op w) [v] [w].
Proof.
  apply (twin_param v w (fun p => d.(json_array_length) fe ++ " " ++ op ++ " " ++ p)).
  do 4 apply hole_pre. apply hole_id.
Qed.

Lemma twin_field path op v w :
  Op.is_extended op = false -> value_shape op v = value_shape op w ->
  twin (fun ph => Generator.visit_field (d' ph) indexed path op v)
       (fun ph => Generator.visit_field (d' ph) indexed path op w) (field_values op v) (field_values op w).
Proof.
  intros Hop Hs. set (fe := Generator.resolve_field_expr d indexed path).
  destruct op; try discriminate Hop.
  all: try solve
    [ exact (twin_order fe _ v w) | exact (twin_len fe _ v w)
    | exact (twin_param_sql v w (d.(array_contains_sql) fe) (law_array_contains fe))
    | exact (twin_param_sql v w (d.(array_contained_by_sql) fe) (law_array_contained fe))
    | exact (twin_param_sql v w (d.(array_overlaps_sql) fe) (law_array_overlaps fe))
    | exact (twin_param_sql v w (d.(fts_matches_sql) fe) (law_fts_matches fe))
    | exact (twin_param_sql v w (d.(fts_plain_query_sql) fe) (law_fts_plain fe))
    | exact (twin_param_sql v w (d.(fts_phrase_query_sql) fe) (law_fts_phrase fe))
    | exact (twin_param_sql v w (d.(fts_websearch_query_sql) fe) (law_fts_websearch fe))
    | exact (twin_param_sql v w (d.(jaccard_distance_sql) fe) (law_jaccard fe))
    | exact (twin_param_sql v w (d.(vector_distance_sql) _ fe) (law_vector _ fe))
    | exact (twin_param_sql v w (d.(inet_binary_sql) _ fe) (law_inet_binary _ fe))
    | exact (twin_param_sql v w (d.(ltree_depth_sql) _ fe) (law_ltree_depth _ fe))
    | exact (twin_param_sql v w (fun p => d.(ltree_binary_sql) _ fe p _) (law_ltree _ fe _))
    | exact (twin_of_sql (d.(inet_check_sql) fe _))
    | exact (twin_regex fe v w _ _ Hs)
    | exact (twin_equality fe _ v w Hs)
    | exact (twin_in fe _ v w Hs)
    | exact (twin_array v w _ _ _ (d.(ltree_any_lquery_sql) fe) (law_any_lquery fe) Hs)
    | exact (twin_array v w _ _ _ (d.(ltree_lca_sql) fe) (law_lca fe) Hs)
    | exact (twin_param v w (d.(like_sql) fe) (law_like fe))
    | exact (twin_param v w (d.(ilike_sql) fe) (law_ilike fe))
    | exact (twin_like v w _ _ (hole_comp _ _ (law_like fe) (law_concat_both "'%'" "'%'")) Hs)
    | exact (twin_like v w _ _ (hole_comp _ _ (law_ilike fe) (law_concat_both "'%'" "'%'")) Hs)
    | exact (twin_like v w _ _ (hole_comp _ _ (law_like fe) (law_concat_left "'%'")) Hs)
    | exact (twin_like v w _ _ (hole_comp _ _ (law_ilike fe) (law_concat_left "'%'")) Hs)
    | exact (twin_like v w _ _ (hole_comp _ _ (law_like fe) (law_concat_right "'%'")) Hs)
    | exact (twin_like v w _ _ (hole_comp _ _ (law_ilike fe) (law_concat_right "'%'")) Hs) ].
  - exact (twin_param v w (fun p => "NOT (" ++ d.(like_sql) fe p ++ ")")
      (hole_pre _ _ (hole_post _ _ (law_like fe)))).
  - exact (twin_param v w (fun p => "NOT (" ++ d.(ilike_sql) fe p ++ ")")
      (hole_pre _ _ (hole_post _ _ (law_ilike fe)))).
  - injection Hs as Hs. cbn [Generator.visit_field]. rewrite Hs. exact (twin_ret (fe ++ " " ++ _)).
Qed.

Lemma twin_native col cast op v w :
  twin (fun ph => Generator.visit_native_field (d' ph) col cast op v)
       (fun ph => Generator.visit_native_field (d' ph) col cast op w) [v] [w].
Proof.
  set (rhs := fun p => if cast =s "" then p else d.(cast_native_param) p cast).
  assert (Hrhs : hole rhs) by (unfold rhs; destruct (cast =s ""); [apply hole_id | apply law_cast_native]).
  destruct op; try (right; split; eexists; intros ph st; cbn; reflexivity).
  - exact (twin_param v w (fun p => d.(quote_identifier) col ++ " = " ++ rhs p)
      (hole_pre _ _ (hole_pre _ _ Hrhs))).
  - exact (twin_param v w (fun p => d.(quote_identifier) col ++ " " ++ d.(neq_operator) ++ " " ++ rhs p)
      (hole_pre _ _ (hole_pre _ _ (hole_pre _ _ (hole_pre _ _ Hrhs))))).
Qed.

Lemma twin_list_of l m :
  Forall (fun c => forall e, same_shape c e ->
    twin (fun ph => Generator.visit (d' ph) indexed c) (fun ph => Generator.visit (d' ph) indexed e)
      (clause_values c) (clause_values e)) l ->
  Forall2 same_shape l m ->
  Forall2 (fun c e => twin (fun ph => Generator.visit (d' ph) indexed c)
    (fun ph => Generator.visit (d' ph) indexed e) (clause_values c) (clause_values e)) l m.
Proof. intros Hl Hlm. induction Hlm; inversion Hl; subst; constructor; auto. Qed.

(** [visit_and] and [visit_or]. *)
Lemma twin_children l m sep empty :
  Forall2 (fun c e => twin (fun ph => Generator.visit (d' ph) indexed c)
    (fun ph => Generator.visit (d' ph) indexed e) (clause_values c) (clause_values e)) l m ->
  let visit_all (ph : Z -> string) cs := match cs with
    | [] => ret empty
    | _ => let* parts := traverse (Generator.visit (d' ph) indexed) cs in
           ret ("(" ++ String.concat sep parts ++ ")")
    end in
  twin (fun ph => visit_all ph l) (fun ph => visit_all ph m)
    (flat_map clause_values l) (flat_map clause_values m).
Proof.
  intros Hlm. cbv zeta. pose proof (twin_traverse (fun ph => Generator.visit (d' ph) indexed) clause_values l m Hlm) as HT.
  destruct Hlm as [|x y l m Hxy Hlm]; [apply twin_ret|].
  apply (twin_join _ _ _ _ sep (fun parts => "(" ++ String.concat sep parts ++ ")")); [by exists "(", ")"|done].
Qed.

Lemma twin_visit : forall c e, same_shape c e ->
  twin (fun ph => Generator.visit (d' ph) indexed c) (fun ph => Generator.visit (d' ph) indexed e)
    (clause_values c) (clause_values e).
Proof.
  intros c. induction c as [path op v|l IH|l IH|c IH|col cast op v] using clause_ind';
    intros e He; inversion He as [? ? ? w Hop Hs|? m Hlm|? m Hlm|? e' Hce|? ? ? ? w]; subst; clear He.
  - exact (twin_field path op v w Hop Hs).
  - exact (twin_children l m " AND " d.(always_true) (twin_list_of l m IH Hlm)).
  - exact (twin_children l m " OR " d.(always_false) (twin_list_of l m IH Hlm)).
  - exact (twin_then _ _ _ _ (fun s => "NOT (" ++ s ++ ")")
      (hole_pre _ _ (hole_post (fun p => p) _ hole_id)) (IH e' Hce)).
  - exact (twin_native col cast op v w).
Qed.
End Twins.

Lemma with_own_placeholder d : with_placeholder d d.(placeholder) = d.
Proof. by destruct d. Qed.

Section Parameters.
Context (d : SqlDialect) (laws : DialectLaws d) (indexed : option (gset string)).

(** What a clause and one of its shape generate. *)
Lemma generate_twin c e offset sql ps :
  same_shape c e -> Generator.generate_with_param_offset d indexed c offset = Ok (sql, ps) ->
  exists t, Template.holes t = length ps /\ ps = clause_values c /\
    (forall ph, Generator.generate_with_param_offset (with_placeholder d ph) indexed c offset =
       Ok (Template.render ph offset t, clause_values c)) /\
    (forall ph, Generator.generate_with_param_offset (with_placeholder d ph) indexed e offset =
       Ok (Template.render ph offset t, clause_values e)).
Proof.
  intros Hce Hgen. rewrite <- (with_own_placeholder d) in Hgen. unfold Generator.generate_with_param_offset in *.
  destruct (twin_visit d laws indexed c e Hce) as [(t & [Ht HA] & [Ht' HB])|[(er & HA) _]];
    rewrite HA in Hgen; [|done].
  cbn in Hgen. injection Hgen as <- <-. exists t. split; [done|]. split; [done|].
  split; intros ph; [by rewrite HA | by rewrite HB].
Qed.

(** C5. For a clause without rich-type operators ([standard]; every clause read
    from a GraphQL argument is one: [from_graphql_plain]), in a dialect that keeps
    the interface's laws, the SQL is a template fixed by the clause: it has one
    hole for each bound value, in the order of the values, filled by the
    placeholders numbered from [offset + 1], and the values are those of the
    clause from left to right.  Rich-type operators break the numbering:
    [extended_placeholder_collision]. *)
Theorem where_placeholders c offset sql ps :
  standard c = true -> Generator.generate_with_param_offset d indexed c offset = Ok (sql, ps) ->
  ps = clause_values c /\
  exists t, Template.holes t = length ps /\ sql = Template.render d.(placeholder) offset t /\
    forall ph, Generator.generate_with_param_offset (with_placeholder d ph) indexed c offset =
      Ok (Template.render ph offset t, ps).
Proof.
  intros Hs Hgen. destruct (generate_twin c c offset sql ps) as (t & Ht & -> & Hc & _);
    [by apply same_shape_refl|done|].
  split; [done|]. exists t. split; [done|]. split; [|done].
  specialize (Hc d.(placeholder)). rewrite with_own_placeholder, Hgen in Hc. by injection Hc.
Qed.

(** Values never reach the SQL text: a clause with the same fields and
    operators and other values of the same shape has the same text. *)
Theorem values_stay_out_of_sql c e offset sql ps :
  same_shape c e -> Generator.generate_with_param_offset d indexed c offset = Ok (sql, ps) ->
  Generator.generate_with_param_offset d indexed e offset = Ok (sql, clause_values e).
Proof.
  intros Hce Hgen. destruct (generate_twin c e offset sql ps Hce Hgen) as (t & _ & -> & Hc & He).
  specialize (Hc d.(placeholder)). specialize (He d.(placeholder)).
  rewrite with_own_placeholder in *. rewrite Hgen in Hc. injection Hc as ->. done.
Qed.

(** The same for what a GraphQL argument can ask. *)
Lemma graphql_where_values v c offset sql ps :
  FromJson.from_graphql_json v = Ok c ->
  Generator.generate_with_param_offset d indexed c offset = Ok (sql, ps) ->
  ps = clause_values c /\ exists t, Template.holes t = length ps /\ sql = Template.render d.(placeholder) offset t.
Proof.
  intros Hc Hgen.
  destruct (generate_twin c c offset sql ps) as (t & Ht & -> & Hcc & _);
    [eapply same_shape_refl, plain_standard, FromJsonFacts.from_graphql_plain; done|done|].
  split; [done|]. exists t. split; [done|].
  specialize (Hcc d.(placeholder)). rewrite with_own_placeholder, Hgen in Hcc. by injection Hcc.
Qed.
End Parameters.

(** Rich-type operators number their placeholders by the length of the vector
    and leave the counter: the next condition reuses their number, and after an
    offset they name parameters of the outer query. *)
Theorem extended_placeholder_collision domain v :
  Generator.generate Postgres.PostgresDialect None
    (And [Field ["email"] (Op.Extended (EmailDomainEq domain)) JNull;
          Field ["name"] Op.Eq (JString v)]) =
  Ok ("(SPLIT_PART(data->>'email', '@', 2) = $1 AND data->>'name' = $1)", [JString domain; JString v]) /\
  Generator.generate_with_param_offset Postgres.PostgresDialect None
    (Field ["email"] (Op.Extended (EmailDomainEq domain)) JNull) 2 =
  Ok ("SPLIT_PART(data->>'email', '@', 2) = $1", [JString domain]).
Proof. split; reflexivity. Qed.

Lemma where_placeholders_witness :
  let c := And [Field ["name"] Op.Icontains (JString "o'b"); Field ["age"] Op.In (JArray [JNull; JBool true])] in
  standard c = true /\
  exists t, Template.holes t = 3%nat /\
    "(data->>'name' ILIKE '%' || $3 || '%' AND data->>'age' IN ($4, $5))" =
      Template.render Postgres.PostgresDialect.(placeholder) 2 t.
Proof.
  cbv zeta. split; [reflexivity|].
  destruct (where_placeholders Postgres.PostgresDialect postgres_laws None
    (And [Field ["name"] Op.Icontains (JString "o'b"); Field ["age"] Op.In (JArray [JNull; JBool true])]) 2
    "(data->>'name' ILIKE '%' || $3 || '%' AND data->>'age' IN ($4, $5))"
    [JString "o'b"; JNull; JBool true]) as (_ & t & Ht & Hr & _); [reflexivity|reflexivity|].
  by exists t.
Defined.

Lemma values_stay_out_of_sql_witness :
  same_shape (Field ["name"] Op.Eq (JString "a")) (Field ["name"] Op.Eq (JString "' OR 1=1")) /\
  Generator.generate_with_param_offset MySql.MySqlDialect None (Field ["name"] Op.Eq (JString "' OR 1=1")) 0 =
    Ok ("JSON_UNQUOTE(JSON_EXTRACT(data, '$.name')) = ?", [JString "' OR 1=1"]).
Proof.
  split; [by constructor|].
  apply (values_stay_out_of_sql MySql.MySqlDialect mysql_laws None (Field ["name"] Op.Eq (JString "a"))
    (Field ["name"] Op.Eq (JString "' OR 1=1")) 0 _ [JString "a"]); [by constructor | reflexivity].
Defined.
