(* ===== verification/SqlText.v ===== *)
(** * Names and patterns inside SQL text

    What path_escape.rs, identifier.rs and [escape_like_literal] achieve in the
    database that reads the text.  The database is not part of the repository:
    how it reads a string literal, a quoted identifier and a LIKE pattern is a
    parameter with the documented rules as laws, and each has an instance. *)

From S2P Require Import Prelude Json WhereClause SqlDialect WhereGenerator WhereSafety.
From Stdlib Require Import Ascii.
#[local] Open Scope Z_scope.
#[local] Open Scope string_scope.

(** ** Quoted text *)

(** [scan] reads from after the opening quote: the text and what follows the
    closing quote.  Two closing quotes stand for one; with [backslash] a
    backslash keeps the character after it. *)
Class QuotedText (close : ascii) (backslash : bool) (scan : string -> option (string * string)) : Prop := {
  scan_double s : scan (String close (String close s)) = (fun r => (String close r.1, r.2)) <$> scan s;
  scan_close s : (forall s', s <> String close s') -> scan (String close s) = Some ("", s);
  scan_char c s : c <> close -> (backslash = true -> c <> "\"%char) ->
    scan (String c s) = (fun r => (String c r.1, r.2)) <$> scan s;
  scan_backslash c s : backslash = true -> c = close \/ c = "\"%char ->
    scan (String "\" (String c s)) = (fun r => (String c r.1, r.2)) <$> scan s
}.

(** A reader with these rules. *)
Fixpoint scan_quoted (close : ascii) (backslash : bool) (s : string) : option (string * string) :=
  match s with
  | EmptyString => None
  | String c rest =>
      if Ascii.eqb c close then
        match rest with
        | String c' rest' =>
            if Ascii.eqb c' close then (fun r => (String close r.1, r.2)) <$> scan_quoted close backslash rest'
            else Some ("", rest)
        | EmptyString => Some ("", rest)
        end
      else if backslash && Ascii.eqb c "\" then
        match rest with
        | String c' rest' => (fun r => (String c' r.1, r.2)) <$> scan_quoted close backslash rest'
        | EmptyString => None
        end
      else (fun r => (String c r.1, r.2)) <$> scan_quoted close backslash rest
  end.

#[export] Instance scan_quoted_laws close backslash :
  close <> "\"%char -> QuotedText close backslash (scan_quoted close backslash).
Proof.
  intros Hc. split; [intros s | intros s Hs | intros c s Hcc Hb | intros c s -> Hcs]; cbn -[Ascii.eqb].
  - by rewrite !Ascii.eqb_refl.
  - rewrite Ascii.eqb_refl. destruct s as [|c s]; [done|].
    destruct (Ascii.eqb_spec c close) as [->|]; [by destruct (Hs s)|done].
  - apply Ascii.eqb_neq in Hcc. rewrite Hcc.
    destruct backslash; [|done]. specialize (Hb eq_refl). apply Ascii.eqb_neq in Hb. by rewrite Hb.
  - destruct (Ascii.eqb_spec "\" close) as [E|E]; [by destruct Hc|]. by rewrite Ascii.eqb_refl.
Qed.

Definition ends_literal (close : ascii) (rest : string) : Prop := forall s, rest <> String close s.

Fixpoint has_char (c : ascii) (s : string) : bool :=
  match s with EmptyString => false | String x s => Ascii.eqb x c || has_char c s end.

Section Quoted.
Context (close : ascii) (scan : string -> option (string * string)).
Context (laws : QuotedText close false scan).

(** Doubling the closing character keeps any name inside its quotes. *)
Lemma scan_doubled s rest :
  ends_literal close rest ->
  scan (replace_char close (String close (String close "")) s ++ String close rest) = Some (s, rest).
Proof.
  intros Hr. induction s as [|c s IH]; cbn [replace_char].
  - rewrite str_nil. by apply (scan_close (backslash := false)).
  - destruct (Ascii.eqb_spec c close) as [->|Hc].
    + rewrite str_assoc, !str_cons, str_nil, (scan_double (backslash := false)), IH. done.
    + rewrite str_cons, (scan_char (backslash := false)), IH by done. done.
Qed.
End Quoted.

(** ** Paths *)

(** The arrows of a PostgreSQL expression, read by the database. *)
Inductive reads_arrows (scan : string -> option (string * string)) : string -> list string -> Prop :=
| RALast body p : scan body = Some (p, "") -> reads_arrows scan ("->>'" ++ body) [p]
| RAMore body p rest ps :
    scan body = Some (p, rest) -> reads_arrows scan rest ps -> reads_arrows scan ("->'" ++ body) (p :: ps).

Section Paths.
Context (scan : string -> option (string * string)).
Context (laws : QuotedText "'" false scan).

Lemma arrows_no_quote l : ends_literal "'" (Postgres.arrows l).
Proof. intros s. destruct l as [|x [|y l]]; cbn; done. Qed.

Lemma arrows_read path :
  path <> [] -> reads_arrows scan (Postgres.arrows (PathEscape.escape_postgres_jsonb_path path)) path.
Proof.
  induction path as [|p path IH]; [done|]. intros _.
  destruct path as [|q path].
  - cbn. constructor. apply (scan_doubled "'" scan laws). done.
  - apply (RAMore scan (PathEscape.escape_postgres_jsonb_segment p
      ++ String "'" (Postgres.arrows (PathEscape.escape_postgres_jsonb_path (q :: path)))) p
      (Postgres.arrows (PathEscape.escape_postgres_jsonb_path (q :: path)))).
    + apply (scan_doubled "'" scan laws), arrows_no_quote.
    + by apply IH.
Qed.

(** C7. With standard string literals the segments of a path stay inside the
    literals written for them, whatever characters they hold. *)
Theorem names_stay_in_literals column path :
  path <> [] ->
  (exists text, Postgres.json_extract_scalar column path = column ++ text /\ reads_arrows scan text path) /\
  (exists body, Sqlite.SqliteDialect.(json_extract_scalar) column path = "json_extract(" ++ column ++ ", '" ++ body /\
     scan body = Some ("$." ++ String.concat "." path, ")")) /\
  (exists body, SqlServer.SqlServerDialect.(json_extract_scalar) column path = "JSON_VALUE(" ++ column ++ ", '" ++ body /\
     scan body = Some ("$." ++ String.concat "." path, ")")).
Proof.
  intros Hp. split; [|split].
  - exists (Postgres.arrows (PathEscape.escape_postgres_jsonb_path path)).
    split; [by destruct path as [|p [|q path]] | by apply arrows_read].
  - eexists. split; [reflexivity|]. apply (scan_doubled "'" scan laws ("$." ++ String.concat "." path) ")"). done.
  - eexists. split; [reflexivity|]. apply (scan_doubled "'" scan laws ("$." ++ String.concat "." path) ")"). done.
Qed.
End Paths.

(** ** Identifiers *)
Lemma identifier_closed close scan name rest :
  QuotedText close false scan -> ends_literal close rest ->
  scan (replace_char close (String close (String close "")) name ++ String close rest) = Some (name, rest).
Proof. intros laws. apply (scan_doubled close scan laws). Qed.

(** ** MySQL *)
Section MySqlLiterals.
Context (scan : string -> option (string * string)).
Context (laws : QuotedText "'" true scan).

Lemma replace_no_char c r s : has_char c s = false -> replace_char c r s = s.
Proof.
  induction s as [|x s IH]; cbn; [done|]. intros [Hx Hs]%orb_false_iff. by rewrite Hx, IH.
Qed.

Lemma has_char_head c s : has_char c (String c s) = true.
Proof. cbn [has_char]. by rewrite Ascii.eqb_refl. Qed.

(** MySQL reads a backslash in a literal as an escape unless the server runs
    with [NO_BACKSLASH_ESCAPES]; the path keeps its backslashes, so a segment
    that starts with a backslash and a quote closes the literal and what it
    holds after them is read as SQL. *)
Theorem mysql_path_breaks_out column injected :
  injected <> "" -> has_char "'" injected = false ->
  exists body,
    MySql.MySqlDialect.(json_extract_scalar) column [String "\" (String "'" injected)] =
      "JSON_UNQUOTE(JSON_EXTRACT(" ++ column ++ ", '" ++ body /\
    scan body = Some ("$.'", injected ++ "'))").
Proof.
  intros Hne Hi. eexists. split; [reflexivity|].
  change (scan (String "$" (String "." (String "\" (String "'" (String "'"
    (replace_char "'" "''" injected ++ "'))"))))))
    = Some ("$.'", injected ++ "'))")).
  rewrite replace_no_char by done.
  rewrite 2!(scan_char (backslash := true)) by done.
  rewrite (scan_backslash (backslash := true)) by auto.
  rewrite (scan_close (backslash := true)); [done|].
  intros s'. destruct injected as [|c inj]; [done|]. rewrite str_cons. intros [= -> _].
  by rewrite has_char_head in Hi.
Qed.
End MySqlLiterals.

(** ** LIKE patterns *)

(** The rules of LIKE: [%] matches any text, [_] one character, and with
    [escape] a backslash makes the character after it an ordinary one.  Only
    PostgreSQL and MySQL have the backslash as their default escape. *)
Class LikeRules (escape : bool) (like : string -> string -> bool) : Prop := {
  like_nil t : like t "" = match t with EmptyString => true | _ => false end;
  like_percent t p :
    like t (String "%" p) = like t p || match t with EmptyString => false | String _ t => like t (String "%" p) end;
  like_underscore t p :
    like t (String "_" p) = match t with EmptyString => false | String _ t => like t p end;
  like_char t c p : c <> "%"%char -> c <> "_"%char -> (escape = true -> c <> "\"%char) ->
    like t (String c p) = match t with EmptyString => false | String x t => Ascii.eqb x c && like t p end;
  like_escape t c p : escape = true ->
    like t (String "\" (String c p)) =
      match t with EmptyString => false | String x t => Ascii.eqb x c && like t p end
}.

Section Like.
Context (like : string -> string -> bool) (laws : LikeRules true like).

Lemma escape_cons c s :
  escape_like_literal (String c s) =
  (if Ascii.eqb c "%" || Ascii.eqb c "_" || Ascii.eqb c "\" then "\" else "")
    ++ String c (escape_like_literal s).
Proof.
  unfold escape_like_literal. cbn [replace_char].
  destruct (Ascii.eqb_spec c "%") as [->|H1]; [done|].
  destruct (Ascii.eqb_spec c "_") as [->|H2]; [done|].
  destruct (Ascii.eqb_spec c "\") as [->|H3]; [done|].
  cbn [replace_char orb]. apply Ascii.eqb_neq in H1, H2. rewrite H1. cbn [replace_char]. by rewrite H2.
Qed.

(** An escaped text in a pattern matches that text. *)
Lemma like_literal s t p :
  like t (escape_like_literal s ++ p) = true <-> exists t', t = s ++ t' /\ like t' p = true.
Proof.
  revert t. induction s as [|c s IH]; intros t.
  - change (escape_like_literal "") with "". rewrite str_nil. split; [intros H; by exists t | by intros (? & -> & ?)].
  - assert (E : like t (escape_like_literal (String c s) ++ p) =
      match t with EmptyString => false | String x t => Ascii.eqb x c && like t (escape_like_literal s ++ p) end).
    { rewrite escape_cons.
      destruct (Ascii.eqb_spec c "%") as [->|H1]; [apply like_escape; done|].
      destruct (Ascii.eqb_spec c "_") as [->|H2]; [apply like_escape; done|].
      destruct (Ascii.eqb_spec c "\") as [->|H3]; [apply like_escape; done|].
      cbn [orb]. str_norm. by apply like_char. }
    rewrite E. destruct t as [|x t]; [split; [done | by intros (? & [=] & ?)]|].
    rewrite andb_true_iff, IH. split.
    + intros [->%Ascii.eqb_eq (t' & -> & H)]. exists t'. by rewrite str_cons.
    + intros (t' & Ht & H). rewrite str_cons in Ht. injection Ht as -> ->.
      split; [apply Ascii.eqb_refl | by exists t'].
Qed.

Lemma like_any t p : like t (String "%" p) = true <-> exists a b, t = a ++ b /\ like b p = true.
Proof.
  induction t as [|x t IH]; rewrite like_percent.
  - rewrite orb_false_r. split; [intros H; by exists "", "" | intros (a & b & Ht & H)].
    destruct a as [|? ?]; [rewrite str_nil in Ht; by subst | by rewrite str_cons in Ht].
  - rewrite orb_true_iff, IH. split.
    + intros [H|(a & b & -> & H)]; [by exists "", (String x t) | by exists (String x a), b].
    + intros ([|y a] & b & Ht & H).
      * rewrite str_nil in Ht. subst. by left.
      * rewrite str_cons in Ht. injection Ht as -> ->. right. by exists a, b.
Qed.

Lemma like_rest t : like t "%" = true.
Proof. apply like_any. exists t, "". by rewrite (like_nil (escape := true)), str_nil_r. Qed.

(** Where the backslash escapes, the value bound for contains, startswith and
    endswith matches exactly the texts with that substring, prefix or suffix,
    whatever wildcards the user wrote. *)
Theorem escaped_like_exact path s t :
  (exists v, clause_values (Field path Op.Contains (JString s)) = [JString v] /\
     (like t ("%" ++ v ++ "%") = true <-> exists a b, t = a ++ s ++ b)) /\
  (exists v, clause_values (Field path Op.Startswith (JString s)) = [JString v] /\
     (like t (v ++ "%") = true <-> exists b, t = s ++ b)) /\
  (exists v, clause_values (Field path Op.Endswith (JString s)) = [JString v] /\
     (like t ("%" ++ v) = true <-> exists a, t = a ++ s)).
Proof.
  split; [|split]; exists (escape_like_literal s); (split; [done|]).
  - change ("%" ++ escape_like_literal s ++ "%") with (String "%" (escape_like_literal s ++ "%")).
    rewrite like_any. split.
    + intros (a & b & -> & (b' & -> & _)%like_literal). by exists a, b'.
    + intros (a & b & ->). exists a, (s ++ b). split; [done|]. apply like_literal. exists b. by rewrite like_rest.
  - rewrite like_literal. split; [intros (b & -> & _); by exists b|].
    intros (b & ->). exists b. by rewrite like_rest.
  - change ("%" ++ escape_like_literal s) with (String "%" (escape_like_literal s)). rewrite like_any.
    rewrite <- (str_nil_r (escape_like_literal s)). split.
    + intros (a & b & -> & (b' & -> & Hb')%like_literal). rewrite (like_nil (escape := true)) in Hb'.
      destruct b'; [|done]. exists a. by rewrite str_nil_r.
    + intros (a & ->). exists a, s. split; [done|]. apply like_literal. exists "".
      by rewrite str_nil_r, (like_nil (escape := true)).
Qed.
End Like.

Section LikeWithoutEscape.
Context (like : string -> string -> bool) (laws : LikeRules false like).

Lemma has_charb_app c a b : has_char c (a ++ b) = has_char c a || has_char c b.
Proof. induction a as [|x a IH]; [done|]. rewrite str_cons. cbn [has_char]. by rewrite IH, orb_assoc. Qed.
Lemma has_char_suffix c a b : has_char c b = true -> has_char c (a ++ b) = true.
Proof. intros H. induction a as [|x a IH]; [done|]. rewrite str_cons. cbn [has_char]. by rewrite IH, orb_true_r. Qed.

(** A backslash of the pattern asks for one of the text. *)
Lemma like_needs_backslash p t :
  like t p = true -> has_char "\" p = true -> has_char "\" t = true.
Proof.
  revert t. induction p as [|c p IH]; [done|]. intros t Hl Hp. cbn [has_char] in Hp.
  destruct (Ascii.eqb_spec c "%") as [->|H1].
  { cbn [orb Ascii.eqb Bool.eqb] in Hp. induction t as [|x t IHt]; rewrite like_percent in Hl.
    - rewrite orb_false_r in Hl. by apply IH.
    - apply orb_true_iff in Hl as [Hl|Hl]; [by apply IH|]. cbn [has_char]. by rewrite IHt, orb_true_r. }
  destruct (Ascii.eqb_spec c "_") as [->|H2].
  { cbn [orb Ascii.eqb Bool.eqb] in Hp. rewrite like_underscore in Hl. destruct t as [|x t]; [done|].
    cbn [has_char]. by rewrite IH, orb_true_r. }
  rewrite (like_char (escape := false)) in Hl by done. destruct t as [|x t]; [done|].
  apply andb_true_iff in Hl as [->%Ascii.eqb_eq Hl]. cbn [has_char].
  apply orb_true_iff in Hp as [Hp|Hp]; [by rewrite Hp | by rewrite IH, orb_true_r].
Qed.

Lemma escape_adds_backslash s :
  has_char "%" s || has_char "_" s = true -> has_char "\" (escape_like_literal s) = true.
Proof.
  induction s as [|c s IH]; [done|]. rewrite escape_cons. cbn [has_char]. intros H.
  destruct (Ascii.eqb c "%" || Ascii.eqb c "_" || Ascii.eqb c "\") eqn:E; [done|].
  rewrite !orb_false_iff in E. destruct E as [[E1 E2] E3]. rewrite E1, E2 in H. cbn [orb] in H.
  rewrite str_nil. cbn [has_char]. by rewrite IH, orb_true_r.
Qed.

(** Where no backslash escapes (SQLite and SQL Server, whose dialects add no
    ESCAPE clause) a contains search for a text with [%] or [_] finds no text
    without a backslash, not even the very text it searches. *)
Theorem unescaped_contains_misses path s t :
  has_char "%" s || has_char "_" s = true -> has_char "\" t = false ->
  exists v, clause_values (Field path Op.Contains (JString s)) = [JString v] /\
    like t ("%" ++ v ++ "%") = false.
Proof.
  intros Hs Ht. exists (escape_like_literal s). split; [done|]. apply not_true_iff_false. intros Hl.
  apply like_needs_backslash in Hl; [by rewrite Hl in Ht|].
  apply has_char_suffix. rewrite has_charb_app, escape_adds_backslash; done.
Qed.
End LikeWithoutEscape.

(** ** Instances of the rules *)
Fixpoint like_match (escape : bool) (p : string) {struct p} : string -> bool :=
  match p with
  | EmptyString => fun t => match t with EmptyString => true | _ => false end
  | String c p' =>
      if Ascii.eqb c "%" then
        fix any (t : string) : bool :=
          like_match escape p' t || match t with EmptyString => false | String _ t => any t end
      else if Ascii.eqb c "_" then
        fun t => match t with EmptyString => false | String _ t => like_match escape p' t end
      else if escape && Ascii.eqb c "\" then
        match p' with
        | String e p'' =>
            fun t => match t with EmptyString => false | String x t => Ascii.eqb x e && like_match escape p'' t end
        | EmptyString => fun _ => false
        end
      else fun t => match t with EmptyString => false | String x t => Ascii.eqb x c && like_match escape p' t end
  end.

#[export] Instance like_match_rules escape : LikeRules escape (fun t p => like_match escape p t).
Proof.
  split.
  - done.
  - intros [|x t] p; done.
  - done.
  - intros t c p H1 H2 H3. cbn [like_match]. apply Ascii.eqb_neq in H1, H2. rewrite H1, H2.
    destruct escape; [|done]. specialize (H3 eq_refl). apply Ascii.eqb_neq in H3. by rewrite H3.
  - by intros t c p ->.
Qed.

Lemma names_stay_in_literals_witness :
  QuotedText "'" false (scan_quoted "'" false) /\
  exists text,
    Postgres.json_extract_scalar "data" ["o'brien"; "x' OR 'a'='a"] = "data" ++ text /\
    reads_arrows (scan_quoted "'" false) text ["o'brien"; "x' OR 'a'='a"].
Proof.
  split; [by apply scan_quoted_laws|].
  apply (names_stay_in_literals (scan_quoted "'" false)); [by apply scan_quoted_laws | done].
Defined.

Lemma mysql_path_breaks_out_witness :
  QuotedText "'" true (scan_quoted "'" true) /\
  exists body,
    MySql.MySqlDialect.(json_extract_scalar) "data" ["\' OR 1=1 -- "] =
      "JSON_UNQUOTE(JSON_EXTRACT(" ++ "data" ++ ", '" ++ body /\
    scan_quoted "'" true body = Some ("$.'", " OR 1=1 -- " ++ "'))").
Proof.
  split; [by apply scan_quoted_laws|].
  apply (mysql_path_breaks_out (scan_quoted "'" true)); [by apply scan_quoted_laws | done | reflexivity].
Defined.

Lemma escaped_like_exact_witness :
  LikeRules true (fun t p => like_match true p t) /\
  (exists v, clause_values (Field ["a"] Op.Contains (JString "50%")) = [JString v] /\
     (like_match true ("%" ++ v ++ "%") "a 50% b" = true <-> exists a b, "a 50% b" = a ++ "50%" ++ b)).
Proof.
  split; [apply like_match_rules|].
  exact (proj1 (escaped_like_exact (fun t p => like_match true p t) (like_match_rules true) ["a"] "50%" "a 50% b")).
Defined.

Lemma unescaped_contains_misses_witness :
  LikeRules false (fun t p => like_match false p t) /\
  exists v, clause_values (Field ["a"] Op.Contains (JString "50%")) = [JString v] /\
    like_match false ("%" ++ v ++ "%") "50%" = false.
Proof.
  split; [apply like_match_rules|].
  apply (unescaped_contains_misses (fun t p => like_match false p t) (like_match_rules false)); reflexivity.
Defined.
