(* ===== verification/Graph.v ===== *)
(** * Reachability by worklist

    The facts the graph traversals of fraiseql-core share: a graph is a
    [HashMap<String, HashSet<String>>], a worklist has visited nodes and nodes
    to visit, and a traversal ends with exactly the reachable nodes.  A
    [HashSet] is read in an order of its own, a parameter of the traversals. *)

From S2P Require Import Prelude.
From stdpp Require Import relations fin_maps fin_sets sorting.
#[local] Open Scope Z_scope.

Notation graph := (gmap string (gset string)).

(** [graph.get(x)] read as a set. *)
Definition succs (g : graph) (x : string) : gset string := default ∅ (g !! x).
Definition edge (g : graph) (x y : string) : Prop := y ∈ succs g x.

(** [entry(x).or_default()]. *)
Definition touch (x : string) (g : graph) : graph := <[x := succs g x]> g.
(** [entry(x).or_default().insert(y)]. *)
Definition add_edge (x y : string) (g : graph) : graph := <[x := {[y]} ∪ succs g x]> g.

Lemma edge_touch g x a b : edge (touch x g) a b <-> edge g a b.
Proof.
  unfold edge, touch, succs. destruct (decide (a = x)) as [->|Hne].
  - rewrite lookup_insert_eq. done.
  - by rewrite lookup_insert_ne.
Qed.

Lemma edge_add_edge g x y a b : edge (add_edge x y g) a b <-> edge g a b \/ (a = x /\ b = y).
Proof.
  unfold edge, add_edge, succs. destruct (decide (a = x)) as [->|Hne].
  - rewrite lookup_insert_eq. cbn. set_solver.
  - rewrite lookup_insert_ne by done. intuition congruence.
Qed.

(** What an iteration order is. *)
Class IterOrder (iter : gset string -> list string) : Prop :=
  iter_perm X : iter X ≡ₚ elements X.

#[export] Instance elements_order : IterOrder elements.
Proof. by intros X. Qed.

Lemma tc_last {A} (R : relation A) x y : tc R x y <-> exists z, rtc R x z /\ R z y.
Proof.
  split.
  - induction 1 as [x y Hxy|x y z Hxy Hyz (w & Hw & Hwz)]; [by exists x|].
    exists w. split; [by eapply rtc_l|done].
  - intros (z & Hz & Hzy). eapply tc_rtc_l; [done|]. by apply tc_once.
Qed.

Section Worklist.
Context (g : graph).

(** ** The invariant *)
Definition reach (x y : string) : Prop := rtc (edge g) x y.

Record work (start : string) (visited : gset string) (queue : list string) : Prop := {
  work_sound x : x ∈ visited \/ x ∈ queue -> reach start x;
  work_start : start ∈ visited \/ start ∈ queue;
  work_closed x y : x ∈ visited -> edge g x y -> y ∈ visited \/ y ∈ queue
}.

Lemma work_init start : work start ∅ [start].
Proof.
  split; [intros x [?|?]; [set_solver|] | right; by left | set_solver].
  assert (x = start) as -> by set_solver. apply rtc_refl.
Qed.

(** A node seen before is dropped. *)
Lemma work_drop start V c Q : work start V (c :: Q) -> c ∈ V -> work start V Q.
Proof.
  intros [Hs Hst Hc] HcV. split.
  - intros x [?|?]; apply Hs; [by left | right; by right].
  - destruct Hst as [?|Hst]; [by left|]. apply elem_of_cons in Hst as [->|?]; auto.
  - intros x y Hx Hxy. destruct (Hc x y Hx Hxy) as [?|Hy]; [by left|].
    apply elem_of_cons in Hy as [->|?]; auto.
Qed.

(** A new node is marked and its successors queued. *)
Lemma work_expand start V c Q Q' :
  work start V (c :: Q) ->
  (forall x, x ∈ Q -> x ∈ Q') ->
  (forall x, x ∈ Q' -> x ∈ Q \/ edge g c x) ->
  (forall x, edge g c x -> x ∈ {[c]} ∪ V \/ x ∈ Q') ->
  work start ({[c]} ∪ V) Q'.
Proof.
  intros [Hs Hst Hc] Hkeep Hnew Hall. split.
  - intros x [Hx|Hx].
    + apply elem_of_union in Hx as [->%elem_of_singleton|?]; apply Hs; [right; by left | by left].
    + destruct (Hnew x Hx) as [?|He]; [apply Hs; right; by right|].
      eapply rtc_r; [apply Hs; right; by left | exact He].
  - destruct Hst as [?|Hst]; [left; set_solver|].
    apply elem_of_cons in Hst as [->|?]; [left; set_solver | right; auto].
  - intros x y Hx Hxy. apply elem_of_union in Hx as [->%elem_of_singleton|Hx]; [by apply Hall|].
    destruct (Hc x y Hx Hxy) as [?|Hy]; [left; set_solver|].
    apply elem_of_cons in Hy as [->|?]; [left; set_solver | right; auto].
Qed.

(** An empty worklist has visited exactly what can be reached. *)
Lemma work_done start V : work start V [] -> forall x, x ∈ V <-> reach start x.
Proof.
  intros [Hs Hst Hc] x. split; [intros; apply Hs; by left|].
  assert (HV : start ∈ V) by (destruct Hst; [done|set_solver]).
  intros Hr. clear Hs Hst. induction Hr as [|a b c Hab Hbc IH]; [done|].
  apply IH. destruct (Hc a b HV Hab); [done|set_solver].
Qed.

(** ** Termination: edges that leave nodes not yet expanded *)
Definition pot (V : gset string) : nat :=
  sum_list_with (fun x => size (succs g x)) (elements (dom g ∖ V)).

Lemma succs_outside x : x ∉ dom g -> succs g x = ∅.
Proof. intros H%not_elem_of_dom. unfold succs. by rewrite H. Qed.

Lemma pot_expand c V : c ∉ V -> (pot ({[c]} ∪ V) + size (succs g c))%nat = pot V.
Proof.
  intros Hc. unfold pot. destruct (decide (c ∈ dom g)) as [Hd|Hd].
  - assert (E : elements (dom g ∖ V) ≡ₚ c :: elements (dom g ∖ ({[c]} ∪ V))).
    { rewrite <- elements_union_singleton by set_solver.
      f_equiv. intros x. destruct (decide (x = c)); set_solver. }
    rewrite E. cbn. lia.
  - rewrite (succs_outside c Hd), size_empty.
    replace (dom g ∖ ({[c]} ∪ V)) with (dom g ∖ V) by set_solver. lia.
Qed.

Lemma pot_bound V : (pot V <= pot ∅)%nat.
Proof.
  induction V as [|x V Hx IH] using set_ind_L; [done|]. pose proof (pot_expand x V Hx). lia.
Qed.

(** Enough fuel for any traversal of the graph. *)
Definition enough : nat := S (S (pot ∅)).

(** ** Reading a set in its order *)
Context (iter : gset string -> list string) (order : IterOrder iter).

Lemma elem_of_iter x X : x ∈ iter X <-> x ∈ X.
Proof. by rewrite (iter_perm X), elem_of_elements. Qed.
Lemma NoDup_iter X : NoDup (iter X).
Proof. rewrite (iter_perm X). apply NoDup_elements. Qed.
Lemma length_iter X : length (iter X) = size X.
Proof. by rewrite (iter_perm X). Qed.

(** ** Visited when popped *)
Section OnPop.
(** Where the successors of a node go in the queue. *)
Context (enqueue : list string -> list string -> list string).
Context (enqueue_perm : forall Q new, enqueue Q new ≡ₚ Q ++ new).

(** The successors [filter]ed against the visited nodes, in iteration order. *)
Definition unvisited (V X : gset string) : list string := filter (fun y => y ∉ V) (iter X).

Fixpoint closure (fuel : nat) (V : gset string) (Q : list string) : option (gset string) :=
  match fuel with
  | O => None
  | S fuel =>
      match Q with
      | [] => Some V
      | current :: Q =>
          if decide (current ∈ V) then closure fuel V Q
          else
            let V := {[current]} ∪ V in
            closure fuel V (enqueue Q (unvisited V (succs g current)))
      end
  end.

Lemma length_unvisited V X : (length (unvisited V X) <= size X)%nat.
Proof. unfold unvisited. rewrite <- length_iter. apply length_filter. Qed.

Lemma elem_of_unvisited x V X : x ∈ unvisited V X <-> x ∈ X /\ x ∉ V.
Proof. unfold unvisited. rewrite list_elem_of_filter, elem_of_iter. tauto. Qed.

Lemma elem_of_enqueue x Q new : x ∈ enqueue Q new <-> x ∈ Q \/ x ∈ new.
Proof. by rewrite enqueue_perm, elem_of_app. Qed.

Lemma work_enqueue start V c Q :
  work start V (c :: Q) -> work start ({[c]} ∪ V) (enqueue Q (unvisited ({[c]} ∪ V) (succs g c))).
Proof.
  intros HW. apply (work_expand _ _ _ Q _ HW); intros x; rewrite elem_of_enqueue, ?elem_of_unvisited; auto.
  - intros [?|[? _]]; auto.
  - intros He. destruct (decide (x ∈ {[c]} ∪ V)); auto.
Qed.

Lemma enqueue_measure V c Q : c ∉ V ->
  (length (enqueue Q (unvisited ({[c]} ∪ V) (succs g c))) + pot ({[c]} ∪ V) <= length Q + pot V)%nat.
Proof.
  intros Hc. rewrite enqueue_perm, length_app.
  pose proof (length_unvisited ({[c]} ∪ V) (succs g c)). pose proof (pot_expand c V Hc). lia.
Qed.

Lemma closure_spec start fuel V Q :
  (length Q + pot V < fuel)%nat -> work start V Q ->
  exists W, closure fuel V Q = Some W /\ forall x, x ∈ W <-> reach start x.
Proof.
  revert V Q. induction fuel as [|fuel IH]; intros V Q Hf HW; [lia|]. cbn [closure].
  destruct Q as [|c Q]; [eexists; split; [done|]; by apply work_done|].
  cbn in Hf. destruct (decide (c ∈ V)) as [Hc|Hc].
  - apply IH; [lia|]. by eapply work_drop.
  - apply IH; [pose proof (enqueue_measure V c Q Hc); lia|]. by apply work_enqueue.
Qed.

Lemma closure_reach start :
  exists W, closure enough ∅ [start] = Some W /\ forall x, x ∈ W <-> reach start x.
Proof. apply closure_spec; [cbn; unfold enough; lia | apply work_init]. Qed.

(** The same walk, stopped at a target when it is popped. *)
Fixpoint finds (fuel : nat) (target : string) (V : gset string) (Q : list string) : option bool :=
  match fuel with
  | O => None
  | S fuel =>
      match Q with
      | [] => Some false
      | current :: Q =>
          if current =s target then Some true
          else if decide (current ∈ V) then finds fuel target V Q
          else
            let V := {[current]} ∪ V in
            finds fuel target V (enqueue Q (unvisited V (succs g current)))
      end
  end.

Lemma finds_spec start target fuel V Q :
  (length Q + pot V < fuel)%nat -> work start V Q -> target ∉ V ->
  exists b, finds fuel target V Q = Some b /\ (b = true <-> reach start target).
Proof.
  revert V Q. induction fuel as [|fuel IH]; intros V Q Hf HW HV; [lia|]. cbn [finds].
  destruct Q as [|c Q].
  { exists false. split; [done|]. split; [done|]. intros Hr. by apply (work_done _ _ HW) in Hr. }
  cbn in Hf. destruct (String.eqb_spec c target) as [->|Hne].
  { exists true. split; [done|]. split; [|done]. intros _. apply (work_sound _ _ _ HW). right. by left. }
  destruct (decide (c ∈ V)) as [Hc|Hc].
  - apply IH; [lia| |done]. by eapply work_drop.
  - apply IH; [pose proof (enqueue_measure V c Q Hc); lia|by apply work_enqueue|set_solver].
Qed.

Lemma finds_reach start target :
  exists b, finds enough target ∅ [start] = Some b /\ (b = true <-> reach start target).
Proof. apply finds_spec; [cbn; unfold enough; lia | apply work_init | set_solver]. Qed.
End OnPop.

(** ** Visited when pushed *)
Definition mark (acc : gset string * list string) (y : string) : gset string * list string :=
  if decide (y ∈ acc.1) then acc else ({[y]} ∪ acc.1, acc.2 ++ [y]).

Fixpoint spread (fuel : nat) (V : gset string) (Q : list string) : option (gset string) :=
  match fuel with
  | O => None
  | S fuel =>
      match Q with
      | [] => Some V
      | current :: Q =>
          let '(V, Q) := foldl mark (V, Q) (iter (succs g current)) in spread fuel V Q
      end
  end.

(** The new nodes of one round, each once. *)
Lemma foldl_mark l V Q :
  exists new, foldl mark (V, Q) l = (list_to_set new ∪ V, Q ++ new) /\
    NoDup new /\ (length new <= length l)%nat /\ forall x, x ∈ new <-> x ∈ l /\ x ∉ V.
Proof.
  revert V Q. induction l as [|y l IH]; intros V Q; cbn [foldl].
  { exists []. rewrite app_nil_r. split; [f_equal; set_solver|]. split; [constructor|]. split; [done|set_solver]. }
  unfold mark at 2. cbn [fst snd]. destruct (decide (y ∈ V)) as [HV|HV].
  - destruct (IH V Q) as (new & -> & Hnd & Hlen & Hin). exists new.
    split; [done|]. split; [done|]. split; [cbn; lia|]. intros x. rewrite Hin. set_solver.
  - destruct (IH ({[y]} ∪ V) (Q ++ [y])) as (new & -> & Hnd & Hlen & Hin). exists (y :: new).
    split; [rewrite <- app_assoc; cbn; f_equal; set_solver|].
    split; [constructor; [rewrite Hin; set_solver|done]|].
    split; [cbn; lia|]. intros x. rewrite elem_of_cons, Hin. destruct (decide (x = y)); set_solver.
Qed.

(** [E] are the nodes popped so far. *)
Lemma spread_spec start fuel E V Q :
  (length Q + pot E < fuel)%nat -> work start E Q -> V = E ∪ list_to_set Q ->
  NoDup Q -> (forall x, x ∈ Q -> x ∉ E) ->
  exists W, spread fuel V Q = Some W /\ forall x, x ∈ W <-> reach start x.
Proof.
  revert E V Q. induction fuel as [|fuel IH]; intros E V Q Hf HW -> Hnd Hdis; [lia|]. cbn [spread].
  destruct Q as [|c Q].
  { eexists. split; [done|]. intros x. rewrite <- (work_done _ _ HW). set_solver. }
  apply NoDup_cons in Hnd as [HcQ Hnd]. assert (HcE : c ∉ E) by (apply Hdis; by left).
  destruct (foldl_mark (iter (succs g c)) (E ∪ list_to_set (c :: Q)) Q) as (new & -> & Hnew & Hlen & Hin).
  rewrite length_iter in Hlen. pose proof (pot_expand c E HcE). cbn [length] in Hf.
  apply (IH ({[c]} ∪ E)).
  - rewrite length_app. lia.
  - apply (work_expand _ _ _ Q _ HW); intros x; rewrite elem_of_app, ?Hin, ?elem_of_iter; [auto|tauto|].
    intros He. destruct (decide (x ∈ E ∪ list_to_set (c :: Q))) as [Hx|Hx]; [|auto]. set_solver.
  - rewrite list_to_set_app_L. set_solver.
  - apply list.NoDup_app. split; [done|]. split; [|done]. intros x Hx Hn. apply Hin in Hn as [_ Hn]. set_solver.
  - intros x [Hx|Hx]%elem_of_app; [specialize (Hdis x); set_solver|]. apply Hin in Hx as [_ Hx]. set_solver.
Qed.

Lemma spread_reach start :
  exists W, spread enough {[start]} [start] = Some W /\ forall x, x ∈ W <-> reach start x.
Proof.
  apply (spread_spec start _ ∅); [cbn; unfold enough; lia | apply work_init | set_solver | | set_solver].
  apply NoDup_singleton.
Qed.

(** ** A path of at least one edge *)
Fixpoint path_loop (fuel : nat) (target : string) (V : gset string) (Q : list string) : option bool :=
  match fuel with
  | O => None
  | S fuel =>
      match Q with
      | [] => Some false
      | current :: Q =>
          if decide (current ∈ V) then path_loop fuel target V Q
          else
            let deps := iter (succs g current) in
            if existsb (fun dep => dep =s target) deps then Some true
            else path_loop fuel target ({[current]} ∪ V) (Q ++ deps)
      end
  end.

Lemma path_spec start target fuel V Q :
  (length Q + pot V < fuel)%nat -> work start V Q -> (forall x, x ∈ V -> ~ edge g x target) ->
  exists b, path_loop fuel target V Q = Some b /\ (b = true <-> tc (edge g) start target).
Proof.
  revert V Q. induction fuel as [|fuel IH]; intros V Q Hf HW HV; [lia|]. cbn [path_loop].
  destruct Q as [|c Q].
  { exists false. split; [done|]. split; [done|]. intros Ht. exfalso.
    apply tc_last in Ht as (x & Hx & He). by apply (HV x); [apply (work_done _ _ HW)|]. }
  cbn in Hf. destruct (decide (c ∈ V)) as [Hc|Hc]; [apply IH; [lia| |done]; by eapply work_drop|].
  destruct (existsb _ _) eqn:Eb.
  - exists true. split; [done|]. split; [|done]. intros _.
    apply existsb_exists in Eb as (y & Hy%list_elem_of_In & ->%String.eqb_eq). apply elem_of_iter in Hy.
    apply tc_last. exists c. split; [|done]. apply (work_sound _ _ _ HW). right. by left.
  - apply IH.
    + rewrite length_app, length_iter. pose proof (pot_expand c V Hc). lia.
    + apply (work_expand _ _ _ Q _ HW); intros x; rewrite elem_of_app, ?elem_of_iter; auto.
    + intros x [->%elem_of_singleton|Hx]%elem_of_union; [|by apply HV]. intros He.
      apply not_true_iff_false in Eb. apply Eb, existsb_exists. exists target.
      split; [by apply list_elem_of_In, elem_of_iter | apply String.eqb_refl].
Qed.

Lemma path_reach start target :
  exists b, path_loop enough target ∅ [start] = Some b /\ (b = true <-> tc (edge g) start target).
Proof. apply path_spec; [cbn; unfold enough; lia | apply work_init | set_solver]. Qed.
End Worklist.

(** ** Cycles *)
Definition acyclic (g : graph) : Prop := forall x, ~ tc (edge g) x x.

Lemma reach_edge_mono (g g' : graph) x y :
  (forall a b, edge g a b -> edge g' a b) -> rtc (edge g) x y -> rtc (edge g') x y.
Proof. intros H. induction 1; [done|]. eapply rtc_l; eauto. Qed.

Lemma tc_add_edge g x y a b :
  tc (edge (add_edge x y g)) a b -> tc (edge g) a b \/ (rtc (edge g) a x /\ rtc (edge g) y b).
Proof.
  induction 1 as [a b Hab|a c b Hac Hcb IH].
  - apply edge_add_edge in Hab as [?|[-> ->]]; [left; by apply tc_once | right; by split].
  - apply edge_add_edge in Hac as [Hac|[-> ->]]; destruct IH as [IH|[IH1 IH2]].
    + left. by eapply tc_l.
    + right. split; [by eapply rtc_l|done].
    + right. split; [done|by apply tc_rtc].
    + right. by split.
Qed.

(** A new edge closes a cycle just when its head reaches its tail. *)
Lemma acyclic_add_edge g x y :
  acyclic g -> (acyclic (add_edge x y g) <-> ~ rtc (edge g) y x).
Proof.
  intros Hg. split.
  - intros Ha Hr. apply (Ha x).
    eapply tc_rtc_r; [apply tc_once; apply edge_add_edge; by right|].
    eapply reach_edge_mono; [|exact Hr]. intros a b. rewrite edge_add_edge. auto.
  - intros Hn z [Hz|[Hzx Hyz]]%tc_add_edge; [by apply (Hg z)|]. apply Hn. by etrans.
Qed.
