(* ===== verification/Cascade.v ===== *)
(** * Cascading cache invalidation

    crates/fraiseql-core/src/cache/cascade_invalidator.rs: the dependencies
    between views and what an invalidation reaches. *)

From S2P Require Import Prelude Json WhereClause Graph.
From stdpp Require Import relations fin_maps fin_sets.
#[local] Open Scope Z_scope.

Record InvalidationStats : Type := mkStats {
  total_cascades : Z;
  total_invalidated : Z;
  average_affected : f64;
  max_affected : Z
}.
Definition default_stats : InvalidationStats := mkStats 0 0 f64_zero 0.

(** [view_dependencies]: what a view depends on; [dependents]: the reverse. *)
Record CascadeInvalidator : Type := mkInvalidator {
  view_dependencies : graph;
  dependents : graph;
  stats : InvalidationStats
}.

Definition new : CascadeInvalidator := mkInvalidator ∅ ∅ default_stats.

Section Invalidator.
Context (iter : gset string -> list string).

(** [VecDeque]: popped at the front, pushed at the back. *)
Definition push_back (queue added : list string) : list string := queue ++ added.

(** A traversal of the graph [g]; the fuel is never used up ([Graph.enough]). *)
Definition can_reach (c : CascadeInvalidator) (from target : string) : bool :=
  let g := c.(view_dependencies) in
  default false (finds g iter push_back (enough g) target ∅ [from]).

Definition error_path : option string := Some "cascade_invalidator::add_dependency".

Definition add_dependency (dependent dependency : string) (c : CascadeInvalidator)
  : result FraiseQLError () * CascadeInvalidator :=
  if dependent =s dependency
  then (Err (Validation (Text "View cannot depend on itself") error_path), c)
  else if can_reach c dependency dependent
  then (Err (Validation (Text ("Adding dependency '" ++ dependent ++ "' → '" ++ dependency
              ++ "' would create a cycle")) error_path), c)
  else
    (Ok (), mkInvalidator (add_edge dependent dependency c.(view_dependencies))
              (add_edge dependency dependent c.(dependents)) c.(stats)).

Definition reached (c : CascadeInvalidator) (view : string) : gset string :=
  let g := c.(dependents) in default ∅ (spread g iter (enough g) {[view]} [view]).

Definition count_cascade (n : nat) (s : InvalidationStats) : InvalidationStats :=
  let cascades := u64_wrap (s.(total_cascades) + 1) in
  let invalidated := u64_wrap (s.(total_invalidated) + Z.of_nat n) in
  mkStats cascades invalidated
    (if 0 <? cascades then f64_div (f64_of_Z invalidated) (f64_of_Z cascades) else s.(average_affected))
    (Z.max s.(max_affected) (Z.of_nat n)).

Definition cascade_invalidate (view : string) (c : CascadeInvalidator)
  : result FraiseQLError (gset string) * CascadeInvalidator :=
  let invalidated := reached c view in
  (Ok invalidated,
   mkInvalidator c.(view_dependencies) c.(dependents) (count_cascade (size invalidated) c.(stats))).

Definition get_direct_dependents (c : CascadeInvalidator) (view : string) : gset string :=
  succs c.(dependents) view.
Definition get_direct_dependencies (c : CascadeInvalidator) (view : string) : gset string :=
  succs c.(view_dependencies) view.
Definition get_transitive_dependents (c : CascadeInvalidator) (view : string) : gset string := reached c view.

Definition has_dependency_path (c : CascadeInvalidator) (dependent dependency : string) : bool :=
  let g := c.(view_dependencies) in default false (path_loop g iter (enough g) dependency ∅ [dependent]).

Definition clear (c : CascadeInvalidator) : CascadeInvalidator := new.

Definition view_count (c : CascadeInvalidator) : nat :=
  size (dom c.(dependents) ∪ dom c.(view_dependencies)).
Definition dependency_count (c : CascadeInvalidator) : nat :=
  sum_list_with (fun kv => size kv.2) (map_to_list c.(view_dependencies)).

(** ** The operations as steps *)
Inductive op : Type :=
| AddDependency (dependent dependency : string)
| CascadeInvalidate (view : string)
| Clear.

Definition exec_op (o : op) (c : CascadeInvalidator) : CascadeInvalidator :=
  match o with
  | AddDependency x y => (add_dependency x y c).2
  | CascadeInvalidate v => (cascade_invalidate v c).2
  | Clear => clear c
  end.

Definition run (ops : list op) : CascadeInvalidator := fold_left (fun c o => exec_op o c) ops new.

(** ** Invariant *)
Context (order : IterOrder iter).

Record wf (c : CascadeInvalidator) : Prop := {
  wf_reverse x y : edge c.(view_dependencies) x y <-> edge c.(dependents) y x;
  wf_acyclic : acyclic c.(view_dependencies)
}.

Lemma edge_empty x y : ~ edge ∅ x y.
Proof. unfold edge, succs. rewrite lookup_empty. set_solver. Qed.

Lemma new_wf : wf new.
Proof.
  split; cbn.
  - intros x y. split; intros H; by apply edge_empty in H.
  - intros x Hx. apply tc_last in Hx as (z & _ & Hz). by apply edge_empty in Hz.
Qed.

Lemma can_reach_spec c x y : can_reach c x y = true <-> rtc (edge c.(view_dependencies)) x y.
Proof.
  unfold can_reach. destruct (finds_reach c.(view_dependencies) iter order push_back) with (start := x) (target := y)
    as (b & -> & Hb); [done|exact Hb].
Qed.

Lemma add_dependency_wf x y c : wf c -> wf (add_dependency x y c).2.
Proof.
  intros [Hr Ha]. unfold add_dependency.
  destruct (String.eqb_spec x y); [by split|]. destruct (can_reach c y x) eqn:Hc; [by split|].
  split; cbn.
  - intros a b. rewrite !edge_add_edge, Hr. intuition.
  - apply acyclic_add_edge; [done|]. rewrite <- can_reach_spec, Hc. done.
Qed.

Lemma exec_op_wf o c : wf c -> wf (exec_op o c).
Proof. intros Hc. destruct o; [by apply add_dependency_wf | by destruct Hc | apply new_wf]. Qed.

Lemma run_wf ops : wf (run ops).
Proof.
  unfold run. assert (H : forall c, wf c -> wf (fold_left (fun c o => exec_op o c) ops c)).
  { induction ops as [|o ops IH]; [done|]. intros c Hc. apply IH. by apply exec_op_wf. }
  apply H, new_wf.
Qed.

Lemma dependents_reverse c x y : wf c -> rtc (edge c.(dependents)) x y <-> rtc (edge c.(view_dependencies)) y x.
Proof.
  intros [Hr _]. split; induction 1 as [|a b d Hab Hbd IH]; try done;
    (eapply rtc_r; [exact IH|]); by apply Hr.
Qed.

Lemma reached_spec c view x :
  wf c -> x ∈ reached c view <-> rtc (edge c.(view_dependencies)) x view.
Proof.
  intros Hc. unfold reached.
  destruct (spread_reach c.(dependents) iter order view) as (W & -> & HW). cbn.
  rewrite HW. by apply dependents_reverse.
Qed.

(** C36. Whatever was registered, removed and invalidated before, and in whatever
    order sets are read: the dependencies have no cycle, a dependency is
    refused just when it would close one, and an invalidation reaches the view
    and every view that depends on it, directly or not, and no other. *)
Theorem invalidation_exact ops view x y :
  let c := run ops in
  acyclic c.(view_dependencies) /\
  (is_ok (add_dependency x y c).1 = true <->
     acyclic (add_edge x y c.(view_dependencies))) /\
  (exists invalidated, (cascade_invalidate view c).1 = Ok invalidated /\
     forall v, v ∈ invalidated <-> rtc (edge c.(view_dependencies)) v view) /\
  (has_dependency_path c x y = true <-> tc (edge c.(view_dependencies)) x y).
Proof.
  intros c. pose proof (run_wf ops) as Hwf. fold c in Hwf.
  split; [apply Hwf|]. split; [|split].
  - rewrite acyclic_add_edge by apply Hwf. unfold add_dependency.
    destruct (String.eqb_spec x y) as [->|Hne]; [cbn; split; [done|intros []; done]|].
    rewrite <- can_reach_spec. destruct (can_reach c y x); cbn [is_ok fst]; split; intros H; try done; by destruct H.
  - eexists. split; [done|]. intros v. by apply reached_spec.
  - unfold has_dependency_path.
    destruct (path_reach c.(view_dependencies) iter order x y) as (b & -> & Hb). exact Hb.
Qed.
End Invalidator.

Lemma invalidation_exact_witness :
  let c := run elements [AddDependency "v_user" "v_raw"; AddDependency "v_stats" "v_user"; CascadeInvalidate "v_raw"] in
  (exists invalidated, (cascade_invalidate elements "v_raw" c).1 = Ok invalidated /\
     forall v, v ∈ invalidated <-> rtc (edge c.(view_dependencies)) v "v_raw") /\
  (is_ok (add_dependency elements "v_raw" "v_stats" c).1 = true <->
     acyclic (add_edge "v_raw" "v_stats" c.(view_dependencies))).
Proof.
  cbv zeta.
  destruct (invalidation_exact elements elements_order
    [AddDependency "v_user" "v_raw"; AddDependency "v_stats" "v_user"; CascadeInvalidate "v_raw"]
    "v_raw" "v_raw" "v_stats") as (_ & H1 & H2 & _).
  by split.
Defined.
