(* ===== verification/SchemaGraph.v ===== *)
(** * Schema dependency graph

    crates/fraiseql-core/src/schema/dependency_graph/: the graph (graph.rs),
    its construction from a compiled schema (builder.rs, with the field types
    of field_type.rs), cycles, unused types and the impact of a change
    (analysis.rs, types.rs). *)

From S2P Require Import Prelude Json WhereClause Graph.
From Stdlib Require Import Ascii.
From stdpp Require Import relations fin_maps fin_sets sorting.
#[local] Open Scope Z_scope.

Record SchemaDependencyGraph : Type := mkGraph {
  outgoing : graph;
  incoming : graph;
  all_types : gset string;
  root_types : gset string
}.

Definition CyclePath : Type := list string.

(** [Vec<String>]'s order. *)
Fixpoint path_leb (a b : CyclePath) : bool :=
  match a, b with
  | [], _ => true
  | _, [] => false
  | x :: a, y :: b => if x =s y then path_leb a b else String.ltb x y
  end.
Definition path_le (a b : CyclePath) : Prop := path_leb a b = true.
#[export] Instance path_le_dec a b : Decision (path_le a b) := decide (path_leb a b = true).

(** ** Cycle paths *)
Module Cycle.

(** The position of the smallest name, the first of equals. *)
Fixpoint min_pos_from (i best : nat) (min : string) (l : CyclePath) : nat :=
  match l with
  | [] => best
  | x :: l => if String.ltb x min then min_pos_from (S i) i x l else min_pos_from (S i) best min l
  end.
Definition min_pos (l : CyclePath) : nat :=
  match l with [] => 0 | x :: l => min_pos_from 1 0 x l end.

Definition rotate_left (k : nat) (l : CyclePath) : CyclePath := drop k l ++ take k l.

(** [Vec::dedup]: runs of equal elements become one. *)
Fixpoint dedup (l : list CyclePath) : list CyclePath :=
  match l with
  | [] => []
  | x :: l => match l with
              | y :: _ => if decide (x = y) then dedup l else x :: dedup l
              | [] => [x]
              end
  end.

Definition normalize_cycles (cycles : list CyclePath) : list CyclePath :=
  dedup (merge_sort path_le (map (fun c => rotate_left (min_pos c) c) cycles)).

Definition arrow : string := " → ".
Definition path_string (c : CyclePath) : string :=
  match c with [] => "" | x :: _ => String.concat arrow c ++ arrow ++ x end.
Definition is_self_reference (c : CyclePath) : bool := Nat.eqb (length c) 1.
End Cycle.

(** ** Analysis *)
Module Analysis.
Section Order.
Context (iter : gset string -> list string) (g : SchemaDependencyGraph).

Definition dependencies_of (t : string) : list string := merge_sort str_le (elements (succs g.(outgoing) t)).
Definition dependents_of (t : string) : list string := merge_sort str_le (elements (succs g.(incoming) t)).
Definition all_types_sorted : list string := merge_sort str_le (elements g.(all_types)).
Definition type_count : nat := size g.(all_types).
Definition has_type (t : string) : bool := bool_decide (t ∈ g.(all_types)).

(** *** Cycles *)
Record Dfs : Type := mkDfs {
  visited : gset string;
  rec_stack : gset string;
  path : list string;
  cycles : list CyclePath
}.

(** [path.iter().position(|x| x == dep)]. *)
Fixpoint position (dep : string) (l : list string) : option nat :=
  match l with
  | [] => None
  | x :: l => if x =s dep then Some 0%nat else S <$> position dep l
  end.

Definition report (dep : string) (st : Dfs) : Dfs :=
  match position dep st.(path) with
  | Some start_idx => mkDfs st.(visited) st.(rec_stack) st.(path) (st.(cycles) ++ [drop start_idx st.(path)])
  | None => st
  end.

Definition enter (node : string) (st : Dfs) : Dfs :=
  mkDfs ({[node]} ∪ st.(visited)) ({[node]} ∪ st.(rec_stack)) (st.(path) ++ [node]) st.(cycles).
Definition leave (node : string) (st : Dfs) : Dfs :=
  mkDfs st.(visited) (st.(rec_stack) ∖ {[node]}) (removelast st.(path)) st.(cycles).

(** The loop over the dependencies, over the recursive call. *)
Fixpoint visit_deps (dfs : string -> Dfs -> option Dfs) (deps : list string) (st : Dfs) : option Dfs :=
  match deps with
  | [] => Some st
  | dep :: deps =>
      if decide (dep ∈ st.(visited)) then
        if decide (dep ∈ st.(rec_stack)) then visit_deps dfs deps (report dep st)
        else visit_deps dfs deps st
      else match dfs dep st with Some st => visit_deps dfs deps st | None => None end
  end.

Fixpoint dfs_find_cycles (fuel : nat) (node : string) (st : Dfs) : option Dfs :=
  match fuel with
  | O => None
  | S fuel =>
      leave node <$>
        visit_deps (dfs_find_cycles fuel) (iter (succs g.(outgoing) node)) (enter node st)
  end.

(** One search per type not yet visited, each with a path of its own. *)
Fixpoint search_all (types : list string) (st : Dfs) : option Dfs :=
  match types with
  | [] => Some st
  | t :: types =>
      if decide (t ∈ st.(visited)) then search_all types st
      else
        match dfs_find_cycles (S (size g.(all_types))) t
                (mkDfs st.(visited) st.(rec_stack) [] st.(cycles)) with
        | Some st => search_all types st
        | None => None
        end
  end.

Definition find_cycles : option (list CyclePath) :=
  (fun st => Cycle.normalize_cycles st.(cycles)) <$> search_all (iter g.(all_types)) (mkDfs ∅ ∅ [] []).

(** *** Unused types *)
Definition find_unused : list string :=
  merge_sort str_le
    (filter (fun t => t ∉ g.(root_types) /\ succs g.(incoming) t = ∅) (elements g.(all_types))).

(** *** Transitive queries *)

(** [Vec] as a stack: the last pushed is popped first. *)
Definition push (stack added : list string) : list string := rev added ++ stack.

Definition transitive_dependencies (t : string) : gset string :=
  default ∅ (closure g.(outgoing) iter push (enough g.(outgoing)) ∅ [t]) ∖ {[t]}.
Definition transitive_dependents (t : string) : gset string :=
  default ∅ (closure g.(incoming) iter push (enough g.(incoming)) ∅ [t]) ∖ {[t]}.

Record ChangeImpact : Type := mkImpact { affected_types : gset string; breaking_changes : list string }.
Definition has_impact (c : ChangeImpact) : bool := negb (bool_decide (c.(affected_types) = ∅)).

Definition breaking (dependent type_name : string) : string :=
  ("Type '" ++ dependent ++ "' references '" ++ type_name ++ "' which would be deleted")%string.

Fixpoint impact_loop (fuel : nat) (type_name : string) (V : gset string) (stack : list string)
    (affected : gset string) (changes : list string) : option (gset string * list string) :=
  match fuel with
  | O => None
  | S fuel =>
      match stack with
      | [] => Some (affected, changes)
      | current :: stack =>
          if decide (current ∈ V) then impact_loop fuel type_name V stack affected changes
          else
            let V := {[current]} ∪ V in
            let found := unvisited iter V (succs g.(incoming) current) in
            impact_loop fuel type_name V (push stack found) (list_to_set found ∪ affected)
              (changes ++ map (fun d => breaking d type_name) found)
      end
  end.

Definition impact_of_deletion (t : string) : ChangeImpact :=
  let '(affected, changes) := default (∅, []) (impact_loop (enough g.(incoming)) t ∅ [t] ∅ []) in
  mkImpact (affected ∖ {[t]}) changes.
End Order.
End Analysis.

(** ** What the analysis finds *)
Module AnalysisFacts.
Import Analysis.

(** Consecutive names are edges. *)
Fixpoint chain (g : graph) (l : list string) : Prop :=
  match l with
  | x :: (y :: _) as l => edge g x y /\ chain g l
  | _ => True
  end.

(** An edge from the end of one list to the start of another. *)
Definition link (g : graph) (l m : list string) : Prop :=
  forall x y, last l = Some x -> head m = Some y -> edge g x y.

Definition is_cycle (g : graph) (c : CyclePath) : Prop := c <> [] /\ chain g c /\ link g c c.

Lemma chain_app g l m : chain g (l ++ m) <-> chain g l /\ chain g m /\ link g l m.
Proof.
  unfold link. induction l as [|a l IH]; cbn [app].
  { split; [intros H; split; [done|]; by split | tauto]. }
  destruct l as [|b l].
  - cbn [app chain]. destruct m as [|c m]; cbn [chain head last].
    + split; [intros _; split; [done|]; by split | done].
    + split.
      * intros [H1 H2]. split; [done|]. split; [done|]. by intros ? ? [= <-] [= <-].
      * intros (_ & H2 & H). split; [by apply H|done].
  - cbn [app chain] in *. rewrite IH. change (last (a :: b :: l)) with (last (b :: l)). tauto.
Qed.

Lemma chain_rtc g l x y : chain g l -> head l = Some x -> last l = Some y -> rtc (edge g) x y.
Proof.
  revert x. induction l as [|a l IH]; [done|]. intros x Hc [= <-] Hl.
  destruct l as [|b l]; [injection Hl as ->; apply rtc_refl|].
  destruct Hc as [Hab Hc]. eapply rtc_l; [exact Hab|]. by apply IH.
Qed.

Lemma is_cycle_tc g c : is_cycle g c -> exists x, x ∈ c /\ tc (edge g) x x.
Proof.
  intros (Hne & Hc & Hl). destruct c as [|x c]; [done|]. exists x. split; [by left|].
  destruct (last (x :: c)) as [y|] eqn:Hy; [|by apply last_None in Hy].
  apply tc_last. exists y. split; [by eapply chain_rtc | by apply Hl].
Qed.

(** *** Rotation, sorting and removal of duplicates *)
Lemma head_app_ne {A} (l m : list A) : l <> [] -> head (l ++ m) = head l.
Proof. by destruct l. Qed.
Lemma last_app_ne {A} (l m : list A) : m <> [] -> last (l ++ m) = last m.
Proof. intros H. rewrite last_app. destruct m as [|y m]; [done|]. by destruct (last (y :: m)) eqn:E; [|apply last_None in E]. Qed.

Lemma swap_is_cycle g t d : is_cycle g (t ++ d) -> is_cycle g (d ++ t).
Proof.
  destruct (decide (t = [])) as [->|Ht]; [by rewrite app_nil_r|].
  destruct (decide (d = [])) as [->|Hd]; [by rewrite app_nil_r|].
  intros (_ & (Hct & Hcd & Htd)%chain_app & Hl). split; [by destruct d|]. split.
  - apply chain_app. split; [done|]. split; [done|]. intros x y Hx Hy. apply Hl.
    + by rewrite last_app_ne. + by rewrite head_app_ne.
  - intros x y. rewrite last_app_ne, head_app_ne by done. apply Htd.
Qed.

Lemma rotate_is_cycle g k c : is_cycle g c -> is_cycle g (Cycle.rotate_left k c).
Proof. intros H. apply swap_is_cycle. by rewrite take_drop. Qed.

Lemma elem_of_dedup c l : c ∈ Cycle.dedup l <-> c ∈ l.
Proof.
  induction l as [|x l IH]; [done|]. cbn [Cycle.dedup]. destruct l as [|y l]; [done|].
  destruct (decide (x = y)) as [->|]; rewrite ?elem_of_cons, IH, ?elem_of_cons; tauto.
Qed.

Lemma normalize_spec g cs :
  Forall (is_cycle g) cs ->
  Forall (is_cycle g) (Cycle.normalize_cycles cs) /\ (Cycle.normalize_cycles cs = [] <-> cs = []).
Proof.
  intros Hcs. set (rot := fun c => Cycle.rotate_left (Cycle.min_pos c) c).
  assert (Hin : forall c, c ∈ Cycle.normalize_cycles cs <-> c ∈ map rot cs).
  { intros c. unfold Cycle.normalize_cycles. rewrite elem_of_dedup. fold rot.
    by rewrite (merge_sort_Permutation path_le (map rot cs)). }
  split.
  - apply list.Forall_forall. intros c Hc. apply Hin, list_elem_of_fmap in Hc as (c' & -> & Hc').
    apply rotate_is_cycle. by eapply list.Forall_forall in Hcs.
  - split; [|by intros ->]. intros E. destruct cs as [|c cs]; [done|].
    assert (Hr : rot c ∈ Cycle.normalize_cycles (c :: cs)) by (apply Hin; cbn; by left).
    rewrite E in Hr. by apply elem_of_nil in Hr.
Qed.

(** *** Depth-first search *)
Section Search.
Context (iter : gset string -> list string) (order : IterOrder iter) (sg : SchemaDependencyGraph).
Notation g := (sg.(outgoing)).
Notation all := (sg.(all_types)).
Context (closed : forall x y, edge g x y -> x ∈ all /\ y ∈ all).

(** A list of finished nodes, the last finished first: every edge leads on. *)
Fixpoint topo (l : list string) : Prop :=
  match l with [] => True | x :: l => (forall y, edge g x y -> y ∈ l) /\ topo l end.

Lemma topo_rtc l x y : topo l -> x ∈ l -> rtc (edge g) x y -> y ∈ l.
Proof.
  intros Ht Hx Hr. induction Hr as [|x z y Hxz Hzy IH]; [done|]. apply IH.
  clear IH Hzy. induction l as [|a l IHl]; [by apply elem_of_nil in Hx|].
  destruct Ht as [Ha Ht]. right. apply elem_of_cons in Hx as [->|Hx]; auto.
Qed.

Lemma topo_acyclic l x : topo l -> x ∈ l -> ~ tc (edge g) x x.
Proof.
  induction l as [|a l IH]; intros Ht Hx; [by apply elem_of_nil in Hx|]. destruct Ht as [Ha Ht].
  apply elem_of_cons in Hx as [->|Hx]; [|by apply IH].
  intros Hc. assert (Hal : a ∈ l).
  { inversion Hc as [? ? Haa|? b ? Hab Hba]; subst; [by apply Ha|].
    eapply topo_rtc; [exact Ht | exact (Ha _ Hab) | by apply tc_rtc]. }
  by apply (IH Ht Hal).
Qed.

Record inv (st : Dfs) : Prop := {
  inv_rec : st.(rec_stack) = list_to_set st.(path);
  inv_nodup : NoDup st.(path);
  inv_chain : chain g st.(path);
  inv_path x : x ∈ st.(path) -> x ∈ st.(visited);
  inv_all x : x ∈ st.(visited) -> x ∈ all;
  inv_cycles : Forall (is_cycle g) st.(cycles);
  inv_topo : st.(cycles) = [] -> exists l, topo l /\ forall x, x ∈ l <-> x ∈ st.(visited) /\ x ∉ st.(path)
}.

Record grows (st st' : Dfs) : Prop := {
  grows_path : st'.(path) = st.(path);
  grows_visited x : x ∈ st.(visited) -> x ∈ st'.(visited);
  grows_cycles : exists more, st'.(cycles) = st.(cycles) ++ more
}.

Lemma grows_refl st : grows st st.
Proof. split; [done|done|]. exists []. by rewrite app_nil_r. Qed.
Lemma grows_trans a b c : grows a b -> grows b c -> grows a c.
Proof.
  intros [P1 V1 [m1 C1]] [P2 V2 [m2 C2]]. split; [congruence|auto|].
  exists (m1 ++ m2). by rewrite C2, C1, app_assoc.
Qed.
Lemma grows_no_cycle a b : grows a b -> b.(cycles) = [] -> a.(cycles) = [].
Proof. intros [_ _ [m ->]] H. by apply app_nil in H as [-> _]. Qed.

Lemma position_drop dep l i : position dep l = Some i -> exists pre post, l = pre ++ dep :: post /\ drop i l = dep :: post.
Proof.
  revert i. induction l as [|x l IH]; [done|]. intros i. cbn.
  destruct (String.eqb_spec x dep) as [->|]; [intros [= <-]; by exists [], l|].
  destruct (position dep l) as [j|]; [|done]. intros [= <-].
  destruct (IH j eq_refl) as (pre & post & -> & Hd). by exists (x :: pre), post.
Qed.
Lemma position_None dep l : position dep l = None -> dep ∉ l.
Proof.
  induction l as [|x l IH]; cbn; [intros _; apply not_elem_of_nil|].
  destruct (String.eqb_spec x dep) as [->|]; [done|]. destruct (position dep l); [done|].
  intros _. apply not_elem_of_cons. split; [congruence|auto].
Qed.

(** A back edge reports the cycle it closes. *)
Lemma report_inv node dep st :
  inv st -> last st.(path) = Some node -> edge g node dep -> dep ∈ st.(rec_stack) ->
  inv (report dep st) /\ grows st (report dep st) /\ (report dep st).(cycles) <> [].
Proof.
  intros HI Hlast He Hdep. unfold report.
  destruct (position dep st.(path)) as [i|] eqn:Hp.
  - destruct (position_drop _ _ _ Hp) as (pre & post & Hpath & Hdrop). rewrite Hdrop.
    split; [|split; [split; [done|done|by eexists]|cbn; by destruct (cycles st)]].
    destruct HI. split; try done; cbn; [|intros H; by apply app_nil in H as [_ ?]].
    apply Forall_app. split; [done|]. constructor; [|constructor]. split; [done|]. split.
    + rewrite Hpath in inv_chain0. by apply chain_app in inv_chain0 as (_ & ? & _).
    + intros x y Hx [= <-]. rewrite Hpath, last_app_ne in Hlast by done. congruence.
  - apply position_None in Hp. destruct HI. rewrite inv_rec0 in Hdep. by apply elem_of_list_to_set in Hdep.
Qed.

Definition dfs_ok (k : nat) (dfs : string -> Dfs -> option Dfs) : Prop :=
  forall dep st, inv st -> dep ∉ st.(visited) -> dep ∈ all -> link g st.(path) [dep] ->
    (size (all ∖ st.(visited)) < k)%nat ->
    exists st', dfs dep st = Some st' /\ inv st' /\ grows st st' /\ dep ∈ st'.(visited).

Lemma size_shrinks st st' : grows st st' -> (size (all ∖ st'.(visited)) <= size (all ∖ st.(visited)))%nat.
Proof. intros [_ HV _]. apply subseteq_size. intros x. rewrite !elem_of_difference. naive_solver. Qed.

Lemma visit_deps_spec k dfs node deps st :
  dfs_ok k dfs -> inv st -> last st.(path) = Some node ->
  (forall d, d ∈ deps -> edge g node d) -> (size (all ∖ st.(visited)) < k)%nat ->
  exists st', visit_deps dfs deps st = Some st' /\ inv st' /\ grows st st' /\
    forall d, d ∈ deps -> d ∈ st'.(visited) /\ (st'.(cycles) = [] -> d ∉ st'.(path)).
Proof.
  intros Hdfs. revert st. induction deps as [|d deps IH]; intros st HI Hl Hd Hk; cbn [visit_deps].
  { exists st. split; [done|]. split; [done|]. split; [apply grows_refl|]. intros d H. by apply elem_of_nil in H. }
  assert (He : edge g node d) by (apply Hd; by left).
  assert (Hstep : exists st1, inv st1 /\ grows st st1 /\ d ∈ st1.(visited) /\
            (st1.(cycles) = [] -> d ∉ st1.(path)) /\
            visit_deps dfs (d :: deps) st = visit_deps dfs deps st1).
  { cbn [visit_deps]. destruct (decide (d ∈ st.(visited))) as [HV|HV].
    - destruct (decide (d ∈ st.(rec_stack))) as [HR|HR].
      + destruct (report_inv node d st HI Hl He HR) as (H1 & H2 & H3). exists (report d st).
        split; [done|]. split; [done|]. split; [by apply H2|]. by split.
      + exists st. split; [done|]. split; [apply grows_refl|]. split; [done|]. split; [|done].
        intros _ Hp. apply HR. rewrite (inv_rec _ HI). by apply elem_of_list_to_set.
    - destruct (Hdfs d st HI HV) as (st1 & -> & H1 & H2 & H3);
        [by apply (closed node d) | intros x y Hx [= <-]; congruence | done|].
      exists st1. split; [done|]. split; [done|]. split; [done|]. split; [|done].
      intros _ Hp. rewrite (grows_path _ _ H2) in Hp. by apply HV, (inv_path _ HI). }
  destruct Hstep as (st1 & H1 & H2 & H3 & H4 & Heq). cbn [visit_deps] in Heq. rewrite Heq.
  destruct (IH st1 H1) as (st2 & -> & H5 & H6 & H7).
  - by rewrite (grows_path _ _ H2).
  - intros x Hx. apply Hd. by right.
  - pose proof (size_shrinks _ _ H2). lia.
  - exists st2. split; [done|]. split; [done|]. split; [by eapply grows_trans|].
    intros x [->|Hx]%elem_of_cons; [|by apply H7]. split; [by apply H6|].
    intros Hc. rewrite (grows_path _ _ H6). apply H4. by eapply grows_no_cycle.
Qed.

Lemma enter_inv node st :
  inv st -> node ∉ st.(visited) -> node ∈ all -> link g st.(path) [node] -> inv (enter node st).
Proof.
  intros [] Hn Ha Hl. assert (Hp : node ∉ st.(path)) by auto. split; cbn.
  - rewrite list_to_set_app_L, inv_rec0. set_solver.
  - apply list.NoDup_app. split; [done|]. split; [set_solver|apply NoDup_singleton].
  - by apply chain_app.
  - intros x. set_solver.
  - intros x [->%elem_of_singleton|?]%elem_of_union; auto.
  - done.
  - intros Hc. destruct (inv_topo0 Hc) as (l & Hl1 & Hl2). exists l. split; [done|].
    intros x. rewrite Hl2. rewrite elem_of_union, elem_of_app, elem_of_singleton, list_elem_of_singleton.
    destruct (decide (x = node)) as [->|]; tauto.
Qed.

(** The finished node comes first among the finished. *)
Lemma leave_inv node p st :
  inv st -> st.(path) = p ++ [node] ->
  (st.(cycles) = [] -> forall y, edge g node y -> y ∈ st.(visited) /\ y ∉ st.(path)) ->
  inv (leave node st) /\ (leave node st).(path) = p.
Proof.
  intros [] Hp Hdeps. assert (Hr : removelast st.(path) = p) by (rewrite Hp; apply removelast_last).
  rewrite Hp in *. apply list.NoDup_app in inv_nodup0 as (Hnd & Hdis & _).
  assert (Hnp : node ∉ p) by (intros H; apply (Hdis _ H); by left).
  split; [|cbn; by rewrite Hp]. split; cbn; rewrite ?Hp, ?removelast_last; auto.
  - rewrite inv_rec0, list_to_set_app_L. set_solver.
  - by apply chain_app in inv_chain0 as (? & _).
  - intros x Hx. apply inv_path0. set_solver.
  - intros Hc. destruct (inv_topo0 Hc) as (l & Hl1 & Hl2). exists (node :: l). split.
    + split; [|done]. intros y He. apply Hl2. by apply Hdeps.
    + intros x. rewrite elem_of_cons, Hl2, elem_of_app, list_elem_of_singleton.
      destruct (decide (x = node)) as [->|]; [|tauto].
      split; [|by left]. intros _. split; [|done]. apply inv_path0. set_solver.
Qed.

Lemma dfs_spec k : dfs_ok k (dfs_find_cycles iter sg k).
Proof.
  induction k as [|k IH]; intros node st HI HV Ha Hl Hk; [lia|]. cbn [dfs_find_cycles].
  assert (Hsz : (size (all ∖ (enter node st).(visited)) < k)%nat).
  { cbn. assert (Hsub : all ∖ ({[node]} ∪ st.(visited)) ⊂ all ∖ st.(visited)) by set_solver.
    apply subset_size in Hsub. lia. }
  destruct (visit_deps_spec k _ node (iter (succs g node)) (enter node st) IH) as (st' & -> & H1 & H2 & H3).
  - by apply enter_inv.
  - cbn. apply last_snoc.
  - intros d Hd. by apply (elem_of_iter iter order) in Hd.
  - done.
  - pose proof (grows_path _ _ H2) as Hp. cbn in Hp.
    destruct (leave_inv node st.(path) st' H1 Hp) as [H4 H5].
    { intros Hc y He. destruct (H3 y) as [H6 H7]; [by apply (elem_of_iter iter order)|]. auto. }
    exists (leave node st'). split; [done|]. split; [done|]. split.
    + destruct H2 as [_ HV2 [more Hm]]. split; [done| |by exists more]. intros x Hx. apply HV2. cbn. set_solver.
    + apply H2. cbn. set_solver.
Qed.

Lemma search_all_spec types st :
  (forall t, t ∈ types -> t ∈ all) -> inv st -> st.(path) = [] ->
  exists st', search_all iter sg types st = Some st' /\ inv st' /\ st'.(path) = [] /\
    (forall x, x ∈ st.(visited) -> x ∈ st'.(visited)) /\ (forall t, t ∈ types -> t ∈ st'.(visited)).
Proof.
  revert st. induction types as [|t types IH]; intros st Hall HI Hp; cbn [search_all].
  { exists st. split; [done|]. split; [done|]. split; [done|]. split; [done|]. intros t Ht. by apply elem_of_nil in Ht. }
  destruct (decide (t ∈ st.(visited))) as [HV|HV].
  - destruct (IH st) as (st' & -> & H1 & H2 & H3 & H4); [intros x Hx; apply Hall; by right|done|done|].
    exists st'. do 4 (split; [done|]). intros x [->|Hx]%elem_of_cons; auto.
  - assert (Est : mkDfs st.(visited) st.(rec_stack) [] st.(cycles) = st) by (destruct st; cbn in *; by subst).
    rewrite Est. destruct (dfs_spec (S (size all)) t st HI HV) as (st1 & -> & H1 & H2 & H3).
    + apply Hall. by left.
    + rewrite Hp. by intros ? ? ?.
    + apply Nat.lt_succ_r, subseteq_size. set_solver.
    + destruct (IH st1) as (st' & -> & H4 & H5 & H6 & H7);
        [intros x Hx; apply Hall; by right | done | rewrite (grows_path _ _ H2); done|].
      exists st'. do 3 (split; [done|]). split; [intros x Hx; by apply H6, H2|].
      intros x [->|Hx]%elem_of_cons; auto.
Qed.

Lemma init_inv : inv (mkDfs ∅ ∅ [] []).
Proof.
  split; cbn; try done; [apply NoDup_nil_2|intros x H; by apply elem_of_nil in H|].
  intros _. exists []. split; [done|]. intros x. rewrite elem_of_nil. set_solver.
Qed.

(** The search ends; every reported path is a cycle of the graph; and it
    reports none only when there is none. *)
Lemma find_cycles_spec :
  exists cs, find_cycles iter sg = Some cs /\ Forall (is_cycle g) cs /\ (cs = [] <-> acyclic g).
Proof.
  unfold find_cycles.
  destruct (search_all_spec (iter all) (mkDfs ∅ ∅ [] [])) as (st & -> & HI & Hp & _ & Hall);
    [intros t Ht; by apply (elem_of_iter iter order) in Ht | apply init_inv | done |].
  cbn. exists (Cycle.normalize_cycles st.(cycles)).
  destruct (normalize_spec g st.(cycles) (inv_cycles _ HI)) as [Hn He].
  split; [done|]. split; [done|]. rewrite He. split.
  - intros Hc x Hx. destruct (inv_topo _ HI Hc) as (l & Hl & Hin).
    assert (Hxa : x ∈ all) by (inversion Hx as [? ? H|? ? ? H]; subst; by destruct (closed _ _ H)).
    apply (topo_acyclic l x Hl); [|done]. apply Hin. rewrite Hp.
    split; [apply Hall; by apply (elem_of_iter iter order)|by apply not_elem_of_nil].
  - intros Ha. destruct (st.(cycles)) as [|c cs] eqn:Ec; [done|]. exfalso.
    pose proof (inv_cycles _ HI) as Hc. rewrite Ec in Hc. apply Forall_cons in Hc as [Hc _].
    destruct (is_cycle_tc g c Hc) as (x & _ & Hx). by apply (Ha x).
Qed.
End Search.

(** *** Reachability *)
Section Transitive.
Context (iter : gset string -> list string) (order : IterOrder iter) (sg : SchemaDependencyGraph).

Lemma push_perm Q new : push Q new ≡ₚ Q ++ new.
Proof. unfold push. by rewrite (Permutation_app_comm Q new), <- Permutation_rev. Qed.

Lemma closure_spec' (g : graph) t x :
  x ∈ default ∅ (closure g iter push (enough g) ∅ [t]) ∖ {[t]} <-> x <> t /\ rtc (edge g) t x.
Proof.
  destruct (closure_reach g iter order push push_perm t) as (W & -> & HW). cbn.
  rewrite elem_of_difference, elem_of_singleton, HW. unfold reach. tauto.
Qed.

Notation g := (sg.(incoming)).

Lemma impact_loop_spec t fuel V stack affected changes :
  (length stack + pot g V < fuel)%nat -> work g t V stack ->
  (forall x, x ∈ V \/ x ∈ stack -> x = t \/ x ∈ affected) ->
  (forall x, x ∈ affected -> x ∈ V \/ x ∈ stack) ->
  exists out changes', impact_loop iter sg fuel t V stack affected changes = Some (out, changes') /\
    forall x, x ∈ out ∖ {[t]} <-> x <> t /\ rtc (edge g) t x.
Proof.
  revert V stack affected changes. induction fuel as [|fuel IH]; intros V stack aff ch Hf HW H1 H2; [lia|].
  cbn [impact_loop]. destruct stack as [|c stack].
  { exists aff, ch. split; [done|]. intros x. rewrite elem_of_difference, elem_of_singleton.
    pose proof (work_done g t V HW x) as HR. fold (reach g t x). rewrite <- HR.
    specialize (H1 x). specialize (H2 x). rewrite elem_of_nil in *. tauto. }
  cbn in Hf. destruct (decide (c ∈ V)) as [Hc|Hc].
  - apply IH; [lia|by eapply work_drop| |].
    + intros x Hx. apply H1. rewrite elem_of_cons. tauto.
    + intros x Hx. destruct (H2 x Hx) as [?|[->|?]%elem_of_cons]; auto.
  - apply IH.
    + pose proof (enqueue_measure g iter order push push_perm V c stack Hc). lia.
    + by apply work_enqueue; [|apply push_perm|].
    + intros x [[->%elem_of_singleton|Hx]%elem_of_union|Hx].
      * destruct (H1 c); [right; by left|auto|]. right. set_solver.
      * destruct (H1 x); [by left|auto|]. right. set_solver.
      * rewrite (push_perm stack), elem_of_app in Hx. destruct Hx as [Hx|Hx]; [|right; set_solver].
        destruct (H1 x); [right; by right|auto|]. right. set_solver.
    + intros x [Hx|Hx]%elem_of_union.
      * right. rewrite (push_perm stack), elem_of_app. right. by apply elem_of_list_to_set in Hx.
      * destruct (H2 x Hx) as [?|[->|?]%elem_of_cons]; [left; set_solver|left; set_solver|].
        right. rewrite (push_perm stack), elem_of_app. by left.
Qed.

Lemma impact_spec t x :
  x ∈ (impact_of_deletion iter sg t).(affected_types) <-> x <> t /\ rtc (edge g) t x.
Proof.
  unfold impact_of_deletion.
  destruct (impact_loop_spec t (enough g) ∅ [t] ∅ []) as (out & ch & -> & Ho); [| | | |exact (Ho x)].
  - cbn. unfold enough. lia.
  - apply work_init.
  - intros y [Hy|Hy]; [set_solver|]. left. set_solver.
  - set_solver.
Qed.

Lemma find_unused_spec t :
  t ∈ find_unused sg <-> t ∈ sg.(all_types) /\ t ∉ sg.(root_types) /\ forall x, ~ edge g t x.
Proof.
  unfold find_unused. rewrite (merge_sort_Permutation str_le), list_elem_of_filter, elem_of_elements.
  unfold edge. split.
  - intros [[H1 H2] H3]. rewrite H2. split; [done|]. split; [done|]. set_solver.
  - intros (H1 & H2 & H3). split; [|done]. split; [done|]. set_solver.
Qed.
End Transitive.
End AnalysisFacts.

(** ** Construction *)
Module Builder.

Inductive FieldType : Type :=
| TString | Int | Float | Boolean | Id | DateTime | Date | Time | TJson | Uuid | Decimal | Vector
| Scalar (name : string)
| List (inner : FieldType)
| Object (name : string)
| Enum (name : string)
| Input (name : string)
| Interface (name : string)
| Union (name : string).

Definition RICH_SCALARS : list string :=
  ["Email"; "PhoneNumber"; "URL"; "DomainName"; "Hostname"; "PostalCode"; "Latitude";
   "Longitude"; "Coordinates"; "Timezone"; "LocaleCode"; "LanguageCode"; "CountryCode"; "IBAN";
   "CUSIP"; "ISIN"; "SEDOL"; "LEI"; "MIC"; "CurrencyCode"; "Money"; "ExchangeCode";
   "ExchangeRate"; "StockSymbol"; "Slug"; "SemanticVersion"; "HashSHA256"; "APIKey";
   "LicensePlate"; "VIN"; "TrackingNumber"; "ContainerNumber"; "IPAddress"; "IPv4"; "IPv6";
   "MACAddress"; "CIDR"; "Port"; "AirportCode"; "PortCode"; "FlightNumber"; "Markdown"; "HTML";
   "MimeType"; "Color"; "Image"; "File"; "LTree"; "DateRange"; "Duration"; "Percentage"].

Definition last_char (s : string) : option ascii := String.get (String.length s - 1) s.
(** [&s[..s.len() - 1]]. *)
Definition but_last (s : string) : string := String.substring 0 (String.length s - 1) s.

(** [trim_end_matches('!')]. *)
Fixpoint trim_end_bang (fuel : nat) (s : string) : string :=
  match fuel with
  | O => s
  | S fuel =>
      match last_char s with
      | Some "!"%char => trim_end_bang fuel (but_last s)
      | _ => s
      end
  end.

Definition is_space (c : ascii) : bool :=
  let n := nat_of_ascii c in (Nat.eqb n 32 || ((9 <=? n) && (n <=? 13)))%nat.
Fixpoint trim_start (s : string) : string :=
  match s with String c r => if is_space c then trim_start r else s | EmptyString => "" end.
Fixpoint trim_end (s : string) : string :=
  match s with
  | String c r => match trim_end r with
                  | EmptyString => if is_space c then "" else String c ""
                  | r => String c r
                  end
  | EmptyString => ""
  end.
Definition trim (s : string) : string := trim_end (trim_start s).

Definition core_scalars : list (string * FieldType) :=
  [("string", TString); ("int", Int); ("integer", Int); ("float", Float); ("double", Float);
   ("boolean", Boolean); ("bool", Boolean); ("id", Id); ("datetime", DateTime); ("timestamp", DateTime);
   ("date", Date); ("time", Time); ("json", TJson); ("jsonb", TJson); ("uuid", Uuid);
   ("decimal", Decimal); ("numeric", Decimal); ("bigdecimal", Decimal); ("vector", Vector)].

Definition try_match_rich_scalar (s : string) : option string :=
  find (fun rich_scalar => to_lowercase s =s to_lowercase rich_scalar) RICH_SCALARS.

Definition named_type (s : string) : FieldType :=
  match Json.assoc (to_lowercase s) core_scalars with
  | Some t => t
  | None => match try_match_rich_scalar s with Some canonical_name => Scalar canonical_name | None => Object s end
  end.

(** One list bracket per step; the length of the text is enough fuel. *)
Fixpoint parse_type_string (fuel : nat) (s : string) : FieldType :=
  let s := trim_end_bang (String.length s) s in
  match s, fuel with
  | String "[" rest, S fuel =>
      match last_char s with
      | Some "]"%char => List (parse_type_string fuel (but_last rest))
      | _ => named_type s
      end
  | _, _ => named_type s
  end.

Definition parse (type_str : string) : FieldType :=
  let s := trim type_str in parse_type_string (String.length s) s.

Fixpoint extract_referenced_type (t : FieldType) : option string :=
  match t with
  | Object name | Enum name | Input name | Interface name | Union name => Some name
  | List inner => extract_referenced_type inner
  | _ => None
  end.

(** What the builder reads of a compiled schema. *)
Record TypeDefinition : Type := { type_name : string; type_fields : list FieldType; implements : list string }.
Record InterfaceDefinition : Type := { interface_name : string; interface_fields : list FieldType }.
Record UnionDefinition : Type := { union_name : string; member_types : list string }.
Record InputObjectDefinition : Type := { input_name : string; input_fields : list string }.
Record CompiledSchema : Type := {
  types : list TypeDefinition;
  enums : list string;
  input_types : list InputObjectDefinition;
  interfaces : list InterfaceDefinition;
  unions : list UnionDefinition;
  queries : list string;
  mutations : list string;
  subscriptions : list string
}.

Definition empty_graph : SchemaDependencyGraph := mkGraph ∅ ∅ ∅ ∅.

Definition add_type (name : string) (g : SchemaDependencyGraph) : SchemaDependencyGraph :=
  mkGraph (touch name g.(outgoing)) (touch name g.(incoming)) ({[name]} ∪ g.(all_types)) g.(root_types).

Definition add_root (name : string) (operations : list string) (g : SchemaDependencyGraph) : SchemaDependencyGraph :=
  match operations with
  | [] => g
  | _ => mkGraph (touch name g.(outgoing)) (touch name g.(incoming)) ({[name]} ∪ g.(all_types)) ({[name]} ∪ g.(root_types))
  end.

(** [if all_types.contains(ref)]: an edge each way. *)
Definition refer (from ref : string) (g : SchemaDependencyGraph) : SchemaDependencyGraph :=
  if decide (ref ∈ g.(all_types))
  then mkGraph (add_edge from ref g.(outgoing)) (add_edge ref from g.(incoming)) g.(all_types) g.(root_types)
  else g.

Definition refer_field (from : string) (g : SchemaDependencyGraph) (t : FieldType) : SchemaDependencyGraph :=
  match extract_referenced_type t with Some ref => refer from ref g | None => g end.

Definition fold_over {A} (f : SchemaDependencyGraph -> A -> SchemaDependencyGraph) (l : list A)
    (g : SchemaDependencyGraph) : SchemaDependencyGraph := fold_left f l g.

Definition collect_types (s : CompiledSchema) : SchemaDependencyGraph :=
  add_root "Subscription" s.(subscriptions)
    (add_root "Mutation" s.(mutations)
      (add_root "Query" s.(queries)
        (fold_over (fun g u => add_type u.(union_name) g) s.(unions)
          (fold_over (fun g i => add_type i.(interface_name) g) s.(interfaces)
            (fold_over (fun g i => add_type i.(input_name) g) s.(input_types)
              (fold_over (fun g e => add_type e g) s.(enums)
                (fold_over (fun g t => add_type t.(type_name) g) s.(types) empty_graph))))))).

Definition refer_type (g : SchemaDependencyGraph) (t : TypeDefinition) : SchemaDependencyGraph :=
  fold_over (fun g i => refer t.(type_name) i g) t.(implements)
    (fold_over (refer_field t.(type_name)) t.(type_fields) g).
Definition refer_interface (g : SchemaDependencyGraph) (i : InterfaceDefinition) : SchemaDependencyGraph :=
  fold_over (refer_field i.(interface_name)) i.(interface_fields) g.
Definition refer_union (g : SchemaDependencyGraph) (u : UnionDefinition) : SchemaDependencyGraph :=
  fold_over (fun g m => refer u.(union_name) m g) u.(member_types) g.
Definition refer_input (g : SchemaDependencyGraph) (i : InputObjectDefinition) : SchemaDependencyGraph :=
  fold_over (fun g f => refer_field i.(input_name) g (parse f)) i.(input_fields) g.
(** The return types of the operations of a root. *)
Definition refer_operations (root : string) (return_types : list string) (g : SchemaDependencyGraph)
  : SchemaDependencyGraph :=
  fold_over (fun g r => refer_field root g (parse r)) return_types g.

Definition build (s : CompiledSchema) : SchemaDependencyGraph :=
  refer_operations "Subscription" s.(subscriptions)
    (refer_operations "Mutation" s.(mutations)
      (refer_operations "Query" s.(queries)
        (fold_over refer_input s.(input_types)
          (fold_over refer_union s.(unions)
            (fold_over refer_interface s.(interfaces)
              (fold_over refer_type s.(types) (collect_types s))))))).
End Builder.

Module BuilderFacts.
Import Builder.

Record wf (g : SchemaDependencyGraph) : Prop := {
  wf_reverse x y : edge g.(outgoing) x y <-> edge g.(incoming) y x;
  wf_closed x y : edge g.(outgoing) x y -> x ∈ g.(all_types) /\ y ∈ g.(all_types)
}.

Lemma fold_over_ind {A} (P : SchemaDependencyGraph -> Prop) f (l : list A) g :
  (forall g x, x ∈ l -> P g -> P (f g x)) -> P g -> P (fold_over f l g).
Proof.
  unfold fold_over. revert g. induction l as [|x l IH]; intros g Hf Hg; [done|]. cbn. apply IH.
  - intros g' y Hy. apply Hf. by right.
  - apply Hf; [by left|done].
Qed.

Lemma empty_wf : wf empty_graph.
Proof.
  assert (H : forall x y, ~ edge ∅ x y) by (intros x y; unfold edge, succs; rewrite lookup_empty; set_solver).
  split; cbn; intros x y; [split; intros E; by apply H in E | intros E; by apply H in E].
Qed.

Lemma touch_wf name g roots :
  wf g -> wf (mkGraph (touch name g.(outgoing)) (touch name g.(incoming)) ({[name]} ∪ g.(all_types)) roots).
Proof.
  intros [Hr Hc]. split; cbn; intros x y; rewrite ?edge_touch; [done|].
  intros H. apply Hc in H. set_solver.
Qed.

Lemma add_root_wf name ops g : wf g -> wf (add_root name ops g).
Proof. intros Hg. destruct ops; [done|]. by apply touch_wf. Qed.

Lemma collect_wf s : wf (collect_types s).
Proof.
  unfold collect_types. do 3 apply add_root_wf.
  repeat (apply fold_over_ind; [intros; by apply touch_wf|]). apply empty_wf.
Qed.

(** Every type a reference can come from is collected first. *)
Definition owns (s : CompiledSchema) (g : SchemaDependencyGraph) : Prop :=
  (forall t, t ∈ s.(types) -> t.(type_name) ∈ g.(all_types)) /\
  (forall i, i ∈ s.(input_types) -> i.(input_name) ∈ g.(all_types)) /\
  (forall i, i ∈ s.(interfaces) -> i.(interface_name) ∈ g.(all_types)) /\
  (forall u, u ∈ s.(unions) -> u.(union_name) ∈ g.(all_types)) /\
  (s.(queries) <> [] -> "Query" ∈ g.(all_types)) /\
  (s.(mutations) <> [] -> "Mutation" ∈ g.(all_types)) /\
  (s.(subscriptions) <> [] -> "Subscription" ∈ g.(all_types)).

Lemma fold_add_all {A} (f : A -> string) (l : list A) g :
  (fold_over (fun g x => add_type (f x) g) l g).(all_types) = list_to_set (map f l) ∪ g.(all_types).
Proof.
  unfold fold_over. revert g. induction l as [|x l IH]; intros g; cbn; [set_solver|]. rewrite IH. cbn. set_solver.
Qed.

Lemma add_root_all name ops g :
  (add_root name ops g).(all_types) = (if decide (ops = []) then ∅ else {[name]}) ∪ g.(all_types).
Proof. destruct ops; cbn; set_solver. Qed.

Lemma in_map_set {A} (f : A -> string) x l : x ∈ l -> f x ∈ (list_to_set (map f l) : gset string).
Proof. intros H. apply elem_of_list_to_set, list_elem_of_fmap. by exists x. Qed.

Lemma collect_owns s : owns s (collect_types s).
Proof.
  unfold owns, collect_types. rewrite !add_root_all.
  rewrite (fold_add_all union_name), (fold_add_all interface_name), (fold_add_all input_name),
    (fold_add_all id), (fold_add_all type_name).
  repeat split.
  { intros x Hx. pose proof (in_map_set type_name x _ Hx). rewrite !elem_of_union. tauto. }
  { intros x Hx. pose proof (in_map_set input_name x _ Hx). rewrite !elem_of_union. tauto. }
  { intros x Hx. pose proof (in_map_set interface_name x _ Hx). rewrite !elem_of_union. tauto. }
  { intros x Hx. pose proof (in_map_set union_name x _ Hx). rewrite !elem_of_union. tauto. }
  all: intros H; rewrite !elem_of_union; destruct (queries s), (mutations s), (subscriptions s); set_solver.
Qed.

Definition good (s : CompiledSchema) (g : SchemaDependencyGraph) : Prop := wf g /\ owns s g.

Lemma refer_good s from ref g : from ∈ g.(all_types) -> good s g -> good s (refer from ref g).
Proof.
  intros Hf [[Hr Hc] Ho]. unfold refer. destruct (decide _); [|by (split; [split|])]. split; [|done]. split; cbn.
  - intros x y. rewrite !edge_add_edge, Hr. intuition.
  - intros x y [H|[-> ->]]%edge_add_edge; [by apply Hc | done].
Qed.

Lemma refer_field_good s from t g :
  from ∈ g.(all_types) -> good s g -> good s (refer_field from g t).
Proof.
  intros Hf Hg. unfold refer_field. destruct (extract_referenced_type t); [by apply refer_good|done].
Qed.

Lemma refer_operations_good s root ops g :
  (ops <> [] -> forall g, owns s g -> root ∈ g.(all_types)) -> good s g -> good s (refer_operations root ops g).
Proof.
  intros Hr. apply fold_over_ind. intros g' r Hin Hg. apply refer_field_good; [|done].
  apply Hr; [|apply Hg]. intros ->. by apply elem_of_nil in Hin.
Qed.

Lemma build_good s : good s (build s).
Proof.
  unfold build. do 3 (apply refer_operations_good; [intros H g Ho; apply Ho, H|]).
  apply fold_over_ind; [intros g i Hi Hg|].
  { unfold refer_input. apply fold_over_ind; [|done]. intros g' f _ Hg'. apply refer_field_good; [|done]. by apply Hg'. }
  apply fold_over_ind; [intros g u Hu Hg|].
  { unfold refer_union. apply fold_over_ind; [|done]. intros g' m _ Hg'. apply refer_good; [|done]. by apply Hg'. }
  apply fold_over_ind; [intros g i Hi Hg|].
  { unfold refer_interface. apply fold_over_ind; [|done]. intros g' f _ Hg'. apply refer_field_good; [|done]. by apply Hg'. }
  apply fold_over_ind; [intros g t Ht Hg|].
  { unfold refer_type. apply fold_over_ind; [intros g' i _ Hg'; apply refer_good; [by apply Hg'|done]|].
    apply fold_over_ind; [|done]. intros g' f _ Hg'. apply refer_field_good; [by apply Hg'|done]. }
  split; [apply collect_wf | apply collect_owns].
Qed.

Lemma rtc_reverse g x y : wf g -> rtc (edge g.(incoming)) x y <-> rtc (edge g.(outgoing)) y x.
Proof.
  intros [Hr _]. split; induction 1 as [|a b d Hab Hbd IH]; try done; (eapply rtc_r; [exact IH|]); by apply Hr.
Qed.
End BuilderFacts.

(** ** The analysis of a compiled schema *)
Section Schema.
Import Analysis AnalysisFacts.
Context (iter : gset string -> list string) (order : IterOrder iter) (s : Builder.CompiledSchema).
Notation sg := (Builder.build s).

(** C39. The search for cycles ends on every schema and in every order; each path it
    reports is a cycle of the references, and it reports none only if the
    references have none. *)
Theorem find_cycles_decides :
  exists cs, find_cycles iter sg = Some cs /\ Forall (is_cycle sg.(outgoing)) cs /\
    (cs = [] <-> acyclic sg.(outgoing)).
Proof. apply find_cycles_spec; [done|]. apply BuilderFacts.build_good. Qed.

(** The transitive queries and the impact of a deletion are exactly what the
    references reach, without the type itself; a type is unused when nothing
    refers to it and it is no root. *)
Theorem impact_exact t x :
  (x ∈ transitive_dependencies iter sg t <-> x <> t /\ rtc (edge sg.(outgoing)) t x) /\
  (x ∈ transitive_dependents iter sg t <-> x <> t /\ rtc (edge sg.(outgoing)) x t) /\
  (impact_of_deletion iter sg t).(affected_types) = transitive_dependents iter sg t /\
  (t ∈ find_unused sg <-> t ∈ sg.(all_types) /\ t ∉ sg.(root_types) /\ forall y, ~ edge sg.(outgoing) y t).
Proof.
  destruct (BuilderFacts.build_good s) as [Hwf _].
  split; [by apply closure_spec'|]. split.
  { unfold transitive_dependents. rewrite closure_spec' by done. by rewrite BuilderFacts.rtc_reverse. }
  split.
  { apply set_eq. intros y. unfold transitive_dependents. by rewrite closure_spec', impact_spec. }
  rewrite (find_unused_spec iter order). pose proof (BuilderFacts.wf_reverse _ Hwf) as Hr.
  split; intros (H1 & H2 & H3); split; try done; split; try done; intros y Hy; apply (H3 y); by apply Hr.
Qed.
End Schema.

(** ** Witnesses and a concrete schema *)
Module Demo.
Import Builder Analysis AnalysisFacts.
#[local] Open Scope string_scope.

Definition object (name : string) (refs : list string) : TypeDefinition :=
  {| type_name := name; type_fields := map Object refs; implements := [] |}.

(** A refers to B and C, B to A, C to B: two cycles. *)
Definition two_cycles : CompiledSchema :=
  {| types := [object "A" ["B"; "C"]; object "B" ["A"]; object "C" ["B"]]; enums := []; input_types := [];
     interfaces := []; unions := []; queries := ["[A!]!"]; mutations := []; subscriptions := [] |}.

Definition sorted (X : gset string) : list string := merge_sort str_le (elements X).

#[local] Instance sorted_order : IterOrder sorted.
Proof. intros X. apply merge_sort_Permutation. Qed.

(** How many of the cycles are reported depends on the order in which the hash
    sets are read. *)
Lemma cycles_depend_on_order :
  find_cycles elements (build two_cycles) = Some [["A"; "B"]; ["A"; "C"; "B"]] /\
  find_cycles sorted (build two_cycles) = Some [["A"; "B"]].
Proof. split; vm_compute; reflexivity. Qed.

(** An input type used only as an argument counts as unused: the builder reads
    the return types of operations, not their arguments.  A type named like a
    rich scalar, in any case, counts as unused too. *)
Lemma rich_scalar_name_unused :
  find_unused (build {| types := [object "Money" []; object "User" []]; enums := []; input_types := [];
     interfaces := []; unions := []; queries := ["[Money!]!"; "User"]; mutations := []; subscriptions := [] |})
  = ["Money"].
Proof. vm_compute. reflexivity. Qed.

Lemma find_cycles_decides_witness :
  IterOrder elements /\
  exists cs, find_cycles elements (build two_cycles) = Some cs /\
    Forall (is_cycle (build two_cycles).(outgoing)) cs /\ (cs = [] <-> acyclic (build two_cycles).(outgoing)).
Proof. split; [apply elements_order|]. exact (find_cycles_decides elements elements_order two_cycles). Defined.

Lemma impact_exact_witness :
  IterOrder elements /\
  ("Query" ∈ transitive_dependents elements (build two_cycles) "C" <->
     "Query" <> "C" /\ rtc (edge (build two_cycles).(outgoing)) "Query" "C").
Proof.
  split; [apply elements_order|].
  exact (proj1 (proj2 (impact_exact elements elements_order two_cycles "C" "Query"))).
Defined.
End Demo.
