(* ===== verification/GraphQL.v ===== *)
(** * GraphQL documents and their conversion

    The syntax tree of the [graphql_parser] package, as the source matches on
    it, and what fraiseql-core makes of it ([graphql/types.rs],
    [graphql/parser.rs]): the flat [FieldSelection] tree in which a fragment
    spread is a field called ["...Name"], and argument values as text.  Parsing
    a query string to a document is the package's and a parameter wherever it
    is used. *)

From S2P Require Import Prelude Json.
From stdpp Require Import pretty.
From Stdlib Require Import Ascii.
#[local] Open Scope Z_scope.

(** ** The tree of [graphql_parser::query] *)
Module Ast.
(** A number is what its [as_i64] answers, a float its [{}] text; an object is
    a [BTreeMap], in the order of its keys. *)
Inductive value : Type :=
| Variable_ (name : string)
| Int (n : option Z)
| Float (shown : string)
| String_ (s : string)
| Boolean (b : bool)
| Null
| Enum (name : string)
| List_ (items : list value)
| Object (fields : list (string * value)).

Inductive type : Type :=
| NamedType (name : string)
| ListType (inner : type)
| NonNullType (inner : type).

Record directive : Type := { directive_name : string; directive_arguments : list (string * value) }.

Inductive selection : Type :=
| Field (alias : option string) (name : string) (arguments : list (string * value))
    (directives : list directive) (selection_set : list selection)
| FragmentSpread (fragment_name : string) (directives : list directive)
| InlineFragment (type_condition : option string) (directives : list directive)
    (selection_set : list selection).

Record fragment : Type := {
  fragment_name : string; fragment_on : string; fragment_set : list selection
}.
Record variable_definition : Type := {
  var_name : string; var_type : type; default_value : option value
}.
Record operation_body : Type := {
  operation_name : option string;
  variable_definitions : list variable_definition;
  operation_set : list selection
}.
Inductive operation : Type :=
| SelectionSet (ss : list selection)
| Query (b : operation_body)
| Mutation (b : operation_body)
| Subscription (b : operation_body).
Inductive definition : Type :=
| Operation (op : operation)
| Fragment (f : fragment).
Definition document : Type := list definition.

(** Induction that reaches nested selections. *)
Section SelectionInd.
Context (P : selection -> Prop).
Hypothesis Hfield : forall a n args ds ss, Forall P ss -> P (Field a n args ds ss).
Hypothesis Hspread : forall n ds, P (FragmentSpread n ds).
Hypothesis Hinline : forall t ds ss, Forall P ss -> P (InlineFragment t ds ss).

Fixpoint selection_ind' (s : selection) : P s :=
  let all := fix all (l : list selection) : Forall P l :=
    match l with [] => Forall_nil_2 _ | x :: l => Forall_cons_2 _ x l (selection_ind' x) (all l) end in
  match s with
  | Field a n args ds ss => Hfield a n args ds ss (all ss)
  | FragmentSpread n ds => Hspread n ds
  | InlineFragment t ds ss => Hinline t ds ss (all ss)
  end.
End SelectionInd.

(** Induction that reaches the parts of a value. *)
Section ValueInd.
Context (P : value -> Prop).
Hypothesis Hvar : forall x, P (Variable_ x).
Hypothesis Hint : forall n, P (Int n).
Hypothesis Hfloat : forall f, P (Float f).
Hypothesis Hstr : forall s, P (String_ s).
Hypothesis Hbool : forall b, P (Boolean b).
Hypothesis Hnull : P Null.
Hypothesis Henum : forall e, P (Enum e).
Hypothesis Hlist : forall l, Forall P l -> P (List_ l).
Hypothesis Hobj : forall l, Forall (fun kv => P kv.2) l -> P (Object l).

Fixpoint value_ind' (v : value) : P v :=
  match v with
  | Variable_ x => Hvar x | Int n => Hint n | Float f => Hfloat f | String_ s => Hstr s
  | Boolean b => Hbool b | Null => Hnull | Enum e => Henum e
  | List_ l =>
      Hlist l ((fix go (l : list value) : Forall P l :=
        match l with [] => Forall_nil_2 _ | x :: l => Forall_cons_2 _ x l (value_ind' x) (go l) end) l)
  | Object l =>
      Hobj l ((fix go (l : list (string * value)) : Forall (fun kv => P kv.2) l :=
        match l with
        | [] => Forall_nil_2 _
        | kv :: l => Forall_cons_2 _ kv l (value_ind' kv.2) (go l)
        end) l)
  end.
End ValueInd.
End Ast.

(** ** [graphql/types.rs] *)
Module Types.
Record GraphQLArgument : Type := { arg_name : string; value_type : string; value_json : string }.
Record Directive : Type := { directive : string; directive_args : list GraphQLArgument }.

Inductive FieldSelection : Type := mkField {
  name : string;
  alias : option string;
  arguments : list GraphQLArgument;
  nested_fields : list FieldSelection;
  directives : list Directive
}.

Definition response_key (f : FieldSelection) : string := default f.(name) f.(alias).

Record GraphQLType : Type := {
  type_name : string; nullable : bool; list_type : bool; list_nullable : bool
}.
Record VariableDefinition : Type := {
  variable : string; variable_type : GraphQLType; variable_default : option string
}.
Record FragmentDefinition : Type := {
  fragment : string; type_condition : string;
  selections : list FieldSelection; fragment_spreads : list string
}.
Record ParsedQuery : Type := {
  operation_type : string;
  query_name : option string;
  root_field : string;
  query_selections : list FieldSelection;
  variables : list VariableDefinition;
  fragments : list FragmentDefinition;
  source : string
}.

Definition signature (q : ParsedQuery) : string := (q.(operation_type) ++ "::" ++ q.(root_field))%string.
Definition is_cacheable (q : ParsedQuery) : bool := bool_decide (length q.(variables) = 0%nat).

Definition with_nested (f : FieldSelection) (nested : list FieldSelection) : FieldSelection :=
  mkField f.(name) f.(alias) f.(arguments) nested f.(directives).

(** Induction that reaches nested fields. *)
Section FieldInd.
Context (P : FieldSelection -> Prop).
Hypothesis H : forall n a args nested ds, Forall P nested -> P (mkField n a args nested ds).
Fixpoint field_ind' (f : FieldSelection) : P f :=
  match f with
  | mkField n a args nested ds =>
      H n a args nested ds
        ((fix all (l : list FieldSelection) : Forall P l :=
            match l with [] => Forall_nil_2 _ | x :: l => Forall_cons_2 _ x l (field_ind' x) (all l) end)
           nested)
  end.
End FieldInd.
End Types.

(** ** [graphql/parser.rs] *)
Module Parser.
Import Types.
Local Open Scope string_scope.

Inductive GraphQLParseError : Type :=
| Syntax (message : string)
| MissingOperation
| EmptySelection
| ValueNestingTooDeep (levels : nat).

Definition show (e : GraphQLParseError) : string :=
  match e with
  | Syntax m => "Failed to parse GraphQL query: " ++ m
  | MissingOperation => "No query or mutation operation found"
  | EmptySelection => "No fields in selection set"
  | ValueNestingTooDeep n => "GraphQL value nesting exceeds maximum depth (" ++ pretty n ++ " levels)"
  end.

Definition MAX_SERIALIZE_DEPTH : nat := 64.

Definition value_type_string (v : Ast.value) : string :=
  match v with
  | Ast.String_ _ => "string"
  | Ast.Int _ => "int"
  | Ast.Float _ => "float"
  | Ast.Boolean _ => "boolean"
  | Ast.Null => "null"
  | Ast.Enum _ => "enum"
  | Ast.List_ _ => "list"
  | Ast.Object _ => "object"
  | Ast.Variable_ _ => "variable"
  end.

(** A string of one double quote. *)
Definition quote : string := String "034"%char "".
Definition quoted (s : string) : string := quote ++ s ++ quote.

(** [s.replace('"', "\\\"")]: a backslash before every double quote. *)
Fixpoint escape_quotes (s : string) : string :=
  match s with
  | "" => ""
  | String c s =>
      if Ascii.eqb c "034"%char then String "\"%char (String c (escape_quotes s))
      else String c (escape_quotes s)
  end.

Definition bool_text (b : bool) : string := if b then "true" else "false".

(** All parts, or nothing when one is nested too deep: the loops with [?]. *)
Fixpoint all_some {A} (l : list (option A)) : option (list A) :=
  match l with
  | [] => Some []
  | Some x :: l => match all_some l with Some r => Some (x :: r) | None => None end
  | None :: _ => None
  end.

(** [room] is [MAX_SERIALIZE_DEPTH - depth + 1]: the levels that may still be entered. *)
Fixpoint serialize_value_inner (room : nat) (v : Ast.value) {struct v} : option string :=
  match room with
  | O => None
  | S room =>
      match v with
      | Ast.String_ s => Some (quoted (escape_quotes s))
      | Ast.Int i => Some (match i with Some n => pretty n | None => "0" end)
      | Ast.Float f => Some f
      | Ast.Boolean b => Some (bool_text b)
      | Ast.Null => Some "null"
      | Ast.Enum e => Some (quoted e)
      | Ast.List_ items =>
          match all_some (map (serialize_value_inner room) items) with
          | Some parts => Some ("[" ++ String.concat "," parts ++ "]")
          | None => None
          end
      | Ast.Object fields =>
          match all_some (map (fun kv =>
                   match serialize_value_inner room kv.2 with
                   | Some s => Some (quoted kv.1 ++ ":" ++ s)
                   | None => None
                   end) fields) with
          | Some pairs => Some ("{" ++ String.concat "," pairs ++ "}")
          | None => None
          end
      | Ast.Variable_ x => Some (quoted ("$" ++ x))
      end
  end.

Definition serialize_value (v : Ast.value) : string :=
  default "null" (serialize_value_inner (S MAX_SERIALIZE_DEPTH) v).

Definition argument_of (a : string * Ast.value) : GraphQLArgument :=
  {| arg_name := a.1; value_type := value_type_string a.2; value_json := serialize_value a.2 |}.

Definition parse_directive (d : Ast.directive) : Directive :=
  {| directive := d.(Ast.directive_name); directive_args := map argument_of d.(Ast.directive_arguments) |}.

(** A selection as a field; spreads and inline fragments are fields with a
    name of their own. *)
Fixpoint parse_selection (s : Ast.selection) : FieldSelection :=
  match s with
  | Ast.Field alias name arguments ds ss =>
      mkField name alias (map argument_of arguments) (map parse_selection ss) (map parse_directive ds)
  | Ast.FragmentSpread n ds => mkField ("..." ++ n) None [] [] (map parse_directive ds)
  | Ast.InlineFragment t ds ss =>
      mkField ("...on " ++ default "" t) None [] (map parse_selection ss) (map parse_directive ds)
  end.

Definition parse_selection_set (ss : list Ast.selection) : list FieldSelection := map parse_selection ss.

Fixpoint spreads_of (s : Ast.selection) : list string :=
  match s with
  | Ast.FragmentSpread n _ => [n]
  | Ast.InlineFragment _ _ ss | Ast.Field _ _ _ _ ss => List.concat (map spreads_of ss)
  end.
Definition extract_fragment_spreads (ss : list Ast.selection) : list string := List.concat (map spreads_of ss).

Fixpoint parse_graphql_type (t : Ast.type) : GraphQLType :=
  match t with
  | Ast.NamedType n => {| type_name := n; nullable := true; list_type := false; list_nullable := false |}
  | Ast.ListType inner =>
      {| type_name := "[" ++ (parse_graphql_type inner).(type_name) ++ "]";
         nullable := true; list_type := true; list_nullable := true |}
  | Ast.NonNullType inner =>
      let parsed := parse_graphql_type inner in
      {| type_name := parsed.(type_name); nullable := false; list_type := parsed.(list_type);
         list_nullable := if parsed.(list_type) then false else parsed.(list_nullable) |}
  end.

Definition extract_fragments (doc : Ast.document) : list FragmentDefinition :=
  omap (fun def => match def with
    | Ast.Fragment f => Some
        {| fragment := f.(Ast.fragment_name); type_condition := f.(Ast.fragment_on);
           selections := parse_selection_set f.(Ast.fragment_set);
           fragment_spreads := extract_fragment_spreads f.(Ast.fragment_set) |}
    | Ast.Operation _ => None
    end) doc.

Definition operation_kind (op : Ast.operation) : string :=
  match op with
  | Ast.Query _ | Ast.SelectionSet _ => "query"
  | Ast.Mutation _ => "mutation"
  | Ast.Subscription _ => "subscription"
  end.

(** Name, selection set and variables of an operation. *)
Definition operation_parts (op : Ast.operation)
  : option string * list Ast.selection * list Ast.variable_definition :=
  match op with
  | Ast.Query b | Ast.Mutation b | Ast.Subscription b =>
      (b.(Ast.operation_name), b.(Ast.operation_set), b.(Ast.variable_definitions))
  | Ast.SelectionSet ss => (None, ss, [])
  end.

Definition extract_operation (op : Ast.operation)
  : result GraphQLParseError
      (string * option string * string * list FieldSelection * list VariableDefinition) :=
  let '(name, selection_set, var_defs) := operation_parts op in
  let selections := parse_selection_set selection_set in
  match selections with
  | [] => Err EmptySelection
  | first :: _ =>
      Ok (operation_kind op, name, first.(Types.name), selections,
          map (fun d => {| variable := d.(Ast.var_name);
                           variable_type := parse_graphql_type d.(Ast.var_type);
                           variable_default := serialize_value <$> d.(Ast.default_value) |}) var_defs)
  end.

(** The first operation of the document. *)
Fixpoint first_operation (doc : Ast.document) : option Ast.operation :=
  match doc with
  | [] => None
  | Ast.Operation op :: _ => Some op
  | Ast.Fragment _ :: doc => first_operation doc
  end.

(** [parse_query] once the package has read the text. *)
Definition of_document (source : string) (doc : Ast.document) : result GraphQLParseError ParsedQuery :=
  op ← ok_or (first_operation doc) MissingOperation;
  '(kind, name, root, sels, vars) ← extract_operation op;
  Ok {| operation_type := kind; query_name := name; root_field := root; query_selections := sels;
        variables := vars; fragments := extract_fragments doc; source := source |}.

Section Package.
(** [graphql_parser::parse_query]: the document, or the error's text. *)
Context (read_document : string -> result string Ast.document).

Definition parse_query (source : string) : result GraphQLParseError ParsedQuery :=
  match read_document source with
  | Ok doc => of_document source doc
  | Err e => Err (Syntax e)
  end.
End Package.
End Parser.

(** ** Argument values as JSON text

    [text_of n j t]: the JSON text [t], written without blanks, denotes [j] and
    nests arrays and objects at most [n] deep (RFC 8259). *)
Module JsonText.
Import Parser.
Local Open Scope string_scope.

Definition plain_char (c : ascii) : bool :=
  (32 <=? Z.of_N (N_of_ascii c))%Z && negb (Ascii.eqb c "034"%char) && negb (Ascii.eqb c "\"%char).

Fixpoint all_chars (f : ascii -> bool) (s : string) : bool :=
  match s with "" => true | String c s => f c && all_chars f s end.

Inductive string_text : string -> string -> Prop :=
| st_nil : string_text "" ""
| st_plain c s t : plain_char c = true -> string_text s t -> string_text (String c s) (String c t)
| st_escaped c s t : c = "034"%char \/ c = "\"%char -> string_text s t ->
    string_text (String c s) (String "\"%char (String c t)).

Inductive text_of : nat -> json -> string -> Prop :=
| t_null n : text_of n JNull "null"
| t_bool n b : text_of n (JBool b) (bool_text b)
| t_pos n z : is_u64 z -> text_of n (JNumber (PosInt z)) (pretty z)
| t_neg n z : (- 2 ^ 63 <= z < 0)%Z -> text_of n (JNumber (NegInt z)) (pretty z)
| t_string n s t : string_text s t -> text_of n (JString s) (quoted t)
| t_array n l ts : Forall2 (text_of n) l ts ->
    text_of (S n) (JArray l) ("[" ++ String.concat "," ts ++ "]")
| t_object n l ks ts : NoDup (map fst l) -> Forall2 string_text (map fst l) ks ->
    Forall2 (text_of n) (map snd l) ts ->
    text_of (S n) (JObject l)
      ("{" ++ String.concat "," (zip_with (fun k t => quoted k ++ ":" ++ t) ks ts) ++ "}").

(** What a value means as JSON: an enum value and a variable are strings. *)
Inductive means : nat -> Ast.value -> json -> Prop :=
| m_null n : means (S n) Ast.Null JNull
| m_bool n b : means (S n) (Ast.Boolean b) (JBool b)
| m_pos n z : (0 <= z <= i64_max)%Z -> means (S n) (Ast.Int (Some z)) (JNumber (PosInt z))
| m_neg n z : (- 2 ^ 63 <= z < 0)%Z -> means (S n) (Ast.Int (Some z)) (JNumber (NegInt z))
| m_string n s : all_chars (fun c => plain_char c || Ascii.eqb c "034"%char) s = true ->
    means (S n) (Ast.String_ s) (JString s)
| m_enum n e : all_chars plain_char e = true -> means (S n) (Ast.Enum e) (JString e)
| m_variable n x : all_chars plain_char x = true -> means (S n) (Ast.Variable_ x) (JString ("$" ++ x))
| m_list n vs js : Forall2 (means n) vs js -> means (S n) (Ast.List_ vs) (JArray js)
| m_object n fields js : NoDup (map fst fields) -> Forall (fun kv => all_chars plain_char kv.1 = true) fields ->
    Forall2 (means n) (map snd fields) js ->
    means (S n) (Ast.Object fields) (JObject (zip (map fst fields) js)).

Lemma plain_text s : all_chars plain_char s = true -> string_text s s.
Proof. induction s as [|c s IH]; cbn; [constructor|]. intros [??]%andb_true_iff. constructor; auto. Qed.

Lemma escaped_text s :
  all_chars (fun c => plain_char c || Ascii.eqb c "034"%char) s = true -> string_text s (escape_quotes s).
Proof.
  induction s as [|c s IH]; cbn; [constructor|]. intros [Hc Hs]%andb_true_iff.
  destruct (Ascii.eqb c "034"%char) eqn:E.
  - apply Ascii.eqb_eq in E as ->. constructor; auto.
  - rewrite orb_false_r in Hc. constructor; auto.
Qed.

Lemma all_some_Some {A} (l : list (option A)) r : all_some l = Some r <-> l = map Some r.
Proof.
  revert r. induction l as [|[x|] l IH]; intros r; cbn.
  - split; [by intros [= <-] | by destruct r].
  - destruct (all_some l) as [r'|] eqn:E.
    + destruct (IH r') as [H _]. specialize (H eq_refl). subst l. split; [by intros [= <-]|].
      destruct r; cbn; [done|]. intros [= -> H]. apply list_fmap_eq_inj in H as ->; [done|congruence].
    + split; [done|]. destruct r; cbn; [done|]. intros [= -> H]. by apply IH in H.
  - split; [done|]. by destruct r.
Qed.

Lemma all_some_map {A B} (f : A -> option B) l :
  is_Some (all_some (map f l)) <-> Forall (fun x => is_Some (f x)) l.
Proof.
  induction l as [|x l IH]; cbn; [split; [constructor|done]|]. rewrite Forall_cons, <- IH.
  destruct (f x) as [y|]; [|by split; [intros [??] | intros [[??]?]]].
  destruct (all_some (map f l)); split; [by eauto | by eauto | by intros [??] | by intros [_ [??]]].
Qed.

Lemma all_some_None {A B} (f : A -> option B) l :
  all_some (map f l) = None <-> exists x, x ∈ l /\ f x = None.
Proof.
  rewrite eq_None_not_Some, all_some_map. split.
  - intros H. apply not_Forall_Exists in H; [|intros x; destruct (f x); [left; eauto | right; by intros [??]]].
    apply list.Exists_exists in H as (x & Hx & Hn). exists x. split; [done|]. by apply eq_None_not_Some.
  - intros (x & Hx & E) H. rewrite list.Forall_forall in H. destruct (H x Hx). congruence.
Qed.

Lemma zip_keys {A} (ks : list string) (js : list A) : length ks = length js ->
  map fst (zip ks js) = ks /\ map snd (zip ks js) = js.
Proof.
  revert js. induction ks as [|k ks IH]; intros [|j js]; cbn; try done.
  intros [= H]. destruct (IH js H) as [-> ->]. done.
Qed.

Lemma serialized n v j : means n v j -> exists t, serialize_value_inner n v = Some t /\ text_of n j t.
Proof.
  revert v j. induction n as [|n IH]; intros v j H; inversion H; subst; cbn.
  - eexists. split; [done|]. constructor.
  - eexists. split; [done|]. constructor.
  - eexists. split; [done|]. constructor. unfold i64_max in *. u64_lia.
  - eexists. split; [done|]. constructor. lia.
  - eexists. split; [done|]. constructor. by apply escaped_text.
  - eexists. split; [done|]. constructor. by apply plain_text.
  - eexists. split; [done|]. constructor. apply plain_text. cbn. done.
  - match goal with H : Forall2 _ _ _ |- _ => rename H into HF end.
    assert (exists ts, map (serialize_value_inner n) vs = map Some ts /\ Forall2 (text_of n) js ts) as (ts & E & Ht).
    { clear H. induction HF as [|v j vs js Hv _ (ts & E & Ht)]; [by exists []|].
      destruct (IH _ _ Hv) as (t & Et & Hj). exists (t :: ts). cbn. rewrite Et, E. auto. }
    apply all_some_Some in E. rewrite E. eexists. split; [done|]. by constructor.
  - match goal with H : Forall2 _ _ _ |- _ => rename H into HF end.
    match goal with H : NoDup _ |- _ => rename H into HN end.
    match goal with H : Forall _ _ |- _ => rename H into HK end.
    assert (exists ts, map (fun kv => match serialize_value_inner n kv.2 with
               | Some s => Some (quoted kv.1 ++ ":" ++ s) | None => None end) fields
             = map Some (zip_with (fun k t => quoted k ++ ":" ++ t) (map fst fields) ts)
             /\ Forall2 (text_of n) js ts) as (ts & E & Ht).
    { clear H HN HK. revert js HF. induction fields as [|[k v] fields IHf]; intros js HF; inversion HF; subst.
      - by exists [].
      - destruct (IHf _ ltac:(eassumption)) as (ts & E & Ht).
        destruct (IH v _ ltac:(eassumption)) as (t & Et & Hj).
        exists (t :: ts). cbn. rewrite Et, E. auto. }
    apply all_some_Some in E. rewrite E. eexists. split; [done|].
    destruct (zip_keys (map fst fields) js) as [Ek Ej].
    { apply Forall2_length in HF. by rewrite length_map in *. }
    constructor; rewrite ?Ek, ?Ej; [done| |done].
    apply Forall2_same_length_lookup. split; [done|]. intros i x y Hx Hy.
    assert (x = y) as -> by congruence. apply plain_text.
    apply list_lookup_fmap_Some in Hx as (kv & -> & Hkv).
    rewrite Forall_lookup in HK. by apply (HK i).
Qed.

(** Whether a text read from outside ([false]) or inside a string ends outside. *)
Fixpoint closed (inside escape : bool) (t : string) : bool :=
  match t with
  | "" => negb inside && negb escape
  | String c t =>
      if escape then closed inside false t
      else if Ascii.eqb c "034"%char then closed (negb inside) false t
      else if Ascii.eqb c "\"%char then inside && closed true true t
      else closed inside false t
  end.

Definition plain_string (s : string) : Prop := all_chars plain_char s = true.

Lemma plain_app s t : plain_string s -> plain_string t -> plain_string (s ++ t).
Proof.
  unfold plain_string. induction s as [|c s IH]; [done|]. intros [Hc Hs]%andb_true_iff Ht.
  change (plain_char c && all_chars plain_char (s ++ t) = true). rewrite Hc. auto.
Qed.

Lemma plain_not c : plain_char c = true -> Ascii.eqb c "034"%char = false /\ Ascii.eqb c "\"%char = false.
Proof.
  unfold plain_char. intros [[_ H1]%andb_true_iff H2]%andb_true_iff. by apply negb_true_iff in H1, H2.
Qed.

Lemma closed_plain s rest inside : plain_string s -> closed inside false (s ++ rest) = closed inside false rest.
Proof.
  unfold plain_string. induction s as [|c s IH]; [done|]. intros [Hc Hs]%andb_true_iff.
  apply plain_not in Hc as [H1 H2]. rewrite str_cons. cbn [closed]. rewrite H1, H2. auto.
Qed.

Lemma closed_body s t rest : string_text s t -> closed true false (t ++ quote ++ rest) = closed false false rest.
Proof.
  induction 1 as [|c s t Hc _ IH|c s t Hc _ IH]; [done| |].
  - rewrite <- IH. change (String c t) with (String c "" ++ t). rewrite str_assoc.
    apply closed_plain. unfold plain_string. cbn. by rewrite Hc.
  - rewrite <- IH. done.
Qed.

Lemma closed_quoted s t rest : string_text s t -> closed false false (quoted t ++ rest) = closed false false rest.
Proof. intros H. unfold quoted. rewrite !str_assoc. cbn. by eapply closed_body. Qed.

Lemma pretty_N_plain x s : plain_string s -> plain_string (pretty_N_go x s).
Proof.
  revert s. induction (N.lt_wf_0 x) as [x _ IH]. intros s Hs.
  destruct (decide (x = 0%N)) as [->|Hx]; [done|].
  rewrite pretty_N_go_step by lia. apply IH; [apply N.div_lt; lia|].
  unfold plain_string. cbn [all_chars]. rewrite Hs, andb_true_r.
  unfold pretty_N_char. by repeat case_match.
Qed.

Lemma pretty_Z_plain (z : Z) : plain_string (pretty z).
Proof.
  assert (HN : forall n : N, plain_string (pretty n)).
  { intros n. unfold pretty, pretty_N. destruct (decide _); [done|]. by apply pretty_N_plain. }
  unfold pretty, pretty_Z. destruct z; [done| apply HN |].
  apply plain_app; [done | apply HN].
Qed.

Lemma closed_concat ts rest :
  Forall (fun t => forall rest, closed false false (t ++ rest) = closed false false rest) ts ->
  closed false false (String.concat "," ts ++ rest) = closed false false rest.
Proof.
  induction 1 as [|t ts Ht Hts IH]; [done|].
  destruct ts as [|t' ts]; [by cbn|].
  change (String.concat "," (t :: t' :: ts)) with (t ++ "," ++ String.concat "," (t' :: ts)).
  rewrite !str_assoc, Ht. exact IH.
Qed.

(** JSON text never ends inside a string. *)
Lemma text_closed n j t : text_of n j t -> forall rest, closed false false (t ++ rest) = closed false false rest.
Proof.
  revert j t. induction n as [|n IH]; intros j t H rest; inversion H; subst;
    try (by apply closed_plain); try (by eapply closed_quoted);
    try (apply closed_plain; apply pretty_Z_plain); try (by destruct b).
  - rewrite !str_assoc. change (closed false false (String.concat "," ts ++ "]" ++ rest) = closed false false rest).
    apply (closed_concat ts ("]" ++ rest)). apply Forall_lookup. intros i t' Ht' r.
    match goal with H : Forall2 _ _ ts |- _ => destruct (Forall2_lookup_r _ _ _ _ _ H Ht') as (j' & _ & Hj) end.
    by apply (IH j').
  - rewrite !str_assoc. set (ps := zip_with _ _ _).
    change (closed false false (String.concat "," ps ++ "}" ++ rest) = closed false false rest).
    apply (closed_concat ps ("}" ++ rest)). apply Forall_lookup. intros i p Hp r. subst ps.
    apply lookup_zip_with_Some in Hp as (k & t' & -> & Hk & Ht').
    match goal with H : Forall2 string_text _ _ |- _ => destruct (Forall2_lookup_r _ _ _ _ _ H Hk) as (k' & _ & Hks) end.
    match goal with H : Forall2 (text_of n) _ _ |- _ => destruct (Forall2_lookup_r _ _ _ _ _ H Ht') as (j' & _ & Hj) end.
    rewrite !str_assoc. erewrite closed_quoted by eassumption. by apply (IH j' t').
Qed.

(** A value whose one string ends in a backslash. *)
Inductive trailing : nat -> Ast.value -> Prop :=
| tr_string n s : plain_string s -> trailing (S n) (Ast.String_ (s ++ "\"))
| tr_list n v : trailing n v -> trailing (S n) (Ast.List_ [v])
| tr_object n k v : plain_string k -> trailing n v -> trailing (S n) (Ast.Object [(k, v)]).

Lemma escape_plain s : plain_string s -> escape_quotes (s ++ "\") = s ++ "\".
Proof.
  unfold plain_string. induction s as [|c s IH]; [done|]. intros [Hc Hs]%andb_true_iff.
  apply plain_not in Hc as [H1 H2]. rewrite str_cons. cbn [escape_quotes]. rewrite H1. by rewrite IH.
Qed.

Lemma trailing_head n v t : trailing n v -> serialize_value_inner n v = Some t ->
  exists c t', t = String c t' /\ c <> "$"%char.
Proof.
  intros Ht. destruct Ht as [n s Hs|n v _|n k v _ _]; cbn.
  - intros [= <-]. by eexists _, _.
  - destruct (serialize_value_inner n v); [|done]. intros [= <-]. by eexists _, _.
  - destruct (serialize_value_inner n v); [|done]. intros [= <-]. by eexists _, _.
Qed.

Lemma trailing_text n v : trailing n v ->
  exists t, serialize_value_inner n v = Some t /\
    forall rest, plain_string rest -> closed false false (t ++ rest) = false.
Proof.
  induction 1 as [n s Hs|n v _ (t & E & Ht)|n k v Hk _ (t & E & Ht)]; cbn; rewrite ?E; cbn.
  - eexists. split; [done|]. intros rest Hr. unfold quoted. rewrite escape_plain by done.
    rewrite !str_assoc. change (closed true false (s ++ "\" ++ quote ++ rest) = false).
    rewrite closed_plain by done. change (closed true false rest = false).
    rewrite <- (str_nil_r rest). by rewrite closed_plain.
  - eexists. split; [done|]. intros rest Hr. rewrite !str_assoc.
    change (closed false false (t ++ "]" ++ rest) = false). apply Ht. by apply plain_app.
  - eexists. split; [done|]. intros rest Hr. unfold quoted. rewrite !str_assoc.
    change (closed true false (k ++ quote ++ ":" ++ t ++ "}" ++ rest) = false).
    rewrite closed_plain by done. change (closed false false (t ++ "}" ++ rest) = false).
    apply Ht. by apply plain_app.
Qed.

(** Literal arguments keep their value: the text an argument is stored as is
    the JSON text of the value, when its strings have no backslash and no
    control character and it is nested at most 64 deep. *)
Theorem argument_text_is_json v j :
  means (S MAX_SERIALIZE_DEPTH) v j -> text_of (S MAX_SERIALIZE_DEPTH) j (serialize_value v).
Proof. intros (t & E & Ht)%serialized. unfold serialize_value. by rewrite E. Qed.

(** A string that ends in a backslash is stored as text that is not JSON:
    only double quotes are escaped, so the closing quote is read as part of
    the string. *)
Theorem trailing_backslash_not_json v n :
  trailing (S MAX_SERIALIZE_DEPTH) v -> ~ exists j, text_of n j (serialize_value v).
Proof.
  intros (t & E & Ht)%trailing_text. unfold serialize_value. rewrite E. cbn. intros (j & Hj).
  pose proof (text_closed _ _ _ Hj "") as H1. rewrite (Ht "" eq_refl) in H1. done.
Qed.

(** [{name: {eq: "say \"hi\""}, tags: [A, -3]}] *)
Definition where_argument : Ast.value :=
  Ast.Object [("name", Ast.Object [("eq", Ast.String_ ("say " ++ quoted "hi"))]);
              ("tags", Ast.List_ [Ast.Enum "A"; Ast.Int (Some (-3)%Z)])].
Definition where_json : json :=
  JObject [("name", JObject [("eq", JString ("say " ++ quoted "hi"))]);
           ("tags", JArray [JString "A"; JNumber (NegInt (-3)%Z)])].

Lemma argument_text_is_json_witness :
  text_of (S MAX_SERIALIZE_DEPTH) where_json (serialize_value where_argument).
Proof.
  apply argument_text_is_json.
  refine (m_object _ _ [_; _] _ _ _); [by apply (bool_decide_unpack _) | by repeat constructor|].
  repeat apply Forall2_cons_2; [| |apply Forall2_nil_2].
  - refine (m_object _ _ [_] _ _ _); [by apply (bool_decide_unpack _) | by repeat constructor|].
    by repeat constructor.
  - constructor. repeat apply Forall2_cons_2; [by constructor | constructor; lia | apply Forall2_nil_2].
Defined.

Lemma trailing_backslash_not_json_witness :
  ~ exists j, text_of 9 j (serialize_value (Ast.Object [("eq", Ast.String_ ("C:" ++ "\"))])).
Proof. apply trailing_backslash_not_json. repeat constructor. Defined.
End JsonText.
