(* ===== verification/Complexity.v ===== *)
(** * Query complexity limits

    [graphql/complexity.rs]: the depth, score and aliases of a document and the
    limits put on them before a query runs.  [Validator] is the code,
    [Expansion] the document with its fragments written out, which says what
    the numbers are meant to be. *)

From S2P Require Import Prelude Json GraphQL.
From stdpp Require Import pretty.
Import Ast.
#[local] Open Scope Z_scope.

Module Validator.

Definition DEFAULT_MAX_ALIASES : Z := 30.
Definition MAX_VARIABLES_COUNT : Z := 1000.

Record ComplexityConfig : Type := { cfg_max_depth : Z; cfg_max_complexity : Z; cfg_max_aliases : Z }.
Definition default_config : ComplexityConfig :=
  {| cfg_max_depth := 10; cfg_max_complexity := 100; cfg_max_aliases := DEFAULT_MAX_ALIASES |}.

Record QueryMetrics : Type := { depth : Z; complexity : Z; alias_count : Z }.

Inductive ComplexityValidationError : Type :=
| QueryTooDeep (max_depth actual_depth : Z)
| QueryTooComplex (max_complexity actual_complexity : Z)
| TooManyAliases (max_aliases actual_aliases : Z)
| InvalidVariables (message : string)
| MalformedQuery (message : string).

Record RequestValidator : Type := mkValidator {
  max_depth : Z;
  max_complexity : Z;
  max_aliases_per_query : Z;
  validate_depth : bool;
  validate_complexity : bool
}.

Definition from_config (c : ComplexityConfig) : RequestValidator :=
  mkValidator c.(cfg_max_depth) c.(cfg_max_complexity) c.(cfg_max_aliases) true true.
Definition new : RequestValidator := mkValidator 10 100 DEFAULT_MAX_ALIASES true true.
Definition with_max_depth (v : RequestValidator) (d : Z) : RequestValidator :=
  mkValidator d v.(max_complexity) v.(max_aliases_per_query) v.(validate_depth) v.(validate_complexity).
Definition with_max_complexity (v : RequestValidator) (c : Z) : RequestValidator :=
  mkValidator v.(max_depth) c v.(max_aliases_per_query) v.(validate_depth) v.(validate_complexity).
Definition with_depth_validation (v : RequestValidator) (enabled : bool) : RequestValidator :=
  mkValidator v.(max_depth) v.(max_complexity) v.(max_aliases_per_query) enabled v.(validate_complexity).
Definition with_complexity_validation (v : RequestValidator) (enabled : bool) : RequestValidator :=
  mkValidator v.(max_depth) v.(max_complexity) v.(max_aliases_per_query) v.(validate_depth) enabled.
Definition with_max_aliases (v : RequestValidator) (n : Z) : RequestValidator :=
  mkValidator v.(max_depth) v.(max_complexity) n v.(validate_depth) v.(validate_complexity).

Definition collect_fragments (doc : document) : list fragment :=
  omap (fun def => match def with Fragment f => Some f | Operation _ => None end) doc.

(** [fragments.iter().find(|f| f.name == name)]. *)
Fixpoint find_fragment (frs : list fragment) (name : string) : option fragment :=
  match frs with
  | [] => None
  | f :: frs => if f.(fragment_name) =s name then Some f else find_fragment frs name
  end.

Definition selection_set_of (op : operation) : list selection :=
  match op with
  | SelectionSet ss => ss
  | Query b | Mutation b | Subscription b => b.(operation_set)
  end.

(** [.max().unwrap_or(0)] and [.sum()]; a sum of [usize] wraps around in a release build. *)
Definition max_or_0 (l : list Z) : Z := foldr Z.max 0 l.
Definition usize_sum (l : list Z) : Z := foldl (fun acc x => u64_wrap (acc + x)) 0 l.

Definition limit_argument (name : string) : bool :=
  (name =s "first") || (name =s "limit") || (name =s "take") || (name =s "last").

(** [as usize] of an [i64], then [clamp(1, 100)]. *)
Fixpoint extract_limit_multiplier (arguments : list (string * value)) : Z :=
  match arguments with
  | [] => 1
  | (name, value) :: rest =>
      match limit_argument name, value with
      | true, Int n => Z.max 1 (Z.min 100 (u64_wrap (default 10 n)))
      | _, _ => extract_limit_multiplier rest
      end
  end.

Fixpoint selection_aliases (s : selection) : Z :=
  match s with
  | Field alias _ _ _ ss => u64_wrap (b2z (bool_decide (is_Some alias)) + usize_sum (map selection_aliases ss))
  | InlineFragment _ _ ss => usize_sum (map selection_aliases ss)
  | FragmentSpread _ _ => 0
  end.
Definition count_aliases_in_selection_set (ss : list selection) : Z := usize_sum (map selection_aliases ss).

Definition count_aliases_ast (doc : document) : Z :=
  usize_sum (map (fun def => match def with
    | Operation op => count_aliases_in_selection_set (selection_set_of op)
    | Fragment f => count_aliases_in_selection_set f.(fragment_set)
    end) doc).

(** A set's depth, given the depth of each of its selections. *)
Definition set_depth (depth_of : selection -> Z) (ss : list selection) : Z :=
  match ss with [] => 0 | _ => u64_wrap (1 + max_or_0 (map depth_of ss)) end.

(** The walk inside one selection set; [spread] is what a fragment counts for. *)
Fixpoint depth_in (spread : string -> Z) (s : selection) : Z :=
  match s with
  | Field _ _ _ _ ss => match ss with [] => 0 | _ => set_depth (depth_in spread) ss end
  | InlineFragment _ _ ss => set_depth (depth_in spread) ss
  | FragmentSpread name _ => spread name
  end.

Fixpoint complexity_in (spread : string -> Z) (s : selection) : Z :=
  match s with
  | Field _ _ args _ ss =>
      match ss with
      | [] => 1
      | _ => u64_wrap (1 + u64_wrap (usize_sum (map (complexity_in spread) ss) * extract_limit_multiplier args))
      end
  | InlineFragment _ _ ss => usize_sum (map (complexity_in spread) ss)
  | FragmentSpread name _ => spread name
  end.

(** [recursion_depth > 32] stops the walk: 33 sets may be entered by spreads. *)
Definition max_spreads : nat := 33.

Section Walk.
Context (v : RequestValidator) (frs : list fragment).

(** [room] is [33 - recursion_depth]. *)
Fixpoint selection_set_depth (room : nat) (ss : list selection) : Z :=
  match room with
  | O => u64_wrap (v.(max_depth) + 1)
  | S room =>
      set_depth (depth_in (fun name =>
        match find_fragment frs name with
        | Some f => selection_set_depth room f.(fragment_set)
        | None => v.(max_depth)
        end)) ss
  end.

Fixpoint selection_set_complexity (room : nat) (ss : list selection) : Z :=
  match room with
  | O => u64_wrap (v.(max_complexity) + 1)
  | S room =>
      usize_sum (map (complexity_in (fun name =>
        match find_fragment frs name with
        | Some f => selection_set_complexity room f.(fragment_set)
        | None => 10
        end)) ss)
  end.
End Walk.

Definition calculate_depth_ast (v : RequestValidator) (doc : document) (frs : list fragment) : Z :=
  max_or_0 (map (fun def => match def with
    | Operation op => selection_set_depth v frs max_spreads (selection_set_of op)
    | Fragment f => selection_set_depth v frs max_spreads f.(fragment_set)
    end) doc).

Definition calculate_complexity_ast (v : RequestValidator) (doc : document) (frs : list fragment) : Z :=
  usize_sum (map (fun def => match def with
    | Operation op => selection_set_complexity v frs max_spreads (selection_set_of op)
    | Fragment _ => 0
    end) doc).

(** The limits put on a document that was read. *)
Definition validate_document (v : RequestValidator) (doc : document) : result ComplexityValidationError () :=
  let frs := collect_fragments doc in
  let d := calculate_depth_ast v doc frs in
  let c := calculate_complexity_ast v doc frs in
  let a := count_aliases_ast doc in
  guard_err (v.(validate_depth) && (v.(max_depth) <? d)) as (QueryTooDeep v.(max_depth) d) ;;
  guard_err (v.(validate_complexity) && (v.(max_complexity) <? c)) as (QueryTooComplex v.(max_complexity) c) ;;
  guard_err (v.(max_aliases_per_query) <? a) as (TooManyAliases v.(max_aliases_per_query) a) ;;
  Ok ().

Section Package.
(** [graphql_parser::parse_query] and [str::trim]'s test for blank text. *)
Context (read_document : string -> result string document) (blank : string -> bool).

Definition read (query : string) : result ComplexityValidationError document :=
  match read_document query with Ok doc => Ok doc | Err e => Err (MalformedQuery e) end.

Definition analyze (v : RequestValidator) (query : string) : result ComplexityValidationError QueryMetrics :=
  guard_err (blank query) as (MalformedQuery "Empty query") ;;
  doc ← read query;
  let frs := collect_fragments doc in
  Ok {| depth := calculate_depth_ast v doc frs; complexity := calculate_complexity_ast v doc frs;
        alias_count := count_aliases_ast doc |}.

Definition validate_query (v : RequestValidator) (query : string) : result ComplexityValidationError () :=
  guard_err (blank query) as (MalformedQuery "Empty query") ;;
  if negb v.(validate_depth) && negb v.(validate_complexity) && (v.(max_aliases_per_query) =? 0) then Ok () else
  doc ← read query;
  validate_document v doc.
End Package.

Definition validate_variables (variables : option json) : result ComplexityValidationError () :=
  match variables with
  | None => Ok ()
  | Some (JObject obj) =>
      guard_err (MAX_VARIABLES_COUNT <? Z.of_nat (length obj))
        as (InvalidVariables ("Too many variables: " ++ pretty (length obj) ++ " exceeds maximum of "
              ++ pretty MAX_VARIABLES_COUNT)) ;;
      Ok ()
  | Some _ => Err (InvalidVariables "Variables must be an object")
  end.
End Validator.

(** ** The document with its fragments written out *)
Module Expansion.
Import Validator GraphQL.Parser.

Inductive node : Type :=
| NField (multiplier : Z) (children : list node)
| NInline (children : list node)
| NSpread (children : list node).

Section NodeInd.
Context (P : node -> Prop).
Hypothesis Hfield : forall m ns, Forall P ns -> P (NField m ns).
Hypothesis Hinline : forall ns, Forall P ns -> P (NInline ns).
Hypothesis Hspread : forall ns, Forall P ns -> P (NSpread ns).
Fixpoint node_ind' (n : node) : P n :=
  let all := fix all (l : list node) : Forall P l :=
    match l with [] => Forall_nil_2 _ | x :: l => Forall_cons_2 _ x l (node_ind' x) (all l) end in
  match n with
  | NField m ns => Hfield m ns (all ns)
  | NInline ns => Hinline ns (all ns)
  | NSpread ns => Hspread ns (all ns)
  end.
End NodeInd.

Fixpoint expand_in (spread : string -> option (list node)) (s : selection) : option node :=
  match s with
  | Field _ _ args _ ss => NField (extract_limit_multiplier args) <$> all_some (map (expand_in spread) ss)
  | InlineFragment _ _ ss => NInline <$> all_some (map (expand_in spread) ss)
  | FragmentSpread name _ => NSpread <$> spread name
  end.

(** Nothing when a spread names no fragment or spreads nest deeper than [room]. *)
Fixpoint expand_set (frs : list fragment) (room : nat) (ss : list selection) : option (list node) :=
  match room with
  | O => None
  | S room =>
      all_some (map (expand_in (fun name =>
        f ← find_fragment frs name; expand_set frs room f.(fragment_set))) ss)
  end.

Definition nodes_depth (depth_of : node -> Z) (ns : list node) : Z :=
  match ns with [] => 0 | _ => 1 + max_or_0 (map depth_of ns) end.
Fixpoint node_depth (n : node) : Z :=
  match n with
  | NField _ ns => match ns with [] => 0 | _ => nodes_depth node_depth ns end
  | NInline ns | NSpread ns => nodes_depth node_depth ns
  end.

Definition sum (l : list Z) : Z := foldr Z.add 0 l.
(** The score in unbounded arithmetic. *)
Fixpoint node_cost (n : node) : Z :=
  match n with
  | NField m ns => match ns with [] => 1 | _ => 1 + sum (map node_cost ns) * m end
  | NInline ns | NSpread ns => sum (map node_cost ns)
  end.
Fixpoint node_fields (n : node) : Z :=
  match n with
  | NField _ ns => 1 + sum (map node_fields ns)
  | NInline ns | NSpread ns => sum (map node_fields ns)
  end.

(** How deep selections are nested in the text, spreads not followed. *)
Fixpoint nesting (s : selection) : Z :=
  match s with
  | Field _ _ _ _ ss | InlineFragment _ _ ss => 1 + max_or_0 (map nesting ss)
  | FragmentSpread _ _ => 0
  end.
Definition nesting_set (ss : list selection) : Z := 1 + max_or_0 (map nesting ss).

Definition sets (doc : document) : list (list selection) :=
  map (fun def => match def with
    | Operation op => selection_set_of op
    | Fragment f => f.(fragment_set)
    end) doc.

(** The depth of the text leaves the depth of the walk within [usize]. *)
Definition small (v : RequestValidator) (doc : document) : Prop :=
  0 <= v.(max_depth) /\ v.(max_depth) + 1 + 34 * max_or_0 (map nesting_set (sets doc)) <= u64_max.

(** What it is for selections to be well formed: every spread names a
    fragment, and following spreads comes to an end. *)
Inductive well_formed (frs : list fragment) : selection -> Prop :=
| wf_field a n args ds ss : Forall (well_formed frs) ss -> well_formed frs (Field a n args ds ss)
| wf_inline t ds ss : Forall (well_formed frs) ss -> well_formed frs (InlineFragment t ds ss)
| wf_spread n ds f : find_fragment frs n = Some f -> Forall (well_formed frs) f.(fragment_set) ->
    well_formed frs (FragmentSpread n ds).
End Expansion.

Module ExpansionFacts.
Import Validator Expansion GraphQL.Parser.

Lemma max_or_0_le l b : 0 <= b -> max_or_0 l <= b <-> forall x, x ∈ l -> x <= b.
Proof.
  intros Hb. induction l as [|y l IH]; cbn.
  - split; [intros _ x Hx; set_solver | lia].
  - rewrite Z.max_lub_iff, IH. split.
    + intros [? Hl] x [->|Hx]%elem_of_cons; auto.
    + intros Hx. split; [apply Hx; by left | intros z Hz; apply Hx; by right].
Qed.
Lemma max_or_0_nonneg l : 0 <= max_or_0 l.
Proof. unfold max_or_0. induction l; cbn; lia. Qed.
Lemma max_or_0_in x l : x ∈ l -> x <= max_or_0 l.
Proof. intros Hx. apply (max_or_0_le l); [apply max_or_0_nonneg | lia | done]. Qed.
Lemma max_map_le {A} (f : A -> Z) l b : 0 <= b -> (forall x, x ∈ l -> f x <= b) -> max_or_0 (map f l) <= b.
Proof. intros Hb H. apply max_or_0_le; [done|]. intros y (x & -> & Hx)%list_elem_of_fmap. auto. Qed.

Lemma in_map_max {A} (f : A -> Z) x l : x ∈ l -> f x <= max_or_0 (map f l).
Proof. intros Hx. apply max_or_0_in. by apply list_elem_of_fmap_2. Qed.

Lemma nesting_set_child ss s : s ∈ ss -> nesting s + 1 <= nesting_set ss.
Proof. intros Hs. pose proof (in_map_max nesting _ _ Hs). unfold nesting_set. lia. Qed.

(** The walk in a set adds at most the nesting of the text to what spreads count for. *)
Lemma set_depth_bound depth_of ss X :
  0 <= X -> X + nesting_set ss <= u64_max ->
  (forall s, s ∈ ss -> 0 <= depth_of s <= X + nesting s) ->
  0 <= set_depth depth_of ss <= X + nesting_set ss /\
  (ss <> [] -> set_depth depth_of ss = 1 + max_or_0 (map depth_of ss)).
Proof.
  intros HX Hb Hs. assert (Hm : max_or_0 (map depth_of ss) <= X + max_or_0 (map nesting ss)).
  { apply max_map_le; [pose proof (max_or_0_nonneg (map nesting ss)); lia|].
    intros s Hin. destruct (Hs s Hin). pose proof (in_map_max nesting _ _ Hin). lia. }
  pose proof (max_or_0_nonneg (map depth_of ss)). pose proof (max_or_0_nonneg (map nesting ss)).
  unfold set_depth, nesting_set in *. destruct ss as [|s ss]; [split; [lia|done]|].
  rewrite u64_wrap_id by (unfold is_u64; lia). split; [lia|done].
Qed.

Lemma depth_in_bound spread X :
  0 <= X -> (forall n, 0 <= spread n <= X) -> forall s, X + nesting s + 1 <= u64_max ->
  0 <= depth_in spread s <= X + nesting s.
Proof.
  intros HX Hsp. induction s as [a n args ds ss IH|n ds|t ds ss IH] using selection_ind'; cbn; intros Hb.
  - assert (Hs : 0 <= set_depth (depth_in spread) ss <= X + nesting_set ss).
    { apply set_depth_bound; [done | unfold nesting_set; lia |]. rewrite list.Forall_forall in IH.
      intros s Hin. apply IH; [done|]. pose proof (nesting_set_child _ _ Hin). unfold nesting_set in *. lia. }
    destruct ss; [cbn in *; lia|]. exact Hs.
  - specialize (Hsp n). lia.
  - apply set_depth_bound; [done | unfold nesting_set; lia |]. rewrite list.Forall_forall in IH.
    intros s Hin. apply IH; [done|]. pose proof (nesting_set_child _ _ Hin). unfold nesting_set in *. lia.
Qed.

Lemma find_fragment_in frs name f : find_fragment frs name = Some f -> f ∈ frs.
Proof.
  induction frs as [|g frs IH]; cbn; [done|]. case_bool; [intros [= ->]; by left | right; auto].
Qed.

Section Bounded.
Context (v : RequestValidator) (frs : list fragment) (H : Z).
Context (Hd : 0 <= v.(max_depth)) (HH : forall f, f ∈ frs -> nesting_set f.(fragment_set) <= H).
Context (H0 : 0 <= H) (Hfit : v.(max_depth) + 1 + 34 * H <= u64_max).

Definition spread_depth (room : nat) (name : string) : Z :=
  match find_fragment frs name with
  | Some f => selection_set_depth v frs room f.(fragment_set)
  | None => v.(max_depth)
  end.

Lemma walk_bound room ss : (room <= 33)%nat -> nesting_set ss <= H ->
  0 <= selection_set_depth v frs room ss <= v.(max_depth) + 1 + Z.of_nat room * H.
Proof.
  revert ss. induction room as [|room IH]; intros ss Hr Hn; cbn.
  - rewrite u64_wrap_id by (unfold is_u64; nia). lia.
  - assert (Hsp : forall n, 0 <= spread_depth room n <= v.(max_depth) + 1 + Z.of_nat room * H).
    { intros n. unfold spread_depth. destruct (find_fragment frs n) as [f|] eqn:E; [|nia].
      apply IH; [lia|]. apply HH. by eapply find_fragment_in. }
    fold (spread_depth room).
    edestruct (set_depth_bound (depth_in (spread_depth room)) ss (v.(max_depth) + 1 + Z.of_nat room * H)) as [Hb _];
      [nia|nia| |nia].
    intros s Hin. pose proof (nesting_set_child _ _ Hin). apply depth_in_bound; [nia|done|nia].
Qed.

Lemma spread_depth_bound room n : (room < 33)%nat ->
  0 <= spread_depth room n <= v.(max_depth) + 1 + Z.of_nat room * H.
Proof.
  intros Hr. unfold spread_depth. destruct (find_fragment frs n) as [f|] eqn:E; [|nia].
  apply walk_bound; [lia|]. apply HH. by eapply find_fragment_in.
Qed.

(** Agreement of a number with an expansion: the depth, or too much. *)
Definition agrees (d : Z) (o : option (list node)) : Prop :=
  match o with Some ns => d = nodes_depth node_depth ns | None => v.(max_depth) < d end.
Definition agrees_spread (d : Z) (o : option (list node)) : Prop :=
  match o with Some ns => d = nodes_depth node_depth ns | None => v.(max_depth) <= d end.
Definition agrees_node (d : Z) (o : option node) : Prop :=
  match o with Some n => d = node_depth n | None => v.(max_depth) <= d end.

Lemma set_agrees (depth_of : selection -> Z) (expand_of : selection -> option node) X ss :
  0 <= X -> X + nesting_set ss <= u64_max ->
  (forall s, s ∈ ss -> 0 <= depth_of s <= X + nesting s) ->
  (forall s, s ∈ ss -> agrees_node (depth_of s) (expand_of s)) ->
  agrees (set_depth depth_of ss) (all_some (map expand_of ss)).
Proof.
  intros HX Hb Hs Ha. destruct (set_depth_bound depth_of ss X HX Hb Hs) as [_ E].
  destruct ss as [|s0 ss0]; [done|]. rewrite E by done. clear E. set (ss := s0 :: ss0) in *.
  unfold agrees. destruct (all_some (map expand_of ss)) as [ns|] eqn:Es.
  - apply JsonText.all_some_Some in Es.
    assert (Em : map depth_of ss = map node_depth ns).
    { clear -Es Ha. revert ns Es. induction ss as [|s l IH]; intros [|n ns] Es; try done.
      injection Es as E1 E2. cbn. f_equal; [|apply IH; [|done]; intros; apply Ha; by right].
      specialize (Ha s ltac:(by left)). by rewrite E1 in Ha. }
    destruct ns as [|n ns]; [done|]. unfold nodes_depth. by rewrite Em.
  - apply JsonText.all_some_None in Es as (s & Hin & En).
    specialize (Ha s Hin). rewrite En in Ha. cbn in Ha. pose proof (in_map_max depth_of _ _ Hin). lia.
Qed.

Section Inside.
Context (sd : string -> Z) (se : string -> option (list node)) (X : Z) (HX : 0 <= X).
Context (Hsd : forall n, 0 <= sd n <= X) (Hse : forall n, agrees_spread (sd n) (se n)).

Lemma children_agree ss :
  Forall (fun s => X + nesting s + 1 <= u64_max -> agrees_node (depth_in sd s) (expand_in se s)) ss ->
  X + nesting_set ss <= u64_max ->
  agrees (set_depth (depth_in sd) ss) (all_some (map (expand_in se) ss)).
Proof.
  intros IH Hb. rewrite list.Forall_forall in IH.
  assert (Hc : forall s, s ∈ ss -> X + nesting s + 1 <= u64_max)
    by (intros s Hin; pose proof (nesting_set_child _ _ Hin); lia).
  apply (set_agrees _ _ X); auto. intros s Hin. apply depth_in_bound; auto.
Qed.

Lemma in_agrees s : X + nesting s + 1 <= u64_max -> agrees_node (depth_in sd s) (expand_in se s).
Proof.
  induction s as [a n args ds ss IH|n ds|t ds ss IH] using selection_ind'; intros Hb.
  - apply children_agree in IH; [|cbn in Hb; unfold nesting_set; lia].
    cbn. destruct ss as [|s ss]; [done|]. set (l := s :: ss) in *.
    destruct (all_some (map (expand_in se) l)) as [[|n' ns]|] eqn:E; cbn in *; [|done|lia].
    destruct (expand_in se s); [|done]. by destruct (all_some (map (expand_in se) ss)).
  - specialize (Hse n). cbn. by destruct (se n).
  - apply children_agree in IH; [|cbn in Hb; unfold nesting_set; lia].
    cbn. destruct (all_some (map (expand_in se) ss)) as [ns|] eqn:E; cbn in *; [done|lia].
Qed.
End Inside.

Definition spread_nodes (room : nat) (name : string) : option (list node) :=
  f ← find_fragment frs name; expand_set frs room f.(fragment_set).

Lemma walk_agrees room ss : (room <= 33)%nat -> nesting_set ss <= H ->
  agrees (selection_set_depth v frs room ss) (expand_set frs room ss).
Proof.
  revert ss. induction room as [|room IH]; intros ss Hr Hn; cbn.
  - rewrite u64_wrap_id by (unfold is_u64; nia). lia.
  - fold (spread_depth room) (spread_nodes room).
    set (X := v.(max_depth) + 1 + Z.of_nat room * H).
    apply (children_agree _ _ X); [unfold X; nia | by intros; apply spread_depth_bound; lia | | unfold X; nia].
    apply list.Forall_forall. intros s Hin Hs. apply (in_agrees _ _ X);
      [unfold X; nia | by intros; apply spread_depth_bound; lia | | done].
    intros n.
    unfold spread_depth, spread_nodes. destruct (find_fragment frs n) as [f|] eqn:E; cbn; [|lia].
    specialize (IH f.(fragment_set) ltac:(lia) ltac:(apply HH; by eapply find_fragment_in)).
    unfold agrees in IH. destruct (expand_set _ _ _); cbn; [done|lia].
Qed.
End Bounded.

(** An expansion says that the selections are well formed. *)
Lemma expand_wf frs room ss : is_Some (expand_set frs room ss) -> Forall (well_formed frs) ss.
Proof.
  revert ss. induction room as [|room IH]; intros ss Hns; [by destruct Hns|].
  cbn in Hns. rewrite JsonText.all_some_map in Hns.
  eapply list.Forall_impl; [exact Hns|]. clear ss Hns.
  intros s. induction s as [a n args ds l IHs|n ds|t ds l IHs] using selection_ind'; cbn; intros Hin.
  - constructor. rewrite fmap_is_Some, JsonText.all_some_map in Hin.
    rewrite list.Forall_forall in *. auto.
  - rewrite fmap_is_Some in Hin. destruct (find_fragment frs n) as [f|] eqn:E; [|by destruct Hin].
    econstructor; [done|]. by apply IH.
  - constructor. rewrite fmap_is_Some, JsonText.all_some_map in Hin.
    rewrite list.Forall_forall in *. auto.
Qed.

Lemma nesting_set_nonneg ss : 0 <= nesting_set ss.
Proof. unfold nesting_set. pose proof (max_or_0_nonneg (map nesting ss)). lia. Qed.

Lemma fragment_in_sets doc f : f ∈ collect_fragments doc -> f.(fragment_set) ∈ sets doc.
Proof.
  unfold collect_fragments, sets. intros (def & Hd & E)%list_elem_of_omap. destruct def as [|g]; [done|].
  injection E as ->. exact (list_elem_of_fmap_2 _ _ _ Hd).
Qed.

(** The depth of a document within the limit. *)
Lemma depth_limit v doc : small v doc ->
  calculate_depth_ast v doc (collect_fragments doc) <= v.(max_depth) <->
  forall ss, ss ∈ sets doc -> exists ns,
    expand_set (collect_fragments doc) max_spreads ss = Some ns /\ nodes_depth node_depth ns <= v.(max_depth).
Proof.
  intros [Hd Hfit]. set (H := max_or_0 (map nesting_set (sets doc))) in *.
  assert (Hset : forall ss, ss ∈ sets doc ->
    agrees v (selection_set_depth v (collect_fragments doc) max_spreads ss)
      (expand_set (collect_fragments doc) max_spreads ss)).
  { intros ss Hss. apply (walk_agrees v _ H);
      [done | | apply max_or_0_nonneg | done | unfold max_spreads; lia | by apply in_map_max].
    intros f Hf. by apply (in_map_max nesting_set), fragment_in_sets. }
  assert (E : calculate_depth_ast v doc (collect_fragments doc)
              = max_or_0 (map (selection_set_depth v (collect_fragments doc) max_spreads) (sets doc))).
  { unfold calculate_depth_ast, sets. rewrite map_map. f_equal. apply map_ext. by intros [|]. }
  rewrite E, max_or_0_le by done. split.
  - intros Hle ss Hss. specialize (Hset ss Hss).
    specialize (Hle (selection_set_depth v (collect_fragments doc) max_spreads ss) (list_elem_of_fmap_2 _ _ _ Hss)).
    unfold agrees in Hset. destruct (expand_set _ _ ss) as [ns|]; [|lia]. exists ns. split; [done|lia].
  - intros Hns x (ss & -> & Hss)%list_elem_of_fmap. specialize (Hset ss Hss).
    destruct (Hns ss Hss) as (ns & E' & Hle). rewrite E' in Hset. unfold agrees in Hset. lia.
Qed.

Lemma accepted v doc : validate_document v doc = Ok () ->
  (v.(validate_depth) = true -> calculate_depth_ast v doc (collect_fragments doc) <= v.(max_depth)) /\
  (v.(validate_complexity) = true -> calculate_complexity_ast v doc (collect_fragments doc) <= v.(max_complexity)) /\
  count_aliases_ast doc <= v.(max_aliases_per_query).
Proof.
  unfold validate_document. intros H. repeat case_bool; try done.
  repeat split; [intros E | intros E | by to_prop]; rewrite E in *; cbn in *; by to_prop.
Qed.
End ExpansionFacts.

Module ScoreFacts.
Import Validator Expansion ExpansionFacts GraphQL.Parser.

Definition op_sets (doc : document) : list (list selection) :=
  omap (fun def => match def with Operation op => Some (selection_set_of op) | Fragment _ => None end) doc.
Definition cost (ns : list node) : Z := sum (map node_cost ns).
Definition fields (ns : list node) : Z := sum (map node_fields ns).

Lemma usize_sum_acc l a : foldl (fun acc x => u64_wrap (acc + x)) (u64_wrap a) l = u64_wrap (a + sum l).
Proof.
  revert a. unfold sum. induction l as [|x l IH]; intros a; cbn; [by rewrite Z.add_0_r|].
  replace (u64_wrap (u64_wrap a + x)) with (u64_wrap (a + x)); [rewrite IH; f_equal; lia|].
  unfold u64_wrap. by rewrite Zplus_mod_idemp_l.
Qed.
Lemma usize_sum_spec l : usize_sum l = u64_wrap (sum l).
Proof. exact (usize_sum_acc l 0). Qed.

Lemma wrap_wrap z : u64_wrap (u64_wrap z) = u64_wrap z.
Proof. unfold u64_wrap. by rewrite Zmod_mod. Qed.

Lemma wrap_score a b m : u64_wrap a = u64_wrap b -> u64_wrap (1 + u64_wrap (u64_wrap a * m)) = u64_wrap (1 + b * m).
Proof.
  unfold u64_wrap. intros E. rewrite E, Zmult_mod_idemp_l, Zplus_mod_idemp_r. done.
Qed.

Lemma wrap_sum_map {A B} (f : A -> Z) (g : B -> Z) l m :
  Forall2 (fun a b => u64_wrap (f a) = u64_wrap (g b)) l m ->
  u64_wrap (sum (map f l)) = u64_wrap (sum (map g m)).
Proof.
  unfold sum. induction 1 as [|a b l m Hab _ IH]; [done|]. cbn. unfold u64_wrap in *.
  rewrite (Zplus_mod (f a)), (Zplus_mod (g b)). by rewrite Hab, IH.
Qed.

Lemma expanded {A B} (f : A -> option B) l r : all_some (map f l) = Some r -> Forall2 (fun a b => f a = Some b) l r.
Proof.
  intros E%JsonText.all_some_Some. revert r E. induction l as [|a l IH]; intros [|b r] E; try done.
  injection E as E1 E2. constructor; auto.
Qed.

Lemma Forall2_under {A B} (P : A -> Prop) (R S : A -> B -> Prop) l m :
  Forall P l -> Forall2 R l m -> (forall a b, P a -> R a b -> S a b) -> Forall2 S l m.
Proof. intros HP HR HS. induction HR; inversion HP; subst; constructor; auto. Qed.

(** The score inside a set is the cost of its expansion, modulo the width of [usize]. *)
Lemma score_in sc se : (forall n ns, se n = Some ns -> u64_wrap (sc n) = u64_wrap (cost ns)) ->
  forall s n, expand_in se s = Some n -> u64_wrap (complexity_in sc s) = u64_wrap (node_cost n).
Proof.
  intros Hse s. induction s as [a nm args ds ss IH|nm ds|t ds ss IH] using selection_ind'; intros n En; cbn in En.
  - apply fmap_Some in En as (ns & E%expanded & ->).
    assert (Hs : u64_wrap (sum (map (complexity_in sc) ss)) = u64_wrap (sum (map node_cost ns))).
    { apply wrap_sum_map. eapply Forall2_under; [exact IH | exact E | auto]. }
    cbn. destruct ss as [|s ss]; [by apply Forall2_nil_inv_l in E as ->|].
    destruct ns as [|n ns]; [by apply Forall2_nil_inv_r in E|]. set (l := s :: ss) in *.
    rewrite usize_sum_spec, wrap_wrap. by apply wrap_score.
  - apply fmap_Some in En as (ns & E & ->). by apply Hse.
  - apply fmap_Some in En as (ns & E%expanded & ->). cbn. rewrite usize_sum_spec.
    rewrite wrap_wrap. apply wrap_sum_map. eapply Forall2_under; [exact IH | exact E | auto].
Qed.

Lemma score_set v frs room ss ns : expand_set frs room ss = Some ns ->
  selection_set_complexity v frs room ss = u64_wrap (cost ns).
Proof.
  revert ss ns. induction room as [|room IH]; intros ss ns E; cbn in E; [done|].
  cbn. rewrite usize_sum_spec. apply wrap_sum_map. apply expanded in E.
  eapply Forall2_impl; [exact E|]. cbn. intros s n Hs. eapply score_in; [|exact Hs]. cbn.
  intros nm ns' Hf. destruct (find_fragment frs nm) as [f|]; [|done]. cbn in Hf.
  by rewrite (IH _ _ Hf), wrap_wrap.
Qed.

(** The score of a document whose spreads all resolve. *)
Lemma score_document v doc nss :
  Forall2 (fun ss ns => expand_set (collect_fragments doc) max_spreads ss = Some ns) (op_sets doc) nss ->
  calculate_complexity_ast v doc (collect_fragments doc) = u64_wrap (sum (map cost nss)).
Proof.
  intros Hs. unfold calculate_complexity_ast. rewrite usize_sum_spec.
  generalize (collect_fragments doc) Hs. clear Hs. intros frs Hs.
  transitivity (u64_wrap (sum (map (selection_set_complexity v frs max_spreads) (op_sets doc)))).
  - f_equal. clear Hs. induction doc as [|[op|f] doc IH]; [done| |exact IH].
    exact (f_equal (Z.add (selection_set_complexity v frs max_spreads (selection_set_of op))) IH).
  - apply wrap_sum_map. eapply Forall2_impl; [exact Hs|]. intros ss ns E. cbn -[max_spreads].
    by rewrite (score_set _ _ _ _ _ E), wrap_wrap.
Qed.

Lemma multiplier_range args : 1 <= extract_limit_multiplier args <= 100.
Proof.
  induction args as [|[name value] args IH]; cbn; [lia|].
  destruct (limit_argument name), value; try done. lia.
Qed.

Inductive sane : node -> Prop :=
| sane_field m ns : 1 <= m <= 100 -> Forall sane ns -> sane (NField m ns)
| sane_inline ns : Forall sane ns -> sane (NInline ns)
| sane_spread ns : Forall sane ns -> sane (NSpread ns).

Lemma sane_in se : (forall n ns, se n = Some ns -> Forall sane ns) ->
  forall s n, expand_in se s = Some n -> sane n.
Proof.
  intros Hse s. induction s as [a nm args ds ss IH|nm ds|t ds ss IH] using selection_ind'; intros n En; cbn in En;
    apply fmap_Some in En as (ns & E & ->); constructor; try (by eapply Hse); try apply multiplier_range;
    apply expanded in E; clear -IH E; induction E; inversion IH; subst; constructor; auto.
Qed.

Lemma sane_set frs room ss ns : expand_set frs room ss = Some ns -> Forall sane ns.
Proof.
  revert ss ns. induction room as [|room IH]; intros ss ns E; cbn in E; [done|]. apply expanded in E.
  induction E as [|s n ss ns Hs _ IHE]; constructor; [|done]. eapply sane_in; [|exact Hs]. cbn.
  intros nm ns' Hf. destruct (find_fragment frs nm) as [f|]; [|done]. by eapply IH.
Qed.

(** A node's numbers, and the bound of its cost by its fields and its depth. *)
Definition bounded (n : node) : Prop :=
  0 <= node_fields n /\ 0 <= node_depth n /\ node_cost n <= node_fields n * 100 ^ node_depth n.

Lemma sum_nonneg {A} (f : A -> Z) l : Forall (fun x => 0 <= f x) l -> 0 <= sum (map f l).
Proof. unfold sum. induction 1; cbn; lia. Qed.

Lemma sum_bounded ns : Forall bounded ns -> forall D, (forall n, n ∈ ns -> node_depth n <= D) ->
  cost ns <= fields ns * 100 ^ D.
Proof.
  unfold cost, fields, sum. induction 1 as [|n ns (Hf & Hd & Hc) _ IH]; intros D HD; cbn; [lia|].
  specialize (IH D ltac:(intros; apply HD; by right)).
  assert (100 ^ node_depth n <= 100 ^ D) by (apply Z.pow_le_mono_r; [lia | apply HD; by left]). nia.
Qed.

Lemma set_bounded ns : Forall bounded ns -> cost ns <= fields ns * 100 ^ (max_or_0 (map node_depth ns)).
Proof. intros H. apply sum_bounded; [done|]. intros n Hn. by apply in_map_max. Qed.

Lemma fields_nonneg ns : Forall bounded ns -> 0 <= fields ns.
Proof. intros H. apply sum_nonneg. eapply list.Forall_impl; [exact H|]. by intros n (?&?&?). Qed.

Lemma sane_bounded n : sane n -> bounded n.
Proof.
  induction n as [m ns IH|ns IH|ns IH] using node_ind'; inversion 1; subst;
    (assert (Hb : Forall bounded ns) by (rewrite list.Forall_forall in *; auto));
    pose proof (set_bounded ns Hb); pose proof (fields_nonneg ns Hb);
    pose proof (max_or_0_nonneg (map node_depth ns)) as HD;
    pose proof (Z.pow_succ_r 100 (max_or_0 (map node_depth ns)) HD);
    pose proof (Z.pow_nonneg 100 (max_or_0 (map node_depth ns)) ltac:(lia));
    unfold cost, fields in *; unfold bounded; cbn [node_fields node_depth node_cost]; unfold nodes_depth.
  - destruct ns as [|n0 ns0]; [cbn; lia|]. set (ns := n0 :: ns0) in *.
    rewrite <- Z.add_1_l in *. repeat split; [lia|lia|].
    assert (sum (map node_cost ns) * m <= sum (map node_fields ns) * 100 ^ max_or_0 (map node_depth ns) * 100) by nia.
    nia.
  - destruct ns as [|n0 ns0]; [cbn; lia|]. set (ns := n0 :: ns0) in *.
    rewrite <- Z.add_1_l in *. repeat split; [lia|lia|nia].
  - destruct ns as [|n0 ns0]; [cbn; lia|]. set (ns := n0 :: ns0) in *.
    rewrite <- Z.add_1_l in *. repeat split; [lia|lia|nia].
Qed.

Lemma cost_bound frs room ss ns d : expand_set frs room ss = Some ns -> 1 <= d ->
  nodes_depth node_depth ns <= d -> cost ns <= fields ns * 100 ^ (d - 1).
Proof.
  intros E Hd Hle. apply sane_set in E. assert (Hb : Forall bounded ns).
  { eapply list.Forall_impl; [exact E|]. intros n. apply sane_bounded. }
  apply sum_bounded; [done|]. intros n Hn. pose proof (in_map_max node_depth _ _ Hn).
  unfold nodes_depth in Hle. destruct ns; [set_solver|lia].
Qed.

Lemma cost_nonneg frs room ss ns : expand_set frs room ss = Some ns -> 0 <= cost ns /\ 0 <= fields ns.
Proof.
  intros E%sane_set. split.
  - apply sum_nonneg. eapply list.Forall_impl; [exact E|]. intros n. clear.
    induction n as [m ns IH|ns IH|ns IH] using node_ind'; inversion 1; subst; cbn [node_cost];
      (assert (0 <= sum (map node_cost ns)) by (apply sum_nonneg; rewrite list.Forall_forall in *; auto));
      [destruct ns; [lia|nia] | done | done].
  - apply fields_nonneg. eapply list.Forall_impl; [exact E|]. intros n. apply sane_bounded.
Qed.
End ScoreFacts.

Module Limits.
Import Validator Expansion ExpansionFacts ScoreFacts GraphQL.Parser.

(** C8. A document the depth limit lets through is well formed: every spread in
    it names a fragment of the document, following spreads comes to an end,
    and no selection set, fragments written out, is deeper than the limit. *)
Theorem accepted_well_formed v doc :
  validate_document v doc = Ok () -> v.(validate_depth) = true -> small v doc ->
  forall ss, ss ∈ sets doc ->
    Forall (well_formed (collect_fragments doc)) ss /\
    exists ns, expand_set (collect_fragments doc) max_spreads ss = Some ns /\
      nodes_depth node_depth ns <= v.(max_depth).
Proof.
  intros [Hd _]%accepted Hv Hs ss Hss. specialize (Hd Hv).
  destruct (proj1 (depth_limit v doc Hs) Hd ss Hss) as (ns & E & Hle).
  split; [by eapply expand_wf | by exists ns].
Qed.

(** The score limit holds of the true score (each field once per item its
    parents may return) for documents of few enough fields that the score
    cannot leave [usize]: [fields * 100 ^ (max_depth - 1)] is the bound. *)
Theorem score_within_limit v doc nss :
  validate_document v doc = Ok () -> v.(validate_depth) = true -> v.(validate_complexity) = true ->
  small v doc -> 1 <= v.(max_depth) ->
  Forall2 (fun ss ns => expand_set (collect_fragments doc) max_spreads ss = Some ns) (op_sets doc) nss ->
  sum (map fields nss) * 100 ^ (v.(max_depth) - 1) <= u64_max ->
  sum (map cost nss) <= v.(max_complexity).
Proof.
  intros (Hd & Hc & _)%accepted Hvd Hvc Hs Hm Hn Hfit. specialize (Hd Hvd). specialize (Hc Hvc).
  rewrite (score_document v doc nss Hn) in Hc.
  pose proof (proj1 (depth_limit v doc Hs) Hd) as Hall.
  assert (Hin : forall ss, ss ∈ op_sets doc -> ss ∈ sets doc).
  { intros ss (def & Hdef & E)%list_elem_of_omap. destruct def as [op|]; [|done]. injection E as <-.
    exact (list_elem_of_fmap_2 _ _ _ Hdef). }
  assert (Hb : 0 <= sum (map cost nss) /\ sum (map cost nss) <= sum (map fields nss) * 100 ^ (v.(max_depth) - 1)).
  { clear Hfit Hc. revert Hin. unfold sum. induction Hn as [|ss ns sss nss E _ IH]; intros Hin; cbn; [lia|].
    destruct (IH ltac:(intros; apply Hin; by right)). destruct (cost_nonneg _ _ _ _ E).
    destruct (Hall ss ltac:(apply Hin; by left)) as (ns' & E' & Hle). rewrite E in E'. injection E' as <-.
    pose proof (cost_bound _ _ _ _ _ E Hm Hle). lia. }
  rewrite u64_wrap_id in Hc by (unfold is_u64; lia). lia.
Qed.

(** [n] plain fields. *)
Definition leaves (n : nat) : list selection := repeat (Field None "f" [] [] []) n.
Definition page (limit : Z) (ss : list selection) : selection :=
  Field None "items" [("first", Int (Some limit))] [] ss.
Fixpoint tower (levels : nat) : list selection :=
  match levels with O => leaves 1023 | S n => page 64 (tower n) :: leaves 62 end.
(** Ten levels of fields, nine of them asking for 64 items each. *)
Definition wrapping_query : document := [Operation (SelectionSet [page 64 (Field None "f" [] [] [] :: tower 8)])].

(** The score is kept in [usize] and wraps around: the default limits accept
    a document of depth ten whose true score is [2 ^ 64 + 1]. *)
Theorem score_wraps_to_one :
  validate_document new wrapping_query = Ok () /\
  calculate_complexity_ast new wrapping_query [] = 1 /\
  exists ns, expand_set [] max_spreads [page 64 (Field None "f" [] [] [] :: tower 8)] = Some ns /\
    cost ns = 2 ^ 64 + 1.
Proof.
  split; [vm_compute; reflexivity|]. split; [vm_compute; reflexivity|].
  destruct (expand_set [] max_spreads [page 64 (Field None "f" [] [] [] :: tower 8)]) as [ns|] eqn:E; [|by vm_compute in E].
  exists ns. split; [done|]. vm_compute in E. injection E as <-. vm_compute. reflexivity.
Qed.

(** [query { users(first: 3) { ...U } } fragment U on User { id name }] *)
Definition small_query : document :=
  [Operation (Query {| operation_name := None; variable_definitions := [];
     operation_set := [Field None "users" [("first", Int (Some 3))] [] [FragmentSpread "U" []]] |});
   Fragment {| fragment_name := "U"; fragment_on := "User";
     fragment_set := [Field None "id" [] [] []; Field None "name" [] [] []] |}].
Definition small_nodes : list node := [NField 3 [NSpread [NField 1 []; NField 1 []]]].

Lemma accepted_well_formed_witness :
  Forall (well_formed (collect_fragments small_query)) [Field None "users" [("first", Int (Some 3))] [] [FragmentSpread "U" []]] /\
  exists ns, expand_set (collect_fragments small_query) max_spreads
               [Field None "users" [("first", Int (Some 3))] [] [FragmentSpread "U" []]] = Some ns /\
    nodes_depth node_depth ns <= 10.
Proof.
  apply (accepted_well_formed new small_query); [reflexivity | reflexivity | by vm_compute | by left].
Defined.

Lemma score_within_limit_witness : sum (map cost [small_nodes]) <= 100.
Proof.
  apply (score_within_limit new small_query); [reflexivity | reflexivity | reflexivity | by vm_compute | by cbn | | by vm_compute].
  apply Forall2_cons_2; [reflexivity | apply Forall2_nil_2].
Defined.
End Limits.
