(* ===== verification/Fragments.v ===== *)
(** * Fragment spreads

    [graphql/fragment_resolver.rs]: named spreads are replaced by the fields of
    their fragment.  [Resolver] is the code, [Inlining] what resolving a
    selection set means, without the set of fragments in progress; [Pipeline]
    composes it with the limits of [Complexity]. *)

From S2P Require Import Prelude Json GraphQL Complexity.
From Stdlib Require Import Ascii.
From stdpp Require Import pretty.
Import GraphQL.Types.
#[local] Open Scope Z_scope.

(** [str::strip_prefix] and [str::starts_with]. *)
Fixpoint strip_prefix (p s : string) : option string :=
  match p, s with
  | ""%string, _ => Some s
  | String a p, String b s => if Ascii.eqb a b then strip_prefix p s else None
  | String _ _, ""%string => None
  end.
Definition starts_with (p s : string) : bool := bool_decide (is_Some (strip_prefix p s)).

Lemma strip_prefix_app p s : strip_prefix p (p ++ s)%string = Some s.
Proof. induction p as [|c p IH]; [done|]. rewrite str_cons. cbn [strip_prefix]. by rewrite Ascii.eqb_refl. Qed.

Module Resolver.
Inductive FragmentError : Type :=
| FragmentNotFound (name : string)
| FragmentDepthExceeded (max : Z)
| CircularFragmentReference.

Definition show (e : FragmentError) : string :=
  match e with
  | FragmentNotFound n => "Fragment not found: " ++ n
  | FragmentDepthExceeded m => "Fragment depth exceeded (max: " ++ pretty m ++ ")"
  | CircularFragmentReference => "Circular fragment reference detected"
  end%string.

Record FragmentResolver : Type := { fragments : gmap string FragmentDefinition; max_depth : nat }.

(** A [HashMap] of the definitions: of two with one name the last stays. *)
Definition new (frs : list FragmentDefinition) : FragmentResolver :=
  {| fragments := foldl (fun m f => <[f.(fragment) := f]> m) ∅ frs; max_depth := 10 |}.
Definition with_max_depth (r : FragmentResolver) (d : nat) : FragmentResolver :=
  {| fragments := r.(fragments); max_depth := d |}.

Section Resolve.
Context (r : FragmentResolver).

(** The fields of a set so far and the fragments being expanded. *)
Definition outcome : Type := result FragmentError (list FieldSelection * gset string).

Section Pass.
Context (resolve : list FieldSelection -> gset string -> outcome).

(** A field is kept, its nested fields resolved. *)
Definition resolve_nested (sel : FieldSelection) (visited : gset string) : outcome :=
  match sel.(nested_fields) with
  | [] => Ok ([sel], visited)
  | nested => '(fields, visited) ← resolve nested visited; Ok ([with_nested sel fields], visited)
  end.

Definition resolve_spread (name : string) (visited : gset string) : outcome :=
  guard_err (bool_decide (name ∈ visited)) as CircularFragmentReference ;;
  f ← ok_or (r.(fragments) !! name) (FragmentNotFound name);
  '(resolved, visited) ← resolve f.(selections) ({[name]} ∪ visited);
  Ok (resolved, visited ∖ {[name]}).

Definition resolve_selection (sel : FieldSelection) (visited : gset string) : outcome :=
  match strip_prefix "..." sel.(name) with
  | Some fragment_name =>
      if starts_with "on " fragment_name then resolve_nested sel visited
      else resolve_spread fragment_name visited
  | None => resolve_nested sel visited
  end.

Fixpoint resolve_each (sels : list FieldSelection) (visited : gset string) : outcome :=
  match sels with
  | [] => Ok ([], visited)
  | sel :: sels =>
      '(fields, visited) ← resolve_selection sel visited;
      '(rest, visited) ← resolve_each sels visited;
      Ok (fields ++ rest, visited)
  end.
End Pass.

(** [room] is [max_depth + 1 - depth]: nothing is left once [depth > max_depth]. *)
Fixpoint resolve_selections (room : nat) (sels : list FieldSelection) (visited : gset string) : outcome :=
  match room with
  | O => Err (FragmentDepthExceeded (Z.of_nat r.(max_depth)))
  | S room => resolve_each (resolve_selections room) sels visited
  end.

Definition resolve_spreads (sels : list FieldSelection) : result FragmentError (list FieldSelection) :=
  fst <$> resolve_selections (S r.(max_depth)) sels ∅.
End Resolve.

Definition evaluate_inline_fragment (sels : list FieldSelection) (type_condition : option string)
    (actual_type : string) : list FieldSelection :=
  match type_condition with
  | None => sels
  | Some t => if t =s actual_type then sels else []
  end.

(** The first field of each response key. *)
Fixpoint deduplicate (seen : gset string) (fields : list FieldSelection) : list FieldSelection :=
  match fields with
  | [] => []
  | f :: fields =>
      if bool_decide (response_key f ∈ seen) then deduplicate seen fields
      else f :: deduplicate ({[response_key f]} ∪ seen) fields
  end.
Definition deduplicate_fields (fields : list FieldSelection) : list FieldSelection := deduplicate ∅ fields.

Definition merge_field (by_key : gmap string FieldSelection) (field : FieldSelection) : gmap string FieldSelection :=
  match by_key !! response_key field with
  | Some existing =>
      match field.(nested_fields) with
      | [] => by_key
      | nested => <[response_key field := with_nested existing (deduplicate_fields (existing.(nested_fields) ++ nested))]> by_key
      end
  | None => <[response_key field := field]> by_key
  end.

(** The values of the map, whose order the source leaves to the [HashMap]. *)
Definition merge_selections (base additional : list FieldSelection) : gmap string FieldSelection :=
  foldl merge_field (foldl (fun m f => <[response_key f := f]> m) ∅ base) additional.
End Resolver.

(** ** What resolving means *)
Module Inlining.
Section Inline.
Context (frs : gmap string FragmentDefinition).

(** Every named spread is replaced by the fields of its fragment; [room]
    bounds the nesting of sets, and nothing comes of an unknown fragment. *)
Definition inline_selection (inline : list FieldSelection -> option (list FieldSelection)) (sel : FieldSelection)
  : option (list FieldSelection) :=
  let kept :=
    match sel.(nested_fields) with
    | [] => Some [sel]
    | nested => (fun fields => [with_nested sel fields]) <$> inline nested
    end in
  match strip_prefix "..." sel.(name) with
  | Some n => if starts_with "on " n then kept else f ← frs !! n; inline f.(selections)
  | None => kept
  end.

Fixpoint inline_each (inline : list FieldSelection -> option (list FieldSelection)) (sels : list FieldSelection)
  : option (list FieldSelection) :=
  match sels with
  | [] => Some []
  | sel :: sels =>
      fields ← inline_selection inline sel; rest ← inline_each inline sels; Some (fields ++ rest)
  end.

Fixpoint inline_set (room : nat) (sels : list FieldSelection) : option (list FieldSelection) :=
  match room with O => None | S room => inline_each (inline_set room) sels end.
End Inline.

(** A selection that is no named spread, nor has one below it. *)
Inductive spread_free : FieldSelection -> Prop :=
| sf f : (forall n, strip_prefix "..." f.(name) = Some n -> starts_with "on " n = true) ->
    Forall spread_free f.(nested_fields) -> spread_free f.
End Inlining.

Module ResolverFacts.
Import Resolver Inlining.

Section Exact.
Context (r : FragmentResolver).
Notation inl := (inline_set r.(fragments)).
Notation res := (resolve_selections r).

(** ** Inlining deeper changes nothing *)
Lemma inline_each_mono (f g : list FieldSelection -> option (list FieldSelection)) sels out :
  (forall s o, f s = Some o -> g s = Some o) ->
  inline_each r.(fragments) f sels = Some out -> inline_each r.(fragments) g sels = Some out.
Proof.
  intros Hfg. revert out. induction sels as [|sel sels IH]; intros out; cbn; [done|].
  intros (fields & Hs & (rest & Hr & [= <-])%bind_Some)%bind_Some.
  assert (E : inline_selection r.(fragments) g sel = Some fields).
  { unfold inline_selection in *.
    assert (Hk : forall o, match sel.(nested_fields) with [] => Some [sel] | nested => (fun fields => [with_nested sel fields]) <$> f nested end = Some o ->
      match sel.(nested_fields) with [] => Some [sel] | nested => (fun fields => [with_nested sel fields]) <$> g nested end = Some o).
    { intros o. destruct (nested_fields sel); [done|]. intros (x & E & ->)%fmap_Some. by rewrite (Hfg _ _ E). }
    destruct (strip_prefix "..." _); [destruct (starts_with "on " s); [auto|] | auto].
    apply bind_Some in Hs as (fr & Ef & Hs). rewrite Ef. cbn. auto. }
  rewrite E. cbn. by rewrite (IH _ Hr).
Qed.

Lemma inline_mono n sels out : inl n sels = Some out -> inl (S n) sels = Some out.
Proof.
  revert sels out. induction n as [|n IH]; intros sels out; [done|].
  intros H. eapply (inline_each_mono (inl n)); [exact IH | exact H].
Qed.

(** ** Fragments in progress

    [under x sels]: the set [sels] lies below the fields of the fragment [x], so
    it can be inlined whenever they can. *)
Definition ok (n : nat) (sels : list FieldSelection) : Prop := is_Some (inl n sels).
Definition ok_fragment (n : nat) (x : string) : Prop :=
  exists f, r.(fragments) !! x = Some f /\ ok n f.(selections).
Definition under (x : string) (sels : list FieldSelection) : Prop :=
  forall n, ok_fragment n x -> ok n sels.

Lemma ok_mono n sels : ok n sels -> ok (S n) sels.
Proof. intros [o Ho]. exists o. by apply inline_mono. Qed.

Lemma under_step x sels below : under x sels -> (forall n, ok (S n) sels -> ok n below) -> under x below.
Proof.
  intros Hu Hb n (f & Ef & Hn). apply Hb, ok_mono, Hu. by exists f.
Qed.

(** No fragment whose fields are inlined spreads itself. *)
Lemma no_loop x sels n : under x sels -> (forall n, ok (S n) sels -> ok_fragment n x) -> ~ ok_fragment n x.
Proof.
  intros Hu Hx. induction n as [|n IH]; intros Hf.
  - destruct (Hu 0%nat Hf) as [o Ho]. done.
  - apply IH. by apply Hx, Hu.
Qed.

(** ** The resolver computes the inlining and leaves the set of fragments as it was *)
Definition resolves (n : nat) : Prop :=
  forall sels visited out, inl n sels = Some out -> (forall x, x ∈ visited -> under x sels) ->
    res n sels visited = Ok (out, visited).

(** What holds of the set a selection stands in. *)
Definition member (sel : FieldSelection) (sels : list FieldSelection) : Prop :=
  forall n, ok (S n) sels -> is_Some (inline_selection r.(fragments) (inl n) sel).

Lemma member_head sel sels : member sel (sel :: sels).
Proof. intros n [o (f & E & _)%bind_Some]. by exists f. Qed.

Lemma under_tail x sel sels : under x (sel :: sels) -> under x sels.
Proof.
  intros Hu n Hn. destruct (Hu n Hn) as [o Ho]. destruct n as [|n]; [done|].
  cbn in Ho. apply bind_Some in Ho as (f & _ & (g & Hg & _)%bind_Some). by exists g.
Qed.
Lemma nested_resolved n sel visited out sels :
  resolves n -> member sel sels -> (forall x, x ∈ visited -> under x sels) ->
  (forall n o, inline_selection r.(fragments) (inl n) sel = Some o ->
    match sel.(nested_fields) with [] => Some [sel] | nested => (fun fields => [with_nested sel fields]) <$> inl n nested end = Some o) ->
  inline_selection r.(fragments) (inl n) sel = Some out ->
  resolve_nested (res n) sel visited = Ok (out, visited).
Proof.
  intros Hres Hm Hv Hk Hout. pose proof (Hk _ _ Hout) as E. unfold resolve_nested.
  destruct (nested_fields sel) as [|a l] eqn:En; [by injection E as <-|].
  apply fmap_Some in E as (fields & E & ->). rewrite (Hres _ visited _ E); [done|].
  intros x Hx. eapply under_step; [by apply Hv|]. intros m Hm'. destruct (Hm m Hm') as [o Ho].
  apply Hk in Ho. apply fmap_Some in Ho as (fs & Ho & _). by exists fs.
Qed.

Lemma selection_resolved n sel visited out sels :
  resolves n -> member sel sels -> (forall x, x ∈ visited -> under x sels) ->
  inline_selection r.(fragments) (inl n) sel = Some out ->
  resolve_selection r (res n) sel visited = Ok (out, visited).
Proof.
  intros Hres Hm Hv Hout. unfold resolve_selection.
  destruct (strip_prefix "..." sel.(name)) as [x|] eqn:Ep.
  2:{ eapply nested_resolved; eauto. intros m o. unfold inline_selection. by rewrite Ep. }
  destruct (starts_with "on " x) eqn:Eon.
  { eapply nested_resolved; eauto. intros m o. unfold inline_selection. by rewrite Ep, Eon. }
  assert (Hu : forall m o, inline_selection r.(fragments) (inl m) sel = Some o ->
    exists f, r.(fragments) !! x = Some f /\ inl m f.(selections) = Some o).
  { intros m o. unfold inline_selection. rewrite Ep, Eon. intros (f & ? & ?)%bind_Some. eauto. }
  destruct (Hu _ _ Hout) as (f & Ef & E).
  assert (Hx : forall m, ok (S m) sels -> ok_fragment m x).
  { intros m Hm'. destruct (Hm m Hm') as [o Ho]. destruct (Hu _ _ Ho) as (f' & ? & ?). exists f'. split; [done|by exists o]. }
  assert (Hnew : x ∉ visited).
  { intros Hin. eapply (no_loop x sels n); [by apply Hv | exact Hx |]. exists f. split; [done | by exists out]. }
  unfold resolve_spread. rewrite bool_decide_false by done. rewrite Ef. cbn.
  rewrite (Hres _ _ _ E).
  - cbn. do 2 f_equal. set_solver.
  - intros y [->%elem_of_singleton|Hy]%elem_of_union.
    + intros m (f' & Ef' & Ho). by simplify_eq.
    + eapply under_step; [by apply Hv|]. intros m Hm'. destruct (Hx m Hm') as (f' & Ef' & Ho). by simplify_eq.
Qed.

Lemma inlining_resolves n : resolves n.
Proof.
  induction n as [|n IH]; intros sels visited out Hout Hv; [done|]. cbn in *.
  revert out Hout Hv. induction sels as [|sel sels IHs]; intros out Hout Hv.
  - cbn in *. by injection Hout as <-.
  - cbn in Hout. apply bind_Some in Hout as (fields & Hs & (rest & Hr & [= <-])%bind_Some). cbn.
    rewrite (selection_resolved n sel visited fields (sel :: sels)); auto using member_head. cbn.
    rewrite (IHs rest); auto. intros x Hx. eapply under_tail. by apply Hv.
Qed.

(** ** Conversely, what is resolved is the inlining *)
Definition inlined (n : nat) : Prop :=
  forall sels visited out v', res n sels visited = Ok (out, v') -> inl n sels = Some out /\ v' = visited.

Lemma nested_inlined n sel visited out v' : inlined n -> resolve_nested (res n) sel visited = Ok (out, v') ->
  match sel.(nested_fields) with [] => Some [sel] | nested => (fun fields => [with_nested sel fields]) <$> inl n nested end = Some out
  /\ v' = visited.
Proof.
  intros Hn. unfold resolve_nested. destruct (nested_fields sel) as [|a l]; [by intros [= <- <-]|].
  intros ([fs v] & E & [= <- <-])%bind_Ok. destruct (Hn _ _ _ _ E) as [-> ->]. done.
Qed.

Lemma selection_inlined n sel visited out v' : inlined n ->
  resolve_selection r (res n) sel visited = Ok (out, v') ->
  inline_selection r.(fragments) (inl n) sel = Some out /\ v' = visited.
Proof.
  intros Hn. unfold resolve_selection, inline_selection.
  destruct (strip_prefix "..." sel.(name)) as [x|]; [|by apply nested_inlined].
  destruct (starts_with "on " x); [by apply nested_inlined|].
  unfold resolve_spread. case_bool_decide as Hx; [done|].
  intros (f & Ef & ([fs v] & E & [= <- <-])%bind_Ok)%bind_Ok. destruct (r.(fragments) !! x); [|done].
  injection Ef as ->. destruct (Hn _ _ _ _ E) as [Hi ->]. cbn. rewrite Hi. split; [done|]. set_solver.
Qed.

Lemma resolved_inlines n : inlined n.
Proof.
  induction n as [|n IH]; intros sels; [done|]. induction sels as [|sel sels IHs]; intros visited out v'.
  - by intros [= <- <-].
  - intros ([fields v1] & Hs & ([rest v2] & Hr & [= <- <-])%bind_Ok)%bind_Ok.
    apply selection_inlined in Hs as [Hs ->]; [|done]. apply IHs in Hr as [Hr ->].
    split; [|done]. cbn in *. by rewrite Hs, Hr.
Qed.

Lemma resolve_exact sels out :
  resolve_spreads r sels = Ok out <-> inl (S r.(max_depth)) sels = Some out.
Proof.
  unfold resolve_spreads. split.
  - destruct (resolve_selections _ _ _ _) as [[o v]|] eqn:E; [|done]. intros [= <-].
    by destruct (resolved_inlines _ _ _ _ _ E).
  - intros H. rewrite (inlining_resolves _ _ ∅ _ H); [done|]. intros x Hx. set_solver.
Qed.
End Exact.
End ResolverFacts.

(** ** From an accepted document to its resolved fields *)
Module Pipeline.
Import Ast Validator Expansion ExpansionFacts GraphQL.Parser Resolver Inlining ResolverFacts.

(** What the grammar's [Name] gives: no field is called ["...x"] and no
    fragment ["on x"]. *)
Fixpoint names_ok (s : selection) : bool :=
  match s with
  | Field _ n _ _ ss => negb (starts_with "..." n) && forallb names_ok ss
  | InlineFragment _ _ ss => forallb names_ok ss
  | FragmentSpread n _ => negb (starts_with "on " n)
  end.
Definition document_names_ok (doc : document) : bool := forallb (forallb names_ok) (sets doc).

Lemma inline_free frs n sels out : inline_set frs n sels = Some out -> Forall spread_free out.
Proof.
  revert sels out. induction n as [|n IH]; intros sels; [done|]. cbn.
  induction sels as [|sel sels IHs]; intros out; cbn; [by intros [= <-]|].
  intros (fields & Hs & (rest & Hr & [= <-])%bind_Some)%bind_Some.
  apply Forall_app. split; [|by apply IHs]. unfold inline_selection in Hs.
  assert (Hk : (forall x, strip_prefix "..." sel.(name) = Some x -> starts_with "on " x = true) ->
    match sel.(nested_fields) with [] => Some [sel] | nested => (fun fs => [with_nested sel fs]) <$> inline_set frs n nested end = Some fields ->
    Forall spread_free fields).
  { intros Hname. destruct (nested_fields sel) as [|a l] eqn:En.
    - intros [= <-]. repeat constructor; [done|]. by rewrite En.
    - intros (fs & E & ->)%fmap_Some. repeat constructor; [done|]. by apply (IH (a :: l)). }
  destruct (strip_prefix "..." sel.(name)) as [x|]; [|by apply Hk].
  destruct (starts_with "on " x) eqn:E; [by apply Hk; [intros ? [= <-] | exact Hs]|].
  apply bind_Some in Hs as (f & _ & Hs). by eapply IH.
Qed.

Section Document.
Context (frs : list fragment) (defs : gmap string FragmentDefinition).
Context (Hdefs : forall n f, find_fragment frs n = Some f ->
  exists d, defs !! n = Some d /\ d.(selections) = parse_selection_set f.(fragment_set)).
Context (Hnames : forall n f, find_fragment frs n = Some f -> forallb names_ok f.(fragment_set) = true).

Lemma starts_None p s : starts_with p s = false -> strip_prefix p s = None.
Proof. unfold starts_with. rewrite bool_decide_eq_false. apply eq_None_not_Some. Qed.

Definition inlines (m : nat) (ss : list selection) (ns : list node) : Prop :=
  nodes_depth node_depth ns < Z.of_nat m -> is_Some (inline_set defs m (parse_selection_set ss)).

(** A set is inlined when each of its selections is, one level down. *)
Lemma set_inlines m ss ns (expand_of : selection -> option node) :
  Forall2 (fun s n => expand_of s = Some n) ss ns ->
  Forall (fun s => forall n, expand_of s = Some n -> node_depth n < Z.of_nat m ->
    is_Some (inline_selection defs (inline_set defs m) (parse_selection s))) ss ->
  inlines (S m) ss ns.
Proof.
  intros Hexp Hs Hd.
  assert (Hch : forall n, n ∈ ns -> node_depth n < Z.of_nat m).
  { intros n Hn. pose proof (in_map_max node_depth _ _ Hn). unfold nodes_depth in Hd. destruct ns; [set_solver|lia]. }
  clear Hd. cbn. unfold parse_selection_set. induction Hexp as [|s n ss ns E _ IH]; cbn; [by eexists|].
  apply Forall_cons in Hs as [Hs1 Hs2].
  destruct (Hs1 n E ltac:(apply Hch; by left)) as [f ->]. cbn.
  destruct (IH Hs2 ltac:(intros; apply Hch; by right)) as [rest ->]. cbn. by eexists.
Qed.

Section Inside.
Context (se : string -> option (list node)).
Context (Hse : forall n ns, se n = Some ns -> exists f, find_fragment frs n = Some f /\ forall m, inlines m f.(fragment_set) ns).

Lemma kept_inlines m (sel : FieldSelection) ss ns nd :
  sel.(nested_fields) = parse_selection_set ss ->
  nodes_depth node_depth ns <= node_depth nd ->
  (forall m, inlines m ss ns) -> node_depth nd < Z.of_nat m ->
  is_Some (match sel.(nested_fields) with
           | [] => Some [sel]
           | nested => (fun fields => [with_nested sel fields]) <$> inline_set defs m nested
           end).
Proof.
  intros En Hle Hin Hd. destruct (nested_fields sel) as [|a l] eqn:E; [by eexists|].
  rewrite En. rewrite fmap_is_Some. apply Hin. lia.
Qed.

Lemma children_inline ss ns :
  Forall (fun s => names_ok s = true -> forall m n, expand_in se s = Some n -> node_depth n < Z.of_nat m ->
    is_Some (inline_selection defs (inline_set defs m) (parse_selection s))) ss ->
  forallb names_ok ss = true -> all_some (map (expand_in se) ss) = Some ns -> forall m, inlines m ss ns.
Proof.
  intros IH Hok E%ScoreFacts.expanded m.
  destruct m as [|m].
  { intros Hd. unfold nodes_depth in Hd. pose proof (max_or_0_nonneg (map node_depth ns)). destruct ns; lia. }
  eapply set_inlines; [exact E|]. rewrite forallb_forall in Hok.
  rewrite list.Forall_forall in *. intros s Hs n. apply IH; [done|]. apply Hok. by apply list_elem_of_In.
Qed.

Lemma selection_inlines s : names_ok s = true -> forall m n, expand_in se s = Some n -> node_depth n < Z.of_nat m ->
  is_Some (inline_selection defs (inline_set defs m) (parse_selection s)).
Proof.
  induction s as [a nm args ds ss IH|nm ds|t ds ss IH] using selection_ind'; cbn [names_ok]; intros Hok m n E Hd;
    cbn [expand_in] in E; apply fmap_Some in E as (ns & E & ->); unfold inline_selection; cbn [parse_selection name].
  - apply andb_true_iff in Hok as [H1%negb_true_iff H2]. rewrite (starts_None _ _ H1).
    eapply (kept_inlines m _ ss ns); [done | | by apply children_inline | exact Hd].
    cbn. by destruct ns.
  - apply negb_true_iff in Hok. rewrite strip_prefix_app, Hok.
    destruct (Hse _ _ E) as (f & Ef & Hin). destruct (Hdefs _ _ Ef) as (d & -> & Es). cbn. rewrite Es. by apply Hin.
  - change ("...on " ++ default "" t)%string with ("..." ++ ("on " ++ default "" t))%string.
    rewrite strip_prefix_app. unfold starts_with at 1. rewrite strip_prefix_app. cbn [is_Some bool_decide].
    rewrite bool_decide_true by by eexists.
    eapply (kept_inlines m _ ss ns); [done | | by apply children_inline | exact Hd]. done.
Qed.
End Inside.

Lemma expansion_inlines room ss ns : expand_set frs room ss = Some ns -> forallb names_ok ss = true ->
  forall m, inlines m ss ns.
Proof.
  revert ss ns. induction room as [|room IH]; intros ss ns E Hok; [done|]. cbn in E.
  eapply children_inline; [|done|exact E]. apply list.Forall_forall. intros s _ Hs. apply selection_inlines; [|done].
  intros n ns' Hn. destruct (find_fragment frs n) as [f|] eqn:Ef; [|done]. cbn in Hn.
  exists f. split; [done|]. apply IH; [done|]. by eapply Hnames.
Qed.
End Document.

Definition definition_of (f : fragment) : FragmentDefinition :=
  {| Types.fragment := f.(fragment_name); type_condition := f.(fragment_on);
     selections := parse_selection_set f.(fragment_set);
     fragment_spreads := extract_fragment_spreads f.(fragment_set) |}.

Lemma extract_fragments_map doc : extract_fragments doc = map definition_of (collect_fragments doc).
Proof. induction doc as [|[op|f] doc IH]; [done|exact IH|]. cbn. by f_equal. Qed.

Lemma find_app {A} (p : A -> bool) l m :
  List.find p (l ++ m) = match List.find p l with Some x => Some x | None => List.find p m end.
Proof. induction l as [|x l IH]; cbn; [done|]. by destruct (p x). Qed.

Lemma inserted (l : list FragmentDefinition) (m : gmap string FragmentDefinition) n :
  foldl (fun m f => <[f.(Types.fragment) := f]> m) m l !! n =
  match List.find (fun f => f.(Types.fragment) =s n) (rev l) with Some f => Some f | None => m !! n end.
Proof.
  revert m. induction l as [|f l IH]; intros m; cbn; [done|]. rewrite IH, find_app. cbn.
  destruct (List.find _ (rev l)); [done|]. destruct (f.(Types.fragment) =s n) eqn:E; to_prop.
  - subst. by rewrite lookup_insert_eq.
  - by rewrite lookup_insert_ne.
Qed.

(** With names used once, the resolver and the limits see the same fragments. *)
Lemma same_fragments frs n f : NoDup (map fragment_name frs) -> find_fragment frs n = Some f ->
  (new (map definition_of frs)).(fragments) !! n = Some (definition_of f).
Proof.
  intros Hnd Hf. cbn. generalize (∅ : gmap string FragmentDefinition). revert Hnd Hf.
  induction frs as [|g frs IH]; [done|]. cbn. intros [Hg Hnd]%NoDup_cons Hf m.
  destruct (fragment_name g =s n) eqn:E; to_prop; [|by apply IH].
  injection Hf as ->. rewrite inserted. destruct (List.find _ _) as [d|] eqn:Ed.
  - apply List.find_some in Ed as [Hin%in_rev Hn]. to_prop. exfalso. apply Hg.
    apply list_elem_of_In, list_elem_of_fmap in Hin as (h & -> & Hh). cbn in Hn. subst.
    rewrite <- Hn. by apply list_elem_of_fmap_2.
  - subst. by rewrite lookup_insert_eq.
Qed.

Lemma names_in doc ss : document_names_ok doc = true -> ss ∈ sets doc -> forallb names_ok ss = true.
Proof. unfold document_names_ok. rewrite forallb_forall. intros H Hs. apply H. by apply list_elem_of_In. Qed.

(** The limits are strong enough for the resolver: whatever the depth limit
    (at most 10, the resolver's own) lets through is resolved without an
    error, cycles and unknown fragments included, to fields that hold no
    named spread, when no two fragments have one name. *)
Theorem accepted_resolves v doc ss :
  validate_document v doc = Ok () -> v.(validate_depth) = true -> small v doc ->
  v.(Validator.max_depth) <= 10 -> NoDup (map fragment_name (collect_fragments doc)) ->
  document_names_ok doc = true -> ss ∈ sets doc ->
  exists out, resolve_spreads (new (extract_fragments doc)) (parse_selection_set ss) = Ok out /\
    Forall spread_free out.
Proof.
  intros [Hd _]%accepted Hv Hs Hmax Hnd Hok Hss. specialize (Hd Hv).
  destruct (proj1 (depth_limit v doc Hs) Hd ss Hss) as (ns & E & Hle).
  rewrite extract_fragments_map.
  destruct (expansion_inlines (collect_fragments doc) (new (map definition_of (collect_fragments doc))).(fragments))
    with (room := max_spreads) (ss := ss) (ns := ns) (m := 11%nat) as [out Hout]; try done.
  - intros n f Hf. exists (definition_of f). split; [by apply same_fragments | done].
  - intros n f Hf. apply (names_in doc); [done|]. apply fragment_in_sets. by eapply find_fragment_in.
  - by apply (names_in doc).
  - lia.
  - exists out. split; [by apply resolve_exact | by eapply inline_free].
Qed.

(** C10. Spreads are resolved exactly by writing the fragments out: the resolver,
    with its set of fragments in progress, succeeds when and with what the
    plain inlining does, no deeper than its limit; so the test for circular
    references refuses nothing that could be written out. *)
Theorem resolver_is_inlining r sels out :
  resolve_spreads r sels = Ok out <-> inline_set r.(fragments) (S r.(Resolver.max_depth)) sels = Some out.
Proof. apply resolve_exact. Qed.

(** [query { u { ...F } } fragment F on U { id } fragment F on U { p(first: 100) { p(first: 100) { id } } }] *)
Definition small_fields : list selection := [Field None "id" [] [] []].
Definition big_fields : list selection := [Limits.page 100 [Limits.page 100 small_fields]].
Definition twice_defined (first second : list selection) : document :=
  [Operation (SelectionSet [Field None "u" [] [] [FragmentSpread "F" []]]);
   Fragment {| fragment_name := "F"; fragment_on := "U"; fragment_set := first |};
   Fragment {| fragment_name := "F"; fragment_on := "U"; fragment_set := second |}].

(** Of two fragments with one name the limits read the first and the resolver
    the last: a cheap first definition gets an expensive one past the limits. *)
Theorem second_fragment_unchecked :
  validate_document Validator.new (twice_defined small_fields big_fields) = Ok () /\
  validate_document Validator.new (twice_defined big_fields small_fields) = Err (QueryTooComplex 100 10102) /\
  resolve_spreads (new (extract_fragments (twice_defined small_fields big_fields)))
    (parse_selection_set [Field None "u" [] [] [FragmentSpread "F" []]])
  = Ok (parse_selection_set [Field None "u" [] [] big_fields]).
Proof. split; [by vm_compute|]. split; by vm_compute. Qed.

Lemma accepted_resolves_witness :
  exists out, resolve_spreads (new (extract_fragments Limits.small_query))
      (parse_selection_set [Field None "users" [("first", Int (Some 3))] [] [FragmentSpread "U" []]]) = Ok out /\
    Forall spread_free out.
Proof.
  apply (accepted_resolves Validator.new Limits.small_query);
    [by vm_compute | done | by vm_compute | done | by apply (bool_decide_unpack _) | done | by left].
Defined.
End Pipeline.
