(* ===== verification/Directives.v ===== *)
(** * Directives

    [graphql/directive_evaluator] and [graphql/require_permission_directive.rs]:
    [@skip] and [@include] remove fields, registered handlers may do more.
    [BuiltIn] is the evaluator the matcher runs, [Custom] the one with handlers,
    [Permission] the handler of [@require_permission]. *)

From S2P Require Import Prelude Json GraphQL Complexity Fragments.
From Stdlib Require Import Ascii.
Import GraphQL.Types.
#[local] Open Scope Z_scope.

Inductive DirectiveError : Type :=
| MissingDirectiveArgument (name : string)
| UndefinedVariable (name : string)
| VariableTypeMismatch (name : string)
| InvalidDirectiveArgument
| CustomDirectiveError (message : string)
| UnknownDirective (name : string)
| InvalidDirectiveLocation (name location : string).

Definition show (e : DirectiveError) : string :=
  match e with
  | MissingDirectiveArgument n => "Missing directive argument: " ++ n
  | UndefinedVariable n => "Undefined variable: " ++ n
  | VariableTypeMismatch n => "Variable type mismatch: " ++ n ++ " should be Boolean"
  | InvalidDirectiveArgument => "Invalid directive argument"
  | CustomDirectiveError m => "Custom directive error: " ++ m
  | UnknownDirective n => "Unknown directive: @" ++ n
  | InvalidDirectiveLocation n l => "Directive @" ++ n ++ " cannot be used at " ++ l
  end%string.

(** A loop that pushes what each element gives, until an error. *)
Section Each.
Context {E A B : Type} (f : A -> result E (option B)).
Fixpoint filter_each (l : list A) : result E (list B) :=
  match l with
  | [] => Ok []
  | x :: l => o ← f x; rest ← filter_each l; Ok (match o with Some y => y :: rest | None => rest end)
  end.
End Each.

Section Reader.
(** [serde_json::from_str]. *)
Context (from_str : string -> option json).

(** ** The built-in evaluator *)
Section BuiltIn.
Context (variables : gmap string json).

Definition boolean_variable (name : string) : result DirectiveError bool :=
  match variables !! name with
  | None => Err (UndefinedVariable name)
  | Some (JBool b) => Ok b
  | Some _ => Err (VariableTypeMismatch name)
  end.

Definition resolve_boolean_condition (value_json : string) : result DirectiveError bool :=
  match from_str value_json with
  | Some (JBool b) => Ok b
  | Some (JString s) =>
      match strip_prefix "$" s with
      | Some name => boolean_variable name
      | None => Err InvalidDirectiveArgument
      end
  | Some _ => Err InvalidDirectiveArgument
  | None =>
      match strip_prefix "$" value_json with
      | Some name => boolean_variable name
      | None => Err InvalidDirectiveArgument
      end
  end.

Fixpoint find_argument (name : string) (args : list GraphQLArgument) : option GraphQLArgument :=
  match args with
  | [] => None
  | a :: args => if a.(arg_name) =s name then Some a else find_argument name args
  end.

(** [evaluate_skip] and [evaluate_include] have one body. *)
Definition evaluate_if (d : Directive) : result DirectiveError bool :=
  if_arg ← ok_or (find_argument "if" d.(directive_args)) (MissingDirectiveArgument "if");
  resolve_boolean_condition if_arg.(value_json).
Definition evaluate_skip : Directive -> result DirectiveError bool := evaluate_if.
Definition evaluate_include : Directive -> result DirectiveError bool := evaluate_if.

Fixpoint evaluate_each (ds : list Directive) : result DirectiveError bool :=
  match ds with
  | [] => Ok true
  | d :: ds =>
      if d.(directive) =s "skip" then
        skip ← evaluate_skip d; if skip : bool then Ok false else evaluate_each ds
      else if d.(directive) =s "include" then
        include ← evaluate_include d; if include : bool then evaluate_each ds else Ok false
      else evaluate_each ds
  end.
Definition evaluate_directives (sel : FieldSelection) : result DirectiveError bool :=
  evaluate_each sel.(directives).

(** [filter_selections], one selection of it. *)
Fixpoint filter_selection (sel : FieldSelection) : result DirectiveError (option FieldSelection) :=
  match sel with
  | mkField n a args nested ds =>
      keep ← evaluate_each ds;
      if keep : bool then
        match nested with
        | [] => Ok (Some sel)
        | _ => fields ← filter_each filter_selection nested; Ok (Some (mkField n a args fields ds))
        end
      else Ok None
  end.
Definition filter_selections : list FieldSelection -> result DirectiveError (list FieldSelection) :=
  filter_each filter_selection.
End BuiltIn.

(** [resolve_argument_value] and [parse_directive_args]. *)
Definition lookup_variable (variables : gmap string json) (name : string) : result DirectiveError json :=
  ok_or (variables !! name) (UndefinedVariable name).

Definition resolve_argument_value (variables : gmap string json) (value_json : string) : result DirectiveError json :=
  match from_str value_json with
  | Some (JString s) =>
      match strip_prefix "$" s with Some name => lookup_variable variables name | None => Ok (JString s) end
  | Some value => Ok value
  | None =>
      match strip_prefix "$" value_json with
      | Some name => lookup_variable variables name
      | None => Ok (JString value_json)
      end
  end.

Fixpoint parse_args (variables : gmap string json) (args : list GraphQLArgument) (m : gmap string json)
  : result DirectiveError (gmap string json) :=
  match args with
  | [] => Ok m
  | a :: args =>
      value ← resolve_argument_value variables a.(value_json);
      parse_args variables args (<[a.(arg_name) := value]> m)
  end.
Definition parse_directive_args (variables : gmap string json) (d : Directive)
  : result DirectiveError (gmap string json) := parse_args variables d.(directive_args) ∅.

(** ** Custom handlers *)
Inductive DirectiveResult : Type :=
| Include
| Skip
| Transform (value : json)
| Error (message : string).

Inductive OperationType : Type := QueryOperation | MutationOperation | SubscriptionOperation.

Record EvaluationContext : Type := mkContext {
  ctx_variables : gmap string json;
  user_context : gmap string json;
  field_path : option string;
  operation_type : option OperationType
}.
Definition context (variables : gmap string json) : EvaluationContext := mkContext variables ∅ None None.
Definition with_user_context (c : EvaluationContext) (key : string) (value : json) : EvaluationContext :=
  mkContext c.(ctx_variables) (<[key := value]> c.(user_context)) c.(field_path) c.(operation_type).
Definition get_user_context (c : EvaluationContext) (key : string) : option json := c.(user_context) !! key.

Definition as_str (v : json) : option string := match v with JString s => Some s | _ => None end.
Definition has_role (c : EvaluationContext) (role : string) : bool :=
  match get_user_context c "roles" with
  | Some (JArray roles) => existsb (fun r => bool_decide (as_str r = Some role)) roles
  | _ => false
  end.
Definition user_id (c : EvaluationContext) : option string := get_user_context c "userId" ≫= as_str.

Definition handler : Type := gmap string json -> EvaluationContext -> result DirectiveError DirectiveResult.
Record CustomDirectiveEvaluator : Type := { handlers : gmap string handler; strict_mode : bool }.
Definition custom : CustomDirectiveEvaluator := {| handlers := ∅; strict_mode := false |}.
Definition strict (e : CustomDirectiveEvaluator) : CustomDirectiveEvaluator :=
  {| handlers := e.(handlers); strict_mode := true |}.
Definition with_handler (e : CustomDirectiveEvaluator) (name : string) (h : handler) : CustomDirectiveEvaluator :=
  {| handlers := <[name := h]> e.(handlers); strict_mode := e.(strict_mode) |}.

Section Custom.
Context (e : CustomDirectiveEvaluator) (c : EvaluationContext).

Definition evaluate_single_directive (d : Directive) : result DirectiveError DirectiveResult :=
  if d.(directive) =s "skip" then
    skip ← evaluate_skip c.(ctx_variables) d; Ok (if skip : bool then Skip else Include)
  else if d.(directive) =s "include" then
    include ← evaluate_include c.(ctx_variables) d; Ok (if include : bool then Include else Skip)
  else if d.(directive) =s "deprecated" then Ok Include
  else match e.(handlers) !! d.(directive) with
       | Some h => args ← parse_directive_args c.(ctx_variables) d; h args c
       | None => if e.(strict_mode) then Err (UnknownDirective d.(directive)) else Ok Include
       end.

Fixpoint evaluate_custom (ds : list Directive) : result DirectiveError DirectiveResult :=
  match ds with
  | [] => Ok Include
  | d :: ds =>
      outcome ← evaluate_single_directive d;
      match outcome with Include => evaluate_custom ds | other => Ok other end
  end.
Definition evaluate_directives_with_context (sel : FieldSelection) : result DirectiveError DirectiveResult :=
  evaluate_custom sel.(directives).

Fixpoint filter_custom (sel : FieldSelection) : result DirectiveError (option FieldSelection) :=
  match sel with
  | mkField n a args nested ds =>
      outcome ← evaluate_custom ds;
      match outcome with
      | Include | Transform _ =>
          match nested with
          | [] => Ok (Some sel)
          | _ => fields ← filter_each filter_custom nested; Ok (Some (mkField n a args fields ds))
          end
      | Skip => Ok None
      | Error msg => Err (CustomDirectiveError msg)
      end
  end.
Definition filter_selections_with_context : list FieldSelection -> result DirectiveError (list FieldSelection) :=
  filter_each filter_custom.
End Custom.
End Reader.

(** ** [@require_permission] *)
Module Permission.
(** [str::split(':')]. *)
Fixpoint split_colon (s : string) : list string :=
  match s with
  | ""%string => [""%string]
  | String c s =>
      if Ascii.eqb c ":"%char then ""%string :: split_colon s
      else match split_colon s with
           | part :: parts => String c part :: parts
           | [] => [String c ""]
           end
  end.

Definition permission_matches (user required : string) : bool :=
  if user =s required then true
  else if user =s "*:*" then true
  else
    let user_parts := split_colon user in
    let required_parts := split_colon required in
    match list.last user_parts with
    | Some "*"%string =>
        let n := (length user_parts - 1)%nat in
        if Nat.leb n (length required_parts)
        then bool_decide (take n user_parts = take n required_parts)
        else false
    | _ => false
    end.

Definition get_user_permissions (c : EvaluationContext) : list string :=
  match get_user_context c "permissions" with
  | Some (JArray perms) => omap as_str perms
  | _ => []
  end.

Definition user_has_permission (required : string) (perms : list string) : bool :=
  existsb (fun p => permission_matches p required) perms.

Definition evaluate : handler := fun args c =>
  required ← ok_or (args !! "permission"%string ≫= as_str) (MissingDirectiveArgument "permission");
  if user_has_permission required (get_user_permissions c) then Ok Include
  else match args !! "maskValue"%string with
       | Some mask => Ok (Transform mask)
       | None => Ok (Error ("User lacks required permission: " ++ required))
       end.

Definition validate_args (args : gmap string json) : result DirectiveError () :=
  match args !! "permission"%string with
  | None => Err (MissingDirectiveArgument "permission")
  | Some p =>
      permission ← ok_or (as_str p) InvalidDirectiveArgument;
      guard_err (permission =s "") as InvalidDirectiveArgument ;;
      match args !! "maskValue"%string with
      | Some (JString _ | JNumber _ | JNull) | None => Ok ()
      | Some _ => Err InvalidDirectiveArgument
      end
  end.
End Permission.

(** ** What the evaluators decide *)
Module Deciding.
Section Facts.
Context (from_str : string -> option json) (variables : gmap string json).

(** A directive lets its field through. *)
Definition allows (d : Directive) : bool :=
  if d.(directive) =s "skip" then match evaluate_skip from_str variables d with Ok b => negb b | Err _ => false end
  else if d.(directive) =s "include" then match evaluate_include from_str variables d with Ok b => b | Err _ => false end
  else true.
(** ... or removes it. *)
Definition removes (d : Directive) : Prop :=
  (d.(directive) = "skip"%string /\ evaluate_skip from_str variables d = Ok true) \/
  (d.(directive) = "include"%string /\ evaluate_include from_str variables d = Ok false).

(** The fields of a tree all of whose directives, and whose parents', let them through. *)
Fixpoint prune (sel : FieldSelection) : option FieldSelection :=
  match sel with
  | mkField n a args nested ds =>
      if forallb allows ds then Some (mkField n a args (omap prune nested) ds) else None
  end.

Lemma evaluate_true ds : evaluate_each from_str variables ds = Ok true <-> forallb allows ds = true.
Proof.
  induction ds as [|d ds IH]; [done|]. cbn [evaluate_each forallb]. unfold allows at 1.
  destruct (d.(directive) =s "skip").
  { destruct (evaluate_skip _ _ d) as [[]|]; cbn; [done|exact IH|done]. }
  destruct (d.(directive) =s "include"); [|exact IH].
  destruct (evaluate_include _ _ d) as [[]|]; cbn; [exact IH|done|done].
Qed.

Lemma evaluate_false ds : evaluate_each from_str variables ds = Ok false <->
  exists pre d post, ds = pre ++ d :: post /\ forallb allows pre = true /\ removes d.
Proof.
  induction ds as [|d ds IH].
  { split; [done|]. intros ([|] & ? & ? & ? & _); done. }
  assert (Hstep : allows d = true -> ~ removes d ->
    (exists pre d' post, ds = pre ++ d' :: post /\ forallb allows pre = true /\ removes d') <->
    (exists pre d' post, d :: ds = pre ++ d' :: post /\ forallb allows pre = true /\ removes d')).
  { intros Ha Hr. split.
    - intros (pre & d' & post & -> & Hp & Hd). exists (d :: pre), d', post. cbn. by rewrite Ha, Hp.
    - intros ([|x pre] & d' & post & E & Hp & Hd); injection E as -> ->; [done|].
      cbn in Hp. apply andb_true_iff in Hp as [_ Hp]. by exists pre, d', post. }
  assert (Hstop : allows d = false -> ~ removes d ->
    ~ (exists pre d' post, d :: ds = pre ++ d' :: post /\ forallb allows pre = true /\ removes d')).
  { intros Ha Hr ([|x pre] & d' & post & E & Hp & Hd); injection E as -> ->; [done|].
    cbn in Hp. by rewrite Ha in Hp. }
  assert (Hhere : removes d -> exists pre d' post, d :: ds = pre ++ d' :: post /\ forallb allows pre = true /\ removes d').
  { intros Hr. by exists [], d, ds. }
  cbn [evaluate_each]. unfold allows in Hstep, Hstop. unfold removes in Hstep at 1 2, Hstop at 1, Hhere at 1.
  destruct (d.(directive) =s "skip") eqn:E1; to_prop.
  - rewrite E1 in *. destruct (evaluate_skip _ _ d) as [[]|] eqn:E; cbn.
    + split; [intros _|done]. apply Hhere. by left.
    + rewrite IH. apply Hstep; [done|]. intros [[_ ?]|[? _]]; congruence.
    + split; [done|]. intros Hx. exfalso. apply Hstop; [done| |exact Hx]. intros [[_ ?]|[? _]]; congruence.
  - destruct (d.(directive) =s "include") eqn:E2; to_prop.
    + destruct (evaluate_include _ _ d) as [[]|] eqn:E; cbn.
      * rewrite IH. apply Hstep; [done|]. intros [[? _]|[_ ?]]; congruence.
      * split; [intros _|done]. apply Hhere. by right.
      * split; [done|]. intros Hx. exfalso. apply Hstop; [done| |exact Hx]. intros [[? _]|[_ ?]]; congruence.
    + rewrite IH. apply Hstep; [done|]. intros [[? _]|[? _]]; congruence.
Qed.

Lemma filter_each_omap {A B} (f : A -> result DirectiveError (option B)) (g : A -> option B) l out :
  Forall (fun x => forall o, f x = Ok o -> o = g x) l -> filter_each f l = Ok out -> out = omap g l.
Proof.
  intros Hl. revert out. induction Hl as [|x l Hx _ IH]; intros out; cbn; [by intros [= <-]|].
  intros (o & Ho & (rest & Hr & [= <-])%bind_Ok)%bind_Ok. rewrite <- (Hx _ Ho), <- (IH _ Hr). done.
Qed.

Lemma filter_prunes sel o : filter_selection from_str variables sel = Ok o -> o = prune sel.
Proof.
  revert o. induction sel as [n a args nested ds IH] using field_ind'. intros o. cbn.
  intros (keep & Hk & Ho)%bind_Ok. destruct keep.
  - apply evaluate_true in Hk. rewrite Hk. destruct nested as [|x l]; [by injection Ho as <-|].
    apply bind_Ok in Ho as (fields & Hf & [= <-]). apply (filter_each_omap _ prune) in Hf as ->; done.
  - injection Ho as <-. destruct (forallb allows ds) eqn:E; [|done]. apply evaluate_true in E. congruence.
Qed.

(** What [@skip] and [@include] leave: when no directive is in error, the
    result is the tree without the fields (and all below them) of which some
    [@skip] holds or some [@include] does not. *)
Theorem directives_prune sels out :
  filter_selections from_str variables sels = Ok out -> out = omap prune sels.
Proof.
  apply filter_each_omap, list.Forall_forall. intros sel _. apply filter_prunes.
Qed.
End Facts.

(** Without handlers the evaluator for custom directives is the built-in
    one, errors included. *)
Theorem custom_without_handlers from_str c sels :
  filter_selections_with_context from_str custom c sels = filter_selections from_str c.(ctx_variables) sels.
Proof.
  assert (He : forall ds, evaluate_custom from_str custom c ds =
    (fun b : bool => if b then Include else Skip) <$> evaluate_each from_str c.(ctx_variables) ds).
  { induction ds as [|d ds IH]; [done|]. cbn [evaluate_custom evaluate_each].
    unfold evaluate_single_directive.
    destruct (d.(directive) =s "skip"); [by destruct (evaluate_skip _ _ d) as [[]|]|].
    destruct (d.(directive) =s "include"); [by destruct (evaluate_include _ _ d) as [[]|]|].
    destruct (d.(directive) =s "deprecated"); [exact IH|]. cbn [handlers custom strict_mode].
    rewrite lookup_empty. exact IH. }
  assert (Hone : forall sel, filter_custom from_str custom c sel = filter_selection from_str c.(ctx_variables) sel).
  { induction sel as [n a args nested ds IH] using field_ind'. cbn [filter_custom filter_selection]. rewrite He.
    destruct (evaluate_each _ _ ds) as [[]|]; try done. cbn.
    destruct nested as [|x l]; [done|]. f_equal. clear -IH.
    induction IH as [|y l' Hy _ IHl]; [done|]. cbn [filter_each]. by rewrite Hy, IHl. }
  unfold filter_selections_with_context, filter_selections.
  induction sels as [|sel sels IH]; [done|]. cbn [filter_each]. by rewrite Hone, IH.
Qed.

(** A directive on a fragment spread is lost: whatever the directives of a
    spread, its fragment's fields are resolved, so [...F @skip(if: true)] and
    [...F @include(if: false)] include them. *)
Theorem spread_directives_ignored r before x a args nested ds ds' after :
  starts_with "on " x = false ->
  Resolver.resolve_spreads r (before ++ mkField ("..." ++ x) a args nested ds :: after) =
  Resolver.resolve_spreads r (before ++ mkField ("..." ++ x) a args nested ds' :: after).
Proof.
  intros Hx. unfold Resolver.resolve_spreads. cbn [Resolver.resolve_selections]. f_equal.
  generalize (∅ : gset string). induction before as [|sel before IH]; intros visited.
  - cbn [app Resolver.resolve_each]. unfold Resolver.resolve_selection. cbn [name].
    by rewrite strip_prefix_app, Hx.
  - cbn [app Resolver.resolve_each]. destruct (Resolver.resolve_selection _ _ _ _) as [[f v]|]; [|done]. cbn.
    by rewrite IH.
Qed.

Lemma prefix_leb {A} `{EqDecision A} (l m k : list A) :
  (length l <= length m)%nat -> take (length l) (l ++ k) = take (length l) m -> exists rest, m = l ++ rest.
Proof.
  intros Hl E. rewrite take_app_length in E. exists (drop (length l) m). rewrite E at 1. by rewrite take_drop.
Qed.

(** A permission covers exactly itself and, when its last part is [*],
    everything whose parts begin with the parts before it ([*:*] covers all). *)
Theorem permission_covers user required :
  Permission.permission_matches user required = true <->
  user = required \/ user = "*:*"%string \/
  exists parts rest, Permission.split_colon user = parts ++ ["*"%string] /\
    Permission.split_colon required = parts ++ rest.
Proof.
  unfold Permission.permission_matches. destruct (user =s required) eqn:E1; to_prop; [by split; [left|]|].
  destruct (user =s "*:*") eqn:E2; to_prop; [by split; [right; left|]|].
  set (up := Permission.split_colon user). set (rp := Permission.split_colon required).
  assert (Hlast : (exists parts, up = parts ++ ["*"%string]) <-> list.last up = Some "*"%string).
  { rewrite last_Some. done. }
  split.
  - intros H. right. right. destruct (list.last up) as [s|] eqn:El; [|done].
    assert (s = "*"%string) as ->.
    { destruct s as [|[[] [] [] [] [] [] [] []] [|]]; done. }
    destruct (proj2 Hlast eq_refl) as [parts Ep]. cbn in H. rewrite Ep, length_app in H. cbn in H.
    replace (length parts + 1 - 1)%nat with (length parts) in H by lia.
    destruct (Nat.leb_spec (length parts) (length rp)); [|done]. apply bool_decide_eq_true in H.
    destruct (prefix_leb parts rp ["*"%string]) as [rest Hr]; [done | by rewrite H |]. by exists parts, rest.
  - intros [?|[?|(parts & rest & Ep & Er)]]; [done|done|].
    rewrite (proj1 Hlast) by (by exists parts). fold up in Ep. fold rp in Er. rewrite Ep, Er, !length_app. cbn.
    replace (length parts + 1 - 1)%nat with (length parts) by lia.
    destruct (Nat.leb_spec (length parts) (length parts + length rest)); [|lia].
    apply bool_decide_eq_true. by rewrite !take_app_length.
Qed.

(** Masking is not carried out: a field the user may not read, whose
    [@require_permission] gives a mask, comes out of the filter unchanged, the
    mask in no part of the result. *)
Theorem masked_field_unchanged from_str c n a args ds0 permission mask d strictness :
  d.(directive) = "require_permission"%string ->
  parse_directive_args from_str c.(ctx_variables) d =
    Ok (<["permission":=JString permission]> {["maskValue" := mask]}) ->
  Permission.user_has_permission permission (Permission.get_user_permissions c) = false ->
  let e := {| handlers := {["require_permission"%string := Permission.evaluate]}; strict_mode := strictness |} in
  evaluate_custom from_str e c (d :: ds0) = Ok (Transform mask) /\
  filter_selections_with_context from_str e c [mkField n a args [] (d :: ds0)] =
    Ok [mkField n a args [] (d :: ds0)].
Proof.
  intros Hd Hargs Hp e.
  assert (E : evaluate_custom from_str e c (d :: ds0) = Ok (Transform mask)).
  { cbn [evaluate_custom]. unfold evaluate_single_directive. rewrite Hd.
    cbn -[parse_directive_args Permission.evaluate].
    match goal with |- context [match ?found with Some _ => _ | None => _ end] =>
      change found with (Some Permission.evaluate) end. cbn -[parse_directive_args Permission.evaluate].
    rewrite Hargs. cbn -[Permission.evaluate]. unfold Permission.evaluate.
    rewrite lookup_insert_eq. cbn. rewrite Hp. by rewrite lookup_insert_ne, lookup_singleton_eq. }
  split; [done|]. unfold filter_selections_with_context. cbn [filter_each filter_custom]. by rewrite E.
Qed.

(** ** A reader of [true] and [false], and a query with directives *)
Definition read_bool (t : string) : option json :=
  if t =s "true" then Some (JBool true) else if t =s "false" then Some (JBool false) else None.
Definition condition (name text : string) : Directive :=
  {| directive := name; directive_args := [{| arg_name := "if"; value_type := "boolean"; value_json := text |}] |}.
Definition leaf (n : string) (ds : list Directive) : FieldSelection := mkField n None [] [] ds.
Definition user_fields : list FieldSelection :=
  [mkField "user" None [] [leaf "id" []; leaf "email" [condition "skip" "$anonymous"]] [condition "include" "true"];
   leaf "log" [condition "include" "false"]].

Lemma directives_prune_witness :
  [mkField "user" None [] [leaf "id" []] [condition "include" "true"]] =
  omap (prune read_bool {["anonymous" := JBool true]}) user_fields.
Proof. apply directives_prune. vm_compute. reflexivity. Defined.

(** [{ user { ...F @skip(if: true) } }] still asks for [email]. *)
Definition resolver : Resolver.FragmentResolver :=
  Resolver.new [{| fragment := "F"; type_condition := "User"; selections := [leaf "email" []]; fragment_spreads := [] |}].

Lemma spread_directives_ignored_witness :
  Resolver.resolve_spreads resolver [leaf "...F" [condition "skip" "true"]] = Ok [leaf "email" []].
Proof.
  transitivity (Resolver.resolve_spreads resolver ([] ++ mkField ("..." ++ "F") None [] [] [] :: []));
    [|reflexivity].
  exact (spread_directives_ignored resolver [] "F" None [] [] [condition "skip" "true"] [] [] eq_refl).
Defined.

Lemma masked_field_unchanged_witness :
  let d := {| directive := "require_permission"; directive_args :=
    [{| arg_name := "permission"; value_type := "string"; value_json := "read:User.email" |};
     {| arg_name := "maskValue"; value_type := "string"; value_json := "[REDACTED]" |}] |} in
  let e := {| handlers := {["require_permission"%string := Permission.evaluate]}; strict_mode := false |} in
  evaluate_custom read_bool e (context ∅) [d] = Ok (Transform (JString "[REDACTED]")) /\
  filter_selections_with_context read_bool e (context ∅) [mkField "email" None [] [] [d]] = Ok [mkField "email" None [] [] [d]].
Proof.
  apply (masked_field_unchanged read_bool (context ∅) "email" None [] [] "read:User.email"); reflexivity.
Defined.
End Deciding.
