(* ===== verification/EditDistance.v ===== *)
(** * Edit distance

    The two Levenshtein distances behind "did you mean" suggestions: the one of
    the query matcher (fraiseql-core, [runtime/matcher.rs]), with two rows and
    an early exit, and the one of unknown fields (fraiseql-error,
    [core_error.rs]), with a full matrix.  [edits a b n] is what they measure:
    [n] insertions, deletions and replacements turn [a] into [b]. *)

From S2P Require Import Prelude.
From Stdlib Require Import Ascii.
From stdpp Require Import sorting.
#[local] Open Scope nat_scope.

Notation text := (list ascii).

Inductive edits : text -> text -> nat -> Prop :=
| ed_nil : edits [] [] 0
| ed_keep x a b n : edits a b n -> edits (x :: a) (x :: b) n
| ed_replace x y a b n : edits a b n -> edits (x :: a) (y :: b) (S n)
| ed_delete x a b n : edits a b n -> edits (x :: a) b (S n)
| ed_insert y a b n : edits a b n -> edits a (y :: b) (S n).

Definition is_distance (a b : text) (d : nat) : Prop := edits a b d /\ forall n, edits a b n -> d <= n.

(** ** The code *)
Module Levenshtein.

(** One cell, from the cells diagonally before, above and to its left:
    of the matcher ... *)
Definition cell_match (x y : ascii) (diag up before : nat) : nat :=
  if Ascii.eqb x y then diag else 1 + Nat.min (Nat.min diag up) before.
(** ... and of the matrix. *)
Definition cell_cost (x y : ascii) (diag up before : nat) : nat :=
  Nat.min (Nat.min (up + 1) (before + 1)) (diag + (if Ascii.eqb x y then 0 else 1)).

Section Rows.
Context (cell : ascii -> ascii -> nat -> nat -> nat -> nat).

(** The cells of a row after its first, from the row above. *)
Fixpoint row_cells (x : ascii) (b : text) (diag : nat) (above : list nat) (before : nat) : list nat :=
  match b, above with
  | y :: b, up :: above =>
      let v := cell x y diag up before in v :: row_cells x b up above v
  | _, _ => []
  end.
Definition next_row (x : ascii) (i : nat) (b : text) (above : list nat) : list nat :=
  match above with diag :: above => i :: row_cells x b diag above i | [] => [] end.
(** Row [i] to the last, [a] being the rest of the first text. *)
Fixpoint rows (i : nat) (a b : text) (above : list nat) : list nat :=
  match a with [] => above | x :: a => rows (S i) a b (next_row x (S i) b above) end.
Definition table (a b : text) : nat := nth (length b) (rows 0 a b (seq 0 (S (length b)))) 0.
End Rows.

Definition abs_diff (m n : nat) : nat := (m - n) + (n - m).

(** [matcher.rs]: [levenshtein]. *)
Definition levenshtein (a b : text) : nat :=
  if Nat.ltb 2 (abs_diff (length a) (length b)) then abs_diff (length a) (length b)
  else table cell_match a b.

(** [core_error.rs]: [levenshtein_distance]. *)
Definition levenshtein_distance (a b : text) : nat :=
  match a, b with
  | [], _ => length b
  | _, [] => length a
  | _, _ => table cell_cost a b
  end.
End Levenshtein.

(** ** A distance by recursion *)
Module Distance.
Import Levenshtein.

Fixpoint dist (a : text) : text -> nat :=
  match a with
  | [] => fun b => length b
  | x :: a' =>
      fix dist_x (b : text) : nat :=
        match b with
        | [] => S (length a')
        | y :: b' =>
            if Ascii.eqb x y then dist a' b'
            else S (Nat.min (Nat.min (dist a' b') (dist a' b)) (dist_x b'))
        end
  end.

Lemma dist_nil_r a : dist a [] = length a.
Proof. by destruct a. Qed.
Lemma dist_cons x a y b : dist (x :: a) (y :: b) =
  if Ascii.eqb x y then dist a b else S (Nat.min (Nat.min (dist a b) (dist a (y :: b))) (dist (x :: a) b)).
Proof. done. Qed.

(** One more letter changes the distance by at most one. *)
Lemma dist_step a : forall b x,
  dist (x :: a) b <= S (dist a b) /\ dist a b <= S (dist (x :: a) b) /\
  (forall y, dist a (y :: b) <= S (dist a b)) /\ (forall y, dist a b <= S (dist a (y :: b))).
Proof.
  induction a as [|z a IHa].
  - induction b as [|w b IHb]; intros x; [cbn; repeat split; intros; lia|].
    destruct (IHb x) as (H1 & H2 & _). rewrite dist_cons. cbn [dist length] in *.
    repeat split; intros; try destruct (Ascii.eqb x w); lia.
  - induction b as [|w b IHb]; intros x.
    + rewrite !dist_nil_r. cbn [length].
      repeat split; intros; try rewrite dist_cons; rewrite ?dist_nil_r; cbn [length];
        try (destruct (IHa [] y) as (_ & _ & H3 & H4); specialize (H3 y); specialize (H4 y); rewrite dist_nil_r in *);
        repeat case_match; lia.
    + destruct (IHb x) as (Hb1 & Hb2 & Hb3 & Hb4).
      destruct (IHa b z) as (Ha1 & Ha2 & Ha3 & Ha4). destruct (IHa (w :: b) z) as (Hc1 & Hc2 & Hc3 & Hc4).
      specialize (Ha3 w) as Ha3w. specialize (Ha4 w) as Ha4w. specialize (Hb3 w) as Hb3w. specialize (Hb4 w) as Hb4w.
      assert (HX : dist (x :: z :: a) (w :: b) <= S (dist (z :: a) (w :: b)) /\
                   dist (z :: a) (w :: b) <= S (dist (x :: z :: a) (w :: b))).
      { rewrite (dist_cons x). destruct (Ascii.eqb x w); lia. }
      repeat split; [apply HX | apply HX | |]; intros y; rewrite (dist_cons z a y);
        specialize (Hc3 y); specialize (Hc4 y); destruct (Ascii.eqb z y); lia.
Qed.

Lemma edits_rev_insert b : edits [] b (length b).
Proof. induction b; cbn; by constructor. Qed.
Lemma edits_delete_all a : edits a [] (length a).
Proof. induction a; cbn; by constructor. Qed.

Lemma dist_edits a b : edits a b (dist a b).
Proof.
  revert b. induction a as [|x a IHa]; intros b; [apply edits_rev_insert|].
  induction b as [|y b IHb]; [apply (edits_delete_all (x :: a))|].
  rewrite dist_cons. destruct (Ascii.eqb_spec x y) as [->|]; [by constructor|].
  destruct (Nat.min_dec (Nat.min (dist a b) (dist a (y :: b))) (dist (x :: a) b)) as [E|E]; rewrite E;
    [|by constructor].
  destruct (Nat.min_dec (dist a b) (dist a (y :: b))) as [E'|E']; rewrite E'; by constructor.
Qed.

Lemma dist_minimal a b n : edits a b n -> dist a b <= n.
Proof.
  induction 1 as [|x a b n _ IH|x y a b n _ IH|x a b n _ IH|y a b n _ IH].
  - done.
  - rewrite dist_cons, Ascii.eqb_refl. done.
  - rewrite dist_cons. destruct (Ascii.eqb x y); lia.
  - destruct (dist_step a b x) as (? & _). lia.
  - destruct (dist_step a b y) as (_ & _ & H & _). specialize (H y). lia.
Qed.

Lemma dist_is_distance a b : is_distance a b (dist a b).
Proof. split; [apply dist_edits | apply dist_minimal]. Qed.

Lemma edits_app a b n a' b' m : edits a b n -> edits a' b' m -> edits (a ++ a') (b ++ b') (n + m).
Proof. intros H H'. induction H; cbn; try constructor; auto. Qed.

Lemma edits_rev a b n : edits a b n -> edits (rev a) (rev b) n.
Proof.
  induction 1 as [|x a b n _ IH|x y a b n _ IH|x a b n _ IH|y a b n _ IH]; cbn.
  - constructor.
  - rewrite <- (Nat.add_0_r n). by apply edits_app; [|repeat constructor].
  - rewrite <- (Nat.add_1_r n). by apply edits_app; [|repeat constructor].
  - rewrite <- (Nat.add_1_r n), <- (app_nil_r (rev b)). by apply edits_app; [|repeat constructor].
  - rewrite <- (Nat.add_1_r n), <- (app_nil_r (rev a)). by apply edits_app; [|repeat constructor].
Qed.

Lemma distance_rev a b d : is_distance (rev a) (rev b) d -> is_distance a b d.
Proof.
  intros [He Hm]. split.
  - apply edits_rev in He. by rewrite !rev_involutive in He.
  - intros n Hn. apply Hm. by apply edits_rev.
Qed.

Lemma distance_unique a b d d' : is_distance a b d -> is_distance a b d' -> d = d'.
Proof. intros [H1 H2] [H3 H4]. apply Nat.le_antisymm; auto. Qed.

Lemma edits_length a b n : edits a b n -> abs_diff (length a) (length b) <= n.
Proof. unfold abs_diff. induction 1; cbn in *; lia. Qed.

(** ** The table holds the distances of the beginnings of the texts *)
Section Table.
Context (cell : ascii -> ascii -> nat -> nat -> nat -> nat).
Context (Hcell : forall x a y b, cell x y (dist a b) (dist a (y :: b)) (dist (x :: a) b) = dist (x :: a) (y :: b)).

(** The row of [p] (a beginning, reversed) from the cell of [q] on. *)
Fixpoint row_from (p q b : text) : list nat :=
  match b with [] => [] | y :: b => dist p (y :: q) :: row_from p (y :: q) b end.

Lemma row_cells_spec x p q b :
  row_cells cell x b (dist p q) (row_from p q b) (dist (x :: p) q) = row_from (x :: p) q b.
Proof. revert q. induction b as [|y b IH]; intros q; cbn [row_cells row_from]; [done|]. by rewrite Hcell, IH. Qed.

Lemma rows_spec a p b : rows cell (length p) a b (length p :: row_from p [] b)
  = length (rev a ++ p) :: row_from (rev a ++ p) [] b.
Proof.
  revert p. induction a as [|x a IH]; intros p; [done|]. cbn [rows next_row].
  pose proof (row_cells_spec x p [] b) as E. rewrite !dist_nil_r in E. cbn [length] in E. rewrite E.
  specialize (IH (x :: p)). cbn [length] in IH. rewrite IH. cbn [rev]. by rewrite <- app_assoc.
Qed.

Lemma row_nth p q b : nth (length b) (dist p q :: row_from p q b) 0 = dist p (rev b ++ q).
Proof.
  revert q. induction b as [|y b IH]; intros q; [done|]. cbn [length nth row_from rev].
  rewrite <- app_assoc. apply (IH (y :: q)).
Qed.

Lemma first_row q b : row_from [] q b = seq (S (length q)) (length b).
Proof. revert q. induction b as [|y b IH]; intros q; [done|]. cbn [row_from length seq dist]. by rewrite IH. Qed.

Lemma table_spec a b : is_distance a b (table cell a b).
Proof.
  apply distance_rev. unfold table. cbn [seq].
  pose proof (first_row [] b) as F. cbn [length] in F. rewrite <- F.
  pose proof (rows_spec a [] b) as E. cbn [length] in E. rewrite E, app_nil_r.
  rewrite <- (dist_nil_r (rev a)), row_nth, app_nil_r. apply dist_is_distance.
Qed.
End Table.

Lemma cell_match_ok x a y b : cell_match x y (dist a b) (dist a (y :: b)) (dist (x :: a) b) = dist (x :: a) (y :: b).
Proof. by rewrite dist_cons. Qed.

Lemma cell_cost_ok x a y b : cell_cost x y (dist a b) (dist a (y :: b)) (dist (x :: a) b) = dist (x :: a) (y :: b).
Proof.
  rewrite dist_cons. unfold cell_cost.
  destruct (dist_step a b x) as (_ & H2 & H3 & _). specialize (H3 y).
  destruct (dist_step a b y) as (_ & _ & _ & H4). specialize (H4 y).
  destruct (Ascii.eqb x y); lia.
Qed.

(** The two distances are the least number of edits: the matrix always, the
    matcher's (two rows, early exit) whenever the lengths differ by at most
    two; beyond that it gives the difference of the lengths, which is more
    than two and no more than the distance. *)
Theorem levenshtein_is_edit_distance a b :
  is_distance a b (levenshtein_distance a b) /\
  if Nat.leb (abs_diff (length a) (length b)) 2 then levenshtein a b = levenshtein_distance a b
  else 2 < levenshtein a b <= levenshtein_distance a b.
Proof.
  assert (Hm : is_distance a b (levenshtein_distance a b)).
  { unfold levenshtein_distance. destruct a as [|x a]; [apply (dist_is_distance [] b)|].
    destruct b as [|y b]; [apply (dist_is_distance (x :: a) [])|]. apply table_spec, cell_cost_ok. }
  split; [done|]. unfold levenshtein.
  destruct (Nat.leb_spec (abs_diff (length a) (length b)) 2), (Nat.ltb_spec 2 (abs_diff (length a) (length b))); try lia.
  - eapply distance_unique; [apply table_spec, cell_match_ok | done].
  - split; [done|]. apply edits_length, Hm.
Qed.

Lemma levenshtein_close a b d : is_distance a b d -> d <= 2 -> levenshtein a b = d.
Proof.
  intros Hd Hle. unfold levenshtein.
  pose proof (edits_length _ _ _ (proj1 Hd)). destruct (Nat.ltb_spec 2 (abs_diff (length a) (length b))); [lia|].
  eapply distance_unique; [apply table_spec, cell_match_ok | done].
Qed.

Lemma levenshtein_small a b : levenshtein a b <= 2 -> is_distance a b (levenshtein a b).
Proof.
  unfold levenshtein. destruct (Nat.ltb_spec 2 (abs_diff (length a) (length b))); [lia|]. intros _.
  apply table_spec, cell_match_ok.
Qed.
End Distance.

(** ** Suggestions *)
Module Suggest.
Import Levenshtein Distance.

Definition chars : string -> text := String.list_ascii_of_string.
Definition MAX_DISTANCE : nat := 2.
Definition MAX_SUGGESTIONS : nat := 3.

Definition key_le (a b : nat * string) : Prop := a.1 <= b.1.
#[export] Instance key_le_dec : RelDecision key_le.
Proof. intros a b. unfold key_le. apply _. Defined.

#[export] Instance key_le_trans : Transitive key_le.
Proof. intros a b c. unfold key_le. lia. Qed.
#[export] Instance key_le_total : Total key_le.
Proof. intros a b. unfold key_le. lia. Qed.

(** [sort_unstable_by_key]: sorted by the key, in some order among equals. *)
Class UnstableSort (sort : list (nat * string) -> list (nat * string)) : Prop := {
  sort_perm l : sort l ≡ₚ l;
  sort_sorted l : StronglySorted key_le (sort l)
}.

#[export] Instance merge_sort_unstable : UnstableSort (merge_sort key_le).
Proof.
  split; intros l; [apply merge_sort_Permutation | apply (StronglySorted_merge_sort key_le)].
Qed.

Definition ranked (needle : string) (haystack : list string) : list (nat * string) :=
  omap (fun candidate =>
    let d := levenshtein (chars needle) (chars candidate) in
    if Nat.leb d MAX_DISTANCE then Some (d, candidate) else None) haystack.

Section Matcher.
Context (sort : list (nat * string) -> list (nat * string)).

(** [matcher.rs]: [suggest_similar]. *)
Definition suggest_similar (needle : string) (haystack : list string) : list string :=
  map snd (take MAX_SUGGESTIONS (sort (ranked needle haystack))).
End Matcher.

(** [core_error.rs]: the closest field, the first of equals ([min_by_key]). *)
Fixpoint closest (field : text) (fields : list string) : option (string * nat) :=
  match fields with
  | [] => None
  | f :: fields =>
      let d := levenshtein_distance field (chars f) in
      let rest := closest field fields in
      if Nat.leb d 2 then
        match rest with Some (g, e) => if Nat.ltb e d then Some (g, e) else Some (f, d) | None => Some (f, d) end
      else rest
  end.

Definition suggested_field (field : string) (fields : list string) : string :=
  match closest (chars field) fields with
  | Some (f, _) => field ++ " (did you mean '" ++ f ++ "'?)"
  | None => field
  end%string.

Definition near (needle candidate : string) (d : nat) : Prop :=
  is_distance (chars needle) (chars candidate) d /\ d <= 2.

Lemma elem_of_ranked needle haystack d c :
  (d, c) ∈ ranked needle haystack <-> c ∈ haystack /\ near needle c d.
Proof.
  unfold ranked. rewrite list_elem_of_omap. split.
  - intros (c' & Hc & E). destruct (Nat.leb_spec (levenshtein (chars needle) (chars c')) MAX_DISTANCE); [|done].
    injection E as <- ->. split; [done|]. split; [by apply levenshtein_small|done].
  - intros (Hc & Hd & Hle). exists c. split; [done|]. rewrite (levenshtein_close _ _ d) by done.
    unfold MAX_DISTANCE. by rewrite (proj2 (Nat.leb_le d 2)).
Qed.

Lemma sorted_app_le l1 l2 a b : StronglySorted key_le (l1 ++ l2) -> a ∈ l1 -> b ∈ l2 -> key_le a b.
Proof.
  induction l1 as [|x l1 IH]; [set_solver|]. cbn. intros [Hs Hx]%StronglySorted_inv.
  intros [->|Ha]%elem_of_cons Hb; [|by apply IH].
  rewrite list.Forall_forall in Hx. apply Hx. set_solver.
Qed.

(** What is suggested for an unknown query: candidates within two edits of
    the name, at most three, and a candidate that near is left out only when
    three no farther than it are suggested. *)
Theorem suggestions_are_closest sort needle haystack : UnstableSort sort ->
  let found := suggest_similar sort needle haystack in
  length found <= 3 /\
  (forall c, c ∈ found -> c ∈ haystack /\ exists d, near needle c d) /\
  (forall c d, c ∈ haystack -> near needle c d -> c ∉ found ->
     length found = 3 /\ forall c', c' ∈ found -> exists d', near needle c' d' /\ d' <= d).
Proof.
  intros [Hperm Hsort] found. unfold found, suggest_similar. rewrite !length_map, !length_take.
  set (l := sort (ranked needle haystack)).
  assert (Hin : forall d c, (d, c) ∈ l <-> c ∈ haystack /\ near needle c d).
  { intros d c. unfold l. rewrite Hperm. apply elem_of_ranked. }
  assert (Htake : forall c, c ∈ map snd (take MAX_SUGGESTIONS l) -> exists d, (d, c) ∈ take MAX_SUGGESTIONS l).
  { intros c ([d c'] & -> & Hc)%list_elem_of_fmap. by exists d. }
  assert (Hsub : forall p, p ∈ take MAX_SUGGESTIONS l -> p ∈ l).
  { intros p Hp. rewrite <- (take_drop MAX_SUGGESTIONS l). set_solver. }
  split; [apply Nat.le_min_l|]. split.
  - intros c (d & Hd)%Htake. apply Hsub, Hin in Hd as [? ?]. eauto.
  - intros c d Hc Hn Hout.
    assert (Hl : (d, c) ∈ l) by (by apply Hin).
    rewrite <- (take_drop MAX_SUGGESTIONS l) in Hl. apply elem_of_app in Hl as [Hl|Hl].
    { exfalso. apply Hout. by apply (list_elem_of_fmap_2 snd) in Hl. }
    split.
    + destruct (Nat.le_gt_cases (length l) MAX_SUGGESTIONS); [|unfold MAX_SUGGESTIONS in *; lia].
      rewrite drop_ge in Hl by done. set_solver.
    + intros c' (d' & Hd')%Htake. exists d'. split; [by apply Hsub, Hin in Hd' as [_ ?]|].
      pose proof (Hsort (ranked needle haystack)) as Hs. fold l in Hs. rewrite <- (take_drop MAX_SUGGESTIONS l) in Hs.
      exact (sorted_app_le _ _ _ _ Hs Hd' Hl).
Qed.

Lemma suggestions_are_closest_witness :
  let found := suggest_similar (merge_sort key_le) "usres" ["posts"; "users"; "user"]%string in
  length found <= 3 /\
  (forall c, c ∈ found -> c ∈ ["posts"; "users"; "user"]%string /\ exists d, near "usres" c d) /\
  (forall c d, c ∈ ["posts"; "users"; "user"]%string -> near "usres" c d -> c ∉ found ->
     length found = 3 /\ forall c', c' ∈ found -> exists d', near "usres" c' d' /\ d' <= d).
Proof. apply (suggestions_are_closest (merge_sort key_le)). apply merge_sort_unstable. Defined.
End Suggest.
