(* ===== verification/Matcher.v ===== *)
(** * Query matching

    [runtime/matcher.rs]: a query string and its variables become a query
    definition of the compiled schema, the selected fields and the arguments;
    [schema/compiled/schema.rs]: the index of definitions by name;
    [utils/casing.rs]: camel case and snake case.  A definition is opaque
    but for its name. *)

From S2P Require Import Prelude Json GraphQL WhereClause Complexity Fragments Directives EditDistance.
From Stdlib Require Import Ascii.
Import GraphQL.Types.
#[local] Open Scope Z_scope.
#[local] Open Scope string_scope.

(** ** [utils/casing.rs]; of letters, the ASCII ones *)
Module Casing.
Definition is_uppercase (c : ascii) : bool :=
  ((65 <=? nat_of_ascii c) && (nat_of_ascii c <=? 90))%nat.
Definition is_lowercase (c : ascii) : bool :=
  ((97 <=? nat_of_ascii c) && (nat_of_ascii c <=? 122))%nat.
Definition to_lower (c : ascii) : ascii := if is_uppercase c then ascii_of_nat (nat_of_ascii c + 32) else c.
Definition to_upper (c : ascii) : ascii := if is_lowercase c then ascii_of_nat (nat_of_ascii c - 32) else c.

Fixpoint any_char (f : ascii -> bool) (s : string) : bool :=
  match s with "" => false | String c s => f c || any_char f s end.

Definition starts_lower (s : string) : bool := match s with String c _ => is_lowercase c | "" => false end.

Fixpoint snake_loop (first prev_was_upper prev_was_lower : bool) (s : string) : string :=
  match s with
  | "" => ""
  | String c rest =>
      if is_uppercase c then
        let tail := String (to_lower c) (snake_loop false true false rest) in
        if negb first && (prev_was_lower || (prev_was_upper && starts_lower rest)) then String "_"%char tail else tail
      else String c (snake_loop false false (is_lowercase c) rest)
  end.
Definition to_snake_case (s : string) : string :=
  if any_char is_uppercase s then snake_loop true false false s else s.

Fixpoint camel_loop (capitalize_next : bool) (s : string) : string :=
  match s with
  | "" => ""
  | String c s =>
      if Ascii.eqb c "_"%char then camel_loop true s
      else String (if capitalize_next then to_upper c else c) (camel_loop false s)
  end.
Definition to_camel_case (s : string) : string :=
  if any_char (fun c => Ascii.eqb c "_"%char) s then camel_loop false s else s.

(** Names whose camel case can be turned back: lower case letters and digits,
    each underscore after a lower case letter that does not itself follow an
    underscore, and before a lower case letter. *)
Definition is_digit (c : ascii) : bool := ((48 <=? nat_of_ascii c) && (nat_of_ascii c <=? 57))%nat.
Fixpoint regular (after_lower : bool) (s : string) : bool :=
  match s with
  | "" => true
  | String c s =>
      if Ascii.eqb c "_"%char then
        match s with
        | String d s => after_lower && is_lowercase d && regular false s
        | "" => false
        end
      else (is_lowercase c || is_digit c) && regular (is_lowercase c) s
  end.

(** Facts about single letters, by cases on the 256 of them. *)
Definition every_char (f : ascii -> bool) : bool := forallb (fun n => f (ascii_of_nat n)) (seq 0 256).
Lemma every_char_spec f c : every_char f = true -> f c = true.
Proof.
  unfold every_char. rewrite forallb_forall. intros H. rewrite <- (ascii_nat_embedding c).
  apply H, in_seq. pose proof (nat_ascii_bounded c). lia.
Qed.

Lemma lower_facts c : is_lowercase c = true ->
  is_uppercase (to_upper c) = true /\ to_lower (to_upper c) = c /\ is_uppercase c = false /\
  Ascii.eqb c "_"%char = false /\ Ascii.eqb (to_upper c) "_"%char = false.
Proof.
  intros Hc. pose proof (every_char_spec (fun c => implb (is_lowercase c)
    (is_uppercase (to_upper c) && Ascii.eqb (to_lower (to_upper c)) c && negb (is_uppercase c) &&
     negb (Ascii.eqb c "_"%char) && negb (Ascii.eqb (to_upper c) "_"%char))) c ltac:(by vm_compute)) as H.
  cbv beta in H. rewrite Hc in H. cbn [implb] in H. 
  apply andb_true_iff in H as [[[[H1 H2]%andb_true_iff H3]%andb_true_iff H4]%andb_true_iff H5].
  apply Ascii.eqb_eq in H2. by apply negb_true_iff in H3, H4, H5.
Qed.

Lemma digit_facts c : is_digit c = true -> is_uppercase c = false /\ is_lowercase c = false.
Proof.
  intros Hc. pose proof (every_char_spec (fun c => implb (is_digit c) (negb (is_uppercase c) && negb (is_lowercase c))) c
    ltac:(by vm_compute)) as H. cbv beta in H. rewrite Hc in H. cbn [implb] in H.
  apply andb_true_iff in H as [H ?]. by rewrite negb_true_iff in *.
Qed.

(** What a regular rest of a name turns into and back, at the start of a word
    ([up]: its letter was made upper case) or inside one. *)
Lemma camel_snake_from s : forall first up low, (first = true -> low = false) -> regular low s = true ->
  snake_loop first up low (camel_loop false s) = s.
Proof.
  induction s as [s IH] using (induction_ltof1 _ String.length). unfold ltof in IH.
  intros first up low Hf Hr. destruct s as [|c s]; [done|]. cbn [regular camel_loop] in *.
  destruct (Ascii.eqb_spec c "_"%char) as [->|Hc].
  - destruct s as [|d s]; [done|]. apply andb_true_iff in Hr as [[Hl Hd]%andb_true_iff Hr].
    destruct (lower_facts d Hd) as (H1 & H2 & H3 & H4 & H5). cbn [camel_loop]. rewrite H4. cbn [snake_loop]. rewrite H1, H2.
    assert (first = false) as -> by (destruct first; [|done]; specialize (Hf eq_refl); congruence).
    rewrite Hl. cbn. rewrite IH; [done | cbn; lia | done | done].
  - apply andb_true_iff in Hr as [Hcl Hr]. cbn [snake_loop].
    assert (Hu : is_uppercase c = false).
    { apply orb_true_iff in Hcl as [Hl|Hd]; [by apply lower_facts | by apply digit_facts]. }
    rewrite Hu, IH; [done | cbn; lia | done | done].
Qed.

Lemma regular_no_upper s : forall low, regular low s = true -> any_char is_uppercase s = false.
Proof.
  induction s as [s IH] using (induction_ltof1 _ String.length). unfold ltof in IH.
  intros low Hr. destruct s as [|c s]; [done|]. cbn [regular any_char] in *.
  destruct (Ascii.eqb_spec c "_"%char) as [->|Hc].
  - destruct s as [|d s]; [done|]. apply andb_true_iff in Hr as [[_ Hd]%andb_true_iff Hr]. cbn.
    destruct (lower_facts d Hd) as (_ & _ & -> & _). apply (IH s ltac:(cbn; lia) _ Hr).
  - apply andb_true_iff in Hr as [Hcl Hr].
    assert (is_uppercase c = false) as ->.
    { apply orb_true_iff in Hcl as [Hl|Hd]; [by apply lower_facts | by apply digit_facts]. }
    apply (IH s ltac:(cbn; lia) _ Hr).
Qed.

Lemma snake_loop_plain s : forall first up low, any_char is_uppercase s = false -> snake_loop first up low s = s.
Proof.
  induction s as [|c s IH]; intros first up low; [done|]. cbn. intros [-> Hs]%orb_false_iff. by rewrite IH.
Qed.

Lemma to_snake_loop s : to_snake_case s = snake_loop true false false s.
Proof.
  unfold to_snake_case. destruct (any_char is_uppercase s) eqn:E; [done|]. by rewrite snake_loop_plain.
Qed.

Lemma to_camel_loop s : to_camel_case s = camel_loop false s.
Proof.
  unfold to_camel_case. destruct (any_char _ s) eqn:E; [done|].
  induction s as [|c s IH]; [done|]. cbn in *. apply orb_false_iff in E as [-> Hs]. by rewrite <- IH.
Qed.

(** A regular name is found again under its camel case. *)
Theorem camel_snake_roundtrip s : regular false s = true -> to_snake_case (to_camel_case s) = s.
Proof. intros H. rewrite to_snake_loop, to_camel_loop. by apply camel_snake_from. Qed.

Lemma camel_snake_roundtrip_witness : to_snake_case (to_camel_case "dns_server2a_log") = "dns_server2a_log".
Proof. by apply camel_snake_roundtrip. Defined.

(** Names that are not regular are not found: a digit after an underscore, or
    words of one letter. *)
Example digit_word_lost : to_snake_case (to_camel_case "address_1") = "address1".
Proof. reflexivity. Qed.
Example one_letter_word_lost : to_snake_case (to_camel_case "a_b_c") = "a_bc".
Proof. reflexivity. Qed.
End Casing.

(** ** The schema's index of operations *)
Module Schema.
Inductive NamingConvention : Type := Preserve | CamelCase.

Section Index.
Context {A : Type} (name_of : A -> string).

(** The entries of one operation, then the map; of two with one name the later stays. *)
Definition entries (naming : NamingConvention) (i : nat) (a : A) : list (string * nat) :=
  (name_of a, i) ::
  match naming with
  | CamelCase =>
      let converted := Casing.to_camel_case (name_of a) in
      if converted =s name_of a then [] else [(converted, i)]
  | Preserve => []
  end.
Definition build_index (naming : NamingConvention) (l : list A) : gmap string nat :=
  foldl (fun m e => <[e.1 := e.2]> m) ∅ (List.concat (imap (entries naming) l)).

Fixpoint scan (name : string) (l : list A) : option A :=
  match l with [] => None | a :: l => if name_of a =s name then Some a else scan name l end.

Definition or_else {B} (o : option B) (o' : option B) : option B := match o with Some b => Some b | None => o' end.

Definition find (l : list A) (index : gmap string nat) (name : string) : option A :=
  if bool_decide (index = ∅) && negb (bool_decide (length l = 0%nat)) then
    or_else (scan name l) (scan (Casing.to_snake_case name) l)
  else
    i ← or_else (index !! name) (index !! Casing.to_snake_case name); l !! (i : nat).
End Index.

Section Definitions_.
Context {Q M S : Type} (query_name : Q -> string) (mutation_name : M -> string) (subscription_name : S -> string).

Record CompiledSchema : Type := {
  queries : list Q; mutations : list M; subscriptions : list S;
  naming_convention : NamingConvention;
  query_index : gmap string nat; mutation_index : gmap string nat; subscription_index : gmap string nat
}.

Definition build_indexes (s : CompiledSchema) : CompiledSchema :=
  {| queries := s.(queries); mutations := s.(mutations); subscriptions := s.(subscriptions);
     naming_convention := s.(naming_convention);
     query_index := build_index query_name s.(naming_convention) s.(queries);
     mutation_index := build_index mutation_name s.(naming_convention) s.(mutations);
     subscription_index := build_index subscription_name s.(naming_convention) s.(subscriptions) |}.

Definition find_query (s : CompiledSchema) : string -> option Q := find query_name s.(queries) s.(query_index).
Definition find_mutation (s : CompiledSchema) : string -> option M := find mutation_name s.(mutations) s.(mutation_index).
Definition find_subscription (s : CompiledSchema) : string -> option S :=
  find subscription_name s.(subscriptions) s.(subscription_index).

Definition display_name (s : CompiledSchema) (name : string) : string :=
  match s.(naming_convention) with CamelCase => Casing.to_camel_case name | Preserve => name end.
End Definitions_.
End Schema.

(** ** [QueryMatcher] *)
Module Matching.
Section Match.
Context {Q M S : Type} (query_name : Q -> string).
(** Outside the crate: [graphql_parser::parse_query], [serde_json::from_str]
    and the order [sort_unstable_by_key] leaves equals in. *)
Context (read_document : string -> result string Ast.document) (from_str : string -> option json).
Context (sort : list (nat * string) -> list (nat * string)).

Record QueryMatch : Type := {
  query_def : Q;
  fields : list string;
  selections : list FieldSelection;
  arguments : gmap string json;
  operation_name : option string;
  parsed_query : ParsedQuery
}.

Definition build_variables_map (variables : option json) : gmap string json :=
  match variables with Some (JObject m) => list_to_map m | _ => ∅ end.
(** The same body in the source. *)
Definition extract_arguments : option json -> gmap string json := build_variables_map.
Definition extract_field_names (sels : list FieldSelection) : list string := map name sels.

Definition resolve_inline_arg (arg : GraphQLArgument) (variables : gmap string json) : option json :=
  match strip_prefix "$" arg.(value_json) with
  | Some var_name => variables !! var_name
  | None =>
      parsed ← from_str arg.(value_json);
      match as_str parsed ≫= strip_prefix "$" with
      | Some var_name => variables !! var_name
      | None => Some parsed
      end
  end.

(** The loop over the root's arguments; [arguments] is also where variables are looked up. *)
Definition merge_argument (arguments : gmap string json) (arg : GraphQLArgument) : gmap string json :=
  match arguments !! arg.(arg_name) with
  | Some _ => arguments
  | None =>
      match resolve_inline_arg arg arguments with
      | Some val => <[arg.(arg_name) := val]> arguments
      | None => arguments
      end
  end.
Definition merge_arguments (sels : list FieldSelection) (arguments : gmap string json) : gmap string json :=
  match sels with
  | root :: _ => foldl merge_argument arguments root.(Types.arguments)
  | [] => arguments
  end.

Definition not_found (root : string) (suggestions : list string) : string :=
  "Query '" ++ root ++ "' not found in schema" ++
  match suggestions with
  | [] => ""
  | [s] => ". Did you mean '" ++ s ++ "'?"
  | [a; b] => ". Did you mean '" ++ a ++ "' or '" ++ b ++ "'?"
  | a :: b :: c :: _ => ". Did you mean '" ++ a ++ "', '" ++ b ++ "', or '" ++ c ++ "'?"
  end.

(** [map_err]. *)
Definition map_err {E E' A} (f : E -> E') (r : result E A) : result E' A :=
  match r with Ok a => Ok a | Err e => Err (f e) end.

Context (schema : @Schema.CompiledSchema Q M S).

Definition match_query (query : string) (variables : option json) : result FraiseQLError QueryMatch :=
  parsed ← map_err (fun e => Parse (Parser.show e) "query") (Parser.parse_query read_document query);
  let variables_map := build_variables_map variables in
  resolved ← map_err (fun e => Validation (Text (Resolver.show e)) (Some "fragments"))
    (Resolver.resolve_spreads (Resolver.new parsed.(fragments)) parsed.(query_selections));
  final ← map_err (fun e => Validation (Text (Directives.show e)) (Some "directives"))
    (filter_selections from_str variables_map resolved);
  def ← ok_or (Schema.find_query query_name schema parsed.(root_field))
    (Validation (Text (not_found parsed.(root_field)
       (Suggest.suggest_similar sort parsed.(root_field)
          (map (fun q => Schema.display_name schema (query_name q)) schema.(Schema.queries))))) None);
  Ok {| query_def := def; fields := extract_field_names final; selections := final;
        arguments := merge_arguments final (extract_arguments variables);
        operation_name := parsed.(Types.query_name); parsed_query := parsed |}.
End Match.
End Matching.

Module SchemaFacts.
Import Schema.

Section Index.
Context {A : Type} (name_of : A -> string).

Lemma inserted_entries (l : list (string * nat)) (m : gmap string nat) n i :
  NoDup (map fst l) -> (n, i) ∈ l -> foldl (fun m e => <[e.1 := e.2]> m) m l !! n = Some i.
Proof.
  revert m. induction l as [|[n' i'] l IH]; intros m; [set_solver|]. cbn. intros [Hn Hnd]%list.NoDup_cons.
  intros [[= <- <-]|Hin]%elem_of_cons; [|by apply IH].
  clear IH. assert (Hm : (<[n := i]> m : gmap string nat) !! n = Some i) by apply lookup_insert_eq.
  generalize dependent (<[n := i]> m). clear Hnd. induction l as [|[n' i'] l IH]; intros m' Hm; [done|].
  cbn in *. apply IH; [set_solver|]. rewrite lookup_insert_ne; [done|set_solver].
Qed.

Lemma not_inserted (l : list (string * nat)) (m : gmap string nat) n :
  n ∉ map fst l -> foldl (fun m e => <[e.1 := e.2]> m) m l !! n = m !! n.
Proof.
  revert m. induction l as [|[n' i'] l IH]; intros m; [done|]. cbn. intros Hn.
  rewrite IH by set_solver. apply lookup_insert_ne. set_solver.
Qed.

Lemma preserve_entries l k : List.concat (imap (fun i => entries name_of Preserve (k + i)) l)
  = imap (fun i a => (name_of a, k + i)%nat) l.
Proof.
  revert k. induction l as [|a l IH]; intros k; [done|]. cbn. f_equal.
  specialize (IH (S k)). erewrite imap_ext; [erewrite (imap_ext _ (fun i a => (name_of a, (S k + i)%nat))); [exact IH|]|];
    intros i x _; cbn; [|unfold entries]; by rewrite <- Nat.add_succ_comm.
Qed.

Lemma preserve_entries0 l : List.concat (imap (entries name_of Preserve) l) = imap (fun i a => (name_of a, i)) l.
Proof. exact (preserve_entries l 0). Qed.

Lemma imap_names l : map fst (imap (fun i a => (name_of a, i)) l) = map name_of l.
Proof. apply list_eq. intros i. rewrite !list_lookup_fmap, list_lookup_imap. by destruct (l !! i). Qed.

Lemma scan_lookup n l a : scan name_of n l = Some a -> exists i, l !! i = Some a /\ name_of a = n.
Proof.
  induction l as [|b l IH]; cbn; [done|]. case_bool; to_prop; [intros [= ->]; by exists 0%nat|].
  intros (i & ? & ?)%IH. by exists (S i).
Qed.
Lemma scan_none n l : scan name_of n l = None -> n ∉ map name_of l.
Proof. induction l as [|b l IH]; cbn; [set_solver|]. case_bool; to_prop; [done|]. intros ?%IH. set_solver. Qed.

Lemma index_lookup l n : NoDup (map name_of l) ->
  build_index name_of Preserve l !! n ≫= (fun i => l !! i) = scan name_of n l.
Proof.
  intros Hnd. unfold build_index. rewrite preserve_entries0. pose proof (imap_names l) as Hes.
  destruct (scan name_of n l) as [a|] eqn:E.
  - apply scan_lookup in E as (i & Hi & <-).
    rewrite (inserted_entries _ ∅ (name_of a) i); [done | by rewrite Hes |].
    apply elem_of_lookup_imap. by exists i, a.
  - rewrite not_inserted; [done|]. rewrite Hes. by apply scan_none.
Qed.

(** The index of operations answers like the scan it replaces, for names
    kept as they are and used once. *)
Theorem index_is_scan l n : NoDup (map name_of l) ->
  find name_of l (build_index name_of Preserve l) n =
  or_else (scan name_of n l) (scan name_of (Casing.to_snake_case n) l).
Proof.
  intros Hnd. unfold find. destruct (_ && _); [done|].
  pose proof (index_lookup l n Hnd) as E1. pose proof (index_lookup l (Casing.to_snake_case n) Hnd) as E2.
  destruct (build_index name_of Preserve l !! n) as [i|] eqn:Ei; cbn in E1 |- *.
  - destruct (scan name_of n l) as [a|] eqn:Es; [done|].
    exfalso. apply scan_none in Es. unfold build_index in Ei. rewrite preserve_entries0 in Ei.
    rewrite not_inserted in Ei; [done|]. intros Hin. apply Es.
    apply list_elem_of_fmap in Hin as ([n' i'] & -> & Hp). apply elem_of_lookup_imap in Hp as (j & a & [= -> ->] & Hj).
    apply (list_elem_of_fmap_2 name_of). by eapply list_elem_of_lookup_2.
  - rewrite <- E1. cbn. exact E2.
Qed.
End Index.

Lemma index_is_scan_witness :
  find (fun s : string => s) ["users"; "dns_servers"] (build_index (fun s : string => s) Preserve ["users"; "dns_servers"]) "dnsServers"
  = Some "dns_servers".
Proof.
  rewrite (index_is_scan (fun s : string => s) ["users"; "dns_servers"] "dnsServers"); [reflexivity|].
  by apply (bool_decide_unpack _).
Defined.
End SchemaFacts.

Module MatchFacts.
Import Matching Parser Inlining Deciding.

Lemma map_err_Ok {E E' A} (f : E -> E') (r : result E A) a : map_err f r = Ok a <-> r = Ok a.
Proof. destruct r; cbn; split; congruence. Qed.

Section Match.
Context {Q M S : Type} (query_name : Q -> string).
Context (read_document : string -> result string Ast.document) (from_str : string -> option json).
Context (sort : list (nat * string) -> list (nat * string)) (schema : @Schema.CompiledSchema Q M S).

Lemma of_document_spec source doc p : of_document source doc = Ok p ->
  exists op first rest, first_operation doc = Some op /\
    p.(query_selections) = parse_selection_set (Complexity.Validator.selection_set_of op) /\
    p.(query_selections) = first :: rest /\ p.(root_field) = first.(name) /\
    p.(fragments) = extract_fragments doc.
Proof.
  unfold of_document, ok_or. destruct (first_operation doc) as [op|]; [|done]. cbn.
  unfold extract_operation. intros ([[[[k n] r] s] v] & E & [= <-])%bind_Ok.
  destruct (operation_parts op) as [[n' ss] vd] eqn:Eop.
  assert (ss = Complexity.Validator.selection_set_of op) as ->.
  { by destruct op; cbn in Eop; injection Eop. }
  destruct (parse_selection_set _) as [|first rest] eqn:Es; [done|]. injection E as <- <- <- <- <-.
  exists op, first, rest. cbn. by rewrite Es.
Qed.

(** C9. What matching selects: the first operation's selections with fragments
    written out and the fields its directives remove removed; the definition
    found is that of the operation's first selection. *)
Theorem match_query_selects query variables m :
  match_query query_name read_document from_str sort schema query variables = Ok m ->
  exists doc op first rest inlined, read_document query = Ok doc /\ first_operation doc = Some op /\
    parse_selection_set (Complexity.Validator.selection_set_of op) = first :: rest /\
    inline_set (Resolver.new (extract_fragments doc)).(Resolver.fragments) 11 (first :: rest) = Some inlined /\
    Forall spread_free inlined /\
    m.(Matching.selections) = omap (prune from_str (build_variables_map variables)) inlined /\
    Schema.find_query query_name schema first.(name) = Some m.(query_def).
Proof.
  unfold match_query.
  intros (p & Hp%map_err_Ok & (res & Hres%map_err_Ok & (fin & Hfin%map_err_Ok & (def & Hdef & [= <-])%bind_Ok)%bind_Ok)%bind_Ok)%bind_Ok.
  unfold parse_query in Hp. destruct (read_document query) as [doc|] eqn:Ed; [|done].
  apply of_document_spec in Hp as (op & first & rest & Hop & Hs1 & Hs2 & Hroot & Hfr).
  rewrite Hs2, Hfr in Hres. apply ResolverFacts.resolve_exact in Hres.
  exists doc, op, first, rest, res. repeat split; try done.
  - congruence.
  - by eapply Pipeline.inline_free.
  - cbn. eapply filter_each_omap; [|exact Hfin]. apply list.Forall_forall. intros sel _. apply filter_prunes.
  - cbn. rewrite <- Hroot. unfold ok_or in Hdef. destruct (Schema.find_query _ _ _); [|done]. by injection Hdef as ->.
Qed.

(** An argument whose value ends in a backslash is dropped: its text is no
    JSON, so no reader reads it, and the query runs without the argument (a
    filter, say) and without an error. *)
Theorem backslash_argument_dropped argument v variables :
  (forall t j, from_str t = Some j -> JsonText.closed false false t = true) ->
  JsonText.trailing (Datatypes.S MAX_SERIALIZE_DEPTH) v ->
  merge_argument from_str variables (argument_of (argument, v)) = variables.
Proof.
  intros Hread Ht. unfold merge_argument. destruct (variables !! _); [done|].
  assert (resolve_inline_arg from_str (argument_of (argument, v)) variables = None) as ->; [|done].
  unfold resolve_inline_arg. cbn [argument_of value_json].
  destruct (JsonText.trailing_text _ _ Ht) as (t & E & Hc).
  destruct (JsonText.trailing_head _ _ _ Ht E) as (c & t' & -> & Hne).
  unfold serialize_value. cbn [snd]. rewrite E. cbn [default from_option id strip_prefix].
  destruct (Ascii.eqb_spec "$"%char c) as [<-|_]; [done|].
  destruct (from_str (String c t')) as [j|] eqn:Ej; [|done].
  apply Hread in Ej. specialize (Hc "" eq_refl). rewrite str_nil_r in Hc. congruence.
Qed.
End Match.
End MatchFacts.

(** ** Concrete queries *)
Module Demo.
Import Matching Parser Inlining Deciding Suggest.

Definition schema : @Schema.CompiledSchema string string string :=
  Schema.build_indexes id id id
    {| Schema.queries := ["users"; "posts"]; Schema.mutations := []; Schema.subscriptions := [];
       Schema.naming_convention := Schema.Preserve; Schema.query_index := ∅;
       Schema.mutation_index := ∅; Schema.subscription_index := ∅ |}.

(** A reader of the texts the queries below are stored with, which refuses text
    that ends inside a string. *)
Definition read_json (t : string) : option json :=
  if negb (JsonText.closed false false t) then None
  else if t =s "3" then Some (JNumber (PosInt 3%Z))
  else if t =s quoted "$anonymous" then Some (JString "$anonymous")
  else if t =s quoted "$limit" then Some (JString "$limit")
  else None.

Definition one (name : string) (args : list (string * Ast.value)) (ds : list Ast.directive) : Ast.selection :=
  Ast.Field None name args ds [Ast.Field None "id" [] [] []].
Definition query_of (ss : list Ast.selection) : Ast.document := [Ast.Operation (Ast.SelectionSet ss)].

(** [{ users @skip(if: $anonymous) { id } posts(limit: 3) { id } }] *)
Definition two_roots : Ast.document :=
  query_of [one "users" [] [{| Ast.directive_name := "skip"; Ast.directive_arguments := [("if", Ast.Variable_ "anonymous")] |}];
            one "posts" [("limit", Ast.Int (Some 3%Z))] []].
Definition anonymous (b : bool) : option json := Some (JObject [("anonymous", JBool b)]).
Definition run (doc : Ast.document) (variables : option json) : result FraiseQLError (@QueryMatch string) :=
  match_query id (fun _ => Ok doc) read_json (sorting.merge_sort Suggest.key_le) schema "" variables.

(** The definition comes from the first field before directives, the
    arguments from the first field after them: with the first root field
    skipped, its definition runs with the arguments of the next one. *)
Theorem skipped_root_takes_other_arguments :
  exists m, run two_roots (anonymous true) = Ok m /\ m.(query_def) = "users" /\ m.(fields) = ["posts"] /\
    m.(arguments) !! "limit" = Some (JNumber (PosInt 3%Z)).
Proof.
  destruct (run two_roots (anonymous true)) as [m|] eqn:E; [|by vm_compute in E].
  exists m. split; [done|]. vm_compute in E. injection E as <-. repeat split; by vm_compute.
Qed.

(** A variable that is not given is looked up among the arguments merged
    before it: in [posts(limit: 3, first: $limit)] it is 3. *)
Example argument_read_as_variable :
  merge_arguments read_json
    [mkField "posts" None [argument_of ("limit", Ast.Int (Some 3%Z)); argument_of ("first", Ast.Variable_ "limit")] [] []] ∅
    !! "first" = Some (JNumber (PosInt 3%Z)).
Proof. vm_compute. reflexivity. Qed.

(** An argument nested more than 64 deep is stored as [null], without an error. *)
Example deep_argument_is_null :
  serialize_value (Nat.iter 65 (fun v => Ast.Object [("and", v)]) Ast.Null) = "null".
Proof. vm_compute. reflexivity. Qed.

Lemma match_query_selects_witness :
  exists m, run two_roots (anonymous false) = Ok m /\
  exists doc op first rest inlined, (fun _ : string => Ok (E := string) two_roots) "" = Ok doc /\ first_operation doc = Some op /\
    parse_selection_set (Complexity.Validator.selection_set_of op) = first :: rest /\
    inline_set (Resolver.new (extract_fragments doc)).(Resolver.fragments) 11 (first :: rest) = Some inlined /\
    Forall spread_free inlined /\
    m.(Matching.selections) = omap (prune read_json (build_variables_map (anonymous false))) inlined /\
    Schema.find_query id schema first.(name) = Some m.(query_def).
Proof.
  destruct (run two_roots (anonymous false)) as [m|] eqn:E; [|by vm_compute in E].
  exists m. split; [done|]. exact (MatchFacts.match_query_selects _ _ _ _ _ _ _ _ E).
Defined.

Lemma backslash_argument_dropped_witness :
  merge_argument read_json ∅ (argument_of ("where", Ast.Object [("eq", Ast.String_ ("C:" ++ "\"))])) = ∅.
Proof.
  apply MatchFacts.backslash_argument_dropped.
  - intros t j. unfold read_json. by destruct (JsonText.closed false false t).
  - repeat constructor.
Defined.
End Demo.
