(* ===== verification/CacheStore.v ===== *)
(** * What the caches of fraiseql-core rely on

    The store behind [cache/result.rs] and [cache/response_cache.rs] is the
    [moka] package's concurrent cache, a parameter here: [Store] has the
    operations the source calls, [StoreLaws] what the package documents of
    them.  Its eviction listener is told of every entry that leaves the store;
    the caches use it to keep a reverse index from views to keys, whose
    operations and lemmas follow. *)

From S2P Require Import Prelude.
From stdpp Require Import fin_maps fin_sets.
#[local] Open Scope Z_scope.

(** Operations return the entries the listener is told of, in order.  An entry
    may be [stored] and no longer returned by [get]: expired or invalidated,
    its removal still to be told. *)
Class Store (K V S : Type) `{Countable K} := {
  stored : S -> gmap K V;
  get : S -> K -> option V;
  insert_entry : S -> K -> V -> S * list (K * V);
  invalidate : S -> K -> S * list (K * V);
  invalidate_all : S -> S * list (K * V);
  run_pending_tasks : S -> S * list (K * V);
  entry_count : S -> Z
}.

(** Entries are conserved: what goes in is stored or told. *)
Definition conserves {K V S} `{Store K V S} (s : S) (added : list (K * V)) (r : S * list (K * V)) : Prop :=
  map_to_list (stored r.1) ++ r.2 ≡ₚ added ++ map_to_list (stored s).

Class StoreLaws (K V S : Type) `{Store K V S} : Prop := {
  get_stored s k v : get s k = Some v -> stored s !! k = Some v;
  insert_conserves s k v : conserves s [(k, v)] (insert_entry s k v);
  insert_get s k v k' v' : get (insert_entry s k v).1 k' = Some v' ->
    (k' = k /\ v' = v) \/ (k' <> k /\ get s k' = Some v');
  invalidate_stored s k : stored (invalidate s k).1 = delete k (stored s);
  invalidate_told s k : (invalidate s k).2 = match stored s !! k with Some v => [(k, v)] | None => [] end;
  invalidate_get s k k' : get (invalidate s k).1 k' = if decide (k' = k) then None else get s k';
  invalidate_all_conserves s : conserves s [] (invalidate_all s);
  invalidate_all_get s k : get (invalidate_all s).1 k = None;
  pending_conserves s : conserves s [] (run_pending_tasks s);
  pending_get s k v : get (run_pending_tasks s).1 k = Some v -> get s k = Some v
}.

Section Conserved.
Context {K V S : Type} `{StoreLaws K V S}.

Lemma conserved_key (s : S) added r k v v' : conserves s added r -> NoDup ((added ++ map_to_list (stored s)).*1) ->
  (k, v) ∈ r.2 -> stored r.1 !! k = Some v' -> False.
Proof.
  intros Hc Hnd Hev Hs. unfold conserves in Hc.
  assert (Hn : NoDup ((map_to_list (stored r.1) ++ r.2).*1)) by (by rewrite Hc).
  rewrite fmap_app in Hn. apply list.NoDup_app in Hn as (_ & Hd & _). apply (Hd k).
  - apply (list_elem_of_fmap_2 fst (map_to_list (stored r.1)) (k, v')). by apply elem_of_map_to_list.
  - by apply (list_elem_of_fmap_2 fst r.2 (k, v)).
Qed.

Lemma conserved_from (s : S) added r p : conserves s added r -> p ∈ r.2 -> p ∈ added \/ stored s !! p.1 = Some p.2.
Proof.
  intros Hc Hp. assert (Hin : p ∈ added ++ map_to_list (stored s)).
  { unfold conserves in Hc. rewrite <- Hc. set_solver. }
  apply elem_of_app in Hin as [?|Hin]; [by left | right]. destruct p. by apply elem_of_map_to_list.
Qed.

Lemma conserved_stored (s : S) added r k v : conserves s added r -> stored r.1 !! k = Some v ->
  (k, v) ∈ added \/ stored s !! k = Some v.
Proof.
  intros Hc Hs. assert (Hin : (k, v) ∈ added ++ map_to_list (stored s)).
  { unfold conserves in Hc. rewrite <- Hc. apply elem_of_app. left. by apply elem_of_map_to_list. }
  apply elem_of_app in Hin as [?|Hin]; [by left | right]. by apply elem_of_map_to_list.
Qed.

Lemma fresh_nodup (s : S) k v : stored s !! k = None -> NoDup (([(k, v)] ++ map_to_list (stored s)).*1).
Proof.
  intros Hk. cbn. apply NoDup_cons. split; [|apply NoDup_fst_map_to_list].
  intros ([k' v'] & -> & Hin)%list_elem_of_fmap. apply elem_of_map_to_list in Hin. cbn in *. congruence.
Qed.

(** The counts: what is stored grows by what is added and shrinks by what is told. *)
Lemma conserved_size (s : S) added r : conserves s added r ->
  (size (stored r.1) + length r.2 = length added + size (stored s))%nat.
Proof.
  intros Hc. apply Permutation_length in Hc. rewrite !length_app, !length_map_to_list in Hc. exact Hc.
Qed.
End Conserved.

(** ** Reverse indexes: [DashMap<String, DashSet<K>>] *)
Section Index.
Context {K : Type} `{Countable K}.
Notation index := (gmap string (gset K)).

Definition listed (m : index) (name : string) : gset K := default ∅ (m !! name).
(** [entry(name).or_default().insert(key)]. *)
Definition add_key (key : K) (m : index) (name : string) : index := <[name := {[key]} ∪ listed m name]> m.
(** [if let Some(keys) = get(name) { keys.remove(key) }]. *)
Definition remove_key (key : K) (m : index) (name : string) : index :=
  match m !! name with Some keys => <[name := keys ∖ {[key]}]> m | None => m end.

Definition add_keys (key : K) (names : list string) (m : index) : index := foldl (add_key key) m names.
Definition remove_keys (key : K) (names : list string) (m : index) : index := foldl (remove_key key) m names.

Lemma listed_add key m name n k :
  k ∈ listed (add_key key m name) n <-> (k = key /\ n = name) \/ k ∈ listed m n.
Proof.
  unfold add_key, listed at 1. destruct (decide (n = name)) as [->|Hne].
  - rewrite lookup_insert_eq. cbn. set_solver.
  - rewrite lookup_insert_ne by done. fold (listed m n). intuition congruence.
Qed.

Lemma listed_remove key m name n k :
  k ∈ listed (remove_key key m name) n <-> k ∈ listed m n /\ ~ (k = key /\ n = name).
Proof.
  unfold remove_key. destruct (m !! name) as [ks|] eqn:E.
  - unfold listed at 1. destruct (decide (n = name)) as [->|Hne].
    + rewrite lookup_insert_eq. unfold listed. rewrite E. cbn. set_solver.
    + rewrite lookup_insert_ne by done. fold (listed m n). intuition congruence.
  - split; [|tauto]. intros Hk. split; [done|]. intros [-> ->]. unfold listed in Hk. rewrite E in Hk. set_solver.
Qed.

Lemma listed_adds key names m n k :
  k ∈ listed (add_keys key names m) n <-> (k = key /\ n ∈ names) \/ k ∈ listed m n.
Proof.
  revert m. induction names as [|x names IH]; intros m; [cbn; set_solver|].
  change (add_keys key (x :: names) m) with (add_keys key names (add_key key m x)).
  rewrite IH, listed_add. set_solver.
Qed.

Lemma listed_removes key names m n k :
  k ∈ listed (remove_keys key names m) n <-> k ∈ listed m n /\ ~ (k = key /\ n ∈ names).
Proof.
  revert m. induction names as [|x names IH]; intros m; [cbn; set_solver|].
  change (remove_keys key (x :: names) m) with (remove_keys key names (remove_key key m x)).
  rewrite IH, listed_remove. set_solver.
Qed.

(** The keys under any of the names, each once. *)
Definition keys_of (m : index) (names : list string) : gset K :=
  foldl (fun acc name => acc ∪ listed m name) ∅ names.

Lemma elem_of_keys_of m names k : k ∈ keys_of m names <-> exists n, n ∈ names /\ k ∈ listed m n.
Proof.
  unfold keys_of. assert (Hg : forall acc, k ∈ foldl (fun acc name => acc ∪ listed m name) acc names <->
    k ∈ acc \/ exists n, n ∈ names /\ k ∈ listed m n).
  { induction names as [|x names IH]; intros acc; cbn; [set_solver|]. rewrite IH. set_solver. }
  rewrite Hg. set_solver.
Qed.
End Index.

(** The order a [HashSet] is read in. *)
Class ReadOrder {K} `{Countable K} (order : gset K -> list K) : Prop := read_perm X : order X ≡ₚ elements X.
#[export] Instance elements_read {K} `{Countable K} : ReadOrder (K := K) elements.
Proof. by intros X. Qed.

Lemma elem_of_read {K} `{Countable K} (order : gset K -> list K) `{!ReadOrder order} X k : k ∈ order X <-> k ∈ X.
Proof. by rewrite (read_perm X), elem_of_elements. Qed.
Lemma length_read {K} `{Countable K} (order : gset K -> list K) `{!ReadOrder order} X : length (order X) = size X.
Proof. by rewrite (read_perm X). Qed.

(** ** A cache over a store

    What the result cache and the response cache have in common: a store, keys
    listed [under] tags (a view, a list's view, an entity), the tags a value
    has, and a listener. *)
Class Cached (C K V S T : Type) `{Store K V S} := {
  store_of : C -> S;
  under : C -> T -> gset K;
  tagged : V -> T -> Prop;
  tell : C -> S * list (K * V) -> C
}.
Class CachedLaws (C K V S T : Type) `{Cached C K V S T} : Prop := {
  store_tell c r : store_of (tell c r) = r.1;
  under_tell c r t k : k ∈ under (tell c r) t <-> k ∈ under c t /\ forall v, (k, v) ∈ r.2 -> ~ tagged v t
}.

Section Agreement.
Context {C K V S T : Type} {EK : EqDecision K} {CK : Countable K} {ST : Store K V S} {SL : StoreLaws K V S}
  {CC : Cached C K V S T} {CL : CachedLaws C K V S T}.

(** Live entries are listed under their tags; a listed key is stored with that tag. *)
Record agree (c : C) : Prop := {
  agree_listed k v t : get (store_of c) k = Some v -> tagged v t -> k ∈ under c t;
  agree_stored k t : k ∈ under c t -> exists v, stored (store_of c) !! k = Some v /\ tagged v t
}.

Lemma agree_same (c c' : C) : store_of c = store_of c' -> (forall t, under c t = under c' t) -> agree c -> agree c'.
Proof. intros Es Eu [Hr Hs]. split; intros *; rewrite <- Es, <- Eu; eauto. Qed.

Lemma conserved_kept (s : S) added r k v : conserves s added r -> (k, v) ∈ added ++ map_to_list (stored s) ->
  stored r.1 !! k = Some v \/ (k, v) ∈ r.2.
Proof.
  unfold conserves. intros Hc Hin. rewrite <- Hc in Hin. apply elem_of_app in Hin as [?|?]; [left|by right].
  by apply elem_of_map_to_list.
Qed.

(** A step of the store that adds nothing keeps the agreement. *)
Lemma tell_agree (c : C) r : agree c -> conserves (store_of c) [] r ->
  (forall k v, get r.1 k = Some v -> get (store_of c) k = Some v) -> agree (tell c r).
Proof.
  intros [Hr Hs] Hc Hg. split.
  - intros k v t. rewrite store_tell, under_tell. intros Hk Ht. split; [by eapply Hr; eauto|].
    intros w Hw. exfalso. eapply (conserved_key (store_of c) [] r); [done | apply NoDup_fst_map_to_list | done | by apply get_stored].
  - intros k t. rewrite store_tell, under_tell. intros [Hk Hl]. destruct (Hs k t Hk) as (v & Hv & Ht).
    exists v. split; [|done]. destruct (conserved_kept _ _ _ k v Hc) as [?|Hw]; [|done|].
    + cbn. by apply elem_of_map_to_list.
    + by destruct (Hl v Hw).
Qed.

Lemma invalidate_conserves (s : S) k : conserves s [] (invalidate s k).
Proof.
  unfold conserves. rewrite invalidate_stored, invalidate_told. cbn.
  destruct (stored s !! k) as [v|] eqn:E.
  - rewrite Permutation_app_comm. by apply map_to_list_delete.
  - by rewrite delete_id, app_nil_r by done.
Qed.

(** [store.invalidate], one key after another. *)
Definition drop_key (c : C) (k : K) : C := tell c (invalidate (store_of c) k).
Definition drop_keys (ks : list K) (c : C) : C := foldl drop_key c ks.

Lemma drop_key_agree (c : C) k : agree c -> agree (drop_key c k).
Proof.
  intros Hi. apply tell_agree; [done | apply invalidate_conserves |].
  intros k' v. rewrite invalidate_get. by destruct (decide (k' = k)).
Qed.
Lemma drop_keys_agree ks (c : C) : agree c -> agree (drop_keys ks c).
Proof. revert c. induction ks as [|k ks IH]; intros c Hi; [done|]. by apply IH, drop_key_agree. Qed.

Lemma drop_keys_get ks (c : C) k :
  get (store_of (drop_keys ks c)) k = if decide (k ∈ ks) then None else get (store_of c) k.
Proof.
  revert c. induction ks as [|key ks IH]; intros c; [done|].
  change (drop_keys (key :: ks) c) with (drop_keys ks (drop_key c key)).
  rewrite IH. unfold drop_key. rewrite store_tell, invalidate_get.
  destruct (decide (k ∈ key :: ks)) as [Hin|Hin]; destruct (decide (k ∈ ks)); destruct (decide (k = key)); set_solver.
Qed.

(** Dropping stored keys takes exactly them out of every list. *)
Lemma drop_keys_under ks (c : C) k t : agree c -> k ∈ under (drop_keys ks c) t <-> k ∈ under c t /\ k ∉ ks.
Proof.
  revert c. induction ks as [|key ks IH]; intros c Hi; [cbn; set_solver|].
  change (drop_keys (key :: ks) c) with (drop_keys ks (drop_key c key)).
  rewrite IH by (by apply drop_key_agree). unfold drop_key. rewrite under_tell, invalidate_told.
  rewrite not_elem_of_cons. split.
  - intros [[Hu Hl] Hk]. repeat split; try done. intros ->. destruct (agree_stored _ Hi key t Hu) as (v & Hv & Ht).
    rewrite Hv in Hl. apply (Hl v); [by left|done].
  - intros [Hu [Hne Hk]]. repeat split; try done. intros v Hv. destruct (stored (store_of c) !! key); set_solver.
Qed.

(** An entry put under a key that is not stored, once registered. *)
Lemma insert_agree (c c' : C) k v : stored (store_of c) !! k = None -> store_of c' = store_of c ->
  (forall t k', k' ∈ under c' t <-> (k' = k /\ tagged v t) \/ k' ∈ under c t) ->
  agree c -> agree (tell c' (insert_entry (store_of c) k v)).
Proof.
  intros Hfresh Es Hu [Hr Hs]. pose proof (insert_conserves (store_of c) k v) as Hc. split.
  - intros k' w t. rewrite store_tell, under_tell, Hu. intros Hk Ht.
    split; [|intros w' Hw'; exfalso; eapply conserved_key; [exact Hc | by apply fresh_nodup | done | by apply get_stored]].
    apply insert_get in Hk as [[-> ->]|[_ Hk]]; [by left|right]. by eapply Hr.
  - intros k' t. rewrite store_tell, under_tell, Hu. intros [Hk Hl].
    assert (Hin : exists w, (k', w) ∈ [(k, v)] ++ map_to_list (stored (store_of c)) /\ tagged w t).
    { destruct Hk as [[-> Ht]|Hk]; [exists v; split; [by left|done]|].
      destruct (Hs k' t Hk) as (w & Hw & Ht). exists w. split; [right; by apply elem_of_map_to_list|done]. }
    destruct Hin as (w & Hin & Ht). exists w. split; [|done].
    destruct (conserved_kept _ _ _ k' w Hc Hin) as [?|Hw]; [done|]. by destruct (Hl w Hw).
Qed.

(** Dropping the keys under some tags leaves the live entries without them. *)
Lemma drop_keys_exact (c : C) ks (ts : T -> Prop) : agree c ->
  (forall k, k ∈ ks <-> exists t, ts t /\ k ∈ under c t) ->
  forall k v, get (store_of (drop_keys ks c)) k = Some v <->
    get (store_of c) k = Some v /\ forall t, ts t -> ~ tagged v t.
Proof.
  intros [Hr Hs] Hks k v. rewrite drop_keys_get. destruct (decide (k ∈ ks)) as [Hk|Hk].
  - split; [done|]. intros [Hv Ht]. apply Hks in Hk as (t & Hts & Hk). destruct (Hs k t Hk) as (w & Hw & Hwt).
    apply get_stored in Hv. assert (w = v) as -> by congruence. by destruct (Ht t Hts).
  - split; [|by intros [? _]]. intros Hv. split; [done|]. intros t Hts Ht. apply Hk, Hks. exists t. split; [done|].
    by eapply Hr.
Qed.

(** Replacing a stored entry takes its key out of the lists of the entry replaced. *)
Lemma replaced_unlisted (c' : C) (s : S) k v old w t : stored s !! k = Some old -> get (insert_entry s k v).1 k = Some w ->
  w <> old -> tagged old t -> k ∉ under (tell c' (insert_entry s k v)) t.
Proof.
  intros Hold Hg Hne Ht [_ Hk]%under_tell. apply get_stored in Hg.
  destruct (conserved_kept s [(k, v)] (insert_entry s k v) k old) as [Hs|Hs];
    [apply insert_conserves | | congruence | by apply (Hk old Hs)].
  right. by apply elem_of_map_to_list.
Qed.
End Agreement.

(** The cache decides its store, and the store its keys and values. *)
#[export] Hint Mode Store - - ! - - : typeclass_instances.
#[export] Hint Mode Cached ! - - - - - - - : typeclass_instances.

(** ** A store

    One that keeps every entry until it is replaced or invalidated; entries
    invalidated all at once stay, not returned, until pending tasks run. *)
Module Lazy.
Section Lazy.
Context {K V : Type} `{Countable K}.
Notation lazy := (gmap K (V * bool)).

Definition told (s : lazy) (k : K) : list (K * V) := match s !! k with Some (v, _) => [(k, v)] | None => [] end.
Definition dead (s : lazy) : list (K * V) := omap (fun p => if p.2.2 : bool then None else Some (p.1, p.2.1)) (map_to_list s).

#[export] Instance lazy_store : Store K V lazy := {
  stored s := fst <$> s;
  get s k := match s !! k with Some (v, true) => Some v | _ => None end;
  insert_entry s k v := (<[k := (v, true)]> s, told s k);
  invalidate s k := (delete k s, told s k);
  invalidate_all s := ((fun p => (p.1, false)) <$> s, []);
  run_pending_tasks s := (filter (fun p => p.2.2 = true) s, dead s);
  entry_count s := Z.of_nat (size s)
}.

Lemma told_stored s k : told s k = match (fst <$> s : gmap K V) !! k with Some v => [(k, v)] | None => [] end.
Proof. unfold told. rewrite lookup_fmap. by destruct (s !! k) as [[]|]. Qed.

Lemma told_conserved s k : map_to_list (delete k (fst <$> s : gmap K V)) ++ told s k ≡ₚ map_to_list (fst <$> s : gmap K V).
Proof.
  rewrite told_stored. destruct ((fst <$> s : gmap K V) !! k) as [v|] eqn:E.
  - rewrite Permutation_app_comm. cbn. by rewrite map_to_list_delete.
  - rewrite delete_id by done. by rewrite app_nil_r.
Qed.

Lemma pending_conserved s :
  map_to_list (fst <$> filter (fun p : K * (V * bool) => p.2.2 = true) s : gmap K V) ++ dead s
  ≡ₚ map_to_list (fst <$> s : gmap K V).
Proof.
  unfold dead. induction s as [|k [v b] s Hk IH] using map_ind.
  { rewrite map_filter_empty, fmap_empty. by rewrite !map_to_list_empty. }
  rewrite fmap_insert, (map_to_list_insert (fst <$> s)) by (by rewrite lookup_fmap, Hk).
  rewrite (map_to_list_insert s) by done. rewrite <- IH. destruct b.
  - rewrite map_filter_insert_True by done. rewrite fmap_insert, map_to_list_insert; [done|].
    rewrite lookup_fmap, map_lookup_filter, Hk. done.
  - rewrite map_filter_insert_False by done. rewrite delete_id by done. cbn.
    symmetry. apply Permutation_middle.
Qed.

#[export] Instance lazy_laws : StoreLaws K V lazy.
Proof.
  split; intros s.
  - intros k v. cbn. rewrite lookup_fmap. by destruct (s !! k) as [[? []]|].
  - intros k v. unfold conserves. cbn. rewrite fmap_insert.
    rewrite <- (insert_delete_eq (fst <$> s)), map_to_list_insert by apply lookup_delete_eq.
    cbn. constructor. apply told_conserved.
  - intros k v k' v'. cbn. destruct (decide (k' = k)) as [->|Hne].
    + rewrite lookup_insert_eq. intros [= <-]. by left.
    + rewrite lookup_insert_ne by done. by right.
  - intros k. cbn. by rewrite fmap_delete.
  - intros k. cbn. apply told_stored.
  - intros k k'. cbn. destruct (decide (k' = k)) as [->|Hne].
    + by rewrite lookup_delete_eq.
    + by rewrite lookup_delete_ne.
  - unfold conserves. cbn. rewrite app_nil_r, <- map_fmap_compose. done.
  - intros k. cbn. rewrite lookup_fmap. by destruct (s !! k).
  - apply pending_conserved.
  - intros k v. cbn. rewrite map_lookup_filter. destruct (s !! k) as [[w b]|]; [|done]. cbn.
    destruct (decide (b = true)) as [->|Hb]; [by rewrite option_guard_True | by rewrite option_guard_False].
Qed.
End Lazy.
End Lazy.
