(* ===== verification/ResultCache.v ===== *)
(** * Result and response caches

    [cache/result.rs] and [cache/response_cache.rs] over the store of
    [CacheStore]: query results and whole responses, found by key and
    invalidated by the views, the lists and the entities they were read from.
    Calls are taken one after another; what the store tells its listener runs
    within the call that makes it tell. *)

From S2P Require Import Prelude Json CacheStore.
From stdpp Require Import fin_maps fin_sets.
#[local] Open Scope Z_scope.

(** ** [cache/config.rs] *)
Inductive RlsEnforcement : Type := RlsError | RlsWarn | RlsOff.

Record CacheConfig : Type := mkConfig {
  enabled : bool;
  max_entries : Z;
  ttl_seconds : Z;
  cache_list_queries : bool;
  rls_enforcement : RlsEnforcement;
  max_entry_bytes : option Z;
  max_total_bytes : option Z
}.
Definition config_default : CacheConfig := mkConfig false 10000 86400 true RlsError None None.
Definition config_with_max_entries (n : Z) : CacheConfig := mkConfig false n 86400 true RlsError None None.
Definition config_with_ttl (ttl : Z) : CacheConfig := mkConfig false 10000 ttl true RlsError None None.
Definition config_enabled : CacheConfig := mkConfig true 10000 86400 true RlsError None None.
Definition config_disabled : CacheConfig := mkConfig false 10000 86400 true RlsError None None.
Definition config_from (enabled : bool) : CacheConfig := if enabled then config_enabled else config_disabled.
Definition estimated_memory_bytes (c : CacheConfig) : Z := u64_wrap (c.(max_entries) * 10000).

(** ** Cached results *)
Record CachedResult : Type := {
  result_rows : list json;
  accessed_views : list string;
  cached_at : Z;
  entry_ttl : Z;
  entity_refs : list (string * string);
  is_list_query : bool
}.

(** [expire_after_create]: no expiry for a TTL of zero. *)
Definition expire_after_create (v : CachedResult) : option Z :=
  if v.(entry_ttl) =? 0 then None else Some v.(entry_ttl).

Notation index := (gmap string (gset Z)).

Record CacheMetrics : Type := {
  m_hits : Z; m_misses : Z; m_total_cached : Z; m_invalidations : Z; m_size : Z; m_memory_bytes : Z
}.
Definition hit_rate (m : CacheMetrics) : f64 :=
  let total := u64_wrap (m.(m_hits) + m.(m_misses)) in
  if total =? 0 then f64_zero else f64_div (f64_of_Z m.(m_hits)) (f64_of_Z total).
(** The quotient of six by ten rounds to the literal [0.6]. *)
Definition is_healthy (m : CacheMetrics) : bool := f64_lt (f64_div (f64_of_Z 6) (f64_of_Z 10)) (hit_rate m).

Module QueryResultCache.
Section Cache.
Context {S : Type} {ST : Store Z CachedResult S}.
(** [size_of::<CachedResult>() + 2 * size_of::<u64>()], the length
    [serde_json::to_vec] gives, and the order hash sets are read in. *)
Context (entry_overhead : Z) (json_bytes : list json -> option Z) (order : gset Z -> list Z).
Context (config : CacheConfig).

Record Cache : Type := mkCache {
  store : S;
  hits : Z; misses : Z; total_cached : Z; invalidations : Z;
  memory_bytes : Z;
  view_index : index;
  entity_index : gmap string index;
  list_index : index
}.

(** Over a fresh store; an assertion refuses a capacity of zero. *)
Definition empty (s : S) : Cache := mkCache s 0 0 0 0 0 ∅ ∅ ∅.
Definition new (s : S) : option Cache := if 0 <? config.(max_entries) then Some (empty s) else None.

(** The entity index: type, then identifier. *)
Definition listed_entity (m : gmap string index) (e : string * string) : gset Z :=
  listed (default ∅ (m !! e.1)) e.2.
Definition add_entity (key : Z) (m : gmap string index) (e : string * string) : gmap string index :=
  <[e.1 := add_key key (default ∅ (m !! e.1)) e.2]> m.
Definition remove_entity (key : Z) (m : gmap string index) (e : string * string) : gmap string index :=
  match m !! e.1 with Some by_type => <[e.1 := remove_key key by_type e.2]> m | None => m end.

(** The eviction listener. *)
Definition evicted (c : Cache) (kv : Z * CachedResult) : Cache :=
  let '(key, v) := kv in
  mkCache c.(store) c.(hits) c.(misses) c.(total_cached) c.(invalidations)
    (u64_wrap (c.(memory_bytes) - entry_overhead))
    (remove_keys key v.(accessed_views) c.(view_index))
    (foldl (remove_entity key) c.(entity_index) v.(entity_refs))
    (if v.(is_list_query) then remove_keys key v.(accessed_views) c.(list_index) else c.(list_index)).

Definition with_store (c : Cache) (r : S * list (Z * CachedResult)) : Cache :=
  foldl evicted (mkCache r.1 c.(hits) c.(misses) c.(total_cached) c.(invalidations) c.(memory_bytes)
    c.(view_index) c.(entity_index) c.(list_index)) r.2.

Definition get (c : Cache) (key : Z) : option (list json) * Cache :=
  if config.(enabled) then
    match CacheStore.get c.(store) key with
    | Some v => (Some v.(result_rows),
        mkCache c.(store) (u64_wrap (c.(hits) + 1)) c.(misses) c.(total_cached) c.(invalidations)
          c.(memory_bytes) c.(view_index) c.(entity_index) c.(list_index))
    | None => (None,
        mkCache c.(store) c.(hits) (u64_wrap (c.(misses) + 1)) c.(total_cached) c.(invalidations)
          c.(memory_bytes) c.(view_index) c.(entity_index) c.(list_index))
    end
  else (None, c).

(** The identifiers of the rows that have one. *)
Definition row_ref (entity_type : string) (row : json) : option (string * string) :=
  match json_get row "id" with Some (JString id) => Some (entity_type, id) | _ => None end.
Definition refs_of (entity_type : option string) (rows : list json) : list (string * string) :=
  match entity_type with Some et => omap (row_ref et) rows | None => [] end.

Definition oversized (rows : list json) : bool :=
  match config.(max_entry_bytes) with Some m => m <? default 0 (json_bytes rows) | None => false end.
Definition exhausted (c : Cache) : bool :=
  match config.(max_total_bytes) with Some m => m <=? c.(memory_bytes) | None => false end.

Definition register (c : Cache) (key : Z) (v : CachedResult) : Cache :=
  mkCache c.(store) c.(hits) c.(misses) c.(total_cached) c.(invalidations)
    (u64_wrap (c.(memory_bytes) + entry_overhead))
    (add_keys key v.(accessed_views) c.(view_index))
    (foldl (add_entity key) c.(entity_index) v.(entity_refs))
    (if v.(is_list_query) then add_keys key v.(accessed_views) c.(list_index) else c.(list_index)).

Definition count_cached (c : Cache) : Cache :=
  mkCache c.(store) c.(hits) c.(misses) (u64_wrap (c.(total_cached) + 1)) c.(invalidations)
    c.(memory_bytes) c.(view_index) c.(entity_index) c.(list_index).

Definition cached (now : Z) (rows : list json) (views : list string) (ttl_override : option Z)
    (entity_type : option string) : CachedResult :=
  {| result_rows := rows; accessed_views := views; cached_at := now;
     entry_ttl := default config.(ttl_seconds) ttl_override;
     entity_refs := refs_of entity_type rows; is_list_query := Nat.ltb 1 (length rows) |}.

Definition put_arc (now : Z) (c : Cache) (key : Z) (rows : list json) (views : list string)
    (ttl_override : option Z) (entity_type : option string) : Cache :=
  if negb config.(enabled) then c
  else if negb config.(cache_list_queries) && Nat.ltb 1 (length rows) then c
  else if oversized rows then c
  else if exhausted c then c
  else
    let v := cached now rows views ttl_override entity_type in
    let c := register c key v in
    count_cached (with_store c (insert_entry c.(store) key v)).

(** The calls of [store.invalidate], one key after another. *)
Definition invalidate_key (c : Cache) (key : Z) : Cache := with_store c (invalidate c.(store) key).
Definition invalidate_keys (keys : list Z) (c : Cache) : Cache := foldl invalidate_key c keys.

Definition count_invalidated (n : Z) (c : Cache) : Cache :=
  mkCache c.(store) c.(hits) c.(misses) c.(total_cached) (u64_wrap (c.(invalidations) + n))
    c.(memory_bytes) c.(view_index) c.(entity_index) c.(list_index).

Definition invalidate_set (c : Cache) (keys : gset Z) : Z * Cache :=
  let n := Z.of_nat (size keys) in (n, count_invalidated n (invalidate_keys (order keys) c)).

Definition invalidate_views (c : Cache) (views : list string) : Z * Cache :=
  if config.(enabled) then invalidate_set c (keys_of c.(view_index) views) else (0, c).
Definition invalidate_list_queries (c : Cache) (views : list string) : Z * Cache :=
  if config.(enabled) then invalidate_set c (keys_of c.(list_index) views) else (0, c).
Definition invalidate_by_entity (c : Cache) (entity_type entity_id : string) : Z * Cache :=
  if config.(enabled) then
    match c.(entity_index) !! entity_type with
    | None => (0, c)
    | Some by_type => invalidate_set c (listed by_type entity_id)
    end
  else (0, c).

Definition metrics (c : Cache) : CacheMetrics :=
  {| m_hits := c.(hits); m_misses := c.(misses); m_total_cached := c.(total_cached);
     m_invalidations := c.(invalidations); m_size := entry_count c.(store); m_memory_bytes := c.(memory_bytes) |}.

(** What [invalidate_all] tells at once is told before the indexes are cleared. *)
Definition clear (c : Cache) : Cache :=
  let c := with_store c (invalidate_all c.(store)) in
  mkCache c.(store) c.(hits) c.(misses) c.(total_cached) c.(invalidations) 0 ∅ ∅ ∅.

(** The store's housekeeping, between calls. *)
Definition tick (c : Cache) : Cache := with_store c (run_pending_tasks c.(store)).
End Cache.
End QueryResultCache.

Module CacheFacts.
Import QueryResultCache.

Section Entities.
Lemma listed_entity_add key m e f k :
  k ∈ listed_entity (add_entity key m e) f <-> (k = key /\ f = e) \/ k ∈ listed_entity m f.
Proof.
  unfold listed_entity, add_entity. destruct e as [et id], f as [ft fid]. cbn [fst snd].
  destruct (decide (ft = et)) as [->|Hne].
  - rewrite lookup_insert_eq. unfold default; cbn [from_option Datatypes.id]. rewrite listed_add. intuition congruence.
  - rewrite lookup_insert_ne by done. intuition congruence.
Qed.

Lemma listed_entity_remove key m e f k :
  k ∈ listed_entity (remove_entity key m e) f <-> k ∈ listed_entity m f /\ ~ (k = key /\ f = e).
Proof.
  unfold listed_entity, remove_entity. destruct e as [et id], f as [ft fid]. cbn [fst snd].
  destruct (m !! et) as [b|] eqn:E.
  - destruct (decide (ft = et)) as [->|Hne].
    + rewrite lookup_insert_eq, E. unfold default; cbn [from_option Datatypes.id]. rewrite listed_remove. intuition congruence.
    + rewrite lookup_insert_ne by done. intuition congruence.
  - split; [|tauto]. intros Hk. split; [done|]. intros [-> [= -> ->]]. rewrite E in Hk.
    unfold listed in Hk. cbn in Hk. set_solver.
Qed.

Lemma listed_entity_adds key es m f k :
  k ∈ listed_entity (foldl (add_entity key) m es) f <-> (k = key /\ f ∈ es) \/ k ∈ listed_entity m f.
Proof.
  revert m. induction es as [|e es IH]; intros m; cbn [foldl]; [set_solver|].
  rewrite IH, listed_entity_add. set_solver.
Qed.
Lemma listed_entity_removes key es m f k :
  k ∈ listed_entity (foldl (remove_entity key) m es) f <-> k ∈ listed_entity m f /\ ~ (k = key /\ f ∈ es).
Proof.
  revert m. induction es as [|e es IH]; intros m; cbn [foldl]; [set_solver|].
  rewrite IH, listed_entity_remove. set_solver.
Qed.
End Entities.

Section Facts.
Context {S : Type} {ST : Store Z CachedResult S} {SL : StoreLaws Z CachedResult S}.
Context (overhead : Z).
Notation Cache := (@Cache S).
Notation told := (list (Z * CachedResult)).

(** The three indexes, and what of a value each holds, as one. *)
Inductive tag : Type := ByView (view : string) | ByList (view : string) | ByEntity (e : string * string).

Definition under_tag (c : Cache) (t : tag) : gset Z :=
  match t with
  | ByView view => listed c.(view_index) view
  | ByList view => listed c.(list_index) view
  | ByEntity e => listed_entity c.(entity_index) e
  end.
Definition has_tag (v : CachedResult) (t : tag) : Prop :=
  match t with
  | ByView view => view ∈ v.(accessed_views)
  | ByList view => v.(is_list_query) = true /\ view ∈ v.(accessed_views)
  | ByEntity e => e ∈ v.(entity_refs)
  end.

Lemma under_evicted (c : Cache) key v t k :
  k ∈ under_tag (evicted overhead c (key, v)) t <-> k ∈ under_tag c t /\ ~ (k = key /\ has_tag v t).
Proof.
  destruct t as [view|view|e]; cbn.
  - apply listed_removes.
  - destruct (is_list_query v); [rewrite listed_removes; set_solver | set_solver].
  - apply listed_entity_removes.
Qed.

Lemma under_register (c : Cache) key v t k :
  k ∈ under_tag (register overhead c key v) t <-> (k = key /\ has_tag v t) \/ k ∈ under_tag c t.
Proof.
  destruct t as [view|view|e]; cbn.
  - apply listed_adds.
  - destruct (is_list_query v); [rewrite listed_adds; set_solver | set_solver].
  - apply listed_entity_adds.
Qed.

Lemma evicted_all (l : told) (c : Cache) t k :
  (k ∈ under_tag (foldl (evicted overhead) c l) t <-> k ∈ under_tag c t /\ forall v, (k, v) ∈ l -> ~ has_tag v t) /\
  (foldl (evicted overhead) c l).(store) = c.(store) /\
  (foldl (evicted overhead) c l).(memory_bytes) =
    match l with [] => c.(memory_bytes) | _ => u64_wrap (c.(memory_bytes) - overhead * Z.of_nat (length l)) end.
Proof.
  revert c. induction l as [|[key v] l IH]; intros c; cbn [foldl]; [repeat split; set_solver|].
  destruct (IH (evicted overhead c (key, v))) as (IH1 & IH2 & IH3). rewrite IH1, IH2, IH3, under_evicted.
  split; [|split; [done|]].
  - split.
    + intros [[Hk Hn] Hl]. split; [done|]. intros w [[= -> ->]|Hw]%elem_of_cons; [|by apply Hl].
      intros Ht. by apply Hn.
    + intros [Hk Hl]. split; [split; [done|]|].
      * intros [-> Ht]. apply (Hl v); [by left|done].
      * intros w Hw. apply Hl. by right.
  - cbn [memory_bytes evicted]. destruct l as [|p l]; cbn [length]; [f_equal; lia|].
    unfold u64_wrap. rewrite Zminus_mod_idemp_l. f_equal. lia.
Qed.

Lemma under_with_store (c : Cache) r t k :
  k ∈ under_tag (with_store overhead c r) t <-> k ∈ under_tag c t /\ forall v, (k, v) ∈ r.2 -> ~ has_tag v t.
Proof. unfold with_store. rewrite (proj1 (evicted_all _ _ _ _)). by destruct t. Qed.

Lemma told_store (c : Cache) r : (with_store overhead c r).(store) = r.1.
Proof. unfold with_store. by destruct (evicted_all r.2 (mkCache r.1 c.(hits) c.(misses) c.(total_cached)
  c.(invalidations) c.(memory_bytes) c.(view_index) c.(entity_index) c.(list_index)) (ByView "") 0) as (_ & -> & _). Qed.

#[export] Instance cached_store : Cached Cache Z CachedResult S tag := {
  store_of c := c.(store);
  under := under_tag;
  tagged := has_tag;
  tell := with_store overhead
}.
#[export] Instance cached_laws : CachedLaws Cache Z CachedResult S tag.
Proof. split; intros; [apply told_store | apply under_with_store]. Qed.

Context (json_bytes : list json -> option Z) (order : gset Z -> list Z) `{!ReadOrder order}.
Context (config : CacheConfig).

(** The indexes agree with the store. *)
Notation inv := (agree (CC := cached_store)).

Lemma same_indexes_inv (c c' : Cache) : c.(store) = c'.(store) -> (forall t, under_tag c t = under_tag c' t) -> inv c -> inv c'.
Proof. apply (agree_same (CC := cached_store)). Qed.

Lemma invalidate_set_inv keys (c : Cache) : inv c -> inv (invalidate_set overhead order c keys).2.
Proof. intros Hi. eapply same_indexes_inv; [| |apply (drop_keys_agree (CC := cached_store) (order keys) c Hi)]; [done|by intros []]. Qed.

Lemma invalidate_set_get keys (c : Cache) k :
  CacheStore.get (invalidate_set overhead order c keys).2.(store) k =
    if decide (k ∈ order keys) then None else CacheStore.get c.(store) k.
Proof. exact (drop_keys_get (CC := cached_store) (order keys) c k). Qed.

Lemma put_inv now (c : Cache) key rows views ttl et : stored c.(store) !! key = None -> inv c ->
  inv (put_arc overhead json_bytes config now c key rows views ttl et).
Proof.
  intros Hfresh Hi. unfold put_arc. repeat (case_bool; [done|]).
  set (v := cached config now rows views ttl et).
  eapply same_indexes_inv; [| |apply (insert_agree (CC := cached_store) c (register overhead c key v) key v Hfresh)];
    [done | by intros [] | done | intros t k; apply under_register | exact Hi].
Qed.

Lemma clear_inv (c : Cache) : inv (clear overhead c).
Proof.
  split.
  - intros k v t. cbn. rewrite told_store, invalidate_all_get. done.
  - intros k []; cbn; unfold listed_entity, listed; rewrite ?lookup_empty; cbn; rewrite ?lookup_empty; set_solver.
Qed.

(** ** Reachable caches in which no entry is put twice *)
Inductive step : Cache -> Cache -> Prop :=
| step_get c key : step c (get config c key).2
| step_put now c key rows views ttl et : stored c.(store) !! key = None ->
    step c (put_arc overhead json_bytes config now c key rows views ttl et)
| step_views c views : step c (invalidate_views overhead order config c views).2
| step_lists c views : step c (invalidate_list_queries overhead order config c views).2
| step_entity c et id : step c (invalidate_by_entity overhead order config c et id).2
| step_clear c : step c (clear overhead c)
| step_tick c : step c (tick overhead c).

Lemma cache_step_inv (c c' : Cache) : step c c' -> inv c -> inv c'.
Proof.
  destruct 1; intros Hi.
  - unfold get. case_bool; [|done]. destruct (CacheStore.get _ _); (eapply same_indexes_inv; [| |exact Hi]; [done|by intros []]).
  - by apply put_inv.
  - unfold invalidate_views. case_bool; [|done]. by apply invalidate_set_inv.
  - unfold invalidate_list_queries. case_bool; [|done]. by apply invalidate_set_inv.
  - unfold invalidate_by_entity. case_bool; [|done]. destruct (_ !! _); [|done]. by apply invalidate_set_inv.
  - apply clear_inv.
  - apply (tell_agree (CC := cached_store) c); [done | apply pending_conserves | intros k v; apply pending_get].
Qed.

Lemma empty_inv (s : S) : (forall k, CacheStore.get s k = None) -> inv (empty s).
Proof.
  intros He. split; [intros k v t; cbn; by rewrite He|].
  intros k []; cbn; unfold listed_entity, listed; rewrite ?lookup_empty; cbn; rewrite ?lookup_empty; set_solver.
Qed.

(** Which live entries an invalidation by tags leaves. *)
Lemma invalidates_tags (c : Cache) keys (ts : tag -> Prop) : inv c ->
  (forall k, k ∈ keys <-> exists t, ts t /\ k ∈ under_tag c t) ->
  forall k v, CacheStore.get (invalidate_set overhead order c keys).2.(store) k = Some v <->
    CacheStore.get c.(store) k = Some v /\ forall t, ts t -> ~ has_tag v t.
Proof.
  intros Hi Hkeys. apply (drop_keys_exact (CC := cached_store) c (order keys) ts Hi). intros k. rewrite (elem_of_read order). apply Hkeys.
Qed.

Lemma reachable_cache_inv (s : S) c0 c : (forall k, CacheStore.get s k = None) -> new config s = Some c0 -> rtc step c0 c -> inv c.
Proof.
  intros He. unfold new. case_bool; [|done]. intros [= <-] Hr.
  exact (rtc_invariant _ _ cache_step_inv _ _ Hr (empty_inv s He)).
Qed.

(** C37. Invalidation drops the entries concerned and no other: whatever calls
    led there, so long as no entry was put under a key still stored,
    [invalidate_views] leaves exactly the live entries that read none of the
    views, [invalidate_list_queries] those that are no list reading one of
    them, and [invalidate_by_entity] those without a row of that identity. *)
Theorem cache_invalidation_exact (s : S) c0 c : (forall k, CacheStore.get s k = None) -> new config s = Some c0 ->
  rtc step c0 c -> config.(enabled) = true -> forall k v,
  (forall views, CacheStore.get (invalidate_views overhead order config c views).2.(store) k = Some v <->
    CacheStore.get c.(store) k = Some v /\ forall view, view ∈ views -> view ∉ v.(accessed_views)) /\
  (forall views, CacheStore.get (invalidate_list_queries overhead order config c views).2.(store) k = Some v <->
    CacheStore.get c.(store) k = Some v /\
    (v.(is_list_query) = false \/ forall view, view ∈ views -> view ∉ v.(accessed_views))) /\
  (forall et id, CacheStore.get (invalidate_by_entity overhead order config c et id).2.(store) k = Some v <->
    CacheStore.get c.(store) k = Some v /\ (et, id) ∉ v.(entity_refs)).
Proof.
  intros He Hn Hr Hen k v. pose proof (reachable_cache_inv s c0 c He Hn Hr) as Hi.
  unfold invalidate_views, invalidate_list_queries, invalidate_by_entity. rewrite Hen. split; [|split]; intros *.
  - rewrite (invalidates_tags c _ (fun t => exists view, t = ByView view /\ view ∈ views)) by
      (try done; intros key; rewrite elem_of_keys_of; cbn; naive_solver). cbn. naive_solver.
  - rewrite (invalidates_tags c _ (fun t => exists view, t = ByList view /\ view ∈ views)) by
      (try done; intros key; rewrite elem_of_keys_of; cbn; naive_solver). cbn.
    split; intros [Hg Ht]; (split; [exact Hg|]).
    + destruct (is_list_query v) eqn:El; [right|by left]. intros view Hv Ha. apply (Ht (ByList view)); [eauto|done].
    + intros ? (view & -> & Hv) [El Ha]. destruct Ht as [Ht|Ht]; [congruence|]. by apply (Ht view).
  - destruct (entity_index c !! et) as [by_type|] eqn:E.
    + rewrite (invalidates_tags c _ (fun t => t = ByEntity (et, id))); [naive_solver|done|].
      intros key. split; [|intros (? & -> & Hk); revert Hk; cbn; unfold listed_entity; cbn; by rewrite E].
      intros Hk. eexists. split; [done|]. cbn. unfold listed_entity. cbn. by rewrite E.
    + split; [|by intros [? _]]. intros Hk. split; [done|]. intros Hin.
      pose proof (agree_listed _ Hi k v (ByEntity (et, id)) Hk Hin) as Hu. cbn in Hu. unfold listed_entity in Hu.
      cbn in Hu. rewrite E in Hu. unfold listed in Hu. cbn in Hu. set_solver.
Qed.

(** An entry put under a key still stored is out of reach of the views it
    shares with the entry it replaces: the notice of the replacement comes
    after the new entry was registered and takes the key out of the index, so
    that invalidating that view goes on serving the entry. *)
Theorem replaced_entry_stays now (c : Cache) key rows views ttl et old v view :
  let c' := put_arc overhead json_bytes config now c key rows views ttl et in
  stored c.(store) !! key = Some old -> CacheStore.get c'.(store) key = Some v -> v <> old ->
  view ∈ old.(accessed_views) ->
  v.(accessed_views) = views /\
  CacheStore.get (invalidate_views overhead order config c' [view]).2.(store) key = Some v.
Proof.
  cbn zeta. intros Hold. unfold put_arc. repeat case_bool; try (intros Hg ?; exfalso;
    apply get_stored in Hg; congruence).
  set (w := cached _ _ _ _ _ _). set (r := insert_entry (store c) key w). intros Hg Hne Hview.
  assert (Hg' : CacheStore.get r.1 key = Some v) by (cbn in Hg; by rewrite told_store in Hg). split.
  { apply insert_get in Hg' as [[_ ->]|[? _]]; done. }
  unfold invalidate_views. case_bool; [|done].
  rewrite invalidate_set_get. destruct (decide _) as [Hk|]; [exfalso|exact Hg].
  apply (elem_of_read order), elem_of_keys_of in Hk as (n & ->%list_elem_of_singleton & Hk). revert Hk.
  by apply (replaced_unlisted (CC := cached_store) (register overhead c key w) (store c) key w old v (ByView view)).
Qed.

(** Clearing the cache undermines its memory budget: the counter is set to
    zero while the entries are told to the listener later, which subtracts
    each of them once more and wraps, so that under any budget up to there no
    result is cached any more. *)
Theorem clear_exhausts_budget (c : Cache) told' : (invalidate_all c.(store)).2 = [] ->
  (run_pending_tasks (invalidate_all c.(store)).1).2 = told' ->
  0 < overhead * Z.of_nat (length told') <= 2 ^ 64 ->
  let c' := tick overhead (clear overhead c) in
  c'.(memory_bytes) = 2 ^ 64 - overhead * Z.of_nat (length told') /\
  forall budget now key rows views ttl et, config.(max_total_bytes) = Some budget -> budget <= c'.(memory_bytes) ->
    put_arc overhead json_bytes config now c' key rows views ttl et = c'.
Proof.
  intros Hall Htold Hn. cbn zeta. split.
  - unfold tick, with_store at 1. rewrite (proj2 (proj2 (evicted_all _ _ (ByView "") 0))).
    cbn [store clear]. rewrite told_store, Htold. cbn [memory_bytes].
    destruct told' as [|x l]; [cbn in Hn; lia|]. unfold u64_wrap. symmetry.
    change (memory_bytes (clear overhead c)) with 0. apply (Z.mod_unique_pos _ _ (-1)); lia.
  - intros * Hb Hle. unfold put_arc. repeat (case_bool; [done|]).
    match goal with H : exhausted _ _ = false |- _ => unfold exhausted in H; rewrite Hb in H end. bool_lia.
Qed.
End Facts.

(** ** A cache at work *)
Section Demo.
Import Lazy.
Notation lazy := (gmap Z (CachedResult * bool)).
Definition row (id : string) : json := JObject [("id"%string, JString id)].
Definition demo_put := put_arc (S := lazy) 128 (fun _ => Some 10) config_enabled 1000.
Definition users : Cache := demo_put (empty ∅) 1 [row "u1"; row "u2"] ["v_user"%string] None (Some "User"%string).
Definition both : Cache := demo_put users 2 [row "p1"] ["v_post"%string] None (Some "Post"%string).
Definition user_again : CachedResult :=
  cached config_enabled 1000 [row "u3"] ["v_user"%string] None (Some "User"%string).

Lemma cache_invalidation_exact_witness :
  CacheStore.get (invalidate_views 128 elements config_enabled both ["v_user"%string]).2.(store) 2 =
    CacheStore.get both.(store) 2 /\ CacheStore.get both.(store) 2 <> None /\
  ~ exists v, CacheStore.get (invalidate_views 128 elements config_enabled both ["v_user"%string]).2.(store) 1 = Some v.
Proof.
  assert (Hex : forall k v, CacheStore.get (invalidate_views 128 elements config_enabled both ["v_user"%string]).2.(store) k
    = Some v <-> CacheStore.get both.(store) k = Some v /\ forall view, view ∈ ["v_user"%string] -> view ∉ v.(accessed_views)).
  { intros k v. apply (cache_invalidation_exact 128 (fun _ => Some 10) elements config_enabled ∅ (empty ∅) both).
    - done.
    - reflexivity.
    - eapply rtc_l; [|eapply rtc_once].
      + apply (step_put _ _ _ _ 1000 (empty ∅) 1 [row "u1"; row "u2"] ["v_user"%string] None (Some "User"%string)). reflexivity.
      + apply (step_put _ _ _ _ 1000 users 2 [row "p1"] ["v_post"%string] None (Some "Post"%string)). reflexivity.
    - reflexivity. }
  split; [vm_compute; reflexivity|]. split; [vm_compute; congruence|].
  intros [v Hv]. apply Hex in Hv as [Hg Hn]. vm_compute in Hg. injection Hg as <-.
  apply (Hn "v_user"%string); [by left | by left].
Defined.

Lemma replaced_entry_stays_witness :
  let c' := demo_put both 1 [row "u3"] ["v_user"%string] None (Some "User"%string) in
  CacheStore.get (invalidate_views 128 elements config_enabled c' ["v_user"%string]).2.(store) 1 = Some user_again.
Proof.
  apply (replaced_entry_stays 128 (fun _ => Some 10) elements config_enabled 1000 both 1 [row "u3"] ["v_user"%string]
    None (Some "User"%string) (cached config_enabled 1000 [row "u1"; row "u2"] ["v_user"%string] None (Some "User"%string))
    user_again "v_user"%string); [reflexivity | reflexivity | | by left].
  intros E. by apply (f_equal is_list_query) in E.
Defined.

Lemma clear_exhausts_budget_witness :
  let c' := tick 128 (clear 128 both) in
  c'.(memory_bytes) = 2 ^ 64 - 256 /\
  forall now key rows views ttl et,
    put_arc 128 (fun _ => Some 10)
      (mkConfig true 10000 86400 true RlsError None (Some 1000000)) now c' key rows views ttl et = c'.
Proof.
  destruct (clear_exhausts_budget 128 (fun _ => Some 10)
    (mkConfig true 10000 86400 true RlsError None (Some 1000000)) both
    (run_pending_tasks (invalidate_all both.(store)).1).2) as [Hm Hp]; [reflexivity | reflexivity | vm_compute; split; congruence |].
  split; [exact Hm|]. intros *. apply (Hp 1000000); [reflexivity | vm_compute; congruence].
Defined.
End Demo.
End CacheFacts.
