(* ===== verification/Chars.v ===== *)
(** * Text as the source handles it

    Rust strings are UTF-8 bytes: [chars] are their characters, a [slice]
    panics outside a character boundary.  Integers as [str::parse] reads
    them. *)

From Stdlib Require Import Ascii.
From S2P Require Import Prelude.
#[local] Open Scope Z_scope.

Definition byte (c : ascii) : Z := Z.of_nat (nat_of_ascii c).
Definition is_continuation (c : ascii) : bool := (128 <=? byte c) && (byte c <? 192).

(** [str::chars], each character as its bytes. *)
Fixpoint chars (s : string) : list string :=
  match s with
  | EmptyString => []
  | String c s =>
      match chars s with
      | (String d _ as ch) :: rest =>
          if is_continuation d then String c ch :: rest else String c EmptyString :: ch :: rest
      | r => String c EmptyString :: r
      end
  end.
Definition concat_str (l : list string) : string := foldr String.append EmptyString l.

(** [s.is_char_boundary(i)]. *)
Definition is_char_boundary (s : string) (i : nat) : bool :=
  match String.get i s with
  | Some c => negb (is_continuation c)
  | None => Nat.eqb i (String.length s)
  end.
(** [&s[a..b]], which panics where it has no value. *)
Definition slice (s : string) (a b : nat) : option string :=
  if (a <=? b)%nat && is_char_boundary s a && is_char_boundary s b then Some (String.substring a (b - a) s) else None.

(** [char::is_whitespace], on the bytes of a character. *)
Definition bytes (l : list nat) : string := foldr (fun n s => String (ascii_of_nat n) s) EmptyString l.
Definition whitespace : list string :=
  map bytes ([[9]; [10]; [11]; [12]; [13]; [32]; [194; 133]; [194; 160]; [225; 154; 128];
    [226; 128; 168]; [226; 128; 169]; [226; 128; 175]; [226; 129; 159]; [227; 128; 128]]%nat ++
    map (fun n => [226; 128; 128 + n]%nat) (seq 0 11)).
Definition is_whitespace (ch : string) : bool := existsb (String.eqb ch) whitespace.

Fixpoint skip_while {A} (p : A -> bool) (l : list A) : list A :=
  match l with x :: l' => if p x then skip_while p l' else l | [] => [] end.
Fixpoint count_while {A} (p : A -> bool) (l : list A) : nat :=
  match l with x :: l => if p x then S (count_while p l) else O | [] => O end.

(** [str::trim_matches] and [str::trim]. *)
Definition trim_matches (p : string -> bool) (s : string) : string :=
  concat_str (rev (skip_while p (rev (skip_while p (chars s))))).
Definition trim : string -> string := trim_matches is_whitespace.

(** [s.split(c)] and [s.split_once(c)] of an ASCII character, [s.find(c)]. *)
Fixpoint split (sep : ascii) (s : string) : list string :=
  match s with
  | EmptyString => [EmptyString]
  | String c s =>
      if Ascii.eqb c sep then EmptyString :: split sep s
      else match split sep s with x :: l => String c x :: l | [] => [String c EmptyString] end
  end.
Fixpoint split_once (sep : ascii) (s : string) : option (string * string) :=
  match s with
  | EmptyString => None
  | String c s =>
      if Ascii.eqb c sep then Some (EmptyString, s)
      else match split_once sep s with Some (a, b) => Some (String c a, b) | None => None end
  end.
Fixpoint has_char (c : ascii) (s : string) : bool :=
  match s with EmptyString => false | String d s => Ascii.eqb d c || has_char c s end.
Fixpoint starts_with (p s : string) : bool :=
  match p, s with
  | EmptyString, _ => true
  | String a p, String b s => Ascii.eqb a b && starts_with p s
  | _, EmptyString => false
  end.
Fixpoint strip_prefix (p s : string) : option string :=
  match p, s with
  | EmptyString, _ => Some s
  | String a p, String b s => if Ascii.eqb a b then strip_prefix p s else None
  | _, EmptyString => None
  end.
(** [s.split_once(sep)] of a string and [s.contains(sep)]. *)
Fixpoint split_once_str (sep s : string) : option (string * string) :=
  match strip_prefix sep s with
  | Some rest => Some (EmptyString, rest)
  | None =>
      match s with
      | EmptyString => None
      | String c s => match split_once_str sep s with Some (a, b) => Some (String c a, b) | None => None end
      end
  end.
Definition contains (sep s : string) : bool := match split_once_str sep s with Some _ => true | None => false end.
(** [s.replace(from, to)]; every step drops a character. *)
Fixpoint replace_fuel (fuel : nat) (from to s : string) : string :=
  match fuel with
  | O => s
  | S fuel => match split_once_str from s with Some (a, b) => (a ++ to ++ replace_fuel fuel from to b)%string | None => s end
  end.
Definition replace (from to s : string) : string := replace_fuel (String.length s) from to s.
Fixpoint strip_suffix (p s : string) : option string :=
  if s =s p then Some EmptyString
  else match s with EmptyString => None | String c s => String c <$> strip_suffix p s end.
Fixpoint last_char (s : string) : option ascii :=
  match s with EmptyString => None | String c EmptyString => Some c | String _ s => last_char s end.
Definition ends_with (c : ascii) (s : string) : bool :=
  match last_char s with Some d => Ascii.eqb d c | None => false end.
(** [s.join(sep)]. *)
Fixpoint join (sep : string) (l : list string) : string :=
  match l with [] => EmptyString | [x] => x | x :: l => (x ++ sep ++ join sep l)%string end.

(** ** [str::parse] for integers *)
Definition digit (c : ascii) : option Z := let n := byte c - 48 in if (0 <=? n) && (n <=? 9) then Some n else None.
Fixpoint digits_value (acc : Z) (s : string) : option Z :=
  match s with
  | EmptyString => Some acc
  | String c s => match digit c with Some d => digits_value (10 * acc + d) s | None => None end
  end.
Definition digits (s : string) : option Z := match s with EmptyString => None | _ => digits_value 0 s end.
Definition unsigned (s : string) : option Z := match s with String "+" s => digits s | _ => digits s end.

Definition parse_u64 (s : string) : option Z :=
  match unsigned s with Some n => if n <=? u64_max then Some n else None | None => None end.
Definition parse_i64 (s : string) : option Z :=
  match (match s with String "-" s => Z.opp <$> digits s | _ => unsigned s end) with
  | Some n => if (- 2 ^ 63 <=? n) && (n <=? 2 ^ 63 - 1) then Some n else None
  | None => None
  end.

Lemma digits_nonneg acc s n : 0 <= acc -> digits_value acc s = Some n -> acc <= n.
Proof.
  revert acc. induction s as [|c s IH]; intros acc Ha; cbn [digits_value]; [intros [= <-]; lia|].
  unfold digit. case_bool; [|done]. intros Hn. apply IH in Hn; bool_lia.
Qed.

Lemma parse_u64_range s n : parse_u64 s = Some n -> is_u64 n.
Proof.
  assert (Hd : forall t, digits t = Some n -> 0 <= n).
  { intros [|c t]; [done|]. cbn [digits]. intros H. apply digits_nonneg in H; lia. }
  unfold parse_u64. destruct (unsigned s) as [m|] eqn:E; [|done]. case_bool; [|done]. intros [= ->]. split; [|bool_lia].
  unfold unsigned in E. destruct s as [|c t]; [done|]. destruct c as [[] [] [] [] [] [] [] []]; by apply Hd in E.
Qed.

(** ** Prefixes and suffixes *)
Lemma str_length_app (a b : string) : String.length (a ++ b) = (String.length a + String.length b)%nat.
Proof. induction a as [|c a IH]; [done|]. rewrite str_cons. cbn. by rewrite IH. Qed.

Lemma starts_with_app p s : starts_with p s = true <-> exists t, s = (p ++ t)%string.
Proof.
  revert s. induction p as [|a p IH]; intros s; cbn [starts_with].
  - split; [by exists s | done].
  - destruct s as [|b s]; [split; [done | by intros [t [=]]]|].
    rewrite andb_true_iff, Ascii.eqb_eq, IH. split.
    + intros [-> [t ->]]. by exists t.
    + intros [t [= -> ->]]. eauto.
Qed.

Lemma strip_suffix_app p s t : strip_suffix p s = Some t -> s = (t ++ p)%string.
Proof.
  revert t. induction s as [|c s IH]; intros t; cbn [strip_suffix]; case_bool; to_prop; subst; try by intros [= <-].
  rewrite fmap_Some. intros (t' & H & ->). rewrite str_cons. f_equal. by apply IH.
Qed.

Lemma strip_suffix_of p t : strip_suffix p (t ++ p) = Some t.
Proof.
  induction t as [|c t IH].
  - rewrite str_nil. destruct p as [|c p]; cbn [strip_suffix]; by rewrite streqb_refl.
  - rewrite str_cons. cbn [strip_suffix]. case_bool; [|by rewrite IH].
    apply streqb_true in Heqb. apply (f_equal String.length) in Heqb.
    cbn in Heqb. rewrite str_length_app in Heqb. lia.
Qed.

Lemma has_char_app c a b : has_char c (a ++ b) = has_char c a || has_char c b.
Proof. induction a as [|d a IH]; [done|]. rewrite str_cons. cbn. rewrite IH. by rewrite orb_assoc. Qed.

(** * ASCII text

    On text of ASCII characters, positions of characters are positions of
    bytes, and what [split], [chars] and [trim] return is ASCII again. *)

#[local] Open Scope nat_scope.

(** ** Characters and bytes *)
Definition is_ascii (c : ascii) : bool := (nat_of_ascii c <? 128)%nat.
Fixpoint all_ascii (s : string) : bool := match s with EmptyString => true | String c s => is_ascii c && all_ascii s end.

Lemma chars_length s : length (chars s) <= String.length s.
Proof.
  induction s as [|c s IH]; [done|]. cbn [chars String.length].
  destruct (chars s) as [|[|d ch] rest]; cbn in *; [lia..|]. destruct (is_continuation d); cbn; lia.
Qed.

Lemma ascii_boundary c : is_ascii c = true -> is_continuation c = false.
Proof.
  unfold is_ascii, is_continuation, byte. rewrite Nat.ltb_lt. intros H. apply andb_false_iff. left. apply Z.leb_gt. lia.
Qed.

Lemma chars_ascii s : all_ascii s = true -> length (chars s) = String.length s.
Proof.
  induction s as [|c s IH]; [done|]. cbn [all_ascii]. intros [Hc Hs]%andb_true_iff. specialize (IH Hs). cbn [chars String.length].
  destruct s as [|d s]; [done|]. cbn [all_ascii] in Hs. apply andb_true_iff in Hs as [Hd _].
  destruct (chars (String d s)) as [|[|e ch] rest] eqn:E; cbn in *; [lia..|].
  assert (is_continuation e = false) as ->; [|cbn; lia].
  assert (He : e = d).
  { cbn [chars] in E. destruct (chars s) as [|[|x chx] r]; [injection E; congruence..|].
    destruct (is_continuation x); injection E; congruence. }
  subst e. by apply ascii_boundary.
Qed.

Lemma get_ascii s i c : all_ascii s = true -> String.get i s = Some c -> is_ascii c = true.
Proof.
  revert i. induction s as [|d s IH]; intros i; [by destruct i|]. cbn [all_ascii]. intros [Hd Hs]%andb_true_iff.
  destruct i; cbn; [by intros [= <-]|]. by apply IH.
Qed.
Lemma get_past s i : String.get i s = None -> String.length s <= i.
Proof.
  revert i. induction s as [|d s IH]; intros i; cbn; [lia|]. destruct i; [done|]. intros H%IH. lia.
Qed.
Lemma boundary_ascii s i : all_ascii s = true -> i <= String.length s -> is_char_boundary s i = true.
Proof.
  intros Hs Hi. unfold is_char_boundary. destruct (String.get i s) as [c|] eqn:E.
  - apply get_ascii in E; [|done]. by rewrite ascii_boundary.
  - apply get_past in E. apply Nat.eqb_eq. lia.
Qed.
Lemma slice_ascii s a b : all_ascii s = true -> a <= b <= String.length s -> slice s a b = Some (String.substring a (b - a) s).
Proof. intros Hs H. unfold slice. rewrite !boundary_ascii by (done || lia). destruct (Nat.leb_spec a b); [done|lia]. Qed.

Lemma substring_length a n s : String.length (String.substring a n s) <= n.
Proof.
  revert a n. induction s as [|c s IH]; intros [|a] [|n]; cbn; try lia; try apply IH. specialize (IH 0 n). lia.
Qed.
Lemma substring_ascii a n s : all_ascii s = true -> all_ascii (String.substring a n s) = true.
Proof.
  revert a n. induction s as [|c s IH]; intros [|a] [|n]; cbn; try done; intros [Hc Hs]%andb_true_iff; try by apply IH.
  by rewrite Hc, IH.
Qed.
Lemma substring_none a s : String.substring a 0 s = EmptyString.
Proof. revert a. induction s as [|c s IH]; intros [|a]; cbn; done. Qed.

(** Every character is a byte. *)
Lemma chars_bytes s : all_ascii s = true -> chars s = map (fun c => String c EmptyString) (String.list_ascii_of_string s).
Proof.
  induction s as [|c s IH]; [done|]. cbn [all_ascii]. intros [Hc Hs]%andb_true_iff. cbn [chars String.list_ascii_of_string map].
  rewrite (IH Hs). destruct s as [|d s]; [done|]. cbn [String.list_ascii_of_string map]. cbn [all_ascii] in Hs.
  apply andb_true_iff in Hs as [Hd _]. by rewrite ascii_boundary.
Qed.
Lemma list_ascii_app a b :
  String.list_ascii_of_string (a ++ b) = (String.list_ascii_of_string a ++ String.list_ascii_of_string b)%list.
Proof. induction a as [|c a IH]; [done|]. rewrite str_cons. cbn. by rewrite IH. Qed.
Lemma concat_ascii l : concat_str (map (fun c => String c EmptyString) l) = String.string_of_list_ascii l.
Proof. induction l as [|c l IH]; [done|]. cbn. f_equal. exact IH. Qed.

(** ** Parts of a text *)
Lemma ascii_app a b : all_ascii (a ++ b) = all_ascii a && all_ascii b.
Proof. induction a as [|c a IH]; [done|]. rewrite str_cons. cbn. by rewrite IH, andb_assoc. Qed.
Lemma ascii_split sep s : all_ascii s = true -> Forall (fun t => all_ascii t = true) (split sep s).
Proof.
  induction s as [|c s IH]; cbn [split all_ascii]; [by repeat constructor|]. intros [Hc Hs]%andb_true_iff. specialize (IH Hs).
  assert (Hone : all_ascii (String c EmptyString) = true) by (cbn [all_ascii]; by rewrite Hc).
  destruct (Ascii.eqb c sep); [by constructor|]. destruct (split sep s) as [|x l]; [by apply list.Forall_singleton|].
  apply list.Forall_cons in IH as [Hx Hl]. apply list.Forall_cons. split; [|done]. cbn [all_ascii]. by rewrite Hc.
Qed.
Lemma ascii_chars s : all_ascii s = true -> Forall (fun t => all_ascii t = true) (chars s).
Proof.
  induction s as [|c s IH]; cbn [chars all_ascii]; [constructor|]. intros [Hc Hs]%andb_true_iff. specialize (IH Hs).
  assert (Hone : all_ascii (String c EmptyString) = true) by (cbn [all_ascii]; by rewrite Hc).
  destruct (chars s) as [|ch rest]; [by apply list.Forall_singleton|]. apply list.Forall_cons in IH as [Hch Hr].
  destruct ch as [|d ch]; [apply list.Forall_cons; split; [done|]; by apply list.Forall_cons|].
  destruct (is_continuation d); apply list.Forall_cons; split; try done; [|by apply list.Forall_cons].
  change (all_ascii (String c (String d ch))) with (is_ascii c && all_ascii (String d ch)). by rewrite Hc.
Qed.
Lemma ascii_concat l : Forall (fun t => all_ascii t = true) l -> all_ascii (concat_str l) = true.
Proof.
  induction 1 as [|x l Hx _ IH]; [done|]. change (all_ascii (x ++ concat_str l) = true). by rewrite ascii_app, Hx, IH.
Qed.
Lemma skip_while_Forall {A} (p : A -> bool) (Q : A -> Prop) l : Forall Q l -> Forall Q (skip_while p l).
Proof. induction 1; cbn; [constructor|]. destruct (p x); [done | by constructor]. Qed.
Lemma ascii_trim s : all_ascii s = true -> all_ascii (trim s) = true.
Proof.
  intros H%ascii_chars. unfold trim, trim_matches. apply ascii_concat, Forall_rev, skip_while_Forall, Forall_rev.
  by apply skip_while_Forall.
Qed.

(** A separator is found right after a text without its first character. *)
Lemma find_after d sep s rest :
  (forall c, has_char c s = true -> c <> d) ->
  split_once_str (String d sep) (s ++ rest) =
    match split_once_str (String d sep) rest with Some (a, b) => Some ((s ++ a)%string, b) | None => None end.
Proof.
  induction s as [|c s IH]; intros H.
  { change (EmptyString ++ rest)%string with rest. by destruct (split_once_str (String d sep) rest) as [[]|]. }
  rewrite str_cons. cbn [split_once_str strip_prefix].
  destruct (Ascii.eqb_spec d c) as [->|_]; [exfalso; apply (H c); [cbn; by rewrite Ascii.eqb_refl|done]|].
  rewrite IH by (intros x Hx; apply H; cbn; rewrite Hx; apply orb_true_r).
  destruct (split_once_str _ rest) as [[a b]|]; [by rewrite str_cons|done].
Qed.
