(* ===== verification/SecurityContext.v ===== *)
(** * Who asks

    [security/security_context.rs]: the authenticated user a request carries,
    and [schema/security_config.rs]: the scopes that roles grant.  Times are
    seconds; [Utc::now()] is an argument. *)

From Stdlib Require Import Ascii.
From S2P Require Import Prelude Json Chars.
#[local] Open Scope Z_scope.

Record SecurityContext : Type := {
  user_id : string;
  roles : list string;
  tenant_id : option string;
  scopes : list string;
  attributes : gmap string json;
  request_id : string;
  ip_address : option string;
  authenticated_at : Z;
  expires_at : Z;
  issuer : option string;
  audience : option string
}.

Definition is_some {A} (o : option A) : bool := match o with Some _ => true | None => false end.
Definition member (x : string) (l : list string) : bool := existsb (String.eqb x) l.

(** ** [SecurityContext] *)
Definition has_role (ctx : SecurityContext) (role : string) : bool := existsb (fun r => r =s role) ctx.(roles).
Definition scope_grants (scope s : string) : bool :=
  (s =s scope) ||
  if is_some (strip_suffix ":" s) then starts_with s scope
  else match strip_suffix "*" s with Some prefix => starts_with prefix scope | None => false end.
Definition has_scope (ctx : SecurityContext) (scope : string) : bool := existsb (scope_grants scope) ctx.(scopes).
Definition get_attribute (ctx : SecurityContext) (key : string) : option json := ctx.(attributes) !! key.
Definition is_expired (now : Z) (ctx : SecurityContext) : bool := ctx.(expires_at) <=? now.
Definition ttl_secs (now : Z) (ctx : SecurityContext) : Z := ctx.(expires_at) - now.
Definition is_admin (ctx : SecurityContext) : bool := has_role ctx "admin".
Definition is_multi_tenant (ctx : SecurityContext) : bool := is_some ctx.(tenant_id).

(** ** Roles and the scopes they grant *)
Record RoleDefinition : Type := mkRole { role_name : string; role_scopes : list string }.
Record SecurityConfig : Type := mkSecurity {
  role_definitions : list RoleDefinition;
  default_role : option string;
  multi_tenant : bool
}.

(** One granted scope against the one required. *)
Definition covers (required scope : string) : bool :=
  (scope =s "*") || (scope =s required) ||
  match strip_suffix ":*" scope with
  | Some prefix => starts_with prefix required && has_char ":" required
  | None => match strip_suffix "*" scope with Some prefix => starts_with prefix required | None => false end
  end.
Definition role_has (role : RoleDefinition) (required : string) : bool := existsb (covers required) role.(role_scopes).
Definition find_role (c : SecurityConfig) (name : string) : option RoleDefinition :=
  find (fun r => r.(role_name) =s name) c.(role_definitions).
Definition get_role_scopes (c : SecurityConfig) (name : string) : list string :=
  match find_role c name with Some r => r.(role_scopes) | None => [] end.
Definition role_has_scope (c : SecurityConfig) (name scope : string) : bool :=
  match find_role c name with Some r => role_has r scope | None => false end.
Definition can_access_scope (ctx : SecurityContext) (c : SecurityConfig) (required : string) : bool :=
  existsb (fun role => role_has_scope c role required) ctx.(roles).

(** ** What a granted scope covers *)

(** A role's scope [p:*] covers every scope that begins with [p] and has a
    colon anywhere, not only those that begin with [p:]. *)
Lemma prefix_wildcard_reaches (p q r : string) (role : RoleDefinition) :
  (p ++ ":*")%string ∈ role.(role_scopes) -> role_has role (p ++ q ++ ":" ++ r) = true.
Proof.
  intros Hin. apply existsb_exists. exists (p ++ ":*")%string. split; [by apply list_elem_of_In|].
  unfold covers. rewrite strip_suffix_of. rewrite !orb_true_iff, andb_true_iff. right. split.
  - apply starts_with_app. by eexists.
  - rewrite !has_char_app. cbn. by rewrite !orb_true_r.
Qed.
