(* ===== verification/Checksum.v ===== *)
(** * Checksums

    [fraiseql-core/src/validation/checksum.rs]: the Luhn and MOD-97 checks.
    The character table of [str::to_uppercase] beyond ASCII is an argument;
    [None] is a panic. *)

From Stdlib Require Import Ascii.
From S2P Require Import Prelude Matcher Chars.
#[local] Open Scope Z_scope.

Definition is_ascii_digit (c : ascii) : bool := match digit c with Some _ => true | None => false end.
Definition is_ascii_alphanumeric (c : ascii) : bool := is_ascii_digit c || Casing.is_uppercase c || Casing.is_lowercase c.

(** ** [str::to_uppercase], one character at a time *)
Section Uppercase.
Context (to_uppercase_char : string -> string).
Definition uppercase_char (ch : string) : string :=
  match ch with String c EmptyString => String (Casing.to_upper c) EmptyString | _ => to_uppercase_char ch end.
Definition str_uppercase (s : string) : string := concat_str (map uppercase_char (chars s)).
End Uppercase.

(** ** Luhn *)
Module Luhn.
Definition MAX_LUHN_DIGITS : nat := 25.
Definition processed (is_second : bool) (digit : Z) : Z :=
  if is_second then let doubled := digit * 2 in if 9 <? doubled then doubled - 9 else doubled else digit.
(** The loop, from the last digit. *)
Fixpoint luhn_loop (sum : Z) (is_second : bool) (l : list Z) : Z :=
  match l with [] => sum | d :: l => luhn_loop (sum + processed is_second d) (negb is_second) l end.
Definition validate (value : string) : bool :=
  if (value =s "") || (MAX_LUHN_DIGITS <? String.length value)%nat then false
  else match mapM digit (String.list_ascii_of_string value) with
       | Some digits => luhn_loop 0 false (rev digits) mod 10 =? 0
       | None => false
       end.
Definition error_message : string := "Invalid checksum (Luhn algorithm)".
End Luhn.

(** ** MOD-97 *)
Module Mod97.
Definition MAX_MOD97_BYTES : nat := 34.
Definition letter_value (c : ascii) : Z := 10 + (byte c - 65).
(** A digit, or a letter as two; [None] is the early [false]. *)
Definition numeric_char (c : ascii) : option string :=
  if is_ascii_digit c then Some (String c EmptyString)
  else if Casing.is_uppercase c then
    let n := letter_value c in
    Some (String (ascii_of_nat (Z.to_nat (48 + n / 10))) (String (ascii_of_nat (Z.to_nat (48 + n mod 10))) EmptyString))
  else None.
Definition mod97_step (remainder : Z) (c : ascii) : Z :=
  match digit c with Some d => (remainder * 10 + d) mod 97 | None => remainder end.
Definition mod97 (numeric : string) : Z := foldl mod97_step 0 (String.list_ascii_of_string numeric).
(** The slices are taken of the upper case text, the bounds checked on the
    value. *)
Definition validate (to_uppercase_char : string -> string) (value : string) : option bool :=
  if (String.length value <? 4)%nat || (MAX_MOD97_BYTES <? String.length value)%nat then Some false
  else
    let value_upper := str_uppercase to_uppercase_char value in
    if forallb is_ascii_alphanumeric (String.list_ascii_of_string value_upper) then
      tail ← slice value_upper 4 (String.length value_upper);
      head ← slice value_upper 0 4;
      Some match mapM numeric_char (String.list_ascii_of_string (tail ++ head)) with
           | Some parts => mod97 (concat_str parts) =? 1
           | None => false
           end
    else Some false.
Definition error_message : string := "Invalid checksum (MOD-97 algorithm)".
End Mod97.

(** ** What Luhn detects *)
Module LuhnFacts.
Import Luhn.
Fixpoint luhn_sum (is_second : bool) (l : list Z) : Z :=
  match l with [] => 0 | d :: l => processed is_second d + luhn_sum (negb is_second) l end.
Lemma loop_sum sum s l : luhn_loop sum s l = sum + luhn_sum s l.
Proof. revert sum s. induction l as [|d l IH]; intros sum s; cbn; [lia|]. rewrite IH. lia. Qed.
Fixpoint flips (n : nat) (s : bool) : bool := match n with O => s | Datatypes.S n => flips n (negb s) end.
Lemma sum_app s l l' : luhn_sum s (l ++ l') = luhn_sum s l + luhn_sum (flips (length l) s) l'.
Proof. revert s. induction l as [|d l IH]; intros s; cbn; [lia|]. rewrite IH. lia. Qed.

Definition is_digit (d : Z) : Prop := 0 <= d <= 9.
Lemma on_digits (P : Z -> bool) : forallb P [0; 1; 2; 3; 4; 5; 6; 7; 8; 9] = true -> forall d, is_digit d -> P d = true.
Proof.
  intros H d Hd. rewrite forallb_forall in H. apply H. unfold is_digit in Hd. cbn.
  assert (d = 0 \/ d = 1 \/ d = 2 \/ d = 3 \/ d = 4 \/ d = 5 \/ d = 6 \/ d = 7 \/ d = 8 \/ d = 9) by lia. intuition.
Qed.
Lemma on_pairs (P : Z -> Z -> bool) :
  forallb (fun d => forallb (P d) [0; 1; 2; 3; 4; 5; 6; 7; 8; 9]) [0; 1; 2; 3; 4; 5; 6; 7; 8; 9] = true ->
  forall d e, is_digit d -> is_digit e -> P d e = true.
Proof. intros H d e Hd. apply on_digits. exact (on_digits _ H d Hd). Qed.

Lemma processed_inj s d e : is_digit d -> is_digit e -> processed s d mod 10 = processed s e mod 10 -> d = e.
Proof.
  intros Hd He H. pose proof (on_pairs (fun d e => implb (processed s d mod 10 =? processed s e mod 10) (d =? e))) as Hp.
  specialize (Hp ltac:(destruct s; reflexivity) d e Hd He). cbv beta in Hp. rewrite (proj2 (Z.eqb_eq _ _) H) in Hp. by apply Z.eqb_eq.
Qed.
(** Swapped neighbours give the same sum only when they are 0 and 9. *)
Definition blind (d e : Z) : bool := ((d =? 0) && (e =? 9)) || ((d =? 9) && (e =? 0)).
Lemma processed_swap s d e : is_digit d -> is_digit e ->
  ((processed s d + processed (negb s) e) mod 10 =? (processed s e + processed (negb s) d) mod 10) = (d =? e) || blind d e.
Proof.
  intros Hd He. apply Bool.eqb_prop. revert d e Hd He.
  apply (on_pairs (fun d e => Bool.eqb
    ((processed s d + processed (negb s) e) mod 10 =? (processed s e + processed (negb s) d) mod 10) ((d =? e) || blind d e))).
  by destruct s.
Qed.

Definition text (l : list Z) : string := String.string_of_list_ascii (map (fun d => ascii_of_nat (Z.to_nat (48 + d))) l).
Lemma digit_text d : is_digit d -> digit (ascii_of_nat (Z.to_nat (48 + d))) = Some d.
Proof.
  intros Hd. unfold digit, byte, is_digit in *. rewrite nat_ascii_embedding by lia. rewrite Z2Nat.id by lia.
  replace (48 + d - 48) with d by lia. destruct (Z.leb_spec 0 d), (Z.leb_spec d 9); (done || lia).
Qed.
Lemma digits_text l : Forall is_digit l -> mapM digit (String.list_ascii_of_string (text l)) = Some l.
Proof.
  intros H. unfold text. rewrite String.list_ascii_of_string_of_list_ascii. induction H as [|d l Hd _ IH]; [done|].
  cbn. rewrite digit_text by done. cbn. rewrite IH. done.
Qed.
Lemma text_length l : String.length (text l) = length l.
Proof. unfold text. induction l; [done|]. cbn. by f_equal. Qed.

Lemma validate_text l : Forall is_digit l ->
  validate (text l) = negb (length l =? 0)%nat && (length l <=? MAX_LUHN_DIGITS)%nat && (luhn_sum false (rev l) mod 10 =? 0).
Proof.
  intros H. unfold validate. rewrite digits_text, text_length, loop_sum by done.
  destruct l as [|d l]; [done|]. change (text (d :: l) =s "") with false. cbn [negb Nat.eqb length orb andb].
  destruct (Nat.ltb_spec MAX_LUHN_DIGITS (Datatypes.S (length l))), (Nat.leb_spec (Datatypes.S (length l)) MAX_LUHN_DIGITS); (done || lia).
Qed.

Lemma sum_around s a x b : luhn_sum s (rev (a ++ x ++ b)) =
  luhn_sum s (rev b) + luhn_sum (flips (length b) s) (rev x) + luhn_sum (flips (length (rev b ++ rev x)) s) (rev a).
Proof. rewrite !rev_app_distr. rewrite !sum_app. rewrite length_rev. lia. Qed.
Lemma mod_cancel a b x y : (a + x + b) mod 10 = 0 -> (a + y + b) mod 10 = 0 -> x mod 10 = y mod 10.
Proof.
  intros Hx Hy. apply Z.mod_divide in Hx as [q Hx]; [|lia]. apply Z.mod_divide in Hy as [r Hy]; [|lia].
  replace x with (y + (q - r) * 10) by lia. apply Z.mod_add. lia.
Qed.

Lemma two_digits x y : is_digit x -> is_digit y -> Forall is_digit [x; y].
Proof. intros Hx Hy. apply list.Forall_cons. split; [done|]. by apply list.Forall_singleton. Qed.

(** A valid number with one digit replaced is refused; with two neighbours
    swapped it is refused unless they are equal, or a 0 and a 9, when it is
    accepted. *)
Theorem luhn_detects a d e b : Forall is_digit (a ++ d :: e :: b) -> validate (text (a ++ d :: e :: b)) = true ->
  (forall d', is_digit d' -> d' <> d -> validate (text (a ++ d' :: e :: b)) = false) /\
  validate (text (a ++ e :: d :: b)) = (d =? e) || blind d e.
Proof.
  intros Hl. pose proof Hl as (Ha & [Hd [He Hb]%list.Forall_cons]%list.Forall_cons)%Forall_app.
  rewrite validate_text by done. intros [Hlen Hsum%Z.eqb_eq]%andb_true_iff.
  assert (Hother : forall x, length x = 2%nat -> Forall is_digit x -> validate (text (a ++ x ++ b)) =
    (luhn_sum false (rev (a ++ x ++ b)) mod 10 =? 0)).
  { intros x Hx Hxd. rewrite validate_text by (rewrite !Forall_app; done).
    replace (length (a ++ x ++ b)) with (length (a ++ d :: e :: b)) by (rewrite !length_app; cbn; lia). by rewrite Hlen. }
  change (a ++ d :: e :: b) with (a ++ [d; e] ++ b) in Hsum. rewrite (sum_around false a [d; e] b) in Hsum. cbn [rev app luhn_sum] in Hsum. split.
  - intros d' Hd' Hne. change (a ++ d' :: e :: b) with (a ++ [d'; e] ++ b). rewrite (Hother [d'; e]) by (done || by apply two_digits).
    apply Z.eqb_neq. intros H. rewrite (sum_around false a [d'; e] b) in H. cbn [rev app luhn_sum] in H.
    rewrite !length_app in *. cbn [length] in *. pose proof (mod_cancel _ _ _ _ Hsum H) as Hm.
    set (s := flips (length b) false) in *. apply Hne, (processed_inj (negb s)); [done..|].
    rewrite !Z.add_0_r in Hm.
    apply (mod_cancel (processed s e) (- (processed s e + processed (negb s) d))).
    + replace (processed s e + _ + _) with (((processed s e + processed (negb s) d') - (processed s e + processed (negb s) d))) by lia.
      rewrite Zminus_mod, Hm, Z.sub_diag. done.
    + replace (processed s e + _ + _) with 0 by lia. done.
  - change (a ++ e :: d :: b) with (a ++ [e; d] ++ b). rewrite (Hother [e; d]) by (done || by apply two_digits). rewrite <- (processed_swap (flips (length b) false)) by done.
    rewrite (sum_around false a [e; d] b). cbn [rev app luhn_sum]. rewrite !length_app in *. cbn [length] in *.
    set (s := flips (length b) false) in *. rewrite !Z.add_0_r in *.
    set (u := luhn_sum false (rev b)) in *. set (v := luhn_sum _ (rev a)) in *.
    set (x := processed s e + processed (negb s) d) in *. set (y := processed s d + processed (negb s) e) in *.
    apply eq_true_iff_eq. rewrite !Z.eqb_eq. split.
    + intros Hz. exact (mod_cancel _ _ _ _ Hz Hsum).
    + intros Hs. rewrite <- Hsum. rewrite (Z.add_mod (u + y)), (Z.add_mod (u + x)), (Z.add_mod u y), (Z.add_mod u x) by lia. by rewrite Hs.
Qed.
End LuhnFacts.

(** ** What MOD-97 computes, and detects *)
Module Mod97Facts.
Import Mod97.
Section Facts.
Context (to_uppercase_char : string -> string).

(** The number the text stands for: a digit for itself, a letter for two. *)
Definition char_value (c : ascii) : Z := match digit c with Some d => d | None => letter_value c end.
Definition width (c : ascii) : Z := if is_ascii_digit c then 10 else 100.
Fixpoint iban_value (acc : Z) (l : list ascii) : Z :=
  match l with [] => acc | c :: l => iban_value (width c * acc + char_value c) l end.
Definition rearranged {A} (l : list A) : list A := drop 4 l ++ take 4 l.
Definition upper (value : string) : list ascii := map Casing.to_upper (String.list_ascii_of_string value).
Definition alphanumeric (value : string) : bool := forallb is_ascii_alphanumeric (String.list_ascii_of_string value).

Definition on_bytes (P : ascii -> bool) : bool := forallb (fun n => P (ascii_of_nat n)) (seq 0 256).
Lemma all_bytes P : on_bytes P = true -> forall c, P c = true.
Proof.
  intros H c. unfold on_bytes in H. rewrite forallb_forall in H. rewrite <- (ascii_nat_embedding c). apply H.
  apply in_seq. pose proof (nat_ascii_bounded c). lia.
Qed.
Definition numeric_ok (c : ascii) : bool :=
  implb (is_ascii_alphanumeric c)
    (is_ascii c && is_ascii_alphanumeric (Casing.to_upper c) && is_ascii (Casing.to_upper c) &&
     match numeric_char (Casing.to_upper c) with
     | Some s => forallb (fun r => foldl mod97_step r (String.list_ascii_of_string s) =?
                                   (width (Casing.to_upper c) * r + char_value (Casing.to_upper c)) mod 97) (map Z.of_nat (seq 0 97))
     | None => false
     end).
Lemma numeric_char_ok c : is_ascii_alphanumeric c = true ->
  is_ascii c = true /\ is_ascii_alphanumeric (Casing.to_upper c) = true /\ is_ascii (Casing.to_upper c) = true /\
  exists s, numeric_char (Casing.to_upper c) = Some s /\ forall r, 0 <= r < 97 ->
    foldl mod97_step r (String.list_ascii_of_string s) = (width (Casing.to_upper c) * r + char_value (Casing.to_upper c)) mod 97.
Proof.
  intros Hc. pose proof (all_bytes numeric_ok ltac:(vm_compute; reflexivity) c) as H. unfold numeric_ok in H. rewrite Hc in H. cbn [implb] in H.
  apply andb_true_iff in H as [[[H1 H2]%andb_true_iff H3]%andb_true_iff H]. do 3 (split; [done|]).
  destruct (numeric_char (Casing.to_upper c)) as [s|]; [|done]. exists s. split; [done|]. intros r Hr.
  rewrite forallb_forall in H. apply Z.eqb_eq, H, in_map_iff. exists (Z.to_nat r). rewrite in_seq. lia.
Qed.

Lemma uppercase_alphanumeric value : alphanumeric value = true ->
  str_uppercase to_uppercase_char value = String.string_of_list_ascii (upper value) /\ all_ascii value = true /\
  forallb is_ascii_alphanumeric (upper value) = true /\ all_ascii (String.string_of_list_ascii (upper value)) = true.
Proof.
  unfold alphanumeric, upper. intros H. assert (Ha : all_ascii value = true).
  { induction value as [|c s IH]; [done|]. cbn [String.list_ascii_of_string forallb all_ascii] in *.
    apply andb_true_iff in H as [Hc H]. rewrite (IH H), andb_true_r. by apply numeric_char_ok. }
  split; [|split; [done|]].
  - unfold str_uppercase. rewrite (chars_bytes value Ha), map_map. rewrite <- concat_ascii, map_map. reflexivity.
  - clear Ha. induction value as [|c s IH]; [done|].
    cbn [String.list_ascii_of_string forallb map all_ascii String.string_of_list_ascii] in *. apply andb_true_iff in H as [Hc H].
    destruct (numeric_char_ok c Hc) as (_ & H1 & H2 & _), (IH H) as [H3 H4]. rewrite H1, H2, H3. done.
Qed.

Lemma mod97_list l r : Forall (fun c => is_ascii_alphanumeric c = true) l -> 0 <= r < 97 ->
  exists parts, mapM numeric_char (map Casing.to_upper l) = Some parts /\
  foldl mod97_step r (String.list_ascii_of_string (concat_str parts)) = iban_value r (map Casing.to_upper l) mod 97 /\
  forall r', r' mod 97 = r -> iban_value r' (map Casing.to_upper l) mod 97 = iban_value r (map Casing.to_upper l) mod 97.
Proof.
  intros H. revert r. induction H as [|c l Hc _ IH]; intros r Hr.
  - exists []. split; [done|]. cbn. rewrite Z.mod_small by lia. split; [done|]. by intros r' ->.
  - destruct (numeric_char_ok c Hc) as (_ & _ & _ & s & Hs & Hfold). set (u := Casing.to_upper c) in *.
    set (next := (width u * r + char_value u) mod 97). assert (Hn : 0 <= next < 97) by (apply Z.mod_pos_bound; lia).
    destruct (IH next Hn) as (parts & Hp & Hf & Hr'). exists (s :: parts).
    assert (Hi : forall z, z mod 97 = next -> iban_value z (map Casing.to_upper l) mod 97 = iban_value next (map Casing.to_upper l) mod 97)
      by exact Hr'.
    split; [|split].
    + cbn. fold u. rewrite Hs. cbn. by rewrite Hp.
    + cbn [concat_str foldr map iban_value]. change (foldr String.append EmptyString parts) with (concat_str parts).
      rewrite list_ascii_app, foldl_app, Hfold by done. fold u next. rewrite Hf. symmetry. by apply Hi.
    + intros r' <-. cbn [map iban_value]. fold u. rewrite (Hi (width u * (r' mod 97) + char_value u)) by done.
      apply Hi. unfold next. rewrite (Z.add_mod (width u * r')), (Z.add_mod (width u * (r' mod 97))) by lia. by rewrite Zmult_mod_idemp_r.
Qed.

Lemma substring_whole s : String.substring 0 (String.length s) s = s.
Proof. induction s as [|c s IH]; [done|]. cbn. by rewrite IH. Qed.
Lemma substring_drop n l : String.substring n (length l - n) (String.string_of_list_ascii l) = String.string_of_list_ascii (drop n l).
Proof.
  revert l. induction n as [|n IH]; intros l.
  - rewrite Nat.sub_0_r, drop_0. induction l as [|c l IHl]; [done|]. cbn. by rewrite IHl.
  - destruct l as [|c l]; [done|]. cbn. apply IH.
Qed.
Lemma substring_take n l : (n <= length l)%nat ->
  String.substring 0 n (String.string_of_list_ascii l) = String.string_of_list_ascii (take n l).
Proof.
  revert l. induction n as [|n IH]; intros [|c l] H; try done. cbn in *. f_equal. apply IH. lia.
Qed.
Lemma string_length l : String.length (String.string_of_list_ascii l) = length l.
Proof. induction l; [done|]. cbn. by f_equal. Qed.

(** On letters and digits the check never panics, and accepts exactly the
    texts whose number, with the first four characters moved to the end, is 1
    modulo 97. *)
Lemma validate_value value : alphanumeric value = true -> (4 <= String.length value <= MAX_MOD97_BYTES)%nat ->
  validate to_uppercase_char value = Some (iban_value 0 (rearranged (upper value)) mod 97 =? 1).
Proof.
  intros Ha Hl. destruct (uppercase_alphanumeric value Ha) as (Hu & _ & Hal & Hasc). unfold validate.
  destruct (Nat.ltb_spec (String.length value) 4); [lia|]. destruct (Nat.ltb_spec MAX_MOD97_BYTES (String.length value)); [lia|].
  cbn [orb]. rewrite Hu, String.list_ascii_of_string_of_list_ascii, Hal.
  assert (Hlen : length (upper value) = String.length value).
  { unfold upper. rewrite length_map. clear. induction value; [done|]. cbn. by f_equal. }
  rewrite !slice_ascii by (done || rewrite string_length; lia). cbn [mbind option_bind].
  rewrite string_length, substring_drop, Nat.sub_0_r, substring_take by lia.
  rewrite list_ascii_app, !String.list_ascii_of_string_of_list_ascii. fold (rearranged (upper value)).
  set (l := rearranged (String.list_ascii_of_string value)).
  assert (Hm : rearranged (upper value) = map Casing.to_upper l).
  { unfold rearranged, upper, l, rearranged. by rewrite map_app, !firstn_map, !skipn_map. }
  rewrite Hm. destruct (mod97_list l 0) as (parts & -> & Hf & _); [|lia|unfold mod97; by rewrite Hf].
  unfold alphanumeric in Ha. rewrite forallb_forall in Ha. apply list.Forall_forall. intros c Hc. apply Ha, list_elem_of_In.
  unfold l, rearranged in Hc. rewrite elem_of_app in Hc. destruct Hc as [Hc|Hc]; [rewrite <- (take_drop 4 (String.list_ascii_of_string value)), elem_of_app; by right | rewrite <- (take_drop 4 (String.list_ascii_of_string value)), elem_of_app; by left].
Qed.

Lemma iban_app r l l' : iban_value r (l ++ l') = iban_value (iban_value r l) l'.
Proof. revert r. induction l as [|c l IH]; intros r; [done|]. cbn. apply IH. Qed.
Lemma iban_shift l r z : exists k, iban_value (r + z) l = iban_value r l + z * 10 ^ Z.of_nat k.
Proof.
  revert r z. induction l as [|c l IH]; intros r z; cbn; [exists 0%nat; lia|].
  destruct (IH (width c * r + char_value c) (width c * z)) as [k Hk].
  replace (width c * (r + z) + char_value c) with (width c * r + char_value c + width c * z) by lia. rewrite Hk.
  unfold width. destruct (is_ascii_digit c).
  - exists (Datatypes.S k). rewrite Nat2Z.inj_succ, Z.pow_succ_r by lia. lia.
  - exists (Datatypes.S (Datatypes.S k)). rewrite !Nat2Z.inj_succ, !Z.pow_succ_r by lia. lia.
Qed.
Lemma power_no_factor z k : (z * 10 ^ Z.of_nat k) mod 97 = 0 -> z mod 97 = 0.
Proof.
  revert z. induction k as [|k IH]; intros z; [by rewrite Z.mul_1_r|].
  rewrite Nat2Z.inj_succ, Z.pow_succ_r by lia. rewrite Z.mul_assoc. intros H%IH.
  apply Z.mod_divide in H; [|lia]. apply Z.mod_divide; [lia|]. rewrite Z.mul_comm in H.
  apply (Z.gauss 97 10 z H). reflexivity.
Qed.

Lemma rearranged_around (a b : list ascii) : exists x y, forall c, rearranged (a ++ c :: b) = x ++ c :: y.
Proof.
  unfold rearranged. destruct (Nat.le_gt_cases 4 (length a)) as [H|H].
  - exists (drop 4 a), (b ++ take 4 a). intros c. rewrite take_app_le, drop_app_le by lia. by rewrite <- app_assoc.
  - exists (drop (3 - length a) b ++ a), (take (3 - length a) b). intros c.
    rewrite take_app_ge, drop_app_ge by lia. replace (4 - length a)%nat with (Datatypes.S (3 - length a)) by lia. cbn.
    by rewrite <- app_assoc.
Qed.

(** Characters of one class: two digits, or two letters. *)
Definition same_class (c d : ascii) : bool := Bool.eqb (is_ascii_digit c) (is_ascii_digit d).
Definition distinct_ok (c d : ascii) : bool :=
  let u := Casing.to_upper c in let v := Casing.to_upper d in
  implb (is_ascii_alphanumeric c && is_ascii_alphanumeric d && same_class c d && negb (Ascii.eqb u v))
    ((width u =? width v) && negb ((char_value u - char_value v) mod 97 =? 0)).
Lemma distinct_values c d : is_ascii_alphanumeric c = true -> is_ascii_alphanumeric d = true -> same_class c d = true ->
  Casing.to_upper c <> Casing.to_upper d -> width (Casing.to_upper c) = width (Casing.to_upper d) /\
  (char_value (Casing.to_upper c) - char_value (Casing.to_upper d)) mod 97 <> 0.
Proof.
  intros Hc Hd Hs Hn.
  pose proof (all_bytes (distinct_ok c) (all_bytes (fun c => on_bytes (distinct_ok c)) ltac:(vm_compute; reflexivity) c) d) as H.
  unfold distinct_ok in H. rewrite Hc, Hd, Hs, (proj2 (Ascii.eqb_neq _ _) Hn) in H. cbn in H.
  apply andb_true_iff in H as [Hw Hv]. split; [by apply Z.eqb_eq | by apply Z.eqb_neq, negb_true_iff].
Qed.

(** A valid number in which a digit is replaced by another digit, or a letter
    by another letter, is refused. *)
Theorem mod97_detects a c c' b : alphanumeric (a ++ String c b) = true -> is_ascii_alphanumeric c' = true ->
  same_class c c' = true -> Casing.to_upper c <> Casing.to_upper c' ->
  validate to_uppercase_char (a ++ String c b) = Some true -> validate to_uppercase_char (a ++ String c' b) = Some false.
Proof.
  intros Ha Hc' Hs Hn Hv. assert (Ha' : alphanumeric (a ++ String c' b) = true /\ is_ascii_alphanumeric c = true).
  { unfold alphanumeric in *. rewrite list_ascii_app, forallb_app in *. cbn in *.
    apply andb_true_iff in Ha as [H1 [H2 H3]%andb_true_iff]. by rewrite H1, Hc', H3. }
  destruct Ha' as [Ha' Hc]. assert (Hl : String.length (a ++ String c' b) = String.length (a ++ String c b))
    by (rewrite !str_length_app; done).
  assert (Hb : (4 <= String.length (a ++ String c b) <= MAX_MOD97_BYTES)%nat).
  { unfold validate in Hv. destruct (Nat.ltb_spec (String.length (a ++ String c b)) 4); [done|].
    destruct (Nat.ltb_spec MAX_MOD97_BYTES (String.length (a ++ String c b))); [done|lia]. }
  rewrite validate_value in * by (done || rewrite Hl; done). injection Hv as Hv%Z.eqb_eq. f_equal. apply Z.eqb_neq. intros Hv'.
  unfold upper in *. rewrite !list_ascii_app, !map_app in *. cbn [String.list_ascii_of_string map] in *.
  destruct (rearranged_around (map Casing.to_upper (String.list_ascii_of_string a)) (map Casing.to_upper (String.list_ascii_of_string b)))
    as (x & y & Hxy). rewrite !Hxy, !iban_app in *. cbn [iban_value] in *.
  destruct (distinct_values c c' Hc Hc' Hs Hn) as [Hw Hd]. rewrite <- Hw in Hv'.
  set (r := width _ * iban_value 0 x) in *. set (v := char_value (Casing.to_upper c)) in *. set (v' := char_value (Casing.to_upper c')) in *.
  destruct (iban_shift y (r + v') (v - v')) as [k Hk]. replace (r + v' + (v - v')) with (r + v) in Hk by lia.
  apply Hd, (power_no_factor _ k). rewrite Hk in Hv.
  replace ((v - v') * 10 ^ Z.of_nat k) with ((iban_value (r + v') y + (v - v') * 10 ^ Z.of_nat k) - iban_value (r + v') y) by lia.
  rewrite Zminus_mod, Hv, Hv'. reflexivity.
Qed.
End Facts.
End Mod97Facts.

(** ** Examples *)
Module ChecksumDemo.
(** The long s and the dotless i become one letter of ASCII each. *)
Definition long_s : string := bytes [197; 191]%nat.
Definition table (ch : string) : string := if ch =s long_s then "S" else ch.

Lemma luhn_detects_witness :
  Luhn.validate "79927398713" = true /\ Luhn.validate "79927398718" = false /\ Luhn.validate "79927398731" = false.
Proof.
  assert (Hd : Forall LuhnFacts.is_digit ([7; 9; 9; 2; 7; 3; 9; 8; 7] ++ 1 :: 3 :: [])).
  { apply list.Forall_forall. intros d Hd. unfold LuhnFacts.is_digit. cbn in Hd.
    repeat (apply list.elem_of_cons in Hd as [->|Hd]; [lia|]). by apply not_elem_of_nil in Hd. }
  destruct (LuhnFacts.luhn_detects [7; 9; 9; 2; 7; 3; 9; 8; 7] 1 3 [] Hd eq_refl) as [_ Hswap].
  split; [reflexivity|]. split; [reflexivity | exact Hswap].
Defined.
(** The neighbours 0 and 9 may be swapped. *)
Example blind_swap : Luhn.validate "091" = Luhn.validate "901" /\ Luhn.validate "09009" = Luhn.validate "90009".
Proof. vm_compute. done. Qed.

Lemma mod97_detects_witness :
  Mod97.validate table "GB82WEST12345698765432" = Some true /\ Mod97.validate table "GB82WEST12345698765433" = Some false.
Proof.
  split; [vm_compute; reflexivity|].
  apply (Mod97Facts.mod97_detects table "GB82WEST1234569876543" "2" "3" "");
    [reflexivity | reflexivity | reflexivity | discriminate | vm_compute; reflexivity].
Defined.
(** Four bytes of long s are two letters in upper case: the slice of the first
    four panics. *)
Example short_in_upper_case : Mod97.validate table (long_s ++ long_s) = None.
Proof. vm_compute. reflexivity. Qed.
End ChecksumDemo.
