(* ===== verification/DateValidators.v ===== *)
(** * Dates

    [fraiseql-core/src/validation/date_validators.rs]: dates as year, month and
    day; today's date is an argument.  Subtractions of [u32] wrap, as in a
    build without overflow checks. *)

From Stdlib Require Import Ascii.
From stdpp Require Import pretty.
From S2P Require Import Prelude WhereClause Chars.
#[local] Open Scope Z_scope.

Definition invalid_date (m : string) : FraiseQLError := Validation (Text m) None.
Definition parse_u32 (s : string) : option Z :=
  match unsigned s with Some n => if n <=? u32_max then Some n else None | None => None end.

Definition is_leap_year (year : Z) : bool :=
  ((year mod 4 =? 0) && negb (year mod 100 =? 0)) || (year mod 400 =? 0).
Definition get_days_in_month (month year : Z) : Z :=
  if existsb (Z.eqb month) [1; 3; 5; 7; 8; 10; 12] then 31
  else if existsb (Z.eqb month) [4; 6; 9; 11] then 30
  else if month =? 2 then (if is_leap_year year then 29 else 28)
  else 0.

Record Date : Type := mkDate { year : Z; month : Z; day : Z }.
Definition parse_date (date_str : string) : result FraiseQLError Date :=
  match split "-" date_str with
  | [y; m; d] =>
      year ← ok_or (parse_u32 y) (invalid_date ("Invalid year: '" ++ y ++ "'"));
      month ← ok_or (parse_u32 m) (invalid_date ("Invalid month: '" ++ m ++ "'"));
      day ← ok_or (parse_u32 d) (invalid_date ("Invalid day: '" ++ d ++ "'"));
      if negb ((1 <=? month) && (month <=? 12)) then
        Err (invalid_date ("Month must be between 1 and 12, got " ++ pretty month))
      else
        let days_in_month := get_days_in_month month year in
        if negb ((1 <=? day) && (day <=? days_in_month)) then
          Err (invalid_date ("Day must be between 1 and " ++ pretty days_in_month ++ ", got " ++ pretty day))
        else Ok (mkDate year month day)
  | _ => Err (invalid_date ("Invalid date format: '" ++ date_str ++ "'. Expected YYYY-MM-DD"))
  end.

Definition compare_dates (l r : Date) : Z :=
  match l.(year) ?= r.(year) with
  | Lt => -1 | Gt => 1
  | Eq => match l.(month) ?= r.(month) with
          | Lt => -1 | Gt => 1
          | Eq => match l.(day) ?= r.(day) with Lt => -1 | Gt => 1 | Eq => 0 end
          end
  end.
(** Every month counts 31 days, and twelve months one year of 365. *)
Definition day_count (d : Date) : Z := d.(year) * 365 + d.(month) * 31 + d.(day).
Definition days_between (l r : Date) : Z := day_count l - day_count r.

Definition validate_min_date (date_str min_date_str : string) : result FraiseQLError unit :=
  date ← parse_date date_str;
  min_date ← parse_date min_date_str;
  if compare_dates date min_date <? 0 then Err (invalid_date ("Date '" ++ date_str ++ "' must be >= '" ++ min_date_str ++ "'")) else Ok tt.
Definition validate_max_date (date_str max_date_str : string) : result FraiseQLError unit :=
  date ← parse_date date_str;
  max_date ← parse_date max_date_str;
  if 0 <? compare_dates date max_date then Err (invalid_date ("Date '" ++ date_str ++ "' must be <= '" ++ max_date_str ++ "'")) else Ok tt.
Definition validate_date_range (date_str min_date_str max_date_str : string) : result FraiseQLError unit :=
  _ ← validate_min_date date_str min_date_str;
  validate_max_date date_str max_date_str.

Section Today.
Context (today : Date).
Definition age_at (birth : Date) : Z :=
  let age := u32_wrap (today.(year) - birth.(year)) in
  if (today.(month) <? birth.(month)) || ((today.(month) =? birth.(month)) && (today.(day) <? birth.(day)))
  then u32_wrap (age - 1) else age.
Definition validate_min_age (date_str : string) (min_age : Z) : result FraiseQLError unit :=
  birth_date ← parse_date date_str;
  let age := age_at birth_date in
  if age <? min_age then
    Err (invalid_date ("Age must be at least " ++ pretty min_age ++ " years old, got " ++ pretty age)) else Ok tt.
Definition validate_max_age (date_str : string) (max_age : Z) : result FraiseQLError unit :=
  birth_date ← parse_date date_str;
  let age := age_at birth_date in
  if max_age <? age then
    Err (invalid_date ("Age must be at most " ++ pretty max_age ++ " years old, got " ++ pretty age)) else Ok tt.
Definition validate_max_days_in_future (date_str : string) (max_days : Z) : result FraiseQLError unit :=
  date ← parse_date date_str;
  if max_days <? days_between date today then
    Err (invalid_date ("Date '" ++ date_str ++ "' cannot be more than " ++ pretty max_days ++ " days in the future")) else Ok tt.
Definition validate_max_days_in_past (date_str : string) (max_days : Z) : result FraiseQLError unit :=
  date ← parse_date date_str;
  if max_days <? days_between today date then
    Err (invalid_date ("Date '" ++ date_str ++ "' cannot be more than " ++ pretty max_days ++ " days in the past")) else Ok tt.
End Today.

(** ** The calendar *)
Definition valid_date (d : Date) : Prop :=
  is_u32 d.(year) /\ 1 <= d.(month) <= 12 /\ 1 <= d.(day) <= get_days_in_month d.(month) d.(year).
(** Days before the first of the month, and before the first of the year, in
    the Gregorian calendar. *)
Definition days_before_month (m y : Z) : Z :=
  fold_left (fun n k => n + get_days_in_month (Z.of_nat k) y) (seq 1 (Z.to_nat (m - 1))) 0.
Definition leap_years_before (y : Z) : Z := (y + 3) / 4 - (y + 99) / 100 + (y + 399) / 400.
Definition day_number (d : Date) : Z :=
  365 * d.(year) + leap_years_before d.(year) + days_before_month d.(month) d.(year) + d.(day).

Lemma parse_date_valid s d : parse_date s = Ok d -> valid_date d.
Proof.
  unfold parse_date. destruct (split "-" s) as [|y [|m [|dd [|]]]]; try done.
  destruct (parse_u32 y) as [yy|] eqn:Hy; [|done]. destruct (parse_u32 m) as [mm|]; [|done]. destruct (parse_u32 dd) as [dy|]; [|done].
  cbn [ok_or mbind result_bind]. repeat (case_bool; [done|]). intros [= <-]. unfold valid_date. cbn.
  assert (Hu : forall t n, parse_u32 t = Some n -> is_u32 n).
  { intros t n Ht. unfold parse_u32 in Ht. destruct (unsigned t) as [k|] eqn:E; [|done].
    destruct (Z.leb_spec k u32_max) as [Hk|]; [|done]. injection Ht as ->.
    assert (Hp : parse_u64 t = Some n).
    { unfold parse_u64. rewrite E. destruct (Z.leb_spec n u64_max); [done|]. unfold u32_max, u64_max in *. lia. }
    apply parse_u64_range in Hp. unfold is_u32, is_u64 in *. lia. }
  apply Hu in Hy. split; [done|]. bool_lia.
Qed.

(** A month starts where the ones before it end. *)
Lemma month_after m m' y : 1 <= m -> m < m' <= 12 -> days_before_month m y + get_days_in_month m y <= days_before_month m' y.
Proof.
  intros Hm Hlt. assert (H : forallb (fun b => forallb (fun i => forallb (fun j => implb (Nat.ltb i j)
    (days_before_month (Z.of_nat i) b + get_days_in_month (Z.of_nat i) b <=? days_before_month (Z.of_nat j) b))
    (seq 1 12)) (seq 1 12)) [0; 1] = true) by (vm_compute; reflexivity).
  assert (Hsame : forall k b, is_leap_year y = is_leap_year b -> get_days_in_month k y = get_days_in_month k b).
  { intros k b Hb. unfold get_days_in_month. by rewrite Hb. }
  assert (Hb : exists b, In b [0; 1] /\ is_leap_year y = is_leap_year b).
  { destruct (is_leap_year y) eqn:E; [exists 0 | exists 1]; cbn; auto. }
  destruct Hb as (b & Hb & Hy).
  assert (Hm' : forall k, days_before_month k y = days_before_month k b).
  { intros k. unfold days_before_month. generalize 0. induction (seq 1 (Z.to_nat (k - 1))) as [|i l IH]; intros n; [done|].
    cbn. by rewrite (Hsame _ b Hy). }
  rewrite !Hm', (Hsame _ b Hy). rewrite forallb_forall in H. specialize (H b Hb). rewrite forallb_forall in H.
  specialize (H (Z.to_nat m)). rewrite in_seq in H. specialize (H ltac:(lia)). rewrite forallb_forall in H.
  specialize (H (Z.to_nat m')). rewrite in_seq in H. specialize (H ltac:(lia)). rewrite !Z2Nat.id in H by lia.
  destruct (Nat.ltb_spec (Z.to_nat m) (Z.to_nat m')); [|lia]. cbn [implb] in H. by apply Z.leb_le.
Qed.

Lemma month_ends m y : 1 <= m <= 12 -> days_before_month m y + get_days_in_month m y <= 365 + b2z (is_leap_year y).
Proof.
  intros Hm. assert (Hy : days_before_month 12 y + 31 = 365 + b2z (is_leap_year y)).
  { unfold days_before_month. cbn. unfold get_days_in_month. cbn. by destruct (is_leap_year y). }
  destruct (Z.eq_dec m 12) as [->|Hne]; [rewrite <- Hy; done|]. pose proof (month_after m 12 y). lia.
Qed.
Lemma leap_step y : leap_years_before (y + 1) = leap_years_before y + b2z (is_leap_year y).
Proof.
  unfold leap_years_before, is_leap_year. destruct (Z.eqb_spec (y mod 4) 0), (Z.eqb_spec (y mod 100) 0), (Z.eqb_spec (y mod 400) 0);
    cbn [andb orb negb b2z]; Z.to_euclidean_division_equations; lia.
Qed.
Lemma leap_mono y n : 0 <= n -> leap_years_before y <= leap_years_before (y + n).
Proof.
  revert n. apply natlike_ind; [by rewrite Z.add_0_r|]. intros n Hn IH. rewrite <- Z.add_succ_comm.
  replace (Z.succ y + n) with (y + n + 1) by lia. rewrite leap_step. destruct (is_leap_year (y + n)); cbn; lia.
Qed.
Lemma year_after y y' : y < y' -> 365 * y + leap_years_before y + 365 + b2z (is_leap_year y) <= 365 * y' + leap_years_before y'.
Proof.
  intros Hy. pose proof (leap_mono (y + 1) (y' - (y + 1)) ltac:(lia)) as H. replace (y + 1 + (y' - (y + 1))) with y' in H by lia.
  rewrite leap_step in H. lia.
Qed.
Lemma before_nonneg m y : 1 <= m <= 12 -> 0 <= days_before_month m y.
Proof.
  intros Hm. destruct (Z.eq_dec m 1) as [->|Hne]; [done|]. pose proof (month_after 1 m y).
  change (days_before_month 1 y) with 0 in *. change (get_days_in_month 1 y) with 31 in *. lia.
Qed.

(** The order the code uses is that of the days of the calendar. *)
Lemma compare_calendar d e : valid_date d -> valid_date e -> compare_dates d e = Z.sgn (day_number d - day_number e).
Proof.
  destruct d as [y m n], e as [y' m' n']. intros (_ & Hm & Hn) (_ & Hm' & Hn'). unfold compare_dates, day_number. cbn [year month day] in *.
  pose proof (month_ends m y Hm). pose proof (month_ends m' y' Hm'). pose proof (before_nonneg m y Hm). pose proof (before_nonneg m' y' Hm').
  destruct (Z.compare_spec y y') as [<-|Hy|Hy].
  - destruct (Z.compare_spec m m') as [<-|Hlt|Hlt].
    + destruct (Z.compare_spec n n') as [<-|Hlt|Hlt]; lia.
    + pose proof (month_after m m' y). lia.
    + pose proof (month_after m' m y). lia.
  - pose proof (year_after y y' Hy). lia.
  - pose proof (year_after y' y Hy). lia.
Qed.

(** A minimum, a maximum and a range accept exactly the dates of the calendar
    that are on the right side of their bounds; text that is not a date is
    refused. *)
Theorem date_bounds_exact s lo hi :
  validate_date_range s lo hi = Ok tt <->
  exists d a b, parse_date s = Ok d /\ parse_date lo = Ok a /\ parse_date hi = Ok b /\ day_number a <= day_number d <= day_number b.
Proof.
  unfold validate_date_range, validate_min_date, validate_max_date.
  destruct (parse_date s) as [d|] eqn:Hd; [|by split; [|intros (? & ? & ? & [=] & _)]].
  destruct (parse_date lo) as [a|] eqn:Ha; [|by split; [|intros (? & ? & ? & _ & [=] & _)]].
  apply parse_date_valid in Hd, Ha. cbn [mbind result_bind]. rewrite (compare_calendar d a) by done.
  destruct (Z.ltb_spec (Z.sgn (day_number d - day_number a)) 0) as [Hlt|Hge]; cbn [mbind result_bind].
  - split; [done|]. intros (d' & a' & b & [= <-] & [= <-] & _ & H). lia.
  - destruct (parse_date hi) as [b|] eqn:Hb; [|by split; [|intros (? & ? & ? & _ & _ & [=] & _)]].
    apply parse_date_valid in Hb. cbn [mbind result_bind]. rewrite (compare_calendar d b) by done.
    destruct (Z.ltb_spec 0 (Z.sgn (day_number d - day_number b))) as [Hlt|Hle].
    + split; [done|]. intros (d' & a' & b' & [= <-] & [= <-] & [= <-] & H). lia.
    + split; [|done]. intros _. exists d, a, b. repeat (split; [done|]). lia.
Qed.

(** ** Days and ages *)

(** The count of days goes back six days at each new year: the first of
    January is in the past of the day before. *)
Theorem new_year_in_the_past y : days_between (mkDate (y + 1) 1 1) (mkDate y 12 31) = -6.
Proof. unfold days_between, day_count. cbn. lia. Qed.

(** For a birth up to today the age is the number of birthdays since. *)
Theorem age_counts_birthdays today birth : valid_date today -> valid_date birth -> day_number birth <= day_number today ->
  let age := age_at today birth in
  0 <= age /\
  compare_dates (mkDate (birth.(year) + age) birth.(month) birth.(day)) today <= 0 /\
  0 < compare_dates (mkDate (birth.(year) + (age + 1)) birth.(month) birth.(day)) today.
Proof.
  destruct today as [y m d], birth as [y' m' d']. intros Ht Hb Hle age.
  assert (Hc : compare_dates (mkDate y' m' d') (mkDate y m d) <= 0) by (rewrite compare_calendar by done; lia).
  destruct Ht as (Hy & _), Hb as (Hy' & _). unfold is_u32, u32_max in *.
  assert (Ha : age = if (m <? m') || ((m =? m') && (d <? d')) then y - y' - 1 else y - y').
  { unfold compare_dates in Hc. unfold age, age_at, u32_wrap. cbn [year month day] in *.
    rewrite (Z.mod_small (y - y')) by (destruct (Z.compare_spec y' y); lia).
    destruct ((m <? m') || _) eqn:E; [|done]. apply Z.mod_small. destruct (Z.compare_spec y' y) as [->|H|H]; [|lia..].
    exfalso. destruct (Z.compare_spec m' m) as [->|H|H], (Z.compare_spec d' d); bool_lia. }
  clearbody age. subst age. unfold compare_dates in *. cbn [year month day] in *.
  destruct ((m <? m') || ((m =? m') && (d <? d'))) eqn:E.
  - replace (y' + (y - y' - 1)) with (y - 1) by lia. replace (y' + (y - y' - 1 + 1)) with y by lia.
    destruct (Z.compare_spec (y - 1) y), (Z.compare_spec y y), (Z.compare_spec m' m), (Z.compare_spec d' d),
      (Z.compare_spec y' y); bool_lia.
  - replace (y' + (y - y')) with y by lia. replace (y' + (y - y' + 1)) with (y + 1) by lia.
    destruct (Z.compare_spec (y + 1) y), (Z.compare_spec y y), (Z.compare_spec m' m), (Z.compare_spec d' d),
      (Z.compare_spec y' y); bool_lia.
Qed.

(** ** Examples *)
Module DateDemo.
Definition newyear : Date := mkDate 2026 1 1.
Lemma date_bounds_exact_witness : validate_date_range "2024-02-29" "2024-02-29" "2024-03-01" = Ok tt.
Proof.
  apply date_bounds_exact. exists (mkDate 2024 2 29), (mkDate 2024 2 29), (mkDate 2024 3 1).
  do 3 (split; [vm_compute; reflexivity|]). vm_compute. split; discriminate.
Defined.
Lemma age_counts_birthdays_witness : age_at newyear (mkDate 2007 12 31) = 18 /\
  0 < compare_dates (mkDate (2007 + 19) 12 31) newyear.
Proof.
  assert (Ht : valid_date newyear) by (unfold valid_date, is_u32, u32_max; vm_compute; intuition discriminate).
  assert (Hb : valid_date (mkDate 2007 12 31)) by (unfold valid_date, is_u32, u32_max; vm_compute; intuition discriminate).
  split; [vm_compute; reflexivity|].
  apply (age_counts_birthdays newyear (mkDate 2007 12 31) Ht Hb). vm_compute. discriminate.
Defined.

(** On the last day of a year, no date of the next January is in the future. *)
Example january_not_future : validate_max_days_in_future (mkDate 2025 12 31) "2026-01-06" 0 = Ok tt.
Proof. vm_compute. reflexivity. Qed.
(** The day after the end of February is four days later. *)
Example march_is_far : days_between (mkDate 2026 3 1) (mkDate 2026 2 28) = 4.
Proof. reflexivity. Qed.
(** A birth to come is old enough for any minimum. *)
Example unborn_is_old : validate_min_age newyear "2030-05-05" 18 = Ok tt /\ validate_min_age newyear "2026-05-05" 18 = Ok tt.
Proof. vm_compute. done. Qed.
Example no_padding_needed : parse_date "+2026-1-+1" = Ok (mkDate 2026 1 1).
Proof. vm_compute. reflexivity. Qed.
End DateDemo.
