(* ===== verification/ValidationRules.v ===== *)
(** * Validation rules

    [fraiseql-core/src/validation/]: [rules.rs], [validators.rs],
    [composite.rs], [mutual_exclusivity.rs], [input_object.rs],
    [cross_field.rs] and [inheritance.rs], and [runtime/input_validator.rs].
    The [regex] package and the printer of JSON are arguments. *)

From Stdlib Require Import Ascii.
From stdpp Require Import pretty.
From S2P Require Import Prelude Json WhereClause Chars.
#[local] Open Scope Z_scope.

(** ** [ValidationRule] *)
Inductive ValidationRule : Type :=
| Required
| Pattern (pattern : string) (message : option string)
| Length (min max : option Z)
| Range (min max : option Z)
| Enum (values : list string)
| Checksum (algorithm : string)
| CrossField (field operator : string)
| Conditional (condition : string) (then_rules : list ValidationRule)
| All (rules : list ValidationRule)
| Any (rules : list ValidationRule)
| OneOf (fields : list string)
| AnyOf (fields : list string)
| ConditionalRequired (if_field_present : string) (then_required : list string)
| RequiredIfAbsent (absent_field : string) (then_required : list string)
| Email
| Phone.
Definition is_required (r : ValidationRule) : bool := match r with Required => true | _ => false end.

(** The texts for a minimum and a maximum, of a description and of an error. *)
Definition between (what : string) (min max : option Z) (none : string) : string :=
  match min, max with
  | Some m, Some x => what ++ " between " ++ pretty m ++ " and " ++ pretty x
  | Some m, None => what ++ " at least " ++ pretty m
  | None, Some x => what ++ " at most " ++ pretty x
  | None, None => none
  end.
Definition description (r : ValidationRule) : string :=
  match r with
  | Required => "Field is required"
  | Pattern _ message => default "Must match pattern" message
  | Length min max => between "Length" min max "Length constraint"
  | Range min max => between "Value" min max "Range constraint"
  | Enum values => "Must be one of: " ++ join ", " values
  | Checksum algorithm => "Invalid " ++ algorithm
  | CrossField field operator => "Must be " ++ operator ++ " " ++ field
  | Conditional _ _ => "Conditional validation"
  | All _ => "All rules must pass"
  | Any _ => "At least one rule must pass"
  | OneOf fields => "Exactly one of these must be provided: " ++ join ", " fields
  | AnyOf fields => "At least one of these must be provided: " ++ join ", " fields
  | ConditionalRequired field required => "If '" ++ field ++ "' is provided, then " ++ join ", " required ++ " must be provided"
  | RequiredIfAbsent field required => "If '" ++ field ++ "' is absent, then " ++ join ", " required ++ " must be provided"
  | Email => "Must be a valid email address"
  | Phone => "Must be a valid E.164 phone number (e.g. +14155552671)"
  end%string.

Record ValidationFieldError : Type := mkFieldError { error_field : string; rule_type : string; field_message : string }.
Definition field_error_text (e : ValidationFieldError) : string :=
  e.(error_field) ++ " (" ++ e.(rule_type) ++ "): " ++ e.(field_message).
Definition invalid (m : string) (path : option string) : FraiseQLError := Validation (Text m) path.
Definition field_failed (field rule_type m : string) : FraiseQLError :=
  invalid ("Field validation failed: " ++ field_error_text (mkFieldError field rule_type m)) (Some field).

(** ** [validators.rs] *)
Definition within (min max : option Z) (n : Z) : bool :=
  match min with Some m => m <=? n | None => true end && match max with Some x => n <=? x | None => true end.
Definition byte_len (s : string) : Z := Z.of_nat (String.length s).
Definition validate_length (min max : option Z) (value : string) : bool := within min max (byte_len value).
Definition validate_range (min max : option Z) (value : Z) : bool := within min max value.
Definition length_message (min max : option Z) : string := between "Length must be" min max "Length validation failed".
Definition range_message (min max : option Z) : string := between "Value must be" min max "Range validation failed".

Section Rules.
(** [Regex::new], with the text of its error. *)
Context (regex : string -> result string (string -> bool)).

(** What [create_validator_from_rule] makes. *)
Inductive Validator : Type :=
| PatternValidator (matches : string -> bool) (message : string)
| LengthValidator (min max : option Z)
| EnumValidator (allowed_values : gset string)
| RequiredValidator.
Definition invalid_regex (e : string) : FraiseQLError := validation ("Invalid regex pattern: " ++ e).
Definition new_pattern (pattern message : string) : result FraiseQLError Validator :=
  match regex pattern with Ok re => Ok (PatternValidator re message) | Err e => Err (invalid_regex e) end.
Definition new_default_message (pattern : string) : result FraiseQLError Validator :=
  new_pattern pattern ("Value must match pattern: " ++ pattern).
Definition run_validator (v : Validator) (value field : string) : result FraiseQLError unit :=
  match v with
  | PatternValidator matches message => if matches value then Ok tt else Err (field_failed field "pattern" message)
  | LengthValidator min max => if validate_length min max value then Ok tt else Err (field_failed field "length" (length_message min max))
  | EnumValidator allowed =>
      if bool_decide (value ∈ allowed) then Ok tt
      else Err (field_failed field "enum" ("Must be one of: " ++ join ", " (str_sort (elements allowed))))
  | RequiredValidator => match value with EmptyString => Err (field_failed field "required" "Field is required") | _ => Ok tt end
  end.
Definition EMAIL_PATTERN : string :=
  "^[a-zA-Z0-9.!#$%&'*+/=?^_`{|}~-]+@[a-zA-Z0-9](?:[a-zA-Z0-9-]{0,61}[a-zA-Z0-9])?(?:\.[a-zA-Z0-9](?:[a-zA-Z0-9-]{0,61}[a-zA-Z0-9])?)+$".
Definition PHONE_E164_PATTERN : string := "^\+[1-9]\d{6,14}$".
Definition ok {E A} (r : result E A) : option A := match r with Ok a => Some a | Err _ => None end.
Definition create_validator_from_rule (rule : ValidationRule) : option Validator :=
  match rule with
  | Pattern pattern message => ok (new_pattern pattern (default "Pattern mismatch" message))
  | Length min max => Some (LengthValidator min max)
  | Enum values => Some (EnumValidator (list_to_set values))
  | Required => Some RequiredValidator
  | Email => ok (new_pattern EMAIL_PATTERN "Invalid email address format")
  | Phone => ok (new_pattern PHONE_E164_PATTERN "Invalid E.164 phone number (expected +<country><number>)")
  | _ => None
  end%string.

(** ** [composite.rs] *)
Definition validate_single_rule (rule : ValidationRule) (field_value field_name : string) : result FraiseQLError unit :=
  let fail m := Err (invalid m (Some field_name)) in
  match rule with
  | Required => match field_value with EmptyString => fail ("Field '" ++ field_name ++ "' is required") | _ => Ok tt end
  | Pattern pattern message =>
      match regex pattern with
      | Ok matches =>
          if matches field_value then Ok tt
          else fail (default ("'" ++ field_name ++ "' must match pattern: " ++ pattern) message)
      | Err _ => Ok tt
      end
  | Length min max =>
      let len := byte_len field_value in
      match (match min with Some m => if (len <? m)%Z then Some m else None | None => None end) with
      | Some m => fail ("'" ++ field_name ++ "' must be at least " ++ pretty m ++ " characters")
      | None =>
          match (match max with Some x => if (x <? len)%Z then Some x else None | None => None end) with
          | Some x => fail ("'" ++ field_name ++ "' must be at most " ++ pretty x ++ " characters")
          | None => Ok tt
          end
      end
  | Enum values =>
      if existsb (String.eqb field_value) values then Ok tt
      else fail ("'" ++ field_name ++ "' must be one of: " ++ join ", " values)
  | _ => Ok tt
  end%string.

(** [Display] of the errors of a single rule. *)
Definition shown (e : FraiseQLError) : string :=
  match e with Validation (Text m) _ => "Validation error: " ++ m | _ => "" end.
Definition failures (rules : list ValidationRule) (value name : string) : list string :=
  omap (fun r => match validate_single_rule r value name with Err e => Some (shown e) | Ok _ => None end) rules.
Definition validate_all (rules : list ValidationRule) (value name : string) : result FraiseQLError unit :=
  match failures rules value name with
  | [] => Ok tt
  | errors => Err (invalid ("All validators must pass for '" ++ name ++ "': " ++ join "; " errors) (Some name))
  end.
Definition validate_any (rules : list ValidationRule) (value name : string) : result FraiseQLError unit :=
  if existsb (fun r => is_ok (validate_single_rule r value name)) rules then Ok tt
  else Err (invalid ("At least one validator must pass for '" ++ name ++ "': " ++ join "; " (failures rules value name)) (Some name)).
Definition validate_not (rule : ValidationRule) (value name : string) : result FraiseQLError unit :=
  match validate_single_rule rule value name with
  | Ok _ => Err (invalid ("Validator for '" ++ name ++ "' must fail but passed") (Some name))
  | Err _ => Ok tt
  end.
Definition validate_optional (rule : ValidationRule) (value name : string) (is_present : bool) : result FraiseQLError unit :=
  if is_present then validate_single_rule rule value name else Ok tt.

Inductive CompositeOperator : Type := OpAll | OpAny | OpNot | OpOptional.
Definition operator_text (o : CompositeOperator) : string :=
  match o with
  | OpAll => "All validators must pass" | OpAny => "At least one validator must pass"
  | OpNot => "Validator must fail" | OpOptional => "Optional validation"
  end.
Record CompositeError : Type := mkComposite { operator : CompositeOperator; composite_errors : list string; composite_field : string }.
Definition composite_text (e : CompositeError) : string :=
  operator_text e.(operator) ++ match e.(composite_errors) with [] => "" | l => ": " ++ join "; " l end.

(** ** [input_validator.rs] *)
Definition validate_string_field (value field_path : string) (rule : ValidationRule) : result FraiseQLError unit :=
  match rule with
  | Required => match value with EmptyString => Err (field_failed field_path "required" "Field is required") | _ => Ok tt end
  | Pattern pattern message =>
      match regex pattern with
      | Err e => Err (invalid_regex e)
      | Ok matches => if matches value then Ok tt else Err (field_failed field_path "pattern" (default "Pattern mismatch"%string message))
      end
  | Length min max =>
      if validate_length min max value then Ok tt else Err (field_failed field_path "length" (length_message min max))
  | Enum values =>
      if existsb (String.eqb value) values then Ok tt
      else Err (field_failed field_path "enum" ("Must be one of: " ++ join ", " values))
  | _ => Ok tt
  end.
(** The text before the first [sep], as [find] gives its position. *)
Definition find_str (sep s : string) : option nat := (fun p => String.length p.1) <$> split_once_str sep s.
Definition from_pos (n : nat) (s : string) : option string := slice s n (String.length s).
(** The outer [None] is a panic of a slice. *)
Definition extract_field_error (message : string) : option (option ValidationFieldError) :=
  match split_once_str "Field validation failed: " message with
  | Some (_, rest) =>
      match find_str "(" rest, find_str ")" rest with
      | Some paren_start, Some paren_end =>
          field ← slice rest 0 paren_start;
          kind ← slice rest (paren_start + 1) paren_end;
          text ← from_pos (default 0%nat (find_str ": " rest) + 2) rest;
          Some (Some (mkFieldError (trim field) kind text))
      | _, _ => Some None
      end
  | None => Some None
  end.
Definition to_error (errors : list ValidationFieldError) : FraiseQLError :=
  match errors with
  | [] => validation "No validation errors"
  | [e] => invalid (field_error_text e) (Some e.(error_field))
  | l => invalid ("Multiple validation errors: " ++ join "; " (map field_error_text l)) None
  end.
Fixpoint collect_errors (value field_path : string) (rules : list ValidationRule) : option (list ValidationFieldError) :=
  match rules with
  | [] => Some []
  | rule :: rules =>
      e ← match validate_string_field value field_path rule with
          | Err (Validation (Text message) _) => extract_field_error message
          | _ => Some None
          end;
      l ← collect_errors value field_path rules;
      Some (match e with Some e => e :: l | None => l end)
  end.
Definition validate_input (value : json) (field_path : string) (rules : list ValidationRule) : option (result FraiseQLError unit) :=
  errors ← match value with
           | JString s => collect_errors s field_path rules
           | JNull => Some (map (fun _ => mkFieldError field_path "required" "Field is required") (List.filter is_required rules))
           | _ => Some []
           end;
  Some match errors with [] => Ok tt | l => Err (to_error l) end.
End Rules.

(** ** [mutual_exclusivity.rs] *)
Definition present (input : json) (name : string) : bool :=
  match input with JObject fields => match assoc name fields with Some JNull | None => false | Some _ => true end | _ => false end.
Definition quoted_list (l : list string) : string := join ", " (map (fun s => "'" ++ s ++ "'")%string l).
Definition count_present (input : json) (fields : list string) : Z := countb (present input) fields.
Definition one_of_message (fields : list string) (n : Z) : string :=
  "Exactly one of [" ++ join ", " fields ++ "] must be provided, but " ++ pretty n ++ " " ++
  (if n =? 1 then "was" else "were") ++ " provided".
Definition any_of_message (fields : list string) : string := "At least one of [" ++ join ", " fields ++ "] must be provided".
Definition missing (input : json) (fields : list string) : list string := List.filter (fun n => negb (present input n)) fields.
Definition is_object (v : json) : bool := match v with JObject _ => true | _ => false end.
Definition fail_at (path : option string) (m : string) : result FraiseQLError unit := Err (invalid m (Some (default "input"%string path))).
Definition one_of (input : json) (fields : list string) (path : option string) : result FraiseQLError unit :=
  let n := count_present input fields in if n =? 1 then Ok tt else fail_at path (one_of_message fields n).
Definition any_of (input : json) (fields : list string) (path : option string) : result FraiseQLError unit :=
  if existsb (present input) fields then Ok tt else fail_at path (any_of_message fields).
Definition conditional_required (input : json) (if_field : string) (required : list string) (path : option string) :
    result FraiseQLError unit :=
  if present input if_field then
    match missing input required with
    | [] => Ok tt
    | l => fail_at path ("Since '" ++ if_field ++ "' is provided, " ++ quoted_list l ++ " must also be provided")
    end
  else Ok tt.
Definition required_if_absent (input : json) (absent_field : string) (required : list string) (path : option string) :
    result FraiseQLError unit :=
  if is_object input && negb (present input absent_field) then
    match missing input required with
    | [] => Ok tt
    | l => fail_at path ("Since '" ++ absent_field ++ "' is not provided, " ++ quoted_list l ++ " must be provided")
    end
  else Ok tt.

(** ** [input_object.rs] *)
Inductive InputObjectRule : Type :=
| ObjectAnyOf (fields : list string)
| ObjectOneOf (fields : list string)
| ObjectConditionalRequired (if_field : string) (then_fields : list string)
| ObjectRequiredIfAbsent (absent_field : string) (then_fields : list string)
| CustomRule (name : string).
Definition validate_any_of (input : json) (fields : list string) (path : string) : result FraiseQLError unit :=
  if is_object input then any_of input fields (Some path) else Ok tt.
Definition validate_one_of (input : json) (fields : list string) (path : string) : result FraiseQLError unit :=
  if is_object input then one_of input fields (Some path) else Ok tt.
Definition validate_conditional_required (input : json) (f : string) (l : list string) (path : string) : result FraiseQLError unit :=
  conditional_required input f l (Some path).
Definition validate_required_if_absent (input : json) (f : string) (l : list string) (path : string) : result FraiseQLError unit :=
  required_if_absent input f l (Some path).
Definition validate_rule (input : json) (rule : InputObjectRule) (path : string) : result FraiseQLError unit :=
  match rule with
  | ObjectAnyOf fields => validate_any_of input fields path
  | ObjectOneOf fields => validate_one_of input fields path
  | ObjectConditionalRequired f l => validate_conditional_required input f l path
  | ObjectRequiredIfAbsent f l => validate_required_if_absent input f l path
  | CustomRule name =>
      fail_at (Some path) ("Custom validator '" ++ name ++ "' is not registered. " ++
        "Register validators via InputValidatorRegistry before executing queries.")
  end.
Record InputObjectValidationResult : Type := mkObjectResult { object_errors : list string; error_count : Z }.
Definition new_object_result : InputObjectValidationResult := mkObjectResult [] 0.
Definition add_error (r : InputObjectValidationResult) (e : string) : InputObjectValidationResult :=
  mkObjectResult (r.(object_errors) ++ [e]) (r.(error_count) + 1).
Definition add_errors (r : InputObjectValidationResult) (l : list string) : InputObjectValidationResult :=
  mkObjectResult (r.(object_errors) ++ l) (r.(error_count) + Z.of_nat (length l)).
Definition has_errors (r : InputObjectValidationResult) : bool := negb (Nat.eqb (length r.(object_errors)) 0).
Definition into_result_with_path (r : InputObjectValidationResult) (path : string) : result FraiseQLError unit :=
  match r.(object_errors) with
  | [] => Ok tt
  | l => Err (invalid ("Input object validation failed: " ++ join "; " l) (Some path))
  end.
Definition into_result (r : InputObjectValidationResult) : result FraiseQLError unit := into_result_with_path r "input".
Definition add_failure (input : json) (path : string) (r : InputObjectValidationResult) (rule : InputObjectRule) :
    InputObjectValidationResult :=
  match validate_rule input rule path with Err (Validation (Text m) _) => add_error r m | _ => r end.
Definition validate_input_object (input : json) (rules : list InputObjectRule) (object_path : option string) :
    result FraiseQLError unit :=
  let path := default "input"%string object_path in
  if is_object input then into_result_with_path (foldl (add_failure input path) new_object_result rules) path
  else Err (invalid "Input must be an object" (Some path)).

(** ** [cross_field.rs] *)
Inductive ComparisonOperator : Type := LessThan | LessEqual | GreaterThan | GreaterEqual | Equal | NotEqual.
Definition operators : list (string * string * ComparisonOperator) :=
  [("<", "lt", LessThan); ("<=", "lte", LessEqual); (">", "gt", GreaterThan); (">=", "gte", GreaterEqual);
   ("==", "eq", Equal); ("!=", "neq", NotEqual)]%string.
Definition operator_from_str (s : string) : option ComparisonOperator :=
  snd <$> find (fun o => (o.1.1 =s s) || (o.1.2 =s s)) operators.
Definition symbol (o : ComparisonOperator) : string :=
  match o with
  | LessThan => "<" | LessEqual => "<=" | GreaterThan => ">" | GreaterEqual => ">=" | Equal => "==" | NotEqual => "!="
  end.
Definition operator_name (o : ComparisonOperator) : string :=
  match o with
  | LessThan => "less than" | LessEqual => "less than or equal to" | GreaterThan => "greater than"
  | GreaterEqual => "greater than or equal to" | Equal => "equal to" | NotEqual => "not equal to"
  end.
Definition value_type_name (v : json) : string :=
  match v with
  | JNull => "null" | JBool _ => "boolean" | JNumber _ => "number" | JString _ => "string" | JArray _ => "array" | JObject _ => "object"
  end.
Definition ordering_holds (o : ComparisonOperator) (c : comparison) : bool :=
  match o, c with
  | LessThan, Lt | LessEqual, (Lt | Eq) | GreaterThan, Gt | GreaterEqual, (Gt | Eq) | Equal, Eq | NotEqual, (Lt | Gt) => true
  | _, _ => false
  end.
Section CrossField.
Context (json_text : json -> string).
Definition value_to_string (v : json) : string :=
  match v with JString s => String (ascii_of_nat 34) (s ++ String (ascii_of_nat 34) EmptyString) | v => json_text v end.
Definition value_ordering (l r : json) : option comparison :=
  match l, r with
  | JNumber _, JNumber _ =>
      let lv := default f64_zero (as_f64 l) in let rv := default f64_zero (as_f64 r) in
      Some (if f64_lt lv rv then Lt else if f64_lt rv lv then Gt else Eq)
  | JString l, JString r => Some (String.compare l r)
  | _, _ => None
  end.
Definition compare_values (l r : json) (left_field : string) (o : ComparisonOperator) (right_field path : string) :
    result FraiseQLError unit :=
  match value_ordering l r with
  | None => Err (invalid ("Cannot compare '" ++ left_field ++ "' (" ++ value_type_name l ++ ") with '" ++ right_field ++ "' (" ++
              value_type_name r ++ ")") (Some path))
  | Some c =>
      if ordering_holds o c then Ok tt
      else Err (invalid ("'" ++ left_field ++ "' (" ++ value_to_string l ++ ") must be " ++ operator_name o ++ " '" ++ right_field ++
             "' (" ++ value_to_string r ++ ")") (Some path))
  end.
Definition validate_cross_field_comparison (input : json) (left_field : string) (o : ComparisonOperator) (right_field : string)
    (context_path : option string) : result FraiseQLError unit :=
  let path := default "input"%string context_path in
  match input with
  | JObject fields =>
      l ← ok_or (assoc left_field fields) (invalid ("Field '" ++ left_field ++ "' not found in input") (Some path));
      r ← ok_or (assoc right_field fields) (invalid ("Field '" ++ right_field ++ "' not found in input") (Some path));
      match l, r with
      | JNull, _ | _, JNull => Ok tt
      | _, _ => compare_values l r left_field o right_field path
      end
  | _ => Err (invalid "Input is not an object" (Some path))
  end.
End CrossField.

(** ** [inheritance.rs] *)
Inductive InheritanceMode : Type := Override | Merge | ChildFirst | ParentFirst.
Definition mode_description (m : InheritanceMode) : string :=
  match m with
  | Override => "Child rules override parent rules completely" | Merge => "All parent and child rules apply (union)"
  | ChildFirst => "Child rules applied first, then parent rules" | ParentFirst => "Parent rules applied first, then child rules"
  end.
Record RuleMetadata : Type := mkMetadata { rule : ValidationRule; overrideable : bool; inherited : bool; source : string }.
Definition new_metadata (r : ValidationRule) (source : string) : RuleMetadata := mkMetadata r true false source.
Definition non_overrideable (m : RuleMetadata) : RuleMetadata := mkMetadata m.(rule) false m.(inherited) m.(source).
Definition as_inherited (m : RuleMetadata) : RuleMetadata := mkMetadata m.(rule) m.(overrideable) true m.(source).
Record ValidationRuleRegistry : Type := mkRegistry {
  rules_by_type : gmap string (list RuleMetadata);
  parent_types : gmap string string
}.
Definition new_registry : ValidationRuleRegistry := mkRegistry ∅ ∅.
Definition register_type (g : ValidationRuleRegistry) (t : string) (l : list RuleMetadata) : ValidationRuleRegistry :=
  mkRegistry (<[t := l]> g.(rules_by_type)) g.(parent_types).
Definition set_parent (g : ValidationRuleRegistry) (child parent : string) : ValidationRuleRegistry :=
  mkRegistry g.(rules_by_type) (<[child := parent]> g.(parent_types)).
Definition get_parent (g : ValidationRuleRegistry) (t : string) : option string := g.(parent_types) !! t.
Definition has_parent (g : ValidationRuleRegistry) (t : string) : bool := match get_parent g t with Some _ => true | None => false end.
(** What the rules of a type are, from those inherited and its own. *)
Definition combine_rules (mode : InheritanceMode) (parents : list RuleMetadata) (own : option (list RuleMetadata)) : list RuleMetadata :=
  match own with
  | None => parents
  | Some own => match mode with Override => own | Merge | ParentFirst => parents ++ own | ChildFirst => own ++ parents end
  end.
(** The recursion follows the parents; [None] is one that is still running. *)
Fixpoint get_rules (fuel : nat) (g : ValidationRuleRegistry) (t : string) (mode : InheritanceMode) : option (list RuleMetadata) :=
  match fuel with
  | O => None
  | S fuel =>
      parents ← match get_parent g t with
                | Some parent => map as_inherited <$> get_rules fuel g parent mode
                | None => Some []
                end;
      Some (combine_rules mode parents (g.(rules_by_type) !! t))
  end.
Definition inherit_validation_rules (parent child : list ValidationRule) (mode : InheritanceMode) : list ValidationRule :=
  match mode with Override => child | Merge | ParentFirst => parent ++ child | ChildFirst => child ++ parent end.
Fixpoint walk_parents (fuel : nat) (g : ValidationRuleRegistry) (visited : gset string) (current : option string) :
    option (result string unit) :=
  match fuel, current with
  | O, _ => None
  | _, None => Some (Ok tt)
  | S fuel, Some t =>
      if bool_decide (t ∈ visited) then Some (Err ("Circular inheritance detected: '" ++ t ++ "' inherits from itself")%string)
      else walk_parents fuel g ({[t]} ∪ visited) (get_parent g t)
  end.
(** One step for each type with a parent, one to find the end or the cycle. *)
Definition enough_steps (g : ValidationRuleRegistry) : nat := base.size g.(parent_types) + 3.
Definition validate_inheritance (parent_name : string) (g : ValidationRuleRegistry) : option (result string unit) :=
  match g.(rules_by_type) !! parent_name with
  | None => Some (Err ("Parent type '" ++ parent_name ++ "' not found in validation registry")%string)
  | Some _ => walk_parents (enough_steps g) g ∅ (Some parent_name)
  end.
