(* ===== verification/ValidationRulesFacts.v ===== *)
(** * What the validation rules accept

    The theorems about [ValidationRules]: which errors [validate_input]
    reports, when the rules over an object hold, and what inheritance gives
    and where it stops. *)

From Stdlib Require Import Ascii.
From S2P Require Import Prelude Json WhereClause Chars ValidationRules.

(** ** Field errors through their text *)
Definition path_char (c : ascii) : bool :=
  let n := nat_of_ascii c in (32 <? n)%nat && (n <? 127)%nat && negb (existsb (Ascii.eqb c) ["("; ")"; ":"]%char).
Fixpoint plain_path (s : string) : bool :=
  match s with EmptyString => true | String c s => path_char c && plain_path s end.
Definition starts_at_char (s : string) : bool :=
  match s with EmptyString => true | String c _ => negb (is_continuation c) end.

Lemma path_ascii s : plain_path s = true -> all_ascii s = true.
Proof.
  induction s as [|c s IH]; [done|]. cbn [plain_path all_ascii]. intros [Hc Hs]%andb_true_iff. rewrite (IH Hs), andb_true_r.
  unfold path_char in Hc. apply andb_true_iff in Hc as [[_ Hc]%andb_true_iff _]. apply Nat.ltb_lt in Hc. apply Nat.ltb_lt. lia.
Qed.
Lemma path_char_not c d : path_char c = true -> In d ["("; ")"; ":"]%char -> c <> d.
Proof.
  intros Hc Hd ->. unfold path_char in Hc. apply andb_true_iff in Hc as [_ Hc]. apply negb_true_iff in Hc.
  rewrite <- not_true_iff_false in Hc. apply Hc, existsb_exists. exists d. split; [done|]. apply Ascii.eqb_refl.
Qed.
Lemma path_has_not s d c : plain_path s = true -> In d ["("; ")"; ":"]%char -> has_char c s = true -> c <> d.
Proof.
  intros Hs Hd. induction s as [|x s IH]; [done|]. cbn [plain_path has_char] in *. apply andb_true_iff in Hs as [Hx Hs].
  intros [Hc|Hc]%orb_true_iff; [|by apply IH]. apply Ascii.eqb_eq in Hc as <-. by apply path_char_not.
Qed.
Lemma path_trim s : plain_path s = true -> trim (s ++ " ") = s.
Proof.
  intros Hs. unfold trim, trim_matches.
  assert (Hsp : all_ascii (s ++ " ") = true) by (rewrite ascii_app, (path_ascii s Hs); done).
  rewrite (chars_bytes _ Hsp), list_ascii_app, map_app.
  assert (Hl : Forall (fun ch => is_whitespace ch = false) (map (fun c => String c EmptyString) (String.list_ascii_of_string s))).
  { clear Hsp. induction s as [|c s IH]; [constructor|]. cbn [plain_path] in Hs. apply andb_true_iff in Hs as [Hc Hs].
    constructor; [|by apply IH]. unfold path_char in Hc. apply andb_true_iff in Hc as [[Hc _]%andb_true_iff _]. clear -Hc.
    destruct c as [[] [] [] [] [] [] [] []]; vm_compute in Hc |- *; congruence. }
  assert (Hsk : forall l, Forall (fun ch => is_whitespace ch = false) l -> skip_while is_whitespace l = l).
  { intros l H. destruct H as [|x l' Hx _]; [done|]. cbn [skip_while]. by rewrite Hx. }
  remember (map _ (String.list_ascii_of_string s)) as l eqn:El. cbn [String.list_ascii_of_string map].
  assert (Hfront : rev (skip_while is_whitespace (rev (skip_while is_whitespace (l ++ [" "%string])))) = l).
  { destruct l as [|x l']; [reflexivity|]. cbn [app skip_while]. inversion Hl as [|? ? Hx Hl']; subst. rewrite Hx.
    rewrite app_comm_cons, rev_app_distr. cbn [rev app skip_while].
    change (is_whitespace " "%string) with true. cbn iota. rewrite Hsk; [|apply Forall_app; split; [by apply Forall_rev|by repeat constructor]].
    change (rev (rev (x :: l')) = x :: l'). apply rev_involutive. }
  rewrite Hfront, El, concat_ascii. apply String.string_of_list_ascii_of_string.
Qed.

(** ** A slice between two parts *)
Lemma get_after a b : String.get (String.length a) (a ++ b) = String.get 0 b.
Proof. induction a as [|c a IH]; [done|]. rewrite str_cons. exact IH. Qed.
Lemma boundary_after a b : is_char_boundary (a ++ b) (String.length a) = starts_at_char b.
Proof.
  unfold is_char_boundary. rewrite get_after. destruct b as [|c b]; [|done]. cbn [String.get starts_at_char].
  apply Nat.eqb_eq. induction a as [|x a IH]; [done|]. rewrite str_cons. cbn. by f_equal.
Qed.
Lemma substring_after a b n : String.substring (String.length a) n (a ++ b) = String.substring 0 n b.
Proof. induction a as [|c a IH]; [done|]. rewrite str_cons. exact IH. Qed.
Lemma substring_first b c : String.substring 0 (String.length b) (b ++ c) = b.
Proof. induction b as [|x b IH]; [by destruct c|]. rewrite str_cons. cbn. by rewrite IH. Qed.
Lemma slice_middle a b c :
  starts_at_char (b ++ c) = true -> starts_at_char c = true ->
  slice (a ++ b ++ c) (String.length a) (String.length a + String.length b) = Some b.
Proof.
  intros Hb Hc. unfold slice. rewrite boundary_after, Hb.
  assert (Hend : is_char_boundary (a ++ b ++ c) (String.length a + String.length b) = true).
  { rewrite <- str_length_app, <- str_assoc. by rewrite boundary_after. }
  rewrite Hend, (proj2 (Nat.leb_le _ _)) by lia. cbn [andb].
  by rewrite substring_after, Nat.add_comm, Nat.add_sub, substring_first.
Qed.

Lemma starts_ascii s : all_ascii s = true -> starts_at_char s = true.
Proof. destruct s as [|c s]; [done|]. cbn. intros [Hc _]%andb_true_iff. by rewrite ascii_boundary. Qed.
Lemma starts_app a b : starts_at_char a = true -> starts_at_char b = true -> starts_at_char (a ++ b) = true.
Proof. by destruct a. Qed.

Lemma extract_field_text e :
  plain_path e.(error_field) = true -> plain_path e.(rule_type) = true -> starts_at_char e.(field_message) = true ->
  extract_field_error ("Field validation failed: " ++ field_error_text e) = Some (Some e).
Proof.
  intros Hf Hk Hm. destruct e as [f k m]. cbn [error_field rule_type field_message] in *. unfold field_error_text. cbn [error_field rule_type field_message].
  unfold extract_field_error.
  assert (Hpre : split_once_str "Field validation failed: " ("Field validation failed: " ++ f ++ " (" ++ k ++ "): " ++ m)
                 = Some (EmptyString, f ++ " (" ++ k ++ "): " ++ m)%string) by (cbn; reflexivity).
  rewrite Hpre. unfold find_str.
  assert (H1 : split_once_str "(" (f ++ " (" ++ k ++ "): " ++ m) = Some (f ++ " ", k ++ "): " ++ m)%string).
  { rewrite find_after by (intros c; apply path_has_not; cbn; auto). reflexivity. }
  assert (H2 : split_once_str ")" (f ++ " (" ++ k ++ "): " ++ m) = Some (f ++ " (" ++ k, ": " ++ m)%string).
  { rewrite find_after by (intros c; apply path_has_not; cbn; auto).
    change (" (" ++ k ++ "): " ++ m)%string with (String " " (String "(" (k ++ "): " ++ m)))%string.
    cbn [split_once_str strip_prefix Ascii.eqb Bool.eqb andb].
    rewrite find_after by (intros c; apply path_has_not; cbn; auto). cbn [split_once_str strip_prefix Ascii.eqb Bool.eqb andb]. change (split_once_str ")" ("): " ++ m)) with (Some ("", ": " ++ m))%string. cbv iota beta. rewrite str_nil_r. reflexivity. }
  assert (H3 : split_once_str ": " (f ++ " (" ++ k ++ "): " ++ m) = Some (f ++ " (" ++ k ++ ")", m)%string).
  { rewrite find_after by (intros c; apply path_has_not; cbn; auto).
    change (" (" ++ k ++ "): " ++ m)%string with (String " " (String "(" (k ++ "): " ++ m)))%string.
    cbn [split_once_str strip_prefix Ascii.eqb Bool.eqb andb].
    rewrite find_after by (intros c; apply path_has_not; cbn; auto). cbn. reflexivity. }
  rewrite H1, H2, H3. cbn [fmap option_fmap option_map fst default from_option].
  assert (E1 : (f ++ " (" ++ k ++ "): " ++ m = "" ++ (f ++ " ") ++ ("(" ++ k ++ "): " ++ m))%string) by (rewrite str_nil, str_assoc; done).
  assert (E2 : (f ++ " (" ++ k ++ "): " ++ m = (f ++ " (") ++ k ++ ("): " ++ m))%string) by (rewrite !str_assoc; done).
  assert (E3 : (f ++ " (" ++ k ++ "): " ++ m = (f ++ " (" ++ k ++ "): ") ++ m ++ "")%string) by (rewrite !str_assoc, str_nil_r; done).
  rewrite E1 at 1. rewrite (slice_middle "" (f ++ " ")); [|apply starts_app; [apply starts_ascii; rewrite ascii_app, (path_ascii f Hf); done|done]|done].
  cbn [mbind option_bind]. rewrite path_trim by done.
  replace (String.length (f ++ " ") + 1)%nat with (String.length (f ++ " (")) by (rewrite !str_length_app; cbn; lia).
  replace (String.length (f ++ " (" ++ k)) with (String.length (f ++ " (") + String.length k)%nat
    by (rewrite !str_length_app; cbn; lia).
  rewrite E2 at 1. rewrite (slice_middle (f ++ " (") k); [|by apply starts_app; [apply starts_ascii, path_ascii|]|done].
  cbn [mbind option_bind id]. unfold from_pos, id.
  replace (String.length (f ++ " (" ++ k ++ ")") + 2)%nat with (String.length (f ++ " (" ++ k ++ "): "))
    by (rewrite !str_length_app; cbn; lia).
  replace (String.length (f ++ " (" ++ k ++ "): " ++ m)) with (String.length (f ++ " (" ++ k ++ "): ") + String.length m)%nat
    by (rewrite E3, !str_length_app; cbn; lia).
  rewrite E3.  rewrite slice_middle; [done|by rewrite str_nil_r|done].
Qed.

(** ** Which rules a text breaks *)
Section Input.
Context (regex : string -> result string (string -> bool)).

(** The rules that are looked at, each with what breaks it; a pattern that is
    no regular expression breaks nothing. *)
Definition broken (s path : string) (r : ValidationRule) : option ValidationFieldError :=
  match r with
  | Required => if s =s "" then Some (mkFieldError path "required" "Field is required") else None
  | Pattern p m =>
      match regex p with
      | Ok re => if re s then None else Some (mkFieldError path "pattern" (default "Pattern mismatch" m))
      | Err _ => None
      end
  | Length min max =>
      if (default 0%Z min <=? byte_len s)%Z && (byte_len s <=? default (byte_len s) max)%Z then None
      else Some (mkFieldError path "length" (length_message min max))
  | Enum values =>
      if bool_decide (s ∈ values) then None else Some (mkFieldError path "enum" ("Must be one of: " ++ join ", " values))
  | _ => None
  end%string.
(** The texts of a rule do not look like a report of their own. *)
Definition well_worded (r : ValidationRule) : bool :=
  match r with
  | Pattern p m =>
      match regex p with
      | Ok _ => match m with Some m => starts_at_char m | None => true end
      | Err e => negb (contains "Field validation failed: " ("Invalid regex pattern: " ++ e))
      end
  | _ => true
  end.

Lemma existsb_elem s l : existsb (String.eqb s) l = bool_decide (s ∈ l).
Proof.
  apply eq_true_iff_eq. rewrite existsb_exists, bool_decide_eq_true, list_elem_of_In.
  split; [intros (x & Hx & ->%String.eqb_eq); done|intros H; exists s; split; [done|apply String.eqb_refl]].
Qed.
Lemma within_default min max s :
  within min max (byte_len s) = (default 0 min <=? byte_len s)%Z && (byte_len s <=? default (byte_len s) max)%Z.
Proof.
  unfold within, byte_len. destruct min, max; cbn [default from_option id]; rewrite ?Z.leb_refl, ?(proj2 (Z.leb_le 0 _)) by lia; done.
Qed.
Lemma field_failed_shape f k m : field_failed f k m = Validation (Text ("Field validation failed: " ++ field_error_text (mkFieldError f k m))) (Some f).
Proof. done. Qed.

Lemma rule_report s path r :
  plain_path path = true -> well_worded r = true ->
  match validate_string_field regex s path r with
  | Err (Validation (Text message) _) => extract_field_error message
  | _ => Some None
  end = Some (broken s path r).
Proof.
  intros Hp Hw.
  assert (Hout : forall k m, plain_path k = true -> starts_at_char m = true ->
      match @Err _ unit (field_failed path k m) with
      | Err (Validation (Text message) _) => extract_field_error message
      | _ => Some None
      end = Some (Some (mkFieldError path k m))).
  { intros k m Hk Hm. exact (extract_field_text (mkFieldError path k m) Hp Hk Hm). }
  destruct r; try done; cbn [validate_string_field broken].
  - destruct s; [|done]. by apply Hout.
  - cbn [well_worded] in Hw. destruct (regex pattern) as [re|e]; [destruct (re s); [done|]|].
    + apply Hout; [done|]. by destruct message.
    + cbn. unfold extract_field_error. unfold contains in Hw. cbn [String.append] in Hw |- *.
      by destruct (split_once_str _ _).
  - unfold validate_length. rewrite within_default. destruct (_ && _); [done|]. apply Hout; [done|]. by destruct min, max.
  - rewrite existsb_elem. destruct (bool_decide _); [done|]. by apply Hout.
Qed.
Lemma collect_broken s path rules :
  plain_path path = true -> Forall (fun r => well_worded r = true) rules ->
  collect_errors regex s path rules = Some (omap (broken s path) rules).
Proof.
  intros Hp. induction 1 as [|r rules Hr _ IH]; [done|]. cbn [collect_errors omap list_omap].
  rewrite (rule_report s path r Hp Hr). cbn [mbind option_bind]. rewrite IH. cbn. by destruct (broken s path r).
Qed.

(** The whole contract of [validate_input]. *)
Theorem validate_input_reports value path rules :
  plain_path path = true -> Forall (fun r => well_worded r = true) rules ->
  validate_input regex value path rules =
    Some match (match value with
                | JString s => omap (broken s path) rules
                | JNull => map (fun _ => mkFieldError path "required" "Field is required") (List.filter is_required rules)
                | _ => []
                end) with
         | [] => Ok tt
         | [e] => Err (Validation (Text (field_error_text e)) (Some path))
         | l => Err (Validation (Text ("Multiple validation errors: " ++ join "; " (map field_error_text l))) None)
         end.
Proof.
  intros Hp Hr. unfold validate_input. destruct value; try reflexivity.
  all: try (cbn; destruct (List.filter _ _) as [|? [|]]; reflexivity).
  rewrite (collect_broken _ _ _ Hp Hr). cbn [mbind option_bind]. f_equal.
  assert (He : Forall (fun e => e.(error_field) = path) (omap (broken s path) rules)).
  { apply list.Forall_forall. intros e. rewrite list_elem_of_omap. intros (r & _ & H). destruct r; cbn in H;
      repeat case_match; simplify_eq; done. }
  destruct (omap _ _) as [|e [|]]; [done| |done]. cbn. inversion He; subst. done.
Qed.
End Input.

(** ** The three readings of a rule *)
Section Readings.
Context (regex : string -> result string (string -> bool)).
Definition kept s f r : bool := match broken regex s f r with Some _ => false | None => true end.

Lemma single_kept r s f : is_ok (validate_single_rule regex r s f) = kept s f r.
Proof.
  unfold kept. destruct r; cbn [validate_single_rule broken]; try done.
  - by destruct s.
  - destruct (regex pattern) as [re|]; [by destruct (re s)|done].
  - rewrite <- within_default. unfold within. destruct min as [m|], max as [x|]; rewrite ?Z.leb_antisym; unfold byte_len;
      repeat (destruct (_ <? _)%Z; cbn); done.
  - rewrite existsb_elem. by destruct (bool_decide _).
Qed.

(** The validator made from a rule, the composite validators and the
    validation of an input agree on the rules all of them look at. *)
Theorem readings_agree r v s f :
  create_validator_from_rule regex r = Some v -> r <> Email -> r <> Phone ->
  is_ok (run_validator v s f) = is_ok (validate_single_rule regex r s f) /\
  is_ok (validate_single_rule regex r s f) = kept s f r.
Proof.
  intros Hv He Hp. rewrite single_kept. split; [|done]. unfold kept.
  destruct r; try done; cbn [create_validator_from_rule] in Hv; cbn [broken].
  - injection Hv as <-. by destruct s.
  - unfold new_pattern, ok in Hv. destruct (regex pattern) as [re|]; [|done]. injection Hv as <-. cbn. by destruct (re s).
  - injection Hv as <-. cbn [run_validator]. unfold validate_length. rewrite within_default. by destruct (_ && _).
  - injection Hv as <-. cbn [run_validator]. rewrite (bool_decide_ext _ (s ∈ values)) by set_solver. by destruct (bool_decide _).
Qed.

Lemma failures_none rules s f : failures regex rules s f = [] <-> forallb (kept s f) rules = true.
Proof.
  induction rules as [|r rules IH]; [done|]. cbn [failures omap list_omap forallb]. rewrite <- single_kept, andb_true_iff, <- IH.
  unfold failures. cbn. destruct (validate_single_rule regex r s f); cbn; [tauto|]. split; [done|by intros [? _]].
Qed.
(** What the operators over rules accept. *)
Theorem composite_exact rules r s f :
  is_ok (validate_all regex rules s f) = forallb (kept s f) rules /\
  is_ok (validate_any regex rules s f) = existsb (kept s f) rules /\
  is_ok (validate_not regex r s f) = negb (kept s f r) /\
  (forall present, is_ok (validate_optional regex r s f present) = negb present || kept s f r).
Proof.
  assert (Hex : existsb (fun r => is_ok (validate_single_rule regex r s f)) rules = existsb (kept s f) rules).
  { induction rules as [|x rules IH]; [done|]. cbn [existsb]. rewrite IH, <- single_kept. by destruct (validate_single_rule _ _ _ _). }
  repeat split.
  - unfold validate_all. pose proof (failures_none rules s f) as H. destruct (failures regex rules s f).
    + by rewrite (proj1 H eq_refl).
    + cbn. destruct (forallb _ _); [|done]. by pose proof (proj2 H eq_refl).
  - unfold validate_any. rewrite Hex. destruct (existsb (kept s f) rules); reflexivity.
  - unfold validate_not. rewrite <- single_kept. by destruct (validate_single_rule _ _ _ _).
  - intros []; cbn; [apply single_kept|done].
Qed.
End Readings.

(** ** The rules over an object *)
Definition holds (o : json) (r : InputObjectRule) : Prop :=
  match r with
  | ObjectAnyOf l => exists f, f ∈ l /\ present o f = true
  | ObjectOneOf l => exists a f b, l = a ++ f :: b /\ present o f = true /\ forall g, g ∈ a ++ b -> present o g = false
  | ObjectConditionalRequired f l => present o f = true -> forall g, g ∈ l -> present o g = true
  | ObjectRequiredIfAbsent f l => present o f = false -> forall g, g ∈ l -> present o g = true
  | CustomRule _ => False
  end.

Lemma countb_none {A} (f : A -> bool) l : countb f l = 0%Z <-> forall x, x ∈ l -> f x = false.
Proof.
  induction l as [|x l IH]; cbn [countb]; [split; [set_solver|done]|].
  pose proof (countb_range f l). setoid_rewrite list.elem_of_cons. destruct (f x) eqn:E; cbn [b2z].
  - split; [lia|]. intros H'. rewrite H' in E by auto. done.
  - rewrite Z.add_0_l, IH. naive_solver.
Qed.
Lemma countb_one {A} (f : A -> bool) l :
  countb f l = 1%Z <-> exists a x b, l = a ++ x :: b /\ f x = true /\ forall y, y ∈ a ++ b -> f y = false.
Proof.
  split.
  - induction l as [|x l IH]; cbn [countb]; [done|]. destruct (f x) eqn:E; cbn [b2z]; intros H.
    + exists [], x, l. split; [done|]. split; [done|]. apply (countb_none f l). lia.
    + destruct IH as (a & y & b & -> & Hy & Hn); [lia|]. exists (x :: a), y, b. split; [done|]. split; [done|].
      intros z. cbn. rewrite list.elem_of_cons. intros [->|Hz]; auto.
  - intros (a & x & b & -> & Hx & Hn). rewrite countb_app. cbn [countb]. rewrite Hx.
    apply countb_none in Hn. rewrite countb_app in Hn. cbn [b2z]. lia.
Qed.
Lemma missing_none o l : missing o l = [] <-> forall f, f ∈ l -> present o f = true.
Proof.
  unfold missing. induction l as [|x l IH]; [split; [set_solver|done]|]. cbn [List.filter]. setoid_rewrite list.elem_of_cons.
  destruct (present o x) eqn:E; cbn [negb].
  - rewrite IH. naive_solver.
  - split; [done|]. intros H. rewrite H in E by auto. done.
Qed.
Lemma rule_holds o path r : is_object o = true -> is_ok (validate_rule o r path) = true <-> holds o r.
Proof.
  intros Ho. destruct r; cbn [validate_rule holds];
    unfold validate_any_of, validate_one_of, validate_conditional_required, validate_required_if_absent; rewrite ?Ho.
  - unfold any_of. destruct (existsb _ _) eqn:E; cbn.
    + split; [|done]. intros _. apply existsb_exists in E as (f & Hf & Hp). exists f. by rewrite list_elem_of_In.
    + split; [done|]. intros (f & Hf & Hp). rewrite <- not_true_iff_false in E. exfalso. apply E, existsb_exists. exists f.
      by rewrite <- list_elem_of_In.
  - unfold one_of, count_present. rewrite <- countb_one. destruct (Z.eqb_spec (countb (present o) fields) 1); cbn; intuition done.
  - unfold conditional_required. rewrite <- missing_none. destruct (present o if_field); [|done].
    destruct (missing o then_fields); cbn; [done|]. split; [done|]. intros H. by specialize (H eq_refl).
  - unfold required_if_absent. rewrite Ho, <- missing_none. destruct (present o absent_field); [done|]. cbn [negb andb].
    destruct (missing o then_fields); cbn; [done|]. split; [done|]. intros H. by specialize (H eq_refl).
  - done.
Qed.

Definition rule_error (o : json) (path : string) (r : InputObjectRule) : option string :=
  match validate_rule o r path with Err (Validation (Text m) _) => Some m | _ => None end.
Lemma rule_error_none o path r : is_object o = true -> rule_error o path r = None <-> holds o r.
Proof.
  intros Ho. rewrite <- (rule_holds o path r Ho). unfold rule_error. destruct r; cbn [validate_rule];
    unfold validate_any_of, validate_one_of, validate_conditional_required, validate_required_if_absent; rewrite ?Ho;
    unfold any_of, one_of, conditional_required, required_if_absent; repeat case_match; done.
Qed.
Lemma fold_failures o path rules acc :
  foldl (add_failure o path) acc rules = add_errors acc (omap (rule_error o path) rules).
Proof.
  revert acc. induction rules as [|r rules IH]; intros acc.
  - destruct acc. unfold add_errors. cbn. by rewrite app_nil_r, Z.add_0_r.
  - cbn [foldl omap list_omap]. rewrite IH. unfold add_failure, rule_error. repeat case_match; simplify_eq; try done.
    unfold add_errors, add_error. cbn. rewrite <- app_assoc. cbn. f_equal. lia.
Qed.
(** What the rules over an object accept, and what is reported of the broken ones. *)
Theorem input_object_exact o rules path :
  is_object o = true ->
  let errors := omap (rule_error o (default "input"%string path)) rules in
  validate_input_object o rules path =
    match errors with
    | [] => Ok tt
    | _ => Err (Validation (Text ("Input object validation failed: " ++ join "; " errors)) (Some (default "input"%string path)))
    end /\
  (errors = [] <-> Forall (holds o) rules).
Proof.
  intros Ho errors. split.
  - unfold validate_input_object. rewrite Ho, fold_failures. fold errors. by destruct errors.
  - unfold errors. clear errors. induction rules as [|r rules IH]; [by split|]. cbn [omap list_omap]. rewrite list.Forall_cons, <- IH.
    pose proof (rule_error_none o (default "input"%string path) r Ho) as H. destruct (rule_error _ _ r).
    + split; [done|]. intros [Hr _]. by apply H in Hr.
    + tauto.
Qed.

(** ** Inheritance *)
Section Inheritance.
Context (g : ValidationRuleRegistry).
Definition rules_of (t : string) : list RuleMetadata := default [] (g.(rules_by_type) !! t).
(** The types from [t] to one without a parent. *)
Inductive ancestry : string -> list string -> Prop :=
| anc_root t : get_parent g t = None -> ancestry t [t]
| anc_parent t p l : get_parent g t = Some p -> ancestry p l -> ancestry t (t :: l).

Lemma ancestry_same t l l' : ancestry t l -> ancestry t l' -> l = l'.
Proof.
  intros H. revert l'. induction H as [t Ht|t p l Ht H IH]; intros l'; inversion 1; simplify_eq; [done|f_equal; by apply IH].
Qed.
Lemma inherited_twice l : map as_inherited (map as_inherited l) = map as_inherited l.
Proof. rewrite map_map. by apply map_ext. Qed.

(** The rules a type has in a mode, written over the types it descends from. *)
Fixpoint nearest_rules (chain : list string) : list RuleMetadata :=
  match chain with
  | [] => []
  | t :: rest => match g.(rules_by_type) !! t with Some own => own | None => map as_inherited (nearest_rules rest) end
  end.
Definition layered_rules (mode : InheritanceMode) (chain : list string) : list RuleMetadata :=
  match mode, chain with
  | Override, _ => nearest_rules chain
  | ChildFirst, t :: rest => rules_of t ++ map as_inherited (concat (map rules_of rest))
  | _, t :: rest => map as_inherited (concat (map rules_of (rev rest))) ++ rules_of t
  | _, [] => []
  end.
Lemma get_rules_layers fuel t chain mode :
  ancestry t chain -> (length chain <= fuel)%nat -> get_rules fuel g t mode = Some (layered_rules mode chain).
Proof.
  intros H. revert fuel. induction H as [t Ht|t p l Ht H IH]; intros [|fuel] Hf; cbn [length] in Hf; try lia.
  - cbn [get_rules]. rewrite Ht. cbn [mbind option_bind]. f_equal.
    unfold layered_rules, rules_of. destruct mode; cbn [nearest_rules rev map concat]; destruct (g.(rules_by_type) !! t); cbn; by rewrite ?app_nil_r.
  - cbn [get_rules]. rewrite Ht, (IH fuel) by lia. cbn. f_equal. unfold rules_of.
    assert (Hl : exists q r, l = q :: r) by (inversion H; eauto). destruct Hl as (q & r & ->).
    destruct mode; cbn [layered_rules nearest_rules]; unfold rules_of.
    + by destruct (_ !! t).
    + rewrite map_app, inherited_twice. cbn [rev]. rewrite map_app, concat_app, map_app. cbn. rewrite app_nil_r.
      destruct (_ !! t); cbn; by rewrite ?app_nil_r.
    + rewrite map_app, inherited_twice. cbn [map concat]. rewrite map_app. destruct (_ !! t); cbn; done.
    + rewrite map_app, inherited_twice. cbn [rev]. rewrite map_app, concat_app, map_app. cbn. rewrite app_nil_r.
      destruct (_ !! t); cbn; by rewrite ?app_nil_r.
Qed.

Inductive climbs : nat -> string -> string -> Prop :=
| climb_done t : climbs 0 t t
| climb_up n t p b : get_parent g t = Some p -> climbs n p b -> climbs (S n) t b.
Lemma climb_further n a b p : climbs n a b -> get_parent g b = Some p -> climbs (S n) a p.
Proof. induction 1 as [t|n t q b Hq _ IH]; intros Hp; [by repeat econstructor|]. econstructor; eauto. Qed.
Lemma ancestry_climb n a b l : climbs n a b -> ancestry a l -> exists l', ancestry b l' /\ (length l = n + length l')%nat.
Proof.
  intros H. revert l. induction H as [t|n t p b Hp _ IH]; intros l Hl; [by exists l|].
  inversion Hl as [? Hn|? q m Hq Hm]; subst; [congruence|]. rewrite Hp in Hq. injection Hq as <-.
  destruct (IH m Hm) as (l' & Hl' & Hlen). exists l'. split; [done|]. cbn. lia.
Qed.
Lemma cycle_no_ancestry n t : climbs (S n) t t -> ~ exists l, ancestry t l.
Proof.
  intros Hc [l Hl]. destruct (ancestry_climb _ _ _ _ Hc Hl) as (l' & Hl' & Hlen).
  rewrite (ancestry_same t l l' Hl Hl') in Hlen. lia.
Qed.

Definition unvisited (visited : gset string) : nat := base.size (dom g.(parent_types) ∖ visited).
Lemma walk_decides fuel visited t :
  (forall v, v ∈ visited -> exists n, climbs (S n) v t) -> (unvisited visited + 2 <= fuel)%nat ->
  match walk_parents fuel g visited (Some t) with
  | Some (Ok _) => exists l, ancestry t l
  | Some (Err _) => ~ exists l, ancestry t l
  | None => False
  end.
Proof.
  revert visited t. induction fuel as [|fuel IH]; intros visited t Hv Hf; [lia|]. cbn [walk_parents].
  case_bool_decide as Ht.
  { destruct (Hv t Ht) as [n Hn]. by apply (cycle_no_ancestry n). }
  destruct (get_parent g t) as [p|] eqn:Hp.
  - assert (Hdom : t ∈ dom g.(parent_types) ∖ visited) by (apply elem_of_difference; split; [|done]; by eapply elem_of_dom_2, Hp).
    assert (Hsm : (unvisited ({[t]} ∪ visited) < unvisited visited)%nat).
    { unfold unvisited. apply subset_size. split; [set_solver|]. intros H. apply H in Hdom. set_solver. }
    specialize (IH ({[t]} ∪ visited) p).
    assert (Hup : forall v, v ∈ {[t]} ∪ visited -> exists n, climbs (S n) v p).
    { intros v [->%elem_of_singleton|Hin]%elem_of_union; [exists 0%nat; by repeat econstructor|].
      destruct (Hv v Hin) as [n Hn]. exists (S n). by eapply climb_further. }
    specialize (IH Hup ltac:(lia)). destruct (walk_parents _ _ _ _) as [[|]|]; [| |done].
    + destruct IH as [l Hl]. exists (t :: l). by econstructor.
    + intros [l Hl]. apply IH. inversion Hl as [? Hn|? q m Hq Hm]; subst; [congruence|]. rewrite Hp in Hq. injection Hq as <-. eauto.
  - destruct fuel; [lia|]. exists [t]. by constructor.
Qed.

(** [validate_inheritance] always answers: it accepts a registered parent
    whose ancestors come to an end, where [get_rules] returns the rules of
    every ancestor. *)
Theorem checked_parents_end parent_name :
  (exists r, validate_inheritance parent_name g = Some r) /\
  (validate_inheritance parent_name g = Some (Ok tt) <-> (exists own, g.(rules_by_type) !! parent_name = Some own) /\ exists l, ancestry parent_name l) /\
  (validate_inheritance parent_name g = Some (Ok tt) -> forall mode, exists fuel l, ancestry parent_name l /\
     get_rules fuel g parent_name mode = Some (layered_rules mode l)).
Proof.
  unfold validate_inheritance, enough_steps. destruct (g.(rules_by_type) !! parent_name) as [own|] eqn:Eo.
  2:{ split; [eauto|]. split; [|done]. split; [done|]. by intros [[own Ho] _]. }
  pose proof (walk_decides (base.size g.(parent_types) + 3) ∅ parent_name) as H.
  assert (Hs : unvisited ∅ = base.size g.(parent_types)).
  { unfold unvisited. by rewrite difference_empty_L, size_dom. }
  specialize (H ltac:(set_solver) ltac:(lia)). destruct (walk_parents _ _ _ _) as [[[]|m]|] eqn:E; [| |done].
  - split; [eauto|]. split; [by split; [eauto|]|]. intros _ mode. destruct H as [l Hl]. exists (length l), l.
    split; [done|]. by apply get_rules_layers.
  - split; [eauto|]. split; [|done]. split; [done|]. by intros [_ Hl].
Qed.
(** Among types that descend from each other no recursion ends. *)
Lemma cyclic_rules_never_end fuel t mode : (~ exists l, ancestry t l) -> get_rules fuel g t mode = None.
Proof.
  revert t. induction fuel as [|fuel IH]; intros t Ht; [done|]. cbn [get_rules].
  destruct (get_parent g t) as [p|] eqn:Hp; [|exfalso; apply Ht; exists [t]; by constructor].
  rewrite (IH p); [done|]. intros [l Hl]. apply Ht. exists (t :: l). by econstructor.
Qed.
(** [get_rules] returns exactly on types whose ancestors come to an end. *)
Theorem inherited_rules_exact t mode :
  (forall chain, ancestry t chain -> forall fuel, (length chain <= fuel)%nat ->
     get_rules fuel g t mode = Some (layered_rules mode chain)) /\
  ((~ exists chain, ancestry t chain) -> forall fuel, get_rules fuel g t mode = None).
Proof.
  split; [intros chain Hc fuel Hf; by apply get_rules_layers|]. intros Ht fuel. by apply cyclic_rules_never_end.
Qed.
End Inheritance.

(** ** Comparisons of two fields *)
Lemma ordering_swap l r c : value_ordering l r = Some c -> value_ordering r l = Some (CompOpp c).
Proof.
  destruct l, r; try done; cbn [value_ordering].
  - set (a := default f64_zero _). set (b := default f64_zero _).
    destruct (f64_lt a b) eqn:E1, (f64_lt b a) eqn:E2; intros [= <-]; try done.
    apply f64_lt_not_le in E2. unfold f64_lt, f64_le, SpecFloat.SFltb, SpecFloat.SFleb in *. by destruct (SpecFloat.SFcompare a b) as [[]|].
  - intros [= <-]. by rewrite String.compare_antisym.
Qed.

(** The six operators are the comparisons of one order, which is that of the
    other direction reversed. *)
Theorem cross_field_order json_text fields a b va vb c path :
  assoc a fields = Some va -> assoc b fields = Some vb -> value_ordering va vb = Some c ->
  let test x o y := is_ok (validate_cross_field_comparison json_text (JObject fields) x o y path) in
  test a LessThan b = test b GreaterThan a /\
  test a LessEqual b = negb (test a GreaterThan b) /\
  test a Equal b = test a LessEqual b && test a GreaterEqual b /\
  test a NotEqual b = negb (test a Equal b) /\
  test a Equal b = test b Equal a.
Proof.
  intros Ha Hb Hc test.
  assert (Hn : forall x y d, value_ordering x y = Some d -> x <> JNull /\ y <> JNull) by (intros x y d Hd; by destruct x, y).
  assert (Ht : forall x y vx vy d o, assoc x fields = Some vx -> assoc y fields = Some vy -> value_ordering vx vy = Some d ->
      test x o y = ordering_holds o d).
  { intros x y vx vy d o Hx Hy Hd. unfold test, validate_cross_field_comparison. rewrite Hx, Hy.
    destruct (Hn _ _ _ Hd) as [Nx Ny]. cbn [ok_or mbind result_bind].
    assert (Hcv : is_ok (compare_values json_text vx vy x o y (default "input"%string path)) = ordering_holds o d).
    { unfold compare_values. rewrite Hd. by destruct (ordering_holds o d). }
    destruct vx, vy; done. }
  pose proof (ordering_swap _ _ _ Hc) as Hs.
  rewrite !(Ht a b va vb c), !(Ht b a vb va (CompOpp c)) by done. by destruct c.
Qed.

(** ** At concrete inputs *)
Module RulesDemo.
Definition no_regex (p : string) : result string (string -> bool) :=
  if p =s "[" then Err "unclosed character class"%string else Ok (fun s => contains p s).
Definition rules : list ValidationRule :=
  [Required; Length (Some 3) (Some 5)%Z; Pattern "x" None; Pattern "[" None; Enum ["abc"]; Email]%string.

Lemma validate_input_reports_witness :
  validate_input no_regex (JString "ab") "user.name" rules =
    Some (Err (Validation (Text "Multiple validation errors: user.name (length): Length must be between 3 and 5; user.name (pattern): Pattern mismatch; user.name (enum): Must be one of: abc") None)).
Proof. rewrite (validate_input_reports no_regex (JString "ab") "user.name" rules); [reflexivity|reflexivity|by repeat constructor]. Defined.
Lemma readings_agree_witness :
  is_ok (run_validator (LengthValidator (Some 3) None)%Z "ab" "f") = is_ok (validate_single_rule no_regex (Length (Some 3) None)%Z "ab" "f").
Proof. apply (readings_agree no_regex (Length (Some 3) None)%Z); done. Defined.

Definition object_of (l : list (string * json)) : json := JObject l.
Lemma input_object_exact_witness :
  validate_input_object (object_of [("id", JString "1"); ("name", JString "x")]%string)
    [ObjectOneOf ["id"; "name"]; ObjectAnyOf ["name"]]%string None <> Ok tt.
Proof.
  destruct (input_object_exact (object_of [("id", JString "1"); ("name", JString "x")]%string)
    [ObjectOneOf ["id"; "name"]; ObjectAnyOf ["name"]]%string None) as [-> _]; [reflexivity|]. vm_compute. discriminate.
Defined.

Definition family : ValidationRuleRegistry :=
  set_parent (register_type (register_type new_registry "Admin" [new_metadata Required "Admin"])
    "User" [new_metadata Email "User"]) "Admin" "User".
Lemma inherited_rules_exact_witness :
  get_rules 2 family "Admin" ParentFirst = Some [as_inherited (new_metadata Email "User"); new_metadata Required "Admin"].
Proof.
  rewrite (proj1 (inherited_rules_exact family "Admin" ParentFirst) ["Admin"; "User"]%string); [reflexivity| |done].
  eapply anc_parent; [reflexivity|]. by constructor.
Defined.
Lemma checked_parents_end_witness : exists fuel l, ancestry family "Admin" l /\ get_rules fuel family "Admin" Merge = Some (layered_rules family Merge l).
Proof. destruct (checked_parents_end family "Admin") as (_ & _ & H). by apply H. Defined.

(** The child is not looked at: the parent "Admin" is accepted for "User",
    and with it set neither type has rules any more. *)
Example child_unnoticed :
  validate_inheritance "Admin" (set_parent family "Other" "Admin") = Some (Ok tt) /\
  let g := set_parent family "User" "Admin" in forall fuel mode, get_rules fuel g "User" mode = None.
Proof.
  split; [reflexivity|]. intros g fuel mode. apply cyclic_rules_never_end. apply (cycle_no_ancestry g 1).
  eapply climb_up; [reflexivity|]. eapply climb_up; [reflexivity|]. constructor.
Qed.
Lemma cross_field_order_witness :
  is_ok (validate_cross_field_comparison (fun _ => EmptyString) (JObject [("start", JString "a"); ("end", JString "b")]%string) "start" LessThan "end" None)
  = is_ok (validate_cross_field_comparison (fun _ => EmptyString) (JObject [("start", JString "a"); ("end", JString "b")]%string) "end" GreaterThan "start" None).
Proof.
  apply (cross_field_order (fun _ => EmptyString) [("start", JString "a"); ("end", JString "b")]%string "start" "end" (JString "a") (JString "b") Lt);
    reflexivity.
Defined.
(** Integers above 2^53 are compared as the doubles next to them. *)
Example big_integers_equal :
  value_ordering (JNumber (PosInt 9007199254740993)) (JNumber (PosInt 9007199254740992)) = Some Eq.
Proof. vm_compute. reflexivity. Qed.
(** Rules the readings do not look at hold of every text. *)
Example email_unchecked s f : broken no_regex s f Email = None /\ validate_any no_regex [Email; Required] s f = Ok tt.
Proof. by split. Qed.
End RulesDemo.

