(* ===== verification/IdPolicy.v ===== *)
(** * Identifiers of inputs

    [fraiseql-core/src/validation/id_policy.rs] and [input_processor.rs]: the
    formats an identifier can have, and the walk over the variables of an
    operation that checks the fields known to hold identifiers. *)

From Stdlib Require Import Ascii.
From stdpp Require Import pretty.
From S2P Require Import Prelude Json Chars.

(** ** [id_policy.rs] *)
Inductive IDPolicy : Type := UUID | OPAQUE.
#[global] Instance IDPolicy_eq_dec : EqDecision IDPolicy.
Proof. solve_decision. Defined.
Definition enforces_uuid (p : IDPolicy) : bool := bool_decide (p = UUID).
Definition policy_str (p : IDPolicy) : string := match p with UUID => "uuid" | OPAQUE => "opaque" end.

Record IDValidationError : Type := mkIdError { id_value : string; id_policy_of : IDPolicy; id_message : string }.

Definition between_bytes (a b c : ascii) : bool := (nat_of_ascii a <=? nat_of_ascii c)%nat && (nat_of_ascii c <=? nat_of_ascii b)%nat.
Definition is_ascii_hexdigit (c : ascii) : bool :=
  between_bytes "0" "9" c || between_bytes "a" "f" c || between_bytes "A" "F" c.
Fixpoint all_bytes (p : ascii -> bool) (s : string) : bool :=
  match s with EmptyString => true | String c s => p c && all_bytes p s end.
Definition expected_lengths : list nat := [8; 4; 4; 4; 12]%nat.
(** The first segment with a wrong length, the first with another character. *)
Fixpoint wrong_length (i : nat) (parts : list string) (lengths : list nat) : option (nat * nat * string) :=
  match parts, lengths with
  | part :: parts, n :: lengths =>
      if (String.length part =? n)%nat then wrong_length (S i) parts lengths else Some (i, n, part)
  | _, _ => None
  end.
Fixpoint not_hexadecimal (i : nat) (parts : list string) : option (nat * string) :=
  match parts with
  | part :: parts => if all_bytes is_ascii_hexdigit part then not_hexadecimal (S i) parts else Some (i, part)
  | [] => None
  end.
Definition validate_uuid_format (id : string) : result IDValidationError unit :=
  let fail (m : string) : result IDValidationError unit := Err (mkIdError id UUID m) in
  if negb (String.length id =? 36)%nat then
    fail ("ID must be a valid UUID (36 characters), got " ++ pretty (String.length id) ++ " characters")%string
  else
    let parts := split "-" id in
    if negb (length parts =? 5)%nat then
      fail "ID must be a valid UUID with format XXXXXXXX-XXXX-XXXX-XXXX-XXXXXXXXXXXX"
    else
      match wrong_length 0 parts expected_lengths with
      | Some (i, n, part) =>
          fail ("UUID segment " ++ pretty i ++ " has invalid length: expected " ++ pretty n ++ ", got " ++ pretty (String.length part))%string
      | None =>
          match not_hexadecimal 0 parts with
          | Some (i, part) => fail ("UUID segment " ++ pretty i ++ " contains non-hexadecimal characters: '" ++ part ++ "'")%string
          | None => Ok tt
          end
      end.
Definition validate_id (id : string) (p : IDPolicy) : result IDValidationError unit :=
  match p with UUID => validate_uuid_format id | OPAQUE => Ok tt end.
Fixpoint validate_ids (ids : list string) (p : IDPolicy) : result IDValidationError unit :=
  match ids with [] => Ok tt | id :: ids => _ ← validate_id id p; validate_ids ids p end.

(** The validators that can be plugged in; [IdValidator] is the trait. *)
Class IdValidator (V : Type) := {
  id_validate : V -> string -> result IDValidationError unit;
  format_name : V -> string
}.
Inductive UuidIdValidator : Type := TheUuidIdValidator.
Inductive NumericIdValidator : Type := TheNumericIdValidator.
Inductive UlidIdValidator : Type := TheUlidIdValidator.
Inductive OpaqueIdValidator : Type := TheOpaqueIdValidator.
#[global] Instance uuid_validator : IdValidator UuidIdValidator :=
  {| id_validate _ v := validate_uuid_format v; format_name _ := "UUID"%string |}.
#[global] Instance numeric_validator : IdValidator NumericIdValidator :=
  {| id_validate _ v :=
       match parse_i64 v with
       | Some _ => Ok tt
       | None => Err (mkIdError v OPAQUE "ID must be a valid integer (parseable as 64-bit integer)")
       end;
     format_name _ := "integer"%string |}.
Definition crockford (c : ascii) : bool :=
  between_bytes "0" "9" c || (between_bytes "A" "Z" c && negb (existsb (Ascii.eqb c) ["I"; "L"; "O"; "U"]%char)).
#[global] Instance ulid_validator : IdValidator UlidIdValidator :=
  {| id_validate _ v :=
       if negb (String.length v =? 26)%nat then
         Err (mkIdError v OPAQUE ("ID must be a valid ULID (26 characters), got " ++ pretty (String.length v))%string)
       else if negb (all_bytes crockford v) then
         Err (mkIdError v OPAQUE "ID must be a valid ULID (Crockford base32: 0-9, A-Z except I, L, O, U)")
       else Ok tt;
     format_name _ := "ULID"%string |}.
#[global] Instance opaque_validator : IdValidator OpaqueIdValidator :=
  {| id_validate _ _ := Ok tt; format_name _ := "opaque"%string |}.

Inductive ValidationProfileType : Type :=
| PUuid (v : UuidIdValidator) | PNumeric (v : NumericIdValidator) | PUlid (v : UlidIdValidator) | POpaque (v : OpaqueIdValidator).
Record IDValidationProfile : Type := mkProfile { profile_name : string; validator : ValidationProfileType }.
Definition profile_validate (p : IDValidationProfile) (v : string) : result IDValidationError unit :=
  match p.(validator) with
  | PUuid x => id_validate x v | PNumeric x => id_validate x v | PUlid x => id_validate x v | POpaque x => id_validate x v
  end.
Definition uuid_profile : IDValidationProfile := mkProfile "uuid" (PUuid TheUuidIdValidator).
Definition numeric_profile : IDValidationProfile := mkProfile "numeric" (PNumeric TheNumericIdValidator).
Definition ulid_profile : IDValidationProfile := mkProfile "ulid" (PUlid TheUlidIdValidator).
Definition opaque_profile : IDValidationProfile := mkProfile "opaque" (POpaque TheOpaqueIdValidator).
(** [to_lowercase] of the name. *)
Definition by_name (to_lowercase : string -> string) (name : string) : option IDValidationProfile :=
  assoc (to_lowercase name)
    [("uuid", uuid_profile); ("numeric", numeric_profile); ("integer", numeric_profile); ("ulid", ulid_profile);
     ("opaque", opaque_profile); ("string", opaque_profile)]%string.

(** ** [input_processor.rs] *)
Record InputProcessingConfig : Type := mkProcessing { id_policy : IDPolicy; validate_the_ids : bool; id_field_names : gset string }.
Definition default_id_field_names : gset string :=
  list_to_set ["id"; "userId"; "user_id"; "postId"; "post_id"; "commentId"; "comment_id"; "authorId"; "author_id";
    "ownerId"; "owner_id"; "creatorId"; "creator_id"; "tenantId"; "tenant_id"]%string.
Definition default_processing : InputProcessingConfig := mkProcessing UUID true default_id_field_names.
Definition add_id_field (c : InputProcessingConfig) (name : string) : InputProcessingConfig :=
  mkProcessing c.(id_policy) c.(validate_the_ids) ({[name]} ∪ c.(id_field_names)).
Definition strict_uuid : InputProcessingConfig := mkProcessing UUID true default_id_field_names.
Definition opaque_ids : InputProcessingConfig := mkProcessing OPAQUE false default_id_field_names.

Record ProcessingError : Type := mkProcessingError { field_path : string; reason : string }.
Definition processing_text (e : ProcessingError) : string := ("Error in field '" ++ e.(field_path) ++ "': " ++ e.(reason))%string.

Definition base_field (name : string) : string := hd name (split "[" name).
Definition process_string (c : InputProcessingConfig) (s name : string) : result ProcessingError json :=
  if bool_decide (base_field name ∈ c.(id_field_names)) then
    match validate_id s c.(id_policy) with
    | Ok _ => Ok (JString s)
    | Err e => Err (mkProcessingError name ("Invalid ID value: " ++ e.(id_message))%string)
    end
  else Ok (JString s).
Definition element_name (name : string) (i : nat) : string := (name ++ "[" ++ pretty i ++ "]")%string.
Fixpoint process_value (v : json) (c : InputProcessingConfig) (name : string) {struct v} : result ProcessingError json :=
  match v with
  | JString s => process_string c s name
  | JObject obj =>
      JObject <$> (fix go (acc obj : list (string * json)) : result ProcessingError (list (string * json)) :=
        match obj with
        | [] => Ok acc
        | (key, nested) :: obj => processed ← process_value nested c key; go (map_insert key processed acc) obj
        end) [] obj
  | JArray arr =>
      JArray <$> (fix go (i : nat) (arr : list json) : result ProcessingError (list json) :=
        match arr with
        | [] => Ok []
        | item :: arr => x ← process_value item c (element_name name i); l ← go (S i) arr; Ok (x :: l)
        end) 0%nat arr
  | other => Ok other
  end.
Fixpoint process_fields (c : InputProcessingConfig) (acc obj : list (string * json)) : result ProcessingError (list (string * json)) :=
  match obj with
  | [] => Ok acc
  | (key, v) :: obj => processed ← process_value v c key; process_fields c (map_insert key processed acc) obj
  end.
Definition process_variables (variables : json) (c : InputProcessingConfig) : result ProcessingError json :=
  if c.(validate_the_ids) then
    match variables with
    | JObject obj => JObject <$> process_fields c [] obj
    | other => Ok other
    end
  else Ok variables.

(** ** Which texts are UUIDs *)
Definition uuid_text (s : string) : Prop :=
  exists a b c d e, s = (a ++ "-" ++ b ++ "-" ++ c ++ "-" ++ d ++ "-" ++ e)%string /\
    Forall2 (fun part n => String.length part = n /\ all_bytes is_ascii_hexdigit part = true) [a; b; c; d; e] expected_lengths.

Lemma split_join sep s : join (String sep EmptyString) (split sep s) = s /\ split sep s <> [].
Proof.
  induction s as [|c s [IH Hn]]; [done|]. cbn [split]. destruct (Ascii.eqb_spec c sep) as [->|Hc].
  - destruct (split sep s) as [|x l] eqn:E; [done|]. split; [|done]. cbn [join] in *. by rewrite str_nil, str_cons, IH.
  - destruct (split sep s) as [|x l] eqn:E; [done|]. split; [|done]. rewrite <- IH. destruct l; cbn [join]; by rewrite ?str_cons.
Qed.
Lemma hex_no_dash s : all_bytes is_ascii_hexdigit s = true -> has_char "-" s = false.
Proof.
  induction s as [|c s IH]; [done|]. cbn. intros [Hc Hs]%andb_true_iff. rewrite (IH Hs), orb_false_r.
  destruct (Ascii.eqb_spec c "-") as [->|]; done.
Qed.
Lemma split_parts sep a rest : has_char sep a = false -> split sep (a ++ String sep EmptyString ++ rest) = a :: split sep rest.
Proof.
  change (String sep EmptyString ++ rest)%string with (String sep rest).
  induction a as [|c a IH]; cbn [has_char]; intros H.
  - rewrite str_nil. cbn. by rewrite Ascii.eqb_refl.
  - apply orb_false_iff in H as [Hc Ha]. rewrite str_cons. cbn [split]. rewrite Hc, IH by done. done.
Qed.
Lemma split_none sep a : has_char sep a = false -> split sep a = [a].
Proof. induction a as [|c a IH]; [done|]. cbn [has_char split]. intros [Hc Ha]%orb_false_iff. by rewrite Hc, IH. Qed.

Lemma wrong_length_none i parts lengths :
  length parts = length lengths ->
  wrong_length i parts lengths = None <-> Forall2 (fun part n => String.length part = n) parts lengths.
Proof.
  revert i lengths. induction parts as [|p parts IH]; intros i [|n lengths]; try done; cbn [wrong_length length].
  intros [= Hl]. destruct (String.length p =? n)%nat eqn:E; [apply Nat.eqb_eq in E as <-|apply Nat.eqb_neq in E].
  - rewrite IH by done. split; [by constructor|by inversion 1].
  - split; [done|]. by inversion 1.
Qed.
Lemma not_hexadecimal_none i parts : not_hexadecimal i parts = None <-> Forall (fun p => all_bytes is_ascii_hexdigit p = true) parts.
Proof.
  revert i. induction parts as [|p parts IH]; intros i; cbn [not_hexadecimal]; [done|]. rewrite list.Forall_cons.
  destruct (all_bytes _ p); [rewrite IH; tauto|]. split; [done|by intros [? _]].
Qed.

(** The identifiers accepted are the five groups of hexadecimal digits. *)
Theorem uuid_exact s : validate_uuid_format s = Ok tt <-> uuid_text s.
Proof.
  unfold validate_uuid_format. split.
  - destruct (String.length s =? 36)%nat; [|done]. cbn [negb]. destruct (Nat.eqb_spec (length (split "-" s)) 5) as [Hl|]; [|done]. cbn [negb].
    destruct (wrong_length _ _ _) as [[[]]|] eqn:Ew; [done|]. destruct (not_hexadecimal _ _) as [[]|] eqn:Eh; [done|]. intros _.
    apply wrong_length_none in Ew; [|done]. apply not_hexadecimal_none in Eh. destruct (split_join "-" s) as [Hj _].
    destruct (split "-" s) as [|a [|b [|c [|d [|e []]]]]]; try done. exists a, b, c, d, e. split; [by rewrite <- Hj|].
    inversion_clear Ew as [|? ? ? ? ? E1]. inversion_clear E1 as [|? ? ? ? ? E2]. inversion_clear E2 as [|? ? ? ? ? E3].
    inversion_clear E3 as [|? ? ? ? ? E4]. inversion_clear E4. decompose_Forall. by repeat constructor.
  - intros (a & b & c & d & e & -> & Hf). unfold expected_lengths in Hf.
    repeat match goal with H : Forall2 _ (_ :: _) _ |- _ => inversion_clear H end. destruct_and!.
    rewrite !str_length_app. cbn [String.length]. repeat match goal with H : String.length _ = _ |- _ => rewrite H end. cbn [Nat.add Nat.eqb negb].
      assert (Hs : split "-" (a ++ "-" ++ b ++ "-" ++ c ++ "-" ++ d ++ "-" ++ e)%string = [a; b; c; d; e]).
    { rewrite !split_parts by (by apply hex_no_dash). rewrite split_none by (by apply hex_no_dash). done. }
    rewrite Hs. cbn [length Nat.eqb negb].
    rewrite (proj2 (wrong_length_none 0 [a; b; c; d; e] expected_lengths eq_refl)) by by repeat constructor.
    by rewrite (proj2 (not_hexadecimal_none 0 [a; b; c; d; e])) by by repeat constructor.
Qed.

(** ** The walk over the variables *)
Inductive well_formed : json -> Prop :=
| wf_null : well_formed JNull
| wf_bool b : well_formed (JBool b)
| wf_number n : well_formed (JNumber n)
| wf_string s : well_formed (JString s)
| wf_array l : Forall well_formed l -> well_formed (JArray l)
| wf_object l : Sorted.StronglySorted (fun a b => String.ltb a b = true) (map fst l) -> Forall (fun kv => well_formed kv.2) l ->
    well_formed (JObject l).

(** The texts that stand for identifiers, with the name each is reported by. *)
Section Ids.
Context (c : InputProcessingConfig).
Fixpoint ids_of (name : string) (v : json) {struct v} : list (string * string) :=
  match v with
  | JString s => if bool_decide (base_field name ∈ c.(id_field_names)) then [(name, s)] else []
  | JArray l =>
      (fix go (i : nat) (l : list json) : list (string * string) :=
        match l with [] => [] | x :: l => ids_of (element_name name i) x ++ go (S i) l end) 0%nat l
  | JObject l =>
      (fix go (l : list (string * json)) : list (string * string) :=
        match l with [] => [] | (k, x) :: l => ids_of k x ++ go l end) l
  | _ => []
  end.
Definition variable_ids (v : json) : list (string * string) :=
  match v with JObject l => flat_map (fun kv => ids_of kv.1 kv.2) l | _ => [] end.
Definition refused (e : string * string) : option ProcessingError :=
  match validate_id e.2 c.(id_policy) with
  | Ok _ => None
  | Err x => Some (mkProcessingError e.1 ("Invalid ID value: " ++ x.(id_message))%string)
  end.
Fixpoint first_refused (l : list (string * string)) : option ProcessingError :=
  match l with [] => None | e :: l => match refused e with Some x => Some x | None => first_refused l end end.
Definition checked {A} (v : A) (l : list (string * string)) : result ProcessingError A :=
  match first_refused l with Some e => Err e | None => Ok v end.

Lemma first_refused_app a b : first_refused (a ++ b) = match first_refused a with Some e => Some e | None => first_refused b end.
Proof. induction a as [|x a IH]; [done|]. cbn. destruct (refused x); [done|exact IH]. Qed.
Lemma map_insert_last {A} k (v : A) l :
  Forall (fun k' => String.ltb k' k = true) (map fst l) -> map_insert k v l = l ++ [(k, v)].
Proof.
  induction l as [|[k1 w] l IH]; [done|]. cbn [map]. intros [Hk Hl]%list.Forall_cons. cbn [map_insert fst] in *.
  unfold String.ltb in *. destruct (String.eqb_spec k k1) as [->|_].
  { pose proof (String.compare_antisym k1 k1). by destruct (String.compare k1 k1). }
  rewrite String.compare_antisym. destruct (String.compare k1 k) eqn:E; try done. cbn [CompOpp]. by rewrite IH.
Qed.

Definition sorted_keys {A} (l : list (string * A)) : Prop := Sorted.StronglySorted (fun a b => String.ltb a b = true) (map fst l).
Lemma sorted_middle {A} (acc : list (string * A)) k v l :
  sorted_keys (acc ++ (k, v) :: l) -> map_insert k v acc = acc ++ [(k, v)].
Proof.
  intros H. apply map_insert_last. unfold sorted_keys in H. rewrite map_app in H. cbn [map fst] in H.
  induction (map fst acc) as [|x xs IH]; [constructor|]. cbn in H. inversion_clear H as [|? ? Hs Hx]. constructor; [|by apply IH].
  apply list.Forall_app in Hx as [_ Hx]. by inversion Hx.
Qed.
Lemma process_fields_checked acc obj :
  Forall (fun kv => process_value kv.2 c kv.1 = checked kv.2 (ids_of kv.1 kv.2)) obj -> sorted_keys (acc ++ obj) ->
  process_fields c acc obj = checked (acc ++ obj) (flat_map (fun kv => ids_of kv.1 kv.2) obj).
Proof.
  revert acc. induction obj as [|[k v] obj IH]; intros acc Hf Hs; [by rewrite app_nil_r|].
  apply list.Forall_cons in Hf as [Hv Hf]. cbn [process_fields flat_map fst snd] in *. rewrite Hv. unfold checked at 1.
  unfold checked. rewrite first_refused_app. destruct (first_refused (ids_of k v)) as [e|]; [done|]. cbn [mbind result_bind].
  rewrite (sorted_middle acc k v obj Hs), IH; [|done|by rewrite <- app_assoc]. by rewrite <- app_assoc.
Qed.
Lemma object_ids name l : ids_of name (JObject l) = flat_map (fun kv => ids_of kv.1 kv.2) l.
Proof. cbn [ids_of]. induction l as [|[k x] l IH]; [done|]. cbn [flat_map fst snd]. by rewrite <- IH. Qed.
Lemma object_fields name l : process_value (JObject l) c name = JObject <$> process_fields c [] l.
Proof.
  cbn [process_value]. f_equal. generalize (@nil (string * json)). induction l as [|[k x] l IH]; intros acc; [done|].
  cbn [process_fields]. destruct (process_value x c k); [|done]. cbn [mbind result_bind]. apply IH.
Qed.

Lemma process_checked v name : well_formed v -> process_value v c name = checked v (ids_of name v).
Proof.
  revert name. induction v as [|b|n|s|l IH|l IH] using json_ind'; intros name Hw; try done.
  - cbn [process_value ids_of]. unfold process_string. case_bool_decide; [|done]. unfold checked. cbn [first_refused]. unfold refused. cbn.
    by destruct (validate_id s c.(id_policy)).
  - inversion_clear Hw as [| | | |? Hl|]. cbn [process_value ids_of]. generalize 0%nat.
    assert (H : forall i,
      (fix go (i : nat) (arr : list json) : result ProcessingError (list json) :=
        match arr with
        | [] => Ok []
        | item :: arr => x ← process_value item c (element_name name i); l ← go (S i) arr; Ok (x :: l)
        end) i l =
      checked l ((fix go (i : nat) (l : list json) : list (string * string) :=
        match l with [] => [] | x :: l => ids_of (element_name name i) x ++ go (S i) l end) i l)).
    { induction l as [|x l IHl]; intros i; [done|]. apply list.Forall_cons in IH as [Hx IH], Hl as [Wx Hl].
      rewrite (Hx _ Wx), (IHl IH Hl (S i)). unfold checked. rewrite first_refused_app.
      destruct (first_refused (ids_of _ x)); [done|]. cbn [mbind result_bind]. by destruct (first_refused _). }
    intros i. rewrite H. unfold checked. by destruct (first_refused _).
  - inversion_clear Hw as [| | | | |? Hs Hl]. rewrite object_ids, object_fields, process_fields_checked; [| |done].
    + unfold checked. by destruct (first_refused _).
    + apply list.Forall_forall. intros kv Hin. rewrite list.Forall_forall in IH, Hl. by apply IH, Hl.
Qed.

(** Variables come out as they went in, unless an identifier somewhere in
    them is refused: the first one is then named. *)
Theorem variables_checked v :
  well_formed v ->
  process_variables v c = if c.(validate_the_ids) then checked v (variable_ids v) else Ok v.
Proof.
  intros Hw. unfold process_variables. destruct c.(validate_the_ids); [|done]. destruct v as [| | | | |l]; try done.
  inversion_clear Hw as [| | | | |? Hs Hl]. cbn [variable_ids]. rewrite process_fields_checked; [| |done].
  - unfold checked. by destruct (first_refused _).
  - apply list.Forall_forall. intros kv Hin. apply process_checked. rewrite list.Forall_forall in Hl. by apply Hl.
Qed.
End Ids.

Module IdDemo.
Definition sample : json :=
  JObject [("note", JString "x"); ("user", JObject [("userId", JString "550e8400-e29b-41d4-a716-446655440000")]);
    ("userId", JArray [JString "550e8400-e29b-41d4-a716-446655440000"; JString "me"])]%string.
Lemma variables_checked_witness :
  process_variables sample strict_uuid =
    Err (mkProcessingError "userId[1]" "Invalid ID value: ID must be a valid UUID (36 characters), got 2 characters").
Proof. rewrite (variables_checked strict_uuid sample); [vm_compute; reflexivity|]. by repeat constructor. Defined.
Example only_known_names : process_variables (JObject [("accountId", JString "me")]%string) strict_uuid = Ok (JObject [("accountId", JString "me")]%string).
Proof. vm_compute. reflexivity. Qed.
End IdDemo.
