(* ===== verification/ResponseCache.v ===== *)
(** * The response cache

    [cache/response_cache.rs]: whole responses kept under the hash of the query
    and the hash of who asks, over the store of [CacheStore]; and
    [hash_security_context], as the sequence of values it writes to the hasher.
    The hasher itself (the [ahash] package) and the JSON text [serde_json]
    gives are parameters. *)

From S2P Require Import Prelude Json CacheStore SecurityContext.
From stdpp Require Import fin_maps fin_sets.
#[local] Open Scope Z_scope.

Module SecurityHash.
(** What [Hash] writes for strings and for an [Option]'s discriminant. *)
Inductive write : Type := WriteStr (s : string) | WriteDiscriminant (n : Z).

Definition hash_option (o : option string) : list write :=
  match o with None => [WriteDiscriminant 0] | Some s => [WriteDiscriminant 1; WriteStr s] end.

Section Hash.
Context (json_text : json -> string) (finish : list write -> Z).

Definition hash_attribute (attributes : gmap string json) (key : string) : list write :=
  match attributes !! key with Some v => [WriteStr key; WriteStr (json_text v)] | None => [] end.

Definition hash_attributes (attributes : gmap string json) : list write :=
  mjoin (hash_attribute attributes <$> str_sort (elements (dom attributes))).

Definition hash_input (ctx : SecurityContext) : list write :=
  WriteStr ctx.(user_id) :: map WriteStr (str_sort ctx.(roles)) ++ hash_option ctx.(tenant_id) ++
  map WriteStr (str_sort ctx.(scopes)) ++ hash_attributes ctx.(attributes).

Definition hash_security_context (ctx : option SecurityContext) : Z :=
  match ctx with None => 0 | Some ctx => finish (hash_input ctx) end.
End Hash.
End SecurityHash.

(** ** The cache *)
Record ResponseCacheConfig : Type := { rc_enabled : bool; rc_max_entries : Z; rc_ttl_seconds : Z }.
Definition response_config_default : ResponseCacheConfig :=
  {| rc_enabled := false; rc_max_entries := 10000; rc_ttl_seconds := 300 |}.

Record ResponseEntry : Type := { response : json; entry_views : list string }.

Module ResponseCache.
Section Cache.
Context {S : Type} {ST : Store (Z * Z) ResponseEntry S}.
(** The order a set of keys is read in. *)
Context (order : gset (Z * Z) -> list (Z * Z)).

Record Cache : Type := mkCache {
  store : S;
  view_index : gmap string (gset (Z * Z));
  enabled : bool;
  hits : Z;
  misses : Z
}.

Definition new (config : ResponseCacheConfig) (s : S) : Cache := mkCache s ∅ config.(rc_enabled) 0 0.

(** The eviction listener. *)
Definition evicted (c : Cache) (kv : (Z * Z) * ResponseEntry) : Cache :=
  mkCache c.(store) (remove_keys kv.1 kv.2.(entry_views) c.(view_index)) c.(enabled) c.(hits) c.(misses).
Definition with_store (c : Cache) (r : S * list ((Z * Z) * ResponseEntry)) : Cache :=
  foldl evicted (mkCache r.1 c.(view_index) c.(enabled) c.(hits) c.(misses)) r.2.

Definition get (c : Cache) (query_key security_hash : Z) : option json * Cache :=
  if c.(enabled) then
    match CacheStore.get c.(store) (query_key, security_hash) with
    | Some e => (Some e.(response), mkCache c.(store) c.(view_index) c.(enabled) (u64_wrap (c.(hits) + 1)) c.(misses))
    | None => (None, mkCache c.(store) c.(view_index) c.(enabled) c.(hits) (u64_wrap (c.(misses) + 1)))
    end
  else (None, c).

Definition register (c : Cache) (key : Z * Z) (views : list string) : Cache :=
  mkCache c.(store) (add_keys key views c.(view_index)) c.(enabled) c.(hits) c.(misses).

Definition put (c : Cache) (query_key security_hash : Z) (response : json) (views : list string) : Cache :=
  if negb c.(enabled) then c
  else
    let key := (query_key, security_hash) in
    let c := register c key views in
    with_store c (insert_entry c.(store) key {| response := response; entry_views := views |}).

Definition invalidate_key (c : Cache) (key : Z * Z) : Cache := with_store c (invalidate c.(store) key).

(** The keys under one view are read before any of them is invalidated. *)
Definition invalidate_view (tc : Z * Cache) (view : string) : Z * Cache :=
  let '(total, c) := tc in
  let to_remove := order (listed c.(view_index) view) in
  (u64_wrap (total + Z.of_nat (length to_remove)), foldl invalidate_key c to_remove).

Definition invalidate_views (c : Cache) (views : list string) : Z * Cache := foldl invalidate_view (0, c) views.

Definition metrics (c : Cache) : Z * Z := (c.(hits), c.(misses)).

(** The store's housekeeping, between calls. *)
Definition tick (c : Cache) : Cache := with_store c (run_pending_tasks c.(store)).
End Cache.
End ResponseCache.

Module HashFacts.
Import SecurityHash.
Section Facts.
Context (json_text : json -> string) (finish : list write -> Z).

(** The order in which a token lists roles and scopes, and the fields that
    do not decide what a user sees, leave the hash of a security context as it
    is. *)
Theorem hash_order_free (ctx ctx' : SecurityContext) :
  ctx.(user_id) = ctx'.(user_id) -> ctx.(tenant_id) = ctx'.(tenant_id) ->
  ctx.(roles) ≡ₚ ctx'.(roles) -> ctx.(scopes) ≡ₚ ctx'.(scopes) -> ctx.(attributes) = ctx'.(attributes) ->
  hash_security_context json_text finish (Some ctx) = hash_security_context json_text finish (Some ctx').
Proof.
  intros Hu Ht Hr Hs Ha. cbn. unfold hash_input.
  by rewrite Hu, Ht, Ha, (str_sort_unique _ _ Hr), (str_sort_unique _ _ Hs).
Qed.

(** Strings up to the discriminant. *)
Lemma strings_split l l' (r r' : list write) n n' :
  map WriteStr l ++ WriteDiscriminant n :: r = map WriteStr l' ++ WriteDiscriminant n' :: r' ->
  l = l' /\ n = n' /\ r = r'.
Proof.
  revert l'. induction l as [|x l IH]; intros [|y l'] E; cbn in E; try discriminate; [naive_solver|].
  injection E as -> E. destruct (IH _ E) as (-> & -> & ->). done.
Qed.

Lemma no_attributes ctx : ctx.(attributes) = ∅ -> hash_attributes json_text ctx.(attributes) = [].
Proof. intros ->. done. Qed.

(** Of two contexts without attributes that differ in user, tenant, roles
    or scopes, the hasher is written different values. *)
Theorem hash_separates (ctx ctx' : SecurityContext) : ctx.(attributes) = ∅ -> ctx'.(attributes) = ∅ ->
  hash_input json_text ctx = hash_input json_text ctx' ->
  ctx.(user_id) = ctx'.(user_id) /\ ctx.(tenant_id) = ctx'.(tenant_id) /\
  ctx.(roles) ≡ₚ ctx'.(roles) /\ ctx.(scopes) ≡ₚ ctx'.(scopes).
Proof.
  intros Ha Ha' E. unfold hash_input in E. rewrite !no_attributes, !app_nil_r in E by done.
  assert (Hsplit : forall r t s, exists n rest, map WriteStr r ++ hash_option t ++ map WriteStr s =
    map WriteStr r ++ WriteDiscriminant n :: rest /\ (n, rest) = match t with None => (0, map WriteStr s) |
      Some t => (1, WriteStr t :: map WriteStr s) end).
  { intros r [t|] s; cbn; eauto. }
  injection E as Hu E.
  destruct (Hsplit (str_sort ctx.(roles)) ctx.(tenant_id) (str_sort ctx.(scopes))) as (n & rest & E1 & N1).
  destruct (Hsplit (str_sort ctx'.(roles)) ctx'.(tenant_id) (str_sort ctx'.(scopes))) as (n' & rest' & E2 & N2).
  rewrite E1, E2 in E. apply strings_split in E as (Hr & -> & ->).
  assert (Hs : forall l l', map WriteStr l = map WriteStr l' -> l = l').
  { induction l as [|x l IH]; intros [|y l'] E'; try discriminate E'; [done|]. injection E' as -> E'. by rewrite (IH l' E'). }
  split; [done|]. rewrite <- (str_sort_perm ctx.(roles)), Hr, str_sort_perm.
  rewrite <- (str_sort_perm ctx.(scopes)), <- (str_sort_perm ctx'.(scopes)).
  rewrite N1 in N2. destruct (tenant_id ctx) as [t|], (tenant_id ctx') as [t'|]; try discriminate N2.
  - injection N2 as -> E. by rewrite (Hs _ _ E).
  - injection N2 as E. by rewrite (Hs _ _ E).
Qed.
End Facts.
End HashFacts.

Module ResponseFacts.
Import ResponseCache.
Section Facts.
Context {S : Type} {ST : Store (Z * Z) ResponseEntry S} {SL : StoreLaws (Z * Z) ResponseEntry S}.
Notation Cache := (@Cache S).

Definition under_view (c : Cache) (view : string) : gset (Z * Z) := listed c.(view_index) view.
Definition reads_view (e : ResponseEntry) (view : string) : Prop := view ∈ e.(entry_views).

Lemma told_all (l : list ((Z * Z) * ResponseEntry)) (c : Cache) view k :
  (k ∈ under_view (foldl evicted c l) view <-> k ∈ under_view c view /\ forall e, (k, e) ∈ l -> ~ reads_view e view) /\
  (foldl evicted c l).(store) = c.(store).
Proof.
  revert c. induction l as [|[key e] l IH]; intros c; cbn [foldl]; [split; set_solver|].
  destruct (IH (evicted c (key, e))) as [IH1 IH2]. rewrite IH1, IH2. split; [|done].
  unfold under_view. cbn [view_index evicted fst snd]. rewrite listed_removes. unfold reads_view. set_solver.
Qed.

Lemma told_enabled (l : list ((Z * Z) * ResponseEntry)) (c : Cache) : (foldl evicted c l).(enabled) = c.(enabled).
Proof. revert c. induction l as [|p l IH]; intros c; [done|]. cbn [foldl]. by rewrite IH. Qed.

Lemma store_with_store (c : Cache) r : (with_store c r).(store) = r.1.
Proof. unfold with_store. by rewrite (proj2 (told_all r.2 _ "" (0, 0))). Qed.

#[export] Instance response_cached : Cached Cache (Z * Z) ResponseEntry S string := {
  store_of c := c.(store);
  under := under_view;
  tagged := reads_view;
  tell := with_store
}.
#[export] Instance response_cached_laws : CachedLaws Cache (Z * Z) ResponseEntry S string.
Proof.
  split; intros; [apply store_with_store|]. cbn. unfold with_store. by rewrite (proj1 (told_all _ _ _ _)).
Qed.

Context (order : gset (Z * Z) -> list (Z * Z)) {RO : ReadOrder order}.
Notation inv := (agree (CC := response_cached)).

Inductive step : Cache -> Cache -> Prop :=
| step_get c q h : step c (get c q h).2
| step_put c q h response views : stored c.(store) !! (q, h) = None -> step c (put c q h response views)
| step_invalidate c views : step c (invalidate_views order c views).2
| step_tick c : step c (tick c).

Lemma same_inv (c c' : Cache) : c.(store) = c'.(store) -> c.(view_index) = c'.(view_index) -> inv c -> inv c'.
Proof. intros Es Ei. apply (agree_same (CC := response_cached)); [done|]. intros t. cbn. unfold under_view. by rewrite Ei. Qed.

(** One view: its keys are dropped, counted once, and no longer listed under any other. *)
Lemma invalidate_view_drops total (c : Cache) view : inv c ->
  let c' := drop_keys (CC := response_cached) (order (listed c.(view_index) view)) c in
  invalidate_view order (total, c) view = (u64_wrap (total + Z.of_nat (size (listed c.(view_index) view))), c') /\
  forall t, listed c'.(view_index) t = listed c.(view_index) t ∖ listed c.(view_index) view.
Proof.
  intros Hi. cbn zeta. split.
  - unfold invalidate_view. by rewrite (length_read order).
  - intros t. apply set_eq. intros k. rewrite elem_of_difference.
    etransitivity; [apply (drop_keys_under (CC := response_cached) _ c k t Hi)|]. by rewrite (elem_of_read order).
Qed.

Lemma invalidate_views_spec views : forall total (c : Cache), inv c ->
  let r := foldl (invalidate_view order) (total, c) views in
  inv r.2 /\ (is_u64 total -> r.1 = u64_wrap (total + Z.of_nat (size (keys_of c.(view_index) views)))) /\
  forall k, CacheStore.get r.2.(store) k =
    if decide (k ∈ keys_of c.(view_index) views) then None else CacheStore.get c.(store) k.
Proof.
  induction views as [|view views IH]; intros total c Hi; cbn zeta.
  { split; [done|]. split; [|done]. intros Ht. cbn. rewrite Z.add_0_r. by rewrite u64_wrap_id. }
  cbn [foldl]. destruct (invalidate_view_drops total c view Hi) as [-> Hl].
  set (ks := order (listed c.(view_index) view)) in *. set (c' := drop_keys ks c) in *.
  assert (Hi' : inv c') by by apply drop_keys_agree.
  destruct (IH (u64_wrap (total + Z.of_nat (size (listed c.(view_index) view)))) c' Hi') as (Hr & Hn & Hg).
  assert (Hk : keys_of c.(view_index) (view :: views) = listed c.(view_index) view ∪ keys_of c'.(view_index) views).
  { apply set_eq. intros k. rewrite elem_of_union, !elem_of_keys_of.
    destruct (decide (k ∈ listed (view_index c) view)) as [?|Hno]; [split; [by left | intros _; exists view; split; [by left|done]]|].
    split.
    - intros (n & [->|Hin]%elem_of_cons & Hk); [done|]. right. exists n. rewrite Hl. set_solver.
    - intros [?|(n & Hin & Hk)]; [done|]. rewrite Hl in Hk. exists n. set_solver. }
  split; [exact Hr|]. split.
  - intros Ht. rewrite Hn by apply u64_wrap_range. rewrite Hk, size_union.
    + unfold u64_wrap. rewrite Zplus_mod_idemp_l. f_equal. lia.
    + intros k H1 (n & _ & H2)%elem_of_keys_of. rewrite Hl in H2. set_solver.
  - intros k. rewrite Hg, Hk. change (store c') with (store_of c'). unfold c'. rewrite drop_keys_get.
    pose proof (elem_of_read order (listed c.(view_index) view) k) as Ho. fold ks in Ho.
    destruct (decide (k ∈ _ ∪ _)) as [Hin|Hin], (decide (k ∈ ks)), (decide (k ∈ keys_of _ views)); try done;
      exfalso; set_solver.
Qed.

Lemma live_after_views (c : Cache) views k e : inv c ->
  CacheStore.get (invalidate_views order c views).2.(store) k = Some e <->
  CacheStore.get c.(store) k = Some e /\ forall view, view ∈ views -> view ∉ e.(entry_views).
Proof.
  intros Hi. destruct (invalidate_views_spec views 0 c Hi) as (_ & _ & Hg). unfold invalidate_views. rewrite Hg.
  destruct (decide _) as [Hk|Hk]; rewrite elem_of_keys_of in Hk.
  - split; [done|]. intros [Hv Hno]. destruct Hk as (n & Hn' & Hk).
    destruct (agree_stored _ Hi k n Hk) as (w & Hw & Ht). apply get_stored in Hv. cbn in Hw.
    assert (w = e) as -> by congruence. by destruct (Hno n Hn').
  - split; [|by intros [? _]]. intros Hv. split; [done|]. intros n Hn' Hin. apply Hk. exists n. split; [done|].
    by apply (agree_listed _ Hi k e n).
Qed.

Lemma response_step_inv (c c' : Cache) : step c c' -> inv c -> inv c'.
Proof.
  destruct 1; intros Hi.
  - unfold get. case_bool; [|done]. destruct (CacheStore.get _ _); (apply (same_inv c); [done|done|exact Hi]).
  - unfold put. case_bool; [done|].
    apply (insert_agree (CC := response_cached) c (register c (q, h) views)); [done | done | | done].
    intros t k. apply listed_adds.
  - apply (invalidate_views_spec views 0 c Hi).
  - apply (tell_agree (CC := response_cached) c); [done | apply pending_conserves | intros k v; apply pending_get].
Qed.

Lemma reachable_response_inv config (s : S) c : (forall k, CacheStore.get s k = None) -> rtc step (new config s) c -> inv c.
Proof.
  intros He Hr. apply (rtc_invariant _ _ response_step_inv _ _ Hr). split.
  - intros k v t. cbn. by rewrite He.
  - intros k t. change (under (Cached := response_cached) (new config s) t) with (∅ : gset (Z * Z)). set_solver.
Qed.

(** Whatever calls led there, so long as no response was put under a key
    still stored, [invalidate_views] leaves exactly the live responses that
    read none of the views, and returns how many it dropped, a response that
    reads several of them counted once. *)
Theorem response_invalidation_exact config (s : S) c views : (forall k, CacheStore.get s k = None) ->
  rtc step (new config s) c ->
  (forall k e, CacheStore.get (invalidate_views order c views).2.(store) k = Some e <->
    CacheStore.get c.(store) k = Some e /\ forall view, view ∈ views -> view ∉ e.(entry_views)) /\
  (invalidate_views order c views).1 = u64_wrap (Z.of_nat (size (keys_of c.(view_index) views))) /\
  forall k, k ∈ keys_of c.(view_index) views ->
    exists e view, stored c.(store) !! k = Some e /\ view ∈ views /\ view ∈ e.(entry_views).
Proof.
  intros He Hr. pose proof (reachable_response_inv config s c He Hr) as Hi.
  destruct (invalidate_views_spec views 0 c Hi) as (_ & Hn & _). split; [|split].
  - intros k e. by apply live_after_views.
  - unfold invalidate_views. rewrite Hn by done. done.
  - intros k (n & Hn' & Hk)%elem_of_keys_of. destruct (agree_stored _ Hi k n Hk) as (w & Hw & Ht). by exists w, n.
Qed.

End Facts.
End ResponseFacts.

(** ** One user's response served to another *)
Module Collision.
Import SecurityHash ResponseCache.
Section Collision.
Context {S : Type} {ST : Store (Z * Z) ResponseEntry S} {SL : StoreLaws (Z * Z) ResponseEntry S}.
Context (json_text : json -> string) (finish : list write -> Z).

(** A context with the scopes given and one with the attribute given, otherwise alike. *)
Definition with_scopes (ctx : SecurityContext) (l : list string) : SecurityContext :=
  {| user_id := ctx.(user_id); roles := ctx.(roles); tenant_id := ctx.(tenant_id); scopes := l; attributes := ∅;
     request_id := ctx.(request_id); ip_address := ctx.(ip_address); authenticated_at := ctx.(authenticated_at);
     expires_at := ctx.(expires_at); issuer := ctx.(issuer); audience := ctx.(audience) |}.
Definition with_attribute (ctx : SecurityContext) (key : string) (v : json) : SecurityContext :=
  {| user_id := ctx.(user_id); roles := ctx.(roles); tenant_id := ctx.(tenant_id); scopes := []; attributes := {[key := v]};
     request_id := ctx.(request_id); ip_address := ctx.(ip_address); authenticated_at := ctx.(authenticated_at);
     expires_at := ctx.(expires_at); issuer := ctx.(issuer); audience := ctx.(audience) |}.

Lemma one_attribute key v : hash_attributes json_text {[key := v]} = [WriteStr key; WriteStr (json_text v)].
Proof.
  unfold hash_attributes. replace (elements (dom ({[key := v]} : gmap string json))) with [key];
    [|by rewrite dom_singleton_L, elements_singleton].
  unfold str_sort. change (sorting.merge_sort str_le [key]) with [key]. cbn. unfold hash_attribute. by rewrite lookup_singleton_eq.
Qed.

Lemma two_sorted a b : str_le a b -> str_sort [a; b] = [a; b].
Proof.
  intros Hab. apply (sorting.StronglySorted_unique str_le).
  - apply (sorting.StronglySorted_merge_sort str_le).
  - repeat constructor; done.
  - apply str_sort_perm.
Qed.

(** Nothing separates the scopes from the attributes in what is hashed:
    two scopes, and an attribute whose name and JSON text they are, give one
    hash whatever the hasher, so that the response cached for the one user is
    served to the other. *)
Theorem scopes_meet_attributes (ctx : SecurityContext) key v (c : @Cache S) query response views :
  str_le key (json_text v) -> c.(enabled) = true ->
  let one := hash_security_context json_text finish (Some (with_scopes ctx [key; json_text v])) in
  let other := hash_security_context json_text finish (Some (with_attribute ctx key v)) in
  one = other /\
  forall e : ResponseEntry, CacheStore.get (put c query one response views).(store) (query, one) = Some e ->
    (get (put c query one response views) query other).1 = Some response.
Proof.
  intros Hle Hen. cbn zeta.
  assert (E : hash_input json_text (with_scopes ctx [key; json_text v]) = hash_input json_text (with_attribute ctx key v)).
  { unfold hash_input. cbn [user_id roles tenant_id scopes attributes with_scopes with_attribute].
    rewrite two_sorted, one_attribute by done. done. }
  cbn [hash_security_context]. rewrite E. split; [done|]. intros e. unfold put. rewrite Hen. cbn [negb].
  intros Hg. unfold get.
  replace (enabled (with_store _ _)) with true by (unfold with_store; by rewrite ResponseFacts.told_enabled).
  rewrite Hg. cbn [fst]. f_equal. rewrite (ResponseFacts.store_with_store (SL := SL)) in Hg.
  by apply insert_get in Hg as [[_ ->]|[? _]].
Qed.
End Collision.
End Collision.

Module ResponseDemo.
Import Lazy SecurityHash ResponseCache HashFacts ResponseFacts Collision.
Notation lazy := (gmap (Z * Z) (ResponseEntry * bool)).

Definition alice : SecurityContext :=
  {| user_id := "alice"; roles := ["viewer"; "editor"]%string; tenant_id := Some "t1"%string; scopes := ["read"; "all"]%string;
     attributes := ∅; request_id := "r1"; ip_address := None; authenticated_at := 0; expires_at := 1; issuer := None;
     audience := None |}.
Definition alice_later : SecurityContext :=
  {| user_id := "alice"; roles := ["editor"; "viewer"]%string; tenant_id := Some "t1"%string; scopes := ["all"; "read"]%string;
     attributes := ∅; request_id := "r2"; ip_address := Some "10.0.0.1"%string; authenticated_at := 5; expires_at := 6;
     issuer := None; audience := None |}.

(** A hasher that counts, and a serializer for the values below. *)
Definition count_writes (l : list write) : Z := Z.of_nat (length l).
Definition bool_text (v : json) : string := match v with JBool true => "true" | JBool false => "false" | _ => "" end.

Lemma hash_order_free_witness :
  hash_security_context bool_text count_writes (Some alice) = hash_security_context bool_text count_writes (Some alice_later).
Proof. apply (hash_order_free bool_text count_writes alice alice_later); try reflexivity; apply Permutation_swap. Defined.

Lemma hash_separates_witness : alice.(roles) ≡ₚ alice_later.(roles) /\ alice.(scopes) ≡ₚ alice_later.(scopes).
Proof. apply (hash_separates bool_text count_writes alice alice_later); reflexivity. Defined.

Definition config : ResponseCacheConfig := {| rc_enabled := true; rc_max_entries := 100; rc_ttl_seconds := 3600 |}.
Definition start : Cache (S := lazy) := new config ∅.
Definition user_response : json := JObject [("users"%string, JArray [])].
Definition both : Cache := put (put start 1 7 user_response ["v_user"; "v_role"]%string) 2 7 JNull ["v_post"%string].

Lemma response_invalidation_exact_witness :
  (invalidate_views elements both ["v_user"; "v_role"]%string).1 = 1 /\
  CacheStore.get (invalidate_views elements both ["v_user"; "v_role"]%string).2.(store) (2, 7) =
    Some {| response := JNull; entry_views := ["v_post"%string] |}.
Proof.
  destruct (response_invalidation_exact elements config ∅ both ["v_user"; "v_role"]%string) as (Hk & Hn & _).
  - done.
  - eapply rtc_l; [|eapply rtc_once].
    + apply (step_put _ start 1 7 user_response ["v_user"; "v_role"]%string). vm_compute; reflexivity.
    + apply (step_put _ _ 2 7 JNull ["v_post"%string]). vm_compute; reflexivity.
  - split; [rewrite Hn; vm_compute; reflexivity|]. apply Hk. split; [vm_compute; reflexivity|].
    intros view Hv ->%list_elem_of_singleton. apply elem_of_cons in Hv as [?|Hv]; [discriminate|].
    apply list_elem_of_singleton in Hv. discriminate.
Defined.

Lemma scopes_meet_attributes_witness :
  (get (put start 1 (hash_security_context bool_text count_writes
         (Some (Collision.with_scopes alice ["admin"; "true"]%string))) user_response ["v_user"%string])
    1 (hash_security_context bool_text count_writes (Some (Collision.with_attribute alice "admin" (JBool true))))).1
  = Some user_response.
Proof.
  eapply (scopes_meet_attributes bool_text count_writes alice "admin" (JBool true) start 1 user_response ["v_user"%string]);
    [vm_compute; reflexivity | reflexivity | vm_compute; reflexivity].
Defined.
End ResponseDemo.

(** ** A response put twice *)
Module ReplacedResponse.
Import ResponseCache Lazy.
(** Two callers miss the same key and both put their response (or one puts over
    an expired entry not yet removed): the index lists the key before the
    store replaces the entry, and the notice of the replacement takes it out
    again.  [invalidate_views] then finds nothing, and the response stays. *)
Example replaced_response_stays :
  let views := ["v_user"%string] in
  let c0 : Cache := new {| rc_enabled := true; rc_max_entries := 10; rc_ttl_seconds := 60 |} (∅ : gmap (Z * Z) (ResponseEntry * bool)) in
  let once := put c0 1 7 JNull views in
  let twice := put once 1 7 JNull views in
  let after c := let '(n, c) := invalidate_views elements c views in (n, (get c 1 7).1) in
  after once = (1, None) /\ after twice = (0, Some JNull).
Proof. by vm_compute. Qed.
End ReplacedResponse.
