(* ===== verification/Admission.v ===== *)
(** * Admission control

    [fraiseql-server/src/resilience/backpressure.rs].  The semaphore (the
    [tokio] package's) is the number of permits left.  [Sequential] has the
    calls as they run without interference; [Interleaved] the atomic steps of
    any number of calls, a call being in flight between reading the queue depth
    and the step that follows. *)

From S2P Require Import Prelude.
#[local] Open Scope Z_scope.

Record AdmissionController : Type := mkAdmission {
  available : Z;
  queue_depth : Z;
  max_queue_depth : Z
}.
Definition new (max_concurrent max_queue_depth : Z) : AdmissionController := mkAdmission max_concurrent 0 max_queue_depth.

Definition queue_full (a : AdmissionController) : bool := a.(max_queue_depth) <=? a.(queue_depth).
Definition take_permit (a : AdmissionController) : option AdmissionController :=
  if 0 <? a.(available) then Some (mkAdmission (a.(available) - 1) a.(queue_depth) a.(max_queue_depth)) else None.
Definition add_depth (n : Z) (a : AdmissionController) : AdmissionController :=
  mkAdmission a.(available) (u64_wrap (a.(queue_depth) + n)) a.(max_queue_depth).
(** Dropping a permit. *)
Definition release (a : AdmissionController) : AdmissionController :=
  mkAdmission (a.(available) + 1) a.(queue_depth) a.(max_queue_depth).

Module Sequential.
(** Whether a permit is granted. *)
Definition try_acquire (a : AdmissionController) : bool * AdmissionController :=
  if queue_full a then (false, a)
  else match take_permit a with
       | Some a => (true, a)
       | None => (false, add_depth 1 a)
       end.

(** [waited] is what the other calls do to the controller while this one waits. *)
Definition acquire_timeout (waited : AdmissionController -> AdmissionController) (a : AdmissionController) :
    bool * AdmissionController :=
  if queue_full a then (false, a)
  else
    let a := waited (add_depth 1 a) in
    match take_permit a with
    | Some a => (true, add_depth (-1) a)
    | None => (false, add_depth (-1) a)
    end.
End Sequential.

Module Interleaved.
(** The controller with its calls: those of [try_acquire] and of
    [acquire_timeout] in flight, those waiting for a permit, those holding one. *)
Record State : Type := mkState {
  ac : AdmissionController;
  trying : Z; entering : Z; waiting : Z; held : Z
}.
Definition start (a : AdmissionController) : State := mkState a 0 0 0 0.

Inductive event : Type :=
| Refused | Passed | Acquired | Failed | Queued | Granted | Expired | Released.

Section Step.
(** The most calls in flight at once. *)
Context (callers : Z).
Definition room (s : State) : Prop := s.(trying) + s.(entering) < callers.

Inductive step : State -> event -> State -> Prop :=
| step_refused s : queue_full s.(ac) = true -> step s Refused s
| step_try s : queue_full s.(ac) = false -> room s ->
    step s Passed (mkState s.(ac) (s.(trying) + 1) s.(entering) s.(waiting) s.(held))
| step_enter s : queue_full s.(ac) = false -> room s ->
    step s Passed (mkState s.(ac) s.(trying) (s.(entering) + 1) s.(waiting) s.(held))
| step_admit s a : 0 < s.(trying) -> take_permit s.(ac) = Some a ->
    step s Acquired (mkState a (s.(trying) - 1) s.(entering) s.(waiting) (s.(held) + 1))
| step_fail s : 0 < s.(trying) -> take_permit s.(ac) = None ->
    step s Failed (mkState (add_depth 1 s.(ac)) (s.(trying) - 1) s.(entering) s.(waiting) s.(held))
| step_queue s : 0 < s.(entering) ->
    step s Queued (mkState (add_depth 1 s.(ac)) s.(trying) (s.(entering) - 1) (s.(waiting) + 1) s.(held))
| step_grant s a : 0 < s.(waiting) -> take_permit s.(ac) = Some a ->
    step s Granted (mkState (add_depth (-1) a) s.(trying) s.(entering) (s.(waiting) - 1) (s.(held) + 1))
| step_expire s : 0 < s.(waiting) ->
    step s Expired (mkState (add_depth (-1) s.(ac)) s.(trying) s.(entering) (s.(waiting) - 1) s.(held))
| step_release s : 0 < s.(held) ->
    step s Released (mkState (release s.(ac)) s.(trying) s.(entering) s.(waiting) (s.(held) - 1)).

Inductive run : State -> list event -> State -> Prop :=
| run_nil s : run s [] s
| run_cons s e s' l s'' : step s e s' -> run s' l s'' -> run s (e :: l) s''.

Lemma run_app s l s' l' s'' : run s l s' -> run s' l' s'' -> run s (l ++ l') s''.
Proof. induction 1; [done|]. intros ?. econstructor; eauto. Qed.

Definition is_failed (e : event) : bool := match e with Failed => true | _ => false end.
Notation failures := (countb is_failed).

(** The queue depth counts the calls waiting and every [try_acquire] that ever
    failed; permits are conserved. *)
Record inv (max_concurrent max_depth : Z) (failed : Z) (s : State) : Prop := {
  inv_depth : s.(ac).(queue_depth) = s.(waiting) + failed;
  inv_max : s.(ac).(max_queue_depth) = max_depth;
  inv_permits : s.(ac).(available) + s.(held) = max_concurrent;
  inv_counts : 0 <= s.(trying) /\ 0 <= s.(entering) /\ 0 <= s.(waiting) /\ 0 <= s.(held) /\ 0 <= s.(ac).(available) /\ 0 <= failed;
  inv_room : s.(ac).(queue_depth) + s.(trying) + s.(entering) <= max_depth + callers
}.

Context (max_concurrent max_depth : Z).
Hypothesis Hconc : 0 <= max_concurrent.
Hypothesis Hdepth : 0 <= max_depth.
Hypothesis Hcallers : 0 <= callers.
Hypothesis Hbound : max_depth + callers <= u64_max.

Lemma step_inv_admission failed s e s' : step s e s' -> inv max_concurrent max_depth failed s ->
  inv max_concurrent max_depth (failed + b2z (is_failed e)) s'.
Proof using Hbound.
  intros Hs [H1 H2 H3 H4 H5]. assert (Hw : forall n, 0 <= n <= u64_max -> u64_wrap n = n) by (intros; by apply u64_wrap_id).
  destruct Hs as [s|s Hq Hr|s Hq Hr|s a Ht Hp|s Ht Hp|s Ht|s a Ht Hp|s Ht|s Ht]; unfold queue_full, room, take_permit in *;
    try (destruct (0 <? available (ac s)) eqn:Ha; [|discriminate]; injection Hp as <-); try (case_bool; [discriminate|]);
    cbn [is_failed b2z]; split; cbn [ac trying entering waiting held available queue_depth max_queue_depth add_depth release];
    rewrite ?Hw by lia; try bool_lia; lia.
Qed.

Lemma run_inv failed s l s' : run s l s' -> inv max_concurrent max_depth failed s ->
  inv max_concurrent max_depth (failed + failures l) s'.
Proof using Hbound.
  intros Hr. revert failed. induction Hr as [s|s e s' l s'' Hs _ IH]; intros failed Hi.
  - by rewrite Z.add_0_r.
  - cbn [countb]. rewrite Z.add_assoc. apply IH. by eapply step_inv_admission.
Qed.

Lemma start_inv : inv max_concurrent max_depth 0 (start (new max_concurrent max_depth)).
Proof using Hconc Hdepth Hcallers. split; cbn; lia. Qed.

(** The queue depth is the number of calls waiting as long as no
    [try_acquire] has failed, however the calls interleave; when none waits and
    a permit is free, the next call is admitted at once. *)
Theorem waiting_calls_recover l s : run (start (new max_concurrent max_depth)) l s -> failures l = 0 ->
  s.(ac).(queue_depth) = s.(waiting) /\ s.(ac).(available) + s.(held) = max_concurrent /\
  (s.(waiting) = 0 -> 0 < s.(ac).(available) -> 0 < max_depth ->
   fst (Sequential.try_acquire s.(ac)) = true /\ fst (Sequential.acquire_timeout (fun a => a) s.(ac)) = true).
Proof.
  intros Hr Hf. destruct (run_inv 0 _ _ _ Hr start_inv) as [H1 H2 H3 H4 H5]. rewrite Hf in H1.
  split; [lia|]. split; [done|]. intros Hw Ha Hm. unfold Sequential.try_acquire, Sequential.acquire_timeout, queue_full.
  replace (_ <=? _) with false by (symmetry; apply Z.leb_gt; lia). unfold take_permit.
  cbn [available add_depth]. by replace (0 <? _) with true by (symmetry; apply Z.ltb_lt; lia).
Qed.

(** C38. A failed [try_acquire] is counted in the queue depth and never taken
    out: after as many failures as the depth allows, no later call passes the
    check, whatever calls expire and whatever permits come back. *)
Theorem refused_forever l s : run (start (new max_concurrent max_depth)) l s -> max_depth <= failures l ->
  forall l' s', run s l' s' -> queue_full s'.(ac) = true /\ Passed ∉ l' /\
    Sequential.try_acquire s'.(ac) = (false, s'.(ac)) /\
    forall waited, Sequential.acquire_timeout waited s'.(ac) = (false, s'.(ac)).
Proof.
  intros Hr Hf l' s' Hr'.
  assert (Hfull : forall l' s', run s l' s' -> queue_full s'.(ac) = true).
  { intros l1 s1 Hr1. destruct (run_inv 0 _ _ _ (run_app _ _ _ _ _ Hr Hr1) start_inv) as [H1 H2 _ H4 _].
    rewrite countb_app in H1. pose proof (countb_range is_failed l1). apply Z.leb_le. lia. }
  split; [by eapply Hfull|]. split.
  - assert (H : forall l s1 s2, run s1 l s2 -> (forall l1 s3, run s1 l1 s3 -> queue_full s3.(ac) = true) -> Passed ∉ l).
    { clear. induction 1 as [s1|s1 e s2 l s3 Hs Hr IH]; intros Hq; [set_solver|].
      apply not_elem_of_cons. split.
      - intros <-. pose proof (Hq [] s1 (run_nil s1)) as Hq'. inversion Hs; congruence.
      - apply IH. intros l1 s4 Hr4. eapply Hq. by econstructor. }
    by eapply H.
  - unfold Sequential.try_acquire, Sequential.acquire_timeout. by rewrite (Hfull _ _ Hr').
Qed.
End Step.

(** One permit, one place in the queue: a failed attempt, and the permit's
    return changes nothing. *)
Definition held_one : State := mkState (mkAdmission 0 0 1) 0 0 0 1.
Lemma one_failure : run 10 (start (new 1 1)) [Passed; Acquired; Passed; Failed; Released] (mkState (mkAdmission 1 1 1) 0 0 0 0).
Proof.
  eapply run_cons; [by apply step_try|]. eapply run_cons; [by eapply step_admit|].
  eapply run_cons; [by apply step_try|]. eapply run_cons; [by apply step_fail|].
  eapply run_cons; [by apply step_release|]. apply run_nil.
Qed.

Lemma refused_forever_witness : Sequential.try_acquire (mkAdmission 1 1 1) = (false, mkAdmission 1 1 1).
Proof.
  refine (proj1 (proj2 (proj2 (refused_forever 10 1 1 _ _ _ _ _ _ one_failure _ [] _ (run_nil 10 _)))));
    vm_compute; congruence.
Defined.

Lemma waiting_calls_recover_witness : fst (Sequential.try_acquire (mkAdmission 1 0 1)) = true.
Proof.
  refine (proj1 (proj2 (proj2 (waiting_calls_recover 10 1 1 _ _ _ _ [Passed; Queued; Expired]
    (mkState (mkAdmission 1 0 1) 0 0 0 0) _ _)) _ _ _)); try (vm_compute; congruence).
  eapply run_cons; [by apply step_enter|]. eapply run_cons; [by apply step_queue|].
  eapply run_cons; [by apply step_expire|]. apply run_nil.
Defined.
End Interleaved.
