(* ===== verification/OrderBy.v ===== *)
(** * Sort orders

    [fraiseql-db/src/types/sql_hints.rs]: the clauses of an ORDER BY, and how
    they are read from the JSON of an [orderBy] argument. *)

From Stdlib Require Import Ascii.
From S2P Require Import Prelude Json WhereClause.
#[local] Open Scope Z_scope.

Inductive OrderDirection : Type := Asc | Desc.
Definition as_sql (d : OrderDirection) : string := match d with Asc => "ASC" | Desc => "DESC" end.
Inductive OrderByFieldType : Type := Text | Integer | Numeric | Boolean | DateTime | Date | Time.
Record OrderByClause : Type := mkOrderBy {
  order_field : string;
  direction : OrderDirection;
  field_type : OrderByFieldType;
  native_column : option string
}.
Definition new (field : string) (d : OrderDirection) : OrderByClause := mkOrderBy field d Text None.
Definition storage_key (c : OrderByClause) : string := to_snake_case c.(order_field).

(** ** Field names *)
Definition code (c : ascii) : Z := Z.of_nat (nat_of_ascii c).
Definition is_ascii_alphabetic (c : ascii) : bool :=
  ((65 <=? code c) && (code c <=? 90)) || ((97 <=? code c) && (code c <=? 122)).
Definition is_ascii_digit (c : ascii) : bool := (48 <=? code c) && (code c <=? 57).
Definition name_char (c : ascii) : bool := is_ascii_alphabetic c || is_ascii_digit c || Ascii.eqb c "_".
Fixpoint all_chars (p : ascii -> bool) (s : string) : bool :=
  match s with EmptyString => true | String c s => p c && all_chars p s end.
Definition valid_field_name (field : string) : bool :=
  match field with
  | EmptyString => false
  | String c rest => (is_ascii_alphabetic c || Ascii.eqb c "_") && all_chars name_char rest
  end.
Definition validate_field_name (field : string) : result FraiseQLError unit :=
  if valid_field_name field then Ok tt
  else Err (validation ("orderBy field name '" ++ field ++
    "' contains invalid characters; only [_A-Za-z][_0-9A-Za-z]* is allowed")).

(** ** From JSON *)
Definition ascii_upper (c : ascii) : ascii :=
  if (97 <=? code c) && (code c <=? 122) then ascii_of_nat (nat_of_ascii c - 32) else c.
Fixpoint to_ascii_uppercase (s : string) : string :=
  match s with EmptyString => EmptyString | String c s => String (ascii_upper c) (to_ascii_uppercase s) end.

Definition parse_direction (dir_str : string) : result FraiseQLError OrderDirection :=
  let upper := to_ascii_uppercase dir_str in
  if upper =s "ASC" then Ok Asc
  else if upper =s "DESC" then Ok Desc
  else Err (validation ("orderBy direction '" ++ dir_str ++ "' must be ASC or DESC")).

Definition as_str (v : json) : option string := match v with JString s => Some s | _ => None end.

(** [iter().map(..).collect()]: up to the first error. *)
Fixpoint collect {A B} (f : A -> result FraiseQLError B) (l : list A) : result FraiseQLError (list B) :=
  match l with [] => Ok [] | x :: l => y ← f x; ys ← collect f l; Ok (y :: ys) end.

Definition object_entry (kv : string * json) : result FraiseQLError OrderByClause :=
  let '(field, dir_val) := kv in
  dir_str ← ok_or (as_str dir_val) (validation ("orderBy direction for '" ++ field ++ "' must be a string"));
  d ← parse_direction dir_str;
  _ ← validate_field_name field;
  Ok (new field d).

Definition array_item (item : json) : result FraiseQLError OrderByClause :=
  match item with
  | JObject fields =>
      field ← ok_or (assoc "field" fields ≫= as_str) (validation "orderBy item missing 'field' string");
      d ← parse_direction (default "ASC" (assoc "direction" fields ≫= as_str));
      _ ← validate_field_name field;
      Ok (new field d)
  | _ => Err (validation "orderBy array items must be objects")
  end.

Definition from_graphql_json (value : json) : result FraiseQLError (list OrderByClause) :=
  match value with
  | JObject fields => collect object_entry fields
  | JArray items => collect array_item items
  | _ => Err (validation "orderBy must be an object or array")
  end.

(** What is read is safe to write into SQL: every field is an identifier. *)
Lemma order_fields_valid v clauses : from_graphql_json v = Ok clauses ->
  Forall (fun c => valid_field_name c.(order_field) = true) clauses.
Proof.
  assert (H : forall A (f : A -> _) l clauses,
    (forall x c, f x = Ok c -> valid_field_name c.(order_field) = true) -> collect f l = Ok clauses ->
    Forall (fun c => valid_field_name c.(order_field) = true) clauses).
  { intros A f l. induction l as [|x l IH]; intros cs Hf; cbn [collect]; [intros [= <-]; constructor|].
    intros (c & Hc & (cs' & Hcs & [= <-])%bind_Ok)%bind_Ok. constructor; [by eapply Hf | by apply IH]. }
  unfold from_graphql_json. destruct v as [| | | |items|fields]; try done; apply H.
  - intros [] c; cbn [array_item]; try done. intros (field & _ & (d & _ & ([] & Hv & [= <-])%bind_Ok)%bind_Ok)%bind_Ok.
    unfold validate_field_name in Hv. by destruct (valid_field_name field) eqn:E.
  - intros [field dir] c. cbn [object_entry]. intros (s & _ & (d & _ & ([] & Hv & [= <-])%bind_Ok)%bind_Ok)%bind_Ok.
    unfold validate_field_name in Hv. by destruct (valid_field_name field) eqn:E.
Qed.
