(* ===== verification/CacheKey.v ===== *)
(** * Cache keys

    [fraiseql-core/src/cache/key.rs], which calls itself security-critical:
    different queries, variables, filters and versions must have different
    keys.  A key is what the hasher makes of the values written to it; the
    functions here give these values in order, and the hasher (the [ahash]
    package) is left out.  [Same] says when two inputs are the same query, and
    the theorem that they write the same values exactly then. *)

From S2P Require Import Prelude Json WhereClause OrderBy.
#[local] Open Scope Z_scope.

(** What is written to the hasher: bytes, integers of a width, and the
    discriminant of an operator ([None] for the extended operators). *)
Inductive write : Type :=
| Write (bytes : string)
| WriteU8 (n : Z)
| WriteU32 (n : Z)
| WriteUsize (n : Z)
| WriteOperator (variant : option Op.WhereOperator).

(** ** [types/sql_hints.rs] and [types/db_types.rs] *)
Inductive DatabaseType : Type := PostgreSQL | MySQL | SQLite | SQLServer.
Record SqlProjectionHint : Type := {
  database : DatabaseType;
  projection_template : string;
  estimated_reduction_percent : Z
}.

(** The entries of an object by key, each found as [map[key]] finds it. *)
Definition ordered {A} (fields : list (string * A)) : list (string * A) :=
  omap (fun k => pair k <$> assoc k fields) (str_sort fields.*1).

Section Keys.
(** [Number::to_string], and the [Debug] texts of an extended operator and of a
    native-column clause. *)
Context (number_text : json_number -> string) (debug_operator : ExtendedOperator -> string)
  (debug_clause : WhereClause -> string).

Fixpoint hash_json_value (v : json) : list write :=
  match v with
  | JNull => [WriteU8 0]
  | JBool b => [WriteU8 1; WriteU8 (b2z b)]
  | JNumber n => [WriteU8 2; Write (number_text n)]
  | JString s => [WriteU8 3; Write s]
  | JArray l => WriteU8 4 :: WriteUsize (Z.of_nat (length l)) :: concat (map hash_json_value l)
  | JObject fields =>
      WriteU8 5 :: WriteUsize (Z.of_nat (length fields)) ::
      concat (map (fun kv => Write kv.1 :: kv.2) (ordered (map (fun kv => (kv.1, hash_json_value kv.2)) fields)))
  end.

Definition hash_where_operator (op : Op.WhereOperator) : list write :=
  match op with
  | Op.Extended inner => [WriteOperator None; Write (debug_operator inner)]
  | op => [WriteOperator (Some op)]
  end.

Definition hash_path (path : list string) : list write :=
  WriteUsize (Z.of_nat (length path)) :: concat (map (fun segment => [Write segment; WriteU8 0]) path).

(** The tags are the letters F, A, O, N and the question mark. *)
Fixpoint hash_where_clause (c : WhereClause) : list write :=
  match c with
  | Field path op v => WriteU8 70 :: hash_path path ++ hash_where_operator op ++ hash_json_value v
  | And l => WriteU8 65 :: WriteUsize (Z.of_nat (length l)) :: concat (map hash_where_clause l)
  | Or l => WriteU8 79 :: WriteUsize (Z.of_nat (length l)) :: concat (map hash_where_clause l)
  | Not c => WriteU8 78 :: hash_where_clause c
  | NativeField _ _ _ _ => [WriteU8 63; Write (debug_clause c)]
  end.

Definition hash_direction (d : OrderDirection) : write := WriteU8 (match d with Asc => 0 | Desc => 1 end).
Definition hash_order_clause (c : OrderByClause) : list write := [Write (storage_key c); hash_direction c.(direction)].
(** No order and an empty one are one. *)
Definition hash_order_by (order : option (list OrderByClause)) : list write :=
  match order with
  | None | Some [] => [WriteU8 0]
  | Some l => WriteU8 1 :: WriteUsize (Z.of_nat (length l)) :: concat (map hash_order_clause l)
  end.

Definition hash_where (c : option WhereClause) : list write :=
  match c with Some c => WriteU8 1 :: hash_where_clause c | None => [WriteU8 0] end.
Definition hash_u32 (n : option Z) : list write :=
  match n with Some n => [WriteU8 1; WriteU32 n] | None => [WriteU8 0] end.
Definition hash_projection (p : option SqlProjectionHint) : list write :=
  match p with Some p => [WriteU8 1; Write p.(projection_template)] | None => [WriteU8 0] end.

(** The byte before the letter of a section is zero. *)
Definition section_tag (s : string) : write := Write (String Ascii.zero s).

Definition cache_key_input (query : string) (variables : json) (c : option WhereClause) (schema_version : string) :
    list write :=
  [Write "q:"; Write query; section_tag "v:"] ++ hash_json_value variables ++ section_tag "w:" :: hash_where c ++
  [section_tag "s:"; Write schema_version].

(** What follows the view, and the projection where there is one. *)
Definition page_input (c : option WhereClause) (limit offset : option Z) (order : option (list OrderByClause))
    (schema_version : string) : list write :=
  section_tag "w:" :: hash_where c ++ section_tag "l:" :: hash_u32 limit ++ section_tag "o:" :: hash_u32 offset ++
  section_tag "b:" :: hash_order_by order ++ [section_tag "s:"; Write schema_version].

Definition view_query_key_input (view : string) (c : option WhereClause) (limit offset : option Z)
    (order : option (list OrderByClause)) (schema_version : string) : list write :=
  Write "v:" :: Write view :: page_input c limit offset order schema_version.

Definition projection_query_key_input (view : string) (projection : option SqlProjectionHint) (c : option WhereClause)
    (limit offset : option Z) (order : option (list OrderByClause)) (schema_version : string) : list write :=
  Write "p:" :: Write view :: section_tag "j:" :: hash_projection projection ++
  page_input c limit offset order schema_version.

Section Hasher.
(** [new_hasher] with its fixed seeds, and [finish]. *)
Context (finish : list write -> Z).
Definition generate_cache_key query variables c schema_version : Z :=
  finish (cache_key_input query variables c schema_version).
Definition generate_view_query_key view c limit offset order schema_version : Z :=
  finish (view_query_key_input view c limit offset order schema_version).
Definition generate_projection_query_key view projection c limit offset order schema_version : Z :=
  finish (projection_query_key_input view projection c limit offset order schema_version).
End Hasher.

(** [extract_accessed_views], of the two fields of the definition it reads. *)
Definition extract_accessed_views (sql_source : option string) (additional_views : list string) : list string :=
  option_list sql_source ++ additional_views.
End Keys.

(** ** When two inputs are the same query *)
Module Same.
Section Same.
Context (number_text : json_number -> string) (debug_operator : ExtendedOperator -> string)
  (debug_clause : WhereClause -> string).

(** Equal values, objects up to the order of their keys. *)
Inductive same_json : json -> json -> Prop :=
| same_null : same_json JNull JNull
| same_bool b : same_json (JBool b) (JBool b)
| same_number n m : number_text n = number_text m -> same_json (JNumber n) (JNumber m)
| same_string s : same_json (JString s) (JString s)
| same_array l l' : Forall2 same_json l l' -> same_json (JArray l) (JArray l')
| same_object f f' : length f = length f' ->
    Forall2 (fun kv kv' => kv.1 = kv'.1 /\ same_json kv.2 kv'.2) (ordered f) (ordered f') -> same_json (JObject f) (JObject f').

Definition same_operator (o o' : Op.WhereOperator) : Prop :=
  match o, o' with Op.Extended i, Op.Extended i' => debug_operator i = debug_operator i' | _, _ => o = o' end.

Inductive same_clause : WhereClause -> WhereClause -> Prop :=
| same_field p o o' v v' : same_operator o o' -> same_json v v' -> same_clause (Field p o v) (Field p o' v')
| same_and l l' : Forall2 same_clause l l' -> same_clause (And l) (And l')
| same_or l l' : Forall2 same_clause l l' -> same_clause (Or l) (Or l')
| same_not c c' : same_clause c c' -> same_clause (Not c) (Not c')
| same_native a p o v a' p' o' v' : debug_clause (NativeField a p o v) = debug_clause (NativeField a' p' o' v') ->
    same_clause (NativeField a p o v) (NativeField a' p' o' v').

Definition same_order_clause (c c' : OrderByClause) : Prop :=
  storage_key c = storage_key c' /\ c.(direction) = c'.(direction).
Definition same_order (o o' : option (list OrderByClause)) : Prop :=
  Forall2 same_order_clause (default [] o) (default [] o').

Definition same_page (c c' : option WhereClause) (limit limit' offset offset' : option Z)
    (order order' : option (list OrderByClause)) (version version' : string) : Prop :=
  option_Forall2 same_clause c c' /\ limit = limit' /\ offset = offset' /\ same_order order order' /\ version = version'.
End Same.
End Same.

Module KeyFacts.
Import Same.

(** An encoding read off the front of any list determines what it encodes, up to [R]. *)
Definition reads_off {A} (enc : A -> list write) (R : A -> A -> Prop) (x : A) : Prop :=
  forall y r r', enc x ++ r = enc y ++ r' <-> R x y /\ r = r'.

Lemma reads_off_concat {A} (enc : A -> list write) R l : Forall (reads_off enc R) l ->
  forall l' r r', length l = length l' ->
    concat (map enc l) ++ r = concat (map enc l') ++ r' <-> Forall2 R l l' /\ r = r'.
Proof.
  induction 1 as [|x l Hx _ IH]; intros [|y l'] r r' Hl; try discriminate Hl.
  { cbn. split; [intros ->; split; [constructor|done] | by intros [_ ->]]. }
  cbn [map concat]. rewrite <- !app_assoc, (Hx y), IH by (cbn in Hl; lia). split.
  - intros (? & ? & ->). split; [by constructor|done].
  - intros [HR ->]. inversion HR; subst. done.
Qed.

(** The same with the length written first. *)
Lemma reads_off_counted {A} (enc : A -> list write) R l l' r r' : Forall (reads_off enc R) l ->
  (WriteUsize (Z.of_nat (length l)) :: concat (map enc l)) ++ r = (WriteUsize (Z.of_nat (length l')) :: concat (map enc l')) ++ r' <->
  Forall2 R l l' /\ r = r'.
Proof.
  intros Hl. cbn [app]. split.
  - intros E. injection E as Hn E. apply Nat2Z.inj in Hn. by apply (reads_off_concat enc R l Hl).
  - intros [HR ->]. pose proof (Forall2_length HR) as Hn. rewrite Hn. f_equal.
    by apply (reads_off_concat enc R l Hl).
Qed.

Section Facts.
Context (number_text : json_number -> string) (debug_operator : ExtendedOperator -> string)
  (debug_clause : WhereClause -> string).
Notation hash_json := (hash_json_value number_text).
Notation hash_clause := (hash_where_clause number_text debug_operator debug_clause).

Lemma assoc_map {A B} (g : A -> B) k (f : list (string * A)) :
  assoc k (map (fun kv => (kv.1, g kv.2)) f) = g <$> assoc k f.
Proof. induction f as [|[k' v] f IH]; cbn; [done|]. destruct (k' =s k); [done|exact IH]. Qed.

Lemma ordered_map {A B} (g : A -> B) (f : list (string * A)) :
  ordered (map (fun kv => (kv.1, g kv.2)) f) = map (fun kv => (kv.1, g kv.2)) (ordered f).
Proof.
  unfold ordered. replace ((map (fun kv => (kv.1, g kv.2)) f).*1) with f.*1
    by (induction f as [|x f IH]; cbn; [done|by f_equal]).
  induction (str_sort f.*1) as [|k ks IH]; cbn; [done|]. rewrite assoc_map, IH. by destruct (assoc k f).
Qed.

Lemma assoc_in {A} k v (f : list (string * A)) : assoc k f = Some v -> (k, v) ∈ f.
Proof.
  induction f as [|[k' w] f IH]; cbn; [done|]. destruct (k' =s k) eqn:E.
  - intros [= ->]. apply String.eqb_eq in E as ->. by left.
  - intros Hk. right. by apply IH.
Qed.

Lemma assoc_of_key {A} k (f : list (string * A)) : k ∈ f.*1 -> is_Some (assoc k f).
Proof.
  induction f as [|[k' v] f IH]; cbn; [set_solver|]. intros [->|Hk]%elem_of_cons; [by rewrite streqb_refl|].
  destruct (k' =s k); [eauto|by apply IH].
Qed.

Lemma ordered_in {A} (kv : string * A) f : kv ∈ ordered f -> kv ∈ f.
Proof.
  unfold ordered. intros (k & _ & Hk)%list_elem_of_omap. destruct (assoc k f) as [v|] eqn:E; [|done].
  injection Hk as <-. by apply assoc_in.
Qed.

Lemma ordered_length {A} (f : list (string * A)) : length (ordered f) = length f.
Proof.
  unfold ordered. transitivity (length (str_sort f.*1)).
  - assert (H : forall k, k ∈ str_sort f.*1 -> is_Some (assoc k f)) by (intros k; rewrite str_sort_perm; apply assoc_of_key).
    induction (str_sort f.*1) as [|k ks IH]; cbn; [done|].
    destruct (H k ltac:(by left)) as [v ->]. cbn. f_equal. apply IH. intros k' Hk'. apply H. by right.
  - rewrite str_sort_perm. by rewrite length_fmap.
Qed.

Lemma json_reads_off v : reads_off hash_json (same_json number_text) v.
Proof.
  induction v as [|b|n|s|l IH|f IH] using json_ind'; intros w r r';
    (destruct w; try (split; [cbn; intros E; discriminate E | intros [E _]; inversion E])).
  - cbn. split; [intros [= ->]; split; [constructor|done] | by intros [_ ->]].
  - cbn. split.
    + intros E. injection E as Hb ->. split; [|done]. destruct b, b0; try discriminate Hb; constructor.
    + intros [E ->]. by inversion E.
  - cbn. split; [intros [= Hn ->]; split; [by apply same_number|done] | intros [E ->]; inversion E; congruence].
  - cbn. split; [intros [= -> ->]; split; [constructor|done] | by intros [E ->]; inversion E].
  - cbn [hash_json_value]. pose proof (reads_off_counted _ _ l l0 r r' IH) as H.
    split.
    + intros E. injection E as E1 E2. destruct (proj1 H) as [HR ->]; [by cbn; rewrite E1, E2|]. split; [by constructor|done].
    + intros [E ->]. inversion E; subst. cbn [app]. f_equal. by apply H.
  - cbn [hash_json_value]. rewrite !ordered_map, !map_map, <- (ordered_length f), <- (ordered_length fields).
    pose proof (reads_off_counted (fun kv => Write kv.1 :: hash_json kv.2)
      (fun kv kv' => kv.1 = kv'.1 /\ same_json number_text kv.2 kv'.2) (ordered f) (ordered fields) r r') as H.
    assert (Hl : Forall (reads_off (fun kv => Write kv.1 :: hash_json kv.2)
      (fun kv kv' => kv.1 = kv'.1 /\ same_json number_text kv.2 kv'.2)) (ordered f)).
    { apply list.Forall_forall. intros [k v] Hin%ordered_in. rewrite list.Forall_forall in IH. specialize (IH _ Hin).
      intros [k' v'] s s'. cbn. split.
      - intros E. injection E as -> E. apply IH in E as [? ->]. done.
      - intros [[-> Hv] ->]. f_equal. by apply IH. }
    specialize (H Hl). split.
    + intros E. injection E as E1 E2. destruct (proj1 H) as [HR ->]; [by cbn; rewrite E1, E2|].
      split; [|done]. constructor; [|done]. apply Nat2Z.inj in E1. by rewrite !ordered_length in E1.
    + intros [E ->]. inversion E; subst. cbn [app]. f_equal. by apply H.
Qed.

Lemma operator_reads_off o : reads_off (hash_where_operator debug_operator) (same_operator debug_operator) o.
Proof.
  intros o' r r'. split.
  - destruct o, o'; cbn; intros E; try discriminate E; injection E as E; try (subst; done).
  - intros [E ->]. destruct o, o'; cbn in E |- *; try discriminate E; try reflexivity. by rewrite E.
Qed.

Lemma cons_same {A} (x : A) l l' : x :: l = x :: l' -> l = l'.
Proof. by intros [= ->]. Qed.

Lemma text_then (x : write) a b l l' : x :: Write a :: l = x :: Write b :: l' -> a = b /\ l = l'.
Proof. by intros [= -> ->]. Qed.

Lemma path_reads_off p : reads_off hash_path eq p.
Proof.
  intros p' r r'. pose proof (reads_off_counted (fun segment => [Write segment; WriteU8 0]) eq p p' r r') as H.
  unfold hash_path. rewrite H.
  - rewrite (list_eq_Forall2 p p'). done.
  - apply list.Forall_forall. intros x _ y s s'. cbn. split; [by intros [= -> ->] | by intros [-> ->]].
Qed.

Lemma clause_reads_off c : reads_off hash_clause (same_clause number_text debug_operator debug_clause) c.
Proof.
  induction c as [p o v|l IH|l IH|c IH|a p o v] using clause_ind'; intros c' r r';
    (destruct c' as [p' o' v'|l'|l'|c'|a' p' o' v'];
     try (split; [cbn; intros E; discriminate E | intros [E _]; inversion E])).
  - cbn [hash_where_clause app]. rewrite <- !app_assoc. split.
    + intros E. apply cons_same in E. apply path_reads_off in E as [-> E]. apply operator_reads_off in E as [Ho E].
      apply json_reads_off in E as [Hv ->]. split; [by constructor|done].
    + intros [E ->]. inversion E; subst. f_equal. apply path_reads_off. split; [done|].
      apply operator_reads_off. split; [done|]. by apply json_reads_off.
  - cbn [hash_where_clause app]. pose proof (reads_off_counted _ _ l l' r r' IH) as H. split.
    + intros E. injection E as E1 E2. destruct (proj1 H) as [HR ->]; [by cbn; rewrite E1, E2|]. split; [by constructor|done].
    + intros [E ->]. inversion E; subst. f_equal. by apply H.
  - cbn [hash_where_clause app]. pose proof (reads_off_counted _ _ l l' r r' IH) as H. split.
    + intros E. injection E as E1 E2. destruct (proj1 H) as [HR ->]; [by cbn; rewrite E1, E2|]. split; [by constructor|done].
    + intros [E ->]. inversion E; subst. f_equal. by apply H.
  - cbn [hash_where_clause app]. split.
    + intros E. apply cons_same in E. apply IH in E as [? ->]. split; [by constructor|done].
    + intros [E ->]. inversion E; subst. f_equal. by apply IH.
  - cbn. split; [intros [= E ->]; split; [by constructor|done] | intros [E ->]; inversion E; congruence].
Qed.

Lemma where_reads_off c : reads_off (hash_where number_text debug_operator debug_clause)
  (option_Forall2 (same_clause number_text debug_operator debug_clause)) c.
Proof.
  intros c' r r'. destruct c as [c|], c' as [c'|]; cbn; split;
    try (intros E; discriminate E); try (intros [E _]; inversion E; fail).
  - intros E. apply cons_same in E. apply clause_reads_off in E as [? ->]. split; [by constructor|done].
  - intros [E ->]. inversion E; subst. f_equal. by apply clause_reads_off.
  - intros [= ->]. split; [constructor|done].
  - by intros [_ ->].
Qed.

Lemma u32_reads_off n : reads_off hash_u32 eq n.
Proof.
  intros n' r r'. destruct n, n'; cbn; split; try (intros E; discriminate E); try (intros [E _]; discriminate E);
    [by intros [= -> ->] | by intros [[= ->] ->] | by intros [= ->] | by intros [_ ->]].
Qed.

Lemma projection_reads_off p :
  reads_off hash_projection (fun p p' => projection_template <$> p = projection_template <$> p') p.
Proof.
  intros p' r r'. destruct p, p'; cbn; split; try (intros E; discriminate E); try (intros [E _]; discriminate E);
    [intros [= E ->]; by rewrite E | intros [[= ->] ->]; done | by intros [= ->] | by intros [_ ->]].
Qed.

Lemma order_clause_reads_off c : reads_off hash_order_clause same_order_clause c.
Proof.
  intros c' r r'. unfold hash_order_clause, same_order_clause, hash_direction. cbn. split.
  - intros [= -> E ->]. split; [|done]. split; [done|]. by destruct (direction c), (direction c').
  - intros [[-> ->] ->]. done.
Qed.

Lemma order_reads_off o : reads_off hash_order_by same_order o.
Proof.
  intros o' r r'. unfold same_order.
  assert (H : forall o, hash_order_by o = match default [] o with [] => [WriteU8 0] | l =>
    WriteU8 1 :: WriteUsize (Z.of_nat (length l)) :: concat (map hash_order_clause l) end) by (by intros [[]|]).
  rewrite !H. destruct (default [] o) as [|x l], (default [] o') as [|y l'].
  - cbn. split; [intros [= ->]; split; [constructor|done] | by intros [_ ->]].
  - cbn. split; [done | by intros [E _]; inversion E].
  - cbn. split; [done | by intros [E _]; inversion E].
  - pose proof (reads_off_counted _ _ (x :: l) (y :: l') r r' (list.Forall_true _ _ order_clause_reads_off)) as Hc.
    rewrite <- Hc. split; [intros E; exact (cons_same _ _ _ E) | exact (f_equal (cons (WriteU8 1)) (x := _) (y := _))].
Qed.

(** One section after its tag. *)
Lemma tagged_reads_off {A} (enc : A -> list write) R t x y r r' : reads_off enc R x ->
  t :: enc x ++ r = t :: enc y ++ r' <-> R x y /\ r = r'.
Proof. intros H. rewrite <- (H y r r'). split; [by intros [= E] | by intros ->]. Qed.

Lemma page_exact c c' limit limit' offset offset' order order' version version' :
  page_input number_text debug_operator debug_clause c limit offset order version =
    page_input number_text debug_operator debug_clause c' limit' offset' order' version' <->
  same_page number_text debug_operator debug_clause c c' limit limit' offset offset' order order' version version'.
Proof.
  unfold page_input, same_page.
  rewrite (tagged_reads_off _ _ _ c c' _ _ (where_reads_off c)), (tagged_reads_off _ _ _ limit limit' _ _ (u32_reads_off limit)),
    (tagged_reads_off _ _ _ offset offset' _ _ (u32_reads_off offset)),
    (tagged_reads_off _ _ _ order order' _ _ (order_reads_off order)).
  assert (Hv : [section_tag "s:"; Write version] = [section_tag "s:"; Write version'] <-> version = version')
    by (split; congruence).
  rewrite Hv. tauto.
Qed.

(** Two queries write the same values to the hasher exactly when they are
    the same: the same text and version, equal variables up to the order of
    keys, equal filters, page and order; and the keys of queries, of views and
    of projections never write the same. *)
Theorem key_inputs_exact :
  (forall q q' v v' c c' s s',
    cache_key_input number_text debug_operator debug_clause q v c s =
      cache_key_input number_text debug_operator debug_clause q' v' c' s' <->
    q = q' /\ same_json number_text v v' /\
      option_Forall2 (same_clause number_text debug_operator debug_clause) c c' /\ s = s') /\
  (forall view view' c c' l l' o o' b b' s s',
    view_query_key_input number_text debug_operator debug_clause view c l o b s =
      view_query_key_input number_text debug_operator debug_clause view' c' l' o' b' s' <->
    view = view' /\ same_page number_text debug_operator debug_clause c c' l l' o o' b b' s s') /\
  (forall view view' p p' c c' l l' o o' b b' s s',
    projection_query_key_input number_text debug_operator debug_clause view p c l o b s =
      projection_query_key_input number_text debug_operator debug_clause view' p' c' l' o' b' s' <->
    view = view' /\ projection_template <$> p = projection_template <$> p' /\
      same_page number_text debug_operator debug_clause c c' l l' o o' b b' s s') /\
  (forall q v c s view c' l o b s' view' p c'' l' o' b' s'',
    let query := cache_key_input number_text debug_operator debug_clause q v c s in
    let of_view := view_query_key_input number_text debug_operator debug_clause view c' l o b s' in
    let projected := projection_query_key_input number_text debug_operator debug_clause view' p c'' l' o' b' s'' in
    query <> of_view /\ query <> projected /\ of_view <> projected).
Proof.
  split; [|split; [|split; [|by intros; repeat split]]].
  - intros *. unfold cache_key_input. cbn [app]. split.
    + intros E. injection E as -> E. apply json_reads_off in E as [Hv E].
      apply (tagged_reads_off _ _ _ _ _ _ _ (where_reads_off _)) in E as [Hc [= ->]]. done.
    + intros (-> & Hv & Hc & ->). do 3 f_equal. apply json_reads_off. split; [done|].
      by apply (tagged_reads_off _ _ _ _ _ _ _ (where_reads_off _)).
  - intros *. unfold view_query_key_input. rewrite <- page_exact. split; [apply text_then | by intros [-> ->]].
  - intros *. unfold projection_query_key_input. rewrite <- page_exact. split.
    + intros E. apply text_then in E as [-> E]. apply cons_same in E. by apply projection_reads_off in E as [? ?].
    + intros (-> & Hp & ->). do 3 f_equal. by apply projection_reads_off.
Qed.
End Facts.
End KeyFacts.
