(* ===== verification/Invalidation.v ===== *)
(** * What a mutation invalidates

    [cache/entity_key.rs], [cache/uuid_extractor.rs],
    [cache/cascade_response_parser.rs], [cache/dependency_tracker.rs],
    [cache/invalidation.rs] and [cache/cascade_metadata.rs]: entity keys and
    their text, the entities a mutation's response names, and the index from
    cached queries to the views they read. *)

From Stdlib Require Import Ascii.
From stdpp Require Import fin_maps fin_sets pretty.
From S2P Require Import Prelude Json WhereClause.
#[local] Open Scope Z_scope.

(** ** Entity keys *)
Module EntityKey.
Record t : Type := mkKey { entity_type : string; entity_id : string }.
#[export] Instance t_eq_dec : EqDecision t.
Proof. solve_decision. Defined.

Fixpoint contains_colon (s : string) : bool :=
  match s with "" => false | String c s => Ascii.eqb c ":" || contains_colon s end%string.

Section Debug.
(** [format!("{:?}")] of a string. *)
Context (debug : string -> string).

Definition new (entity_type entity_id : string) : result FraiseQLError t :=
  if entity_type =s "" then Err (validation "entity_type cannot be empty")
  else if contains_colon entity_type then
    Err (validation ("entity_type " ++ debug entity_type ++
      " must not contain a colon character; colons are used as the cache-key separator"))
  else if entity_id =s "" then Err (validation "entity_id cannot be empty")
  else Ok (mkKey entity_type entity_id).

Definition to_cache_key (k : t) : string := (k.(entity_type) ++ ":" ++ k.(entity_id))%string.

(** [splitn(2, ':')]: around the first colon, where there is one. *)
Fixpoint split_colon (s : string) : option (string * string) :=
  match s with
  | "" => None
  | String c s =>
      if Ascii.eqb c ":" then Some (""%string, s)
      else match split_colon s with Some (a, b) => Some (String c a, b) | None => None end
  end%string.

Definition from_cache_key (cache_key : string) : result FraiseQLError t :=
  match split_colon cache_key with
  | None => Err (validation ("Invalid entity key format: " ++ cache_key ++ ". Expected 'Type:id'"))
  | Some (entity_type, entity_id) => new entity_type entity_id
  end.
End Debug.

Lemma split_first (a b : string) : contains_colon a = false -> split_colon (a ++ ":" ++ b) = Some (a, b).
Proof.
  induction a as [|c a IH]; [done|]. cbn [contains_colon]. intros [Hc Ha]%orb_false_iff.
  rewrite str_cons. cbn [split_colon]. by rewrite Hc, IH.
Qed.

Lemma split_back s a b : split_colon s = Some (a, b) -> s = (a ++ ":" ++ b)%string /\ contains_colon a = false.
Proof.
  revert a. induction s as [|c s IH]; intros a; cbn; [done|]. destruct (Ascii.eqb c ":") eqn:Hc.
  - intros [= <- <-]. apply Ascii.eqb_eq in Hc as ->. done.
  - destruct (split_colon s) as [[a' b']|]; [|done]. intros [= <- <-]. destruct (IH a' eq_refl) as [-> Ha].
    split; [done|]. cbn. by rewrite Hc.
Qed.

(** An entity key survives its text: what [new] accepts reads back from
    the text it is written as, a text is only read as the key it is the text
    of, and so keys with one text are one. *)
Theorem entity_key_roundtrip (debug : string -> string) :
  (forall ty id k, new debug ty id = Ok k -> from_cache_key debug (to_cache_key k) = Ok k) /\
  (forall s k, from_cache_key debug s = Ok k -> to_cache_key k = s) /\
  (forall ty id, (exists k, new debug ty id = Ok k) <-> ty <> ""%string /\ contains_colon ty = false /\ id <> ""%string).
Proof.
  assert (Hnew : forall ty id k, new debug ty id = Ok k <->
    k = mkKey ty id /\ ty <> ""%string /\ contains_colon ty = false /\ id <> ""%string).
  { intros *. unfold new. destruct (ty =s "") eqn:E1; to_prop; [split; [done|tauto]|].
    destruct (contains_colon ty); [split; [done|naive_solver]|]. destruct (id =s "") eqn:E2; to_prop; [split; [done|tauto]|].
    split; [by intros [= <-]|by intros [-> _]]. }
  split; [|split].
  - intros ty id k Hk. destruct (proj1 (Hnew _ _ _) Hk) as (-> & _ & Hc & _). unfold from_cache_key, to_cache_key.
    by rewrite split_first.
  - intros s k. unfold from_cache_key. destruct (split_colon s) as [[ty id]|] eqn:E; [|done].
    intros (-> & _)%Hnew. by apply split_back in E as [-> _].
  - intros ty id. split; [intros [k (_ & H)%Hnew]; done|]. intros H. eexists. by apply Hnew.
Qed.
End EntityKey.

(** ** Identifiers in responses *)
Module UUIDExtractor.
(** Eight, four, four, four and twelve digits, dashes between. *)
Definition hex (c : ascii) : bool :=
  let n := Z.of_nat (nat_of_ascii c) in ((48 <=? n) && (n <=? 57)) || ((97 <=? n) && (n <=? 102)).
Fixpoint hexes (n : nat) (s : string) : option string :=
  match n, s with
  | O, _ => Some s
  | S n, String c s => if hex c then hexes n s else None
  | S _, EmptyString => None
  end.
Definition dash (s : string) : option string :=
  match s with String c s => if Ascii.eqb c "-" then Some s else None | EmptyString => None end.
Definition uuid_regex (s : string) : bool :=
  match
    s ← hexes 8 s; s ← dash s; s ← hexes 4 s; s ← dash s; s ← hexes 4 s; s ← dash s; s ← hexes 4 s; s ← dash s; hexes 12 s
  with
  | Some EmptyString => true
  | _ => false
  end.

(** Lower case of ASCII letters: a text with other letters does not match. *)
Definition is_valid_uuid (id : string) : bool := uuid_regex (to_lowercase id).

Fixpoint extract_uuid_from_value (value : json) : result FraiseQLError (option string) :=
  match value with
  | JString s => if is_valid_uuid s then Ok (Some (to_lowercase s)) else Ok None
  | JObject fields =>
      (fix find (fields : list (string * json)) :=
         match fields with
         | [] => Ok None
         | (k, v) :: fields => if k =s "id" then extract_uuid_from_value v else find fields
         end) fields
  | _ => Ok None
  end.

(** The first entry that is an object with an identifier. *)
Fixpoint nested_id (fields : list (string * json)) : option json :=
  match fields with
  | [] => None
  | (_, JObject nested) :: fields => match assoc "id" nested with Some v => Some v | None => nested_id fields end
  | _ :: fields => nested_id fields
  end.

Definition extract_entity_uuid (response : json) : result FraiseQLError (option string) :=
  match response with
  | JObject fields =>
      match assoc "id" fields with
      | Some v => extract_uuid_from_value v
      | None => match nested_id fields with Some v => extract_uuid_from_value v | None => Ok None end
      end
  | _ => Ok None
  end.

Definition extract_batch_uuids (response : json) : result FraiseQLError (list string) :=
  match response with
  | JArray l => Ok (omap (fun item => match extract_uuid_from_value item with Ok (Some uuid) => Some uuid | _ => None end) l)
  | JObject _ =>
      match extract_entity_uuid response with
      | Ok (Some uuid) => Ok [uuid]
      | Ok None => Ok []
      | Err e => Err e
      end
  | _ => Ok []
  end.

(** Extraction never fails, whatever the identifier, and what it finds is a
    UUID in lower case. *)
Lemma extracted_is_uuid v : exists o, extract_uuid_from_value v = Ok o /\ forall u, o = Some u -> uuid_regex u = true.
Proof.
  induction v as [| | |s| |f IH] using json_ind'; try (exists None; done).
  - cbn. destruct (is_valid_uuid s) eqn:E; [exists (Some (to_lowercase s)) | exists None; done].
    split; [done|]. intros u [= <-]. exact E.
  - cbn. induction IH as [|[k v] f Hv _ IHf]; [exists None; done|]. destruct (k =s "id"); [exact Hv|exact IHf].
Qed.
End UUIDExtractor.

(** ** Cascades *)
Module CascadeResponse.
Record CascadeEntities : Type := mkEntities { updated : list EntityKey.t; deleted : list EntityKey.t }.
Definition all_affected (e : CascadeEntities) : list EntityKey.t := e.(updated) ++ e.(deleted).
Definition has_changes (e : CascadeEntities) : bool :=
  match e.(updated), e.(deleted) with [], [] => false | _, _ => true end.

Definition object_fields (v : json) : list (string * json) := match v with JObject fields => fields | _ => [] end.
(** The first entry with a cascade. *)
Definition first_cascade (fields : list (string * json)) : option json :=
  head (omap (fun kv => json_get kv.2 "cascade") fields).

Definition find_cascade_field (response : json) : json :=
  match json_get response "cascade" with
  | Some c => c
  | None =>
      let in_data :=
        match json_get response "data" with
        | Some data =>
            match json_get data "cascade" with Some c => Some c | None => first_cascade (object_fields data) end
        | None => None
        end in
      match in_data with
      | Some c => c
      | None => default JNull (first_cascade (object_fields response))
      end
  end.

Section Parser.
(** [format!("{:?}")] of a string. *)
Context (debug : string -> string).

Definition at_path (m path : string) : FraiseQLError := Validation (Text m) (Some path).
Definition json_str (v : json) : option string := match v with JString s => Some s | _ => None end.

Definition parse_cascade_entity (entity : json) : result FraiseQLError EntityKey.t :=
  match entity with
  | JObject fields =>
      match assoc "__typename" fields ≫= json_str with
      | None => Err (at_path "Cascade entity missing __typename field" "cascade.updated[*].__typename")
      | Some type_name =>
          match assoc "id" fields ≫= json_str with
          | None => Err (at_path "Cascade entity missing id field" "cascade.updated[*].id")
          | Some id => EntityKey.new debug type_name id
          end
      end
  | _ => Err (at_path "Cascade entity should be object" "cascade.updated[*]")
  end.

Fixpoint parse_entities (l : list json) : result FraiseQLError (list EntityKey.t) :=
  match l with
  | [] => Ok []
  | x :: l => k ← parse_cascade_entity x; ks ← parse_entities l; Ok (k :: ks)
  end.

Definition kind_name (v : json) : string :=
  match v with
  | JObject _ => "object" | JString _ => "string" | JNumber _ => "number" | JBool _ => "boolean"
  | JNull => "null" | JArray _ => "unknown"
  end.

Definition extract_entities_list (cascade : json) (field_name : string) : result FraiseQLError (list EntityKey.t) :=
  match json_get cascade field_name with
  | Some (JArray l) => parse_entities l
  | Some JNull | None => Ok []
  | Some v => Err (at_path ("cascade." ++ field_name ++ " should be array, got " ++ kind_name v) ("cascade." ++ field_name))
  end.

Definition parse_cascade_response (response : json) : result FraiseQLError CascadeEntities :=
  match find_cascade_field response with
  | JNull => Ok (mkEntities [] [])
  | cascade =>
      updated ← extract_entities_list cascade "updated";
      deleted ← extract_entities_list cascade "deleted";
      Ok (mkEntities updated deleted)
  end.

(** An entity as the specification of a cascade writes it. *)
Definition entity_value (k : EntityKey.t) (rest : list (string * json)) : json :=
  JObject (("__typename"%string, JString k.(EntityKey.entity_type)) :: ("id"%string, JString k.(EntityKey.entity_id)) :: rest).
Definition good_key (k : EntityKey.t) : Prop :=
  k.(EntityKey.entity_type) <> ""%string /\ EntityKey.contains_colon k.(EntityKey.entity_type) = false /\
  k.(EntityKey.entity_id) <> ""%string.

Lemma entities_read ks : Forall (fun kr => good_key kr.1) ks ->
  parse_entities (map (fun kr => entity_value kr.1 kr.2) ks) = Ok (map fst ks).
Proof.
  induction 1 as [|[[ty id] rest] ks (H1 & H2 & H3) _ IH]; [done|]. cbn in H1, H2, H3.
  cbn [map parse_entities parse_cascade_entity entity_value fst snd EntityKey.entity_type EntityKey.entity_id].
  cbn [assoc]. rewrite !streqb_refl. change ("__typename" =s "id") with false. cbn [mbind option_bind json_str].
  unfold EntityKey.new. rewrite (proj2 (streqb_false ty "") H1), H2, (proj2 (streqb_false id "") H3). cbn. by rewrite IH.
Qed.

(** The entities a mutation lists are read in order, wherever its cascade is
    one of the places looked at. *)
Lemma cascade_read response upd del rest : Forall (fun kr => good_key kr.1) upd -> Forall (fun kr => good_key kr.1) del ->
  find_cascade_field response =
    JObject (("updated"%string, JArray (map (fun kr => entity_value kr.1 kr.2) upd)) ::
             ("deleted"%string, JArray (map (fun kr => entity_value kr.1 kr.2) del)) :: rest) ->
  parse_cascade_response response = Ok (mkEntities (map fst upd) (map fst del)).
Proof.
  intros Hu Hd E. unfold parse_cascade_response. rewrite E. unfold extract_entities_list. cbn [json_get assoc].
  rewrite !streqb_refl. change ("updated" =s "deleted") with false. cbn [fst]. by rewrite (entities_read _ Hu), (entities_read _ Hd).
Qed.

(** Of a response with several mutations only the first one's cascade is read. *)
Lemma first_mutation_only name c rest others : name <> "cascade"%string -> assoc "cascade" others = None ->
  find_cascade_field (JObject [("data"%string, JObject ((name, JObject (("cascade"%string, c) :: rest)) :: others))]) = c.
Proof.
  intros Hn Ho. unfold find_cascade_field. cbn [json_get assoc]. change ("data" =s "cascade") with false.
  cbn [assoc]. rewrite streqb_refl. cbn [json_get assoc]. rewrite (proj2 (streqb_false name "cascade") Hn), Ho. done.
Qed.
End Parser.
End CascadeResponse.

(** ** Contexts of an invalidation *)
Module InvalidationContext.
Inductive InvalidationReason : Type :=
| Mutation (mutation_name : string)
| Manual (reason : string)
| SchemaChange (old_version new_version : string).
Definition reason_to_log_string (r : InvalidationReason) : string :=
  match r with
  | Mutation name => "mutation:" ++ name
  | Manual reason => "manual:" ++ reason
  | SchemaChange old_version new_version => "schema_change:" ++ old_version ++ "->" ++ new_version
  end.

Record InvalidationContext : Type := mkContext { modified_views : list string; reason : InvalidationReason }.
Definition for_mutation (name : string) (views : list string) : InvalidationContext := mkContext views (Mutation name).
Definition manual (views : list string) (reason : string) : InvalidationContext := mkContext views (Manual reason).
Definition schema_change (views : list string) (old_version new_version : string) : InvalidationContext :=
  mkContext views (SchemaChange old_version new_version).
Definition to_log_string (c : InvalidationContext) : string :=
  reason_to_log_string c.(reason) ++ " affecting " ++ pretty (Z.of_nat (length c.(modified_views))) ++ " view(s)".
Definition view_count (c : InvalidationContext) : Z := Z.of_nat (length c.(modified_views)).
Definition affects_view (c : InvalidationContext) (view : string) : bool := existsb (String.eqb view) c.(modified_views).
End InvalidationContext.

(** ** Which queries read a view *)
Module DependencyTracker.
Record t : Type := mkTracker {
  cache_to_views : gmap string (list string);
  view_to_caches : gmap string (gset string)
}.
Definition new : t := mkTracker ∅ ∅.

(** One view's set without the key; an empty set is taken out. *)
Definition unlist (cache_key : string) (m : gmap string (gset string)) (view : string) : gmap string (gset string) :=
  match m !! view with
  | Some caches =>
      let caches := caches ∖ {[cache_key]} in
      if decide (caches = ∅) then delete view m else <[view := caches]> m
  | None => m
  end.
Definition enlist (cache_key : string) (m : gmap string (gset string)) (view : string) : gmap string (gset string) :=
  <[view := {[cache_key]} ∪ default ∅ (m !! view)]> m.

Definition record_access (d : t) (cache_key : string) (views : list string) : t :=
  let reverse :=
    match d.(cache_to_views) !! cache_key with
    | Some old_views => foldl (unlist cache_key) d.(view_to_caches) old_views
    | None => d.(view_to_caches)
    end in
  mkTracker (<[cache_key := views]> d.(cache_to_views)) (foldl (enlist cache_key) reverse views).

Definition remove_cache (d : t) (cache_key : string) : t :=
  match d.(cache_to_views) !! cache_key with
  | Some views =>
      mkTracker (delete cache_key d.(cache_to_views)) (foldl (unlist cache_key) d.(view_to_caches) views)
  | None => d
  end.

Definition clear (d : t) : t := mkTracker ∅ ∅.
(** In the order of the hash set. *)
Definition get_dependent_caches (order : gset string -> list string) (d : t) (view : string) : list string :=
  match d.(view_to_caches) !! view with Some caches => order caches | None => [] end.
Definition cache_count (d : t) : Z := Z.of_nat (size d.(cache_to_views)).
Definition view_count (d : t) : Z := Z.of_nat (size d.(view_to_caches)).
Definition get_all_views (order : gset string -> list string) (d : t) : list string := order (dom d.(view_to_caches)).

(** The abstract tracker is the map from queries to views alone. *)
Inductive call : Type := Record (cache_key : string) (views : list string) | Remove (cache_key : string) | Clear.
Definition run (d : t) (c : call) : t :=
  match c with Record k views => record_access d k views | Remove k => remove_cache d k | Clear => clear d end.
Definition spec_run (m : gmap string (list string)) (c : call) : gmap string (list string) :=
  match c with Record k views => <[k := views]> m | Remove k => delete k m | Clear => ∅ end.

Definition members (m : gmap string (gset string)) (view : string) : gset string := default ∅ (m !! view).
Definition no_empty (m : gmap string (gset string)) : Prop := forall view, m !! view <> Some ∅.

Lemma unlist_spec key m view v : no_empty m ->
  no_empty (unlist key m view) /\
  members (unlist key m view) v = if decide (v = view) then members m v ∖ {[key]} else members m v.
Proof.
  intros He. unfold unlist, members. destruct (m !! view) as [ks|] eqn:E.
  - destruct (decide (ks ∖ {[key]} = ∅)) as [H|H].
    + split; [intros w; destruct (decide (w = view)) as [->|]; [by rewrite lookup_delete_eq | by rewrite lookup_delete_ne] |].
      destruct (decide (v = view)) as [->|]; [rewrite lookup_delete_eq, E; cbn; by rewrite H | by rewrite lookup_delete_ne].
    + split; [intros w; destruct (decide (w = view)) as [->|]; [rewrite lookup_insert_eq; congruence | by rewrite lookup_insert_ne] |].
      destruct (decide (v = view)) as [->|]; [by rewrite lookup_insert_eq, E | by rewrite lookup_insert_ne].
  - split; [done|]. destruct (decide (v = view)) as [->|]; [rewrite E; cbn; set_solver | done].
Qed.

Lemma unlist_all key views m : no_empty m ->
  no_empty (foldl (unlist key) m views) /\
  forall v k, k ∈ members (foldl (unlist key) m views) v <-> k ∈ members m v /\ ~ (k = key /\ v ∈ views).
Proof.
  revert m. induction views as [|view views IH]; intros m He; cbn [foldl]; [split; [done|set_solver]|].
  destruct (IH _ (proj1 (unlist_spec key m view view He))) as [H1 H2]. split; [exact H1|]. intros v k.
  rewrite H2, (proj2 (unlist_spec key m view v He)). destruct (decide (v = view)); set_solver.
Qed.

Lemma enlist_all key views m : no_empty m ->
  no_empty (foldl (enlist key) m views) /\
  forall v k, k ∈ members (foldl (enlist key) m views) v <-> k ∈ members m v \/ (k = key /\ v ∈ views).
Proof.
  revert m. induction views as [|view views IH]; intros m He; cbn [foldl]; [split; [done|set_solver]|].
  destruct (IH (enlist key m view)) as [H1 H2].
  { intros w. unfold enlist. destruct (decide (w = view)) as [->|].
    - rewrite lookup_insert_eq. intros [= H]. set_solver.
    - by rewrite lookup_insert_ne. }
  split; [exact H1|]. intros v k. rewrite H2. unfold enlist, members. destruct (decide (v = view)) as [->|].
  - rewrite lookup_insert_eq. cbn. set_solver.
  - rewrite lookup_insert_ne by done. set_solver.
Qed.

Record refines (m : gmap string (list string)) (d : t) : Prop := {
  refines_forward : d.(cache_to_views) = m;
  refines_reverse view key : key ∈ members d.(view_to_caches) view <-> exists views, m !! key = Some views /\ view ∈ views;
  refines_tidy : no_empty d.(view_to_caches)
}.

Lemma unlisted_old m d key : refines m d ->
  let reverse := match m !! key with Some old => foldl (unlist key) d.(view_to_caches) old | None => d.(view_to_caches) end in
  no_empty reverse /\ forall v k, k ∈ members reverse v <-> k <> key /\ exists views, m !! k = Some views /\ v ∈ views.
Proof.
  intros [Hf Hr He]. cbn zeta. destruct (m !! key) as [old|] eqn:E.
  - destruct (unlist_all key old _ He) as [H1 H2]. split; [exact H1|]. intros v k. rewrite H2, Hr. split.
    + intros [(views & Hk & Hv) Hn]. split; [|by eauto]. intros ->. apply Hn. split; [done|]. congruence.
    + intros [Hne H]. split; [exact H|]. by intros [-> _].
  - split; [exact He|]. intros v k. rewrite Hr. split; [|by intros [_ ?]]. intros (views & Hk & Hv).
    split; [congruence|]. by eauto.
Qed.

Lemma run_refines m d c : refines m d -> refines (spec_run m c) (run d c).
Proof.
  intros Hm. pose proof Hm as [Hf Hr He]. destruct c as [key views|key|]; cbn [run spec_run].
  - unfold record_access. rewrite Hf. destruct (unlisted_old m d key Hm) as [H1 H2].
    destruct (enlist_all key views _ H1) as [H3 H4]. split; [done| |exact H3]. cbn [view_to_caches]. intros view k.
    rewrite H4, H2. destruct (decide (k = key)) as [->|Hne].
    + rewrite lookup_insert_eq. naive_solver.
    + rewrite lookup_insert_ne by done. naive_solver.
  - unfold remove_cache. rewrite Hf. pose proof (unlisted_old m d key Hm) as H. cbn zeta in H.
    destruct (m !! key) as [old|] eqn:E.
    + destruct H as [H1 H2]. split; [done| |exact H1]. cbn [view_to_caches]. intros view k. rewrite H2.
      destruct (decide (k = key)) as [->|Hne]; [rewrite lookup_delete_eq; naive_solver | rewrite lookup_delete_ne by done; naive_solver].
    + rewrite delete_id by done. exact Hm.
  - split; [done| |intros view; cbn; by rewrite lookup_empty]. intros view k. cbn. unfold members. rewrite lookup_empty.
    cbn. split; [set_solver|]. intros (? & H & _). by rewrite lookup_empty in H.
Qed.

(** The two maps of the tracker are one: after any calls the queries under
    a view are exactly those last recorded as reading it and not removed
    since, each once, and exactly the views some query reads are tracked. *)
Theorem tracker_refines_map (order : gset string -> list string) (calls : list call) :
  (forall X, order X ≡ₚ elements X) ->
  let d := foldl run new calls in
  let m := foldl spec_run ∅ calls in
  d.(cache_to_views) = m /\
  (forall view, NoDup (get_dependent_caches order d view)) /\
  (forall view key, key ∈ get_dependent_caches order d view <-> exists views, m !! key = Some views /\ view ∈ views) /\
  (forall view, view ∈ get_all_views order d <-> exists key views, m !! key = Some views /\ view ∈ views).
Proof.
  intros Ho. cbn zeta.
  assert (Hd : refines (foldl spec_run ∅ calls) (foldl run new calls)).
  { assert (H0 : refines ∅ new) by (by apply (run_refines ∅ new Clear); split; [done| |]; intros view; cbn; unfold members; rewrite lookup_empty; cbn; [intros k; split; [set_solver|intros (? & H & _); by rewrite lookup_empty in H]|]).
    revert H0. generalize (∅ : gmap string (list string)) new. induction calls as [|c calls IH]; intros m d H; [done|].
    cbn [foldl]. by apply IH, run_refines. }
  destruct Hd as [Hf Hr He]. set (d := foldl run new calls) in *. set (m := foldl spec_run ∅ calls) in *.
  assert (Hdep : forall view, get_dependent_caches order d view ≡ₚ elements (members d.(view_to_caches) view)).
  { intros view. unfold get_dependent_caches, members. destruct (view_to_caches d !! view); [apply Ho|]. done. }
  split; [done|]. split; [|split].
  - intros view. rewrite Hdep. apply NoDup_elements.
  - intros view key. rewrite Hdep, elem_of_elements. apply Hr.
  - intros view. unfold get_all_views. rewrite Ho, elem_of_elements, elem_of_dom. split.
    + intros [caches Hc]. assert (Hne : caches <> ∅) by (intros ->; by apply (He view)).
      apply set_choose_L in Hne as [key Hk]. exists key. apply Hr. unfold members. by rewrite Hc.
    + intros (key & H). apply Hr in H. unfold members in H. destruct (view_to_caches d !! view); [eauto|]. cbn in H. set_solver.
Qed.

Lemma tracker_refines_map_witness :
  "k1"%string ∈ get_dependent_caches elements
    (foldl run new [Record "k1" ["v_user"; "v_post"]%string; Record "k2" ["v_user"%string]; Record "k1" ["v_post"%string]]) "v_post"
  /\ "k1"%string ∉ get_dependent_caches elements
    (foldl run new [Record "k1" ["v_user"; "v_post"]%string; Record "k2" ["v_user"%string]; Record "k1" ["v_post"%string]]) "v_user".
Proof.
  destruct (tracker_refines_map elements
    [Record "k1" ["v_user"; "v_post"]%string; Record "k2" ["v_user"%string]; Record "k1" ["v_post"%string]]) as (_ & _ & H & _);
    [done|]. split.
  - apply H. exists ["v_post"%string]. split; [reflexivity|by left].
  - intros Hk. apply H in Hk as (views & Hk & Hv). vm_compute in Hk. injection Hk as <-.
    by apply list_elem_of_singleton in Hv.
Defined.
End DependencyTracker.

(** ** Mutations and the entities they change *)
Module CascadeMetadata.
Record t : Type := mkMetadata {
  mutation_entity_map : gmap string string;
  entity_mutations_map : gmap string (list string)
}.
Definition new : t := mkMetadata ∅ ∅.
Definition add_mutation (c : t) (mutation_name entity_type : string) : t :=
  mkMetadata (<[mutation_name := entity_type]> c.(mutation_entity_map))
    (<[entity_type := default [] (c.(entity_mutations_map) !! entity_type) ++ [mutation_name]]> c.(entity_mutations_map)).
Definition get_entity_type (c : t) (mutation_name : string) : option string := c.(mutation_entity_map) !! mutation_name.
Definition get_mutations_for_entity (c : t) (entity_type : string) : list string :=
  default [] (c.(entity_mutations_map) !! entity_type).
Definition count (c : t) : Z := Z.of_nat (size c.(mutation_entity_map)).
Definition contains_mutation (c : t) (mutation_name : string) : bool :=
  match c.(mutation_entity_map) !! mutation_name with Some _ => true | None => false end.
(** The name and return type of each mutation of the schema. *)
Definition from_schema (mutations : list (string * string)) : t :=
  foldl (fun c m => add_mutation c m.1 m.2) new mutations.

(** A mutation added again under another entity stays listed under the first. *)
Lemma readded_mutation_stays m e e' c : e <> e' ->
  get_entity_type (add_mutation (add_mutation c m e) m e') m = Some e' /\
  m ∈ get_mutations_for_entity (add_mutation (add_mutation c m e) m e') e.
Proof.
  intros Hne. unfold get_entity_type, get_mutations_for_entity, add_mutation. cbn. rewrite lookup_insert_eq. split; [done|].
  rewrite lookup_insert_ne, lookup_insert_eq by done. cbn. set_solver.
Qed.
End CascadeMetadata.
