(* ===== verification/Aggregation.v ===== *)
(** * Aggregate queries

    [fraiseql-core/src/compiler/fact_table/mod.rs] (the metadata),
    [compiler/aggregate_types.rs] (functions, buckets, operators),
    [runtime/aggregate_parser.rs] (the JSON of a query to a request) and
    [compiler/aggregation.rs] (a request to a plan).  The names of operators
    and buckets are compared as ASCII text. *)

From Stdlib Require Import Ascii.
From S2P Require Import Prelude Json WhereClause WhereGenerator Chars OrderBy.
#[local] Open Scope Z_scope.
#[local] Open Scope list_scope.

(** ** Fact tables *)
Module Fact.
Inductive SqlType : Type :=
| SInt | SBigInt | SDecimal | SFloat | SJsonb | SJson | SText | SUuid | STimestamp | SDate | SBoolean | SOther (name : string).
Inductive TemporalBucket : Type := Second | Minute | Hour | Day | Week | Month | Quarter | Year.
#[export] Instance TemporalBucket_eq_dec : EqDecision TemporalBucket.
Proof. solve_decision. Defined.
Record MeasureColumn : Type := mkMeasure { measure_name : string; measure_type : SqlType; nullable : bool }.
Record DimensionPath : Type := mkPath { path_name : string; json_path : string; data_type : string }.
Record DimensionColumn : Type := mkDimension { column_name : string; paths : list DimensionPath }.
Record FilterColumn : Type := mkFilter { filter_name : string; filter_type : SqlType; indexed : bool }.
Record CalendarBucket : Type := mkBucket { json_key : string; bucket_type : TemporalBucket; bucket_data_type : string }.
Record CalendarGranularity : Type := mkGranularity { granularity_column : string; buckets : list CalendarBucket }.
Record CalendarDimension : Type := mkCalendar { source_column : string; granularities : list CalendarGranularity }.
Record FactTableMetadata : Type := mkFact {
  table_name : string;
  measures : list MeasureColumn;
  dimensions : DimensionColumn;
  denormalized_filters : list FilterColumn;
  calendar_dimensions : list CalendarDimension
}.
Definition has_measure (m : FactTableMetadata) (n : string) : bool := existsb (fun x => x.(measure_name) =s n) m.(measures).
Definition has_path (m : FactTableMetadata) (n : string) : bool := existsb (fun x => x.(path_name) =s n) m.(dimensions).(paths).
Definition has_filter (m : FactTableMetadata) (n : string) : bool := existsb (fun x => x.(filter_name) =s n) m.(denormalized_filters).

Definition sql_type_to_pg_cast (t : SqlType) : string :=
  match t with
  | SUuid => "uuid" | SInt => "int4" | SBigInt => "int8" | SDecimal => "numeric" | SFloat => "float8" | SBoolean => "bool"
  | STimestamp => "timestamptz" | SDate => "date" | SText | SJsonb | SJson | SOther _ => ""
  end.
(** The last of two columns with one name is kept. *)
Definition filter_columns_to_native_map (l : list FilterColumn) : gmap string string :=
  foldl (fun m f => <[f.(filter_name) := sql_type_to_pg_cast f.(filter_type)]> m) ∅ l.
End Fact.

(** ** Functions, buckets, operators *)
Module Agg.
Import Fact.
Inductive AggregateFunction : Type :=
| Count | CountDistinct | Sum | Avg | Min | Max | Stddev | Variance | ArrayAgg | JsonAgg | JsonbAgg | StringAgg.
#[export] Instance AggregateFunction_eq_dec : EqDecision AggregateFunction.
Proof. solve_decision. Defined.
Definition basic_functions : list AggregateFunction := [Count; CountDistinct; Sum; Avg; Min; Max].
Definition statistical_functions : list AggregateFunction := [Stddev; Variance].
Definition advanced_functions : list AggregateFunction := [ArrayAgg; JsonAgg; JsonbAgg; StringAgg].
Definition field_name (f : AggregateFunction) : string :=
  match f with
  | Count => "count" | CountDistinct => "count_distinct" | Sum => "sum" | Avg => "avg" | Min => "min" | Max => "max"
  | Stddev => "stddev" | Variance => "variance" | ArrayAgg => "array_agg" | JsonAgg => "json_agg"
  | JsonbAgg => "jsonb_agg" | StringAgg => "string_agg"
  end.
Definition sql_name (f : AggregateFunction) : string :=
  match f with
  | Count | CountDistinct => "COUNT" | Sum => "SUM" | Avg => "AVG" | Min => "MIN" | Max => "MAX"
  | Stddev => "STDDEV" | Variance => "VARIANCE" | ArrayAgg => "ARRAY_AGG" | JsonAgg => "JSON_AGG"
  | JsonbAgg => "JSONB_AGG" | StringAgg => "STRING_AGG"
  end.
Definition all_buckets : list TemporalBucket := [Second; Minute; Hour; Day; Week; Month; Quarter; Year].
Definition bucket_suffix (b : TemporalBucket) : string :=
  match b with
  | Second => "second" | Minute => "minute" | Hour => "hour" | Day => "day" | Week => "week" | Month => "month"
  | Quarter => "quarter" | Year => "year"
  end.
Definition postgres_arg (b : TemporalBucket) : string := bucket_suffix b.
Definition bucket_from_str (s : string) : result FraiseQLError TemporalBucket :=
  match find (fun b => bucket_suffix b =s to_lowercase s) all_buckets with
  | Some b => Ok b
  | None => Err (Parse ("Invalid temporal bucket: " ++ s)%string "unknown")
  end.
Inductive BoolAggregateFunction : Type := BoolAnd | BoolOr.
Definition bool_sql_name (f : BoolAggregateFunction) : string := match f with BoolAnd => "BOOL_AND" | BoolOr => "BOOL_OR" end.
Definition bool_field_suffix (f : BoolAggregateFunction) : string := match f with BoolAnd => "all" | BoolOr => "any" end.
Inductive HavingOperator : Type := HEq | HNeq | HGt | HGte | HLt | HLte.
Definition all_having : list HavingOperator := [HEq; HNeq; HGt; HGte; HLt; HLte].
Definition having_suffix (o : HavingOperator) : string :=
  match o with HEq => "eq" | HNeq => "neq" | HGt => "gt" | HGte => "gte" | HLt => "lt" | HLte => "lte" end.
Definition sql_operator (o : HavingOperator) : string :=
  match o with HEq => "=" | HNeq => "!=" | HGt => ">" | HGte => ">=" | HLt => "<" | HLte => "<=" end.
End Agg.

(** ** Requests *)
Module Request.
Import Fact Agg.
Inductive GroupBySelection : Type :=
| Dimension (path alias : string)
| Temporal (column : string) (bucket : TemporalBucket) (alias : string)
| Calendar (source calendar_column key : string) (bucket : TemporalBucket) (alias : string)
| NativeDimension (column pg_cast : string).
Definition group_alias (g : GroupBySelection) : string :=
  match g with Dimension _ a | Temporal _ _ a | Calendar _ _ _ _ a => a | NativeDimension c _ => c end.
Inductive AggregateSelection : Type :=
| SelCount (alias : string)
| SelCountDistinct (field alias : string)
| SelMeasure (measure : string) (function : AggregateFunction) (alias : string)
| SelBool (field : string) (function : BoolAggregateFunction) (alias : string).
Definition alias (a : AggregateSelection) : string :=
  match a with SelCount x | SelCountDistinct _ x | SelMeasure _ _ x | SelBool _ _ x => x end.
Record HavingCondition : Type := mkHaving { having_aggregate : AggregateSelection; having_operator : HavingOperator; having_value : json }.
Record AggregationRequest : Type := mkRequest {
  request_table : string;
  request_where : option WhereClause;
  group_by : list GroupBySelection;
  aggregates : list AggregateSelection;
  having : list HavingCondition;
  order_by : list OrderByClause;
  limit : option Z;
  offset : option Z
}.
End Request.

(** ** [AggregateQueryParser] *)
Module AggregateQueryParser.
Import Fact Agg Request.
Section Parser.
Context (m : FactTableMetadata) (native_columns : gmap string string) (debug_list : list string -> string).

Definition as_object (v : json) : option (list (string * json)) := match v with JObject l => Some l | _ => None end.
(** [s.rfind('_')], with the texts on its two sides. *)
Fixpoint rsplit_underscore (s : string) : option (string * string) :=
  match s with
  | EmptyString => None
  | String c s =>
      match rsplit_underscore s with
      | Some (a, b) => Some (String c a, b)
      | None => if Ascii.eqb c "_" then Some (EmptyString, s) else None
      end
  end.
Definition parse_where_field_and_operator (key : string) : option (string * Op.WhereOperator) :=
  match rsplit_underscore key with
  | Some (field, operator) => match OpParse.from_str operator with Ok op => Some (field, op) | Err _ => None end
  | None => None
  end.
Definition where_condition (kv : string * json) : option WhereClause :=
  match parse_where_field_and_operator kv.1 with
  | Some (field, op) =>
      Some (match native_columns !! field with
            | Some pg_cast => NativeField field pg_cast op kv.2
            | None => Field [field] op kv.2
            end)
  | None => None
  end.
Definition parse_where_clause (where_obj : json) : WhereClause :=
  match as_object where_obj with Some obj => And (omap where_condition obj) | None => And [] end.

(** The first bucket whose name follows a column and an underscore. *)
Definition bucket_key (column : string) (b : TemporalBucket) : string := (column ++ "_" ++ bucket_suffix b)%string.
Fixpoint first_some {A B} (f : A -> option B) (l : list A) : option B :=
  match l with [] => None | x :: l => match f x with Some y => Some y | None => first_some f l end end.
Definition find_calendar_bucket (d : CalendarDimension) (b : TemporalBucket) : option (CalendarGranularity * CalendarBucket) :=
  first_some (fun g => (fun c => (g, c)) <$> find (fun c => bool_decide (c.(bucket_type) = b)) g.(buckets)) d.(granularities).
Definition calendar_selection (d : CalendarDimension) (g : CalendarGranularity) (c : CalendarBucket) (alias : string) : GroupBySelection :=
  Calendar d.(source_column) g.(granularity_column) c.(json_key) c.(bucket_type) alias.
Definition try_parse_calendar_bucket (key : string) : option GroupBySelection :=
  first_some (fun d =>
    first_some (fun b =>
      if key =s bucket_key d.(source_column) b then
        (fun gc => calendar_selection d gc.1 gc.2 key) <$> find_calendar_bucket d b
      else None) all_buckets) m.(calendar_dimensions).
Definition try_find_calendar_bucket (column : string) (b : TemporalBucket) : option GroupBySelection :=
  first_some (fun d =>
    if d.(source_column) =s column then (fun gc => calendar_selection d gc.1 gc.2 column) <$> find_calendar_bucket d b else None)
    m.(calendar_dimensions).
Definition parse_temporal_bucket (key : string) : option GroupBySelection :=
  first_some (fun f =>
    first_some (fun b => if key =s bucket_key f.(filter_name) b then Some (Temporal f.(filter_name) b key) else None) all_buckets)
    m.(denormalized_filters).
Definition parse_group_key (kv : string * json) : result FraiseQLError (option GroupBySelection) :=
  let '(key, value) := kv in
  match value with
  | JBool true =>
      Ok (Some (match try_parse_calendar_bucket key with
                | Some s => s
                | None =>
                    match parse_temporal_bucket key with
                    | Some s => s
                    | None =>
                        match native_columns !! key with
                        | Some pg_cast => NativeDimension key pg_cast
                        | None => Dimension key key
                        end
                    end
                end))
  | JString bucket_str =>
      bucket ← bucket_from_str bucket_str;
      match try_find_calendar_bucket key bucket with
      | Some s => Ok (Some s)
      | None =>
          if has_filter m key then Ok (Some (Temporal key bucket key))
          else Err (validation ("Temporal bucketing column '" ++ key ++ "' not found in denormalized filters")%string)
      end
  | _ => Ok None
  end.
(** What a loop that stops at the first error collects. *)
Fixpoint collect_some {A B} (f : A -> result FraiseQLError (option B)) (l : list A) : result FraiseQLError (list B) :=
  match l with
  | [] => Ok []
  | x :: l => y ← f x; r ← collect_some f l; Ok (match y with Some y => y :: r | None => r end)
  end.
Definition parse_group_by (v : json) : result FraiseQLError (list GroupBySelection) :=
  match as_object v with Some obj => collect_some parse_group_key obj | None => Ok [] end.

Definition extract_dimension_paths : list string := map path_name m.(dimensions).(paths) ++ map filter_name m.(denormalized_filters).
Definition parse_count_distinct (stripped agg_name : string) : result FraiseQLError AggregateSelection :=
  if existsb (String.eqb stripped) extract_dimension_paths || has_measure m stripped then Ok (SelCountDistinct stripped agg_name)
  else Err (validation ("COUNT DISTINCT field '" ++ stripped ++ "' not found in dimensions or measures. Available: " ++
              debug_list extract_dimension_paths)%string).
Definition parse_bool_aggregate (agg_name : string) : option AggregateSelection :=
  first_some (fun path =>
    if agg_name =s (path ++ "_bool_and")%string then Some (SelBool path BoolAnd agg_name)
    else if agg_name =s (path ++ "_bool_or")%string then Some (SelBool path BoolOr agg_name) else None)
    extract_dimension_paths.
Definition function_key (n : string) (f : AggregateFunction) : string := (n ++ "_" ++ field_name f)%string.
Definition parse_function (functions : list AggregateFunction) (agg_name n : string) : option AggregateSelection :=
  first_some (fun f => if agg_name =s function_key n f then Some (SelMeasure n f agg_name) else None) functions.
Definition measure_functions : list AggregateFunction :=
  [Sum; Avg; Min; Max; Stddev; Variance; ArrayAgg; JsonAgg; JsonbAgg; StringAgg].
Definition parse_aggregate_selection (agg_name : string) : result FraiseQLError AggregateSelection :=
  if agg_name =s "count" then Ok (SelCount "count")
  else if agg_name =s "count_distinct" then Ok (SelCountDistinct (default "id"%string (head extract_dimension_paths)) "count_distinct")
  else
    match strip_suffix "_count_distinct" agg_name with
    | Some stripped => parse_count_distinct stripped agg_name
    | None =>
        match parse_bool_aggregate agg_name with
        | Some s => Ok s
        | None =>
            match first_some (parse_function measure_functions agg_name) (map measure_name m.(measures)) with
            | Some s => Ok s
            | None =>
                match first_some (parse_function advanced_functions agg_name) extract_dimension_paths with
                | Some s => Ok s
                | None => Err (validation ("Unknown aggregate selection: " ++ agg_name)%string)
                end
            end
        end
    end.
Definition aggregate_names (v : json) : list string :=
  match v with
  | JArray l => flat_map (fun item => match as_object item with Some obj => map fst obj | None => [] end) l
  | _ => []
  end.
Definition parse_aggregates (v : json) : result FraiseQLError (list AggregateSelection) :=
  collect_some (fun n => Some <$> parse_aggregate_selection n) (aggregate_names v).

Definition having_suffixes : list HavingOperator := [HGt; HGte; HLt; HLte; HEq; HNeq].
Definition parse_having_key (key : string) : option (string * HavingOperator) :=
  first_some (fun o => (fun n => (n, o)) <$> strip_suffix ("_" ++ having_suffix o)%string key) having_suffixes.
Definition parse_having_entry (selected : list AggregateSelection) (kv : string * json) : result FraiseQLError (option HavingCondition) :=
  match parse_having_key kv.1 with
  | Some (agg_name, operator) =>
      match find (fun a => alias a =s agg_name) selected with
      | Some aggregate => Ok (Some (mkHaving aggregate operator kv.2))
      | None => Err (validation ("HAVING condition references non-selected aggregate: " ++ agg_name)%string)
      end
  | None => Ok None
  end.
Definition parse_having (v : json) (selected : list AggregateSelection) : result FraiseQLError (list HavingCondition) :=
  match as_object v with Some obj => collect_some (parse_having_entry selected) obj | None => Ok [] end.

Definition parse_direction (v : json) : OrderDirection :=
  match as_str v with Some s => if (s =s "DESC") || (s =s "desc") then Desc else Asc | None => Asc end.
Definition parse_order_by (v : json) : list OrderByClause :=
  match as_object v with Some obj => map (fun kv => OrderBy.new kv.1 (parse_direction kv.2)) obj | None => [] end.
Definition parse_u32_max (query : json) (key : string) : option Z := (fun n => Z.min n u32_max) <$> (json_get query key ≫= as_u64).
Definition optional {A} (query : json) (key : string) (none : A) (f : json -> result FraiseQLError A) : result FraiseQLError A :=
  match json_get query key with Some v => f v | None => Ok none end.

Definition parse (query : json) : result FraiseQLError AggregationRequest :=
  table ← ok_or (json_get query "table" ≫= as_str) (validation "Missing 'table' field in aggregate query");
  groups ← optional query "groupBy" [] parse_group_by;
  selected ← optional query "aggregates" [] parse_aggregates;
  conditions ← optional query "having" [] (fun v => parse_having v selected);
  order ← optional query "orderBy" [] (fun v => Ok (parse_order_by v));
  Ok (mkRequest table (parse_where_clause <$> json_get query "where") groups selected conditions order
        (parse_u32_max query "limit") (parse_u32_max query "offset")).
End Parser.
End AggregateQueryParser.

(** ** [AggregationPlanner] *)
Module Plan.
Import Fact Agg Request.
Inductive GroupByExpression : Type :=
| JsonbPath (jsonb_column path alias : string)
| TemporalExpr (column : string) (bucket : TemporalBucket) (alias : string)
| CalendarPath (calendar_column key alias : string)
| NativeColumn (column pg_cast alias : string).
Definition expression_alias (e : GroupByExpression) : string :=
  match e with JsonbPath _ _ a | TemporalExpr _ _ a | CalendarPath _ _ a | NativeColumn _ _ a => a end.
Inductive AggregateExpression : Type :=
| ECount (alias : string)
| ECountDistinct (column alias : string)
| EMeasure (column : string) (function : AggregateFunction) (alias : string)
| EAdvanced (column : string) (function : AggregateFunction) (alias : string) (delimiter : option string)
    (order_by : option (list OrderByClause))
| EBool (column : string) (function : BoolAggregateFunction) (alias : string).
Definition aggregate_alias (e : AggregateExpression) : string :=
  match e with ECount a | ECountDistinct _ a | EMeasure _ _ a | EAdvanced _ _ a _ _ | EBool _ _ a => a end.
Record ValidatedHavingCondition : Type := mkValidated {
  validated_aggregate : AggregateExpression;
  validated_operator : HavingOperator;
  validated_value : json
}.
Record AggregationPlan : Type := mkPlan {
  metadata : FactTableMetadata;
  request : AggregationRequest;
  group_by_expressions : list GroupByExpression;
  aggregate_expressions : list AggregateExpression;
  having_conditions : list ValidatedHavingCondition
}.
Definition native_aliases (p : AggregationPlan) : gset string :=
  list_to_set (omap (fun e => match e with NativeColumn _ _ a => Some a | _ => None end) p.(group_by_expressions)).

Definition not_found (what name table : string) : FraiseQLError :=
  validation (what ++ " '" ++ name ++ "' not found in fact table '" ++ table ++ "'")%string.
Definition validate_group (m : FactTableMetadata) (s : GroupBySelection) : result FraiseQLError GroupByExpression :=
  match s with
  | Dimension path alias =>
      if negb (Nat.eqb (length m.(dimensions).(paths)) 0) && negb (has_path m path) then Err (not_found "Dimension" path m.(table_name))
      else Ok (JsonbPath m.(dimensions).(column_name) path alias)
  | Temporal column bucket alias =>
      if has_filter m column then Ok (TemporalExpr column bucket alias) else Err (not_found "Column" column m.(table_name))
  | Calendar _ calendar_column key _ alias => Ok (CalendarPath calendar_column key alias)
  | NativeDimension column pg_cast => Ok (NativeColumn column pg_cast column)
  end.
Definition is_advanced (f : AggregateFunction) : bool := existsb (fun g => bool_decide (f = g)) advanced_functions.
(** The expression of an aggregate of a function. *)
Definition measure_expression (measure : string) (f : AggregateFunction) (alias : string) : AggregateExpression :=
  if is_advanced f then EAdvanced measure f alias (if bool_decide (f = StringAgg) then Some ", "%string else None) None
  else EMeasure measure f alias.
Definition validate_aggregate (m : FactTableMetadata) (s : AggregateSelection) : result FraiseQLError AggregateExpression :=
  match s with
  | SelCount alias => Ok (ECount alias)
  | SelCountDistinct field alias =>
      if has_measure m field then Ok (ECountDistinct field alias) else Err (not_found "Measure" field m.(table_name))
  | SelMeasure measure f alias =>
      if has_measure m measure || has_path m measure || has_filter m measure then Ok (measure_expression measure f alias)
      else Err (not_found "Measure or field" measure m.(table_name))
  | SelBool field f alias =>
      if has_path m field || has_filter m field then Ok (EBool field f alias)
      else Err (not_found "Boolean field" field m.(table_name))
  end.
Definition having_expression (s : AggregateSelection) : AggregateExpression :=
  match s with
  | SelCount alias => ECount alias
  | SelCountDistinct field alias => ECountDistinct field alias
  | SelMeasure measure f alias => measure_expression measure f alias
  | SelBool field f alias => EBool field f alias
  end.
Definition validate_having (c : HavingCondition) : ValidatedHavingCondition :=
  mkValidated (having_expression c.(having_aggregate)) c.(having_operator) c.(having_value).
Fixpoint collect {A B} (f : A -> result FraiseQLError B) (l : list A) : result FraiseQLError (list B) :=
  match l with [] => Ok [] | x :: l => y ← f x; r ← collect f l; Ok (y :: r) end.
Definition plan (r : AggregationRequest) (m : FactTableMetadata) : result FraiseQLError AggregationPlan :=
  groups ← collect (validate_group m) r.(group_by);
  selected ← collect (validate_aggregate m) r.(aggregates);
  Ok (mkPlan m r groups selected (map validate_having r.(having))).
End Plan.
