(* ===== verification/AggregationSql.v ===== *)
(** * The SQL of aggregate queries

    [fraiseql-core/src/runtime/aggregation/]: the parameterised SQL of a plan
    for the four databases; [runtime/aggregate_projector.rs] and
    [runtime/executor/aggregate.rs]: an aggregate query from its variables to
    its response.  [str::to_uppercase] and the text of a list are arguments,
    the database is an interface. *)

From Stdlib Require Import Ascii.
From stdpp Require Import pretty.
From S2P Require Import Prelude Json WhereClause SqlDialect WhereGenerator Chars OrderBy CacheKey EditDistance Aggregation.
Import Fact Agg Request Plan.
#[local] Open Scope Z_scope.

(** ** [AggregationSqlGenerator] *)
Module AggregationSqlGenerator.
Section Generator.
Context (db : DatabaseType) (to_uppercase : string -> string).

Definition jsonb_extract_sql (jsonb_column path : string) : string :=
  match db with
  | PostgreSQL => jsonb_column ++ "->>'" ++ PathEscape.escape_postgres_jsonb_segment path ++ "' "
  | MySQL => "JSON_UNQUOTE(JSON_EXTRACT(" ++ jsonb_column ++ ", '" ++ PathEscape.escape_mysql_json_path [path] ++ "'))"
  | SQLite => "json_extract(" ++ jsonb_column ++ ", '" ++ PathEscape.escape_sqlite_json_path [path] ++ "')"
  | SQLServer => "JSON_VALUE(" ++ jsonb_column ++ ", '" ++ PathEscape.escape_sqlserver_json_path [path] ++ "')"
  end%string.
Definition operator_to_sql (o : Op.WhereOperator) : string :=
  match o with
  | Op.Neq => "!=" | Op.Gt => ">" | Op.Gte => ">=" | Op.Lt => "<" | Op.Lte => "<=" | Op.In => "IN" | Op.Nin => "NOT IN"
  | Op.Like | Op.Contains | Op.Startswith | Op.Endswith => "LIKE"
  | Op.Ilike | Op.Icontains | Op.Istartswith | Op.Iendswith => match db with PostgreSQL => "ILIKE" | _ => "LIKE" end
  | _ => "="
  end%string.
Definition quote_identifier (name : string) : string :=
  match db with
  | MySQL => Identifier.quote_mysql_identifier name
  | SQLServer => Identifier.quote_sqlserver_identifier name
  | PostgreSQL | SQLite => Identifier.quote_postgres_identifier name
  end.
Definition nul : ascii := ascii_of_nat 0.
Definition escape_sql_string (s : string) : string :=
  let s := replace_char nul "" s in
  match db with MySQL => replace_char "'" "''" (replace_char "\" "\\" s) | _ => replace_char "'" "''" s end%string.
Definition placeholder (index : nat) : string :=
  match db with
  | PostgreSQL => "$" ++ pretty (index + 1)%nat
  | SQLServer => "@P" ++ pretty (index + 1)%nat
  | _ => "?"
  end%string.
Definition emit_value_param (v : json) (params : list json) : list json * string :=
  match v with JNull => (params, "NULL"%string) | _ => (params ++ [v], placeholder (length params)) end.
Definition escape_like (s : string) : string := replace_char "_" "!_" (replace_char "%" "!%" (replace_char "!" "!!" s)).
Definition like_pattern (o : Op.WhereOperator) (value : string) : string * bool :=
  let clean := replace_char nul "" value in
  let esc := escape_like clean in
  match o with
  | Op.Contains | Op.Icontains => ("%" ++ esc ++ "%", true)
  | Op.Startswith | Op.Istartswith => (esc ++ "%", true)
  | Op.Endswith | Op.Iendswith => ("%" ++ esc, true)
  | _ => (clean, false)
  end%string.
Definition emit_like_pattern_param (o : Op.WhereOperator) (value : string) (params : list json) : list json * string * bool :=
  let '(pattern, needs_escape) := like_pattern o value in
  (emit_value_param (JString pattern) params, needs_escape).

(** *** SELECT and GROUP BY *)
Definition mysql_format (b : TemporalBucket) : string :=
  match b with
  | Second => "%Y-%m-%d %H:%i:%s" | Minute => "%Y-%m-%d %H:%i:00" | Hour => "%Y-%m-%d %H:00:00" | Day => "%Y-%m-%d"
  | Week => "%Y-%u" | Month => "%Y-%m" | Quarter => "%Y-Q%q" | Year => "%Y"
  end.
Definition sqlite_format (b : TemporalBucket) : string :=
  match b with
  | Second => "%Y-%m-%d %H:%M:%S" | Minute => "%Y-%m-%d %H:%M:00" | Hour => "%Y-%m-%d %H:00:00" | Day => "%Y-%m-%d"
  | Week => "%Y-W%W" | Month => "%Y-%m" | Quarter => "%Y-Q" | Year => "%Y"
  end.
Definition temporal_bucket_sql (column : string) (b : TemporalBucket) : string :=
  match db with
  | PostgreSQL => "DATE_TRUNC('" ++ postgres_arg b ++ "', " ++ column ++ ")"
  | MySQL => "DATE_FORMAT(" ++ column ++ ", '" ++ mysql_format b ++ "')"
  | SQLite => "strftime('" ++ sqlite_format b ++ "', " ++ column ++ ")"
  | SQLServer =>
      match b with
      | Day => "CAST(" ++ column ++ " AS DATE)"
      | Month => "DATEADD(month, DATEDIFF(month, 0, " ++ column ++ "), 0)"
      | Year => "DATEADD(year, DATEDIFF(year, 0, " ++ column ++ "), 0)"
      | _ => "DATEPART(" ++ bucket_suffix b ++ ", " ++ column ++ ")"
      end
  end%string.
Definition group_by_expression_to_sql (e : GroupByExpression) : string :=
  match e with
  | JsonbPath jsonb_column path _ => jsonb_extract_sql jsonb_column path
  | TemporalExpr column bucket _ => temporal_bucket_sql column bucket
  | CalendarPath calendar_column key _ => jsonb_extract_sql calendar_column key
  | NativeColumn column _ _ => quote_identifier column
  end.
Definition direction_sql (d : OrderDirection) : string := match d with Asc => "ASC" | Desc => "DESC" end.
Definition order_by_to_sql (l : list OrderByClause) : string :=
  String.concat ", " (map (fun c => quote_identifier c.(order_field) ++ " " ++ direction_sql c.(direction))%string l).
(** [F(column)], or [F(column ORDER BY ...)]. *)
Definition ordered_call (f column : string) (order : option (list OrderByClause)) : string :=
  match order with
  | Some l => f ++ "(" ++ column ++ " ORDER BY " ++ order_by_to_sql l ++ ")"
  | None => f ++ "(" ++ column ++ ")"
  end%string.
Definition generate_array_agg_sql (column : string) (order : option (list OrderByClause)) : string :=
  match db with
  | PostgreSQL => ordered_call "ARRAY_AGG" column order
  | MySQL => "JSON_ARRAYAGG(" ++ column ++ ")"
  | SQLite => "'[' || GROUP_CONCAT('" ++ dq ++ "' || " ++ column ++ " || '" ++ dq ++ "', ',') || ']'"
  | SQLServer => "'[' + STRING_AGG('" ++ dq ++ "' + CAST(" ++ column ++ " AS NVARCHAR(MAX)) + '" ++ dq ++ "', ',') + ']'"
  end%string.
Definition generate_json_agg_sql (column : string) (order : option (list OrderByClause)) : string :=
  match db with
  | PostgreSQL => ordered_call "JSON_AGG" column order
  | MySQL => "JSON_ARRAYAGG(" ++ column ++ ")"
  | SQLite => "JSON_ARRAY(" ++ column ++ ")"
  | SQLServer => "(SELECT " ++ column ++ " FOR JSON PATH)"
  end%string.
Definition generate_jsonb_agg_sql (column : string) (order : option (list OrderByClause)) : string :=
  match db with PostgreSQL => ordered_call "JSONB_AGG" column order | _ => generate_json_agg_sql column order end.
Definition generate_string_agg_sql (column delimiter : string) (order : option (list OrderByClause)) : string :=
  let safe := escape_sql_string delimiter in
  match db with
  | PostgreSQL =>
      match order with
      | Some l => "STRING_AGG(" ++ column ++ ", '" ++ safe ++ "' ORDER BY " ++ order_by_to_sql l ++ ")"
      | None => "STRING_AGG(" ++ column ++ ", '" ++ safe ++ "')"
      end
  | MySQL =>
      "GROUP_CONCAT(" ++ column ++ (match order with Some l => " ORDER BY " ++ order_by_to_sql l | None => "" end) ++
      " SEPARATOR '" ++ safe ++ "')"
  | SQLite => "GROUP_CONCAT(" ++ column ++ ", '" ++ safe ++ "')"
  | SQLServer =>
      "STRING_AGG(CAST(" ++ column ++ " AS NVARCHAR(MAX)), '" ++ safe ++ "')" ++
      (match order with Some l => " WITHIN GROUP (ORDER BY " ++ order_by_to_sql l ++ ")" | None => "" end)
  end%string.
Definition call (f column : string) : string := f ++ "(" ++ column ++ ")".
Definition generate_stddev_sql (column : string) : string :=
  match db with
  | PostgreSQL | MySQL => call "STDDEV_SAMP" column
  | SQLite => "NULL /* STDDEV not supported in SQLite */"
  | SQLServer => call "STDEV" column
  end.
Definition generate_variance_sql (column : string) : string :=
  match db with
  | PostgreSQL | MySQL => call "VAR_SAMP" column
  | SQLite => "NULL /* VARIANCE not supported in SQLite */"
  | SQLServer => call "VAR" column
  end.
Definition generate_bool_agg_sql (column : string) (f : BoolAggregateFunction) : string :=
  match db, f with
  | PostgreSQL, _ => call (bool_sql_name f) column
  | (MySQL | SQLite), BoolAnd => "MIN(" ++ column ++ ") = 1"
  | (MySQL | SQLite), BoolOr => "MAX(" ++ column ++ ") = 1"
  | SQLServer, BoolAnd => "MIN(CAST(" ++ column ++ " AS BIT)) = 1"
  | SQLServer, BoolOr => "MAX(CAST(" ++ column ++ " AS BIT)) = 1"
  end%string.
Definition advanced_aggregate_to_sql (column : string) (f : AggregateFunction) (delimiter : option string)
    (order : option (list OrderByClause)) : string :=
  match f with
  | ArrayAgg => generate_array_agg_sql column order
  | JsonAgg => generate_json_agg_sql column order
  | JsonbAgg => generate_jsonb_agg_sql column order
  | StringAgg => generate_string_agg_sql column (default "," delimiter) order
  | _ => call (sql_name f) column
  end%string.
Definition aggregate_expression_to_sql (e : AggregateExpression) : string :=
  match e with
  | ECount _ => "COUNT(*)"
  | ECountDistinct column _ => "COUNT(DISTINCT " ++ column ++ ")"
  | EMeasure column f _ =>
      match f with
      | Stddev => generate_stddev_sql column
      | Variance => generate_variance_sql column
      | _ => call (sql_name f) column
      end
  | EAdvanced column f _ delimiter order => advanced_aggregate_to_sql column f delimiter order
  | EBool column f _ => generate_bool_agg_sql column f
  end%string.
Definition nl : string := String (ascii_of_nat 10) EmptyString.
Definition as_alias (column alias : string) : string := column ++ " AS " ++ alias.
Definition build_select_clause (groups : list GroupByExpression) (aggs : list AggregateExpression) : string :=
  "SELECT" ++ nl ++ "  " ++ String.concat ("," ++ nl ++ "  ")
    (map (fun e => as_alias (group_by_expression_to_sql e) (expression_alias e)) groups ++
     map (fun e => as_alias (aggregate_expression_to_sql e) (aggregate_alias e)) aggs)%list.
Definition build_group_by_clause (groups : list GroupByExpression) : string :=
  "GROUP BY " ++ String.concat ", " (map group_by_expression_to_sql groups).
Definition build_order_by_clause (l : list OrderByClause) : string := "ORDER BY " ++ order_by_to_sql l.

(** *** WHERE and HAVING *)
(** The parameters so far and a text; [Err None] is a panic. *)
Definition emitted : Type := result (option FraiseQLError) (list json * string).
Definition refused {A} (m : string) : result (option FraiseQLError) A := Err (Some (validation m)).
Definition is_like (o : Op.WhereOperator) : bool :=
  match o with Op.Contains | Op.Startswith | Op.Endswith => true | _ => false end.
Definition is_list (o : Op.WhereOperator) : bool := match o with Op.In | Op.Nin => true | _ => false end.
Fixpoint emit_values (l : list json) (params : list json) : list json * list string :=
  match l with
  | [] => (params, [])
  | v :: l =>
      let '(params, ph) := emit_value_param v params in
      let '(params, phs) := emit_values l params in
      (params, ph :: phs)
  end.
Definition list_condition (column op_sql : string) (value : json) (params : list json) : emitted :=
  match value with
  | JArray arr =>
      let '(params, phs) := emit_values arr params in
      Ok (params, (column ++ " " ++ op_sql ++ " (" ++ String.concat ", " phs ++ ")")%string)
  | _ => refused "IN/NOT IN operators require array values"
  end.
Definition escape_clause (needs_escape : bool) : string := if needs_escape then " ESCAPE '!'" else "".
Definition like_condition (column op_sql : string) (o : Op.WhereOperator) (s : string) (params : list json) : emitted :=
  let '(params, ph, needs_escape) := emit_like_pattern_param o s params in
  Ok (params, (column ++ " " ++ op_sql ++ " " ++ ph ++ escape_clause needs_escape)%string).
Definition generate_case_insensitive_where_parameterized (column : string) (o : Op.WhereOperator) (value : string)
    (params : list json) : emitted :=
  match db with
  | PostgreSQL => like_condition column (operator_to_sql o) o value params
  | _ => like_condition ("UPPER(" ++ column ++ ")")%string "LIKE" o (to_uppercase value) params
  end.
Definition scalar_condition (column op_sql : string) (value : json) (params : list json) : emitted :=
  let '(params, ph) := emit_value_param value params in Ok (params, (column ++ " " ++ op_sql ++ " " ++ ph)%string).
Definition generate_direct_column_where_parameterized (field : string) (o : Op.WhereOperator) (value : json)
    (params : list json) : emitted :=
  match o with
  | Op.IsNull => Ok (params, (field ++ " IS NULL")%string)
  | _ =>
      let op_sql := operator_to_sql o in
      if is_list o then list_condition field op_sql value params
      else if is_like o || (match o with Op.Like => true | _ => false end) then
        match value with
        | JString s => like_condition field op_sql o s params
        | _ => refused "LIKE operators require string values"
        end
      else if Op.is_case_insensitive o then
        match value with
        | JString s => generate_case_insensitive_where_parameterized field o s params
        | _ => refused "Case-insensitive operators require string values"
        end
      else scalar_condition field op_sql value params
  end.
Definition generate_jsonb_where_parameterized (jsonb_column field_path : string) (o : Op.WhereOperator) (value : json)
    (params : list json) : emitted :=
  let jsonb_extract := jsonb_extract_sql jsonb_column (to_snake_case field_path) in
  let op_sql := operator_to_sql o in
  match o with
  | Op.IsNull => Ok (params, (jsonb_extract ++ " IS NULL")%string)
  | _ =>
      if Op.is_case_insensitive o then
        match value with
        | JString s => generate_case_insensitive_where_parameterized jsonb_extract o s params
        | _ => refused "Case-insensitive operators require string values"
        end
      else if is_list o then list_condition jsonb_extract op_sql value params
      else if is_like o then
        match value with
        | JString s => like_condition jsonb_extract op_sql o s params
        | _ => refused "LIKE operators require string values"
        end
      else scalar_condition jsonb_extract op_sql value params
  end.
(** On PostgreSQL the one parameter a condition has added is cast. *)
Definition with_cast (pg_cast : string) (before : list json) (r : list json * string) : list json * string :=
  match db with
  | PostgreSQL =>
      if negb (pg_cast =s "") && Nat.eqb (length r.1) (S (length before)) then
        let ph := placeholder (length before) in (r.1, Chars.replace ph (ph ++ "::" ++ pg_cast)%string r.2)
      else r
  | _ => r
  end.
Section Where.
Context (m : FactTableMetadata).
Fixpoint where_clause_to_sql_parameterized (c : WhereClause) (params : list json) {struct c} : emitted :=
  match c with
  | Field path o value =>
      match path with
      | [] => Err None
      | field_name :: _ =>
          if has_filter m field_name then generate_direct_column_where_parameterized field_name o value params
          else generate_jsonb_where_parameterized m.(dimensions).(column_name) field_name o value params
      end
  | And clauses =>
      r ← (fix go (l : list WhereClause) (params : list json) : result (option FraiseQLError) (list json * list string) :=
             match l with
             | [] => Ok (params, [])
             | c :: l => r ← where_clause_to_sql_parameterized c params; rs ← go l r.1; Ok (rs.1, r.2 :: rs.2)
             end) clauses params;
      Ok (r.1, ("(" ++ String.concat " AND " r.2 ++ ")")%string)
  | Or clauses =>
      r ← (fix go (l : list WhereClause) (params : list json) : result (option FraiseQLError) (list json * list string) :=
             match l with
             | [] => Ok (params, [])
             | c :: l => r ← where_clause_to_sql_parameterized c params; rs ← go l r.1; Ok (rs.1, r.2 :: rs.2)
             end) clauses params;
      Ok (r.1, ("(" ++ String.concat " OR " r.2 ++ ")")%string)
  | Not inner =>
      r ← where_clause_to_sql_parameterized inner params; Ok (r.1, ("NOT (" ++ r.2 ++ ")")%string)
  | NativeField column pg_cast o value =>
      r ← generate_direct_column_where_parameterized (quote_identifier column) o value params;
      Ok (with_cast pg_cast params r)
  end.
Definition build_where_clause_parameterized (c : WhereClause) (params : list json) : emitted :=
  if is_empty c then Ok (params, EmptyString)
  else r ← where_clause_to_sql_parameterized c params; Ok (r.1, ("WHERE " ++ r.2)%string).
End Where.
Fixpoint having_parts (l : list ValidatedHavingCondition) (params : list json) : list json * list string :=
  match l with
  | [] => (params, [])
  | c :: l =>
      let '(params, value_sql) := emit_value_param c.(validated_value) params in
      let '(params, rest) := having_parts l params in
      (params, (aggregate_expression_to_sql c.(validated_aggregate) ++ " " ++ sql_operator c.(validated_operator) ++ " " ++
                value_sql)%string :: rest)
  end.
Definition build_having_clause_parameterized (l : list ValidatedHavingCondition) (params : list json) : list json * string :=
  match l with
  | [] => (params, EmptyString)
  | _ => let '(params, parts) := having_parts l params in (params, ("HAVING " ++ String.concat " AND " parts)%string)
  end.
Definition bounded (keyword : string) (n : option Z) : string :=
  match n with Some n => (nl ++ keyword ++ " " ++ pretty n)%string | None => EmptyString end.
Definition where_sql (p : AggregationPlan) : emitted :=
  match p.(request).(request_where) with
  | Some c => build_where_clause_parameterized p.(metadata) c []
  | None => Ok ([], EmptyString)
  end.
Definition group_sql (p : AggregationPlan) : string :=
  match p.(group_by_expressions) with [] => EmptyString | l => build_group_by_clause l end.
Definition order_sql (p : AggregationPlan) : string :=
  match p.(request).(order_by) with [] => EmptyString | l => build_order_by_clause l end.
Definition generate_parameterized (p : AggregationPlan) : emitted :=
  let select_sql := build_select_clause p.(group_by_expressions) p.(aggregate_expressions) in
  let from_sql := ("FROM " ++ p.(request).(request_table))%string in
  w ← where_sql p;
  let h := build_having_clause_parameterized p.(having_conditions) w.1 in
  let parts := List.filter (fun s => negb (s =s "")) [select_sql; from_sql; w.2; group_sql p; h.2; order_sql p] in
  Ok (h.1, (String.concat nl parts ++ bounded "LIMIT" p.(request).(limit) ++ bounded "OFFSET" p.(request).(offset))%string).
End Generator.
End AggregationSqlGenerator.

(** ** Execution *)
Module AggregateExecutor.
Import AggregationSqlGenerator.
(** A row of the database, a hash map's entries in some order. *)
Notation row := (list (string * json)).
Class AggregateDatabase (D : Type) : Type := {
  aggregate_database_type : D -> DatabaseType;
  execute_parameterized_aggregate : D -> string -> list json -> result FraiseQLError (list row)
}.
Definition project (rows : list row) : json :=
  JArray (map (fun r => JObject (foldl (fun o kv => map_insert kv.1 kv.2 o) [] r)) rows).
Definition project_single (r : row) : json := JObject (foldl (fun o kv => map_insert kv.1 kv.2 o) [] r).
Definition wrap_in_data_envelope (projected : json) (query_name : string) : json :=
  JObject [("data"%string, JObject [(query_name, projected)])].
Section Execute.
Context {D : Type} `{AggregateDatabase D} (db : D) (to_uppercase : string -> string) (debug_list : list string -> string).
Definition or_panic {A} (r : result FraiseQLError A) : result (option FraiseQLError) A :=
  match r with Ok a => Ok a | Err e => Err (Some e) end.
Definition execute_aggregate_query (query : json) (query_name : string) (m : FactTableMetadata) : result (option FraiseQLError) json :=
  let native_columns := filter_columns_to_native_map m.(denormalized_filters) in
  r ← or_panic (AggregateQueryParser.parse m native_columns debug_list query);
  p ← or_panic (plan r m);
  sql ← generate_parameterized (aggregate_database_type db) to_uppercase p;
  rows ← or_panic (execute_parameterized_aggregate db sql.2 sql.1);
  Ok (wrap_in_data_envelope (project rows) query_name).
(** The fact tables of the schema; the names are those of a hash map, in some order. *)
Context (fact_tables : gmap string FactTableMetadata) (list_fact_tables : list string).
Context (sort : list (nat * string) -> list (nat * string)).
Definition fact_table_not_found (name : string) : FraiseQLError :=
  let base := ("Fact table '" ++ name ++ "' not found in schema")%string in
  Validation (WhereClause.Text match Suggest.suggest_similar sort name list_fact_tables with
                   | [s] => (base ++ ". Did you mean '" ++ s ++ "'?")%string
                   | _ => base
                   end) (Some ("fact_tables." ++ name)%string).
Definition fact_table_of (what suffix query_name : string) : result FraiseQLError FactTableMetadata :=
  name ← ok_or (strip_suffix suffix query_name) (validation ("Invalid " ++ what ++ " query name: " ++ query_name)%string);
  ok_or (fact_tables !! ("tf_" ++ name)%string) (fact_table_not_found ("tf_" ++ name)).
Definition execute_aggregate_dispatch (query_name : string) (variables : option json) : result (option FraiseQLError) json :=
  m ← or_panic (fact_table_of "aggregate" "_aggregate" query_name);
  execute_aggregate_query (default (JObject []) variables) query_name m.
End Execute.
End AggregateExecutor.
