(* ===== verification/AggregationFacts.v ===== *)
(** * What aggregate queries guarantee

    The theorems about [Aggregation] and [AggregationSql]: the generated SQL is
    a template that does not depend on the values bound; which keys of a filter
    are looked at; the table of a request. *)

From Stdlib Require Import Ascii.
From stdpp Require Import pretty.
From S2P Require Import Prelude Json WhereClause SqlDialect WhereGenerator WhereSafety Chars OrderBy CacheKey Aggregation AggregationSql.
Import Fact Agg Request Plan AggregationSqlGenerator.
#[local] Open Scope Z_scope.

(** ** The template of a query *)
Notation template := (list Template.chunk).
Inductive arm : Type := ANull | AList | ALike | ACase | AScalar.
Definition direct_arm (o : Op.WhereOperator) : arm :=
  match o with
  | Op.IsNull => ANull
  | Op.In | Op.Nin => AList
  | Op.Contains | Op.Startswith | Op.Endswith | Op.Like => ALike
  | _ => if Op.is_case_insensitive o then ACase else AScalar
  end.
Definition jsonb_arm (o : Op.WhereOperator) : arm := match o with Op.Like => AScalar | _ => direct_arm o end.

Definition value_chunk (v : json) : Template.chunk := match v with JNull => Template.Txt "NULL" | _ => Template.Hole end.
Definition value_values (v : json) : list json := match v with JNull => [] | _ => [v] end.
Fixpoint commas (l : template) : template :=
  match l with [] => [] | [c] => [c] | c :: l => c :: Template.Txt ", " :: commas l end.
Definition join_templates (sep : string) : list template -> template :=
  fix go l := match l with [] => [] | [t] => t | t :: l => (t ++ Template.Txt sep :: go l)%list end.

Section Templates.
Context (db : DatabaseType) (to_uppercase : string -> string).
Definition ph (n : Z) : string := placeholder db (Z.to_nat (n - 1)).
Definition render (n : nat) (t : template) : string := Template.render ph (Z.of_nat n) t.

Definition like_template (column op_sql : string) (o : Op.WhereOperator) (v : json) : option template :=
  match v with
  | JString _ => Some [Template.Txt (column ++ " " ++ op_sql ++ " ")%string; Template.Hole; Template.Txt (escape_clause (like_pattern o "").2)]
  | _ => None
  end.
Definition arm_template (a : arm) (column : string) (o : Op.WhereOperator) (v : json) : option template :=
  let op_sql := operator_to_sql db o in
  match a with
  | ANull => Some [Template.Txt (column ++ " IS NULL")%string]
  | AList =>
      match v with
      | JArray l => Some (Template.Txt (column ++ " " ++ op_sql ++ " (")%string :: commas (map value_chunk l) ++ [Template.Txt ")"])%list
      | _ => None
      end
  | ALike => like_template column op_sql o v
  | ACase =>
      match db with
      | PostgreSQL => like_template column op_sql o v
      | _ => like_template ("UPPER(" ++ column ++ ")")%string "LIKE" o v
      end
  | AScalar => Some [Template.Txt (column ++ " " ++ op_sql ++ " ")%string; value_chunk v]
  end.
Definition arm_values (a : arm) (o : Op.WhereOperator) (v : json) : list json :=
  match a, v with
  | ANull, _ => []
  | AList, JArray l => flat_map value_values l
  | ALike, JString s => [JString (like_pattern o s).1]
  | ACase, JString s => [JString (like_pattern o (match db with PostgreSQL => s | _ => to_uppercase s end)).1]
  | AScalar, v => value_values v
  | _, _ => []
  end.
Definition cast_chunk (pg_cast : string) (t : template) : template :=
  match db with
  | PostgreSQL =>
      if negb (pg_cast =s "") && Nat.eqb (Template.holes t) 1 then
        flat_map (fun c => match c with Template.Hole => [Template.Hole; Template.Txt ("::" ++ pg_cast)%string] | c => [c] end) t
      else t
  | _ => t
  end.
Context (m : FactTableMetadata).
Fixpoint where_template (c : WhereClause) : option template :=
  match c with
  | Field [] _ _ => None
  | Field (f :: _) o v =>
      if has_filter m f then arm_template (direct_arm o) f o v
      else arm_template (jsonb_arm o) (jsonb_extract_sql db m.(dimensions).(column_name) (to_snake_case f)) o v
  | And l =>
      (fun ts => Template.Txt "(" :: join_templates " AND " ts ++ [Template.Txt ")"])%list <$>
      (fix go (l : list WhereClause) : option (list template) :=
         match l with [] => Some [] | c :: l => t ← where_template c; ts ← go l; Some (t :: ts) end) l
  | Or l =>
      (fun ts => Template.Txt "(" :: join_templates " OR " ts ++ [Template.Txt ")"])%list <$>
      (fix go (l : list WhereClause) : option (list template) :=
         match l with [] => Some [] | c :: l => t ← where_template c; ts ← go l; Some (t :: ts) end) l
  | Not c => (fun t => Template.Txt "NOT (" :: t ++ [Template.Txt ")"])%list <$> where_template c
  | NativeField column pg_cast o v => cast_chunk pg_cast <$> arm_template (direct_arm o) (quote_identifier db column) o v
  end.
Fixpoint where_values (c : WhereClause) : list json :=
  match c with
  | Field [] _ _ => []
  | Field (f :: _) o v => arm_values (if has_filter m f then direct_arm o else jsonb_arm o) o v
  | And l | Or l => flat_map where_values l
  | Not c => where_values c
  | NativeField _ _ o v => arm_values (direct_arm o) o v
  end.
End Templates.

(** ** Conditions *)
Section Emit.
Context (db : DatabaseType) (to_uppercase : string -> string).
Notation render := (render db).
Notation holes := Template.holes.

Definition emits (f : list json -> emitted) (ot : option template) (vs : list json) : Prop :=
  match ot with
  | Some t => holes t = length vs /\ forall params, f params = Ok ((params ++ vs)%list, render (length params) t)
  | None => exists e, forall params, f params = Err e
  end.

Lemma ph_next n : ph db (Z.of_nat n + 1) = placeholder db n.
Proof. unfold ph. f_equal. lia. Qed.
Lemma render_two n t u : render n (t ++ u)%list = (render n t ++ render (n + holes t) u)%string.
Proof. unfold AggregationFacts.render. rewrite Template.render_app. do 2 f_equal. lia. Qed.
Lemma render_txt n s t : render n (Template.Txt s :: t) = (s ++ render n t)%string.
Proof. done. Qed.
Lemma render_hole n t : render n (Template.Hole :: t) = (placeholder db n ++ render (S n) t)%string.
Proof. unfold AggregationFacts.render. cbn [Template.render]. rewrite ph_next. do 2 f_equal. lia. Qed.
Lemma render_nil n : render n [] = ""%string.
Proof. done. Qed.

Lemma emit_value v params : emit_value_param db v params = ((params ++ value_values v)%list, render (length params) [value_chunk v]).
Proof. destruct v; cbn [value_values value_chunk emit_value_param]; rewrite ?render_hole, ?render_txt, ?render_nil, ?str_nil_r, ?app_nil_r; done. Qed.
Lemma value_holes v : holes [value_chunk v] = length (value_values v).
Proof. by destruct v. Qed.
Lemma commas_cons c d l : commas (c :: d :: l) = ([c] ++ Template.Txt ", " :: commas (d :: l))%list.
Proof. done. Qed.
Lemma commas_holes l : holes (commas (map value_chunk l)) = length (flat_map value_values l).
Proof.
  induction l as [|v [|w l] IH]; [done|cbn [map commas flat_map]; by rewrite app_nil_r, value_holes|].
  cbn [map] in *. rewrite commas_cons. cbn [flat_map] in *. rewrite length_app, <- IH, <- value_holes. by destruct v.
Qed.
Lemma emit_values_render l params :
  exists phs, emit_values db l params = ((params ++ flat_map value_values l)%list, phs) /\
    length phs = length l /\ String.concat ", " phs = render (length params) (commas (map value_chunk l)).
Proof.
  revert params. induction l as [|v l IH]; intros params; [exists []; cbn; by rewrite app_nil_r|].
  cbn [emit_values]. rewrite emit_value. destruct (IH (params ++ value_values v)%list) as (phs & -> & Hl & Hc).
  eexists. split; [by cbn [flat_map]; rewrite app_assoc|]. split; [cbn; by f_equal|].
  destruct l as [|w l]; [by destruct phs|]. destruct phs as [|p phs]; [done|].
  change (String.concat ", " (render (length params) [value_chunk v] :: p :: phs))
    with (render (length params) [value_chunk v] ++ ", " ++ String.concat ", " (p :: phs))%string.
  rewrite Hc. cbn [map]. rewrite commas_cons.
  rewrite render_two, render_txt, value_holes, length_app. done.
Qed.

Lemma emits_ok t vs f :
  holes t = length vs -> (forall params, f params = Ok ((params ++ vs)%list, render (length params) t)) -> emits f (Some t) vs.
Proof. by split. Qed.
Lemma pattern_escape o s : (like_pattern o s).2 = (like_pattern o "").2.
Proof. by destruct o. Qed.
Lemma like_emits column op_sql o s :
  emits (like_condition db column op_sql o s) (like_template column op_sql o (JString s)) [JString (like_pattern o s).1].
Proof.
  apply emits_ok; [done|]. intros params. unfold like_condition, emit_like_pattern_param. rewrite <- (pattern_escape o s).
  destruct (like_pattern o s) as [p b]. rewrite emit_value. cbn [value_chunk value_values fst snd].
  rewrite !render_txt, !render_hole, !render_txt, !render_nil, !str_nil_r. by rewrite !str_assoc.
Qed.
Lemma list_emits column op_sql v :
  emits (list_condition db column op_sql v)
    match v with
    | JArray l => Some (Template.Txt (column ++ " " ++ op_sql ++ " (")%string :: commas (map value_chunk l) ++ [Template.Txt ")"])%list
    | _ => None
    end
    match v with JArray l => flat_map value_values l | _ => [] end.
Proof.
  destruct v; try (by eexists). apply emits_ok.
  - cbn [holes]. rewrite Template.holes_app, commas_holes. cbn. lia.
  - intros params. unfold list_condition. destruct (emit_values_render l params) as (phs & -> & _ & Hc).
    rewrite Hc, render_txt, render_two, render_txt, render_nil, str_nil_r. by rewrite !str_assoc.
Qed.
Lemma scalar_emits column op_sql v :
  emits (scalar_condition db column op_sql v) (Some [Template.Txt (column ++ " " ++ op_sql ++ " ")%string; value_chunk v]) (value_values v).
Proof.
  apply emits_ok; [by destruct v|]. intros params. unfold scalar_condition. rewrite emit_value, render_txt. by rewrite !str_assoc.
Qed.
Lemma case_emits column o v :
  emits (match v with
         | JString s => generate_case_insensitive_where_parameterized db to_uppercase column o s
         | _ => fun _ => refused "Case-insensitive operators require string values"
         end) (arm_template db ACase column o v) (arm_values db to_uppercase ACase o v).
Proof.
  cbn [arm_template arm_values].
  destruct v as [| | |s| |]; try (by destruct db; eexists). unfold generate_case_insensitive_where_parameterized.
  pose proof (like_emits ("UPPER(" ++ column ++ ")")%string "LIKE" o (to_uppercase s)) as Hu.
  pose proof (like_emits column (operator_to_sql db o) o s) as Hi. destruct db; [exact Hi|exact Hu..].
Qed.
Lemma null_emits column : emits (fun params => Ok (params, (column ++ " IS NULL")%string)) (Some [Template.Txt (column ++ " IS NULL")%string]) [].
Proof. apply emits_ok; [done|]. intros params. rewrite render_txt, render_nil, str_nil_r, app_nil_r. done. Qed.
Lemma direct_emits column o v :
  emits (generate_direct_column_where_parameterized db to_uppercase column o v) (arm_template db (direct_arm o) column o v)
    (arm_values db to_uppercase (direct_arm o) o v).
Proof.
  assert (Hl : forall m, is_like o || (match o with Op.Like => true | _ => false end) = true ->
     emits (fun params => match v with JString s => like_condition db column (operator_to_sql db o) o s params | _ => refused m end)
       (like_template column (operator_to_sql db o) o v) (arm_values db to_uppercase ALike o v)).
  { intros m _. destruct v; try (by eexists). apply like_emits. }
  destruct o; try exact (null_emits column); try exact (scalar_emits column "=" v);
    try exact (list_emits _ _ v); try exact (scalar_emits column _ v); try exact (Hl _ eq_refl).
  all: cbn [direct_arm Op.is_case_insensitive]; pose proof (case_emits column) as Hc.
  all: unfold generate_direct_column_where_parameterized; cbn [is_list is_like orb Op.is_case_insensitive];
    match goal with |- emits _ (arm_template _ _ _ ?o _) _ => specialize (Hc o v) end; destruct v; exact Hc.
Qed.
Lemma jsonb_emits jsonb_column f o v :
  emits (generate_jsonb_where_parameterized db to_uppercase jsonb_column f o v)
    (arm_template db (jsonb_arm o) (jsonb_extract_sql db jsonb_column (to_snake_case f)) o v) (arm_values db to_uppercase (jsonb_arm o) o v).
Proof.
  set (column := jsonb_extract_sql db jsonb_column (to_snake_case f)).
  assert (Hl : forall m, is_like o = true ->
     emits (fun params => match v with JString s => like_condition db column (operator_to_sql db o) o s params | _ => refused m end)
       (like_template column (operator_to_sql db o) o v) (arm_values db to_uppercase ALike o v)).
  { intros m _. destruct v; try (by eexists). apply like_emits. }
  destruct o; try exact (null_emits column); try exact (scalar_emits column "=" v);
    try exact (list_emits _ _ v); try exact (scalar_emits column _ v); try exact (Hl _ eq_refl).
  all: cbn [jsonb_arm direct_arm Op.is_case_insensitive]; pose proof (case_emits column) as Hc.
  all: unfold generate_jsonb_where_parameterized; cbn [is_list is_like orb Op.is_case_insensitive];
    match goal with |- emits _ (arm_template _ _ _ ?o _) _ => specialize (Hc o v) end; destruct v; exact Hc.
Qed.
End Emit.

(** ** The cast of a parameter *)
Lemma has_char_replace c d r s : has_char c s = false -> has_char c r = false -> has_char c (replace_char d r s) = false.
Proof.
  intros Hs Hr. induction s as [|x s IH]; [done|]. cbn [has_char replace_char] in *. apply orb_false_iff in Hs as [Hx Hs].
  destruct (Ascii.eqb x d); [by rewrite has_char_app, Hr, IH|]. cbn. by rewrite Hx, IH.
Qed.
Lemma has_char_split c d s : has_char c s = false -> Forall (fun t => has_char c t = false) (split_char d s).
Proof.
  induction s as [|x s IH]; [by repeat constructor|]. cbn [has_char split_char]. intros [Hx Hs]%orb_false_iff. specialize (IH Hs).
  destruct (Ascii.eqb x d); [by constructor|]. destruct (split_char d s) as [|w ws]; [by repeat constructor; cbn; rewrite Hx|].
  apply list.Forall_cons in IH as [Hw Hws]. constructor; [|done]. cbn. by rewrite Hx.
Qed.
Lemma has_char_concat c sep l : has_char c sep = false -> Forall (fun t => has_char c t = false) l -> has_char c (String.concat sep l) = false.
Proof.
  intros Hsep. induction 1 as [|t l Ht _ IH]; [done|]. destruct l as [|u l]; [done|].
  change (String.concat sep (t :: u :: l)) with (t ++ sep ++ String.concat sep (u :: l))%string. by rewrite !has_char_app, Ht, Hsep, IH.
Qed.
Lemma quoted_no_dollar column : has_char "$" column = false -> has_char "$" (Identifier.quote_postgres_identifier column) = false.
Proof.
  intros Hc. unfold Identifier.quote_postgres_identifier. apply has_char_concat; [done|].
  pose proof (has_char_split "$" "." column Hc) as Hf. induction Hf as [|t l Ht _ IH]; [done|]. cbn [map]. constructor; [|exact IH].
  rewrite !has_char_app, (has_char_replace "$" _ _ t Ht); done.
Qed.
Lemma operator_no_dollar o : has_char "$" (operator_to_sql PostgreSQL o) = false.
Proof. by destruct o. Qed.

Definition no_dollar (t : template) : Prop := Forall (fun c => match c with Template.Txt s => has_char "$" s = false | _ => True end) t.
Lemma arm_no_dollar a column o v t :
  has_char "$" column = false -> arm_template PostgreSQL a column o v = Some t -> no_dollar t.
Proof.
  intros Hc. pose proof (operator_no_dollar o) as Ho.
  assert (Hcol : forall tail, has_char "$" tail = false -> has_char "$" (column ++ " " ++ operator_to_sql PostgreSQL o ++ tail) = false).
  { intros tail Ht. by rewrite !has_char_app, Hc, Ho, Ht. }
  assert (Hl : forall t, like_template column (operator_to_sql PostgreSQL o) o v = Some t -> no_dollar t).
  { intros t'. unfold like_template. destruct v; try done. intros [= <-]. repeat constructor; [by apply Hcol|]. by destruct o. }
  destruct a; cbn [arm_template]; try exact (Hl t).
  - intros [= <-]. repeat constructor. by rewrite has_char_app, Hc.
  - destruct v; try done. intros [= <-]. constructor; [by apply Hcol|]. apply list.Forall_app. split; [|by repeat constructor].
    clear Hl. induction l as [|v l IH]; [constructor|]. destruct l as [|w l]; [by destruct v; repeat constructor|].
    cbn [map]. rewrite commas_cons. apply list.Forall_app. split; [by destruct v; repeat constructor|]. constructor; [done|exact IH].
  - intros [= <-]. constructor; [by apply Hcol|]. destruct v; by repeat constructor.
Qed.

Lemma txt_render db n t : Template.holes t = 0%nat -> no_dollar t -> has_char "$" (render db n t) = false.
Proof.
  revert n. induction t as [|[s|] t IH]; intros n Hh Hd; [done| |done]. apply list.Forall_cons in Hd as [Hs Hd].
  rewrite render_txt, has_char_app, Hs. by apply IH.
Qed.
Lemma one_hole t : Template.holes t = 1%nat -> exists a b, t = (a ++ Template.Hole :: b)%list /\ Template.holes a = 0%nat /\ Template.holes b = 0%nat.
Proof.
  induction t as [|[s|] t IH]; cbn; [done| |].
  - intros (a & b & -> & Ha & Hb)%IH. by exists (Template.Txt s :: a), b.
  - intros [= H]. by exists [], t.
Qed.
Lemma strip_prefix_self a b : strip_prefix a (a ++ b) = Some b.
Proof. induction a as [|c a IH]; [done|]. rewrite str_cons. cbn. by rewrite Ascii.eqb_refl. Qed.
Lemma split_self c a b : split_once_str (String c a) (String c a ++ b) = Some (EmptyString, b).
Proof. rewrite str_cons. cbn [split_once_str strip_prefix]. by rewrite Ascii.eqb_refl, strip_prefix_self. Qed.
Lemma not_has c d s : has_char d s = false -> has_char c s = true -> c <> d.
Proof. intros Hd Hc ->. congruence. Qed.
Lemma replace_once c a b sep r :
  has_char c a = false -> has_char c b = false ->
  Chars.replace (String c sep) r (a ++ String c sep ++ b) = (a ++ r ++ b)%string.
Proof.
  intros Ha Hb. unfold Chars.replace. rewrite str_length_app, str_cons. cbn [String.length].
  replace (String.length a + S (String.length (sep ++ b)))%nat with (S (String.length a + String.length (sep ++ b))) by lia.
  cbn [replace_fuel]. rewrite <- str_cons, find_after by (intros x; by apply not_has). rewrite split_self, str_nil_r. do 2 f_equal.
  assert (Hn : split_once_str (String c sep) b = None).
  { rewrite <- (str_nil_r b), find_after by (intros x; by apply not_has). done. }
  destruct (String.length a + String.length (sep ++ b))%nat; cbn [replace_fuel]; by rewrite ?Hn.
Qed.

Lemma placeholder_dollar n : exists sep, placeholder PostgreSQL n = String "$" sep.
Proof. by eexists. Qed.
Lemma cast_holes db pg_cast t : Template.holes (cast_chunk db pg_cast t) = Template.holes t.
Proof.
  unfold cast_chunk. destruct db; try done. destruct (_ && _); [|done].
  induction t as [|[s|] t IH]; [done|exact IH|]. cbn. by rewrite IH.
Qed.
Lemma cast_map_txt pg_cast t : Template.holes t = 0%nat ->
  flat_map (fun c => match c with Template.Hole => [Template.Hole; Template.Txt ("::" ++ pg_cast)%string] | c => [c] end) t = t.
Proof. induction t as [|[s|] t IH]; intros H; [done| |done]. cbn [flat_map app]. by rewrite IH. Qed.
Lemma cast_render db pg_cast params vs t :
  (db = PostgreSQL -> no_dollar t) -> Template.holes t = length vs ->
  with_cast db pg_cast params ((params ++ vs)%list, render db (length params) t) =
    ((params ++ vs)%list, render db (length params) (cast_chunk db pg_cast t)).
Proof.
  intros Hd Hh. unfold with_cast, cast_chunk. destruct db; try done. cbn [fst snd]. specialize (Hd eq_refl).
  rewrite length_app, <- Hh.
  assert (Hb : Nat.eqb (length params + Template.holes t) (S (length params)) = Nat.eqb (Template.holes t) 1).
  { destruct (Nat.eqb_spec (Template.holes t) 1) as [->|Hne]; [apply Nat.eqb_eq; lia|]. apply Nat.eqb_neq. lia. }
  rewrite Hb. destruct (negb _ && Nat.eqb (Template.holes t) 1) eqn:Eb; [|done]. apply andb_true_iff in Eb as [_ Eb%Nat.eqb_eq].
  f_equal. destruct (one_hole t Eb) as (a & b & -> & Ha & Hb0). apply list.Forall_app in Hd as [Da Db]. apply list.Forall_cons in Db as [_ Db].
  rewrite flat_map_app. cbn [flat_map app]. rewrite (cast_map_txt _ a Ha), (cast_map_txt _ b Hb0).
  rewrite !render_two, !render_hole, render_txt, Ha, Nat.add_0_r.
  destruct (placeholder_dollar (length params)) as [sep Hsep]. rewrite Hsep.
  rewrite replace_once by (by apply txt_render). by rewrite !str_assoc.
Qed.

Section Where.
Context (db : DatabaseType) (to_uppercase : string -> string) (m : FactTableMetadata).
Notation where_sql := (where_clause_to_sql_parameterized db to_uppercase m).
Notation emits := (emits db).

Lemma join_holes sep ts : Template.holes (join_templates sep ts) = sum_list_with Template.holes ts.
Proof.
  induction ts as [|t [|u ts] IH]; [done|cbn; lia|].
  change (join_templates sep (t :: u :: ts)) with (t ++ Template.Txt sep :: join_templates sep (u :: ts))%list.
  rewrite Template.holes_app. cbn [Template.holes]. rewrite IH. done.
Qed.
Fixpoint render_all (n : nat) (ts : list template) : list string :=
  match ts with [] => [] | t :: ts => render db n t :: render_all (n + Template.holes t) ts end.
Lemma join_render sep n ts : render db n (join_templates sep ts) = String.concat sep (render_all n ts).
Proof.
  revert n. induction ts as [|t [|u ts] IH]; intros n; [done..|].
  change (join_templates sep (t :: u :: ts)) with (t ++ Template.Txt sep :: join_templates sep (u :: ts))%list.
  rewrite render_two, render_txt, IH. done.
Qed.

Definition safe_names (c : WhereClause) : Prop := Forall (fun n => has_char "$" n = false) (native_column_names c).

(** What the loops over the clauses of a conjunction or disjunction emit. *)
Fixpoint templates (l : list WhereClause) : option (list template) :=
  match l with [] => Some [] | c :: l => t ← where_template db m c; ts ← templates l; Some (t :: ts) end.
Fixpoint conditions (l : list WhereClause) (params : list json) : result (option FraiseQLError) (list json * list string) :=
  match l with [] => Ok (params, []) | c :: l => r ← where_sql c params; rs ← conditions l r.1; Ok (rs.1, r.2 :: rs.2) end.
Lemma conditions_emit l :
  Forall (fun c => emits (where_sql c) (where_template db m c) (where_values db to_uppercase m c)) l ->
  match templates l with
  | Some ts => sum_list_with Template.holes ts = length (flat_map (where_values db to_uppercase m) l) /\
      forall params, conditions l params = Ok ((params ++ flat_map (where_values db to_uppercase m) l)%list, render_all (length params) ts)
  | None => exists e, forall params, conditions l params = Err e
  end.
Proof.
  induction 1 as [|c l Hc _ IH]; [split; [done|]; intros params; cbn; by rewrite app_nil_r|]. cbn [templates conditions flat_map].
  destruct (where_template db m c) as [t|]; cbn [mbind option_bind] in *.
  2:{ destruct Hc as [e He]. exists e. intros params. by rewrite He. }
  destruct Hc as [Hh Hc]. destruct (templates l) as [ts|]; cbn [mbind option_bind].
  - destruct IH as [Hhs IH]. cbn [sum_list_with]. rewrite Hhs, Hh, length_app. split; [done|]. intros params. rewrite Hc.
    cbn [mbind result_bind fst snd]. rewrite IH. cbn [mbind result_bind fst snd render_all]. rewrite length_app, Hh, <- app_assoc. done.
  - destruct IH as [e He]. exists e. intros params. rewrite Hc. cbn [mbind result_bind fst]. by rewrite He.
Qed.
Lemma joined_emit o1 sep l :
  Forall (fun c => emits (where_sql c) (where_template db m c) (where_values db to_uppercase m c)) l ->
  emits (fun params => r ← conditions l params; Ok (r.1, (o1 ++ String.concat sep r.2 ++ ")")%string))
    ((fun ts => Template.Txt o1 :: join_templates sep ts ++ [Template.Txt ")"])%list <$> templates l)
    (flat_map (where_values db to_uppercase m) l).
Proof.
  intros Hl. pose proof (conditions_emit l Hl) as H. destruct (templates l) as [ts|]; cbn [fmap option_fmap option_map].
  - destruct H as [Hh H]. split; [cbn [Template.holes]; rewrite Template.holes_app, join_holes, Hh; cbn; lia|].
    intros params. rewrite H. cbn [mbind result_bind fst snd]. rewrite render_txt, render_two, join_render, render_txt, render_nil, str_nil_r. done.
  - destruct H as [e He]. exists e. intros params. by rewrite He.
Qed.
Lemma where_emits c : safe_names c -> emits (where_sql c) (where_template db m c) (where_values db to_uppercase m c).
Proof.
  induction c as [path o v|l IH|l IH|c IH|column pg_cast o v] using clause_ind'; intros Hs.
  - destruct path as [|f path]; [by eexists|]. cbn [where_clause_to_sql_parameterized where_template where_values].
    destruct (has_filter m f); [apply direct_emits|apply jsonb_emits].
  - apply (joined_emit "(" " AND " l). apply list.Forall_forall. intros c Hc. rewrite list.Forall_forall in IH. apply IH; [done|].
    unfold safe_names in *. rewrite list.Forall_forall in Hs |- *. intros n Hn. apply Hs. cbn. apply list_elem_of_In, in_flat_map.
    exists c. by rewrite <- !list_elem_of_In.
  - apply (joined_emit "(" " OR " l). apply list.Forall_forall. intros c Hc. rewrite list.Forall_forall in IH. apply IH; [done|].
    unfold safe_names in *. rewrite list.Forall_forall in Hs |- *. intros n Hn. apply Hs. cbn. apply list_elem_of_In, in_flat_map.
    exists c. by rewrite <- !list_elem_of_In.
  - specialize (IH Hs). cbn [where_clause_to_sql_parameterized where_template where_values].
    destruct (where_template db m c) as [t|]; cbn [fmap option_fmap option_map].
    + destruct IH as [Hh H]. split; [cbn [Template.holes]; rewrite Template.holes_app; cbn; lia|]. intros params. rewrite H.
      cbn [mbind result_bind fst snd]. rewrite render_txt, render_two, render_txt, render_nil, str_nil_r. done.
    + destruct IH as [e He]. exists e. intros params. by rewrite He.
  - cbn [where_clause_to_sql_parameterized where_template where_values].
    pose proof (direct_emits db to_uppercase (quote_identifier db column) o v) as H.
    destruct (arm_template db (direct_arm o) (quote_identifier db column) o v) as [t|] eqn:Et; cbn [fmap option_fmap option_map].
    + destruct H as [Hh H]. split; [by rewrite cast_holes|]. intros params. rewrite H. cbn [mbind result_bind]. rewrite cast_render; [done| |done].
      intros ->. apply (arm_no_dollar _ _ _ _ _ (quoted_no_dollar column ltac:(by inversion Hs)) Et).
    + destruct H as [e He]. exists e. intros params. by rewrite He.
Qed.
End Where.

(** ** Plans *)
(** A value without what is bound of it. *)
Definition erase_value (v : json) : json :=
  match v with
  | JNull => JNull
  | JString _ => JString ""
  | JArray l => JArray (map (fun x => match x with JNull => JNull | _ => JBool true end) l)
  | _ => JBool true
  end.
Fixpoint erase_clause (c : WhereClause) : WhereClause :=
  match c with
  | Field path o v => Field path o (erase_value v)
  | And l => And (map erase_clause l)
  | Or l => Or (map erase_clause l)
  | Not c => Not (erase_clause c)
  | NativeField column pg_cast o v => NativeField column pg_cast o (erase_value v)
  end.
Definition erase_having (c : ValidatedHavingCondition) : ValidatedHavingCondition :=
  mkValidated c.(validated_aggregate) c.(validated_operator) (erase_value c.(validated_value)).
Definition erase_request (r : AggregationRequest) : AggregationRequest :=
  mkRequest r.(request_table) (erase_clause <$> r.(request_where)) r.(group_by) r.(aggregates) [] r.(order_by) r.(limit) r.(offset).
Definition erase_plan (p : AggregationPlan) : AggregationPlan :=
  mkPlan p.(metadata) (erase_request p.(request)) p.(group_by_expressions) p.(aggregate_expressions)
    (map erase_having p.(having_conditions)).

Section Plans.
Context (db : DatabaseType) (to_uppercase : string -> string).
Definition text_piece (s : string) : list template := match s with EmptyString => [] | _ => [[Template.Txt s]] end.
Definition having_template (c : ValidatedHavingCondition) : template :=
  [Template.Txt (aggregate_expression_to_sql db c.(validated_aggregate) ++ " " ++ sql_operator c.(validated_operator) ++ " ")%string;
   value_chunk c.(validated_value)].
Definition where_piece (p : AggregationPlan) : option (list template) :=
  match p.(request).(request_where) with
  | Some c => if is_empty c then Some [] else (fun t => [Template.Txt "WHERE " :: t]) <$> where_template db p.(metadata) c
  | None => Some []
  end.
Definition having_piece (p : AggregationPlan) : list template :=
  match p.(having_conditions) with
  | [] => []
  | l => [Template.Txt "HAVING " :: join_templates " AND " (map having_template l)]
  end.
Definition plan_template (p : AggregationPlan) : option template :=
  w ← where_piece p;
  Some (join_templates nl
          ([Template.Txt (build_select_clause db p.(group_by_expressions) p.(aggregate_expressions))] ::
           [Template.Txt ("FROM " ++ p.(request).(request_table))%string] ::
           w ++ text_piece (group_sql db p) ++ having_piece p ++ text_piece (order_sql db p))%list ++
        [Template.Txt (bounded "LIMIT" p.(request).(limit) ++ bounded "OFFSET" p.(request).(offset))%string])%list.
Definition plan_values (p : AggregationPlan) : list json :=
  (match p.(request).(request_where) with
   | Some c => if is_empty c then [] else where_values db to_uppercase p.(metadata) c
   | None => []
   end ++ flat_map (fun c => value_values c.(validated_value)) p.(having_conditions))%list.

Lemma erase_chunk v : value_chunk (erase_value v) = value_chunk v.
Proof. by destruct v. Qed.
Lemma erase_arm a column o v : arm_template db a column o (erase_value v) = arm_template db a column o v.
Proof.
  assert (Hl : forall col op, like_template col op o (erase_value v) = like_template col op o v) by (intros; by destruct v).
  destruct a; cbn [arm_template]; rewrite ?Hl, ?erase_chunk; try done.
  - destruct v; try done. cbn [erase_value]. do 3 f_equal. rewrite map_map. f_equal. apply map_ext. by intros [].
Qed.
Lemma erase_where m c : where_template db m (erase_clause c) = where_template db m c.
Proof.
  induction c as [path o v|l IH|l IH|c IH|column pg_cast o v] using clause_ind'; cbn [erase_clause where_template].
  - destruct path; [done|]. by rewrite !erase_arm.
  - f_equal. induction IH as [|c l Hc _ IHl]; [done|]. cbn [map]. rewrite Hc. destruct (where_template db m c); [|done]. cbn [mbind option_bind]. by rewrite IHl.
  - f_equal. induction IH as [|c l Hc _ IHl]; [done|]. cbn [map]. rewrite Hc. destruct (where_template db m c); [|done]. cbn [mbind option_bind]. by rewrite IHl.
  - by rewrite IH.
  - by rewrite erase_arm.
Qed.
Lemma erase_empty c : is_empty (erase_clause c) = is_empty c.
Proof. destruct c as [| [] | [] | |]; done. Qed.
Lemma erase_template p : plan_template (erase_plan p) = plan_template p.
Proof.
  unfold plan_template, where_piece, having_piece. destruct p as [m [tb w gb ag hv ob li off] ge ae hc]. cbn [erase_plan erase_request metadata request
    request_where request_table having_conditions group_by_expressions aggregate_expressions limit offset].
  assert (Hh : map having_template (map erase_having hc) = map having_template hc).
  { rewrite map_map. apply map_ext. intros c. unfold having_template. cbn [erase_having validated_aggregate validated_operator validated_value].
    by rewrite erase_chunk. }
  destruct hc as [|c0 hc]; cbn [map] in *; rewrite ?Hh; (destruct w as [c|]; [|reflexivity]);
    cbn [fmap option_fmap option_map]; rewrite erase_empty, erase_where; reflexivity.
Qed.

Lemma having_emit l params :
  exists parts, having_parts db l params = ((params ++ flat_map (fun c => value_values c.(validated_value)) l)%list, parts) /\
    parts = render_all db (length params) (map having_template l).
Proof.
  revert params. induction l as [|c l IH]; intros params; [eexists; cbn; by rewrite app_nil_r|]. cbn [having_parts]. rewrite emit_value.
  destruct (IH (params ++ value_values c.(validated_value))%list) as (parts & -> & ->). eexists. split; [by cbn [flat_map]; rewrite app_assoc|].
  cbn [map render_all]. unfold having_template at 2. rewrite render_txt, !str_assoc. do 4 f_equal.
  rewrite length_app. do 2 f_equal. unfold having_template. by destruct c.(validated_value).
Qed.
Lemma having_holes l : Template.holes (join_templates " AND " (map having_template l)) = length (flat_map (fun c => value_values c.(validated_value)) l).
Proof.
  rewrite join_holes. induction l as [|c l IH]; [done|]. cbn [map sum_list_with flat_map]. rewrite length_app, <- IH. f_equal.
  unfold having_template. by destruct c.(validated_value).
Qed.

Definition nonempty (s : string) : bool := negb (s =s "").
Lemma render_all_app n ts us :
  render_all db n (ts ++ us) = (render_all db n ts ++ render_all db (n + sum_list_with Template.holes ts) us)%list.
Proof.
  revert n. induction ts as [|t ts IH]; intros n; [by rewrite Nat.add_0_r|]. cbn [app render_all sum_list_with]. rewrite IH.
  cbn. do 3 f_equal. lia.
Qed.
Lemma text_holes s : sum_list_with Template.holes (text_piece s) = 0%nat.
Proof. by destruct s. Qed.
Lemma filter_piece n s : List.filter nonempty [s] = render_all db n (text_piece s).
Proof. destruct s; [done|]. cbn. by rewrite str_nil_r. Qed.
Definition safe_plan (p : AggregationPlan) : Prop :=
  match p.(request).(request_where) with Some c => safe_names c | None => True end.

Lemma where_piece_emits p :
  safe_plan p ->
  let vs := match p.(request).(request_where) with
            | Some c => if is_empty c then [] else where_values db to_uppercase p.(metadata) c
            | None => []
            end in
  match where_piece p with
  | Some ts => exists s, where_sql db to_uppercase p = Ok (vs, s) /\ List.filter nonempty [s] = render_all db 0 ts /\ sum_list_with Template.holes ts = length vs
  | None => exists e, where_sql db to_uppercase p = Err e
  end.
Proof.
  unfold safe_plan, where_piece, where_sql, build_where_clause_parameterized. destruct p.(request).(request_where) as [c|]; [|by exists ""%string].
  intros Hs. destruct (is_empty c); [by exists ""%string|].
  pose proof (where_emits db to_uppercase p.(metadata) c Hs) as H. destruct (where_template db p.(metadata) c) as [t|]; cbn [fmap option_fmap option_map].
  - destruct H as [Hh H]. exists ("WHERE " ++ render db 0 t)%string. rewrite (H []). split; [done|]. split; [|cbn; lia].
    cbn [render_all]. rewrite render_txt. done.
  - destruct H as [e He]. exists e. by rewrite He.
Qed.
Lemma having_piece_emits p params :
  let h := build_having_clause_parameterized db p.(having_conditions) params in
  h.1 = (params ++ flat_map (fun c => value_values c.(validated_value)) p.(having_conditions))%list /\
  List.filter nonempty [h.2] = render_all db (length params) (having_piece p) /\
  sum_list_with Template.holes (having_piece p) = length (flat_map (fun c => value_values c.(validated_value)) p.(having_conditions)).
Proof.
  unfold build_having_clause_parameterized, having_piece. destruct p.(having_conditions) as [|c l] eqn:E; [cbn; by rewrite app_nil_r|].
  destruct (having_emit (c :: l) params) as (parts & -> & ->). cbv zeta. cbn [fst snd]. split; [done|]. split.
  - cbn [render_all]. rewrite render_txt, join_render. done.
  - cbn [sum_list_with Template.holes]. rewrite having_holes. lia.
Qed.

(** C18. The SQL of an aggregate query is a template whose holes are the bound
    values, in their order, and which is that of the query without them. *)
Theorem aggregate_values_bound p :
  safe_plan p ->
  match plan_template (erase_plan p) with
  | Some t =>
      Template.holes t = length (plan_values p) /\
      generate_parameterized db to_uppercase p = Ok (plan_values p, render db 0 t)
  | None => exists e, generate_parameterized db to_uppercase p = Err e
  end.
Proof.
  intros Hs. rewrite erase_template. unfold plan_template, generate_parameterized, plan_values. fold nonempty.
  pose proof (where_piece_emits p Hs) as Hw. cbv zeta in Hw.
  set (vs := match p.(request).(request_where) with Some c => if is_empty c then [] else _ | None => [] end) in *.
  destruct (where_piece p) as [ts|]; cbn [mbind option_bind].
  2:{ destruct Hw as [e He]. exists e. by rewrite He. }
  destruct Hw as (s & Hw & Hf & Hh). rewrite Hw. cbn [mbind result_bind fst snd].
  destruct (having_piece_emits p vs) as (H1 & H2 & H3). cbv zeta in H1, H2. rewrite H1. split.
  - rewrite Template.holes_app, join_holes. cbn [sum_list_with Template.holes Nat.add].
    rewrite !sum_list_with_app, !text_holes, Hh, H3, length_app. cbn. lia.
  - f_equal. f_equal. rewrite render_two, join_render, render_txt, render_nil, str_nil_r. f_equal. f_equal.
    cbn [render_all Template.holes Nat.add]. rewrite !render_all_app, !text_holes, !Nat.add_0_r, Hh.
    rewrite !Nat.add_0_l.
    change (List.filter nonempty ?l) with (List.filter nonempty (take 2 l ++ take 1 (drop 2 l) ++ take 1 (drop 3 l) ++ take 1 (drop 4 l) ++ drop 5 l)).
    cbn [take drop]. rewrite !List.filter_app, Hf, H2, (filter_piece (length vs) (group_sql db p)),
      (filter_piece (length vs + sum_list_with Template.holes (having_piece p)) (order_sql db p)).
    rewrite !render_txt, !render_nil, !str_nil_r. done.
Qed.
End Plans.

(** ** Filters *)
Lemma rsplit_spec s a b : AggregateQueryParser.rsplit_underscore s = Some (a, b) <-> s = (a ++ "_" ++ b)%string /\ has_char "_" b = false.
Proof.
  assert (Hnone : forall s, AggregateQueryParser.rsplit_underscore s = None <-> has_char "_" s = false).
  { clear. induction s as [|c s IH]; [done|]. cbn. destruct (AggregateQueryParser.rsplit_underscore s) as [[x y]|].
    - split; [done|]. intros [_ H]%orb_false_iff. by apply IH in H.
    - rewrite (proj1 IH eq_refl), orb_false_r. by destruct (Ascii.eqb c "_"). }
  revert a b. induction s as [|c s IH]; intros a b.
  - split; [done|]. intros [H _]. by destruct a.
  - cbn [AggregateQueryParser.rsplit_underscore]. destruct (AggregateQueryParser.rsplit_underscore s) as [[x y]|] eqn:E.
    + destruct (proj1 (IH x y) eq_refl) as [-> Hy]. split.
      * intros [= <- <-]. by rewrite str_cons.
      * intros [H Hb]. destruct a as [|d a].
        -- change (String c (x ++ "_" ++ y) = String "_" b)%string in H. injection H as _ H. subst b. rewrite has_char_app in Hb.
           cbn in Hb. by rewrite orb_true_r in Hb.
        -- rewrite str_cons in H. injection H as -> H. pose proof (proj2 (IH a b) (conj H Hb)) as E2. by injection E2 as -> ->.
    + apply Hnone in E. destruct (Ascii.eqb_spec c "_") as [->|Hc].
      * split; [intros [= <- <-]; by rewrite str_nil|]. intros [H Hb]. destruct a as [|d a].
        -- change (String "_" s = String "_" b)%string in H. by injection H as ->.
        -- rewrite str_cons in H. injection H as _ ->. rewrite has_char_app in E. cbn in E. by rewrite orb_true_r in E.
      * split; [done|]. intros [H Hb]. destruct a as [|d a]; [change (String c s = String "_" b)%string in H; injection H as -> _; done|].
        rewrite str_cons in H. injection H as _ ->. rewrite has_char_app in E. cbn in E. by rewrite orb_true_r in E.
Qed.
Definition native_or_json (native : gmap string string) (field : string) (o : Op.WhereOperator) (v : json) : WhereClause :=
  match native !! field with Some pg_cast => NativeField field pg_cast o v | None => Field [field] o v end.

(** The filter of an aggregate query is the conjunction of those of its
    entries whose key ends in an underscore and the name of an operator
    without underscores; every other entry is dropped. *)
Theorem aggregate_filter_exact native obj :
  exists l, AggregateQueryParser.parse_where_clause native (JObject obj) = And l /\
  forall c, c ∈ l <-> exists field op_name o v,
    ((field ++ "_" ++ op_name)%string, v) ∈ obj /\ has_char "_" op_name = false /\
    OpParse.from_str op_name = Ok o /\ c = native_or_json native field o v.
Proof.
  eexists. split; [reflexivity|]. intros c. rewrite list_elem_of_omap. split.
  - intros ([k v] & Hin & H). unfold AggregateQueryParser.where_condition, AggregateQueryParser.parse_where_field_and_operator in H. cbn [fst snd] in H.
    destruct (AggregateQueryParser.rsplit_underscore k) as [[field op_name]|] eqn:E; [|done].
    destruct (OpParse.from_str op_name) as [o|] eqn:Eo; [|done]. injection H as <-. apply rsplit_spec in E as [-> Hu].
    by exists field, op_name, o, v.
  - intros (field & op_name & o & v & Hin & Hu & Ho & ->). eexists. split; [exact Hin|].
    unfold AggregateQueryParser.where_condition, AggregateQueryParser.parse_where_field_and_operator. cbn [fst snd].
    rewrite (proj2 (rsplit_spec _ _ _) (conj eq_refl Hu)), Ho. done.
Qed.

(** ** Tables *)
Section Tables.
Import AggregateExecutor.
Context {D : Type} `{AggregateDatabase D} (db : D) (to_uppercase : string -> string) (debug_list : list string -> string).
Context (fact_tables : gmap string FactTableMetadata) (names : list string) (sort : list (nat * string) -> list (nat * string)).

Definition count_of (table : string) : json :=
  JObject [("aggregates", JArray [JObject [("count", JObject [])]]); ("table", JString table)]%string.
(** The table that is read is a text of the request: whatever it is, it is
    what follows FROM in the SQL of a count, for every fact table the name of
    the query stands for. *)
Theorem aggregate_table_verbatim name m table :
  fact_tables !! ("tf_" ++ name)%string = Some m ->
  execute_aggregate_dispatch db to_uppercase debug_list fact_tables names sort (name ++ "_aggregate")%string (Some (count_of table)) =
    match execute_parameterized_aggregate db ("SELECT" ++ nl ++ "  COUNT(*) AS count" ++ nl ++ "FROM " ++ table)%string [] with
    | Ok rows => Ok (wrap_in_data_envelope (project rows) (name ++ "_aggregate"))
    | Err e => Err (Some e)
    end.
Proof.
  intros Hm. unfold execute_aggregate_dispatch, fact_table_of.
  rewrite strip_suffix_of. cbn [ok_or mbind result_bind]. rewrite Hm. cbn [ok_or or_panic mbind result_bind default].
  unfold execute_aggregate_query, count_of. cbn. rewrite !str_nil_r.
  by destruct (execute_parameterized_aggregate db _ []).
Qed.
End Tables.

(** ** On concrete tables *)
Module AggregationDemo.
Import AggregateExecutor AggregateQueryParser.
Definition sales : FactTableMetadata :=
  mkFact "tf_sales" [mkMeasure "revenue" SDecimal false; mkMeasure "quantity" SInt false]
    (mkDimension "data" [mkPath "category" "data->>'category'" "text"; mkPath "active" "data->>'active'" "boolean"])
    [mkFilter "customer_id" SUuid true; mkFilter "occurred_at" STimestamp true]
    [mkCalendar "occurred_at" [mkGranularity "date_info" [mkBucket "month" Month "integer"; mkBucket "day" Day "date"]]].
(** A database that answers every query with its SQL and its parameters. *)
Definition no_change (s : string) : string := s.
#[local] Instance echo : AggregateDatabase DatabaseType := {|
  aggregate_database_type := fun d => d;
  execute_parameterized_aggregate := fun _ sql params => Ok [[("sql", JString sql); ("params", JArray params)]]%string
|}.
Definition tables : gmap string FactTableMetadata := {[ "tf_sales" := sales ]}%string.
Definition native : gmap string string := filter_columns_to_native_map sales.(denormalized_filters).
Definition shown (l : list string) : string := String.concat ", " l.
Definition run (d : DatabaseType) (query : list (string * json)) : result (option FraiseQLError) json :=
  execute_aggregate_dispatch d no_change shown tables ["tf_sales"%string] (fun l => l) "sales_aggregate" (Some (JObject query)).
Definition sql_of (r : result (option FraiseQLError) json) : option string :=
  match r with
  | Ok (JObject [("data"%string, JObject [(_, JArray [row])])]) => json_get row "sql" ≫= as_str
  | _ => None
  end.
Definition sum_revenue : string * json := ("aggregates", JArray [JObject [("revenue_sum", JObject [])]])%string.

Definition by_customer : AggregationPlan :=
  mkPlan sales
    (mkRequest "tf_sales" (Some (And [NativeField "customer_id" "uuid" Op.Eq (JString "c1"); Field ["category"] Op.In (JArray [JString "a"; JNull])]))
       [] [SelCount "count"] [] [] None None) [] [ECount "count"] [mkValidated (ECount "count") HGt (JNumber (PosInt 3))].
Lemma aggregate_values_bound_witness :
  exists t, plan_template PostgreSQL (erase_plan by_customer) = Some t /\ Template.holes t = 3%nat /\
    generate_parameterized PostgreSQL no_change by_customer =
      Ok ([JString "c1"; JString "a"; JNumber (PosInt 3)], render PostgreSQL 0 t).
Proof.
  pose proof (aggregate_values_bound PostgreSQL no_change by_customer) as H.
  assert (Hs : safe_plan by_customer) by (cbv; repeat constructor). specialize (H Hs).
  destruct (plan_template PostgreSQL (erase_plan by_customer)) as [t|] eqn:E; [|vm_compute in E; discriminate].
  exists t. destruct H as [H1 H2]. split; [reflexivity|]. split; [exact H1|exact H2].
Defined.

(** The table of the request is read, whatever the query is named after. *)
Lemma aggregate_table_verbatim_witness :
  sql_of (run PostgreSQL [("aggregates", JArray [JObject [("count", JObject [])]]); ("table", JString "tb_user; DELETE FROM tf_sales")]%string) =
    Some ("SELECT" ++ nl ++ "  COUNT(*) AS count" ++ nl ++ "FROM tb_user; DELETE FROM tf_sales")%string.
Proof.
  change (run PostgreSQL _) with
    (execute_aggregate_dispatch PostgreSQL no_change shown tables ["tf_sales"%string] (fun l => l) ("sales" ++ "_aggregate")
       (Some (count_of "tb_user; DELETE FROM tf_sales"))).
  rewrite (aggregate_table_verbatim PostgreSQL no_change shown tables ["tf_sales"%string] (fun l => l) "sales" sales); reflexivity.
Defined.

(** A native column of the table is compared as it is, a dimension through
    the document; the values are bound. *)
Example filters_bound :
  run PostgreSQL [("table", JString "tf_sales"); ("where", JObject [("customer_id_eq", JString "c1"); ("category_in", JArray [JString "a"; JString "b"])]);
    ("groupBy", JObject [("category", JBool true); ("occurred_at_day", JBool true)]); sum_revenue;
    ("having", JObject [("revenue_sum_gte", JNumber (PosInt 10))]); ("limit", JNumber (PosInt 5))]%string =
  Ok (wrap_in_data_envelope (JArray [JObject [("params", JArray [JString "c1"; JString "a"; JString "b"; JNumber (PosInt 10)]);
    ("sql", JString (String.concat nl
    ["SELECT"; "  data->>'category'  AS category,"; "  date_info->>'day'  AS occurred_at_day,"; "  SUM(revenue) AS revenue_sum";
     "FROM tf_sales"; ("WHERE (" ++ Identifier.quote_postgres_identifier "customer_id" ++ " = $1::uuid AND data->>'category'  IN ($2, $3))")%string;
     "GROUP BY data->>'category' , date_info->>'day' "; "HAVING SUM(revenue) >= $4"; "LIMIT 5"]))]]) "sales_aggregate")%string.
Proof. vm_compute. reflexivity. Qed.
(** Operators whose name has an underscore, and conditions written as nested
    objects, are dropped. *)
Example filters_dropped :
  sql_of (run PostgreSQL [("table", JString "tf_sales"); ("where", JObject [("category_is_null", JBool true); ("category_starts_with", JString "a");
    ("customer_id", JObject [("_eq", JString "c1")])]); ("aggregates", JArray [JObject [("count", JObject [])]])]%string) =
  Some ("SELECT" ++ nl ++ "  COUNT(*) AS count" ++ nl ++ "FROM tf_sales")%string.
Proof. vm_compute. reflexivity. Qed.
(** An operator HAVING does not know is no condition. *)
Example having_dropped :
  sql_of (run PostgreSQL [("table", JString "tf_sales"); sum_revenue; ("having", JObject [("revenue_sum_between", JNumber (PosInt 10))])]%string) =
  Some ("SELECT" ++ nl ++ "  SUM(revenue) AS revenue_sum" ++ nl ++ "FROM tf_sales")%string.
Proof. vm_compute. reflexivity. Qed.
(** [count_distinct] counts the first dimension, which the planner refuses. *)
Example count_distinct_refused :
  run PostgreSQL [("table", JString "tf_sales"); ("aggregates", JArray [JObject [("count_distinct", JObject [])]])]%string =
  Err (Some (validation "Measure 'category' not found in fact table 'tf_sales'")).
Proof. vm_compute. reflexivity. Qed.
(** [isnull: false] asks for the rows without a value. *)
Example not_null_is_null :
  sql_of (run PostgreSQL [("table", JString "tf_sales"); ("where", JObject [("category_isnull", JBool false)]); sum_revenue]%string) =
  Some ("SELECT" ++ nl ++ "  SUM(revenue) AS revenue_sum" ++ nl ++ "FROM tf_sales" ++ nl ++ "WHERE (data->>'category'  IS NULL)")%string.
Proof. vm_compute. reflexivity. Qed.
(** An operator without SQL of its own is equality. *)
Example not_like_is_equality :
  sql_of (run PostgreSQL [("table", JString "tf_sales"); ("where", JObject [("category_nlike", JString "a%")]); sum_revenue]%string) =
  Some ("SELECT" ++ nl ++ "  SUM(revenue) AS revenue_sum" ++ nl ++ "FROM tf_sales" ++ nl ++ "WHERE (data->>'category'  = $1)")%string.
Proof. vm_compute. reflexivity. Qed.
(** A quarter of SQLite is its year. *)
Example quarter_is_year : temporal_bucket_sql SQLite "occurred_at" Quarter = "strftime('%Y-Q', occurred_at)"%string.
Proof. reflexivity. Qed.
(** A boolean aggregate of a dimension reads a column of that name. *)
Example bool_reads_a_column :
  sql_of (run PostgreSQL [("table", JString "tf_sales"); ("aggregates", JArray [JObject [("active_bool_and", JObject [])]])]%string) =
  Some ("SELECT" ++ nl ++ "  BOOL_AND(active) AS active_bool_and" ++ nl ++ "FROM tf_sales")%string.
Proof. vm_compute. reflexivity. Qed.
End AggregationDemo.
