(* ===== verification/AggregateTypes.v ===== *)
(** * The GraphQL types of aggregate queries

    [fraiseql-core/src/compiler/aggregate_types.rs]: the result type, the
    GROUP BY input and the HAVING input of a fact table; and that what they
    offer is what the parser and the planner of [Aggregation] accept.
    [char::to_uppercase] is an argument. *)

From Stdlib Require Import Ascii.
From S2P Require Import Prelude Json WhereClause Chars WhereGenerator Aggregation AggregationFacts.
Import Fact Agg Request Plan AggregateQueryParser.
#[local] Open Scope list_scope.

Module AggregateTypeGenerator.
Inductive AggregateFieldKind : Type :=
| KCount
| KMeasureAggregate (measure : string) (function : AggregateFunction)
| KDimension (path : string)
| KTemporalBucket (column : string) (bucket : TemporalBucket).
Record AggregateField : Type := mkAggregateField { name : string; field_type : string; field_nullable : bool; kind : AggregateFieldKind }.
Inductive GroupByFieldKind : Type :=
| GDimension (path : string)
| GTemporalBucket (column : string) (bucket : TemporalBucket).
Record GroupByField : Type := mkGroupByField { group_name : string; group_kind : GroupByFieldKind }.
Record HavingField : Type := mkHavingField {
  having_name : string;
  having_measure : string;
  having_function : AggregateFunction;
  having_field_operator : HavingOperator;
  value_type : string
}.
Record NamedFields (F : Type) : Type := mkType { type_name : string; fields : list F }.
Arguments mkType {F}. Arguments type_name {F}. Arguments fields {F}.
Definition AggregateType : Type := NamedFields AggregateField.
Definition GroupByInput : Type := NamedFields GroupByField.
Definition HavingInput : Type := NamedFields HavingField.

Section Generate.
Context (to_uppercase_char : string -> string).
Definition pascal_word (word : string) : string :=
  match chars word with [] => EmptyString | first :: rest => concat_str (to_uppercase_char first :: rest) end.
Definition to_pascal_case (s : string) : string := concat_str (map pascal_word (split "_" s)).
Definition extract_type_name (table_name : string) : result FraiseQLError string :=
  match strip_prefix "tf_" table_name with
  | Some n => Ok (to_pascal_case n)
  | None => Err (validation ("Table '" ++ table_name ++ "' is not a fact table")%string)
  end.
Definition sql_type_to_graphql (t : SqlType) : string :=
  match t with
  | SInt | SBigInt => "Int" | SDecimal | SFloat => "Float" | SBoolean => "Boolean" | SJsonb | SJson => "JSON"
  | SUuid => "ID" | SText | STimestamp | SDate | SOther _ => "String"
  end.
Definition one_of (l : list string) (s : string) : bool := existsb (String.eqb s) l.
Definition dimension_type_to_graphql (data_type : string) : string :=
  let s := to_lowercase data_type in
  if one_of ["integer"; "int"; "number"] s then "Int"
  else if one_of ["float"; "decimal"; "double"] s then "Float"
  else if one_of ["boolean"; "bool"] s then "Boolean" else "String".
Definition calendar_bucket_to_graphql (data_type : string) : string :=
  if one_of ["integer"; "int"] (to_lowercase data_type) then "Int" else "String".

Definition is_count (f : AggregateFunction) : bool := match f with Count | CountDistinct => true | _ => false end.
Definition measure_basics : list AggregateFunction := List.filter (fun f => negb (is_count f)) basic_functions.
Definition function_type (t : string) (f : AggregateFunction) : string := if bool_decide (f = Avg) then "Float" else t.
Definition statistical (include_statistical : bool) : list AggregateFunction := if include_statistical then statistical_functions else [].
Definition measure_fields (include_statistical : bool) (x : MeasureColumn) : list AggregateField :=
  let t := sql_type_to_graphql x.(measure_type) in
  map (fun f => mkAggregateField (function_key x.(measure_name) f) (function_type t f) true (KMeasureAggregate x.(measure_name) f))
    measure_basics ++
  map (fun f => mkAggregateField (function_key x.(measure_name) f) "Float" true (KMeasureAggregate x.(measure_name) f))
    (statistical include_statistical).
(** The buckets of the calendars, with the column each reads. *)
Definition calendar_entries (m : FactTableMetadata) : list (string * string * CalendarBucket) :=
  flat_map (fun d => flat_map (fun g => map (fun b => (bucket_key d.(source_column) b.(bucket_type), g.(granularity_column), b))
    g.(buckets)) d.(granularities)) m.(calendar_dimensions).
Definition filter_buckets : list TemporalBucket := [Day; Week; Month; Year].
Definition is_time (t : SqlType) : bool := match t with STimestamp | SDate => true | _ => false end.
Definition filter_entries (m : FactTableMetadata) : list (string * string * TemporalBucket) :=
  match m.(calendar_dimensions) with
  | [] =>
      flat_map (fun f => if is_time f.(filter_type) then map (fun b => (bucket_key f.(filter_name) b, f.(filter_name), b)) filter_buckets
                         else []) m.(denormalized_filters)
  | _ => []
  end.
(** A field whose name is taken is left out. *)
Definition push_new {F} (name_of : F -> string) (fields : list F) (f : F) : list F :=
  if existsb (fun g => name_of g =s name_of f) fields then fields else fields ++ [f].

Definition generate_aggregate_type (m : FactTableMetadata) (type_name : string) (include_statistical : bool) : AggregateType :=
  let fields := mkAggregateField "count" "Int" false KCount :: flat_map (measure_fields include_statistical) m.(measures) ++
    map (fun d => mkAggregateField d.(path_name) (dimension_type_to_graphql d.(data_type)) true (KDimension d.(json_path))) m.(dimensions).(paths) in
  let fields := foldl (push_new name) fields
    (map (fun '(key, column, b) => mkAggregateField key (calendar_bucket_to_graphql b.(bucket_data_type)) true
            (KTemporalBucket column b.(bucket_type))) (calendar_entries m)) in
  mkType (type_name ++ "Aggregate")%string
    (fields ++ map (fun '(key, column, b) => mkAggregateField key "String" true (KTemporalBucket column b)) (filter_entries m)).
Definition generate_group_by_input (m : FactTableMetadata) (type_name : string) : GroupByInput :=
  let fields := map (fun d => mkGroupByField d.(path_name) (GDimension d.(json_path))) m.(dimensions).(paths) in
  let fields := foldl (push_new group_name) fields
    (map (fun '(key, column, b) => mkGroupByField key (GTemporalBucket column b.(bucket_type))) (calendar_entries m)) in
  mkType (type_name ++ "GroupBy")%string
    (fields ++ map (fun '(key, column, b) => mkGroupByField key (GTemporalBucket column b)) (filter_entries m)).
Definition having_fields (measure key : string) (f : AggregateFunction) (t : string) : list HavingField :=
  map (fun o => mkHavingField (key ++ "_" ++ having_suffix o)%string measure f o t) all_having.
Definition measure_having (include_statistical : bool) (x : MeasureColumn) : list HavingField :=
  let t := sql_type_to_graphql x.(measure_type) in
  flat_map (fun f => having_fields x.(measure_name) (function_key x.(measure_name) f) f (function_type t f)) measure_basics ++
  flat_map (fun f => having_fields x.(measure_name) (function_key x.(measure_name) f) f "Float") (statistical include_statistical).
Definition generate_having_input (m : FactTableMetadata) (type_name : string) (include_statistical : bool) : HavingInput :=
  mkType (type_name ++ "Having")%string
    (having_fields "" "count" Count "Int" ++ flat_map (measure_having include_statistical) m.(measures)).
Definition generate (m : FactTableMetadata) (include_statistical : bool) : result FraiseQLError (AggregateType * GroupByInput * HavingInput) :=
  type_name ← extract_type_name m.(table_name);
  Ok (generate_aggregate_type m type_name include_statistical, generate_group_by_input m type_name,
      generate_having_input m type_name include_statistical).
End Generate.
End AggregateTypeGenerator.

(** ** What the types offer is accepted *)
Section Offered.
Import AggregateTypeGenerator.
Lemma first_some_Some {A B} (f : A -> option B) l y : first_some f l = Some y -> exists x, x ∈ l /\ f x = Some y.
Proof.
  induction l as [|x l IH]; [done|]. cbn. destruct (f x) as [z|] eqn:E.
  - intros [= ->]. exists x. split; [left|done].
  - intros H. apply IH in H as (x' & ? & ?). exists x'. split; [by right|done].
Qed.
Lemma first_some_None {A B} (f : A -> option B) l : (forall x, x ∈ l -> f x = None) -> first_some f l = None.
Proof. induction l as [|x l IH]; [done|]. intros H. cbn. rewrite H by left. apply IH. intros. apply H. by right. Qed.
Lemma first_some_is {A B} (f : A -> option B) l r x :
  (forall y, y ∈ l -> f y = None \/ f y = Some r) -> x ∈ l -> f x = Some r -> first_some f l = Some r.
Proof.
  intros H Hx Hf. destruct (first_some f l) as [r'|] eqn:E.
  - apply first_some_Some in E as (y & Hy & E). destruct (H y Hy); congruence.
  - exfalso. revert Hx E. clear H. induction l as [|y l IH]; [by intros ?%elem_of_nil|]. cbn. intros [->|Hx]%list.elem_of_cons; [by rewrite Hf|].
    destruct (f y); [done|]. auto.
Qed.
Lemma last_segment a b c d :
  (a ++ "_" ++ b)%string = (c ++ "_" ++ d)%string -> has_char "_" b = false -> has_char "_" d = false -> a = c /\ b = d.
Proof.
  intros H Hb Hd. pose proof (proj2 (rsplit_spec _ a b) (conj eq_refl Hb)) as E. rewrite H, (proj2 (rsplit_spec _ c d) (conj eq_refl Hd)) in E.
  by injection E as -> ->.
Qed.
Lemma strip_segment a b d : has_char "_" b = false -> has_char "_" d = false ->
  strip_suffix ("_" ++ d) (a ++ "_" ++ b) = if b =s d then Some a else None.
Proof.
  intros Hb Hd. case_bool; to_prop; subst; [by apply strip_suffix_of|]. destruct (strip_suffix _ _) as [t|] eqn:E; [|done].
  apply strip_suffix_app in E. by apply last_segment in E as [_ ->].
Qed.
Lemma parse_having_name n o : parse_having_key (n ++ "_" ++ having_suffix o)%string = Some (n, o).
Proof.
  assert (H : forall o o', strip_suffix ("_" ++ having_suffix o') (n ++ "_" ++ having_suffix o) = if having_suffix o =s having_suffix o' then Some n else None)
    by (intros o1 o2; apply strip_segment; [destruct o1|destruct o2]; done).
  unfold parse_having_key, having_suffixes. cbn [first_some]. rewrite !H. by destruct o.
Qed.

(** *** Aggregates *)
Definition offered : list AggregateFunction := measure_basics ++ statistical_functions.
Lemma offered_cases f : f ∈ offered -> f = Sum \/ f = Avg \/ f = Min \/ f = Max \/ f = Stddev \/ f = Variance.
Proof. unfold offered. rewrite list_elem_of_In. cbn. intuition congruence. Qed.
(** The last word of a function's key, and what precedes it. *)
Definition last_word (f : AggregateFunction) : string * string :=
  match f with
  | ArrayAgg => ("_array", "agg") | JsonAgg => ("_json", "agg") | JsonbAgg => ("_jsonb", "agg") | StringAgg => ("_string", "agg")
  | CountDistinct => ("_count", "distinct")
  | _ => (EmptyString, field_name f)
  end%string.
Lemma key_segments n f : rsplit_underscore (function_key n f) = Some ((n ++ (last_word f).1)%string, (last_word f).2).
Proof. apply rsplit_spec. unfold function_key. rewrite str_assoc. split; [|by destruct f]. f_equal. by destruct f. Qed.
Lemma key_inj x f n g : f ∈ offered -> g ∈ measure_functions -> function_key x f = function_key n g -> x = n /\ f = g.
Proof.
  intros Hf Hg H. apply (f_equal rsplit_underscore) in H. rewrite !key_segments in H. injection H as H1 H2.
  apply list_elem_of_In in Hg.
  destruct (offered_cases f Hf) as [->|[->|[->|[->|[->| ->]]]]]; cbn in H1, H2; rewrite str_nil_r in H1;
    repeat (destruct Hg as [<-|Hg]; [cbn in H1, H2; rewrite ?str_nil_r in H1; by simplify_eq|]); done.
Qed.
Lemma key_segment_ne x f a b : f ∈ offered -> has_char "_" b = false -> field_name f <> b -> function_key x f <> (a ++ "_" ++ b)%string.
Proof. intros Hf Hb Hne H. unfold function_key in H. apply last_segment in H as [_ H]; [done| |done]. by destruct (offered_cases f Hf) as [->|[->|[->|[->|[->| ->]]]]]. Qed.
Context (m : FactTableMetadata) (native_columns : gmap string string) (debug_list : list string -> string).
Lemma parse_measure_key x f : x ∈ map measure_name m.(measures) -> f ∈ offered ->
  parse_aggregate_selection m debug_list (function_key x f) = Ok (SelMeasure x f (function_key x f)).
Proof.
  intros Hx Hf. unfold parse_aggregate_selection.
  assert (Hc : (function_key x f =s "count") = false).
  { apply String.eqb_neq. intros H. apply (f_equal rsplit_underscore) in H. by rewrite key_segments in H. }
  assert (Hd : (function_key x f =s "count_distinct") = false).
  { apply String.eqb_neq. apply (key_segment_ne x f "count" "distinct" Hf); [done|].
    by destruct (offered_cases f Hf) as [->|[->|[->|[->|[->| ->]]]]]. }
  assert (Hs : strip_suffix "_count_distinct" (function_key x f) = None).
  { destruct (strip_suffix _ _) as [t|] eqn:E; [|done]. apply strip_suffix_app in E.
    change "_count_distinct"%string with ("_count" ++ "_" ++ "distinct")%string in E. rewrite <- str_assoc in E.
    apply key_segment_ne in E; [done..|]. by destruct (offered_cases f Hf) as [->|[->|[->|[->|[->| ->]]]]]. }
  assert (Hb : parse_bool_aggregate m (function_key x f) = None).
  { apply first_some_None. intros p _.
    assert (Hn : forall w, (w = "and" \/ w = "or")%string -> (function_key x f =s (p ++ "_bool_" ++ w)%string) = false).
    { intros w Hw. apply String.eqb_neq. change ("_bool_" ++ w)%string with ("_bool" ++ "_" ++ w)%string. rewrite <- str_assoc.
      apply key_segment_ne; [done|by destruct Hw as [->| ->]|].
      by destruct Hw as [->| ->]; destruct (offered_cases f Hf) as [->|[->|[->|[->|[->| ->]]]]]. }
    pose proof (Hn "and"%string (or_introl eq_refl)) as H1. pose proof (Hn "or"%string (or_intror eq_refl)) as H2.
    change ("_bool_" ++ "and")%string with "_bool_and"%string in H1. change ("_bool_" ++ "or")%string with "_bool_or"%string in H2.
    by rewrite H1, H2. }
  rewrite Hc, Hd, Hs, Hb.
  assert (Hone : forall n g, g ∈ measure_functions ->
    (if function_key x f =s function_key n g then Some (SelMeasure n g (function_key x f)) else None) = None \/
    (if function_key x f =s function_key n g then Some (SelMeasure n g (function_key x f)) else None) = Some (SelMeasure x f (function_key x f))).
  { intros n g Hg. case_bool; to_prop; [|by left]. right. match goal with H : _ = _ |- _ => by destruct (key_inj _ _ _ _ Hf Hg H) as [-> ->] end. }
  assert (Hin : f ∈ measure_functions).
  { by destruct (offered_cases f Hf) as [->|[->|[->|[->|[->| ->]]]]]; apply (bool_decide_unpack _). }
  assert (Hx' : parse_function measure_functions (function_key x f) x = Some (SelMeasure x f (function_key x f))).
  { apply (first_some_is _ _ _ f); [by intros; apply Hone|done|]. cbn. by rewrite streqb_refl. }
  erewrite (first_some_is _ _ (SelMeasure x f (function_key x f)) x); [done| |done|exact Hx'].
  intros n _. destruct (parse_function measure_functions (function_key x f) n) as [r|] eqn:E; [|by left]. right.
  apply first_some_Some in E as (g & Hg & E). cbn in E. destruct (Hone n g Hg) as [E'|E']; congruence.
Qed.

(** *** Groups *)
Lemma push_new_elem {F} (nm : F -> string) l init x : x ∈ foldl (push_new nm) init l -> x ∈ init ++ l.
Proof.
  revert init. induction l as [|y l IH]; intros init; cbn; [by rewrite app_nil_r|]. intros H. apply IH in H.
  unfold push_new in H. destruct (existsb _ init); set_solver.
Qed.
Lemma first_some_exists {A B} (f : A -> option B) l x : x ∈ l -> f x <> None -> first_some f l <> None.
Proof.
  intros Hx Hf. induction l as [|y l IH]; [by apply not_elem_of_nil in Hx|]. cbn. destruct (f y) eqn:E; [done|].
  apply list.elem_of_cons in Hx as [->|Hx]; auto.
Qed.
Definition in_calendar (key : string) : Prop := exists e, e ∈ calendar_entries m /\ key = e.1.1.
Definition in_filters (key : string) : Prop := exists e, e ∈ filter_entries m /\ key = e.1.1.
Lemma calendar_found key : in_calendar key -> try_parse_calendar_bucket m key <> None.
Proof.
  intros (e & He & ->). unfold calendar_entries in He. apply list_elem_of_In, in_flat_map in He as (d & Hd & He).
  apply in_flat_map in He as (g & Hg & He). apply in_map_iff in He as (b & <- & Hb). cbn [fst].
  apply (first_some_exists _ _ d); [by apply list_elem_of_In|].
  apply (first_some_exists _ _ b.(bucket_type)); [by destruct b.(bucket_type); apply (bool_decide_unpack _)|].
  rewrite streqb_refl. destruct (find_calendar_bucket d b.(bucket_type)) eqn:E; [done|]. exfalso. revert E.
  apply (first_some_exists _ _ g); [by apply list_elem_of_In|]. destruct (find _ g.(buckets)) eqn:E; [done|].
  apply (List.find_none _ _ E) in Hb. by rewrite bool_decide_true in Hb.
Qed.
Lemma filter_found key : in_filters key -> parse_temporal_bucket m key <> None.
Proof.
  intros (e & He & ->). unfold filter_entries in He. destruct m.(calendar_dimensions); [|by apply not_elem_of_nil in He].
  apply list_elem_of_In, in_flat_map in He as (f & Hf & He). destruct (is_time _); [|done]. apply in_map_iff in He as (b & <- & Hb).
  apply (first_some_exists _ _ f); [by apply list_elem_of_In|].
  apply (first_some_exists _ _ b); [by destruct b; apply (bool_decide_unpack _)|]. cbn [fst]. by rewrite streqb_refl.
Qed.
Lemma calendar_alias key g : try_parse_calendar_bucket m key = Some g -> exists s c k b, g = Calendar s c k b key.
Proof.
  intros (d & _ & H)%first_some_Some. apply first_some_Some in H as (b & _ & H). destruct (key =s _); [|done].
  destruct (find_calendar_bucket d b) as [gc|]; [|done]. injection H as <-. by repeat eexists.
Qed.
Lemma temporal_alias key g : parse_temporal_bucket m key = Some g -> exists c b, g = Temporal c b key /\ has_filter m c = true.
Proof.
  intros (f & Hf & H)%first_some_Some. apply first_some_Some in H as (b & _ & H). destruct (key =s _); [|done]. injection H as <-.
  exists f.(filter_name), b. split; [done|]. apply existsb_exists. exists f. split; [by apply list_elem_of_In|apply streqb_refl].
Qed.
Lemma group_accepted type_name gf : gf ∈ fields (generate_group_by_input m type_name) ->
  exists g e, parse_group_key m native_columns (gf.(group_name), JBool true) = Ok (Some g) /\ validate_group m g = Ok e /\
    expression_alias e = gf.(group_name).
Proof.
  intros H. assert (Hk : has_path m gf.(group_name) = true \/ in_calendar gf.(group_name) \/ in_filters gf.(group_name)).
  { cbn [fields generate_group_by_input] in H. apply list.elem_of_app in H as [H|H].
    - apply push_new_elem, list.elem_of_app in H as [H|H]; apply list_elem_of_In, in_map_iff in H as (x & <- & Hx).
      + left. apply existsb_exists. exists x. split; [done|apply streqb_refl].
      + right. left. destruct x as [[key c] b]. by exists (key, c, b); split; [apply list_elem_of_In|].
    - apply list_elem_of_In, in_map_iff in H as (x & <- & Hx). right. right. destruct x as [[key c] b].
      by exists (key, c, b); split; [apply list_elem_of_In|]. }
  cbn [parse_group_key]. destruct (try_parse_calendar_bucket m _) as [g|] eqn:Ec.
  { apply calendar_alias in Ec as (s & c & k & b & ->). by repeat eexists. }
  destruct (parse_temporal_bucket m _) as [g|] eqn:Et.
  { apply temporal_alias in Et as (c & b & -> & Hf). eexists _, _. split; [done|]. cbn [validate_group]. by rewrite Hf. }
  destruct (native_columns !! _) as [cast|]; [by repeat eexists|]. eexists _, _. split; [done|]. cbn [validate_group].
  destruct Hk as [->|[Hk|Hk]]; [by rewrite andb_false_r|by apply calendar_found in Hk|by apply filter_found in Hk].
Qed.

(** *** Aggregates and HAVING *)
Definition selection_of (a : AggregateField) : option AggregateSelection :=
  match a.(kind) with
  | KCount => Some (SelCount a.(name))
  | KMeasureAggregate x f => Some (SelMeasure x f a.(name))
  | _ => None
  end.
Definition expression_of (a : AggregateField) : option AggregateExpression :=
  match a.(kind) with
  | KCount => Some (ECount a.(name))
  | KMeasureAggregate x f => Some (EMeasure x f a.(name))
  | _ => None
  end.
(** The aggregate a HAVING field compares. *)
Definition compared (h : HavingField) : string :=
  if bool_decide (h.(having_function) = Count) then "count" else function_key h.(having_measure) h.(having_function).
Definition compared_selection (h : HavingField) : AggregateSelection :=
  if bool_decide (h.(having_function) = Count) then SelCount "count" else SelMeasure h.(having_measure) h.(having_function) (compared h).
Definition compared_expression (h : HavingField) : AggregateExpression :=
  if bool_decide (h.(having_function) = Count) then ECount "count" else EMeasure h.(having_measure) h.(having_function) (compared h).
Definition planned (n : string) (s : AggregateSelection) (e : AggregateExpression) : Prop :=
  parse_aggregate_selection m debug_list n = Ok s /\ alias s = n /\ validate_aggregate m s = Ok e /\ having_expression s = e.
Lemma planned_count : planned "count" (SelCount "count") (ECount "count").
Proof. done. Qed.
Lemma planned_measure x f : x ∈ map measure_name m.(measures) -> f ∈ offered ->
  planned (function_key x f) (SelMeasure x f (function_key x f)) (EMeasure x f (function_key x f)).
Proof.
  intros Hx Hf. split; [by apply parse_measure_key|]. split; [done|].
  assert (He : measure_expression x f (function_key x f) = EMeasure x f (function_key x f))
    by (by destruct (offered_cases f Hf) as [->|[->|[->|[->|[->| ->]]]]]).
  split; [|done]. cbn [validate_aggregate].
  assert (Hm : has_measure m x = true).
  { apply list_elem_of_In, in_map_iff in Hx as (c & <- & Hc). apply existsb_exists. exists c. split; [done|apply streqb_refl]. }
  by rewrite Hm, <- He.
Qed.
Lemma statistical_offered st f : f ∈ measure_basics ++ statistical st -> f ∈ offered.
Proof. unfold offered. destruct st; set_solver. Qed.
Lemma aggregate_planned type_name st a s : a ∈ fields (generate_aggregate_type m type_name st) -> selection_of a = Some s ->
  exists e, expression_of a = Some e /\ planned a.(name) s e.
Proof.
  intros H Hs. cbn [fields generate_aggregate_type] in H.
  assert (Hin : a ∈ mkAggregateField "count" "Int" false KCount :: flat_map (measure_fields st) m.(measures)).
  { apply list.elem_of_app in H as [H|H]; [apply push_new_elem, list.elem_of_app in H as [H|H]|];
      [|by apply list_elem_of_In, in_map_iff in H as ([[? ?] ?] & <- & _)..].
    rewrite app_comm_cons in H. apply list.elem_of_app in H as [H|H]; [done|].
    by apply list_elem_of_In, in_map_iff in H as (? & <- & _). }
  apply list.elem_of_cons in Hin as [->|Hin].
  { injection Hs as <-. eexists. split; [done|]. apply planned_count. }
  apply list_elem_of_In, in_flat_map in Hin as (x & Hx & Hin). apply in_app_iff in Hin.
  assert (Hf : exists f t, f ∈ measure_basics ++ statistical st /\ a = mkAggregateField (function_key x.(measure_name) f) t true (KMeasureAggregate x.(measure_name) f)).
  { destruct Hin as [Hin|Hin]; apply in_map_iff in Hin as (f & <- & Hf); exists f; eexists; (split; [|done]);
      apply list.elem_of_app; [left|right]; by apply list_elem_of_In. }
  destruct Hf as (f & t & Hf & ->). injection Hs as <-. eexists. split; [done|]. apply planned_measure.
  - apply list_elem_of_In, in_map_iff. by exists x.
  - by apply statistical_offered in Hf.
Qed.
Lemma having_planned type_name st h : h ∈ fields (generate_having_input m type_name st) ->
  h.(having_name) = (compared h ++ "_" ++ having_suffix h.(having_field_operator))%string /\
  planned (compared h) (compared_selection h) (compared_expression h).
Proof.
  intros H. cbn [fields generate_having_input] in H. apply list.elem_of_app in H as [H|H].
  - apply list_elem_of_In, in_map_iff in H as (o & <- & _). split; [done|]. apply planned_count.
  - apply list_elem_of_In, in_flat_map in H as (x & Hx & H). apply in_app_iff in H.
    assert (Hf : exists f t, f ∈ measure_basics ++ statistical st /\ List.In h (having_fields x.(measure_name) (function_key x.(measure_name) f) f t)).
    { destruct H as [H|H]; apply in_flat_map in H as (f & Hf & H); exists f; eexists; (split; [|exact H]);
        apply list.elem_of_app; [left|right]; by apply list_elem_of_In. }
    destruct Hf as (f & t & Hf & Hh). apply statistical_offered in Hf. apply in_map_iff in Hh as (o & <- & _).
    assert (Hc : bool_decide (f = Count) = false) by (by destruct (offered_cases f Hf) as [->|[->|[->|[->|[->| ->]]]]]).
    unfold compared, compared_selection, compared_expression. cbn [having_function having_measure having_name having_field_operator].
    rewrite Hc. split; [done|]. unfold compared. cbn [having_function having_measure]. rewrite Hc. apply planned_measure; [|done].
    apply list_elem_of_In, in_map_iff. by exists x.
Qed.

(** *** Queries of offered fields *)
Definition query_of (table : string) (groups : list GroupByField) (aggs : list AggregateField) (hs : list (HavingField * json)) : json :=
  JObject [("aggregates", JArray (map (fun a => JObject [(a.(name), JObject [])]) aggs));
           ("groupBy", JObject (map (fun g => (g.(group_name), JBool true)) groups));
           ("having", JObject (map (fun h => (h.1.(having_name), h.2)) hs)); ("table", JString table)]%string.
Definition planned_having (h : HavingField * json) : ValidatedHavingCondition :=
  mkValidated (compared_expression h.1) h.1.(having_field_operator) h.2.
Lemma collect_groups type_name gs : Forall (fun g => g ∈ fields (generate_group_by_input m type_name)) gs ->
  exists l es, collect_some (parse_group_key m native_columns) (map (fun g => (g.(group_name), JBool true)) gs) = Ok l /\
    collect (validate_group m) l = Ok es /\ map expression_alias es = map group_name gs.
Proof.
  induction 1 as [|g gs Hg _ IH]; [by exists [], []|]. destruct IH as (l & es & H1 & H2 & H3).
  destruct (group_accepted _ g Hg) as (s & e & Hs & He & Ha). exists (s :: l), (e :: es). cbn [map collect_some collect].
  rewrite Hs, H1. cbn [mbind result_bind]. split; [done|]. cbn [collect]. rewrite He, H2. cbn. by rewrite Ha, H3.
Qed.
Lemma collect_aggregates type_name st aggs :
  Forall (fun a => a ∈ fields (generate_aggregate_type m type_name st) /\ selection_of a <> None) aggs ->
  collect_some (fun n => Some <$> parse_aggregate_selection m debug_list n) (map name aggs) = Ok (omap selection_of aggs) /\
  collect (validate_aggregate m) (omap selection_of aggs) = Ok (omap expression_of aggs).
Proof.
  induction 1 as [|a aggs [Ha Hs] _ [IH1 IH2]]; [done|]. destruct (selection_of a) as [s|] eqn:E; [|done].
  destruct (aggregate_planned _ _ _ _ Ha E) as (e & He & Hp & _ & Hv & _). cbn [map collect_some omap list_omap].
  rewrite Hp, IH1, E, He. cbn. split; [done|]. by rewrite Hv, IH2.
Qed.
Lemma find_compared type_name st aggs n s e :
  Forall (fun a => a ∈ fields (generate_aggregate_type m type_name st) /\ selection_of a <> None) aggs ->
  planned n s e -> n ∈ map name aggs -> find (fun x => alias x =s n) (omap selection_of aggs) = Some s.
Proof.
  intros Haggs Hp Hn. destruct (find _ _) as [s'|] eqn:E.
  - apply List.find_some in E as [Hin Hal]. to_prop. apply list_elem_of_In, list_elem_of_omap in Hin as (a & Ha & Hs).
    rewrite list.Forall_forall in Haggs. destruct (aggregate_planned _ _ _ _ (proj1 (Haggs a Ha)) Hs) as (e' & _ & Hp' & Hal' & _).
    destruct Hp as [Hp _]. congruence.
  - exfalso. apply list_elem_of_In, in_map_iff in Hn as (a & <- & Ha). apply list_elem_of_In in Ha.
    rewrite list.Forall_forall in Haggs. destruct (Haggs a Ha) as [Ha' Hs]. destruct (selection_of a) as [s'|] eqn:Es; [|done].
    destruct (aggregate_planned _ _ _ _ Ha' Es) as (e' & _ & _ & Hal & _).
    assert (Hin : List.In s' (omap selection_of aggs)) by (apply list_elem_of_In, list_elem_of_omap; by exists a).
    apply (List.find_none _ _ E) in Hin. by rewrite Hal, streqb_refl in Hin.
Qed.
Lemma collect_having type_name st aggs hs :
  Forall (fun a => a ∈ fields (generate_aggregate_type m type_name st) /\ selection_of a <> None) aggs ->
  Forall (fun h => h.1 ∈ fields (generate_having_input m type_name st) /\ compared h.1 ∈ map name aggs) hs ->
  exists l, collect_some (parse_having_entry (omap selection_of aggs)) (map (fun h => (h.1.(having_name), h.2)) hs) = Ok l /\
    map validate_having l = map planned_having hs.
Proof.
  intros Haggs. induction 1 as [|[h v] hs [Hh Hn] _ IH]; [by exists []|]. destruct IH as (l & H1 & H2). cbn [fst] in *.
  destruct (having_planned _ _ _ Hh) as [Hname Hp]. cbn [map collect_some]. rewrite H1. cbn [fst snd].
  unfold parse_having_entry. cbn [fst snd]. rewrite Hname, parse_having_name, (find_compared _ _ _ _ _ _ Haggs Hp Hn).
  cbn. eexists. split; [done|]. cbn. rewrite H2. f_equal. destruct Hp as (_ & _ & _ & He). unfold validate_having, planned_having. cbn.
  by rewrite He.
Qed.
Lemma find_not_compared type_name st aggs n :
  Forall (fun a => a ∈ fields (generate_aggregate_type m type_name st) /\ selection_of a <> None) aggs ->
  n ∉ map name aggs -> find (fun x => alias x =s n) (omap selection_of aggs) = None.
Proof.
  intros Haggs Hn. destruct (find _ _) as [s'|] eqn:E; [|done]. exfalso. apply Hn.
  apply List.find_some in E as [Hin Hal]. to_prop. apply list_elem_of_In, list_elem_of_omap in Hin as (a & Ha & Hs).
  rewrite list.Forall_forall in Haggs. destruct (aggregate_planned _ _ _ _ (proj1 (Haggs a Ha)) Hs) as (e & _ & _ & Hal' & _).
  apply list_elem_of_In, in_map_iff. exists a. split; [congruence|by apply list_elem_of_In].
Qed.
Definition selected (aggs : list AggregateField) (h : HavingField * json) : bool := bool_decide (compared h.1 ∈ map name aggs).
Lemma having_refused type_name st aggs hs :
  Forall (fun a => a ∈ fields (generate_aggregate_type m type_name st) /\ selection_of a <> None) aggs ->
  Forall (fun h => h.1 ∈ fields (generate_having_input m type_name st)) hs -> forallb (selected aggs) hs = false ->
  exists h, h ∈ hs /\ compared h.1 ∉ map name aggs /\
    collect_some (parse_having_entry (omap selection_of aggs)) (map (fun h => (h.1.(having_name), h.2)) hs) =
      Err (validation ("HAVING condition references non-selected aggregate: " ++ compared h.1)%string).
Proof.
  intros Haggs. induction 1 as [|h hs Hh Hhs IH]; [done|]. cbn [forallb]. intros Hno. destruct (having_planned _ _ _ Hh) as [Hname Hp].
  assert (He : parse_having_entry (omap selection_of aggs) (h.1.(having_name), h.2) =
    match find (fun a => alias a =s compared h.1) (omap selection_of aggs) with
    | Some a => Ok (Some (mkHaving a h.1.(having_field_operator) h.2))
    | None => Err (validation ("HAVING condition references non-selected aggregate: " ++ compared h.1)%string)
    end) by (unfold parse_having_entry; cbn [fst snd]; by rewrite Hname, parse_having_name).
  cbn [map collect_some]. rewrite He. unfold selected at 1 in Hno. case_bool_decide as Hc; cbn in Hno.
  - rewrite (find_compared _ _ _ _ _ _ Haggs Hp Hc). cbn. destruct (IH Hno) as (h' & Hin & Hn & ->). exists h'. split; [by right|done].
  - rewrite (find_not_compared _ _ _ _ Haggs Hc). exists h. split; [by left|done].
Qed.

Context (to_uppercase_char : string -> string).
(** C19. A query made of GROUP BY fields, of aggregate fields (the count and the
    aggregates of measures; the result type's other fields are the groups') and
    of HAVING fields of the types generated for a fact table: if each HAVING
    field compares an aggregate that is among the selected ones it is parsed and
    planned, its groups named as it asks, its aggregates and conditions those of
    the fields; otherwise it is refused, naming an aggregate not selected. *)
Theorem offered_queries_planned st at_ gt ht gs aggs hs table :
  generate to_uppercase_char m st = Ok (at_, gt, ht) ->
  Forall (fun g => g ∈ fields gt) gs ->
  Forall (fun a => a ∈ fields at_ /\ selection_of a <> None) aggs ->
  Forall (fun h => h.1 ∈ fields ht) hs ->
  if forallb (selected aggs) hs then
    exists r groups,
      parse m native_columns debug_list (query_of table gs aggs hs) = Ok r /\
      plan r m = Ok (mkPlan m r groups (omap expression_of aggs) (map planned_having hs)) /\
      map expression_alias groups = map group_name gs
  else exists h, h ∈ hs /\ compared h.1 ∉ map name aggs /\
    parse m native_columns debug_list (query_of table gs aggs hs) =
      Err (validation ("HAVING condition references non-selected aggregate: " ++ compared h.1)%string).
Proof.
  unfold generate. destruct (extract_type_name _ _) as [tn|]; [|done]. intros [= <- <- <-] Hg Ha Hh.
  destruct (collect_groups _ _ Hg) as (l & es & H1 & H2 & H3). destruct (collect_aggregates _ _ _ Ha) as [H4 H5].
  assert (Hn : flat_map (fun item => match as_object item with Some obj => map fst obj | None => [] end)
                 (map (fun a => JObject [(a.(name), JObject [])]) aggs) = map name aggs).
  { clear. induction aggs as [|a l IH]; [done|]. cbn. by rewrite IH. }
  assert (Hparse : forall k, collect_some (parse_having_entry (omap selection_of aggs)) (map (fun h => (h.1.(having_name), h.2)) hs) = k ->
    parse m native_columns debug_list (query_of table gs aggs hs) =
      cs ← k; Ok (mkRequest table None l (omap selection_of aggs) cs [] None None)).
  { intros k Hk. unfold parse, query_of. cbn -[collect_some omap]. unfold optional. cbn -[collect_some omap].
    rewrite H1. cbn -[collect_some omap]. unfold parse_aggregates. cbn [aggregate_names]. rewrite Hn, H4. cbn -[collect_some omap].
    rewrite Hk. by destruct k. }
  destruct (forallb _ hs) eqn:Hsel.
  - assert (Hh' : Forall (fun h => h.1 ∈ fields (generate_having_input m tn st) /\ compared h.1 ∈ map name aggs) hs).
    { apply list.Forall_forall. intros h Hin. rewrite list.Forall_forall in Hh. split; [by apply Hh|].
      apply list_elem_of_In in Hin. rewrite forallb_forall in Hsel. specialize (Hsel h Hin). by apply bool_decide_eq_true in Hsel. }
    destruct (collect_having _ _ _ _ Ha Hh') as (cs & H6 & H7). eexists _, es. rewrite (Hparse _ H6). cbn [mbind result_bind].
    split; [reflexivity|]. split; [|exact H3]. unfold plan. cbn -[omap]. by rewrite H2, H5, H7.
  - destruct (having_refused _ _ _ _ Ha Hh Hsel) as (h & Hin & Hc & He). exists h. do 2 (split; [done|]). by rewrite (Hparse _ He).
Qed.
End Offered.

Module OfferedDemo.
Import AggregateTypeGenerator AggregationDemo.
Definition group : GroupByField := mkGroupByField "occurred_at_month" (GTemporalBucket "date_info" Month).
Definition revenue : AggregateField := mkAggregateField "revenue_stddev" "Float" true (KMeasureAggregate "revenue" Stddev).
Definition above : HavingField := mkHavingField "revenue_stddev_gte" "revenue" Stddev HGte "Float".
Definition total_above : HavingField := mkHavingField "count_gt" "" Count HGt "Int".
Lemma offered_queries_planned_witness :
  exists at_ gt ht r groups,
    generate (fun c => if c =s "s" then "S" else c) sales true = Ok (at_, gt, ht) /\
    parse sales native shown (query_of "tf_sales" [group] [revenue] [(above, JNull)]) = Ok r /\
    plan r sales = Ok (mkPlan sales r groups [EMeasure "revenue" Stddev "revenue_stddev"]
      [mkValidated (EMeasure "revenue" Stddev "revenue_stddev") HGte JNull]) /\
    map expression_alias groups = ["occurred_at_month"%string] /\
    is_ok (parse sales native shown (query_of "tf_sales" [group] [revenue] [(total_above, JNull)])) = false.
Proof.
  do 3 eexists. edestruct (offered_queries_planned sales native shown (fun c => if c =s "s" then "S"%string else c) true _ _ _
    [group] [revenue] [(above, JNull)] "tf_sales" eq_refl) as (r & groups & H1 & H2 & H3).
  - by repeat constructor; apply (bool_decide_unpack _).
  - by repeat constructor; apply (bool_decide_unpack _).
  - by repeat constructor; apply (bool_decide_unpack _).
  - exists r, groups. split; [reflexivity|]. split; [exact H1|]. split; [exact H2|]. split; [exact H3|].
    edestruct (offered_queries_planned sales native shown (fun c => if c =s "s" then "S"%string else c) true _ _ _
      [group] [revenue] [(total_above, JNull)] "tf_sales" eq_refl) as (h & _ & _ & H4);
      [by repeat constructor; apply (bool_decide_unpack _)..|]. by rewrite H4.
Defined.
End OfferedDemo.
