(* ===== verification/CompiledSchema.v ===== *)
(** * The compiled schema

    The definitions the runtime and the REST transport read:
    [schema/field_type.rs], [schema/graphql_type_defs.rs],
    [schema/graphql_value.rs], [schema/compiled/argument.rs],
    [schema/compiled/query.rs], [schema/compiled/mutation.rs] and the lookups of
    [schema/compiled/schema.rs].  Descriptions, deprecations and what only the
    compiler reads are left out. *)

From S2P Require Import Prelude Json Chars SecurityContext.
From S2P Require SchemaGraph.
#[local] Open Scope Z_scope.

Module FT := SchemaGraph.Builder.
Notation FieldType := FT.FieldType.

(** ** Field types *)
Definition is_scalar (t : FieldType) : bool :=
  match t with
  | FT.TString | FT.Int | FT.Float | FT.Boolean | FT.Id | FT.DateTime | FT.Date | FT.Time | FT.TJson | FT.Uuid
  | FT.Decimal | FT.Vector | FT.Scalar _ => true
  | _ => false
  end.
Definition is_list (t : FieldType) : bool := match t with FT.List _ => true | _ => false end.
Definition inner_type (t : FieldType) : option FieldType := match t with FT.List t => Some t | _ => None end.
Definition referenced_name (t : FieldType) : option string :=
  match t with FT.Object n | FT.Enum n | FT.Input n | FT.Interface n | FT.Union n => Some n | _ => None end.

(** ** Types *)
Inductive FieldDenyPolicy : Type := Reject | Mask.

Record FieldDefinition : Type := mkField {
  field_name : string;
  field_type : FieldType;
  field_alias : option string;
  requires_scope : option string;
  on_deny : FieldDenyPolicy
}.
Definition is_primary_key (f : FieldDefinition) : bool := (f.(field_name) =s "id") || starts_with "pk_" f.(field_name).
Definition output_name (f : FieldDefinition) : string := default f.(field_name) f.(field_alias).

Inductive Cardinality : Type := OneToMany | ManyToOne | OneToOne.
Record Relationship : Type := mkRelationship {
  relationship_name : string;
  target_type : string;
  cardinality : Cardinality;
  foreign_key : string;
  referenced_key : string
}.
Record TypeDefinition : Type := mkType {
  type_name : string;
  type_sql_source : string;
  type_fields : list FieldDefinition;
  is_error : bool;
  relationships : list Relationship
}.
Definition find_field (td : TypeDefinition) (name : string) : option FieldDefinition :=
  find (fun f => f.(field_name) =s name) td.(type_fields).
Definition find_field_by_output_name (td : TypeDefinition) (name : string) : option FieldDefinition :=
  find (fun f => output_name f =s name) td.(type_fields).
Definition searchable_fields (td : TypeDefinition) : list FieldDefinition :=
  List.filter (fun f => match f.(field_type) with FT.TString => true | _ => false end) td.(type_fields).
Definition writable_fields (td : TypeDefinition) : list FieldDefinition :=
  List.filter (fun f => negb (is_primary_key f)) td.(type_fields).

Record InputObjectDefinition : Type := mkInput { input_name : string; input_fields : list string }.
Record UnionDefinition : Type := mkUnion { union_name : string; member_types : list string }.

(** ** Literals *)
Inductive GraphQLValue : Type :=
| GNull
| GBoolean (b : bool)
| GInt (i : Z)
| GFloat (f : f64)
| GString (s : string)
| GList (l : list GraphQLValue)
| GObject (fields : list (string * GraphQLValue)).
(** [serde_json::json!]: a float that is not finite becomes null. *)
Fixpoint to_json (v : GraphQLValue) : json :=
  match v with
  | GNull => JNull
  | GBoolean b => JBool b
  | GInt i => JNumber (if i <? 0 then NegInt i else PosInt i)
  | GFloat f => if is_finite f then JNumber (Float f) else JNull
  | GString s => JString s
  | GList l => JArray (map to_json l)
  | GObject fields => JObject (map (fun kv => (kv.1, to_json kv.2)) fields)
  end.
(** Every number has an [as_f64]. *)
Fixpoint from_json (v : json) : GraphQLValue :=
  match v with
  | JNull => GNull
  | JBool b => GBoolean b
  | JNumber n => match as_i64 v, as_f64 v with Some i, _ => GInt i | None, Some f => GFloat f | None, None => GNull end
  | JString s => GString s
  | JArray l => GList (map from_json l)
  | JObject fields => GObject (map (fun kv => (kv.1, from_json kv.2)) fields)
  end.

(** ** Queries *)
Record ArgumentDefinition : Type := mkArg {
  arg_name : string;
  arg_type : FieldType;
  nullable : bool;
  default_value : option GraphQLValue
}.
Record AutoParams : Type := mkAuto { has_where : bool; has_order_by : bool; has_limit : bool; has_offset : bool }.
Definition auto_all : AutoParams := mkAuto true true true true.
Definition auto_none : AutoParams := mkAuto false false false false.

Inductive CursorType : Type := Int64 | UuidCursor.
Inductive InjectedParamSource : Type := Jwt (claim : string).

(** [inject_params] keeps the order of the schema, [native_columns] is a map
    from column to database type. *)
Record QueryDefinition : Type := mkQuery {
  query_name : string;
  return_type : string;
  returns_list : bool;
  arguments : list ArgumentDefinition;
  sql_source : option string;
  auto_params : AutoParams;
  relay : bool;
  relay_cursor_column : option string;
  relay_cursor_type : CursorType;
  inject_params : list (string * InjectedParamSource);
  additional_views : list string;
  requires_role : option string;
  native_columns : gmap string string;
  rest_path : option string;
  rest_method : option string;
  cache_ttl_seconds : option Z
}.
(** [QueryDefinition::new]. *)
Definition new_query (name return_type : string) : QueryDefinition :=
  mkQuery name return_type false [] None auto_none false None Int64 [] [] None ∅ None None None.

(** ** Mutations *)
Inductive MutationOperation : Type :=
| Insert (table : string) | Update (table : string) | Delete (table : string) | Custom.
Record MutationDefinition : Type := mkMutation {
  mutation_name : string;
  mutation_return_type : string;
  mutation_arguments : list ArgumentDefinition;
  operation : MutationOperation;
  mutation_sql_source : option string;
  mutation_inject_params : list (string * InjectedParamSource);
  invalidates_fact_tables : list string;
  invalidates_views : list string;
  mutation_rest_path : option string;
  mutation_rest_method : option string;
  upsert_function : option string
}.
Definition new_mutation (name return_type : string) : MutationDefinition :=
  mkMutation name return_type [] Custom None [] [] [] None None None.

(** ** The REST transport's configuration ([schema/config_types.rs]) *)
Inductive DeleteResponse : Type := NoContent | Entity.
Record RestConfig : Type := mkRestConfig {
  rest_enabled : bool;
  rest_base_path : string;
  max_page_size : Z;
  default_page_size : Z;
  ndjson_batch_size : Z;
  max_bulk_affected : Z;
  max_filter_bytes : Z;
  delete_response : DeleteResponse;
  default_cache_ttl : Z;
  cdn_max_age : option Z;
  require_auth : bool;
  sse_heartbeat_seconds : Z;
  max_embedding_depth : Z;
  include : list string;
  exclude : list string;
  etag : bool;
  idempotency_ttl_seconds : Z
}.
Definition default_rest_config : RestConfig :=
  mkRestConfig false "/rest/v1" 1000 100 500 10000 4096 NoContent 0 None false 30 3 [] [] true 300.

(** ** What the executor reads of the schema *)
Record Schema : Type := mkSchema {
  types : list TypeDefinition;
  input_types : list InputObjectDefinition;
  unions : list UnionDefinition;
  security : option SecurityConfig
}.
Definition find_type (s : Schema) (name : string) : option TypeDefinition :=
  find (fun t => t.(type_name) =s name) s.(types).
Definition find_input_type (s : Schema) (name : string) : option InputObjectDefinition :=
  find (fun t => t.(input_name) =s name) s.(input_types).
Definition find_union (s : Schema) (name : string) : option UnionDefinition :=
  find (fun t => t.(union_name) =s name) s.(unions).
