(* ===== verification/RestParams.v ===== *)
(** * Parameters of a REST request

    [fraiseql-server/src/routes/rest/params.rs]: path and query-string
    parameters read against the query and type of the endpoint.  Strings are
    bytes; [str::parse::<f64>] and the JSON reader ([serde_json::from_str]) are
    parameters.  What can panic is in a result type of its own. *)

From Stdlib Require Import Ascii.
From stdpp Require Import pretty.
From S2P Require Import Prelude Json WhereClause Chars SecurityContext CompiledSchema.
#[local] Open Scope Z_scope.

(** ** Limits *)
Definition MAX_VARIABLES_COUNT : Z := 1000.
Definition MAX_FILTER_DEPTH : Z := 64.
Definition MAX_LOGICAL_DEPTH : nat := 64.
Definition BRACKET_OPERATORS : list string :=
  ["eq"; "ne"; "gt"; "gte"; "lt"; "lte"; "in"; "nin"; "like"; "ilike"; "icontains"; "startswith";
   "istartswith"; "endswith"; "iendswith"; "is_null"].
Definition RESERVED_PARAMS : list string :=
  ["select"; "sort"; "limit"; "offset"; "first"; "after"; "last"; "before"; "filter"; "search"; "or"; "and"; "not"].

(** The names in [OPERATOR_REGISTRY] ([utils/operators.rs]). *)
Definition OPERATOR_REGISTRY : list string :=
  ["eq"; "ne"; "gt"; "gte"; "lt"; "lte"; "in"; "nin"; "like"; "ilike"; "nlike"; "nilike"; "regex"; "iregex"; "nregex";
   "niregex"; "is_null"; "is_not_null"; "contains"; "contained_in"; "has_key"; "has_any_keys"; "has_all_keys";
   "array_contains"; "array_contained_in"; "array_overlaps"; "cosine_distance"; "l2_distance"; "inner_product";
   "l1_distance"; "hamming_distance"; "jaccard_distance"; "search"; "plainto_tsquery"; "phraseto_tsquery";
   "websearch_to_tsquery"; "startswith"; "istartswith"; "endswith"; "iendswith"; "icontains"; "imatches"; "not_matches";
   "isIPv4"; "isIPv6"; "isPrivate"; "isPublic"; "inSubnet"; "notInSubnet"; "subnet_contains"; "subnet_overlaps";
   "contains_date"; "adjacent"; "strictly_left"; "strictly_right"; "not_left"; "not_right"; "overlaps"; "ancestor_of";
   "descendant_of"; "matches_lquery"; "matches_ltxtquery"; "matches_any_lquery"; "depth_eq"; "depth_gt"; "depth_lt";
   "isdescendant"; "distance_within"; "strictly_contains"; "neq"; "isnull"; "array_eq"; "array_neq";
   "array_contained_by"; "notin"].

(** ** Errors *)
Inductive failure : Type :=
| Invalid (e : FraiseQLError)
| Panic
| OutOfFuel.
Notation outcome := (result failure).
Definition validation_error {A} (m : string) : outcome A := Err (Invalid (validation m)).
Definition or_panic {A} (o : option A) : outcome A := match o with Some a => Ok a | None => Err Panic end.

(** [iter().map(..)] with the early return of [?]. *)
Fixpoint each {A B} (f : A -> outcome B) (l : list A) : outcome (list B) :=
  match l with [] => Ok [] | x :: l => y ← f x; ys ← each f l; Ok (y :: ys) end.
Fixpoint each_unit {A} (f : A -> outcome unit) (l : list A) : outcome unit :=
  match l with [] => Ok tt | x :: l => _ ← f x; each_unit f l end.

(** ** What is extracted *)
Inductive PaginationParams : Type :=
| Offset (limit offset : Z)
| Cursor (first : option Z) (after : option string) (last : option Z) (before : option string)
| NoPagination.
Inductive RestFieldSpec : Type := All | Fields (l : list string).
Inductive SelectEntry : Type :=
| Field (name : string)
| Embedded (relationship : string) (rename : option string) (sub_fields : list SelectEntry)
| Count (name : string).
Record ExtractedParams : Type := mkParams {
  path_params : list (string * json);
  where_clause : option json;
  order_by : option json;
  pagination : PaginationParams;
  field_selection : RestFieldSpec;
  search_query : option string;
  embeddings : list SelectEntry;
  embedding_filters : list (string * json);
  embedding_counts : list string
}.

Section Readers.
(** [str::parse::<f64>] and [serde_json::from_str], whose error is its text. *)
Context (parse_f64 : string -> option f64) (from_str : string -> result string json).

Definition int_number (n : Z) : json := JNumber (if 0 <=? n then PosInt n else NegInt n).
(** [Number::from_f64]. *)
Definition float_number (f : f64) : option json := if is_finite f then Some (JNumber (Float f)) else None.

(** ** Coercion *)
Definition coerce_to_type (raw : string) (t : FieldType) : outcome json :=
  match t with
  | FT.Int =>
      match parse_i64 raw with
      | Some v => Ok (int_number v)
      | None => validation_error ("Expected integer value, got '" ++ raw ++ "'.")
      end
  | FT.Float | FT.Decimal =>
      match parse_f64 raw with
      | Some v => Ok (default (JString raw) (float_number v))
      | None => validation_error ("Expected numeric value, got '" ++ raw ++ "'.")
      end
  | FT.Boolean =>
      if member raw ["true"; "1"; "yes"] then Ok (JBool true)
      else if member raw ["false"; "0"; "no"] then Ok (JBool false)
      else validation_error ("Expected boolean value (true/false/1/0), got '" ++ raw ++ "'.")
  | FT.TJson =>
      match from_str raw with
      | Ok v => Ok v
      | Err e => validation_error ("Expected JSON value, got '" ++ raw ++ "': " ++ e)
      end
  | FT.List _ =>
      match from_str raw with
      | Ok (JArray l) => Ok (JArray l)
      | _ => Ok (JArray (map (fun s => JString (trim s)) (split "," raw)))
      end
  | _ => Ok (JString raw)
  end.

(** ** Keys *)
(** [key.find(c)]. *)
Fixpoint find_char (c : ascii) (s : string) : option nat :=
  match s with
  | EmptyString => None
  | String d s => if Ascii.eqb d c then Some O else S <$> find_char c s
  end.

Definition parse_bracket_key (key : string) : option (string * string) :=
  match find_char "[" key, find_char "]" key with
  | Some open, Some close =>
      if ((close <=? open + 1) || negb (close =? String.length key - 1))%nat then None
      else
        let field := String.substring 0 open key in
        let op := String.substring (open + 1) (close - (open + 1)) key in
        if (field =s "") || (op =s "") then None else Some (field, op)
  | _, _ => None
  end.

(** ** Logical groups *)
Definition parse_logical_value (raw : string) : json :=
  match parse_i64 raw with
  | Some v => int_number v
  | None =>
      match parse_f64 raw ≫= float_number with
      | Some n => n
      | None => if raw =s "true" then JBool true else if raw =s "false" then JBool false else JString raw
      end
  end.

Definition parse_nested_logical (part : string) : option (string * string) :=
  head (omap (fun op =>
    match strip_prefix (op ++ "=") part with
    | Some rest => if starts_with "(" rest && ends_with ")" rest then Some (op, rest) else None
    | None => None
    end) ["and"; "or"; "not"]%string).

(** By the commas outside parentheses; the last part only where it is not empty. *)
Fixpoint split_parts (depth : Z) (current : string) (s : string) : list string :=
  match s with
  | EmptyString => if current =s "" then [] else [current]
  | String c s =>
      let current' := (current ++ String c EmptyString)%string in
      if Ascii.eqb c "(" then split_parts (depth + 1) current' s
      else if Ascii.eqb c ")" then split_parts (depth - 1) current' s
      else if Ascii.eqb c "," && (depth =? 0) then current :: split_parts depth EmptyString s
      else split_parts depth current' s
  end.
Definition split_logical_parts (input : string) : list string := split_parts 0 EmptyString input.

Definition singleton (k : string) (v : json) : json := JObject [(k, v)].

(** [room] is [MAX_LOGICAL_DEPTH + 1 - depth]. *)
Fixpoint parse_logical_group (room : nat) (input dsl_key : string) : outcome json :=
  match room with
  | O => validation_error ("Logical operator nesting depth exceeds maximum (" ++ pretty (Z.of_nat MAX_LOGICAL_DEPTH) ++ ").")
  | S room =>
      let trimmed := trim input in
      if negb (starts_with "(" trimmed) || negb (ends_with ")" trimmed) then
        validation_error ("Logical operator value must be enclosed in parentheses: `" ++ dsl_key ++ "=(...)`. Got: `" ++
          trimmed ++ "`")
      else
        let inner := String.substring 1 (String.length trimmed - 2) trimmed in
        conditions ← each (fun part =>
          let part := trim part in
          if part =s "" then Ok None
          else
            match parse_nested_logical part with
            | Some (nested_op, nested_val) =>
                nested ← parse_logical_group room nested_val ("_" ++ nested_op); Ok (Some nested)
            | None =>
                match split_once "=" part with
                | Some (field_op, value) =>
                    let json_val := parse_logical_value value in
                    match parse_bracket_key field_op with
                    | Some (field, op) => Ok (Some (singleton field (singleton op json_val)))
                    | None => Ok (Some (singleton field_op (singleton "eq" json_val)))
                    end
                | None => Ok None
                end
            end) (split_logical_parts inner);
        Ok (singleton dsl_key (JArray (omap id conditions)))
  end.

Definition parse_logical_groups (groups : list (string * string)) : outcome (list json) :=
  each (fun g => parse_logical_group MAX_LOGICAL_DEPTH g.2 ("_" ++ g.1)) groups.
End Readers.

(** ** Size of filters *)
Fixpoint json_depth (v : json) : Z :=
  match v with
  | JObject fields => 1 + foldr Z.max 0 (map (fun kv => json_depth kv.2) fields)
  | JArray l => 1 + foldr Z.max 0 (map json_depth l)
  | _ => 1
  end.
Definition count_where_fields (v : json) : Z := match v with JObject fields => Z.of_nat (length fields) | _ => 1 end.

(** ** The select list *)
Module Select.
Definition is_char (c : ascii) (ch : string) : bool := ch =s String c EmptyString.
Definition separator (ch : string) : bool := is_char "," ch || is_char " " ch.
Definition in_name (ch : string) : bool := negb (is_char "(" ch || is_char "," ch || is_char "." ch || is_char " " ch).
Definition in_suffix (ch : string) : bool := negb (is_char "," ch || is_char " " ch).
Definition at_char (cs : list string) (i : nat) (c : ascii) : bool :=
  match cs !! i with Some ch => is_char c ch | None => false end.
(** [while i < len && p(chars[i]) { i += 1 }]. *)
Definition advance (p : string -> bool) (cs : list string) (i : nat) : nat := (i + count_while p (drop i cs))%nat.

(** The closing parenthesis: where it is, and the depth left. *)
Fixpoint close (l : list string) (i depth : nat) : nat * nat :=
  match l with
  | [] => (i, depth)
  | ch :: l =>
      let depth := if is_char "(" ch then S depth else if is_char ")" ch then (depth - 1)%nat else depth in
      match depth with O => (i, O) | _ => close l (S i) depth end
  end.

(** Indices of characters, used to slice the bytes of [input]. *)
Fixpoint parse_from (fuel : nat) (input : string) (i : nat) : outcome (list SelectEntry) :=
  match fuel with
  | O => Err OutOfFuel
  | S fuel =>
      let cs := chars input in
      let len := length cs in
      let i := advance separator cs i in
      if (len <=? i)%nat then Ok []
      else
        let name_start := i in
        let i := advance in_name cs i in
        name ← or_panic (slice input name_start i);
        let name := trim name in
        if name =s "" then validation_error "Empty field name in `select` parameter"
        else
          let i := advance (is_char " ") cs i in
          if at_char cs i "." then
            let suffix_start := (i + 1)%nat in
            let i := advance in_suffix cs suffix_start in
            suffix ← or_panic (slice input suffix_start i);
            if suffix =s "count" then rest ← parse_from fuel input i; Ok (Count name :: rest)
            else validation_error ("Unsupported dot-suffix '" ++ suffix ++ "' in `select`. Only `.count` is supported.")
          else if at_char cs i "(" then
            let '(rename, relationship) :=
              match split_once ":" name with Some (a, b) => (Some a, b) | None => (None, name) end in
            let inner_start := (i + 1)%nat in
            let '(i, depth) := close (drop inner_start cs) inner_start 1 in
            match depth with
            | O =>
                inner ← or_panic (slice input inner_start i);
                sub ← parse_from fuel inner 0;
                rest ← parse_from fuel input (i + 1);
                Ok (Embedded relationship rename sub :: rest)
            | S _ => validation_error ("Unbalanced parentheses in `select` for '" ++ relationship ++ "'")
            end
          else
            rest ← parse_from fuel input i;
            Ok (Field name :: rest)
  end.

(** Every step consumes a character. *)
Definition parse_select_entries (input : string) : outcome (list SelectEntry) :=
  parse_from (S (length (chars input))) input 0.

Fixpoint validate_embedding_depth (current_depth max_depth : Z) (spec : SelectEntry) : outcome unit :=
  match spec with
  | Embedded _ _ sub =>
      if max_depth <? current_depth then
        validation_error ("Embedding depth " ++ pretty current_depth ++ " exceeds maximum of " ++ pretty max_depth ++
          ". Reduce nesting in `select` parameter.")
      else
        (fix go (l : list SelectEntry) : outcome unit :=
           match l with
           | [] => Ok tt
           | x :: l => _ ← validate_embedding_depth (current_depth + 1) max_depth x; go l
           end) sub
  | _ => Ok tt
  end.
End Select.

(** ** The extractor *)
Module Extractor.
Section Extractor.
Context (parse_f64 : string -> option f64) (from_str : string -> result string json).
Context (config : RestConfig) (query_def : QueryDefinition) (type_def : option TypeDefinition).

Definition field_names (td : TypeDefinition) : list string := str_sort (map output_name td.(type_fields)).
Definition validate_field_name (name : string) : outcome unit :=
  match type_def with
  | Some td =>
      match find_field_by_output_name td name with
      | Some _ => Ok tt
      | None => validation_error ("Unknown field '" ++ name ++ "'. Available fields: " ++ join ", " (field_names td))
      end
  | None => Ok tt
  end.
Definition validate_bracket_operator (op : string) : outcome unit :=
  if member op BRACKET_OPERATORS then Ok tt
  else validation_error ("Unknown bracket operator '" ++ op ++ "'. Available bracket operators: " ++ join ", " BRACKET_OPERATORS).
Definition is_valid_field (name : string) : bool :=
  match type_def with
  | Some td => match find_field_by_output_name td name with Some _ => true | None => false end
  | None => true
  end.
Definition coerce_field_value (field_name raw : string) : outcome json :=
  match type_def ≫= fun td => find_field_by_output_name td field_name with
  | Some fd => coerce_to_type parse_f64 from_str raw fd.(field_type)
  | None => Ok (JString raw)
  end.

(** [sort_unstable] and [dedup]. *)
Fixpoint dedup (l : list string) : list string :=
  match l with
  | [] => []
  | x :: l => match dedup l with y :: l' => if x =s y then y :: l' else x :: y :: l' | [] => [x] end
  end.
Definition unknown_param_error {A} (key : string) : outcome A :=
  let available := RESERVED_PARAMS ++ match type_def with Some td => map output_name td.(type_fields) | None => [] end in
  validation_error ("Unknown query parameter '" ++ key ++ "'. Available parameters: " ++ join ", " (dedup (str_sort available))).

Definition extract_path_params (pairs : list (string * string)) : outcome (list (string * json)) :=
  each (fun p =>
    value ← match find (fun a => a.(arg_name) =s p.1) query_def.(arguments) with
            | Some a => coerce_to_type parse_f64 from_str p.2 a.(arg_type)
            | None => Ok (JString p.2)
            end;
    Ok (p.1, value)) pairs.

(** *** Select *)
Definition validate_embedding_relationship_name (name : string) : outcome unit :=
  match type_def with
  | None => validation_error ("Cannot embed '" ++ name ++ "': type definition not available")
  | Some td =>
      if member name (map relationship_name td.(relationships)) then Ok tt
      else
        let available := match map relationship_name td.(relationships) with [] => "none" | l => join ", " l end%string in
        validation_error ("Type '" ++ td.(type_name) ++ "' has no relationship '" ++ name ++ "'. Available: " ++ available)
  end.

(** Flat fields, embedded resources and counts, each in order. *)
Fixpoint sort_entries (entries : list SelectEntry) : outcome (list string * list SelectEntry * list string) :=
  match entries with
  | [] => Ok ([], [], [])
  | e :: entries =>
      _ ← match e with
          | Field name => validate_field_name name
          | Embedded relationship _ _ =>
              _ ← Select.validate_embedding_depth 1 config.(max_embedding_depth) e;
              validate_embedding_relationship_name relationship
          | Count name => validate_embedding_relationship_name name
          end;
      '(flat, embedded, counts) ← sort_entries entries;
      Ok match e with
         | Field name => (name :: flat, embedded, counts)
         | Embedded _ _ _ => (flat, e :: embedded, counts)
         | Count name => (flat, embedded, name :: counts)
         end
  end.

Definition parse_select_with_embeddings (raw : option string) : outcome (RestFieldSpec * list SelectEntry * list string) :=
  match raw with
  | None | Some EmptyString => Ok (All, [], [])
  | Some raw =>
      entries ← Select.parse_select_entries raw;
      '(flat, embedded, counts) ← sort_entries entries;
      Ok (match flat, embedded with [], _ :: _ => All | _, _ => Fields flat end, embedded, counts)
  end.

(** *** Sort *)
Definition parse_sort (raw : option string) : outcome (option json) :=
  match raw with
  | None | Some EmptyString => Ok None
  | Some raw =>
      parts ← each (fun part =>
        let part := trim part in
        let '(field, direction) :=
          match strip_prefix "-" part with Some stripped => (stripped, "DESC") | None => (part, "ASC") end%string in
        _ ← validate_field_name field;
        Ok (JObject [("direction"%string, JString direction); ("field"%string, JString field)])) (split "," raw);
      Ok (Some (JArray parts))
  end.

(** *** Filter *)
Definition logical_key (key : string) : bool := (key =s "_or") || (key =s "_and") || (key =s "_not").
Definition unknown_operator {A} (op_name : string) : outcome A :=
  validation_error ("Unknown filter operator '" ++ op_name ++ "'. Available operators: " ++ join ", " (str_sort OPERATOR_REGISTRY)).
Definition validate_operators (inner : json) : outcome unit :=
  match inner with
  | JObject ops => each_unit (fun kv => if member kv.1 OPERATOR_REGISTRY then Ok tt else unknown_operator kv.1) ops
  | _ => Ok tt
  end.

Fixpoint validate_filter_value (value : json) : outcome unit :=
  match value with
  | JObject entries =>
      (fix go (entries : list (string * json)) : outcome unit :=
         match entries with
         | [] => Ok tt
         | (key, inner) :: entries =>
             _ ← (if logical_key key then
                    match inner with
                    | JArray items =>
                        (fix items_go (items : list json) : outcome unit :=
                           match items with
                           | [] => Ok tt
                           | item :: items => _ ← validate_filter_value item; items_go items
                           end) items
                    | _ => Ok tt
                    end
                  else _ ← validate_field_name key; validate_operators inner);
             go entries
         end) entries
  | _ => Ok tt
  end.

Definition parse_filter (raw : option string) : outcome (option json) :=
  match raw with
  | None => Ok None
  | Some raw =>
      if config.(max_filter_bytes) <? Z.of_nat (String.length raw) then
        validation_error ("Filter parameter exceeds maximum size (" ++ pretty (Z.of_nat (String.length raw)) ++
          " bytes). Maximum allowed: " ++ pretty config.(max_filter_bytes) ++ " bytes.")
      else
        match from_str raw with
        | Err e => validation_error ("Invalid filter JSON: " ++ e)
        | Ok parsed =>
            if MAX_FILTER_DEPTH <? json_depth parsed then
              validation_error ("Filter JSON exceeds maximum nesting depth (" ++ pretty MAX_FILTER_DEPTH ++ ").")
            else _ ← validate_filter_value parsed; Ok (Some parsed)
        end
  end.

(** *** The WHERE clause *)
(** [entry(field).or_insert_with(..)], then [insert(op, value)] where the entry is an object. *)
Definition insert_op (merged : list (string * json)) (field op : string) (value : json) : list (string * json) :=
  match assoc field merged with
  | Some (JObject ops) => map_insert field (JObject (map_insert op value ops)) merged
  | Some _ => merged
  | None => map_insert field (singleton op value) merged
  end.

(** One entry of the JSON filter. *)
Definition merge_entry (merged : list (string * json)) (kv : string * json) : list (string * json) :=
  let '(key, val) := kv in
  let existing := default (JObject []) (assoc key merged) in
  match existing, val with
  | JObject ops, JObject new_ops =>
      map_insert key (JObject (foldl (fun ops ov => map_insert ov.1 ov.2 ops) ops new_ops)) merged
  | _, _ => map_insert key val merged
  end.

Fixpoint merge_bracket (merged : list (string * json)) (bracket : list (string * string * string)) :
    outcome (list (string * json)) :=
  match bracket with
  | [] => Ok merged
  | (field, op, value) :: bracket =>
      coerced ← coerce_field_value field value; merge_bracket (insert_op merged field op coerced) bracket
  end.

Definition merge_where (simple : list (string * json)) (bracket : list (string * string * string)) (filter : option json) :
    outcome (option json) :=
  match simple, bracket, filter with
  | [], [], None => Ok None
  | _, _, _ =>
      let merged := foldl (fun m fv => insert_op m fv.1 "eq" fv.2) [] simple in
      merged ← merge_bracket merged bracket;
      let merged := match filter with Some (JObject entries) => foldl merge_entry merged entries | _ => merged end in
      Ok match merged with [] => None | _ => Some (JObject merged) end
  end.

Definition merge_where_with_logical (simple : list (string * json)) (bracket : list (string * string * string))
    (filter : option json) (logical : list json) : outcome (option json) :=
  regular ← merge_where simple bracket filter;
  Ok match logical, regular with
     | [], _ => regular
     | _, Some regular_where => Some (singleton "_and" (JArray (regular_where :: logical)))
     | [one], None => Some one
     | _, None => Some (singleton "_and" (JArray logical))
     end.

(** *** Pagination *)
Definition parse_offset_pagination (limit_raw offset_raw : option string) : outcome PaginationParams :=
  limit ← match limit_raw with
          | Some s =>
              match parse_u64 s with
              | Some v => Ok (Z.min v config.(max_page_size))
              | None => validation_error ("Invalid `limit` value: '" ++ s ++ "'. Expected a positive integer.")
              end
          | None => Ok config.(default_page_size)
          end;
  offset ← match offset_raw with
           | Some s =>
               match parse_u64 s with
               | Some v => Ok v
               | None => validation_error ("Invalid `offset` value: '" ++ s ++ "'. Expected a non-negative integer.")
               end
           | None => Ok 0
           end;
  Ok (Offset limit offset).

Definition parse_cursor_pagination (first_raw after_raw last_raw before_raw : option string) : outcome PaginationParams :=
  first ← match first_raw, after_raw, last_raw, before_raw with
          | Some s, _, _, _ =>
              match parse_u64 s with
              | Some v => Ok (Some (Z.min v config.(max_page_size)))
              | None => validation_error ("Invalid `first` value: '" ++ s ++ "'. Expected a positive integer.")
              end
          | None, None, None, None => Ok (Some config.(default_page_size))
          | None, _, _, _ => Ok None
          end;
  last ← match last_raw with
         | Some s =>
             match parse_u64 s with
             | Some v => Ok (Some v)
             | None => validation_error ("Invalid `last` value: '" ++ s ++ "'. Expected a positive integer.")
             end
         | None => Ok None
         end;
  Ok (Cursor first after_raw last before_raw).

(** *** Embedding filters *)
Definition embed (filters : list (string * json)) (rel_name field_name op value : string) : list (string * json) :=
  match default (JObject []) (assoc rel_name filters) with
  | JObject obj => map_insert rel_name (JObject (map_insert field_name (singleton op (JString value)) obj)) filters
  | _ => filters
  end.
Definition embedding_filter (filters : list (string * json)) (kv : string * string) : list (string * json) :=
  let '(key, value) := kv in
  match (match parse_bracket_key key with
         | Some (full_field, op) => match split_once "." full_field with Some (rel, f) => Some (rel, f, op) | None => None end
         | None => None
         end) with
  | Some (rel, f, op) => embed filters rel f op value
  | None =>
      match split_once "." key with
      | Some (rel, f) => if member key RESERVED_PARAMS then filters else embed filters rel f "eq" value
      | None => filters
      end
  end.
Definition extract_embedding_filters (query_pairs : list (string * string)) : list (string * json) :=
  foldl embedding_filter [] query_pairs.

(** *** Classification of the query string *)
Record Classified : Type := mkClassified {
  simple_filters : list (string * json);
  bracket_filters : list (string * string * string);
  named : string -> option string;
  logical_groups : list (string * string)
}.
Definition nothing : Classified := mkClassified [] [] (fun _ => None) [].
Definition set_named (c : Classified) (key value : string) : Classified :=
  mkClassified c.(simple_filters) c.(bracket_filters) (fun k => if k =s key then Some value else c.(named) k) c.(logical_groups).

Definition classify_one (c : Classified) (kv : string * string) : outcome Classified :=
  let '(key, value) := kv in
  if has_char "." key && negb (member key RESERVED_PARAMS) then Ok c
  else
    match parse_bracket_key key with
    | Some (field, op) =>
        if has_char "." field then Ok c
        else
          _ ← validate_bracket_operator op;
          _ ← validate_field_name field;
          Ok (mkClassified c.(simple_filters) (c.(bracket_filters) ++ [(field, op, value)]) c.(named) c.(logical_groups))
    | None =>
        if member key ["or"; "and"; "not"] then
          Ok (mkClassified c.(simple_filters) c.(bracket_filters) c.(named) (c.(logical_groups) ++ [(key, value)]))
        else if member key RESERVED_PARAMS then Ok (set_named c key value)
        else if query_def.(returns_list) && is_valid_field key then
          coerced ← coerce_field_value key value;
          Ok (mkClassified (c.(simple_filters) ++ [(key, coerced)]) c.(bracket_filters) c.(named) c.(logical_groups))
        else if negb query_def.(returns_list) then
          validation_error ("Unknown query parameter '" ++ key ++
            "' for single-resource endpoint. Available parameters: select")
        else unknown_param_error key
    end.
Fixpoint classify (c : Classified) (query_pairs : list (string * string)) : outcome Classified :=
  match query_pairs with [] => Ok c | kv :: rest => c ← classify_one c kv; classify c rest end.

Definition pagination_guard (n : string -> option string) : outcome unit :=
  if query_def.(returns_list) then
    if query_def.(relay) && (is_some (n "limit") || is_some (n "offset")) then
      validation_error "This endpoint uses cursor-based pagination. Use `first`/`after`/`last`/`before` instead of `limit`/`offset`."
    else if negb query_def.(relay) &&
        (is_some (n "first") || is_some (n "after") || is_some (n "last") || is_some (n "before")) then
      validation_error "This endpoint uses offset-based pagination. Use `limit`/`offset` instead of `first`/`after`/`last`/`before`."
    else Ok tt
  else Ok tt.

Definition parse_search (raw : option string) : outcome (option string) :=
  match raw with
  | None => Ok None
  | Some raw =>
      if negb query_def.(returns_list) then validation_error "Full-text search not available on single-resource endpoints."
      else
        match type_def with
        | Some td =>
            match searchable_fields td with
            | [] => validation_error ("Full-text search not available on '" ++ td.(type_name) ++
                "'. No searchable fields configured.")
            | _ => Ok (Some raw)
            end
        | None => Ok (Some raw)
        end
  end.

Definition count_pagination (p : PaginationParams) : Z :=
  match p with
  | Offset _ _ => 2
  | Cursor first after last before => b2z (is_some first) + b2z (is_some after) + b2z (is_some last) + b2z (is_some before)
  | NoPagination => 0
  end.
Definition total_count (path : list (string * json)) (where_clause order_by : option json) (p : PaginationParams)
    (sel : RestFieldSpec) (embedded : list SelectEntry) (counts : list string) : Z :=
  Z.of_nat (length path) + match where_clause with Some w => count_where_fields w | None => 0 end +
  b2z (is_some order_by) + count_pagination p + match sel with All => 0 | Fields f => Z.of_nat (length f) end +
  Z.of_nat (length embedded) + Z.of_nat (length counts).

Definition extract (path_pairs query_pairs : list (string * string)) : outcome ExtractedParams :=
  path ← extract_path_params path_pairs;
  c ← classify nothing query_pairs;
  let n := c.(named) in
  _ ← pagination_guard n;
  '(field_selection, embedded, counts) ← parse_select_with_embeddings (n "select");
  order_by ← parse_sort (n "sort");
  search_query ← parse_search (n "search");
  parsed_logical ← parse_logical_groups parse_f64 c.(logical_groups);
  filter_where ← parse_filter (n "filter");
  where_clause ← merge_where_with_logical c.(simple_filters) c.(bracket_filters) filter_where parsed_logical;
  pagination ← (if negb query_def.(returns_list) then Ok NoPagination
                else if query_def.(relay) then parse_cursor_pagination (n "first") (n "after") (n "last") (n "before")
                else parse_offset_pagination (n "limit") (n "offset"));
  let total := total_count path where_clause order_by pagination field_selection embedded counts in
  if MAX_VARIABLES_COUNT <? total then
    validation_error ("Too many parameters (" ++ pretty total ++ "). Maximum allowed: " ++ pretty MAX_VARIABLES_COUNT ++ ".")
  else
    Ok (mkParams path where_clause order_by pagination field_selection search_query embedded
      (extract_embedding_filters query_pairs) counts).
End Extractor.
End Extractor.
