(* ===== verification/RestResource.v ===== *)
(** * REST resources and routes

    [fraiseql-server/src/routes/rest/resource.rs]: the route table derived from
    the compiled schema, one resource per return type; and its use by
    [RestRouteTable::resolve] ([rest/handler.rs]).  Which characters outside
    ASCII are upper case ([char::is_uppercase]) and how [Debug] quotes a string
    are arguments.  What a step adds to the diagnostics is part of its result. *)

From Stdlib Require Import Ascii.
From S2P Require Import Prelude Json WhereClause Matcher Chars SecurityContext CompiledSchema.
#[local] Open Scope Z_scope.

Inductive HttpMethod : Type := Get | Post | Put | Patch | DeleteMethod.
#[export] Instance http_method_eq : EqDecision HttpMethod.
Proof. solve_decision. Defined.
Definition method_str (m : HttpMethod) : string :=
  match m with Get => "GET" | Post => "POST" | Put => "PUT" | Patch => "PATCH" | DeleteMethod => "DELETE" end.
Definition method_of (s : string) : option HttpMethod :=
  find (fun m => method_str m =s s) [Get; Post; Put; Patch; DeleteMethod].
#[export] Program Instance http_method_countable : Countable HttpMethod :=
  inj_countable method_str method_of _.
Next Obligation. by intros []. Qed.

Inductive UpdateCoverage : Type := Full | Partial.
Inductive RouteSource : Type := Query (name : string) | Mutation (name : string).
Definition source_name (s : RouteSource) : string := match s with Query name | Mutation name => name end.

Record RestRoute : Type := mkRoute {
  method : HttpMethod;
  path : string;
  source : RouteSource;
  update_coverage : option UpdateCoverage;
  success_status : Z
}.
Record RestResource : Type := mkResource {
  resource_name : string;
  resource_type : string;
  id_arg : option string;
  routes : list RestRoute
}.
Inductive DiagnosticLevel : Type := Info | Warning | ErrorLevel.
Record Diagnostic : Type := mkDiagnostic { level : DiagnosticLevel; message : string }.
Record RestRouteTable : Type := mkTable {
  base_path : string;
  resources : list RestResource;
  diagnostics : list Diagnostic
}.
Definition info (m : string) : Diagnostic := mkDiagnostic Info m.
Definition warning (m : string) : Diagnostic := mkDiagnostic Warning m.

(** ** What is exposed *)
Definition ends_with_str (suffix s : string) : bool := is_some (strip_suffix suffix s).
Definition should_skip_query (q : QueryDefinition) : bool :=
  ends_with_str "_aggregate" q.(query_name) || ends_with_str "_window" q.(query_name).
Definition is_filtered_out (name : string) (config : RestConfig) : bool :=
  (match config.(include) with [] => false | l => negb (existsb (String.eqb name) l) end) ||
  existsb (String.eqb name) config.(exclude).

(** ** Names *)
Definition strip_cqrs_prefix (name : string) : string :=
  match strip_prefix "v_" name, strip_prefix "tv_" name, strip_prefix "tb_" name with
  | Some s, _, _ | None, Some s, _ | None, None, Some s => s
  | None, None, None => name
  end.
Definition simple_pluralize (word : string) : string :=
  let e s := ends_with_str s word in
  if e "ics" || e "ies" then word
  else if e "ss" || e "x" || e "ch" || e "sh" then word ++ "es"
  else if e "s" then word ++ "es"
  else if e "y" && negb (e "ey") && negb (e "ay") && negb (e "oy") then
    String.substring 0 (String.length word - 1) word ++ "ies"
  else word ++ "s".

Definition is_id_like_type (t : FieldType) : bool :=
  match t with FT.Id | FT.Uuid | FT.Int | FT.TString => true | _ => false end.
Definition is_id_like_arg (a : ArgumentDefinition) : bool :=
  ((a.(arg_name) =s "id") || starts_with "pk_" a.(arg_name)) && is_id_like_type a.(arg_type).

Fixpoint to_uppercase (s : string) : string :=
  match s with EmptyString => EmptyString | String c s => String (Casing.to_upper c) (to_uppercase s) end.
Definition parse_http_method (s : string) : option HttpMethod := method_of (to_uppercase s).
(** [rest_method.as_deref().and_then(parse_http_method).unwrap_or(..)]. *)
Definition declared_method (m : option string) (fallback : HttpMethod) : HttpMethod :=
  default fallback (m ≫= parse_http_method).

(** ** Updates *)
Definition classify_update_coverage (m : MutationDefinition) (writable_names : list string) : UpdateCoverage :=
  let args := map arg_name (List.filter (fun a => negb (is_id_like_arg a)) m.(mutation_arguments)) in
  if forallb (fun wf => existsb (String.eqb wf) args) writable_names then Full else Partial.
Definition debug_coverage (c : UpdateCoverage) : string := match c with Full => "Full" | Partial => "Partial" end.

(** ** Checks of the naming convention *)
Definition validate_cqrs_query (sql_source query_name : string) : list Diagnostic :=
  if starts_with "tb_" sql_source then
    [warning ("Query '" ++ query_name ++ "' reads from write table '" ++ sql_source ++
       "' — expected `v_` or `tv_` prefix. This may indicate a CQRS violation.")]
  else [].
Definition operation_table (op : MutationOperation) : option string :=
  match op with Insert t | Update t | Delete t => Some t | Custom => None end.
Definition validate_cqrs_mutation (op : MutationOperation) (mutation_name : string) : list Diagnostic :=
  match operation_table op with
  | Some table =>
      if starts_with "v_" table || starts_with "tv_" table then
        [warning ("Mutation '" ++ mutation_name ++ "' writes to view '" ++ table ++ "' — expected `tb_` prefix")]
      else []
  | None => []
  end.

(** ** Deriving a resource *)
Section Derive.
Context (unicode_uppercase : string -> bool) (debug_str : string -> string).

Definition is_uppercase (ch : string) : bool :=
  match ch with String c EmptyString => ascii_upper c | _ => unicode_uppercase ch end.
(** A separator before every upper case character but the first. *)
Fixpoint separate (sep : string) (first : bool) (l : list string) : string :=
  match l with
  | [] => ""
  | ch :: l => (if is_uppercase ch && negb first then sep else "") ++ to_lowercase ch ++ separate sep false l
  end%string.
Definition type_name_to_snake (name : string) : string := separate "_" true (chars name).
Definition camel_to_kebab (s : string) : string :=
  match separate "-" true (chars s) with String "-" r => r | r => r end.

(** [&s[..pos]] and [&s[pos + n..]], where the lower case text has the pattern. *)
Definition derive_action_name (mutation_name type_name : string) : string :=
  camel_to_kebab
    match split_once_str (to_lowercase type_name) (to_lowercase mutation_name) with
    | Some (before, _) =>
        let pos := String.length before in
        let after := (pos + String.length type_name)%nat in
        String.substring 0 pos mutation_name ++ String.substring after (String.length mutation_name - after) mutation_name
    | None => mutation_name
    end.

(** [derive(Debug)]. *)
Fixpoint debug_type (t : FieldType) : string :=
  match t with
  | FT.TString => "String" | FT.Int => "Int" | FT.Float => "Float" | FT.Boolean => "Boolean" | FT.Id => "Id"
  | FT.DateTime => "DateTime" | FT.Date => "Date" | FT.Time => "Time" | FT.TJson => "Json" | FT.Uuid => "Uuid"
  | FT.Decimal => "Decimal" | FT.Vector => "Vector"
  | FT.Scalar n => "Scalar(" ++ debug_str n ++ ")"
  | FT.List t => "List(" ++ debug_type t ++ ")"
  | FT.Object n => "Object(" ++ debug_str n ++ ")"
  | FT.Enum n => "Enum(" ++ debug_str n ++ ")"
  | FT.Input n => "Input(" ++ debug_str n ++ ")"
  | FT.Interface n => "Interface(" ++ debug_str n ++ ")"
  | FT.Union n => "Union(" ++ debug_str n ++ ")"
  end.
Definition validate_field_types (td : TypeDefinition) : list Diagnostic :=
  flat_map (fun f =>
    let name := f.(field_name) in
    if starts_with "pk_" name || starts_with "fk_" name then
      match f.(field_type) with
      | FT.Int | FT.Id => []
      | t => [warning ("pk_/fk_ field '" ++ name ++ "' is " ++ debug_type t ++ ", expected Int or BigInt")]
      end
    else if name =s "id" then
      match f.(field_type) with
      | FT.Int => [warning ("id field on '" ++ td.(type_name) ++ "' is Int, expected UUID or ID")]
      | _ => []
      end
    else []) td.(type_fields).

Definition derive_resource_name (type_name : string) (queries : list QueryDefinition) : string * list Diagnostic :=
  let from_type :=
    let name := simple_pluralize (type_name_to_snake type_name) in
    (name, [info ("No list query for type '" ++ type_name ++ "'; derived resource name '" ++ name ++ "' from type name")]) in
  match find returns_list queries with
  | Some q => (q.(query_name), [])
  | None =>
      match head queries ≫= sql_source with
      | Some sql => match strip_cqrs_prefix sql with "" => from_type | stripped => (simple_pluralize stripped, []) end
      | None => from_type
      end
  end%string.

Definition detect_id_arg (td : TypeDefinition) (mutations : list MutationDefinition) (queries : list QueryDefinition) :
    option string * list Diagnostic :=
  let all_args := flat_map mutation_arguments mutations ++
    flat_map arguments (List.filter (fun q => negb q.(returns_list)) queries) in
  let fallback name := (Some name,
    [info ("No `id` field found on '" ++ td.(type_name) ++ "'; using `" ++ name ++ "` as path parameter")]) in
  match find (fun a => (a.(arg_name) =s "id") && is_id_like_type a.(arg_type)) all_args with
  | Some a => (Some a.(arg_name), [])
  | None =>
      match find (fun a => starts_with "pk_" a.(arg_name) && is_id_like_type a.(arg_type)) all_args with
      | Some a => fallback a.(arg_name)
      | None =>
          match find_field td "id", find (fun f => starts_with "pk_" f.(field_name)) td.(type_fields) with
          | Some _, _ => (Some "id"%string, [])
          | None, Some pk => fallback pk.(field_name)
          | None, None => (None, [])
          end
      end
  end.

(** *** Routes *)
Definition collection (resource_name : string) : string := "/" ++ resource_name.
Definition item (resource_name id : string) : string := "/" ++ resource_name ++ "/{" ++ id ++ "}".

Definition query_route (resource_name : string) (id_arg : option string) (q : QueryDefinition) : list RestRoute :=
  let route m p := mkRoute m p (Query q.(query_name)) None 200 in
  match q.(rest_path) with
  | Some p => [route (declared_method q.(rest_method) Get) p]
  | None =>
      if q.(returns_list) then [route Get (collection resource_name)]
      else match id_arg with Some id => [route Get (item resource_name id)] | None => [] end
  end.

Definition derive_mutation_routes (type_name resource_name : string) (id_arg : option string) (writable_names : list string)
    (config : RestConfig) (m : MutationDefinition) : list RestRoute * list Diagnostic :=
  let route meth p coverage status := mkRoute meth p (Mutation m.(mutation_name)) coverage status in
  let action := derive_action_name m.(mutation_name) type_name in
  match m.(operation) with
  | Insert _ => ([route Post (collection resource_name) None 201], [])
  | Update _ =>
      let coverage := classify_update_coverage m writable_names in
      (match coverage, id_arg with
       | _, None => []
       | Full, Some id =>
           [route Put (item resource_name id) (Some Full) 200; route Patch (item resource_name id) (Some Full) 200]
       | Partial, Some id => [route Patch (item resource_name id ++ "/" ++ action) (Some Partial) 200]
       end,
       [info ("Mutation '" ++ m.(mutation_name) ++ "' classified as " ++ debug_coverage coverage ++
          " coverage update for type '" ++ type_name ++ "'")])
  | Delete _ =>
      let status := match config.(delete_response) with Entity => 200 | NoContent => 204 end in
      (match id_arg with Some id => [route DeleteMethod (item resource_name id) None status] | None => [] end, [])
  | Custom =>
      ([route Post (match id_arg with Some id => item resource_name id | None => collection resource_name end ++ "/" ++ action)
          None 200], [])
  end%string.
Definition mutation_route (type_name resource_name : string) (id_arg : option string) (writable_names : list string)
    (config : RestConfig) (m : MutationDefinition) : list RestRoute * list Diagnostic :=
  match m.(mutation_rest_path) with
  | Some p => ([mkRoute (declared_method m.(mutation_rest_method) Post) p (Mutation m.(mutation_name)) None 200], [])
  | None => derive_mutation_routes type_name resource_name id_arg writable_names config m
  end.

Definition derive_resource (type_name : string) (td : TypeDefinition) (queries : list QueryDefinition)
    (mutations : list MutationDefinition) (config : RestConfig) : option RestResource * list Diagnostic :=
  let '(name, d_name) := derive_resource_name type_name queries in
  let d_queries := flat_map (fun q =>
    match q.(sql_source) with Some sql => validate_cqrs_query sql q.(query_name) | None => [] end) queries in
  let d_mutations := flat_map (fun m => validate_cqrs_mutation m.(operation) m.(mutation_name)) mutations in
  let '(id_arg, d_id) := detect_id_arg td mutations queries in
  let derived := map (mutation_route type_name name id_arg (map field_name (writable_fields td)) config) mutations in
  let routes := flat_map (query_route name id_arg) queries ++ flat_map fst derived in
  (match routes with [] => None | _ => Some (mkResource name type_name id_arg routes) end,
   d_name ++ d_queries ++ d_mutations ++ validate_field_types td ++ d_id ++ flat_map snd derived).

(** *** Conflicts *)
Definition route_key (r : RestRoute) : HttpMethod * string := (r.(method), r.(path)).
Definition conflict_message (r : RestRoute) (prev_op : string) : string :=
  "Route conflict: " ++ method_str r.(method) ++ " " ++ r.(path) ++ " is claimed by both '" ++ prev_op ++ "' and '" ++
  source_name r.(source) ++ "'. Use `rest_path` override to resolve.".
Fixpoint scan_conflicts (seen : gmap (HttpMethod * string) string) (l : list RestRoute) : result string unit :=
  match l with
  | [] => Ok tt
  | r :: l =>
      match seen !! route_key r with
      | Some prev_op => Err (conflict_message r prev_op)
      | None => scan_conflicts (<[route_key r := source_name r.(source)]> seen) l
      end
  end.
(** The diagnostic of a conflict is lost with the table. *)
Definition detect_conflicts (l : list RestResource) : result string unit := scan_conflicts ∅ (flat_map routes l).

(** ** The table *)
Context {Sub : Type} (compiled : @Schema.CompiledSchema QueryDefinition MutationDefinition Sub).
Context (schema : CompiledSchema.Schema) (rest_config : option RestConfig).

Definition exposed_queries (config : RestConfig) : list QueryDefinition :=
  List.filter (fun q => negb (should_skip_query q) && negb (is_filtered_out q.(query_name) config) &&
    is_some (find_type schema q.(return_type))) compiled.(Schema.queries).
Definition exposed_mutations (config : RestConfig) : list MutationDefinition :=
  List.filter (fun m => negb (is_filtered_out m.(mutation_name) config) &&
    is_some (find_type schema m.(mutation_return_type))) compiled.(Schema.mutations).
Definition all_types (config : RestConfig) : list string :=
  str_sort (remove_dups (map return_type (exposed_queries config) ++ map mutation_return_type (exposed_mutations config))).

Definition resource_of (config : RestConfig) (type_name : string) : option RestResource * list Diagnostic :=
  match find_type schema type_name with
  | Some td =>
      derive_resource type_name td (List.filter (fun q => q.(return_type) =s type_name) (exposed_queries config))
        (List.filter (fun m => m.(mutation_return_type) =s type_name) (exposed_mutations config)) config
  | None => (None, [])
  end.
Definition from_compiled_schema : result string RestRouteTable :=
  let config := default default_rest_config rest_config in
  let derived := map (resource_of config) (all_types config) in
  let resources := omap fst derived in
  _ ← detect_conflicts resources;
  Ok (mkTable config.(rest_base_path) resources (flat_map snd derived)).
End Derive.

(** ** [RestRouteTable]'s text *)
Definition newline : string := String (ascii_of_nat 10) EmptyString.
Definition table_text (t : RestRouteTable) : string :=
  "REST Route Table (base: " ++ t.(base_path) ++ ")" ++ newline ++
  concat_str (map (fun r =>
    "  Resource: " ++ r.(resource_name) ++ " (type: " ++ r.(resource_type) ++ ")" ++ newline ++
    concat_str (map (fun route => "    " ++ method_str route.(method) ++ " " ++ t.(base_path) ++ route.(path) ++ newline)
      r.(routes)))%string t.(resources)).

(** ** Resolving a request *)
Fixpoint trim_start_slash (s : string) : string := match s with String "/" s => trim_start_slash s | s => s end.
Definition segments (p : string) : list string :=
  List.filter (fun s => negb (s =s "")) (split "/" (trim_start_slash p)).
(** The name of a [{param}] segment. *)
Definition param_name (pattern : string) : option string :=
  if starts_with "{" pattern && ends_with "}" pattern
  then Some (String.substring 1 (String.length pattern - 2) pattern) else None.
Fixpoint match_segments (pattern actual : list string) : option (list (string * string)) :=
  match pattern, actual with
  | p :: pattern, a :: actual =>
      match param_name p with
      | Some name => cons (name, a) <$> match_segments pattern actual
      | None => if p =s a then match_segments pattern actual else None
      end
  | _, _ => Some []
  end.
Definition match_route_path (route_path : string) (actual : list string) : option (list (string * string)) :=
  let pattern := segments route_path in
  if Nat.eqb (length pattern) (length actual) then match_segments pattern actual else None.

Record ResolvedRoute : Type := mkResolvedRoute {
  resolved_resource : RestResource;
  resolved_route : RestRoute;
  resolved_params : list (string * string)
}.
Fixpoint resolve_routes (segs : list string) (m : HttpMethod) (res : RestResource) (l : list RestRoute) : option ResolvedRoute :=
  match l with
  | [] => None
  | route :: l =>
      if bool_decide (route.(method) = m) then
        match match_route_path route.(path) segs with
        | Some params => Some (mkResolvedRoute res route params)
        | None => resolve_routes segs m res l
        end
      else resolve_routes segs m res l
  end.
Fixpoint resolve_resources (segs : list string) (m : HttpMethod) (l : list RestResource) : option ResolvedRoute :=
  match l with
  | [] => None
  | res :: l =>
      match resolve_routes segs m res res.(routes) with Some r => Some r | None => resolve_resources segs m l end
  end.
Definition resolve (t : RestRouteTable) (relative_path : string) (m : HttpMethod) : option ResolvedRoute :=
  resolve_resources (segments relative_path) m t.(resources).

(** * The route table: what it serves and what a request resolves to *)

(** ** Conflicts *)
Lemma scan_conflicts_ok seen l : scan_conflicts seen l = Ok tt <->
  NoDup (map route_key l) /\ forall k, k ∈ map route_key l -> seen !! k = None.
Proof.
  revert seen. induction l as [|r l IH]; intros seen; cbn [scan_conflicts map].
  - split; [|done]. intros _. split; [constructor | set_solver].
  - destruct (seen !! route_key r) as [op|] eqn:E.
    + split; [done|]. intros [_ H]. rewrite H in E by set_solver. done.
    + rewrite IH, list.NoDup_cons. split.
      * intros [Hnd H]. assert (Hr : route_key r ∉ map route_key l).
        { intros Hin%H. by rewrite lookup_insert_eq in Hin. }
        split; [done|]. intros k [->|Hk]%elem_of_cons; [done|]. specialize (H k Hk).
        rewrite lookup_insert_ne in H; [done|]. intros <-. done.
      * intros [[Hr Hnd] H]. split; [done|]. intros k Hk. rewrite lookup_insert_ne; [apply H; set_solver|]. intros <-. done.
Qed.

(** ** Membership *)
Lemma find_type_name s t td : find_type s t = Some td -> td.(type_name) = t.
Proof. unfold find_type. intros [_ H]%find_some. by apply streqb_true in H. Qed.

Section Table.
Context (unicode_uppercase : string -> bool) (debug_str : string -> string).
Context {Sub : Type} (compiled : @Schema.CompiledSchema QueryDefinition MutationDefinition Sub).
Context (schema : CompiledSchema.Schema) (rest_config : option RestConfig).
Notation table := (from_compiled_schema unicode_uppercase debug_str compiled schema rest_config).
Notation config := (default default_rest_config rest_config).
Notation resource_of := (resource_of unicode_uppercase debug_str compiled schema config).
Notation exposed_queries := (exposed_queries compiled schema config).
Notation exposed_mutations := (exposed_mutations compiled schema config).

Lemma table_inv t : table = Ok t ->
  t.(resources) = omap fst (map resource_of (all_types compiled schema config)) /\
  NoDup (map route_key (flat_map routes t.(resources))).
Proof.
  unfold from_compiled_schema. intros ([] & H & [= <-])%bind_Ok. cbn [resources]. split; [done|].
  by apply scan_conflicts_ok in H as [? _].
Qed.

Lemma in_resources t res : table = Ok t -> res ∈ t.(resources) <->
  exists ty, ty ∈ all_types compiled schema config /\ (resource_of ty).1 = Some res.
Proof.
  intros [-> _]%table_inv. rewrite list_elem_of_omap. split.
  - intros (p & Hp & Hr). apply list_elem_of_fmap in Hp as (ty & -> & Hty). eauto.
  - intros (ty & Hty & Hr). exists (resource_of ty). split; [|done]. apply list_elem_of_fmap. eauto.
Qed.

(** The parts of a resource that is derived. *)
Lemma resource_inv ty res : (resource_of ty).1 = Some res -> exists td,
  find_type schema ty = Some td /\ res.(resource_type) = ty /\
  res.(resource_name) = (derive_resource_name unicode_uppercase ty (List.filter (fun q => q.(return_type) =s ty) exposed_queries)).1 /\
  res.(routes) =
    flat_map (query_route res.(resource_name) res.(id_arg)) (List.filter (fun q => q.(return_type) =s ty) exposed_queries) ++
    flat_map (fun m => (mutation_route unicode_uppercase ty res.(resource_name) res.(id_arg)
      (map field_name (writable_fields td)) config m).1)
      (List.filter (fun m => m.(mutation_return_type) =s ty) exposed_mutations).
Proof.
  unfold RestResource.resource_of. destruct (find_type schema ty) as [td|]; [|done]. unfold derive_resource.
  destruct (derive_resource_name _ _ _) as [name d]. destruct (detect_id_arg _ _ _) as [id d'].
  cbn [fst]. destruct (flat_map _ _ ++ flat_map _ _) as [|x l] eqn:E; [done|]. intros [= <-]. exists td.
  cbn [resource_type resource_name id_arg routes]. do 3 (split; [done|]). rewrite <- E. f_equal.
  by rewrite !flat_map_concat_map, map_map.
Qed.

Lemma query_route_source name id q r : r ∈ query_route name id q -> r.(source) = Query q.(query_name).
Proof.
  unfold query_route. destruct q.(rest_path); [set_solver|]. destruct q.(returns_list); [set_solver|]. destruct id; set_solver.
Qed.
Lemma mutation_route_source ty name id w c m r : r ∈ (mutation_route unicode_uppercase ty name id w c m).1 ->
  r.(source) = Mutation m.(mutation_name).
Proof.
  unfold mutation_route. destruct m.(mutation_rest_path); [set_solver|]. unfold derive_mutation_routes.
  destruct m.(operation); cbn [fst]; [set_solver| | |set_solver].
  - destruct (classify_update_coverage _ _), id; set_solver.
  - destruct id; set_solver.
Qed.

(** The operation a route may be backed by. *)
Definition backs (ty : string) (s : RouteSource) : Prop :=
  match s with
  | Query n => exists q, q ∈ compiled.(Schema.queries) /\ q.(query_name) = n /\ q.(return_type) = ty /\
      should_skip_query q = false
  | Mutation n => exists m, m ∈ compiled.(Schema.mutations) /\ m.(mutation_name) = n /\ m.(mutation_return_type) = ty
  end.

Lemma route_backed ty res r : (resource_of ty).1 = Some res -> r ∈ res.(routes) ->
  backs ty r.(source) /\ is_filtered_out (source_name r.(source)) config = false.
Proof.
  intros (td & _ & _ & _ & ->)%resource_inv. rewrite elem_of_app.
  intros [H|H]; apply list_elem_of_In, in_flat_map in H as (op & Hop & Hr%list_elem_of_In);
    apply filter_In in Hop as [Hop Hty]; apply filter_In in Hop as [Hop Hf]; to_prop.
  - apply query_route_source in Hr as ->. cbn [source_name backs]. split; [|done].
    exists op. apply list_elem_of_In in Hop. done.
  - apply mutation_route_source in Hr as ->. cbn [source_name backs]. split; [|done].
    exists op. apply list_elem_of_In in Hop. done.
Qed.

(** C15. The table is refused exactly when two routes have one method and path
    (whether or not one of them was given by a [rest_path], which the comment of
    the source excepts: [override_conflicts]), and
    what it serves are operations of the schema: each route of a resource is
    backed by a query or mutation that returns the resource's type, that the
    configuration does not filter out and that is no aggregate. *)
Theorem route_table_sound :
  let derived := omap fst (map resource_of (all_types compiled schema config)) in
  (is_ok table = true <-> NoDup (map route_key (flat_map routes derived))) /\
  forall t res r, table = Ok t -> res ∈ t.(resources) -> r ∈ res.(routes) ->
    backs res.(resource_type) r.(source) /\ is_filtered_out (source_name r.(source)) config = false.
Proof.
  cbn zeta. split.
  - unfold from_compiled_schema, detect_conflicts. destruct (scan_conflicts ∅ _) as [[]|e] eqn:E; cbn [mbind result_bind is_ok].
    + split; [|done]. intros _. by apply scan_conflicts_ok in E as [? _].
    + split; [done|]. intros H. rewrite (proj2 (scan_conflicts_ok ∅ _)) in E by (split; [exact H | done]). done.
  - intros t res r Ht (ty & _ & Hres)%(in_resources _ _ Ht) Hr.
    assert (Hty := Hres). apply resource_inv in Hty as (td & _ & -> & _). by eapply route_backed.
Qed.

(** Every exposed operation's type is in the table's order. *)
Lemma exposed_type q : q ∈ exposed_queries -> q.(return_type) ∈ all_types compiled schema config.
Proof.
  intros Hq. unfold all_types. rewrite str_sort_perm, elem_of_remove_dups, elem_of_app. left. apply list_elem_of_fmap. eauto.
Qed.

(** A list query without a path of its own is served at its name, or the name
    of the first list query of its type. *)
Theorem list_query_served t q : table = Ok t -> q ∈ exposed_queries -> q.(returns_list) = true -> q.(rest_path) = None ->
  exists res, res ∈ t.(resources) /\ res.(resource_type) = q.(return_type) /\
    mkRoute Get (collection res.(resource_name)) (Query q.(query_name)) None 200 ∈ res.(routes) /\
    exists q', q' ∈ exposed_queries /\ q'.(return_type) = q.(return_type) /\ q'.(returns_list) = true /\
      res.(resource_name) = q'.(query_name).
Proof.
  intros Ht Hq Hl Hp. set (ty := q.(return_type)).
  assert (Hin : In q (List.filter (fun q => q.(return_type) =s ty) exposed_queries)).
  { apply filter_In. split; [by apply list_elem_of_In | apply streqb_refl]. }
  assert (Hf : exists q', find returns_list (List.filter (fun q => q.(return_type) =s ty) exposed_queries) = Some q').
  { destruct (find _ _) as [q'|] eqn:E; [eauto|]. by rewrite (find_none _ _ E q Hin) in Hl. }
  destruct Hf as [q' Hf].
  assert (Hs : exists res, (resource_of ty).1 = Some res).
  { unfold RestResource.resource_of. apply list_elem_of_In, filter_In in Hq as [_ Hq]. to_prop.
    destruct (find_type schema ty) as [td|] eqn:E; [|by unfold ty in E; rewrite E in *].
    unfold derive_resource. destruct (derive_resource_name _ _ _) as [name d]. destruct (detect_id_arg _ _ _) as [id d'].
    cbn [fst]. destruct (flat_map _ _ ++ flat_map _ _) as [|x l] eqn:Er; [|eauto]. exfalso.
    apply app_eq_nil in Er as [Er _]. assert (Hx : In (mkRoute Get (collection name) (Query q.(query_name)) None 200) []).
    { rewrite <- Er. apply in_flat_map. exists q. split; [done|]. unfold query_route. rewrite Hp, Hl. by left. }
    destruct Hx. }
  destruct Hs as [res Hres]. exists res. split; [apply (in_resources _ _ Ht); exists ty; split; [by apply exposed_type | done]|].
  pose proof Hres as (td & _ & Hty & Hname & Hr)%resource_inv. split; [done|]. split.
  - rewrite Hr. apply elem_of_app. left. apply list_elem_of_In, in_flat_map. exists q. split; [done|].
    unfold query_route. rewrite Hp, Hl. by left.
  - apply find_some in Hf as Hf'. destruct Hf' as [[Hq' Ht']%filter_In Hl']. exists q'. apply list_elem_of_In in Hq'. to_prop.
    do 3 (split; [done|]). rewrite Hname. unfold derive_resource_name. by rewrite Hf.
Qed.
End Table.

(** ** What a path resolves to *)

(** The segments a pattern stands for, given its parameters. *)
Fixpoint fill (pattern : list string) (params : list (string * string)) : list string :=
  match pattern with
  | [] => []
  | p :: pattern =>
      match param_name p, params with
      | Some _, (_, v) :: params => v :: fill pattern params
      | Some _, [] => []
      | None, _ => p :: fill pattern params
      end
  end.
Definition names_of (pattern : list string) : list string := omap param_name pattern.
(** [params] are the pattern's, and give the request. *)
Definition instance_of (route_path : string) (params : list (string * string)) (segs : list string) : Prop :=
  params.*1 = names_of (segments route_path) /\ fill (segments route_path) params = segs.

Lemma match_segments_fill pattern actual params : length pattern = length actual ->
  match_segments pattern actual = Some params <-> params.*1 = names_of pattern /\ fill pattern params = actual.
Proof.
  revert actual params. induction pattern as [|p pattern IH]; intros [|a actual] params Hl; cbn in Hl; try done; cbn [match_segments fill].
  - split; [by intros [= <-] | by destruct params as [|]; [|intros [? ?]]].
  - unfold names_of. cbn [omap list_omap]. injection Hl as Hl. destruct (param_name p) as [n|] eqn:E.
    + rewrite fmap_Some. split.
      * intros (ps & Hps & ->). apply IH in Hps as [Hn Hf]; [|done]. cbn. rewrite Hn. by split; [|f_equal].
      * destruct params as [|[n' v] ps]; [by intros [? ?]|]. cbn. intros [[= -> Hn] [= -> Hf]]. exists ps.
        split; [by apply IH | done].
    + destruct (p =s a) eqn:Ea; to_prop.
      * subst. rewrite IH by done. unfold names_of. naive_solver.
      * split; [done|]. intros [_ [= -> _]]. done.
Qed.

Lemma fill_length pattern params : params.*1 = names_of pattern -> length (fill pattern params) = length pattern.
Proof.
  revert params. induction pattern as [|p pattern IH]; intros params; cbn; [done|]. unfold names_of in *. cbn.
  destruct (param_name p); [|intros H; cbn; by rewrite IH]. destruct params as [|[k v] params]; [done|]. cbn.
  intros [= _ H]. by rewrite IH.
Qed.

Lemma match_route_path_spec route_path segs params :
  match_route_path route_path segs = Some params <-> instance_of route_path params segs.
Proof.
  unfold match_route_path, instance_of. destruct (Nat.eqb _ _) eqn:E.
  - apply Nat.eqb_eq in E. by apply match_segments_fill.
  - split; [done|]. intros [Hn <-]. rewrite fill_length in E by done. by rewrite Nat.eqb_refl in E.
Qed.

Lemma resolve_routes_spec segs m res l :
  match resolve_routes segs m res l with
  | Some r => r.(resolved_resource) = res /\ r.(resolved_route) ∈ l /\ r.(resolved_route).(method) = m /\
      instance_of r.(resolved_route).(path) r.(resolved_params) segs
  | None => forall route params, route ∈ l -> route.(method) = m -> ~ instance_of route.(path) params segs
  end.
Proof.
  induction l as [|route l IH]; cbn [resolve_routes]; [by intros ? ? ?%elem_of_nil|]. case_bool_decide as Hm.
  - destruct (match_route_path route.(path) segs) as [ps|] eqn:E.
    + cbn. apply match_route_path_spec in E. set_solver.
    + destruct (resolve_routes segs m res l); [set_solver|]. intros r params [->|Hr]%elem_of_cons Hmr; [|by apply IH].
      intros H%match_route_path_spec. congruence.
  - destruct (resolve_routes segs m res l); [set_solver|]. intros r params [->|Hr]%elem_of_cons Hmr; [done | by apply IH].
Qed.

(** A request resolves to a route of the table with its method whose pattern,
    filled with the parameters it is given, is the request's path; and to none
    exactly when the table has no such route. *)
Theorem resolve_inverts t relative_path m :
  match resolve t relative_path m with
  | Some r => r.(resolved_resource) ∈ t.(resources) /\ r.(resolved_route) ∈ r.(resolved_resource).(routes) /\
      r.(resolved_route).(method) = m /\
      instance_of r.(resolved_route).(path) r.(resolved_params) (segments relative_path)
  | None => forall res route params, res ∈ t.(resources) -> route ∈ res.(routes) -> route.(method) = m ->
      ~ instance_of route.(path) params (segments relative_path)
  end.
Proof.
  unfold resolve. induction t.(resources) as [|res l IH]; cbn [resolve_resources]; [by intros ? ? ? ?%elem_of_nil|].
  pose proof (resolve_routes_spec (segments relative_path) m res res.(routes)) as Hs.
  destruct (resolve_routes _ m res res.(routes)) as [r|].
  - destruct Hs as (-> & ? & ? & ?). set_solver.
  - destruct (resolve_resources _ m l) as [r|]; [set_solver|].
    intros res' route params [->|Hin]%elem_of_cons Hr Hm; [by apply Hs | by eapply IH].
Qed.

(** ** Examples *)
Module RouteDemo.
Definition no_upper (_ : string) : bool := false.
Definition quote (s : string) : string := s.
Definition id_field : FieldDefinition := mkField "id" FT.Uuid None None Reject.
Definition name_field : FieldDefinition := mkField "name" FT.TString None None Reject.
Definition user_type : TypeDefinition := mkType "User" "v_user" [id_field; name_field] false [].
Definition zone_type : TypeDefinition := mkType "Zone" "v_zone" [id_field] false [].
Definition id_arg : ArgumentDefinition := mkArg "id" FT.Uuid false None.
Definition name_arg : ArgumentDefinition := mkArg "name" FT.TString false None.
Definition users : QueryDefinition :=
  mkQuery "users" "User" true [] (Some "v_user"%string) auto_all false None Int64 [] [] None ∅ None None None.
Definition user : QueryDefinition :=
  mkQuery "user" "User" false [id_arg] (Some "v_user"%string) auto_none false None Int64 [] [] None ∅ None None None.
(** A query of another type, published below the users. *)
Definition my_zone : QueryDefinition :=
  mkQuery "myZone" "Zone" false [] (Some "v_zone"%string) auto_none false None Int64 [] [] None ∅ (Some "/users/zone"%string) None None.
Definition mutation (name : string) (args : list ArgumentDefinition) (op : MutationOperation) : MutationDefinition :=
  mkMutation name "User" args op (Some "fn"%string) [] [] [] None None None.
Definition mutations : list MutationDefinition :=
  [mutation "createUser" [name_arg] (Insert "tb_user"); mutation "updateUser" [id_arg; name_arg] (Update "tb_user");
   mutation "updateUserEmail" [id_arg] (Update "tb_user"); mutation "deleteUser" [id_arg] (Delete "tb_user");
   mutation "archiveUser" [id_arg] Custom]%string.
Definition compiled (queries : list QueryDefinition) : @Schema.CompiledSchema QueryDefinition MutationDefinition unit :=
  Schema.build_indexes query_name mutation_name (fun _ => ""%string)
    {| Schema.queries := queries; Schema.mutations := mutations; Schema.subscriptions := [];
       Schema.naming_convention := Schema.Preserve; Schema.query_index := ∅; Schema.mutation_index := ∅;
       Schema.subscription_index := ∅ |}.
Definition schema : CompiledSchema.Schema := mkSchema [user_type; zone_type] [] [] None.
Definition table (queries : list QueryDefinition) : result string RestRouteTable :=
  from_compiled_schema no_upper quote (compiled queries) schema None.
Definition all_routes (t : result string RestRouteTable) : list (string * string * string) :=
  match t with
  | Ok t => flat_map (fun r => map (fun x => (method_str x.(method), x.(path), source_name x.(source))) r.(routes)) t.(resources)
  | Err _ => []
  end.

Example users_routes : all_routes (table [users; user]) =
  [("GET", "/users", "users"); ("GET", "/users/{id}", "user"); ("POST", "/users", "createUser");
   ("PUT", "/users/{id}", "updateUser"); ("PATCH", "/users/{id}", "updateUser");
   ("PATCH", "/users/{id}/update-email", "updateUserEmail"); ("DELETE", "/users/{id}", "deleteUser");
   ("POST", "/users/{id}/archive", "archiveUser")]%string.
Proof. vm_compute. reflexivity. Qed.

(** A query whose [rest_path] is the path another query of the resource has of
    itself: the override is what makes the conflict, and the table is refused. *)
Definition all_users : QueryDefinition :=
  mkQuery "allUsers" "User" true [] (Some "v_user"%string) auto_all false None Int64 [] [] None ∅ (Some "/users"%string) None None.
Example override_conflicts :
  all_users.(rest_path) = Some "/users"%string /\ users.(rest_path) = None /\
  is_ok (table [users; user]) = true /\ is_ok (table [users; user; all_users]) = false.
Proof. vm_compute. by repeat split. Qed.

Definition source_for (queries : list QueryDefinition) (p : string) (m : HttpMethod) : option (string * list (string * string)) :=
  match table queries with
  | Ok t => (fun r => (source_name r.(resolved_route).(source), r.(resolved_params))) <$> resolve t p m
  | Err _ => None
  end.

Lemma route_table_sound_witness : exists t, table [users; user] = Ok t /\
  forall res r, res ∈ t.(resources) -> r ∈ res.(routes) -> backs (compiled [users; user]) res.(resource_type) r.(source).
Proof.
  destruct (table [users; user]) as [t|e] eqn:E; [|vm_compute in E; discriminate E]. exists t. split; [done|].
  intros res r Hres Hr. exact (proj1 (proj2 (route_table_sound no_upper quote (compiled [users; user]) schema None) t res r E Hres Hr)).
Defined.

Lemma list_query_served_witness : exists t, table [users; user] = Ok t /\
  exists res, res ∈ t.(resources) /\ res.(resource_type) = "User"%string.
Proof.
  destruct (table [users; user]) as [t|e] eqn:E; [|vm_compute in E; discriminate E]. exists t. split; [done|].
  assert (Hq : users ∈ exposed_queries (compiled [users; user]) schema default_rest_config) by (vm_compute; left).
  destruct (list_query_served no_upper quote (compiled [users; user]) schema None t users E Hq eq_refl eq_refl) as (res & H & Ht & _).
  by exists res.
Defined.

(** A published path under a resource with single items is never reached: the
    route of the first type takes it, with [zone] as an id, and the table is
    built without a complaint. *)
Example static_path_shadowed :
  is_ok (table [users; user; my_zone]) = true /\
  source_for [users; user; my_zone] "/users/zone" Get = Some ("user", [("id", "zone")])%string.
Proof. vm_compute. done. Qed.

(** Words that end in a single s get another ending. *)
Example plural_of_plural : simple_pluralize "users" = "userses"%string.
Proof. reflexivity. Qed.
End RouteDemo.
