(* ===== verification/RestHttp.v ===== *)
(** * HTTP of the REST transport

    [fraiseql-server/src/routes/rest/]: the [Prefer] header, the response and
    error types and the header helpers of [handler.rs], and [cache_control.rs].
    The header map is the [http] crate's: an interface, with its laws apart. *)

From Stdlib Require Import Ascii.
From stdpp Require Import pretty.
From S2P Require Import Prelude Json WhereClause Matcher Chars SecurityContext CompiledSchema RestParams.
Import Matching.
#[local] Open Scope Z_scope.

(** ** [http::HeaderMap]

    Names are in lower case.  A value need not be text ([to_str]), and not
    every text is a value ([header_value]). *)
Class HeaderMap (H V : Type) : Type := {
  no_headers : H;
  header : H -> string -> option V;
  get_all : H -> string -> list V;
  insert_header : string -> V -> H -> H;
  header_list : H -> list (string * V);
  to_str : V -> option string;
  header_value : string -> option V;
  from_static : string -> V;
  header_name : string -> option string
}.
Class HeaderMapLaws (H V : Type) {HM : HeaderMap H V} : Prop := {
  header_insert : forall k k' v (h : H), header (insert_header k v h) k' = if k =s k' then Some v else header h k';
  header_none : forall k, header (no_headers : H) k = None;
  static_str : forall s, to_str (from_static s) = Some s
}.

(** ** [Prefer] ([RFC 7240]) *)
Inductive CountPreference : Type := Exact | Planned | Estimated.
Inductive HandlingPreference : Type := Lenient | Strict.
Record PreferHeader : Type := mkPrefer {
  count_exact : bool;
  count_planned : bool;
  count_estimated : bool;
  return_representation : bool;
  return_minimal : bool;
  resolution : option string;
  tx_rollback : bool;
  handling : option HandlingPreference;
  max_affected : option Z
}.
Definition no_preference : PreferHeader := mkPrefer false false false false false None false None None.
Definition with_count (p : PreferHeader) (c : CountPreference) : PreferHeader :=
  mkPrefer (match c with Exact => true | _ => false end) (match c with Planned => true | _ => false end)
    (match c with Estimated => true | _ => false end)
    p.(return_representation) p.(return_minimal) p.(resolution) p.(tx_rollback) p.(handling) p.(max_affected).
Definition with_return (p : PreferHeader) (representation : bool) : PreferHeader :=
  mkPrefer p.(count_exact) p.(count_planned) p.(count_estimated) representation (negb representation) p.(resolution)
    p.(tx_rollback) p.(handling) p.(max_affected).
Definition with_resolution (p : PreferHeader) (r : string) : PreferHeader :=
  mkPrefer p.(count_exact) p.(count_planned) p.(count_estimated) p.(return_representation) p.(return_minimal) (Some r)
    p.(tx_rollback) p.(handling) p.(max_affected).
Definition with_rollback (p : PreferHeader) (b : bool) : PreferHeader :=
  mkPrefer p.(count_exact) p.(count_planned) p.(count_estimated) p.(return_representation) p.(return_minimal) p.(resolution)
    b p.(handling) p.(max_affected).
Definition with_handling (p : PreferHeader) (h : HandlingPreference) : PreferHeader :=
  mkPrefer p.(count_exact) p.(count_planned) p.(count_estimated) p.(return_representation) p.(return_minimal) p.(resolution)
    p.(tx_rollback) (Some h) p.(max_affected).
Definition with_max_affected (p : PreferHeader) (n : Z) : PreferHeader :=
  mkPrefer p.(count_exact) p.(count_planned) p.(count_estimated) p.(return_representation) p.(return_minimal) p.(resolution)
    p.(tx_rollback) p.(handling) (Some n).

Definition count_preference (p : PreferHeader) : option CountPreference :=
  if p.(count_exact) then Some Exact else if p.(count_planned) then Some Planned
  else if p.(count_estimated) then Some Estimated else None.
(** A resolution is not among what is applied here. *)
Definition applied_header_value (p : PreferHeader) : option string :=
  let count := match count_preference p with
               | Some Exact => ["count=exact"] | Some Planned => ["count=planned"] | Some Estimated => ["count=estimated"]
               | None => [] end in
  let ret := if p.(return_representation) then ["return=representation"] else if p.(return_minimal) then ["return=minimal"] else [] in
  let tx := if p.(tx_rollback) then ["tx=rollback"] else [] in
  let hand := match p.(handling) with Some Strict => ["handling=strict"] | Some Lenient => ["handling=lenient"] | None => [] end in
  match (count ++ ret ++ tx ++ hand)%list with [] => None | parts => Some (join ", " parts) end%string.

Definition eq_ignore_ascii_case (a b : string) : bool := to_lowercase a =s to_lowercase b.
(** [&s[..n]] panics inside a character. *)
Definition strip_prefix_ci (s prefix : string) : option (option string) :=
  let n := String.length prefix in
  if (n <=? String.length s)%nat then
    head_part ← slice s 0 n;
    Some (if eq_ignore_ascii_case head_part prefix then Some (String.substring n (String.length s - n) s) else None)
  else Some None.

(** One preference; [None] is a panic. *)
Definition apply_preference (r : PreferHeader) (pref : string) : option PreferHeader :=
  let same s := eq_ignore_ascii_case pref s in
  if same "count=exact" then Some (with_count r Exact)
  else if same "count=planned" then Some (with_count r Planned)
  else if same "count=estimated" then Some (with_count r Estimated)
  else if same "return=representation" then Some (with_return r true)
  else if same "return=minimal" then Some (with_return r false)
  else if same "tx=rollback" then Some (with_rollback r true)
  else if same "tx=commit" then Some (with_rollback r false)
  else if same "handling=strict" then Some (with_handling r Strict)
  else if same "handling=lenient" then Some (with_handling r Lenient)
  else
    res ← strip_prefix_ci pref "resolution=";
    match res with
    | Some v => Some (with_resolution r v)
    | None =>
        m ← strip_prefix_ci pref "max-affected=";
        Some match m with
             | Some v => match parse_u64 v with Some n => with_max_affected r n | None => r end
             | None => r
             end
    end.
Fixpoint apply_preferences (r : PreferHeader) (l : list string) : option PreferHeader :=
  match l with [] => Some r | pref :: l => r ← apply_preference r (trim pref); apply_preferences r l end.
Definition parse_prefer (header_value : string) : option PreferHeader := apply_preferences no_preference (split "," header_value).

(** What one header line adds to what the earlier ones gave. *)
Definition merge_prefer (r p : PreferHeader) : PreferHeader :=
  let r := match count_preference p with Some c => with_count r c | None => r end in
  let r := if p.(return_representation) then with_return r true else r in
  let r := if p.(return_minimal) then with_return r false else r in
  let r := if p.(tx_rollback) then with_rollback r true else r in
  let r := match p.(handling) with Some h => with_handling r h | None => r end in
  let r := match p.(resolution) with Some s => with_resolution r s | None => r end in
  match p.(max_affected) with Some n => with_max_affected r n | None => r end.

(** ** Errors *)
Record RestError : Type := mkRestError { status : Z; code : string; error_message : message; details : option json }.
Definition bad_request (m : string) : RestError := mkRestError 400 "BAD_REQUEST" (Text m) None.
Definition forbidden : RestError := mkRestError 403 "FORBIDDEN" (Text "Access denied") None.
Definition not_found (m : string) : RestError := mkRestError 404 "NOT_FOUND" (Text m) None.
Definition unprocessable_entity (m : string) (d : json) : RestError := mkRestError 422 "UNPROCESSABLE_ENTITY" (Text m) (Some d).
Definition internal (m : string) : RestError := mkRestError 500 "INTERNAL_SERVER_ERROR" (Text m) None.
(** [to_json]; [message_text] prints the message. *)
Definition error_json (message_text : message -> string) (e : RestError) : json :=
  JObject [("error", JObject (([("code", JString e.(code))] ++
    match e.(details) with Some d => [("details", d)] | None => [] end ++
    [("message", JString (message_text e.(error_message)))])%list))]%string.

(** [FraiseQLError]'s [Display]. *)
Definition prefixed (p : string) (m : message) : message :=
  match m with Text s => Text (p ++ s) | DebugOp b op a => DebugOp (p ++ b) op a end.
Definition error_text (e : FraiseQLError) : message :=
  match e with
  | Parse m location => Text ("Parse error at " ++ location ++ ": " ++ m)
  | Validation m _ => prefixed "Validation error: " m
  | UnknownField field type_name => Text ("Unknown field '" ++ field ++ "' on type '" ++ type_name ++ "'")
  | UnknownType type_name => Text ("Unknown type '" ++ type_name ++ "'")
  | Database m _ => Text ("Database error: " ++ m)
  | ConnectionPool m => Text ("Connection pool error: " ++ m)
  | QueryTimeout timeout_ms _ => Text ("Query timeout after " ++ pretty timeout_ms ++ "ms")
  | Cancelled _ reason => Text ("Query cancelled: " ++ reason)
  | Authorization m _ _ => Text ("Authorization error: " ++ m)
  | Authentication m => Text ("Authentication error: " ++ m)
  | RateLimited m _ => Text ("Rate limit exceeded: " ++ m)
  | NotFound resource_type identifier => Text (resource_type ++ " not found: " ++ identifier)
  | Conflict m => Text ("Conflict: " ++ m)
  | Configuration m => Text ("Configuration error: " ++ m)
  | Unsupported m => Text ("Unsupported operation: " ++ m)
  | Internal m _ => prefixed "Internal error: " m
  end.
Definition rest_error_from (e : FraiseQLError) : RestError :=
  match e with
  | NotFound _ _ => mkRestError 404 "NOT_FOUND" (error_text e) None
  | Validation _ _ | UnknownField _ _ | UnknownType _ => mkRestError 400 "BAD_REQUEST" (error_text e) None
  | Authorization _ _ _ => forbidden
  | Authentication _ => mkRestError 401 "UNAUTHENTICATED" (Text "Authentication required") None
  | _ => mkRestError 500 "INTERNAL_SERVER_ERROR" (error_text e) None
  end.

(** ** Responses and their headers *)
Section Http.
Context {H V : Type} {HM : HeaderMap H V}.

Record RestResponse : Type := mkResponse { response_status : Z; response_headers : H; body : option json }.

(** The text of a header that is present and is text. *)
Definition header_str (h : H) (name : string) : option string := header h name ≫= to_str.
Definition insert_text (name value : string) (h : H) : H :=
  match header_value value with Some v => insert_header name v h | None => h end.

Fixpoint merge_lines (r : PreferHeader) (l : list V) : option PreferHeader :=
  match l with
  | [] => Some r
  | v :: l =>
      match to_str v with
      | Some s => p ← parse_prefer s; merge_lines (merge_prefer r p) l
      | None => merge_lines r l
      end
  end.
(** [None] is a panic (never with the text of a header: [from_headers_total]). *)
Definition from_headers (h : H) : option PreferHeader := merge_lines no_preference (get_all h "prefer").

Definition set_preference_applied (prefs : list string) (h : H) : H :=
  match List.filter (fun p => negb (p =s "")) prefs with [] => h | l => insert_text "preference-applied" (join ", " l) h end.
(** [fresh] is a new UUID. *)
Definition set_request_id (fresh : string) (request : H) (h : H) : H :=
  insert_text "x-request-id" (default fresh (header_str request "x-request-id")) h.
Definition set_rows_affected (count : Z) (h : H) : H := insert_text "x-rows-affected" (pretty count) h.

(** ** [cache_control.rs] *)
Record CacheContext : Type := mkCacheContext {
  is_get : bool;
  has_auth : bool;
  query_ttl : option Z;
  default_ttl : Z;
  cache_cdn_max_age : option Z
}.
Definition cache_control_value (ctx : CacheContext) : string :=
  let max_age := default ctx.(default_ttl) ctx.(query_ttl) in
  let visibility := if ctx.(has_auth) then "private" else "public" in
  visibility ++ ", max-age=" ++ pretty max_age ++
  (if ctx.(has_auth) then "" else match ctx.(cache_cdn_max_age) with Some s => ", s-maxage=" ++ pretty s | None => "" end)%string.
Definition apply_cache_headers (ctx : CacheContext) (h : H) : H :=
  if ctx.(is_get) then
    insert_header "vary" (from_static "Authorization, Accept, Prefer") (insert_text "cache-control" (cache_control_value ctx) h)
  else insert_header "cache-control" (from_static "no-store") h.
End Http.
Arguments RestResponse H : clear implicits.

(** ** Runs of the handler

    A handler answers or fails, and keeps what it changed before; what the
    extraction of parameters can do besides failing ends the request. *)
Inductive rest_failure : Type := Refused (e : RestError) | Died (f : failure).
Definition of_failure (f : failure) : rest_failure :=
  match f with Invalid e => Refused (rest_error_from e) | f => Died f end.
Definition of_error (e : FraiseQLError) : rest_failure := Refused (rest_error_from e).

Definition Rest (E A : Type) : Type := E -> result rest_failure A * E.
#[export] Instance rest_ret E : MRet (Rest E) := fun _ a ex => (Ok a, ex).
#[export] Instance rest_bind E : MBind (Rest E) := fun _ _ k m ex =>
  match m ex with (Ok a, ex) => k a ex | (Err e, ex) => (Err e, ex) end.
Definition pure {E A} (r : result rest_failure A) : Rest E A := fun ex => (r, ex).
Definition refuse {E A} (e : RestError) : Rest E A := pure (Err (Refused e)).
(** A call of the executor. *)
Definition call {E A} (f : E -> result FraiseQLError A * E) : Rest E A := fun ex =>
  let '(r, ex) := f ex in (map_err of_error r, ex).
(** [for x in l], the state carried along. *)
Fixpoint each_m {E A B} (f : A -> Rest E B) (l : list A) : Rest E (list B) :=
  match l with [] => mret [] | x :: l => y ← f x; ys ← each_m f l; mret (y :: ys) end.

(** ** [Prefer] headers are text, and no text of a header panics *)
Class HeaderText (H V : Type) {HM : HeaderMap H V} : Prop :=
  to_str_ascii : forall (v : V) s, to_str v = Some s -> all_ascii s = true.

Lemma strip_prefix_ci_total s prefix : all_ascii s = true -> is_Some (strip_prefix_ci s prefix).
Proof.
  intros H. unfold strip_prefix_ci. destruct (Nat.leb_spec (String.length prefix) (String.length s)) as [Hl|]; [|by eexists].
  unfold slice. rewrite !boundary_ascii by (done || lia). by eexists.
Qed.
Lemma apply_preference_total r pref : all_ascii pref = true -> is_Some (apply_preference r pref).
Proof.
  intros H. unfold apply_preference.
  repeat (match goal with |- is_Some (if ?b then _ else _) => destruct b; [by eexists|] end).
  destruct (strip_prefix_ci_total pref "resolution=" H) as [res ->]. cbn. destruct res; [by eexists|].
  destruct (strip_prefix_ci_total pref "max-affected=" H) as [m ->]. by eexists.
Qed.
Lemma parse_prefer_total s : all_ascii s = true -> is_Some (parse_prefer s).
Proof.
  intros H%(ascii_split ","). unfold parse_prefer. generalize no_preference. induction H as [|t l Ht Hl IH]; intros r; [by eexists|].
  cbn [apply_preferences]. destruct (apply_preference_total r (trim t) (ascii_trim t Ht)) as [r' ->]. apply IH.
Qed.
Lemma from_headers_total {H V} `{HT : HeaderText H V} (h : H) : is_Some (from_headers h).
Proof.
  unfold from_headers. generalize no_preference. induction (get_all h "prefer") as [|v l IH]; intros r; [by eexists|].
  cbn [merge_lines]. destruct (to_str v) as [s|] eqn:E; [|apply IH]. apply to_str_ascii in E.
  destruct (parse_prefer_total s E) as [p ->]. apply IH.
Qed.
