(* ===== verification/Idempotency.v ===== *)
(** * Idempotency keys

    [fraiseql-server/src/routes/rest/idempotency.rs]: the responses of POST
    requests, kept by key and the hash of the body for a time.  The order a
    [DashMap] is read in is an argument; an [Instant] is a [Z], and [now] the
    time of a call. *)

From stdpp Require Import fin_maps.
From S2P Require Import Prelude Json SecurityContext.
#[local] Open Scope Z_scope.

Record StoredResponse : Type := mkStored {
  stored_status : Z;
  stored_headers : list (string * string);
  stored_body : option json
}.
Inductive IdempotencyCheck : Type := New | Replay (r : StoredResponse) | ConflictingBody.

(** [IdempotencyStore]; a check may drop what has expired. *)
Class IdempotencyStore (I : Type) : Type := {
  check : I -> Z -> string -> Z -> IdempotencyCheck * I;
  store : I -> Z -> string -> Z -> StoredResponse -> I
}.

(** ** In memory *)
Module InMemory.
Record Entry : Type := mkEntry { response : StoredResponse; body_hash : Z; created_at : Z }.
Record t : Type := mkStore { entries : gmap string Entry; ttl : Z; max_entries : Z }.
Definition new (ttl max_entries : Z) : t := mkStore ∅ ttl max_entries.
Definition create_store (ttl_seconds : Z) : t := new ttl_seconds 10000.
Definition with_entries (s : t) (m : gmap string Entry) : t := mkStore m s.(ttl) s.(max_entries).
Definition expired (s : t) (now : Z) (e : Entry) : bool := s.(ttl) <? now - e.(created_at).

Section Store.
Context (order : gmap string Entry -> list (string * Entry)).

Definition remove_keys (m : gmap string Entry) (l : list (string * Entry)) : gmap string Entry := foldl (fun m kv => delete kv.1 m) m l.
Definition evict_expired (s : t) (now : Z) : t :=
  with_entries s (remove_keys s.(entries) (take 100 (List.filter (fun kv => expired s now kv.2) (order s.(entries))))).
(** [min_by_key]: the first of the least. *)
Fixpoint oldest (l : list (string * Entry)) : option (string * Entry) :=
  match l with
  | [] => None
  | kv :: l =>
      match oldest l with
      | Some kv' => Some (if kv'.2.(created_at) <? kv.2.(created_at) then kv' else kv)
      | None => Some kv
      end
  end.
Definition find_oldest_key (s : t) : option string := fst <$> oldest (order s.(entries)).

Definition check (s : t) (now : Z) (key : string) (hash : Z) : IdempotencyCheck * t :=
  match s.(entries) !! key with
  | Some e =>
      if expired s now e then (New, with_entries s (delete key s.(entries)))
      else if e.(body_hash) =? hash then (Replay e.(response), s)
      else (ConflictingBody, s)
  | None => (New, s)
  end.
Definition make_room (s : t) : t :=
  if s.(max_entries) <=? Z.of_nat (size s.(entries)) then
    match find_oldest_key s with Some k => with_entries s (delete k s.(entries)) | None => s end
  else s.
Definition store (s : t) (now : Z) (key : string) (hash : Z) (r : StoredResponse) : t :=
  let s := make_room (evict_expired s now) in
  with_entries s (<[key := mkEntry r hash now]> s.(entries)).
End Store.

(** ** Facts *)
Section Facts.
Context (order : gmap string Entry -> list (string * Entry)).
(** The map is read once, each entry once. *)
Context (order_perm : forall m, order m ≡ₚ map_to_list m).

Lemma remove_keys_sub (m : gmap string Entry) l : remove_keys m l ⊆ m.
Proof.
  revert m. induction l as [|kv l IH]; intros m; [done|]. cbn. etrans; [apply IH|]. apply delete_subseteq.
Qed.
Lemma remove_keys_keeps (m : gmap string Entry) l k : k ∉ l.*1 -> remove_keys m l !! k = m !! k.
Proof.
  revert m. induction l as [|kv l IH]; intros m; [done|]. cbn. intros Hk.
  rewrite IH by set_solver. apply lookup_delete_ne. set_solver.
Qed.

Lemma oldest_in l kv : oldest l = Some kv -> kv ∈ l /\ forall kv', kv' ∈ l -> kv.2.(created_at) <= kv'.2.(created_at).
Proof.
  revert kv. induction l as [|x l IH]; intros kv; cbn [oldest]; [done|]. destruct (oldest l) as [y|] eqn:E.
  - destruct (IH y eq_refl) as [Hy Hm]. destruct (y.2.(created_at) <? x.2.(created_at)) eqn:C; intros [= <-]; to_prop.
    + split; [set_solver|]. intros z [->|Hz]%elem_of_cons; [lia | by apply Hm].
    + split; [set_solver|]. intros z [->|Hz]%elem_of_cons; [lia|]. specialize (Hm z Hz). lia.
  - intros [= <-]. destruct l as [|z l]; [split; [set_solver|]; set_solver|]. exfalso. cbn in E. by destruct (oldest l).
Qed.
Lemma oldest_some l : l <> [] -> is_Some (oldest l).
Proof. destruct l as [|x l]; [done|]. cbn. destruct (oldest l); by eexists. Qed.

Lemma make_room_size s : 1 <= s.(max_entries) -> Z.of_nat (size s.(entries)) <= s.(max_entries) ->
  Z.of_nat (size (make_room order s).(entries)) < s.(max_entries).
Proof.
  intros Hm Hs. unfold make_room. case_bool; to_prop; [|lia]. unfold find_oldest_key.
  destruct (oldest (order s.(entries))) as [[k e]|] eqn:E.
  - cbn. apply oldest_in in E as [Hin _]. rewrite order_perm in Hin. apply elem_of_map_to_list in Hin.
    rewrite map_size_delete_Some by (by eexists). assert (size s.(entries) <> O); [|lia].
    intros H0%map_size_empty_iff. by rewrite H0 in Hin.
  - exfalso. destruct (oldest_some (order s.(entries))) as [kv Hkv]; [|by rewrite Hkv in E].
    intros Hnil. pose proof (order_perm s.(entries)) as Hp. rewrite Hnil in Hp. apply Permutation_nil in Hp.
    apply map_to_list_empty_iff in Hp. rewrite Hp, map_size_empty in *. lia.
Qed.

(** The store never outgrows its limit. *)
Lemma store_bounded s now key hash r : 1 <= s.(max_entries) -> Z.of_nat (size s.(entries)) <= s.(max_entries) ->
  Z.of_nat (size (store order s now key hash r).(entries)) <= (store order s now key hash r).(max_entries).
Proof.
  intros Hm Hs. unfold store. set (s1 := evict_expired order s now).
  assert (H1 : s1.(max_entries) = s.(max_entries) /\ Z.of_nat (size s1.(entries)) <= s.(max_entries)).
  { split; [done|]. unfold s1. cbn. pose proof (map_subseteq_size _ _ (remove_keys_sub s.(entries)
      (take 100 (List.filter (fun kv => expired s now kv.2) (order s.(entries)))))). lia. }
  destruct H1 as [Hm1 Hs1]. rewrite <- Hm1 in *. pose proof (make_room_size s1 Hm Hs1).
  assert (Hmax : (make_room order s1).(max_entries) = s1.(max_entries)).
  { unfold make_room. repeat case_bool; [|done]. by destruct (find_oldest_key order s1). }
  cbn. rewrite Hmax, map_size_insert. destruct ((make_room order s1).(entries) !! key); cbn; lia.
Qed.

(** What is stored is answered until its time is over: to the same body with
    the response, to another as a conflict. *)
Lemma check_after_store s now key hash r later hash' : 
  (check (store order s now key hash r) later key hash').1 =
    if s.(ttl) <? later - now then New else if hash =? hash' then Replay r else ConflictingBody.
Proof.
  unfold check, store. cbn. rewrite lookup_insert_eq. unfold expired. cbn.
  assert (Ht : (make_room order (evict_expired order s now)).(ttl) = s.(ttl)).
  { unfold make_room. case_bool; [|done]. by destruct (find_oldest_key _ _). }
  rewrite Ht. by repeat case_bool.
Qed.

(** Another key's response stays, unless it has expired or the store is full. *)
Lemma store_keeps s now key hash r k e : k <> key -> s.(entries) !! k = Some e -> expired s now e = false ->
  Z.of_nat (size s.(entries)) < s.(max_entries) -> (store order s now key hash r).(entries) !! k = Some e.
Proof.
  intros Hk He Hx Hs. unfold store. cbn. rewrite lookup_insert_ne by done.
  assert (H1 : (evict_expired order s now).(entries) !! k = Some e).
  { cbn. rewrite remove_keys_keeps; [done|]. intros ([k' e'] & Hke & Hin)%list_elem_of_fmap.
    cbn in Hke. subst k'. apply subseteq_take, list_elem_of_In, filter_In in Hin as [Hin Hexp]. cbn in Hexp.
    apply list_elem_of_In in Hin. rewrite order_perm in Hin. apply elem_of_map_to_list in Hin. congruence. }
  unfold make_room. case_bool; [|done]. to_prop. exfalso. cbn in Heqb.
  pose proof (map_subseteq_size _ _ (remove_keys_sub s.(entries)
    (take 100 (List.filter (fun kv => expired s now kv.2) (order s.(entries)))))). lia.
Qed.

(** *** Calls between two requests *)
Inductive call : Type := CheckCall (now : Z) (key : string) (hash : Z) | StoreCall (now : Z) (key : string) (hash : Z) (r : StoredResponse).
Definition call_time (c : call) : Z := match c with CheckCall now _ _ | StoreCall now _ _ _ => now end.
Definition run_call (s : t) (c : call) : t :=
  match c with CheckCall now k h => (check s now k h).2 | StoreCall now k h r => store order s now k h r end.
Definition is_store (c : call) : bool := match c with StoreCall _ _ _ _ => true | _ => false end.
(** The responses of a list of calls that are stored, and no one stores for the key. *)
Definition stores (calls : list call) : nat := length (List.filter is_store calls).
Definition spares (key : string) (c : call) : Prop := match c with StoreCall _ k _ _ => k <> key | _ => True end.

(** The entries of other keys that are at least as new. *)
Definition newer (s : t) (key : string) (e : Entry) : gmap string Entry :=
  filter (fun kv => kv.1 <> key /\ e.(created_at) <= kv.2.(created_at)) s.(entries).
Definition kept (s : t) (key : string) (e : Entry) (n : nat) : Prop :=
  s.(entries) !! key = Some e /\ (size (newer s key e) <= n)%nat.

Lemma kept_sub s m key e n : kept s key e n -> m ⊆ s.(entries) -> m !! key = Some e -> kept (with_entries s m) key e n.
Proof.
  intros [_ Hn] Hm He. split; [done|]. etrans; [|exact Hn]. apply map_subseteq_size. unfold newer. cbn. by apply map_filter_subseteq_mono.
Qed.
Lemma evict_kept s now key e n : kept s key e n -> expired s now e = false -> kept (evict_expired order s now) key e n.
Proof.
  intros Hk Hx. apply kept_sub; [done|apply remove_keys_sub|]. destruct Hk as [He _]. rewrite remove_keys_keeps; [done|].
  intros ([k' e'] & Hke & Hin)%list_elem_of_fmap. cbn in Hke. subst k'.
  apply subseteq_take, list_elem_of_In, filter_In in Hin as [Hin Hexp]. cbn in Hexp.
  apply list_elem_of_In in Hin. rewrite order_perm in Hin. apply elem_of_map_to_list in Hin. congruence.
Qed.
(** A full store drops its oldest entry: not this one while fewer than
    [max_entries - 1] others are as new. *)
Lemma room_kept s key e n : kept s key e n -> Z.of_nat n < s.(max_entries) - 1 -> kept (make_room order s) key e n.
Proof.
  intros Hk Hn. unfold make_room. case_bool; [|done]. to_prop. unfold find_oldest_key.
  destruct (oldest (order s.(entries))) as [[k0 e0]|] eqn:E; [|done]. cbn. apply kept_sub; [done|apply delete_subseteq|].
  destruct Hk as [He Hs]. rewrite lookup_delete_ne; [done|]. intros ->. apply oldest_in in E as [Hin Hmin].
  rewrite order_perm in Hin. apply elem_of_map_to_list in Hin. assert (e0 = e) as -> by congruence. cbn in Hmin.
  assert (Hall : newer s key e = delete key s.(entries)).
  { apply map_eq. intros k. unfold newer. rewrite map_lookup_filter. destruct (decide (k = key)) as [->|Hk].
    - rewrite lookup_delete_eq. destruct (entries s !! key); cbn; [|done]. by rewrite option_guard_False by tauto.
    - rewrite lookup_delete_ne by done. destruct (entries s !! k) as [e'|] eqn:Ek; cbn; [|done]. rewrite option_guard_True; [done|].
      split; [done|]. apply (Hmin (k, e')). rewrite order_perm. by apply elem_of_map_to_list. }
  rewrite Hall, map_size_delete_Some in Hs by (by eexists). lia.
Qed.
Lemma store_kept s now k h r key e n : k <> key -> kept s key e n -> expired s now e = false -> Z.of_nat n < s.(max_entries) - 1 ->
  kept (store order s now k h r) key e (S n).
Proof.
  intros Hk Hs Hx Hn. assert (Hr : kept (make_room order (evict_expired order s now)) key e n).
  { apply room_kept; [by apply evict_kept|done]. }
  unfold store. destruct Hr as [He Hc]. split; [by cbn; rewrite lookup_insert_ne|].
  set (s1 := make_room order (evict_expired order s now)) in *. unfold newer. cbn.
  etrans; [apply (map_subseteq_size _ (<[k := mkEntry r h now]> (newer s1 key e)))|].
  - apply map_subseteq_spec. intros k' e' [Hk' HP]%map_lookup_filter_Some. destruct (decide (k' = k)) as [->|Hkk].
    + rewrite lookup_insert_eq in *. done.
    + rewrite lookup_insert_ne in * by done. by apply map_lookup_filter_Some.
  - rewrite map_size_insert. destruct (newer s1 key e !! k); cbn; lia.
Qed.
Lemma run_call_limits s c : (run_call s c).(ttl) = s.(ttl) /\ (run_call s c).(max_entries) = s.(max_entries).
Proof.
  assert (Hr : forall s, (make_room order s).(ttl) = s.(ttl) /\ (make_room order s).(max_entries) = s.(max_entries)).
  { intros s'. unfold make_room. case_bool; [|done]. by destruct (find_oldest_key _ _). }
  destruct c as [now k h|now k h r]; cbn; [|apply (Hr (evict_expired order s now))].
  unfold check. destruct (_ !! k); [|done]. by repeat case_bool.
Qed.

(** An entry whose time is not over is still there after any calls that do not
    store under its key, so long as they store fewer than [max_entries]. *)
Lemma run_calls_kept calls : forall s key e n until, kept s key e n -> Forall (spares key) calls ->
  Forall (fun c => call_time c <= until) calls -> until - e.(created_at) <= s.(ttl) ->
  Z.of_nat (n + stores calls) < s.(max_entries) ->
  let s' := foldl run_call s calls in s'.(entries) !! key = Some e /\ s'.(ttl) = s.(ttl).
Proof.
  induction calls as [|c calls IH]; intros s key e n until Hk Hsp Ht Hl Hn; cbn zeta; [by destruct Hk|].
  apply list.Forall_cons in Hsp as [Hc Hsp]. apply list.Forall_cons in Ht as [Hct Ht]. cbn [foldl].
  assert (Hx : expired s (call_time c) e = false) by (unfold expired; apply Z.ltb_ge; lia).
  destruct (run_call_limits s c) as [Htt Hmm]. rewrite <- Htt in Hl |- *. rewrite <- Hmm in Hn.
  destruct c as [now k h|now k h r]; unfold stores in Hn; cbn [List.filter is_store length call_time spares] in *.
  - apply (IH _ key e n until); try done. cbn. unfold check. destruct (s.(entries) !! k) as [e'|] eqn:Ek; [|done].
    case_bool; [|by case_bool]. cbn. destruct (decide (k = key)) as [->|Hkk].
    + destruct Hk as [He _]. rewrite He in Ek. congruence.
    + apply kept_sub; [done|apply delete_subseteq|]. rewrite lookup_delete_ne by done. apply Hk.
  - apply (IH _ key e (S n) until); try done; [|unfold stores; lia]. cbn. apply store_kept; try done. rewrite Hmm in Hn. lia.
Qed.

(** A response just stored: it is answered until its time is over, whatever
    other calls came between, unless [max_entries] others were stored. *)
Lemma stored_answered s now key hash r calls until hash' : 
  (forall k e, s.(entries) !! k = Some e -> e.(created_at) < now) ->
  Forall (spares key) calls -> Forall (fun c => call_time c <= until) calls -> until - now <= s.(ttl) ->
  Z.of_nat (stores calls) < s.(max_entries) ->
  let s' := foldl run_call (store order s now key hash r) calls in
  check s' until key hash' = (if hash =? hash' then Replay r else ConflictingBody, s').
Proof.
  intros Hold Hsp Ht Hl Hn. cbn zeta. destruct (run_call_limits s (StoreCall now key hash r)) as [Htt Hmm]. cbn [run_call] in Htt, Hmm.
  destruct (run_calls_kept calls (store order s now key hash r) key (mkEntry r hash now) 0 until) as [He Hs']; try done.
  - split; [cbn; by rewrite lookup_insert_eq|]. apply Nat.le_0_r, map_size_empty_iff, map_empty. intros k. unfold newer.
    apply map_lookup_filter_None. right. intros e' Hk' [Hne Hge]. cbn in Hk', Hge. rewrite lookup_insert_ne in Hk' by done.
    assert (Hin : s.(entries) !! k = Some e').
    { clear Hne Hge. assert (Hsub : (make_room order (evict_expired order s now)).(entries) ⊆ s.(entries)).
      { etrans; [|apply (remove_keys_sub _ (take 100 (List.filter (fun kv => expired s now kv.2) (order s.(entries)))))].
        unfold make_room. case_bool; [|done]. destruct (find_oldest_key _ _); [|done]. cbn. apply delete_subseteq. }
      by apply (lookup_weaken _ _ _ _ Hk'). }
    specialize (Hold _ _ Hin). lia.
  - cbn [created_at]. rewrite Htt. lia.
  - rewrite Hmm. lia.
  - unfold check. rewrite He. unfold expired. rewrite Hs', Htt. cbn [created_at body_hash response].
    assert (InMemory_expired : (ttl s <? until - now) = false) by (apply Z.ltb_ge; lia). rewrite InMemory_expired. by case_bool.
Qed.
End Facts.
End InMemory.

#[export] Instance in_memory_store (order : gmap string InMemory.Entry -> list (string * InMemory.Entry)) :
    IdempotencyStore InMemory.t :=
  { check := InMemory.check; store := InMemory.store order }.
