(* ===== verification/RowSecurity.v ===== *)
(** * Row-level security

    [security/rls_policy.rs]: the policies that turn a security context into a
    filter; [resolve_inject_value] and [inject_param_where_clause]
    ([runtime/executor/mod.rs], [runtime/executor/query.rs]): the conditions
    taken from the token; [resolve_session_variables]
    ([runtime/executor/security.rs]).  [serde_json::from_str] and
    [Value::to_string] are parameters; a call reads one instant of the clock. *)

From Stdlib Require Import Ascii.
From S2P Require Import Prelude Json WhereClause Chars SecurityContext CompiledSchema.
#[local] Open Scope Z_scope.

(** A policy: what it filters by, and the policy afterwards (it may keep a cache). *)
Class RLSPolicy (P : Type) : Type :=
  evaluate : Z -> P -> SecurityContext -> string -> result FraiseQLError (option WhereClause) * P.

(** ** [DefaultRLSPolicy] and [NoRLSPolicy] *)
Record DefaultRLSPolicy : Type := mkDefault {
  enable_tenant_isolation : bool;
  tenant_field : string;
  owner_field : string
}.
Definition new_default : DefaultRLSPolicy := mkDefault true "tenant_id" "author_id".
Definition with_single_tenant (p : DefaultRLSPolicy) : DefaultRLSPolicy := mkDefault false p.(tenant_field) p.(owner_field).

Definition equals (column : string) (value : json) : WhereClause := Field [column] Op.Eq value.
(** One condition as it is, several in an [And]. *)
Definition conjunction (l : list WhereClause) : option WhereClause :=
  match l with [] => None | [c] => Some c | l => Some (And l) end.

#[export] Instance default_rls : RLSPolicy DefaultRLSPolicy := fun _ p ctx _ =>
  (if is_admin ctx then Ok None
   else
     Ok (conjunction
       (match p.(enable_tenant_isolation), ctx.(tenant_id) with
        | true, Some t => [equals p.(tenant_field) (JString t)]
        | _, _ => []
        end ++ [equals p.(owner_field) (JString ctx.(user_id))])), p).

Inductive NoRLSPolicy : Type := NoRLS.
#[export] Instance no_rls : RLSPolicy NoRLSPolicy := fun _ p _ _ => (Ok None, p).

(** ** [CompiledRLSPolicy] *)
Record RLSRule : Type := mkRule {
  rule_name : string;
  expression : string;
  cacheable : bool;
  cache_ttl_seconds : option Z
}.
Record CacheEntry : Type := mkEntry { cached : option WhereClause; entry_expires_at : Z }.
Record CompiledRLSPolicy : Type := mkCompiled {
  rules_by_type : gmap string (list RLSRule);
  default_rule : option RLSRule;
  cache : gmap string CacheEntry
}.
Definition new_compiled (rules : gmap string (list RLSRule)) (d : option RLSRule) : CompiledRLSPolicy := mkCompiled rules d ∅.

Definition extract_user_value (field : string) (ctx : SecurityContext) : option json :=
  if (field =s "id") || (field =s "user_id") then Some (JString ctx.(user_id))
  else if field =s "tenant_id" then JString <$> ctx.(tenant_id)
  else if field =s "roles" then Some (JArray (map JString ctx.(roles)))
  else get_attribute ctx field.

Definition is_quote (ch : string) : bool := (ch =s String "'" EmptyString) || (ch =s String (ascii_of_nat 34) EmptyString).

Section Compiled.
(** Whether [serde_json::from_str] accepts a text. *)
Context (is_json : string -> bool).

(** The three patterns, each of which may have no answer. *)
Definition equality_pattern (expr : string) (ctx : SecurityContext) : option WhereClause :=
  '(l, r) ← split_once_str "==" expr;
  let left := trim l in
  let right := trim r in
  user_field ← strip_prefix "user." left;
  let user_value := default JNull (extract_user_value user_field ctx) in
  match strip_prefix "object." right with
  | Some object_field => Some (equals object_field user_value)
  | None => if is_json right then Some (equals "_literal_" user_value) else None
  end.
Definition includes_pattern (expr : string) (ctx : SecurityContext) : bool :=
  match split_once_str "includes" expr with
  | Some (l, r) => (trim l =s "user.roles") && has_role ctx (trim_matches is_quote (trim r))
  | None => false
  end.
Definition tenant_pattern (expr : string) (ctx : SecurityContext) : option WhereClause :=
  if contains "tenant_id" expr && contains "==" expr then equals "tenant_id" <$> (JString <$> ctx.(tenant_id)) else None.

Definition evaluate_rls_expression (e : string) (ctx : SecurityContext) : result FraiseQLError (option WhereClause) :=
  let expr := trim e in
  match equality_pattern expr ctx with
  | Some c => Ok (Some c)
  | None =>
      if includes_pattern expr ctx then Ok None
      else
        match tenant_pattern expr ctx with
        | Some c => Ok (Some c)
        | None => Err (validation ("Unrecognised RLS expression: '" ++ expr ++ "'"))
        end
  end.

Definition rule_for (p : CompiledRLSPolicy) (type_name : string) : option RLSRule :=
  match p.(rules_by_type) !! type_name ≫= head with Some r => Some r | None => p.(default_rule) end.
Definition cache_key (ctx : SecurityContext) (type_name : string) : string := ctx.(user_id) ++ ":" ++ type_name.
Definition cache_hit (now : Z) (p : CompiledRLSPolicy) (key : string) : option (option WhereClause) :=
  e ← p.(cache) !! key; if now <? e.(entry_expires_at) then Some e.(cached) else None.
Definition cache_insert (p : CompiledRLSPolicy) (key : string) (e : CacheEntry) : CompiledRLSPolicy :=
  mkCompiled p.(rules_by_type) p.(default_rule) (<[key := e]> p.(cache)).

Definition evaluate_compiled : RLSPolicy CompiledRLSPolicy := fun now p ctx type_name =>
  if is_admin ctx then (Ok None, p)
  else
    match rule_for p type_name with
    | None => (Ok None, p)
    | Some rule =>
        let key := cache_key ctx type_name in
        match (if rule.(cacheable) then cache_hit now p key else None) with
        | Some r => (Ok r, p)
        | None =>
            match evaluate_rls_expression rule.(expression) ctx with
            | Err e => (Err e, p)
            | Ok r =>
                (Ok r,
                 match rule.(cacheable), rule.(cache_ttl_seconds) with
                 | true, Some ttl => cache_insert p key (mkEntry r (u64_wrap (now + ttl)))
                 | _, _ => p
                 end)
            end
        end
    end.
End Compiled.

(** [cache_result], called by nobody: for 300 seconds. *)
Definition cache_result (now : Z) (p : CompiledRLSPolicy) (key : string) (r : option WhereClause) : CompiledRLSPolicy :=
  cache_insert p key (mkEntry r (u64_wrap (now + 300))).

(** ** Conditions from the token *)
Definition resolve_inject_value (param_name : string) (source : InjectedParamSource) (ctx : SecurityContext) :
    result FraiseQLError json :=
  match source with
  | Jwt claim =>
      ok_or (if claim =s "sub" then Some (JString ctx.(user_id))
             else if (claim =s "tenant_id") || (claim =s "org_id") then JString <$> ctx.(tenant_id)
             else ctx.(attributes) !! claim)
        (validation ("Inject param '" ++ param_name ++ "': JWT claim '" ++ claim ++ "' not present in token"))
  end.

(** [native_columns::pg_type_to_cast]; of letters, the ASCII ones are lowered. *)
Definition pg_casts : list (list string * string) :=
  [(["uuid"], "uuid"); (["integer"; "int"; "int4"], "int4"); (["bigint"; "int8"], "int8");
   (["smallint"; "int2"], "int2"); (["boolean"; "bool"], "bool"); (["numeric"; "decimal"], "numeric");
   (["double precision"; "float8"], "float8"); (["real"; "float4"], "float4");
   (["timestamp without time zone"; "timestamp"], "timestamp");
   (["timestamp with time zone"; "timestamptz"], "timestamptz"); (["date"], "date");
   (["time without time zone"; "time"], "time")]%string.
Definition pg_type_to_cast (data_type : string) : string :=
  match find (fun e => member (to_lowercase data_type) e.1) pg_casts with Some e => e.2 | None => "" end.

Definition column_equals (native : gmap string string) (col : string) (value : json) : WhereClause :=
  match native !! col with
  | Some pg_type => NativeField col (pg_type_to_cast pg_type) Op.Eq value
  | None => Field [col] Op.Eq value
  end.
Definition inject_param_where_clause (col : string) (value : json) (native : gmap string string) : WhereClause :=
  column_equals native col value.

(** ** Session variables *)
Inductive SessionVariableSource : Type := JwtClaim (claim : string) | Header (header : string) | Literal (value : string).
Record SessionVariablesConfig : Type := mkSession {
  variables : list (string * SessionVariableSource);
  inject_started_at : bool
}.

Section Session.
(** [Utc::now().to_rfc3339()] and [Value::to_string]. *)
Context (started_at : string) (json_text : json -> string).

Definition attribute_text (v : json) : string := match v with JString s => s | _ => json_text v end.
Definition session_value (ctx : SecurityContext) (source : SessionVariableSource) : option string :=
  match source with
  | JwtClaim claim =>
      match ctx.(attributes) !! claim with
      | Some v => Some (attribute_text v)
      | None =>
          if (claim =s "sub") || (claim =s "user_id") then Some ctx.(user_id)
          else if claim =s "tenant_id" then ctx.(tenant_id)
          else None
      end
  | Header header => attribute_text <$> ctx.(attributes) !! header
  | Literal value => Some value
  end.
Definition resolve_session_variables (c : SessionVariablesConfig) (ctx : SecurityContext) : list (string * string) :=
  (if c.(inject_started_at) then [("fraiseql.started_at"%string, started_at)] else []) ++
  omap (fun m => pair m.1 <$> session_value ctx m.2) c.(variables).
End Session.

(** ** What a clause lets through

    [leaf] decides single conditions; a clause combines them. *)
Section Meaning.
Context {Row : Type} (leaf : WhereClause -> Row -> bool).
Fixpoint sat (c : WhereClause) (row : Row) : bool :=
  match c with
  | And l => forallb (fun c => sat c row) l
  | Or l => existsb (fun c => sat c row) l
  | Not c => negb (sat c row)
  | Field _ _ _ | NativeField _ _ _ _ => leaf c row
  end.
Definition sat_option (c : option WhereClause) (row : Row) : bool := match c with Some c => sat c row | None => true end.

Lemma sat_conjunction l row : sat_option (conjunction l) row = forallb (fun c => sat c row) l.
Proof. destruct l as [|c [|d l]]; [done | by cbn; rewrite andb_true_r | done]. Qed.
End Meaning.

(** ** The default policy *)

(** A user sees the rows of her tenant that she owns; an administrator sees
    every tenant's. *)
Lemma default_rls_rows {Row} (leaf : WhereClause -> Row -> bool) now p ctx t row :
  sat_option leaf (match (evaluate now p ctx t).1 with Ok c => c | Err _ => None end) row =
  is_admin ctx ||
  match p.(enable_tenant_isolation), ctx.(tenant_id) with
  | true, Some tenant => leaf (equals p.(tenant_field) (JString tenant)) row
  | _, _ => true
  end && leaf (equals p.(owner_field) (JString ctx.(user_id))) row.
Proof.
  unfold evaluate, default_rls. cbn [fst]. destruct (is_admin ctx); [done|]. cbn [orb].
  rewrite sat_conjunction. destruct p.(enable_tenant_isolation), ctx.(tenant_id); cbn; by rewrite andb_true_r.
Qed.

(** ** The compiled policy *)
Section CompiledFacts.
Context (is_json : string -> bool).
Notation eval := (evaluate_compiled is_json).

(** The calls a policy got, in their order: the time, the caller and the type. *)
Notation call := (Z * SecurityContext * string)%type.
Definition after (p : CompiledRLSPolicy) (calls : list call) : CompiledRLSPolicy :=
  foldl (fun p '(now, ctx, t) => (eval now p ctx t).2) p calls.

(** A rule text asks for a role that the caller has. *)
Definition grants (e : string) (ctx : SecurityContext) : Prop := exists l r,
  trim e = (l ++ "includes" ++ r)%string /\ trim l = "user.roles"%string /\ trim_matches is_quote (trim r) ∈ ctx.(roles).
Lemma strip_prefix_parts sep s rest : strip_prefix sep s = Some rest -> s = (sep ++ rest)%string.
Proof.
  revert s. induction sep as [|a sep IH]; intros s; [by intros [= ->]|]. destruct s as [|b s]; [done|]. cbn.
  destruct (Ascii.eqb_spec a b) as [->|]; [|done]. intros H. by rewrite (IH s H).
Qed.
Lemma split_once_str_parts sep s l r : split_once_str sep s = Some (l, r) -> s = (l ++ sep ++ r)%string.
Proof.
  revert l r. induction s as [|c s IH]; intros l r; cbn [split_once_str].
  - destruct (strip_prefix sep _) as [rest|] eqn:E; [|done]. intros [= <- <-]. by apply strip_prefix_parts in E.
  - destruct (strip_prefix sep _) as [rest|] eqn:E; [intros [= <- <-]; by apply strip_prefix_parts in E|].
    destruct (split_once_str sep s) as [[a b]|] eqn:Es; [|done]. intros [= <- <-]. by rewrite (IH a b eq_refl).
Qed.
Lemma has_role_in ctx role : has_role ctx role = true -> role ∈ ctx.(roles).
Proof. unfold has_role. intros (x & Hx & ->%String.eqb_eq)%existsb_exists. by apply list_elem_of_In. Qed.
Lemma includes_grants e ctx : includes_pattern (trim e) ctx = true -> grants e ctx.
Proof.
  unfold includes_pattern. destruct (split_once_str _ _) as [[l r]|] eqn:E; [|done]. intros [Hl Hr]%andb_true_iff.
  apply String.eqb_eq in Hl. apply split_once_str_parts in E. exists l, r. split_and!; [done|done|]. by apply has_role_in.
Qed.
Lemma no_filter_granted e ctx : evaluate_rls_expression is_json e ctx = Ok None -> grants e ctx.
Proof.
  unfold evaluate_rls_expression. destruct (equality_pattern _ _ _); [done|]. destruct (includes_pattern _ _) eqn:E; [by intros _; apply includes_grants|].
  by destruct (tenant_pattern _ _).
Qed.

(** An entry is what the rule of an earlier call gave its caller. *)
Definition from_call (p : CompiledRLSPolicy) (calls : list call) (k : string) (e : CacheEntry) : Prop :=
  exists now ctx t rule ttl, (now, ctx, t) ∈ calls /\ cache_key ctx t = k /\ is_admin ctx = false /\
    rule_for p t = Some rule /\ rule.(cacheable) = true /\ rule.(cache_ttl_seconds) = Some ttl /\
    evaluate_rls_expression is_json rule.(expression) ctx = Ok e.(cached) /\ e.(entry_expires_at) = u64_wrap (now + ttl).
Definition same_rules (p p' : CompiledRLSPolicy) : Prop := p'.(rules_by_type) = p.(rules_by_type) /\ p'.(default_rule) = p.(default_rule).
Lemma same_rule_for p p' t : same_rules p p' -> rule_for p' t = rule_for p t.
Proof. intros [H1 H2]. unfold rule_for. by rewrite H1, H2. Qed.
Lemma call_keeps p0 p calls now ctx t : same_rules p0 p -> (forall k e, p.(cache) !! k = Some e -> from_call p0 calls k e) ->
  let p' := (eval now p ctx t).2 in
  same_rules p0 p' /\ forall k e, p'.(cache) !! k = Some e -> from_call p0 (calls ++ [(now, ctx, t)]) k e.
Proof.
  intros Hr Hc. cbn zeta.
  assert (Hold : forall k e, p.(cache) !! k = Some e -> from_call p0 (calls ++ [(now, ctx, t)]) k e).
  { intros k e He. destruct (Hc k e He) as (n & c & t' & rule & ttl & Hin & Hrest). exists n, c, t', rule, ttl. split; [set_solver|done]. }
  unfold evaluate_compiled. destruct (is_admin ctx) eqn:Ha; [done|]. destruct (rule_for p t) as [rule|] eqn:Et; [|done].
  rewrite (same_rule_for p0) in Et by done.
  destruct (if rule.(cacheable) then _ else None); [done|]. destruct (evaluate_rls_expression _ _ _) as [r|] eqn:Ee; [|done]. cbn [snd].
  destruct (rule.(cacheable)) eqn:Eca; [|done]. destruct (rule.(cache_ttl_seconds)) as [ttl|] eqn:El; [|done].
  split; [exact Hr|]. intros k e. cbn. destruct (decide (cache_key ctx t = k)) as [<-|Hk].
  - rewrite lookup_insert_eq. intros [= <-]. exists now, ctx, t, rule, ttl. split; [set_solver|]. by split_and!.
  - rewrite lookup_insert_ne by done. apply Hold.
Qed.
Lemma after_from_calls p0 calls : forall p past, same_rules p0 p -> (forall k e, p.(cache) !! k = Some e -> from_call p0 past k e) ->
  same_rules p0 (after p calls) /\ forall k e, (after p calls).(cache) !! k = Some e -> from_call p0 (past ++ calls) k e.
Proof.
  induction calls as [|[[now ctx] t] calls IH]; intros p past Hr Hc; [by rewrite app_nil_r|]. cbn [after foldl].
  destruct (call_keeps p0 p past now ctx t Hr Hc) as [Hr' Hc']. destruct (IH _ _ Hr' Hc') as [H1 H2]. split; [exact H1|].
  intros k e He. specialize (H2 k e He). by rewrite <- app_assoc in H2.
Qed.

(** The rule given for a type: the first of its list, or the one for all types. *)
Definition rule_given (rules : gmap string (list RLSRule)) (d : option RLSRule) (t : string) : option RLSRule :=
  match rules !! t with Some (rule :: _) => Some rule | _ => d end.
Lemma rule_for_given rules d t : rule_for (new_compiled rules d) t = rule_given rules d t.
Proof. unfold rule_for, rule_given. cbn. by destruct (rules !! t) as [[|rule l]|]. Qed.
Lemma is_admin_true ctx : is_admin ctx = true <-> "admin"%string ∈ ctx.(roles).
Proof.
  unfold is_admin, has_role. rewrite existsb_exists. split; [intros (r & Hr & ->%String.eqb_eq); by apply list_elem_of_In|].
  intros H. exists "admin"%string. split; [by apply list_elem_of_In|done].
Qed.

(** C28. From an empty cache and whatever calls of [evaluate] came before: a
    caller with the role [admin] and a type without a rule get no filter; anyone else gets what
    the rule gives the caller, or, while an entry lives that an earlier call for
    the same user and type stored, what the rule gave that call's caller (whose
    tenant, roles and claims may differ: [filter_outlives_context]); and that is
    no filter only when the rule's text asks for a role that this caller has. *)
Theorem rls_fails_closed rules d calls now ctx t r p' :
  let p0 := new_compiled rules d in
  eval now (after p0 calls) ctx t = (Ok r, p') ->
  if decide ("admin"%string ∈ ctx.(roles)) then r = None
  else match rule_given rules d t with
       | None => r = None
       | Some rule => exists ctx0 t0 rule0,
           (ctx0 = ctx /\ t0 = t \/
            rule.(cacheable) = true /\ "admin"%string ∉ ctx0.(roles) /\ (ctx0.(user_id) ++ ":" ++ t0 = ctx.(user_id) ++ ":" ++ t)%string /\ exists now0 ttl, (now0, ctx0, t0) ∈ calls /\
              rule0.(cacheable) = true /\ rule0.(cache_ttl_seconds) = Some ttl /\ now < u64_wrap (now0 + ttl)) /\
           rule_given rules d t0 = Some rule0 /\ evaluate_rls_expression is_json rule0.(expression) ctx0 = Ok r /\
           (r = None -> grants rule0.(expression) ctx0)
       end.
Proof.
  intros p0 H. destruct (after_from_calls p0 calls p0 []) as [Hr Hc]; [done|done|]. cbn [app] in Hc.
  unfold evaluate_compiled in H. destruct (decide _) as [Ha|Ha]; rewrite <- is_admin_true in Ha; [rewrite Ha in H; by injection H|].
  apply not_true_is_false in Ha. rewrite Ha, (same_rule_for p0), <- rule_for_given in * by done. fold p0.
  destruct (rule_for p0 t) as [rule|] eqn:Et; [|by injection H].
  destruct (rule.(cacheable)) eqn:Eca; [destruct (cache_hit _ _ _) as [r0|] eqn:Eh|].
  - injection H as -> _. unfold cache_hit in Eh. destruct (_ !! _) as [e|] eqn:Ee; [|done]. cbn in Eh.
    destruct (now <? e.(entry_expires_at)) eqn:El; [|done]. injection Eh as <-. to_prop.
    destruct (Hc _ _ Ee) as (now0 & ctx0 & t0 & rule0 & ttl & Hin & Hk & Hna & H0 & Hca & Httl & Hev & Hx). exists ctx0, t0, rule0. rewrite <- rule_for_given.
    split; [right; rewrite <- is_admin_true; split_and!; try done; [congruence|]; exists now0, ttl; split_and!; try done; lia|]. split_and!; [done|done|]. intros Hn. rewrite Hn in Hev. by apply no_filter_granted.
  - destruct (evaluate_rls_expression _ _ _) as [r0|] eqn:Ee; [|done]. injection H as -> _. exists ctx, t, rule. rewrite <- rule_for_given. split; [by left|].
    split_and!; [done|done|]. intros ->. by apply no_filter_granted.
  - destruct (evaluate_rls_expression _ _ _) as [r0|] eqn:Ee; [|done]. injection H as -> _. exists ctx, t, rule. rewrite <- rule_for_given. split; [by left|].
    split_and!; [done|done|]. intros ->. by apply no_filter_granted.
Qed.

(** An evaluation leaves its answer in the cache for the rule's seconds, under
    the user and the type alone. *)
Lemma evaluation_cached now p ctx t rule r ttl :
  is_admin ctx = false -> rule_for p t = Some rule -> rule.(cacheable) = true -> rule.(cache_ttl_seconds) = Some ttl ->
  cache_hit now p (cache_key ctx t) = None -> evaluate_rls_expression is_json rule.(expression) ctx = Ok r ->
  eval now p ctx t = (Ok r, cache_insert p (cache_key ctx t) (mkEntry r (u64_wrap (now + ttl)))).
Proof. intros Ha Hr Hc Ht Hm He. unfold evaluate_compiled. by rewrite Ha, Hr, Hc, Hm, He, Ht. Qed.

Lemma hit_served later p ctx t rule r :
  is_admin ctx = false -> rule_for p t = Some rule -> rule.(cacheable) = true ->
  cache_hit later p (cache_key ctx t) = Some r -> eval later p ctx t = (Ok r, p).
Proof. intros Ha Hr Hc Hh. unfold evaluate_compiled. by rewrite Ha, Hr, Hc, Hh. Qed.

(** Within a rule's caching time the filter computed for one context is used for
    every other context of the same user, whatever tenant, roles or claims it
    has. *)
Theorem filter_outlives_context now later p ctx ctx' t rule r ttl :
  rule_for p t = Some rule -> rule.(cacheable) = true -> rule.(cache_ttl_seconds) = Some ttl ->
  is_admin ctx = false -> is_admin ctx' = false -> ctx.(user_id) = ctx'.(user_id) ->
  cache_hit now p (cache_key ctx t) = None -> evaluate_rls_expression is_json rule.(expression) ctx = Ok r ->
  later < u64_wrap (now + ttl) ->
  (eval later (eval now p ctx t).2 ctx' t).1 = Ok r.
Proof.
  intros Hr Hc Ht Ha Ha' Hu Hm He Hl. rewrite (evaluation_cached now p ctx t rule r ttl Ha Hr Hc Ht Hm He). cbn [snd].
  rewrite (hit_served later (cache_insert _ _ _) ctx' t rule r Ha' Hr Hc); [done|].
  unfold cache_hit, cache_key. cbn. rewrite Hu, lookup_insert_eq. cbn.
  by apply Z.ltb_lt in Hl as ->.
Qed.
End CompiledFacts.

Module RlsDemo.
Definition member_of (tenant : string) : SecurityContext :=
  {| user_id := "u"; roles := []; tenant_id := Some tenant; scopes := []; attributes := ∅; request_id := "";
     ip_address := None; authenticated_at := 0; expires_at := 1000; issuer := None; audience := None |}.
Definition tenant_rule : RLSRule := mkRule "tenant" "user.tenant_id == object.tenant_id" true (Some 300).
Definition policy : CompiledRLSPolicy := new_compiled {["Post" := [tenant_rule]]} None.
Definition no_json (_ : string) : bool := false.

Lemma filter_outlives_context_witness :
  (evaluate_compiled no_json 10 (evaluate_compiled no_json 0 policy (member_of "a") "Post").2 (member_of "b") "Post").1 =
  Ok (Some (equals "tenant_id" (JString "a"))).
Proof. apply (filter_outlives_context no_json 0 10 policy (member_of "a") (member_of "b") "Post" tenant_rule _ 300); reflexivity. Defined.

Definition role_rule : RLSRule := mkRule "role" "user.roles includes 'editor'" false None.
Definition role_policy : CompiledRLSPolicy := new_compiled {["Post" := [role_rule]]} None.
Definition editor : SecurityContext :=
  {| user_id := "u"; roles := ["editor"%string]; tenant_id := None; scopes := []; attributes := ∅; request_id := "";
     ip_address := None; authenticated_at := 0; expires_at := 1000; issuer := None; audience := None |}.

(** The tenant rule's filter of the first call is what the second one gets. *)
Lemma rls_fails_closed_witness :
  exists ctx0 t0 rule0, evaluate_rls_expression no_json rule0.(expression) ctx0 = Ok (Some (equals "tenant_id" (JString "a"))) /\
    rule_for policy t0 = Some rule0 /\ cache_key ctx0 t0 = cache_key (member_of "b") "Post".
Proof.
  destruct (evaluate_compiled no_json 10 (after no_json policy [(0, member_of "a", "Post"%string)]) (member_of "b") "Post") as [o p'] eqn:E.
  assert (o = Ok (Some (equals "tenant_id" (JString "a")))) as -> by (apply (f_equal fst) in E; cbn [fst] in E; rewrite <- E; vm_compute; reflexivity).
  destruct (rls_fails_closed no_json {["Post" := [tenant_rule]]} None [(0, member_of "a", "Post"%string)] 10 (member_of "b") "Post"
    (Some (equals "tenant_id" (JString "a"))) p' E) as (ctx0 & t0 & rule0 & Hc & Hr & He & _).
  exists ctx0, t0, rule0. rewrite <- rule_for_given in Hr. split_and!; [done|done|]. by destruct Hc as [[-> ->]|(_ & _ & Hk & _)].
Defined.
Example editor_unfiltered :
  (evaluate_compiled no_json 0 role_policy editor "Post").1 = Ok None /\
  is_ok (evaluate_compiled no_json 0 role_policy (member_of "a") "Post").1 = false.
Proof. by vm_compute. Qed.
End RlsDemo.
