(* ===== verification/FieldAccess.v ===== *)
(** * Fields a user may read

    [runtime/field_filter.rs]: requested fields sorted into allowed, masked and
    rejected by the scopes of the user's roles; [null_masked_fields]
    ([runtime/executor/mod.rs]). *)

From S2P Require Import Prelude Json SecurityContext CompiledSchema.
#[local] Open Scope Z_scope.

Definition can_access_field (ctx : SecurityContext) (c : SecurityConfig) (f : FieldDefinition) : bool :=
  match f.(requires_scope) with None => true | Some required => can_access_scope ctx c required end.
Definition filter_fields (ctx : SecurityContext) (c : SecurityConfig) (fields : list FieldDefinition) : list FieldDefinition :=
  List.filter (can_access_field ctx c) fields.

Record FieldAccessResult : Type := mkAccess { allowed : list string; masked : list string }.
Definition allow (name : string) (r : FieldAccessResult) : FieldAccessResult := mkAccess (name :: r.(allowed)) r.(masked).
Definition mask (name : string) (r : FieldAccessResult) : FieldAccessResult := mkAccess r.(allowed) (name :: r.(masked)).

(** The error is the first rejected field. *)
Fixpoint classify_field_access (ctx : SecurityContext) (c : SecurityConfig) (fields : list FieldDefinition)
    (requested : list string) : result string FieldAccessResult :=
  match requested with
  | [] => Ok (mkAccess [] [])
  | name :: requested =>
      match find (fun f => f.(field_name) =s name) fields with
      | None => allow name <$> classify_field_access ctx c fields requested
      | Some f =>
          if can_access_field ctx c f then allow name <$> classify_field_access ctx c fields requested
          else
            match f.(on_deny) with
            | Mask => mask name <$> classify_field_access ctx c fields requested
            | Reject => Err name
            end
      end
  end.

(** On the keys of an object; through arrays. *)
Definition null_field (fields : list (string * json)) (name : string) : list (string * json) :=
  match assoc name fields with Some _ => map_insert name JNull fields | None => fields end.
Fixpoint null_masked_fields (masked : list string) (v : json) : json :=
  match v with
  | JObject fields => JObject (foldl null_field fields masked)
  | JArray items => JArray (map (null_masked_fields masked) items)
  | _ => v
  end.

(** ** What classification decides *)
Section Facts.
Context (ctx : SecurityContext) (c : SecurityConfig) (fields : list FieldDefinition).
Notation lookup name := (find (fun f => f.(field_name) =s name) fields).
Definition readable (name : string) : bool := match lookup name with Some f => can_access_field ctx c f | None => true end.
Definition rejects (name : string) : bool :=
  match lookup name with
  | Some f => negb (can_access_field ctx c f) && match f.(on_deny) with Reject => true | Mask => false end
  | None => false
  end.

(** The request fails with the first field that is refused; otherwise what can
    be read is allowed and the rest masked, in order. *)
Lemma classify_exact requested :
  classify_field_access ctx c fields requested =
  match find rejects requested with
  | Some name => Err name
  | None => Ok (mkAccess (List.filter readable requested) (List.filter (fun n => negb (readable n)) requested))
  end.
Proof.
  induction requested as [|name l IH]; [done|]. cbn [classify_field_access find List.filter]. rewrite IH.
  destruct (rejects name) eqn:Er, (readable name) eqn:Ea; unfold rejects, readable in Er, Ea;
    destruct (lookup name) as [f|]; try done;
    try (destruct (can_access_field ctx c f); cbn [negb andb] in *; try done; destruct f.(on_deny); try done);
    by destruct (find rejects l).
Qed.

(** A name the type does not list is always allowed. *)
Lemma unlisted_allowed name : lookup name = None -> classify_field_access ctx c fields [name] = Ok (mkAccess [name] []).
Proof. intros H. cbn. by rewrite H. Qed.
End Facts.

Lemma null_field_assoc fields name k :
  assoc k (null_field fields name) = if (name =s k) && is_some (assoc name fields) then Some JNull else assoc k fields.
Proof.
  unfold null_field. destruct (assoc name fields) as [v|] eqn:E; cbn; [|by rewrite andb_false_r].
  by rewrite assoc_map_insert, andb_true_r.
Qed.

(** Every masked field present becomes null, the others stay. *)
Lemma null_masked_exact masked fields k :
  json_get (null_masked_fields masked (JObject fields)) k =
  match assoc k fields with Some v => Some (if member k masked then JNull else v) | None => None end.
Proof.
  cbn [null_masked_fields json_get]. revert fields. induction masked as [|name masked IH]; intros fields; cbn [foldl].
  - by destruct (assoc k fields).
  - rewrite IH, null_field_assoc. cbn [member existsb]. rewrite (String.eqb_sym k name). destruct (name =s k) eqn:E; cbn [andb orb].
    + apply String.eqb_eq in E as ->. destruct (assoc k fields); cbn; [|done]. by repeat case_match.
    + done.
Qed.
