(* ===== verification/Projection.v ===== *)
(** * From rows to responses

    [runtime/projection.rs]: rows of JSON become the response's objects.
    [serde_json::from_str] is a parameter.  The source's functions cannot fail
    but follow text inside text, so they are written with fuel, and enough fuel
    is shown to exist. *)

From S2P Require Import Prelude Json GraphQL Matcher SecurityContext CompiledSchema.
Import GraphQL.Types.
#[local] Open Scope Z_scope.

(** ** Mappings *)
Inductive FieldMapping : Type := mkMapping {
  source : string;
  output : string;
  source_fallback : option string;
  nested_typename : option string;
  nested_fields : option (list FieldMapping)
}.
Definition simple (name : string) : FieldMapping := mkMapping name name None None None.
Definition aliased (src alias : string) : FieldMapping := mkMapping src alias None None None.
Definition nested_object (name typename : string) (fields : list FieldMapping) : FieldMapping :=
  mkMapping name name None (Some typename) (Some fields).
Definition nested_object_aliased (src alias typename : string) (fields : list FieldMapping) : FieldMapping :=
  mkMapping src alias None (Some typename) (Some fields).

Record ProjectionMapper : Type := mkMapper {
  mapper_fields : list FieldMapping;
  typename : option string;
  federation_mode : bool
}.
Definition new (fields : list string) : ProjectionMapper := mkMapper (map simple fields) None false.
Definition with_typename (m : ProjectionMapper) (t : string) : ProjectionMapper :=
  mkMapper m.(mapper_fields) (Some t) m.(federation_mode).

(** [iter().map(f).collect()], where [f] may run out. *)
Fixpoint collect {A B} (f : A -> option B) (l : list A) : option (list B) :=
  match l with [] => Some [] | x :: l => y ← f x; ys ← collect f l; Some (y :: ys) end.

Definition typename_object (t : string) : list (string * json) := [("__typename"%string, JString t)].

Section Mapper.
Context (from_str : string -> option json).

(** Text that holds an object or an array. *)
Definition embedded (s : string) : option json :=
  match from_str s with Some (JObject f) => Some (JObject f) | Some (JArray l) => Some (JArray l) | _ => None end.

Fixpoint project_nested (fuel : nat) (value : json) (field : FieldMapping) : option json :=
  match fuel with
  | O => None
  | S fuel =>
      match value with
      | JObject obj =>
          match field.(nested_typename) with
          | Some t =>
              match field.(nested_fields) with
              | Some nested =>
                  JObject <$> foldl (fun acc nf =>
                    result ← acc;
                    match assoc nf.(source) obj with
                    | Some v => p ← project_nested fuel v nf; Some (map_insert nf.(output) p result)
                    | None => Some result
                    end) (Some (typename_object t)) nested
              | None => Some (JObject (foldl (fun r kv => map_insert kv.1 kv.2 r) (typename_object t) obj))
              end
          | None => Some value
          end
      | JArray arr =>
          match field.(nested_typename) with
          | Some _ => JArray <$> collect (fun item => project_nested fuel item field) arr
          | None => Some value
          end
      | JString s => match embedded s with Some parsed => project_nested fuel parsed field | None => Some value end
      | _ => Some value
      end
  end.

(** What is followed: the nodes of a value and the characters of its strings. *)
Fixpoint size (v : json) : nat :=
  match v with
  | JString s => S (String.length s)
  | JArray l => S (sum_list_with size l)
  | JObject l => S (sum_list_with (fun kv => size kv.2) l)
  | _ => 1
  end.
Definition project_nested_value (value : json) (field : FieldMapping) : option json := project_nested (S (size value)) value field.

Definition project_json_object (m : ProjectionMapper) (obj : list (string * json)) : option json :=
  JObject <$> foldl (fun acc f =>
    result ← acc;
    match (match assoc f.(source) obj with
           | Some v => Some v
           | None => f.(source_fallback) ≫= fun fb => assoc fb obj
           end) with
    | Some v => p ← project_nested_value v f; Some (map_insert f.(output) p result)
    | None => Some result
    end) (Some (match m.(typename) with Some t => typename_object t | None => [] end)) m.(mapper_fields).

Definition project (m : ProjectionMapper) (v : json) : option json :=
  match v with
  | JObject obj => project_json_object m obj
  | JArray arr =>
      JArray <$> collect (fun item => match item with JObject obj => project_json_object m obj | _ => Some item end) arr
  | _ => Some v
  end.

(** ** [ResultProjector] *)
Definition wants_typename (sels : list FieldSelection) : bool :=
  match sels with [] => false | root :: _ => existsb (fun f => name f =s "__typename") root.(Types.nested_fields) end.
Definition configure_typename_from_selections (m : ProjectionMapper) (sels : list FieldSelection) (entity_type : string) :
    ProjectionMapper :=
  if wants_typename sels then with_typename m entity_type else m.

Definition project_results (m : ProjectionMapper) (results : list json) (is_list : bool) : option json :=
  if is_list then JArray <$> collect (project m) results
  else match results with first :: _ => project m first | [] => Some JNull end.
End Mapper.

Definition wrap_in_data_envelope (result : json) (query_name : string) : json :=
  JObject [("data"%string, JObject [(query_name, result)])].

Definition add_typename (t : string) (v : json) : json :=
  match v with JObject obj => JObject (map_insert "__typename" (JString t) obj) | _ => v end.
Definition add_typename_only (v : json) (t : string) : json :=
  match v with JArray arr => JArray (map (add_typename t) arr) | _ => add_typename t v end.

(** ** Enough fuel, and what simple mappings give *)
Section Facts.
Context (from_str : string -> option json).

Lemma foldl_option_some {A B} (f : A -> B -> option A) l a :
  (forall x a, x ∈ l -> is_Some (f a x)) -> is_Some (foldl (fun acc x => acc ≫= fun a => f a x) (Some a) l).
Proof.
  revert a. induction l as [|x l IH]; intros a H; cbn; [by eexists|].
  destruct (H x a) as [y ->]; [set_solver|]. apply IH. set_solver.
Qed.
Lemma collect_some {A B} (f : A -> option B) l : (forall x, x ∈ l -> is_Some (f x)) -> is_Some (collect f l).
Proof.
  induction l as [|x l IH]; intros H; cbn; [by eexists|].
  destruct (H x) as [y ->]; [set_solver|]. destruct IH as [ys ->]; [set_solver|]. by eexists.
Qed.
Lemma size_in l x : x ∈ l -> (size x <= sum_list_with size l)%nat.
Proof. induction 1; cbn; lia. Qed.
Lemma size_assoc k l v : assoc k l = Some v -> (size v <= sum_list_with (fun kv => size kv.2) l)%nat.
Proof. induction l as [|[k' w] l IH]; cbn; [done|]. destruct (k' =s k); [intros [= ->]; lia|]. intros H%IH. lia. Qed.

(** A text is at least as long as the value it spells is large. *)
Hypothesis text_size : forall s v, from_str s = Some v -> (size v <= String.length s)%nat.

Lemma fuel_suffices fuel value field : (size value < fuel)%nat -> is_Some (project_nested from_str fuel value field).
Proof.
  revert value field. induction fuel as [|fuel IH]; intros value field Hs; [lia|].
  destruct value as [| | |s|arr|obj]; cbn [project_nested] in *; try by eexists.
  - destruct (embedded from_str s) as [v|] eqn:E; [|by eexists]. apply IH.
    assert (from_str s = Some v) as H%text_size; [|cbn in Hs; lia].
    unfold embedded in E. destruct (from_str s) as [[]|]; congruence.
  - destruct field.(nested_typename); [|by eexists]. apply fmap_is_Some, collect_some.
    intros x Hx%size_in. apply IH. cbn in Hs. lia.
  - destruct field.(nested_typename) as [t|]; [|by eexists]. destruct field.(nested_fields) as [nested|]; [|by eexists].
    apply fmap_is_Some. apply (foldl_option_some (fun result nf => match assoc nf.(source) obj with
      | Some v => p ← project_nested from_str fuel v nf; Some (map_insert nf.(output) p result)
      | None => Some result end)).
    intros nf result _. destruct (assoc nf.(source) obj) as [v|] eqn:E; [|by eexists].
    apply size_assoc in E. destruct (IH v nf) as [p ->]; [cbn in Hs; lia|]. by eexists.
Qed.

Lemma project_json_object_some m obj : is_Some (project_json_object from_str m obj).
Proof.
  unfold project_json_object. apply fmap_is_Some.
  apply (foldl_option_some (fun result f => match (match assoc f.(source) obj with
           | Some v => Some v | None => f.(source_fallback) ≫= fun fb => assoc fb obj end) with
    | Some v => p ← project_nested_value from_str v f; Some (map_insert f.(output) p result)
    | None => Some result end)).
  intros f result _. destruct (match assoc _ _ with Some _ => _ | None => _ end) as [v|]; [|by eexists].
  destruct (fuel_suffices (S (size v)) v f) as [p Hp]; [lia|]. unfold project_nested_value. rewrite Hp. by eexists.
Qed.

(** Projection always has a result. *)
Lemma project_some m v : is_Some (project from_str m v).
Proof.
  destruct v as [| | | |arr|obj]; cbn [project]; [by eexists.. | | by apply project_json_object_some].
  apply fmap_is_Some, collect_some. intros [| | | | |obj] _; try by eexists. by apply project_json_object_some.
Qed.
Lemma project_results_some m rows l : is_Some (project_results from_str m rows l).
Proof.
  unfold project_results. destruct l.
  - apply fmap_is_Some, collect_some. intros v _. by apply project_some.
  - destruct rows as [|v rows]; [by eexists|]. by apply project_some.
Qed.
End Facts.
