(* ===== verification/ProjectionSql.v ===== *)
(** * Projection in SQL

    [fraiseql-db/src/projection_generator.rs]: the expression that selects the
    requested fields of the JSON column, and
    [build_typed_projection_fields] ([runtime/executor/query.rs]), which makes
    its input from a selection set and the schema. *)

From Stdlib Require Import Ascii.
From S2P Require Import Prelude Json WhereClause SqlDialect SqlText GraphQL OrderBy CompiledSchema.
#[local] Open Scope Z_scope.
#[local] Open Scope string_scope.

Inductive FieldKind : Type := Text | Native | Composite.
Inductive ProjectionField : Type := mkProjection {
  name : string;
  kind : FieldKind;
  sub_fields : option (list ProjectionField)
}.
Definition scalar (n : string) : ProjectionField := mkProjection n Text None.
Definition native (n : string) : ProjectionField := mkProjection n Native None.
Definition composite (n : string) : ProjectionField := mkProjection n Composite None.
Definition composite_with_sub_fields (n : string) (l : list ProjectionField) : ProjectionField :=
  mkProjection n Composite (Some l).

Definition validate_field_name (field : string) : result FraiseQLError unit :=
  if all_chars name_char field then Ok tt
  else Err (validation ("field name '" ++ field ++ "' contains characters that cannot be safely projected; " ++
    "only ASCII alphanumeric characters and underscores are allowed")).
Fixpoint validate_all (fields : list string) : result FraiseQLError unit :=
  match fields with [] => Ok tt | f :: fields => _ ← validate_field_name f; validate_all fields end.

Definition MAX_PROJECTION_DEPTH : nat := 4.
Definition escape_sql_string (s : string) : string := replace_char "'" "''" s.
Definition quoted_column (column : string) : string := dq ++ column ++ dq.

(** ** PostgreSQL *)
Definition postgres_pair (column field : string) : string :=
  "'" ++ escape_sql_string field ++ "', " ++ quoted_column column ++ "->>'" ++
  escape_sql_string (to_snake_case field) ++ "' ".
Definition generate_projection_sql (column : string) (fields : list string) : result FraiseQLError string :=
  match fields with
  | [] => Ok (quoted_column column)
  | _ =>
      _ ← validate_all fields;
      Ok ("jsonb_build_object(" ++ String.concat "," (map (postgres_pair column) fields) ++ ")")
  end.

(** [room] is [MAX_PROJECTION_DEPTH - depth]; the expression without its key. *)
Definition plain_expr (f : ProjectionField) (path : string) : string :=
  path ++ match f.(kind) with Text => "->>" | _ => "->" end ++ "'" ++ escape_sql_string (to_snake_case f.(name)) ++ "'".
Fixpoint render_expr (room : nat) (f : ProjectionField) (path : string) : string :=
  match room, f.(sub_fields) with
  | S room, Some ((_ :: _) as subs) =>
      let nested_path := path ++ "->'" ++ escape_sql_string (to_snake_case f.(name)) ++ "'" in
      "jsonb_build_object(" ++
        String.concat "," (map (fun sf => "'" ++ escape_sql_string sf.(name) ++ "', " ++ render_expr room sf nested_path) subs) ++
      ")"
  | _, _ => plain_expr f path
  end.
Definition render_field (room : nat) (path : string) (f : ProjectionField) : string :=
  "'" ++ escape_sql_string f.(name) ++ "', " ++ render_expr room f path.
Definition generate_typed_projection_sql (column : string) (fields : list ProjectionField) : result FraiseQLError string :=
  match fields with
  | [] => Ok (quoted_column column)
  | _ => Ok ("jsonb_build_object(" ++
      String.concat "," (map (render_field MAX_PROJECTION_DEPTH (quoted_column column)) fields) ++ ")")
  end.
Definition generate_select_clause (column table_alias : string) (fields : list string) : result FraiseQLError string :=
  projection ← generate_projection_sql column fields;
  Ok ("SELECT " ++ projection ++ " as " ++ dq ++ column ++ dq ++ " FROM " ++ dq ++ table_alias ++ dq ++ " ").

(** ** MySQL and SQLite *)
Definition mysql_pair (column field : string) : string :=
  "'" ++ escape_sql_string field ++ "', JSON_EXTRACT(`" ++ column ++ "`, '$." ++ to_snake_case field ++ "')".
Definition mysql_projection_sql (column : string) (fields : list string) : result FraiseQLError string :=
  match fields with
  | [] => Ok ("`" ++ column ++ "`")
  | _ => _ ← validate_all fields; Ok ("JSON_OBJECT(" ++ String.concat "," (map (mysql_pair column) fields) ++ ")")
  end.
Definition sqlite_pair (column field : string) : string :=
  "'" ++ escape_sql_string field ++ "', json_extract(" ++ quoted_column column ++ ", '$." ++ to_snake_case field ++ "')".
Definition sqlite_projection_sql (column : string) (fields : list string) : result FraiseQLError string :=
  match fields with
  | [] => Ok (quoted_column column)
  | _ => _ ← validate_all fields; Ok ("json_object(" ++ String.concat "," (map (sqlite_pair column) fields) ++ ")")
  end.

(** ** From a selection set *)
Definition SELECTION_MAX_DEPTH : nat := 4.
Definition field_kind (fd : option FieldDefinition) : FieldKind :=
  match fd with
  | None => Native
  | Some fd =>
      if negb (is_scalar fd.(field_type)) then Composite
      else match fd.(field_type) with FT.TString | FT.Id => Text | _ => Native end
  end.
(** The type whose sub-fields are projected, if any. *)
Definition child_type (fd : option FieldDefinition) : option string :=
  fd ← fd;
  if is_scalar fd.(field_type) || is_list fd.(field_type) then None
  else n ← referenced_name fd.(field_type); if n =s "" then None else Some n.

(** [room] is [MAX_DEPTH - depth]. *)
Fixpoint build_typed_projection_fields (schema : Schema) (room : nat) (parent : string) (sels : list Types.FieldSelection) :
    list ProjectionField :=
  let type_def := find_type schema parent in
  map (fun sel =>
    let fd := type_def ≫= fun td => find_field td (Types.name sel) in
    let subs :=
      match Types.nested_fields sel, room with
      | _ :: _, S room =>
          match child_type fd with
          | Some child => Some (build_typed_projection_fields schema room child (Types.nested_fields sel))
          | None => None
          end
      | _, _ => None
      end in
    mkProjection (Types.response_key sel) (field_kind fd) subs)
  (List.filter (fun sel => negb (Types.name sel =s "__typename")) sels).
