(* ===== verification/Execution.v ===== *)
(** * Query execution

    [runtime/planner.rs] and [runtime/executor/query.rs]: a matched query, the
    policies and the token become one request to the database, and its rows the
    response.  The database is the interface [DatabaseAdapter]; the hasher and
    the parsers outside the crate are parameters.  Each function of the source
    is split where it calls the adapter: what is asked, and what is made of
    the rows. *)

From Stdlib Require Import Ascii.
From S2P Require Import Prelude Json WhereClause GraphQL Matcher CacheStore SecurityContext ResponseCache OrderBy CacheKey CompiledSchema RowSecurity FieldAccess Projection ProjectionSql.
Import Matching.
#[local] Open Scope Z_scope.

Notation error := FraiseQLError.
Notation QMatch := (@QueryMatch QueryDefinition).

(** ** The database *)
Record Request : Type := mkRequest {
  view : string;
  hint : option SqlProjectionHint;
  where_clause : option WhereClause;
  limit : option Z;
  offset : option Z;
  order_by : option (list OrderByClause)
}.
Class DatabaseAdapter (D : Type) : Type := {
  database_type : D -> DatabaseType;
  execute_with_projection : D -> Request -> result error (list json);
  execute_where_query : D -> string -> option WhereClause -> result error (list json);
  set_session_variables : D -> list (string * string) -> result error D
}.

(** ** [QueryPlanner] *)
Module Planner.
Inductive JsonbStrategy : Type := Project | Stream.
Record ExecutionPlan : Type := mkPlan {
  sql : string;
  parameters : gmap string json;
  is_cached : bool;
  estimated_cost : Z;
  projection_fields : list string;
  jsonb_strategy : JsonbStrategy
}.
Definition extract_projection_fields (sels : list Types.FieldSelection) : list string :=
  match sels with
  | root :: _ =>
      map Types.response_key (List.filter (fun f => negb (Types.name f =s "__typename")) (Types.nested_fields root))
  | [] => []
  end.
Definition choose_jsonb_strategy (default_strategy : JsonbStrategy) (fields : list string) : JsonbStrategy :=
  match fields with [] => default_strategy | _ => Project end.
Definition generate_sql (qm : QMatch) : string :=
  "SELECT data FROM " ++ default "unknown"%string qm.(query_def).(sql_source).
(** The pairs of the arguments, a hash map's, in no order. *)
Definition extract_parameters (qm : QMatch) : gmap string json := qm.(Matching.arguments).
Definition estimate_cost (qm : QMatch) : Z :=
  100 + Z.of_nat (length qm.(fields)) * 10 + Z.of_nat (base.size qm.(Matching.arguments)) * 5.
Definition plan (default_strategy : JsonbStrategy) (qm : QMatch) : ExecutionPlan :=
  let projection_fields := extract_projection_fields qm.(selections) in
  mkPlan (generate_sql qm) (extract_parameters qm) false (estimate_cost qm) projection_fields
    (choose_jsonb_strategy default_strategy projection_fields).
End Planner.
Import Planner.

(** ** Helpers of [query.rs] *)
Definition field_type_to_order_by_type (t : FieldType) : OrderByFieldType :=
  match t with
  | FT.Int => Integer
  | FT.Float | FT.Decimal => Numeric
  | FT.Boolean => OrderBy.Boolean
  | FT.DateTime => OrderBy.DateTime
  | FT.Date => OrderBy.Date
  | FT.Time => OrderBy.Time
  | _ => OrderBy.Text
  end.
Definition enrich_order_by_clause (td : option TypeDefinition) (native : gmap string string) (c : OrderByClause) : OrderByClause :=
  let t := match td ≫= fun td => find_field td c.(order_field) with
           | Some f => field_type_to_order_by_type f.(CompiledSchema.field_type)
           | None => c.(OrderBy.field_type)
           end in
  let key := storage_key c in
  mkOrderBy c.(order_field) c.(direction) t
    (match native !! key with Some _ => Some key | None => c.(native_column) end).
Definition enrich_order_by_clauses (clauses : list OrderByClause) (schema : Schema) (return_type : string)
    (native : gmap string string) : list OrderByClause :=
  map (enrich_order_by_clause (find_type schema return_type) native) clauses.

Definition compute_projection_reduction (count : nat) : Z :=
  let requested := Nat.min count 20 in
  let percent := (Z.of_nat (20 - requested) * 100) `div` 20 in
  Z.max 10 (Z.min 90 percent).

Fixpoint selection_contains_field (field : string) (sel : Types.FieldSelection) : bool :=
  (Types.name sel =s field) ||
  (Chars.starts_with "..." (Types.name sel) && existsb (selection_contains_field field) (Types.nested_fields sel)).
Definition selections_contain_field (sels : list Types.FieldSelection) (field : string) : bool :=
  existsb (selection_contains_field field) sels.

Definition AUTO_PARAM_NAMES : list string :=
  ["where"; "limit"; "offset"; "orderBy"; "first"; "last"; "after"; "before"].
Definition explicit_conditions (defined : list ArgumentDefinition) (provided : gmap string json) (native : gmap string string) :
    list WhereClause :=
  omap (fun arg => column_equals native arg.(arg_name) <$> provided !! arg.(arg_name))
    (List.filter (fun arg => negb (member arg.(arg_name) AUTO_PARAM_NAMES)) defined).
Definition combine_explicit_arg_where (existing : option WhereClause) (defined : list ArgumentDefinition)
    (provided : gmap string json) (native : gmap string string) : option WhereClause :=
  match explicit_conditions defined provided native with
  | [] => existing
  | conditions => conjunction (match existing with Some prev => [prev] | None => [] end ++ conditions)
  end.

(** [iter().map(f).collect::<Result<_>>()], [Option::transpose]. *)
Fixpoint each {A B} (f : A -> result error B) (l : list A) : result error (list B) :=
  match l with [] => Ok [] | x :: l => y ← f x; ys ← each f l; Ok (y :: ys) end.
Definition transpose {A B} (f : A -> result error B) (o : option A) : result error (option B) :=
  match o with Some a => Some <$> f a | None => Ok None end.

(** The conditions of the token, after those of the policy. *)
Definition inject_conditions (qd : QueryDefinition) (ctx : SecurityContext) : result error (list WhereClause) :=
  each (fun p => v ← resolve_inject_value p.1 p.2 ctx; Ok (inject_param_where_clause p.1 v qd.(native_columns)))
    qd.(inject_params).
Definition security_where (qd : QueryDefinition) (rls : option WhereClause) (ctx : SecurityContext) :
    result error (option WhereClause) :=
  match qd.(inject_params) with
  | [] => Ok rls
  | _ =>
      conditions ← inject_conditions qd ctx;
      Ok (conjunction (match rls with Some c => [c] | None => [] end ++ conditions))
  end.
Definition both_where (sec user : option WhereClause) : option WhereClause :=
  match sec, user with
  | None, o => o
  | o, None => o
  | Some sec, Some user => Some (And [sec; user])
  end.

(** What the [where], [limit], [offset] and [orderBy] arguments say. *)
Definition user_where (qd : QueryDefinition) (args : gmap string json) : result error (option WhereClause) :=
  if qd.(auto_params).(has_where) then transpose FromJson.from_graphql_json (args !! "where") else Ok None.
Definition u32_arg (v : option json) : option Z := n ← v ≫= as_u64; if n <=? u32_max then Some n else None.
Definition order_by_arg (schema : Schema) (qd : QueryDefinition) (v : option json) : result error (option (list OrderByClause)) :=
  match transpose OrderBy.from_graphql_json v with
  | Ok o => Ok (option_map (fun cs => enrich_order_by_clauses cs schema qd.(return_type) qd.(native_columns)) o)
  | Err e => Err e
  end.

Definition no_sql_source : error := validation "Query has no SQL source".
Definition not_found_in_schema (qd : QueryDefinition) : error :=
  validation ("Query '" ++ qd.(query_name) ++ "' not found in schema").
Definition root_fields (qm : QMatch) : list Types.FieldSelection :=
  match qm.(selections) with [] => [] | s :: _ => Types.nested_fields s end.

(** ** [Executor] *)
Section Executor.
Context {P D S M Sub : Type} {RP : RLSPolicy P} {DB : DatabaseAdapter D} {ST : Store (Z * Z) ResponseEntry S}.
(** Outside the crate: the reader of GraphQL text, [serde_json], the order of
    [sort_unstable_by_key], the hasher; the text of the current time. *)
Context (read_document : string -> result string Ast.document) (from_str : string -> option json).
Context (sort : list (nat * string) -> list (nat * string)).
Context (json_text : json -> string) (finish : list SecurityHash.write -> Z) (started_at : string).

Record Executor : Type := mkExecutor {
  compiled : @Schema.CompiledSchema QueryDefinition M Sub;
  schema : CompiledSchema.Schema;
  default_strategy : JsonbStrategy;
  session : SessionVariablesConfig;
  rls_policy : option P;
  response_cache : option (ResponseCache.Cache (S := S));
  adapter : D
}.
Definition with_policy (ex : Executor) (p : option P) : Executor :=
  mkExecutor ex.(compiled) ex.(schema) ex.(default_strategy) ex.(session) p ex.(response_cache) ex.(adapter).
Definition with_cache (ex : Executor) (c : option (ResponseCache.Cache (S := S))) : Executor :=
  mkExecutor ex.(compiled) ex.(schema) ex.(default_strategy) ex.(session) ex.(rls_policy) c ex.(adapter).
Definition with_adapter (ex : Executor) (d : D) : Executor :=
  mkExecutor ex.(compiled) ex.(schema) ex.(default_strategy) ex.(session) ex.(rls_policy) ex.(response_cache) d.

(** The policy is asked for the query's name. *)
Definition evaluate_policy (now : Z) (ex : Executor) (ctx : SecurityContext) (qd : QueryDefinition) :
    result error (option WhereClause) * Executor :=
  match ex.(rls_policy) with
  | Some p => let '(r, p') := evaluate now p ctx qd.(query_name) in (r, with_policy ex (Some p'))
  | None => (Ok None, ex)
  end.

Definition projection_hint (ex : Executor) (qm : QMatch) (plan : ExecutionPlan) : option SqlProjectionHint :=
  match plan.(projection_fields), plan.(jsonb_strategy) with
  | _ :: _, Project =>
      let typed := build_typed_projection_fields ex.(schema) SELECTION_MAX_DEPTH qm.(query_def).(return_type) (root_fields qm) in
      Some {| database := database_type ex.(adapter);
              projection_template := match generate_typed_projection_sql "data" typed with Ok sql => sql | Err _ => "data" end;
              estimated_reduction_percent := compute_projection_reduction (length plan.(projection_fields)) |}
  | _, _ => None
  end.

(** *** With a security context *)

(** The request, from what the policy answered. *)
Definition secured_request (ex : Executor) (qm : QMatch) (rls : option WhereClause) (ctx : SecurityContext) :
    result error Request :=
  let qd := qm.(query_def) in
  let args := qm.(Matching.arguments) in
  let plan := Planner.plan ex.(default_strategy) qm in
  source ← ok_or qd.(sql_source) no_sql_source;
  sec ← security_where qd rls ctx;
  user ← user_where qd args;
  let combined := combine_explicit_arg_where (both_where sec user) qd.(CompiledSchema.arguments) args qd.(native_columns) in
  let limit := if qd.(auto_params).(has_limit) then u32_arg (args !! "limit") else None in
  let offset := if qd.(auto_params).(has_offset) then u32_arg (args !! "offset") else None in
  order ← (if qd.(auto_params).(has_order_by) then order_by_arg ex.(schema) qd (args !! "orderBy") else Ok None);
  Ok (mkRequest source (projection_hint ex qm plan) combined limit offset order).

Definition apply_field_rbac_filtering (ex : Executor) (return_type : string) (fields : list string) (ctx : SecurityContext) :
    result error FieldAccessResult :=
  match ex.(schema).(security), find_type ex.(schema) return_type with
  | Some config, Some td =>
      match classify_field_access ctx config td.(type_fields) fields with
      | Ok r => Ok r
      | Err rejected =>
          Err (Authorization ("Access denied: field '" ++ rejected ++ "' on type '" ++ return_type ++
            "' requires a scope you do not have") (Some "read"%string) (Some (return_type ++ "." ++ rejected)%string))
      end
  | _, _ => Ok (mkAccess fields [])
  end.

(** [None] never comes out of the projector (lemma [project_results_some]). *)
Definition projector_fuel : error := Internal (WhereClause.Text "projection") None.
Definition project_rows (fields : list string) (qm : QMatch) (rows : list json) : result error json :=
  let qd := qm.(query_def) in
  ok_or (project_results from_str
    (configure_typename_from_selections (Projection.new fields) qm.(selections) qd.(return_type)) rows qd.(returns_list))
    projector_fuel.

Definition secured_response (ex : Executor) (qm : QMatch) (ctx : SecurityContext) (rows : list json) : result error json :=
  let qd := qm.(query_def) in
  access ← apply_field_rbac_filtering ex qd.(return_type) (extract_projection_fields qm.(selections)) ctx;
  projected ← project_rows (access.(allowed) ++ access.(masked)) qm rows;
  let projected := match access.(masked) with [] => projected | m => null_masked_fields m projected end in
  Ok (wrap_in_data_envelope projected qd.(query_name)).

Definition hash_arguments (args : gmap string json) : list SecurityHash.write := SecurityHash.hash_attributes json_text args.
Definition response_key_input (qm : QMatch) : list SecurityHash.write :=
  SecurityHash.WriteStr qm.(query_def).(query_name) :: map SecurityHash.WriteStr qm.(fields) ++
  hash_arguments qm.(Matching.arguments).
Definition compute_response_cache_key (qm : QMatch) : Z := finish (response_key_input qm).

(** The keys, where the cache is on. *)
Definition response_cache_key (ex : Executor) (qm : QMatch) (ctx : SecurityContext) : option (Z * Z) :=
  match ex.(response_cache) with
  | Some rc =>
      if rc.(ResponseCache.enabled) then
        Some (compute_response_cache_key qm, SecurityHash.hash_security_context json_text finish (Some ctx))
      else None
  | None => None
  end.
Definition cache_lookup (ex : Executor) (key : option (Z * Z)) : option json * Executor :=
  match key, ex.(response_cache) with
  | Some (q, s), Some rc => let '(r, rc') := ResponseCache.get rc q s in (r, with_cache ex (Some rc'))
  | _, _ => (None, ex)
  end.
Definition cache_response (ex : Executor) (key : option (Z * Z)) (qd : QueryDefinition) (response : json) : Executor :=
  match key, ex.(response_cache) with
  | Some (q, s), Some rc =>
      with_cache ex (Some (ResponseCache.put rc q s response [default ""%string qd.(sql_source)]))
  | _, _ => ex
  end.

Definition execute_matched (now : Z) (ex : Executor) (qm : QMatch) (ctx : SecurityContext) : result error json * Executor :=
  let key := response_cache_key ex qm ctx in
  match cache_lookup ex key with
  | (Some cached, ex) => (Ok cached, ex)
  | (None, ex) =>
      let '(rls, ex) := evaluate_policy now ex ctx qm.(query_def) in
      match (c ← rls; r ← secured_request ex qm c ctx; rows ← execute_with_projection ex.(adapter) r;
             secured_response ex qm ctx rows) with
      | Ok response => (Ok response, cache_response ex key qm.(query_def) response)
      | Err e => (Err e, ex)
      end
  end.

Definition set_session (ex : Executor) (ctx : SecurityContext) : result error Executor :=
  match ex.(session).(variables), ex.(session).(inject_started_at) with
  | [], false => Ok ex
  | _, _ =>
      match resolve_session_variables started_at json_text ex.(session) ctx with
      | [] => Ok ex
      | vars => d ← set_session_variables ex.(adapter) vars; Ok (with_adapter ex d)
      end
  end.

(** [relay] queries go to [execute_relay_query], passed as an argument. *)
Definition execute_regular_query_with_security
    (execute_relay_query : Executor -> QMatch -> option json -> option SecurityContext -> result error json * Executor)
    (now : Z) (ex : Executor) (query : string) (variables : option json) (ctx : SecurityContext) :
    result error json * Executor :=
  if is_expired now ctx then (Err (Validation (WhereClause.Text "Security token has expired") (Some "request.authorization"%string)), ex)
  else
    match match_query query_name read_document from_str sort ex.(compiled) query variables with
    | Err e => (Err e, ex)
    | Ok qm =>
        let qd := qm.(query_def) in
        if match qd.(requires_role) with Some role => negb (has_role ctx role) | None => false end
        then (Err (not_found_in_schema qd), ex)
        else
          match set_session ex ctx with
          | Err e => (Err e, ex)
          | Ok ex =>
              if qd.(relay) then execute_relay_query ex qm variables (Some ctx) else execute_matched now ex qm ctx
          end
    end.

(** *** Without a security context *)
Definition plain_request (ex : Executor) (qm : QMatch) : result error Request :=
  let qd := qm.(query_def) in
  let args := qm.(Matching.arguments) in
  let plan := Planner.plan ex.(default_strategy) qm in
  source ← ok_or qd.(sql_source) no_sql_source;
  user ← user_where qd args;
  let combined := combine_explicit_arg_where user qd.(CompiledSchema.arguments) args qd.(native_columns) in
  let limit := if qd.(auto_params).(has_limit) then u32_arg (args !! "limit") else None in
  let offset := if qd.(auto_params).(has_offset) then u32_arg (args !! "offset") else None in
  order ← (if qd.(auto_params).(has_order_by) then order_by_arg ex.(schema) qd (args !! "orderBy") else Ok None);
  Ok (mkRequest source (projection_hint ex qm plan) combined limit offset order).
Definition plain_response (qm : QMatch) (rows : list json) : result error json :=
  projected ← project_rows (extract_projection_fields qm.(selections)) qm rows;
  Ok (wrap_in_data_envelope projected qm.(query_def).(query_name)).

Definition needs_security_context (qd : QueryDefinition) : error :=
  validation ("Query '" ++ qd.(query_name) ++ "' has inject params but was called without a security context").
Definition execute_regular_query
    (execute_relay_query : Executor -> QMatch -> option json -> option SecurityContext -> result error json * Executor)
    (ex : Executor) (query : string) (variables : option json) : result error json * Executor :=
  match match_query query_name read_document from_str sort ex.(compiled) query variables with
  | Err e => (Err e, ex)
  | Ok qm =>
      let qd := qm.(query_def) in
      if is_some qd.(requires_role) then (Err (not_found_in_schema qd), ex)
      else
        match qd.(inject_params) with
        | _ :: _ => (Err (needs_security_context qd), ex)
        | [] =>
            if qd.(relay) then execute_relay_query ex qm variables None
            else (r ← plain_request ex qm; rows ← execute_with_projection ex.(adapter) r; plain_response qm rows, ex)
        end
  end.

(** *** For the REST transport *)

(** The policy, where there is a context. *)
Definition evaluate_policy_if (now : Z) (ex : Executor) (ctx : option SecurityContext) (qd : QueryDefinition) :
    result error (option WhereClause) * Executor :=
  match ctx with Some ctx => evaluate_policy now ex ctx qd | None => (Ok None, ex) end.

(** The values of the token are resolved, and not used. *)
Definition direct_request (ex : Executor) (qm : QMatch) (rls : option WhereClause) (ctx : option SecurityContext) :
    result error Request :=
  let qd := qm.(query_def) in
  let args := qm.(Matching.arguments) in
  source ← ok_or qd.(sql_source) no_sql_source;
  user ← user_where qd args;
  order ← order_by_arg ex.(schema) qd (args !! "orderBy");
  let user := combine_explicit_arg_where user qd.(CompiledSchema.arguments) args qd.(native_columns) in
  _ ← match ctx with
      | Some ctx => each (fun p => resolve_inject_value p.1 p.2 ctx) qd.(inject_params)
      | None => Ok []
      end;
  Ok (mkRequest source None (both_where rls user) (u32_arg (args !! "limit")) (u32_arg (args !! "offset")) order).
Definition execute_query_direct (now : Z) (ex : Executor) (qm : QMatch) (ctx : option SecurityContext) :
    result error json * Executor :=
  let '(rls, ex) := evaluate_policy_if now ex ctx qm.(query_def) in
  (c ← rls; r ← direct_request ex qm c ctx; rows ← execute_with_projection ex.(adapter) r; plain_response qm rows, ex).

(** [QueryMatch::from_operation]. *)
Definition from_operation (qd : QueryDefinition) (fields : list string) (args : gmap string json) : QMatch :=
  {| query_def := qd; fields := fields;
     selections := map (fun f => Types.mkField f None [] [] []) fields;
     Matching.arguments := args; operation_name := None;
     parsed_query := {| Types.operation_type := "query"; Types.query_name := Some qd.(query_name);
       Types.root_field := qd.(query_name); Types.query_selections := []; Types.variables := [];
       Types.fragments := []; Types.source := "" |} |}.

Definition count_where (qm : QMatch) (rls : option WhereClause) (ctx : option SecurityContext) :
    result error (option WhereClause) :=
  let qd := qm.(query_def) in
  sec ← match qd.(inject_params), ctx with
        | [], _ => Ok rls
        | _, Some ctx => security_where qd rls ctx
        | _, None => Err (validation ("Query '" ++ qd.(query_name) ++
            "' has inject params but no security context is available"))
        end;
  user ← user_where qd qm.(Matching.arguments);
  Ok (both_where sec user).
Definition count_rows (now : Z) (ex : Executor) (qm : QMatch) (ctx : option SecurityContext) : result error Z * Executor :=
  let '(rls, ex) := evaluate_policy_if now ex ctx qm.(query_def) in
  (c ← rls; source ← ok_or qm.(query_def).(sql_source) no_sql_source; w ← count_where qm c ctx;
   rows ← execute_where_query ex.(adapter) source w; Ok (Z.of_nat (length rows)), ex).

(** *** Mutations of the REST transport; [execute] runs GraphQL text *)
Context (execute : Executor -> string -> option SecurityContext -> result error json * Executor).

Definition mutation_text (mutation_name : string) (args : json) : string :=
  let args_str := match args with
                  | JObject fields => String.concat ", " (map (fun kv => kv.1 ++ ": " ++ json_text kv.2)%string fields)
                  | _ => ""%string
                  end in
  if args_str =s "" then "mutation { " ++ mutation_name ++ " { status entity_id message } }"
  else "mutation { " ++ mutation_name ++ "(" ++ args_str ++ ") { status entity_id message } }".
Definition execute_mutation_with_security (ex : Executor) (mutation_name : string) (args : json) (ctx : option SecurityContext) :
    result error json * Executor := execute ex (mutation_text mutation_name args) ctx.

Record BulkResult : Type := mkBulk { affected_rows : Z; entities : list json }.
Fixpoint execute_items (ex : Executor) (mutation_name : string) (items : list json) (ctx : option SecurityContext) :
    result error (list json) * Executor :=
  match items with
  | [] => (Ok [], ex)
  | item :: items =>
      match execute_mutation_with_security ex mutation_name item ctx with
      | (Err e, ex) => (Err e, ex)
      | (Ok r, ex) => let '(rs, ex) := execute_items ex mutation_name items ctx in (cons r <$> rs, ex)
      end
  end.
Definition execute_mutation_batch (ex : Executor) (mutation_name : string) (items : list json) (ctx : option SecurityContext) :
    result error BulkResult * Executor :=
  let '(rs, ex) := execute_items ex mutation_name items ctx in
  ((fun rs => mkBulk (Z.of_nat (length rs)) rs) <$> rs, ex).

(** How many entries the list under [data] has. *)
Definition data_count (v : json) : Z :=
  match json_get v "data" with
  | Some (JObject ((_, JArray l) :: _)) => Z.of_nat (length l)
  | _ => 1
  end.
Definition execute_bulk_by_filter (now : Z) (ex : Executor) (qm : QMatch) (mutation_name : string) (body : option json)
    (ctx : option SecurityContext) : result error BulkResult * Executor :=
  match execute_query_direct now ex qm ctx with
  | (Err e, ex) => (Err e, ex)
  | (Ok filter_result, ex) =>
      match execute_mutation_with_security ex mutation_name (default (JObject []) body) ctx with
      | (Err e, ex) => (Err e, ex)
      | (Ok r, ex) => (Ok (mkBulk (data_count filter_result) [r]), ex)
      end
  end.
End Executor.

(** * What execution guarantees, and what it does not

    Over [Execution]: every request for an authenticated query carries the
    policy's filter and the token's conditions; the REST entry point loses the
    latter and the selected fields; responses are cached without the selection
    set; scopes are checked by the spelling of a field. *)

Import Matching Planner.

(** ** What a request asks for *)
Section Meaning.
Context {Row : Type} (leaf : WhereClause -> Row -> bool).
Notation sat := (sat leaf).
Notation sat_option := (sat_option leaf).

Lemma both_where_sat sec user row : sat_option (both_where sec user) row = sat_option sec row && sat_option user row.
Proof. destruct sec, user; cbn; by rewrite ?andb_true_r. Qed.

Lemma prepend_sat o conditions row :
  sat_option (conjunction (match o with Some c => [c] | None => [] end ++ conditions)) row =
  sat_option o row && forallb (fun c => sat c row) conditions.
Proof. rewrite sat_conjunction, forallb_app. by destruct o; cbn; rewrite ?andb_true_r. Qed.

Lemma explicit_sat existing defined provided native row :
  sat_option (combine_explicit_arg_where existing defined provided native) row =
  sat_option existing row && forallb (fun c => sat c row) (explicit_conditions defined provided native).
Proof.
  unfold combine_explicit_arg_where. destruct (explicit_conditions _ _ _) as [|c l]; [by rewrite andb_true_r|].
  by rewrite prepend_sat.
Qed.

(** The conditions [security_where] adds, each from its claim. *)
Lemma security_where_sat qd rls ctx sec row : security_where qd rls ctx = Ok sec ->
  exists conditions, inject_conditions qd ctx = Ok conditions /\
    sat_option sec row = sat_option rls row && forallb (fun c => sat c row) conditions.
Proof.
  unfold security_where, inject_conditions. destruct qd.(inject_params) as [|p l] eqn:E.
  - intros [= ->]. exists []. by rewrite andb_true_r.
  - intros (conditions & Hc & [= <-])%bind_Ok. exists conditions. split; [done|]. by rewrite prepend_sat.
Qed.
End Meaning.

Section Facts.
Context {P D S M Sub : Type} {RP : RLSPolicy P} {DB : DatabaseAdapter D} {ST : Store (Z * Z) ResponseEntry S}.
Context (from_str : string -> option json).
Context (json_text : json -> string) (finish : list SecurityHash.write -> Z).
Notation Executor := (@Executor P D S M Sub).
Implicit Types (ex : Executor) (qm : QMatch).

Lemma secured_where_exact {Row} (leaf : WhereClause -> Row -> bool) ex qm rls ctx r row :
  secured_request ex qm rls ctx = Ok r ->
  exists conditions user, inject_conditions qm.(query_def) ctx = Ok conditions /\
    user_where qm.(query_def) qm.(Matching.arguments) = Ok user /\
    sat_option leaf r.(where_clause) row =
      sat_option leaf rls row && forallb (fun c => sat leaf c row) conditions && sat_option leaf user row &&
      forallb (fun c => sat leaf c row) (explicit_conditions qm.(query_def).(CompiledSchema.arguments)
        qm.(Matching.arguments) qm.(query_def).(native_columns)).
Proof.
  unfold secured_request. intros (source & _ & (sec & Hsec & (user & Hu & (order & _ & [= <-])%bind_Ok)%bind_Ok)%bind_Ok)%bind_Ok.
  destruct (security_where_sat leaf _ _ _ _ row Hsec) as (conditions & Hc & E).
  exists conditions, user. split; [done|]. split; [done|]. cbn [where_clause]. by rewrite explicit_sat, both_where_sat, E.
Qed.

(** C11. A response to an authenticated query comes from the response cache, or is
    made of the rows of one request, whose filter lets through exactly the rows
    that satisfy the policy's filter for this user, the conditions of the
    token, the [where] argument and the other arguments: nothing the client
    sends widens it. *)
Theorem policy_always_conjoined now ex qm ctx v ex' :
  execute_matched from_str json_text finish now ex qm ctx = (Ok v, ex') ->
  (cache_lookup ex (response_cache_key json_text finish ex qm ctx)).1 = Some v \/
  exists ex1 rls r rows conditions user,
    (evaluate_policy now (cache_lookup ex (response_cache_key json_text finish ex qm ctx)).2 ctx qm.(query_def)) = (Ok rls, ex1) /\
    secured_request ex1 qm rls ctx = Ok r /\ execute_with_projection ex1.(adapter) r = Ok rows /\
    secured_response from_str ex1 qm ctx rows = Ok v /\
    inject_conditions qm.(query_def) ctx = Ok conditions /\
    user_where qm.(query_def) qm.(Matching.arguments) = Ok user /\
    forall Row (leaf : WhereClause -> Row -> bool) row,
      sat_option leaf r.(where_clause) row =
        sat_option leaf rls row && forallb (fun c => sat leaf c row) conditions && sat_option leaf user row &&
        forallb (fun c => sat leaf c row) (explicit_conditions qm.(query_def).(CompiledSchema.arguments)
          qm.(Matching.arguments) qm.(query_def).(native_columns)).
Proof.
  unfold execute_matched. destruct (cache_lookup _ _) as [[cached|] ex0]; [intros [= -> _]; by left|].
  cbn [fst snd]. destruct (evaluate_policy _ _ _ _) as [rls ex1] eqn:Ep.
  destruct (rls ≫= _) as [response|e] eqn:E; [|done]. intros [= -> _]. right.
  apply bind_Ok in E as (c & -> & (r & Hr & (rows & Hrows & Hv)%bind_Ok)%bind_Ok).
  destruct (secured_where_exact (fun (_ : WhereClause) (_ : unit) => true) ex1 qm c ctx r tt Hr) as (conditions & user & Hc & Hu & _).
  exists ex1, c, r, rows, conditions, user. do 6 (split; [done|]).
  intros Row leaf row. destruct (secured_where_exact leaf ex1 qm c ctx r row Hr) as (? & ? & Hc' & Hu' & ->). congruence.
Qed.

(** ** The REST entry point *)

Lemma direct_request_no_ctx ex qm rls ctx r : direct_request ex qm rls ctx = Ok r -> direct_request ex qm rls None = Ok r.
Proof.
  unfold direct_request. intros (source & -> & (user & -> & (order & -> & (vs & _ & [= <-])%bind_Ok)%bind_Ok)%bind_Ok)%bind_Ok.
  done.
Qed.

(** Without a policy the REST entry point answers every caller alike, with a
    token or without: the conditions the query takes from the token are not
    applied. *)
Theorem direct_ignores_token now ex qm ctx ctx' v v' ex1 ex2 : ex.(rls_policy) = None ->
  execute_query_direct from_str now ex qm ctx = (Ok v, ex1) ->
  execute_query_direct from_str now ex qm ctx' = (Ok v', ex2) -> v = v'.
Proof.
  intros Hp. assert (Hd : forall c w e, execute_query_direct from_str now ex qm c = (Ok w, e) ->
    (r ← direct_request ex qm None None; rows ← execute_with_projection ex.(adapter) r; plain_response from_str qm rows) = Ok w).
  { intros c w e. unfold execute_query_direct, evaluate_policy_if, evaluate_policy.
    assert (match c with Some ctx => match ex.(rls_policy) with
        | Some p => let '(r, p') := evaluate now p ctx qm.(query_def).(query_name) in (r, with_policy ex (Some p'))
        | None => (Ok None, ex) end | None => (Ok None, ex) end = (Ok None, ex)) as -> by (destruct c; by rewrite ?Hp).
    intros [= E _]. apply bind_Ok in E as (r & Hr & (rows & Hrows & Hv)%bind_Ok).
    apply direct_request_no_ctx in Hr. rewrite Hr. cbn. by rewrite Hrows. }
  intros H1%Hd H2%Hd. congruence.
Qed.

Definition is_object (v : json) : bool := match v with JObject _ => true | _ => false end.

Lemma no_fields_project v : is_object v = true -> project from_str (Projection.new []) v = Some (JObject []).
Proof. by destruct v. Qed.

Lemma direct_fields qd fields args : extract_projection_fields (from_operation qd fields args).(selections) = [].
Proof. by destruct fields. Qed.

(** Whatever fields a REST request selects, the operation built for it has no
    selection set under its root, and every row of its response is an empty
    object. *)
Theorem rest_rows_empty now ex qd fields args ctx v ex' :
  (forall r rows, execute_with_projection ex.(adapter) r = Ok rows -> forallb is_object rows = true) ->
  qd.(returns_list) = true ->
  execute_query_direct from_str now ex (from_operation qd fields args) ctx = (Ok v, ex') ->
  exists n, v = wrap_in_data_envelope (JArray (replicate n (JObject []))) qd.(query_name).
Proof.
  intros Hobj Hl. unfold execute_query_direct. destruct (evaluate_policy_if _ _ _ _) as [rls ex1] eqn:Ep.
  assert (Ha : ex1.(adapter) = ex.(adapter)).
  { unfold evaluate_policy_if, evaluate_policy in Ep. destruct ctx as [c|]; [|by injection Ep as <- <-].
    destruct ex.(rls_policy); [|by injection Ep as <- <-]. destruct (evaluate _ _ _ _). by injection Ep as <- <-. }
  intros [= E _]. apply bind_Ok in E as (c & _ & (r & _ & (rows & Hrows & Hv)%bind_Ok)%bind_Ok).
  rewrite Ha in Hrows. apply Hobj in Hrows. exists (length rows).
  unfold plain_response in Hv. rewrite direct_fields in Hv. apply bind_Ok in Hv as (p & Hp & [= <-]).
  f_equal. unfold project_rows in Hp. cbn [query_def from_operation] in Hp. rewrite Hl in Hp.
  assert (Hc : configure_typename_from_selections (Projection.new []) (from_operation qd fields args).(selections)
    qd.(return_type) = Projection.new []) by (by destruct fields).
  rewrite Hc in Hp. cbn [project_results] in Hp.
  assert (collect (project from_str (Projection.new [])) rows = Some (replicate (length rows) (JObject []))) as Hcol.
  { clear Hp Hc. induction rows as [|v rows IH]; [done|]. cbn in Hrows. apply andb_true_iff in Hrows as [Hv Hr].
    cbn [collect]. rewrite no_fields_project by done. cbn. by rewrite IH. }
  rewrite Hcol in Hp. by injection Hp as <-.
Qed.

(** ** The response cache *)

Lemma with_store_store (c : ResponseCache.Cache (S := S)) r :
  (ResponseCache.with_store c r).(ResponseCache.store) = r.1 /\
  (ResponseCache.with_store c r).(ResponseCache.enabled) = c.(ResponseCache.enabled).
Proof.
  unfold ResponseCache.with_store.
  assert (H : forall c' : ResponseCache.Cache (S := S),
    (foldl ResponseCache.evicted c' r.2).(ResponseCache.store) = c'.(ResponseCache.store) /\
    (foldl ResponseCache.evicted c' r.2).(ResponseCache.enabled) = c'.(ResponseCache.enabled)).
  { induction (r.2) as [|kv l IH]; intros c'; [done|]. cbn [foldl]. destruct (IH (ResponseCache.evicted c' kv)) as [-> ->]. done. }
  by destruct (H (ResponseCache.mkCache r.1 c.(ResponseCache.view_index) c.(ResponseCache.enabled) c.(ResponseCache.hits)
    c.(ResponseCache.misses))) as [-> ->].
Qed.

Lemma policy_keeps_cache now ex ctx qd r ex' : evaluate_policy now ex ctx qd = (r, ex') ->
  ex'.(response_cache) = ex.(response_cache).
Proof.
  unfold evaluate_policy. destruct ex.(rls_policy); [|by intros [= _ <-]]. destruct (evaluate _ _ _ _). by intros [= _ <-].
Qed.

Context `{!StoreLaws (Z * Z) ResponseEntry S}.

(** What a cache returns after a response was put in it is that response. *)
Lemma cached_is_put ex key qd v w ex1 : cache_lookup (cache_response ex (Some key) qd v) (Some key) = (Some w, ex1) ->
  (exists rc, ex.(response_cache) = Some rc /\ rc.(ResponseCache.enabled) = true) -> w = v.
Proof.
  intros H (rc & Hrc & Hen). destruct key as [q sh]. unfold cache_lookup, cache_response in H. rewrite Hrc in H. cbn [response_cache with_cache] in H.
  unfold ResponseCache.put in H. rewrite Hen in H. cbn [negb] in H.
  match type of H with context [ResponseCache.get ?c _ _] => set (c1 := c) in H end.
  destruct (with_store_store (ResponseCache.register rc (q, sh) [default ""%string qd.(sql_source)])
    (insert_entry (ResponseCache.register rc (q, sh) [default ""%string qd.(sql_source)]).(ResponseCache.store) (q, sh)
      {| response := v; entry_views := [default ""%string qd.(sql_source)] |})) as [Hs He].
  fold c1 in Hs, He. unfold ResponseCache.get in H. rewrite He in H. cbn in H. rewrite Hen, Hs in H.
  destruct (CacheStore.get _ _) as [e|] eqn:Eg; [|done]. injection H as <- _.
  apply insert_get in Eg as [[_ ->]|[? _]]; done.
Qed.

(** The key of a response is made of the query's name, the names of the root
    fields and the arguments.  After a query was answered, another one with
    the same root fields and arguments is answered, when the entry is still
    there, with the first one's response, whatever fields it selects. *)
Theorem selection_not_in_key now later ex qm qm' ctx v ex1 :
  qm'.(query_def) = qm.(query_def) -> qm'.(fields) = qm.(fields) -> qm'.(Matching.arguments) = qm.(Matching.arguments) ->
  execute_matched from_str json_text finish now ex qm ctx = (Ok v, ex1) ->
  is_Some (cache_lookup ex1 (response_cache_key json_text finish ex1 qm' ctx)).1 ->
  (cache_lookup ex (response_cache_key json_text finish ex qm ctx)).1 = None ->
  (execute_matched from_str json_text finish later ex1 qm' ctx).1 = Ok v.
Proof.
  intros Hq Hf Ha He [w Hw] Hmiss. unfold execute_matched in He.
  destruct (cache_lookup ex _) as [[c|] ex0] eqn:E0; [done|]. clear Hmiss.
  destruct (evaluate_policy _ _ _ _) as [rls ex2] eqn:Ep. destruct (rls ≫= _) as [r|e]; [|done]. injection He as -> <-.
  assert (Hkey : forall e : Executor, response_cache_key json_text finish e qm' ctx = response_cache_key json_text finish e qm ctx).
  { intros e. unfold response_cache_key, compute_response_cache_key, response_key_input. by rewrite Hq, Hf, Ha. }
  unfold execute_matched. rewrite Hkey in *. set (ex1 := cache_response _ _ _ _) in *.
  destruct (cache_lookup ex1 _) as [[w'|] ex3] eqn:E1; [|done]. injection Hw as ->. cbn [fst]. f_equal.
  unfold response_cache_key in E0, E1, ex1.
  apply policy_keeps_cache in Ep.
  assert (Hex : forall rc, ex.(response_cache) = Some rc -> rc.(ResponseCache.enabled) = true ->
    exists rc0, ex0.(response_cache) = Some rc0 /\ rc0.(ResponseCache.enabled) = true).
  { intros rc Hrc Hen. rewrite Hrc, Hen in E0. unfold cache_lookup in E0. rewrite Hrc in E0.
    unfold ResponseCache.get in E0. rewrite Hen in E0. destruct (CacheStore.get _ _); [done|]. injection E0 as <-. by eexists. }
  destruct (response_cache ex) as [rc|] eqn:Hrc.
  - destruct rc.(ResponseCache.enabled) eqn:Hen.
    + destruct (Hex rc eq_refl Hen) as (rc0 & Hrc0 & Hen0).
      assert (Hk1 : exists rc1, ex1.(response_cache) = Some rc1 /\ rc1.(ResponseCache.enabled) = true).
      { subst ex1. unfold cache_response. rewrite Ep, Hrc0. eexists. split; [done|]. unfold ResponseCache.put. rewrite Hen0. cbn [negb].
        by destruct (with_store_store (ResponseCache.register rc0 (compute_response_cache_key json_text finish qm,
          SecurityHash.hash_security_context json_text finish (Some ctx)) [default ""%string qm.(query_def).(sql_source)])
          (insert_entry (ResponseCache.register rc0 (compute_response_cache_key json_text finish qm,
          SecurityHash.hash_security_context json_text finish (Some ctx)) [default ""%string qm.(query_def).(sql_source)]).(ResponseCache.store)
          (compute_response_cache_key json_text finish qm, SecurityHash.hash_security_context json_text finish (Some ctx))
          {| response := v; entry_views := [default ""%string qm.(query_def).(sql_source)] |})) as [_ ->]. }
      destruct Hk1 as (rc1 & Hrc1 & Hen1). rewrite Hrc1, Hen1 in E1. apply cached_is_put in E1; [done|].
      rewrite Ep, Hrc0. by eexists.
    + subst ex1. unfold cache_response in E1. cbn in E1. unfold cache_lookup in E1, E0. rewrite Ep in E1.
      injection E0 as <-. rewrite Hrc, Hen in E1. done.
  - subst ex1. cbn in E1. unfold cache_lookup in E0, E1. injection E0 as <-. rewrite Ep, Hrc in E1. done.
Qed.
End Facts.

(** ** Scopes and spelling *)
Section Spelling.
Context {P D S M Sub : Type} {RP : RLSPolicy P} {DB : DatabaseAdapter D} {ST : Store (Z * Z) ResponseEntry S}.
Context (from_str : string -> option json).
Notation Executor := (@Executor P D S M Sub).

(** A query for one field. *)
Definition field_query (qd : QueryDefinition) (field : string) : QMatch :=
  {| query_def := qd; fields := [qd.(query_name)];
     selections := [Types.mkField qd.(query_name) None [] [Types.mkField field None [] [] []] []];
     Matching.arguments := ∅; operation_name := None;
     parsed_query := {| Types.operation_type := "query"; Types.query_name := None; Types.root_field := qd.(query_name);
       Types.query_selections := []; Types.variables := []; Types.fragments := []; Types.source := "" |} |}.

Lemma field_query_fields qd field : field =s "__typename" = false ->
  extract_projection_fields (field_query qd field).(selections) = [field].
Proof. intros H. cbn. by rewrite H. Qed.

Lemma field_query_mapper qd field fs : field =s "__typename" = false ->
  configure_typename_from_selections (Projection.new fs) (field_query qd field).(selections) qd.(return_type) = Projection.new fs.
Proof. intros H. unfold configure_typename_from_selections, wants_typename. cbn. by rewrite H. Qed.

Lemma hint_of_unlisted (ex : Executor) td qd field : field =s "__typename" = false ->
  find_type ex.(schema) qd.(return_type) = Some td -> find_field td field = None ->
  exists h, projection_hint ex (field_query qd field) (plan ex.(default_strategy) (field_query qd field)) = Some h /\
    h.(projection_template) = ("jsonb_build_object('" ++ escape_sql_string field ++ "', " ++ quoted_column "data" ++
      "->'" ++ escape_sql_string (to_snake_case field) ++ "')")%string.
Proof.
  intros Ht Hd Hn. unfold projection_hint, plan. cbn [projection_fields jsonb_strategy]. rewrite field_query_fields by done.
  assert (Hb : build_typed_projection_fields ex.(schema) SELECTION_MAX_DEPTH qd.(return_type)
    (root_fields (field_query qd field)) = [mkProjection field Native None]) by (cbn; by rewrite Ht, Hd; cbn; rewrite Hn).
  eexists. split; [reflexivity|]. cbn [projection_template query_def field_query]. rewrite Hb.
  cbn [generate_typed_projection_sql map String.concat]. unfold render_field.
  change (render_expr MAX_PROJECTION_DEPTH (mkProjection field Native None) (quoted_column "data"))
    with (plain_expr (mkProjection field Native None) (quoted_column "data")).
  unfold plain_expr. cbn [ProjectionSql.name kind]. by rewrite !str_assoc.
Qed.

(** A field that a user's roles do not cover is refused under the name the
    schema gives it.  Under any other name with the same snake case it is not
    in the type, passes the check, and the SQL reads the same key of the JSON
    column: its value is returned. *)
Theorem scope_checked_by_spelling (ex : Executor) qd ctx config td f field other v :
  ex.(schema).(security) = Some config -> find_type ex.(schema) qd.(return_type) = Some td ->
  find_field td field = Some f -> can_access_field ctx config f = false -> f.(on_deny) = Reject ->
  find_field td other = None -> to_snake_case other = to_snake_case field ->
  qd.(returns_list) = true -> field =s "__typename" = false -> other =s "__typename" = false ->
  match v with JString _ => False | _ => True end ->
  is_ok (secured_response from_str ex (field_query qd field) ctx [JObject [(field, v)]]) = false /\
  (exists h, projection_hint ex (field_query qd other) (plan ex.(default_strategy) (field_query qd other)) = Some h /\
     h.(projection_template) = ("jsonb_build_object('" ++ escape_sql_string other ++ "', " ++ quoted_column "data" ++
      "->'" ++ escape_sql_string (to_snake_case field) ++ "')")%string) /\
  secured_response from_str ex (field_query qd other) ctx [JObject [(other, v)]] =
    Ok (wrap_in_data_envelope (JArray [JObject [(other, v)]]) qd.(query_name)).
Proof.
  intros Hs Ht Hf Ha Hd Ho Hk Hl Hn Hn' Hv. split; [|split].
  - unfold secured_response. rewrite field_query_fields by done. unfold apply_field_rbac_filtering. cbn [query_def field_query].
    rewrite Hs, Ht. cbn [classify_field_access]. unfold find_field in Hf. by rewrite Hf, Ha, Hd.
  - destruct (hint_of_unlisted ex td qd other) as (h & Hh & E); [done..|]. exists h. by rewrite E, Hk.
  - unfold secured_response. rewrite field_query_fields by done. unfold apply_field_rbac_filtering. cbn [query_def field_query].
    rewrite Hs, Ht. cbn [classify_field_access]. unfold find_field in Ho. rewrite Ho. cbn [fmap result_fmap mbind result_bind allow allowed masked app].
    unfold project_rows. cbn [query_def field_query]. rewrite Hl, (field_query_mapper qd other [other] Hn').
    destruct v; try done; cbn; rewrite streqb_refl; try done; by destruct (from_str _).
Qed.
End Spelling.

Module ExecDemo.
Import CacheStore.Lazy.
Notation lazy := (gmap (Z * Z) (ResponseEntry * bool)).

(** A database that keeps a few rows and answers every request with them. *)
#[export] Instance rows_adapter : DatabaseAdapter (list json) :=
  { database_type _ := PostgreSQL; execute_with_projection d _ := Ok d; execute_where_query d _ _ := Ok d;
    set_session_variables d _ := Ok d }.

Definition user (tenant : string) : SecurityContext := RlsDemo.member_of tenant.
Definition users : QueryDefinition :=
  mkQuery "users" "User" true [mkArg "email" FT.TString false None] (Some "v_user"%string) auto_all false None Int64
    [("tenant_id"%string, Jwt "tenant_id")] [] None ∅ None None None.
Definition user_type : TypeDefinition :=
  mkType "User" "v_user" [mkField "id" FT.Id None None Reject;
    mkField "home_phone" FT.TString None (Some "read:User.phone"%string) Reject] false [].
Definition the_schema : CompiledSchema.Schema := mkSchema [user_type] [] [] (Some (mkSecurity [] None false)).
Definition no_queries : @Schema.CompiledSchema QueryDefinition unit unit :=
  Schema.build_indexes query_name (fun _ : unit => ""%string) (fun _ : unit => ""%string)
    {| Schema.queries := [users]; Schema.mutations := []; Schema.subscriptions := []; Schema.naming_convention := Schema.Preserve;
       Schema.query_index := ∅; Schema.mutation_index := ∅; Schema.subscription_index := ∅ |}.
Definition row (id : string) : json := JObject [("id"%string, JString id)].
Definition rows : list json := [row "a"; row "b"].
Definition start (policy : option DefaultRLSPolicy) (cache : option (ResponseCache.Cache (S := lazy))) :
    @Executor DefaultRLSPolicy (list json) lazy unit unit :=
  mkExecutor no_queries the_schema Project (mkSession [] false) policy cache rows.

Definition no_text (_ : string) : option json := None.
Definition json_text (_ : json) : string := "".
Definition count_writes (l : list SecurityHash.write) : Z := Z.of_nat (length l).
Definition by_email : gmap string json := {["email"%string := JString "x@y"]}.
(** [{ users(email: ..) { <field> } }] *)
Definition ask (field : string) : QMatch :=
  let qm := field_query users field in
  {| query_def := users; fields := qm.(fields); selections := qm.(selections); Matching.arguments := by_email;
     operation_name := None; parsed_query := qm.(parsed_query) |}.

Definition owned (c : WhereClause) (_ : unit) : bool :=
  match c with Field [column] _ _ => negb (column =s "email") | _ => false end.

(** The email argument does not hold for the row, so the request excludes it. *)
Lemma policy_always_conjoined_witness :
  exists r, secured_request (start (Some new_default) None) (ask "id")
    (conjunction [equals "tenant_id" (JString "t"); equals "author_id" (JString "u")]) (user "t") = Ok r /\
  sat_option owned r.(where_clause) tt = false.
Proof.
  destruct (policy_always_conjoined no_text json_text count_writes 0 (start (Some new_default) None) (ask "id") (user "t")
    (wrap_in_data_envelope (JArray rows) "users") (start (Some new_default) None)) as [H|(ex1 & rls & r & rs & cs & w & Hp & Hr & _ & _ & Hc & Hu & Hs)].
  - vm_compute. reflexivity.
  - discriminate H.
  - exists r. vm_compute in Hp. injection Hp as <- <-. split; [exact Hr|].
    rewrite (Hs unit owned tt). vm_compute in Hc, Hu. injection Hc as <-. injection Hu as <-. vm_compute. reflexivity.
Defined.

Definition wide : json := wrap_in_data_envelope (JArray rows) "users".
Lemma direct_ignores_token_witness :
  wide = wide /\
  (execute_query_direct no_text 0 (start None None) (ask "id") (Some (user "a"))).1 = Ok wide /\
  (execute_query_direct no_text 0 (start None None) (ask "id") None).1 = Ok wide.
Proof.
  split; [|split; vm_compute; reflexivity].
  apply (direct_ignores_token no_text 0 (start None None) (ask "id") (Some (user "a")) None wide wide
    (start None None) (start None None)); vm_compute; reflexivity.
Defined.

Lemma rest_rows_empty_witness :
  exists n, (wrap_in_data_envelope (JArray [JObject []; JObject []]) "users") =
    wrap_in_data_envelope (JArray (replicate n (JObject []))) "users".
Proof.
  apply (rest_rows_empty no_text 0 (start None None) users ["id"%string] ∅ (Some (user "a")) _ (start None None)).
  - intros r rs [= <-]. reflexivity.
  - reflexivity.
  - vm_compute. reflexivity.
Defined.

(** The same rows, asked for their id and then for their phone. *)
Definition with_responses : @Executor DefaultRLSPolicy (list json) lazy unit unit :=
  start None (Some (ResponseCache.new {| rc_enabled := true; rc_max_entries := 10; rc_ttl_seconds := 60 |} ∅)).
Definition after_first := (execute_matched no_text json_text count_writes 0 with_responses (ask "id") (user "t")).2.

Lemma selection_not_in_key_witness :
  (execute_matched no_text json_text count_writes 5 after_first (ask "name") (user "t")).1 = Ok wide.
Proof.
  apply (selection_not_in_key no_text json_text count_writes 0 5 with_responses (ask "id") (ask "name") (user "t") wide after_first);
    try reflexivity; try (vm_compute; reflexivity).
  vm_compute. by eexists.
Defined.

Lemma scope_checked_by_spelling_witness :
  secured_response no_text (start None None) (field_query users "homePhone") (user "t")
    [JObject [("homePhone"%string, JNumber (PosInt 5))]] =
    Ok (wrap_in_data_envelope (JArray [JObject [("homePhone"%string, JNumber (PosInt 5))]]) "users").
Proof.
  apply (scope_checked_by_spelling no_text (start None None) users (user "t") (mkSecurity [] None false) user_type
    (mkField "home_phone" FT.TString None (Some "read:User.phone"%string) Reject) "home_phone" "homePhone"
    (JNumber (PosInt 5))); reflexivity || exact I.
Defined.
End ExecDemo.
