(* ===== verification/RestEmbedding.v ===== *)
(** * Embedded resources

    [fraiseql-server/src/routes/rest/embedding.rs]: sub-queries for the
    relationships a request selects, merged into the rows of the answer.  The
    executor is carried along; one reading of the clock serves a request. *)

From S2P Require Import Prelude Json WhereClause GraphQL Matcher CacheStore SecurityContext ResponseCache CompiledSchema.
From S2P Require Import RowSecurity Execution RestParams RestHttp.
Import Matching.
#[local] Open Scope Z_scope.

(** ** Keys *)
Definition parent_key (rel : Relationship) : string :=
  match rel.(cardinality) with ManyToOne | OneToOne => rel.(foreign_key) | OneToMany => rel.(referenced_key) end.
Definition child_key (rel : Relationship) : string :=
  match rel.(cardinality) with ManyToOne | OneToOne => rel.(referenced_key) | OneToMany => rel.(foreign_key) end.
Definition extract_join_key (row : json) (rel : Relationship) : option json :=
  match json_get row (parent_key rel) with Some JNull => None | r => r end.

(** [row.as_object_mut()] and [insert]. *)
Definition set_field (k : string) (v row : json) : json :=
  match row with JObject fields => JObject (map_insert k v fields) | _ => row end.
Definition empty_embedding (c : Cardinality) : json := match c with OneToMany => JArray [] | _ => JNull end.
Definition set_empty_embedding (row : json) (output_name : string) (c : Cardinality) : json :=
  set_field output_name (empty_embedding c) row.

(** The condition on the child, and the filter of the request over it. *)
Definition join_where (rel : Relationship) (key : json) : list (string * json) :=
  map_insert (child_key rel) (singleton "eq" key) [].
Definition embedding_where (rel : Relationship) (key : json) (filter : option json) : json :=
  JObject match filter with
          | Some (JObject entries) => foldl (fun w kv => map_insert kv.1 kv.2 w) (join_where rel key) entries
          | _ => join_where rel key
          end.

Definition find_list_query_for_type (queries : list QueryDefinition) (type_name : string) : option QueryDefinition :=
  find (fun q => (q.(return_type) =s type_name) && q.(returns_list)) queries.
Definition extract_query_data (parsed : json) (query_name : string) : option json :=
  match json_get parsed "data" with Some d => json_get d query_name | None => None end.

(** What the rows of the sub-query become in the parent. *)
Definition embedded_value (c : Cardinality) (data : option json) : json :=
  match c, data with
  | OneToMany, Some (JArray a) => JArray a
  | OneToMany, Some other => JArray [other]
  | OneToMany, None => JArray []
  | _, Some (JArray (x :: _)) => x
  | _, Some other => other
  | _, None => JNull
  end.

Definition sub_field_names (fields : list SelectEntry) : list string :=
  omap (fun e => match e with Field name => Some name | _ => None end) fields.

Section Embedding.
Context {P D S M Sub : Type} {RP : RLSPolicy P} {DB : DatabaseAdapter D} {ST : Store (Z * Z) ResponseEntry S}.
Context (from_str : string -> option json) (now : Z).
Context (compiled : @Schema.CompiledSchema QueryDefinition M Sub) (schema : CompiledSchema.Schema) (config : RestConfig).
Context (ctx : option SecurityContext).
Notation Executor := (@Executor P D S M Sub).

Definition embedded_query (target : QueryDefinition) (fields : list string) (w : json) (limit : option Z) : QMatch :=
  from_operation target fields (match limit with
    | Some n => <["limit" := JNumber (PosInt n)]> (<["where" := w]> (∅ : gmap string json))
    | None => <["where" := w]> (∅ : gmap string json)
    end).

Definition embed_into_single (rel : Relationship) (output_name : string) (fields : list string) (filter : option json) (row : json) :
    Rest Executor json :=
  match extract_join_key row rel with
  | None => mret (set_empty_embedding row output_name rel.(cardinality))
  | Some key =>
      match find_list_query_for_type compiled.(Schema.queries) rel.(target_type) with
      | None => mret (set_empty_embedding row output_name rel.(cardinality))
      | Some target =>
          result ← call (fun ex => execute_query_direct from_str now ex
            (embedded_query target fields (embedding_where rel key filter) (Some config.(max_page_size))) ctx);
          mret (set_field output_name (embedded_value rel.(cardinality) (extract_query_data result target.(query_name))) row)
      end
  end.
Definition count_related (rel : Relationship) (row : json) : Rest Executor Z :=
  match extract_join_key row rel with
  | None => mret 0
  | Some key =>
      match find_list_query_for_type compiled.(Schema.queries) rel.(target_type) with
      | None => mret 0
      | Some target => call (fun ex => count_rows now ex (embedded_query target [] (JObject (join_where rel key)) None) ctx)
      end
  end.

(** Every row of an array, or the object; other data is left as it is. *)
Definition for_rows (f : json -> Rest Executor json) (data : json) : Rest Executor json :=
  match data with
  | JArray rows => rows ← each_m f rows; mret (JArray rows)
  | JObject _ => f data
  | _ => mret data
  end.

Definition find_relationship (td : TypeDefinition) (parent_type_name name : string) : Rest Executor Relationship :=
  match find (fun r => r.(relationship_name) =s name) td.(relationships) with
  | Some rel => mret rel
  | None => refuse (bad_request ("Type '" ++ parent_type_name ++ "' has no relationship '" ++ name ++ "'"))
  end.
Definition parent_type (parent_type_name : string) : Rest Executor TypeDefinition :=
  match find_type schema parent_type_name with
  | Some td => mret td
  | None => refuse (internal ("Parent type not found: " ++ parent_type_name))
  end.

Fixpoint embed_specs (td : TypeDefinition) (parent_type_name : string) (filters : list (string * json))
    (specs : list SelectEntry) (data : json) : Rest Executor json :=
  match specs with
  | [] => mret data
  | Embedded relationship rename sub_fields :: specs =>
      rel ← find_relationship td parent_type_name relationship;
      data ← for_rows (embed_into_single rel (default relationship rename) (sub_field_names sub_fields)
        (assoc relationship filters)) data;
      embed_specs td parent_type_name filters specs data
  | _ :: specs => embed_specs td parent_type_name filters specs data
  end.
Definition execute_embeddings (parent_type_name : string) (data : json) (embeddings : list SelectEntry)
    (filters : list (string * json)) : Rest Executor json :=
  match embeddings with
  | [] => mret data
  | _ => td ← parent_type parent_type_name; embed_specs td parent_type_name filters embeddings data
  end.

Fixpoint count_specs (td : TypeDefinition) (parent_type_name : string) (names : list string) (data : json) : Rest Executor json :=
  match names with
  | [] => mret data
  | name :: names =>
      rel ← find_relationship td parent_type_name name;
      data ← for_rows (fun row => n ← count_related rel row; mret (set_field (name ++ "_count") (JNumber (PosInt n)) row)) data;
      count_specs td parent_type_name names data
  end.
Definition execute_embedding_counts (parent_type_name : string) (data : json) (names : list string) : Rest Executor json :=
  match names with
  | [] => mret data
  | _ => td ← parent_type parent_type_name; count_specs td parent_type_name names data
  end.
End Embedding.
