(* ===== verification/RestHandler.v ===== *)
(** * REST GET requests

    [fraiseql-server/src/routes/rest/handler.rs]: a path, a query string and
    headers become the operation the executor runs, and its result, with the
    embedded resources, the response.  One reading of the clock and one new UUID
    serve a request. *)

From S2P Require Import Prelude Json WhereClause GraphQL Matcher CacheStore SecurityContext ResponseCache CompiledSchema.
From S2P Require Import RowSecurity Execution RestParams RestResource RestHttp RestEmbedding.
Import Matching.
#[local] Open Scope Z_scope.

Record ResolvedGetQuery : Type := mkResolved {
  resolved_name : string;
  query_match : QMatch;
  variables_json : gmap string json;
  params : ExtractedParams
}.

(** [build_fts_where_clause]. *)
Definition fts_condition (query : string) (f : FieldDefinition) : json :=
  singleton f.(field_name) (singleton "websearch_query" (JString query)).
Definition build_fts_where_clause (query : string) (type_def : option TypeDefinition) : option json :=
  td ← type_def;
  match map (fts_condition query) (searchable_fields td) with
  | [] => None
  | [clause] => Some clause
  | clauses => Some (singleton "_or" (JArray clauses))
  end.

Definition relevance_order : json := JArray [singleton "_relevance" (JString "desc")].

Section Arguments.
Context (p : ExtractedParams) (type_def : option TypeDefinition).
Definition fts_where : option json := p.(search_query) ≫= fun q => build_fts_where_clause q type_def.
Definition where_argument : option json :=
  match p.(RestParams.where_clause), fts_where with
  | Some regular, Some fts => Some (singleton "_and" (JArray [regular; fts]))
  | Some regular, None => Some regular
  | None, fts => fts
  end.
Definition order_argument : option json :=
  match p.(RestParams.order_by) with
  | Some order => Some order
  | None => if is_some fts_where then Some relevance_order else None
  end.
(** [if let Some(v) = o { arguments.insert(k, v) }]. *)
Definition insert_some (k : string) (o : option json) (m : gmap string json) : gmap string json :=
  match o with Some v => <[k := v]> m | None => m end.
Definition get_arguments : gmap string json :=
  let arguments := foldl (fun m kv => <[kv.1 := kv.2]> m) (∅ : gmap string json) p.(path_params) in
  let arguments := insert_some "where" where_argument arguments in
  let arguments := insert_some "orderBy" order_argument arguments in
  match p.(pagination) with
  | Offset limit offset =>
      let arguments := <["limit" := JNumber (PosInt limit)]> arguments in
      if 0 <? offset then <["offset" := JNumber (PosInt offset)]> arguments else arguments
  | _ => arguments
  end.
(** The cursor's parameters go into the variables only. *)
Definition get_variables : gmap string json :=
  match p.(pagination) with
  | Cursor first after last before =>
      insert_some "before" (JString <$> before)
        (insert_some "last" ((fun n => JNumber (PosInt n)) <$> last)
          (insert_some "after" (JString <$> after)
            (insert_some "first" ((fun n => JNumber (PosInt n)) <$> first) get_arguments)))
  | _ => get_arguments
  end.
Definition get_field_names : list string := match p.(field_selection) with All => [] | Fields fields => fields end.
End Arguments.

(** ** The body of the answer *)
Definition number (n : Z) : json := JNumber (PosInt n).
Definition result_data (result : json) : json :=
  match json_get result "data" with
  | Some (JObject map) => match map with (_, v) :: _ => v | [] => JNull end
  | Some data => data
  | None => result
  end.
Definition insert_meta (k : string) (o : option json) (meta : list (string * json)) : list (string * json) :=
  match o with Some v => map_insert k v meta | None => meta end.
Definition response_meta (data : json) (total : option Z) (p : PaginationParams) : option json :=
  match p with
  | Offset limit offset =>
      Some (JObject (insert_meta "total" (number <$> total) [("limit"%string, number limit); ("offset"%string, number offset)]))
  | Cursor first after last before =>
      let info k := json_get data "pageInfo" ≫= fun i => json_get i k in
      Some (JObject
        (insert_meta "total" (number <$> total) (insert_meta "before" (JString <$> before) (insert_meta "last" (number <$> last)
          (insert_meta "after" (JString <$> after) (insert_meta "first" (number <$> first)
            (insert_meta "hasPreviousPage" (info "hasPreviousPage"%string)
              (insert_meta "hasNextPage" (info "hasNextPage"%string) []))))))))
  | NoPagination => None
  end.
Definition build_query_response (result : json) (total : option Z) (p : PaginationParams) : list (string * json) :=
  let data := result_data result in
  ("data"%string, data) :: match response_meta data total p with Some meta => [("meta"%string, meta)] | None => [] end.

(** ** The handler *)
Section Handler.
Context {P D S M Sub H V : Type} {RP : RLSPolicy P} {DB : DatabaseAdapter D} {ST : Store (Z * Z) ResponseEntry S}.
Context {HM : HeaderMap H V}.
Context (parse_f64 : string -> option f64) (read : string -> result string json) (from_str : string -> option json).
Context (now : Z) (fresh : string).
Context (compiled : @Schema.CompiledSchema QueryDefinition M Sub) (schema : CompiledSchema.Schema).
Context (config : RestConfig) (route_table : RestRouteTable).
Notation Executor := (@Executor P D S M Sub).

(** [requires_role] is looked for among the scopes. *)
Definition role_missing (qd : QueryDefinition) (ctx : option SecurityContext) : bool :=
  match qd.(requires_role) with
  | Some required => match ctx with Some ctx => negb (member required ctx.(scopes)) | None => true end
  | None => false
  end.

Definition resolve_get_query (relative_path : string) (query_pairs : list (string * string))
    (ctx : option SecurityContext) : result rest_failure ResolvedGetQuery :=
  resolved ← ok_or (resolve route_table relative_path Get) (Refused (RestHttp.not_found "Route not found"));
  name ← match resolved.(resolved_route).(source) with
         | Query name => Ok name
         | Mutation _ => Err (Refused (internal "GET route backed by mutation"))
         end;
  qd ← ok_or (Schema.find_query query_name compiled name) (Refused (RestHttp.not_found ("Query not found: " ++ name)));
  if role_missing qd ctx then Err (Refused forbidden)
  else
    let type_def := find_type schema qd.(return_type) in
    p ← map_err of_failure (Extractor.extract parse_f64 read config qd type_def resolved.(resolved_params) query_pairs);
    Ok (mkResolved name (from_operation qd (get_field_names p) (get_arguments p type_def)) (get_variables p type_def) p).

Definition preferences (headers : H) : Rest Executor PreferHeader :=
  match from_headers headers with Some p => mret p | None => pure (Err (Died Panic)) end.

(** The query alone, or with the count of its rows; both run to their end. *)
Definition run_query (qm : QMatch) (prefer : PreferHeader) (ctx : option SecurityContext) : Rest Executor (json * option Z) :=
  match count_preference prefer with
  | Some _ => fun ex =>
      let '(r, ex) := execute_query_direct from_str now ex qm ctx in
      let '(c, ex) := count_rows now ex qm ctx in
      (map_err of_error (r ← r; c ← c; Ok (r, Some c)), ex)
  | None => r ← call (fun ex => execute_query_direct from_str now ex qm ctx); mret (r, None)
  end.

Definition has_header (headers : H) (name : string) : bool := is_some (header headers name).
Definition get_headers (qm : QMatch) (prefer : PreferHeader) (headers : H) : H :=
  let counted := is_some (count_preference prefer) in
  let h := set_request_id fresh headers no_headers in
  let h := if counted then set_preference_applied ["count=exact"%string] h else h in
  let h := if (prefer.(count_planned) || prefer.(count_estimated)) && counted
           then insert_header "x-preference-fallback" (from_static "count=exact") h else h in
  apply_cache_headers (mkCacheContext true (has_header headers "authorization") qm.(query_def).(CompiledSchema.cache_ttl_seconds)
    config.(default_cache_ttl) config.(cdn_max_age)) h.

Definition with_data (response : list (string * json)) (data : json) : list (string * json) := map_insert "data" data response.
Definition embed_response (return_type : string) (p : ExtractedParams) (ctx : option SecurityContext)
    (response : list (string * json)) : Rest Executor (list (string * json)) :=
  match p.(embeddings), p.(embedding_counts), assoc "data" response with
  | [], [], _ | _, _, None => mret response
  | _, _, Some data =>
      data ← execute_embeddings from_str now compiled schema config ctx return_type data p.(embeddings) p.(embedding_filters);
      data ← execute_embedding_counts now compiled schema ctx return_type data p.(embedding_counts);
      mret (with_data response data)
  end.

Definition handle_get (relative_path : string) (query_pairs : list (string * string)) (headers : H)
    (ctx : option SecurityContext) : Rest Executor (RestResponse H) :=
  g ← pure (resolve_get_query relative_path query_pairs ctx);
  prefer ← preferences headers;
  '(result, total) ← run_query g.(query_match) prefer ctx;
  response ← embed_response g.(query_match).(query_def).(return_type) g.(params) ctx
    (build_query_response result total g.(params).(RestParams.pagination));
  mret (mkResponse 200 (get_headers g.(query_match) prefer headers) (Some (JObject response))).
End Handler.
