(* ===== verification/RestFormat.v ===== *)
(** * Responses of the REST formatter

    [fraiseql-server/src/routes/rest/response.rs]: the envelope, the pagination
    links, entity tags and conditional requests, the answers to writes and
    errors.  The printer of JSON, the hash of [xxhash-rust] and the new UUID are
    arguments; [None] is a panic. *)

From Stdlib Require Import Ascii.
From stdpp Require Import pretty.
From S2P Require Import Prelude Json WhereClause Chars SecurityContext CompiledSchema RestParams RestResource RestHttp RestHandler.
#[local] Open Scope Z_scope.

(** ** What is taken from the executor's result *)
Definition extract_single_data (result : json) : json := result_data result.
Definition extract_collection_data : json -> json := extract_single_data.
Definition extract_mutation_data (result : json) : json :=
  match json_get result "data" with
  | Some (JObject ((_, mutation_result) :: _)) =>
      match json_get mutation_result "entity" with
      | Some JNull | None => mutation_result
      | Some entity => entity
      end
  | Some data => data
  | None => result
  end.
Definition extract_delete_entity (result : json) (mutation_name : string) : option json :=
  data ← json_get result "data";
  r ← json_get data mutation_name;
  entity ← json_get r "entity";
  match entity with JNull => None | e => Some e end.
Definition extract_id_from_data (data : json) : option json := json_get data "id".
Definition as_str (v : json) : option string := match v with JString s => Some s | _ => None end.
Definition extract_end_cursor (data : json) : option string :=
  info ← json_get data "pageInfo"; cursor ← json_get info "endCursor"; as_str cursor.

(** ** Links *)
Definition page_link (base : string) (limit offset : Z) : json :=
  JString (base ++ "?limit=" ++ pretty limit ++ "&offset=" ++ pretty offset).
Definition next_offset (limit offset : Z) (total : option Z) : option Z :=
  let next := u64_wrap (offset + limit) in
  match total with Some t => if next <? t then Some next else None | None => Some next end.
Definition prev_offset (limit offset : Z) : option Z :=
  if 0 <? offset then Some (u64_saturating_sub offset limit) else None.
(** The outer [None] is a division by zero. *)
Definition last_offset (limit : Z) (total : option Z) : option (option Z) :=
  match total with
  | Some t => if 0 <? t then if limit =? 0 then None else Some (Some ((t - 1) / limit * limit)) else Some (Some 0)
  | None => Some None
  end.
Definition link_or_null (base : string) (limit : Z) (o : option Z) : json :=
  match o with Some offset => page_link base limit offset | None => JNull end.
Definition build_offset_links (base : string) (limit offset : Z) (total : option Z) : option json :=
  let links := map_insert "self" (page_link base limit offset) [] in
  let links := map_insert "first" (page_link base limit 0) links in
  let links := map_insert "next" (link_or_null base limit (next_offset limit offset total)) links in
  let links := map_insert "prev" (link_or_null base limit (prev_offset limit offset)) links in
  last ← last_offset limit total;
  Some (JObject match last with Some o => map_insert "last" (page_link base limit o) links | None => links end).

Definition cursor_self (base : string) (first : option Z) (after : option string) : string :=
  match first with
  | Some f => base ++ "?first=" ++ pretty f ++ match after with Some a => "&after=" ++ a | None => "" end
  | None => base
  end%string.
Definition has_next_page (data : json) : bool :=
  match json_get data "pageInfo" ≫= fun i => json_get i "hasNextPage" with Some (JBool b) => b | _ => false end.
Definition cursor_next (base : string) (first : option Z) (cursor : string) : string :=
  match first with
  | Some f => base ++ "?first=" ++ pretty f ++ "&after=" ++ cursor
  | None => base ++ "?after=" ++ cursor
  end%string.
Definition build_cursor_links (base : string) (first : option Z) (after : option string) (data : json) : json :=
  let links := map_insert "self" (JString (cursor_self base first after)) [] in
  JObject match (if has_next_page data then extract_end_cursor data else None) with
          | Some cursor => map_insert "next" (JString (cursor_next base first cursor)) links
          | None => links
          end.

(** ** Entity tags *)
Definition hex_digit (n : Z) : ascii :=
  match String.get (Z.to_nat n) "0123456789abcdef" with Some c => c | None => "0"%char end.
(** [n] digits, the last one first. *)
Fixpoint hex_digits (n : nat) (z : Z) (acc : string) : string :=
  match n with O => acc | S n => hex_digits n (z / 16) (String (hex_digit (z mod 16)) acc) end.
Definition quote : string := String (ascii_of_nat 34) EmptyString.
Definition etag_text (hash : Z) : string := "W/" ++ quote ++ hex_digits 16 hash "" ++ quote.
Definition tag_listed (header etag : string) : bool :=
  (trim header =s "*") || existsb (fun tag => trim tag =s etag) (split "," header).

Section Formatter.
Context {H V : Type} {HM : HeaderMap H V}.
Context (json_text : json -> string) (xxh3_64 : string -> Z) (fresh : string).
Context (config : RestConfig) (base : string).
Notation Response := (RestResponse H).

Definition compute_etag (body : string) : string := etag_text (xxh3_64 body).
Definition check_if_none_match (headers : H) (etag : string) : option bool :=
  inm ← header_str headers "if-none-match"; Some (tag_listed inm etag).
(** [HeaderValue::from_str(..).expect(..)]. *)
Definition etag_header (etag : string) (h : H) : option H := (fun v => insert_header "etag" v h) <$> header_value etag.

(** The end that both kinds of reads share. *)
Definition with_etag (headers : H) (request : H) (body : json) : option Response :=
  if config.(etag) then
    let tag := compute_etag (json_text body) in
    h ← etag_header tag headers;
    Some (match check_if_none_match request tag with
          | Some true => mkResponse 304 h None
          | _ => mkResponse 200 h (Some body)
          end)
  else Some (mkResponse 200 headers (Some body)).

Definition format_single (result : json) (request : H) : option Response :=
  with_etag (set_request_id fresh request no_headers) request (singleton "data" (extract_single_data result)).

(** As the handler's. *)
Definition collection_meta (data : json) (total : option Z) (p : PaginationParams) : option json := response_meta data total p.
Definition collection_body (result : json) (total : option Z) (p : PaginationParams) (resource_path : string) : option json :=
  let data := extract_collection_data result in
  let url := (base ++ resource_path)%string in
  let response := [("data"%string, data)] in
  let response := match collection_meta data total p with Some meta => map_insert "meta" meta response | None => response end in
  match p with
  | Offset limit offset => links ← build_offset_links url limit offset total; Some (JObject (map_insert "links" links response))
  | Cursor first after _ _ => Some (JObject (map_insert "links" (build_cursor_links url first after data) response))
  | NoPagination => Some (JObject response)
  end.
Definition format_collection (result : json) (total : option Z) (p : PaginationParams) (resource_path : string) (request : H)
    (prefer : PreferHeader) : option Response :=
  body ← collection_body result total p resource_path;
  let h := set_request_id fresh request no_headers in
  let h := if prefer.(count_exact) && is_some total then insert_header "preference-applied" (from_static "count=exact") h else h in
  with_etag h request body.

Definition format_id_for_url (id : json) : string := match id with JString s => s | v => json_text v end.
Definition format_created (result : json) (resource_path : string) (id : option json) (request : H) : Response :=
  let data := extract_mutation_data result in
  let h := set_request_id fresh request no_headers in
  let id := match id with Some v => Some v | None => extract_id_from_data data end in
  mkResponse 201
    match id with
    | Some v => insert_text "location" (base ++ resource_path ++ "/" ++ format_id_for_url v) h
    | None => h
    end (Some (singleton "data" data)).
Definition format_mutation (result : json) (request : H) : Response :=
  mkResponse 200 (set_request_id fresh request no_headers) (Some (singleton "data" (extract_mutation_data result))).

Definition want_entity (prefer : PreferHeader) : bool :=
  if prefer.(return_representation) then true
  else if prefer.(return_minimal) then false
  else match config.(delete_response) with Entity => true | NoContent => false end.
Definition format_deleted (result : json) (mutation_name : string) (prefer : PreferHeader) (request : H) : Response :=
  let h := set_request_id fresh request no_headers in
  let applied v h := insert_header "preference-applied" (from_static v) h in
  if want_entity prefer then
    match extract_delete_entity result mutation_name with
    | Some entity =>
        mkResponse 200 (if prefer.(return_representation) then applied "return=representation"%string h else h)
          (Some (singleton "data" entity))
    | None =>
        mkResponse 204
          (if prefer.(return_representation)
           then insert_header "x-preference-fallback" (from_static "entity-unavailable") (applied "return=minimal"%string h)
           else h) None
    end
  else mkResponse 204 (if prefer.(return_minimal) then applied "return=minimal"%string h else h) None.

Context (message_text : WhereClause.message -> string).
Definition format_error (e : RestError) (request : H) (allowed_methods : option (list HttpMethod)) : Response :=
  let h := set_request_id fresh request no_headers in
  mkResponse e.(status)
    match (if e.(status) =? 405 then allowed_methods else None) with
    | Some methods => insert_text "allow" (join ", " (map method_str methods)) h
    | None => h
    end (Some (error_json message_text e)).
Definition method_not_allowed : RestError := mkRestError 405 "METHOD_NOT_ALLOWED" (Text "Method not allowed") None.
End Formatter.

(** * Properties of the REST formatter *)

(** ** Pages *)

(** The pages a client reaches by following [next], from [offset]. *)
Fixpoint follow (fuel : nat) (limit total offset : Z) : list Z :=
  match fuel with
  | O => []
  | S fuel => offset :: match next_offset limit offset (Some total) with Some next => follow fuel limit total next | None => [] end
  end.
Definition pages (limit total : Z) : nat := Z.to_nat ((total - 1) / limit + 1).

Lemma follow_pages limit total n : 0 < limit -> total + limit <= u64_max ->
  forall k, 0 <= k -> n = Z.to_nat ((total - 1) / limit - k) -> k <= (total - 1) / limit -> forall fuel, (n < fuel)%nat ->
  follow fuel limit total (k * limit) = map (fun i => (k + Z.of_nat i) * limit) (seq 0 (S n)).
Proof.
  intros Hl Ht. induction n as [|n IH]; intros k Hk Hn Hle fuel Hf; (destruct fuel as [|fuel]; [lia|]); cbn [follow].
  - assert (Hkl : k = (total - 1) / limit) by lia.
    assert (Hin : total - 1 < (k + 1) * limit) by (subst k; pose proof (Z.mod_pos_bound (total - 1) limit Hl); pose proof (Z.div_mod (total - 1) limit); nia).
    unfold next_offset, u64_wrap. rewrite Z.mod_small by (unfold u64_max in *; pose proof (Z.mul_div_le (total - 1) limit Hl); nia).
    destruct (Z.ltb_spec (k * limit + limit) total); [lia|]. cbn. by rewrite Z.add_0_r.
  - assert (Hin : (k + 1) * limit <= total - 1) by (pose proof (Z.mul_div_le (total - 1) limit Hl); nia).
    unfold next_offset, u64_wrap. rewrite Z.mod_small by (unfold u64_max in *; nia).
    destruct (Z.ltb_spec (k * limit + limit) total); [|lia].
    replace (k * limit + limit) with ((k + 1) * limit) by lia. rewrite (IH (k + 1)) by lia.
    change (seq 0 (S (S n))) with (0%nat :: seq 1 (S n)). cbn [map]. rewrite Z.add_0_r. f_equal.
    rewrite <- (fmap_S_seq 0). rewrite map_map. apply map_ext. intros i. lia.
Qed.

(** Following [next] from the first page of a counted collection visits the
    pages in order, each once, and ends at the page of the [last] link; the
    pages cover the rows.  [total + limit] must fit in 64 bits: past it the
    sum wraps. *)
Theorem next_links_walk limit total : 0 < limit -> 0 < total -> total + limit <= u64_max ->
  let visited := follow (pages limit total) limit total 0 in
  visited = map (fun i => Z.of_nat i * limit) (seq 0 (pages limit total)) /\
  last_offset limit (Some total) = Some (list.last visited) /\
  forall row, 0 <= row < total -> exists offset, offset ∈ visited /\ offset <= row < offset + limit.
Proof.
  intros Hl Ht Hb visited. assert (Hd : 0 <= (total - 1) / limit) by (apply Z.div_pos; lia).
  assert (Hv : visited = map (fun i => Z.of_nat i * limit) (seq 0 (pages limit total))).
  { unfold visited, pages. set (n := Z.to_nat ((total - 1) / limit)).
    replace (Z.to_nat ((total - 1) / limit + 1)) with (S n) by lia.
    replace 0 with (0 * limit) at 1 by lia. rewrite (follow_pages limit total n Hl Hb 0) by lia.
    apply map_ext. intros i. lia. }
  split; [done|]. split.
  - unfold last_offset. destruct (Z.ltb_spec 0 total); [|lia]. destruct (Z.eqb_spec limit 0); [lia|]. rewrite Hv. unfold pages.
    replace (Z.to_nat ((total - 1) / limit + 1)) with (S (Z.to_nat ((total - 1) / limit))) by lia.
    rewrite seq_S, map_app. cbn [map]. rewrite list.last_snoc. do 2 f_equal. lia.
  - intros row Hr. exists (row / limit * limit). pose proof (Z.div_mod row limit). pose proof (Z.mod_pos_bound row limit Hl).
    split; [|nia]. rewrite Hv. apply list_elem_of_fmap. exists (Z.to_nat (row / limit)).
    assert (0 <= row / limit <= (total - 1) / limit) by (split; [apply Z.div_pos | apply Z.div_le_mono]; lia).
    split; [by rewrite Z2Nat.id by lia|]. apply elem_of_seq. unfold pages. lia.
Qed.

(** A page size of zero divides by zero as soon as a row is counted; the parser
    of [limit] lets zero through. *)
Lemma zero_limit_panics base offset total : 0 < total -> build_offset_links base 0 offset (Some total) = None.
Proof. intros H. unfold build_offset_links, last_offset. destruct (Z.ltb_spec 0 total); [done|lia]. Qed.

(** ** Conditional requests *)
Definition is_hex (c : ascii) : bool := existsb (Ascii.eqb c) (String.list_ascii_of_string "0123456789abcdef").
Fixpoint all_hex (s : string) : bool := match s with EmptyString => true | String c s => is_hex c && all_hex s end.
Lemma hex_digit_hex n : 0 <= n < 16 -> is_hex (hex_digit n) = true.
Proof.
  intros H. assert (Hn : n ∈ map Z.of_nat (seq 0 16)).
  { apply list_elem_of_fmap. exists (Z.to_nat n). split; [lia|]. apply elem_of_seq. lia. }
  apply (proj1 (list.Forall_forall (fun n => is_hex (hex_digit n) = true) _)) with (2 := Hn). by repeat constructor.
Qed.
Lemma hex_digits_hex n z acc : all_hex acc = true -> all_hex (hex_digits n z acc) = true.
Proof.
  revert z acc. induction n as [|n IH]; intros z acc Ha; [done|]. cbn [hex_digits]. apply IH. cbn [all_hex].
  by rewrite (hex_digit_hex (z mod 16)) by (apply Z.mod_pos_bound; lia).
Qed.

Lemma hex_digits_app n z acc t : (hex_digits n z acc ++ t)%string = hex_digits n z (acc ++ t).
Proof. revert z acc. induction n as [|n IH]; intros z acc; [done|]. cbn [hex_digits]. by rewrite IH. Qed.
Lemma hex_digit_inj n m : 0 <= n < 16 -> 0 <= m < 16 -> hex_digit n = hex_digit m -> n = m.
Proof.
  set (l := map Z.of_nat (seq 0 16)). intros Hn Hm Hd.
  assert (Hin : forall k, 0 <= k < 16 -> In k l).
  { intros k Hk. apply in_map_iff. exists (Z.to_nat k). rewrite in_seq. lia. }
  assert (Ht : forallb (fun n => forallb (fun m => implb (Ascii.eqb (hex_digit n) (hex_digit m)) (n =? m)) l) l = true) by reflexivity.
  rewrite forallb_forall in Ht. specialize (Ht n (Hin n Hn)). rewrite forallb_forall in Ht. specialize (Ht m (Hin m Hm)).
  rewrite Hd, Ascii.eqb_refl in Ht. by apply Z.eqb_eq.
Qed.
Lemma hex_digits_inj n z z' acc acc' : hex_digits n z acc = hex_digits n z' acc' ->
  z mod 16 ^ Z.of_nat n = z' mod 16 ^ Z.of_nat n /\ acc = acc'.
Proof.
  revert z z' acc acc'. induction n as [|n IH]; intros z z' acc acc'; cbn [hex_digits].
  - intros ->. by rewrite !Z.mod_1_r.
  - intros [Hz [= Hd ->]]%IH. split; [|done]. apply hex_digit_inj in Hd; [|apply Z.mod_pos_bound; lia..].
    rewrite Nat2Z.inj_succ, Z.pow_succ_r by lia. rewrite !Z.rem_mul_r by lia. by rewrite Hd, Hz.
Qed.

(** Text that [trim] and [split] leave alone. *)
Definition plain (c : ascii) : bool := negb (Ascii.eqb c ",") && is_ascii c && negb (is_whitespace (String c EmptyString)).
Fixpoint all_plain (s : string) : bool := match s with EmptyString => true | String c s => plain c && all_plain s end.
Lemma tag_plain_app a b : all_plain (a ++ b) = all_plain a && all_plain b.
Proof. induction a as [|c a IH]; [done|]. rewrite str_cons. cbn. by rewrite IH, andb_assoc. Qed.
Lemma hex_plain s : all_hex s = true -> all_plain s = true.
Proof.
  induction s as [|c s IH]; [done|]. cbn [all_hex all_plain]. intros [Hc Hs]%andb_true_iff. rewrite (IH Hs), andb_true_r.
  unfold is_hex in Hc. apply existsb_exists in Hc as (d & Hd & ->%Ascii.eqb_eq). clear -Hd.
  cbn in Hd. repeat (destruct Hd as [<-|Hd]; [reflexivity|]). done.
Qed.
Lemma plain_ascii s : all_plain s = true -> all_ascii s = true.
Proof.
  induction s as [|c s IH]; [done|]. cbn [all_plain all_ascii]. intros [Hc Hs]%andb_true_iff. rewrite (IH Hs), andb_true_r.
  unfold plain in Hc. by apply andb_true_iff in Hc as [[_ Hc]%andb_true_iff _].
Qed.
Lemma plain_chars s : all_plain s = true -> chars s = map (fun c => String c EmptyString) (String.list_ascii_of_string s).
Proof. intros Hs. by apply chars_bytes, plain_ascii. Qed.
Lemma plain_trim s : all_plain s = true -> trim s = s.
Proof.
  intros Hs. unfold trim, trim_matches.
  assert (Hsk : forall l, Forall (fun ch => is_whitespace ch = false) l -> skip_while is_whitespace l = l).
  { intros l Hl. destruct Hl as [|x l' Hx _]; [done|]. cbn [skip_while]. by rewrite Hx. }
  assert (Hw : Forall (fun ch => is_whitespace ch = false) (chars s)).
  { rewrite (plain_chars s Hs). clear Hsk. induction s as [|c s IH]; [constructor|]. cbn [all_plain] in Hs.
    apply andb_true_iff in Hs as [Hc Hs]. constructor; [|by apply IH].
    unfold plain in Hc. apply andb_true_iff in Hc as [_ Hc]. by apply negb_true_iff. }
  rewrite (Hsk _ Hw), (Hsk (rev (chars s))), rev_involutive by (apply Forall_rev; exact Hw).
  by rewrite (plain_chars s Hs), concat_ascii, String.string_of_list_ascii_of_string.
Qed.
Lemma plain_split s : all_plain s = true -> split "," s = [s].
Proof.
  induction s as [|c s IH]; [done|]. cbn [all_plain split]. intros [Hc Hs]%andb_true_iff.
  unfold plain in Hc. apply andb_true_iff in Hc as [[Hc _]%andb_true_iff _]. apply negb_true_iff in Hc. by rewrite Hc, (IH Hs).
Qed.
Lemma etag_plain hash : all_plain (etag_text hash) = true.
Proof. unfold etag_text. rewrite !tag_plain_app, (hex_plain (hex_digits 16 hash "")) by (by apply hex_digits_hex). reflexivity. Qed.

Lemma listed_itself hash : tag_listed (etag_text hash) (etag_text hash) = true.
Proof.
  unfold tag_listed. rewrite (plain_split _ (etag_plain hash)). cbn [existsb]. rewrite (plain_trim _ (etag_plain hash)), streqb_refl.
  by rewrite orb_true_r.
Qed.

Section Revalidation.
Context {H V : Type} {HM : HeaderMap H V} {HL : HeaderMapLaws H V}.
Context (json_text : json -> string) (xxh3_64 : string -> Z) (fresh fresh' : string) (config : RestConfig).
(** Text of printable characters is a value, and is read back. *)
Hypothesis header_value_plain : forall s, all_plain s = true -> exists v : V, header_value s = Some v /\ to_str v = Some s.
Notation format_single := (format_single (H := H) json_text xxh3_64).

Context (xxh3_u64 : forall s, is_u64 (xxh3_64 s)).
Lemma compute_etag_inj b b' : compute_etag xxh3_64 b = compute_etag xxh3_64 b' -> xxh3_64 b = xxh3_64 b'.
Proof.
  unfold compute_etag, etag_text. rewrite !hex_digits_app. remember 16%nat as n eqn:Hn. cbn. intros [= Heq].
  apply hex_digits_inj in Heq as [Heq _]. subst n.
  pose proof (xxh3_u64 b). pose proof (xxh3_u64 b'). unfold is_u64, u64_max in *. rewrite !Z.mod_small in Heq by lia. exact Heq.
Qed.
Lemma listed_iff b b' : tag_listed (compute_etag xxh3_64 b) (compute_etag xxh3_64 b') = (xxh3_64 b' =? xxh3_64 b).
Proof.
  destruct (Z.eqb_spec (xxh3_64 b') (xxh3_64 b)) as [He|He].
  - unfold compute_etag. rewrite He. apply listed_itself.
  - unfold tag_listed. unfold compute_etag. rewrite (plain_trim _ (etag_plain _)), (plain_split _ (etag_plain _)).
    cbn [existsb]. rewrite (plain_trim _ (etag_plain _)), orb_false_r. apply orb_false_iff. split; [reflexivity|].
    apply String.eqb_neq. intros Hc. by apply He, compute_etag_inj.
Qed.

(** A client that sends back the tag it was given is told that nothing has
    changed exactly when the body has the hash it had, and gets the new body
    otherwise; no request makes the formatter panic. *)
Theorem etag_revalidates result result' request request' : config.(etag) = true ->
  header request "if-none-match" = None ->
  let data r := singleton "data" (extract_single_data r) in
  exists r, format_single fresh config result request = Some r /\
  r.(response_status) = 200 /\ r.(body) = Some (data result) /\
  (header request' "if-none-match" = header r.(response_headers) "etag" ->
   exists r', format_single fresh' config result' request' = Some r' /\
   (r'.(response_status), r'.(body)) =
     if xxh3_64 (json_text (data result')) =? xxh3_64 (json_text (data result)) then (304, None) else (200, Some (data result'))).
Proof.
  intros Hetag Hreq data. unfold RestFormat.format_single, with_etag. rewrite Hetag. fold (data result) (data result').
  destruct (header_value_plain (compute_etag xxh3_64 (json_text (data result))) (etag_plain _)) as (v & Hv & Hs).
  destruct (header_value_plain (compute_etag xxh3_64 (json_text (data result'))) (etag_plain _)) as (v' & Hv' & _).
  unfold etag_header, check_if_none_match, header_str. rewrite Hv, Hv', Hreq. cbn.
  eexists. split; [reflexivity|]. split; [done|]. split; [done|]. cbn. rewrite header_insert, streqb_refl. intros ->. cbn. rewrite Hs. cbn.
  eexists. split; [reflexivity|]. rewrite listed_iff. by destruct (_ =? _).
Qed.
End Revalidation.

(** ** Examples *)
Module FormatDemo.
#[local] Instance pairs : HeaderMap (list (string * string)) string := {
  no_headers := [];
  header h k := assoc k h;
  get_all h k := map snd (List.filter (fun kv => kv.1 =s k) h);
  insert_header k v h := (k, v) :: List.filter (fun kv => negb (kv.1 =s k)) h;
  header_list h := h;
  to_str v := Some v;
  header_value s := Some s;
  from_static s := s;
  header_name s := Some s
}.
#[local] Instance pairs_laws : HeaderMapLaws (list (string * string)) string.
Proof.
  split.
  - intros k k' v h. cbn. destruct (k =s k') eqn:E; [done|].
    induction h as [|[x b] h IH]; [done|]. cbn. destruct (x =s k) eqn:Ex; cbn.
    + apply streqb_true in Ex as ->. by rewrite E.
    + by rewrite IH.
  - done.
  - done.
Qed.
Definition text_of (v : json) : string := match v with JObject [(_, JString s)] => s | _ => "?" end.
Definition length_hash (s : string) : Z := Z.of_nat (String.length s) mod 2 ^ 64.
Definition user (name : string) : json := singleton "data" (singleton "user" (JString name)).
Definition first_answer := format_single (H := list (string * string)) text_of length_hash "r1" default_rest_config (user "ada") [].

Lemma next_links_walk_witness : follow 3 10 25 0 = [0; 10; 20] /\ last_offset 10 (Some 25) = Some (Some 20).
Proof.
  destruct (next_links_walk 10 25 ltac:(lia) ltac:(lia) ltac:(unfold u64_max; lia)) as (Hv & Hl & _).
  split; [exact Hv | rewrite Hl, Hv; reflexivity].
Defined.

Lemma any_value s : all_plain s = true -> exists v : string, header_value s = Some v /\ to_str v = Some s.
Proof. intros _. by exists s. Qed.
Lemma length_hash_u64 s : is_u64 (length_hash s).
Proof. unfold length_hash, is_u64, u64_max. pose proof (Z.mod_pos_bound (Z.of_nat (String.length s)) (2 ^ 64)). lia. Qed.
Definition second_request : list (string * string) := [("if-none-match"%string, etag_text 3)].
Lemma etag_revalidates_witness : exists r r', first_answer = Some r /\
  format_single text_of length_hash "r2" default_rest_config (user "bob") second_request = Some r' /\ r'.(response_status) = 304.
Proof.
  destruct (etag_revalidates text_of length_hash "r1" "r2" default_rest_config any_value length_hash_u64
    (user "ada") (user "bob") [] second_request eq_refl eq_refl) as (r & Hr & _ & _ & Hk).
  assert (Hh : header second_request "if-none-match" = header r.(response_headers) "etag").
  { vm_compute in Hr. injection Hr as <-. vm_compute. reflexivity. }
  destruct (Hk Hh) as (r' & Hr' & Hs). exists r, r'. split; [exact Hr|]. split; [exact Hr'|]. vm_compute in Hs. by injection Hs.
Defined.

(** Two bodies of one length, here one hash, are one body to the client. *)
Example hash_decides : length_hash "ada" = length_hash "bob".
Proof. reflexivity. Qed.
(** A page size that makes the next offset wrap sends the client back. *)
Example wrapped_next : next_offset (2 ^ 64 - 10) 20 None = Some 10.
Proof. reflexivity. Qed.
Example zero_limit : build_offset_links "/rest/v1/users" 0 0 (Some 3) = None.
Proof. reflexivity. Qed.
End FormatDemo.
