(* ===== verification/RestStream.v ===== *)
(** * Streams of the REST transport

    [fraiseql-server/src/routes/rest/streaming.rs] and [sse.rs]: the answer to
    a GET as lines of JSON, fetched in batches, and the events of the
    server-sent kind.  The printers of JSON and of messages are arguments; a
    batch reads the clock once. *)

From Stdlib Require Import Ascii.
From stdpp Require Import pretty.
From S2P Require Import Prelude Json WhereClause Chars GraphQL Matcher CacheStore SecurityContext ResponseCache CompiledSchema.
From S2P Require Import RowSecurity Execution RestParams RestResource RestHttp RestHandler RestFormat.
Import Matching.
#[local] Open Scope Z_scope.

(** ** [Accept] *)
Section Accept.
Context {H V : Type} {HM : HeaderMap H V}.
Definition accepts (content_type : string) (headers : H) : bool :=
  match header_str headers "accept" with
  | Some accept => existsb (fun part => eq_ignore_ascii_case (trim part) content_type) (split "," accept)
  | None => false
  end.
Definition NDJSON_CONTENT_TYPE : string := "application/x-ndjson".
Definition SSE_CONTENT_TYPE : string := "text/event-stream".
Definition accepts_ndjson : H -> bool := accepts NDJSON_CONTENT_TYPE.
Definition accepts_sse : H -> bool := accepts SSE_CONTENT_TYPE.
Definition extract_last_event_id (headers : H) : option string := header_str headers "last-event-id".
End Accept.

(** ** Server-sent events *)
Definition DEFAULT_SSE_HEARTBEAT_SECONDS : Z := 30.
Definition is_stream_path (relative_path : string) : bool :=
  match list.last (segments relative_path) with Some s => s =s "stream" | None => false end.
Definition extract_stream_resource (relative_path : string) : option string :=
  match segments relative_path with [r; s] => if s =s "stream" then Some r else None | _ => None end.
Definition format_sse_event (json_text : json -> string) (event_type event_id : string) (data : json) : string :=
  "event: " ++ event_type ++ newline ++ "id: " ++ event_id ++ newline ++ "data: " ++ json_text data ++ newline ++ newline.
Definition format_heartbeat : string := "event: ping" ++ newline ++ "data: " ++ newline ++ newline.
Definition observers_not_available : RestError :=
  mkRestError 501 "NOT_IMPLEMENTED" (WhereClause.Text "SSE streaming requires the observers feature") None.
Definition event_kind_to_sse_type (kind : string) : string :=
  if kind =s "INSERT" then "insert" else if kind =s "UPDATE" then "update" else if kind =s "DELETE" then "delete"
  else if kind =s "CUSTOM" then "custom" else "unknown".

(** ** Lines of JSON *)
Definition validate_ndjson_request (prefer : PreferHeader) (p : PaginationParams) : result RestError unit :=
  let paginated := Err (bad_request "pagination not available for streaming; use filters to narrow results") in
  if prefer.(count_exact) || prefer.(count_planned) || prefer.(count_estimated)
  then Err (bad_request "count not available for streaming responses")
  else
    match p with
    | Offset _ offset => if 0 <? offset then paginated else Ok tt
    | Cursor _ _ _ _ => paginated
    | NoPagination => Ok tt
    end.
Definition extract_rows (answer : json) (query_name : string) : result RestError (list json) :=
  data ← ok_or (d ← json_get answer "data"; json_get d query_name) (internal "Missing data in query result");
  Ok match data with JArray rows => rows | other => [other] end.

Section Ndjson.
Context {P D S M Sub H V : Type} {RP : RLSPolicy P} {DB : DatabaseAdapter D} {ST : Store (Z * Z) ResponseEntry S}.
Context {HM : HeaderMap H V}.
Context (from_str : string -> option json) (json_text : json -> string) (message_text : WhereClause.message -> string).
Notation Executor := (@Executor P D S M Sub).

Definition error_ndjson_line (message : string) : string :=
  "{" ++ quote ++ "error" ++ quote ++ ":" ++ json_text (JString message) ++ "}" ++ newline.
Definition ndjson_lines (rows : list json) : string := concat_str (map (fun row => json_text row ++ newline)%string rows).

Record StreamState : Type := mkStream {
  stream_query_name : string;
  stream_query : QMatch;
  stream_variables : gmap string json;
  stream_context : option SecurityContext;
  batch_size : Z;
  stream_offset : Z;
  done : bool
}.
Definition finished (st : StreamState) : StreamState :=
  mkStream st.(stream_query_name) st.(stream_query) st.(stream_variables) st.(stream_context) st.(batch_size) st.(stream_offset) true.
Definition advanced (st : StreamState) : StreamState :=
  mkStream st.(stream_query_name) st.(stream_query) st.(stream_variables) st.(stream_context) st.(batch_size)
    (u64_wrap (st.(stream_offset) + st.(batch_size))) st.(done).

(** The page of this batch is written into the variables ... *)
Definition batch_variables (st : StreamState) : gmap string json :=
  let vars := <["limit" := number st.(batch_size)]> st.(stream_variables) in
  if 0 <? st.(stream_offset) then <["offset" := number st.(stream_offset)]> vars else vars.
(** ... which the executor's call takes and does not read. *)
Definition direct_with (_variables : gmap string json) (now : Z) (ex : Executor) (qm : QMatch) (ctx : option SecurityContext) :
    result error json * Executor := execute_query_direct from_str now ex qm ctx.

Definition fetch_and_serialize_batch (now : Z) (st : StreamState) (ex : Executor) :
    result string (option string) * StreamState * Executor :=
  let '(r, ex) := direct_with (batch_variables st) now ex st.(stream_query) st.(stream_context) in
  match r with
  | Err e => (Err (error_ndjson_line (message_text (error_text e))), finished st, ex)
  | Ok result_value =>
      match extract_rows result_value st.(stream_query_name) with
      | Err e => (Err (error_ndjson_line (message_text e.(error_message))), finished st, ex)
      | Ok [] => (Ok None, finished st, ex)
      | Ok rows =>
          (Ok (Some (ndjson_lines rows)),
           if Z.of_nat (length rows) <? st.(batch_size) then finished st else advanced st, ex)
      end
  end.
(** One step of [stream::unfold]. *)
Definition stream_next (now : Z) (st : StreamState) (ex : Executor) : option (string * StreamState) * Executor :=
  if st.(done) then (None, ex)
  else
    match fetch_and_serialize_batch now st ex with
    | (Ok (Some bytes), st, ex) => (Some (bytes, st), ex)
    | (Ok None, _, ex) => (None, ex)
    | (Err err_bytes, st, ex) => (Some (err_bytes, finished st), ex)
    end.
(** What a client that reads [length clock] items is sent. *)
Fixpoint stream_items (clock : list Z) (st : StreamState) (ex : Executor) : list string :=
  match clock with
  | [] => []
  | now :: clock =>
      match stream_next now st ex with
      | (Some (bytes, st), ex) => bytes :: stream_items clock st ex
      | (None, _) => []
      end
  end.

Context (parse_f64 : string -> option f64) (read : string -> result string json) (fresh : string).
Context (compiled : @Schema.CompiledSchema QueryDefinition M Sub) (schema : CompiledSchema.Schema).
Context (config : RestConfig) (route_table : RestRouteTable).

Definition ndjson_headers (headers : H) (batch : Z) : H :=
  let h := set_request_id fresh headers no_headers in
  let h := insert_header "content-type" (from_static NDJSON_CONTENT_TYPE) h in
  insert_header "x-stream-batch-size" (default (from_static "500") (header_value (pretty batch))) h.
Definition handle_ndjson_get (relative_path : string) (query_pairs : list (string * string)) (headers : H)
    (ctx : option SecurityContext) : Rest Executor (H * StreamState) :=
  g ← pure (resolve_get_query parse_f64 read compiled schema config route_table relative_path query_pairs ctx);
  prefer ← preferences headers;
  _ ← pure (map_err Refused (validate_ndjson_request prefer g.(params).(RestParams.pagination)));
  let batch := Z.max config.(ndjson_batch_size) 1 in
  mret (ndjson_headers headers batch,
    mkStream g.(resolved_name) g.(query_match) g.(variables_json) ctx batch 0 false).
End Ndjson.
