(* ===== verification/RestFacts.v ===== *)
(** * REST requests, extracted and executed

    Over [RestParams], [RestHandler] and [Execution]: the bounds of a page, and
    the requests the extractor accepts and the executor refuses or answers
    differently. *)

From Stdlib Require Import Ascii.
From S2P Require Import Prelude Json WhereClause GraphQL Matcher CacheStore Chars SecurityContext ResponseCache OrderBy CompiledSchema RestParams RestResource RestHttp RowSecurity Execution RestEmbedding RestHandler.
Import Matching.
#[local] Open Scope Z_scope.

Section Extract.
Context (parse_f64 : string -> option f64) (from_str : string -> result string json).
Context (config : RestConfig) (qd : QueryDefinition) (td : option TypeDefinition).
Notation extract := (Extractor.extract parse_f64 from_str config qd td).
Notation classify := (Extractor.classify parse_f64 from_str qd td).

(** What an accepted request went through. *)
Lemma extract_inv path pairs p : extract path pairs = Ok p ->
  exists c logical filter, classify Extractor.nothing pairs = Ok c /\
    Extractor.parse_sort td (c.(Extractor.named) "sort") = Ok p.(RestParams.order_by) /\
    Extractor.parse_search qd td (c.(Extractor.named) "search") = Ok p.(search_query) /\
    parse_logical_groups parse_f64 c.(Extractor.logical_groups) = Ok logical /\
    Extractor.merge_where_with_logical parse_f64 from_str td c.(Extractor.simple_filters) c.(Extractor.bracket_filters)
      filter logical = Ok p.(RestParams.where_clause) /\
    (if negb qd.(returns_list) then Ok NoPagination
     else if qd.(relay) then Extractor.parse_cursor_pagination config (c.(Extractor.named) "first") (c.(Extractor.named) "after")
       (c.(Extractor.named) "last") (c.(Extractor.named) "before")
     else Extractor.parse_offset_pagination config (c.(Extractor.named) "limit") (c.(Extractor.named) "offset")) = Ok p.(pagination).
Proof.
  unfold Extractor.extract. intros (path_params & _ & (c & Hc & (u & _ & H)%bind_Ok)%bind_Ok)%bind_Ok.
  apply bind_Ok in H as ([[sel emb] counts] & _ & (order & Ho & (search & Hs & (logical & Hl & (filter & _ & (w & Hw & H)%bind_Ok)%bind_Ok)%bind_Ok)%bind_Ok)%bind_Ok).
  apply bind_Ok in H as (pg & Hpg & H). destruct (_ <? _); [done|]. injection H as <-.
  by exists c, logical, filter.
Qed.

Lemma parsed_page s n : parse_u64 s = Some n -> 0 <= n.
Proof. intros H%parse_u64_range. u64_lia. Qed.

(** An accepted request asks for at most the larger of the maximum and the
    default page size; but a relay request may ask for any number of last
    rows, or, with a cursor alone, for no number at all. *)
Theorem page_size_bounded path pairs p : 0 <= config.(max_page_size) -> 0 <= config.(default_page_size) ->
  extract path pairs = Ok p ->
  match p.(pagination) with
  | Offset limit offset =>
      0 <= limit <= Z.max config.(max_page_size) config.(default_page_size) /\ 0 <= offset
  | Cursor first after last before =>
      (forall n, first = Some n -> 0 <= n <= Z.max config.(max_page_size) config.(default_page_size)) /\
      (first = None -> is_some after || is_some last || is_some before = true)
  | NoPagination => qd.(returns_list) = false
  end.
Proof.
  intros Hm Hd. intros (c & _ & _ & _ & _ & _ & _ & _ & H)%extract_inv.
  destruct qd.(returns_list); cbn [negb] in H; [|by injection H as <-].
  destruct qd.(relay).
  - unfold Extractor.parse_cursor_pagination in H. apply bind_Ok in H as (first & Hf & (last & Hl & H)%bind_Ok). injection H as <-.
    destruct (Extractor.named c "first") as [s|].
    + destruct (parse_u64 s) as [v|] eqn:E; [|done]. injection Hf as <-. apply parsed_page in E.
      split; [|done]. intros n [= <-]. lia.
    + destruct (Extractor.named c "after") as [a|], (Extractor.named c "last") as [l|], (Extractor.named c "before") as [b|];
        injection Hf as <-; cbn; (split; [intros n [= <-]; lia|]); intros; try done;
        try (by rewrite ?orb_true_r); destruct (parse_u64 l); try done; injection Hl as <-; done.
  - unfold Extractor.parse_offset_pagination in H. apply bind_Ok in H as (limit & Hl & (offset & Ho & H)%bind_Ok). injection H as <-.
    assert (0 <= offset).
    { destruct (Extractor.named c "offset") as [s|]; [|injection Ho as <-; lia].
      destruct (parse_u64 s) eqn:E; [|done]. injection Ho as <-. by apply parsed_page in E. }
    destruct (Extractor.named c "limit") as [s|]; [|injection Hl as <-; lia].
    destruct (parse_u64 s) eqn:E; [|done]. injection Hl as <-. apply parsed_page in E. lia.
Qed.

Lemma last_not_clamped s n : parse_u64 s = Some n ->
  Extractor.parse_cursor_pagination config None None (Some s) None = Ok (Cursor None None (Some n) None).
Proof. intros H. unfold Extractor.parse_cursor_pagination. cbn. by rewrite H. Qed.

Lemma search_has_fields path pairs p q : extract path pairs = Ok p -> p.(search_query) = Some q ->
  forall t, td = Some t -> searchable_fields t <> [].
Proof.
  intros (c & _ & _ & _ & _ & Hs & _)%extract_inv Hq t Ht E. rewrite Hq in Hs.
  unfold Extractor.parse_search in Hs. rewrite Ht in Hs. destruct (Extractor.named c "search"); [|done].
  destruct (negb qd.(returns_list)); [done|]. by rewrite E in Hs.
Qed.

(** *** Logical groups *)
Lemma classify_one_groups c kv c' : Extractor.classify_one parse_f64 from_str qd td c kv = Ok c' ->
  exists new, c'.(Extractor.logical_groups) = c.(Extractor.logical_groups) ++ new /\ (kv.1 = "not"%string -> new = [kv]).
Proof.
  destruct kv as [key value]. cbn [fst]. unfold Extractor.classify_one.
  destruct (decide (key = "not"%string)) as [->|Hn]; [cbn; intros [= <-]; by eexists|].
  assert (Hsame : forall c1 : Extractor.Classified, c1.(Extractor.logical_groups) = c.(Extractor.logical_groups) ->
    exists new, c1.(Extractor.logical_groups) = c.(Extractor.logical_groups) ++ new /\ (key = "not"%string -> new = [(key, value)])).
  { intros c1 E. exists []. by rewrite app_nil_r. }
  destruct (has_char "."%char key && _); [intros [= <-]; by apply Hsame|]. destruct (parse_bracket_key key) as [[f op]|].
  - destruct (has_char "."%char f); [intros [= <-]; by apply Hsame|].
    intros (u & _ & (u' & _ & [= <-])%bind_Ok)%bind_Ok. by apply Hsame.
  - destruct (member key ["or"; "and"; "not"]%string); [intros [= <-]; by eexists|].
    destruct (member key RESERVED_PARAMS); [intros [= <-]; by apply Hsame|].
    destruct (_ && _); [intros (v & _ & [= <-])%bind_Ok; by apply Hsame|]. by destruct (negb _).
Qed.

Lemma classify_groups pairs c c' kv : classify c pairs = Ok c' ->
  kv ∈ c.(Extractor.logical_groups) \/ (kv ∈ pairs /\ kv.1 = "not"%string) -> kv ∈ c'.(Extractor.logical_groups).
Proof.
  revert c. induction pairs as [|kv1 pairs IH]; intros c; cbn [Extractor.classify].
  - intros [= ->] [H|[H _]]; [done|]. by apply not_elem_of_nil in H.
  - intros (c1 & (new & Hn & Hk)%classify_one_groups & Hc)%bind_Ok H. apply (IH c1 Hc). rewrite Hn.
    destruct H as [H|[H Hkv]]; [left; set_solver|]. apply elem_of_cons in H as [->|H]; [|by right].
    left. rewrite Hk by done. set_solver.
Qed.

Lemma not_group_parsed groups logical v : parse_logical_groups parse_f64 groups = Ok logical -> ("not"%string, v) ∈ groups ->
  exists arr, singleton "_not" (JArray arr) ∈ logical.
Proof.
  unfold parse_logical_groups. revert logical. induction groups as [|g groups IH]; intros logical; [set_solver|]. cbn [each].
  intros (one & Hone & (rest & Hrest & [= <-])%bind_Ok)%bind_Ok [<-|Hin]%elem_of_cons.
  - cbn [fst snd parse_logical_group MAX_LOGICAL_DEPTH] in Hone. destruct (_ || _); [done|].
    apply bind_Ok in Hone as (conditions & _ & [= <-]). eexists. by left.
  - destruct (IH rest Hrest Hin) as [arr Ha]. exists arr. by right.
Qed.
End Extract.

(** ** What the executor reads *)
Definition refused (v : json) : Prop := is_ok (FromJson.from_graphql_json v) = false.

Lemma refused_not arr : refused (singleton "_not" (JArray arr)).
Proof. done. Qed.

Lemma refused_and v arr : v ∈ arr -> refused v -> refused (singleton "_and" (JArray arr)).
Proof.
  unfold refused, FromJson.from_graphql_json, singleton. intros Hin Hv. cbn [FromJson.parse_where_object FromJson.flat_result fst snd].
  rewrite FromJson.entry_and.
  assert (Hc : is_ok (FromJson.collect (fun v => FromJson.parse_where_object v []) arr) = false).
  { induction arr as [|x arr IH]; [set_solver|]. cbn [FromJson.collect]. apply elem_of_cons in Hin as [->|Hin].
    - by destruct (FromJson.parse_where_object x []).
    - destruct (FromJson.parse_where_object x []); [|done]. specialize (IH Hin). by destruct (FromJson.collect _ arr). }
  by destruct (FromJson.collect _ arr).
Qed.

Lemma refused_merged parse_f64 from_str td simple bracket filter logical g w :
  Extractor.merge_where_with_logical parse_f64 from_str td simple bracket filter logical = Ok w ->
  g ∈ logical -> refused g -> exists v, w = Some v /\ refused v.
Proof.
  unfold Extractor.merge_where_with_logical. intros (regular & _ & [= <-])%bind_Ok Hin Hg.
  destruct logical as [|one [|two rest]]; [set_solver| |]; destruct regular as [r|]; eexists; (split; [reflexivity|]).
  - apply (refused_and g); [by right | done].
  - by apply list_elem_of_singleton in Hin as ->.
  - apply (refused_and g); [by right | done].
  - by apply (refused_and g).
Qed.

Lemma insert_some_lookup k (o : option json) v m : o = Some v -> insert_some k o m !! k = Some v.
Proof. intros ->. cbn. apply lookup_insert_eq. Qed.
Lemma insert_some_ne k k' (o : option json) m : k <> k' -> insert_some k o m !! k' = m !! k'.
Proof. intros Hk. destruct o; cbn; [|done]. by rewrite lookup_insert_ne. Qed.

(** The arguments after the page's numbers. *)
Lemma get_arguments_before_page p td k : k <> "limit"%string -> k <> "offset"%string ->
  get_arguments p td !! k =
  insert_some "orderBy" (order_argument p td) (insert_some "where" (where_argument p td)
    (foldl (fun m kv => <[kv.1 := kv.2]> m) (∅ : gmap string json) p.(path_params))) !! k.
Proof.
  intros Hl Ho. unfold get_arguments. destruct p.(pagination) as [limit offset| |]; [|done..].
  destruct (0 <? offset); by rewrite ?lookup_insert_ne.
Qed.
Lemma where_given p td v : where_argument p td = Some v -> get_arguments p td !! "where" = Some v.
Proof. intros H. rewrite get_arguments_before_page, insert_some_ne by done. by apply insert_some_lookup. Qed.
Lemma order_given p td v : order_argument p td = Some v -> get_arguments p td !! "orderBy" = Some v.
Proof. intros H. rewrite get_arguments_before_page by done. by apply insert_some_lookup. Qed.

Section Handled.
Context {P D S M Sub : Type} {RP : RLSPolicy P} {DB : DatabaseAdapter D} {ST : Store (Z * Z) ResponseEntry S}.
Context (parse_f64 : string -> option f64) (read : string -> result string json) (from_str : string -> option json).
Context (compiled : @Schema.CompiledSchema QueryDefinition M Sub) (schema : CompiledSchema.Schema) (config : RestConfig).
Context (table : RestRouteTable).
Notation Executor := (@Executor P D S M Sub).
Notation resolved := (resolve_get_query parse_f64 read compiled schema config table).
Notation answer now ex g ctx := (execute_query_direct from_str now ex g.(query_match) ctx).1.
Implicit Types (ex : Executor).

Lemma resolve_inv path pairs ctx g : resolved path pairs ctx = Ok g ->
  exists qd r, resolve table path Get = Some r /\
    Extractor.extract parse_f64 read config qd (find_type schema qd.(return_type)) r.(resolved_params) pairs = Ok g.(params) /\
    g.(query_match) = from_operation qd (get_field_names g.(params)) (get_arguments g.(params) (find_type schema qd.(return_type))).
Proof.
  unfold resolve_get_query. intros (r & Hr & (name & Hn & (qd & Hq & H)%bind_Ok)%bind_Ok)%bind_Ok.
  destruct (role_missing qd ctx); [done|]. destruct (Extractor.extract _ _ _ _ _ _ _) as [p|e] eqn:E; [|done].
  injection H as <-. destruct (resolve table path Get) as [r'|]; [|done]. injection Hr as ->. by eexists _, _.
Qed.

Lemma direct_order_refused now ex qd fields args v ctx : args !! "orderBy" = Some v ->
  is_ok (OrderBy.from_graphql_json v) = false -> is_ok (execute_query_direct from_str now ex (from_operation qd fields args) ctx).1 = false.
Proof.
  intros Ha Hv. unfold execute_query_direct. destruct (evaluate_policy_if _ _ _ _) as [[c|e] ex1]; [|done]. cbn [mbind result_bind fst].
  unfold direct_request. cbn [query_def from_operation Matching.arguments].
  destruct (ok_or qd.(sql_source) no_sql_source); [|done]. cbn [mbind result_bind]. destruct (user_where qd args); [|done].
  cbn [mbind result_bind]. unfold order_by_arg. rewrite Ha. cbn [transpose]. by destruct (OrderBy.from_graphql_json v).
Qed.

Lemma direct_where_refused now ex qd fields args v ctx : qd.(auto_params).(has_where) = true -> args !! "where" = Some v ->
  refused v -> is_ok (execute_query_direct from_str now ex (from_operation qd fields args) ctx).1 = false.
Proof.
  intros Hw Ha Hv. unfold execute_query_direct. destruct (evaluate_policy_if _ _ _ _) as [[c|e] ex1]; [|done]. cbn [mbind result_bind fst].
  unfold direct_request. cbn [query_def from_operation Matching.arguments].
  destruct (ok_or qd.(sql_source) no_sql_source); [|done]. cbn [mbind result_bind]. unfold user_where. rewrite Hw, Ha. cbn [transpose].
  unfold refused in Hv. by destruct (FromJson.from_graphql_json v).
Qed.

(** A search that names no sort order is accepted, and then always fails: the
    order by relevance the handler adds is not one the executor reads. *)
Theorem search_needs_sort now ex path pairs ctx g q :
  resolved path pairs ctx = Ok g -> g.(params).(search_query) = Some q -> g.(params).(RestParams.order_by) = None ->
  is_Some (find_type schema g.(query_match).(query_def).(return_type)) ->
  is_ok (answer now ex g ctx) = false.
Proof.
  intros (qd & rt & _ & He & Hg)%resolve_inv Hq Ho [td Ht]. rewrite Hg in *. cbn [query_def from_operation] in Ht. rewrite Ht in *.
  apply (direct_order_refused now ex _ _ _ relevance_order ctx); [|done]. apply order_given. unfold order_argument. rewrite Ho.
  unfold fts_where. rewrite Hq. cbn. pose proof (search_has_fields _ _ _ _ _ _ _ _ _ He Hq td eq_refl) as Hs.
  by destruct (searchable_fields td) as [|f [|f' l]].
Qed.

(** Every request with a [not=(...)] group is accepted as far as the executor,
    which always refuses it. *)
Theorem not_group_refused now ex path pairs ctx g v :
  resolved path pairs ctx = Ok g -> ("not"%string, v) ∈ pairs ->
  g.(query_match).(query_def).(auto_params).(has_where) = true -> is_ok (answer now ex g ctx) = false.
Proof.
  intros (qd & rt & _ & He & Hg)%resolve_inv Hin Hw. rewrite Hg in *. cbn [query_def from_operation] in Hw.
  apply extract_inv in He as (c & logical & filter & Hc & _ & _ & Hl & Hm & _).
  pose proof (classify_groups _ _ _ _ _ _ _ _ Hc (or_intror (conj Hin eq_refl))) as Hgr.
  destruct (not_group_parsed _ _ _ _ Hl Hgr) as [arr Harr].
  destruct (refused_merged _ _ _ _ _ _ _ _ _ Hm Harr (refused_not arr)) as (w & Hw' & Hr).
  destruct (fts_where g.(params) (find_type schema qd.(return_type))) as [fts|] eqn:Ef.
  - apply (direct_where_refused now ex _ _ _ (singleton "_and" (JArray [w; fts]))); [done| |].
    + apply where_given. unfold where_argument. by rewrite Hw', Ef.
    + apply (refused_and w); [by left | done].
  - apply (direct_where_refused now ex _ _ _ w); [done| |done]. apply where_given. unfold where_argument. by rewrite Hw', Ef.
Qed.

Lemma path_params_keys path pairs qd td p : Extractor.extract parse_f64 read config qd td path pairs = Ok p ->
  p.(path_params).*1 = path.*1.
Proof.
  unfold Extractor.extract. intros (params & Hp & (c & _ & (u & _ & H)%bind_Ok)%bind_Ok)%bind_Ok.
  apply bind_Ok in H as ([[sel emb] counts] & _ & (order & _ & (search & _ & (logical & _ & (filter & _ & (w & _ & H)%bind_Ok)%bind_Ok)%bind_Ok)%bind_Ok)%bind_Ok).
  apply bind_Ok in H as (pg & _ & H). destruct (_ <? _); [done|]. injection H as <-. cbn [path_params].
  revert params Hp. unfold Extractor.extract_path_params. induction path as [|[k v] path IH]; intros params; cbn [each].
  - by intros [= <-].
  - intros (y & Hy & (ys & Hys & [= <-])%bind_Ok)%bind_Ok. apply bind_Ok in Hy as (x & _ & [= <-]). cbn. by rewrite (IH ys).
Qed.

Lemma not_in_path (l : list (string * json)) k : k ∉ l.*1 -> forall m : gmap string json,
  foldl (fun m kv => <[kv.1 := kv.2]> m) m l !! k = m !! k.
Proof.
  induction l as [|[k1 v1] l IH]; intros Hk m; [done|]. cbn [foldl fmap list_fmap fst snd] in *.
  rewrite IH by set_solver. rewrite lookup_insert_ne; [done|set_solver].
Qed.

(** The page of a relay request, its size and its cursors, is not part of what
    the executor reads: the request to the database has no limit and no
    offset. *)
Theorem relay_page_lost ex path pairs ctx g rls who r first after last before :
  resolved path pairs ctx = Ok g -> g.(params).(pagination) = Cursor first after last before ->
  (forall rt, resolve table path Get = Some rt -> "limit"%string ∉ rt.(resolved_params).*1 /\ "offset"%string ∉ rt.(resolved_params).*1) ->
  direct_request ex g.(query_match) rls who = Ok r ->
  r.(Execution.limit) = None /\ r.(Execution.offset) = None.
Proof.
  intros (qd & rt & Hrt & He & Hg)%resolve_inv Hp Hfree Hr. destruct (Hfree rt Hrt) as [Hl Ho]. rewrite Hg in Hr. apply path_params_keys in He.
  assert (Hnone : forall k, k = "limit"%string \/ k = "offset"%string ->
    get_arguments g.(params) (find_type schema qd.(return_type)) !! k = None).
  { intros k Hk. unfold get_arguments. rewrite Hp. rewrite !insert_some_ne by (destruct Hk as [->| ->]; done).
    rewrite not_in_path; [done|]. rewrite He. by destruct Hk as [->| ->]. }
  unfold direct_request in Hr. cbn [query_def from_operation Matching.arguments] in Hr.
  apply bind_Ok in Hr as (source & _ & (user & _ & (order & _ & (vs & _ & [= <-])%bind_Ok)%bind_Ok)%bind_Ok).
  cbn [Execution.limit Execution.offset]. rewrite !Hnone by eauto. done.
Qed.
End Handled.

Module RestDemo.
Import CacheStore.Lazy.
Notation lazy := (gmap (Z * Z) (ResponseEntry * bool)).

(** A database without rows; readers that accept no number and no JSON. *)
#[export] Instance no_rows : DatabaseAdapter unit :=
  { database_type _ := CacheKey.PostgreSQL; execute_with_projection _ _ := Ok []; execute_where_query _ _ _ := Ok [];
    set_session_variables d _ := Ok d }.
Definition no_float (_ : string) : option f64 := None.
Definition no_json (_ : string) : result string json := Err "no JSON"%string.
Definition no_value (_ : string) : option json := None.

Definition user_type : TypeDefinition :=
  mkType "User" "v_user" [mkField "id" FT.Id None None Reject; mkField "name" FT.TString None None Reject] false [].
Definition query (name : string) (is_relay : bool) : QueryDefinition :=
  mkQuery name "User" true [] (Some "v_user"%string) auto_all is_relay (Some "pk_user"%string) Int64 [] [] None ∅ None None None.
Definition compiled : @Schema.CompiledSchema QueryDefinition unit unit :=
  Schema.build_indexes query_name (fun _ : unit => ""%string) (fun _ : unit => ""%string)
    {| Schema.queries := [query "users" false; query "userPages" true]; Schema.mutations := []; Schema.subscriptions := [];
       Schema.naming_convention := Schema.Preserve;
       Schema.query_index := ∅; Schema.mutation_index := ∅; Schema.subscription_index := ∅ |}.
Definition schema : CompiledSchema.Schema := mkSchema [user_type] [] [] None.
Definition executor : @Executor NoRLSPolicy unit lazy unit unit :=
  mkExecutor compiled schema Planner.Project (mkSession [] false) None None tt.
Definition table : RestRouteTable :=
  mkTable "/rest/v1" [mkResource "users" "User" None [mkRoute Get "/users" (Query "users") None 200;
    mkRoute Get "/userPages" (Query "userPages") None 200]] [].
Definition resolved (name : string) (pairs : list (string * string)) :=
  resolve_get_query no_float no_json compiled schema default_rest_config table name pairs None.

Definition page : list (string * string) := [("limit", "5000"); ("offset", "20"); ("name[like]", "A%")]%string.
Lemma page_size_bounded_witness :
  exists p, Extractor.extract no_float no_json default_rest_config (query "users" false) (Some user_type) [] page = Ok p /\
  match p.(pagination) with Offset limit _ => limit <= 1000 | _ => False end.
Proof.
  destruct (Extractor.extract no_float no_json default_rest_config (query "users" false) (Some user_type) [] page) as [p|e] eqn:E.
  - exists p. split; [done|].
    assert (Hb := page_size_bounded no_float no_json default_rest_config (query "users" false) (Some user_type) [] page p
      ltac:(done) ltac:(done) E).
    vm_compute in E. injection E as <-. exact (proj2 (proj1 Hb)).
  - vm_compute in E. discriminate E.
Defined.

Lemma search_needs_sort_witness : exists g, resolved "users" [("search", "ann")]%string = Ok g /\
  is_ok (execute_query_direct no_value 0 executor g.(query_match) None).1 = false.
Proof.
  destruct (resolved "users" [("search", "ann")]%string) as [g|e] eqn:E; [|vm_compute in E; discriminate E].
  exists g. split; [done|]. unfold resolved in E.
  apply (search_needs_sort no_float no_json no_value compiled schema default_rest_config table 0 executor _ _ None g "ann" E);
    vm_compute in E; injection E as <-; [reflexivity | reflexivity | vm_compute; by eexists].
Defined.

Lemma not_group_refused_witness : exists g, resolved "users" [("not", "(name=bob)")]%string = Ok g /\
  is_ok (execute_query_direct no_value 0 executor g.(query_match) None).1 = false.
Proof.
  destruct (resolved "users" [("not", "(name=bob)")]%string) as [g|e] eqn:E; [|vm_compute in E; discriminate E].
  exists g. split; [done|]. unfold resolved in E.
  apply (not_group_refused no_float no_json no_value compiled schema default_rest_config table 0 executor _ _ None g "(name=bob)" E);
    [by left|]. vm_compute in E; injection E as <-. reflexivity.
Defined.

Lemma relay_page_lost_witness : exists g r, resolved "userPages" [("first", "5"); ("after", "NDI=")]%string = Ok g /\
  direct_request executor g.(query_match) None None = Ok r /\ r.(Execution.limit) = None.
Proof.
  destruct (resolved "userPages" [("first", "5"); ("after", "NDI=")]%string) as [g|e] eqn:E; [|vm_compute in E; discriminate E].
  destruct (direct_request executor g.(query_match) None None) as [r|e] eqn:Er;
    [|exfalso; vm_compute in E; injection E as <-; vm_compute in Er; discriminate Er].
  exists g, r. do 2 (split; [done|]). unfold resolved in E.
  apply (relay_page_lost no_float no_json no_value compiled schema default_rest_config table executor _ _ None g None None r
    (Some 5) (Some "NDI="%string) None None E); [|intros rt Hrt; vm_compute in Hrt; injection Hrt as <-; set_solver|done].
  vm_compute in E. injection E as <-. reflexivity.
Defined.

(** Operators the extractor lets through and the executor does not know. *)
Example bracket_operators_unknown :
  List.filter (fun op => negb (is_ok (OpParse.from_str op))) BRACKET_OPERATORS = ["ne"; "is_null"]%string.
Proof. reflexivity. Qed.
Example ne_refused :
  match resolved "users" [("name[ne]", "bob")]%string with
  | Ok g => is_ok (execute_query_direct no_value 0 executor g.(query_match) None).1 = false
  | Err _ => False
  end.
Proof. vm_compute. reflexivity. Qed.
(** A page beyond [u32] asks for no page. *)
Example far_offset_dropped :
  match resolved "users" [("offset", "4294967296")]%string with
  | Ok g => Execution.offset <$> direct_request executor g.(query_match) None None = Ok None
  | Err _ => False
  end.
Proof. vm_compute. reflexivity. Qed.
End RestDemo.

(** * The select parameter always has an answer

    [parse_select_entries] ([RestParams.Select]) ends on every input; it slices
    bytes at indices of characters, which cannot fail on ASCII text and does
    fail on other text. *)

Import Select.
#[local] Open Scope nat_scope.

(** ** Positions *)
Lemma count_while_le {A} (p : A -> bool) l : count_while p l <= length l.
Proof. induction l as [|x l IH]; cbn; [lia|]. destruct (p x); cbn; lia. Qed.
Lemma advance_range p cs i : i <= length cs -> i <= advance p cs i <= length cs.
Proof. intros Hi. unfold advance. pose proof (count_while_le p (drop i cs)) as H. rewrite length_drop in H. lia. Qed.
Lemma at_char_lt cs i c : at_char cs i c = true -> i < length cs.
Proof. unfold at_char. destruct (cs !! i) eqn:E; [|done]. intros _. by apply lookup_lt_Some in E. Qed.
Lemma close_range l i d j : close l i (S d) = (j, O) -> i <= j < i + length l.
Proof.
  revert i d. induction l as [|ch l IH]; intros i d; cbn [close]; [done|].
  destruct (is_char "(" ch); [intros H%IH; cbn; lia|].
  destruct (is_char ")" ch); cbn [Nat.sub].
  - rewrite Nat.sub_0_r. destruct d; [intros [= <-]; cbn; lia|]. intros H%IH. cbn. lia.
  - intros H%IH. cbn. lia.
Qed.

(** A name that is not empty moves on. *)
Lemma name_moves s a b name : slice s a b = Some name -> (trim name =s "") = false -> a < b.
Proof.
  unfold slice. destruct (Nat.leb_spec a b) as [Hab|]; [|done]. cbn [andb]. destruct (_ && _); [|done]. intros [= <-] Ht.
  destruct (Nat.eq_dec a b) as [->|]; [|lia]. by rewrite Nat.sub_diag, substring_none in Ht.
Qed.
Lemma slice_length s a b t : slice s a b = Some t -> String.length t <= b - a.
Proof. unfold slice. destruct (_ && _); [|done]. intros [= <-]. apply substring_length. Qed.

(** ** Enough fuel, and no panic *)
Definition fits (ascii : bool) (r : outcome (list SelectEntry)) : Prop :=
  r <> Err OutOfFuel /\ (ascii = true -> r <> Err Panic).

Lemma fits_bind_ok {ascii} r (f : list SelectEntry -> list SelectEntry) : fits ascii r -> fits ascii (x ← r; Ok (f x)).
Proof. by destruct r. Qed.
Lemma fits_error ascii m : fits ascii (validation_error m).
Proof. by split. Qed.
Lemma fits_slice ascii s a b k : all_ascii s = ascii -> a <= b <= length (chars s) ->
  (forall t, slice s a b = Some t -> fits ascii (k t)) -> fits ascii (t ← or_panic (slice s a b); k t).
Proof.
  intros Ha Hb Hk. destruct (slice s a b) as [t|] eqn:E; cbn; [by apply Hk|]. split; [done|]. intros Ht. rewrite Ht in Ha.
  rewrite slice_ascii in E; [done | done |]. by rewrite <- chars_ascii.
Qed.
Lemma fits_weaken (a b : bool) r : (a = true -> b = true) -> fits b r -> fits a r.
Proof. intros Hab [H1 H2]. split; auto. Qed.
Lemma slice_keeps_ascii s a b t : slice s a b = Some t -> all_ascii s = true -> all_ascii t = true.
Proof. unfold slice. destruct (_ && _); [|done]. intros [= <-]. apply substring_ascii. Qed.

(** One entry's positions, then the rest of the list. *)
Lemma parse_from_fits fuel input i : i <= length (chars input) -> length (chars input) - i < fuel ->
  fits (all_ascii input) (parse_from fuel input i).
Proof.
  revert input i. induction fuel as [|fuel IH]; intros input i Hi Hf; [lia|]. cbn [parse_from].
  set (cs := chars input) in *.
  pose proof (advance_range separator cs i Hi) as H0. set (i0 := advance separator cs i) in *.
  destruct (Nat.leb_spec (length cs) i0) as [|Hlt]; [by split|].
  pose proof (advance_range in_name cs i0 (proj2 H0)) as H1. set (i1 := advance in_name cs i0) in *.
  apply fits_slice; [done | fold cs; lia|]. intros name Hname.
  destruct (trim name =s "") eqn:Et; [apply fits_error|]. pose proof (name_moves _ _ _ _ Hname Et) as Hm.
  pose proof (advance_range (is_char " ") cs i1 (proj2 H1)) as H2. set (i2 := advance (is_char " ") cs i1) in *.
  assert (Hrest : forall j, i1 <= j <= length cs -> fits (all_ascii input) (parse_from fuel input j))
    by (intros j Hj; apply IH; fold cs; lia).
  destruct (at_char cs i2 ".") eqn:Ed.
  { apply at_char_lt in Ed. pose proof (advance_range in_suffix cs (i2 + 1) ltac:(lia)) as H3.
    set (i3 := advance in_suffix cs (i2 + 1)) in *. apply fits_slice; [done | fold cs; lia|]. intros suffix _.
    destruct (suffix =s "count"); [|apply fits_error]. apply fits_bind_ok, Hrest. lia. }
  destruct (at_char cs i2 "(") eqn:Ep.
  2: { apply fits_bind_ok, Hrest. lia. }
  apply at_char_lt in Ep. destruct (match split_once ":" (trim name) with Some _ => _ | None => _ end) as [rename relationship].
  destruct (close (drop (i2 + 1) cs) (i2 + 1) 1) as [i3 depth] eqn:Ec. destruct depth; [|apply fits_error].
  apply close_range in Ec. rewrite length_drop in Ec.
  apply fits_slice; [done | fold cs; lia|]. intros inner Hin.
  assert (Hsub : fits (all_ascii input) (parse_from fuel inner 0)).
  { apply (fits_weaken _ (all_ascii inner)); [by eapply slice_keeps_ascii|]. apply IH; [lia|].
    apply slice_length in Hin. pose proof (chars_length inner). lia. }
  destruct (parse_from fuel inner 0) as [sub|e]; [|destruct Hsub; by split]. cbn [mbind result_bind].
  apply (fits_bind_ok (parse_from fuel input (i3 + 1)) (cons (Embedded relationship rename sub))), Hrest. lia.
Qed.

(** On every input the select list is parsed or refused: the recursion ends,
    and on ASCII text no slice is out of place. *)
Theorem select_always_answers input :
  match Select.parse_select_entries input with
  | Ok _ | Err (Invalid _) => True
  | Err Panic => all_ascii input = false
  | Err OutOfFuel => False
  end.
Proof.
  unfold Select.parse_select_entries.
  destruct (parse_from_fits (S (length (chars input))) input 0) as [H1 H2]; [lia..|].
  destruct (parse_from _ _ _) as [|[| |]]; try done. destruct (all_ascii input); [by destruct (H2 eq_refl)|done].
Qed.

(** An accented name is enough for the panic. *)
Example accented_name_panics : Select.parse_select_entries (bytes [110; 195; 169]) = Err Panic.
Proof. reflexivity. Qed.
Example nested_select :
  Select.parse_select_entries "id, author:fk_user(id,posts(title)) ,posts.count" =
  Ok [Field "id"; Embedded "fk_user" (Some "author"%string) [Field "id"; Embedded "posts" None [Field "title"]]; Count "posts"].
Proof. reflexivity. Qed.
