(* ===== verification/Relay.v ===== *)
(** * Relay connections

    [runtime/relay.rs]: cursors and node identifiers; [execute_relay_query] and
    [execute_node_query] ([runtime/executor/query.rs]).  Base64 is the [base64]
    package's: an interface with the law that decoding inverts encoding.  The
    database's page is the interface [RelayDatabaseAdapter]. *)

From Stdlib Require Import Ascii Sorted.
From stdpp Require Import pretty.
From S2P Require Import Prelude Json Bytes WhereClause GraphQL Matcher CacheStore Chars SecurityContext ResponseCache OrderBy CacheKey CompiledSchema RowSecurity Projection ProjectionSql Execution.
Import Matching.
#[local] Open Scope Z_scope.

(** ** Cursors and node identifiers *)
Class Base64 : Type := { b64_encode : string -> string; b64_decode : string -> option string }.
Class Base64Laws `(Base64) : Prop := { b64_decode_encode : forall s, b64_decode (b64_encode s) = Some s }.

(** [std::str::from_utf8]: the bytes of a text, kept as they are. *)
Definition is_utf8 (s : string) : bool := valid_utf8 (Bytes.text s).
Definition from_utf8 (s : string) : option string := if is_utf8 s then Some s else None.

Section Cursors.
Context {B : Base64}.
Definition encode_edge_cursor (pk : Z) : string := b64_encode (pretty pk).
Definition decode_edge_cursor (cursor : string) : option Z :=
  bytes ← b64_decode cursor; s ← from_utf8 bytes; parse_i64 s.
Definition encode_uuid_cursor (uuid : string) : string := b64_encode uuid.
Definition decode_uuid_cursor (cursor : string) : option string := bytes ← b64_decode cursor; from_utf8 bytes.
Definition encode_node_id (type_name uuid : string) : string := b64_encode (type_name ++ ":" ++ uuid).
Definition decode_node_id (id : string) : option (string * string) :=
  bytes ← b64_decode id; s ← from_utf8 bytes;
  '(type_name, uuid) ← split_once ":" s;
  if (type_name =s "") || (uuid =s "") then None else Some (type_name, uuid).
End Cursors.

(** ** The page of the database *)
Inductive CursorValue : Type := CursorInt64 (pk : Z) | CursorUuid (uuid : string).
Record RelayRequest : Type := mkRelay {
  relay_view : string;
  cursor_column : string;
  after_pk : option CursorValue;
  before_pk : option CursorValue;
  fetch_limit : Z;
  forward : bool;
  relay_where : option WhereClause;
  relay_order : option (list OrderByClause);
  include_total_count : bool
}.
Record RelayPageResult : Type := mkPage { page_rows : list json; total_count : option Z }.
Class RelayDatabaseAdapter (R : Type) : Type :=
  execute_relay_page : R -> RelayRequest -> result error RelayPageResult.

(** ** [execute_relay_query] *)

(** [u32::try_from(n).unwrap_or(u32::MAX)]. *)
Definition page_arg (v : option json) : option Z := (fun n => if n <=? u32_max then n else u32_max) <$> (v ≫= as_u64).
Definition variable (vars : option json) (k : string) : option json := vars ≫= fun v => json_get v k.

Record Paging : Type := mkPaging { is_forward : bool; page_size : Z }.
Definition paging (first last : option Z) : Paging :=
  match last, first with
  | Some last, None => mkPaging false last
  | _, _ => mkPaging true (default 20 first)
  end.

(** The text of a debug print of a string, outside the model. *)
Definition decode_cursor {B : Base64} (debug : string -> string) (kind : CursorType) (name : string) (s : option string) :
    result error (option CursorValue) :=
  match s with
  | None => Ok None
  | Some s =>
      match (match kind with
             | Int64 => CursorInt64 <$> decode_edge_cursor s
             | UuidCursor => CursorUuid <$> decode_uuid_cursor s
             end) with
      | Some c => Ok (Some c)
      | None => Err (Validation (WhereClause.Text ("invalid relay cursor for `" ++ name ++ "`: " ++ debug s)) (Some name))
      end
  end.

Definition bad_cursor_column (qd : QueryDefinition) (column kind : string) : error :=
  validation ("Relay query '" ++ qd.(query_name) ++ "': cursor column '" ++ column ++ "' not found or not " ++ kind ++
    " in result JSONB. Ensure the view exposes this column inside the `data` object.").
Definition row_cursor {B : Base64} (qd : QueryDefinition) (column : string) (data : json) : result error string :=
  let col_val := json_get data column in
  match qd.(relay_cursor_type) with
  | Int64 => ok_or (encode_edge_cursor <$> (col_val ≫= as_i64)) (bad_cursor_column qd column "an integer")
  | UuidCursor => ok_or (encode_uuid_cursor <$> (col_val ≫= as_str)) (bad_cursor_column qd column "a string")
  end.
Definition edge (cursor : string) (data : json) : json := JObject [("cursor"%string, JString cursor); ("node"%string, data)].
Fixpoint build_edges {B : Base64} (qd : QueryDefinition) (column : string) (rows : list json) :
    result error (list (string * json)) :=
  match rows with
  | [] => Ok []
  | data :: rows => cursor ← row_cursor qd column data; rest ← build_edges qd column rows; Ok ((cursor, edge cursor data) :: rest)
  end.
Definition text_or_null (o : option string) : json := match o with Some s => JString s | None => JNull end.

Definition connection (has_next_page has_previous_page : bool) (edges : list (string * json)) : list (string * json) :=
  [("edges"%string, JArray (map snd edges));
   ("pageInfo"%string, JObject [
     ("endCursor"%string, text_or_null (list.last (map fst edges)));
     ("hasNextPage"%string, JBool has_next_page);
     ("hasPreviousPage"%string, JBool has_previous_page);
     ("startCursor"%string, text_or_null (head (map fst edges)))])].

Section RelayQuery.
Context {P D S M Sub R : Type} {RP : RLSPolicy P} {DB : DatabaseAdapter D} {ST : Store (Z * Z) ResponseEntry S}.
Context {RD : RelayDatabaseAdapter R} {B : Base64} (debug : string -> string) (database_name : DatabaseType -> string).
Notation Executor := (@Executor P D S M Sub).

(** [page_size + 1] wraps as in a release build; a debug build panics at [u32::MAX]. *)
Definition relay_request (ex : Executor) (qm : QMatch) (vars : option json) (sec : option WhereClause)
    (source column : string) : result error (Paging * RelayRequest) :=
  let qd := qm.(query_def) in
  after ← decode_cursor debug qd.(relay_cursor_type) "after" (variable vars "after" ≫= as_str);
  before ← decode_cursor debug qd.(relay_cursor_type) "before" (variable vars "before" ≫= as_str);
  let p := paging (page_arg (variable vars "first")) (page_arg (variable vars "last")) in
  user ← (if qd.(auto_params).(has_where) then transpose FromJson.from_graphql_json (variable vars "where") else Ok None);
  order ← (if qd.(auto_params).(has_order_by) then order_by_arg ex.(schema) qd (variable vars "orderBy") else Ok None);
  let total := match find (fun sel => Types.name sel =s qd.(query_name)) qm.(selections) with
               | Some field => selections_contain_field (Types.nested_fields field) "totalCount"
               | None => false
               end in
  Ok (p, mkRelay source column after before (u32_wrap (p.(page_size) + 1)) p.(is_forward) (both_where sec user) order total).

Definition relay_response (qd : QueryDefinition) (p : Paging) (r : RelayRequest) (page : RelayPageResult) : result error json :=
  let has_extra := p.(page_size) <? Z.of_nat (length page.(page_rows)) in
  let rows := take (Z.to_nat p.(page_size)) page.(page_rows) in
  let '(next, previous) := if p.(is_forward) then (has_extra, is_some r.(after_pk)) else (is_some r.(before_pk), has_extra) in
  edges ← build_edges qd r.(cursor_column) rows;
  let c := connection next previous edges in
  let c := if r.(include_total_count) then
             map_insert "totalCount" (match page.(total_count) with Some n => JNumber (PosInt n) | None => JNull end) c
           else c in
  Ok (wrap_in_data_envelope (JObject c) qd.(query_name)).

Definition execute_relay_query (relay : option R) (now : Z) (ex : Executor) (qm : QMatch) (vars : option json)
    (ctx : option SecurityContext) : result error json * Executor :=
  let qd := qm.(query_def) in
  let missing (m : string) : error := validation ("Relay query '" ++ qd.(query_name) ++ "' has no " ++ m) in
  match qd.(inject_params), ctx with
  | _ :: _, None => (Err (needs_security_context qd), ex)
  | _, _ =>
      match (source ← ok_or qd.(sql_source) (missing "sql_source configured");
             column ← ok_or qd.(relay_cursor_column) (missing "relay_cursor_column derived");
             db ← ok_or relay (validation ("Relay pagination is not supported by the " ++
               database_name (database_type ex.(adapter)) ++ " adapter. Use a relay-capable adapter (e.g. PostgreSQL) and " ++
               "construct the executor with `Executor::new_with_relay`."));
             Ok (source, column, db)) with
      | Err e => (Err e, ex)
      | Ok (source, column, db) =>
          let '(rls, ex) := evaluate_policy_if now ex ctx qd in
          (c ← rls;
           sec ← match ctx with Some ctx => security_where qd c ctx | None => Ok c end;
           '(p, r) ← relay_request ex qm vars sec source column;
           page ← execute_relay_page db r;
           relay_response qd p r page, ex)
      end
  end.

(** ** [execute_node_query] *)

(** The first query with a source of each return type. *)
Definition node_type_index (queries : list QueryDefinition) : gmap string string :=
  foldl (fun m qd =>
    match qd.(sql_source) with
    | Some src => match m !! qd.(return_type) with Some _ => m | None => <[qd.(return_type) := src]> m end
    | None => m
    end) ∅ queries.

(** The text after the first occurrence of a mark. *)
Definition after_mark (mark s : string) : option string := snd <$> split_once_str mark s.
Definition trim_start (s : string) : string := concat_str (skip_while is_whitespace (chars s)).
Definition double_quote : ascii := ascii_of_nat 34.
Definition extract_inline_node_id (query : string) : option string :=
  args_region ← after_mark "node(" query;
  after_id ← after_mark "id:" args_region;
  match trim_start after_id with
  | EmptyString => None
  | String q inner =>
      if Ascii.eqb q double_quote || Ascii.eqb q "'" then fst <$> split_once q inner else None
  end.

Definition node_error (m : string) : error := Validation (WhereClause.Text ("node query: " ++ m)) (Some "node.id"%string).
Definition execute_node_query (ex : Executor) (index : gmap string string) (query : string) (vars : option json)
    (sels : list Types.FieldSelection) : result error json :=
  raw_id ← ok_or (match variable vars "id" ≫= as_str with Some id => Some id | None => extract_inline_node_id query end)
    (node_error "missing or unresolvable 'id' argument");
  '(type_name, uuid) ← ok_or (decode_node_id raw_id) (node_error ("invalid node ID '" ++ raw_id ++ "'"));
  source ← ok_or (index !! type_name) (node_error ("no registered SQL view for type '" ++ type_name ++ "'"));
  let hint :=
    match sels with
    | [] => None
    | _ =>
        let typed := build_typed_projection_fields ex.(schema) SELECTION_MAX_DEPTH type_name sels in
        Some {| database := database_type ex.(adapter);
                projection_template := match generate_typed_projection_sql "data" typed with Ok sql => sql | Err _ => "data" end;
                estimated_reduction_percent := compute_projection_reduction (length typed) |}
    end in
  rows ← execute_with_projection ex.(adapter)
    (mkRequest source hint (Some (Field ["id"%string] Op.Eq (JString uuid))) (Some 1) None None);
  Ok (wrap_in_data_envelope (match rows with row :: _ => row | [] => JNull end) "node").
End RelayQuery.

(** * What relay pages show

    Cursors read back as written; a client that follows the end cursors of
    forward pages sees every row once and in order; a backward page does not
    reach the row before its cursor.  The database is held to what the trait
    [RelayDatabaseAdapter] documents. *)

Import Matching.

(** ** Decimal text *)
Lemma digit_pretty d : (d < 10)%N -> digit (pretty_N_char d) = Some (Z.of_N d).
Proof.
  intros Hd. assert (d = 0 \/ d = 1 \/ d = 2 \/ d = 3 \/ d = 4 \/ d = 5 \/ d = 6 \/ d = 7 \/ d = 8 \/ d = 9)%N as H by lia.
  by repeat destruct H as [->|H]; [..|subst].
Qed.
Lemma digits_value_pretty x s : digits_value 0 (pretty_N_go x s) = digits_value (Z.of_N x) s.
Proof.
  revert s. induction (N.lt_wf_0 x) as [x _ IH]. intros s. destruct (decide (x = 0%N)) as [->|Hx]; [by rewrite pretty_N_go_0|].
  rewrite pretty_N_go_step by lia. rewrite IH by (apply N.div_lt; lia). cbn [digits_value].
  rewrite digit_pretty by (apply N.mod_lt; lia). f_equal. rewrite N2Z.inj_div, N2Z.inj_mod.
  rewrite (Z.div_mod (Z.of_N x) 10) at 3; lia.
Qed.
Lemma digits_pretty (n : N) : digits (pretty n) = Some (Z.of_N n).
Proof.
  unfold pretty, pretty_N. destruct (decide (n = 0%N)) as [->|Hn]; [done|].
  pose proof (digits_value_pretty n "") as H. unfold digits. destruct (pretty_N_go n ""); [|done].
  cbn in H. injection H as H. lia.
Qed.
Lemma digits_first c s n : digits (String c s) = Some n -> is_Some (digit c).
Proof. cbn [digits digits_value]. destruct (digit c); [by eexists | done]. Qed.
Lemma digits_unsigned s n : digits s = Some n -> unsigned s = Some n.
Proof.
  intros H. unfold unsigned. destruct s as [|c s]; [done|]. pose proof (digits_first c s n H) as [d Hd].
  destruct c as [[] [] [] [] [] [] [] []]; done.
Qed.
Lemma digits_i64 s n : digits s = Some n -> (match s with String "-" s => Z.opp <$> digits s | _ => unsigned s end) = Some n.
Proof.
  intros H. pose proof (digits_unsigned s n H) as Hu. destruct s as [|c s]; [done|]. pose proof (digits_first c s n H) as [d Hd].
  destruct c as [[] [] [] [] [] [] [] []]; done.
Qed.

Definition is_i64 (z : Z) : Prop := - 2 ^ 63 <= z <= 2 ^ 63 - 1.
Lemma parse_pretty z : is_i64 z -> parse_i64 (pretty z) = Some z.
Proof.
  unfold is_i64. intros Hz. unfold parse_i64.
  assert ((match pretty z with String "-" s => Z.opp <$> digits s | _ => unsigned (pretty z) end) = Some z) as ->.
  - unfold pretty, pretty_Z. destruct z as [|p|p]; [done | |].
    + by apply (digits_i64 _ (Z.pos p)), (digits_pretty (N.pos p)).
    + change (Z.opp <$> digits (pretty (N.pos p)) = Some (Z.neg p)). by rewrite digits_pretty.
  - destruct (Z.leb_spec (- 2 ^ 63) z), (Z.leb_spec z (2 ^ 63 - 1)); (done || lia).
Qed.

(** ASCII text is UTF-8. *)
Lemma ascii_utf8_fuel l fuel : Forall (fun b => 0 <= b <= 127) l -> (length l <= fuel)%nat -> valid_fuel fuel l = true.
Proof.
  intros H. revert fuel. induction H as [|b l Hb Hl IH]; intros fuel Hf; [by destruct fuel|].
  destruct fuel as [|fuel]; [cbn in Hf; lia|]. cbn [valid_fuel]. unfold utf8_chunk. destruct (Z.leb_spec b 127); [|lia].
  cbn [andb drop]. apply IH. cbn in Hf. lia.
Qed.
Lemma byte_text c : Z.of_N (N_of_ascii c) = byte c.
Proof. unfold byte, nat_of_ascii. by rewrite N_nat_Z. Qed.
Lemma digits_value_ascii acc s n : digits_value acc s = Some n -> Forall (fun b => 0 <= b <= 127) (Bytes.text s).
Proof.
  revert acc. induction s as [|c s IH]; intros acc; [constructor|]. cbn [digits_value].
  destruct (digit c) as [d|] eqn:E; [|done]. intros H. change (Bytes.text (String c s)) with (Z.of_N (N_of_ascii c) :: Bytes.text s).
  constructor; [|by eapply IH]. rewrite byte_text. unfold digit in E. case_bool; [bool_lia|done].
Qed.
Lemma pretty_utf8 (z : Z) : is_utf8 (pretty z) = true.
Proof.
  assert (Hd : forall n, Forall (fun b => 0 <= b <= 127) (Bytes.text (pretty (N.pos n)))).
  { intros n. pose proof (digits_pretty (N.pos n)) as H. unfold digits in H. destruct (pretty (N.pos n)) eqn:E; [constructor|].
    by eapply digits_value_ascii. }
  unfold is_utf8, valid_utf8. apply ascii_utf8_fuel; [|done]. unfold pretty, pretty_Z. destruct z; [by repeat constructor | apply Hd|].
  change (Bytes.text ("-" +:+ pretty (N.pos p))) with (45 :: Bytes.text (pretty (N.pos p))). constructor; [cbn; lia | apply Hd].
Qed.

(** ** Cursors *)
Section Cursors.
Context {B : Base64} {BL : Base64Laws B}.

Lemma split_once_app a b c : has_char c a = false -> split_once c (a ++ String c b) = Some (a, b).
Proof.
  induction a as [|d a IH]; intros H.
  - rewrite str_nil. cbn [split_once]. by rewrite Ascii.eqb_refl.
  - cbn [has_char] in H. apply orb_false_iff in H as [Hd Ha]. rewrite str_cons. cbn [split_once]. by rewrite Hd, IH.
Qed.

Lemma edge_cursor_decodes pk : is_i64 pk -> decode_edge_cursor (encode_edge_cursor pk) = Some pk.
Proof.
  intros H. unfold decode_edge_cursor, encode_edge_cursor. rewrite b64_decode_encode. cbn [mbind option_bind].
  unfold from_utf8. rewrite pretty_utf8. by apply parse_pretty.
Qed.
Lemma uuid_cursor_decodes s : is_utf8 s = true -> decode_uuid_cursor (encode_uuid_cursor s) = Some s.
Proof. intros H. unfold decode_uuid_cursor, encode_uuid_cursor. rewrite b64_decode_encode. cbn. unfold from_utf8. by rewrite H. Qed.

(** Whatever package encodes the bytes, cursors of integers and of texts are
    read back, and a node identifier is read back as its type and identifier
    exactly when neither is empty and the type has no colon. *)
Theorem cursors_roundtrip :
  (forall pk, is_i64 pk -> decode_edge_cursor (encode_edge_cursor pk) = Some pk) /\
  (forall s, is_utf8 s = true -> decode_uuid_cursor (encode_uuid_cursor s) = Some s) /\
  (forall t u, is_utf8 (t ++ ":" ++ u) = true ->
     decode_node_id (encode_node_id t u) = Some (t, u) <->
     t <> EmptyString /\ u <> EmptyString /\ has_char ":" t = false).
Proof.
  split; [exact edge_cursor_decodes|]. split; [exact uuid_cursor_decodes|]. intros t u H.
  unfold decode_node_id, encode_node_id. rewrite b64_decode_encode. cbn [mbind option_bind]. unfold from_utf8. rewrite H.
  cbn [mbind option_bind]. split.
  - destruct (split_once ":" (t ++ ":" ++ u)) as [[a b]|] eqn:E; [|done].
    cbn [mbind option_bind]. destruct ((a =s "") || (b =s "")) eqn:Eb; [done|]. intros [= -> ->]. apply orb_false_iff in Eb as [Ha Hb].
    split; [intros ->; by rewrite streqb_refl in Ha|]. split; [intros ->; by rewrite streqb_refl in Hb|].
    clear H Ha Hb. revert u E.
    induction t as [|c t IH]; intros u; [done|]. rewrite str_cons. cbn [split_once has_char].
    destruct (Ascii.eqb c ":") eqn:Ec; [by intros [=]|]. destruct (split_once ":" (t ++ ":" ++ u)) as [[x y]|] eqn:Ex; [|by intros [=]].
    intros [= -> ->]. by apply (IH u).
  - intros (Ht & Hu & Hc). change (":" ++ u)%string with (String ":" u). rewrite split_once_app by done. cbn [mbind option_bind].
    destruct t, u; done.
Qed.
End Cursors.

(** ** The page the database promises *)
Section Keyset.
Context {Row : Type} (key : Row -> Z).

(** Rows in the order of their keys. *)
Definition ordered (rows : list Row) : Prop := StronglySorted Z.lt (map key rows).

Lemma ordered_filter p rows : ordered rows -> ordered (List.filter p rows).
Proof.
  unfold ordered. induction rows as [|r rows IH]; [done|]. cbn [map List.filter]. intros [Hs Hr]%StronglySorted_inv.
  destruct (p r); [|by apply IH]. cbn [map]. constructor; [by apply IH|]. clear -Hr.
  induction rows as [|x rows IH]; [constructor|]. cbn [map List.filter] in *. apply Forall_cons_1 in Hr as [Hx Hr].
  destruct (p x); [constructor|]; auto.
Qed.

Lemma ordered_app a b : ordered (a ++ b) -> ordered a /\ ordered b /\ forall x y, x ∈ a -> y ∈ b -> key x < key y.
Proof.
  unfold ordered. rewrite map_app. induction a as [|r a IH]; cbn [map app].
  - intros H. split; [constructor|]. split; [done|]. intros x y Hx. set_solver.
  - intros [Hs Hr]%StronglySorted_inv. apply Forall_app in Hr as [Ha Hb]. destruct (IH Hs) as (H1 & H2 & H3).
    split; [by constructor|]. split; [done|]. intros x y [->|Hx]%elem_of_cons Hy; [|by apply H3].
    apply (proj1 (List.Forall_forall _ _) Hb), in_map. by apply list_elem_of_In.
Qed.

Lemma filter_all p (l : list Row) : (forall x, x ∈ l -> p x = true) -> List.filter p l = l.
Proof. induction l as [|x l IH]; intros H; cbn; [done|]. rewrite H by set_solver. by rewrite IH by set_solver. Qed.
Lemma filter_none p (l : list Row) : (forall x, x ∈ l -> p x = false) -> List.filter p l = [].
Proof. induction l as [|x l IH]; intros H; cbn; [done|]. rewrite H by set_solver. by rewrite IH by set_solver. Qed.

(** The rows after, and before, the key of one of them. *)
Lemma rows_after a r b : ordered (a ++ r :: b) -> List.filter (fun x => key r <? key x) (a ++ r :: b) = b.
Proof.
  intros H. destruct (ordered_app a (r :: b) H) as (_ & Hb & Hab). rewrite List.filter_app. cbn [List.filter].
  rewrite Z.ltb_irrefl. apply (ordered_app [r] b) in Hb as (_ & _ & Hr).
  rewrite filter_none, filter_all; [done| |].
  - intros x Hx. apply Z.ltb_lt, Hr; [set_solver|done].
  - intros x Hx. apply Z.ltb_ge. pose proof (Hab x r Hx ltac:(set_solver)). lia.
Qed.
Lemma rows_before a r b : ordered (a ++ r :: b) -> List.filter (fun x => key x <? key r) (a ++ r :: b) = a.
Proof.
  intros H. destruct (ordered_app a (r :: b) H) as (_ & Hb & Hab). rewrite List.filter_app. cbn [List.filter].
  rewrite Z.ltb_irrefl. apply (ordered_app [r] b) in Hb as (_ & _ & Hr).
  rewrite filter_all, filter_none; [by rewrite app_nil_r| |].
  - intros x Hx. apply Z.ltb_ge. pose proof (Hr r x ltac:(set_solver) Hx). lia.
  - intros x Hx. apply Z.ltb_lt, Hab; [done|set_solver].
Qed.
End Keyset.

Definition pk (column : string) (row : json) : Z := default 0 (json_get row column ≫= as_i64).
Definition beyond (column : string) (c : option CursorValue) (row : json) : bool :=
  match c with Some (CursorInt64 a) => a <? pk column row | _ => true end.
Definition below (column : string) (c : option CursorValue) (row : json) : bool :=
  match c with Some (CursorInt64 a) => pk column row <? a | _ => true end.
Definition keyed (c : option CursorValue) : Prop := match c with Some (CursorUuid _) => False | _ => True end.
(** The last [n] of a list. *)
Definition tail_of {A} (n : nat) (l : list A) : list A := drop (length l - n) l.
Lemma in_tail {A} n (l : list A) x : x ∈ tail_of n l -> x ∈ l.
Proof. intros H. rewrite <- (take_drop (length l - n) l). apply elem_of_app. by right. Qed.

(** What [execute_relay_page] documents, for integer keys and no other order:
    the first rows beyond the cursor, or the last ones below it, in the order
    of the keys; the count of the rows of the filter.  [rows] are the view's. *)
Class KeysetLaws {R : Type} (RD : RelayDatabaseAdapter R) (leaf : WhereClause -> json -> bool)
    (rows : R -> string -> list json) : Prop := {
  page_forward : forall d r, r.(forward) = true -> r.(relay_order) = None -> keyed r.(after_pk) ->
    let found := List.filter (sat_option leaf r.(relay_where)) (rows d r.(relay_view)) in
    execute_relay_page d r = Ok (mkPage (take (Z.to_nat r.(fetch_limit)) (List.filter (beyond r.(cursor_column) r.(after_pk)) found))
      (if r.(include_total_count) then Some (Z.of_nat (length found)) else None));
  page_backward : forall d r, r.(forward) = false -> r.(relay_order) = None -> keyed r.(before_pk) ->
    let found := List.filter (sat_option leaf r.(relay_where)) (rows d r.(relay_view)) in
    execute_relay_page d r = Ok (mkPage (tail_of (Z.to_nat r.(fetch_limit)) (List.filter (below r.(cursor_column) r.(before_pk)) found))
      (if r.(include_total_count) then Some (Z.of_nat (length found)) else None))
}.

(** ** Pages *)
Section Pages.
Context {P D S M Sub R : Type} {RP : RLSPolicy P} {DB : DatabaseAdapter D} {ST : Store (Z * Z) ResponseEntry S}.
Context {RD : RelayDatabaseAdapter R} {B : Base64} {BL : Base64Laws B} (debug : string -> string)
  (database_name : DatabaseType -> string).
Context (leaf : WhereClause -> json -> bool) (view_rows : R -> string -> list json) {KL : KeysetLaws RD leaf view_rows}.

(** An executor without a policy, a relay query over integer keys, and a caller
    the query's conditions can be resolved for. *)
Context (db : R) (now : Z) (ex : @Executor P D S M Sub) (qm : QMatch) (ctx : option SecurityContext).
Context (source column : string) (sec : option WhereClause).
Notation qd := qm.(query_def).
Notation run vars := (execute_relay_query debug database_name (Some db) now ex qm (Some vars) ctx).

Record page_setting : Prop := {
  no_policy : ex.(rls_policy) = None;
  has_source : qd.(sql_source) = Some source;
  has_column : qd.(relay_cursor_column) = Some column;
  int_cursor : qd.(relay_cursor_type) = Int64;
  resolved : match ctx with Some ctx => security_where qd None ctx = Ok sec | None => qd.(inject_params) = [] /\ sec = None end;
  rows_keyed : forall row, row ∈ view_rows db source ->
    exists z, json_get row column ≫= as_i64 = Some z /\ is_i64 z;
  rows_ordered : ordered (pk column) (view_rows db source)
}.
Definition visible : list json := List.filter (sat_option leaf sec) (view_rows db source).
Definition cursor_of (row : json) : string := encode_edge_cursor (pk column row).

Definition page_vars (n : Z) (k : string) (o : option string) (first : string) : json :=
  JObject (match o with Some c => [(k, JString c)] | None => [] end ++ [(first, JNumber (PosInt n))]).
Definition relay_page (next previous : bool) (rows : list json) (total : option json) : json :=
  let c := connection next previous (map (fun row => (cursor_of row, edge (cursor_of row) row)) rows) in
  wrap_in_data_envelope (JObject (match total with Some t => map_insert "totalCount" t c | None => c end)) qd.(query_name).

Lemma edges_built rows : qd.(relay_cursor_type) = Int64 ->
  (forall row, row ∈ rows -> exists z, json_get row column ≫= as_i64 = Some z /\ is_i64 z) ->
  build_edges qd column rows = Ok (map (fun row => (cursor_of row, edge (cursor_of row) row)) rows).
Proof.
  intros Hi. induction rows as [|row rows IH]; intros H; cbn [build_edges map]; [done|].
  unfold row_cursor. rewrite Hi. destruct (H row) as (z & Hz & _); [set_solver|].
  unfold cursor_of at 1 2, pk. rewrite Hz. cbn [fmap option_fmap option_map ok_or mbind result_bind default].
  rewrite IH by set_solver. done.
Qed.

Lemma run_page vars p a b : page_setting ->
  variable (Some vars) "where" = None -> variable (Some vars) "orderBy" = None ->
  decode_cursor debug Int64 "after" (variable (Some vars) "after" ≫= as_str) = Ok a ->
  decode_cursor debug Int64 "before" (variable (Some vars) "before" ≫= as_str) = Ok b ->
  paging (page_arg (variable (Some vars) "first")) (page_arg (variable (Some vars) "last")) = p ->
  exists t, let r := mkRelay source column a b (u32_wrap (p.(page_size) + 1)) p.(is_forward) sec None t in
    run vars = (page ← execute_relay_page db r; relay_response qd p r page, ex).
Proof.
  intros [Hp Hs Hc Hi Hr _ _] Hw Ho Ha Hb Hpg.
  assert (Hreq : exists t, relay_request debug ex qm (Some vars) sec source column =
    Ok (p, mkRelay source column a b (u32_wrap (p.(page_size) + 1)) p.(is_forward) sec None t)).
  { unfold relay_request. rewrite Hi, Ha, Hb, Hw, Ho, Hpg. cbn [mbind result_bind]. eexists.
    unfold order_by_arg. cbn [transpose]. destruct qd.(auto_params).(has_where), qd.(auto_params).(has_order_by);
      cbn; by destruct sec. }
  destruct Hreq as [t Hreq]. exists t. cbn zeta. unfold execute_relay_query. rewrite Hs, Hc. cbn [ok_or mbind result_bind].
  unfold evaluate_policy_if, evaluate_policy. rewrite Hp.
  destruct ctx as [c|].
  - destruct qd.(inject_params); cbn [mbind result_bind]; rewrite Hr; cbn [mbind result_bind]; by rewrite Hreq.
  - destruct Hr as [-> ->]. cbn [mbind result_bind]. by rewrite Hreq.
Qed.

Lemma response_rows p r rows total : qd.(relay_cursor_type) = Int64 -> r.(cursor_column) = column ->
  (forall row, row ∈ rows -> exists z, json_get row column ≫= as_i64 = Some z /\ is_i64 z) ->
  let extra := p.(page_size) <? Z.of_nat (length rows) in
  relay_response qd p r (mkPage rows total) =
  Ok (relay_page (if p.(is_forward) then extra else is_some r.(before_pk)) (if p.(is_forward) then is_some r.(after_pk) else extra)
       (take (Z.to_nat p.(page_size)) rows)
       (if r.(include_total_count) then Some (match total with Some n => JNumber (PosInt n) | None => JNull end) else None)).
Proof.
  intros Hi Hc H. cbn zeta. unfold relay_response. cbn [page_rows total_count]. rewrite Hc, edges_built; [|done|].
  - unfold relay_page. destruct p.(is_forward), r.(include_total_count); done.
  - intros row Hrow. apply H. by apply elem_of_take in Hrow as (i & ? & _); eapply list_elem_of_lookup_2.
Qed.

Lemma visible_keyed row : page_setting -> row ∈ visible -> exists z, json_get row column ≫= as_i64 = Some z /\ is_i64 z.
Proof.
  intros H Hr. apply (rows_keyed H). unfold visible in Hr. apply list_elem_of_In, List.filter_In in Hr as [Hr _].
  by apply list_elem_of_In.
Qed.
Lemma visible_ordered : page_setting -> ordered (pk column) visible.
Proof. intros H. apply ordered_filter, (rows_ordered H). Qed.
Lemma cursor_read row : page_setting -> row ∈ visible ->
  decode_cursor debug Int64 "after" (Some (cursor_of row)) = Ok (Some (CursorInt64 (pk column row))) /\
  decode_cursor debug Int64 "before" (Some (cursor_of row)) = Ok (Some (CursorInt64 (pk column row))).
Proof.
  intros H Hr. destruct (visible_keyed row H Hr) as (z & Hz & Hi). unfold decode_cursor, cursor_of.
  assert (pk column row = z) as -> by (unfold pk; by rewrite Hz). by rewrite edge_cursor_decodes.
Qed.

(** The position after some rows, as the client knows it. *)
Definition end_of (rows : list json) : option string := cursor_of <$> list.last rows.
Definition end_pk (rows : list json) : option CursorValue := (fun r => CursorInt64 (pk column r)) <$> list.last rows.

Lemma rows_beyond a b : page_setting -> visible = a ++ b -> List.filter (beyond column (end_pk a)) visible = b.
Proof.
  intros H E. pose proof (visible_ordered H) as Ho. rewrite E in Ho |- *. destruct a as [|x a] using rev_ind.
  - unfold end_pk. cbn. by apply filter_all.
  - unfold end_pk. rewrite last_snoc. cbn [fmap option_fmap option_map beyond]. rewrite <- app_assoc in *. by apply rows_after.
Qed.

Lemma page_arg_clamped n : page_arg (Some (JNumber (PosInt n))) = Some (Z.min n u32_max).
Proof. unfold page_arg. cbn. destruct (Z.leb_spec n u32_max); f_equal; lia. Qed.
Lemma page_arg_number n : 0 <= n <= u32_max -> page_arg (Some (JNumber (PosInt n))) = Some n.
Proof. intros H. rewrite page_arg_clamped. f_equal. lia. Qed.

(** One forward page, of any size. *)
Lemma forward_page_any a b n : page_setting -> visible = a ++ b ->
  let m := Z.min n u32_max in let got := take (Z.to_nat (u32_wrap (m + 1))) b in
  exists total, run (page_vars n "after" (end_of a) "first") =
    (Ok (relay_page (m <? Z.of_nat (length got)) (is_some (end_of a)) (take (Z.to_nat m) got) total), ex).
Proof.
  intros H E m got. destruct (run_page (page_vars n "after" (end_of a) "first") (mkPaging true m) (end_pk a) None H) as [t Ht].
  - by destruct (end_of a).
  - by destruct (end_of a).
  - unfold end_of, end_pk. destruct (list.last a) as [x|] eqn:El; [|done]. apply cursor_read; [done|].
    rewrite E. apply last_Some in El as [l ->]. set_solver.
  - by destruct (end_of a).
  - assert (variable (Some (page_vars n "after" (end_of a) "first")) "last" = None) as -> by by destruct (end_of a).
    assert (variable (Some (page_vars n "after" (end_of a) "first")) "first" = Some (JNumber (PosInt n))) as ->
      by by destruct (end_of a).
    by rewrite page_arg_clamped.
  - cbn zeta in Ht. rewrite Ht. cbn [is_forward page_size]. rewrite page_forward; [|done|done|by unfold end_pk; destruct (list.last a)].
    cbn [after_pk cursor_column fetch_limit relay_where relay_view mbind result_bind]. fold visible. rewrite (rows_beyond a b H E).
    rewrite response_rows; [|apply (int_cursor H) | done |].
    + cbn [is_forward page_size before_pk after_pk]. eexists. f_equal. f_equal. f_equal. by unfold end_pk, end_of; destruct (list.last a).
    + intros row Hrow. apply (visible_keyed row H). rewrite E. apply elem_of_app. right.
      by apply elem_of_take in Hrow as (i & ? & _); eapply list_elem_of_lookup_2.
Qed.

Lemma forward_page a b n : page_setting -> visible = a ++ b -> 0 <= n < u32_max ->
  exists total, run (page_vars n "after" (end_of a) "first") =
    (Ok (relay_page (n <? Z.of_nat (length b)) (is_some (end_of a)) (take (Z.to_nat n) b) total), ex).
Proof.
  intros H E Hn. destruct (forward_page_any a b n H E) as [total Ht]. exists total. rewrite Ht, Z.min_l by lia.
  assert (Hf : u32_wrap (n + 1) = n + 1) by (unfold u32_wrap; apply Z.mod_small; rewrite u32_max_val in Hn; lia). rewrite Hf.
  f_equal. f_equal. f_equal.
  - rewrite length_take. destruct (Z.ltb_spec n (Z.of_nat (length b))), (Z.ltb_spec n (Z.of_nat (Z.to_nat (n + 1) `min` length b))); (done || lia).
  - rewrite take_take. f_equal. lia.
Qed.

(** A client that follows the end cursors: the nodes it sees, in order. *)
Definition page_of (v : json) : option (list json * json) :=
  c ← json_get v "data" ≫= fun d => json_get d qd.(query_name);
  info ← json_get c "pageInfo";
  match json_get c "edges" with
  | Some (JArray edges) => Some (omap (fun e => json_get e "node") edges, info)
  | _ => None
  end.
Definition next_cursor (info : json) : option (option string) :=
  match json_get info "hasNextPage" with
  | Some (JBool true) => Some (json_get info "endCursor" ≫= as_str)
  | _ => None
  end.
Fixpoint walk (fuel : nat) (n : Z) (after : option string) : option (list json) :=
  match fuel with
  | O => None
  | Datatypes.S fuel =>
      match (run (page_vars n "after" after "first")).1 with
      | Ok v =>
          '(nodes, info) ← page_of v;
          match next_cursor info with
          | Some after => rest ← walk fuel n after; Some (nodes ++ rest)
          | None => Some nodes
          end
      | Err _ => None
      end
  end.

Lemma page_of_relay next previous rows total :
  page_of (relay_page next previous rows total) =
  Some (rows, JObject [("endCursor"%string, text_or_null (end_of rows)); ("hasNextPage"%string, JBool next);
    ("hasPreviousPage"%string, JBool previous); ("startCursor"%string, text_or_null (cursor_of <$> list.head rows))]).
Proof.
  unfold page_of, relay_page, wrap_in_data_envelope, connection. cbn [json_get assoc]. rewrite streqb_refl.
  cbn [mbind option_bind]. cbn [json_get assoc]. rewrite streqb_refl. cbn [mbind option_bind].
  rewrite !map_map. cbn [fst snd].
  assert (Hn : omap (fun e => json_get e "node") (map (fun row => edge (cursor_of row) row) rows) = rows).
  { induction rows as [|r rows IH]; [done|]. cbn [map omap list_omap]. cbn [edge json_get assoc]. by rewrite IH. }
  assert (He : list.last (map (fun row => cursor_of row) rows) = end_of rows).
  { exact (fmap_last cursor_of rows). }
  assert (Hh : head (map (fun row => cursor_of row) rows) = cursor_of <$> list.head rows) by by destruct rows.
  rewrite He, Hh. destruct total as [t|]; cbn [json_get]; rewrite ?assoc_map_insert; cbn; by rewrite Hn.
Qed.

Lemma next_cursor_of e (next previous : bool) start :
  next_cursor (JObject [("endCursor"%string, text_or_null e); ("hasNextPage"%string, JBool next);
    ("hasPreviousPage"%string, JBool previous); ("startCursor"%string, start)]) = if next then Some e else None.
Proof. by destruct next, e. Qed.

(** A page size of zero: each page says there are more rows and has no cursor,
    so the client is back at the start. *)
Lemma walk_zero fuel : page_setting -> visible <> [] -> walk fuel 0 None = None.
Proof.
  intros H Hv. induction fuel as [|fuel IH]; [done|]. cbn [walk].
  destruct (forward_page [] visible 0 H eq_refl) as [total Ht]; [rewrite u32_max_val; lia|]. unfold end_of at 1 in Ht. cbn [list.last] in Ht.
  change (cursor_of <$> None) with (@None string) in Ht. rewrite Ht. cbn [fst]. rewrite page_of_relay. cbn [mbind option_bind].
  rewrite next_cursor_of. destruct visible as [|v vs]; [done|]. change (0 <? Z.of_nat (length (v :: vs))) with true.
  cbn iota. change (end_of (take (Z.to_nat 0) (v :: vs))) with (@None string). by rewrite IH.
Qed.
(** At [u32::MAX] the limit of the fetch wraps to zero. *)
Lemma walk_max fuel n : page_setting -> u32_max <= n -> walk (Datatypes.S fuel) n None = Some [].
Proof.
  intros H Hn. cbn [walk]. destruct (forward_page_any [] visible n H eq_refl) as [total Ht].
  unfold end_of at 1 in Ht. cbn [list.last] in Ht. change (cursor_of <$> None) with (@None string) in Ht. rewrite Ht, Z.min_r by done.
  assert (Hf : u32_wrap (u32_max + 1) = 0) by by rewrite u32_max_val. rewrite Hf. cbn [Z.to_nat take length fst].
  rewrite page_of_relay. cbn [mbind option_bind]. rewrite next_cursor_of, u32_max_val. change (4294967295 <? Z.of_nat 0) with false. cbn iota.
  done.
Qed.

(** C12. In a page setting (no row-level policy, an [Int64] cursor column that is an
    increasing key of the view's rows, no [where] and no [orderBy] variable;
    injected parameters may restrict the rows), a client that follows
    [endCursor] from the first page with [first: n]: for [0 < n < u32::MAX] it
    ends, having seen every row the caller may see exactly once, in the order
    of the keys.  For [n = 0] it never ends unless there are no rows; from
    [u32::MAX] on a release build shows no row (a debug build panics). *)
Theorem relay_walk_complete n fuel : page_setting -> 0 <= n -> (length visible < fuel)%nat ->
  walk fuel n None =
    if n =? 0 then (if bool_decide (visible = []) then Some [] else None)
    else if n <? u32_max then Some visible else Some [].
Proof.
  intros H Hn0 Hfuel.
  assert (Hw : n < u32_max -> 0 < n \/ visible = [] -> forall fuel a b, visible = a ++ b -> (length b < fuel)%nat -> walk fuel n (end_of a) = Some b).
  { intros Hn Hz. clear fuel Hfuel. induction fuel as [|fuel IH]; intros a b E Hf; [lia|]. cbn [walk]. destruct (forward_page a b n H E) as [total ->]; [lia|].
    cbn [fst]. rewrite page_of_relay. cbn [mbind option_bind]. rewrite next_cursor_of.
    destruct (Z.ltb_spec n (Z.of_nat (length b))) as [Hlt|Hle].
    - destruct Hz as [Hz|Hz]; [|symmetry in E; rewrite Hz in E; apply app_nil in E as [_ ->]; cbn in Hlt; lia].
      assert (Hend : end_of (take (Z.to_nat n) b) = end_of (a ++ take (Z.to_nat n) b)).
      { unfold end_of. rewrite last_app. destruct (list.last (take (Z.to_nat n) b)) as [x|] eqn:El; [done|].
        apply last_None in El. destruct b; [cbn in Hlt; lia|]. destruct (Z.to_nat n) eqn:En; [lia|done]. }
      rewrite Hend. rewrite (IH _ (drop (Z.to_nat n) b)); [cbn; by rewrite take_drop | |].
      + by rewrite <- app_assoc, take_drop.
      + rewrite length_drop. lia.
    - rewrite take_ge by lia. done. }
  destruct (Z.eqb_spec n 0) as [->|Hne].
  - case_bool_decide as Hv; [|by apply walk_zero]. assert (H0 : 0 < u32_max) by (rewrite u32_max_val; lia).
    specialize (Hw H0 (or_intror Hv) fuel [] visible eq_refl Hfuel). rewrite Hv in Hw. exact Hw.
  - destruct (Z.ltb_spec n u32_max) as [Hlt|Hge]; [by apply (Hw Hlt ltac:(left; lia) fuel [] visible)|].
    destruct fuel; [lia|]. by apply walk_max.
Qed.

(** The page of the last [n] rows before a row, when more than [n] are before
    it, ends one row short of it and begins one row early. *)
Theorem backward_page_shifted a skipped row b n : page_setting -> visible = a ++ skipped :: row :: b -> 0 < n <= Z.of_nat (length a) ->
  n < u32_max ->
  exists total, run (page_vars n "before" (Some (cursor_of row)) "last") =
    (Ok (relay_page true true (tail_of (Z.to_nat n) a) total), ex).
Proof.
  intros H E Hn Hm. assert (Hrow : row ∈ visible) by (rewrite E; set_solver).
  destruct (run_page (page_vars n "before" (Some (cursor_of row)) "last") (mkPaging false n) None
    (Some (CursorInt64 (pk column row))) H) as [t Ht]; try done.
  - by apply cursor_read.
  - change (variable (Some (page_vars n "before" (Some (cursor_of row)) "last")) "last") with (Some (JNumber (PosInt n))).
    by rewrite page_arg_number by lia.
  - cbn zeta in Ht. rewrite Ht. cbn [is_forward page_size]. rewrite page_backward by done.
    cbn [before_pk cursor_column fetch_limit relay_where relay_view mbind result_bind]. fold visible.
    assert (Hb : List.filter (below column (Some (CursorInt64 (pk column row)))) visible = a ++ [skipped]).
    { pose proof (visible_ordered H) as Ho. rewrite E in Ho |- *.
      change (a ++ skipped :: row :: b) with (a ++ [skipped] ++ row :: b) in *. rewrite app_assoc in *. by apply rows_before. }
    rewrite Hb. assert (Hf : u32_wrap (n + 1) = n + 1) by (unfold u32_wrap; apply Z.mod_small; rewrite u32_max_val in Hm; lia).
    rewrite Hf. rewrite response_rows; [|apply (int_cursor H) | done |].
    + cbn [is_forward page_size before_pk after_pk is_some]. eexists. f_equal. f_equal. unfold tail_of. rewrite length_app. cbn [length].
      replace (length a + 1 - Z.to_nat (n + 1))%nat with (length a - Z.to_nat n)%nat by lia.
      rewrite drop_app_le by lia. f_equal.
      * rewrite length_app, length_drop. cbn [length]. apply Z.ltb_lt. lia.
      * rewrite take_app_le by (rewrite length_drop; lia). rewrite take_ge; [done|]. rewrite length_drop. lia.
    + intros x Hx. apply (visible_keyed x H). rewrite E. apply in_tail in Hx. set_solver.
Qed.
End Pages.

Module RelayDemo.
Import Execution.ExecDemo.

(** An encoding that keeps the text, and a table held to the laws. *)
#[export] Instance plain_base64 : Base64 := { b64_encode s := s; b64_decode s := Some s }.
#[export] Instance plain_base64_laws : Base64Laws plain_base64.
Proof. by split. Qed.

Lemma cursors_roundtrip_witness :
  decode_edge_cursor (encode_edge_cursor (-42)) = Some (-42) /\
  decode_node_id (encode_node_id "User" "550e8400:1") = Some ("User"%string, "550e8400:1"%string).
Proof.
  destruct cursors_roundtrip as (Hi & _ & Hn). split; [apply Hi; unfold is_i64; lia|]. apply Hn; [reflexivity|].
  split; [discriminate|]. split; [discriminate|reflexivity].
Defined.

Definition holds (c : WhereClause) (row : json) : bool :=
  match c with Field [column] _ v => match json_get row column with Some w => json_eqb v w | None => false end | _ => false end.
#[export] Instance table_adapter : RelayDatabaseAdapter (list json) := fun d r =>
  let found := List.filter (sat_option holds r.(relay_where)) d in
  let total := if r.(include_total_count) then Some (Z.of_nat (length found)) else None in
  Ok (if r.(forward)
      then mkPage (take (Z.to_nat r.(fetch_limit)) (List.filter (beyond r.(cursor_column) r.(after_pk)) found)) total
      else mkPage (tail_of (Z.to_nat r.(fetch_limit)) (List.filter (below r.(cursor_column) r.(before_pk)) found)) total).
#[export] Instance table_laws : KeysetLaws table_adapter holds (fun d _ => d).
Proof. split; intros d r H _ _; unfold execute_relay_page, table_adapter; by rewrite H. Qed.

Definition post (n : Z) (tenant : string) : json :=
  JObject [("pk_post"%string, JNumber (PosInt n)); ("tenant_id"%string, JString tenant)].
Definition posts : list json := [post 1 "t"; post 2 "t"; post 4 "other"; post 5 "t"; post 7 "t"; post 300 "t"].
Definition post_pages : QueryDefinition :=
  mkQuery "posts" "Post" true [] (Some "v_post"%string) auto_all true (Some "pk_post"%string) Int64
    [("tenant_id"%string, Jwt "tenant_id")] [] None ∅ None None None.
Definition ask_posts : QMatch := Execution.field_query post_pages "id".
Definition executor : @Executor DefaultRLSPolicy (list json) lazy unit unit := start None None.
Definition no_debug (s : string) : string := s.
Definition no_name (_ : DatabaseType) : string := "".

Lemma setting : page_setting (fun (d : list json) _ => d) posts executor ask_posts (Some (user "t")) "v_post" "pk_post"
  (Some (equals "tenant_id" (JString "t"))).
Proof.
  split; try reflexivity.
  - intros row Hr. unfold posts in Hr. repeat (apply elem_of_cons in Hr as [->|Hr]; [eexists; split; [reflexivity|unfold is_i64; lia]|]).
    by apply not_elem_of_nil in Hr.
  - unfold ordered. repeat constructor.
Qed.

Lemma relay_walk_complete_witness :
  map (fun n => walk no_debug no_name posts 0 executor ask_posts (Some (user "t")) 6 n None) [2; 0; 5000000000] =
  [Some [post 1 "t"; post 2 "t"; post 5 "t"; post 7 "t"; post 300 "t"]; None; Some []].
Proof.
  pose proof (fun n Hn Hf => relay_walk_complete no_debug no_name holds (fun (d : list json) _ => d) posts 0 executor ask_posts (Some (user "t")) "v_post"
    "pk_post" (Some (equals "tenant_id" (JString "t"))) n 6 setting Hn Hf) as H.
  cbn [map]. rewrite (H 2), (H 0), (H 5000000000); [reflexivity | lia | vm_compute; lia | lia | vm_compute; lia | lia | vm_compute; lia].
Defined.

Lemma backward_page_shifted_witness : exists total,
  (execute_relay_query no_debug no_name (Some posts) 0 executor ask_posts
    (Some (page_vars 2 "before" (Some "300"%string) "last")) (Some (user "t"))).1 =
  Ok (relay_page ask_posts "pk_post" true true [post 2 "t"; post 5 "t"] total).
Proof.
  destruct (backward_page_shifted no_debug no_name holds (fun (d : list json) _ => d) posts 0 executor ask_posts (Some (user "t"))
    "v_post" "pk_post" (Some (equals "tenant_id" (JString "t"))) [post 1 "t"; post 2 "t"; post 5 "t"] (post 7 "t") (post 300 "t") [] 2
    setting) as [total H]; [reflexivity | split; [reflexivity|cbn; lia] | rewrite u32_max_val; lia |].
  exists total. change (Some "300"%string) with (Some (cursor_of "pk_post" (post 300 "t"))). by rewrite H.
Defined.
End RelayDemo.
