(* ===== verification/Mutation.v ===== *)
(** * Mutations

    [runtime/cascade.rs] and [runtime/mutation_result.rs]: the row a mutation's
    database function returns; [build_field_mappings_from_type]
    ([runtime/projection.rs]); [runtime/executor/mutation.rs]: arguments, the
    call, what is dropped from the caches, and the response.  Reading a UUID is
    the [uuid] package's, the text of an error of [serde_json] its own. *)

From Stdlib Require Import Ascii.
From stdpp Require Import pretty.
From S2P Require Import Prelude Json WhereClause GraphQL EditDistance Matcher CacheStore Chars SecurityContext ResponseCache OrderBy CacheKey CompiledSchema RowSecurity Projection ProjectionSql Execution Relay.
Import Matching.
#[local] Open Scope Z_scope.

(** ** Error classes *)
Inductive MutationErrorClass : Type :=
| ClassValidation | Conflict | NotFound | Unauthorized | Forbidden | ClassInternal | TransactionFailed | Timeout | RateLimited
| ServiceUnavailable.
Inductive CascadeErrorCode : Type :=
| CodeValidationError | CodeConflict | CodeNotFound | CodeUnauthorized | CodeForbidden | CodeInternalError | CodeTransactionFailed
| CodeTimeout | CodeRateLimited | CodeServiceUnavailable.
#[export] Instance class_eq_dec : EqDecision MutationErrorClass.
Proof. solve_decision. Defined.

Definition class_str (c : MutationErrorClass) : string :=
  match c with
  | ClassValidation => "validation"
  | Conflict => "conflict"
  | NotFound => "not_found"
  | Unauthorized => "unauthorized"
  | Forbidden => "forbidden"
  | ClassInternal => "internal"
  | TransactionFailed => "transaction_failed"
  | Timeout => "timeout"
  | RateLimited => "rate_limited"
  | ServiceUnavailable => "service_unavailable"
  end.
Definition to_cascade_code (c : MutationErrorClass) : CascadeErrorCode :=
  match c with
  | ClassValidation => CodeValidationError
  | Conflict => CodeConflict
  | NotFound => CodeNotFound
  | Unauthorized => CodeUnauthorized
  | Forbidden => CodeForbidden
  | ClassInternal => CodeInternalError
  | TransactionFailed => CodeTransactionFailed
  | Timeout => CodeTimeout
  | RateLimited => CodeRateLimited
  | ServiceUnavailable => CodeServiceUnavailable
  end.
Definition all_classes : list MutationErrorClass :=
  [ClassValidation; Conflict; NotFound; Unauthorized; Forbidden; ClassInternal; TransactionFailed; Timeout; RateLimited;
   ServiceUnavailable].
(** The derived reading, by the name in snake case. *)
Definition class_of_str (s : string) : option MutationErrorClass := find (fun c => class_str c =s s) all_classes.

(** ** The row of a mutation *)
Inductive MutationOutcome : Type :=
| Success (entity : json) (entity_type entity_id : option string) (cascade : option json)
| Failure (error_class : MutationErrorClass) (message : string) (metadata : json).

Record MutationResponse : Type := mkResponse {
  succeeded : bool;
  state_changed : bool;
  error_class : option MutationErrorClass;
  status_detail : option string;
  http_status : option Z;
  message : option string;
  entity_id : option string;
  entity_type : option string;
  entity : json;
  updated_fields : list string;
  cascade : json;
  error_detail : json;
  metadata : json
}.
Notation Row := (gmap string json).

Definition HTTP_STATUS_MIN : Z := 100.
Definition HTTP_STATUS_MAX : Z := 599.

Section Rows.
Context (parse_uuid : string -> option string) (de_error : Row -> string).

(** What [Deserialize] reads of a column: [None] is an error. *)
Definition optional {A} (read : json -> option A) (row : Row) (column : string) : option (option A) :=
  match row !! column with None | Some JNull => Some None | Some v => Some <$> read v end.
Definition required_bool (row : Row) (column : string) : option bool :=
  match row !! column with Some (JBool b) => Some b | _ => None end.
Definition any_value (row : Row) (column : string) : json := default JNull (row !! column).
Definition read_class (v : json) : option MutationErrorClass :=
  match v with JString s | JObject [(s, JNull)] => class_of_str s | _ => None end.
Definition read_i16 (v : json) : option Z :=
  n ← as_i64 v; if (-32768 <=? n) && (n <=? 32767) then Some n else None.
Definition read_texts (row : Row) (column : string) : option (list string) :=
  match row !! column with
  | None => Some []
  | Some (JArray l) => Projection.collect as_str l
  | Some _ => None
  end.

Definition deserialize (row : Row) : option MutationResponse :=
  succeeded ← required_bool row "succeeded";
  state_changed ← required_bool row "state_changed";
  error_class ← optional read_class row "error_class";
  status_detail ← optional as_str row "status_detail";
  http_status ← optional read_i16 row "http_status";
  message ← optional as_str row "message";
  entity_id ← optional (fun v => as_str v ≫= parse_uuid) row "entity_id";
  entity_type ← optional as_str row "entity_type";
  updated_fields ← read_texts row "updated_fields";
  Some (mkResponse succeeded state_changed error_class status_detail http_status message entity_id entity_type
    (any_value row "entity") updated_fields (any_value row "cascade") (any_value row "error_detail") (any_value row "metadata")).

Definition filter_null (v : json) : option json := match v with JNull => None | _ => Some v end.
Definition out_of_range (status : Z) : error :=
  validation ("mutation_response 'http_status' out of range: " ++ pretty status ++ " (expected " ++ pretty HTTP_STATUS_MIN ++ "..=" ++
    pretty HTTP_STATUS_MAX ++ ")").
Definition to_outcome (row : MutationResponse) : result error MutationOutcome :=
  match row.(http_status) with
  | Some status => if (HTTP_STATUS_MIN <=? status) && (status <=? HTTP_STATUS_MAX) then Ok tt else Err (out_of_range status)
  | None => Ok tt
  end ≫= fun _ =>
  if row.(succeeded) then
    match row.(error_class) with
    | Some _ => Err (validation "mutation_response: succeeded=true but error_class is set")
    | None => Ok (Success row.(entity) row.(entity_type) row.(entity_id) (filter_null row.(cascade)))
    end
  else if row.(state_changed) then
    Err (validation ("mutation_response: succeeded=false with state_changed=true is illegal " ++
      "(partial-failure rows are builder-rejected)"))
  else
    match row.(error_class) with
    | None => Err (validation "mutation_response: succeeded=false requires error_class")
    | Some class => Ok (Failure class (default ""%string row.(message)) row.(error_detail))
    end.
Definition parse_mutation_row (row : Row) : result error MutationOutcome :=
  parsed ← ok_or (deserialize row) (validation ("mutation_response row failed to deserialize: " ++ de_error row));
  to_outcome parsed.
End Rows.

(** ** Field mappings of an error type *)
Fixpoint capitalise (next : bool) (s : string) : string :=
  match s with
  | EmptyString => EmptyString
  | String c s =>
      if Ascii.eqb c "_" then capitalise true s
      else String (if next then Casing.to_upper c else c) (capitalise false s)
  end.
Definition to_camel_case (snake : string) : string := capitalise false snake.

Definition mapping_fallback (output : string) : option string :=
  if to_camel_case output =s output then None else Some output.
(** The type a field refers to, when the schema has it. *)
Definition field_target (s : Schema) (f : FieldDefinition) : option TypeDefinition :=
  let t := f.(CompiledSchema.field_type) in referenced_name (default t (inner_type t)) ≫= find_type s.

(** [visited] holds the types on the way to these fields: what is inserted
    before the call is removed after it. *)
Fixpoint build_field_mappings (fuel : nat) (s : Schema) (fields : list FieldDefinition) (requested : option (list string))
    (visited : gset string) : option (list FieldMapping) :=
  match fuel with
  | O => None
  | Datatypes.S fuel =>
      Projection.collect (fun f =>
        let output := f.(field_name) in
        let plain := mkMapping (to_camel_case output) output (mapping_fallback output) None None in
        match field_target s f with
        | Some td =>
            if bool_decide (td.(type_name) ∈ visited) then Some plain
            else nested ← build_field_mappings fuel s td.(type_fields) None ({[td.(type_name)]} ∪ visited);
                 Some (mkMapping (to_camel_case output) output (mapping_fallback output) (Some td.(type_name)) (Some nested))
        | None => Some plain
        end)
      (List.filter (fun f => match requested with None => true | Some r => member f.(field_name) r end) fields)
  end.
Definition build_field_mappings_from_type (s : Schema) (fields : list FieldDefinition) (requested : option (list string)) :
    option (list FieldMapping) :=
  build_field_mappings (Datatypes.S (length s.(types))) s fields requested ∅.

(** ** The database, for writing

    The calls a mutation makes; each may change the adapter's state. *)
Class MutationAdapter (D : Type) : Type := {
  supports_mutations : D -> bool;
  execute_function_call : D -> string -> list json -> result error (list Row) * D;
  bump_fact_table_versions : D -> list string -> result error unit * D;
  invalidate_by_entity : D -> string -> string -> result error Z * D;
  invalidate_list_queries : D -> list string -> result error Z * D;
  invalidate_views : D -> list string -> result error Z * D
}.

(** ** Arguments *)
Definition input_type_name (md : MutationDefinition) : option string :=
  match md.(mutation_arguments) with
  | [a] => if a.(arg_name) =s "input" then match a.(arg_type) with FT.Input n => Some n | _ => None end else None
  | _ => None
  end.
Definition is_update (md : MutationDefinition) : bool := match md.(operation) with Update _ => true | _ => false end.
Definition as_object (v : json) : option (list (string * json)) := match v with JObject fields => Some fields | _ => None end.
(** The arguments of the call and the names of those missing. *)
Definition missing_input (md : MutationDefinition) : list string :=
  if match md.(mutation_arguments) with a :: _ => a.(nullable) | [] => true end then [] else ["input"%string].
Definition flat_value (vars : option json) (a : ArgumentDefinition) : json :=
  match variable vars a.(arg_name) with Some v => v | None => default JNull (to_json <$> a.(default_value)) end.
Definition flat_missing (vars : option json) (a : ArgumentDefinition) : bool :=
  negb (is_some (variable vars a.(arg_name))) && negb a.(nullable) && negb (is_some a.(default_value)).
Definition flat_arguments (md : MutationDefinition) (vars : option json) : list json * list string :=
  (map (flat_value vars) md.(mutation_arguments), map arg_name (List.filter (flat_missing vars) md.(mutation_arguments))).
Definition client_arguments (s : Schema) (md : MutationDefinition) (vars : option json) : list json * list string :=
  let input := variable vars "input" ≫= as_object in
  match input_type_name md with
  | Some n =>
      if is_update md then match input with Some obj => ([JObject obj], []) | None => ([], missing_input md) end
      else
        match find_input_type s n with
        | Some it =>
            match input with
            | Some obj => (map (fun f => default JNull (assoc f obj)) it.(input_fields), [])
            | None => ([], missing_input md)
            end
        | None => flat_arguments md vars
        end
  | None => flat_arguments md vars
  end.

Definition mutation_not_found (name : string) (suggestions : list string) : string :=
  "Mutation '" ++ name ++ "' not found in schema" ++
  match suggestions with
  | [] => ""
  | [s] => ". Did you mean '" ++ s ++ "'?"
  | [a; b] => ". Did you mean '" ++ a ++ "' or '" ++ b ++ "'?"
  | a :: b :: c :: _ => ". Did you mean '" ++ a ++ "', '" ++ b ++ "', or '" ++ c ++ "'?"
  end.
Definition function_name (name : string) (md : MutationDefinition) : result error string :=
  let no_source := Err (validation ("Mutation '" ++ name ++ "' has no sql_source configured")) in
  match md.(mutation_sql_source), md.(operation) with
  | Some src, _ => Ok src
  | None, (Insert table | Update table | Delete table) => if table =s "" then no_source else Ok table
  | None, Custom => no_source
  end.
(** The view of a type, when it has one. *)
Definition view_of (s : Schema) (t : string) : option string :=
  td ← find_type s t; if td.(type_sql_source) =s "" then None else Some td.(type_sql_source).
Definition touched_views (s : Schema) (md : MutationDefinition) : list string :=
  match md.(invalidates_views) with
  | [] => match view_of s md.(mutation_return_type) with Some v => [v] | None => [] end
  | views => views
  end.

(** ** What is selected *)
Definition selection_for_type (selections : gmap string (list string)) (t : string) : option (list string) :=
  match selections !! ""%string, selections !! t with
  | None, None => None
  | Some c, None => Some c
  | None, Some s => Some s
  | Some c, Some s => Some (c ++ s)
  end.
Definition success_typename (s : Schema) (md : MutationDefinition) (entity_type : option string) : string :=
  match entity_type with
  | Some t => t
  | None =>
      default md.(mutation_return_type)
        (u ← find_union s md.(mutation_return_type);
         find (fun t => match find_type s t with Some td => negb td.(is_error) | None => true end) u.(member_types))
  end.
Definition error_member (s : Schema) (md : MutationDefinition) : option TypeDefinition :=
  u ← find_union s md.(mutation_return_type);
  head (omap (fun t => td ← find_type s t; if td.(is_error) : bool then Some td else None) u.(member_types)).

(** ** [execute_mutation_query_with_security] *)
Section Executor.
Context {P D S Sub : Type} {RP : RLSPolicy P} {DB : DatabaseAdapter D} {MD : MutationAdapter D} {ST : Store (Z * Z) ResponseEntry S}.
(** Outside the crate: [serde_json], sorting, the clock, the [uuid] package;
    the order a set of keys is read in. *)
Context (from_str : string -> option json) (sort : list (nat * string) -> list (nat * string)).
Context (json_text : json -> string) (started_at : string).
Context (parse_uuid : string -> option string) (de_error : Row -> string) (order : gset (Z * Z) -> list (Z * Z)).
Notation Executor := (@Executor P D S MutationDefinition Sub).

(** A run that may fail and keeps what it changed before. *)
Definition Run (A : Type) : Type := Executor -> result error A * Executor.
#[local] Instance run_ret : MRet Run := fun _ a ex => (Ok a, ex).
#[local] Instance run_bind : MBind Run := fun _ _ k m ex =>
  match m ex with (Ok a, ex) => k a ex | (Err e, ex) => (Err e, ex) end.
Definition lift {A} (r : result error A) : Run A := fun ex => (r, ex).
Definition read {A} (f : Executor -> A) : Run A := fun ex => (Ok (f ex), ex).
Definition on_adapter {A} (f : D -> result error A * D) : Run A := fun ex =>
  let '(r, d) := f ex.(adapter) in (r, with_adapter ex d).
Definition invalidate_responses (views : list string) : Run unit := fun ex =>
  (Ok tt, with_cache ex ((fun c => (ResponseCache.invalidate_views order c views).2) <$> ex.(response_cache))).

Definition find_mutation (ex : Executor) (name : string) : result error MutationDefinition :=
  ok_or (Schema.find_mutation mutation_name ex.(compiled) name)
    (validation (mutation_not_found name (Suggest.suggest_similar sort name
      (map (fun m => Schema.display_name ex.(compiled) m.(mutation_name)) ex.(compiled).(Schema.mutations))))).

Definition injected (name : string) (md : MutationDefinition) (ctx : option SecurityContext) : result error (list json) :=
  match md.(mutation_inject_params) with
  | [] => Ok []
  | ps =>
      ctx ← ok_or ctx (validation ("Mutation '" ++ name ++
        "' requires inject params but no security context is available (unauthenticated request)"));
      each (fun p => resolve_inject_value p.1 p.2 ctx) ps
  end.
(** The function to call with its arguments. *)
Definition mutation_call (name : string) (vars : option json) (ctx : option SecurityContext) (ex : Executor) :
    result error (MutationDefinition * string * list json) :=
  md ← find_mutation ex name;
  source ← function_name name md;
  let '(args, missing) := client_arguments ex.(schema) md vars in
  match missing with
  | _ :: _ => Err (validation ("Mutation '" ++ name ++ "' is missing required argument(s): " ++ join ", " missing))
  | [] => inj ← injected name md ctx; Ok (md, source, args ++ inj)
  end.

Definition mutation_session (ctx : option SecurityContext) : Run unit := fun ex =>
  match ctx, ex.(session).(variables), ex.(session).(inject_started_at) with
  | None, _, _ | _, [], false => (Ok tt, ex)
  | Some ctx, _, _ =>
      match set_session_variables ex.(adapter) (resolve_session_variables started_at json_text ex.(session) ctx) with
      | Ok d => (Ok tt, with_adapter ex d)
      | Err e => (Err e, ex)
      end
  end.

(** What a successful mutation drops from the caches. *)
Definition invalidate_entity (entity_type entity_id : option string) : Run unit :=
  match entity_type, entity_id with
  | Some t, Some id =>
      _ ← on_adapter (fun d => invalidate_by_entity d t id);
      view ← read (fun ex => view_of ex.(schema) t);
      match view with Some v => invalidate_responses [v] | None => mret tt end
  | _, _ => mret tt
  end.
Definition invalidate_touched (md : MutationDefinition) (entity_id : option string) : Run unit :=
  match entity_id, md.(invalidates_views) with
  | Some _, [] => mret tt
  | _, _ =>
      views ← read (fun ex => touched_views ex.(schema) md);
      match views with
      | [] => mret tt
      | _ =>
          _ ← on_adapter (fun d => match entity_id with None => invalidate_list_queries d views | Some _ => invalidate_views d views end);
          invalidate_responses views
      end
  end.
Definition after_success (md : MutationDefinition) (entity_type entity_id : option string) : Run unit :=
  _ ← match md.(invalidates_fact_tables) with
      | [] => mret tt
      | tables => on_adapter (fun d => bump_fact_table_versions d tables)
      end;
  _ ← invalidate_entity entity_type entity_id;
  invalidate_touched md entity_id.

(** The response. *)
Definition success_json (s : CompiledSchema.Schema) (md : MutationDefinition) (selections : gmap string (list string))
    (entity : json) (entity_type : option string) (cascade : option json) : result error json :=
  let t := success_typename s md entity_type in
  let obj := default [] (as_object entity) in
  let mappings := map Projection.simple (default (map fst obj) (selection_for_type selections t)) in
  projected ← ok_or (project_json_object from_str (mkMapper mappings (Some t) false) obj) projector_fuel;
  Ok (match projected, cascade with JObject fields, Some c => JObject (map_insert "cascade" c fields) | _, _ => projected end).
Definition error_json (s : CompiledSchema.Schema) (md : MutationDefinition) (selections : gmap string (list string))
    (class : MutationErrorClass) (metadata : json) : result error json :=
  let status := JString (class_str class) in
  match error_member s md with
  | Some td =>
      mappings ← ok_or (build_field_mappings_from_type s td.(type_fields) (selection_for_type selections td.(type_name))) projector_fuel;
      projected ← ok_or (project_json_object from_str (mkMapper mappings (Some td.(type_name)) false) (default [] (as_object metadata)))
        projector_fuel;
      Ok (match projected with JObject fields => JObject (map_insert "status" status fields) | _ => projected end)
  | None => Ok (JObject [("__typename"%string, JString md.(mutation_return_type)); ("status"%string, status)])
  end.
Definition outcome_json (s : CompiledSchema.Schema) (md : MutationDefinition) (selections : gmap string (list string))
    (outcome : MutationOutcome) : result error json :=
  match outcome with
  | Success entity entity_type _ cascade => success_json s md selections entity entity_type cascade
  | Failure class _ metadata => error_json s md selections class metadata
  end.

Definition no_rows (name : string) : error := validation ("Mutation '" ++ name ++ "': function returned no rows").
Definition execute_mutation_query_with_security (name : string) (vars : option json) (ctx : option SecurityContext)
    (selections : gmap string (list string)) : Run json :=
  call ← (fun ex => (mutation_call name vars ctx ex, ex)) : Run _;
  let '(md, source, args) := call in
  _ ← mutation_session ctx;
  rows ← on_adapter (fun d => execute_function_call d source args);
  row ← lift (ok_or (head rows) (no_rows name));
  outcome ← lift (parse_mutation_row parse_uuid de_error row);
  _ ← match outcome with Success _ entity_type entity_id _ => after_success md entity_type entity_id | Failure _ _ _ => mret tt end;
  s ← read schema;
  result ← lift (outcome_json s md selections outcome);
  mret (wrap_in_data_envelope result name).

Definition unsupported_mutation (name : string) : error :=
  validation ("Mutation '" ++ name ++ "' cannot be executed: the configured database adapter does not support mutations. " ++
    "Use PostgresAdapter, MySqlAdapter, or SqlServerAdapter for mutation operations.").
Definition execute_mutation_query (name : string) (vars : option json) (selections : gmap string (list string)) : Run json :=
  supported ← read (fun ex => supports_mutations ex.(adapter));
  if supported : bool then execute_mutation_query_with_security name vars None selections
  else lift (Err (unsupported_mutation name)).
(** For adapters that support mutations by their type. *)
Definition execute_mutation (name : string) (vars : option json) (selections : gmap string (list string)) : Run json :=
  execute_mutation_query_with_security name vars None selections.
End Executor.

(** * What mutations keep

    The row is read as its table of outcomes says; the function is called with
    the arguments in the order of the definition; after a success the response
    cache keeps exactly the responses that read none of the views concerned;
    the mappings of an error type exist for every schema. *)

Import Matching.

(** ** Classes and rows *)
Lemma class_read c : class_of_str (class_str c) = Some c.
Proof. by destruct c. Qed.
Lemma codes_distinct c c' : to_cascade_code c = to_cascade_code c' -> c = c'.
Proof. by destruct c, c'. Qed.

Section Rows.
Context (parse_uuid : string -> option string) (de_error : gmap string json -> string).

Definition status_in_range (r : MutationResponse) : Prop := forall s, r.(http_status) = Some s -> 100 <= s <= 599.
(** The table of outcomes. *)
Definition outcome_of (r : MutationResponse) (o : MutationOutcome) : Prop :=
  status_in_range r /\
  match o with
  | Success e t id c =>
      r.(succeeded) = true /\ r.(error_class) = None /\ e = r.(entity) /\ t = r.(entity_type) /\ id = r.(entity_id) /\
      c = filter_null r.(cascade)
  | Failure class m d =>
      r.(succeeded) = false /\ r.(state_changed) = false /\ r.(error_class) = Some class /\ m = default ""%string r.(message) /\
      d = r.(error_detail)
  end.

(** A row is accepted exactly when its columns have their types and it is a
    line of the table: a status between 100 and 599, a success without an
    error class, or a failure with one that changed nothing. *)
Theorem row_semantics row o : parse_mutation_row parse_uuid de_error row = Ok o <->
  exists r, deserialize parse_uuid row = Some r /\ outcome_of r o.
Proof.
  unfold parse_mutation_row. destruct (deserialize parse_uuid row) as [r|]; cbn [ok_or mbind result_bind];
    [|split; [done | by intros (? & ? & ?)]].
  transitivity (outcome_of r o); [|split; [by exists r | by intros (? & [= ->] & ?)]].
  unfold to_outcome, outcome_of, status_in_range.
  assert (Hs : (match r.(http_status) with
    | Some status => if (HTTP_STATUS_MIN <=? status) && (status <=? HTTP_STATUS_MAX) then Ok tt else Err (out_of_range status)
    | None => Ok tt end = Ok tt) \/ (exists s e, r.(http_status) = Some s /\ ~ (100 <= s <= 599) /\
    match r.(http_status) with
    | Some status => if (HTTP_STATUS_MIN <=? status) && (status <=? HTTP_STATUS_MAX) then Ok tt else Err (out_of_range status)
    | None => Ok tt end = Err e)).
  { destruct r.(http_status) as [s|]; [|by left]. unfold HTTP_STATUS_MIN, HTTP_STATUS_MAX.
    destruct (_ && _) eqn:E; [by left|]. right. eexists s, _. split; [done|]. split; [lia|done]. }
  destruct Hs as [Hs|(s & e & Hh & Hn & Hs)]; rewrite Hs; cbn [mbind result_bind].
  - assert (Hr : forall s, r.(http_status) = Some s -> 100 <= s <= 599).
    { intros s Hh. rewrite Hh in Hs. unfold HTTP_STATUS_MIN, HTTP_STATUS_MAX in Hs. destruct (_ && _) eqn:E; [lia|done]. }
    destruct r.(succeeded), r.(error_class), r.(state_changed), o; cbn; split; intros H; try done;
      try (injection H as <- <- <- <-); try (injection H as <- <- <-); try done; try (by destruct H as (_ & H); naive_solver);
      destruct H as (_ & H); naive_solver.
  - split; [done|]. intros [H _]. by apply H in Hh.
Qed.

(** A NULL where a list is expected is not the default of a missing column. *)
Lemma null_updated_fields_refused row : row !! "updated_fields"%string = Some JNull -> deserialize parse_uuid row = None.
Proof.
  intros H. unfold deserialize, read_texts. rewrite H.
  repeat (match goal with |- context [mbind _ ?x] => destruct x; cbn [mbind option_bind]; [|done] end). done.
Qed.
End Rows.

(** ** Mappings *)
Definition unvisited (s : Schema) (visited : gset string) : list TypeDefinition :=
  List.filter (fun td => negb (bool_decide (td.(type_name) ∈ visited))) s.(types).
Definition wanted (requested : option (list string)) (f : FieldDefinition) : bool :=
  match requested with None => true | Some r => member f.(field_name) r end.

Lemma filter_less {A} (p q : A -> bool) l x : (forall y, p y = true -> q y = true) -> x ∈ l -> q x = true -> p x = false ->
  (length (List.filter p l) < length (List.filter q l))%nat.
Proof.
  intros Hpq Hx Hq Hp.
  assert (Hle : forall k, (length (List.filter p k) <= length (List.filter q k))%nat).
  { induction k as [|y k IH]; [done|]. cbn. destruct (p y) eqn:E; [rewrite (Hpq y E); cbn; lia|]. destruct (q y); cbn; lia. }
  revert Hq Hp. induction Hx as [x l|x y l Hx IH]; intros Hq Hp; cbn.
  - rewrite Hp, Hq. cbn. specialize (Hle l). lia.
  - specialize (IH Hq Hp). destruct (p y) eqn:E; [rewrite (Hpq y E); cbn; lia|]. destruct (q y); cbn; lia.
Qed.

Lemma target_in s f td : field_target s f = Some td -> td ∈ s.(types).
Proof.
  unfold field_target. destruct (referenced_name _) as [n|]; [|done]. cbn. unfold find_type.
  intros [H _]%find_some. by apply list_elem_of_In.
Qed.
Lemma collect_output (g : FieldDefinition -> option FieldMapping) l ms :
  (forall f m, g f = Some m -> m.(output) = f.(field_name)) -> Projection.collect g l = Some ms ->
  map output ms = map field_name l.
Proof.
  intros H. revert ms. induction l as [|f l IH]; intros ms; cbn; [by intros [= <-]|].
  destruct (g f) as [m|] eqn:E; [|done]. cbn. destruct (Projection.collect g l) as [ms'|]; [|done]. cbn. intros [= <-]. cbn.
  by rewrite (H f m E), (IH ms').
Qed.

Lemma mappings_some s fuel fields requested visited : (length (unvisited s visited) < fuel)%nat ->
  exists ms, build_field_mappings fuel s fields requested visited = Some ms /\
    map output ms = map field_name (List.filter (wanted requested) fields).
Proof.
  revert fields requested visited. induction fuel as [|fuel IH]; intros fields requested visited Hf; [lia|]. cbn [build_field_mappings].
  match goal with |- context [Projection.collect ?g ?l] => set (step := g); set (chosen := l) end.
  destruct (collect_some step chosen) as [ms Hms].
  - intros f _. unfold step. destruct (field_target s f) as [td|] eqn:E; [|by eexists].
    case_bool_decide as Hv; [by eexists|].
    destruct (IH td.(type_fields) None ({[td.(type_name)]} ∪ visited)) as (nested & -> & _); [|by eexists].
    assert (length (unvisited s ({[td.(type_name)]} ∪ visited)) < length (unvisited s visited))%nat; [|lia].
    apply filter_less with td; [|by apply target_in with f | |].
    + intros y. rewrite !negb_true_iff, !bool_decide_eq_false. set_solver.
    + by rewrite negb_true_iff, bool_decide_eq_false.
    + rewrite negb_false_iff, bool_decide_eq_true. set_solver.
  - exists ms. split; [done|]. apply (collect_output step); [|done]. intros f m. unfold step.
    destruct (field_target s f) as [td|]; [|by intros [= <-]]. case_bool_decide; [by intros [= <-]|].
    destruct (build_field_mappings _ _ _ _ _); [|done]. by intros [= <-].
Qed.

(** Whatever types refer to each other, the mappings of a type's fields exist,
    one for each field asked for, in the order of the definition. *)
Theorem mappings_exist s fields requested : exists ms,
  build_field_mappings_from_type s fields requested = Some ms /\
  map output ms = map field_name (List.filter (wanted requested) fields).
Proof. apply mappings_some. unfold unvisited. apply Nat.lt_succ_r. apply filter_length_le. Qed.

(** ** The call and the caches *)
Section Executor.
Context {P D S Sub : Type} {RP : RLSPolicy P} {DB : DatabaseAdapter D} {MD : MutationAdapter D} {ST : Store (Z * Z) ResponseEntry S}.
Context (from_str : string -> option json) (sort : list (nat * string) -> list (nat * string)).
Context (json_text : json -> string) (started_at : string).
Context (parse_uuid : string -> option string) (de_error : gmap string json -> string) (order : gset (Z * Z) -> list (Z * Z)).
Notation Executor := (@Executor P D S MutationDefinition Sub).
Notation Run := (@Run P D S Sub).
Notation call_of := (mutation_call sort).
Notation run := (execute_mutation_query_with_security from_str sort json_text started_at parse_uuid de_error order).

(** The value of an injected parameter is taken from the caller's token. *)
Definition from_token (ctx : option SecurityContext) (p : string * InjectedParamSource) (v : json) : Prop :=
  exists c, ctx = Some c /\ resolve_inject_value p.1 p.2 c = Ok v.
Lemma injected_resolved name md ctx vs : injected name md ctx = Ok vs -> Forall2 (from_token ctx) md.(mutation_inject_params) vs.
Proof.
  unfold injected. destruct md.(mutation_inject_params) as [|p ps]; [intros [= <-]; constructor|].
  intros (c & Hc & Hv)%bind_Ok. destruct ctx as [c'|]; [|done]. injection Hc as ->. revert vs Hv. generalize (p :: ps). clear p ps.
  induction l as [|p ps IH]; intros vs; cbn [each]; [intros [= <-]; constructor|].
  intros (v & Hv & (vs' & Hvs & [= <-])%bind_Ok)%bind_Ok. constructor; [by exists c | by apply IH].
Qed.

Lemma resolved_injected name md ctx vs : Forall2 (from_token ctx) md.(mutation_inject_params) vs -> injected name md ctx = Ok vs.
Proof.
  unfold injected. destruct md.(mutation_inject_params) as [|p ps]; [by inversion_clear 1|]. intros H.
  assert (exists c, ctx = Some c) as [c ->] by (inversion_clear H as [|? ? ? ? (c & Hc & _)]; by exists c).
  cbn [ok_or mbind result_bind]. revert vs H. generalize (p :: ps). clear p ps.
  induction l as [|p ps IH]; intros vs H; inversion_clear H as [|? v ? vs' (c' & [= <-] & Hv) Hr]; [done|].
  cbn [each]. rewrite Hv. cbn [mbind result_bind]. by rewrite (IH vs').
Qed.

(** A flat argument the call does not have to refuse. *)
Definition given (vars : option json) (a : ArgumentDefinition) : Prop :=
  is_Some (variable vars a.(arg_name)) \/ a.(nullable) = true \/ is_Some a.(default_value).
Lemma given_all vars args : List.filter (flat_missing vars) args = [] <-> Forall (given vars) args.
Proof.
  assert (H : forall a, flat_missing vars a = false <-> given vars a).
  { intros a. unfold flat_missing, given. destruct (variable vars a.(arg_name)); [split; [left; by eexists | done]|].
    destruct a.(nullable); [split; [by right; left | done]|].
    destruct a.(default_value); [split; [right; right; by eexists | done]|].
    split; [done|]. intros [[? [=]]|[[=]|[? [=]]]]. }
  induction args as [|a args IH]; [done|]. cbn. specialize (H a). destruct (flat_missing vars a).
  - split; [done|]. intros [Hg _]%Forall_cons_1. by apply H in Hg.
  - rewrite IH. split; [intros Ha; constructor; [by apply H | done] | by intros [_ ?]%Forall_cons_1].
Qed.

(** Without an input object the function is called exactly when each argument
    is given, nullable or has a default and the token has every injected
    claim; the arguments then come in the order of the definition, followed by
    the injected values in theirs. *)
Theorem call_is_positional name vars ctx (ex : Executor) md source args :
  find_mutation sort ex name = Ok md -> function_name name md = Ok source -> input_type_name md = None ->
  call_of name vars ctx ex = Ok (md, source, args) <->
  Forall (given vars) md.(mutation_arguments) /\
  exists inj, Forall2 (from_token ctx) md.(mutation_inject_params) inj /\ args = map (flat_value vars) md.(mutation_arguments) ++ inj.
Proof.
  intros Hm Hf Hi. unfold mutation_call. rewrite Hm. cbn [mbind result_bind]. rewrite Hf. cbn [mbind result_bind]. unfold client_arguments. rewrite Hi. unfold flat_arguments.
  rewrite <- given_all. destruct (List.filter (flat_missing vars) _) as [|a l]; cbn [map].
  - split.
    + intros (inj & Hj & [= <-])%bind_Ok. split; [done|]. exists inj. split; [|done]. by apply injected_resolved with name.
    + intros (_ & inj & Hj & ->). by rewrite (resolved_injected name md ctx inj).
  - split; [done|]. by intros [? _].
Qed.

(** A nullable input that is left out leaves no argument: the injected values
    take the places of its fields. *)
Lemma omitted_input_shifts name vars ctx (ex : Executor) md source n inj a :
  find_mutation sort ex name = Ok md -> function_name name md = Ok source -> input_type_name md = Some n ->
  is_Some (find_input_type ex.(schema) n) -> md.(mutation_arguments) = [a] -> a.(nullable) = true ->
  variable vars "input" = None -> injected name md ctx = Ok inj ->
  call_of name vars ctx ex = Ok (md, source, inj).
Proof.
  intros Hm Hf Hi [it Hit] Ha Hn Hv Hj. unfold mutation_call. rewrite Hm. cbn [mbind result_bind]. rewrite Hf. cbn [mbind result_bind]. unfold client_arguments.
  rewrite Hi, Hv, Hit. cbn [mbind option_bind]. unfold missing_input. rewrite Ha, Hn, Hj. by destruct (is_update md).
Qed.

(** *** What a run does to the response cache *)
Context {SL : StoreLaws (Z * Z) ResponseEntry S} {RO : ReadOrder order}.
Notation live c k := (CacheStore.get (ResponseCache.store c) k).

(** A response cache that calls have led to from an empty one, no response put
    under a key still stored (see [ResponseFacts.step]). *)
Definition from_empty (c : ResponseCache.Cache (S := S)) : Prop := exists config s,
  (forall k, CacheStore.get s k = None) /\ rtc (ResponseFacts.step (S := S) order) (ResponseCache.new config s) c.

(** The cache keeps exactly the responses that read none of the views. *)
Definition drops (views : list string) (ex ex' : Executor) : Prop :=
  ex'.(schema) = ex.(schema) /\
  match ex.(response_cache), ex'.(response_cache) with
  | Some c, Some c' => rtc (ResponseFacts.step (S := S) order) c c' /\ (from_empty c ->
      forall k e, live c' k = Some e <-> live c k = Some e /\ forall view, view ∈ views -> view ∉ e.(entry_views))
  | None, None => True
  | _, _ => False
  end.
Lemma drops_app a b ex ex1 ex' : drops a ex ex1 -> drops b ex1 ex' -> drops (a ++ b) ex ex'.
Proof.
  intros [H1 C1] [H2 C2]. split; [congruence|].
  destruct ex.(response_cache) as [c|], ex1.(response_cache) as [c1|], ex'.(response_cache) as [c'|]; try done.
  destruct C1 as [R1 L1], C2 as [R2 L2]. split; [by etrans|]. intros Hi k e.
  rewrite L2, L1; [set_solver|done|]. destruct Hi as (config & s & He & Hr). exists config, s. split; [done|by etrans].
Qed.
Lemma drops_none ex ex' : ex'.(schema) = ex.(schema) -> ex'.(response_cache) = ex.(response_cache) -> drops [] ex ex'.
Proof. intros Hs Hc. split; [done|]. rewrite Hc. destruct ex.(response_cache) as [c|]; [|done]. split; [done|]. set_solver. Qed.

Lemma bind_run {A C} (m : Run A) (k : A -> Run C) ex c ex' : mbind (MBind := run_bind) k m ex = (Ok c, ex') ->
  exists a ex1, m ex = (Ok a, ex1) /\ k a ex1 = (Ok c, ex').
Proof. unfold mbind, run_bind. destruct (m ex) as [[a|e] ex1]; [|done]. intros H. by exists a, ex1. Qed.

Lemma adapter_drops {A} (f : D -> result error A * D) ex a ex' : on_adapter f ex = (Ok a, ex') -> drops [] ex ex'.
Proof. unfold on_adapter. destruct (f _) as [r d]. intros [= _ <-]. by apply drops_none. Qed.
Lemma session_drops ctx ex u ex' : mutation_session json_text started_at ctx ex = (Ok u, ex') -> drops [] ex ex'.
Proof.
  unfold mutation_session. destruct ctx as [ctx|]; [|intros [= _ <-]; by apply drops_none].
  destruct ex.(session).(variables), ex.(session).(inject_started_at); try (destruct (set_session_variables _ _); [|done]);
    intros [= _ <-]; by apply drops_none.
Qed.
Lemma responses_drops views ex u ex' : invalidate_responses order views ex = (Ok u, ex') -> drops views ex ex'.
Proof.
  unfold invalidate_responses. intros [= _ <-]. split; [done|]. cbn. destruct ex.(response_cache) as [c|]; [|done]. cbn.
  split; [apply rtc_once, ResponseFacts.step_invalidate|]. intros (config & s & He & Hr) k e.
  assert (Hi : agree (CC := ResponseFacts.response_cached) c) by by apply (ResponseFacts.reachable_response_inv order config s).
  by apply ResponseFacts.live_after_views.
Qed.

Definition entity_views (s : CompiledSchema.Schema) (entity_type entity_id : option string) : list string :=
  match entity_type, entity_id with Some t, Some _ => option_list (view_of s t) | _, _ => [] end.
Definition declared_views (s : CompiledSchema.Schema) (md : MutationDefinition) (entity_id : option string) : list string :=
  match entity_id, md.(invalidates_views) with Some _, [] => [] | _, _ => touched_views s md end.
(** The views whose responses an outcome drops. *)
Definition dropped (s : CompiledSchema.Schema) (md : MutationDefinition) (o : MutationOutcome) : list string :=
  match o with
  | Success _ t id _ => entity_views s t id ++ declared_views s md id
  | Failure _ _ _ => []
  end.

Lemma entity_drops t id ex u ex' : invalidate_entity order t id ex = (Ok u, ex') -> drops (entity_views ex.(schema) t id) ex ex'.
Proof.
  unfold invalidate_entity, entity_views. destruct t as [t|], id as [id|]; try (intros [= _ <-]; by apply drops_none).
  intros (n & ex1 & Ha & H)%bind_run. apply adapter_drops in Ha. apply (drops_app [] _ _ _ _ Ha).
  apply bind_run in H as (view & ex2 & [= <- <-] & H). destruct Ha as [Hs _]. rewrite <- Hs in *. destruct (view_of _ t) as [v|].
  - by apply responses_drops in H.
  - injection H as _ <-. by apply drops_none.
Qed.
Lemma touched_drops md id ex u ex' : invalidate_touched order md id ex = (Ok u, ex') -> drops (declared_views ex.(schema) md id) ex ex'.
Proof.
  intros H. assert (Hd : id = None \/ md.(invalidates_views) <> [] \/ (exists i, id = Some i /\ md.(invalidates_views) = [])).
  { destruct id as [i|]; [|by left]. right. destruct md.(invalidates_views); [right; by exists i | by left]. }
  assert (Hv : (exists i, id = Some i /\ md.(invalidates_views) = []) \/
    declared_views ex.(schema) md id = touched_views ex.(schema) md /\
    mbind (MBind := run_bind) (fun views => match views with
      | [] => mret (MRet := run_ret) tt
      | _ => mbind (MBind := run_bind) (fun _ => invalidate_responses order views)
          (on_adapter (fun d => match id with None => invalidate_list_queries d views | Some _ => invalidate_views d views end))
      end) (read (fun ex => touched_views ex.(schema) md)) ex = (Ok u, ex')).
  { unfold invalidate_touched, declared_views in *. destruct id as [i|], md.(invalidates_views) eqn:E; try (right; split; [done|exact H]).
    left. by exists i. }
  destruct Hv as [(i & -> & E)|[-> Hr]].
  - unfold invalidate_touched, declared_views in *. rewrite E in *. injection H as _ <-. by apply drops_none.
  - clear H. apply bind_run in Hr as (views & ex1 & [= <- <-] & H). destruct (touched_views ex.(schema) md) as [|v l].
    + injection H as _ <-. by apply drops_none.
    + apply bind_run in H as (n & ex1 & Ha & H). apply adapter_drops in Ha. apply (drops_app [] _ _ _ _ Ha). by apply responses_drops in H.
Qed.
Lemma success_drops md t id ex u ex' : after_success order md t id ex = (Ok u, ex') ->
  drops (entity_views ex.(schema) t id ++ declared_views ex.(schema) md id) ex ex'.
Proof.
  unfold after_success. intros (u1 & ex1 & Hb & (u2 & ex2 & He & Ht)%bind_run)%bind_run.
  assert (Hd : drops [] ex ex1).
  { destruct md.(invalidates_fact_tables); [injection Hb as _ <-; by apply drops_none | by apply adapter_drops in Hb]. }
  apply (drops_app [] _ _ _ _ Hd). destruct Hd as [Hs _]. rewrite <- Hs. apply entity_drops in He.
  apply (drops_app _ _ _ _ _ He). destruct He as [Hs2 _]. rewrite <- Hs2. by apply touched_drops in Ht.
Qed.

(** An entity identifier without its type drops nothing, unless views are declared. *)
Lemma untyped_update_drops_nothing s md entity id cascade : md.(invalidates_views) = [] ->
  dropped s md (Success entity None (Some id) cascade) = [].
Proof. intros H. cbn. unfold declared_views. by rewrite H. Qed.

(** C14. A mutation that is answered has called its function once.  In a response
    cache that calls have led to from an empty one, no response put under a key
    still stored, a failed outcome drops nothing and a successful one exactly the
    responses that read the view of the entity or the views to refresh; and the
    cache is again one of those.  (A response put twice under one key outlives its
    invalidation: [ReplacedResponse.replaced_response_stays].) *)
Theorem mutation_drops_exactly name vars ctx selections (ex ex' : Executor) v :
  run name vars ctx selections ex = (Ok v, ex') ->
  exists md source args ex1 rows row d outcome,
    call_of name vars ctx ex = Ok (md, source, args) /\
    mutation_session json_text started_at ctx ex = (Ok tt, ex1) /\
    execute_function_call ex1.(adapter) source args = (Ok (row :: rows), d) /\
    parse_mutation_row parse_uuid de_error row = Ok outcome /\
    drops (dropped ex.(schema) md outcome) ex ex'.
Proof.
  unfold execute_mutation_query_with_security. intros (call & ex0 & [= Hc <-] & H)%bind_run. destruct call as [[md source] args].
  apply bind_run in H as ([] & ex1 & Hs & (rows & ex2 & Hf & (row & ex3 & Hr & (outcome & ex4 & Ho & H)%bind_run)%bind_run)%bind_run).
  pose proof (session_drops _ _ _ _ Hs) as D1. pose proof (adapter_drops _ _ _ _ Hf) as D2. unfold on_adapter in Hf.
  destruct (execute_function_call ex1.(adapter) source args) as [r d] eqn:Ef. injection Hf as -> Hf.
  injection Hr as Hr <-. injection Ho as Ho <-. destruct rows as [|row' rows]; [done|]. injection Hr as ->.
  exists md, source, args, ex1, rows, row, d, outcome. do 4 (split; [done|]).
  apply (drops_app [] _ _ ex1 _ D1). apply (drops_app [] _ _ ex2 _ D2).
  assert (Hsch : ex2.(schema) = ex.(schema)) by (destruct D1 as [<- _], D2 as [<- _]; done). rewrite <- Hsch.
  apply bind_run in H as (u & ex5 & Ha & (s & ex6 & [= <- <-] & (result & ex7 & [= _ <-] & [= _ <-])%bind_run)%bind_run).
  destruct outcome as [e t id c|class m md']; cbn [dropped]; [by apply success_drops in Ha|]. injection Ha as _ <-. by apply drops_none.
Qed.
End Executor.

Module MutationDemo.
Import CacheStore.Lazy ExecDemo.

(** A function that stores its first argument and answers with it. *)
Definition created (entity : json) : gmap string json :=
  {["succeeded"%string := JBool true; "state_changed"%string := JBool true; "entity"%string := entity;
    "entity_type"%string := JString "User"]}.
#[export] Instance table_mutations : MutationAdapter (list json) := {
  supports_mutations _ := true;
  execute_function_call d _ args := (Ok [created (default JNull (head args))], take 1 args ++ d);
  bump_fact_table_versions d _ := (Ok tt, d);
  invalidate_by_entity d _ _ := (Ok 0, d);
  invalidate_list_queries d _ := (Ok 0, d);
  invalidate_views d _ := (Ok 0, d)
}.
Definition create_user : MutationDefinition :=
  mkMutation "createUser" "User" [mkArg "user" FT.TJson false None; mkArg "note" FT.TString true (Some (GString "none"))]
    (Insert "tb_user") (Some "fn_create_user"%string) [("tenant_id"%string, Jwt "tenant_id")] [] [] None None None.
Definition operations : @Schema.CompiledSchema QueryDefinition MutationDefinition unit :=
  Schema.build_indexes query_name mutation_name (fun _ : unit => ""%string)
    {| Schema.queries := [users]; Schema.mutations := [create_user]; Schema.subscriptions := [];
       Schema.naming_convention := Schema.Preserve; Schema.query_index := ∅; Schema.mutation_index := ∅; Schema.subscription_index := ∅ |}.
Definition responses : ResponseCache.Cache (S := lazy) :=
  let c := ResponseCache.new {| rc_enabled := true; rc_max_entries := 10; rc_ttl_seconds := 60 |} ∅ in
  ResponseCache.put (ResponseCache.put c 1 7 wide ["v_user"%string]) 2 7 JNull ["v_post"%string].
Definition executor : @Executor DefaultRLSPolicy (list json) lazy MutationDefinition unit :=
  mkExecutor operations the_schema Planner.Project (mkSession [] false) None (Some responses) rows.
Definition new_user : json := JObject [("id"%string, JString "c")].
Definition vars : option json := Some (JObject [("user"%string, new_user)]).
Definition keep (l : list (nat * string)) : list (nat * string) := l.
Definition no_uuid (_ : string) : option string := None.
Definition no_message (_ : gmap string json) : string := "".
Notation create := (execute_mutation_query_with_security no_text keep json_text "" no_uuid no_message elements "createUser" vars
  (Some (user "t")) ∅ executor).
Definition envelope : json :=
  wrap_in_data_envelope (JObject [("__typename"%string, JString "User"); ("id"%string, JString "c")]) "createUser".

Lemma call_is_positional_witness :
  mutation_call keep "createUser" vars (Some (user "t")) executor =
    Ok (create_user, "fn_create_user"%string, [new_user; JString "none"; JString "t"]).
Proof.
  apply (call_is_positional keep "createUser" vars (Some (user "t")) executor create_user); [vm_compute; reflexivity..|].
  split.
  - constructor; [left; vm_compute; by eexists|]. constructor; [right; left; reflexivity | constructor].
  - exists [JString "t"]. split; [|reflexivity]. constructor; [|constructor]. exists (user "t"). split; reflexivity.
Defined.

(** The cache of this demonstration is one that calls lead to. *)
Lemma responses_from_empty : from_empty elements responses.
Proof.
  eexists _, ∅. split; [done|]. eapply rtc_l; [|apply rtc_once].
  - apply ResponseFacts.step_put. done.
  - apply ResponseFacts.step_put. by vm_compute.
Qed.

(** The response that reads the view of users is dropped, the other one kept. *)
Lemma mutation_drops_exactly_witness :
  create.1 = Ok envelope /\
  exists md outcome c', drops elements (dropped the_schema md outcome) executor create.2 /\ create.2.(response_cache) = Some c' /\
  (forall k e, CacheStore.get (ResponseCache.store c') k = Some e <->
     CacheStore.get (ResponseCache.store responses) k = Some e /\ forall view, view ∈ dropped the_schema md outcome -> view ∉ e.(entry_views)) /\
  CacheStore.get (ResponseCache.store c') (1, 7) = None.
Proof.
  split; [vm_compute; reflexivity|].
  destruct (mutation_drops_exactly no_text keep json_text "" no_uuid no_message elements "createUser" vars (Some (user "t")) ∅
    executor create.2 envelope) as (md & source & args & ex1 & rs & row & d & outcome & _ & _ & _ & _ & Hd).
  - vm_compute. reflexivity.
  - destruct Hd as [Hs Hd]. destruct create.2.(response_cache) as [c'|] eqn:Ec; [|vm_compute in Ec; discriminate Ec].
    exists md, outcome, c'. cbn [response_cache executor] in Hd. split; [split; [exact Hs|by rewrite Ec]|]. split; [done|].
    split; [apply (proj2 Hd), responses_from_empty|]. revert Ec. vm_compute. intros [= <-]. reflexivity.
Defined.
End MutationDemo.
