(* ===== verification/CachedAdapter.v ===== *)
(** * The cached adapter

    [cache/adapter/], [cache/invalidation_api.rs], [cache/fact_table_cache.rs]
    and [cache/fact_table_version.rs]: a database adapter with the result cache
    in front of it.  The database is an interface; the hasher, the order hash
    sets are read in, the clocks and the character table of
    [char::to_uppercase] are arguments. *)

From Stdlib Require Import Ascii.
From stdpp Require Import pretty fin_maps fin_sets.
From S2P Require Import Prelude Json WhereClause Graph Cascade Matcher CacheStore ResultCache Chars SecurityContext OrderBy CacheKey Invalidation CompiledSchema Execution Mutation.
Import QueryResultCache.
#[local] Open Scope Z_scope.

(** ** Versions of fact tables *)
Inductive FactTableVersionStrategy : Type :=
| Disabled | VersionTable | TimeBased (ttl_seconds : Z) | SchemaVersion.
Definition is_caching_enabled (s : FactTableVersionStrategy) : bool := match s with Disabled => false | _ => true end.
Definition strategy_ttl (s : FactTableVersionStrategy) : option Z := match s with TimeBased t => Some t | _ => None end.

Record FactTableCacheConfig : Type := mkFactConfig {
  default_strategy : FactTableVersionStrategy;
  table_strategies : gmap string FactTableVersionStrategy
}.
Definition default_fact_config : FactTableCacheConfig := mkFactConfig Disabled ∅.
Definition with_default (s : FactTableVersionStrategy) : FactTableCacheConfig := mkFactConfig s ∅.
Definition set_strategy (c : FactTableCacheConfig) (table : string) (s : FactTableVersionStrategy) : FactTableCacheConfig :=
  mkFactConfig c.(default_strategy) (<[table := s]> c.(table_strategies)).
Definition get_strategy (c : FactTableCacheConfig) (table : string) : FactTableVersionStrategy :=
  default c.(default_strategy) (c.(table_strategies) !! table).

(** Versions read lately; times in nanoseconds. *)
Record CachedVersion : Type := mkVersion { version : Z; fetched_at : Z }.
Notation Versions := (gmap string CachedVersion).
Definition VERSION_CACHE_TTL : Z := 10 ^ 9.
Definition is_fresh (now : Z) (v : CachedVersion) (max_age : Z) : bool := now - v.(fetched_at) <? max_age.
Definition get_cached_version (now : Z) (vs : Versions) (table : string) : option Z :=
  v ← vs !! table; if is_fresh now v VERSION_CACHE_TTL then Some v.(version) else None.
Definition set_cached_version (now : Z) (vs : Versions) (table : string) (n : Z) : Versions := <[table := mkVersion n now]> vs.
Definition clear_all (_ : Versions) : Versions := ∅.
Definition clear_cached_version (vs : Versions) (table : string) : Versions := delete table vs.

(** The part of a key that changes with the table; [None] is the panic of a
    division by a time of zero. *)
Definition generate_version_key_component (epoch_secs : Z) (s : FactTableVersionStrategy) (table_version : option Z)
    (schema_version : string) : option (option string) :=
  match s with
  | Disabled => Some None
  | VersionTable => Some ((fun v => "tv:" ++ pretty v)%string <$> table_version)
  | TimeBased ttl => if ttl =? 0 then None else Some (Some ("tb:" ++ pretty (epoch_secs / ttl))%string)
  | SchemaVersion => Some (Some ("sv:" ++ schema_version)%string)
  end.

(** The table after the first [from ] of the lower case text (of letters, the
    ASCII ones). *)
Fixpoint until_delimiter (l : list string) : list string :=
  match l with
  | [] => []
  | ch :: l => if is_whitespace ch || (ch =s ",") || (ch =s ")") then [] else ch :: until_delimiter l
  end.
Definition extract_fact_table_from_sql (sql : string) : option string :=
  '(_, after_from) ← split_once_str "from " (to_lowercase sql);
  let trimmed := skip_while is_whitespace (chars after_from) in
  if starts_with "tf_" (concat_str trimmed) then Some (concat_str (until_delimiter trimmed)) else None.

(** ** Views and entities *)
Section Names.
Context (to_uppercase_char : string -> string).
Definition upper_char (ch : string) : string :=
  match ch with String c EmptyString => String (Casing.to_upper c) EmptyString | _ => to_uppercase_char ch end.
Definition capitalise (segment : string) : string :=
  match chars segment with [] => "" | first :: rest => upper_char first ++ concat_str rest end%string.
Definition view_name_to_entity_type (view : string) : option string :=
  '(_, after_prefix) ← split_once "_" view;
  match after_prefix with EmptyString => None | _ => Some (concat_str (map capitalise (split "_" after_prefix))) end.
End Names.

(** ** The database behind the cache *)
Class Database (A : Type) : Type := {
  db_with_projection : A -> Request -> result error (list json);
  db_where_query : A -> Request -> result error (list json);
  db_raw_query : A -> string -> result error (list Row);
  db_function_call : A -> string -> list json -> result error (list Row) * A
}.

Record Settings : Type := mkSettings {
  schema_version : string;
  view_ttl_overrides : gmap string Z;
  cacheable_views : gset string;
  opt_in_mode : bool;
  fact_table_config : FactTableCacheConfig
}.
Definition new_settings (schema_version : string) : Settings := mkSettings schema_version ∅ ∅ false default_fact_config.
Definition with_view_ttl_overrides (s : Settings) (overrides : gmap string Z) : Settings :=
  mkSettings s.(schema_version) overrides (dom overrides) true s.(fact_table_config).
Definition with_fact_table_config (schema_version : string) (c : FactTableCacheConfig) : Settings :=
  mkSettings schema_version ∅ ∅ false c.
Definition add_annotated (s : Settings) (q : QueryDefinition) : Settings :=
  match q.(sql_source), q.(CompiledSchema.cache_ttl_seconds) with
  | Some view, Some ttl =>
      mkSettings s.(schema_version) (<[view := ttl]> s.(view_ttl_overrides)) ({[view]} ∪ s.(cacheable_views))
        s.(opt_in_mode) s.(fact_table_config)
  | _, _ => s
  end.
Definition with_ttl_overrides_from_schema (s : Settings) (queries : list QueryDefinition) : Settings :=
  let s := foldl add_annotated s queries in
  mkSettings s.(schema_version) s.(view_ttl_overrides) s.(cacheable_views) true s.(fact_table_config).

(** [serde_json::to_value] and [from_value] of a row. *)
Definition row_to_json (row : Row) : json := JObject (foldr (fun kv l => map_insert kv.1 kv.2 l) [] (map_to_list row)).
Definition row_of_json (v : json) : option Row := match v with JObject fields => Some (list_to_map fields) | _ => None end.

(** ** [CachedDatabaseAdapter] *)
Section Adapter.
Context {A S : Type} {DB : Database A} {ST : Store Z CachedResult S}.
Context (entry_overhead : Z) (json_bytes : list json -> option Z) (order : gset Z -> list Z) (iter : gset string -> list string).
Context (number_text : json_number -> string) (debug_operator : ExtendedOperator -> string) (debug_clause : WhereClause -> string).
Context (finish : list write -> Z) (to_uppercase_char debug_str : string -> string).
Context (config : CacheConfig) (settings : Settings).
Notation Cache := (@QueryResultCache.Cache S).

Record Cached : Type := mkCached {
  adapter : A;
  cache : Cache;
  versions : Versions;
  cascade_invalidator : option CascadeInvalidator
}.
Definition with_cache (c : Cached) (cache : Cache) : Cached := mkCached c.(adapter) cache c.(versions) c.(cascade_invalidator).
Definition with_versions (c : Cached) (v : Versions) : Cached := mkCached c.(adapter) c.(cache) v c.(cascade_invalidator).
Definition with_inner (c : Cached) (a : A) : Cached := mkCached a c.(cache) c.(versions) c.(cascade_invalidator).
Definition new (a : A) (cache : Cache) : Cached := mkCached a cache ∅ None.
Definition with_cascade_invalidator (c : Cached) (i : CascadeInvalidator) : Cached :=
  mkCached c.(adapter) c.(cache) c.(versions) (Some i).

(** *** Reads *)
Definition bypassed (view : string) : bool :=
  negb config.(enabled) || (settings.(opt_in_mode) && negb (bool_decide (view ∈ settings.(cacheable_views)))).

(** A lookup, and on a miss the query, whose rows are stored under the view. *)
Definition read_through (now : Z) (c : Cached) (key : Z) (view : string) (query : A -> result error (list json)) :
    result error (list json) * Cached :=
  match get config c.(cache) key with
  | (Some rows, cache') => (Ok rows, with_cache c cache')
  | (None, cache') =>
      let c := with_cache c cache' in
      match query c.(adapter) with
      | Ok rows =>
          (Ok rows, with_cache c (put_arc entry_overhead json_bytes config now c.(cache) key rows [view]
             (settings.(view_ttl_overrides) !! view) (view_name_to_entity_type to_uppercase_char view)))
      | Err e => (Err e, c)
      end
  end.

Definition projection_key (r : Request) : Z :=
  generate_projection_query_key number_text debug_operator debug_clause finish r.(view) r.(hint) r.(where_clause) r.(limit)
    r.(offset) r.(Execution.order_by) settings.(schema_version).
Definition view_key (r : Request) : Z :=
  generate_view_query_key number_text debug_operator debug_clause finish r.(view) r.(where_clause) r.(limit)
    r.(offset) r.(Execution.order_by) settings.(schema_version).

Definition execute_with_projection (now : Z) (c : Cached) (r : Request) : result error (list json) * Cached :=
  if bypassed r.(view) then (db_with_projection c.(adapter) r, c)
  else read_through now c (projection_key r) r.(view) (fun a => db_with_projection a r).
Definition execute_where_query (now : Z) (c : Cached) (r : Request) : result error (list json) * Cached :=
  if bypassed r.(view) then (db_where_query c.(adapter) r, c)
  else read_through now c (view_key r) r.(view) (fun a => db_where_query a r).

(** *** Aggregates over fact tables *)
Definition aggregation_key_input (sql version_component : string) : list write :=
  [WriteU8 65; Write sql; Write settings.(schema_version); WriteU8 1; Write version_component].
Definition double_quotes (s : string) : string := join "''" (split "'" s).
Definition version_sql (table : string) : string :=
  "SELECT version FROM tf_versions WHERE table_name = '" ++ double_quotes table ++ "'".
Definition fetch_table_version (now : Z) (c : Cached) (table : string) : option Z * Cached :=
  match get_cached_version now c.(versions) table with
  | Some v => (Some v, c)
  | None =>
      match db_raw_query c.(adapter) (version_sql table) with
      | Ok (row :: _) =>
          match row !! "version"%string ≫= as_i64 with
          | Some v => (Some v, with_versions c (set_cached_version now c.(versions) table v))
          | None => (None, c)
          end
      | _ => (None, c)
      end
  end.
(** The first [None] is a panic. *)
Definition execute_aggregation_query (now epoch_secs : Z) (c : Cached) (sql : string) :
    option (result error (list Row)) * Cached :=
  let uncached := Some (db_raw_query c.(adapter) sql) in
  match extract_fact_table_from_sql sql with
  | None => (uncached, c)
  | Some table =>
      let strategy := get_strategy settings.(fact_table_config) table in
      if negb (is_caching_enabled strategy) then (uncached, c)
      else
        let '(table_version, c) := match strategy with VersionTable => fetch_table_version now c table | _ => (None, c) end in
        match generate_version_key_component epoch_secs strategy table_version settings.(schema_version) with
        | None => (None, c)
        | Some None => (uncached, c)
        | Some (Some component) =>
            let key := finish (aggregation_key_input sql component) in
            match get config c.(cache) key with
            | (Some cached, cache') => (Some (Ok (omap row_of_json cached)), with_cache c cache')
            | (None, cache') =>
                let c := with_cache c cache' in
                match db_raw_query c.(adapter) sql with
                | Ok rows =>
                    (Some (Ok rows), with_cache c (put_arc entry_overhead json_bytes config now c.(cache) key (map row_to_json rows)
                       [table] None None))
                | Err e => (Some (Err e), c)
                end
            end
        end
  end.

(** *** Writes and invalidation *)
(** The trait's default is inherited: the variables do not reach the database. *)
Definition set_session_variables (c : Cached) (variables : list (string * string)) : result error unit * Cached := (Ok tt, c).
Definition execute_function_call (c : Cached) (name : string) (args : list json) : result error (list Row) * Cached :=
  let '(r, a) := db_function_call c.(adapter) name args in (r, with_inner c a).

Fixpoint cascade_all (i : CascadeInvalidator) (views : list string) : gset string * CascadeInvalidator :=
  match views with
  | [] => (∅, i)
  | view :: views =>
      let '(r, i) := cascade_invalidate iter view i in
      let '(rest, i) := cascade_all i views in
      (match r with Ok s => s | Err _ => ∅ end ∪ rest, i)
  end.
(** The views with all that depends on them. *)
Definition expand (c : Cached) (views : list string) : list string * Cached :=
  match c.(cascade_invalidator) with
  | Some i =>
      let '(reached, i) := cascade_all i views in
      (iter (list_to_set views ∪ reached), mkCached c.(adapter) c.(cache) c.(versions) (Some i))
  | None => (views, c)
  end.
Definition invalidate_with (f : Cache -> list string -> Z * Cache) (c : Cached) (views : list string) : Z * Cached :=
  if config.(enabled) then
    let '(views, c) := expand c views in
    let '(n, cache') := f c.(cache) views in (n, with_cache c cache')
  else (0, c).
Definition invalidate_views : Cached -> list string -> Z * Cached :=
  invalidate_with (QueryResultCache.invalidate_views entry_overhead order config).
Definition invalidate_list_queries : Cached -> list string -> Z * Cached :=
  invalidate_with (QueryResultCache.invalidate_list_queries entry_overhead order config).
Definition invalidate_by_entity (c : Cached) (entity_type entity_id : string) : Z * Cached :=
  let '(n, cache') := QueryResultCache.invalidate_by_entity entry_overhead order config c.(cache) entity_type entity_id in
  (n, with_cache c cache').
Definition invalidate_cascade_entities (c : Cached) (cascade_response : json) : result error Z * Cached :=
  match CascadeResponse.parse_cascade_response debug_str cascade_response with
  | Err e => (Err e, c)
  | Ok entities =>
      if negb (CascadeResponse.has_changes entities) then (Ok 0, c)
      else
        let views : gset string := list_to_set (map (fun e => "v_" ++ to_lowercase e.(EntityKey.entity_type))%string
          (CascadeResponse.all_affected entities)) in
        let '(n, cache') := QueryResultCache.invalidate_views entry_overhead order config c.(cache) (iter views) in
        (Ok n, with_cache c cache')
  end.

(** [values().find_map(as_i64)]. *)
Definition first_integer (row : Row) : option Z := head (omap (fun kv => as_i64 kv.2) (map_to_list row)).
Fixpoint bump_fact_table_versions (now : Z) (c : Cached) (tables : list string) : result error unit * Cached :=
  match tables with
  | [] => (Ok tt, c)
  | table :: tables =>
      match get_strategy settings.(fact_table_config) table with
      | VersionTable =>
          let '(r, c) := execute_function_call c "bump_tf_version" [JString table] in
          match r with
          | Err e => (Err e, c)
          | Ok rows =>
              let c := match head rows ≫= first_integer with
                       | Some v => with_versions c (set_cached_version now c.(versions) table v) | None => c end in
              bump_fact_table_versions now c tables
          end
      | _ => bump_fact_table_versions now c tables
      end
  end.

(** *** The check of row-level security *)
Definition quoted (s : string) : string := let q := String (ascii_of_nat 34) EmptyString in q ++ s ++ q.
Definition rls_inactive : error := Configuration
  ("Caching is enabled in a multi-tenant schema but Row-Level Security does not appear to be active on the database. " ++
   "This would allow cross-tenant data leakage through the cache. Either disable caching, enable RLS, or set " ++
   "`rls_enforcement = " ++ quoted "off" ++ "` in CacheConfig for single-tenant deployments.").
Definition validate_rls_active (a : A) : result error unit :=
  match db_raw_query a "SELECT current_setting('row_security', true) AS rls_setting" with
  | Ok (row :: _) =>
      match row !! "rls_setting"%string with
      | Some (JString s) => if (s =s "on") || (s =s "force") then Ok tt else Err rls_inactive
      | _ => Err rls_inactive
      end
  | _ => Err rls_inactive
  end.
Definition enforce_rls (a : A) (enforcement : RlsEnforcement) : result error unit :=
  match enforcement with
  | RlsOff => Ok tt
  | RlsError => validate_rls_active a
  | RlsWarn => Ok tt
  end.
End Adapter.
Arguments Cached A S : clear implicits.

(** * A cached adapter answers as its database does *)

Import QueryResultCache CacheFacts.

Section Coherence.
Context {A S : Type} {DB : Database A} {ST : Store Z CachedResult S} {SL : StoreLaws Z CachedResult S}.
Context (overhead : Z) (json_bytes : list json -> option Z) (order : gset Z -> list Z) `{!ReadOrder order}.
Context (iter : gset string -> list string) (iter_order : IterOrder iter).
Context (number_text : json_number -> string) (debug_operator : ExtendedOperator -> string) (debug_clause : WhereClause -> string).
Context (finish : list write -> Z) (upper : string -> string) (config : CacheConfig) (settings : Settings).
Notation Cached := (CachedAdapter.Cached A S).
Notation projection_key := (projection_key number_text debug_operator debug_clause finish settings).
Notation view_key := (view_key number_text debug_operator debug_clause finish settings).
Notation execute_with_projection := (execute_with_projection overhead json_bytes number_text debug_operator debug_clause finish
  upper config settings).
Notation execute_where_query := (execute_where_query overhead json_bytes number_text debug_operator debug_clause finish
  upper config settings).
Notation invalidate_views := (CachedAdapter.invalidate_views overhead order iter config).
Notation agreed c := (agree (CC := cached_store overhead) c.(cache)).

(** ** Calls and what they answer *)
Inductive op : Type :=
| Project (now : Z) (r : Request)
| Where (now : Z) (r : Request)
| Write (name : string) (args : list json) (views : list string)
| Tick.
(** A write is followed at once by the invalidation of its views. *)
Definition run_op (c : Cached) (o : op) : option (result error (list json)) * Cached :=
  match o with
  | Project now r => let '(rows, c) := execute_with_projection now c r in (Some rows, c)
  | Where now r => let '(rows, c) := execute_where_query now c r in (Some rows, c)
  | Write name args views => (None, (invalidate_views (execute_function_call c name args).2 views).2)
  | Tick => (None, with_cache c (tick overhead c.(cache)))
  end.
Definition plain_op (a : A) (o : op) : option (result error (list json)) * A :=
  match o with
  | Project _ r => (Some (db_with_projection a r), a)
  | Where _ r => (Some (db_where_query a r), a)
  | Write name args _ => (None, (db_function_call a name args).2)
  | Tick => (None, a)
  end.
Fixpoint run_all {C} (step : C -> op -> option (result error (list json)) * C) (c : C) (ops : list op) :
    list (option (result error (list json))) :=
  match ops with [] => [] | o :: ops => let '(r, c) := step c o in r :: run_all step c ops end.

(** ** What is asked of the environment *)

(** The requests in use; no two of them that the database tells apart share a key. *)
Context (used : Request -> Prop).
Record no_collision : Prop := {
  projection_keys r r' : used r -> used r' -> projection_key r = projection_key r' ->
    r.(view) = r'.(view) /\ forall a, db_with_projection a r = db_with_projection a r';
  view_keys r r' : used r -> used r' -> view_key r = view_key r' ->
    r.(view) = r'.(view) /\ forall a, db_where_query a r = db_where_query a r';
  keys_apart r r' : used r -> used r' -> projection_key r <> view_key r'
}.

(** The views an invalidation reaches. *)
Definition touched (i : option CascadeInvalidator) (views : list string) (view : string) : Prop :=
  view ∈ views \/ exists i' v, i = Some i' /\ v ∈ views /\ view ∈ reached iter i' v.
(** A write changes only what is read from the views it names and those that depend on them. *)
Definition declared (i : option CascadeInvalidator) (o : op) : Prop :=
  match o with
  | Project _ r | Where _ r => used r
  | Write name args views => forall a r, used r -> ~ touched i views r.(view) ->
      db_with_projection (db_function_call a name args).2 r = db_with_projection a r /\
      db_where_query (db_function_call a name args).2 r = db_where_query a r
  | Tick => True
  end.
(** A read that misses finds no entry still waiting to be dropped. *)
Definition fresh (c : Cached) (o : op) : Prop :=
  let at_key k := CacheStore.get c.(cache).(store) k = None -> stored c.(cache).(store) !! k = None in
  match o with Project _ r => at_key (projection_key r) | Where _ r => at_key (view_key r) | _ => True end.
Fixpoint all_fresh (c : Cached) (ops : list op) : Prop :=
  match ops with [] => True | o :: ops => fresh c o /\ all_fresh (run_op c o).2 ops end.

(** ** The invariant *)
Definition answers_for (a : A) (key : Z) (v : CachedResult) : Prop :=
  (forall r, used r -> projection_key r = key -> r.(view) ∈ v.(accessed_views) /\ db_with_projection a r = Ok v.(result_rows)) /\
  (forall r, used r -> view_key r = key -> r.(view) ∈ v.(accessed_views) /\ db_where_query a r = Ok v.(result_rows)).
Definition coherent (c : Cached) : Prop :=
  agreed c /\ forall key v, CacheStore.get c.(cache).(store) key = Some v -> answers_for c.(adapter) key v.

Context (NC : no_collision) (Hen : config.(enabled) = true).

Lemma get_cache (c : Cached) key : exists rows cache', get config c.(cache) key = (rows, cache') /\
  cache'.(store) = c.(cache).(store) /\ (agreed c -> agree (CC := cached_store overhead) cache') /\
  rows = result_rows <$> CacheStore.get c.(cache).(store) key.
Proof.
  destruct (get config c.(cache) key) as [rows cache'] eqn:E. exists rows, cache'. split; [done|].
  pose proof (cache_step_inv overhead json_bytes order config _ _ (step_get overhead json_bytes order config c.(cache) key)) as Hinv.
  rewrite E in Hinv. unfold get in E. rewrite Hen in E.
  destruct (CacheStore.get c.(cache).(store) key) eqn:Eg; injection E as <- <-; (split; [done|]; split; [exact Hinv | done]).
Qed.

Lemma put_get now (c : @Cache S) key rows view ttl et k v :
  CacheStore.get (put_arc overhead json_bytes config now c key rows [view] ttl et).(store) k = Some v ->
  (k = key /\ v.(result_rows) = rows /\ v.(accessed_views) = [view]) \/ CacheStore.get c.(store) k = Some v.
Proof.
  unfold put_arc. repeat (case_bool; [by right|]). cbn. rewrite told_store.
  intros [[-> ->]|[_ ?]]%insert_get; [by left | by right].
Qed.

(** Both kinds of reads at once. *)
Lemma read_through_coherent (c : Cached) now key view query :
  coherent c ->
  (CacheStore.get c.(cache).(store) key = None -> stored c.(cache).(store) !! key = None) ->
  (forall v, answers_for c.(adapter) key v -> query c.(adapter) = Ok v.(result_rows)) ->
  (forall v, query c.(adapter) = Ok v.(result_rows) -> v.(accessed_views) = [view] -> answers_for c.(adapter) key v) ->
  let r := read_through overhead json_bytes upper config settings now c key view query in
  r.1 = query c.(adapter) /\ r.2.(adapter) = c.(adapter) /\ r.2.(cascade_invalidator) = c.(cascade_invalidator) /\ coherent r.2.
Proof.
  intros [Ha Hc] Hf Hread Hmade. unfold read_through. destruct (get_cache c key) as (rows & cache' & -> & Hs & Hi & ->).
  destruct (CacheStore.get c.(cache).(store) key) as [v|] eqn:Eg; cbn [fmap option_fmap option_map].
  - cbn. split; [symmetry; by apply Hread, Hc|]. do 2 (split; [done|]). split; [by apply Hi|]. cbn. rewrite Hs. exact Hc.
  - change (adapter (with_cache c cache')) with c.(adapter). destruct (query c.(adapter)) as [rows|e] eqn:Eq; cbn.
    + do 3 (split; [done|]). split.
      * apply (put_inv overhead json_bytes config); [rewrite Hs; by apply Hf | by apply Hi].
      * cbn. intros k v [(-> & Hr & Hv)|Hold]%put_get; [|apply Hc; by rewrite <- Hs].
        apply Hmade; [congruence | done].
    + do 3 (split; [done|]). split; [by apply Hi|]. cbn. rewrite Hs. exact Hc.
Qed.

Lemma projection_coherent now (c : Cached) r : used r -> fresh c (Project now r) -> coherent c ->
  let x := execute_with_projection now c r in
  x.1 = db_with_projection c.(adapter) r /\ x.2.(adapter) = c.(adapter) /\
  x.2.(cascade_invalidator) = c.(cascade_invalidator) /\ coherent x.2.
Proof.
  intros Hu Hf Hc. unfold CachedAdapter.execute_with_projection. destruct (bypassed _ _ _); [done|].
  apply read_through_coherent; [done | done | intros v [Hp _]; by apply (Hp r Hu eq_refl)|].
  intros v Hq Hv. split; intros r' Hu' Hk.
  - destruct (projection_keys NC r' r Hu' Hu Hk) as [-> Ha]. rewrite Ha, Hv. split; [set_solver | done].
  - exfalso. exact (keys_apart NC r r' Hu Hu' (eq_sym Hk)).
Qed.
Lemma where_coherent now (c : Cached) r : used r -> fresh c (Where now r) -> coherent c ->
  let x := execute_where_query now c r in
  x.1 = db_where_query c.(adapter) r /\ x.2.(adapter) = c.(adapter) /\
  x.2.(cascade_invalidator) = c.(cascade_invalidator) /\ coherent x.2.
Proof.
  intros Hu Hf Hc. unfold CachedAdapter.execute_where_query. destruct (bypassed _ _ _); [done|].
  apply read_through_coherent; [done | done | intros v [_ Hw]; by apply (Hw r Hu eq_refl)|].
  intros v Hq Hv. split; intros r' Hu' Hk.
  - exfalso. exact (keys_apart NC r' r Hu' Hu Hk).
  - destruct (view_keys NC r' r Hu' Hu Hk) as [-> Ha]. rewrite Ha, Hv. split; [set_solver | done].
Qed.

(** ** Invalidation *)
Definition same_graph (i i' : option CascadeInvalidator) : Prop := dependents <$> i = dependents <$> i'.
Lemma same_graph_touched i i' views view : same_graph i i' -> touched i views view -> touched i' views view.
Proof.
  intros Hg [Hv|(i1 & v & -> & Hv & Hr)]; [by left | right].
  unfold same_graph in Hg. destruct i' as [i2|]; [|done]. cbn in Hg. injection Hg as Hg. exists i2, v. do 2 (split; [done|]).
  unfold reached in *. by rewrite <- Hg.
Qed.

Lemma cascade_all_reached i views : let '(s, i') := cascade_all iter i views in
  same_graph (Some i') (Some i) /\ forall view, view ∈ s <-> exists v, v ∈ views /\ view ∈ reached iter i v.
Proof.
  revert i. induction views as [|v views IH]; intros i; cbn [cascade_all].
  - split; [done|]. intros view. split; [set_solver|]. intros (v & Hv & _). set_solver.
  - cbn [cascade_invalidate]. set (i1 := mkInvalidator _ _ _). specialize (IH i1). destruct (cascade_all iter i1 views) as [s i'].
    destruct IH as [Hg Hs]. split; [exact Hg|]. intros view. rewrite elem_of_union, Hs.
    assert (Hr : forall w, reached iter i1 w = reached iter i w) by done. setoid_rewrite Hr. set_solver.
Qed.

Lemma expand_touched (c : Cached) views : let '(l, c') := expand iter c views in
  c'.(adapter) = c.(adapter) /\ c'.(cache) = c.(cache) /\ same_graph c'.(cascade_invalidator) c.(cascade_invalidator) /\
  forall view, view ∈ l <-> touched c.(cascade_invalidator) views view.
Proof.
  unfold expand, touched. destruct c.(cascade_invalidator) as [i|] eqn:Ei.
  - pose proof (cascade_all_reached i views) as H. destruct (cascade_all iter i views) as [s i']. destruct H as [Hg Hs].
    cbn. do 3 (split; [done|]). intros view. rewrite (elem_of_iter iter iter_order), elem_of_union, elem_of_list_to_set, Hs. naive_solver.
  - do 2 (split; [done|]). split; [by rewrite Ei|]. naive_solver.
Qed.

Lemma write_coherent (c : Cached) name args views : declared c.(cascade_invalidator) (Write name args views) -> coherent c ->
  let c' := (invalidate_views (execute_function_call c name args).2 views).2 in
  c'.(adapter) = (db_function_call c.(adapter) name args).2 /\
  same_graph c'.(cascade_invalidator) c.(cascade_invalidator) /\ coherent c'.
Proof.
  intros Hd [Ha Hc]. unfold CachedAdapter.invalidate_views, invalidate_with, execute_function_call. rewrite Hen.
  destruct (db_function_call c.(adapter) name args) as [r a'] eqn:Ew. cbn [snd].
  pose proof (expand_touched (with_inner c a') views) as He. destruct (expand iter (with_inner c a') views) as [l c1].
  destruct He as (Hadapter & Hcache & Hg & Hl). destruct (QueryResultCache.invalidate_views _ _ _ _ _) as [n cache'] eqn:Ei.
  cbn. split; [done|]. split; [exact Hg|]. rewrite Hcache in Ei. cbn in Ei.
  pose proof (cache_step_inv overhead json_bytes order config _ _ (step_views overhead json_bytes order config c.(cache) l) Ha) as Hinv.
  assert (Hget : forall k v, CacheStore.get cache'.(store) k = Some v ->
    CacheStore.get c.(cache).(store) k = Some v /\ forall view, view ∈ l -> view ∉ v.(accessed_views)).
  { intros k v Hk. unfold QueryResultCache.invalidate_views in Ei. rewrite Hen in Ei.
    pose proof (invalidates_tags overhead order c.(cache) (keys_of c.(cache).(view_index) l)
      (fun t => exists view, t = ByView view /\ view ∈ l) Ha) as Hx.
    rewrite Ei in Hx. apply Hx in Hk as [Hk Ht]; [|intros key; rewrite elem_of_keys_of; cbn; naive_solver].
    split; [done|]. intros view Hv. apply (Ht (ByView view)). eauto. }
  split; [by rewrite Ei in Hinv|]. cbn. intros key v [Hk Hv]%Hget. destruct (Hc key v Hk) as [Hp Hw].
  rewrite Hadapter. cbn. cbn in Hd. split; intros r' Hu Hkey.
  - destruct (Hp r' Hu Hkey) as [Hin Hr]. split; [done|]. rewrite <- Hr.
    specialize (Hd c.(adapter) r' Hu). rewrite Ew in Hd. apply Hd. intros Ht%(proj2 (Hl _)). by apply (Hv _ Ht).
  - destruct (Hw r' Hu Hkey) as [Hin Hr]. split; [done|]. rewrite <- Hr.
    specialize (Hd c.(adapter) r' Hu). rewrite Ew in Hd. apply Hd. intros Ht%(proj2 (Hl _)). by apply (Hv _ Ht).
Qed.

Lemma declared_same i i' o : same_graph i i' -> declared i o -> declared i' o.
Proof.
  intros Hg. destruct o as [| |name args views|]; try done. intros H a r Hu Ht. apply H; [done|].
  intros Hv. apply Ht. by apply (same_graph_touched i).
Qed.

Lemma op_coherent (c : Cached) o : declared c.(cascade_invalidator) o -> fresh c o -> coherent c ->
  (run_op c o).1 = (plain_op c.(adapter) o).1 /\ (run_op c o).2.(adapter) = (plain_op c.(adapter) o).2 /\
  same_graph (run_op c o).2.(cascade_invalidator) c.(cascade_invalidator) /\ coherent (run_op c o).2.
Proof.
  intros Hd Hf Hc. destruct o as [now r|now r|name args views|]; cbn [run_op plain_op fst snd].
  - destruct (projection_coherent now c r Hd Hf Hc) as (H1 & H2 & H3 & H4).
    destruct (execute_with_projection now c r) as [rows c']. cbn in *. unfold same_graph. by rewrite H1, H2, H3.
  - destruct (where_coherent now c r Hd Hf Hc) as (H1 & H2 & H3 & H4).
    destruct (execute_where_query now c r) as [rows c']. cbn in *. unfold same_graph. by rewrite H1, H2, H3.
  - destruct (write_coherent c name args views Hd Hc) as (H1 & H2 & H3). done.
  - do 3 (split; [done|]). destruct Hc as [Ha Hc]. split.
    + exact (cache_step_inv overhead json_bytes order config _ _ (step_tick overhead json_bytes order config c.(cache)) Ha).
    + cbn. intros key v Hk. apply Hc. unfold tick in Hk. rewrite told_store in Hk. by apply pending_get.
Qed.

(** C13. The cached adapter implements the database: from an empty cache, any
    sequence of reads and writes gets the answers the database itself would
    give, whatever the store evicts or expires, when each write names the views
    it changes or views these depend on, no two requests share a hash, and no
    read misses an entry that is still to be dropped. *)
Theorem cached_adapter_coherent a (s : S) i ops : (forall k, CacheStore.get s k = None) ->
  let c := mkCached a (empty s) ∅ i in
  Forall (declared i) ops -> all_fresh c ops -> run_all run_op c ops = run_all plain_op a ops.
Proof.
  intros He c Hd Hf. assert (Hc : coherent c).
  { split; [by apply (empty_inv overhead order)|]. intros key v Hk. cbn in Hk. by rewrite He in Hk. }
  assert (Hg : same_graph c.(cascade_invalidator) i) by done.
  change (run_all plain_op a ops) with (run_all plain_op c.(adapter) ops). clearbody c. clear He.
  revert c Hc Hg Hf. induction Hd as [|o ops Ho Hops IH]; intros c Hc Hg Hf; cbn [run_all]; [done|]. destruct Hf as [Hfo Hf].
  destruct (op_coherent c o) as (H1 & H2 & H3 & H4); [by apply (declared_same i) | done | done |].
  destruct (run_op c o) as [r c'], (plain_op c.(adapter) o) as [r' a']. cbn in *. subst. f_equal. apply IH; [done| |done].
  unfold same_graph in *. by rewrite H3.
Qed.
End Coherence.

(** ** Examples *)
Module CachedDemo.
Import Lazy.
Notation lazy := (gmap Z (CachedResult * bool)).

(** A database of users, and a view that counts them. *)
Definition user_row (n : nat) : json := JObject [("id"%string, JNumber (PosInt (Z.of_nat n)))].
Definition rows_of (n : nat) (view : string) : list json :=
  if (view =s "v_user")%string then map user_row (seq 0 n) else [user_row n].
#[export] Instance counting : Database nat := {
  db_with_projection n r := Ok (rows_of n r.(view));
  db_where_query n r := Ok (rows_of n r.(view));
  db_raw_query _ _ := Ok [];
  db_function_call n _ _ := (Ok [], Datatypes.S n)
}.
Definition request (view : string) : Request := mkRequest view None None None None None.
Definition users : Request := request "v_user".
Definition stats : Request := request "v_stats".
Definition used (r : Request) : Prop := r = users \/ r = stats.

Definition no_number (_ : json_number) : string := "".
Definition no_operator (_ : ExtendedOperator) : string := "".
Definition no_clause (_ : WhereClause) : string := "".
Definition same_char (s : string) : string := s.
(** A hash that weighs the characters written by their place. *)
Definition weigh (acc : Z) (w : write) : Z :=
  match w with
  | CacheKey.Write s => foldl (fun acc c => (acc * 31 + Z.of_nat (Ascii.nat_of_ascii c)) `mod` 1000003) acc (String.list_ascii_of_string s)
  | WriteU8 n | WriteUsize n | WriteU32 n => (acc * 31 + n) `mod` 1000003
  | _ => acc
  end.
Definition hash (l : list write) : Z := foldl weigh 7 l.
Definition settings : Settings := new_settings "v1".
Definition cascade : CascadeInvalidator := (add_dependency elements "v_stats" "v_user" Cascade.new).2.
Definition ops : list op :=
  [Project 0 users; Project 1 stats; Write "add_user" [] ["v_user"%string]; Project 2 users; Project 3 stats; Tick; Where 4 users].
Notation pkey := (projection_key no_number no_operator no_clause hash settings).
Notation vkey := (view_key no_number no_operator no_clause hash settings).
Notation run := (run_op (S := lazy) 128 (fun _ => Some 10) elements elements no_number no_operator no_clause hash same_char config_enabled settings).
Definition start : CachedAdapter.Cached nat lazy := mkCached 2%nat (empty ∅) ∅ (Some cascade).

(** The four keys of the two requests differ. *)
Lemma keys_differ : [pkey users; pkey stats; vkey users; vkey stats] = [835257; 606118; 771041; 866762].
Proof. vm_compute. reflexivity. Qed.
Lemma distinct_keys (p q : Request -> Z) : [p users; p stats; q users; q stats] = [835257; 606118; 771041; 866762] ->
  forall r r', used r -> used r' -> (p r = p r' -> r = r') /\ (q r = q r' -> r = r') /\ p r <> q r'.
Proof.
  intros [= H1 H2 H3 H4] r r' [->| ->] [->| ->]; rewrite ?H1, ?H2, ?H3, ?H4; (split; [|split]); first [reflexivity | discriminate].
Qed.
Lemma collision_free : no_collision no_number no_operator no_clause hash settings used.
Proof.
  split; intros r r' Hr Hr'.
  - intros ->%(distinct_keys pkey vkey keys_differ r r' Hr Hr'). split; reflexivity.
  - intros ->%(distinct_keys pkey vkey keys_differ r r' Hr Hr'). split; reflexivity.
  - apply (distinct_keys pkey vkey keys_differ r r' Hr Hr').
Qed.

Lemma cached_adapter_coherent_witness : run_all run start ops = run_all plain_op 2%nat ops.
Proof.
  apply (cached_adapter_coherent 128 (fun _ => Some 10) elements elements elements_order no_number no_operator no_clause hash same_char
    config_enabled settings used collision_free eq_refl 2%nat ∅ (Some cascade) ops).
  - intros k. reflexivity.
  - repeat apply Forall_cons_2; [by left | by right | | by left | by right | done | by left | apply Forall_nil_2].
    intros a r [->| ->] Ht; exfalso; apply Ht; unfold touched; [left; apply list_elem_of_singleton; reflexivity|].
    right. exists cascade, "v_user"%string. split; [reflexivity|]. split; [apply list_elem_of_singleton; reflexivity|].
    apply (bool_decide_unpack _). vm_compute. exact I.
  - vm_compute. repeat split; intros H; first [reflexivity | discriminate H].
Defined.

(** A read and a write at the same time: the rows read before the write are
    stored after its invalidation, and served from then on. *)
Definition stale_rows : list json := rows_of 2 "v_user".
Definition after_write : CachedAdapter.Cached nat lazy := (run start (Write "add_user" [] ["v_user"%string])).2.
Definition after_late_put : CachedAdapter.Cached nat lazy :=
  with_cache after_write (put_arc 128 (fun _ => Some 10) config_enabled 0 after_write.(cache) (pkey users) stale_rows ["v_user"%string] None
    (Some "User"%string)).
Example late_put_is_stale :
  (run after_late_put (Project 1 users)).1 = Some (Ok stale_rows) /\ stale_rows <> rows_of after_late_put.(adapter) "v_user".
Proof. split; [vm_compute; reflexivity | vm_compute; discriminate]. Qed.

(** Only the first table of a query is tracked. *)
Example joined_table_untracked :
  extract_fact_table_from_sql "SELECT sum(a) FROM tf_sales JOIN tf_returns USING (id)" = Some "tf_sales"%string.
Proof. vm_compute. reflexivity. Qed.
(** The name is read in lower case: a strategy for another spelling is not found. *)
Example table_name_lowered :
  get_strategy (set_strategy default_fact_config "tf_Sales" VersionTable)
    (default ""%string (extract_fact_table_from_sql "SELECT 1 FROM tf_Sales")) = Disabled.
Proof. vm_compute. reflexivity. Qed.
(** A time of zero seconds divides by zero. *)
Example zero_seconds_panics : generate_version_key_component 5 (TimeBased 0) None "v1" = None.
Proof. reflexivity. Qed.
Example entity_types :
  map (view_name_to_entity_type same_char) ["v_user"; "v_order_item"; "users"; "v_"]%string =
    [Some "User"; Some "OrderItem"; None; None]%string.
Proof. vm_compute. reflexivity. Qed.
End CachedDemo.
