(* ===== verification/RestWrites.v ===== *)
(** * REST writes

    [fraiseql-server/src/routes/rest/handler.rs] (POST, PUT, PATCH, DELETE) and
    [bulk.rs].  A handler runs over the executor and the idempotency store.
    [execute] runs GraphQL text ([Executor::execute] and
    [execute_with_security]); the hasher and the JSON reader and printer are
    arguments, as are the times of the check and of the store. *)

From Stdlib Require Import Ascii.
From stdpp Require Import pretty.
From S2P Require Import Prelude Json WhereClause GraphQL Matcher CacheStore Chars SecurityContext ResponseCache CompiledSchema.
From S2P Require Import RowSecurity Execution Mutation RestParams RestResource RestHttp RestEmbedding RestHandler Idempotency.
Import Matching.
#[local] Open Scope Z_scope.

(** ** Bodies *)
Definition coerce_path_param_value (value : string) : json :=
  match parse_i64 value with
  | Some n => JNumber (if n <? 0 then NegInt n else PosInt n)
  | None => if value =s "true" then JBool true else if value =s "false" then JBool false else JString value
  end.
Definition path_variables (path_params : list (string * string)) : list (string * json) :=
  foldl (fun m kv => map_insert kv.1 (coerce_path_param_value kv.2) m) [] path_params.
(** The fields of the body come after, and over, those of the path. *)
Definition build_mutation_variables (path_params : list (string * string)) (body : json) : list (string * json) :=
  match body with
  | JObject fields => foldl (fun m kv => map_insert kv.1 kv.2 m) (path_variables path_params) fields
  | _ => path_variables path_params
  end.

Definition missing_field (f : FieldDefinition) : json :=
  JObject [("field", JString (output_name f)); ("message", JString ("Required field '" ++ output_name f ++ "' is missing"))]%string.
Definition missing_fields (fields : list (string * json)) (td : TypeDefinition) : list FieldDefinition :=
  List.filter (fun f => negb (is_some (assoc (output_name f) fields))) (writable_fields td).
Definition validate_put_body (body : json) (td : TypeDefinition) : result RestError unit :=
  match body with
  | JObject fields =>
      match missing_fields fields td with
      | [] => Ok tt
      | l => Err (unprocessable_entity ("PUT requires all writable fields; " ++ pretty (Z.of_nat (length l)) ++ " missing")
               (JObject [("missing_fields"%string, JArray (map missing_field l))]))
      end
  | _ => Err (bad_request "PUT body must be a JSON object")
  end.

Definition without_typename (v : json) : json :=
  match v with JObject fields => JObject (List.filter (fun kv => negb (kv.1 =s "__typename")) fields) | _ => v end.
Definition is_empty_object (v : json) : bool := match v with JObject [] => true | _ => false end.
Definition is_null (v : json) : bool := match v with JNull => true | _ => false end.
Definition extract_delete_entity (result : json) (mutation_name : string) : option json :=
  data ← json_get result "data";
  mutation_result ← json_get data mutation_name;
  entity ← match json_get mutation_result "entity" with
           | Some JNull => None
           | Some e => Some e
           | None => match mutation_result with JObject (_ :: _) => Some mutation_result | _ => None end
           end;
  let cleaned := without_typename entity in
  if is_null cleaned || is_empty_object cleaned then None else Some cleaned.

(** ** Bulk requests *)
Definition MAX_BULK_INSERT_ITEMS : Z := 1000.
Definition NON_FILTER : list string := ["select"; "sort"; "limit"; "offset"; "first"; "after"; "last"; "before"; "filter"].
Definition is_filter_param (key : string) : bool :=
  (key =s "filter") || has_char "[" key || negb (member (default key (head (split "[" key))) NON_FILTER).
Definition has_filter_params (query_params : list (string * string)) : bool := existsb (fun kv => is_filter_param kv.1) query_params.

Definition extract_entity_from_result (result : json) : option json :=
  data ← json_get result "data";
  mutation_result ← match data with JObject ((_, v) :: _) => Some v | _ => None end;
  match json_get mutation_result "entity" with
  | Some JNull => None
  | Some e => Some (without_typename e)
  | None =>
      match mutation_result with
      | JObject (_ :: _) => let cleaned := without_typename mutation_result in if is_empty_object cleaned then None else Some cleaned
      | _ => None
      end
  end.

Inductive BulkOperation : Type := BulkUpdate | BulkDelete.
Definition bulk_name (op : BulkOperation) : string := match op with BulkUpdate => "update" | BulkDelete => "delete" end.
Definition missing_filter_msg (op : BulkOperation) : string :=
  match op with
  | BulkUpdate => "Bulk update requires at least one filter parameter"
  | BulkDelete => "Bulk delete requires at least one filter parameter"
  end.
Definition op_matches (op : BulkOperation) (o : MutationOperation) : bool :=
  match op, o with BulkUpdate, Update _ | BulkDelete, Delete _ => true | _, _ => false end.

Definition upsert_unavailable : RestError :=
  bad_request "Upsert not available — no compiler-generated upsert function exists".
Definition is_upsert (resolution : string) : bool := (resolution =s "merge-duplicates") || (resolution =s "ignore-duplicates").

Section Writes.
Context {P D S Sub H V I : Type} {RP : RLSPolicy P} {DB : DatabaseAdapter D} {MD : MutationAdapter D}.
Context {ST : Store (Z * Z) ResponseEntry S} {HM : HeaderMap H V} {IS : IdempotencyStore I}.
Notation Executor := (@Executor P D S MutationDefinition Sub).
Context (parse_f64 : string -> option f64) (read : string -> result string json) (from_str : string -> option json).
Context (json_text : json -> string) (execute : Executor -> string -> option SecurityContext -> result error json * Executor).
Context (sort : list (nat * string) -> list (nat * string)) (started_at : string) (parse_uuid : string -> option string).
Context (de_error : Row -> string) (order : gset (Z * Z) -> list (Z * Z)).
Context (xxh3_64 : string -> Z) (now later : Z) (fresh : string).
Context (compiled : @Schema.CompiledSchema QueryDefinition MutationDefinition Sub) (schema : CompiledSchema.Schema).
Context (config : RestConfig) (route_table : RestRouteTable).

Record World : Type := mkWorld { executor : Executor; idempotency_store : option I }.
Definition on_executor {A} (m : Rest Executor A) : Rest World A := fun w =>
  let '(r, ex) := m w.(executor) in (r, mkWorld ex w.(idempotency_store)).

Definition find_mutation_def (name : string) : option MutationDefinition := Schema.find_mutation mutation_name compiled name.
(** [execute_mutation]: with a context the mutation goes through GraphQL text. *)
Definition run_mutation (name : string) (variables : json) (ctx : option SecurityContext) : Rest World json :=
  on_executor (call (fun ex =>
    match ctx with
    | Some _ => execute_mutation_with_security json_text execute ex name variables ctx
    | None => execute_mutation from_str sort json_text started_at parse_uuid de_error order name (Some variables) ∅ ex
    end)).

Definition route_for (relative_path : string) (m : HttpMethod) : Rest World ResolvedRoute :=
  match resolve route_table relative_path m with
  | Some r => mret r
  | None => refuse (RestHttp.not_found "Route not found")
  end.
Definition mutation_of (verb : string) (r : RestRoute) : Rest World string :=
  match r.(source) with
  | Mutation name => mret name
  | Query _ => refuse (internal (verb ++ " route backed by query"))
  end.

(** Headers of every answer to a write. *)
Definition write_headers (headers : H) : H := set_request_id fresh headers no_headers.
Definition no_store (headers : H) : H -> H :=
  apply_cache_headers (mkCacheContext false (has_header headers "authorization") None config.(default_cache_ttl) config.(cdn_max_age)).

(** *** Bulk insert *)
Definition bulk_mutation (name : string) (prefer : PreferHeader) : result RestError string :=
  match prefer.(resolution) with
  | None => Ok name
  | Some r =>
      md ← ok_or (find_mutation_def name) (bad_request ("Mutation '" ++ name ++ "' not found"));
      if is_upsert r then ok_or md.(upsert_function) upsert_unavailable else Ok name
  end.
Definition result_entities (l : list json) : list json :=
  omap (fun r => match r with JString s => parsed ← from_str s; extract_entity_from_result parsed | _ => extract_entity_from_result r end) l.
Definition bulk_applied (prefer : PreferHeader) : list string :=
  match prefer.(resolution) with Some r => [("resolution=" ++ r)%string] | None => [] end ++
  (if prefer.(tx_rollback) then ["tx=rollback"%string] else []).
Definition batch_size_error (n : Z) : RestError :=
  bad_request ("Bulk insert limited to " ++ pretty MAX_BULK_INSERT_ITEMS ++ " items, got " ++ pretty n).

Definition handle_bulk_insert (items : list json) (name : string) (prefer : PreferHeader) (headers : H)
    (ctx : option SecurityContext) : Rest World (RestResponse H) :=
  let n := Z.of_nat (length items) in
  if n =? 0 then refuse (bad_request "Bulk insert requires at least one item")
  else if MAX_BULK_INSERT_ITEMS <? n then refuse (batch_size_error n)
  else
    effective ← pure (map_err Refused (bulk_mutation name prefer));
    results ← on_executor (call (fun ex => execute_mutation_batch json_text execute ex effective items ctx));
    let h := set_rows_affected results.(affected_rows) (write_headers headers) in
    if prefer.(return_minimal) then
      mret (mkResponse 201 (set_preference_applied (bulk_applied prefer ++ ["return=minimal"%string]) h) None)
    else
      let applied := bulk_applied prefer ++ (if prefer.(return_representation) then ["return=representation"%string] else []) in
      mret (mkResponse 201 (set_preference_applied applied h) (Some (JArray (result_entities results.(entities))))).

(** *** Bulk update and delete *)
Definition collection_name (relative_path : string) : string := default "" (head (segments relative_path)).
Definition bulk_target (op : BulkOperation) (res : RestResource) : option string :=
  head (omap (fun r =>
    match r.(source) with
    | Mutation name => md ← find_mutation_def name; if op_matches op md.(operation) then Some name else None
    | Query _ => None
    end) res.(routes)).
Definition list_query_of (res : RestResource) (resource_name : string) : option string :=
  head (omap (fun r =>
    match r.(source) with
    | Query name => if r.(path) =s ("/" ++ resource_name) then Some name else None
    | Mutation _ => None
    end) res.(routes)).
Definition resolve_bulk_mutation (relative_path : string) (op : BulkOperation) :
    result RestError (RestResource * string * string) :=
  let name := collection_name relative_path in
  res ← ok_or (find (fun r => r.(resource_name) =s name) route_table.(resources))
    (RestHttp.not_found ("Resource '" ++ name ++ "' not found"));
  target ← ok_or (bulk_target op res)
    (bad_request ("No " ++ bulk_name op ++ " mutation found for resource '" ++ name ++ "'"));
  list_query ← ok_or (list_query_of res name) (internal ("No list query found for resource '" ++ name ++ "'"));
  Ok (res, target, list_query).

(** Only the WHERE clause of the parameters goes on. *)
Definition build_filter_query_match (query_name' : string) (query_params : list (string * string)) (type_name : string) :
    result rest_failure QMatch :=
  qd ← ok_or (Schema.find_query query_name compiled query_name') (Refused (internal ("Query '" ++ query_name' ++ "' not found")));
  let td := find_type schema type_name in
  p ← map_err of_failure (Extractor.extract parse_f64 read config qd td [] query_params);
  let id_fields := match td with Some td => map output_name (List.filter is_primary_key td.(type_fields)) | None => [] end in
  let fields := match id_fields with [] => ["id"%string] | l => l end in
  Ok (from_operation qd fields (insert_some "where" p.(RestParams.where_clause) ∅)).

Definition build_bulk_response (r : BulkResult) (prefer : PreferHeader) (headers : H) : RestResponse H :=
  let h := set_rows_affected r.(affected_rows) (write_headers headers) in
  let applied := if prefer.(tx_rollback) then ["tx=rollback"%string] else [] in
  if prefer.(return_representation) then
    mkResponse 200 (set_preference_applied (applied ++ ["return=representation"%string]) h)
      (Some (JArray (result_entities r.(entities))))
  else if prefer.(return_minimal) || (r.(affected_rows) =? 0) then
    mkResponse 204 (set_preference_applied (applied ++ if prefer.(return_minimal) then ["return=minimal"%string] else []) h) None
  else mkResponse 200 (set_preference_applied applied h) None.

Definition handle_bulk_filter_operation (relative_path : string) (body : json) (query_params : list (string * string))
    (headers : H) (ctx : option SecurityContext) (op : BulkOperation) : Rest World (RestResponse H) :=
  prefer ← on_executor (preferences headers);
  if negb (has_filter_params query_params) then refuse (bad_request (missing_filter_msg op))
  else
    '(res, name, list_query) ← pure (map_err Refused (resolve_bulk_mutation relative_path op));
    qm ← pure (build_filter_query_match list_query query_params res.(resource_type));
    r ← on_executor (call (fun ex => execute_bulk_by_filter from_str json_text execute now ex qm name (Some body) ctx));
    mret (build_bulk_response r prefer headers).
Definition handle_bulk_update (relative_path : string) (body : json) (query_params : list (string * string)) (headers : H)
    (ctx : option SecurityContext) : Rest World (RestResponse H) :=
  handle_bulk_filter_operation relative_path body query_params headers ctx BulkUpdate.
Definition handle_bulk_delete (relative_path : string) (query_params : list (string * string)) (headers : H)
    (ctx : option SecurityContext) : Rest World (RestResponse H) :=
  handle_bulk_filter_operation relative_path (JObject []) query_params headers ctx BulkDelete.

(** *** POST *)
Definition hash_body (body : json) : Z := xxh3_64 (json_text body).
Definition valid_status (s fallback : Z) : Z := if (100 <=? s) && (s <? 1000) then s else fallback.
Definition stored_response_to_rest (stored : StoredResponse) (headers : H) : RestResponse H :=
  let h := foldl (fun h kv =>
    match header_name kv.1, header_value kv.2 with Some n, Some v => insert_header n v h | _, _ => h end)
    (write_headers headers) stored.(stored_headers) in
  mkResponse (valid_status stored.(stored_status) 200) (insert_header "idempotency-key" (from_static "replayed=true") h) stored.(stored_body).
Definition to_stored (r : RestResponse H) : StoredResponse :=
  mkStored r.(response_status) (map (fun kv => (kv.1, default ""%string (to_str kv.2))) (header_list r.(response_headers))) r.(body).

Definition check_key (key : option string) (body : json) : Rest World IdempotencyCheck := fun w =>
  match key, w.(idempotency_store) with
  | Some k, Some s => let '(c, s) := check s now k (hash_body body) in (Ok c, mkWorld w.(executor) (Some s))
  | _, _ => (Ok New, w)
  end.
Definition store_response (key : option string) (body : json) (r : RestResponse H) : Rest World unit := fun w =>
  match key, w.(idempotency_store) with
  | Some k, Some s => (Ok tt, mkWorld w.(executor) (Some (store s later k (hash_body body) (to_stored r))))
  | _, _ => (Ok tt, w)
  end.
Definition conflict_error : RestError :=
  mkRestError 422 "IDEMPOTENCY_CONFLICT" (Text "Idempotency-Key reused with different request body") None.

Definition effective_mutation (name : string) (prefer : PreferHeader) : result RestError string :=
  match prefer.(resolution) with
  | Some r => if is_upsert r then ok_or (find_mutation_def name ≫= upsert_function) upsert_unavailable else Ok name
  | None => Ok name
  end.
Definition post_headers (prefer : PreferHeader) (headers : H) : H :=
  let h := write_headers headers in
  let h := match prefer.(resolution) with
           | Some r => insert_header "x-rows-affected" (from_static "1") (set_preference_applied [("resolution=" ++ r)%string] h)
           | None => h
           end in
  no_store headers h.
Definition post_once (r : ResolvedRoute) (name : string) (body : json) (key : option string) (headers : H)
    (ctx : option SecurityContext) : Rest World (RestResponse H) :=
  prefer ← on_executor (preferences headers);
  effective ← pure (map_err Refused (effective_mutation name prefer));
  result ← run_mutation effective (JObject (build_mutation_variables r.(resolved_params) body)) ctx;
  let response := mkResponse (valid_status r.(resolved_route).(success_status) 201) (post_headers prefer headers) (Some result) in
  _ ← store_response key body response;
  mret response.

Definition handle_post (relative_path : string) (body : json) (headers : H) (ctx : option SecurityContext) : Rest World (RestResponse H) :=
  r ← route_for relative_path Post;
  name ← mutation_of "POST" r.(resolved_route);
  match body with
  | JArray items =>
      match r.(resolved_params) with
      | _ :: _ => refuse (bad_request "Array body not allowed on single-resource endpoint")
      | [] => prefer ← on_executor (preferences headers); handle_bulk_insert items name prefer headers ctx
      end
  | _ =>
      let key := header_str headers "idempotency-key" in
      c ← check_key key body;
      match c with
      | Replay stored => mret (stored_response_to_rest stored headers)
      | ConflictingBody => refuse conflict_error
      | New => post_once r name body key headers ctx
      end
  end.

(** *** PUT, PATCH, DELETE *)
Definition write_one (r : ResolvedRoute) (name : string) (body : json) (headers : H) (ctx : option SecurityContext) :
    Rest World (RestResponse H) :=
  result ← run_mutation name (JObject (build_mutation_variables r.(resolved_params) body)) ctx;
  mret (mkResponse 200 (no_store headers (write_headers headers)) (Some result)).

Definition put_body_valid (name : string) (body : json) : result RestError unit :=
  match (md ← find_mutation_def name; find_type schema md.(mutation_return_type)) with
  | Some td => validate_put_body body td
  | None => Ok tt
  end.
Definition handle_put (relative_path : string) (body : json) (headers : H) (ctx : option SecurityContext) : Rest World (RestResponse H) :=
  r ← route_for relative_path Put;
  name ← mutation_of "PUT" r.(resolved_route);
  _ ← pure (map_err Refused (put_body_valid name body));
  write_one r name body headers ctx.

Definition patch_content_type (headers : H) : bool :=
  match header_str headers "content-type" with
  | Some ct => contains "application/json" (to_lowercase ct) || contains "application/merge-patch+json" (to_lowercase ct)
  | None => true
  end.
(** A route without path parameters is not this one. *)
Definition single (relative_path : string) (m : HttpMethod) : option ResolvedRoute :=
  r ← resolve route_table relative_path m; match r.(resolved_params) with [] => None | _ => Some r end.
Definition handle_patch (relative_path : string) (body : json) (query_params : list (string * string)) (headers : H)
    (ctx : option SecurityContext) : Rest World (RestResponse H) :=
  if negb (patch_content_type headers) then
    refuse (bad_request "PATCH requires Content-Type: application/json or application/merge-patch+json")
  else
    match single relative_path Patch with
    | Some r => name ← mutation_of "PATCH" r.(resolved_route); write_one r name body headers ctx
    | None => handle_bulk_update relative_path body query_params headers ctx
    end.

Definition delete_response_of (prefer : PreferHeader) (result : json) (name : string) (h : H) : RestResponse H :=
  let want_entity := if prefer.(return_representation) then true else if prefer.(return_minimal) then false
    else match config.(delete_response) with Entity => true | NoContent => false end in
  if want_entity then
    match extract_delete_entity result name with
    | Some entity =>
        mkResponse 200 (if prefer.(return_representation) then set_preference_applied ["return=representation"%string] h else h) (Some entity)
    | None =>
        mkResponse 204 (if prefer.(return_representation)
          then insert_header "x-preference-fallback" (from_static "entity-unavailable") (set_preference_applied ["return=minimal"%string] h)
          else h) None
    end
  else mkResponse 204 (if prefer.(return_minimal) then set_preference_applied ["return=minimal"%string] h else h) None.
Definition handle_delete (relative_path : string) (query_params : list (string * string)) (headers : H)
    (ctx : option SecurityContext) : Rest World (RestResponse H) :=
  match single relative_path DeleteMethod with
  | Some r =>
      name ← mutation_of "DELETE" r.(resolved_route);
      result ← run_mutation name (JObject (path_variables r.(resolved_params))) ctx;
      prefer ← on_executor (preferences headers);
      mret (delete_response_of prefer result name (no_store headers (write_headers headers)))
  | None => handle_bulk_delete relative_path query_params headers ctx
  end.
End Writes.
Arguments World P D S Sub I : clear implicits.
