(* ===== verification/RestWritesFacts.v ===== *)
(** * REST writes: what a request may change, and what is answered again *)

From Stdlib Require Import Ascii.
From S2P Require Import Prelude Json WhereClause GraphQL Matcher CacheStore Chars SecurityContext ResponseCache CompiledSchema.
From S2P Require Import RestParams RestResource RestHttp RowSecurity Execution RestEmbedding RestHandler Mutation.
From S2P Require Import RestFacts Idempotency RestWrites.
Import Matching.
#[local] Open Scope Z_scope.

(** ** Runs *)
Lemma rest_bind_Ok {E A B} (m : Rest E A) (k : A -> Rest E B) w b w' :
  (m ≫= k) w = (Ok b, w') <-> exists a w1, m w = (Ok a, w1) /\ k a w1 = (Ok b, w').
Proof. unfold mbind, rest_bind. destruct (m w) as [[a|e] w1]; naive_solver. Qed.

(** ** Embedded resources *)
Lemma foldl_insert_get entries : NoDup entries.*1 -> forall (w : list (string * json)) k,
  assoc k (foldl (fun w kv => map_insert kv.1 kv.2 w) w entries) =
  match assoc k entries with Some v => Some v | None => assoc k w end.
Proof.
  induction entries as [|[k1 v1] l IH]; intros Hnd w k; [done|]. cbn in Hnd. apply list.NoDup_cons in Hnd as [Hk1 Hnd].
  cbn [foldl fst snd assoc]. rewrite IH, assoc_map_insert by done. destruct (k1 =s k) eqn:E; [|done].
  apply String.eqb_eq in E as ->. assert (Hn : assoc k l = None); [|by rewrite Hn].
  destruct (assoc k l) as [v|] eqn:Ea; [|done]. exfalso. apply Hk1. clear -Ea. induction l as [|[k2 v2] l IH]; [done|].
  cbn in *. destruct (k2 =s k) eqn:E; [apply String.eqb_eq in E; set_solver|]. apply elem_of_cons. auto.
Qed.

(** The rows of an embedded resource are those that the parent's key selects,
    exactly when the request's own filter does not name the child's key: its
    condition then takes the place of the join. *)
Theorem embedding_join rel key entries : NoDup entries.*1 ->
  json_get (embedding_where rel key (Some (JObject entries))) (child_key rel) =
    match assoc (child_key rel) entries with Some own => Some own | None => Some (singleton "eq" key) end /\
  forall k, k <> child_key rel -> json_get (embedding_where rel key (Some (JObject entries))) k = assoc k entries.
Proof.
  intros Hnd. cbn [embedding_where json_get]. split; [|intros k Hk].
  - rewrite foldl_insert_get by done. unfold join_where. by rewrite assoc_map_insert, streqb_refl.
  - rewrite foldl_insert_get by done. unfold join_where. rewrite assoc_map_insert. cbn [assoc].
    destruct (child_key rel =s k) eqn:E; [apply String.eqb_eq in E; congruence|]. by destruct (assoc k entries).
Qed.

Lemma embedding_join_witness :
  let rel := mkRelationship "posts" "Post" OneToMany "fk_author" "id" in
  json_get (embedding_where rel (JString "7") (Some (JObject [("fk_author", singleton "ne" JNull)]))) "fk_author"
    = Some (singleton "ne" JNull).
Proof.
  exact (proj1 (embedding_join (mkRelationship "posts" "Post" OneToMany "fk_author" "id") (JString "7")
    [("fk_author"%string, singleton "ne" JNull)] (list.NoDup_singleton _))).
Defined.

(** ** Bodies *)
Lemma missing_fields_nil fields td : missing_fields fields td = [] <->
  forall f, f ∈ writable_fields td -> is_Some (assoc (output_name f) fields).
Proof.
  unfold missing_fields. induction (writable_fields td) as [|f l IH]; cbn; [split; [by intros _ f ?%elem_of_nil | done]|].
  destruct (assoc (output_name f) fields) as [v|] eqn:E; cbn.
  - rewrite IH. split; [|intros H g Hg; apply H; set_solver]. intros H g [->|Hg]%elem_of_cons; [by eexists | auto].
  - split; [done|]. intros H. destruct (H f ltac:(left)) as [v Hv]. congruence.
Qed.

Section Writes.
Context {P D S Sub H V I : Type} {RP : RLSPolicy P} {DB : DatabaseAdapter D} {MD : MutationAdapter D}.
Context {ST : Store (Z * Z) ResponseEntry S} {HM : HeaderMap H V}.
Notation Executor := (@Executor P D S MutationDefinition Sub).
Context (parse_f64 : string -> option f64) (read : string -> result string json) (from_str : string -> option json).
Context (json_text : json -> string) (execute : Executor -> string -> option SecurityContext -> result error json * Executor).
Context (sort : list (nat * string) -> list (nat * string)) (started_at : string) (parse_uuid : string -> option string).
Context (de_error : Row -> string) (order : gset (Z * Z) -> list (Z * Z)).
Context (xxh3_64 : string -> Z) (fresh : string).
Context (compiled : @Schema.CompiledSchema QueryDefinition MutationDefinition Sub) (schema : CompiledSchema.Schema).
Context (config : RestConfig) (route_table : RestRouteTable).

(** A write that resolves to a mutation. *)
Lemma resolved_mutation (verb : string) path m r name {J A} (k : ResolvedRoute -> string -> Rest (World P D S Sub J) A) w :
  resolve route_table path m = Some r -> r.(resolved_route).(source) = Mutation name ->
  (r ← route_for route_table path m; name ← mutation_of verb r.(resolved_route); k r name) w = k r name w.
Proof.
  intros Hr Hs. unfold route_for. rewrite Hr. unfold mbind, rest_bind, mret, rest_ret, mutation_of. by rewrite Hs.
Qed.

Section AnyStore.
Notation World := (World P D S Sub I).
Notation handle_put := (handle_put from_str json_text execute sort started_at parse_uuid de_error order fresh
  compiled schema config route_table).

(** C17. A PUT is run only when its body is an object with every writable field of
    the type; otherwise it is refused with 400 or 422, and nothing is run. *)
Theorem put_needs_every_field path body headers ctx (w : World) r name md td :
  resolve route_table path Put = Some r -> r.(resolved_route).(source) = Mutation name ->
  find_mutation_def compiled name = Some md -> find_type schema md.(mutation_return_type) = Some td ->
  match body with
  | JObject fields =>
      (forall f, f ∈ writable_fields td -> is_Some (assoc (output_name f) fields)) \/
      exists e, handle_put path body headers ctx w = (Err (Refused e), w) /\ e.(status) = 422
  | _ => exists e, handle_put path body headers ctx w = (Err (Refused e), w) /\ e.(status) = 400
  end.
Proof.
  intros Hr Hs Hm Ht. unfold RestWrites.handle_put. rewrite (resolved_mutation _ _ _ _ _ _ w Hr Hs).
  unfold put_body_valid. rewrite Hm. cbn. rewrite Ht. destruct body as [| | | | |fields]; cbn; try (eexists; split; reflexivity).
  destruct (missing_fields fields td) as [|f l] eqn:E.
  - left. by apply missing_fields_nil.
  - right. cbn. eexists. split; reflexivity.
Qed.
End AnyStore.

(** ** Replays *)
Section Replay.
Context (dash_order : gmap string InMemory.Entry -> list (string * InMemory.Entry)).
Context (dash_perm : forall m, dash_order m ≡ₚ map_to_list m).
Notation World := (World P D S Sub InMemory.t).
Notation handle_post now later := (handle_post (IS := in_memory_store dash_order) from_str json_text execute sort started_at
  parse_uuid de_error order xxh3_64 now later fresh compiled config route_table).

Lemma valid_status_range s fallback : 100 <= fallback < 1000 -> 100 <= valid_status s fallback < 1000.
Proof. unfold valid_status. intros. case_bool; bool_lia. Qed.

(** The store after a POST with a new key. *)
Lemma post_new_stored now later path body headers ctx (w w' : World) s key resp :
  handle_post now later path body headers ctx w = (Ok resp, w') -> (forall l, body <> JArray l) ->
  header_str headers "idempotency-key" = Some key -> w.(idempotency_store) = Some s ->
  (InMemory.check s now key (hash_body json_text xxh3_64 body)).1 = New ->
  exists s1, (s1.(InMemory.max_entries) = s.(InMemory.max_entries) /\ s1.(InMemory.entries) ⊆ s.(InMemory.entries)) /\
    s1.(InMemory.ttl) = s.(InMemory.ttl) /\
    w'.(idempotency_store) = Some (InMemory.store dash_order s1 later key (hash_body json_text xxh3_64 body) (to_stored resp)) /\
    100 <= resp.(response_status) < 1000.
Proof.
  intros Hp Hb Hk Hs Hc. unfold RestWrites.handle_post in Hp. apply rest_bind_Ok in Hp as (r & w1 & Hr & Hp).
  assert (w1 = w) as -> by (unfold route_for, mret, rest_ret, refuse, pure in Hr; destruct (resolve _ _ _); congruence).
  apply rest_bind_Ok in Hp as (name & w2 & Hn & Hp).
  assert (w2 = w) as -> by (unfold mutation_of, mret, rest_ret, refuse, pure in Hn; destruct (source _); congruence).
  rewrite Hk in Hp.
  assert (Hp' : (check_key (IS := in_memory_store dash_order) json_text xxh3_64 now (Some key) body ≫= (fun c => match c with
      | Replay stored => mret (stored_response_to_rest fresh stored headers)
      | ConflictingBody => refuse conflict_error
      | New => post_once (IS := in_memory_store dash_order) from_str json_text execute sort started_at parse_uuid de_error order
          xxh3_64 later fresh compiled config r name body (Some key) headers ctx
      end)) w = (Ok resp, w')) by (destruct body; try exact Hp; by destruct (Hb l)).
  clear Hp. apply rest_bind_Ok in Hp' as (c & w1 & Hck & Hp). unfold check_key in Hck. rewrite Hs in Hck. cbn in Hck.
  destruct (InMemory.check s now key (hash_body json_text xxh3_64 body)) as [c' s1] eqn:Es. cbn in Hc. subst c'.
  injection Hck as <- <-. unfold post_once in Hp.
  apply rest_bind_Ok in Hp as (prefer & w2 & Hpr & Hp). apply rest_bind_Ok in Hp as (eff & w3 & Heff & Hp).
  apply rest_bind_Ok in Hp as (res & w4 & Hres & Hp). apply rest_bind_Ok in Hp as ([] & w5 & Hst & Hp).
  assert (H2 : w2.(idempotency_store) = Some s1).
  { unfold on_executor in Hpr. destruct (preferences headers _) as [? ?]. by inversion Hpr. }
  assert (w3 = w2) as -> by (unfold pure in Heff; congruence).
  assert (H4 : w4.(idempotency_store) = Some s1).
  { unfold RestWrites.run_mutation, on_executor in Hres. destruct (call _ _) as [? ?]. by inversion Hres. }
  inversion Hp; subst; clear Hp. unfold store_response in Hst. rewrite H4 in Hst. inversion Hst; subst; clear Hst. exists s1.
  assert (Ht : (s1.(InMemory.max_entries) = s.(InMemory.max_entries) /\ s1.(InMemory.entries) ⊆ s.(InMemory.entries)) /\
    s1.(InMemory.ttl) = s.(InMemory.ttl)).
  { unfold InMemory.check in Es. destruct (_ !! key); [|by inversion Es]. repeat case_bool; try congruence. inversion Es. cbn.
    split; [|done]. split; [done|apply delete_subseteq]. }
  destruct Ht as [Hsub Ht]. do 3 (split; [done|]). cbn [response_status]. apply valid_status_range. lia.
Qed.

End Replay.
End Writes.

(** ** Bulk writes *)
Section Bulk.
Context {P D S M Sub : Type} {RP : RLSPolicy P} {DB : DatabaseAdapter D} {ST : Store (Z * Z) ResponseEntry S}.
Context (parse_f64 : string -> option f64) (read : string -> result string json).
Context (compiled : @Schema.CompiledSchema QueryDefinition MutationDefinition Sub) (schema : CompiledSchema.Schema) (config : RestConfig).
Notation extract := (Extractor.extract parse_f64 read config).

Lemma search_only_where qd td q p : extract qd td [] [("search"%string, q)] = Ok p -> p.(RestParams.where_clause) = None.
Proof.
  unfold Extractor.extract. intros (path_params & _ & (c & Hc & (u & _ & H)%bind_Ok)%bind_Ok)%bind_Ok.
  vm_compute in Hc. injection Hc as <-.
  apply bind_Ok in H as ([[sel emb] counts] & _ & (order & _ & (search & _ & (logical & Hl & (filter & Hf & (w & Hw & H)%bind_Ok)%bind_Ok)%bind_Ok)%bind_Ok)%bind_Ok).
  injection Hl as <-. injection Hf as <-. injection Hw as <-. apply bind_Ok in H as (pg & _ & H).
  destruct (_ <? _); [done|]. by injection H as <-.
Qed.

Lemma no_explicit defined native : explicit_conditions defined ∅ native = [].
Proof. unfold explicit_conditions. by induction (List.filter _ defined). Qed.

(** A bulk write whose only parameter is a search passes the guard that asks
    for a filter, and the rows it asks the database for are under no condition
    of the request: only the policy's. *)
Theorem bulk_search_unfiltered q list_query ty qm (ex : @Executor P D S M Sub) rls ctx r :
  build_filter_query_match parse_f64 read compiled schema config list_query [("search"%string, q)] ty = Ok qm ->
  direct_request ex qm rls ctx = Ok r ->
  has_filter_params [("search"%string, q)] = true /\ r.(Execution.where_clause) = rls /\ r.(Execution.limit) = None.
Proof.
  unfold build_filter_query_match. intros (qd & _ & H)%bind_Ok. cbn zeta in H.
  apply bind_Ok in H as (p & Hp%MatchFacts.map_err_Ok & H). apply search_only_where in Hp. rewrite Hp in H. injection H as <-.
  unfold direct_request. cbn [query_def from_operation Matching.arguments insert_some].
  intros (source & _ & (user & Hu & (order & _ & (vs & _ & [= <-])%bind_Ok)%bind_Ok)%bind_Ok)%bind_Ok.
  cbn [Execution.where_clause Execution.limit]. split; [reflexivity|]. split; [|reflexivity].
  unfold user_where in Hu. rewrite lookup_empty in Hu. cbn in Hu.
  assert (user = None) as -> by (destruct (has_where _); congruence).
  unfold combine_explicit_arg_where. rewrite no_explicit. by destruct rls.
Qed.
End Bulk.

(** ** Examples *)
Module WriteDemo.
Import CacheStore.Lazy ExecDemo MutationDemo.

(** A header map that keeps one text per name. *)
#[export] Instance text_headers : HeaderMap (list (string * string)) string := {
  no_headers := [];
  header h k := assoc k h;
  get_all h k := match assoc k h with Some v => [v] | None => [] end;
  insert_header := map_insert;
  header_list h := h;
  to_str v := Some v;
  header_value v := Some v;
  from_static v := v;
  header_name k := Some k
}.
Definition dash_order : gmap string InMemory.Entry -> list (string * InMemory.Entry) := map_to_list.
Definition length_hash (s : string) : Z := Z.of_nat (String.length s).
Definition table : RestRouteTable :=
  mkTable "/rest/v1" [mkResource "users" "User" (Some "id"%string)
    [mkRoute Get "/users" (Query "users") None 200; mkRoute Post "/users" (Mutation "createUser") None 201;
     mkRoute Put "/users/{id}" (Mutation "createUser") None 200]] [].
Definition no_execute (ex : @Executor DefaultRLSPolicy (list json) lazy MutationDefinition unit) (_ : string)
    (_ : option SecurityContext) : result error json * @Executor DefaultRLSPolicy (list json) lazy MutationDefinition unit :=
  (Ok (JObject [("data"%string, JObject [("createUser"%string, new_user)])]), with_adapter ex (new_user :: ex.(adapter))).
Definition start : World DefaultRLSPolicy (list json) lazy unit InMemory.t :=
  mkWorld executor (Some (InMemory.create_store 300)).
Definition keyed : list (string * string) := [("idempotency-key", "k1"); ("x-request-id", "r1")]%string.
Definition new_body : json := JObject [("user"%string, new_user)].
(** A printer that tells the empty object from the rest. *)
Definition short_text (v : json) : string := match v with JObject [] => "{}" | _ => "..." end.
Notation post now later path body headers ctx := (handle_post (IS := in_memory_store dash_order) no_text short_text no_execute
  keep "" no_uuid no_message elements length_hash now later "fresh" operations default_rest_config table path body headers ctx).

(** A caller with a token creates a user; after a response under another key is
    stored, another caller, without a token, gets the first one's answer; with
    another body it is a conflict. *)
Definition between : list InMemory.call :=
  [InMemory.StoreCall 100 "k2" 5 (mkStored 201 [] None); InMemory.CheckCall 150 "k1" 5]%string.

Lemma put_needs_every_field_witness :
  exists e, handle_put (I := InMemory.t) no_text json_text no_execute keep "" no_uuid no_message elements "fresh" operations the_schema
    default_rest_config table "/users/7" (JString "x") keyed None start = (Err (Refused e), start) /\ e.(status) = 400.
Proof.
  destruct (resolve table "/users/7" Put) as [r|] eqn:Er; [|vm_compute in Er; discriminate Er].
  destruct (find_type the_schema "User") as [td|] eqn:Et; [|vm_compute in Et; discriminate Et].
  apply (put_needs_every_field no_text json_text no_execute keep "" no_uuid no_message elements "fresh" operations the_schema
    default_rest_config table "/users/7" (JString "x") keyed None start r "createUser" create_user td Er);
    [vm_compute in Er; injection Er as <-; reflexivity | vm_compute; reflexivity | exact Et].
Defined.

Definition no_float (_ : string) : option f64 := None.
Definition no_json (_ : string) : result string json := Err "no JSON"%string.
Lemma bulk_search_unfiltered_witness :
  exists qm r, build_filter_query_match no_float no_json operations the_schema default_rest_config "users" [("search", "x")]%string "User" = Ok qm /\
  direct_request executor qm None None = Ok r /\ r.(Execution.where_clause) = None.
Proof.
  destruct (build_filter_query_match no_float no_json operations the_schema default_rest_config "users" [("search", "x")]%string "User")
    as [qm|e] eqn:E; [|vm_compute in E; discriminate E].
  destruct (direct_request executor qm None None) as [r|e] eqn:Er;
    [|exfalso; vm_compute in E; injection E as <-; vm_compute in Er; discriminate Er].
  exists qm, r. do 2 (split; [done|]).
  apply (bulk_search_unfiltered no_float no_json operations the_schema default_rest_config "x" "users" "User" qm executor None None r E Er).
Defined.

(** A body may name the path's parameter, and then replaces it. *)
Example body_over_path :
  build_mutation_variables [("id", "7")]%string (JObject [("id", JString "8")])%string = [("id", JString "8")]%string.
Proof. reflexivity. Qed.
(** An entity with a field [entity] loses the rest. *)
Example entity_field_taken :
  extract_delete_entity (JObject [("data", JObject [("deleteUser", JObject [("entity", JString "e"); ("id", JString "7")])])])%string
    "deleteUser" = Some (JString "e").
Proof. reflexivity. Qed.
(** A parent without a row in a to-one relationship gets the empty array. *)
Example to_one_missing : embedded_value ManyToOne (Some (JArray [])) = JArray [].
Proof. reflexivity. Qed.
End WriteDemo.
