(* ===== verification/RestRouter.v ===== *)
(** * The REST router

    [fraiseql-server/src/routes/rest/router.rs]: the routes handed to axum and
    the handlers behind them.  Which handler a request reaches is axum's
    business; here are the registrations, in their order, and what each handler
    does with the request it is given.  [urlencoding], [serde_json] and the
    clock are arguments. *)

From Stdlib Require Import Ascii.
From S2P Require Import Prelude Json WhereClause Chars GraphQL Matcher CacheStore SecurityContext ResponseCache CompiledSchema.
From S2P Require Import RowSecurity Execution Mutation RestParams RestResource RestHttp RestEmbedding RestHandler Idempotency RestWrites RestStream.
Import Matching.
#[local] Open Scope Z_scope.

(** ** Paths and query strings *)
Fixpoint trim_end_slash (s : string) : string :=
  match s with
  | EmptyString => EmptyString
  | String c s => match trim_end_slash s with
                  | EmptyString => if Ascii.eqb c "/" then EmptyString else String c EmptyString
                  | r => String c r
                  end
  end.
Definition to_axum_path (base route_path : string) : string :=
  let base := trim_end_slash base in
  match trim_start_slash route_path with EmptyString => base | relative => base ++ "/" ++ relative end%string.
Definition strip_base_path (base request_path : string) : string :=
  match default request_path (strip_prefix (trim_end_slash base) request_path) with EmptyString => "/"%string | s => s end.
(** [decode] fails on bytes that are not text. *)
Definition parse_query_pairs (decode : string -> option string) (query : string) : list (string * string) :=
  let decoded s := default s (decode s) in
  map (fun pair => let '(key, value) := default (pair, ""%string) (split_once "=" pair) in (decoded key, decoded value))
    (List.filter (fun s => negb (s =s "")) (split "&" query)).

(** ** Registrations *)
Inductive RouteHandler : Type := RestGet | RestPost | RestPut | RestPatch | RestDelete | RestSse | OpenApi.
Record Registration : Type := mkRegistration { reg_method : HttpMethod; reg_path : string; reg_handler : RouteHandler }.

Section Router.
Context {M Sub : Type} (compiled : @Schema.CompiledSchema QueryDefinition MutationDefinition Sub) (base : string).
Definition handler_of (m : HttpMethod) : RouteHandler :=
  match m with Get => RestGet | Post => RestPost | Put => RestPut | Patch => RestPatch | DeleteMethod => RestDelete end.
Definition route_registration (r : RestRoute) : Registration :=
  mkRegistration r.(method) (to_axum_path base r.(path)) (handler_of r.(method)).
Definition collection_path (res : RestResource) : string := to_axum_path base (collection res.(resource_name)).
Definition stream_registration (res : RestResource) : Registration :=
  mkRegistration Get (to_axum_path base ("/" ++ res.(resource_name) ++ "/stream")) RestSse.
Definition openapi_registration : Registration := mkRegistration Get (trim_end_slash base ++ "/openapi.json") OpenApi.

Definition query_registrations (t : RestRouteTable) : list Registration :=
  flat_map (fun res => map route_registration (List.filter (fun r => bool_decide (r.(method) = Get)) res.(routes)) ++
    [stream_registration res]) t.(resources) ++ [openapi_registration].

Definition has_method (m : HttpMethod) (res : RestResource) : bool := existsb (fun r => bool_decide (r.(method) = m)) res.(routes).
(** A route served by a mutation of this kind. *)
Definition has_mutation (kind : MutationOperation -> bool) (res : RestResource) : bool :=
  existsb (fun r => match r.(source) with
    | Mutation name => match Schema.find_mutation mutation_name compiled name with Some m => kind m.(operation) | None => false end
    | Query _ => false
    end) res.(routes).
Definition is_update (op : MutationOperation) : bool := match op with Update _ => true | _ => false end.
Definition is_delete (op : MutationOperation) : bool := match op with Delete _ => true | _ => false end.

(** The collections that count as having a PATCH, and a DELETE, of their own:
    any such route of the resource adds its collection. *)
Record Taken : Type := mkTaken { collection_patch_paths : gset string; collection_delete_paths : gset string }.
Definition taken_after (taken : Taken) (res : RestResource) : Taken :=
  let add m s := if has_method m res then {[collection_path res]} ∪ s else s in
  mkTaken (add Patch taken.(collection_patch_paths)) (add DeleteMethod taken.(collection_delete_paths)).
Definition bulk_registrations (taken : Taken) (res : RestResource) : list Registration :=
  let p := collection_path res in
  (if has_mutation is_update res && negb (bool_decide (p ∈ taken.(collection_patch_paths)))
   then [mkRegistration Patch p RestPatch] else []) ++
  (if has_mutation is_delete res && negb (bool_decide (p ∈ taken.(collection_delete_paths)))
   then [mkRegistration DeleteMethod p RestDelete] else []).
Fixpoint resource_registrations (taken : Taken) (l : list RestResource) : list Registration :=
  match l with
  | [] => []
  | res :: l =>
      let taken := taken_after taken res in
      map route_registration res.(routes) ++ bulk_registrations taken res ++ [stream_registration res] ++
      resource_registrations taken l
  end.
Definition registrations (t : RestRouteTable) : list Registration :=
  resource_registrations (mkTaken ∅ ∅) t.(resources) ++ [openapi_registration].
End Router.

(** [derive_rest_context], without the state; a table that cannot be derived is a warning. *)
Definition derive_rest_context (rest_config : option RestConfig) (table : result string RestRouteTable) :
    option (string * RestRouteTable * RestConfig) :=
  match rest_config, table with
  | Some config, Ok table => if config.(rest_enabled) then Some (config.(rest_base_path), table, config) else None
  | _, _ => None
  end.

(** ** Handlers *)
Inductive ResponseBody : Type := NoBody | Bytes (s : string) | Lines (st : StreamState) | Events (heartbeat_seconds : Z).
Record HttpResponse (V : Type) : Type := mkHttp { http_status : Z; http_headers : list (string * V); http_body : ResponseBody }.
Arguments mkHttp {V}.

Section Handlers.
Context {P D S Sub H V I : Type} {RP : RLSPolicy P} {DB : DatabaseAdapter D} {MD : MutationAdapter D}.
Context {ST : Store (Z * Z) ResponseEntry S} {HM : HeaderMap H V} {IS : IdempotencyStore I}.
Notation Executor := (@Executor P D S MutationDefinition Sub).
Notation World := (World P D S Sub I).
Context (parse_f64 : string -> option f64) (read : string -> result string json) (from_str : string -> option json).
Context (json_text : json -> string) (message_text : WhereClause.message -> string).
Context (execute : Executor -> string -> option SecurityContext -> result error json * Executor).
Context (sort : list (nat * string) -> list (nat * string)) (started_at : string) (parse_uuid : string -> option string).
Context (de_error : Row -> string) (order : gset (Z * Z) -> list (Z * Z)).
Context (xxh3_64 : string -> Z) (now later : Z) (fresh : string).
Context (compiled : @Schema.CompiledSchema QueryDefinition MutationDefinition Sub) (schema : CompiledSchema.Schema).
Context (config : RestConfig).
Notation Answer := (HttpResponse V).

Definition content_type (v : string) : string * V := ("content-type"%string, from_static v).
Definition error_answer (e : RestError) : Answer :=
  mkHttp e.(RestHttp.status) [content_type "application/json"] (Bytes (json_text (error_json message_text e))).
Definition answer_of (r : RestResponse H) : Answer :=
  mkHttp r.(response_status)
    (header_list r.(response_headers) ++ match r.(RestHttp.body) with Some _ => [content_type "application/json"] | None => [] end)
    match r.(RestHttp.body) with Some v => Bytes (json_text v) | None => NoBody end.
(** [None] is a panic in the handler. *)
Definition rest_result_to_response (r : result rest_failure (RestResponse H)) : option Answer :=
  match r with
  | Ok r => Some (answer_of r)
  | Err (Refused e) => Some (error_answer e)
  | Err (Died _) => None
  end.

(** [None]: more than a megabyte, or the transport failed. *)
Definition MAX_BODY : nat := 1048576.
Definition read_json_body (from_slice : string -> result string json) (sent : option string) : result RestError json :=
  match sent with
  | Some bytes =>
      if (String.length bytes <=? MAX_BODY)%nat then
        match bytes with
        | EmptyString => Ok (JObject [])
        | _ => match from_slice bytes with
               | Ok v => Ok v
               | Err e => Err (mkRestError 400 "INVALID_JSON" (WhereClause.Text ("Invalid JSON body: " ++ e)) None)
               end
        end
      else Err (mkRestError 413 "PAYLOAD_TOO_LARGE" (WhereClause.Text "Request body too large") None)
  | None => Err (mkRestError 413 "PAYLOAD_TOO_LARGE" (WhereClause.Text "Request body too large") None)
  end.

Record HttpRequest : Type := mkHttpRequest {
  uri_path : string;
  uri_query : option string;
  request_headers : H;
  sent_body : option string;
  security_ctx : option SecurityContext
}.

Context (decode : string -> option string) (from_slice : string -> result string json) (t : RestRouteTable).
Definition relative_path (q : HttpRequest) : string := strip_base_path t.(base_path) q.(uri_path).
Definition query_pairs (q : HttpRequest) : list (string * string) :=
  match default ""%string q.(uri_query) with EmptyString => [] | s => parse_query_pairs decode s end.

Notation handle_get := (handle_get parse_f64 read from_str now fresh compiled schema config t).
Notation handle_ndjson_get := (handle_ndjson_get parse_f64 read fresh compiled schema config t).
Notation handle_post := (handle_post from_str json_text execute sort started_at parse_uuid de_error order xxh3_64 now later fresh
  compiled config t).
Notation handle_put := (handle_put from_str json_text execute sort started_at parse_uuid de_error order fresh compiled schema config t).
Notation handle_patch := (handle_patch parse_f64 read from_str json_text execute sort started_at parse_uuid de_error order now fresh
  compiled schema config t).
Notation handle_delete := (handle_delete parse_f64 read from_str json_text execute sort started_at parse_uuid de_error order now fresh
  compiled schema config t).

Definition rest_get_handler (q : HttpRequest) (ex : Executor) : option Answer * Executor :=
  if accepts_ndjson q.(request_headers) then
    match handle_ndjson_get (relative_path q) (query_pairs q) q.(request_headers) q.(security_ctx) ex with
    | (Ok (h, stream), ex) => (Some (mkHttp 200 (header_list h) (Lines stream)), ex)
    | (Err (Refused e), ex) => (Some (error_answer e), ex)
    | (Err (Died _), ex) => (None, ex)
    end
  else
    let '(r, ex) := handle_get (relative_path q) (query_pairs q) q.(request_headers) q.(security_ctx) ex in
    (rest_result_to_response r, ex).
Definition with_body (q : HttpRequest) (w : World) (f : json -> Rest World (RestResponse H)) : option Answer * World :=
  match read_json_body from_slice q.(sent_body) with
  | Err e => (Some (error_answer e), w)
  | Ok v => let '(r, w) := f v w in (rest_result_to_response r, w)
  end.
Definition rest_post_handler (q : HttpRequest) (w : World) : option Answer * World :=
  with_body q w (fun v => handle_post (relative_path q) v q.(request_headers) q.(security_ctx)).
Definition rest_put_handler (q : HttpRequest) (w : World) : option Answer * World :=
  with_body q w (fun v => handle_put (relative_path q) v q.(request_headers) q.(security_ctx)).
Definition rest_patch_handler (q : HttpRequest) (w : World) : option Answer * World :=
  with_body q w (fun v => handle_patch (relative_path q) v (query_pairs q) q.(request_headers) q.(security_ctx)).
Definition rest_delete_handler (q : HttpRequest) (w : World) : option Answer * World :=
  let '(r, w) := handle_delete (relative_path q) (query_pairs q) q.(request_headers) q.(security_ctx) w in
  (rest_result_to_response r, w).

(** The transport of events is never set: with the observers compiled in, a
    stream is heartbeats. *)
Definition rest_sse_handler (observers : bool) (rest_config : option RestConfig) (q : HttpRequest) : Answer :=
  match extract_stream_resource (relative_path q) with
  | None => error_answer (RestHttp.not_found "Stream endpoint not found")
  | Some name =>
      if negb (existsb (fun r => r.(resource_name) =s name) t.(resources))
      then error_answer (RestHttp.not_found ("Resource not found: " ++ name))
      else if match rest_config with Some c => c.(require_auth) | None => false end && negb (is_some q.(security_ctx))
      then error_answer (mkRestError 401 "UNAUTHENTICATED" (WhereClause.Text "Authentication required") None)
      else if observers then
        mkHttp 200 [content_type "text/event-stream"]
          (Events match rest_config with Some c => c.(sse_heartbeat_seconds) | None => DEFAULT_SSE_HEARTBEAT_SECONDS end)
      else error_answer observers_not_available
  end.
End Handlers.
