(* ===== verification/RestRouterFacts.v ===== *)
(** * Properties of the REST streams and router *)

From S2P Require Import Prelude Json WhereClause Chars GraphQL Matcher CacheStore SecurityContext ResponseCache CompiledSchema.
From S2P Require Import RowSecurity Execution RestParams RestResource RestHttp RestHandler RestStream RestRouter.
Import Matching.
#[local] Open Scope Z_scope.

(** ** Streams *)
Section Stream.
Context {P D S M Sub : Type} {RP : RLSPolicy P} {DB : DatabaseAdapter D}.
Context (from_str : string -> option json) (json_text : json -> string) (message_text : WhereClause.message -> string).
Notation Executor := (@Executor P D S M Sub).
Notation stream_items := (stream_items from_str json_text message_text).
Notation stream_next := (stream_next from_str json_text message_text).

(** Without a policy a read leaves the executor as it was, at any time. *)
Lemma direct_without_policy now (ex : Executor) qm ctx : ex.(rls_policy) = None ->
  execute_query_direct from_str now ex qm ctx = ((execute_query_direct from_str 0 ex qm ctx).1, ex).
Proof.
  intros Hp. unfold execute_query_direct, evaluate_policy_if, evaluate_policy. rewrite Hp. by destruct ctx.
Qed.

Section Page.
Context (ex : Executor) (no_policy : ex.(rls_policy) = None) (result_value : json) (rows : list json).

(** The stream is at a batch of this query, whose answer is known. *)
Definition reads_page (st : StreamState) : Prop :=
  st.(done) = false /\ (execute_query_direct from_str 0 ex st.(stream_query) st.(stream_context)).1 = Ok result_value /\
  extract_rows result_value st.(stream_query_name) = Ok rows.
Lemma next_reads_page now st : reads_page st -> stream_next now st ex =
  (match rows with
   | [] => None
   | _ => Some (ndjson_lines json_text rows, if Z.of_nat (length rows) <? st.(batch_size) then finished st else advanced st)
   end, ex).
Proof.
  intros (Hd & Hq & Hr). unfold RestStream.stream_next, fetch_and_serialize_batch, direct_with. rewrite Hd.
  rewrite direct_without_policy by exact no_policy. rewrite Hq, Hr. by destruct rows.
Qed.
Lemma reads_page_advanced st : reads_page st -> reads_page (advanced st).
Proof. done. Qed.
Lemma items_finished st clock : stream_items clock (finished st) ex = [].
Proof. by destruct clock. Qed.
End Page.

(** A stream of lines never reads past its first page.  The offsets of the
    batches are not read by the executor, so every batch is the page of the
    request itself: when it is shorter than a batch, the stream ends after it,
    with or without more rows behind; when it is not, it is sent again and
    again, as long as the client reads. *)
Theorem ndjson_repeats_page (ex : Executor) st result_value rows clock : ex.(rls_policy) = None ->
  st.(done) = false ->
  (execute_query_direct from_str 0 ex st.(stream_query) st.(stream_context)).1 = Ok result_value ->
  extract_rows result_value st.(stream_query_name) = Ok rows ->
  stream_items clock st ex =
    if Nat.eqb (length rows) 0 then []
    else if Z.of_nat (length rows) <? st.(batch_size) then firstn (length clock) [ndjson_lines json_text rows]
    else repeat (ndjson_lines json_text rows) (length clock).
Proof.
  intros Hp Hd Hq Hr. assert (Hst : reads_page ex result_value rows st) by done. clear Hd Hq Hr.
  revert st Hst. induction clock as [|now clock IH]; intros st Hst.
  - cbn. destruct (Nat.eqb _ _); [done|]. by destruct (_ <? _).
  - cbn [RestStream.stream_items]. rewrite (next_reads_page ex Hp result_value rows now st Hst). destruct rows as [|row rows]; [done|].
    cbn [Nat.eqb length]. destruct (_ <? _) eqn:E.
    + rewrite items_finished. cbn. by destruct (length clock).
    + rewrite (IH _ (reads_page_advanced _ _ _ _ Hst)). cbn [Nat.eqb length]. change (batch_size (advanced st)) with st.(batch_size).
      cbn [length] in E. by rewrite E.
Qed.
End Stream.

(** ** Registrations *)
Section Registrations.
Context {Sub : Type} (compiled : @Schema.CompiledSchema QueryDefinition MutationDefinition Sub) (base : string).
Notation collection_path := (collection_path base).

(** The collection's route of a bulk operation, registered when the resource
    has a mutation of the kind, and neither it nor one before it on the same
    path has a route, to a single item or not, with the method. *)
Definition bulk_of (m : HttpMethod) (kind : MutationOperation -> bool) (l : list RestResource) (p : string) : Prop :=
  exists before res after, l = before ++ res :: after /\ p = collection_path res /\ has_mutation compiled kind res = true /\
    forall res', res' ∈ before ++ [res] -> collection_path res' = p -> has_method m res' = false.

Definition taken_for (m : HttpMethod) (taken : Taken) : gset string :=
  match m with Patch => taken.(collection_patch_paths) | _ => taken.(collection_delete_paths) end.
Lemma taken_after_elem m taken res p : m = Patch \/ m = DeleteMethod ->
  p ∈ taken_for m (taken_after base taken res) <-> p ∈ taken_for m taken \/ (has_method m res = true /\ p = collection_path res).
Proof. intros [-> | ->]; cbn; destruct (has_method _ res); set_solver. Qed.

Lemma bulk_cons m kind taken res l p : m = Patch \/ m = DeleteMethod ->
  (has_mutation compiled kind res = true /\ p = collection_path res /\ p ∉ taken_for m (taken_after base taken res)) \/
  (p ∉ taken_for m (taken_after base taken res) /\ bulk_of m kind l p) <->
  p ∉ taken_for m taken /\ bulk_of m kind (res :: l) p.
Proof.
  intros Hm. rewrite (taken_after_elem m taken res p Hm). split.
  - intros [(Hk & -> & Hn)|[Hn (before & r & after & -> & -> & Hk & Hf)]].
    + split; [naive_solver|]. exists [], res, l. do 3 (split; [done|]). intros res' [= ->]%list_elem_of_singleton _.
      destruct (has_method m res) eqn:E; [|done]. exfalso. apply Hn. by right.
    + split; [naive_solver|]. exists (res :: before), r, after. do 3 (split; [done|]).
      intros res' [->|Hin]%list.elem_of_cons Hp; [|by apply Hf]. destruct (has_method m res) eqn:E; [|done]. exfalso. apply Hn. by right.
  - intros [Hn (before & r & after & Heq & -> & Hk & Hf)]. destruct before as [|b before]; injection Heq as -> ->.
    + left. do 2 (split; [done|]). rewrite (Hf r) by set_solver. naive_solver.
    + right. split; [|by exists before, r, after; repeat split; try done; intros res' Hin; apply Hf; set_solver].
      intros [?|[E Hp]]; [done|]. rewrite (Hf b) in E by (set_solver || done). done.
Qed.
Lemma in_bulk taken res reg : reg ∈ bulk_registrations compiled base taken res <->
  (has_mutation compiled is_update res = true /\ collection_path res ∉ taken_for Patch taken /\
     reg = mkRegistration Patch (collection_path res) RestPatch) \/
  (has_mutation compiled is_delete res = true /\ collection_path res ∉ taken_for DeleteMethod taken /\
     reg = mkRegistration DeleteMethod (collection_path res) RestDelete).
Proof.
  unfold bulk_registrations. cbn [taken_for]. rewrite elem_of_app.
  destruct (has_mutation compiled is_update res), (has_mutation compiled is_delete res);
    repeat case_bool_decide; cbn [andb negb]; set_solver.
Qed.

(** What one resource after another registers. *)
Lemma in_resource_registrations taken l reg : reg ∈ resource_registrations compiled base taken l <->
  (exists res r, res ∈ l /\ r ∈ res.(routes) /\ reg = route_registration base r) \/
  (exists res, res ∈ l /\ reg = stream_registration base res) \/
  (exists p, p ∉ taken_for Patch taken /\ bulk_of Patch is_update l p /\ reg = mkRegistration Patch p RestPatch) \/
  (exists p, p ∉ taken_for DeleteMethod taken /\ bulk_of DeleteMethod is_delete l p /\ reg = mkRegistration DeleteMethod p RestDelete).
Proof.
  assert (Hnil : forall m kind p, ~ bulk_of m kind [] p) by (intros m kind p ([|] & ? & ? & [=] & _)).
  revert taken. induction l as [|res l IH]; intros taken; cbn [resource_registrations]; [set_solver|].
  rewrite !elem_of_app, in_bulk, list_elem_of_fmap, list_elem_of_singleton, IH.
  pose proof (fun p => bulk_cons Patch is_update taken res l p (or_introl eq_refl)) as Hp.
  pose proof (fun p => bulk_cons DeleteMethod is_delete taken res l p (or_intror eq_refl)) as Hd.
  setoid_rewrite list.elem_of_cons. split.
  - intros [(r & -> & Hr)|[[(H1 & H2 & ->)|(H1 & H2 & ->)]|[->|[H|[H|[H|H]]]]]].
    + left. exists res, r. auto.
    + right; right; left. exists (collection_path res). split; [|split; [|done]]; apply Hp; auto.
    + right; right; right. exists (collection_path res). split; [|split; [|done]]; apply Hd; auto.
    + right; left. exists res. auto.
    + left. naive_solver.
    + right; left. naive_solver.
    + right; right; left. destruct H as (p & Hn & Hb & ->). exists p. split; [|split; [|done]]; apply Hp; auto.
    + right; right; right. destruct H as (p & Hn & Hb & ->). exists p. split; [|split; [|done]]; apply Hd; auto.
  - intros [(r' & r & [->|Hin] & Hr & ->)|[(r' & [->|Hin] & ->)|[(p & Hn & Hb & ->)|(p & Hn & Hb & ->)]]].
    + left. by exists r.
    + right; right; right; left. by exists r', r.
    + right; right; left. done.
    + right; right; right; right; left. by exists r'.
    + destruct (proj2 (Hp p) (conj Hn Hb)) as [(H1 & -> & H2)|[H1 H2]]; [right; left; left; done | do 5 right; left; by exists p].
    + destruct (proj2 (Hd p) (conj Hn Hb)) as [(H1 & -> & H2)|[H1 H2]]; [right; left; right; done | do 6 right; by exists p].
Qed.

(** The router registers, and no more than: the routes of the table with the
    handler of their method, a stream for each resource, the OpenAPI document,
    and a PATCH or DELETE of a whole collection where the resource has an
    update or a delete and no route at all with that method.  An update or a
    delete of single items is such a route, so the bulk operation of a
    resource that has one is not registered. *)
Theorem registrations_exact t reg : reg ∈ registrations compiled base t <->
  (exists res r, res ∈ t.(resources) /\ r ∈ res.(routes) /\ reg = route_registration base r) \/
  (exists res, res ∈ t.(resources) /\ reg = stream_registration base res) \/
  (exists p, bulk_of Patch is_update t.(resources) p /\ reg = mkRegistration Patch p RestPatch) \/
  (exists p, bulk_of DeleteMethod is_delete t.(resources) p /\ reg = mkRegistration DeleteMethod p RestDelete) \/
  reg = openapi_registration base.
Proof.
  unfold registrations. rewrite elem_of_app, in_resource_registrations, list_elem_of_singleton. cbn [taken_for collection_patch_paths collection_delete_paths].
  assert (Hn : forall p : string, p ∉ (∅ : gset string)) by set_solver. naive_solver.
Qed.
End Registrations.

(** ** Examples *)
Module StreamDemo.
Import ExecDemo.
Definition text_of (v : json) : string := match v with JObject [(_, JString s)] => s | _ => "" end.
Definition no_message (_ : WhereClause.message) : string := "".
Definition stream (batch : Z) : StreamState := mkStream "users" (ask "id") ∅ None batch 0 false.
Notation items clock st := (stream_items no_text text_of no_message clock st (start None None)).

(** Two rows are all there is: in batches of two they never end. *)
Lemma ndjson_repeats_page_witness :
  items [1; 2; 3] (stream 2) = repeat (ndjson_lines text_of rows) 3 /\ items [1; 2; 3] (stream 500) = [ndjson_lines text_of rows].
Proof.
  split.
  - exact (ndjson_repeats_page no_text text_of no_message (start None None) (stream 2) wide rows [1; 2; 3] eq_refl eq_refl eq_refl eq_refl).
  - exact (ndjson_repeats_page no_text text_of no_message (start None None) (stream 500) wide rows [1; 2; 3] eq_refl eq_refl eq_refl eq_refl).
Defined.
(** A [limit] passes the check that means to refuse it. *)
Example limit_accepted : validate_ndjson_request no_preference (Offset 10 0) = Ok tt.
Proof. reflexivity. Qed.
End StreamDemo.

Module RouterDemo.
Import RouteDemo.
Definition show (reg : Registration) : string * string := (method_str reg.(reg_method), reg.(reg_path)).
Definition registered (queries : list QueryDefinition) : list (string * string) :=
  match table queries with Ok t => map show (registrations (compiled queries) "/rest/v1/" t) | Err _ => [] end.

(** The users' resource has PATCH and DELETE of an item: the whole collection
    has neither. *)
Definition served (m p : string) : bool := existsb (fun x => (x.1 =s m) && (x.2 =s p)) (registered [users; user]).
Example no_bulk_routes :
  served "PATCH" "/rest/v1/users/{id}" = true /\ served "DELETE" "/rest/v1/users/{id}" = true /\
  served "PATCH" "/rest/v1/users" = false /\ served "DELETE" "/rest/v1/users" = false.
Proof. vm_compute. done. Qed.

(** A query published at the path of a stream, or at a path that differs in
    its first slash, is registered twice: axum panics at start. *)
Definition published (name p : string) : QueryDefinition :=
  mkQuery name "User" true [] (Some "v_user"%string) auto_none false None Int64 [] [] None ∅ (Some p) None None.
Example registered_twice :
  is_ok (table [users; user; published "live" "/users/stream"]) = true /\
  ~ NoDup (registered [users; user; published "live" "/users/stream"]) /\
  is_ok (table [users; user; published "all" "users"]) = true /\ ~ NoDup (registered [users; user; published "all" "users"]).
Proof. apply (bool_decide_unpack _). vm_compute. exact I. Qed.

Example paths :
  to_axum_path "/rest/v1/" "/users/{id}" = "/rest/v1/users/{id}"%string /\ strip_base_path "/rest/v1/" "/rest/v1" = "/"%string /\
  strip_base_path "/rest/v1" "/rest/v10/users" = "0/users"%string.
Proof. by vm_compute. Qed.
End RouterDemo.
