(* ===== verification/Routing.v ===== *)
(** * From a query's text to its handler

    [runtime/executor/classify.rs], [execution.rs], [security.rs],
    [pipeline.rs], [planning.rs] and [explain.rs], with the checks that come
    first: [security/query_validator.rs] and [security/field_filter.rs].  The
    handlers of aggregates, windows, federation and introspection are
    arguments. *)

From Stdlib Require Import Ascii.
From stdpp Require Import pretty.
From S2P Require Import Prelude Json WhereClause SqlDialect GraphQL Complexity EditDistance Matcher CacheStore Chars SecurityContext ResponseCache OrderBy CacheKey CompiledSchema RowSecurity Projection ProjectionSql Execution Relay Mutation.
Import Matching.
#[local] Open Scope Z_scope.

(** ** [QueryValidator] *)
Module QueryGate.
Record QueryValidatorConfig : Type := mkGate { max_depth : Z; max_complexity : Z; max_size_bytes : Z; max_aliases : Z }.
Definition permissive : QueryValidatorConfig := mkGate 20 5000 1000000 100.
Definition standard : QueryValidatorConfig := mkGate 10 1000 256000 30.
Definition strict : QueryValidatorConfig := mkGate 5 500 64000 10.

Inductive SecurityError : Type :=
| QueryTooDeep (depth max_depth : Z)
| QueryTooComplex (complexity max_complexity : Z)
| QueryTooLarge (size max_size : Z)
| TooManyAliases (alias_count max_aliases : Z)
| MalformedQuery (m : string).
Definition show (e : SecurityError) : string :=
  match e with
  | QueryTooDeep d m => "Query too deep: " ++ pretty d ++ " levels (max: " ++ pretty m ++ ")"
  | QueryTooComplex c m => "Query too complex: " ++ pretty c ++ " (max: " ++ pretty m ++ ")"
  | QueryTooLarge s m => "Query too large: " ++ pretty s ++ " bytes (max: " ++ pretty m ++ ")"
  | TooManyAliases a m => "Query contains too many aliases: " ++ pretty a ++ " > " ++ pretty m
  | MalformedQuery m => "Malformed GraphQL query: " ++ m
  end.
(** The text of an error of the complexity module. *)
Definition show_complexity (e : Validator.ComplexityValidationError) : string :=
  match e with
  | Validator.QueryTooDeep m d => "Query exceeds maximum depth of " ++ pretty m ++ ": depth = " ++ pretty d
  | Validator.QueryTooComplex m c => "Query exceeds maximum complexity of " ++ pretty m ++ ": score = " ++ pretty c
  | Validator.TooManyAliases m a => "Query exceeds maximum alias count of " ++ pretty m ++ ": count = " ++ pretty a
  | Validator.InvalidVariables m => "Invalid variables: " ++ m
  | Validator.MalformedQuery m => "Malformed GraphQL query: " ++ m
  end.

Definition validate (read_document : string -> result string Ast.document) (blank : string -> bool)
    (c : QueryValidatorConfig) (query : string) : result SecurityError Validator.QueryMetrics :=
  let size_bytes := Z.of_nat (String.length query) in
  if c.(max_size_bytes) <? size_bytes then Err (QueryTooLarge size_bytes c.(max_size_bytes))
  else
    let rv := Validator.from_config {| Validator.cfg_max_depth := c.(max_depth);
      Validator.cfg_max_complexity := c.(max_complexity); Validator.cfg_max_aliases := c.(max_aliases) |} in
    metrics ← map_err (fun e => MalformedQuery (show_complexity e)) (Validator.analyze read_document blank rv query);
    if c.(max_depth) <? metrics.(Validator.depth) then Err (QueryTooDeep metrics.(Validator.depth) c.(max_depth))
    else if c.(max_complexity) <? metrics.(Validator.complexity) then
      Err (QueryTooComplex metrics.(Validator.complexity) c.(max_complexity))
    else if c.(max_aliases) <? metrics.(Validator.alias_count) then
      Err (TooManyAliases metrics.(Validator.alias_count) c.(max_aliases))
    else Ok metrics.
End QueryGate.

(** ** [FieldFilter] *)
Module FieldFilter.
Record FieldAccessError : Type := mkDenied { type_name : string; field_name : string; message : string }.
Definition new_error (type_name field_name : string) : FieldAccessError :=
  mkDenied type_name field_name ("Access denied: you do not have permission to access field '" ++ field_name ++ "' on type '" ++
    type_name ++ "'").

Record FieldFilterConfig : Type := mkFilter {
  protected_fields : gmap string (gset string);
  explicit_scopes : gmap string string;
  admin_scopes : gset string;
  default_action : string
}.
Definition new : FieldFilterConfig := mkFilter ∅ ∅ {["admin"%string]} "read".
Definition protect_fields (c : FieldFilterConfig) (t : string) (names : list string) : FieldFilterConfig :=
  mkFilter (<[t := list_to_set names ∪ default ∅ (c.(protected_fields) !! t)]> c.(protected_fields))
    c.(explicit_scopes) c.(admin_scopes) c.(default_action).
Definition protect_field (c : FieldFilterConfig) (t f : string) : FieldFilterConfig := protect_fields c t [f].
Definition protect_type (c : FieldFilterConfig) (t : string) : FieldFilterConfig := protect_fields c t ["*"%string].
Definition require_scope (c : FieldFilterConfig) (t f scope : string) : FieldFilterConfig :=
  let c := protect_field c t f in
  mkFilter c.(protected_fields) (<[(t ++ "." ++ f)%string := scope]> c.(explicit_scopes)) c.(admin_scopes) c.(default_action).
Definition add_admin_scope (c : FieldFilterConfig) (scope : string) : FieldFilterConfig :=
  mkFilter c.(protected_fields) c.(explicit_scopes) ({[scope]} ∪ c.(admin_scopes)) c.(default_action).
Definition with_default_action (c : FieldFilterConfig) (action : string) : FieldFilterConfig :=
  mkFilter c.(protected_fields) c.(explicit_scopes) c.(admin_scopes) action.

Definition is_protected (c : FieldFilterConfig) (t f : string) : bool :=
  match c.(protected_fields) !! t with
  | Some fields => bool_decide (f ∈ fields) || bool_decide ("*"%string ∈ fields)
  | None => false
  end.

Definition can_access (c : FieldFilterConfig) (t f : string) (scopes : list string) : result FieldAccessError unit :=
  if negb (is_protected c t f) then Ok tt
  else if existsb (fun s => bool_decide (s ∈ c.(admin_scopes))) scopes then Ok tt
  else
    match c.(explicit_scopes) !! (t ++ "." ++ f)%string with
    | Some required => if member required scopes then Ok tt else Err (new_error t f)
    | None =>
        let action := c.(default_action) in
        if member (action ++ ":" ++ t ++ "." ++ f)%string scopes then Ok tt
        else if member (action ++ ":" ++ t ++ ".*")%string scopes then Ok tt
        else if member (action ++ ":*")%string scopes then Ok tt
        else Err (new_error t f)
    end.
Definition validate_fields (c : FieldFilterConfig) (t : string) (names scopes : list string) : list FieldAccessError :=
  omap (fun f => match can_access c t f scopes with Ok _ => None | Err e => Some e end) names.
End FieldFilter.

(** ** [classify_query] *)
Inductive QueryType : Type :=
| Regular
| Aggregate (query_name : string)
| Window (query_name : string)
| Federation (query_name : string)
| IntrospectionSchema
| IntrospectionType (type_name : string)
| Mutation (mutation_name : string) (type_selections : gmap string (list string))
| NodeQuery (node_selections : list Types.FieldSelection).

(** [ends_with] of a text. *)
Definition ends_with_str (p s : string) : bool := match strip_suffix p s with Some _ => true | None => false end.
Definition quote_text : string := String double_quote EmptyString.

Definition extract_root_string_arg (parsed : Types.ParsedQuery) (arg_name : string) : option string :=
  root ← head parsed.(Types.query_selections);
  arg ← find (fun a => a.(Types.arg_name) =s arg_name) (Types.arguments root);
  let json := arg.(Types.value_json) in
  if starts_with quote_text json && ends_with double_quote json && (2 <=? String.length json)%nat then
    Some (replace (String "\" quote_text) quote_text (String.substring 1 (String.length json - 2) json))
  else None.

Definition flatten_inline (sels : list Types.FieldSelection) : list Types.FieldSelection :=
  flat_map (fun sel => if starts_with "..." (Types.name sel) then Types.nested_fields sel else [sel]) sels.
Definition add_selection (m : gmap string (list string)) (f : Types.FieldSelection) : gmap string (list string) :=
  let extend k l := <[k := default [] (m !! k) ++ l]> m in
  match strip_prefix "...on " (Types.name f) with
  | Some t => extend t (map Types.response_key (Types.nested_fields f))
  | None => extend ""%string [Types.response_key f]
  end.
Definition type_selections (parsed : Types.ParsedQuery) : gmap string (list string) :=
  match parsed.(Types.query_selections) with s :: _ => foldl add_selection ∅ (Types.nested_fields s) | [] => ∅ end.

Definition classify_parsed (parsed : Types.ParsedQuery) : QueryType * option Types.ParsedQuery :=
  let root := parsed.(Types.root_field) in
  if root =s "__schema" then (IntrospectionSchema, None)
  else if root =s "__type" then (IntrospectionType (default ""%string (extract_root_string_arg parsed "name")), None)
  else if (root =s "_service") || (root =s "_entities") then (Federation root, None)
  else if (parsed.(Types.operation_type) =s "query") && (root =s "node") then
    (NodeQuery (match parsed.(Types.query_selections) with s :: _ => flatten_inline (Types.nested_fields s) | [] => [] end), None)
  else if parsed.(Types.operation_type) =s "mutation" then (Mutation root (type_selections parsed), None)
  else if ends_with_str "_aggregate" root then (Aggregate root, None)
  else if ends_with_str "_window" root then (Window root, None)
  else (Regular, Some parsed).

Section Classify.
Context (read_document : string -> result string Ast.document).
Definition classify_query_with_parse (query : string) : result error (QueryType * option Types.ParsedQuery) :=
  parsed ← map_err (fun e => Parse (Parser.show e) "query") (Parser.parse_query read_document query);
  Ok (classify_parsed parsed).
Definition classify_query (query : string) : result error QueryType := fst <$> classify_query_with_parse query.
End Classify.

(** ** Several root fields: [pipeline.rs] *)
Module Pipeline.
Section Text.
(** [serde_json::from_str] and the text of a number. *)
Context (from_str : string -> option json) (number_text : json_number -> string).

Fixpoint json_value_to_graphql (v : json) : string :=
  match v with
  | JObject fields => "{" ++ join ", " (map (fun kv => (kv.1 ++ ": " ++ json_value_to_graphql kv.2)%string) fields) ++ "}"
  | JArray items => "[" ++ join ", " (map json_value_to_graphql items) ++ "]"
  | JString s => quote_text ++ s ++ quote_text
  | JNumber n => number_text n
  | JBool b => if b then "true" else "false"
  | JNull => "null"
  end.
Definition read_string (s : string) : string := match from_str s with Some (JString t) => t | _ => s end.
Definition arg_value_to_graphql (arg : Types.GraphQLArgument) : string :=
  let text := arg.(Types.value_json) in
  let kind := arg.(Types.value_type) in
  if kind =s "variable" then read_string text
  else if kind =s "object" then match from_str text with Some v => json_value_to_graphql v | None => text end
  else if kind =s "enum" then read_string text
  else text.
Definition serialize_arg (arg : Types.GraphQLArgument) : string := arg.(Types.arg_name) ++ ": " ++ arg_value_to_graphql arg.
Fixpoint serialize_field (f : Types.FieldSelection) : string :=
  (match Types.alias f with Some alias => alias ++ ": " | None => "" end) ++
  Types.name f ++
  (match Types.arguments f with [] => "" | args => "(" ++ join ", " (map serialize_arg args) ++ ")" end) ++
  (match Types.nested_fields f with [] => "" | sub => " { " ++ join " " (map serialize_field sub) ++ " }" end).
Definition field_selection_to_query (f : Types.FieldSelection) : string := "{ " ++ serialize_field f ++ " }".
End Text.

Definition is_multi_root (parsed : Types.ParsedQuery) : bool := (1 <? length parsed.(Types.query_selections))%nat.
Definition extract_root_field_names (parsed : Types.ParsedQuery) : list string :=
  map Types.response_key parsed.(Types.query_selections).

Record RootFieldResult : Type := mkRoot { root_name : string; root_data : json }.
Record PipelineResult : Type := mkPipeline { pipeline_fields : list RootFieldResult; parallel : bool }.
Definition merge_into_data_map (r : PipelineResult) : list (string * json) :=
  foldl (fun m f => map_insert f.(root_name) f.(root_data) m) [] r.(pipeline_fields).
(** [response["data"][key]]: null where it is missing. *)
Definition root_value (response : json) (key : string) : json := default JNull (json_get response "data" ≫= fun d => json_get d key).
End Pipeline.
Import Pipeline.

(** ** [Executor::execute] and its variants *)
Section Engine.
Context {P D S Sub R : Type} {RP : RLSPolicy P} {DB : DatabaseAdapter D} {MD : MutationAdapter D} {ST : Store (Z * Z) ResponseEntry S}.
Context {RD : RelayDatabaseAdapter R} {B : Base64}.
(** The cache of parsed queries is a [moka] cache too. *)
Context {PC : Type} {SP : Store Z (QueryType * option Types.ParsedQuery) PC}.
(** Outside the crate: GraphQL text, [serde_json], [str::trim]'s blank texts,
    sorting, the hashers, the clock, printing. *)
Context (read_document : string -> result string Ast.document) (from_str : string -> option json) (blank : string -> bool).
Context (sort : list (nat * string) -> list (nat * string)) (json_text : json -> string) (number_text : json_number -> string).
Context (finish : list SecurityHash.write -> Z) (xxh3 : string -> Z) (started_at : string).
Context (debug : string -> string) (database_name : DatabaseType -> string).
Context (parse_uuid : string -> option string) (de_error : gmap string json -> string) (order : gset (Z * Z) -> list (Z * Z)).
Notation Executor := (@Executor P D S MutationDefinition Sub).
Notation classified := (QueryType * option Types.ParsedQuery)%type.

(** The other handlers. *)
Record Handlers : Type := mkHandlers {
  execute_aggregate_dispatch : string -> option json -> result error json;
  execute_window_dispatch : string -> option json -> result error json;
  execute_federation_query : string -> string -> option json -> result error json;
  schema_response : json;
  get_type_response : string -> json
}.
Record RuntimeConfig : Type := mkConfig {
  query_timeout_ms : Z;
  field_filter : option FieldFilter.FieldFilterConfig;
  query_validation : option QueryGate.QueryValidatorConfig
}.
Record Engine : Type := mkEngine {
  core : Executor;
  relay_db : option R;
  node_types : gmap string string;
  config : RuntimeConfig;
  parse_cache : PC
}.
Definition with_core (en : Engine) (ex : Executor) : Engine :=
  mkEngine ex en.(relay_db) en.(node_types) en.(config) en.(parse_cache).
Definition with_parse_cache (en : Engine) (c : PC) : Engine :=
  mkEngine en.(core) en.(relay_db) en.(node_types) en.(config) c.

Context (handlers : Handlers).

Definition relay_handler (en : Engine) (now : Z) :
    Executor -> QMatch -> option json -> option SecurityContext -> result error json * Executor :=
  execute_relay_query debug database_name en.(relay_db) now.
Definition run_regular (now : Z) (en : Engine) (query : string) (vars : option json) : result error json * Engine :=
  let '(r, ex) := execute_regular_query read_document from_str sort (relay_handler en now) en.(core) query vars in
  (r, with_core en ex).
Definition run_secured (now : Z) (en : Engine) (query : string) (vars : option json) (ctx : SecurityContext) :
    result error json * Engine :=
  let '(r, ex) := execute_regular_query_with_security read_document from_str sort json_text finish started_at
    (relay_handler en now) now en.(core) query vars ctx in
  (r, with_core en ex).

(** The sub-queries in their order; the first error is returned. *)
Fixpoint execute_roots (now : Z) (en : Engine) (roots : list Types.FieldSelection) (vars : option json) :
    result error (list RootFieldResult) * Engine :=
  match roots with
  | [] => (Ok [], en)
  | f :: roots =>
      match run_regular now en (field_selection_to_query from_str number_text f) vars with
      | (Err e, en) => (Err e, en)
      | (Ok response, en) =>
          let '(rest, en) := execute_roots now en roots vars in
          (cons (mkRoot (Types.response_key f) (root_value response (Types.response_key f))) <$> rest, en)
      end
  end.
Definition execute_parallel (now : Z) (en : Engine) (parsed : Types.ParsedQuery) (vars : option json) :
    result error PipelineResult * Engine :=
  let '(r, en) := execute_roots now en parsed.(Types.query_selections) vars in ((fun l => mkPipeline l true) <$> r, en).

(** The cache of parsed queries is asked by the hash of the text. *)
Definition classify_cached (en : Engine) (query : string) : result error classified * Engine :=
  match get en.(parse_cache) (xxh3 query) with
  | Some found => (Ok found, en)
  | None =>
      match classify_query_with_parse read_document query with
      | Ok found => (Ok found, with_parse_cache en (insert_entry en.(parse_cache) (xxh3 query) found).1)
      | Err e => (Err e, en)
      end
  end.

Definition regular_without_parse : error :=
  Internal (WhereClause.Text "classifier returned Regular without a parsed query — this is a bug") None.
(** With a token the check of the adapter is skipped. *)
Definition run_mutation (en : Engine) (name : string) (vars : option json) (ctx : option SecurityContext)
    (sels : gmap string (list string)) : result error json * Engine :=
  let '(r, ex) :=
    match ctx with
    | Some _ => execute_mutation_query_with_security from_str sort json_text started_at parse_uuid de_error order name vars ctx sels en.(core)
    | None => execute_mutation_query from_str sort json_text started_at parse_uuid de_error order name vars sels en.(core)
    end in
  (r, with_core en ex).
Definition route_other (en : Engine) (kind : QueryType) (query : string) (vars : option json) (ctx : option SecurityContext) :
    result error json * Engine :=
  match kind with
  | Aggregate name => (handlers.(execute_aggregate_dispatch) name vars, en)
  | Window name => (handlers.(execute_window_dispatch) name vars, en)
  | Federation name => (handlers.(execute_federation_query) name query vars, en)
  | IntrospectionSchema => (Ok handlers.(schema_response), en)
  | IntrospectionType t => (Ok (handlers.(get_type_response) t), en)
  | Mutation name sels => run_mutation en name vars ctx sels
  | NodeQuery sels => (execute_node_query en.(core) en.(node_types) query vars sels, en)
  | Regular => (Err regular_without_parse, en)
  end.

Definition execute_internal (now : Z) (en : Engine) (query : string) (vars : option json) : result error json * Engine :=
  match classify_cached en query with
  | (Err e, en) => (Err e, en)
  | (Ok (Regular, Some parsed), en) =>
      if is_multi_root parsed then
        let '(pr, en) := execute_parallel now en parsed vars in
        ((fun pr => JObject [("data"%string, JObject (merge_into_data_map pr))]) <$> pr, en)
      else run_regular now en query vars
  | (Ok (kind, _), en) => route_other en kind query vars None
  end.

(** The error of a query that took too long; [None]: the text is cut inside a
    character, which panics. *)
Definition timeout_error (c : RuntimeConfig) (query : string) : option error :=
  let timed s := QueryTimeout c.(query_timeout_ms) (Some s) in
  if (100 <? String.length query)%nat then (fun s => timed (s ++ "...")%string) <$> slice query 0 100
  else Some (timed query).
(** [tokio::time::timeout]: whether the time was over is an argument. *)
Definition within_time (late : bool) (en : Engine) (query : string) (answer : result error json * Engine) :
    option (result error json) * Engine :=
  if (0 <? en.(config).(query_timeout_ms)) && late then (Err <$> timeout_error en.(config) query, en)
  else (Some answer.1, answer.2).

Definition check_structure (en : Engine) (query : string) : result error unit :=
  match en.(config).(query_validation) with
  | Some cfg =>
      match QueryGate.validate read_document blank cfg query with
      | Ok _ => Ok tt
      | Err e => Err (Validation (WhereClause.Text (QueryGate.show e)) (Some "query"%string))
      end
  | None => Ok tt
  end.
Definition execute (late : bool) (now : Z) (en : Engine) (query : string) (vars : option json) :
    option (result error json) * Engine :=
  match check_structure en query with
  | Err e => (Some (Err e), en)
  | Ok _ => within_time late en query (execute_internal now en query vars)
  end.

(** The names checked are those of [query_match.fields]. *)
Definition validate_field_access (en : Engine) (query : string) (vars : option json) (scopes : list string)
    (filter : FieldFilter.FieldFilterConfig) : result error unit :=
  qm ← match_query query_name read_document from_str sort en.(core).(compiled) query vars;
  match FieldFilter.validate_fields filter qm.(query_def).(return_type) qm.(fields) scopes with
  | [] => Ok tt
  | e :: _ =>
      Err (Authorization e.(FieldFilter.message) (Some "read"%string)
        (Some (e.(FieldFilter.type_name) ++ "." ++ e.(FieldFilter.field_name))%string))
  end.
Definition execute_with_scopes (now : Z) (en : Engine) (query : string) (vars : option json) (scopes : list string) :
    result error json * Engine :=
  match (_ ← check_structure en query;
         kind ← classify_query read_document query;
         match en.(config).(field_filter), kind with
         | Some filter, Regular => validate_field_access en query vars scopes filter
         | _, _ => Ok tt
         end) with
  | Err e => (Err e, en)
  | Ok _ => execute_internal now en query vars
  end.
Definition check_field_access (en : Engine) (t f : string) (scopes : list string) : result FieldFilter.FieldAccessError unit :=
  match en.(config).(field_filter) with Some filter => FieldFilter.can_access filter t f scopes | None => Ok tt end.

Definition execute_with_security_internal (now : Z) (en : Engine) (query : string) (vars : option json) (ctx : SecurityContext) :
    result error json * Engine :=
  match classify_query read_document query with
  | Err e => (Err e, en)
  | Ok Regular => run_secured now en query vars ctx
  | Ok kind => route_other en kind query vars (Some ctx)
  end.
Definition execute_with_security (late : bool) (now : Z) (en : Engine) (query : string) (vars : option json) (ctx : SecurityContext) :
    option (result error json) * Engine :=
  within_time late en query (execute_with_security_internal now en query vars ctx).
End Engine.

(** * What routing keeps

    The cache of parsed queries does not change an answer while no two texts
    share a hash; the root fields of one document are answered like queries of
    their own; the gate before execution is the request validator's. *)

Import Matching Pipeline.

(** ** The gate *)

(** The executor's gate accepts exactly the texts that are short enough and
    that the request validator accepts under the same limits, and then its
    numbers are within them. *)
Theorem gate_is_request_validator read_document blank (c : QueryGate.QueryValidatorConfig) query :
  let rv := Validator.from_config {| Validator.cfg_max_depth := c.(QueryGate.max_depth);
    Validator.cfg_max_complexity := c.(QueryGate.max_complexity); Validator.cfg_max_aliases := c.(QueryGate.max_aliases) |} in
  is_ok (QueryGate.validate read_document blank c query) = true <->
  Z.of_nat (String.length query) <= c.(QueryGate.max_size_bytes) /\
  Validator.validate_query read_document blank rv query = Ok ().
Proof.
  cbn zeta. unfold QueryGate.validate, Validator.analyze, Validator.validate_query, Validator.validate_document, Validator.from_config.
  cbn [Validator.cfg_max_depth Validator.cfg_max_complexity Validator.cfg_max_aliases].
  destruct (Z.ltb_spec c.(QueryGate.max_size_bytes) (Z.of_nat (String.length query))) as [Hs|Hs].
  { split; [done|]. intros [H _]. lia. }
  cbn [Validator.validate_depth Validator.validate_complexity negb andb].
  destruct (blank query); [split; [done | by intros [_ H]]|].
  destruct (Validator.read read_document query) as [doc|e]; cbn [mbind result_bind map_err]; [|split; [done | by intros [_ H]]].
  set (rv := Validator.mkValidator _ _ _ true true).
  cbn [Validator.depth Validator.complexity Validator.alias_count].
  cbn [Validator.max_depth Validator.max_complexity Validator.max_aliases_per_query].
  destruct (_ <? Validator.calculate_depth_ast rv doc _); [split; [done | by intros [_ H]]|].
  destruct (_ <? Validator.calculate_complexity_ast rv doc _); [split; [done | by intros [_ H]]|].
  destruct (_ <? Validator.count_aliases_ast doc); [split; [done | by intros [_ H]]|]. split; [|done]. intros _. split; [lia|done].
Qed.

(** ** Field filters *)
Lemma member_in x l : member x l = true <-> x ∈ l.
Proof.
  unfold member. rewrite existsb_exists. split.
  - intros (y & Hy & ->%String.eqb_eq). by apply list_elem_of_In.
  - intros H. exists x. split; [by apply list_elem_of_In | apply String.eqb_refl].
Qed.

(** When a field may be read. *)
Lemma can_access_exact c t f scopes : is_ok (FieldFilter.can_access c t f scopes) = true <->
  FieldFilter.is_protected c t f = false \/ (exists s, s ∈ scopes /\ s ∈ c.(FieldFilter.admin_scopes)) \/
  match c.(FieldFilter.explicit_scopes) !! (t ++ "." ++ f)%string with
  | Some required => required ∈ scopes
  | None =>
      let a := c.(FieldFilter.default_action) in
      (a ++ ":" ++ t ++ "." ++ f)%string ∈ scopes \/ (a ++ ":" ++ t ++ ".*")%string ∈ scopes \/ (a ++ ":*")%string ∈ scopes
  end.
Proof.
  unfold FieldFilter.can_access. destruct (FieldFilter.is_protected c t f); cbn [negb]; [|split; [by left|done]].
  destruct (existsb _ scopes) eqn:Ea.
  { split; [intros _|done]. right. left. apply existsb_exists in Ea as (s & Hs & Hb). exists s.
    split; [by apply list_elem_of_In | by apply bool_decide_eq_true in Hb]. }
  assert (Hna : ~ exists s, s ∈ scopes /\ s ∈ c.(FieldFilter.admin_scopes)).
  { intros (s & Hs & Hin). assert (existsb (fun s => bool_decide (s ∈ c.(FieldFilter.admin_scopes))) scopes = true) as H; [|congruence].
    apply existsb_exists. exists s. split; [by apply list_elem_of_In | by apply bool_decide_eq_true]. }
  destruct (c.(FieldFilter.explicit_scopes) !! _) as [required|].
  - destruct (member required scopes) eqn:Em.
    + split; [|done]. intros _. right. right. by apply member_in.
    + split; [done|]. intros [H|[H|H]]; [done|done|]. apply member_in in H. congruence.
  - cbn zeta. rewrite <- !member_in. destruct (member _ scopes); [split; [tauto|done]|]. destruct (member _ scopes); [split; [tauto|done]|].
    destruct (member _ scopes); [split; [tauto|done]|]. split; [done|]. intros [H|[H|[H|[H|H]]]]; congruence || done.
Qed.

(** ** Root fields and the cache of parsed queries *)
Section Engine.
Context {P D S Sub R : Type} {RP : RLSPolicy P} {DB : DatabaseAdapter D} {MD : MutationAdapter D} {ST : Store (Z * Z) ResponseEntry S}.
Context {RD : RelayDatabaseAdapter R} {B : Base64}.
Context {PC : Type} {SP : Store Z (QueryType * option Types.ParsedQuery) PC} {SPL : StoreLaws Z (QueryType * option Types.ParsedQuery) PC}.
Context (read_document : string -> result string Ast.document) (from_str : string -> option json).
Context (sort : list (nat * string) -> list (nat * string)) (number_text : json_number -> string) (xxh3 : string -> Z).
Context (debug : string -> string) (database_name : DatabaseType -> string) (handlers : Handlers).
Context (json_text : json -> string) (started_at : string) (parse_uuid : string -> option string) (de_error : gmap string json -> string).
Context (order : gset (Z * Z) -> list (Z * Z)).
Notation Engine := (@Engine P D S Sub R PC).
Notation regular := (run_regular read_document from_str sort debug database_name).
Notation internal := (execute_internal read_document from_str sort json_text number_text xxh3 started_at debug database_name parse_uuid de_error order handlers).
Notation route := (route_other from_str sort json_text started_at parse_uuid de_error order handlers).
Notation text_of := (field_selection_to_query from_str number_text).

(** Without a context nothing is written: queries of one document may run in
    any order. *)
Lemma relay_keeps relay now (ex : @Executor P D S MutationDefinition Sub) qm vars :
  (execute_relay_query debug database_name relay now ex qm vars None).2 = ex.
Proof.
  unfold execute_relay_query. destruct qm.(query_def).(inject_params); [|done].
  destruct (ok_or _ _ ≫= _) as [[[source column] db]|e]; done.
Qed.
Lemma regular_keeps now (en : Engine) query vars : (regular now en query vars).2 = en.
Proof.
  unfold run_regular, execute_regular_query. destruct (match_query _ _ _ _ _ _ _) as [qm|e]; [|by destruct en].
  destruct (is_some _); [by destruct en|]. destruct qm.(query_def).(inject_params); [|by destruct en].
  destruct qm.(query_def).(relay); [|by destruct en].
  pose proof (relay_keeps en.(relay_db) now en.(core) qm vars) as H. unfold relay_handler.
  destruct (execute_relay_query _ _ _ _ _ _ _ _) as [r ex]. cbn in *. subst. by destruct en.
Qed.

Lemma regular_any_cache now (en : Engine) c query vars :
  regular now (with_parse_cache en c) query vars = ((regular now en query vars).1, with_parse_cache en c).
Proof.
  apply injective_projections; cbn [fst snd]; [|apply regular_keeps]. unfold run_regular, relay_handler. cbn [core relay_db with_parse_cache].
  by destruct (execute_regular_query _ _ _ _ _ _ _).
Qed.

Lemma roots_answered now (en : Engine) roots vars :
  execute_roots read_document from_str sort number_text debug database_name now en roots vars =
  (each (fun f => response ← (regular now en (text_of f) vars).1;
          Ok (mkRoot (Types.response_key f) (root_value response (Types.response_key f)))) roots, en).
Proof.
  induction roots as [|f roots IH]; [done|]. cbn [execute_roots each].
  pose proof (regular_keeps now en (text_of f) vars) as Hk. destruct (regular now en (text_of f) vars) as [[r|e] en']; cbn in Hk; subst;
    cbn [fst mbind result_bind]; [|done]. rewrite IH. by destruct (each _ roots).
Qed.

Lemma merged_lookup l m k :
  assoc k (foldl (fun m f => map_insert f.(root_name) f.(root_data) m) m l) =
  match find (fun f => f.(root_name) =s k) (rev l) with Some f => Some f.(root_data) | None => assoc k m end.
Proof.
  revert m. induction l as [|f l IH] using rev_ind; intros m; [done|].
  rewrite foldl_app. cbn [foldl]. rewrite assoc_map_insert, rev_app_distr. cbn [rev app find]. destruct (f.(root_name) =s k); [done|]. apply IH.
Qed.

Lemma each_ok {A C} (f : A -> result error C) l ys : each f l = Ok ys -> Forall2 (fun x y => f x = Ok y) l ys.
Proof.
  revert ys. induction l as [|x l IH]; intros ys; cbn [each]; [intros [= <-]; constructor|].
  intros (y & Hy & (ys' & Hys & [= <-])%bind_Ok)%bind_Ok. constructor; auto.
Qed.

Lemma each_ext {A C} (f g : A -> result error C) l : (forall x, f x = g x) -> each f l = each g l.
Proof. intros H. induction l as [|x l IH]; [done|]. cbn [each]. by rewrite H, IH. Qed.

Lemma merged now (en : Engine) query parsed vars v :
  classify_query_with_parse read_document query = Ok (Regular, Some parsed) -> get en.(parse_cache) (xxh3 query) = None ->
  is_multi_root parsed = true -> (internal now en query vars).1 = Ok v ->
  forall f, f ∈ parsed.(Types.query_selections) ->
    (forall g, g ∈ parsed.(Types.query_selections) -> Types.response_key g = Types.response_key f -> g = f) ->
  exists response, (regular now en (text_of f) vars).1 = Ok response /\
    (json_get v "data" ≫= fun d => json_get d (Types.response_key f)) = Some (root_value response (Types.response_key f)).
Proof.
  intros Hc Hn Hm. unfold execute_internal, classify_cached. rewrite Hn, Hc, Hm. unfold execute_parallel. rewrite roots_answered.
  set (en' := with_parse_cache en _).
  assert (Hr : forall q, (regular now en' q vars).1 = (regular now en q vars).1) by (intros q; unfold en'; by rewrite regular_any_cache).
  destruct (each _ _) as [ys|e] eqn:E; [|done]. intros [= <-] f Hf Hu. apply each_ok in E.
  assert (Hall : Forall2 (fun f y => exists response, (regular now en (text_of f) vars).1 = Ok response /\
    y = mkRoot (Types.response_key f) (root_value response (Types.response_key f))) parsed.(Types.query_selections) ys).
  { eapply List.Forall2_impl; [|exact E]. intros g y (response & Hg & [= <-])%bind_Ok. rewrite Hr in Hg. by exists response. }
  clear E Hr. cbn [json_get assoc]. unfold merge_into_data_map. cbn [pipeline_fields mbind option_bind json_get].
  change (("data" =s "data")%string) with true. cbn [mbind option_bind json_get]. rewrite merged_lookup.
  destruct (find _ (rev ys)) as [y|] eqn:Ey.
  - apply find_some in Ey as [Hin Hk%streqb_true]. apply list_elem_of_In in Hin.
    assert (Hy : y ∈ ys) by (apply list_elem_of_In, in_rev, list_elem_of_In; done).
    apply list_elem_of_lookup_1 in Hy as [i Hi]. destruct (Forall2_lookup_r _ _ _ _ _ Hall Hi) as (g & Hg & response & Hgr & ->).
    cbn [root_name] in Hk. assert (g = f) as -> by (apply Hu; [by eapply list_elem_of_lookup_2|done]). by exists response.
  - exfalso. apply list_elem_of_lookup_1 in Hf as [i Hi]. destruct (Forall2_lookup_l _ _ _ _ _ Hall Hi) as (y & Hy & response & _ & ->).
    apply list_elem_of_lookup_2 in Hy. apply list_elem_of_In, in_rev in Hy.
    pose proof (find_none _ _ Ey _ Hy) as Hk. cbn in Hk. by rewrite streqb_refl in Hk.
Qed.

(** A document with several root fields is answered, without a context, with
    one object, in which each root field's key is what the field, as a
    document of its own, answers under this key. *)
Theorem multi_root_merges now (en : Engine) query parsed vars v :
  classify_query_with_parse read_document query = Ok (Regular, Some parsed) -> get en.(parse_cache) (xxh3 query) = None ->
  is_multi_root parsed = true -> (internal now en query vars).1 = Ok v ->
  forall f, f ∈ parsed.(Types.query_selections) ->
    (forall g, g ∈ parsed.(Types.query_selections) -> Types.response_key g = Types.response_key f -> g = f) ->
  exists response, (regular now en (text_of f) vars).1 = Ok response /\
    (json_get v "data" ≫= fun d => json_get d (Types.response_key f)) = Some (root_value response (Types.response_key f)).
Proof. intros Hc Hn Hm Hv f Hf Hu. by apply (merged now en query parsed vars v). Qed.

(** The texts the engine has been asked and the parsed queries it keeps. *)
Definition no_collision (texts : list string) : Prop := forall a b, a ∈ texts -> b ∈ texts -> xxh3 a = xxh3 b -> a = b.
Definition cache_sound (texts : list string) (en : Engine) : Prop :=
  forall q found, q ∈ texts -> get en.(parse_cache) (xxh3 q) = Some found -> classify_query_with_parse read_document q = Ok found.

Lemma route_any_cache (en : Engine) c kind query vars ctx :
  route (with_parse_cache en c) kind query vars ctx =
  ((route en kind query vars ctx).1, with_parse_cache (route en kind query vars ctx).2 c).
Proof.
  destruct kind; try done. cbn [route_other]. unfold run_mutation. cbn [core with_parse_cache]. destruct ctx.
  - by destruct (execute_mutation_query_with_security _ _ _ _ _ _ _ _ _ _ _ _).
  - by destruct (execute_mutation_query _ _ _ _ _ _ _ _ _ _ _).
Qed.

(** The engine without its cache of parsed queries. *)
Definition execute_uncached (now : Z) (en : Engine) (query : string) (vars : option json) : result error json * Engine :=
  match classify_query_with_parse read_document query with
  | Err e => (Err e, en)
  | Ok (Regular, Some parsed) =>
      if is_multi_root parsed then
        ((fun l => JObject [("data"%string, JObject (merge_into_data_map (mkPipeline l true)))]) <$>
          each (fun f => response ← (regular now en (text_of f) vars).1;
            Ok (mkRoot (Types.response_key f) (root_value response (Types.response_key f)))) parsed.(Types.query_selections), en)
      else regular now en query vars
  | Ok (kind, _) => route en kind query vars None
  end.

Lemma classify_sound texts (en : Engine) query : no_collision texts -> cache_sound texts en -> query ∈ texts ->
  exists c, classify_cached read_document xxh3 en query = (classify_query_with_parse read_document query, with_parse_cache en c) /\
    cache_sound texts (with_parse_cache en c).
Proof.
  intros Hn Hs Hq. assert (He : en = with_parse_cache en en.(parse_cache)) by by destruct en.
  unfold classify_cached. destruct (get en.(parse_cache) (xxh3 query)) as [found|] eqn:E.
  - exists en.(parse_cache). by rewrite <- He, (Hs query found Hq E).
  - destruct (classify_query_with_parse read_document query) as [found|e] eqn:Ec.
    + eexists. split; [done|]. intros q f Hin. cbn. intros [[Hh ->]|[_ Hg]]%insert_get; [by rewrite (Hn q query Hin Hq Hh) | by apply Hs].
    + exists en.(parse_cache). by rewrite <- He.
Qed.

Lemma internal_cached texts now (en : Engine) c query vars : no_collision texts -> cache_sound texts (with_parse_cache en c) -> query ∈ texts ->
  exists c', internal now (with_parse_cache en c) query vars =
      ((execute_uncached now en query vars).1, with_parse_cache (execute_uncached now en query vars).2 c') /\
    forall en', cache_sound texts (with_parse_cache en' c').
Proof.
  intros Hn Hs Hq. destruct (classify_sound texts _ query Hn Hs Hq) as (c' & Hc & Hs'). exists c'. split; [|intros en'; exact Hs'].
  change (with_parse_cache (with_parse_cache en c) c') with (with_parse_cache en c') in Hc.
  unfold execute_internal, execute_uncached. rewrite Hc. destruct (classify_query_with_parse read_document query) as [[kind parsed]|e]; [|done].
  destruct kind, parsed as [p|]; try apply route_any_cache.
  destruct (is_multi_root p); [|rewrite regular_any_cache; by rewrite regular_keeps].
  unfold execute_parallel. rewrite roots_answered. cbn [fst snd].
  rewrite (each_ext _ (fun f => response ← (regular now en (text_of f) vars).1;
    Ok (mkRoot (Types.response_key f) (root_value response (Types.response_key f))))) by (intros f; by rewrite regular_any_cache).
  by destruct (each _ _).
Qed.

(** Requests one after another, each with its variables. *)
Fixpoint answers (run : Engine -> string -> option json -> result error json * Engine) (en : Engine)
    (requests : list (string * option json)) : list (result error json) :=
  match requests with
  | [] => []
  | (q, vars) :: requests => let '(r, en) := run en q vars in r :: answers run en requests
  end.

(** As long as no two texts of a sequence of requests share a hash, queries
    and mutations are answered as by the engine that parses every text anew,
    whatever the cache of parsed queries evicts. *)
Theorem parse_cache_transparent now (en : Engine) requests : no_collision requests.*1 ->
  (forall h, get en.(parse_cache) h = None) ->
  answers (internal now) en requests = answers (execute_uncached now) en requests.
Proof.
  intros Hn Hcold.
  assert (H : forall rs en' c, rs.*1 ⊆ requests.*1 -> cache_sound requests.*1 (with_parse_cache en' c) ->
    answers (internal now) (with_parse_cache en' c) rs = answers (execute_uncached now) en' rs).
  { induction rs as [|[q vars] rs IH]; intros en' c Hsub Hs; [done|]. cbn [answers].
    destruct (internal_cached requests.*1 now en' c q vars Hn Hs) as (c' & -> & Hs'); [set_solver|].
    destruct (execute_uncached now en' q vars) as [r en2]. cbn [fst snd]. f_equal. apply IH; [set_solver | apply Hs']. }
  assert (He : en = with_parse_cache en en.(parse_cache)) by by destruct en. rewrite He at 1. apply H; [done|].
  intros q found _. rewrite <- He. by rewrite Hcold.
Qed.

(** The answer to a document is kept under the name of the query's definition. *)
Lemma plain_envelope now (en : Engine) query vars response : (regular now en query vars).1 = Ok response ->
  exists qm d, match_query query_name read_document from_str sort en.(core).(compiled) query vars = Ok qm /\
    response = wrap_in_data_envelope d qm.(query_def).(query_name).
Proof.
  unfold run_regular, execute_regular_query. destruct (match_query _ _ _ _ _ _ _) as [qm|e] eqn:E; [|done].
  destruct (is_some _); [done|]. destruct qm.(query_def).(inject_params) eqn:Ei; [|done]. intros H. exists qm. cut (exists d, response = wrap_in_data_envelope d qm.(query_def).(query_name)).
  { intros [d ->]. by exists d. }
  destruct qm.(query_def).(relay).
  - unfold relay_handler, execute_relay_query in H. rewrite Ei in H. destruct (ok_or _ _ ≫= _) as [[[source column] db]|e]; [|done].
    cbn in H. apply bind_Ok in H as ([p r] & _ & (page & _ & H)%bind_Ok). unfold relay_response in H.
    destruct (if p.(is_forward) then _ else _) as [next previous]. apply bind_Ok in H as (edges & _ & [= <-]). by eexists.
  - cbn [fst] in H. apply bind_Ok in H as (r & _ & (rows & _ & H)%bind_Ok). unfold plain_response in H.
    apply bind_Ok in H as (d & _ & [= <-]). by eexists.
Qed.
Lemma root_value_other d n k : n <> k -> root_value (wrap_in_data_envelope d n) k = JNull.
Proof. intros H. unfold root_value, wrap_in_data_envelope. cbn. by apply streqb_false in H as ->. Qed.

(** Among several root fields, one asked under another name than that of its
    definition, as every aliased one is, is answered with null. *)
Theorem renamed_root_is_null now (en : Engine) query parsed vars v f qm :
  classify_query_with_parse read_document query = Ok (Regular, Some parsed) -> get en.(parse_cache) (xxh3 query) = None ->
  is_multi_root parsed = true -> (internal now en query vars).1 = Ok v -> f ∈ parsed.(Types.query_selections) ->
  (forall g, g ∈ parsed.(Types.query_selections) -> Types.response_key g = Types.response_key f -> g = f) ->
  match_query query_name read_document from_str sort en.(core).(compiled) (text_of f) vars = Ok qm ->
  qm.(query_def).(query_name) <> Types.response_key f ->
  (json_get v "data" ≫= fun d => json_get d (Types.response_key f)) = Some JNull.
Proof.
  intros Hc Hn Hm Hv Hf Hu Hq Hne. destruct (merged now en query parsed vars v Hc Hn Hm Hv f Hf Hu) as (response & Hr & ->).
  destruct (plain_envelope _ _ _ _ _ Hr) as (qm' & d & Hq' & ->). rewrite Hq in Hq'. injection Hq' as <-. by rewrite root_value_other.
Qed.

(** What a root field's text leaves out. *)
Lemma directives_not_printed n a args nested ds :
  serialize_field from_str number_text (Types.mkField n a args nested ds) = serialize_field from_str number_text (Types.mkField n a args nested []).
Proof. done. Qed.
End Engine.

Module RoutingDemo.
Import CacheStore.Lazy Execution.ExecDemo Relay.RelayDemo Mutation.MutationDemo.

Definition plain (name : string) : QueryDefinition :=
  mkQuery name "User" true [] (Some "v_user"%string) auto_none false None Int64 [] [] None ∅ None None None.
Definition compiled : @Schema.CompiledSchema QueryDefinition MutationDefinition unit :=
  Schema.build_indexes query_name mutation_name (fun _ : unit => ""%string)
    {| Schema.queries := [plain "users"; plain "posts"]; Schema.mutations := [new_mutation "touch" "User"]; Schema.subscriptions := [];
       Schema.naming_convention := Schema.Preserve; Schema.query_index := ∅; Schema.mutation_index := ∅;
       Schema.subscription_index := ∅ |}.
Notation parses := (gmap Z (QueryType * option Types.ParsedQuery * bool)).
Definition engine : @Engine DefaultRLSPolicy (list json) lazy unit (list json) parses :=
  mkEngine (mkExecutor compiled the_schema Planner.Project (mkSession [] false) None None rows) None ∅ (mkConfig 0 None None) ∅.

Definition ask_root (alias : option string) (name : string) : Ast.selection := Ast.Field alias name [] [] [Ast.Field None "id" [] [] []].
Definition document (roots : list Ast.selection) : Ast.document := [Ast.Operation (Ast.SelectionSet roots)].
(** The package on the texts below. *)
Definition texts : list (string * Ast.document) :=
  [("{ users { id } posts { id } }"%string, document [ask_root None "users"; ask_root None "posts"]);
   ("{ all: users { id } posts { id } }"%string, document [ask_root (Some "all"%string) "users"; ask_root None "posts"]);
   ("{ users { id } }"%string, document [ask_root None "users"]);
   ("{ all: users { id } }"%string, document [ask_root (Some "all"%string) "users"]);
   ("{ posts { id } }"%string, document [ask_root None "posts"])].
Definition read (query : string) : result string Ast.document := ok_or (assoc query texts) "syntax"%string.
Definition keep_order (l : list (nat * string)) : list (nat * string) := l.
Definition no_number (_ : json_number) : string := "".
Definition length_hash (s : string) : Z := Z.of_nat (String.length s).
Definition no_handlers : Handlers :=
  mkHandlers (fun _ _ => Ok JNull) (fun _ _ => Ok JNull) (fun _ _ _ => Ok JNull) JNull (fun _ => JNull).
Notation run := (execute_internal read no_text keep_order json_text no_number length_hash "" no_debug no_name no_uuid no_message elements no_handlers 0).
Notation single := (run_regular read no_text keep_order no_debug no_name 0 engine).
Definition parsed_of (query : string) : Types.ParsedQuery :=
  match Parser.parse_query read query with
  | Ok p => p
  | Err _ => {| Types.operation_type := ""; Types.query_name := None; Types.root_field := ""; Types.query_selections := [];
                Types.variables := []; Types.fragments := []; Types.source := "" |}
  end.
Definition both : string := "{ users { id } posts { id } }".
Definition renamed : string := "{ all: users { id } posts { id } }".

Lemma multi_root_merges_witness :
  (run engine both None).1 = Ok (JObject [("data"%string, JObject [("posts"%string, JArray rows); ("users"%string, JArray rows)])]) /\
  exists response, (single "{ users { id } }" None).1 = Ok response /\ Some (JArray rows) = Some (root_value response "users").
Proof.
  split; [vm_compute; reflexivity|].
  destruct (multi_root_merges read no_text keep_order no_number length_hash no_debug no_name no_handlers json_text "" no_uuid no_message elements 0 engine both (parsed_of both)
    None (JObject [("data"%string, JObject [("posts"%string, JArray rows); ("users"%string, JArray rows)])])
    ltac:(vm_compute; reflexivity) ltac:(reflexivity) ltac:(vm_compute; reflexivity) ltac:(vm_compute; reflexivity)
    (Types.mkField "users" None [] [Types.mkField "id" None [] [] []] [])) as (response & Hr & Hv).
  - apply list_elem_of_In. vm_compute. by left.
  - intros g Hg. apply list_elem_of_In in Hg. vm_compute in Hg. destruct Hg as [<-|[<-|[]]]; [done|discriminate].
  - exists response. split; [exact Hr | exact Hv].
Defined.

Lemma renamed_root_is_null_witness : exists v, (run engine renamed None).1 = Ok v /\
  (json_get v "data" ≫= fun d => json_get d "all") = Some JNull.
Proof.
  destruct (run engine renamed None).1 as [v|e] eqn:E; [|vm_compute in E; discriminate E].
  exists v. split; [done|].
  destruct (match_query query_name read no_text keep_order compiled "{ all: users { id } }" None) as [qm|e] eqn:Eq;
    [|vm_compute in Eq; discriminate Eq].
  apply (renamed_root_is_null read no_text keep_order no_number length_hash no_debug no_name no_handlers json_text "" no_uuid no_message elements 0 engine renamed (parsed_of renamed)
    None v (Types.mkField "users" (Some "all"%string) [] [Types.mkField "id" None [] [] []] []) qm
    ltac:(vm_compute; reflexivity) ltac:(reflexivity) ltac:(vm_compute; reflexivity) E).
  - apply list_elem_of_In. vm_compute. by left.
  - intros g Hg. apply list_elem_of_In in Hg. vm_compute in Hg. destruct Hg as [<-|[<-|[]]]; [done|discriminate].
  - exact Eq.
  - vm_compute in Eq. injection Eq as <-. discriminate.
Defined.

Lemma parse_cache_transparent_witness :
  answers run engine [(both, None); (both, None)] =
  answers (execute_uncached read no_text keep_order no_number no_debug no_name no_handlers json_text "" no_uuid no_message elements 0)
    engine [(both, None); (both, None)].
Proof.
  apply (parse_cache_transparent read no_text keep_order no_number length_hash no_debug no_name no_handlers json_text "" no_uuid no_message
    elements 0 engine [(both, None); (both, None)]); [|done].
  intros a b Ha Hb _. cbn in Ha, Hb. set_solver.
Defined.

Lemma gate_is_request_validator_witness :
  is_ok (QueryGate.validate read (fun _ => false) QueryGate.strict both) = true /\
  Z.of_nat (String.length both) <= 64000.
Proof.
  assert (H : is_ok (QueryGate.validate read (fun _ => false) QueryGate.strict both) = true) by (vm_compute; reflexivity).
  split; [exact H|]. apply (gate_is_request_validator read (fun _ => false) QueryGate.strict both). exact H.
Defined.
End RoutingDemo.
