(* ===== verification/SagaStore.v ===== *)
(** * The saga store

    [fraiseql-federation/src/saga_store.rs]: sagas, their steps and their
    recovery records in tables of PostgreSQL.  Each operation is one statement;
    a statement can work, be refused before it has an effect, or have its
    effect and lose its answer.  The database's ordering is an interface, the
    clocks and the identifiers drawn are arguments. *)

From stdpp Require Import sorting pretty.
From S2P Require Import Prelude Json.
#[local] Open Scope Z_scope.
#[local] Open Scope list_scope.

(** ** States *)
Inductive SagaStoreError : Type :=
| Database (message : string)
| InvalidStateTransition (from to : string)
| SagaNotFound (id : string)
| StepNotFound (id : string).
Definition show (e : SagaStoreError) : string :=
  match e with
  | Database m => "Database error: " ++ m
  | InvalidStateTransition f t => "Invalid state transition from " ++ f ++ " to " ++ t
  | SagaNotFound id => "Saga " ++ id ++ " not found"
  | StepNotFound id => "Step " ++ id ++ " not found"
  end%string.
Module SagaState.
Inductive t : Type := Pending | Executing | Completed | Failed | Compensating | Compensated.
#[global] Instance eq_dec : EqDecision t.
Proof. solve_decision. Defined.
Definition all : list t := [Pending; Executing; Completed; Failed; Compensating; Compensated].
Definition as_str (s : t) : string :=
  match s with
  | Pending => "pending" | Executing => "executing" | Completed => "completed" | Failed => "failed"
  | Compensating => "compensating" | Compensated => "compensated"
  end.
Definition from_str (s : string) : option t := find (fun x => as_str x =s s) all.
End SagaState.
Module StepState.
Inductive t : Type := Pending | Executing | Completed | Failed.
#[global] Instance eq_dec : EqDecision t.
Proof. solve_decision. Defined.
Definition all : list t := [Pending; Executing; Completed; Failed].
Definition as_str (s : t) : string :=
  match s with Pending => "pending" | Executing => "executing" | Completed => "completed" | Failed => "failed" end.
Definition from_str (s : string) : option t := find (fun x => as_str x =s s) all.
(** The derived [Debug]. *)
Definition debug (s : t) : string :=
  match s with Pending => "Pending" | Executing => "Executing" | Completed => "Completed" | Failed => "Failed" end.
End StepState.
Module MutationType.
Inductive t : Type := Create | Update | Delete.
Definition all : list t := [Create; Update; Delete].
Definition as_str (m : t) : string := match m with Create => "create" | Update => "update" | Delete => "delete" end.
Definition from_str (s : string) : option t := find (fun x => as_str x =s s) all.
End MutationType.

Record Saga : Type := mkSaga {
  saga_id : string;
  saga_state : SagaState.t;
  created_at : Z;
  saga_completed_at : option Z;
  metadata : option json
}.
Record SagaStep : Type := mkStep {
  step_id : string;
  step_saga : string;
  order : Z;
  subgraph : string;
  mutation_type : MutationType.t;
  typename : string;
  variables : json;
  step_state : StepState.t;
  step_result : option json;
  started_at : option Z;
  step_completed_at : option Z
}.
Record SagaRecovery : Type := mkRecovery {
  recovery_id : string;
  recovery_saga : string;
  recovery_type : string;
  attempted_at : Z;
  last_attempt : option Z;
  attempt_count : Z;
  last_error : option string
}.

(** ** Tables *)
Record SagaRow : Type := mkSagaRow {
  pk : Z;
  row_id : string;
  row_state : string;
  row_created_at : Z;
  row_completed_at : option Z;
  row_updated_at : Z;
  row_metadata : option json
}.
Record StepRow : Type := mkStepRow {
  srow_id : string;
  saga_pk : Z;
  step_number : Z;
  srow_subgraph : string;
  srow_mutation_type : string;
  srow_typename : string;
  srow_variables : json;
  srow_state : string;
  srow_result : option json;
  srow_started_at : option Z;
  srow_completed_at : option Z;
  srow_updated_at : Z
}.
Record RecoveryRow : Type := mkRecoveryRow {
  rrow_id : string;
  rrow_saga_pk : Z;
  rrow_type : string;
  rrow_attempted_at : Z;
  rrow_last_attempt : option Z;
  rrow_attempt_count : Z;
  rrow_last_error : option string
}.
(** The tables, and the value of the sequence of the sagas' keys. *)
Record Db : Type := mkDb { sagas : list SagaRow; steps : list StepRow; recoveries : list RecoveryRow; next_pk : Z }.

(** ** [ORDER BY]: the rows in an order in which the key does not decrease. *)
Class SqlOrder : Type := {
  order_by : forall {A : Type}, (A -> Z) -> list A -> list A;
  order_by_perm : forall A (key : A -> Z) l, order_by key l ≡ₚ l;
  order_by_sorted : forall A (key : A -> Z) l, StronglySorted (fun x y => key x <= key y) (order_by key l)
}.

(** ** Statements *)
Record World : Type := mkWorld { db : Db; statements : nat; clock_reads : nat; draws : nat }.
Definition StoreM (A : Type) : Type := World -> result SagaStoreError A * World.
#[export] Instance store_ret : MRet StoreM := fun A a w => (Ok a, w).
#[export] Instance store_bind : MBind StoreM :=
  fun A B k m w => match m w with (Ok a, w') => k a w' | (Err e, w') => (Err e, w') end.
Definition fail {A} (e : SagaStoreError) : StoreM A := fun w => (Err e, w).
(** The outcome as a value, for a caller that matches on it. *)
Definition attempt {A} (m : StoreM A) : StoreM (result SagaStoreError A) := fun w => let '(r, w') := m w in (Ok r, w').

Section Store.
Context `{SqlOrder} (faults : nat -> Fault) (clock : nat -> Z) (uuids : nat -> string) (unique_violation : string).

Definition set_db (d : Db) (w : World) : World := mkWorld d (S w.(statements)) w.(clock_reads) w.(draws).
Definition statement {A} (f : Db -> A * Db) : StoreM A := fun w =>
  match faults w.(statements) with
  | Works => let '(a, d) := f w.(db) in (Ok a, set_db d w)
  | Refused m => (Err (Database m), set_db w.(db) w)
  | Lost m => (Err (Database m), set_db (f w.(db)).2 w)
  end.
Definition query {A} (f : Db -> A) : StoreM A := statement (fun d => (f d, d)).
Definition execute (f : Db -> Db) : StoreM unit := statement (fun d => (tt, f d)).
(** [Utc::now()], the elapsed milliseconds of an [Instant], [Uuid::new_v4()]. *)
Definition now : StoreM Z := fun w => (Ok (clock w.(clock_reads)), mkWorld w.(db) w.(statements) (S w.(clock_reads)) w.(draws)).
Definition new_v4 : StoreM string := fun w => (Ok (uuids w.(draws)), mkWorld w.(db) w.(statements) w.(clock_reads) (S w.(draws))).

Definition health_check : StoreM unit := query (fun _ => tt).
Definition map_saga_row (r : SagaRow) : Saga :=
  mkSaga r.(row_id) (default SagaState.Pending (SagaState.from_str r.(row_state))) r.(row_created_at) r.(row_completed_at) r.(row_metadata).
(** [as usize] of an [i32]. *)
Definition i32_as_usize (z : Z) : Z := z mod 2 ^ 64.
Definition usize_as_i32 (z : Z) : Z := (z + 2 ^ 31) mod 2 ^ 32 - 2 ^ 31.
Definition map_saga_step_row (saga : string) (r : StepRow) : SagaStep :=
  mkStep r.(srow_id) saga (i32_as_usize r.(step_number)) r.(srow_subgraph)
    (default MutationType.Update (MutationType.from_str r.(srow_mutation_type))) r.(srow_typename) r.(srow_variables)
    (default StepState.Pending (StepState.from_str r.(srow_state))) r.(srow_result) r.(srow_started_at) r.(srow_completed_at).
Definition with_sagas (l : list SagaRow) (d : Db) : Db := mkDb l d.(steps) d.(recoveries) d.(next_pk).
Definition with_steps (l : list StepRow) (d : Db) : Db := mkDb d.(sagas) l d.(recoveries) d.(next_pk).
Definition with_recoveries (l : list RecoveryRow) (d : Db) : Db := mkDb d.(sagas) d.(steps) l d.(next_pk).
(** The keys of the sagas of an identifier. *)
Definition pks (d : Db) (id : string) : list Z := map pk (filter (fun r => r.(row_id) = id) d.(sagas)).

(** *** Sagas *)
Definition upsert_saga (s : Saga) (now : Z) (d : Db) : Db :=
  let state := SagaState.as_str s.(saga_state) in
  match filter (fun r => r.(row_id) = s.(saga_id)) d.(sagas) with
  | [] => mkDb (d.(sagas) ++ [mkSagaRow d.(next_pk) s.(saga_id) state s.(created_at) s.(saga_completed_at) now s.(metadata)])
            d.(steps) d.(recoveries) (d.(next_pk) + 1)
  | _ =>
      mkDb (map (fun r => if r.(row_id) =s s.(saga_id)
                          then mkSagaRow r.(pk) r.(row_id) state r.(row_created_at) s.(saga_completed_at) now s.(metadata) else r)
             d.(sagas)) d.(steps) d.(recoveries) (d.(next_pk) + 1)
  end.
Definition save_saga (s : Saga) : StoreM unit := t ← now; execute (upsert_saga s t).
Definition load_saga (id : string) : StoreM (option Saga) :=
  query (fun d => map_saga_row <$> head (filter (fun r => r.(row_id) = id) d.(sagas))).
Definition newest_first (l : list SagaRow) : list SagaRow := order_by (fun r => - r.(row_created_at)) l.
Definition load_all_sagas : StoreM (list Saga) := query (fun d => map map_saga_row (newest_first d.(sagas))).
Definition load_sagas_by_state (s : SagaState.t) : StoreM (list Saga) :=
  query (fun d => map map_saga_row (newest_first (filter (fun r => r.(row_state) = SagaState.as_str s) d.(sagas)))).
Definition saga_final (s : SagaState.t) : bool := match s with SagaState.Completed | SagaState.Compensated => true | _ => false end.
Definition set_saga_state (id : string) (s : SagaState.t) (now : Z) (d : Db) : Db :=
  with_sagas (map (fun r => if r.(row_id) =s id
    then mkSagaRow r.(pk) r.(row_id) (SagaState.as_str s) r.(row_created_at) (if saga_final s then Some now else None) now r.(row_metadata)
    else r) d.(sagas)) d.
Definition update_saga_state (id : string) (s : SagaState.t) : StoreM unit := t ← now; execute (set_saga_state id s t).
(** Deleting a saga deletes its steps and its recovery records. *)
Definition delete_where (p : SagaRow -> bool) (d : Db) : Db :=
  let gone := map pk (List.filter p d.(sagas)) in
  let kept k := negb (existsb (Z.eqb k) gone) in
  mkDb (List.filter (fun r => negb (p r)) d.(sagas)) (List.filter (fun r => kept r.(saga_pk)) d.(steps))
    (List.filter (fun r => kept r.(rrow_saga_pk)) d.(recoveries)) d.(next_pk).
Definition delete_saga (id : string) : StoreM unit := execute (delete_where (fun r => r.(row_id) =s id)).
Definition finished (r : SagaRow) : bool := (r.(row_state) =s "completed") || (r.(row_state) =s "compensated").
Definition delete_counted (p : SagaRow -> bool) : StoreM Z :=
  statement (fun d => (Z.of_nat (length (List.filter p d.(sagas))), delete_where p d)).
Definition delete_completed_sagas : StoreM Z := delete_counted finished.
(** [NOW()] is the database's clock, in milliseconds. *)
Definition stale (now hours : Z) (r : SagaRow) : bool := (r.(row_created_at) <? now - hours * 3600000) && finished r.
Definition cleanup_stale_sagas (hours : Z) : StoreM Z := t ← now; delete_counted (stale t hours).
Definition find_pending_sagas : StoreM (list Saga) := load_sagas_by_state SagaState.Pending.
Definition find_stuck_sagas : StoreM (list Saga) := load_sagas_by_state SagaState.Executing.

(** *** Steps *)
Definition joined (d : Db) (p : SagaRow -> StepRow -> bool) : list (SagaRow * StepRow) :=
  List.filter (fun '(s, r) => (r.(saga_pk) =? s.(pk)) && p s r) (list_prod d.(sagas) d.(steps)).
Definition step_of (sr : SagaRow * StepRow) : SagaStep := map_saga_step_row sr.1.(row_id) sr.2.
Definition load_saga_step (id : string) : StoreM (option SagaStep) :=
  query (fun d => step_of <$> head (joined d (fun _ r => r.(srow_id) =s id))).
Definition load_saga_steps (id : string) : StoreM (list SagaStep) :=
  query (fun d => map step_of (order_by (fun sr => sr.2.(step_number)) (joined d (fun s _ => s.(row_id) =s id)))).
Definition step_final (s : StepState.t) : bool := match s with StepState.Completed | StepState.Failed => true | _ => false end.
Definition set_step_state (id : string) (s : StepState.t) (now : Z) (d : Db) : Db :=
  with_steps (map (fun r => if r.(srow_id) =s id
    then mkStepRow r.(srow_id) r.(saga_pk) r.(step_number) r.(srow_subgraph) r.(srow_mutation_type) r.(srow_typename) r.(srow_variables)
           (StepState.as_str s) r.(srow_result) r.(srow_started_at) (if step_final s then Some now else None) now
    else r) d.(steps)) d.
Definition update_saga_step_state (id : string) (s : StepState.t) : StoreM unit := t ← now; execute (set_step_state id s t).
Definition upsert_step (s : SagaStep) (now : Z) (d : Db) : Db :=
  match pks d s.(step_saga) with
  | [] => d
  | key :: _ =>
      let state := StepState.as_str s.(step_state) in
      with_steps
        (match filter (fun r => r.(srow_id) = s.(step_id)) d.(steps) with
         | [] => d.(steps) ++ [mkStepRow s.(step_id) key (usize_as_i32 s.(order)) s.(subgraph) (MutationType.as_str s.(mutation_type))
                   s.(typename) s.(variables) state s.(step_result) s.(started_at) s.(step_completed_at) now]
         | _ => map (fun r => if r.(srow_id) =s s.(step_id)
                   then mkStepRow r.(srow_id) r.(saga_pk) r.(step_number) r.(srow_subgraph) r.(srow_mutation_type) r.(srow_typename)
                          r.(srow_variables) state s.(step_result) r.(srow_started_at) s.(step_completed_at) now
                   else r) d.(steps)
         end) d
  end.
Definition save_saga_step (s : SagaStep) : StoreM unit := t ← now; execute (upsert_step s t).
Definition set_step_result (id : string) (v : json) (now : Z) (d : Db) : Db :=
  with_steps (map (fun r => if r.(srow_id) =s id
    then mkStepRow r.(srow_id) r.(saga_pk) r.(step_number) r.(srow_subgraph) r.(srow_mutation_type) r.(srow_typename) r.(srow_variables)
           r.(srow_state) (Some v) r.(srow_started_at) r.(srow_completed_at) now
    else r) d.(steps)) d.
Definition update_saga_step_result (id : string) (v : json) : StoreM unit := t ← now; execute (set_step_result id v t).

(** *** Recovery records *)
(** An identifier is recorded once. *)
Definition insert_recovery (saga id : string) (row : Z -> RecoveryRow) : StoreM unit :=
  r ← statement (fun d =>
    match pks d saga with
    | [] => (Ok tt, d)
    | keys =>
        if existsb (fun r => r.(rrow_id) =s id) d.(recoveries) then (Err (Database unique_violation), d)
        else (Ok tt, with_recoveries (d.(recoveries) ++ map row keys) d)
    end);
  match r with Ok _ => mret tt | Err e => fail e end.
Definition mark_saga_for_recovery (saga reason : string) : StoreM unit :=
  id ← new_v4; t ← now;
  insert_recovery saga id (fun key => mkRecoveryRow id key reason t None 0 None).
Definition of_saga (d : Db) (saga : string) (r : RecoveryRow) : bool := existsb (Z.eqb r.(rrow_saga_pk)) (pks d saga).
Definition clear_recovery_record (saga : string) : StoreM unit :=
  execute (fun d => with_recoveries (List.filter (fun r => negb (of_saga d saga r)) d.(recoveries)) d).
Definition get_recovery_attempts (saga : string) : StoreM Z :=
  query (fun d => match map rrow_attempt_count (List.filter (of_saga d saga) d.(recoveries)) with
                  | [] => 0
                  | n :: l => foldl Z.max n l
                  end).
Definition save_recovery_record (r : SagaRecovery) : StoreM unit :=
  insert_recovery r.(recovery_saga) r.(recovery_id) (fun key =>
    mkRecoveryRow r.(recovery_id) key r.(recovery_type) r.(attempted_at) r.(last_attempt) r.(attempt_count) r.(last_error)).
Definition cleanup_all : StoreM unit :=
  _ ← execute (with_recoveries []); _ ← execute (with_steps []); execute (delete_where (fun _ => true)).
Definition saga_count : StoreM Z := query (fun d => Z.of_nat (length d.(sagas))).
Definition step_count : StoreM Z := query (fun d => Z.of_nat (length d.(steps))).
Definition recovery_count : StoreM Z := query (fun d => Z.of_nat (length d.(recoveries))).
End Store.

(** * Sagas across subgraphs

    [fraiseql-federation/src/saga_executor/], [saga_compensator.rs],
    [saga_recovery_manager.rs] and [saga_coordinator.rs]: the forward phase,
    the compensation phase, the recovery of interrupted sagas and the
    coordinator, over [SagaStore].  Elapsed times and the debug text of an error
    are arguments. *)

Section Sagas.
Context `{SqlOrder} (faults : nat -> Fault) (clock : nat -> Z) (uuids : nat -> string).
Context (elapsed_ms : nat -> Z) (debug_error : SagaStoreError -> string).
#[local] Notation load_saga := (load_saga faults).
#[local] Notation load_saga_steps := (load_saga_steps faults).
#[local] Notation load_sagas_by_state := (load_sagas_by_state faults).
#[local] Notation update_saga_state := (update_saga_state faults clock).
#[local] Notation update_saga_step_state := (update_saga_step_state faults clock).
#[local] Notation update_saga_step_result := (update_saga_step_result faults clock).
(** [start_time.elapsed()] at a reading of the clock. *)
Definition elapsed : StoreM Z := fun w => (Ok (elapsed_ms w.(clock_reads)), mkWorld w.(db) w.(statements) (S w.(clock_reads)) w.(draws)).
Definition as_u32 (z : Z) : Z := z mod 2 ^ 32.
Definition object (l : list (string * json)) : json := JObject (foldl (fun o kv => map_insert kv.1 kv.2 o) [] l).

(** ** [SagaExecutor]; without a store it answers as its tests expect. *)
Record StepExecutionResult : Type := mkStepResult { result_step : Z; success : bool; data : option json; error : option string; duration_ms : Z }.
Record ExecutionState : Type := mkExecutionState {
  execution_saga : string;
  total_steps : Z;
  completed_steps : Z;
  current_step : option Z;
  failed : bool;
  failure_reason : option string
}.
Definition pre_fetch_requires_fields (saga : string) (step : Z) : StoreM json := mret (JObject []).
Definition augment_entity_with_requires (entity requires : json) : json :=
  match entity, requires with
  | JObject e, JObject r => JObject (foldl (fun o kv => map_insert kv.1 kv.2 o) e r)
  | _, _ => entity
  end.
Definition show_num (z : Z) : string := pretty z.
Definition executed (saga mutation typename : string) (step : Z) (input : json) : json :=
  object [("__typename", JString typename); ("id", JString ("entity-" ++ saga ++ "-step-" ++ show_num step));
          (mutation, JString "executed"); ("input", input)]%string.
Definition placeholder_result (mutation : string) (step : Z) (input : json) : json :=
  object [("__typename", JString "Entity"); ("id", JString ("entity-" ++ show_num step)); (mutation, JString "ok"); ("input", input)]%string.
Definition or_fail {A} (o : option A) (e : SagaStoreError) : StoreM A := match o with Some a => mret a | None => fail e end.
(** [steps.iter().find(|s| s.order == n)]. *)
Definition step_numbered (n : Z) (l : list SagaStep) : option SagaStep := find (fun s => s.(order) =? n) l.
Definition run_mutation (saga : string) (step : Z) (mutation : string) (input : json) (s : SagaStep) : StoreM json :=
  _ ← update_saga_step_state s.(step_id) StepState.Executing;
  let result_data := executed saga mutation s.(typename) step input in
  _ ← update_saga_step_result s.(step_id) result_data;
  _ ← update_saga_step_state s.(step_id) StepState.Completed;
  mret result_data.
Definition execute_step (with_store : bool) (saga : string) (step : Z) (mutation : string) (variables : json) (subgraph : string) :
    StoreM StepExecutionResult :=
  requires ← pre_fetch_requires_fields saga step;
  let augmented := augment_entity_with_requires variables requires in
  if with_store then
    found ← load_saga saga;
    _ ← or_fail found (SagaNotFound saga);
    steps ← load_saga_steps saga;
    id ← new_v4 uuids;
    s ← or_fail (step_numbered step steps) (StepNotFound id);
    if negb (bool_decide (s.(step_state) = StepState.Pending)) then
      fail (InvalidStateTransition (StepState.debug s.(step_state)) "Executing")
    else
      result_data ← run_mutation saga step mutation augmented s;
      ms ← elapsed;
      mret (mkStepResult step true (Some result_data) None ms)
  else
    ms ← elapsed;
    mret (mkStepResult step true (Some (placeholder_result mutation step augmented)) None ms).
Definition mutation_name (s : SagaStep) : string := MutationType.as_str s.(mutation_type) ++ "_" ++ s.(typename).
(** The steps until one fails: what they returned, and whether one did. *)
Fixpoint execute_steps (saga : string) (l : list SagaStep) : StoreM (list StepExecutionResult * bool) :=
  match l with
  | [] => mret ([], false)
  | s :: l =>
      r ← attempt (execute_step true saga (as_u32 s.(order)) (mutation_name s) s.(variables) s.(subgraph));
      match r with
      | Ok step_result => rest ← execute_steps saga l; mret (step_result :: rest.1, rest.2)
      | Err _ => _ ← attempt (update_saga_state saga SagaState.Failed); mret ([], true)
      end
  end.
Definition execute_saga (with_store : bool) (saga : string) : StoreM (list StepExecutionResult) :=
  if with_store then
    found ← load_saga saga;
    _ ← or_fail found (SagaNotFound saga);
    _ ← update_saga_state saga SagaState.Executing;
    steps ← load_saga_steps saga;
    r ← execute_steps saga (order_by order steps);
    _ ← (if r.2 : bool then mret tt else update_saga_state saga SagaState.Completed);
    mret r.1
  else mret [].
Definition get_execution_state (with_store : bool) (saga : string) : StoreM ExecutionState :=
  let none := mkExecutionState saga 0 0 None false None in
  if with_store then
    found ← load_saga saga;
    match found with
    | Some s =>
        steps ← load_saga_steps saga;
        mret (mkExecutionState saga (as_u32 (Z.of_nat (length steps)))
          (as_u32 (Z.of_nat (length (List.filter (fun s => bool_decide (s.(step_state) = StepState.Completed)) steps))))
          ((fun s => as_u32 s.(order)) <$> find (fun s => negb (bool_decide (s.(step_state) = StepState.Completed))) steps)
          (bool_decide (s.(saga_state) = SagaState.Failed)) None)
    | None => mret none
    end
  else mret none.

(** ** [SagaCompensator] *)
Inductive CompensationStatus : Type := AllCompensated | PartiallyCompensated | CompensationFailed.
Record CompensationResult : Type := mkCompensation {
  compensated_saga : string;
  status : CompensationStatus;
  step_results : list StepExecutionResult;
  failed_steps : list Z;
  total_duration_ms : Z;
  compensation_error : option string
}.
Definition identifiers : list string := ["key"; "uuid"; "pk"]%string.
Definition build_compensation_variables (original : json) : json :=
  object (omap (fun k => (fun v => (k, v)) <$> json_get original k) ("id" :: identifiers))%string.
Definition confirmation (step : Z) : string := "comp-" ++ show_num step.
Definition compensate_step (with_store : bool) (saga : string) (step : Z) (mutation : string) (original : json) (subgraph : string) :
    StoreM StepExecutionResult :=
  if with_store then
    steps ← load_saga_steps saga;
    s ← match step_numbered step steps with Some s => mret s | None => id ← new_v4 uuids; fail (StepNotFound id) end;
    if negb (bool_decide (s.(step_state) = StepState.Completed)) then
      fail (InvalidStateTransition (StepState.debug s.(step_state)) "Compensation")
    else
      let result := object [("deleted", JBool true); ("confirmation_id", JString (confirmation step)); ("__typename", JString s.(typename))]%string in
      _ ← update_saga_step_result s.(step_id) result;
      ms ← elapsed;
      mret (mkStepResult step true (Some result) None ms)
  else
    ms ← elapsed;
    mret (mkStepResult step true (Some (object [("deleted", JBool true); ("confirmation_id", JString (confirmation step))]%string)) None ms).
Definition compensation_failure (step : Z) (e : SagaStoreError) : StepExecutionResult :=
  mkStepResult step false None (Some ("Compensation failed: " ++ debug_error e)%string) 0.
(** A failure is recorded and the next step compensated. *)
Fixpoint compensate_steps (saga : string) (l : list SagaStep) : StoreM (list StepExecutionResult * list Z) :=
  match l with
  | [] => mret ([], [])
  | s :: l =>
      let n := as_u32 s.(order) in
      r ← attempt (compensate_step true saga n ("delete_" ++ s.(typename))%string (default (JObject []) s.(step_result)) s.(subgraph));
      rest ← compensate_steps saga l;
      mret (match r with
            | Ok x => (x :: rest.1, rest.2)
            | Err e => (compensation_failure n e :: rest.1, n :: rest.2)
            end)
  end.
Definition completed (l : list SagaStep) : list SagaStep :=
  List.filter (fun s => bool_decide (s.(step_state) = StepState.Completed)) l.
Definition overall (failed : nat) (all : nat) : CompensationStatus :=
  if Nat.eqb failed 0 then AllCompensated else if (failed <? all)%nat then PartiallyCompensated else CompensationFailed.
Definition compensate_saga (with_store : bool) (saga : string) : StoreM CompensationResult :=
  if with_store then
    found ← load_saga saga;
    s ← or_fail found (SagaNotFound saga);
    if negb (bool_decide (s.(saga_state) = SagaState.Failed)) then
      ms ← elapsed; mret (mkCompensation saga AllCompensated [] [] ms None)
    else
      _ ← update_saga_state saga SagaState.Compensating;
      steps ← load_saga_steps saga;
      r ← compensate_steps saga (reverse (completed steps));
      let st := overall (length r.2) (length (completed steps)) in
      _ ← update_saga_state saga (match st with AllCompensated => SagaState.Compensated | _ => SagaState.Failed end);
      ms ← elapsed;
      mret (mkCompensation saga st r.1 r.2 ms None)
  else mret (mkCompensation saga AllCompensated [] [] 0 None).
Definition has_compensation (r : option json) : bool :=
  match r with
  | Some v => match json_get v "deleted", json_get v "confirmation_id" with None, None => false | _, _ => true end
  | None => false
  end.
Definition compensating (s : SagaState.t) : bool :=
  match s with SagaState.Compensated | SagaState.Compensating | SagaState.Failed => true | _ => false end.
Definition get_compensation_status (with_store : bool) (saga : string) : StoreM (option CompensationResult) :=
  if with_store then
    found ← load_saga saga;
    match found with
    | None => mret None
    | Some s =>
        if negb (compensating s.(saga_state)) then mret None
        else
          steps ← load_saga_steps saga;
          let done := List.filter (fun s => has_compensation s.(step_result)) (completed steps) in
          mret (Some (mkCompensation saga
            (if bool_decide (s.(saga_state) = SagaState.Compensated) then AllCompensated else CompensationFailed)
            (map (fun s => mkStepResult (as_u32 s.(order)) true s.(step_result) None 0) done) [] 0 None))
    end
  else mret None.

(** ** [SagaRecoveryManager] *)
Record RecoveryConfig : Type := mkRecoveryConfig { check_interval_s : Z; max_sagas_per_iteration : nat; stale_age_hours : Z }.
Definition default_recovery : RecoveryConfig := mkRecoveryConfig 5 50 24.
Record RecoveryStats : Type := mkStats {
  iterations : Z;
  sagas_processed : Z;
  executing_sagas_found : Z;
  sagas_cleaned : Z;
  errors : Z
}.
Definition zero_stats : RecoveryStats := mkStats 0 0 0 0 0.
Definition count_iteration (s : RecoveryStats) : RecoveryStats := mkStats (s.(iterations) + 1) s.(sagas_processed) s.(executing_sagas_found) s.(sagas_cleaned) s.(errors).
Definition count_processed (s : RecoveryStats) : RecoveryStats := mkStats s.(iterations) (s.(sagas_processed) + 1) s.(executing_sagas_found) s.(sagas_cleaned) s.(errors).
Definition count_executing (n : Z) (s : RecoveryStats) : RecoveryStats := mkStats s.(iterations) s.(sagas_processed) (s.(executing_sagas_found) + n) s.(sagas_cleaned) s.(errors).
Definition count_cleaned (n : Z) (s : RecoveryStats) : RecoveryStats := mkStats s.(iterations) s.(sagas_processed) s.(executing_sagas_found) (s.(sagas_cleaned) + n) s.(errors).
Definition count_error (s : RecoveryStats) : RecoveryStats := mkStats s.(iterations) s.(sagas_processed) s.(executing_sagas_found) s.(sagas_cleaned) (s.(errors) + 1).
(** [load_sagas_by_state]: none when the store fails. *)
Definition sagas_in (s : SagaState.t) (stats : RecoveryStats) : StoreM (list Saga * RecoveryStats) :=
  r ← attempt (load_sagas_by_state s);
  mret (match r with Ok l => (l, stats) | Err _ => ([], count_error stats) end).
Definition transition_saga (id : string) (s : SagaState.t) (stats : RecoveryStats) : StoreM RecoveryStats :=
  r ← attempt (update_saga_state id s);
  mret (match r with Ok _ => count_processed stats | Err _ => count_error stats end).
Fixpoint transition_all (l : list Saga) (stats : RecoveryStats) : StoreM RecoveryStats :=
  match l with
  | [] => mret stats
  | s :: l => stats ← transition_saga s.(saga_id) SagaState.Executing stats; transition_all l stats
  end.
Definition run_recovery_iteration (config : RecoveryConfig) (stats : RecoveryStats) : StoreM RecoveryStats :=
  pending ← sagas_in SagaState.Pending (count_iteration stats);
  stats ← transition_all (take config.(max_sagas_per_iteration) pending.1) pending.2;
  executing ← sagas_in SagaState.Executing stats;
  let stats := count_executing (Z.of_nat (length executing.1)) executing.2 in
  r ← attempt (cleanup_stale_sagas faults clock config.(stale_age_hours));
  mret (match r with Ok n => count_cleaned n stats | Err _ => count_error stats end).
(** The flag that keeps one loop: [compare_exchange], then whether it was taken. *)
Definition start_background_loop (running : bool) : bool * result SagaStoreError unit :=
  if running then (true, Err (Database "Recovery loop already running")) else (true, Ok tt).
Definition stop_background_loop (running : bool) : bool * result SagaStoreError unit :=
  if running then (false, Ok tt) else (false, Err (Database "Recovery loop not running")).

(** ** [SagaCoordinator] *)
Inductive CompensationStrategy : Type := Automatic | Manual.
Record PlannedStep : Type := mkPlannedStep {
  planned_id : string;
  number : Z;
  planned_subgraph : string;
  planned_typename : string;
  planned_mutation : string;
  planned_variables : json;
  compensation_mutation : string;
  compensation_variables : json
}.
Record SagaResult : Type := mkResult {
  result_saga : string;
  result_state : SagaState.t;
  result_completed : Z;
  result_total : Z;
  result_error : option string;
  compensated : bool
}.
Fixpoint in_sequence (i : Z) (l : list PlannedStep) : bool :=
  match l with [] => true | s :: l => (s.(number) =? i) && in_sequence (i + 1) l end.
Definition create_saga (l : list PlannedStep) : StoreM string :=
  match l with
  | [] => fail (Database "saga must have at least one step")
  | _ => if in_sequence 1 l then new_v4 uuids else fail (Database "steps must be in sequential order")
  end.
Definition coordinator_execute (saga : string) : StoreM SagaResult := mret (mkResult saga SagaState.Completed 0 0 None false).
Definition cancel_saga (saga : string) : StoreM SagaResult :=
  mret (mkResult saga SagaState.Failed 0 0 (Some "Saga cancelled by user"%string) false).
Definition get_saga_result (saga : string) : StoreM SagaResult := mret (mkResult saga SagaState.Completed 0 0 None false).
Definition list_in_flight_sagas : StoreM (list string) := mret [].
End Sagas.
