(* ===== verification/SagasFacts.v ===== *)
(** * What sagas guarantee

    Whatever statements of the store fail, at whatever point: what the forward
    phase, the compensation phase and the recovery leave in the tables. *)

From stdpp Require Import sorting.
From S2P Require Import Prelude Json SagaStore.
#[local] Open Scope Z_scope.
#[local] Open Scope list_scope.

(** ** Runs, as relations on the tables *)
Definition runs {A} (m : StoreM A) (d : Db) (r : result SagaStoreError A) (d' : Db) : Prop :=
  exists w w', m w = (r, w') /\ w.(db) = d /\ w'.(db) = d'.
Lemma runs_of {A} (m : StoreM A) w r w' : m w = (r, w') -> runs m w.(db) r w'.(db).
Proof. by exists w, w'. Qed.
Lemma runs_bind {A B} (m : StoreM A) (k : A -> StoreM B) d r d' :
  runs (m ≫= k) d r d' ->
  (exists a d1, runs m d (Ok a) d1 /\ runs (k a) d1 r d') \/ (exists e, r = Err e /\ runs m d (Err e) d').
Proof.
  intros (w & w' & H & <- & <-). unfold mbind, store_bind in H. destruct (m w) as [[a|e] w1] eqn:E.
  - left. exists a, w1.(db). split; by eapply runs_of.
  - injection H as <- <-. right. exists e. split; [done|by eapply runs_of].
Qed.
Lemma runs_ret {A} (a : A) d r d' : runs (mret a) d r d' -> r = Ok a /\ d' = d.
Proof. intros (w & w' & H & <- & <-). by injection H as <- <-. Qed.
Lemma runs_fail {A} e d (r : result _ A) d' : runs (fail e) d r d' -> r = Err e /\ d' = d.
Proof. intros (w & w' & H & <- & <-). by injection H as <- <-. Qed.
Lemma runs_attempt {A} (m : StoreM A) d r d' : runs (attempt m) d r d' -> exists r1, r = Ok r1 /\ runs m d r1 d'.
Proof.
  intros (w & w' & H & <- & <-). unfold attempt in H. destruct (m w) as [r1 w1] eqn:E. injection H as <- <-.
  exists r1. split; [done|by eapply runs_of].
Qed.
Section Faults.
Context (faults : nat -> Fault) (clock : nat -> Z).
Definition faulty : Prop := exists n, faults n <> Works.
Lemma runs_statement {A} (f : Db -> A * Db) d r d' :
  runs (statement faults f) d r d' ->
  (r = Ok (f d).1 /\ d' = (f d).2) \/ (faulty /\ (exists e, r = Err e) /\ (d' = d \/ d' = (f d).2)).
Proof.
  intros (w & w' & H & <- & <-). unfold statement in H. destruct (faults _) eqn:E.
  - destruct (f w.(db)) eqn:Ef. injection H as <- <-. by left.
  - injection H as <- <-. right. split; [exists w.(statements); congruence|]. split; [by eexists|by left].
  - injection H as <- <-. right. split; [exists w.(statements); congruence|]. split; [by eexists|by right].
Qed.
Lemma runs_query {A} (f : Db -> A) d r d' : runs (query faults f) d r d' -> d' = d /\ (r = Ok (f d) \/ faulty /\ exists e, r = Err e).
Proof. intros H. apply runs_statement in H. cbn in H. naive_solver. Qed.
Lemma runs_update (f : Z -> Db -> Db) d r d' :
  runs (t ← now clock; execute faults (f t)) d r d' ->
  exists t, (r = Ok tt /\ d' = f t d) \/ (faulty /\ (exists e, r = Err e) /\ (d' = d \/ d' = f t d)).
Proof.
  intros H. apply runs_bind in H as [(t & d1 & H1 & H2)|(e & -> & H)].
  - destruct H1 as (w & w' & H1 & <- & <-). injection H1 as <- <-. exists (clock w.(clock_reads)). by apply runs_statement in H2.
  - destruct H as (w & w' & H & _). discriminate.
Qed.
End Faults.

(** ** Sorted lists with distinct keys *)
Section Keys.
Context `{Sql : SqlOrder} {A : Type} (key : A -> Z).
Lemma sorted_unique l l' :
  StronglySorted (fun x y => key x <= key y) l -> StronglySorted (fun x y => key x <= key y) l' ->
  l ≡ₚ l' -> NoDup (map key l) -> l = l'.
Proof.
  intros Hl. revert l'. induction Hl as [|x l Hl IH Hx]; intros l' Hl' Hp Hn.
  - by apply Permutation_nil in Hp as ->.
  - destruct l' as [|y l']; [by apply Permutation_sym, Permutation_nil in Hp|].
    inversion Hl' as [|? ? Hl2 Hy]; subst. cbn in Hn. apply list.NoDup_cons in Hn as [Hxn Hn].
    assert (x = y) as <-.
    { assert (Hyin : y ∈ x :: l) by (rewrite Hp; by left). apply list.elem_of_cons in Hyin as [<-|Hyin]; [done|].
      assert (Hxin : x ∈ y :: l') by (rewrite <- Hp; by left). apply list.elem_of_cons in Hxin as [<-|Hxin]; [done|].
      rewrite list.Forall_forall in Hx, Hy. pose proof (Hx y Hyin). pose proof (Hy x Hxin).
      exfalso. apply Hxn. replace (key x) with (key y) by lia. by apply list_elem_of_fmap_2. }
    f_equal. apply IH; [done| |done]. by apply Permutation_cons_inv in Hp.
Qed.
Lemma order_by_is l l' : StronglySorted (fun x y => key x <= key y) l' -> l' ≡ₚ l -> NoDup (map key l) -> order_by key l = l'.
Proof.
  intros Hs Hp Hn. apply sorted_unique; [apply order_by_sorted|done|by rewrite order_by_perm|].
  assert (Hm : map key (order_by key l) ≡ₚ map key l) by (apply Permutation_map, order_by_perm). by rewrite Hm.
Qed.
End Keys.
Lemma order_by_map `{SqlOrder} {A B} (key : A -> Z) (key' : B -> Z) (g : A -> B) l :
  (forall x, key' (g x) = key x) -> NoDup (map key l) -> order_by key' (map g l) = map g (order_by key l).
Proof.
  intros Hg Hn. apply order_by_is.
  - pose proof (order_by_sorted _ key l) as Hs. induction Hs as [|x l' Hs IH Hx]; cbn; constructor; [done|].
    apply list.Forall_forall. intros y Hy. apply list_elem_of_In, in_map_iff in Hy as (z & <- & Hz). rewrite !Hg.
    rewrite list.Forall_forall in Hx. by apply Hx, list_elem_of_In.
  - apply Permutation_map, order_by_perm.
  - rewrite map_map. erewrite map_ext; [exact Hn|done].
Qed.

(** ** The steps of a saga *)
Section Rows.
Context `{Sql : SqlOrder}.
Definition own (k : Z) (r : StepRow) : bool := r.(saga_pk) =? k.
Definition rows (d : Db) (k : Z) : list StepRow := order_by step_number (List.filter (own k) d.(steps)).
Definition others (d : Db) (k : Z) : list StepRow := List.filter (fun r => negb (own k r)) d.(steps).
(** The saga of an identifier is one row; identifiers of steps, and the
    numbers of the saga's steps, are distinct. *)
Record wf (d : Db) (id : string) (s0 : SagaRow) : Prop := mkWf {
  wf_saga : filter (fun r => r.(row_id) = id) d.(sagas) = [s0];
  wf_ids : NoDup (map srow_id d.(steps));
  wf_numbers : NoDup (map step_number (rows d s0.(pk)));
  wf_range : Forall (fun r => 0 <= r.(step_number) < 2 ^ 31) (rows d s0.(pk))
}.
Lemma rows_perm d k : rows d k ≡ₚ List.filter (own k) d.(steps).
Proof. apply order_by_perm. Qed.
Lemma wf_own d id s0 : wf d id s0 -> NoDup (map step_number (List.filter (own s0.(pk)) d.(steps))).
Proof. intros Hw. assert (Hp : map step_number (rows d s0.(pk)) ≡ₚ map step_number (List.filter (own s0.(pk)) d.(steps))) by apply Permutation_map, rows_perm.
  rewrite <- Hp. apply Hw. Qed.
Lemma filter_none_in {A} (f : A -> string) id (l : list A) : filter (fun r => f r = id) l = [] -> forall x, x ∈ l -> f x <> id.
Proof. intros Hf x Hx Hid. assert (Hin : x ∈ filter (fun r => f r = id) l) by (by apply list_elem_of_filter). rewrite Hf in Hin. by apply elem_of_nil in Hin. Qed.
Lemma joined_rows d id s0 : filter (fun r => r.(row_id) = id) d.(sagas) = [s0] ->
  joined d (fun s _ => s.(row_id) =s id) = map (pair s0) (List.filter (own s0.(pk)) d.(steps)).
Proof.
  unfold joined, own. generalize d.(steps) as l. intros l. induction d.(sagas) as [|s ss IH]; [done|]. intros Hf.
  assert (Hs : forall s, List.filter (fun '(s, r) => (r.(saga_pk) =? s.(pk)) && (s.(row_id) =s id)) (map (pair s) l) =
    if s.(row_id) =s id then map (pair s) (List.filter (fun r => r.(saga_pk) =? s.(pk)) l) else []).
  { clear. intros s. induction l as [|r l IH]; [by destruct (_ =s _)|]. cbn. rewrite IH. destruct (_ =s _); [|by rewrite andb_false_r].
    rewrite andb_true_r. by destruct (_ =? _). }
  cbn [list_prod]. rewrite List.filter_app, Hs. clear Hs. case_bool; to_prop.
  - rewrite filter_cons_True in Hf by done. injection Hf as -> Hf. clear IH. pose proof (filter_none_in _ _ _ Hf) as Hn.
    rewrite <- (app_nil_r (map _ _)) at 2. f_equal. clear Hf Heqb. induction ss as [|s ss IH]; [done|]. cbn [list_prod].
    rewrite List.filter_app, IH by (intros; apply Hn; by right). rewrite app_nil_r. clear IH.
    assert (Hid : (s.(row_id) =s id) = false) by (apply streqb_false, Hn; left). induction l as [|r l IH]; [done|]. cbn. by rewrite Hid, andb_false_r.
  - rewrite filter_cons_False in Hf by done. by rewrite app_nil_l, IH.
Qed.
Definition steps_of (d : Db) (id : string) (s0 : SagaRow) : list SagaStep := map (map_saga_step_row id) (rows d s0.(pk)).
Lemma loaded_steps d id s0 : wf d id s0 ->
  map step_of (order_by (fun sr => sr.2.(step_number)) (joined d (fun s _ => s.(row_id) =s id))) = steps_of d id s0.
Proof.
  intros Hw. rewrite (joined_rows _ _ _ Hw.(wf_saga _ _ _)).
  rewrite (order_by_map step_number) by (done || by eapply wf_own). rewrite map_map. apply map_ext. intros r. unfold step_of. cbn.
  assert (Hin : s0 ∈ filter (fun r => r.(row_id) = id) d.(sagas)) by (rewrite Hw.(wf_saga _ _ _); left).
  apply list_elem_of_filter in Hin as [-> _]. done.
Qed.
Lemma order_number id r : 0 <= r.(step_number) < 2 ^ 31 -> order (map_saga_step_row id r) = r.(step_number).
Proof. intros Hr. cbn. unfold i32_as_usize. apply Z.mod_small. lia. Qed.
Lemma sorted_steps d id s0 : wf d id s0 -> order_by order (steps_of d id s0) = steps_of d id s0.
Proof.
  intros Hw. unfold steps_of. pose proof Hw.(wf_range _ _ _) as Hr. rewrite list.Forall_forall in Hr. apply order_by_is.
  - pose proof (order_by_sorted _ step_number (List.filter (own s0.(pk)) d.(steps))) as Hs. fold (rows d s0.(pk)) in Hs.
    revert Hr. induction Hs as [|x l Hs IH Hx]; cbn [map]; intros Hr; constructor; [apply IH; intros; apply Hr; by right|].
    apply list.Forall_forall. intros y Hy. apply list_elem_of_In, in_map_iff in Hy as (z & <- & Hz). apply list_elem_of_In in Hz.
    rewrite list.Forall_forall in Hx. rewrite !order_number by (apply Hr; first [by left|by right]). by apply Hx.
  - done.
  - rewrite map_map. erewrite map_ext_in; [apply Hw|]. intros r Hin. apply order_number, Hr. by apply list_elem_of_In.
Qed.

(** *** Updates of one step *)
Definition upd (id : string) (g : StepRow -> StepRow) (d : Db) : Db :=
  with_steps (map (fun r => if r.(srow_id) =s id then g r else r) d.(steps)) d.
Definition keeps (g : StepRow -> StepRow) : Prop :=
  forall r, (g r).(srow_id) = r.(srow_id) /\ (g r).(saga_pk) = r.(saga_pk) /\ (g r).(step_number) = r.(step_number).
Lemma upd_rows g id d k : keeps g -> NoDup (map step_number (List.filter (own k) d.(steps))) ->
  rows (upd id g d) k = map (fun r => if r.(srow_id) =s id then g r else r) (rows d k).
Proof.
  intros Hg Hn. unfold rows, upd. cbn [steps with_steps]. rewrite <- order_by_map with (key' := step_number); [|intros r; case_bool; [apply Hg|done]|done].
  f_equal. clear Hn. induction d.(steps) as [|r l IH]; [done|]. cbn [map List.filter].
  assert (Ho : own k (if r.(srow_id) =s id then g r else r) = own k r) by (unfold own; case_bool; [by destruct (Hg r) as (_ & -> & _)|done]).
  rewrite Ho. case_bool; cbn [map]; by rewrite IH.
Qed.
Lemma map_one (g : StepRow -> StepRow) a r b : NoDup (map srow_id (a ++ r :: b)) ->
  map (fun x => if x.(srow_id) =s r.(srow_id) then g x else x) (a ++ r :: b) = a ++ g r :: b.
Proof.
  intros Hn. rewrite map_app in Hn. cbn in Hn. apply list.NoDup_app in Hn as (_ & Ha & Hn). apply list.NoDup_cons in Hn as [Hb _].
  rewrite map_app. cbn. rewrite streqb_refl. f_equal; [|f_equal].
  - rewrite <- (map_id a) at 2. apply map_ext_in. intros x Hx. case_bool; [|done]. to_prop. exfalso.
    apply (Ha x.(srow_id)); [by apply list_elem_of_fmap_2, list_elem_of_In|]. rewrite Heqb0. left.
  - rewrite <- (map_id b) at 2. apply map_ext_in. intros x Hx. case_bool; [|done]. to_prop. exfalso.
    apply Hb. rewrite <- Heqb0. by apply list_elem_of_fmap_2, list_elem_of_In.
Qed.
Lemma rows_ids d id s0 : wf d id s0 -> NoDup (map srow_id (rows d s0.(pk))).
Proof.
  intros Hw. assert (Hp : map srow_id (rows d s0.(pk)) ≡ₚ map srow_id (List.filter (own s0.(pk)) d.(steps))) by apply Permutation_map, rows_perm.
  rewrite Hp. pose proof Hw.(wf_ids _ _ _) as Hn. clear Hp. induction d.(steps) as [|r l IH]; [done|]. cbn in *.
  apply list.NoDup_cons in Hn as [Hr Hn]. case_bool; [|auto]. cbn. apply list.NoDup_cons. split; [|auto].
  intros Hin. apply Hr. apply list_elem_of_In, in_map_iff in Hin as (x & Hx & Hin). apply filter_In in Hin as [Hin _].
  apply list_elem_of_In, in_map_iff. eauto.
Qed.
Lemma upd_step d id s0 a r b g : wf d id s0 -> rows d s0.(pk) = a ++ r :: b -> keeps g ->
  rows (upd r.(srow_id) g d) s0.(pk) = a ++ g r :: b /\ others (upd r.(srow_id) g d) s0.(pk) = others d s0.(pk) /\
  wf (upd r.(srow_id) g d) id s0.
Proof.
  intros Hw Hr Hg. assert (Hrows : rows (upd r.(srow_id) g d) s0.(pk) = a ++ g r :: b).
  { rewrite upd_rows by (done || by eapply wf_own). rewrite Hr. apply map_one. rewrite <- Hr. by eapply rows_ids. }
  split; [done|]. split.
  - unfold others, upd. cbn [steps with_steps].
    assert (Hin : r ∈ d.(steps)).
    { assert (Hin : r ∈ rows d s0.(pk)) by (rewrite Hr; set_solver). rewrite rows_perm in Hin. apply list_elem_of_In, filter_In in Hin as [Hin _].
      by apply list_elem_of_In. }
    assert (Hown : own s0.(pk) r = true).
    { assert (Hin' : r ∈ rows d s0.(pk)) by (rewrite Hr; set_solver). rewrite rows_perm in Hin'. by apply list_elem_of_In, filter_In in Hin' as [_ ?]. }
    pose proof Hw.(wf_ids _ _ _) as Hn. clear Hrows Hr.
    assert (Hid : forall x, x ∈ d.(steps) -> x.(srow_id) = r.(srow_id) -> x = r).
    { intros x Hx Hxr. apply list_elem_of_lookup in Hx as [i Hi], Hin as [j Hj].
      assert (i = j) as ->; [|congruence]. eapply (NoDup_lookup (map srow_id d.(steps)) i j r.(srow_id)); [done|..];
        rewrite list_lookup_fmap; [by rewrite Hi; cbn; rewrite Hxr|by rewrite Hj]. }
    clear Hn Hin. revert Hid. generalize d.(steps) as l. intros l. induction l as [|x l IH]; intros Hid; [done|]. cbn. rewrite IH by (intros; apply Hid; [by right|done]).
    destruct (_ =s _) eqn:E; to_prop.
    + match goal with E : _ = _ |- _ => rewrite (Hid x (list_elem_of_here _ _) E) end.
      unfold own in *. destruct (Hg r) as (_ & -> & _). by rewrite Hown.
    + done.
  - split; cbn [sagas upd with_steps steps]; [apply Hw| |by rewrite Hrows, map_app; cbn; destruct (Hg r) as (_ & _ & ->);
      pose proof Hw.(wf_numbers _ _ _) as Hn; rewrite Hr, map_app in Hn|].
    + rewrite map_map. erewrite map_ext; [apply Hw|]. intros x. cbn. case_bool; [apply Hg|done].
    + rewrite Hrows. pose proof Hw.(wf_range _ _ _) as Hf. rewrite Hr in Hf. apply list.Forall_app in Hf as [Ha Hf]. apply list.Forall_cons in Hf as [Hx Hf].
      apply list.Forall_app. split; [done|]. apply list.Forall_cons. split; [|done]. destruct (Hg r) as (_ & _ & Hn). by rewrite Hn.
Qed.
End Rows.

(** ** The forward phase *)
Section Forward.
Context `{Sql : SqlOrder} (faults : nat -> Fault) (clock : nat -> Z) (uuids : nat -> string) (elapsed_ms : nat -> Z).
#[local] Notation faulty := (faulty faults).
Definition with_state (s : StepState.t) (t : Z) (r : StepRow) : StepRow :=
  mkStepRow r.(srow_id) r.(saga_pk) r.(step_number) r.(srow_subgraph) r.(srow_mutation_type) r.(srow_typename) r.(srow_variables)
    (StepState.as_str s) r.(srow_result) r.(srow_started_at) (if step_final s then Some t else None) t.
Definition with_result (v : json) (t : Z) (r : StepRow) : StepRow :=
  mkStepRow r.(srow_id) r.(saga_pk) r.(step_number) r.(srow_subgraph) r.(srow_mutation_type) r.(srow_typename) r.(srow_variables)
    r.(srow_state) (Some v) r.(srow_started_at) r.(srow_completed_at) t.
Lemma keeps_state s t : keeps (with_state s t).
Proof. done. Qed.
Lemma keeps_result v t : keeps (with_result v t).
Proof. done. Qed.
Lemma set_step_state_upd id s t d : set_step_state id s t d = upd id (with_state s t) d.
Proof. done. Qed.
Lemma set_step_result_upd id v t d : set_step_result id v t d = upd id (with_result v t) d.
Proof. done. Qed.
(** What the step's mutation answers. *)
Definition answer (id : string) (r : StepRow) : json :=
  let s := map_saga_step_row id r in executed id (mutation_name s) s.(typename) r.(step_number) s.(variables).
Definition done_row (id : string) (r r' : StepRow) : Prop :=
  exists t1 t2 t3, r' = with_state StepState.Completed t3 (with_result (answer id r) t2 (with_state StepState.Executing t1 r)).
(** A step that was interrupted, at any point. *)
Definition touched (id : string) (r r' : StepRow) : Prop :=
  r' = r \/ (exists t1, r' = with_state StepState.Executing t1 r) \/
  (exists t1 t2, r' = with_result (answer id r) t2 (with_state StepState.Executing t1 r)) \/ done_row id r r'.
(** The rest of the tables is as it was. *)
Definition kept (d d' : Db) (k : Z) : Prop := others d' k = others d k /\ d'.(sagas) = d.(sagas).
Definition other_sagas (d : Db) (id : string) : list SagaRow := List.filter (fun r => negb (r.(row_id) =s id)) d.(sagas).

Definition moved (d d' : Db) (id : string) (s0 : SagaRow) (a b : list StepRow) (r r' : StepRow) : Prop :=
  rows d' s0.(pk) = a ++ r' :: b /\ kept d d' s0.(pk) /\ wf d' id s0.
Lemma moved_upd d id s0 a r b g : wf d id s0 -> rows d s0.(pk) = a ++ r :: b -> keeps g ->
  moved d (upd r.(srow_id) g d) id s0 a b r (g r).
Proof. intros Hw Hr Hg. destruct (upd_step d id s0 a r b g Hw Hr Hg) as (H1 & H2 & H3). done. Qed.
Lemma moved_trans d d1 d2 id s0 a b r r1 r2 : moved d d1 id s0 a b r r1 -> moved d1 d2 id s0 a b r1 r2 -> moved d d2 id s0 a b r r2.
Proof. intros (H1 & [H2 H3] & H4) (H5 & [H6 H7] & H8). split; [done|]. split; [split; congruence|done]. Qed.
Lemma moved_refl d id s0 a b r : wf d id s0 -> rows d s0.(pk) = a ++ r :: b -> moved d d id s0 a b r r.
Proof. done. Qed.

Lemma update_step_moves d id s0 a r b (g : Z -> StepRow -> StepRow) res d' :
  wf d id s0 -> rows d s0.(pk) = a ++ r :: b -> (forall t, keeps (g t)) ->
  runs (t ← now clock; execute faults (fun d => upd r.(srow_id) (g t) d)) d res d' ->
  exists t r', moved d d' id s0 a b r r' /\
    ((res = Ok tt /\ r' = g t r) \/ (faulty /\ (exists e, res = Err e) /\ (r' = r \/ r' = g t r))).
Proof.
  intros Hw Hr Hg Hrun. apply (runs_update faults clock (fun t d => upd r.(srow_id) (g t) d)) in Hrun as (t & [[-> ->]|(Hf & He & [->| ->])]).
  - exists t, (g t r). split; [by apply moved_upd|by left].
  - exists t, r. split; [by apply moved_refl|]. right. auto.
  - exists t, (g t r). split; [by apply moved_upd|]. right. auto.
Qed.
Lemma run_mutation_moves d id s0 a r b res d' :
  wf d id s0 -> rows d s0.(pk) = a ++ r :: b ->
  runs (run_mutation faults clock id r.(step_number) (mutation_name (map_saga_step_row id r)) r.(srow_variables) (map_saga_step_row id r)) d res d' ->
  exists r', moved d d' id s0 a b r r' /\
    ((res = Ok (answer id r) /\ done_row id r r') \/ (faulty /\ (exists e, res = Err e) /\ touched id r r')).
Proof.
  intros Hw Hr Hrun. unfold run_mutation in Hrun. apply runs_bind in Hrun as [([] & d1 & H1 & Hrun)|(e & -> & H1)];
    apply (update_step_moves d id s0 a r b (with_state StepState.Executing)) in H1 as (t1 & r1 & Hm1 & H1); try done.
  2:{ destruct H1 as [[? _]|(Hf & _ & H1)]; [done|]. exists r1. split; [done|]. right. split; [done|]. split; [by eexists|]. unfold touched. naive_solver. }
  destruct H1 as [[_ ->]|(_ & [e ?] & _)]; [|done]. destruct (Hm1) as (Hr1 & _ & Hw1).
  apply runs_bind in Hrun as [([] & d2 & H2 & Hrun)|(e & -> & H2)];
    apply (update_step_moves d1 id s0 a (with_state StepState.Executing t1 r) b (with_result (answer id r))) in H2 as (t2 & r2 & Hm2 & H2); try done;
    pose proof (moved_trans _ _ _ _ _ _ _ _ _ _ Hm1 Hm2) as Hm.
  2:{ destruct H2 as [[? _]|(Hf & _ & H2)]; [done|]. exists r2. split; [done|]. right. split; [done|]. split; [by eexists|]. unfold touched.
      destruct H2 as [->| ->]; eauto 10. }
  destruct H2 as [[_ ->]|(_ & [e ?] & _)]; [|done]. destruct (Hm2) as (Hr2 & _ & Hw2).
  apply runs_bind in Hrun as [([] & d3 & H3 & Hrun)|(e & -> & H3)];
    apply (update_step_moves d2 id s0 a (with_result (answer id r) t2 (with_state StepState.Executing t1 r)) b (with_state StepState.Completed)) in H3 as (t3 & r3 & Hm3 & H3); try done;
    pose proof (moved_trans _ _ _ _ _ _ _ _ _ _ Hm Hm3) as Hm'.
  - destruct H3 as [[_ ->]|(_ & [e ?] & _)]; [|done]. apply runs_ret in Hrun as [-> ->]. eexists. split; [done|]. left. split; [done|].
    by exists t1, t2, t3.
  - destruct H3 as [[? _]|(Hf & _ & H3)]; [done|]. exists r3. split; [done|]. right. split; [done|]. split; [by eexists|]. unfold touched, done_row.
    destruct H3 as [->| ->]; eauto 12.
Qed.

Definition pending (r : StepRow) : Prop := default StepState.Pending (StepState.from_str r.(srow_state)) = StepState.Pending.
Lemma find_numbered id l a r b : l = a ++ r :: b -> NoDup (map step_number l) -> Forall (fun r => 0 <= r.(step_number) < 2 ^ 31) l ->
  step_numbered r.(step_number) (map (map_saga_step_row id) l) = Some (map_saga_step_row id r).
Proof.
  intros -> Hn Hf. induction a as [|x a IH]; cbn [app map step_numbered find] in *.
  - apply list.Forall_cons in Hf as [Hr _]. rewrite order_number by done. by rewrite Z.eqb_refl.
  - apply list.Forall_cons in Hf as [Hx Hf]. apply list.NoDup_cons in Hn as [Hxn Hn]. rewrite order_number by done.
    destruct (Z.eqb_spec x.(step_number) r.(step_number)) as [E|_]; [|by apply IH]. exfalso. apply Hxn. rewrite E.
    apply list_elem_of_fmap_2. set_solver.
Qed.
Lemma as_u32_number z : 0 <= z < 2 ^ 31 -> as_u32 z = z.
Proof. intros. unfold as_u32. apply Z.mod_small. lia. Qed.
Lemma row_range d id s0 a r b : wf d id s0 -> rows d s0.(pk) = a ++ r :: b -> 0 <= r.(step_number) < 2 ^ 31.
Proof. intros Hw Hr. pose proof Hw.(wf_range _ _ _) as Hf. rewrite Hr in Hf. apply list.Forall_app in Hf as [_ Hf]. by apply list.Forall_cons in Hf as [? _]. Qed.
Lemma load_saga_found d id s0 : wf d id s0 -> head (filter (fun r => r.(row_id) = id) d.(sagas)) = Some s0.
Proof. intros Hw. by rewrite Hw.(wf_saga _ _ _). Qed.
Definition step_answer (id : string) (r : StepRow) (x : StepExecutionResult) : Prop :=
  x.(result_step) = r.(step_number) /\ x.(success) = true /\ x.(data) = Some (answer id r) /\ x.(error) = None.
Lemma runs_elapsed d r d' : runs (elapsed elapsed_ms) d r d' -> (exists t, r = Ok t) /\ d' = d.
Proof. intros (w & w' & H & <- & <-). injection H as <- <-. split; [by eexists|done]. Qed.
Lemma runs_new_v4 d r d' : runs (new_v4 uuids) d r d' -> (exists t, r = Ok t) /\ d' = d.
Proof. intros (w & w' & H & <- & <-). injection H as <- <-. split; [by eexists|done]. Qed.
Lemma augment_nothing v : augment_entity_with_requires v (JObject []) = v.
Proof. by destruct v. Qed.
Lemma execute_step_moves d id s0 a r b res d' :
  wf d id s0 -> rows d s0.(pk) = a ++ r :: b ->
  let s := map_saga_step_row id r in
  runs (execute_step faults clock uuids elapsed_ms true id (as_u32 s.(order)) (mutation_name s) s.(variables) s.(subgraph)) d res d' ->
  exists r', moved d d' id s0 a b r r' /\
    ((exists x, res = Ok x /\ step_answer id r x /\ done_row id r r') \/
     ((faulty \/ ~ pending r) /\ (exists e, res = Err e) /\ touched id r r')).
Proof.
  intros Hw Hr s Hrun. pose proof (row_range _ _ _ _ _ _ Hw Hr) as Hrange. unfold s in Hrun. clear s.
  assert (Hfail : forall e, faulty -> res = Err e -> d' = d -> exists r', moved d d' id s0 a b r r' /\
    ((exists x, res = Ok x /\ step_answer id r x /\ done_row id r r') \/ ((faulty \/ ~ pending r) /\ (exists e, res = Err e) /\ touched id r r'))).
  { intros e Hf -> ->. exists r. split; [by apply moved_refl|]. right. split; [by left|]. split; [by eexists|by left]. }
  rewrite order_number, as_u32_number in Hrun by done. unfold execute_step, pre_fetch_requires_fields in Hrun.
  apply runs_bind in Hrun as [(v & d1 & H1 & Hrun)|(e & -> & H1)]; apply runs_ret in H1 as [H1 ->]; [|done]. injection H1 as ->.
  rewrite augment_nothing in Hrun.
  apply runs_bind in Hrun as [(f & d1 & H1 & Hrun)|(e & -> & H1)]; apply runs_query in H1 as [-> H1].
  2:{ destruct H1 as [?|[Hf _]]; [done|]. by eapply Hfail. }
  destruct H1 as [H1|(_ & e & ?)]; [|done]. injection H1 as ->. rewrite (load_saga_found _ _ _ Hw) in Hrun. cbn [fmap option_fmap option_map or_fail] in Hrun.
  apply runs_bind in Hrun as [(v & d1 & H1 & Hrun)|(e & -> & H1)]; apply runs_ret in H1 as [H1 ->]; [|done]. clear H1 v.
  apply runs_bind in Hrun as [(l & d1 & H1 & Hrun)|(e & -> & H1)]; apply runs_query in H1 as [-> H1].
  2:{ destruct H1 as [?|[Hf _]]; [done|]. by eapply Hfail. }
  destruct H1 as [H1|(_ & e & ?)]; [|done]. injection H1 as ->.
  apply runs_bind in Hrun as [(u & d1 & H1 & Hrun)|(e & -> & H1)]; apply runs_new_v4 in H1 as [[? H1] ->]; [|done]. clear H1.
  rewrite (loaded_steps _ _ _ Hw) in Hrun. unfold steps_of in Hrun.
  rewrite (find_numbered id _ a r b Hr (Hw.(wf_numbers _ _ _)) (Hw.(wf_range _ _ _))) in Hrun. cbn [or_fail] in Hrun.
  apply runs_bind in Hrun as [(v & d1 & H1 & Hrun)|(e & -> & H1)]; apply runs_ret in H1 as [H1 ->]; [|done]. injection H1 as ->.
  destruct (bool_decide _) eqn:Hp; cbn [negb] in Hrun.
  - apply bool_decide_eq_true in Hp.
    apply runs_bind in Hrun as [(v & d1 & H1 & Hrun)|(e & -> & H1)];
      apply (run_mutation_moves d id s0 a r b) in H1 as (r' & Hm & H1); try done.
    + destruct H1 as [[H1 Hd]|(_ & [e ?] & _)]; [|done]. injection H1 as ->. exists r'. 
      apply runs_bind in Hrun as [(ms & d2 & H2 & Hrun)|(e & -> & H2)]; apply runs_elapsed in H2 as [[? H2] ->]; [|done].
      apply runs_ret in Hrun as [-> ->]. split; [done|]. left. eexists. split; [done|]. split; [|done]. done.
    + destruct H1 as [[? _]|(Hf & He & Ht)]; [done|]. exists r'. split; [done|]. right. split; [by left|]. split; [by eexists|done].
  - apply bool_decide_eq_false in Hp. apply runs_fail in Hrun as [-> ->]. exists r. split; [by apply moved_refl|]. right.
    split; [by right|]. split; [by eexists|by left].
Qed.

(** *** The state of the saga *)
Definition saga_as (s : SagaState.t) (t : Z) (r : SagaRow) : SagaRow :=
  mkSagaRow r.(pk) r.(row_id) (SagaState.as_str s) r.(row_created_at) (if saga_final s then Some t else None) t r.(row_metadata).
Lemma saga_row_id d id s0 : wf d id s0 -> s0.(row_id) = id.
Proof.
  intros Hw. assert (Hin : s0 ∈ filter (fun r => r.(row_id) = id) d.(sagas)) by (rewrite Hw.(wf_saga _ _ _); left).
  by apply list_elem_of_filter in Hin as [-> _].
Qed.
Definition same_steps (d d' : Db) (id : string) : Prop := d'.(steps) = d.(steps) /\ other_sagas d' id = other_sagas d id.
Lemma set_saga_state_wf d id s0 st t : wf d id s0 ->
  wf (set_saga_state id st t d) id (saga_as st t s0) /\ same_steps d (set_saga_state id st t d) id.
Proof.
  intros Hw. split; [split; try apply Hw|split; [done|]].
  - cbn [sagas with_sagas set_saga_state]. pose proof Hw.(wf_saga _ _ _) as Hs. revert Hs. generalize d.(sagas) as l. intros l.
    induction l as [|x l IH]; intros Hs; [done|]. cbn [map]. destruct (x.(row_id) =s id) eqn:E; to_prop.
    + rewrite filter_cons_True in Hs by done. rewrite filter_cons_True by done. injection Hs as -> Hs. f_equal.
      pose proof (filter_none_in _ _ _ Hs) as Hn. clear Hs IH. induction l as [|y l IH]; [done|]. cbn [map].
      assert (Hy : (y.(row_id) =s id) = false) by (apply streqb_false, Hn; left). rewrite Hy, filter_cons_False by (apply Hn; left).
      apply IH. intros. apply Hn. by right.
    + rewrite filter_cons_False in Hs by done. rewrite filter_cons_False by done. by apply IH.
  - unfold other_sagas. cbn [sagas with_sagas set_saga_state]. generalize d.(sagas) as l. intros l. induction l as [|x l IH]; [done|]. cbn [map List.filter].
    destruct (x.(row_id) =s id) eqn:E; cbn [row_id]; rewrite E; cbn [negb]; by rewrite IH.
Qed.
Lemma update_saga_runs d id s0 st res d' : wf d id s0 -> runs (update_saga_state faults clock id st) d res d' ->
  exists s1, wf d' id s1 /\ same_steps d d' id /\ s1.(pk) = s0.(pk) /\
    ((res = Ok tt /\ s1.(row_state) = SagaState.as_str st) \/
     (faulty /\ (exists e, res = Err e) /\ (s1 = s0 \/ s1.(row_state) = SagaState.as_str st))).
Proof.
  intros Hw Hrun. apply (runs_update faults clock (set_saga_state id st)) in Hrun as (t & H1).
  destruct (set_saga_state_wf d id s0 st t Hw) as [Hw' Hsame].
  destruct H1 as [[-> ->]|(Hf & He & [->| ->])]; [| |]; first
    [exists (saga_as st t s0); split; [done|]; split; [done|]; split; [done|]; first [by left|right; eauto]
    |exists s0; split; [done|]; split; [done|]; split; [done|]; right; eauto].
Qed.
Lemma same_rows d d' id k : same_steps d d' id -> rows d' k = rows d k /\ others d' k = others d k.
Proof. intros [Hs _]. unfold rows, others. by rewrite Hs. Qed.

(** *** The loop *)
(** The first step of a list was interrupted, those after it were not reached. *)
Definition interrupted (id : string) (l l' : list StepRow) : Prop :=
  match l, l' with
  | [], [] => True
  | r :: l, r' :: l' => touched id r r' /\ l' = l
  | _, _ => False
  end.
Lemma execute_steps_runs id todo : forall d s0 a res d',
  wf d id s0 -> rows d s0.(pk) = a ++ todo ->
  runs (execute_steps faults clock uuids elapsed_ms id (map (map_saga_step_row id) todo)) d res d' ->
  exists s1 t1 t2 t1' t2' xs,
    todo = t1 ++ t2 /\ rows d' s0.(pk) = a ++ t1' ++ t2' /\ Forall2 (done_row id) t1 t1' /\ interrupted id t2 t2' /\
    others d' s0.(pk) = others d s0.(pk) /\ other_sagas d' id = other_sagas d id /\ wf d' id s1 /\ s1.(pk) = s0.(pk) /\
    Forall2 (step_answer id) t1 xs /\
    match t2 with
    | [] => res = Ok (xs, false) /\ s1 = s0
    | r :: _ => res = Ok (xs, true) /\ (faulty \/ ~ pending r) /\ (s1.(row_state) = "failed"%string \/ faulty /\ s1 = s0)
    end.
Proof.
  induction todo as [|r todo IH]; intros d s0 a res d' Hw Hr Hrun; cbn [map execute_steps] in Hrun.
  - apply runs_ret in Hrun as [-> ->]. exists s0, [], [], [], [], []. by repeat (split; [first [done|constructor]|]).
  - apply runs_bind in Hrun as [(o & d1 & H1 & Hrun)|(e & -> & H1)]; apply runs_attempt in H1 as (r1 & Hr1 & H1); [|done].
    injection Hr1 as ->. apply (execute_step_moves d id s0 a r todo) in H1 as (r' & (Hrows & [Ho Hsg] & Hw1) & H1); [|done..].
    destruct H1 as [(x & -> & Hx & Hdone)|(Hwhy & [e ->] & Ht)].
    + apply runs_bind in Hrun as [(q & d2 & H2 & Hrun)|(e & -> & H2)].
      * apply (IH d1 s0 (a ++ [r'])) in H2 as (s1 & t1 & t2 & t1' & t2' & xs & -> & Hrows2 & Hd & Hi & Ho2 & Hsg2 & Hw2 & Hpk & Hxs & Hend); [|done|by rewrite <- app_assoc].
        apply runs_ret in Hrun as [-> ->]. exists s1, (r :: t1), t2, (r' :: t1'), t2', (x :: xs).
        split; [done|]. split; [by rewrite Hrows2, <- app_assoc|]. split; [by constructor|]. split; [done|]. split; [congruence|].
        split; [unfold other_sagas in *; congruence|]. split; [done|]. split; [done|]. split; [by constructor|].
        destruct t2; [destruct Hend as [Hq ->]|destruct Hend as (Hq & ? & ?)]; injection Hq as ->; auto.
      * exfalso. apply (IH d1 s0 (a ++ [r'])) in H2 as (s1 & t1 & t2 & t1' & t2' & xs & _ & _ & _ & _ & _ & _ & _ & _ & _ & Hend); [|done|by rewrite <- app_assoc].
        destruct t2; [by destruct Hend|by destruct Hend].
    + apply runs_bind in Hrun as [(o & d2 & H2 & Hrun)|(e' & -> & H2)]; apply runs_attempt in H2 as (r2 & Hr2 & H2); [|done]. injection Hr2 as ->.
      apply runs_ret in Hrun as [-> ->]. apply (update_saga_runs d1 id s0) in H2 as (s1 & Hw2 & Hsame & Hpk & Hst); [|done].
      destruct (same_rows _ _ _ s0.(pk) Hsame) as [Hs1 Hs2]. exists s1, [], (r :: todo), [], (r' :: todo), [].
      split; [done|]. split; [by rewrite Hs1, Hrows|]. split; [constructor|]. split; [done|]. split; [congruence|].
      split; [destruct Hsame as [_ ->]; unfold other_sagas; by rewrite Hsg|]. split; [done|]. split; [done|]. split; [constructor|].
      split; [done|]. split; [done|]. destruct Hst as [[_ ?]|(Hf & _ & [?|?])]; auto.
Qed.

(** What the forward phase leaves. *)
Definition forward_outcome (d : Db) (id : string) (s0 : SagaRow) (res : result SagaStoreError (list StepExecutionResult)) (d' : Db) : Prop :=
  exists s1 t1 t2 t1' t2',
    rows d s0.(pk) = t1 ++ t2 /\ rows d' s0.(pk) = t1' ++ t2' /\ Forall2 (done_row id) t1 t1' /\ interrupted id t2 t2' /\
    others d' s0.(pk) = others d s0.(pk) /\ other_sagas d' id = other_sagas d id /\ wf d' id s1 /\
    match res with
    | Ok xs => Forall2 (step_answer id) t1 xs /\
        match t2 with
        | [] => s1.(row_state) = "completed"%string
        | r :: _ => (faulty \/ ~ pending r) /\ (s1.(row_state) = "failed" \/ faulty /\ s1.(row_state) = "executing")%string
        end
    | Err _ => faulty /\ (s1 = s0 \/ s1.(row_state) = "executing"%string \/ s1.(row_state) = "completed"%string /\ t2 = [])
    end.
Lemma forward_stopped d id s0 e s1 d' : wf d' id s1 -> same_steps d d' id ->
  (s1 = s0 \/ s1.(row_state) = "executing"%string) -> faulty -> forward_outcome d id s0 (Err e) d'.
Proof.
  intros Hw Hs Hst Hf. destruct (same_rows _ _ _ s0.(pk) Hs) as [H1 H2].
  exists s1, [], (rows d s0.(pk)), [], (rows d s0.(pk)). split; [done|]. split; [by rewrite H1|]. split; [constructor|].
  split; [by destruct (rows d s0.(pk)); [|split; [left|]]|]. split; [done|]. split; [apply Hs|]. split; [done|]. split; [done|]. tauto.
Qed.
(** From the first statement of the loop on. *)
Definition forward_tail (id : string) (todo : list StepRow) : StoreM (list StepExecutionResult) :=
  r ← execute_steps faults clock uuids elapsed_ms id (map (map_saga_step_row id) todo);
  _ ← (if r.2 : bool then mret tt else update_saga_state faults clock id SagaState.Completed);
  mret r.1.
Lemma forward_tail_runs d d1 id s0 s1 res d' :
  wf d1 id s1 -> same_steps d d1 id -> s1.(pk) = s0.(pk) -> s1.(row_state) = "executing"%string ->
  runs (forward_tail id (rows d1 s1.(pk))) d1 res d' -> forward_outcome d id s0 res d'.
Proof.
  intros Hw1 Hs1 Hpk1 Hst1 Hrun. destruct (same_rows _ _ _ s0.(pk) Hs1) as [Hrows1 Hothers1].
  apply runs_bind in Hrun as [(q & d2 & H1 & Hrun)|(e & -> & H1)];
    apply (execute_steps_runs id _ d1 s1 []) in H1 as (s2 & t1 & t2 & t1' & t2' & xs & Ht & Hr2 & Hd & Hi & Ho & Hsg & Hw2 & Hpk2 & Hx & Hend); try done.
  2:{ destruct t2; by destruct Hend. }
  rewrite Hpk1, Hrows1 in Ht. rewrite Hpk1 in Hr2, Ho. rewrite Hothers1 in Ho.
  assert (Hsg' : other_sagas d2 id = other_sagas d id) by (rewrite Hsg; apply Hs1).
  destruct t2 as [|r t2].
  - destruct Hend as [Hq ->]. injection Hq as ->. cbn [fst snd] in Hrun.
    apply runs_bind in Hrun as [(v & d3 & H1 & Hrun)|(e & -> & H1)]; apply (update_saga_runs d2 id s1) in H1 as (s3 & Hw3 & Hs3 & _ & H1); try done;
      destruct (same_rows _ _ _ s0.(pk) Hs3) as [Hrows3 Hothers3].
    + destruct H1 as [[_ Hst3]|(_ & [e ?] & _)]; [|done]. apply runs_ret in Hrun as [-> ->].
      exists s3, t1, [], t1', t2'. rewrite Hrows3, Hothers3. destruct Hs3 as [_ ->]. done.
    + destruct H1 as [[? _]|(Hf & _ & Hst3)]; [done|].
      exists s3, t1, [], t1', t2'. rewrite Hrows3, Hothers3. destruct Hs3 as [_ ->]. repeat (split; [done|]). destruct Hst3 as [->|?]; auto.
  - destruct Hend as (Hq & Hwhy & Hst2). injection Hq as ->. cbn [fst snd] in Hrun.
    apply runs_bind in Hrun as [(v & d3 & H1 & Hrun)|(e & -> & H1)]; apply runs_ret in H1 as [H1 ->]; [|done].
    apply runs_ret in Hrun as [-> ->]. exists s2, t1, (r :: t2), t1', t2'. repeat (split; [done|]). destruct Hst2 as [?|[? ->]]; auto.
Qed.
Lemma execute_saga_runs d id s0 res d' :
  wf d id s0 -> runs (execute_saga faults clock uuids elapsed_ms true id) d res d' -> forward_outcome d id s0 res d'.
Proof.
  intros Hw Hrun. assert (Hself : same_steps d d id) by done. unfold execute_saga in Hrun.
  apply runs_bind in Hrun as [(f & d1 & H1 & Hrun)|(e & -> & H1)]; apply runs_query in H1 as [-> H1].
  2:{ destruct H1 as [?|[Hf _]]; [done|]. eapply forward_stopped; eauto. }
  destruct H1 as [H1|(_ & e & ?)]; [|done]. injection H1 as ->. rewrite (load_saga_found _ _ _ Hw) in Hrun. cbn [fmap option_fmap option_map or_fail] in Hrun.
  apply runs_bind in Hrun as [(v & d1 & H1 & Hrun)|(e & -> & H1)]; apply runs_ret in H1 as [H1 ->]; [|done]. clear H1 v.
  apply runs_bind in Hrun as [([] & d1 & H1 & Hrun)|(e & -> & H1)]; apply (update_saga_runs d id s0) in H1 as (s1 & Hw1 & Hs1 & Hpk1 & H1); try done.
  2:{ destruct H1 as [[? _]|(Hf & _ & Hst)]; [done|]. eapply forward_stopped; eauto. }
  destruct H1 as [[_ Hst1]|(_ & [e ?] & _)]; [|done].
  apply runs_bind in Hrun as [(l & d2 & H1 & Hrun)|(e & -> & H1)]; apply runs_query in H1 as [-> H1].
  2:{ destruct H1 as [?|[Hf _]]; [done|]. eapply forward_stopped; eauto. }
  destruct H1 as [H1|(_ & e & ?)]; [|done]. injection H1 as ->. rewrite (loaded_steps _ _ _ Hw1), (sorted_steps _ _ _ Hw1) in Hrun.
  by eapply forward_tail_runs.
Qed.
(** C20. Whatever statements fail: the steps done are a prefix of the saga's steps
    in the order of their numbers, at most one step after it was touched, and
    nothing else in the tables has changed; a saga that ends [completed] has
    every step done, and a phase that stops early stopped at a statement that
    failed or at a step that was not pending. *)
Theorem forward_phase d id s0 res d' :
  wf d id s0 -> runs (execute_saga faults clock uuids elapsed_ms true id) d res d' -> forward_outcome d id s0 res d'.
Proof. apply execute_saga_runs. Qed.
(** When every statement works and every step is pending, every step is done,
    in the order of the numbers, and the saga completed. *)
Theorem forward_completes d id s0 res d' :
  (forall n, faults n = Works) -> wf d id s0 -> Forall pending (rows d s0.(pk)) ->
  runs (execute_saga faults clock uuids elapsed_ms true id) d res d' ->
  exists s1 xs, res = Ok xs /\ Forall2 (done_row id) (rows d s0.(pk)) (rows d' s0.(pk)) /\
    Forall2 (step_answer id) (rows d s0.(pk)) xs /\ wf d' id s1 /\ s1.(row_state) = "completed"%string.
Proof.
  intros Hok Hw Hp Hrun. assert (Hn : ~ faulty) by (intros [n Hn]; by apply Hn).
  apply (execute_saga_runs _ _ s0) in Hrun as (s1 & t1 & t2 & t1' & t2' & Ht & Hr & Hd & Hi & _ & _ & Hw1 & Hres); [|done].
  destruct res as [xs|e]; [|by destruct Hres]. destruct Hres as [Hx Hst]. destruct t2 as [|r t2].
  - destruct t2'; [|done]. rewrite app_nil_r in Ht, Hr. exists s1, xs. rewrite Ht, Hr. done.
  - destruct Hst as [[?|Hnp] _]; [done|]. exfalso. apply Hnp. rewrite Ht in Hp. apply list.Forall_app in Hp as [_ Hp]. by apply list.Forall_cons in Hp as [? _].
Qed.
End Forward.

(** ** The compensation phase *)
Section Compensation.
Context `{Sql : SqlOrder} (faults : nat -> Fault) (clock : nat -> Z) (uuids : nat -> string) (elapsed_ms : nat -> Z).
Context (debug_error : SagaStoreError -> string).
#[local] Notation faulty := (faulty faults).
Definition is_completed (r : StepRow) : bool := bool_decide (default StepState.Pending (StepState.from_str r.(srow_state)) = StepState.Completed).
(** What compensating a step leaves as its result. *)
Definition marker (r : StepRow) : json :=
  object [("deleted", JBool true); ("confirmation_id", JString (confirmation r.(step_number))); ("__typename", JString r.(srow_typename))]%string.
Definition undone (r r' : StepRow) : Prop := exists t, r' = with_result (marker r) t r.
Definition undo_answer (r : StepRow) (x : StepExecutionResult) : Prop := x.(result_step) = r.(step_number) /\ x.(success) = true /\ x.(data) = Some (marker r).
Lemma compensate_step_moves d id s0 a r b res d' :
  wf d id s0 -> rows d s0.(pk) = a ++ r :: b -> is_completed r = true ->
  let s := map_saga_step_row id r in
  runs (compensate_step faults clock uuids elapsed_ms true id (as_u32 s.(order)) ("delete_" ++ s.(typename))%string
    (default (JObject []) s.(step_result)) s.(subgraph)) d res d' ->
  exists r', moved d d' id s0 a b r r' /\
    ((exists x, res = Ok x /\ undo_answer r x /\ undone r r') \/ (faulty /\ (exists e, res = Err e) /\ (r' = r \/ undone r r'))).
Proof.
  intros Hw Hr Hc s Hrun. pose proof (row_range _ _ _ _ _ _ Hw Hr) as Hrange. unfold s in Hrun. clear s.
  rewrite order_number, as_u32_number in Hrun by done. unfold compensate_step in Hrun.
  apply runs_bind in Hrun as [(l & d1 & H1 & Hrun)|(e & -> & H1)]; apply runs_query in H1 as [-> H1].
  2:{ destruct H1 as [?|[Hf _]]; [done|]. exists r. split; [by apply moved_refl|]. right. eauto 10. }
  destruct H1 as [H1|(_ & e & ?)]; [|done]. injection H1 as ->. rewrite (loaded_steps _ _ _ Hw) in Hrun. unfold steps_of in Hrun.
  rewrite (find_numbered id _ a r b Hr (Hw.(wf_numbers _ _ _)) (Hw.(wf_range _ _ _))) in Hrun.
  apply runs_bind in Hrun as [(v & d1 & H1 & Hrun)|(e & -> & H1)]; apply runs_ret in H1 as [H1 ->]; [|done]. injection H1 as ->.
  cbn [step_state map_saga_step_row] in Hrun. unfold is_completed in Hc. rewrite Hc in Hrun. cbn [negb] in Hrun.
  apply runs_bind in Hrun as [([] & d1 & H1 & Hrun)|(e & -> & H1)];
    apply (update_step_moves faults clock d id s0 a r b (with_result (marker r))) in H1 as (t & r' & Hm & H1); try done.
  - destruct H1 as [[_ ->]|(_ & [e ?] & _)]; [|done].
    apply runs_bind in Hrun as [(ms & d2 & H2 & Hrun)|(e & -> & H2)]; apply runs_elapsed in H2 as [[? H2] ->]; [|done].
    apply runs_ret in Hrun as [-> ->]. eexists. split; [done|]. left. eexists. split; [done|]. split; [by repeat split|]. by exists t.
  - destruct H1 as [[? _]|(Hf & He & Ht)]; [done|]. exists r'. split; [done|]. right. split; [done|]. split; [by eexists|].
    destruct Ht as [->| ->]; [by left|right; by exists t].
Qed.

(** Of the steps of a list, those not recorded as failed are undone; no other
    step changes. *)
Definition undone_rows (l todo : list StepRow) (l' : list StepRow) : Prop :=
  Forall2 (fun r r' => r' = r \/ r ∈ todo /\ undone r r') l l'.
Lemma undone_number r r' : undone r r' -> r'.(step_number) = r.(step_number).
Proof. by intros [t ->]. Qed.
Lemma undone_rows_step a r r' b todo l' :
  r' = r \/ undone r r' -> r.(step_number) ∉ map step_number todo ->
  undone_rows (a ++ r' :: b) todo l' -> undone_rows (a ++ r :: b) (r :: todo) l' /\ r' ∈ l'.
Proof.
  intros Hr Hn Hu. apply Forall2_app_inv_l in Hu as (l1 & l2 & H1 & H2 & ->). inversion H2 as [|? y ? l2' Hy H3]; subst.
  assert (y = r') as ->.
  { destruct Hy as [->|[Hin _]]; [done|]. exfalso. apply Hn.
    assert (Hnum : r'.(step_number) = r.(step_number)) by (destruct Hr as [->|Hr]; [done|by apply undone_number]).
    rewrite <- Hnum. by apply list_elem_of_fmap_2. }
  split; [|set_solver]. apply Forall2_app; [|constructor].
  - eapply list.Forall2_impl; [exact H1|]. intros x y [->|[? ?]]; [by left|right; split; [by right|done]].
  - destruct Hr as [->|Hr]; [by left|right; split; [left|done]].
  - eapply list.Forall2_impl; [exact H3|]. intros x y [->|[? ?]]; [by left|right; split; [by right|done]].
Qed.
(** The steps whose result reports no success. *)
Definition reported_failed (xs : list StepExecutionResult) : list Z := map result_step (List.filter (fun x => negb x.(success)) xs).
Lemma compensate_steps_runs id todo : forall d s0 res d',
  wf d id s0 -> NoDup (map step_number todo) -> Forall (fun r => r ∈ rows d s0.(pk) /\ is_completed r = true) todo ->
  runs (compensate_steps faults clock uuids elapsed_ms debug_error id (map (map_saga_step_row id) todo)) d res d' ->
  exists xs failed, res = Ok (xs, failed) /\ map result_step xs = map step_number todo /\
    undone_rows (rows d s0.(pk)) todo (rows d' s0.(pk)) /\ kept d d' s0.(pk) /\ wf d' id s0 /\
    (failed <> [] -> faulty) /\ reported_failed xs = failed /\
    forall r, r ∈ todo -> r.(step_number) ∉ failed -> exists r', undone r r' /\ r' ∈ rows d' s0.(pk).
Proof.
  induction todo as [|r todo IH]; intros d s0 res d' Hw Hn Hin Hrun; cbn [map compensate_steps] in Hrun.
  - apply runs_ret in Hrun as [-> ->]. exists [], []. split; [done|]. split; [done|].
    split; [|repeat (split; [done|]); intros r Hr; by apply elem_of_nil in Hr].
    unfold undone_rows. induction (rows d s0.(pk)); constructor; auto.
  - cbn in Hn. apply list.NoDup_cons in Hn as [Hrn Hn]. apply list.Forall_cons in Hin as [[Hrin Hc] Hin].
    apply list_elem_of_split in Hrin as (a & b & Hrows).
    apply runs_bind in Hrun as [(o & d1 & H1 & Hrun)|(e & -> & H1)]; apply runs_attempt in H1 as (r1 & Hr1 & H1); [|done]. injection Hr1 as ->.
    apply (compensate_step_moves d id s0 a r b) in H1 as (r' & (Hrows1 & [Ho1 Hsg1] & Hw1) & H1); [|done..].
    assert (Hr' : r' = r \/ undone r r') by (destruct H1 as [(x & _ & _ & ?)|(_ & _ & ?)]; auto).
    assert (Hin1 : Forall (fun r => r ∈ rows d1 s0.(pk) /\ is_completed r = true) todo).
    { apply list.Forall_forall. intros x Hx. rewrite list.Forall_forall in Hin. destruct (Hin x Hx) as [Hxr Hxc]. split; [|done].
      rewrite Hrows1. rewrite Hrows in Hxr. assert (Hne : x <> r) by (intros ->; apply Hrn; by apply list_elem_of_fmap_2).
      rewrite list.elem_of_app, list.elem_of_cons in Hxr |- *. naive_solver. }
    apply runs_bind in Hrun as [(q & d2 & H2 & Hrun)|(e & -> & H2)];
      apply (IH d1 s0) in H2 as (xs & failed & Hq & Hxs & Hu & [Ho2 Hsg2] & Hw2 & Hf & Hrep & Hall); try done.
    injection Hq as ->. rewrite Hrows1 in Hu. apply (undone_rows_step a r) in Hu as [Hu Hr'in]; [|done..]. rewrite <- Hrows in Hu.
    apply runs_ret in Hrun as [-> ->]. assert (Hk : kept d d2 s0.(pk)) by (split; congruence).
    destruct H1 as [(x & -> & (Hx & Hok & _) & Hun)|(Hfy & [e ->] & _)]; cbn [fst snd].
    + exists (x :: xs), failed. split; [done|]. split; [cbn; by rewrite Hx, Hxs|]. do 4 (split; [done|]).
      split; [unfold reported_failed; cbn; by rewrite Hok|].
      intros y [->|Hy]%list.elem_of_cons; [|by apply Hall]. by exists r'.
    + pose proof (row_range _ _ _ _ _ _ Hw Hrows) as Hrange. rewrite order_number, as_u32_number by done. eexists _, _. split; [done|]. split; [cbn; by rewrite Hxs|]. do 4 (split; [done|]).
      split; [unfold reported_failed in *; cbn; by rewrite Hrep|].
      intros y [->|Hy]%list.elem_of_cons Hny; [set_solver|]. apply Hall; [done|set_solver].
Qed.

Definition completed_rows (d : Db) (k : Z) : list StepRow := List.filter is_completed (rows d k).
Lemma completed_steps id l : completed (map (map_saga_step_row id) l) = map (map_saga_step_row id) (List.filter is_completed l).
Proof.
  unfold completed. induction l as [|r l IH]; [done|]. cbn [map List.filter].
  change (bool_decide (step_state (map_saga_step_row id r) = StepState.Completed)) with (is_completed r).
  destruct (is_completed r); cbn [map]; by rewrite IH.
Qed.
Lemma reverse_map {A B} (f : A -> B) l : reverse (map f l) = map f (reverse l).
Proof. symmetry. apply (fmap_reverse f). Qed.
Lemma overall_all n k : overall n k = AllCompensated <-> n = 0%nat.
Proof. unfold overall. destruct (Nat.eqb_spec n 0); [done|]. split; [by destruct (n <? k)%nat|done]. Qed.
(** What compensating a failed saga leaves. *)
Definition compensation_outcome (d : Db) (id : string) (s0 : SagaRow) (res : result SagaStoreError CompensationResult) (d' : Db) : Prop :=
  exists s1,
    undone_rows (rows d s0.(pk)) (completed_rows d s0.(pk)) (rows d' s0.(pk)) /\
    others d' s0.(pk) = others d s0.(pk) /\ other_sagas d' id = other_sagas d id /\ wf d' id s1 /\
    (s1.(row_state) = "compensated"%string ->
      forall r, r ∈ completed_rows d s0.(pk) -> exists r', undone r r' /\ r' ∈ rows d' s0.(pk)) /\
    match res with
    | Ok c =>
        map result_step c.(step_results) = reverse (map step_number (completed_rows d s0.(pk))) /\
        reported_failed c.(step_results) = c.(failed_steps) /\
        (forall r, r ∈ completed_rows d s0.(pk) -> r.(step_number) ∉ c.(failed_steps) -> exists r', undone r r' /\ r' ∈ rows d' s0.(pk)) /\
        c.(status) = overall (length c.(failed_steps)) (length (completed_rows d s0.(pk))) /\
        match c.(status) with
        | AllCompensated => s1.(row_state) = "compensated"%string /\ c.(failed_steps) = []
        | _ => s1.(row_state) = "failed"%string /\ faulty
        end
    | Err _ => faulty
    end.
Lemma undone_rows_refl l todo : undone_rows l todo l.
Proof. unfold undone_rows. induction l; constructor; auto. Qed.
Lemma compensation_stopped d id s0 e s1 d' : wf d' id s1 -> same_steps d d' id -> s1.(row_state) <> "compensated"%string -> faulty ->
  compensation_outcome d id s0 (Err e) d'.
Proof.
  intros Hw Hs Hst Hf. destruct (same_rows _ _ _ s0.(pk) Hs) as [H1 H2]. exists s1. rewrite H1, H2.
  split; [apply undone_rows_refl|]. split; [done|]. split; [apply Hs|]. done.
Qed.
(** From the first statement of the loop on. *)
Definition compensation_tail (id : string) (todo : list StepRow) : StoreM CompensationResult :=
  r ← compensate_steps faults clock uuids elapsed_ms debug_error id (reverse (map (map_saga_step_row id) todo));
  let st := overall (length r.2) (length (map (map_saga_step_row id) todo)) in
  _ ← update_saga_state faults clock id (match st with AllCompensated => SagaState.Compensated | _ => SagaState.Failed end);
  ms ← elapsed elapsed_ms;
  mret (mkCompensation id st r.1 r.2 ms None).
Lemma filter_numbers (l : list StepRow) p : NoDup (map step_number l) -> NoDup (map step_number (List.filter p l)).
Proof.
  induction l as [|r l IH]; [done|]. cbn. intros [Hr Hn]%list.NoDup_cons. destruct (p r); [|auto]. cbn. apply list.NoDup_cons.
  split; [|auto]. intros Hin. apply Hr. apply list_elem_of_In, in_map_iff in Hin as (x & Hx & Hin). apply filter_In in Hin as [Hin _].
  apply list_elem_of_In, in_map_iff. eauto.
Qed.
Lemma compensation_tail_runs d d1 id s0 s1 res d' :
  wf d1 id s1 -> same_steps d d1 id -> s1.(pk) = s0.(pk) -> s1.(row_state) = "compensating"%string ->
  runs (compensation_tail id (completed_rows d1 s1.(pk))) d1 res d' -> compensation_outcome d id s0 res d'.
Proof.
  intros Hw1 Hs1 Hpk Hst1 Hrun. destruct (same_rows _ _ _ s0.(pk) Hs1) as [Hrows1 Hothers1]. unfold compensation_tail in Hrun.
  assert (Hc : completed_rows d1 s1.(pk) = completed_rows d s0.(pk)) by (unfold completed_rows; by rewrite Hpk, Hrows1).
  rewrite reverse_map in Hrun.
  assert (Hn : NoDup (map step_number (reverse (completed_rows d1 s1.(pk))))).
  { rewrite <- reverse_map, reverse_Permutation. apply filter_numbers, Hw1. }
  assert (Hin : Forall (fun r => r ∈ rows d1 s1.(pk) /\ is_completed r = true) (reverse (completed_rows d1 s1.(pk)))).
  { apply list.Forall_forall. intros r Hr. rewrite elem_of_reverse in Hr. apply list_elem_of_In, filter_In in Hr as [Hr ?]. by apply list_elem_of_In in Hr. }
  apply runs_bind in Hrun as [(q & d2 & H1 & Hrun)|(e & -> & H1)];
    apply (compensate_steps_runs id _ d1 s1) in H1 as (xs & failed & Hq & Hxs & Hu & [Ho Hsg] & Hw2 & Hf & Hrep & Hall); try done.
  injection Hq as ->. cbn [fst snd] in Hrun.
  assert (Hall' : failed = [] -> forall r, r ∈ completed_rows d s0.(pk) -> exists r', undone r r' /\ r' ∈ rows d2 s1.(pk)).
  { intros -> r Hr. apply Hall; [rewrite elem_of_reverse; by rewrite Hc|intros Hx; by apply elem_of_nil in Hx]. }
  assert (Hu' : undone_rows (rows d s0.(pk)) (completed_rows d s0.(pk)) (rows d2 s0.(pk))).
  { rewrite <- Hc, <- Hrows1, <- Hpk. eapply list.Forall2_impl; [exact Hu|]. intros x y [->|[Hx ?]]; [by left|]. right. by rewrite elem_of_reverse in Hx. }
  rewrite Hpk in *. set (st := overall _ _) in Hrun.
  assert (Hst : st = AllCompensated <-> failed = []) by (unfold st; rewrite overall_all; by destruct failed).
  apply runs_bind in Hrun as [([] & d3 & H1 & Hrun)|(e & -> & H1)]; apply (update_saga_runs _ _ d2 id s1) in H1 as (s3 & Hw3 & Hs3 & _ & H1); try done;
    destruct (same_rows _ _ _ s0.(pk) Hs3) as [Hrows3 Hothers3].
  - destruct H1 as [[_ Hst3]|(_ & [e ?] & _)]; [|done].
    apply runs_bind in Hrun as [(ms & d4 & H2 & Hrun)|(e & -> & H2)]; apply runs_elapsed in H2 as [[? H2] ->]; [|done].
    apply runs_ret in Hrun as [-> ->]. exists s3. rewrite Hrows3, Hothers3. split; [done|]. split; [congruence|].
    split; [destruct Hs3 as [_ ->]; destruct Hs1 as [_ <-]; unfold other_sagas; by rewrite Hsg|]. split; [done|]. split.
    + intros Hx. rewrite Hst3 in Hx. apply Hall'. apply Hst. by destruct st.
    + cbn [step_results status failed_steps]. split; [by rewrite Hxs, <- Hc, reverse_map|]. split; [done|].
      split; [intros r Hr Hnf; apply Hall; [rewrite elem_of_reverse; by rewrite Hc|done]|].
      split; [unfold st; by rewrite <- Hc, ?length_map|].
      destruct st; [split; [done|by apply Hst]|..]; (split; [done|]); apply Hf; intros Hx; by apply Hst in Hx.
  - destruct H1 as [[? _]|(Hfy & _ & Hst3)]; [done|]. exists s3. rewrite Hrows3, Hothers3. split; [done|]. split; [congruence|].
    split; [destruct Hs3 as [_ ->]; destruct Hs1 as [_ <-]; unfold other_sagas; by rewrite Hsg|]. split; [done|]. split; [|done].
    intros Hx. destruct Hst3 as [->|Hst3]; [by rewrite Hst1 in Hx|]. rewrite Hst3 in Hx. apply Hall'. apply Hst. by destruct st.
Qed.
End Compensation.

(** ** Recovery *)
Section Recovery.
Context `{Sql : SqlOrder} (faults : nat -> Fault) (clock : nat -> Z).
(** A saga's row after an iteration. *)
Definition recovered (r r' : SagaRow) : Prop :=
  r' = r \/ r.(row_state) = "pending"%string /\ exists t, r' = saga_as SagaState.Executing t r.
Definition started (ids : list string) (r r' : SagaRow) : Prop := r' = r \/ r.(row_id) ∈ ids /\ exists t, r' = saga_as SagaState.Executing t r.
Lemma set_executing id t d : (set_saga_state id SagaState.Executing t d).(steps) = d.(steps) /\
  (set_saga_state id SagaState.Executing t d).(recoveries) = d.(recoveries) /\
  Forall2 (started [id]) d.(sagas) (set_saga_state id SagaState.Executing t d).(sagas).
Proof.
  split; [done|]. split; [done|]. cbn [sagas with_sagas set_saga_state]. induction d.(sagas) as [|r l IH]; constructor; [|done].
  case_bool; to_prop; [|by left]. right. split; [set_solver|]. by exists t.
Qed.
Lemma started_refl ids l : Forall2 (started ids) l l.
Proof. induction l; constructor; [by left|done]. Qed.
Lemma started_trans id ids l l1 l2 : Forall2 (started [id]) l l1 -> Forall2 (started ids) l1 l2 -> Forall2 (started (id :: ids)) l l2.
Proof.
  intros H. revert l2. induction H as [|r r1 l l1 Hr _ IH]; intros l2 H2; inversion H2 as [|? r2 ? ? Hr2 H3]; subst; constructor; [|auto].
  destruct Hr as [->|[Hin [t ->]]]; [destruct Hr2 as [->|[Hin2 ?]]; [by left|right; split; [by right|done]]|].
  right. apply list_elem_of_singleton in Hin. rewrite Hin. split; [left|]. destruct Hr2 as [->|[_ [t2 ->]]]; eauto.
Qed.
Lemma transition_all_runs l : forall stats d res d',
  runs (transition_all faults clock l stats) d res d' ->
  exists stats', res = Ok stats' /\ d'.(steps) = d.(steps) /\ d'.(recoveries) = d.(recoveries) /\
    Forall2 (started (map saga_id l)) d.(sagas) d'.(sagas) /\ stats'.(iterations) = stats.(iterations).
Proof.
  induction l as [|s l IH]; intros stats d res d' Hrun; cbn [transition_all map] in *.
  - apply runs_ret in Hrun as [-> ->]. exists stats. split; [done|]. split; [done|]. split; [done|]. split; [apply started_refl|done].
  - assert (Ht : forall res d1, runs (transition_saga faults clock s.(saga_id) SagaState.Executing stats) d res d1 ->
      exists stats1, res = Ok stats1 /\ d1.(steps) = d.(steps) /\ d1.(recoveries) = d.(recoveries) /\
        Forall2 (started [s.(saga_id)]) d.(sagas) d1.(sagas) /\ stats1.(iterations) = stats.(iterations)).
    { intros res1 d1 H1. unfold transition_saga in H1. apply runs_bind in H1 as [(o & d2 & H1 & H2)|(e & -> & H1)];
        apply runs_attempt in H1 as (r1 & Hr1 & H1); [|done]. injection Hr1 as ->. apply runs_ret in H2 as [-> ->].
      apply (runs_update faults clock (set_saga_state s.(saga_id) SagaState.Executing)) in H1 as (t & H1).
      destruct (set_executing s.(saga_id) t d) as (Hs1 & Hs2 & Hs3). eexists. split; [done|].
      destruct H1 as [[-> ->]|(_ & [e ->] & [->| ->])]; auto 6 using started_refl. }
    apply runs_bind in Hrun as [(stats1 & d1 & H1 & Hrun)|(e & -> & H1)]; apply Ht in H1 as (st1 & Hq & H1 & H2 & H3 & H4); [|done].
    injection Hq as ->. apply IH in Hrun as (st2 & -> & H5 & H6 & H7 & H8). exists st2. split; [done|]. split; [congruence|]. split; [congruence|].
    split; [by eapply started_trans|congruence].
Qed.
Lemma sagas_in_runs s stats d res d' : runs (sagas_in faults s stats) d res d' ->
  d' = d /\ exists l st, res = Ok (l, st) /\ st.(iterations) = stats.(iterations) /\
    forall x, x ∈ l -> exists r, r ∈ d.(sagas) /\ r.(row_id) = x.(saga_id) /\ r.(row_state) = SagaState.as_str s.
Proof.
  intros H. apply runs_bind in H as [(o & d2 & H1 & H2)|(e & -> & H1)]; apply runs_attempt in H1 as (r1 & Hr1 & H1); [|done].
  injection Hr1 as ->. apply runs_ret in H2 as [-> ->]. apply runs_query in H1 as [-> H1]. split; [done|].
  destruct H1 as [->|[_ [e ->]]]; [|exists [], (count_error stats); by split; [|split; [|intros x Hx; apply elem_of_nil in Hx]]].
  eexists _, _. split; [done|]. split; [done|]. intros x Hx. apply list_elem_of_In, in_map_iff in Hx as (r & <- & Hr).
  apply list_elem_of_In in Hr. unfold newest_first in Hr. rewrite order_by_perm in Hr. apply list_elem_of_filter in Hr as [Hst Hr]. by exists r.
Qed.
Lemma started_recovered ids l l' : NoDup (map row_id l) ->
  (forall id, id ∈ ids -> exists r, r ∈ l /\ r.(row_id) = id /\ r.(row_state) = "pending"%string) ->
  Forall2 (started ids) l l' -> Forall2 recovered l l'.
Proof.
  intros Hn Hids H. assert (Hall : forall r, r ∈ l -> r.(row_id) ∈ ids -> r.(row_state) = "pending"%string).
  { intros r Hr Hin. apply Hids in Hin as (r' & Hr' & Hid & Hst). apply list_elem_of_lookup in Hr as [i Hi], Hr' as [j Hj].
    assert (i = j) as ->; [|congruence]. eapply (NoDup_lookup (map row_id l) i j r.(row_id)); [done|..]; rewrite list_lookup_fmap;
      [by rewrite Hi|by rewrite Hj; cbn; rewrite Hid]. }
  clear Hn Hids. induction H as [|r r' l l' Hr H IH]; constructor.
  - destruct Hr as [->|[Hin Ht]]; [by left|]. right. split; [apply Hall; [left|done]|done].
  - apply IH. intros x Hx. apply Hall. by right.
Qed.
(** An iteration of the recovery answers whatever statements fail; it moves
    pending sagas to [executing], deletes sagas that are finished and old, and
    otherwise leaves the tables alone: no step is run, resumed or undone. *)
Theorem recovery_runs_no_step config stats d res d' :
  NoDup (map row_id d.(sagas)) -> runs (run_recovery_iteration faults clock config stats) d res d' ->
  exists stats' mid, res = Ok stats' /\ stats'.(iterations) = stats.(iterations) + 1 /\
    Forall2 recovered d.(sagas) mid.(sagas) /\ mid.(steps) = d.(steps) /\ mid.(recoveries) = d.(recoveries) /\
    (d' = mid \/ exists t, d' = delete_where (stale t config.(stale_age_hours)) mid).
Proof.
  intros Hn Hrun. unfold run_recovery_iteration in Hrun.
  apply runs_bind in Hrun as [(p & d1 & H1 & Hrun)|(e & -> & H1)]; apply sagas_in_runs in H1 as (-> & l & st & Hq & Hst & Hl); [|done].
  injection Hq as ->. cbn [fst snd] in Hrun.
  apply runs_bind in Hrun as [(st2 & d2 & H2 & Hrun)|(e & -> & H2)]; apply transition_all_runs in H2 as (st2b & Hq & Hs & Hr & H3 & Hi); [|done].
  injection Hq as ->. apply started_recovered in H3; [|done|].
  2:{ intros id Hid. apply list_elem_of_In, in_map_iff in Hid as (x & <- & Hx). apply Hl. apply list_elem_of_In in Hx.
      eapply list.elem_of_take in Hx as (i & Hx & _). by eapply list_elem_of_lookup_2. }
  apply runs_bind in Hrun as [(x & d3 & H4 & Hrun)|(e & -> & H4)]; apply sagas_in_runs in H4 as (-> & l2 & st3 & Hq & Hst3 & _); [|done].
  injection Hq as ->. cbn [fst snd] in Hrun.
  apply runs_bind in Hrun as [(o & d4 & H5 & Hrun)|(e & -> & H5)]; apply runs_attempt in H5 as (r5 & Hr5 & H5); [|done].
  injection Hr5 as ->. apply runs_ret in Hrun as [-> ->]. eexists _, d2. split; [done|]. split; [destruct r5; cbn in *; lia|].
  split; [done|]. split; [done|]. split; [done|]. unfold cleanup_stale_sagas in H5.
  apply runs_bind in H5 as [(t & d5 & H6 & H5)|(e & -> & H6)].
  - destruct H6 as (w & w' & H6 & <- & <-). injection H6 as <- <-. apply runs_statement in H5. cbn in H5. destruct H5 as [[_ ->]|(_ & _ & [->| ->])]; eauto.
  - destruct H6 as (w & w' & H6 & _). discriminate.
Qed.
End Recovery.

(** ** On a concrete saga *)
Module SagaDemo.
#[local] Instance key_le_dec {A : Type} (key : A -> Z) x y : Decision ((fun x y => key x <= key y) x y) := Z.le_dec (key x) (key y).
Definition sort_by {A : Type} (key : A -> Z) (l : list A) : list A := merge_sort (fun x y => key x <= key y) l.
Lemma sort_by_sorted {A} (key : A -> Z) l : StronglySorted (fun x y => key x <= key y) (sort_by key l).
Proof. apply StronglySorted_merge_sort; [intros x y z; lia|intros x y; lia]. Qed.
#[local] Instance sorted_rows : SqlOrder := {|
  order_by := @sort_by;
  order_by_perm A key l := merge_sort_Permutation _ l;
  order_by_sorted := @sort_by_sorted
|}.
Definition clock (n : nat) : Z := 1000 + Z.of_nat n.
Definition uuid (n : nat) : string := "fresh".
Definition no_ms (n : nat) : Z := 0.
Definition works (n : nat) : Fault := Works.
Definition down_at (k : nat) (n : nat) : Fault := if Nat.eqb n k then Refused "connection closed" else Works.
Definition down_from (k : nat) (n : nat) : Fault := if Nat.leb k n then Refused "connection closed" else Works.
Definition order_step (id : string) (n : Z) : StepRow :=
  mkStepRow id 1 n "orders" "create" "Order" (JObject []) "pending" None None None 0.
Definition saga_row (state : string) : SagaRow := mkSagaRow 1 "saga" state 0 None 0 None.
Definition db_of (state : string) : Db := mkDb [saga_row state] [order_step "b" 2; order_step "a" 1] [] 2.
Definition world (d : Db) : World := mkWorld d 0 0 0.
Definition forward (faults : nat -> Fault) (d : Db) : result SagaStoreError (list StepExecutionResult) * World :=
  execute_saga faults clock uuid no_ms true "saga" (world d).
Definition backward (faults : nat -> Fault) (d : Db) : result SagaStoreError CompensationResult * World :=
  compensate_saga faults clock uuid no_ms show true "saga" (world d).
Definition saga_states (d : Db) : list string := map row_state d.(sagas).
Definition step_states (d : Db) : list (Z * string * bool) :=
  map (fun r => (r.(step_number), r.(srow_state), has_compensation r.(srow_result))) (rows d 1).
Lemma wf_db state : wf (db_of state) "saga" (saga_row state).
Proof.
  split; [reflexivity|apply (bool_decide_unpack _); vm_compute; exact I|apply (bool_decide_unpack _); vm_compute; exact I|].
  apply (bool_decide_unpack _). vm_compute. exact I.
Qed.
Lemma runs_forward faults d : runs (execute_saga faults clock uuid no_ms true "saga") d (forward faults d).1 (forward faults d).2.(db).
Proof. exists (world d), (forward faults d).2. unfold forward. by destruct (execute_saga _ _ _ _ _ _ _). Qed.
Lemma forward_phase_witness : forward_outcome (down_at 8) (db_of "pending") "saga" (saga_row "pending")
  (forward (down_at 8) (db_of "pending")).1 (forward (down_at 8) (db_of "pending")).2.(db).
Proof. eapply (forward_phase (down_at 8) clock uuid no_ms); [apply wf_db|apply runs_forward]. Defined.
Lemma forward_completes_witness : exists s1 xs,
  (forward works (db_of "pending")).1 = Ok xs /\ length xs = 2%nat /\ wf (forward works (db_of "pending")).2.(db) "saga" s1 /\
  s1.(row_state) = "completed"%string.
Proof.
  destruct (forward_completes works clock uuid no_ms (db_of "pending") "saga" (saga_row "pending") _ _ (fun _ => eq_refl) (wf_db _)
    ltac:(vm_compute; repeat constructor) (runs_forward works (db_of "pending"))) as (s1 & xs & H1 & H2 & H3 & H4 & H5).
  exists s1, xs. split; [exact H1|]. split; [by rewrite <- (list.Forall2_length _ _ _ H3)|]. split; [exact H4|exact H5].
Defined.
(** A statement fails in the second step: the first is done, the saga failed. *)
Example forward_interrupted : step_states (forward (down_at 8) (db_of "pending")).2.(db) = [(1, "completed"%string, false); (2, "pending"%string, false)] /\
  saga_states (forward (down_at 8) (db_of "pending")).2.(db) = ["failed"%string].
Proof. vm_compute. done. Qed.

Definition failed_db : Db := (forward (down_at 8) (db_of "pending")).2.(db).
Definition failed_saga : SagaRow := default (saga_row "") (head failed_db.(sagas)).
Lemma recovery_runs_no_step_witness : exists stats mid,
  (run_recovery_iteration works clock default_recovery zero_stats (world (db_of "pending"))).1 = Ok stats /\
  Forall2 recovered (db_of "pending").(sagas) mid.(sagas) /\ mid.(steps) = (db_of "pending").(steps) /\ stats.(iterations) = 1.
Proof.
  pose (r := run_recovery_iteration works clock default_recovery zero_stats (world (db_of "pending"))).
  destruct (recovery_runs_no_step works clock default_recovery zero_stats (db_of "pending") r.1 r.2.(db)) as (stats & mid & H1 & H2 & H3 & H4 & _).
  - apply (bool_decide_unpack _). vm_compute. exact I.
  - exists (world (db_of "pending")), r.2. unfold r. by destruct (run_recovery_iteration _ _ _ _ _).
  - exists stats, mid. split; [exact H1|]. split; [exact H3|]. split; [exact H4|exact H2].
Defined.
(** Recovery marks a pending saga as executing; its steps stay pending. *)
Example recovered_not_run :
  let d := (run_recovery_iteration works clock default_recovery zero_stats (world (db_of "pending"))).2.(db) in
  saga_states d = ["executing"%string] /\ step_states d = [(1, "pending"%string, false); (2, "pending"%string, false)].
Proof. vm_compute. done. Qed.
(** Executing a completed saga again fails it, and its steps can then be undone. *)
Example completed_fails_again :
  let d := (forward works (db_of "pending")).2.(db) in
  saga_states d = ["completed"%string] /\ saga_states (forward works d).2.(db) = ["failed"%string].
Proof. vm_compute. done. Qed.
(** A step interrupted after its mutation is neither resumed nor undone, and
    the saga is reported compensated. *)
Example interrupted_step_kept :
  let d := (forward (down_at 11) (db_of "pending")).2.(db) in
  let d' := (backward works d).2.(db) in
  step_states d = [(1, "completed"%string, false); (2, "executing"%string, false)] /\
  step_states d' = [(1, "completed"%string, true); (2, "executing"%string, false)] /\ saga_states d' = ["compensated"%string].
Proof. vm_compute. done. Qed.
(** A step undone once is undone again when the compensation is repeated. *)
Example undone_twice :
  let d := (forward works (db_of "pending")).2.(db) in
  let d := (forward works d).2.(db) in
  let r1 := backward (down_at 6) d in
  let r2 := backward works r1.2.(db) in
  match r1.1, r2.1 with
  | Ok c1, Ok c2 =>
      map (fun x => (x.(result_step), x.(success))) c1.(step_results) = [(2, true); (1, false)] /\
      map (fun x => (x.(result_step), x.(success))) c2.(step_results) = [(2, true); (1, true)]
  | _, _ => False
  end.
Proof. vm_compute. done. Qed.
(** A saga that has not failed is answered as compensated, with nothing undone. *)
Example running_is_compensated :
  match (backward works (db_of "executing")).1 with Ok c => c.(status) = AllCompensated /\ c.(step_results) = [] | Err _ => False end.
Proof. vm_compute. done. Qed.
End SagaDemo.
