(* ===== verification/AuthTokens.v ===== *)
(** * Tokens, errors and operation permissions

    [fraiseql-auth/src/]: the errors of the authentication layer and their
    responses (error.rs, middleware.rs), the claims of tokens and their
    validation (jwt.rs, oauth/claims_validator.rs), and the permissions of
    operations (operation_rbac.rs).  Decoding and signing a token are the
    [jsonwebtoken] package's: parameters.  A clock reading is [None] when the
    clock stands before 1970. *)

From Stdlib Require Import Ascii.
From stdpp Require Import pretty sorting.
From S2P Require Import Prelude Json.
#[local] Open Scope Z_scope.
#[local] Open Scope list_scope.

(** ** Errors *)
Module AuthError.
Inductive t : Type :=
| InvalidToken (reason : string)
| TokenExpired
| InvalidSignature
| MissingClaim (claim : string)
| InvalidClaimValue (claim reason : string)
| OAuthError (message : string)
| SessionError (message : string)
| DatabaseError (message : string)
| ConfigError (message : string)
| OidcMetadataError (message : string)
| PkceError (message : string)
| InvalidState
| TokenNotFound
| SessionRevoked
| Forbidden (message : string)
| Internal (message : string)
| SystemTimeError (message : string)
| RateLimited (retry_after_secs : Z)
| MissingNonce
| NonceMismatch
| MissingAuthTime
| SessionTooOld (age max_age_secs : Z).

Definition response_parts (e : t) : Z * string * string :=
  match e with
  | TokenExpired => (401, "token_expired", "Authentication failed")
  | InvalidSignature => (401, "invalid_signature", "Authentication failed")
  | InvalidToken _ | MissingClaim _ | InvalidClaimValue _ _
  | MissingNonce | NonceMismatch | MissingAuthTime | SessionTooOld _ _ => (401, "invalid_token", "Authentication failed")
  | TokenNotFound => (401, "token_not_found", "Authentication failed")
  | SessionRevoked => (401, "session_revoked", "Authentication failed")
  | InvalidState => (400, "invalid_state", "Authentication failed")
  | Forbidden _ => (403, "forbidden", "Permission denied")
  | OAuthError _ => (401, "oauth_error", "Authentication failed")
  | SessionError _ => (401, "session_error", "Authentication failed")
  | DatabaseError _ | ConfigError _ | OidcMetadataError _ | Internal _ | SystemTimeError _ =>
      (500, "server_error", "Service temporarily unavailable")
  | PkceError _ => (400, "pkce_error", "Authentication failed")
  | RateLimited secs => (429, "rate_limited", "Too many requests. Retry after " ++ pretty secs ++ " seconds")
  end%string.

(** The status and the body. *)
Definition into_response (e : t) : Z * json :=
  let '(status, error_code, sanitized_message) := response_parts e in
  (status, JObject [("errors", JArray [JObject [("message", JString sanitized_message);
                                                ("extensions", JObject [("code", JString error_code)])]])]).

(** The kind of an error: the error without the details it carries. *)
Definition kind (e : t) : t :=
  match e with
  | InvalidToken _ => InvalidToken EmptyString
  | MissingClaim _ => MissingClaim EmptyString
  | InvalidClaimValue _ _ => InvalidClaimValue EmptyString EmptyString
  | OAuthError _ => OAuthError EmptyString
  | SessionError _ => SessionError EmptyString
  | DatabaseError _ => DatabaseError EmptyString
  | ConfigError _ => ConfigError EmptyString
  | OidcMetadataError _ => OidcMetadataError EmptyString
  | PkceError _ => PkceError EmptyString
  | Forbidden _ => Forbidden EmptyString
  | Internal _ => Internal EmptyString
  | SystemTimeError _ => SystemTimeError EmptyString
  | SessionTooOld _ _ => SessionTooOld 0 0
  | e => e
  end.

(** The response tells the kind of the error at most, never its details; only
    the delay of a rate limit is told. *)
Lemma response_is_kind e : into_response e = into_response (kind e).
Proof. by destruct e. Qed.
End AuthError.
Abbreviation AResult A := (result AuthError.t A).

(** ** Claims *)
Record Claims : Type := mkClaims {
  sub : string;
  iat : Z;
  exp : Z;
  iss : string;
  aud : list string;
  extra : gmap string json
}.
Definition get_custom (c : Claims) (key : string) : option json := c.(extra) !! key.
(** A clock that cannot be read makes every token expired. *)
Definition is_expired (clock : option Z) (c : Claims) : bool :=
  let now := match clock with Some secs => secs | None => u64_max end in c.(exp) <=? now.

(** ** Entries of the audit log *)
Inductive AuditEventType : Type :=
| JwtValidation | JwtRefresh | OidcCredentialAccess | OidcTokenExchange | SessionTokenCreated
| SessionTokenValidation | SessionTokenRevoked | CsrfStateGenerated | CsrfStateValidated | OauthStart
| OauthCallback | AuthSuccess | AuthFailure.
Inductive SecretType : Type :=
| JwtToken | SessionToken | ClientSecret | RefreshToken | AuthorizationCode | StateToken | CsrfToken.
Record AuditEntry : Type := mkAudit {
  event_type : AuditEventType;
  secret_type : SecretType;
  subject : option string;
  operation : string;
  success : bool;
  error_message : option string;
  context : option string;
  chain_hash : option string
}.
Definition log_success (e : AuditEventType) (s : SecretType) (subject : option string) (op : string) : AuditEntry :=
  mkAudit e s subject op true None None None.
Definition log_failure (e : AuditEventType) (s : SecretType) (subject : option string) (op error : string) : AuditEntry :=
  mkAudit e s subject op false (Some error) None None.

(** ** Validation of a token *)
Inductive Algorithm : Type := HS256 | HS384 | HS512 | RS256 | RS384 | RS512 | ES256 | ES384 | PS256 | PS384 | PS512 | EdDSA.
(** What the source sets of the package's [Validation]. *)
Record Validation : Type := mkValidation {
  algorithm : Algorithm;
  v_issuer : string;
  v_audiences : option (list string);
  validate_aud : bool
}.
Record JwtValidator : Type := mkValidator { validation : Validation; issuer : string }.
Definition new_validator (issuer : string) (algorithm : Algorithm) : AResult JwtValidator :=
  if issuer =s EmptyString then Err (AuthError.ConfigError "Issuer cannot be empty")
  else Ok (mkValidator (mkValidation algorithm issuer None true) issuer).
Definition with_audiences (v : JwtValidator) (audiences : list string) : AResult JwtValidator :=
  match audiences with
  | [] => Err (AuthError.ConfigError "At least one audience must be configured")
  | _ => Ok (mkValidator (mkValidation v.(validation).(algorithm) v.(validation).(v_issuer) (Some audiences) true) v.(issuer))
  end.

(** The kinds of the package's errors that the source tells apart, and the text
    of the error. *)
Inductive JwtErrorKind : Type := ExpiredSignature | BadSignature | InvalidIssuer | MissingRequiredClaim (claim : string) | OtherKind.
Record JwtError : Type := mkJwtError { jwt_kind : JwtErrorKind; jwt_text : string }.
Definition jwt_error (issuer : string) (e : JwtError) : AuthError.t :=
  match e.(jwt_kind) with
  | ExpiredSignature => AuthError.TokenExpired
  | BadSignature => AuthError.InvalidSignature
  | InvalidIssuer => AuthError.InvalidToken ("Invalid issuer, expected: " ++ issuer)
  | MissingRequiredClaim claim => AuthError.MissingClaim claim
  | OtherKind => AuthError.InvalidToken e.(jwt_text)
  end.

Section Validate.
Context {Key : Type} (from_rsa_pem : string -> result string Key) (from_secret : string -> Key)
  (decode : string -> Key -> Validation -> result JwtError Claims).

(** The claims, and what is written to the audit log. *)
Definition validate (clock : option Z) (v : JwtValidator) (token key : string) : AResult Claims * list AuditEntry :=
  match from_rsa_pem key with
  | Err e => (Err (AuthError.InvalidToken ("Failed to parse public key: " ++ e)), [])
  | Ok decoding_key =>
      match decode token decoding_key v.(validation) with
      | Err e => (Err (jwt_error v.(issuer) e), [log_failure JwtValidation JwtToken None "validate" e.(jwt_text)])
      | Ok claims =>
          if is_expired clock claims
          then (Err AuthError.TokenExpired, [log_failure JwtValidation JwtToken (Some claims.(sub)) "validate" "Token expired"])
          else (Ok claims, [log_success JwtValidation JwtToken (Some claims.(sub)) "validate"])
      end
  end.
Definition validate_hmac (clock : option Z) (v : JwtValidator) (token secret : string) : AResult Claims :=
  match decode token (from_secret secret) v.(validation) with
  | Err e => Err (jwt_error v.(issuer) e)
  | Ok claims => if is_expired clock claims then Err AuthError.TokenExpired else Ok claims
  end.

(** An accepted token was decoded under the validator's rules, has not expired,
    and is in the audit log; nothing is accepted when the clock fails. *)
Lemma validate_ok clock v token key claims log :
  validate clock v token key = (Ok claims, log) ->
  (exists k, from_rsa_pem key = Ok k /\ decode token k v.(validation) = Ok claims)
  /\ is_expired clock claims = false
  /\ log = [log_success JwtValidation JwtToken (Some claims.(sub)) "validate"].
Proof.
  unfold validate. destruct (from_rsa_pem key) as [k|e]; [|done].
  destruct (decode token k _) as [c|e] eqn:Ed; [|done]. destruct (is_expired clock c) eqn:E; [done|].
  intros [= <- <-]. eauto.
Qed.
End Validate.

(** ** Claims of an identity token *)
Record IdTokenClaims : Type := mkIdToken {
  id_iss : string;
  id_sub : string;
  id_aud : string;
  id_exp : Z;
  id_iat : Z;
  auth_time : option Z;
  nonce : option string
}.
Definition i64_min : Z := - 2 ^ 63.
Definition i64_saturate (z : Z) : Z := Z.max i64_min (Z.min i64_max z).
Definition CLOCK_SKEW_SECS : Z := 60.
(** [ct_eq] is equality; its timing is not modelled. *)
Definition validate_nonce_claim (c : IdTokenClaims) (expected_nonce : string) : AResult unit :=
  token_nonce ← ok_or c.(nonce) AuthError.MissingNonce;
  if token_nonce =s expected_nonce then Ok () else Err AuthError.NonceMismatch.
Definition validate_auth_time_claim (c : IdTokenClaims) (max_age_secs now_secs : Z) : AResult unit :=
  auth_time ← ok_or c.(auth_time) AuthError.MissingAuthTime;
  let age := i64_saturate (now_secs - auth_time) in
  let max_age_i64 := if max_age_secs <=? i64_max then max_age_secs else i64_max in
  let allowed := i64_saturate (max_age_i64 + CLOCK_SKEW_SECS) in
  if allowed <? age then Err (AuthError.SessionTooOld age max_age_secs) else Ok ().

(** Within the range of [i64] the check is the one of the specification; a time
    of authentication in the future passes. *)
Lemma auth_time_exact c max_age now t :
  c.(auth_time) = Some t -> 0 <= max_age -> max_age + 60 <= i64_max -> i64_min <= now - t <= i64_max ->
  validate_auth_time_claim c max_age now = Ok () <-> now - t <= max_age + 60.
Proof.
  intros Ht H0 Hm Hr. unfold validate_auth_time_claim. rewrite Ht. cbn -[Z.leb Z.ltb i64_max i64_saturate].
  unfold i64_saturate, CLOCK_SKEW_SECS. destruct (max_age <=? i64_max) eqn:E; [|to_prop; lia].
  rewrite !Z.min_r, !Z.max_r by (unfold i64_min in *; lia).
  destruct (max_age + 60 <? now - t) eqn:F; to_prop; split; (done || lia).
Qed.

(** ** Operation permissions *)
Inductive OperationPermission : Type :=
| CreateRule | UpdateRule | DeleteRule | ExecuteRule
| CreateAction | UpdateAction | DeleteAction | ExecuteAction
| ManageWebhooks | ManageSecrets | ManageUsers | ManageRoles | ManageTenants
| ExportData | ImportData | DeleteData
| ViewAuditLogs | ManageConfiguration | ManageIntegrations.
#[export] Instance permission_eq_dec : EqDecision OperationPermission.
Proof. solve_decision. Defined.
Definition all_permissions : list OperationPermission :=
  [CreateRule; UpdateRule; DeleteRule; ExecuteRule; CreateAction; UpdateAction; DeleteAction; ExecuteAction;
   ManageWebhooks; ManageSecrets; ManageUsers; ManageRoles; ManageTenants; ExportData; ImportData; DeleteData;
   ViewAuditLogs; ManageConfiguration; ManageIntegrations].
Definition name (p : OperationPermission) : string :=
  match p with
  | CreateRule => "Create Observer Rule" | UpdateRule => "Update Observer Rule"
  | DeleteRule => "Delete Observer Rule" | ExecuteRule => "Execute Observer Rule"
  | CreateAction => "Create Action" | UpdateAction => "Update Action"
  | DeleteAction => "Delete Action" | ExecuteAction => "Execute Action"
  | ManageWebhooks => "Manage Webhooks" | ManageSecrets => "Manage Secrets" | ManageUsers => "Manage Users"
  | ManageRoles => "Manage Roles" | ManageTenants => "Manage Tenants"
  | ExportData => "Export Data" | ImportData => "Import Data" | DeleteData => "Delete Data"
  | ViewAuditLogs => "View Audit Logs" | ManageConfiguration => "Manage Configuration"
  | ManageIntegrations => "Manage Integrations"
  end.
Definition as_str (p : OperationPermission) : string :=
  match p with
  | CreateRule => "create_rule" | UpdateRule => "update_rule" | DeleteRule => "delete_rule"
  | ExecuteRule => "execute_rule" | CreateAction => "create_action" | UpdateAction => "update_action"
  | DeleteAction => "delete_action" | ExecuteAction => "execute_action"
  | ManageWebhooks => "manage_webhooks" | ManageSecrets => "manage_secrets" | ManageUsers => "manage_users"
  | ManageRoles => "manage_roles" | ManageTenants => "manage_tenants"
  | ExportData => "export_data" | ImportData => "import_data" | DeleteData => "delete_data"
  | ViewAuditLogs => "view_audit_logs" | ManageConfiguration => "manage_configuration"
  | ManageIntegrations => "manage_integrations"
  end.
(** [*p as u32]: the position of the variant. *)
Definition discriminant (p : OperationPermission) : nat :=
  match list_find (fun q => q = p) all_permissions with Some (i, _) => i | None => 0%nat end.

Record Role : Type := mkRole { role_name : string; permissions : list OperationPermission }.
Definition has_permission (r : Role) (p : OperationPermission) : bool := bool_decide (p ∈ r.(permissions)).
Definition RBACPolicy : Type := gmap string Role.

Definition operator_permissions : list OperationPermission :=
  [CreateRule; UpdateRule; DeleteRule; ExecuteRule; CreateAction; UpdateAction; DeleteAction; ExecuteAction;
   ManageWebhooks; ExportData; ViewAuditLogs].
Definition viewer_permissions : list OperationPermission := [ExportData; ViewAuditLogs].
Definition new_policy : RBACPolicy :=
  <["viewer" := mkRole "viewer" viewer_permissions]>
  (<["operator" := mkRole "operator" operator_permissions]>
  (<["admin" := mkRole "admin" all_permissions]> ∅)).
Definition register_role (role : Role) (policy : RBACPolicy) : RBACPolicy := <[role.(role_name) := role]> policy.

(** *** The user of a token *)
Record AuthenticatedUser : Type := mkUser { user_id : string; claims : Claims }.
Definition get_custom_claim (u : AuthenticatedUser) (key : string) : option json := get_custom u.(claims) key.
Definition is_string (s : string) (v : json) : bool := match v with JString t => t =s s | _ => false end.
Definition has_role (u : AuthenticatedUser) (role : string) : bool :=
  match get_custom_claim u "role" with
  | Some (JString user_role) => user_role =s role
  | _ => match get_custom_claim u "roles" with Some (JArray roles) => existsb (is_string role) roles | _ => false end
  end.

Definition strings_of (l : list json) : list string :=
  omap (fun v => match v with JString s => Some s | _ => None end) l.
(** The strings of a claim that is an array. *)
Definition array_claim (u : AuthenticatedUser) (key : string) : list string :=
  match get_custom_claim u key with Some (JArray l) => strings_of l | _ => [] end.
(** [Vec::dedup]: of neighbours that are equal the first is kept. *)
Fixpoint dedup {A} `{EqDecision A} (l : list A) : list A :=
  match l with
  | [] => []
  | x :: l' => match dedup l' with y :: r => if decide (x = y) then x :: r else x :: y :: r | [] => [x] end
  end.
Definition extract_user_roles (u : AuthenticatedUser) : list string :=
  let roles := match get_custom_claim u "role" with Some (JString role) => [role] | _ => [] end
               ++ array_claim u "roles" ++ array_claim u "fraiseql_roles" in
  dedup (str_sort roles).

Definition forbidden (u : AuthenticatedUser) (what : string) : AuthError.t :=
  AuthError.Forbidden ("User " ++ u.(user_id) ++ what).
Definition role_grants (policy : RBACPolicy) (p : OperationPermission) (role_name : string) : bool :=
  match policy !! role_name with Some role => has_permission role p | None => false end.
Definition authorize (policy : RBACPolicy) (u : AuthenticatedUser) (p : OperationPermission) : AResult unit :=
  if existsb (role_grants policy p) (extract_user_roles u) then Ok ()
  else Err (forbidden u (" does not have permission to: " ++ name p)).
Definition authorize_any (policy : RBACPolicy) (u : AuthenticatedUser) (ps : list OperationPermission) : AResult unit :=
  if existsb (fun p => is_ok (authorize policy u p)) ps then Ok ()
  else Err (forbidden u " does not have any of the required permissions").
Fixpoint authorize_all (policy : RBACPolicy) (u : AuthenticatedUser) (ps : list OperationPermission) : AResult unit :=
  match ps with
  | [] => Ok ()
  | p :: ps => authorize policy u p ≫= fun _ => authorize_all policy u ps
  end.
Definition by_discriminant (p q : OperationPermission) : Prop := (discriminant p <= discriminant q)%nat.
#[export] Instance by_discriminant_dec p q : Decision (by_discriminant p q) := decide (_ <= _)%nat.
Definition get_user_permissions (policy : RBACPolicy) (u : AuthenticatedUser) : list OperationPermission :=
  let granted := flat_map (fun r => match policy !! r with Some role => role.(permissions) | None => [] end) (extract_user_roles u) in
  dedup (merge_sort by_discriminant granted).

(** ** What a user may do *)
Section Dedup.
Context {A : Type} `{EqDecision A}.
Lemma dedup_cons (x : A) l : dedup (x :: l) = match dedup l with y :: r => if decide (x = y) then x :: r else x :: y :: r | [] => [x] end.
Proof. done. Qed.
Lemma elem_of_dedup_runs (x : A) l : x ∈ dedup l <-> x ∈ l.
Proof.
  induction l as [|y l IH]; [done|]. rewrite dedup_cons, list.elem_of_cons, <- IH.
  destruct (dedup l) as [|z r]; [set_solver|]. destruct (decide (y = z)) as [<-|]; set_solver.
Qed.
(** Of a sorted list no element is left twice. *)
Lemma dedup_sorted (R : relation A) `{!Transitive R, !AntiSymm (=) R} l :
  StronglySorted R l -> StronglySorted (fun x y => R x y /\ x <> y) (dedup l).
Proof.
  induction 1 as [|x l Hs IH Hf]; [constructor|]. rewrite dedup_cons.
  assert (Hall : Forall (R x) (dedup l)).
  { apply list.Forall_forall. intros y Hy. rewrite list.Forall_forall in Hf. by apply Hf, elem_of_dedup_runs. }
  destruct (dedup l) as [|y r]; [repeat constructor|].
  apply StronglySorted_inv in IH as [IHr Hy]. inversion Hall; subst.
  destruct (decide (x = y)) as [<-|Hne]; [by constructor|].
  constructor; [by constructor|]. constructor; [done|]. eapply list.Forall_impl; [exact Hy|].
  intros z [Hyz Hn]. split; [by etrans|]. intros <-. apply Hne. by apply (anti_symm R).
Qed.
End Dedup.

Lemma discriminant_inj p q : discriminant p = discriminant q -> p = q.
Proof. destruct p; destruct q; vm_compute; done. Qed.
#[export] Instance by_discriminant_total : Total by_discriminant.
Proof. intros p q. unfold by_discriminant. lia. Qed.
#[export] Instance by_discriminant_trans : Transitive by_discriminant.
Proof. intros p q r. unfold by_discriminant. lia. Qed.
#[export] Instance by_discriminant_antisymm : AntiSymm (=) by_discriminant.
Proof. intros p q. unfold by_discriminant. intros. apply discriminant_inj. lia. Qed.

Lemma authorize_ok policy u p : authorize policy u p = Ok () <-> p ∈ get_user_permissions policy u.
Proof.
  unfold authorize, get_user_permissions. rewrite elem_of_dedup_runs, merge_sort_Permutation.
  rewrite list_elem_of_In, in_flat_map. destruct (existsb _ _) eqn:E.
  - split; [intros _|done]. apply existsb_exists in E as (r & Hr & Hg). exists r. split; [done|]. unfold role_grants in Hg.
    destruct (policy !! r) as [role|]; [|done]. unfold has_permission in Hg. apply bool_decide_eq_true in Hg. by apply list_elem_of_In.
  - split; [done|]. intros (r & Hr & Hp). exfalso. apply not_true_iff_false in E. apply E. apply existsb_exists. exists r.
    split; [done|]. unfold role_grants. destruct (policy !! r); [|done]. apply bool_decide_eq_true. by apply list_elem_of_In.
Qed.

Lemma strongly_sorted_impl {A} (R R' : relation A) l : (forall x y, R x y -> R' x y) -> StronglySorted R l -> StronglySorted R' l.
Proof.
  intros Hi. induction 1 as [|x l Hs IH Hf]; constructor; [done|]. eapply list.Forall_impl; [exact Hf|]. intros y. apply Hi.
Qed.

Module Rbac.
(** What a user may do is one set, whichever way the policy is asked: an
    operation is authorized exactly when it is among the permissions listed for
    the user, several operations together or alternatively exactly when all or
    some of them are, and the list names each permission once, in the order of
    the declaration. *)
Theorem permissions_exact policy u :
  (forall p, authorize policy u p = Ok () <-> p ∈ get_user_permissions policy u)
  /\ (forall ps, authorize_all policy u ps = Ok () <-> ps ⊆ get_user_permissions policy u)
  /\ (forall ps, authorize_any policy u ps = Ok () <-> exists p, p ∈ ps /\ p ∈ get_user_permissions policy u)
  /\ StronglySorted (fun p q => discriminant p < discriminant q)%nat (get_user_permissions policy u).
Proof.
  split_and!.
  - intros p. apply authorize_ok.
  - induction ps as [|p ps IH]; cbn [authorize_all]; [set_solver|]. rewrite bind_Ok.
    setoid_rewrite IH. split.
    + intros ([] & Hp%authorize_ok & Hps). set_solver.
    + intros Hs. exists (). rewrite authorize_ok. set_solver.
  - intros ps. unfold authorize_any. destruct (existsb _ ps) eqn:E.
    + split; [intros _|done]. apply existsb_exists in E as (p & Hp & Ho). exists p. rewrite list_elem_of_In. split; [done|].
      apply authorize_ok. by destruct (authorize policy u p) as [[]|].
    + split; [done|]. intros (p & Hp%list_elem_of_In & Ha%authorize_ok). exfalso. apply not_true_iff_false in E. apply E.
      apply existsb_exists. exists p. by rewrite Ha.
  - unfold get_user_permissions.
    eapply strongly_sorted_impl; [|apply (dedup_sorted by_discriminant), StronglySorted_merge_sort; apply _].
    intros p q [Hle Hne]. unfold by_discriminant in Hle. destruct (decide (discriminant p = discriminant q)) as [E|]; [|lia].
    by apply discriminant_inj in E.
Qed.

(** Two readings of the roles of a token: a token whose role is one string has
    no other role for [has_role], the policy also counts those of its arrays;
    [fraiseql_roles] is read by the policy only. *)
Definition two_roles : AuthenticatedUser :=
  mkUser "u" (mkClaims "u" 0 0 "iss" [] (<["role" := JString "viewer"]> (<["roles" := JArray [JString "admin"]]> ∅))).
Example roles_disagree :
  has_role two_roles "admin" = false /\ extract_user_roles two_roles = ["admin"; "viewer"]
  /\ authorize new_policy two_roles ManageUsers = Ok ().
Proof. vm_compute. done. Qed.
End Rbac.
