(* ===== verification/AuthLimits.v ===== *)
(** * Rate limits of the authentication endpoints

    [fraiseql-auth/src/rate_limiting.rs].  A limiter's lock is held for a whole
    call, so that calls follow one another.  The order a [HashMap] is read in
    is an argument, and so is each reading of the clock, in seconds. *)

From stdpp Require Import sorting.
From S2P Require Import Prelude AuthTokens.
#[local] Open Scope Z_scope.
#[local] Open Scope list_scope.

Record AuthRateLimitConfig : Type := mkConfig { enabled : bool; max_requests : Z; window_secs : Z }.
Definition per_ip_standard : AuthRateLimitConfig := mkConfig true 100 60.
Definition per_ip_strict : AuthRateLimitConfig := mkConfig true 50 60.
Definition per_user_standard : AuthRateLimitConfig := mkConfig true 10 60.
Definition failed_login_attempts : AuthRateLimitConfig := mkConfig true 5 3600.

Record RequestRecord : Type := mkRecord { count : Z; window_start : Z }.
Abbreviation records_map := (gmap string RequestRecord).
Definition PURGE_INTERVAL : Z := 1000.
Definition DEFAULT_MAX_ENTRIES : Z := 100000.
Record KeyedRateLimiter : Type := mkLimiter {
  records : records_map;
  config : AuthRateLimitConfig;
  max_entries : Z;
  check_count : Z
}.
Definition with_max_entries (config : AuthRateLimitConfig) (max_entries : Z) : KeyedRateLimiter :=
  mkLimiter ∅ config max_entries 0.
Definition new (config : AuthRateLimitConfig) : KeyedRateLimiter := with_max_entries config DEFAULT_MAX_ENTRIES.
(** The clock of a limiter made by [new]: 0 when the time cannot be read. *)
Definition system_clock (reading : option Z) : Z := match reading with Some secs => secs | None => 0 end.

Definition window_end (c : AuthRateLimitConfig) (r : RequestRecord) : Z :=
  u64_saturating_add r.(window_start) c.(window_secs).
Definition at_capacity (max_entries : Z) (key : string) (rs : records_map) : bool :=
  (0 <? max_entries) && negb (bool_decide (is_Some (rs !! key))) && (max_entries <=? Z.of_nat (size rs)).
(** [min_by_key]: the first of the records with the oldest window. *)
Fixpoint oldest (l : list (string * RequestRecord)) : option (string * RequestRecord) :=
  match l with
  | [] => None
  | (k, r) :: l =>
      match oldest l with
      | Some (k', r') => if r'.(window_start) <? r.(window_start) then Some (k', r') else Some (k, r)
      | None => Some (k, r)
      end
  end.

Section Check.
Context (iter : records_map -> list (string * RequestRecord)).

(** [retain] of the records whose window has not ended, every
    [PURGE_INTERVAL] calls. *)
Definition sweep (c : AuthRateLimitConfig) (now check_count : Z) (rs : records_map) : records_map :=
  if check_count mod PURGE_INTERVAL =? 0 then filter (fun kr => now < window_end c kr.2) rs else rs.
Definition evict (max_entries : Z) (key : string) (rs : records_map) : records_map :=
  if at_capacity max_entries key rs
  then match oldest (iter rs) with Some (k, _) => delete k rs | None => rs end
  else rs.
(** The decision for one record: the record kept, and whether the request is
    allowed. *)
Definition decide_record (c : AuthRateLimitConfig) (now : Z) (r : RequestRecord) : AResult unit * RequestRecord :=
  if window_end c r <=? now then (Ok (), mkRecord 1 now)
  else if r.(count) <? c.(max_requests) then (Ok (), mkRecord (r.(count) + 1) r.(window_start))
  else (Err (AuthError.RateLimited c.(window_secs)), r).
Definition check (now : Z) (key : string) (l : KeyedRateLimiter) : AResult unit * KeyedRateLimiter :=
  if negb l.(config).(enabled) then (Ok (), l)
  else
    let rs := evict l.(max_entries) key (sweep l.(config) now l.(check_count) l.(records)) in
    let record := default (mkRecord 0 now) (rs !! key) in
    let '(answer, record) := decide_record l.(config) now record in
    (answer, mkLimiter (<[key := record]> rs) l.(config) l.(max_entries) (u64_wrap (l.(check_count) + 1))).
Definition active_limiters (l : KeyedRateLimiter) : Z := Z.of_nat (size l.(records)).
Definition clear (l : KeyedRateLimiter) : KeyedRateLimiter := mkLimiter ∅ l.(config) l.(max_entries) l.(check_count).

(** A sequence of calls, each with its time and key, and their answers. *)
Fixpoint run (calls : list (Z * string)) (l : KeyedRateLimiter) : list (AResult unit) * KeyedRateLimiter :=
  match calls with
  | [] => ([], l)
  | (now, key) :: calls =>
      let '(answer, l) := check now key l in
      let '(answers, l) := run calls l in (answer :: answers, l)
  end.
End Check.

(** ** The limiters of the endpoints *)
Record RateLimiters : Type := mkLimiters {
  auth_start : KeyedRateLimiter;
  auth_callback : KeyedRateLimiter;
  auth_refresh : KeyedRateLimiter;
  auth_logout : KeyedRateLimiter;
  failed_logins : KeyedRateLimiter
}.
Definition with_configs (start callback refresh logout failed : AuthRateLimitConfig) : RateLimiters :=
  mkLimiters (new start) (new callback) (new refresh) (new logout) (new failed).
Definition default_limiters : RateLimiters :=
  with_configs per_ip_standard per_ip_strict per_user_standard per_user_standard failed_login_attempts.

(** ** How many requests a key is allowed *)
Module Window.
Definition within (lo hi x : Z) : bool := (lo <=? x) && (x <? hi).
Definition from (lo x : Z) : bool := lo <=? x.

Lemma count_none (f : Z -> bool) l : (forall x, x ∈ l -> f x = false) -> countb f l = 0.
Proof. induction l as [|x l IH]; intros H; cbn; [done|]. rewrite H by set_solver. rewrite IH by set_solver. done. Qed.
Lemma count_impl (f g : Z -> bool) l : (forall x, x ∈ l -> f x = true -> g x = true) -> countb f l <= countb g l.
Proof.
  induction l as [|x l IH]; intros H; cbn; [done|]. specialize (IH ltac:(set_solver)). specialize (H x ltac:(set_solver)).
  destruct (f x), (g x); cbn in *; try lia; by specialize (H eq_refl).
Qed.

(** The times of the allowed requests of a key, the latest first, as windows
    that follow one another: the last begins at [s] and has [c] of them. *)
Section Windows.
Context (w m : Z).
Inductive windows : Z -> Z -> list Z -> Prop :=
| first_window s : windows s 1 [s]
| same_window s c x l : windows s c l -> s <= x < s + w -> c < m -> windows s (c + 1) (x :: l)
| next_window s c x l : windows s c l -> s + w <= x -> windows x 1 (x :: l).
Lemma windows_start s c l : windows s c l -> s ∈ l.
Proof. induction 1; set_solver. Qed.
(** The window that is open accounts for its own requests. *)
Lemma windows_current s c l : windows s c l -> c <= countb (from s) l.
Proof.
  induction 1 as [s|s c x l Hwin IH Hx Hc|s c x l Hwin IH Hx]; cbn; unfold from in *.
  - rewrite Z.leb_refl. cbn. lia.
  - rewrite (proj2 (Z.leb_le s x)) by lia. cbn. lia.
  - rewrite Z.leb_refl. cbn. pose proof (countb_range (fun y => x <=? y) l). lia.
Qed.
Hypothesis (Hw : 0 <= w) (Hm : 1 <= m).

Lemma windows_count s c l : windows s c l -> 1 <= c <= m.
Proof. induction 1; lia. Qed.
Lemma windows_before s c l x : windows s c l -> x ∈ l -> x <= s \/ x < s + w.
Proof. induction 1; set_solver by lia. Qed.

(** After the start of a window, at most its other requests. *)
Lemma windows_after s c l t : windows s c l -> s < t -> countb (from t) l <= c - 1.
Proof.
  intros Hwin. revert t. induction Hwin as [s|s c x l Hwin IH Hx Hc|s c x l Hwin IH Hx]; intros t Ht; cbn; unfold from in *.
  - rewrite (proj2 (Z.leb_gt t s)) by lia. cbn. lia.
  - specialize (IH t Ht). destruct (t <=? x); cbn; lia.
  - rewrite (proj2 (Z.leb_gt t x)) by lia. cbn. rewrite count_none; [lia|]. intros y Hy.
    pose proof (windows_before _ _ _ y Hwin Hy). apply Z.leb_gt. lia.
Qed.
(** Less than a window before it, those of one more window but its first. *)
Lemma windows_around s c l t : windows s c l -> s - w < t -> countb (from t) l <= c + (m - 1).
Proof.
  intros Hwin. revert t. induction Hwin as [s|s c x l Hwin IH Hx Hc|s c x l Hwin IH Hx]; intros t Ht; cbn; unfold from in *.
  - destruct (t <=? s); cbn; lia.
  - specialize (IH t Ht). destruct (t <=? x); cbn; lia.
  - pose proof (windows_after s c l t Hwin ltac:(lia)). pose proof (windows_count _ _ _ Hwin). unfold from in *. destruct (t <=? x); cbn; lia.
Qed.
Lemma windows_bound s c l t : windows s c l -> countb (within t (t + w)) l <= 2 * m - 1.
Proof.
  intros Hwin. induction Hwin as [s|s c x l Hwin IH Hx Hc|s c x l Hwin IH Hx]; cbn [countb].
  - destruct (within t (t + w) s); cbn; lia.
  - destruct (within t (t + w) x) eqn:E; cbn [b2z]; [|lia]. unfold within in E. to_prop.
    assert (Hle : countb (within t (t + w)) l <= countb (from t) l).
    { apply count_impl. unfold within, from. intros y _. rewrite andb_true_iff. tauto. }
    pose proof (windows_around s c l t Hwin ltac:(lia)). lia.
  - destruct (within t (t + w) x) eqn:E; cbn [b2z]; [|lia]. unfold within in E. to_prop.
    assert (Hle : countb (within t (t + w)) l <= countb (from t) l).
    { apply count_impl. unfold within, from. intros y _. rewrite andb_true_iff. tauto. }
    pose proof (windows_after s c l t Hwin ltac:(lia)). pose proof (windows_count _ _ _ Hwin). lia.
Qed.
End Windows.
End Window.

Module Limit.
Import Window.
(** The times of the allowed requests of a key among calls and their answers,
    the latest first. *)
Fixpoint allowed (k : string) (log : list (Z * string * AResult unit)) (past : list Z) : list Z :=
  match log with
  | [] => past
  | (now, key, a) :: log => allowed k log (if (key =s k) && is_ok a then now :: past else past)
  end.

Section Bound.
Context (iter : records_map -> list (string * RequestRecord)).
Context (c : AuthRateLimitConfig) (cap : Z) (keys : gset string) (k : string).
Hypothesis Hon : c.(enabled) = true.
Hypothesis Hm : 1 <= c.(max_requests).
Hypothesis Hw : 0 <= c.(window_secs).
Hypothesis Hroom : cap = 0 \/ Z.of_nat (size keys) <= cap.
Let w := c.(window_secs).
Let m := c.(max_requests).

(** What the records know of the past of the key, at a time [T]. *)
Definition remembers (rs : records_map) (past : list Z) (T : Z) : Prop :=
  match rs !! k with
  | Some r => windows w m r.(window_start) r.(count) past /\ 0 <= r.(window_start) /\ r.(window_start) + w <= u64_max
  | None => past = [] \/ exists s n, windows w m s n past /\ s + w <= T
  end.
Record good (l : KeyedRateLimiter) (past : list Z) (T : Z) : Prop := mkGood {
  good_config : l.(config) = c;
  good_cap : l.(max_entries) = cap;
  good_keys : dom l.(records) ⊆ keys;
  good_past : remembers l.(records) past T;
  good_times : Forall (fun x => x <= T) past
}.

Lemma not_evicted key rs : key ∈ keys -> dom rs ⊆ keys -> evict iter cap key rs = rs.
Proof.
  intros Hk Hd. unfold evict. destruct (at_capacity cap key rs) eqn:E; [|done]. exfalso. unfold at_capacity in E.
  apply andb_true_iff in E as [E E3]. apply andb_true_iff in E as [E1 E2]. apply negb_true_iff, bool_decide_eq_false in E2. to_prop.
  assert (size (dom rs ∪ {[key]}) <= size keys)%nat by (apply subseteq_size; set_solver).
  rewrite size_union_alt, size_dom in H. replace ({[key]} ∖ dom rs) with ({[key]} : gset string) in H.
  - rewrite size_singleton in H. lia.
  - apply set_eq. intros x. rewrite elem_of_difference, elem_of_singleton, elem_of_dom. naive_solver.
Qed.
Lemma remembers_sweep rs past T now n :
  remembers rs past T -> T <= now -> remembers (sweep c now n rs) past now.
Proof.
  intros Hr HT. unfold sweep, remembers in *. destruct (n mod PURGE_INTERVAL =? 0).
  - destruct (filter _ rs !! k) as [r|] eqn:E.
    + apply map_lookup_filter_Some in E as [E _]. by rewrite E in Hr.
    + apply map_lookup_filter_None in E as [E|E]; [rewrite E in Hr; naive_solver lia|].
      destruct (rs !! k) as [r|]; [|naive_solver lia]. right. destruct Hr as (Hr & H0 & H1). exists r.(window_start), r.(count).
      split; [done|]. specialize (E r eq_refl). cbn in E. unfold window_end, u64_saturating_add in E.
      rewrite u64_sat_id in E by (unfold is_u64; lia). lia.
  - destruct (rs !! k); [done|]. naive_solver lia.
Qed.
Lemma sweep_dom now n rs : dom (sweep c now n rs) ⊆ dom rs.
Proof. unfold sweep. destruct (_ =? 0); [apply dom_filter_subseteq|done]. Qed.

Lemma good_check l past T now key a l' :
  good l past T -> key ∈ keys -> T <= now -> 0 <= now -> now + w <= u64_max -> check iter now key l = (a, l') ->
  good l' (if (key =s k) && is_ok a then now :: past else past) now
  /\ (key = k -> is_ok a = false -> m <= countb (within (now - w + 1) (now + 1)) past).
Proof.
  intros [Hc Hcap Hd Hr Ht] Hk HT H0 Hn. unfold check. rewrite Hc, Hcap, Hon. cbn [negb].
  set (rs := sweep c now _ _). assert (Hrs : dom rs ⊆ keys) by (etrans; [apply sweep_dom|done]).
  rewrite (not_evicted key rs) by done. pose proof (remembers_sweep _ _ _ now l.(check_count) Hr HT : remembers rs past now) as Hr'.
  destruct (decide_record c now _) as [a' r'] eqn:Ed. intros [= <- <-].
  assert (Hpast : Forall (fun x => x <= now) past) by (eapply list.Forall_impl; [exact Ht|cbn; lia]).
  destruct (key =s k) eqn:Ek; [apply String.eqb_eq in Ek as ->|].
  2:{ cbn [andb]. apply String.eqb_neq in Ek. split; [|done]. split; cbn; try done; [set_solver|]. unfold remembers. by rewrite lookup_insert_ne. }
  unfold remembers in Hr'. unfold decide_record in Ed. cbn [andb].
  assert (Hend : forall r, 0 <= r.(window_start) -> r.(window_start) + w <= u64_max -> window_end c r = r.(window_start) + w).
  { intros r ??. unfold window_end, u64_saturating_add. apply u64_sat_id. unfold is_u64. lia. }
  assert (Hkeep : forall (l1 l2 : Z) r' past', l1 = l2 ->
    remembers (<[k:=r']> rs) past' now -> Forall (fun x => x <= now) past' -> good (mkLimiter (<[k:=r']> rs) c cap l2) past' now).
  { intros l1 l2 r1 past' _ ??. split; cbn; [done|done|set_solver|done|done]. }
  destruct (rs !! k) as [r|] eqn:Er; cbn [default from_option id] in Ed.
  - destruct Hr' as (Hwin & Hs0 & Hs1). rewrite Hend in Ed by done.
    assert (Hs : r.(window_start) <= now) by (rewrite list.Forall_forall in Hpast; eapply Hpast, windows_start, Hwin).
    revert Ed. destruct (r.(window_start) + w <=? now) eqn:E1; [|destruct (r.(count) <? c.(max_requests)) eqn:E2]; intros [= <- <-]; to_prop; cbn [is_ok].
    + split; [|done]. eapply Hkeep; [done| |by constructor; [lia|]]. unfold remembers. rewrite lookup_insert_eq. cbn.
      split; [by eapply next_window|lia].
    + split; [|done]. eapply Hkeep; [done| |by constructor; [lia|]]. unfold remembers. rewrite lookup_insert_eq. cbn.
      split; [apply same_window; [done|lia|done]|lia].
    + split; [eapply Hkeep; [done| |done]; unfold remembers; by rewrite lookup_insert_eq|]. intros _ _.
      pose proof (windows_current w m _ _ _ Hwin). etrans; [exact E2|]. etrans; [exact H|]. apply count_impl.
      intros x Hx. unfold from, within. rewrite list.Forall_forall in Hpast. specialize (Hpast x Hx). intros Hf. to_prop.
      rewrite andb_true_iff, Z.leb_le, Z.ltb_lt. lia.
  - revert Ed. cbn [count window_start]. rewrite (Hend (mkRecord 0 now)) by (cbn; lia). cbn [window_start].
    rewrite (proj2 (Z.ltb_lt 0 c.(max_requests))) by lia.
    assert (Hfresh : windows w m now 1 (now :: past)).
    { destruct Hr' as [->|(s & n & Hwin & Hsn)]; [constructor|by eapply next_window]. }
    destruct (now + w <=? now); intros [= <- <-]; cbn [is_ok]; (split; [|done]); (eapply Hkeep; [done| |by constructor; [lia|]]);
      unfold remembers; rewrite lookup_insert_eq; cbn; (split; [done|lia]).
Qed.

Lemma run_good calls l past T :
  good l past T -> StronglySorted Z.le (T :: calls.*1) -> Forall (fun now => 0 <= now /\ now + w <= u64_max) calls.*1 ->
  list_to_set calls.*2 ⊆ keys ->
  let '(answers, l') := run iter calls l in
  (exists T', good l' (allowed k (zip calls answers) past) T')
  /\ forall i now e, calls !! i = Some (now, k) -> answers !! i = Some (Err e) ->
       m <= countb (within (now - w + 1) (now + 1)) (allowed k (take i (zip calls answers)) past).
Proof.
  revert l past T. induction calls as [|[now key] calls IH]; intros l past T Hg Hs Ht Hk; cbn [run].
  { split; [by exists T|]. intros i now e Hi. done. }
  cbn in Hs, Ht, Hk. apply StronglySorted_inv in Hs as [Hs HT]. apply list.Forall_cons in HT as [HT _].
  apply list.Forall_cons in Ht as [[H0 Hn] Ht].
  destruct (check iter now key l) as [a l1] eqn:Ec. eapply (good_check _ _ _ now key) in Hg as [Hg Hrefused]; [|set_solver|done|done|done|exact Ec].
  specialize (IH l1 _ now Hg Hs Ht ltac:(set_solver)). destruct (run iter calls l1) as [answers l2]. destruct IH as [IHg IH].
  split; [done|]. intros [|i] now' e; cbn.
  - intros [= -> ->] [= ->]. by apply Hrefused.
  - intros Hi Ha. by eapply IH.
Qed.
End Bound.

(** C25. A limiter with room for its keys holds them to their limit, and to no
    less: in any time as long as a window a key is allowed at most twice the
    limit less one (a window can end late and the next begin early), and it is
    refused only when it was allowed as many requests as the limit within the
    last window. *)
Theorem limit_exact iter c cap calls k :
  c.(enabled) = true -> 1 <= c.(max_requests) -> 0 <= c.(window_secs) ->
  cap = 0 \/ Z.of_nat (size (list_to_set calls.*2 : gset string)) <= cap ->
  StronglySorted Z.le calls.*1 -> Forall (fun now => 0 <= now /\ now + c.(window_secs) <= u64_max) calls.*1 ->
  let answers := (run iter calls (with_max_entries c cap)).1 in
  (forall t, countb (within t (t + c.(window_secs))) (allowed k (zip calls answers) []) <= 2 * c.(max_requests) - 1)
  /\ forall i now e, calls !! i = Some (now, k) -> answers !! i = Some (Err e) ->
       c.(max_requests)
       <= countb (within (now - c.(window_secs) + 1) (now + 1)) (allowed k (take i (zip calls answers)) []).
Proof.
  intros Hon Hm Hw Hroom Hs Ht.
  assert (Hg : good c cap (list_to_set calls.*2) k (with_max_entries c cap) [] 0).
  { split; cbn; [done|done|set_solver|by left|constructor]. }
  pose proof (run_good iter c cap _ k Hon Hm Hw Hroom calls _ [] 0 Hg) as H.
  destruct (run iter calls (with_max_entries c cap)) as [answers l']. cbn.
  destruct H as [(T & Hg') Hr]; [constructor; [done|]; eapply list.Forall_impl; [exact Ht|cbn; lia]|done|done|].
  split; [|done]. intros t. destruct Hg' as [_ _ _ Hp _]. unfold remembers in Hp.
  destruct (l'.(records) !! k) as [r|]; [|destruct Hp as [->|(s & n & Hp & _)]; [cbn; lia|]].
  - eapply windows_bound; [done|done|exact (proj1 Hp)].
  - eapply windows_bound; [done|done|exact Hp].
Qed.

(** *** Checks at concrete times *)
Definition two_per_minute : AuthRateLimitConfig := mkConfig true 2 60.
Definition burst : list (Z * string) := [(0, "ip"); (59, "ip"); (59, "other"); (60, "ip"); (60, "ip"); (61, "ip")]%string.
Lemma limit_exact_witness :
  countb (within 1 61) (allowed "ip" (zip burst (run map_to_list burst (with_max_entries two_per_minute 2)).1) []) = 3
  /\ (forall t, countb (within t (t + 60)) (allowed "ip" (zip burst (run map_to_list burst (with_max_entries two_per_minute 2)).1) []) <= 2 * 2 - 1).
Proof.
  split; [vm_compute; reflexivity|].
  refine (proj1 (limit_exact map_to_list two_per_minute 2 burst "ip" eq_refl _ _ _ _ _)); cbn; try lia.
  - right. vm_compute. discriminate.
  - repeat constructor; discriminate.
  - repeat constructor; vm_compute; discriminate.
Defined.

(** A limit of nothing lets the first request of a later window through. *)
Example zero_lets_one_through :
  let '(answers, _) := run map_to_list [(0, "ip"); (59, "ip"); (60, "ip"); (61, "ip")]%string (new (mkConfig true 0 60)) in
  map is_ok answers = [false; false; true; false].
Proof. vm_compute. done. Qed.
(** A limiter that is full forgets the key with the oldest window, and with it
    the requests it has counted. *)
Example eviction_resets :
  let '(answers, _) := run map_to_list [(0, "ip"); (1, "ip"); (2, "ip"); (3, "x"); (4, "y"); (5, "ip"); (6, "ip")]%string
                         (with_max_entries two_per_minute 2) in
  map is_ok answers = [true; true; false; true; true; true; true].
Proof. vm_compute. done. Qed.
(** While the clock cannot be read its time is 0, and windows begun then end
    when it can be read again. *)
Example clock_failure :
  let '(answers, _) := run map_to_list [(system_clock (Some 1700000000), "ip"); (system_clock None, "ip"); (system_clock None, "ip");
                                        (system_clock None, "x"); (system_clock (Some 1700000001), "x")]%string
                         (new (mkConfig true 1 60)) in
  map is_ok answers = [true; false; false; true; true].
Proof. vm_compute. done. Qed.
End Limit.
