(* ===== verification/Redis.v ===== *)
(** * A Redis server

    What the authentication stores use of the server: string keys with an
    expiry.  Redis is not part of the repository: its commands are an
    interface, with what its documentation promises of them as laws.  A command
    can fail; it then has had its effect or not. *)

From S2P Require Import Prelude.
#[local] Open Scope Z_scope.

(** Nanoseconds in a second: the unit of the clocks of the source. *)
Definition NANOS : Z := 1000000000.

(** Times of the server are in seconds; [live s t k] is the value a [GET] of [k] would find
    at the time [t] if no command came in between. *)
Class Redis (R : Type) : Type := {
  live : R -> Z -> string -> option string;
  redis_connect : Z -> R -> result string unit;
  redis_get : Z -> string -> R -> result string (option string) * R;
  redis_exists : Z -> string -> R -> result string bool * R;
  redis_set_ex : Z -> string -> string -> Z -> R -> result string unit * R;
  redis_del : Z -> list string -> R -> result string unit * R;
  redis_getdel : Z -> string -> R -> result string (option string) * R;
  redis_keys : Z -> string -> R -> result string (list string) * R;
  redis_set_nx_ex : Z -> string -> string -> Z -> R -> result string bool * R;
  redis_expire : Z -> string -> Z -> R -> result string bool * R;
  redis_ttl : Z -> string -> R -> result string Z * R
}.

Section Laws.
Context {R : Type} `{Redis R}.
(** The keys of one server at the times from [t] on. *)
Definition same_keys (t : Z) (s s' : R) : Prop := forall u k, t <= u -> live s' u k = live s u k.
Definition with_key (t : Z) (k v : string) (ttl : Z) (s s' : R) : Prop :=
  forall u k', t <= u -> live s' u k' = if k' =s k then (if u <? t + ttl then Some v else None) else live s u k'.
Definition without_key (t : Z) (k : string) (s s' : R) : Prop :=
  forall u k', t <= u -> live s' u k' = if k' =s k then None else live s u k'.
End Laws.

Class RedisLaws (R : Type) `{Redis R} : Prop := {
  get_law : forall t k s r s', redis_get t k s = (r, s') ->
    same_keys t s s' /\ forall v, r = Ok v -> v = live s t k;
  set_ex_law : forall t k v ttl s r s', 0 < ttl -> redis_set_ex t k v ttl s = (r, s') ->
    (r = Ok () -> with_key t k v ttl s s') /\ (with_key t k v ttl s s' \/ same_keys t s s');
  del_law : forall t k s r s', redis_del t [k] s = (r, s') ->
    (r = Ok () -> without_key t k s s') /\ (without_key t k s s' \/ same_keys t s s');
  getdel_law : forall t k s r s', redis_getdel t k s = (r, s') ->
    (forall v, r = Ok v -> v = live s t k /\ without_key t k s s') /\ (without_key t k s s' \/ same_keys t s s');
  set_nx_law : forall t k v ttl s r s', 0 < ttl -> redis_set_nx_ex t k v ttl s = (r, s') ->
    (r = Ok true -> live s t k = None /\ with_key t k v ttl s s') /\ (r = Ok false -> live s t k <> None)
    /\ (live s t k = None /\ with_key t k v ttl s s' \/ same_keys t s s');
  expire_law : forall t k ttl s r s', 0 < ttl -> redis_expire t k ttl s = (r, s') ->
    (forall b, r = Ok b -> match live s t k with Some v => with_key t k v ttl s s' | None => same_keys t s s' end)
    /\ ((exists v, live s t k = Some v /\ with_key t k v ttl s s') \/ same_keys t s s');
  ttl_law : forall t k s r s', redis_ttl t k s = (r, s') -> same_keys t s s'
}.

(** ** A key as a lock *)
Section Lock.
Context {R : Type} `{RL : RedisLaws R}.
(** The key is there with this value from [t] until [until]. *)
Definition held (t until : Z) (k v : string) (s : R) : Prop := forall u, t <= u < until -> live s u k = Some v.
Lemma held_later t t' until k v s : held t until k v s -> t <= t' -> held t' until k v s.
Proof. intros Hh Ht u Hu. apply Hh. lia. Qed.
Lemma held_same t until k v s s' : held t until k v s -> same_keys t s s' -> held t until k v s'.
Proof. intros Hh Hs u Hu. rewrite Hs by lia. by apply Hh. Qed.
Lemma held_set_nx t until k v k' v' ttl s r s' : 0 < ttl ->
  held t until k v s -> redis_set_nx_ex t k' v' ttl s = (r, s') -> held t until k v s'.
Proof.
  intros Httl Hh E u Hu. apply (set_nx_law t k' v' ttl s r s' Httl) in E as (_ & _ & [[Hn Hw]|Hs]); [|by apply (held_same t until k v s)].
  rewrite Hw by lia. destruct (k =s k') eqn:Ek; [|by apply Hh]. apply String.eqb_eq in Ek as <-. rewrite Hh in Hn by lia. done.
Qed.
Lemma held_del t until k v k' s r s' : k' <> k -> held t until k v s -> redis_del t [k'] s = (r, s') -> held t until k v s'.
Proof.
  intros Hk Hh E. apply (del_law t k' s r s') in E as [_ [Hw|Hs]]; [|by apply (held_same t until k v s)].
  intros u Hu. rewrite Hw by lia. apply not_eq_sym, String.eqb_neq in Hk as ->. by apply Hh.
Qed.
Lemma set_nx_held t k v ttl s s' : 0 < ttl -> redis_set_nx_ex t k v ttl s = (Ok true, s') -> held t (t + ttl) k v s'.
Proof.
  intros Httl E u Hu. apply (set_nx_law t k v ttl s _ s' Httl) in E as (Hok & _ & _). destruct (Hok eq_refl) as [_ Hw]. rewrite Hw by lia.
  rewrite String.eqb_refl. destruct (Z.ltb_spec u (t + ttl)); [done|lia].
Qed.
Lemma set_nx_free t until k v v' ttl s s' : 0 < ttl -> held t until k v s -> redis_set_nx_ex t k v' ttl s = (Ok true, s') -> until <= t.
Proof.
  intros Httl Hh E. apply (set_nx_law t k v' ttl s _ s' Httl) in E as (Hok & _ & _). destruct (Hok eq_refl) as [Hn _].
  destruct (Z.le_gt_cases until t); [done|]. rewrite (Hh t) in Hn by lia. done.
Qed.
End Lock.

(** A server that never fails. *)
Module MapRedis.
Abbreviation t := (gmap string (string * Z)).
Definition map_live (s : t) (now : Z) (k : string) : option string :=
  '(v, until) ← s !! k; if now <? until then Some v else None.
Definition prefix_of (pattern k : string) : bool :=
  (* the pattern of [KEYS], for the patterns the source builds: a prefix and a star *)
  String.prefix (String.substring 0 (String.length pattern - 1) pattern) k.
#[export] Instance map_redis : Redis t := {
  live := map_live;
  redis_connect _ _ := Ok ();
  redis_get now k s := (Ok (map_live s now k), s);
  redis_exists now k s := (Ok (match map_live s now k with Some _ => true | None => false end), s);
  redis_set_ex now k v ttl s := if 0 <? ttl then (Ok (), <[k := (v, now + ttl)]> s) else (Err "ERR invalid expire time in 'setex' command"%string, s);
  redis_del now ks s := (Ok (), foldr delete s ks);
  redis_getdel now k s := (Ok (map_live s now k), delete k s);
  redis_keys now pattern s := (Ok (filter (fun k => prefix_of pattern k && bool_decide (is_Some (map_live s now k))) (map_to_list s).*1), s);
  redis_set_nx_ex now k v ttl s :=
    if 0 <? ttl then (match map_live s now k with Some _ => (Ok false, s) | None => (Ok true, <[k := (v, now + ttl)]> s) end)
    else (Err "ERR invalid expire time in 'set' command"%string, s);
  redis_expire now k ttl s := match map_live s now k with Some v => (Ok true, <[k := (v, now + ttl)]> s) | None => (Ok false, s) end;
  redis_ttl now k s := (Ok match map_live s now k, s !! k with Some _, Some (_, until) => until - now | _, _ => -2 end, s)
}.
Lemma deleted now k s : without_key now k s (delete k s).
Proof.
  intros u k' _. cbn. unfold map_live. destruct (k' =s k) eqn:E.
  - apply String.eqb_eq in E as ->. by rewrite lookup_delete_eq.
  - apply String.eqb_neq in E. by rewrite lookup_delete_ne.
Qed.
Lemma key_inserted now k v ttl s : with_key now k v ttl s (<[k := (v, now + ttl)]> s).
Proof.
  intros u k' Hu. cbn. unfold map_live. destruct (k' =s k) eqn:E.
  - apply String.eqb_eq in E as ->. by rewrite lookup_insert_eq.
  - apply String.eqb_neq in E. by rewrite lookup_insert_ne.
Qed.
#[export] Instance map_laws : RedisLaws t.
Proof.
  split.
  - intros now k s r s' [= <- <-]. split; [done|]. by intros v [= <-].
  - intros now k v ttl s r s' Hpos. cbn. rewrite (proj2 (Z.ltb_lt 0 ttl)) by done. intros [= <- <-].
    pose proof (key_inserted now k v ttl s). by auto.
  - intros now k s r s' [= <- <-]. cbn. pose proof (deleted now k s). auto.
  - intros now k s r s' [= <- <-]. pose proof (deleted now k s). split; [|by auto]. by intros v [= <-].
  - intros now k v ttl s r s' Hpos. cbn. rewrite (proj2 (Z.ltb_lt 0 ttl)) by done. pose proof (key_inserted now k v ttl s).
    destruct (map_live s now k) eqn:E; intros [= <- <-]; split_and!; try done; [by right|by left].
  - intros now k ttl s r s' Hpos. cbn. destruct (map_live s now k) as [v|] eqn:E; intros [= <- <-]; [|by split; [|right]].
    pose proof (key_inserted now k v ttl s). split; [done|left; by exists v].
  - by intros now k s r s' [= <- <-].
Qed.
End MapRedis.
