(* ===== verification/TokenRevocation.v ===== *)
(** * Token revocation

    [fraiseql-server/src/token_revocation.rs] and the revocation routes of
    [routes/auth.rs]: revoked tokens by their [jti], kept until the token has
    expired.  Instants are nanoseconds; a handler reads the clock once for the
    token's remaining life and once in the store, and both readings are
    arguments.  Decoding a token is the [jsonwebtoken] package's; the first and
    the last instant of the [chrono] package are arguments. *)

From stdpp Require Import sorting.
From S2P Require Import Prelude Json Redis.
#[local] Open Scope Z_scope.
#[local] Open Scope list_scope.

Inductive RevocationError : Type := Backend (message : string).
Definition error_text (e : RevocationError) : string := match e with Backend m => "revocation store error: " ++ m end.

(** ** The store *)
(** [RevocationStore]: an operation at a time.  [None] is a panic. *)
Class RevocationStore (S : Type) : Type := {
  is_revoked : Z -> string -> S -> result RevocationError bool * S;
  revoke : Z -> string -> Z -> S -> option (result RevocationError unit * S);
  revoke_all_for_user : Z -> string -> S -> result RevocationError Z * S
}.

(** *** In memory *)
(** The subject and the end of each revocation, by [jti]. *)
Record InMemoryRevocationStore : Type := mkMemory { entries : gmap string (string * Z) }.
Definition empty_store : InMemoryRevocationStore := mkMemory ∅.
Definition cleanup_expired (now : Z) (s : InMemoryRevocationStore) : InMemoryRevocationStore :=
  mkMemory (filter (fun kv => now < kv.2.2) s.(entries)).

(** [chrono::Duration::seconds] panics beyond as many milliseconds as an [i64]
    holds. *)
Definition duration_seconds (secs : Z) : option Z :=
  if Z.abs secs <=? i64_max / 1000 then Some (secs * NANOS) else None.
(** Adding a duration to an instant panics outside [MIN_UTC] to [MAX_UTC]. *)
Definition instant_add (min_utc max_utc instant duration : Z) : option Z :=
  if (min_utc <=? instant + duration) && (instant + duration <=? max_utc) then Some (instant + duration) else None.

Section Memory.
Context (min_utc max_utc : Z).
Definition memory_is_revoked (now : Z) (jti : string) (s : InMemoryRevocationStore) : result RevocationError bool * InMemoryRevocationStore :=
  match s.(entries) !! jti with
  | Some (_, expires_at) => if now <? expires_at then (Ok true, s) else (Ok false, mkMemory (delete jti s.(entries)))
  | None => (Ok false, s)
  end.
Definition memory_revoke (now : Z) (jti : string) (ttl_secs : Z) (s : InMemoryRevocationStore)
    : option (result RevocationError unit * InMemoryRevocationStore) :=
  lifetime ← duration_seconds (cast_signed ttl_secs);
  expires_at ← instant_add min_utc max_utc now lifetime;
  Some (Ok (), mkMemory (<[jti := (EmptyString, expires_at)]> s.(entries))).
(** The number of the entries of the subject; none is added or changed. *)
Definition memory_revoke_all (now : Z) (sub : string) (s : InMemoryRevocationStore) : result RevocationError Z * InMemoryRevocationStore :=
  (Ok (Z.of_nat (size (filter (fun kv => kv.2.1 = sub) s.(entries)))), s).
Definition memory_store : RevocationStore InMemoryRevocationStore :=
  {| is_revoked := memory_is_revoked; revoke := memory_revoke; revoke_all_for_user := memory_revoke_all |}.
End Memory.

(** *** In Redis *)
Definition key_prefix : string := "fraiseql:revoked:".
Definition of_redis {A} (what : string) (r : result string A) : result RevocationError A :=
  match r with Ok a => Ok a | Err e => Err (Backend (what ++ e)) end.
Section InRedis.
Context {R : Type} `{Redis R}.
Definition connected {A} (now : Z) (s : R) (k : result RevocationError A * R) : result RevocationError A * R :=
  match redis_connect now s with Ok _ => k | Err e => (Err (Backend ("Redis: " ++ e)), s) end.
Definition redis_is_revoked (now : Z) (jti : string) (s : R) : result RevocationError bool * R :=
  connected now s (let '(r, s) := redis_exists (now / NANOS) (key_prefix ++ jti) s in (of_redis "Redis EXISTS: " r, s)).
Definition redis_revoke (now : Z) (jti : string) (ttl_secs : Z) (s : R) : option (result RevocationError unit * R) :=
  Some (connected now s
    (let '(r, s) := redis_set_ex (now / NANOS) (key_prefix ++ jti) "1" ttl_secs s in (of_redis "Redis SET EX: " r, s))).
(** Keys are searched under [user:] and the subject, and deleted. *)
Definition redis_revoke_all (now : Z) (sub : string) (s : R) : result RevocationError Z * R :=
  connected now s
    (let '(r, s) := redis_keys (now / NANOS) (key_prefix ++ "user:" ++ sub ++ ":*") s in
     match of_redis "Redis KEYS: " r with
     | Err e => (Err e, s)
     | Ok [] => (Ok 0, s)
     | Ok keys =>
         let '(r, s) := redis_del (now / NANOS) keys s in
         match of_redis "Redis DEL: " r with Err e => (Err e, s) | Ok _ => (Ok (Z.of_nat (length keys)), s) end
     end).
#[export] Instance redis_store : RevocationStore R :=
  { is_revoked := redis_is_revoked; revoke := redis_revoke; revoke_all_for_user := redis_revoke_all }.
End InRedis.

(** ** The manager *)
Record TokenRevocationManager : Type := mkManager { require_jti : bool; fail_open : bool }.
Inductive TokenRejection : Type := Revoked | MissingJti | StoreUnavailable.
Section Manager.
Context {S : Type} `{RevocationStore S}.
Definition check_token (m : TokenRevocationManager) (now : Z) (jti : option string) (s : S) : result TokenRejection unit * S :=
  let present := jti ≫= fun j => if j =s EmptyString then None else Some j in
  match present with
  | None => ((if m.(require_jti) then Err MissingJti else Ok ()), s)
  | Some jti =>
      let '(r, s) := is_revoked now jti s in
      (match r with
       | Ok true => Err Revoked
       | Ok false => Ok ()
       | Err _ => if m.(fail_open) then Ok () else Err StoreUnavailable
       end, s)
  end.

(** ** The routes *)
Abbreviation Response := (Z * json)%type.
Definition auth_error (status : Z) (message : string) : Response := (status, JObject [("error", JString message)])%string.
(** [insecure_decode] gives the claims [jti] and [exp]; [rfc3339] the text of
    an instant in seconds, if the calendar has it; [u64_text] a number's. *)
Context (insecure_decode : string -> result string (option string * option Z)) (rfc3339 : Z -> option string) (u64_text : Z -> string).
Definition DAY_SECS : Z := 86400.
Definition ttl_of (now : Z) (exp : option Z) : Z :=
  default DAY_SECS (exp ≫= fun exp => let now := u64_wrap (now / NANOS) in if now <=? exp then Some (exp - now) else None).
Definition revoked_response (exp : option Z) : Response :=
  (200, JObject (("revoked", JBool true)
                 :: match exp with
                    | Some exp => [("expires_at", JString (default (u64_text exp) (rfc3339 (cast_signed exp))))]
                    | None => []
                    end))%string.
Definition revoke_token (now now' : Z) (token : string) (s : S) : option (Response * S) :=
  match insecure_decode token with
  | Err e => Some (auth_error 400 ("Invalid token: " ++ e), s)
  | Ok (jti, exp) =>
      match jti ≫= fun j => if j =s EmptyString then None else Some j with
      | None => Some (auth_error 400 "Token has no jti claim", s)
      | Some jti =>
          '(r, s) ← revoke now' jti (ttl_of now exp) s;
          Some (match r with Ok _ => revoked_response exp | Err _ => auth_error 500 "Failed to revoke token" end, s)
      end
  end.
Definition revoke_all_tokens (now : Z) (sub : string) (s : S) : Response * S :=
  if sub =s EmptyString then (auth_error 400 "sub is required", s)
  else
    let '(r, s) := revoke_all_for_user now sub s in
    (match r with Ok count => (200, JObject [("revoked_count", JNumber (PosInt count))]) | Err _ => auth_error 500 "Failed to revoke tokens" end, s)%string.
End Manager.

(** ** Which store a schema asks for *)
Record TokenRevocationConfig : Type := mkConfig {
  config_enabled : bool;
  backend : string;
  config_require_jti : bool;
  config_fail_open : bool;
  redis_url : option string
}.
Inductive StoreKind : Type := InMemory | InRedis (url : string).
(** [feature] is the Cargo feature of the Redis store, [open] the client. *)
Definition store_kind (feature : bool) (open : string -> result string unit) (c : TokenRevocationConfig) : StoreKind :=
  if c.(backend) =s "redis" then
    if feature then
      let url := default "redis://localhost:6379"%string c.(redis_url) in
      match open url with Ok _ => InRedis url | Err _ => InMemory end
    else InMemory
  else InMemory.
Definition revocation_manager_from_schema (feature : bool) (open : string -> result string unit)
    (from_value : json -> result string TokenRevocationConfig) (security : option (gmap string json))
    : option (StoreKind * TokenRevocationManager) :=
  additional ← security;
  revocation_val ← additional !! "token_revocation"%string;
  match from_value revocation_val with
  | Err _ => None
  | Ok c => if c.(config_enabled) then Some (store_kind feature open c, mkManager c.(config_require_jti) c.(config_fail_open)) else None
  end.

(** ** What revoking a token achieves *)
Module Revoking.
Section Memory.
Context (min_utc max_utc : Z) (insecure_decode : string -> result string (option string * option Z))
  (rfc3339 : Z -> option string) (u64_text : Z -> string).
#[local] Instance store : RevocationStore InMemoryRevocationStore := memory_store min_utc max_utc.

(** The requests a server gets, each at its times; a check comes with each
    request that carries a token. *)
Inductive Request : Type :=
| Revoke (now now' : Z) (token : string)
| RevokeAll (now : Z) (sub : string)
| Check (m : TokenRevocationManager) (now : Z) (jti : option string)
| Cleanup (now : Z).
Definition time_of (r : Request) : Z := match r with Revoke _ now _ | RevokeAll now _ | Check _ now _ | Cleanup now => now end.
(** A panic leaves the store as it is. *)
Definition handle (r : Request) (s : InMemoryRevocationStore) : InMemoryRevocationStore :=
  match r with
  | Revoke now now' token => match revoke_token insecure_decode rfc3339 u64_text now now' token s with Some (_, s') => s' | None => s end
  | RevokeAll now sub => (revoke_all_tokens now sub s).2
  | Check m now jti => (check_token m now jti s).2
  | Cleanup now => cleanup_expired now s
  end.
Definition run (rs : list Request) (s : InMemoryRevocationStore) : InMemoryRevocationStore := foldl (fun s r => handle r s) s rs.

(** The end a request sets for a [jti]: the remaining life of the token, read
    as an [i64], after the time of the store's clock, unless the length or the
    end cannot be written and the request panics. *)
Definition end_of (now now' : Z) (exp : option Z) : option Z :=
  let secs := cast_signed (ttl_of now exp) in
  if bool_decide (Z.abs secs <= i64_max / 1000 /\ min_utc <= now' + secs * NANOS <= max_utc) then Some (now' + secs * NANOS) else None.
Lemma end_of_added now now' exp : end_of now now' exp = duration_seconds (cast_signed (ttl_of now exp)) ≫= instant_add min_utc max_utc now'.
Proof.
  unfold end_of, duration_seconds, instant_add. case_bool_decide as Hb.
  - destruct Hb as (H1 & H2 & H3). rewrite (proj2 (Z.leb_le _ _) H1). cbn.
    by rewrite (proj2 (Z.leb_le _ _) H2), (proj2 (Z.leb_le _ _) H3).
  - destruct (Z.leb_spec (Z.abs (cast_signed (ttl_of now exp))) (i64_max / 1000)); [|done]. cbn. case_bool; [|done]. to_prop. tauto.
Qed.
Definition sets (r : Request) (jti : string) : option Z :=
  match r with
  | Revoke now now' token =>
      match insecure_decode token with
      | Ok (Some j, exp) => if (j =s jti) && negb (j =s EmptyString) then end_of now now' exp else None
      | _ => None
      end
  | _ => None
  end.
Definition until (rs : list Request) (jti : string) : option Z :=
  foldl (fun u r => match sets r jti with Some e => Some e | None => u end) None rs.

(** The store against the ends set so far, at the time [T]: an end that has
    passed may be forgotten. *)
Record agrees (s : InMemoryRevocationStore) (u : string -> option Z) (T : Z) : Prop := mkAgrees {
  agrees_subs : forall jti sub e, s.(entries) !! jti = Some (sub, e) -> sub = EmptyString;
  agrees_ends : forall jti, match s.(entries) !! jti with
                            | Some (_, e) => u jti = Some e
                            | None => forall e, u jti = Some e -> e <= T
                            end
}.
Lemma agrees_later s u T T' : agrees s u T -> T <= T' -> agrees s u T'.
Proof. intros [Hs He] HT. split; [done|]. intros jti. specialize (He jti). destruct (s.(entries) !! jti) as [[]|]; [done|]. intros e ?. specialize (He e). naive_solver lia. Qed.
Lemma agrees_without s u T jti : agrees s u T -> (forall e, u jti = Some e -> e <= T) -> agrees (mkMemory (delete jti s.(entries))) u T.
Proof.
  intros [Hs He] Hj. split; cbn.
  - intros j sub e [? ?]%lookup_delete_Some. by eapply Hs.
  - intros j. destruct (decide (jti = j)) as [<-|Hn]; [by rewrite lookup_delete_eq|]. rewrite lookup_delete_ne by done. apply He.
Qed.

Lemma revoke_agrees s u T now now' token :
  agrees s u T -> T <= now' ->
  agrees (handle (Revoke now now' token) s) (fun j => match sets (Revoke now now' token) j with Some e => Some e | None => u j end) now'.
Proof.
  intros Hag HT. eapply agrees_later in Hag; [|exact HT]. cbn [handle sets]. unfold revoke_token.
  destruct (insecure_decode token) as [[[j|] exp]|e]; cbn [mbind option_bind]; [|done|done].
  destruct (j =s EmptyString) eqn:Ej; cbn [mbind option_bind negb].
  { destruct Hag as [Hs He]. split; [done|]. intros k. rewrite andb_false_r. apply He. }
  unfold revoke, store, memory_store, memory_revoke. set (e := end_of now now' exp). assert (Hend : e = duration_seconds (cast_signed (ttl_of now exp)) ≫= instant_add min_utc max_utc now') by apply end_of_added.
  clearbody e. destruct (duration_seconds (cast_signed (ttl_of now exp))) as [d|]; cbn in *.
  2:{ destruct Hag as [Hs He]. split; [done|]. intros k. subst e. destruct (_ && _); apply He. }
  destruct (instant_add min_utc max_utc now' d) as [e'|]; cbn in *.
  2:{ destruct Hag as [Hs He]. split; [done|]. intros k. subst e. destruct (_ && _); apply He. }
  destruct Hag as [Hs He]. split; cbn.
  - intros k sub x. destruct (decide (j = k)) as [<-|Hn]; [rewrite lookup_insert_eq; naive_solver|]. rewrite lookup_insert_ne by done. apply Hs.
  - intros k. destruct (decide (j = k)) as [<-|Hn].
    + rewrite lookup_insert_eq, streqb_refl. by subst e.
    + rewrite lookup_insert_ne by done. rewrite (proj2 (streqb_false j k)) by done. cbn. apply He.
Qed.
Lemma handle_agrees s u T r :
  agrees s u T -> T <= time_of r -> agrees (handle r s) (fun j => match sets r j with Some e => Some e | None => u j end) (time_of r).
Proof.
  destruct r as [now now' token|now sub|m now jti|now]; intros Hag HT; [by apply (revoke_agrees s u T)|..]; cbn [sets time_of handle] in *;
    (eapply agrees_later in Hag; [|exact HT]).
  - unfold revoke_all_tokens. by destruct (sub =s EmptyString).
  - unfold check_token. destruct (jti ≫= _) as [j|]; [|done]. unfold is_revoked, store, memory_store, memory_is_revoked.
    pose proof (agrees_ends _ _ _ Hag j) as He. destruct (s.(entries) !! j) as [[sub e]|]; [|done]. destruct (now <? e) eqn:E; [done|]. to_prop.
    cbn. apply agrees_without; [done|]. intros e' He'. rewrite He in He'. injection He' as <-. lia.
  - destruct Hag as [Hs He]. split; cbn.
    + intros j sub e [? _]%map_lookup_filter_Some. by eapply Hs.
    + intros j. specialize (He j). destruct (filter _ _ !! j) as [[sub e]|] eqn:E.
      * apply map_lookup_filter_Some in E as [E _]. by rewrite E in He.
      * apply map_lookup_filter_None in E as [E|E]; [by rewrite E in He|]. destruct (s.(entries) !! j) as [[sub e]|]; [|done].
        specialize (E _ eq_refl). cbn in E. intros e' He'. rewrite He in He'. injection He' as <-. lia.
Qed.
Lemma run_agrees rs s u T now :
  agrees s u T -> StronglySorted Z.le (T :: map time_of rs) -> Forall (fun t => t <= now) (T :: map time_of rs) ->
  agrees (run rs s) (fun j => foldl (fun u r => match sets r j with Some e => Some e | None => u end) (u j) rs) now.
Proof.
  revert s u T. induction rs as [|r rs IH]; intros s u T Hag Hs Hn; cbn in *.
  { eapply agrees_later; [exact Hag|]. by inversion Hn. }
  apply StronglySorted_inv in Hs as [Hs HT]. inversion HT; subst. inversion Hn; subst.
  apply (IH _ _ (time_of r)); [by apply (handle_agrees _ _ T)|done|done].
Qed.

(** C24. With the in-memory store, empty at first, and whatever requests came, in
    the order of their times: a token is refused for being revoked exactly while the end set by the
    last revocation of this [jti] has not passed; revoking all tokens of a
    user answers that it revoked none, and changes nothing. *)
Theorem revoked_exactly rs m now jti :
  StronglySorted Z.le (map time_of rs) -> Forall (fun t => t <= now) (map time_of rs) -> jti <> EmptyString ->
  let s := run rs empty_store in
  (check_token m now (Some jti) s).1
    = (if match until rs jti with Some e => now <? e | None => false end then Err Revoked else Ok ())
  /\ forall sub now', sub <> EmptyString ->
       revoke_all_tokens now' sub s = ((200, JObject [("revoked_count"%string, JNumber (PosInt 0))]), s).
Proof.
  intros Hs Hn Hj s.
  assert (Hag : agrees s (until rs) now).
  { assert (H0 : agrees empty_store (fun _ => None) (match rs with [] => now | r :: _ => time_of r end)) by (split; cbn; [done|]; intros k; by rewrite lookup_empty).
    eapply run_agrees in H0; [exact H0| |].
    - constructor; [done|]. destruct rs as [|r rs]; [constructor|]. cbn in *. apply StronglySorted_inv in Hs as [? ?]. constructor; [lia|done].
    - constructor; [|done]. destruct rs; [lia|]. by inversion Hn. }
  split.
  - unfold check_token. cbn. rewrite (proj2 (streqb_false jti EmptyString)) by done. cbn. unfold memory_is_revoked.
    pose proof (agrees_ends _ _ _ Hag jti) as He. destruct (s.(entries) !! jti) as [[sub e]|].
    + rewrite He. by destruct (now <? e).
    + destruct (until rs jti) as [e|]; [|done]. rewrite (proj2 (Z.ltb_ge now e)) by auto. done.
  - intros sub now' Hsub. unfold revoke_all_tokens. rewrite (proj2 (streqb_false sub EmptyString)) by done. cbn. unfold memory_revoke_all.
    replace (filter _ s.(entries)) with (∅ : gmap string (string * Z)); [done|]. symmetry. apply map_empty_filter.
    intros k [sub' e] Hk. cbn. intros <-. by apply (agrees_subs _ _ _ Hag) in Hk.
Qed.
End Memory.

(** *** A stolen token *)
Definition demo_decode (token : string) : result string (option string * option Z) :=
  if token =s "stolen" then Ok (Some "j"%string, Some 4000) else if token =s "forged" then Ok (Some "j"%string, Some 1001)
  else if token =s "eternal" then Ok (Some "j"%string, Some u64_max) else if token =s "distant" then Ok (Some "j"%string, Some (2 ^ 64 - 9000000000000)) else Err "no token"%string.
Definition min_utc : Z := -8334601228800 * NANOS.
Definition max_utc : Z := 8210266876799 * NANOS.
Definition lifted : list Request :=
  [Revoke (1000 * NANOS) (1000 * NANOS) "stolen"; Check (mkManager true false) (1000 * NANOS) (Some "j"%string);
   Revoke (1000 * NANOS) (1000 * NANOS) "forged"; RevokeAll (1001 * NANOS) "user"].
Lemma revoked_exactly_witness :
  (@check_token _ (store min_utc max_utc) (mkManager true false) (1002 * NANOS) (Some "j"%string)
     (run min_utc max_utc demo_decode (fun _ => None) (fun _ => EmptyString) lifted empty_store)).1 = Ok ().
Proof.
  rewrite (proj1 (revoked_exactly min_utc max_utc demo_decode (fun _ => None) (fun _ => EmptyString) lifted (mkManager true false) (1002 * NANOS) "j"%string
                    ltac:(repeat constructor; vm_compute; discriminate) ltac:(repeat constructor; vm_compute; discriminate) ltac:(discriminate))).
  vm_compute. reflexivity.
Defined.
(** The remaining life of a token is an [u64] read as an [i64]: for a token of
    the latest expiry it is negative, and the revocation is over when it is
    made; further from the end the sum leaves the calendar, and it panics. *)
Example eternal_token_not_revoked :
  let revoke token := @revoke_token _ (store min_utc max_utc) demo_decode (fun _ => None) (fun _ => EmptyString) (1000 * NANOS) (1000 * NANOS) token empty_store in
  (exists s r, revoke "eternal"%string = Some ((200, r), s) /\
     (@check_token _ (store min_utc max_utc) (mkManager true false) (1000 * NANOS) (Some "j"%string) s).1 = Ok ())
  /\ revoke "distant"%string = None.
Proof. split; [|by vm_compute]. eexists _, _. split; vm_compute; reflexivity. Qed.
End Revoking.
