(* ===== verification/StateEncryption.v ===== *)
(** * Encrypted state tokens

    [fraiseql-auth/src/state_encryption.rs]: a state value is sealed under a
    fresh nonce, and nonce and ciphertext are framed as one token.  The ciphers
    are the packages': an interface, with the law that opening inverts sealing;
    URL-safe base64 and hex likewise.  A random draw is an argument, a text its
    bytes. *)

From Stdlib Require Import Ascii.
From S2P Require Import Prelude Json Bytes Chars AuthTokens.
#[local] Open Scope Z_scope.

Inductive EncryptionAlgorithm : Type := Chacha20Poly1305 | Aes256Gcm.
Definition algorithm_text (a : EncryptionAlgorithm) : string :=
  match a with Chacha20Poly1305 => "chacha20-poly1305" | Aes256Gcm => "aes-256-gcm" end.

(** Keys have 32 bytes and nonces 12; no message is given for an error. *)
Class Aead : Type := {
  seal : EncryptionAlgorithm -> string -> string -> string -> option string;
  open : EncryptionAlgorithm -> string -> string -> string -> option string
}.
Class AeadLaws `(Aead) : Prop := {
  open_seal : forall a key nonce plain ct, seal a key nonce plain = Some ct -> open a key nonce ct = Some plain
}.
(** [String::from_utf8] keeps the bytes of a text. *)
Definition is_utf8 (s : string) : bool := Bytes.valid_utf8 (Bytes.text s).
Class UrlBase64 : Type := { url_encode : string -> string; url_decode : string -> option string }.
Class UrlBase64Laws `(UrlBase64) : Prop := {
  url_decode_encode : forall s, url_decode (url_encode s) = Some s;
  url_encode_some : forall s, s <> EmptyString -> url_encode s <> EmptyString;
  url_encode_text : forall s, is_utf8 (url_encode s) = true
}.

Definition NONCE_SIZE : nat := 12.
(** The first [n] bytes and the rest. *)
Fixpoint split_at (n : nat) (s : string) : string * string :=
  match n, s with
  | S n, String c s => let '(a, b) := split_at n s in (String c a, b)
  | _, _ => (EmptyString, s)
  end.
Lemma split_at_app n a b : String.length a = n -> split_at n (a ++ b) = (a, b).
Proof.
  revert n. induction a as [|c a IH]; intros n <-; [done|]. cbn [String.length].
  change (String c a ++ b)%string with (String c (a ++ b)). cbn [split_at]. by rewrite IH.
Qed.

(** ** [StateEncryption] *)
Record EncryptedState : Type := mkEncrypted { ciphertext : string; nonce : string }.
Definition to_bytes (e : EncryptedState) : string := (e.(nonce) ++ e.(ciphertext))%string.
Definition from_bytes (bytes : string) : AResult EncryptedState :=
  if (String.length bytes <? NONCE_SIZE)%nat then Err AuthError.InvalidState
  else let '(nonce, ct) := split_at NONCE_SIZE bytes in Ok (mkEncrypted ct nonce).

Section Encryption.
Context {A : Aead} {U : UrlBase64} (key : string).
Definition encrypt_state (random : string) (state : string) : AResult EncryptedState :=
  match seal Chacha20Poly1305 key random state with
  | Some ct => Ok (mkEncrypted ct random)
  | None => Err (AuthError.Internal "State encryption failed")
  end.
Definition decrypt_state (e : EncryptedState) : AResult string :=
  match open Chacha20Poly1305 key e.(nonce) e.(ciphertext) with
  | Some plain => if is_utf8 plain then Ok plain else Err AuthError.InvalidState
  | None => Err AuthError.InvalidState
  end.
Definition encrypt_to_bytes (random state : string) : AResult string := to_bytes <$> encrypt_state random state.
Definition decrypt_from_bytes (bytes : string) : AResult string := from_bytes bytes ≫= decrypt_state.
End Encryption.

(** ** [StateEncryptionService] *)
Inductive DecryptionError : Type := AuthenticationFailed | InvalidInput (message : string).
Inductive KeyError : Type := WrongLength (length : Z) | InvalidHex.
Record StateEncryptionService : Type := mkService { algorithm : EncryptionAlgorithm; service_key : string }.
Section Service.
Context {A : Aead} {U : UrlBase64} (hex_decode : string -> option string) (number : Z -> string).
Definition from_hex_key (hex : string) (a : EncryptionAlgorithm) : result KeyError StateEncryptionService :=
  if negb (String.length hex =? 64)%nat then Err (WrongLength (Z.of_nat (String.length hex)))
  else match hex_decode hex with Some bytes => Ok (mkService a bytes) | None => Err InvalidHex end.
Definition encrypt (s : StateEncryptionService) (random plaintext : string) : option string :=
  ct ← seal s.(algorithm) s.(service_key) random plaintext;
  Some (url_encode (random ++ ct)).
Definition decrypt (s : StateEncryptionService) (encoded : string) : result DecryptionError string :=
  if encoded =s EmptyString then Err (InvalidInput "empty input")
  else
    match url_decode encoded with
    | None => Err (InvalidInput "invalid base64")
    | Some combined =>
        if (String.length combined <? NONCE_SIZE)%nat
        then Err (InvalidInput ("too short: " ++ number (Z.of_nat (String.length combined)) ++ " bytes (minimum 12)"))
        else
          let '(nonce_bytes, ct) := split_at NONCE_SIZE combined in
          match open s.(algorithm) s.(service_key) nonce_bytes ct with
          | Some plain => Ok plain
          | None => Err AuthenticationFailed
          end
    end.

(** *** From the compiled schema *)
Record StateEncryptionConfig : Type := mkConfig { enabled : bool; config_algorithm : EncryptionAlgorithm; key_env : option string }.
Definition default_config : StateEncryptionConfig := mkConfig false Chacha20Poly1305 (Some "STATE_ENCRYPTION_KEY"%string).
Context (env : string -> option string) (key_error_text : KeyError -> string)
  (config_of : json -> result string StateEncryptionConfig).
Definition new_from_env (var : string) (a : EncryptionAlgorithm) : result string StateEncryptionService :=
  match env var with
  | None => Err ("env var " ++ var ++ " not set")%string
  | Some hex => match from_hex_key hex a with Ok s => Ok s | Err e => Err (key_error_text e) end
  end.
(** [None] when the service is not asked for; an error stops the server. *)
Definition from_compiled_schema (security : json) : result string (option StateEncryptionService) :=
  match json_get security "state_encryption" with
  | None => Ok None
  | Some v =>
      match config_of v with
      | Err e => Err ("invalid state_encryption config: " ++ e)%string
      | Ok cfg =>
          if negb cfg.(enabled) then Ok None
          else
            let var := default "STATE_ENCRYPTION_KEY"%string cfg.(key_env) in
            match new_from_env var cfg.(config_algorithm) with
            | Ok s => Ok (Some s)
            | Err e => Err ("state_encryption enabled but key env var '" ++ var ++ "' failed: " ++ e)%string
            end
      end
  end.
End Service.

(** ** Round trips *)
Lemma bytes_roundtrip e : String.length e.(nonce) = NONCE_SIZE -> from_bytes (to_bytes e) = Ok e.
Proof.
  intros Hn. unfold from_bytes, to_bytes. rewrite split_at_app by done. rewrite str_length_app, Hn.
  rewrite (proj2 (Nat.ltb_ge _ _)) by lia. by destruct e.
Qed.
Lemma state_roundtrip {A : Aead} {AL : AeadLaws A} key random state bytes :
  String.length random = NONCE_SIZE -> is_utf8 state = true ->
  encrypt_to_bytes key random state = Ok bytes -> decrypt_from_bytes key bytes = Ok state.
Proof.
  intros Hr Hv. unfold encrypt_to_bytes, encrypt_state, decrypt_from_bytes.
  destruct (seal _ key random state) as [ct|] eqn:E; [|done]. cbn. intros [= <-].
  rewrite bytes_roundtrip by done. cbn. unfold decrypt_state. cbn. apply open_seal in E. by rewrite E, Hv.
Qed.
Lemma service_roundtrip {A : Aead} {AL : AeadLaws A} {U : UrlBase64} {UL : UrlBase64Laws U} number s random plain token :
  String.length random = NONCE_SIZE -> encrypt s random plain = Some token -> decrypt number s token = Ok plain.
Proof.
  intros Hr. unfold encrypt, decrypt. destruct (seal _ _ random plain) as [ct|] eqn:E; [|done]. intros [= <-].
  rewrite (proj2 (streqb_false _ _)).
  - rewrite url_decode_encode, str_length_app, Hr, (proj2 (Nat.ltb_ge _ _)) by lia.
    rewrite split_at_app by done. apply open_seal in E. by rewrite E.
  - apply url_encode_some. destruct random; [done|]. by cbn.
Qed.
