(* ===== verification/PkceFlow.v ===== *)
(** * The authorization code flow

    [fraiseql-auth/src/pkce.rs] (the stores of flows under way, in memory and
    in Redis), [oidc_server_client.rs] (the provider's client) and
    [fraiseql-server/src/routes/auth.rs] ([auth_start], [auth_callback]): a
    start hands out a token, the callback with the token exchanges a code.
    Times are nanoseconds, on one clock; random draws are arguments, and so are
    the hash, percent-encoding and the transport.  A text is its bytes. *)

From Stdlib Require Import Ascii.
From stdpp Require Import pretty sorting.
From S2P Require Import Prelude Json Chars Redis TokenRevocation StateEncryption.
#[local] Open Scope Z_scope.
#[local] Open Scope list_scope.

(** ** Flows under way *)
Inductive PkceError : Type := StateNotFound | StateExpired.
Definition pkce_error_text (e : PkceError) : string :=
  match e with
  | StateNotFound => "state not found — the authorization flow may have already been completed or the state is invalid"
  | StateExpired => "state expired — please restart the authorization flow"
  end.
Record ConsumedPkceState : Type := mkConsumed { verifier : string; redirect_uri : string }.
(** The draws of a start: the bytes of the verifier, of the key and of the
    nonce of the token. *)
Record Draws : Type := mkDraws { verifier_bytes : string; key_bytes : string; nonce_bytes : string }.

Section Tokens.
Context {A : Aead} {U : UrlBase64} (number : Z -> string) (encryptor : option StateEncryptionService).
(** What a start sends out for a key, and the key a callback brings back. *)
Definition outbound_token (random internal_key : string) : result string string :=
  match encryptor with
  | Some enc => match encrypt enc random internal_key with Some t => Ok t | None => Err "encryption failed"%string end
  | None => Ok internal_key
  end.
Definition internal_key (token : string) : option string :=
  match encryptor with
  | Some enc => match decrypt number enc token with Ok bytes => if is_utf8 bytes then Some bytes else None | Err _ => None end
  | None => Some token
  end.
End Tokens.

(** The interface of the two stores ([PkceStateStore]): an operation at a
    time.  A start answers the token and the verifier. *)
Class PkceBackend (S : Type) : Type := {
  create_state : Z -> Draws -> string -> S -> result string (string * string) * S;
  consume_state : Z -> string -> S -> result PkceError ConsumedPkceState * S;
  cleanup_expired : Z -> S -> S;
  store_len : S -> Z
}.

(** *** In memory *)
Record PkceEntry : Type := mkEntry { entry_verifier : string; entry_redirect : string; created_at : Z; ttl : Z }.
Record InMemoryPkceStateStore : Type := mkPkceStore { entries : gmap string PkceEntry }.
Definition elapsed (now : Z) (e : PkceEntry) : Z := Z.max 0 (now - e.(created_at)).

Section InMemory.
Context {A : Aead} {U : UrlBase64} (number : Z -> string) (encryptor : option StateEncryptionService) (state_ttl_secs : Z).
Definition create_state_sync (now : Z) (d : Draws) (redirect_uri : string) (s : InMemoryPkceStateStore)
    : result string (string * string) * InMemoryPkceStateStore :=
  let verifier := url_encode d.(verifier_bytes) in
  let key := url_encode d.(key_bytes) in
  let s := mkPkceStore (<[key := mkEntry verifier redirect_uri now (state_ttl_secs * NANOS)]> s.(entries)) in
  ((fun token => (token, verifier)) <$> outbound_token encryptor d.(nonce_bytes) key, s).
Definition consume_state_sync (now : Z) (token : string) (s : InMemoryPkceStateStore)
    : result PkceError ConsumedPkceState * InMemoryPkceStateStore :=
  match internal_key number encryptor token with
  | None => (Err StateNotFound, s)
  | Some key =>
      match s.(entries) !! key with
      | None => (Err StateNotFound, s)
      | Some e =>
          let s := mkPkceStore (delete key s.(entries)) in
          if e.(ttl) <? elapsed now e then (Err StateExpired, s)
          else (Ok (mkConsumed e.(entry_verifier) e.(entry_redirect)), s)
      end
  end.
Definition cleanup_expired_sync (now : Z) (s : InMemoryPkceStateStore) : InMemoryPkceStateStore :=
  mkPkceStore (filter (fun ke => elapsed now ke.2 <= ke.2.(ttl)) s.(entries)).
Definition len_sync (s : InMemoryPkceStateStore) : Z := Z.of_nat (size s.(entries)).
Definition memory_backend : PkceBackend InMemoryPkceStateStore :=
  {| create_state := create_state_sync; consume_state := consume_state_sync; cleanup_expired := cleanup_expired_sync; store_len := len_sync |}.
End InMemory.

(** *** In Redis *)
Definition redis_key (internal_key : string) : string := ("fraiseql:pkce:" ++ internal_key)%string.
Definition stored_value (verifier redirect_uri : string) : json :=
  JObject [("redirect_uri", JString redirect_uri); ("verifier", JString verifier)]%string.
(** The derived reader of [StoredEntry]. *)
Definition stored_entry (v : json) : option ConsumedPkceState :=
  match json_get v "verifier", json_get v "redirect_uri" with
  | Some (JString verifier), Some (JString redirect_uri) => Some (mkConsumed verifier redirect_uri)
  | _, _ => None
  end.
Section InRedis.
Context {A : Aead} {U : UrlBase64} {R : Type} `{Redis R} (number : Z -> string)
  (to_string : json -> string) (from_str : string -> option json)
  (encryptor : option StateEncryptionService) (state_ttl_secs : Z).
Definition create_state_impl (now : Z) (d : Draws) (redirect_uri : string) (s : R) : result string (string * string) * R :=
  let verifier := url_encode d.(verifier_bytes) in
  let key := url_encode d.(key_bytes) in
  let '(r, s) := redis_set_ex (now / NANOS) (redis_key key) (to_string (stored_value verifier redirect_uri)) state_ttl_secs s in
  (r ≫= fun _ => (fun token => (token, verifier)) <$> outbound_token encryptor d.(nonce_bytes) key, s).
Definition consume_state_impl (now : Z) (token : string) (s : R) : result PkceError ConsumedPkceState * R :=
  match internal_key number encryptor token with
  | None => (Err StateNotFound, s)
  | Some key =>
      let '(r, s) := redis_getdel (now / NANOS) (redis_key key) s in
      (match r with
       | Ok (Some raw) =>
           match from_str raw ≫= stored_entry with Some e => Ok e | None => Err StateNotFound end
       | _ => Err StateNotFound
       end, s)
  end.
Definition redis_backend : PkceBackend R :=
  {| create_state := create_state_impl; consume_state := consume_state_impl; cleanup_expired := fun _ s => s; store_len := fun _ => 0 |}.
End InRedis.

(** ** The provider's client *)
Record OidcServerClient : Type := mkClient {
  client_id : string;
  client_secret : string;
  server_redirect_uri : string;
  authorization_endpoint : string;
  token_endpoint : string
}.
Record OidcTokenResponse : Type := mkTokens {
  access_token : string;
  id_token : option string;
  expires_in : option Z;
  refresh_token : option string
}.
Definition string_field (v : json) (k : string) : option string := match json_get v k with Some (JString s) => Some s | _ => None end.
Definition client_of_schema (env : string -> option string) (schema_json : json) : option OidcServerClient :=
  auth ← json_get schema_json "auth";
  client_id ← string_field auth "client_id";
  client_secret_env ← string_field auth "client_secret_env";
  server_redirect_uri ← string_field auth "server_redirect_uri";
  client_secret ← env client_secret_env;
  endpoints ← json_get schema_json "auth_endpoints";
  authorization_endpoint ← string_field endpoints "authorization_endpoint";
  token_endpoint ← string_field endpoints "token_endpoint";
  Some (mkClient client_id client_secret server_redirect_uri authorization_endpoint token_endpoint).

Definition MAX_OIDC_RESPONSE_BYTES : Z := 1048576.
Definition is_success (status : Z) : bool := (200 <=? status) && (status <? 300).
Section Client.
Context (urlencode : string -> string).
Definition authorization_url (c : OidcServerClient) (state code_challenge code_challenge_method : string) : string :=
  c.(authorization_endpoint) ++ "?response_type=code&client_id=" ++ urlencode c.(client_id)
  ++ "&redirect_uri=" ++ urlencode c.(server_redirect_uri) ++ "&scope=openid%20email%20profile&state=" ++ urlencode state
  ++ "&code_challenge=" ++ urlencode code_challenge ++ "&code_challenge_method=" ++ code_challenge_method.
(** [post]: a form sent to an endpoint, answered by a status and a body (or
    the failure to read it). *)
Context (post : string -> list (string * string) -> result string (Z * result string string))
  (lossy : string -> string) (from_slice : string -> result string OidcTokenResponse).
Definition token_form (c : OidcServerClient) (code code_verifier : string) : list (string * string) :=
  [("grant_type", "authorization_code"); ("code", code); ("code_verifier", code_verifier);
   ("redirect_uri", c.(server_redirect_uri)); ("client_id", c.(client_id)); ("client_secret", c.(client_secret))]%string.
Definition exchange_code (c : OidcServerClient) (code code_verifier : string) : result string OidcTokenResponse :=
  '(status, body) ← post c.(token_endpoint) (token_form c code code_verifier);
  match body with
  | Err e => Err ("Failed to read token response: " ++ e)%string
  | Ok body =>
      if MAX_OIDC_RESPONSE_BYTES <? Z.of_nat (String.length body)
      then Err ("OIDC token response too large (" ++ pretty (Z.of_nat (String.length body)) ++ " bytes, max 1048576)")%string
      else if negb (is_success status) then Err ("token endpoint returned " ++ pretty status ++ ": " ++ lossy body)%string
      else from_slice body
  end.
End Client.

(** ** The routes *)
Record AuthResponse : Type := mkResponse { status : Z; location : option string; set_cookie : option string; body : option json }.
Definition error_response (status : Z) (message : string) : AuthResponse :=
  mkResponse status None None (Some (snd (auth_error status message))).
(** [Redirect::to] answers 303. *)
Definition redirect_to (uri : string) : AuthResponse := mkResponse 303 (Some uri) None None.

Record AuthCallbackQuery : Type := mkQuery {
  q_code : option string;
  q_state : option string;
  q_error : option string;
  q_error_description : option string
}.
Definition client_message (error : string) : string :=
  if error =s "access_denied" then "Access was denied"
  else if error =s "login_required" then "Authentication is required"
  else if (error =s "invalid_request") || (error =s "invalid_scope") then "Invalid authorization request"
  else if (error =s "server_error") || (error =s "temporarily_unavailable") then "Authorization server error"
  else "Authorization failed".

Definition some_field (k : string) (v : option json) : list (string * json) := match v with Some v => [(k, v)] | None => [] end.
Definition token_json (t : OidcTokenResponse) : json :=
  JObject (("access_token"%string, JString t.(access_token)) :: some_field "id_token" (JString <$> t.(id_token))
           ++ some_field "expires_in" ((fun n => JNumber (PosInt n)) <$> t.(expires_in)) ++ [("token_type"%string, JString "Bearer")]).

Definition quote : string := bytes [34%nat].
Definition backslash : string := bytes [92%nat].
(** [replace] of one character by an escaped one, backslashes first. *)
Definition escape_token (token : string) : string :=
  replace quote (backslash ++ quote) (replace backslash (backslash ++ backslash) token).
Definition COOKIE_NAME : string := "__Host-access_token=".
Definition access_cookie (t : OidcTokenResponse) : string :=
  COOKIE_NAME ++ quote ++ escape_token t.(access_token) ++ quote ++ "; Path=/; HttpOnly; Secure; SameSite=Strict; Max-Age="
  ++ pretty (default 300 t.(expires_in)).

Section Routes.
Context {S : Type} {B : PkceBackend S} (urlencode : string -> string) (sha256 : string -> string) {U : UrlBase64}
  (exchange : string -> string -> result string OidcTokenResponse) (header_value : string -> bool)
  (client : OidcServerClient) (post_login_redirect_uri : option string).
Definition s256_challenge (verifier : string) : string := url_encode (sha256 verifier).
Definition auth_start (now : Z) (d : Draws) (redirect_uri : string) (s : S) : AuthResponse * S :=
  if redirect_uri =s EmptyString then (error_response 400 "redirect_uri is required", s)
  else if (2048 <? String.length redirect_uri)%nat then (error_response 400 "redirect_uri exceeds maximum length", s)
  else
    let '(r, s) := create_state now d redirect_uri s in
    (match r with
     | Err _ => error_response 500 "authorization flow could not be started"
     | Ok (outbound_token, verifier) => redirect_to (authorization_url urlencode client outbound_token (s256_challenge verifier) "S256")
     end, s).
(** The tokens as the callback returns them. *)
Definition login_response (tokens : OidcTokenResponse) : AuthResponse :=
  match post_login_redirect_uri with
  | Some uri =>
      let cookie := access_cookie tokens in
      if header_value cookie then mkResponse 303 (Some uri) (Some cookie) None
      else error_response 500 "session cookie could not be set"
  | None => mkResponse 200 None None (Some (token_json tokens))
  end.
(** The answer, the exchanges made with the provider, and the store. *)
Definition auth_callback (now : Z) (q : AuthCallbackQuery) (s : S) : AuthResponse * list (string * string) * S :=
  match q.(q_error) with
  | Some err => (error_response 400 (client_message err), [], s)
  | None =>
      match q.(q_code), q.(q_state) with
      | Some code, Some state_token =>
          let '(r, s) := consume_state now state_token s in
          match r with
          | Err e => (error_response 400 (pkce_error_text e), [], s)
          | Ok pkce =>
              (match exchange code pkce.(verifier) with
               | Ok tokens => login_response tokens
               | Err _ => error_response 502 "token exchange with OIDC provider failed"
               end, [(code, pkce.(verifier))], s)
          end
      | _, _ => (error_response 400 "missing code or state parameter", [], s)
      end
  end.

(** *** Requests one after the other *)
Inductive Request : Type :=
| Start (now : Z) (d : Draws) (redirect_uri : string)
| Callback (now : Z) (q : AuthCallbackQuery)
| Cleanup (now : Z).
Definition time_of (r : Request) : Z := match r with Start now _ _ | Callback now _ | Cleanup now => now end.
Definition handle (r : Request) (s : S) : S :=
  match r with
  | Start now d uri => (auth_start now d uri s).2
  | Callback now q => (auth_callback now q s).2
  | Cleanup now => cleanup_expired now s
  end.
Definition run (rs : list Request) (s : S) : S := foldl (fun s r => handle r s) s rs.
End Routes.

(** ** The session cookie *)
(** [extract_access_token_cookie] of a [Cookie] header. *)
Definition is_quote (c : string) : bool := c =s quote.
Definition cookie_token (part : string) : option string := trim_matches is_quote <$> strip_prefix COOKIE_NAME (trim part).
Fixpoint find_map {A B} (f : A -> option B) (l : list A) : option B :=
  match l with [] => None | x :: l => match f x with Some b => Some b | None => find_map f l end end.
Definition extract_access_token_cookie (cookies : option string) : option string :=
  cookies ≫= fun cookies => find_map cookie_token (split ";" cookies).

(** *** The middleware *)
Section Middleware.
Context {User : Type}.
Inductive SecurityError : Type := TokenExpiredError | InvalidTokenError | OtherSecurityError.
Inductive Verdict : Type := Unauthorized (www_authenticate body : string) | Proceed (user : option User).
Context (validate_token : string -> result SecurityError User) (required : bool) (issuer : string).
Definition invalid_token_header (description : string) : string :=
  "Bearer error=" ++ quote ++ "invalid_token" ++ quote
  ++ (if description =s EmptyString then EmptyString else ", error_description=" ++ quote ++ description ++ quote).
(** The text of the [Authorization] header, and the [Cookie] header. *)
Definition oidc_auth_middleware (authorization cookies : option string) : Verdict :=
  let token :=
    match authorization with
    | Some value => match strip_prefix "Bearer " value with Some token => Ok (Some token) | None => Err () end
    | None => Ok (extract_access_token_cookie cookies)
    end in
  match token with
  | Err _ => Unauthorized ("Bearer error=" ++ quote ++ "invalid_request" ++ quote) "Invalid Authorization header format"
  | Ok None => if required then Unauthorized ("Bearer realm=" ++ quote ++ issuer ++ quote) "Authentication required" else Proceed None
  | Ok (Some token) =>
      match validate_token token with
      | Ok user => Proceed (Some user)
      | Err TokenExpiredError => Unauthorized (invalid_token_header "Token has expired") "Token has expired"
      | Err InvalidTokenError => Unauthorized (invalid_token_header "Token is invalid") "Token is invalid"
      | Err OtherSecurityError => Unauthorized (invalid_token_header EmptyString) "Invalid or expired token"
      end
  end.
End Middleware.

(** * What an authorization code flow guarantees

    Both stores of flows keep the same table: a start adds a flow, the first
    callback with its token takes it.  What a callback sends to the provider
    follows, whatever requests came before. *)

(** ** The table of flows *)
Definition table : Type := string -> option PkceEntry.
Definition put (k : string) (e : option PkceEntry) (p : table) : table := fun k' => if k' =s k then e else p k'.
Lemma put_eq k e p : put k e p k = e.
Proof. unfold put. by rewrite streqb_refl. Qed.
Lemma put_ne k k' e p : k' <> k -> put k e p k' = p k'.
Proof. intros Hn. unfold put. by rewrite (proj2 (streqb_false k' k)). Qed.

(** What a store promises: [recover] is the key a token brings back, [fresh]
    whether a flow can still be completed, [life] how long flows live. *)
Class PkceLaws {S} (B : PkceBackend S) {U : UrlBase64} (recover : string -> option string) (life : Z)
    (fresh : Z -> PkceEntry -> bool) : Type := {
  tracks : S -> table -> Z -> Prop;
  tracks_later s p T T' : tracks s p T -> T <= T' -> tracks s p T';
  create_law s p T now d uri r s' :
    tracks s p T -> T <= now -> create_state now d uri s = (r, s') ->
    tracks s' (put (url_encode d.(key_bytes)) (Some (mkEntry (url_encode d.(verifier_bytes)) uri now life)) p) now
    /\ forall token v, String.length d.(nonce_bytes) = NONCE_SIZE -> r = Ok (token, v) ->
         v = url_encode d.(verifier_bytes) /\ recover token = Some (url_encode d.(key_bytes));
  consume_law s p T now token r s' :
    tracks s p T -> T <= now -> consume_state now token s = (r, s') ->
    match recover token with
    | None => r = Err StateNotFound /\ tracks s' p now
    | Some k =>
        tracks s' (put k None p) now
        /\ match p k with
           | Some f => if fresh now f then r = Ok (mkConsumed f.(entry_verifier) f.(entry_redirect)) else exists e, r = Err e
           | None => r = Err StateNotFound
           end
    end;
  cleanup_law s p T now : tracks s p T -> T <= now -> tracks (cleanup_expired now s) p now
}.

(** *** The token brings the key back *)
Section Tokens.
Context {A : Aead} {AL : AeadLaws A} {U : UrlBase64} {UL : UrlBase64Laws U} (number : Z -> string) (encryptor : option StateEncryptionService).
Lemma token_brings_key random k token :
  String.length random = NONCE_SIZE -> outbound_token encryptor random (url_encode k) = Ok token ->
  internal_key number encryptor token = Some (url_encode k).
Proof.
  intros Hr. unfold outbound_token, internal_key. destruct encryptor as [enc|]; [|by intros [= ->]].
  destruct (encrypt enc random (url_encode k)) as [t|] eqn:E; [|done]. intros [= <-].
  erewrite service_roundtrip by done. by rewrite url_encode_text.
Qed.

(** *** The store in memory *)
Section Memory.
Context (ttl_secs : Z).
Definition memory_fresh (now : Z) (f : PkceEntry) : bool := elapsed now f <=? f.(ttl).
Definition memory_tracks (s : InMemoryPkceStateStore) (p : table) (T : Z) : Prop :=
  forall k, match s.(entries) !! k with
            | Some e => p k = Some e
            | None => forall f, p k = Some f -> memory_fresh T f = false
            end.
Lemma memory_later s p T T' : memory_tracks s p T -> T <= T' -> memory_tracks s p T'.
Proof.
  intros H HT k. specialize (H k). destruct (s.(entries) !! k); [done|]. intros f Hf. specialize (H f Hf).
  unfold memory_fresh, elapsed in *. to_prop. apply Z.leb_gt. lia.
Qed.
Lemma memory_put s p T k e : memory_tracks s p T -> memory_tracks (mkPkceStore (<[k := e]> s.(entries))) (put k (Some e) p) T.
Proof.
  intros H k'. cbn. destruct (decide (k' = k)) as [->|Hn]; [rewrite lookup_insert_eq; apply put_eq|].
  rewrite lookup_insert_ne by done. rewrite put_ne by done. apply H.
Qed.
Lemma memory_take s p T k : memory_tracks s p T -> memory_tracks (mkPkceStore (delete k s.(entries))) (put k None p) T.
Proof.
  intros H k'. cbn. destruct (decide (k' = k)) as [->|Hn]; [rewrite lookup_delete_eq, put_eq; done|].
  rewrite lookup_delete_ne by done. rewrite put_ne by done. apply H.
Qed.
Lemma memory_absent s p T k : memory_tracks s p T -> s.(entries) !! k = None -> memory_tracks s (put k None p) T.
Proof.
  intros H Hk k'. destruct (decide (k' = k)) as [->|Hn]; [by rewrite Hk, put_eq|]. rewrite put_ne by done. apply H.
Qed.
#[refine] Definition memory_laws :
  PkceLaws (memory_backend number encryptor ttl_secs) (internal_key number encryptor) (ttl_secs * NANOS) memory_fresh :=
  {| tracks := memory_tracks; tracks_later := memory_later |}.
Proof.
  - intros s p T now d uri r s' H HT. cbn. unfold create_state_sync. intros [= <- <-]. split.
    + by apply memory_put, (memory_later _ _ T).
    + intros token v Hn Hr. destruct (outbound_token encryptor _ _) as [t|] eqn:E; [|done]. cbn in Hr. injection Hr as <- <-.
      split; [done|]. by eapply token_brings_key.
  - intros s p T now token r s' H HT. cbn. unfold consume_state_sync. eapply memory_later in H; [|exact HT].
    destruct (internal_key number encryptor token) as [k|]; [|intros [= <- <-]; done].
    pose proof (H k) as Hk. destruct (s.(entries) !! k) as [e|] eqn:E.
    + rewrite Hk. unfold memory_fresh. destruct (e.(ttl) <? elapsed now e) eqn:Et; intros [= <- <-]; (split; [by apply memory_take|]); to_prop.
      * rewrite (proj2 (Z.leb_gt _ _)) by lia. eauto.
      * by rewrite (proj2 (Z.leb_le _ _)) by lia.
    + intros [= <- <-]. split; [by apply memory_absent|]. destruct (p k) as [f|]; [|done]. rewrite (Hk f eq_refl). eauto.
  - intros s p T now H HT. cbn. eapply memory_later in H; [|exact HT]. intros k. specialize (H k). cbn.
    destruct (filter _ _ !! k) as [e|] eqn:E.
    + apply map_lookup_filter_Some in E as [E _]. by rewrite E in H.
    + apply map_lookup_filter_None in E as [E|E]; [by rewrite E in H|]. destruct (s.(entries) !! k) as [e|]; [|done].
      specialize (E e eq_refl). cbn in E. intros f Hf. rewrite H in Hf. injection Hf as <-. unfold memory_fresh. apply Z.leb_gt. lia.
Defined.
End Memory.

(** *** The store in Redis, while its commands succeed *)
Section InRedis.
Context {R : Type} `{RL : RedisLaws R} (to_string : json -> string) (from_str : string -> option json) (ttl_secs : Z).
Hypothesis read_back : forall v uri, from_str (to_string (stored_value v uri)) = Some (stored_value v uri).
Hypothesis set_works : forall t k v s, is_ok (redis_set_ex t k v ttl_secs s).1 = true.
Hypothesis getdel_works : forall t k s, is_ok (redis_getdel t k s).1 = true.
Hypothesis ttl_pos : 0 < ttl_secs.
Definition redis_fresh (now : Z) (f : PkceEntry) : bool := now / NANOS <? f.(created_at) / NANOS + ttl_secs.
Definition live_value (t : Z) (f : PkceEntry) : option string :=
  if t <? f.(created_at) / NANOS + ttl_secs then Some (to_string (stored_value f.(entry_verifier) f.(entry_redirect))) else None.
Definition redis_tracks (s : R) (p : table) (T : Z) : Prop :=
  forall k t, T / NANOS <= t -> live s t (redis_key k) = p k ≫= live_value t.
Lemma redis_key_eqb k k' : (redis_key k' =s redis_key k) = (k' =s k).
Proof.
  destruct (k' =s k) eqn:E; [apply String.eqb_eq in E as ->; apply streqb_refl|]. apply streqb_false. apply String.eqb_neq in E.
  intros Heq. apply E. unfold redis_key in Heq. cbn in Heq. by injection Heq.
Qed.
Lemma redis_later s p T T' : redis_tracks s p T -> T <= T' -> redis_tracks s p T'.
Proof. intros H' HT k t Ht. apply H'. unfold NANOS in *. etrans; [|exact Ht]. by apply Z.div_le_mono. Qed.
Lemma redis_taken s s' p T k : redis_tracks s p T -> without_key (T / NANOS) (redis_key k) s s' -> redis_tracks s' (put k None p) T.
Proof. intros H' Hw k' t Ht. rewrite (Hw t _ Ht), redis_key_eqb, H' by done. unfold put. by destruct (k' =s k). Qed.
#[refine] Definition redis_laws :
  PkceLaws (redis_backend number to_string from_str encryptor ttl_secs) (internal_key number encryptor) (ttl_secs * NANOS) redis_fresh :=
  {| tracks := redis_tracks; tracks_later := redis_later |}.
Proof.
  - intros s p T now d uri r s' Ht HT. cbn. unfold create_state_impl. eapply redis_later in Ht; [|exact HT].
    destruct (redis_set_ex _ _ _ _ s) as [r1 s1] eqn:Es. pose proof (set_works (now / NANOS) (redis_key (url_encode d.(key_bytes)))
      (to_string (stored_value (url_encode d.(verifier_bytes)) uri)) s) as Hok. rewrite Es in Hok. destruct r1 as [[]|]; [|done].
    intros [= <- <-]. apply set_ex_law in Es as [Es _]; [|done]. specialize (Es eq_refl). split.
    + intros k t Hk. rewrite (Es t _ Hk), redis_key_eqb, Ht by done. unfold put. by destruct (k =s _).
    + intros token v Hn Hr. cbn in Hr. destruct (outbound_token encryptor _ _) as [t|] eqn:E; [|done]. cbn in Hr. injection Hr as <- <-.
      split; [done|]. by eapply token_brings_key.
  - intros s p T now token r s' Ht HT. cbn. unfold consume_state_impl. eapply redis_later in Ht; [|exact HT].
    destruct (internal_key number encryptor token) as [k|]; [|intros [= <- <-]; done].
    destruct (redis_getdel _ _ s) as [r1 s1] eqn:Es. pose proof (getdel_works (now / NANOS) (redis_key k) s) as Hok.
    rewrite Es in Hok. destruct r1 as [v|]; [|done]. apply getdel_law in Es as [Es _]. destruct (Es v eq_refl) as [-> Hw].
    intros [= <- <-]. split; [by eapply redis_taken|]. rewrite Ht by done. destruct (p k) as [f|]; [|done]. cbn. unfold live_value, redis_fresh.
    destruct (now / NANOS <? _); [|eauto]. by rewrite read_back.
  - intros s p T now Ht HT. by eapply redis_later.
Defined.
End InRedis.
End Tokens.

(** ** Requests *)
Section Requests.
Context {S : Type} {B : PkceBackend S} {U : UrlBase64} {recover : string -> option string} {life : Z} {fresh : Z -> PkceEntry -> bool}
  (L : PkceLaws B recover life fresh).
Context (urlencode : string -> string) (sha256 : string -> string) (exchange : string -> string -> result string OidcTokenResponse)
  (header_value : string -> bool) (client : OidcServerClient) (post_login : option string).
Abbreviation run := (run urlencode sha256 exchange header_value client post_login).
Abbreviation auth_start := (auth_start urlencode sha256 client).
Abbreviation auth_callback := (auth_callback exchange header_value post_login).

(** The flow a request adds or takes. *)
Definition accepted (uri : string) : bool := negb (uri =s EmptyString) && (String.length uri <=? 2048)%nat.
Definition brought (q : AuthCallbackQuery) : option (string * string) :=
  match q.(q_error), q.(q_code), q.(q_state) with
  | None, Some code, Some token => (fun k => (code, k)) <$> recover token
  | _, _, _ => None
  end.
Definition effect (r : Request) (p : table) : table :=
  match r with
  | Start now d uri =>
      if accepted uri then put (url_encode d.(key_bytes)) (Some (mkEntry (url_encode d.(verifier_bytes)) uri now life)) p else p
  | Callback now q => match brought q with Some (_, k) => put k None p | None => p end
  | Cleanup _ => p
  end.
(** The flows that are under way after the requests. *)
Definition pending (rs : list Request) : table := foldl (fun p r => effect r p) (fun _ => None) rs.
(** What a callback sends to the provider. *)
Definition sends (p : table) (now : Z) (q : AuthCallbackQuery) : list (string * string) :=
  match brought q with
  | Some (code, k) => match p k with Some f => if fresh now f then [(code, f.(entry_verifier))] else [] | None => [] end
  | None => []
  end.

Lemma flow_start_effect s p T now d uri :
  tracks s p T -> T <= now -> tracks (auth_start now d uri s).2 (effect (Start now d uri) p) now.
Proof using L.
  intros H HT. unfold PkceFlow.auth_start, effect, accepted. pose proof (tracks_later _ _ _ _ H HT) as H'.
  destruct (uri =s EmptyString); [done|]. rewrite Nat.ltb_antisym.
  destruct (String.length uri <=? 2048)%nat; cbn [negb andb]; [|done].
  destruct (create_state now d uri s) as [r s'] eqn:E. eapply create_law in E as [E _]; done.
Qed.
Lemma flow_callback_effect s p T now q :
  tracks s p T -> T <= now ->
  (auth_callback now q s).1.2 = sends p now q /\ tracks (auth_callback now q s).2 (effect (Callback now q) p) now.
Proof using L.
  intros H HT. unfold PkceFlow.auth_callback, sends, effect, brought. pose proof (tracks_later _ _ _ _ H HT) as H'.
  destruct q.(q_error); [done|]. destruct q.(q_code) as [code|]; [|done]. destruct q.(q_state) as [token|]; [|done].
  destruct (consume_state now token s) as [r s'] eqn:E. eapply consume_law in E; [|done..].
  destruct (recover token) as [k|]; cbn; [destruct E as [Ht Hr]|by destruct E as [-> Ht]].
  destruct (p k) as [f|]; [destruct (fresh now f)|]; [by subst r| |by subst r]. by destruct Hr as [e ->].
Qed.
Lemma run_tracks rs s p T now :
  tracks s p T -> StronglySorted Z.le (T :: map time_of rs) -> Forall (fun t => t <= now) (T :: map time_of rs) ->
  tracks (run rs s) (foldl (fun p r => effect r p) p rs) now.
Proof using L.
  revert s p T. induction rs as [|r rs IH]; intros s p T H Hs Hn; cbn in *.
  { eapply tracks_later; [exact H|]. by inversion Hn. }
  apply StronglySorted_inv in Hs as [Hs HT]. inversion HT; subst. inversion Hn; subst.
  apply (IH _ _ (time_of r)); [|done|done]. destruct r as [t d uri|t q|t]; cbn [handle time_of] in *.
  - by eapply flow_start_effect.
  - by eapply (flow_callback_effect _ _ _ t q).
  - by eapply cleanup_law.
Qed.

(** A flow that was taken stays taken until its key is started again. *)
Definition starts_key (k : string) (r : Request) : bool := match r with Start _ d _ => url_encode d.(key_bytes) =s k | _ => false end.
Lemma taken_stays rs k p : p k = None -> existsb (starts_key k) rs = false -> foldl (fun p r => effect r p) p rs k = None.
Proof.
  revert p. induction rs as [|r rs IH]; intros p Hp; cbn; [done|]. intros [Hr Hrs]%orb_false_iff. apply IH; [|done].
  destruct r as [t d uri|t q|t]; cbn in *; [|destruct (brought q) as [[c k']|]; [|done]|done].
  - destruct (accepted uri); [|done]. rewrite put_ne; [done|]. intros ->. by rewrite streqb_refl in Hr.
  - unfold put. by destruct (k =s k').
Qed.

(** C23. Whatever starts, callbacks and clean-ups came before, and whichever
    store keeps the flows: a callback sends its code to the provider exactly
    when its token brings back the key of a flow that was started, has not been
    taken by an earlier callback and is still fresh, and then with the verifier
    of this flow, and once; a start that is not refused hands out a token that
    brings back its own key; a second callback with the key sends nothing. *)
Theorem callback_exchanges rs s0 T now :
  tracks s0 (fun _ => None) T -> StronglySorted Z.le (T :: map time_of rs) -> Forall (fun t => t <= now) (T :: map time_of rs) ->
  let s := run rs s0 in
  (forall q, (auth_callback now q s).1.2 = sends (pending rs) now q)
  /\ (forall d uri, accepted uri = true -> String.length d.(nonce_bytes) = NONCE_SIZE ->
       (auth_start now d uri s).1 = error_response 500 "authorization flow could not be started"
       \/ exists token, recover token = Some (url_encode d.(key_bytes))
            /\ (auth_start now d uri s).1
               = redirect_to (authorization_url urlencode client token (s256_challenge sha256 (url_encode d.(verifier_bytes))) "S256"))
  /\ forall q code k rs' now' q' code', brought q = Some (code, k) -> existsb (starts_key k) rs' = false ->
       StronglySorted Z.le (now :: map time_of rs') -> Forall (fun t => t <= now') (now :: map time_of rs') ->
       brought q' = Some (code', k) -> (auth_callback now' q' (run (Callback now q :: rs') s)).1.2 = [].
Proof using L.
  intros H0 Hs Hn s. assert (Ht : tracks s (pending rs) now) by by eapply run_tracks. split_and!.
  - intros q. by eapply (proj1 (flow_callback_effect _ _ _ now q Ht ltac:(lia))).
  - intros d uri Ha Hlen. unfold PkceFlow.auth_start. unfold accepted in Ha. apply andb_true_iff in Ha as [Hu Hl].
    apply negb_true_iff in Hu. rewrite Hu, Nat.ltb_antisym, Hl. cbn [negb].
    destruct (create_state now d uri s) as [r s'] eqn:E. eapply create_law in E as [_ Hr]; [|exact Ht|lia].
    destruct r as [[token v]|e]; [right|by left]. specialize (Hr token v Hlen eq_refl) as [-> Hr]. by exists token.
  - intros q code k rs' now' q' code' Hb Hk Hs' Hn' Hb'.
    assert (Ht' : tracks (run (Callback now q :: rs') s) (foldl (fun p r => effect r p) (pending rs) (Callback now q :: rs')) now').
    { eapply run_tracks; [exact Ht| |]; cbn; [constructor; [done|]|constructor; [by inversion Hn'|done]].
      constructor; [lia|]. by apply StronglySorted_inv in Hs' as [_ ?]. }
    rewrite (proj1 (flow_callback_effect _ _ _ now' q' Ht' ltac:(lia))). unfold sends. rewrite Hb'. cbn.
    rewrite Hb, taken_stays; [done|apply put_eq|done].
Qed.
End Requests.

(** ** The session cookie *)
Module Cookie.
Abbreviation one := (fun c => String c EmptyString).
Lemma skip_prefix {A} (p : A -> bool) l m : forallb p l = true -> skip_while p (l ++ m) = skip_while p m.
Proof. induction l as [|x l IH]; [done|]. cbn. intros [-> H]%andb_true_iff. by apply IH. Qed.
Lemma skip_none {A} (p : A -> bool) l : match l with x :: _ => p x = false | [] => True end -> skip_while p l = l.
Proof. destruct l as [|x l]; [done|]. cbn. by intros ->. Qed.
(** Trimming keeps a middle that begins and ends with other characters. *)
Lemma trim_middle p (l m r : string) :
  all_ascii (l ++ m ++ r) = true ->
  forallb p (map one (String.list_ascii_of_string l)) = true -> forallb p (map one (String.list_ascii_of_string r)) = true ->
  match String.list_ascii_of_string m with c :: _ => p (one c) = false | [] => True end ->
  match rev (String.list_ascii_of_string m) with c :: _ => p (one c) = false | [] => True end ->
  trim_matches p (l ++ m ++ r) = m.
Proof.
  intros Ha Hl Hr Hm Hm'. unfold trim_matches. rewrite (chars_bytes _ Ha), !list_ascii_app, !map_app, skip_prefix by done.
  set (ms := map one (String.list_ascii_of_string m)). set (rs := map one (String.list_ascii_of_string r)) in *.
  assert (Hrs : forallb p (rev rs) = true).
  { apply forallb_forall. intros x Hx%in_rev. by rewrite forallb_forall in Hr; apply Hr. }
  assert (Hback : concat_str ms = m) by (unfold ms; rewrite concat_ascii; apply String.string_of_list_ascii_of_string).
  destruct (String.list_ascii_of_string m) as [|c l'] eqn:E.
  - subst ms. cbn [map app]. rewrite <- (app_nil_r rs), skip_prefix by done. exact Hback.
  - rewrite (skip_none p (ms ++ rs)) by exact Hm. rewrite rev_app_distr, skip_prefix by done. rewrite skip_none.
    + rewrite rev_involutive. exact Hback.
    + unfold ms. rewrite <- map_rev. by destruct (rev (c :: l')).
Qed.

(** *** Cookies of a header *)
Lemma split_plain sep s : has_char sep s = false -> split sep s = [s].
Proof. induction s as [|c s IH]; [done|]. cbn. intros [-> H]%orb_false_iff. by rewrite IH. Qed.
Lemma split_app sep a b : has_char sep a = false -> split sep (a ++ String sep b) = a :: split sep b.
Proof.
  induction a as [|c a IH]; intros H.
  - change (EmptyString ++ String sep b)%string with (String sep b). cbn. by rewrite Ascii.eqb_refl.
  - cbn in H. apply orb_false_iff in H as [Hc Ha]. rewrite str_cons. cbn. by rewrite Hc, IH.
Qed.
Lemma cookie_split_join x l :
  Forall (fun s => has_char ";" s = false) (x :: l) -> split ";" (join "; " (x :: l)) = x :: map (String " ") l.
Proof.
  revert x. induction l as [|y l IH]; intros x H; inversion H as [|? ? Hx Hl]; subst.
  { cbn [join map]. by apply split_plain. }
  change (join "; " (x :: y :: l)) with (x ++ String ";" (String " " (join "; " (y :: l))))%string. rewrite split_app by done. f_equal.
  cbn [split]. change (Ascii.eqb " " ";") with false. cbv iota. rewrite IH by done. done.
Qed.
Lemma trim_space s : all_ascii s = true -> trim (String " " s) = trim s.
Proof.
  intros Ha. unfold trim, trim_matches. rewrite !chars_bytes by done. cbn [String.list_ascii_of_string map skip_while].
  change (is_whitespace " ") with true. done.
Qed.
Definition plain_char (c : ascii) : bool :=
  is_ascii c && negb (is_whitespace (one c)) && negb (Ascii.eqb c ";") && negb (one c =s quote) && negb (one c =s backslash).
Definition plain (s : string) : bool := forallb plain_char (String.list_ascii_of_string s).
Lemma plain_facts s : plain s = true -> all_ascii s = true /\ has_char ";" s = false
  /\ split_once_str quote s = None /\ split_once_str backslash s = None
  /\ forall c, c ∈ String.list_ascii_of_string s -> is_quote (one c) = false.
Proof.
  unfold plain. induction s as [|c s IH]; [intros _; split_and!; try done; by intros c ?%elem_of_nil|]. cbn [String.list_ascii_of_string forallb].
  intros [Hc Hs]%andb_true_iff. destruct (IH Hs) as (H1 & H2 & H3 & H4 & H5). unfold plain_char in Hc.
  apply andb_true_iff in Hc as [Hc Hb]. apply andb_true_iff in Hc as [Hc Hq]. apply andb_true_iff in Hc as [Hc Hsemi].
  apply andb_true_iff in Hc as [Ha Hw]. apply negb_true_iff in Hb, Hq, Hsemi. split_and!.
  - cbn [all_ascii]. by rewrite Ha.
  - cbn [has_char]. by rewrite Hsemi, H2.
  - unfold quote, bytes in *. cbn [foldr split_once_str strip_prefix] in *. rewrite H3.
    destruct (Ascii.eqb_spec (ascii_of_nat 34) c) as [<-|]; [by vm_compute in Hq|done].
  - unfold backslash, bytes in *. cbn [foldr split_once_str strip_prefix] in *. rewrite H4.
    destruct (Ascii.eqb_spec (ascii_of_nat 92) c) as [<-|]; [by vm_compute in Hb|done].
  - intros d [->|Hd]%list.elem_of_cons; [done|]. by apply H5.
Qed.
Lemma cookie_escape_plain s : plain s = true -> escape_token s = s.
Proof.
  intros (_ & _ & Hq & Hb & _)%plain_facts. unfold escape_token, replace.
  assert (H : forall n from to, split_once_str from s = None -> replace_fuel n from to s = s) by (intros [] ? ? E; cbn; by rewrite ?E).
  rewrite (H _ backslash) by done. by apply H.
Qed.
Lemma cookie_of_token s : plain s = true -> cookie_token (COOKIE_NAME ++ quote ++ s ++ quote) = Some s.
Proof.
  intros Hp. destruct (plain_facts s Hp) as (Ha & _ & _ & _ & Hq). unfold cookie_token, trim.
  assert (Hall : all_ascii (COOKIE_NAME ++ quote ++ s ++ quote) = true) by (rewrite !ascii_app, Ha; done).
  rewrite <- (str_nil_r (COOKIE_NAME ++ _)). rewrite <- (str_nil (COOKIE_NAME ++ _)), str_assoc, trim_middle; [| |done|done|done|].
  - change (strip_prefix COOKIE_NAME (COOKIE_NAME ++ quote ++ s ++ quote)) with (Some (quote ++ s ++ quote)%string). cbn [fmap option_fmap option_map]. f_equal.
    apply trim_middle; [|done|done|..].
    + rewrite !ascii_app, Ha. done.
    + destruct (String.list_ascii_of_string s) as [|c l] eqn:E; [done|]. apply Hq. set_solver.
    + destruct (rev (String.list_ascii_of_string s)) as [|c l] eqn:E; [done|]. apply Hq. apply list_elem_of_In, in_rev. rewrite E. by left.
  - rewrite str_nil_r. by rewrite str_nil.
  - rewrite !list_ascii_app, !rev_app_distr. cbn. done.
Qed.

(** The cookie set after a login brings its token back, among whatever
    other cookies a browser sends with it, when the token has no blank, quote,
    backslash or semicolon (as the tokens of JSON have none) and no cookie
    before it has its name. *)
Theorem cookie_roundtrip t pair attributes before after :
  plain t.(access_token) = true ->
  split_once ";" (access_cookie t) = Some (pair, attributes) ->
  Forall (fun c => all_ascii c = true /\ has_char ";" c = false /\ strip_prefix COOKIE_NAME (trim c) = None) before ->
  Forall (fun c => has_char ";" c = false) after ->
  extract_access_token_cookie (Some (join "; " (before ++ pair :: after))) = Some t.(access_token).
Proof.
  intros Hp Hpair Hb Ha. destruct (plain_facts _ Hp) as (Hasc & Hsemi & _).
  assert (Epair : pair = (COOKIE_NAME ++ quote ++ t.(access_token) ++ quote)%string).
  { unfold access_cookie in Hpair. rewrite cookie_escape_plain in Hpair by done. revert Hpair. generalize (pretty (default 300 t.(expires_in))). intros age.
    assert (H : forall a b, has_char ";" a = false -> split_once ";" (a ++ String ";" b) = Some (a, b)).
    { intros a b. induction a as [|c a IH]; [done|]. cbn [has_char]. intros [Hc H']%orb_false_iff. rewrite str_cons. cbn [split_once].
      by rewrite Hc, IH. }
    change (quote ++ "; Path=/; HttpOnly; Secure; SameSite=Strict; Max-Age=" ++ age)%string
      with (quote ++ String ";" (" Path=/; HttpOnly; Secure; SameSite=Strict; Max-Age=" ++ age))%string.
    rewrite <- !(str_assoc t.(access_token)), <- !(str_assoc quote), <- (str_assoc COOKIE_NAME), H; [congruence|].
    rewrite !has_char_app, Hsemi. done. }
  assert (Hsp : has_char ";" pair = false) by (rewrite Epair, !has_char_app, Hsemi; done).
  assert (Htok : cookie_token pair = Some t.(access_token)) by (rewrite Epair; by apply cookie_of_token).
  assert (Hpa : all_ascii pair = true) by (rewrite Epair, !ascii_app, Hasc; done).
  assert (Hmap : forall rest, find_map cookie_token (map (String " ") (before ++ pair :: rest)) = Some t.(access_token)).
  { intros rest. clear Ha. induction Hb as [|c l (Hca & _ & Hcp) _ IH]; cbn [app map find_map].
    - unfold cookie_token in *. by rewrite trim_space, Htok.
    - unfold cookie_token at 1. rewrite trim_space, Hcp by done. exact IH. }
  unfold extract_access_token_cookie. cbn [mbind option_bind].
  assert (Hall : Forall (fun s => has_char ";" s = false) (before ++ pair :: after)).
  { apply list.Forall_app. split; [|by constructor]. eapply list.Forall_impl; [exact Hb|]. cbn. tauto. }
  destruct before as [|c before]; cbn [app] in *; rewrite cookie_split_join by done; cbn [find_map]; [by rewrite Htok|].
  inversion Hb as [|? ? (Hca & _ & Hcp) Hb']; subst c. unfold cookie_token at 1. rewrite Hcp. cbn [fmap option_fmap option_map].
  specialize (Hmap after). cbn [app map find_map] in Hmap. unfold cookie_token at 1 in Hmap. by rewrite trim_space, Hcp in Hmap.
Qed.
End Cookie.

(** ** A flow, with concrete packages *)
Module PkceDemo.
#[export] Instance demo_aead : Aead := { seal _ key _ plain := Some (key ++ plain)%string; open _ key _ ct := strip_prefix key ct }.
#[export] Instance demo_aead_laws : AeadLaws demo_aead.
Proof.
  split. intros a key n plain ct [= <-]. cbn. induction key as [|c key IH]; [done|]. rewrite str_cons. cbn. by rewrite Ascii.eqb_refl.
Qed.
(** Two letters for a byte. *)
Definition letter (n : nat) : ascii := ascii_of_nat (97 + n).
Fixpoint spell (s : string) : string :=
  match s with
  | EmptyString => EmptyString
  | String c s => String (letter (nat_of_ascii c / 16)) (String (letter (nat_of_ascii c mod 16)) (spell s))
  end.
Fixpoint unspell (s : string) : option string :=
  match s with
  | EmptyString => Some EmptyString
  | String a (String b s) => String (ascii_of_nat ((nat_of_ascii a - 97) * 16 + (nat_of_ascii b - 97))) <$> unspell s
  | _ => None
  end.
#[export] Instance demo_base64 : UrlBase64 := { url_encode := spell; url_decode := unspell }.
Lemma letters_text a b l : Bytes.valid_utf8 l = true -> (a < 16)%nat -> (b < 16)%nat ->
  Bytes.valid_utf8 (Z.of_N (Ascii.N_of_ascii (letter a)) :: Z.of_N (Ascii.N_of_ascii (letter b)) :: l) = true.
Proof. intros H Ha Hb. unfold Bytes.valid_utf8. do 16 (destruct a as [|a]; [do 16 (destruct b as [|b]; [exact H|]); lia|]). lia. Qed.
#[export] Instance demo_base64_laws : UrlBase64Laws demo_base64.
Proof.
  split; cbn.
  - induction s as [|c s IH]; [done|]. cbn [spell unspell]. rewrite IH. cbn [fmap option_fmap option_map]. do 2 f_equal.
    destruct c as [[] [] [] [] [] [] [] []]; reflexivity.
  - intros [|c s] H; [done|discriminate].
  - induction s as [|c s IH]; [done|]. unfold is_utf8. cbn [spell Bytes.text].
    apply letters_text; [exact IH|apply Nat.Div0.div_lt_upper_bound|apply Nat.mod_upper_bound; lia].
    apply (nat_ascii_bounded c).
Qed.
Definition service : StateEncryptionService := mkService Chacha20Poly1305 "k".
Definition draws : Draws := mkDraws "v" "k" "012345678901".
Definition backend : PkceBackend InMemoryPkceStateStore := memory_backend pretty (Some service) 600.
Definition laws : PkceLaws backend (internal_key pretty (Some service)) (600 * NANOS) memory_fresh := memory_laws pretty (Some service) 600.
Definition client : OidcServerClient := mkClient "id" "secret" "https://api/cb" "https://idp/authorize" "https://idp/token".
Definition no_exchange (code verifier : string) : result string OidcTokenResponse := Err "offline"%string.
Definition token : string := url_encode ("012345678901" ++ "k" ++ url_encode "k").
Definition query (code : string) : AuthCallbackQuery := mkQuery (Some code) (Some token) None None.
Definition requests : list Request := [Start 0 draws "https://app"; Cleanup NANOS].
Abbreviation callback := (auth_callback (B := backend) no_exchange (fun _ => true) None).
Abbreviation after rs := (run (B := backend) (fun s => s) (fun s => s) no_exchange (fun _ => true) client None rs (mkPkceStore ∅)).
Lemma callback_exchanges_witness :
  (callback (599 * NANOS) (query "c") (after requests)).1.2 = [("c", url_encode "v")]%string
  /\ (callback (600 * NANOS) (query "d") (after (requests ++ [Callback (599 * NANOS) (query "c")]))).1.2 = [].
Proof.
  assert (H0 : tracks (PkceLaws := laws) (mkPkceStore ∅) (fun _ => None) 0) by (intros k; cbn; by rewrite lookup_empty).
  split.
  - rewrite (proj1 (callback_exchanges laws (fun s => s) (fun s => s) no_exchange (fun _ => true) client None requests
                      (mkPkceStore ∅) 0 (599 * NANOS) H0 ltac:(repeat constructor; vm_compute; discriminate) ltac:(repeat constructor; vm_compute; discriminate)) (query "c")).
    vm_compute. reflexivity.
  - rewrite (proj1 (callback_exchanges laws (fun s => s) (fun s => s) no_exchange (fun _ => true) client None (requests ++ [Callback (599 * NANOS) (query "c")])
                      (mkPkceStore ∅) 0 (600 * NANOS) H0 ltac:(repeat constructor; vm_compute; discriminate) ltac:(repeat constructor; vm_compute; discriminate)) (query "d")).
    vm_compute. reflexivity.
Defined.

(** The Redis store on the concrete server has the laws too. *)
Definition flat (v : json) : string :=
  match v with JObject [(_, JString uri); (_, JString v)] => (v ++ " " ++ uri)%string | _ => EmptyString end.
Import MapRedis.
Example redis_works :
  let B := redis_backend (R := MapRedis.t) pretty flat
             (fun s => '(v, uri) ← split_once " " s; Some (stored_value v uri)) (Some service) 600 in
  let run := run (B := B) (fun s => s) (fun s => s) no_exchange (fun _ => true) client None in
  let callback := auth_callback (B := B) no_exchange (fun _ => true) None in
  (callback (599 * NANOS) (query "c") (run [Start 0 draws "https://app"] ∅)).1.2 = [("c", url_encode "v")]%string
  /\ (callback (600 * NANOS) (query "c") (run [Start 0 draws "https://app"] ∅)).1.2 = [].
Proof. vm_compute. done. Qed.

Definition tokens (t : string) : OidcTokenResponse := mkTokens t None (Some 3600) None.
Definition sent : string := (COOKIE_NAME ++ quote ++ "aaa.bbb.ccc" ++ quote)%string.
Lemma cookie_roundtrip_witness :
  extract_access_token_cookie (Some (join "; " (["theme=dark"] ++ sent :: ["lang=en"]))%string) = Some "aaa.bbb.ccc"%string.
Proof.
  refine (Cookie.cookie_roundtrip (tokens "aaa.bbb.ccc") sent " Path=/; HttpOnly; Secure; SameSite=Strict; Max-Age=3600" ["theme=dark"%string] ["lang=en"%string] _ _ _ _).
  - vm_compute. reflexivity.
  - vm_compute. reflexivity.
  - apply list.Forall_singleton. vm_compute. done.
  - apply list.Forall_singleton. vm_compute. done.
Defined.
(** A quote in a token is escaped when it is set and not when it is read. *)
Example escaped_token_changes :
  extract_access_token_cookie (fst <$> split_once ";" (access_cookie (tokens (String "a" (quote ++ "b")))))
  = Some ("a" ++ backslash ++ quote ++ "b")%string.
Proof. vm_compute. done. Qed.
End PkceDemo.
