(* ===== verification/AuthWorkers.v ===== *)
(** * Audit chains, failover, refresh workers and comparisons

    [fraiseql-auth/src/]: the chained audit log (audit/chain.rs), the provider
    in use (oauth/failover.rs), the queue of sessions to refresh and its worker
    (oauth/refresh.rs) and the comparisons of secrets (constant_time.rs).  The
    hash and the printer of JSON are arguments, and so are the clock's
    readings, in nanoseconds. *)

From Stdlib Require Import Ascii SpecFloat.
From S2P Require Import Prelude Json Redis AuthTokens.
#[local] Open Scope Z_scope.
#[local] Open Scope list_scope.

(** ** The chained audit log *)
Module Chain.
Inductive ChainVerifyError : Type :=
| BrokenLink (entry_index : Z) (expected_hash stored_hash : string)
| MissingChainHash (entry_index : Z)
| InvalidEntry (entry_index : Z).
Definition remove (key : string) (fields : list (string * json)) : list (string * json) :=
  List.filter (fun kv => negb (kv.1 =s key)) fields.

Section Chain.
(** [hmac] with the previous hash as its key, the hex text of a hash, and the
    text of an entry. *)
Context (hmac : string -> string -> string) (hex : string -> string) (to_string : json -> string).
Definition compute_chain_hash (prev_hash entry_json : string) : string := hmac prev_hash entry_json.
(** [ChainHasher] is the hash it has reached. *)
Definition advance (current entry_json : string) : string * string :=
  let current := compute_chain_hash current entry_json in (hex current, current).
Definition current_hash (current : string) : string := hex current.

Definition stored_hash (entry : json) : option string :=
  match json_get entry "chain_hash" with Some (JString s) => Some s | _ => None end.
(** The entry without its hash, if it is an object. *)
Definition bare (entry : json) : option json :=
  match entry with JObject fields => Some (JObject (remove "chain_hash" fields)) | _ => None end.
Fixpoint verify_from (idx : Z) (current : string) (entries : list json) : result ChainVerifyError Z :=
  match entries with
  | [] => Ok idx
  | entry :: entries =>
      match stored_hash entry with
      | None => Err (MissingChainHash idx)
      | Some stored =>
          match bare entry with
          | None => Err (InvalidEntry idx)
          | Some entry =>
              let '(expected, current) := advance current (to_string entry) in
              if negb (expected =s stored) then Err (BrokenLink idx expected stored) else verify_from (idx + 1) current entries
          end
      end
  end.
(** The count of the entries verified is their index at the end. *)
Definition verify_chain (entries : list json) (seed : string) : result ChainVerifyError Z := verify_from 0 seed entries.

(** *** What an accepted log pins down *)
Definition text (entry : json) : string := match bare entry with Some e => to_string e | None => EmptyString end.
Fixpoint reached (current : string) (entries : list json) : string :=
  match entries with [] => current | e :: es => reached (compute_chain_hash current (text e)) es end.
Lemma verify_from_ok idx current es n :
  verify_from idx current es = Ok n <->
  n = idx + Z.of_nat (length es)
  /\ forall i e, es !! i = Some e -> (exists b, bare e = Some b) /\ stored_hash e = Some (hex (reached current (take (S i) es))).
Proof.
  revert idx current. induction es as [|e es IH]; intros idx current; cbn [verify_from length].
  { split; [intros [= <-]; split; [lia|done]|]. intros [-> _]. f_equal. lia. }
  split.
  - destruct (stored_hash e) as [stored|] eqn:Es; [|done]. destruct (bare e) as [b|] eqn:Eb; [|done]. cbn.
    destruct (hex _ =s stored) eqn:Eh; [|done]. cbn. intros H%IH. destruct H as [-> H]. split; [lia|].
    apply String.eqb_eq in Eh. intros [|i] x; cbn.
    + intros [= <-]. split; [eauto|]. rewrite Es, <- Eh. unfold text. by rewrite Eb.
    + intros Hx. specialize (H i x Hx). unfold text. rewrite Eb. exact H.
  - intros [-> H]. destruct (H 0%nat e eq_refl) as [[b Eb] Es]. rewrite Es, Eb. cbn. unfold text. rewrite Eb, streqb_refl. cbn.
    apply IH. split; [lia|]. intros i x Hx. specialize (H (S i) x Hx). cbn in H. unfold text in H. by rewrite Eb in H.
Qed.

(** Two inputs of the hash with one value. *)
Definition collision : Prop := exists k m k' m', hmac k m = hmac k' m' /\ (k, m) <> (k', m').
Lemma reached_inj es es' c c' :
  length es = length es' -> reached c es = reached c' es' -> (c = c' /\ map text es = map text es') \/ collision.
Proof.
  revert es' c c'. induction es as [|e es IH]; intros [|e' es'] c c' Hl; try done; cbn in *; [auto|].
  injection Hl as Hl. intros [[H1 H2]|Hc]%IH; [|by right|done]. unfold compute_chain_hash in H1.
  destruct (decide ((c, text e) = (c', text e'))) as [[= -> Ht]|Hne]; [left|right; by exists c, (text e), c', (text e')].
  split; [done|]. by rewrite Ht, H2.
Qed.
Lemma reached_app c l1 l2 : reached c (l1 ++ l2) = reached (reached c l1) l2.
Proof. revert c. induction l1 as [|e l1 IH]; intros c; cbn; [done|apply IH]. Qed.
Hypothesis hex_inj : forall h h', hex h = hex h' -> h = h'.

(** C26. What an accepted log says up to an entry is fixed by the hash stored
    there: two logs accepted under one seed that store the same hash at the
    same place agree on the texts of all the entries up to it and on their
    hashes, or they show a collision of the hash; every beginning of an
    accepted log is accepted too, so that entries missing at the end are not
    noticed. *)
Theorem chain_binds seed es es' n n' i e e' :
  verify_chain es seed = Ok n -> verify_chain es' seed = Ok n' ->
  es !! i = Some e -> es' !! i = Some e' -> stored_hash e = stored_hash e' ->
  ((map text (take (S i) es) = map text (take (S i) es') /\ map stored_hash (take (S i) es) = map stored_hash (take (S i) es'))
   \/ collision)
  /\ forall k, verify_chain (take k es) seed = Ok (Z.of_nat (Nat.min k (length es))).
Proof.
  intros [_ H]%verify_from_ok [_ H']%verify_from_ok He He' Hs. destruct (H i e He) as [_ E], (H' i e' He') as [_ E'].
  rewrite E, E' in Hs. injection Hs as Hs%hex_inj.
  assert (Hlen : length (take (S i) es) = length (take (S i) es')).
  { apply lookup_lt_Some in He, He'. rewrite !length_take. lia. }
  split.
  - destruct (reached_inj _ _ _ _ Hlen Hs) as [[_ Ht]|Hc]; [left; split; [done|]|by right].
    assert (Hall : forall j, (j <= S i)%nat -> map stored_hash (take j es) = map stored_hash (take j es')).
    { induction j as [|j IH]; intros Hj; [done|]. assert (is_Some (es !! j)) as [x Hx] by (apply lookup_lt_is_Some_2; apply lookup_lt_Some in He; lia).
      assert (is_Some (es' !! j)) as [x' Hx'] by (apply lookup_lt_is_Some_2; apply lookup_lt_Some in He'; lia).
      rewrite (take_S_r _ _ _ Hx), (take_S_r _ _ _ Hx'), !map_app, IH by lia. f_equal. cbn. f_equal.
      destruct (H j x Hx) as [_ ->], (H' j x' Hx') as [_ ->]. do 2 f_equal.
      assert (Hc : forall (c : string) l l', map text l = map text l' -> reached c l = reached c l').
      { intros c l. revert c. induction l as [|y l IHl]; intros c [|y' l']; try done. cbn. intros [= -> Hm]. by apply IHl. }
      apply Hc. assert (Hm : forall l : list json, map text (take (S j) l) = take (S j) (map text (take (S i) l))).
      { intros l. rewrite <- !firstn_map, take_take, Nat.min_l by lia. done. }
      by rewrite (Hm es), (Hm es'), Ht. }
    by apply Hall.
  - intros k. apply verify_from_ok. rewrite length_take. split; [done|]. intros j x Hx. apply lookup_take_Some in Hx as [Hx Hj].
    rewrite take_take, Nat.min_l by lia. by apply H.
Qed.
End Chain.
End Chain.

(** ** The provider in use *)
Module Failover.
Record ProviderFailoverManager : Type := mkManager {
  primary_provider : string;
  fallback_providers : list string;
  unavailable : list (string * Z)
}.
Definition new (primary : string) (fallbacks : list string) : ProviderFailoverManager := mkManager primary fallbacks [].
Definition is_down (now : Z) (m : ProviderFailoverManager) (name : string) : bool :=
  existsb (fun ne => (ne.1 =s name) && (now <? ne.2)) m.(unavailable).
Definition get_available_provider (now : Z) (m : ProviderFailoverManager) : AResult string :=
  if negb (is_down now m m.(primary_provider)) then Ok m.(primary_provider)
  else
    match find (fun name => negb (is_down now m name)) m.(fallback_providers) with
    | Some name => Ok name
    | None => Err (AuthError.Internal "no OAuth providers available")
    end.
(** A duration the calendar cannot hold is a panic. *)
Definition mark_unavailable (add : Z -> Z -> option Z) (now : Z) (provider : string) (duration_seconds : Z) (m : ProviderFailoverManager)
    : option ProviderFailoverManager :=
  until ← add now (cast_signed duration_seconds);
  Some (mkManager m.(primary_provider) m.(fallback_providers) (m.(unavailable) ++ [(provider, until)])).
Definition mark_available (provider : string) (m : ProviderFailoverManager) : ProviderFailoverManager :=
  mkManager m.(primary_provider) m.(fallback_providers) (List.filter (fun ne => negb (ne.1 =s provider)) m.(unavailable)).

(** The provider in use is the first, in order of preference, that is not
    marked as unavailable; none is in use only when all are. *)
Lemma available_first now m :
  match get_available_provider now m with
  | Ok name => exists before after, m.(primary_provider) :: m.(fallback_providers) = before ++ name :: after
                 /\ is_down now m name = false /\ Forall (fun n => is_down now m n = true) before
  | Err _ => Forall (fun n => is_down now m n = true) (m.(primary_provider) :: m.(fallback_providers))
  end.
Proof.
  unfold get_available_provider. destruct (is_down now m m.(primary_provider)) eqn:E; cbn [negb].
  2:{ exists [], m.(fallback_providers). by repeat constructor. }
  assert (H : forall l, match find (fun name => negb (is_down now m name)) l with
                        | Some name => exists before after, l = before ++ name :: after /\ is_down now m name = false
                                         /\ Forall (fun n => is_down now m n = true) before
                        | None => Forall (fun n => is_down now m n = true) l
                        end).
  { induction l as [|n l IH]; [constructor|]. cbn. destruct (is_down now m n) eqn:En; cbn [negb].
    - destruct (find _ l) as [name|]; [|by constructor]. destruct IH as (b & a & -> & ? & ?). exists (n :: b), a. split; [done|]. split; [done|]. by constructor.
    - exists [], l. by repeat constructor. }
  specialize (H m.(fallback_providers)). destruct (find _ _) as [name|]; [|by constructor].
  destruct H as (b & a & -> & ? & ?). exists (m.(primary_provider) :: b), a. split; [done|]. split; [done|]. by constructor.
Qed.
(** A provider that was marked available is not down, whatever was marked. *)
Lemma marked_available_up now p m : is_down now (mark_available p m) p = false.
Proof.
  unfold is_down, mark_available. cbn. induction m.(unavailable) as [|[n e] l IH]; [done|]. cbn.
  destruct (n =s p) eqn:E; cbn [negb]; [done|]. cbn. by rewrite E.
Qed.
End Failover.

(** ** Sessions to refresh *)
Module Refresh.
(** [sort_by_key] is stable: an entry goes after those of its time. *)
Fixpoint insert_after (x : string * Z) (l : list (string * Z)) : list (string * Z) :=
  match l with [] => [x] | y :: l' => if x.2 <? y.2 then x :: l else y :: insert_after x l' end.
Definition sort_by_time (l : list (string * Z)) : list (string * Z) := foldl (fun acc x => insert_after x acc) [] l.
(** [TokenRefreshScheduler] is its queue. *)
Definition schedule_refresh (session_id : string) (refresh_time : Z) (queue : list (string * Z)) : list (string * Z) :=
  sort_by_time (queue ++ [(session_id, refresh_time)]).
Definition get_next_refresh (now : Z) (queue : list (string * Z)) : option string * list (string * Z) :=
  match queue with
  | (id, time) :: rest => if time <=? now then (Some id, rest) else (None, queue)
  | [] => (None, queue)
  end.
Definition cancel_refresh (session_id : string) (queue : list (string * Z)) : bool * list (string * Z) :=
  let kept := List.filter (fun e => negb (e.1 =s session_id)) queue in
  ((length kept <? length queue)%nat, kept).

(** 0.8, and [as i64] of a float. *)
Definition four_fifths : f64 := S754_finite false 7205759403792794 (-53).
Definition truncate (f : f64) : Z :=
  match f with
  | S754_finite s m e =>
      let n := if 0 <=? e then Z.pos m * 2 ^ e else Z.pos m / 2 ^ (- e) in
      if s then Z.max i64_min (- n) else Z.min i64_max n
  | S754_infinity s => if s then i64_min else i64_max
  | _ => 0
  end.
(** 80% of the whole seconds that remain. *)
Definition next_secs (remaining : Z) : Z := truncate (f64_mul (f64_of_Z (Z.quot remaining NANOS)) four_fifths).

(** *** The worker *)
Section Worker.
(** The readings of the clock and the answers to the refreshes, in their
    order. *)
Context (clock : nat -> Z) (refresh_session : nat -> string -> AResult (option Z)).
Record World : Type := mkWorld { queue : list (string * Z); reads : nat; refreshes : nat }.
(** One session, if one is due. *)
Definition step (w : World) : option World :=
  match get_next_refresh (clock w.(reads)) w.(queue) with
  | (None, _) => None
  | (Some id, rest) =>
      match refresh_session w.(refreshes) id with
      | Ok (Some new_expiry) =>
          let remaining := new_expiry - clock (S w.(reads)) in
          let next_refresh := clock (S (S w.(reads))) + next_secs remaining * NANOS in
          Some (mkWorld (schedule_refresh id next_refresh rest) (S (S (S w.(reads)))) (S w.(refreshes)))
      | _ => Some (mkWorld rest (S w.(reads)) (S w.(refreshes)))
      end
  end.
(** [process_due_refreshes]; [None] when the fuel is spent. *)
Fixpoint process_due_refreshes (fuel : nat) (w : World) : option World :=
  match fuel with
  | O => None
  | S fuel => match step w with Some w => process_due_refreshes fuel w | None => Some w end
  end.

(** *** When a poll ends *)
Definition due (T : Z) (l : list (string * Z)) : nat := length (List.filter (fun e => e.2 <=? T) l).
Lemma due_insert T x l : due T (insert_after x l) = ((if (x.2 <=? T)%Z then 1 else 0) + due T l)%nat.
Proof.
  unfold due. induction l as [|y l IH]; cbn; [by destruct (x.2 <=? T)|]. destruct (x.2 <? y.2); cbn; [by destruct (x.2 <=? T)|].
  destruct (y.2 <=? T); cbn; rewrite IH; destruct (x.2 <=? T); cbn; lia.
Qed.
Lemma due_app T l1 l2 : due T (l1 ++ l2) = (due T l1 + due T l2)%nat.
Proof. unfold due. by rewrite List.filter_app, length_app. Qed.
Lemma due_sort T l : due T (sort_by_time l) = due T l.
Proof.
  unfold sort_by_time. assert (H : forall acc, due T (foldl (fun acc x => insert_after x acc) acc l) = (due T acc + due T l)%nat).
  { induction l as [|x l IH]; intros acc; cbn [foldl]; [cbn; lia|]. rewrite IH, due_insert. change (x :: l) with ([x] ++ l). rewrite due_app.
    unfold due at 4. cbn. destruct (x.2 <=? T); cbn; lia. }
  by rewrite H.
Qed.
Lemma due_schedule T id t l : due T (schedule_refresh id t l) = ((if (t <=? T)%Z then 1 else 0) + due T l)%nat.
Proof. unfold schedule_refresh. rewrite due_sort, due_app. unfold due at 2. cbn. destruct (t <=? T); cbn; lia. Qed.

(** Each refresh made by a time [T] that puts the next one after [T]. *)
Definition puts_off (T : Z) (r k : nat) (id : string) : Prop :=
  match refresh_session k id with
  | Ok (Some new_expiry) => T < clock (S (S r)) + next_secs (new_expiry - clock (S r)) * NANOS
  | _ => True
  end.
Definition at_once (r k : nat) (id : string) : Prop :=
  match refresh_session k id with
  | Ok (Some new_expiry) => next_secs (new_expiry - clock (S r)) <= 0
  | _ => False
  end.

Lemma poll_ends T m w :
  (forall n, (n <= w.(reads) + 3 * m)%nat -> clock n <= T) -> (forall r k id, (r <= w.(reads) + 3 * m)%nat -> puts_off T r k id) ->
  (due T w.(queue) <= m)%nat ->
  exists w', process_due_refreshes (S m) w = Some w' /\ (w'.(refreshes) <= w.(refreshes) + m)%nat.
Proof.
  revert w. induction m as [|m IH]; intros w HT Hput Hd; cbn [process_due_refreshes].
  - assert (Hs : step w = None).
    { unfold step, get_next_refresh. destruct w.(queue) as [|[id t] l]; [done|]. destruct (t <=? clock w.(reads)) eqn:Et; [|done].
      exfalso. unfold due in Hd. cbn in Hd. specialize (HT w.(reads) ltac:(lia)). to_prop. rewrite (proj2 (Z.leb_le t T)) in Hd by lia. cbn in Hd. lia. }
    rewrite Hs. exists w. split; [done|lia].
  - destruct (step w) as [w1|] eqn:Es; [|exists w; split; [done|lia]].
    assert (Hw : (due T w1.(queue) <= m)%nat /\ w1.(refreshes) = S w.(refreshes) /\ (w1.(reads) <= w.(reads) + 3)%nat).
    { unfold step, get_next_refresh in Es. destruct w.(queue) as [|[id t] l]; [done|]. destruct (t <=? clock w.(reads)) eqn:Et; [|done].
      assert (Hl : (due T l <= m)%nat).
      { unfold due in Hd. cbn in Hd. specialize (HT w.(reads) ltac:(lia)). to_prop. rewrite (proj2 (Z.leb_le t T)) in Hd by lia. cbn in Hd. unfold due. lia. }
      specialize (Hput w.(reads) w.(refreshes) id ltac:(lia)). unfold puts_off in Hput.
      destruct (refresh_session w.(refreshes) id) as [[e|]|]; injection Es as <-; cbn [queue refreshes reads]; (split; [|split; [done|lia]]); [|done|done].
      rewrite due_schedule, (proj2 (Z.leb_gt _ _)) by lia. lia. }
    destruct Hw as (Hd1 & Hr & Hreads).
    destruct (IH w1 ltac:(intros n Hn; apply HT; lia) ltac:(intros r k id Hn; apply Hput; lia) Hd1) as (w' & Hp & Hle). exists w'. split; [exact Hp|]. lia.
Qed.
(** The head of a queue is due at a time when an entry put in it was. *)
Definition head_by (t : Z) (l : list (string * Z)) : Prop := exists id t0 l', l = (id, t0) :: l' /\ t0 <= t.
Lemma head_insert x l : head_by x.2 (insert_after x l).
Proof.
  destruct x as [id t]. destruct l as [|[id' t'] l]; cbn; [by exists id, t, []|].
  destruct (t <? t') eqn:E; [by exists id, t, ((id', t') :: l)|]. to_prop. by exists id', t', (insert_after (id, t) l).
Qed.
Lemma head_keep t x l : head_by t l -> head_by t (insert_after x l).
Proof.
  destruct x as [id u]. intros (id' & t' & l' & -> & Ht). cbn. destruct (u <? t') eqn:E; to_prop.
  - exists id, u, ((id', t') :: l'). split; [done|lia].
  - by exists id', t', (insert_after (id, u) l').
Qed.
Lemma head_schedule id t l : head_by t (schedule_refresh id t l).
Proof. unfold schedule_refresh, sort_by_time. rewrite foldl_app. cbn. apply (head_insert (id, t)). Qed.
Lemma never_ends w :
  (forall n, clock n <= clock (S n)) -> (forall r k id, at_once r k id) -> head_by (clock w.(reads)) w.(queue) ->
  forall fuel, process_due_refreshes fuel w = None.
Proof.
  intros Hc Ha Hd fuel. revert w Hd. induction fuel as [|fuel IH]; intros w (id & t & l & Hq & Ht); [done|].
  cbn [process_due_refreshes]. unfold step, get_next_refresh. rewrite Hq, (proj2 (Z.leb_le t _)) by done.
  specialize (Ha w.(reads) w.(refreshes) id). unfold at_once in Ha. destruct (refresh_session w.(refreshes) id) as [[e|]|]; [|done|done].
  apply IH. cbn [queue reads]. match goal with |- head_by _ (schedule_refresh _ ?n _) => destruct (head_schedule id n l) as (i & u & l' & Hs & Hu) end.
  exists i, u, l'. split; [exact Hs|]. etrans; [exact Hu|]. etrans; [|apply Hc]. unfold NANOS in *. lia.
Qed.

(** C27. A poll whose readings of the clock (three for each session due by a time
    [T], and one) are at most [T] and whose refreshes put the next one after [T]
    ends after at most one refresh for each of those sessions.  It never ends,
    when a session is due, the clock does not go back and every refresh answers
    an expiry that is past or less than two seconds away, so that 80% of what
    remains is no second.  In between, refreshes that take longer than the time
    to the next one can keep a poll going too: [slow_refreshes]. *)
Theorem poll_ends_or_not w :
  (forall T, let m := due T w.(queue) in
     (forall n, (n <= w.(reads) + 3 * m)%nat -> clock n <= T) -> (forall r k id, (r <= w.(reads) + 3 * m)%nat -> puts_off T r k id) ->
     exists w', process_due_refreshes (S m) w = Some w' /\ (w'.(refreshes) <= w.(refreshes) + m)%nat)
  /\ ((forall n, clock n <= clock (S n)) -> (forall r k id, at_once r k id) -> head_by (clock w.(reads)) w.(queue) ->
      forall fuel, process_due_refreshes fuel w = None).
Proof. split; [intros T m HT Hput; by apply (poll_ends T)|apply never_ends]. Qed.
End Worker.
End Refresh.

(** ** Comparisons *)
Module ConstantTime.
(** The bytes compared, not the time it takes. *)
Definition compare (expected actual : string) : bool := expected =s actual.
Definition prefix_of (n : nat) (s : string) : string := String.substring 0 n s.
Definition compare_len_safe (expected actual : string) : bool :=
  let min_len := Nat.min (String.length expected) (String.length actual) in
  (prefix_of min_len expected =s prefix_of min_len actual) && (String.length expected =? String.length actual)%nat.
Fixpoint zeros (n : nat) : string := match n with O => EmptyString | S n => String (ascii_of_nat 0) (zeros n) end.
Definition padded (fixed_len : nat) (s : string) : string :=
  let copied := Nat.min (String.length s) fixed_len in (prefix_of copied s ++ zeros (fixed_len - copied))%string.
Definition compare_padded (expected actual : string) (fixed_len : nat) : bool := padded fixed_len expected =s padded fixed_len actual.
Definition compare_jwt_constant (expected actual : string) : bool := compare_padded expected actual 512.

Lemma prefix_all s : prefix_of (String.length s) s = s.
Proof. unfold prefix_of. induction s as [|c s IH]; [done|]. cbn. by rewrite IH. Qed.
Lemma len_safe_exact a b : compare_len_safe a b = (a =s b).
Proof.
  unfold compare_len_safe. destruct (Nat.eqb_spec (String.length a) (String.length b)) as [E|E].
  - rewrite <- E, Nat.min_id, prefix_all, E, prefix_all. by rewrite andb_true_r.
  - rewrite andb_false_r. symmetry. apply streqb_false. congruence.
Qed.
(** Two tokens that differ beyond the first 512 bytes only are taken to be the
    same. *)
Fixpoint repeat_char (n : nat) (s : string) : string := match n with O => s | S n => String "a" (repeat_char n s) end.
Example long_tokens_equal : compare_jwt_constant (repeat_char 512 "signature") (repeat_char 512 "forged") = true.
Proof. vm_compute. done. Qed.
End ConstantTime.

(** ** At concrete inputs *)
Module WorkerDemo.
(** Two sessions: a refresh takes two seconds and puts the next one a second later. *)
Example slow_refreshes :
  Refresh.process_due_refreshes (fun n => Z.of_nat (n / 3) * (2 * NANOS)) (fun k _ => Ok (Some (Z.of_nat k * (2 * NANOS) + 2 * NANOS))) 200
    (Refresh.mkWorld [("a"%string, 0); ("b"%string, 0)] 0 0) = None.
Proof. vm_compute. done. Qed.
Lemma poll_ends_or_not_witness :
  (exists w', Refresh.process_due_refreshes (fun _ => 5) (fun _ _ => Ok (Some (10 * NANOS))) 2 (Refresh.mkWorld [("s"%string, 5); ("t"%string, 6)] 0 0) = Some w')
  /\ forall fuel, Refresh.process_due_refreshes (fun _ => 0) (fun _ _ => Ok (Some (2 * NANOS - 1))) fuel (Refresh.mkWorld [("s"%string, 0)] 0 0) = None.
Proof.
  split.
  { destruct (proj1 (Refresh.poll_ends_or_not (fun _ => 5) (fun _ _ => Ok (Some (10 * NANOS))) (Refresh.mkWorld [("s"%string, 5); ("t"%string, 6)] 0 0)) 5)
      as (w' & Hw & _); [intros n _; lia|intros r k id _; vm_compute; reflexivity|]. by exists w'. }
  apply (proj2 (Refresh.poll_ends_or_not (fun _ => 0) (fun _ _ => Ok (Some (2 * NANOS - 1))) (Refresh.mkWorld [("s"%string, 0)] 0 0))).
  - intros n. lia.
  - intros r k id. vm_compute. discriminate.
  - exists "s"%string, 0, []. split; [reflexivity|vm_compute; discriminate].
Defined.
(** A refresh that fails takes the session off the queue for good. *)
Example failed_is_dropped :
  Refresh.process_due_refreshes (fun _ => 5) (fun _ _ => Err AuthError.TokenExpired) 2 (Refresh.mkWorld [("s"%string, 0)] 0 0)
  = Some (Refresh.mkWorld [] 1 1).
Proof. vm_compute. done. Qed.

(** A hash without collisions: the key with every character marked, a tilde and
    the text. *)
Fixpoint marked (s : string) : string := match s with EmptyString => EmptyString | String c s => String "x" (String c (marked s)) end.
Definition hash (key text : string) : string := (marked key ++ String "~" text)%string.
Definition entry (action hash : string) : json := JObject [("action", JString action); ("chain_hash", JString hash)]%string.
Definition print (v : json) : string := match v with JObject [(_, JString a)] => a | _ => EmptyString end.
Definition kept : list json :=
  [entry "login" (hash "seed" "login"); entry "drop" (hash (hash "seed" "login") "drop");
   entry "logout" (hash (hash (hash "seed" "login") "drop") "logout")].
Lemma chain_binds_witness :
  Chain.verify_chain hash (fun h => h) print kept "seed" = Ok 3
  /\ Chain.verify_chain hash (fun h => h) print (take 2 kept) "seed" = Ok 2
  /\ Chain.verify_chain hash (fun h => h) print [entry "login" (hash "seed" "login"); entry "logout" (hash (hash (hash "seed" "login") "drop") "logout")] "seed"
     <> Ok 2.
Proof.
  assert (H : Chain.verify_chain hash (fun h => h) print kept "seed" = Ok 3) by (vm_compute; reflexivity). split; [exact H|]. split.
  - apply (proj2 (Chain.chain_binds hash (fun h => h) print ltac:(auto) "seed" kept kept 3 3 0 _ _ H H eq_refl eq_refl eq_refl) 2%nat).
  - vm_compute. discriminate.
Defined.
End WorkerDemo.
