(* ===== verification/AuthFlow.v ===== *)
(** * Sessions

    [fraiseql-auth/src/]: the store of [state] parameters (state_store.rs), the
    sessions in PostgreSQL (session.rs, session_postgres.rs) and the handlers
    [auth_start], [auth_callback], [auth_refresh] and [auth_logout]
    (handlers.rs).  The provider is an interface; random draws, hashes,
    signatures and each reading of the clock (seconds since 1970, [None] when
    it cannot be read) are arguments. *)

From stdpp Require Import pretty.
From S2P Require Import Prelude Json AuthTokens AuthLimits Redis.
#[local] Open Scope Z_scope.
#[local] Open Scope list_scope.

(** [unwrap_or_default] of a reading. *)
Definition or_zero (clock : option Z) : Z := default 0 clock.

(** ** The store of states *)
(** [StateStore]: a state with its provider and its expiry. *)
Class StateStore (S : Type) : Type := {
  store_state : option Z -> string -> string -> Z -> S -> AResult unit * S;
  retrieve_state : option Z -> string -> S -> AResult (string * Z) * S
}.

(** *** In memory *)
Record InMemoryStateStore : Type := mkStates { states : gmap string (string * Z); max_states : Z }.
Definition MAX_STATES : Z := 10000.
Definition new_states : InMemoryStateStore := mkStates ∅ MAX_STATES.
Definition with_max_states (max : Z) : InMemoryStateStore := mkStates ∅ (Z.max max 1).
Definition cleanup_expired (clock : option Z) (s : InMemoryStateStore) : InMemoryStateStore :=
  mkStates (filter (fun kv => or_zero clock < kv.2.2) s.(states)) s.(max_states).
Definition over_capacity (s : InMemoryStateStore) : bool := s.(max_states) <=? Z.of_nat (size s.(states)).
Definition memory_store_state (clock : option Z) (state provider : string) (expiry_secs : Z) (s : InMemoryStateStore)
    : AResult unit * InMemoryStateStore :=
  let s := cleanup_expired clock s in
  if over_capacity s then (Err (AuthError.ConfigError "State store at capacity, cannot store new state"), s)
  else (Ok (), mkStates (<[state := (provider, expiry_secs)]> s.(states)) s.(max_states)).
Definition memory_retrieve (clock : option Z) (state : string) (s : InMemoryStateStore) : AResult (string * Z) * InMemoryStateStore :=
  match s.(states) !! state with
  | Some value => (Ok value, mkStates (delete state s.(states)) s.(max_states))
  | None => (Err AuthError.InvalidState, s)
  end.
#[export] Instance memory_states : StateStore InMemoryStateStore :=
  { store_state := memory_store_state; retrieve_state := memory_retrieve }.

(** *** In Redis *)
Definition state_key (state : string) : string := "oauth:state:" ++ state.
Section RedisStates.
Context {R : Type} `{Redis R}.
(** The server's own clock, which the readings are taken to agree with. *)
Definition config_error {A} (r : result string A) : AResult A :=
  match r with Ok a => Ok a | Err e => Err (AuthError.ConfigError e) end.
Definition redis_store_state (clock : option Z) (state provider : string) (expiry_secs : Z) (s : R) : AResult unit * R :=
  let ttl := Z.max 1 (u64_saturating_sub expiry_secs (or_zero clock)) in
  let '(r, s) := redis_set_ex (or_zero clock) (state_key state) provider ttl s in (config_error r, s).
(** [retrieve] is two commands: the value is read, then the key deleted. *)
Definition retrieve_read (clock : option Z) (state : string) (s : R) : AResult string * R :=
  let '(r, s) := redis_get (or_zero clock) (state_key state) s in
  (config_error r ≫= fun v => ok_or v AuthError.InvalidState, s).
Definition retrieve_delete (clock : option Z) (state provider : string) (s : R) : AResult (string * Z) * R :=
  let '(r, s) := redis_del (or_zero clock) [state_key state] s in
  ((fun _ => (provider, or_zero clock)) <$> config_error r, s).
Definition redis_retrieve (clock : option Z) (state : string) (s : R) : AResult (string * Z) * R :=
  match retrieve_read clock state s with
  | (Ok provider, s) => retrieve_delete clock state provider s
  | (Err e, s) => (Err e, s)
  end.
Definition redis_states : StateStore R := {| store_state := redis_store_state; retrieve_state := redis_retrieve |}.
End RedisStates.

(** ** Sessions *)
Record SessionData : Type := mkSession { session_user : string; issued_at : Z; expires_at : Z; refresh_token_hash : string }.
Definition session_expired (clock : option Z) (s : SessionData) : bool := s.(expires_at) <=? or_zero clock.
Record TokenPair : Type := mkPair { access_token : string; refresh_token : string; expires_in : Z }.
(** [SessionStore]: an operation at a time; a creation draws the refresh token
    and the identifier of the access token. *)
Class SessionStore (S : Type) : Type := {
  create_session : option Z -> string * string -> string -> Z -> S -> AResult TokenPair * S;
  get_session : string -> S -> AResult SessionData * S;
  revoke_session : string -> S -> AResult unit * S;
  revoke_all_sessions : string -> S -> AResult unit * S
}.

(** *** In PostgreSQL *)
(** A row of [_system.sessions]; whether [revoked_at] is set. *)
Record SessionRow : Type := mkRow { row_session : SessionData; revoked : bool }.
(** The table, and the number of statements it has been sent. *)
Record PostgresSessionStore : Type := mkPostgres { rows : list SessionRow; sent : nat }.

Section Postgres.
Context (faults : nat -> Fault) (hash_token : string -> string) (encode_jwt : bool -> Claims -> string -> result string string)
  (signing_key : option string).
(** The access token: signed with the key, or else with a secret made from the
    user's name. *)
Definition session_secret (user_id : string) : string := "fraiseql_session_" ++ user_id.
Definition generate_access_token (clock : option Z) (jti user_id : string) (expires_in : Z) : AResult string :=
  let now := or_zero clock in
  let claims := mkClaims user_id now (now + expires_in) "fraiseql" ["fraiseql-api"%string] (<["jti"%string := JString jti]> ∅) in
  match encode_jwt (match signing_key with Some _ => true | None => false end) claims (default (session_secret user_id) signing_key) with
  | Ok token => Ok token
  | Err e => Err (AuthError.Internal e)
  end.

(** One statement: the answer of [f] and the rows it leaves; [f] answers an
    error's text when the database refuses it. *)
Definition statement {A} (f : list SessionRow -> result string A * list SessionRow) (s : PostgresSessionStore)
    : result string A * PostgresSessionStore :=
  let '(r, after) := f s.(rows) in
  match faults s.(sent) with
  | Works => (r, mkPostgres after (Datatypes.S s.(sent)))
  | Refused m => (Err m, mkPostgres s.(rows) (Datatypes.S s.(sent)))
  | Lost m => (Err m, mkPostgres after (Datatypes.S s.(sent)))
  end.
Context (contains_duplicate_key : string -> bool) (unique_violation : string).
Definition row_hash (r : SessionRow) : string := r.(row_session).(refresh_token_hash).
(** [INSERT], with the unique constraint on the hash. *)
Definition insert_row (row : SessionData) (rs : list SessionRow) : result string unit * list SessionRow :=
  if existsb (fun r => row_hash r =s row.(refresh_token_hash)) rs then (Err unique_violation, rs) else (Ok (), rs ++ [mkRow row false]).
Definition live (hash : string) (r : SessionRow) : bool := (row_hash r =s hash) && negb r.(revoked).
Definition select_row (hash : string) (rs : list SessionRow) : result string (option SessionData) * list SessionRow :=
  (Ok (row_session <$> find (live hash) rs), rs).
(** [UPDATE ... SET revoked_at = NOW()] of the rows that [p] selects. *)
Definition revoke_rows (p : SessionRow -> bool) (rs : list SessionRow) : result string Z * list SessionRow :=
  (Ok (countb p rs), map (fun r => if p r then mkRow r.(row_session) true else r) rs).

Definition pg_create (clock : option Z) (draws : string * string) (user_id : string) (expires_at : Z) (s : PostgresSessionStore)
    : AResult TokenPair * PostgresSessionStore :=
  let '(refresh_token, jti) := draws in
  let now := or_zero clock in
  let row := mkSession user_id (cast_signed now) (cast_signed expires_at) (hash_token refresh_token) in
  let '(r, s) := statement (insert_row row) s in
  (match r with
   | Err e =>
       Err (if contains_duplicate_key e then AuthError.SessionError "Refresh token already exists"
            else AuthError.DatabaseError ("Failed to create session: " ++ e))
   | Ok _ =>
       let expires_in := u64_saturating_sub expires_at now in
       (fun token => mkPair token refresh_token expires_in) <$> generate_access_token clock jti user_id expires_in
   end, s).
Definition pg_get (hash : string) (s : PostgresSessionStore) : AResult SessionData * PostgresSessionStore :=
  let '(r, s) := statement (select_row hash) s in
  (match r with
   | Err e => Err (AuthError.DatabaseError ("Failed to get session: " ++ e))
   | Ok None => Err AuthError.TokenNotFound
   | Ok (Some d) => Ok (mkSession d.(session_user) (cast_unsigned d.(issued_at)) (cast_unsigned d.(expires_at)) d.(refresh_token_hash))
   end, s).
Definition pg_revoke (hash : string) (s : PostgresSessionStore) : AResult unit * PostgresSessionStore :=
  let '(r, s) := statement (revoke_rows (live hash)) s in
  (match r with
   | Err e => Err (AuthError.DatabaseError ("Failed to revoke session: " ++ e))
   | Ok n => if n =? 0 then Err (AuthError.SessionError "Session not found or already revoked") else Ok ()
   end, s).
Definition pg_revoke_all (user_id : string) (s : PostgresSessionStore) : AResult unit * PostgresSessionStore :=
  let '(r, s) := statement (revoke_rows (fun r => (r.(row_session).(session_user) =s user_id) && negb r.(revoked))) s in
  (match r with
   | Err e => Err (AuthError.DatabaseError ("Failed to revoke all sessions: " ++ e))
   | Ok _ => Ok ()
   end, s).
Definition postgres_sessions : SessionStore PostgresSessionStore :=
  {| create_session := pg_create; get_session := pg_get; revoke_session := pg_revoke; revoke_all_sessions := pg_revoke_all |}.
End Postgres.

(** ** The provider *)
Record UserInfo : Type := mkInfo { id : string; email : string; name : option string; picture : option string; raw_claims : json }.
Record TokenResponse : Type := mkResponse {
  provider_token : string;
  provider_refresh : option string;
  provider_expires : Z;
  provider_token_type : string
}.
Record OAuthProvider : Type := mkProvider {
  authorization_url : string -> string;
  exchange_code : string -> AResult TokenResponse;
  user_info : string -> AResult UserInfo
}.

(** ** The handlers *)
Record AuthCallbackQuery : Type := mkQuery { code : string; state : string; error : option string; error_description : option string }.
Record AuthCallbackResponse : Type := mkCallback {
  cb_access_token : string;
  cb_refresh_token : option string;
  cb_token_type : string;
  cb_expires_in : Z
}.
Record AuthRefreshResponse : Type := mkRefresh { rf_access_token : string; rf_token_type : string; rf_expires_in : Z }.

(** The readings of the clock a request makes: by the limiter, by the handler
    and by the store. *)
Record Clocks : Type := mkClocks { limiter_clock : option Z; handler_clock : option Z; store_clock : option Z }.
(** What a request leaves besides its answer: codes exchanged with the
    provider and entries of the audit log. *)
Record Trace : Type := mkTrace { exchanged : list string; audit : list AuditEntry }.
Definition silent : Trace := mkTrace [] [].
Definition clock_error : AuthError.t := AuthError.SystemTimeError "Failed to get current system time".
Definition SESSION_SECS : Z := 7 * 24 * 60 * 60.

Section Handlers.
Context {S T : Type} `{StateStore S} {SS : SessionStore T} (iter : records_map -> list (string * RequestRecord))
  (provider : OAuthProvider) (hash_token : string -> string).
(** [AuthState]. *)
Record AuthState : Type := mkState { oauth_states : S; sessions : T; limiters : RateLimiters }.
Definition with_states (s : S) (a : AuthState) : AuthState := mkState s a.(sessions) a.(limiters).
Definition with_sessions (t : T) (a : AuthState) : AuthState := mkState a.(oauth_states) t a.(limiters).
Definition with_limiters (f : RateLimiters -> RateLimiters) (a : AuthState) : AuthState := mkState a.(oauth_states) a.(sessions) (f a.(limiters)).
Definition set_start (l : KeyedRateLimiter) (r : RateLimiters) := mkLimiters l r.(auth_callback) r.(auth_refresh) r.(auth_logout) r.(failed_logins).
Definition set_callback (l : KeyedRateLimiter) (r : RateLimiters) := mkLimiters r.(auth_start) l r.(auth_refresh) r.(auth_logout) r.(failed_logins).
Definition set_refresh (l : KeyedRateLimiter) (r : RateLimiters) := mkLimiters r.(auth_start) r.(auth_callback) l r.(auth_logout) r.(failed_logins).
Definition set_logout (l : KeyedRateLimiter) (r : RateLimiters) := mkLimiters r.(auth_start) r.(auth_callback) r.(auth_refresh) l r.(failed_logins).
Definition limited (l : KeyedRateLimiter) : AuthError.t := AuthError.RateLimited l.(config).(window_secs).

Definition start_handler (c : Clocks) (client_ip state_value : string) (provider_name : option string) (a : AuthState)
    : AResult string * Trace * AuthState :=
  let '(ok, l) := check iter (system_clock c.(limiter_clock)) client_ip a.(limiters).(auth_start) in
  let a := with_limiters (set_start l) a in
  match ok, c.(handler_clock) with
  | Err _, _ => (Err (limited l), silent, a)
  | Ok _, None => (Err clock_error, silent, a)
  | Ok _, Some now =>
      let '(r, s) := store_state c.(store_clock) state_value (default "default"%string provider_name) (now + 600) a.(oauth_states) in
      ((fun _ => provider.(authorization_url) state_value) <$> r, silent, with_states s a)
  end.

Definition callback_handler (c : Clocks) (draws : string * string) (client_ip : string) (q : AuthCallbackQuery) (a : AuthState)
    : AResult AuthCallbackResponse * Trace * AuthState :=
  let '(ok, l) := check iter (system_clock c.(limiter_clock)) client_ip a.(limiters).(auth_callback) in
  let a := with_limiters (set_callback l) a in
  match ok, q.(error) with
  | Err _, _ => (Err (limited l), silent, a)
  | Ok _, Some error =>
      (Err (AuthError.OAuthError (error ++ ": " ++ default EmptyString q.(error_description))),
       mkTrace [] [log_failure OauthCallback AuthorizationCode None "exchange" error], a)
  | Ok _, None =>
      let '(r, s) := retrieve_state c.(store_clock) q.(state) a.(oauth_states) in
      let a := with_states s a in
      match r, c.(handler_clock) with
      | Err e, _ => (Err e, silent, a)
      | Ok _, None => (Err clock_error, silent, a)
      | Ok (_, expiry), Some now =>
          if expiry <? now
          then (Err AuthError.InvalidState, mkTrace [] [log_failure CsrfStateValidated StateToken None "validate" "State token expired"], a)
          else
            let log := [log_success CsrfStateValidated StateToken None "validate"] in
            match provider.(exchange_code) q.(code) with
            | Err e => (Err e, mkTrace [q.(code)] log, a)
            | Ok tokens =>
                let log := log ++ [log_success OauthCallback AuthorizationCode None "exchange"] in
                match provider.(user_info) tokens.(provider_token) with
                | Err e => (Err e, mkTrace [q.(code)] log, a)
                | Ok user =>
                    let '(r, t) := create_session c.(store_clock) draws user.(id) (now + SESSION_SECS) a.(sessions) in
                    let a := with_sessions t a in
                    match r with
                    | Err e => (Err e, mkTrace [q.(code)] log, a)
                    | Ok tp =>
                        (Ok (mkCallback tp.(access_token) (Some tp.(refresh_token)) "Bearer" tp.(expires_in)),
                         mkTrace [q.(code)] (log ++ [log_success SessionTokenCreated SessionToken (Some user.(id)) "create";
                                                     log_success AuthSuccess SessionToken (Some user.(id)) "oauth_flow"]), a)
                    end
                end
            end
      end
  end.

Definition refresh_handler (c : Clocks) (refresh_token : string) (a : AuthState) : AResult AuthRefreshResponse * Trace * AuthState :=
  let '(r, t) := get_session (hash_token refresh_token) a.(sessions) in
  let a := with_sessions t a in
  match r with
  | Err e => (Err e, silent, a)
  | Ok session =>
      if session_expired c.(store_clock) session
      then (Err AuthError.TokenExpired,
            mkTrace [] [log_failure JwtRefresh RefreshToken (Some session.(session_user)) "refresh" "Session expired"], a)
      else
        let '(ok, l) := check iter (system_clock c.(limiter_clock)) session.(session_user) a.(limiters).(auth_refresh) in
        let a := with_limiters (set_refresh l) a in
        match ok with
        | Err _ => (Err (limited l), silent, a)
        | Ok _ =>
            (Err (AuthError.Internal "JWT signing not yet implemented — configure an OIDC provider for token issuance"),
             mkTrace [] [log_success SessionTokenValidation RefreshToken (Some session.(session_user)) "validate"], a)
        end
  end.

Definition logout_handler (c : Clocks) (client_ip : string) (refresh_token : option string) (a : AuthState) : AResult Z * Trace * AuthState :=
  match refresh_token with
  | Some refresh_token =>
      let hash := hash_token refresh_token in
      let '(r, t) := get_session hash a.(sessions) in
      let a := with_sessions t a in
      match r with
      | Err e => (Err e, silent, a)
      | Ok session =>
          let '(ok, l) := check iter (system_clock c.(limiter_clock)) session.(session_user) a.(limiters).(auth_logout) in
          let a := with_limiters (set_logout l) a in
          match ok with
          | Err _ => (Err (limited l), silent, a)
          | Ok _ =>
              let '(r, t) := revoke_session hash a.(sessions) in
              match r with
              | Err e => (Err e, silent, with_sessions t a)
              | Ok _ => (Ok 204, mkTrace [] [log_success SessionTokenRevoked RefreshToken (Some session.(session_user)) "revoke"], with_sessions t a)
              end
          end
      end
  | None =>
      let '(ok, l) := check iter (system_clock c.(limiter_clock)) client_ip a.(limiters).(auth_logout) in
      let a := with_limiters (set_logout l) a in
      match ok with Err _ => (Err (limited l), silent, a) | Ok _ => (Ok 204, silent, a) end
  end.

(** *** Requests one after the other *)
Inductive Request : Type :=
| StartReq (c : Clocks) (client_ip state_value : string) (provider_name : option string)
| CallbackReq (c : Clocks) (draws : string * string) (client_ip : string) (q : AuthCallbackQuery)
| RefreshReq (c : Clocks) (refresh_token : string)
| LogoutReq (c : Clocks) (client_ip : string) (refresh_token : option string).
(** Whether the request was answered without an error, and its trace. *)
Definition handle (r : Request) (a : AuthState) : bool * Trace * AuthState :=
  match r with
  | StartReq c ip v p => let '(r, t, a) := start_handler c ip v p a in (is_ok r, t, a)
  | CallbackReq c d ip q => let '(r, t, a) := callback_handler c d ip q a in (is_ok r, t, a)
  | RefreshReq c token => let '(r, t, a) := refresh_handler c token a in (is_ok r, t, a)
  | LogoutReq c ip token => let '(r, t, a) := logout_handler c ip token a in (is_ok r, t, a)
  end.
Fixpoint run (rs : list Request) (a : AuthState) : list (Request * bool * Trace) * AuthState :=
  match rs with
  | [] => ([], a)
  | r :: rs => let '(ok, t, a) := handle r a in let '(log, a) := run rs a in ((r, ok, t) :: log, a)
  end.
End Handlers.

(** * What a session needs

    Over the handlers of [AuthFlow], with states in memory and whatever
    sessions, provider and limiters: a code is exchanged only for a state that
    was handed out, once, and in time. *)

Section Facts.
Context {T : Type} {SS : SessionStore T} (iter : records_map -> list (string * RequestRecord))
  (provider : OAuthProvider) (hash_token : string -> string).
Abbreviation State := (AuthState (S := InMemoryStateStore) (T := T)).
Abbreviation handle := (handle (H := memory_states) iter provider hash_token).
Abbreviation run := (run (H := memory_states) iter provider hash_token).
Abbreviation log := (list (Request * bool * Trace)).

(** A start that was answered with the state; a callback with the state that
    made an exchange. *)
Definition started (v : string) (e : Request * bool * Trace) : bool :=
  match e with (StartReq _ _ v' _, ok, _) => ok && (v' =s v) | _ => false end.
Definition exchanges (v : string) (e : Request * bool * Trace) : bool :=
  match e with (CallbackReq _ _ _ q, _, t) => (q.(state) =s v) && negb (bool_decide (t.(exchanged) = [])) | _ => false end.
(** The time at which a start handed out the state. *)
Definition starts_at (v : string) (e : Request * bool * Trace) (now : Z) : Prop :=
  match e with (StartReq c _ v' _, ok, _) => ok = true /\ v' = v /\ c.(handler_clock) = Some now | _ => False end.

Abbreviation table := (gmap string (string * Z)).
Definition states_of (a : State) : table := a.(oauth_states).(states).
Definition within (m m' : table) : Prop := forall v e, m' !! v = Some e -> m !! v = Some e.

(** What each request does to the states. *)
Definition effect (r : Request) (ok : bool) (t : Trace) (m m' : table) : Prop :=
  match r with
  | StartReq c _ v p =>
      t.(exchanged) = [] /\
      (if ok then exists now m0, c.(handler_clock) = Some now /\ within m m0 /\ m' = <[v := (default "default"%string p, now + 600)]> m0
       else within m m')
  | CallbackReq c _ _ q =>
      (t.(exchanged) = [] /\ ok = false /\ within m m')
      \/ exists p e now, m !! q.(state) = Some (p, e) /\ c.(handler_clock) = Some now /\ now <= e /\ m' = delete q.(state) m
  | _ => t.(exchanged) = [] /\ within m m'
  end.
Lemma within_refl m : within m m.
Proof. by intros v e. Qed.
Lemma within_filter c (s : InMemoryStateStore) : within s.(states) (cleanup_expired c s).(states).
Proof. intros v e [H _]%map_lookup_filter_Some. done. Qed.
Lemma within_delete k m : within m (delete k m).
Proof. intros v e [_ H]%lookup_delete_Some. done. Qed.
#[local] Hint Resolve within_refl within_filter within_delete : core.

Lemma start_effect c ip v p (a : State) :
  let '(r, t, a') := start_handler iter provider c ip v p a in effect (StartReq c ip v p) (is_ok r) t (states_of a) (states_of a').
Proof.
  unfold start_handler. destruct (check iter _ ip _) as [ok l]. destruct ok as [[]|]; [|cbn; eauto].
  destruct (handler_clock c) as [now|] eqn:Ec; [|cbn; eauto]. cbn [store_state memory_states]. unfold memory_store_state. cbn.
  destruct (over_capacity _); cbn.
  { split; [done|]. apply (within_filter _ a.(oauth_states)). }
  split; [done|]. exists now. eexists. split_and!; [done| |done]. apply (within_filter _ a.(oauth_states)).
Qed.
Lemma callback_effect c d ip q (a : State) :
  let '(r, t, a') := callback_handler iter provider c d ip q a in effect (CallbackReq c d ip q) (is_ok r) t (states_of a) (states_of a').
Proof.
  unfold callback_handler. destruct (check iter _ ip _) as [ok l]. destruct ok as [[]|]; [|cbn; eauto].
  destruct (error q) as [e|]; [cbn; eauto|]. cbn [retrieve_state memory_states]. unfold memory_retrieve, states_of. cbn [with_limiters oauth_states].
  destruct (a.(oauth_states).(states) !! q.(state)) as [[p e]|] eqn:E; [|cbn; eauto].
  destruct (handler_clock c) as [now|] eqn:Ec; [|cbn; eauto]. destruct (e <? now) eqn:En; [cbn; eauto|]. to_prop.
  assert (H : forall r t m', m' = delete q.(state) a.(oauth_states).(states) ->
     effect (CallbackReq c d ip q) r t a.(oauth_states).(states) m') by (intros r t m' ->; right; exists p, e, now; done).
  destruct (exchange_code provider _) as [tk|]; [|by apply H]. destruct (user_info provider _) as [u|]; [|by apply H].
  destruct (create_session _ _ _ _ _) as [[]?]; by apply H.
Qed.
Lemma handle_effect r (a : State) : let '(ok, t, a') := handle r a in effect r ok t (states_of a) (states_of a').
Proof.
  destruct r as [c ip v p|c d ip q|c tk|c ip tk]; unfold AuthFlow.handle.
  - pose proof (start_effect c ip v p a). by destruct (start_handler _ _ _ _ _ _ _) as [[r t] a'].
  - pose proof (callback_effect c d ip q a). by destruct (callback_handler _ _ _ _ _ _ _) as [[r t] a'].
  - unfold refresh_handler. destruct (get_session _ _) as [[s|e] t]; [|cbn; eauto]. destruct (session_expired _ s); [cbn; eauto|].
    destruct (check _ _ _ _) as [[] l]; cbn; eauto.
  - unfold logout_handler. destruct tk as [tk|].
    + destruct (get_session _ _) as [[s|e] t]; [|cbn; eauto]. destruct (check _ _ _ _) as [[] l]; [|cbn; eauto].
      destruct (revoke_session _ _) as [[] t']; cbn; eauto.
    + destruct (check _ _ _ _) as [[] l]; cbn; eauto.
Qed.

(** The states in the store against the log so far. *)
Definition b2z_in (v : string) (m : table) : Z := match m !! v with Some _ => 1 | None => 0 end.
Record accounts (m : table) (past : log) : Prop := mkAccounts {
  acc_count : forall v, b2z_in v m + countb (exchanges v) past <= countb (started v) past;
  acc_time : forall v p e, m !! v = Some (p, e) -> exists s now, s ∈ past /\ starts_at v s now /\ e = now + 600
}.
Lemma b2z_within v m m' : within m m' -> b2z_in v m' <= b2z_in v m.
Proof. intros H. unfold b2z_in. destruct (m' !! v) as [e|] eqn:E; [by rewrite (H _ _ E)|]. destruct (m !! v); lia. Qed.
Lemma accounts_within m m' past e :
  accounts m past -> within m m' -> (forall v, exchanges v e = false) -> accounts m' (past ++ [e]).
Proof.
  intros [Hc Ht] Hw He. split.
  - intros v. rewrite !countb_app. cbn [countb]. rewrite He. specialize (Hc v). pose proof (b2z_within v _ _ Hw). cbn.
    destruct (started v e); cbn; lia.
  - intros v p x Hx. destruct (Ht v p x (Hw _ _ Hx)) as (s & now & ? & ?). exists s, now. split; [set_solver|done].
Qed.
Lemma accounts_step m m' past r ok t :
  accounts m past -> effect r ok t m m' ->
  accounts m' (past ++ [(r, ok, t)])
  /\ forall v, exchanges v (r, ok, t) = true ->
       exists c d ip q now s start, r = CallbackReq c d ip q /\ q.(state) = v /\ c.(handler_clock) = Some now
         /\ s ∈ past /\ starts_at v s start /\ now <= start + 600.
Proof.
  intros Hacc He. assert (Hno : forall m', within m m' -> t.(exchanged) = [] -> accounts m' (past ++ [(r, ok, t)]) /\ forall v, exchanges v (r, ok, t) = false).
  { intros m1 Hw Hx. assert (Hf : forall v, exchanges v (r, ok, t) = false).
    { intros v. unfold exchanges. destruct r; try done. rewrite Hx, bool_decide_true by done. by rewrite andb_false_r. }
    split; [by apply (accounts_within m)|done]. }
  assert (Hstay : within m m' -> t.(exchanged) = [] -> accounts m' (past ++ [(r, ok, t)]) /\ forall v, exchanges v (r, ok, t) = true ->
       exists c d ip q now s start, r = CallbackReq c d ip q /\ q.(state) = v /\ c.(handler_clock) = Some now
         /\ s ∈ past /\ starts_at v s start /\ now <= start + 600).
  { intros Hw Hx. destruct (Hno m' Hw Hx) as [Ha Hf]. split; [done|]. intros v Hv. by rewrite Hf in Hv. }
  destruct r as [c ip v p|c d ip q|c tk|c ip tk]; cbn [effect] in He.
  - destruct He as [Hx He]. destruct ok; [|by apply Hstay]. destruct He as (now & m0 & Hc & Hw & ->).
    split; [|by intros u]. destruct Hacc as [Hcount Htime]. split.
    + intros u. rewrite !countb_app. cbn. specialize (Hcount u). pose proof (b2z_within u _ _ Hw). unfold b2z_in in *.
      destruct (v =s u) eqn:E; [apply String.eqb_eq in E as ->|apply String.eqb_neq in E].
      * rewrite lookup_insert_eq. cbn. destruct (m !! u); lia.
      * rewrite lookup_insert_ne by done. cbn. destruct (m0 !! u); lia.
    + intros u p' x. destruct (decide (v = u)) as [->|Hn].
      * rewrite lookup_insert_eq. intros [= <- <-]. exists (StartReq c ip u p, true, t), now. split; [set_solver|done].
      * rewrite lookup_insert_ne by done. intros Hl%Hw. destruct (Htime _ _ _ Hl) as (s & n & ? & ?). exists s, n. split; [set_solver|done].
  - destruct He as [(Hx & -> & Hw)|(p & e & now & Hl & Hc & Hle & ->)]; [by apply Hstay|].
    destruct (Hacc.(acc_time _ _) _ _ _ Hl) as (s & start & Hs & Hat & ->). split.
    + destruct Hacc as [Hcount Htime]. split.
      * intros u. rewrite !countb_app. cbn. specialize (Hcount u). unfold b2z_in in *. destruct (q.(state) =s u) eqn:E; [apply String.eqb_eq in E as <-|apply String.eqb_neq in E].
        -- rewrite lookup_delete_eq. rewrite Hl in Hcount. destruct (negb _); cbn; lia.
        -- rewrite lookup_delete_ne by done. cbn. lia.
      * intros u p' x Hx%within_delete. destruct (Htime _ _ _ Hx) as (s' & n & ? & ?). exists s', n. split; [set_solver|done].
    + intros v [Hv _]%andb_true_iff. apply String.eqb_eq in Hv. exists c, d, ip, q, now, s, start. by subst v.
  - destruct He. by apply Hstay.
  - destruct He. by apply Hstay.
Qed.

(** A session is made after an exchange only, and refreshing answers none. *)
Definition sound (e : Request * bool * Trace) : Prop :=
  match e with
  | (CallbackReq _ _ _ _, true, t) => t.(exchanged) <> []
  | (RefreshReq _ _, ok, _) => ok = false
  | _ => True
  end.
Lemma handle_sound r (a : State) : let '(ok, t, a') := handle r a in sound (r, ok, t).
Proof.
  destruct r as [c ip v p|c d ip q|c tk|c ip tk]; unfold AuthFlow.handle.
  - by destruct (start_handler _ _ _ _ _ _ _) as [[r t] a'].
  - unfold callback_handler. destruct (check iter _ ip _) as [[[]|] l]; [|done]. destruct (error q); [done|].
    destruct (retrieve_state _ _ _) as [[[p e]|] m]; [|done]. destruct (handler_clock c) as [now|]; [|done].
    destruct (e <? now); [done|]. destruct (exchange_code provider _) as [tk|]; [|done]. destruct (user_info provider _) as [u|]; [|done].
    by destruct (create_session _ _ _ _ _) as [[]?].
  - unfold refresh_handler. destruct (get_session _ _) as [[s|e] t]; [|done]. destruct (session_expired _ s); [done|].
    by destruct (check _ _ _ _) as [[] l].
  - by destruct (logout_handler _ _ _ _ _ _) as [[r t] a'].
Qed.
Lemma run_accounts rs (a : State) past :
  accounts (states_of a) past ->
  let '(l, a') := run rs a in
  accounts (states_of a') (past ++ l)
  /\ (forall i r ok t v, l !! i = Some (r, ok, t) -> exchanges v (r, ok, t) = true ->
        exists c d ip q now s start, r = CallbackReq c d ip q /\ q.(state) = v /\ c.(handler_clock) = Some now
          /\ s ∈ past ++ take i l /\ starts_at v s start /\ now <= start + 600)
  /\ Forall sound l.
Proof.
  revert a past. induction rs as [|r rs IH]; intros a past Hacc; cbn [AuthFlow.run].
  { rewrite app_nil_r. split_and!; [done| |constructor]. intros i r ok t v Hi. done. }
  pose proof (handle_effect r a) as He. pose proof (handle_sound r a) as Hs. destruct (handle r a) as [[ok t] a1].
  destruct (accounts_step _ _ past r ok t Hacc He) as [Hacc1 Hnew]. specialize (IH a1 _ Hacc1).
  destruct (run rs a1) as [l a2]. destruct IH as (IH1 & IH2 & IH3). rewrite <- app_assoc in IH1. split_and!; [exact IH1| |by constructor].
  intros [|i] r' ok' t' v; cbn.
  - intros [= <- <- <-] Hv. rewrite app_nil_r. by apply Hnew.
  - intros Hi Hv. destruct (IH2 i r' ok' t' v Hi Hv) as (c & d & ip & q & now & s & start & H1 & H2 & H3 & H4 & H5).
    exists c, d, ip, q, now, s, start. split_and!; try done; [|tauto|tauto]. set_solver.
Qed.

(** C22. With the in-memory store of states, empty at first: whatever requests come
    in whatever order, to whatever provider and store of sessions, codes are exchanged for a state at most as often as the
    state was handed out, each time by a callback with this state that came
    after a start had handed it out and no later than ten minutes after; a
    session is made only after an exchange; and no session is ever refreshed.
    (With the Redis store two callbacks can both use a state: [AuthDemo.race].) *)
Theorem sessions_need_starts rs (a : State) :
  states_of a = ∅ ->
  let l := (run rs a).1 in
  (forall v, countb (exchanges v) l <= countb (started v) l)
  /\ (forall i r ok t v, l !! i = Some (r, ok, t) -> exchanges v (r, ok, t) = true ->
        exists c d ip q now s start, r = CallbackReq c d ip q /\ q.(state) = v /\ c.(handler_clock) = Some now
          /\ s ∈ take i l /\ starts_at v s start /\ now <= start + 600)
  /\ Forall sound l.
Proof.
  intros Hnew. assert (H0 : accounts (states_of a) []).
  { rewrite Hnew. split; [done|]. intros v p e. by rewrite lookup_empty. }
  pose proof (run_accounts rs a [] H0) as H. destruct (run rs a) as [l a']. cbn in *. destruct H as ([Hc _] & H2 & H3).
  split_and!; [|done|done]. intros v. specialize (Hc v). pose proof (b2z_within v (states_of a') ∅). unfold b2z_in in *.
  destruct (states_of a' !! v); lia.
Qed.
End Facts.

(** ** Sessions in PostgreSQL *)
Section Sessions.
Context (faults : nat -> Fault) (hash_token : string -> string) (encode_jwt : bool -> Claims -> string -> result string string)
  (signing_key : option string) (contains_duplicate_key : string -> bool) (unique_violation : string).
Inductive Operation : Type :=
| Create (clock : option Z) (draws : string * string) (user_id : string) (expires_at : Z)
| Get (hash : string)
| Revoke (hash : string)
| RevokeAll (user_id : string).
Definition perform (o : Operation) (s : PostgresSessionStore) : PostgresSessionStore :=
  match o with
  | Create clock draws u e => (pg_create faults hash_token encode_jwt signing_key contains_duplicate_key unique_violation clock draws u e s).2
  | Get h => (pg_get faults h s).2
  | Revoke h => (pg_revoke faults h s).2
  | RevokeAll u => (pg_revoke_all faults u s).2
  end.
(** The sessions of a hash are there, and all revoked. *)
Definition dead (hash : string) (rs : list SessionRow) : Prop :=
  existsb (fun r => row_hash r =s hash) rs = true /\ find (live hash) rs = None.
Lemma statement_keeps {A} (P : list SessionRow -> Prop) (f : list SessionRow -> result string A * list SessionRow) s :
  P s.(rows) -> (P s.(rows) -> P (f s.(rows)).2) -> P (statement faults f s).2.(rows).
Proof. intros Hs Hf. unfold statement. specialize (Hf Hs). destruct (f s.(rows)) as [r rs]. by destruct (faults s.(sent)). Qed.
Lemma find_none_iff {A} (f : A -> bool) l : find f l = None <-> forall x, x ∈ l -> f x = false.
Proof.
  split; [intros H x Hx; eapply find_none; [done|by apply list_elem_of_In]|]. intros H. destruct (find f l) as [x|] eqn:E; [|done].
  apply find_some in E as [Hx Hf]. rewrite H in Hf; [done|by apply list_elem_of_In].
Qed.
Lemma dead_insert hash row rs : dead hash rs -> dead hash (insert_row unique_violation row rs).2.
Proof.
  intros [He Hf]. unfold insert_row. destruct (existsb (fun r => row_hash r =s row.(refresh_token_hash)) rs) eqn:E; [done|]. split; cbn.
  - rewrite existsb_app, He. done.
  - apply find_none_iff. rewrite find_none_iff in Hf. intros x [Hx|Hx]%elem_of_app; [by apply Hf|]. apply list_elem_of_singleton in Hx as ->.
    unfold live, row_hash. cbn. destruct (refresh_token_hash row =s hash) eqn:Eh; [|done]. apply String.eqb_eq in Eh. subst hash. by rewrite E in He.
Qed.
Lemma dead_revoke hash p rs : dead hash rs -> dead hash (revoke_rows p rs).2.
Proof.
  intros [He Hf]. unfold revoke_rows. cbn. rewrite find_none_iff in Hf. split.
  - apply existsb_exists in He as (r & Hr & Hh). apply existsb_exists. exists (if p r then mkRow r.(row_session) true else r).
    split; [by apply (in_map (fun r => if p r then mkRow r.(row_session) true else r))|]. by destruct (p r).
  - apply find_none_iff. intros x (r & -> & Hr)%list_elem_of_fmap. destruct (p r); [|by apply Hf]. unfold live. apply andb_false_r.
Qed.
Lemma perform_dead hash o s : dead hash s.(rows) -> dead hash (perform o s).(rows).
Proof.
  intros Hd. destruct o as [clock [tk jti] u e|h|h|u]; cbn [perform].
  - unfold pg_create. pose proof (statement_keeps (dead hash)
      (insert_row unique_violation (mkSession u (cast_signed (or_zero clock)) (cast_signed e) (hash_token tk))) s Hd (dead_insert _ _ _)) as H.
    by destruct (statement _ _ s).
  - unfold pg_get. pose proof (statement_keeps (dead hash) (select_row h) s Hd) as H. by destruct (statement _ _ s); apply H.
  - unfold pg_revoke. pose proof (statement_keeps (dead hash) (revoke_rows (live h)) s Hd (dead_revoke _ _ _)) as H. by destruct (statement _ _ s).
  - unfold pg_revoke_all. pose proof (statement_keeps (dead hash) _ s Hd (dead_revoke _ (fun r => (r.(row_session).(session_user) =s u) && negb r.(revoked)) _)) as H.
    by destruct (statement _ _ s).
Qed.

(** A session that was revoked is gone for good: once its revocation has
    been answered, no later sequence of operations, whatever statements fail,
    makes the store answer a session for its token. *)
Theorem revoked_for_good hash s s' ops :
  pg_revoke faults hash s = (Ok (), s') ->
  forall d, (pg_get faults hash (foldl (fun s o => perform o s) s' ops)).1 <> Ok d.
Proof.
  intros Hr. assert (Hd : dead hash s'.(rows)).
  { unfold pg_revoke, statement, revoke_rows in Hr. destruct (faults s.(sent)); [|by injection Hr|by injection Hr].
    destruct (countb (live hash) s.(rows) =? 0) eqn:E; [done|]. injection Hr as <-. cbn. to_prop. split.
    - destruct (existsb _ _) eqn:Ex; [done|]. exfalso. apply E. clear E. revert Ex.
      induction s.(rows) as [|r l IH]; [done|]. cbn. intros [Hh Hl]%orb_false_iff. rewrite IH by done.
      destruct (live hash r) eqn:El; [|done]. apply andb_true_iff in El as [El _]. unfold row_hash in *. cbn in Hh. by rewrite El in Hh.
    - apply find_none_iff. intros x (r & -> & _)%list_elem_of_fmap. destruct (live hash r) eqn:El; [|done]. unfold live. apply andb_false_r. }
  intros d. assert (Hd' : dead hash (foldl (fun s o => perform o s) s' ops).(rows)).
  { clear Hr. revert s' Hd. induction ops as [|o ops IH]; intros s' Hd; [done|]. cbn. apply IH. by apply perform_dead. }
  destruct Hd' as [_ Hn]. unfold pg_get, statement, select_row. rewrite Hn. by destruct (faults _).
Qed.
End Sessions.

(** ** Requests, with a provider and a clock *)
Module AuthDemo.
Definition provider : OAuthProvider :=
  mkProvider (fun s => "https://idp/authorize?state=" ++ s)%string (fun code => Ok (mkResponse code None 3600 "Bearer"))
    (fun token => Ok (mkInfo "alice" "alice@example.com" None None JNull)).
Definition jwt (rsa : bool) (c : Claims) (secret : string) : result string string := Ok (c.(sub) ++ "." ++ secret)%string.
#[export] Instance sessions_in_pg : SessionStore PostgresSessionStore :=
  postgres_sessions (fun _ => Works) (fun t => "#" ++ t)%string jwt None (fun _ => true) "duplicate key".
Definition fresh_state : AuthState := mkState new_states (mkPostgres [] 0) default_limiters.
Definition at_time (t : Z) : Clocks := mkClocks (Some t) (Some t) (Some t).
Definition back (code : string) : AuthCallbackQuery := mkQuery code "s" None None.
Definition requests : list Request :=
  [StartReq (at_time 1000) "ip" "s" None; CallbackReq (at_time 1600) ("r1", "j1") "ip" (back "c1");
   CallbackReq (at_time 1600) ("r2", "j2") "ip" (back "c2"); RefreshReq (at_time 1601) "r1"]%string.
Abbreviation log := ((run map_to_list provider (fun t => "#" ++ t)%string requests fresh_state).1).
Lemma sessions_need_starts_witness :
  map (fun e => (e.1.2, e.2.(exchanged))) log = [(true, []); (true, ["c1"]); (false, []); (false, [])]%string
  /\ countb (exchanges "s") log <= countb (started "s") log.
Proof.
  split; [vm_compute; reflexivity|].
  exact (proj1 (sessions_need_starts map_to_list provider (fun t => "#" ++ t)%string requests fresh_state eq_refl) "s"%string).
Defined.

(** Without a key, the access token is signed with the user's name. *)
Example secret_is_name :
  let '(r, _) := pg_create (fun _ => Works) (fun t => t) jwt None (fun _ => true) "duplicate key" (Some 0) ("r", "j")%string "alice" 604800 (mkPostgres [] 0) in
  r = Ok (mkPair "alice.fraiseql_session_alice" "r" 604800).
Proof. vm_compute. done. Qed.

Definition dropped (n : nat) : Fault := if (n =? 3)%nat then Lost "closed" else Works.
Definition one_session : PostgresSessionStore := mkPostgres [mkRow (mkSession "alice" 0 100 "h") false] 0.
Lemma revoked_for_good_witness :
  (pg_get dropped "h" one_session).1 = Ok (mkSession "alice" 0 100 "h")
  /\ forall d, (pg_get dropped "h" (foldl (fun s o => perform dropped (fun t => t) jwt None (fun _ => true) "duplicate key" o s)
                                   (mkPostgres [mkRow (mkSession "alice" 0 100 "h") true] 1)
                                   [Create (Some 0) ("h", "j")%string "bob" 50; RevokeAll "bob"])).1 <> Ok d.
Proof.
  split; [vm_compute; reflexivity|].
  apply (revoked_for_good dropped (fun t => t) jwt None (fun _ => true) "duplicate key" "h" one_session). vm_compute. reflexivity.
Defined.

(** *** States in Redis *)
Import MapRedis.
Definition held : MapRedis.t := (redis_store_state (Some 1000) "s" "idp" 1600 ∅).2.
(** Two callbacks that read the state before either deletes it both have it. *)
Example race :
  let '(r1, s) := retrieve_read (Some 1001) "s" held in
  let '(r2, s) := retrieve_read (Some 1001) "s" s in
  let '(d1, s) := retrieve_delete (Some 1001) "s" "idp" s in
  let '(d2, _) := retrieve_delete (Some 1001) "s" "idp" s in
  (r1, r2, d1, d2) = (Ok "idp", Ok "idp", Ok ("idp", 1001), Ok ("idp", 1001))%string.
Proof. vm_compute. done. Qed.
(** The expiry answered is the time of the answer: when the handler reads the
    clock a second later, the state has expired. *)
Example expires_on_the_way :
  let '(r, _) := redis_retrieve (Some 1001) "s" held in
  match r with Ok (_, expiry) => expiry <? 1002 | Err _ => false end = true.
Proof. vm_compute. done. Qed.
End AuthDemo.
