(* ===== verification/ObserverActions.v ===== *)
(** * The actions of observers

    [fraiseql-observers/src/]: what an action does with its configuration and an
    event.  [Dispatch], [Outbound] and [Ssrf] are the three checks of a URL
    (executor/dispatch.rs, actions.rs and ssrf.rs), [Actions] has the actions
    of actions.rs and actions_additional.rs and [dispatch] of
    executor/dispatch.rs.  The [url] package, the resolver of names, the HTTP
    client, which follows redirects by itself, new UUIDs, the clock and the
    environment are arguments.  Which addresses should not be reached is stated
    apart from the code's tests ([reserved]). *)

From Stdlib Require Import Ascii.
From stdpp Require Import pretty.
From S2P Require Import Prelude ObserverError Json ObserverConfig Chars.
#[local] Open Scope Z_scope.

(** ** Addresses: [std::net] *)
Module Net.
Inductive IpAddr : Type := V4 (octets : list Z) | V6 (segments : list Z).

(** The parser of [Ipv4Addr] and [Ipv6Addr]: what is read and what is left. *)
Definition Reader A : Type := list ascii -> option (A * list ascii).
Definition hex_digit (c : ascii) : option Z :=
  let n := byte c in
  if (48 <=? n) && (n <=? 57) then Some (n - 48)
  else if (97 <=? n) && (n <=? 102) then Some (n - 87)
  else if (65 <=? n) && (n <=? 70) then Some (n - 55) else None.
Definition dec_digit (c : ascii) : option Z := if (48 <=? byte c) && (byte c <=? 57) then Some (byte c - 48) else None.
Fixpoint read_digits (digit : ascii -> option Z) (radix acc : Z) (count : nat) (s : list ascii) : Z * nat * list ascii :=
  match s with
  | c :: s' => match digit c with Some d => read_digits digit radix (acc * radix + d) (S count) s' | None => (acc, count, s) end
  | [] => (acc, count, s)
  end.
(** [read_number]: at most [max_digits] digits below [bound]. *)
Definition read_number (digit : ascii -> option Z) (radix bound : Z) (max_digits : nat) (allow_zero_prefix : bool) : Reader Z := fun s =>
  let '(n, count, rest) := read_digits digit radix 0 0 s in
  if (count =? 0)%nat || (max_digits <? count)%nat || (bound <=? n) then None
  else if negb allow_zero_prefix && (1 <? count)%nat && match s with c :: _ => Ascii.eqb c "0" | [] => false end then None
  else Some (n, rest).
Definition given (c : ascii) : Reader unit := fun s => match s with d :: s => if Ascii.eqb d c then Some ((), s) else None | [] => None end.
Definition read_ipv4 : Reader (list Z) := fun s =>
  let octet := read_number dec_digit 10 256 3 false in
  '(a, s) ← octet s; '(_, s) ← given "." s; '(b, s) ← octet s; '(_, s) ← given "." s;
  '(c, s) ← octet s; '(_, s) ← given "." s; '(d, s) ← octet s; Some ([a; b; c; d], s).
(** [read_groups]: the groups read, at most [limit], and whether the last two
    were an IPv4 address.  [i] groups have been read. *)
Fixpoint read_groups (limit i : nat) (s : list ascii) : list Z * bool * list ascii :=
  match limit with
  | O => ([], false, s)
  | S limit' =>
      let after := if (i =? 0)%nat then Some s else snd <$> given ":" s in
      let four := if (2 <=? limit)%nat then after ≫= read_ipv4 else None in
      match four with
      | Some ([a; b; c; d], s) => ([a * 256 + b; c * 256 + d], true, s)
      | _ =>
          match after ≫= read_number hex_digit 16 65536 4 true with
          | Some (g, s) => let '(gs, v4, s) := read_groups limit' (S i) s in (g :: gs, v4, s)
          | None => ([], false, s)
          end
      end
  end.
Definition read_ipv6 : Reader (list Z) := fun s =>
  let '(head, head_ipv4, s) := read_groups 8 0 s in
  if (length head =? 8)%nat then Some (head, s)
  else if head_ipv4 then None
  else '(_, s) ← given ":" s; '(_, s) ← given ":" s;
       let '(tail, _, s) := read_groups (7 - length head) 0 s in
       Some (head ++ repeat 0 (8 - length head - length tail) ++ tail, s).
Definition whole {A} (r : Reader A) (s : string) : option A :=
  match r (String.list_ascii_of_string s) with Some (a, []) => Some a | _ => None end.
Definition parse_ipv4 (s : string) : option (list Z) := if (15 <? String.length s)%nat then None else whole read_ipv4 s.
Definition parse_ipv6 : string -> option (list Z) := whole read_ipv6.
Definition parse_ip (s : string) : option IpAddr :=
  match whole read_ipv4 s with Some o => Some (V4 o) | None => V6 <$> whole read_ipv6 s end.

Example v4 : map parse_ip ["127.0.0.1"; "127.0.0.01"; "256.0.0.1"; "1.2.3"; "x@127.0.0.1"]%string
  = [Some (V4 [127; 0; 0; 1]); None; None; None; None].
Proof. reflexivity. Qed.
Example v6 : map parse_ip ["::1"; "fe80::1:2"; "::ffff:10.0.0.1"; "1:2:3:4:5:6:7:8"; "1::2::3"; "::"]%string
  = [Some (V6 [0; 0; 0; 0; 0; 0; 0; 1]); Some (V6 [65152; 0; 0; 0; 0; 0; 1; 2]); Some (V6 [0; 0; 0; 0; 0; 65535; 2560; 1]);
     Some (V6 [1; 2; 3; 4; 5; 6; 7; 8]); None; Some (V6 [0; 0; 0; 0; 0; 0; 0; 0])].
Proof. reflexivity. Qed.
Example v6_ends : map parse_ip ["1:2:3:4:5:6:7::"; "1:2:3:4:5:6:1.2.3.4"; "::1.2.3.4"; "1.2.3.4::"; ":1"; "12345::"]%string
  = [Some (V6 [1; 2; 3; 4; 5; 6; 7; 0]); Some (V6 [1; 2; 3; 4; 5; 6; 258; 772]); Some (V6 [0; 0; 0; 0; 0; 0; 258; 772]); None; None; None].
Proof. reflexivity. Qed.

Definition octet (o : list Z) (i : nat) : Z := nth i o 0.
Definition is_loopback_v4 (o : list Z) : bool := octet o 0 =? 127.
Definition is_private_v4 (o : list Z) : bool :=
  (octet o 0 =? 10) || ((octet o 0 =? 172) && (16 <=? octet o 1) && (octet o 1 <=? 31)) || ((octet o 0 =? 192) && (octet o 1 =? 168)).
Definition is_link_local_v4 (o : list Z) : bool := (octet o 0 =? 169) && (octet o 1 =? 254).
Definition is_loopback_v6 (s : list Z) : bool := bool_decide (s = [0; 0; 0; 0; 0; 0; 0; 1]).
Definition is_unspecified_v6 (s : list Z) : bool := bool_decide (s = [0; 0; 0; 0; 0; 0; 0; 0]).
Definition is_ula_v6 (s : list Z) : bool := Z.land (octet s 0) 65024 =? 64512.
Definition is_link_local_v6 (s : list Z) : bool := Z.land (octet s 0) 65472 =? 65152.
Definition is_mapped_v6 (s : list Z) : bool :=
  (octet s 0 =? 0) && (octet s 1 =? 0) && (octet s 2 =? 0) && (octet s 3 =? 0) && (octet s 4 =? 0) && (octet s 5 =? 65535).
End Net.
Import Net.

(** ** Which URLs may be called *)
Definition lower_ascii (c : ascii) : ascii := if (65 <=? byte c) && (byte c <=? 90) then ascii_of_nat (nat_of_ascii c + 32) else c.
Fixpoint to_ascii_lowercase (s : string) : string :=
  match s with EmptyString => EmptyString | String c s => String (lower_ascii c) (to_ascii_lowercase s) end.
Definition is_suffix (p s : string) : bool := match strip_suffix p s with Some _ => true | None => false end.
(** [s.split([..]).next()]: the text before the first of the characters. *)
Fixpoint until_any (stops : list ascii) (s : string) : string :=
  match s with EmptyString => EmptyString | String c s => if existsb (Ascii.eqb c) stops then EmptyString else String c (until_any stops s) end.
Fixpoint trim_start_char (c : ascii) (s : string) : string :=
  match s with String d s' => if Ascii.eqb d c then trim_start_char c s' else s | EmptyString => s end.
Definition trim_end_char (c : ascii) (s : string) : string :=
  String.string_of_list_ascii (rev (String.list_ascii_of_string (trim_start_char c (String.string_of_list_ascii (rev (String.list_ascii_of_string s)))))).

Definition allow_insecure (env : string -> option string) : bool :=
  match env "FRAISEQL_OBSERVERS_ALLOW_INSECURE" with Some v => (to_ascii_lowercase v =s "true") || (v =s "1") | None => false end.

(** *** Of the dispatcher *)
Module Dispatch.
Section Guard.
Context (env : string -> option string) (show_ip : IpAddr -> string).
#[local] Notation insecure := (allow_insecure env).
Definition MAX_WEBHOOK_URL_LEN : Z := 2048.
Definition is_ssrf_blocked_ip (ip : IpAddr) : bool :=
  match ip with
  | V4 o =>
      is_loopback_v4 o || is_private_v4 o || is_link_local_v4 o
      || ((octet o 0 =? 100) && (Z.land (octet o 1) 192 =? 64)) || (octet o 0 =? 0)
  | V6 s => is_loopback_v6 s || is_mapped_v6 s || is_ula_v6 s || is_link_local_v6 s
  end.
(** The host of an authority: brackets or the text before the first colon. *)
Definition host_of (authority : string) : string :=
  if starts_with "[" authority then trim_start_char "[" (until_any ["]"%char] authority) else until_any [":"%char] authority.
Definition validate_url_ssrf (url : string) : result ObserverError unit :=
  if insecure then Ok ()
  else
    guard_err MAX_WEBHOOK_URL_LEN <? Z.of_nat (String.length url)
      as InvalidActionConfig ("Webhook URL too long (" ++ pretty (Z.of_nat (String.length url)) ++ " bytes, max " ++ pretty MAX_WEBHOOK_URL_LEN ++ ")") ;;
    match (match strip_prefix "https://" url with Some r => Some r | None => strip_prefix "http://" url end) with
    | None => Err (InvalidActionConfig ("Webhook URL must use http:// or https:// scheme (got: " ++ url ++ ")"))
    | Some rest =>
        let host := host_of (until_any ["/"%char] rest) in
        let lower_host := to_ascii_lowercase host in
        guard_err host =s "" as InvalidActionConfig "Webhook URL has no host" ;;
        guard_err (lower_host =s "localhost") || is_suffix ".localhost" lower_host || starts_with "localhost." lower_host
          as InvalidActionConfig ("Webhook URL targets a loopback host: " ++ host) ;;
        match parse_ip host with
        | Some ip => if is_ssrf_blocked_ip ip
                     then Err (InvalidActionConfig ("Webhook URL targets a private or reserved IP address: " ++ show_ip ip)) else Ok ()
        | None => Ok ()
        end
    end.
Definition resolve_url (explicit env_var : option string) (action_name : string) : result ObserverError string :=
  url ← match explicit, env_var with
        | Some u, _ => Ok u
        | None, Some var => match env var with Some u => Ok u
                            | None => Err (InvalidActionConfig (action_name ++ " URL env var " ++ var ++ " not found")) end
        | None, None => Err (InvalidActionConfig (action_name ++ " URL not provided"))
        end;
  _ ← validate_url_ssrf url; Ok url.
End Guard.
End Dispatch.

(** *** Of an action *)
Module Outbound.
Section Guard.
Context (env : string -> option string).
#[local] Notation insecure := (allow_insecure env).
Definition is_ssrf_blocked_host_obs (host : string) : bool :=
  let lower := to_ascii_lowercase host in
  if (lower =s "localhost") || (lower =s "::1") || (lower =s "[::1]") then true
  else match parse_ipv4 host with
       | Some o => is_loopback_v4 o || is_private_v4 o || is_link_local_v4 o || ((octet o 0 =? 100) && (Z.land (octet o 1) 192 =? 64))
       | None =>
           match parse_ipv6 (trim_end_char "]" (trim_start_char "[" host)) with
           | Some s => is_loopback_v6 s || is_unspecified_v6 s || is_ula_v6 s
           | None => false
           end
       end.
Definition host_of (after_scheme : string) : string :=
  if starts_with "[" after_scheme then
    match split_once "]" after_scheme with
    | Some (inside, _) => (inside ++ "]")%string
    | None => until_any ["/"; "?"; "#"]%char after_scheme
    end
  else until_any ["/"; ":"; "?"; "#"]%char after_scheme.
Definition validate_outbound_url (url : string) : result ObserverError unit :=
  if insecure then Ok ()
  else
    let lower := to_ascii_lowercase url in
    guard_err negb (starts_with "http://" lower) && negb (starts_with "https://" lower)
      as ActionPermanentlyFailed ("Outbound URL must use http:// or https:// scheme: " ++ url) ;;
    let after_scheme := String.substring (if starts_with "https://" lower then 8 else 7) (String.length url) url in
    guard_err is_ssrf_blocked_host_obs (host_of after_scheme)
      as ActionPermanentlyFailed ("Outbound URL targets a private/loopback address (SSRF protection): " ++ url) ;;
    Ok ().
End Guard.
End Outbound.

(** *** By the addresses of the host *)
Module Ssrf.
Section Guard.
Context (env : string -> option string).
#[local] Notation insecure := (allow_insecure env).
Definition is_ssrf_blocked_ip (ip : IpAddr) : bool :=
  match ip with
  | V4 o =>
      is_loopback_v4 o || is_private_v4 o || is_link_local_v4 o
      || ((octet o 0 =? 100) && (64 <=? octet o 1) && (octet o 1 <=? 127)) || bool_decide (o = [0; 0; 0; 0])
  | V6 s => is_loopback_v6 s || is_unspecified_v6 s || is_ula_v6 s || is_link_local_v6 s || is_mapped_v6 s
  end.
(** [parse_url] gives the host and the port of a URL. *)
Context (parse_url : string -> result string (option string * option Z)) (show_ip : IpAddr -> string).
Definition host_and_port (url : string) : result ObserverError (string * option Z) :=
  match parse_url url with
  | Err e => Err (InvalidConfig ("Invalid URL '" ++ url ++ "': " ++ e))
  | Ok (None, _) => Err (InvalidConfig ("URL has no host: " ++ url))
  | Ok (Some host, port) => Ok (host, port)
  end.
Definition validate_outbound_url (url : string) : result ObserverError unit :=
  if insecure then Ok ()
  else
    '(host_raw, _) ← host_and_port url;
    let host := if starts_with "[" host_raw && ends_with "]" host_raw
                then String.substring 1 (String.length host_raw - 2) host_raw else host_raw in
    let lower_host := to_ascii_lowercase host in
    guard_err (lower_host =s "localhost") || is_suffix ".localhost" lower_host
      as InvalidConfig ("URL targets a loopback host (" ++ host ++ ") — SSRF protection blocked") ;;
    match parse_ip host with
    | Some ip => if is_ssrf_blocked_ip ip
                 then Err (InvalidConfig ("URL targets a private/reserved IP (" ++ show_ip ip ++ ") — SSRF protection blocked")) else Ok ()
    | None => Ok ()
    end.
Definition validate_nats_url (url : string) : result ObserverError unit :=
  guard_err negb (starts_with "nats://" url) && negb (starts_with "tls://" url)
    as InvalidConfig ("NATS URL must use nats:// or tls:// scheme (got: " ++ url ++ ")") ;;
  validate_outbound_url url.
Context {W : Type} (lookup_host : string -> Z -> W -> result string (list IpAddr) * W).
Definition dns_resolve_and_check (url : string) (w : W) : result ObserverError unit * W :=
  if insecure then (Ok (), w)
  else
    match host_and_port url with
    | Err e => (Err e, w)
    | Ok (host, port) =>
        let '(addrs, w) := lookup_host host (default 443 port) w in
        (match addrs with
         | Err e => Err (InvalidConfig ("DNS resolution failed for host '" ++ host ++ "': " ++ e))
         | Ok [] => Err (InvalidConfig ("DNS resolved to no addresses for host '" ++ host ++ "'"))
         | Ok addrs =>
             match find is_ssrf_blocked_ip addrs with
             | Some ip => Err (InvalidConfig ("DNS rebinding attack blocked: host '" ++ host ++ "' resolved to private/reserved IP " ++ show_ip ip))
             | None => Ok ()
             end
         end, w)
    end.
End Guard.
End Ssrf.

(** ** The actions *)
Record ActionResult : Type := mkResult { result_type : string; success : bool; result_message : string; duration_ms : f64 }.
(** What a response says: its status, or the identifier of a message. *)
Record WebhookResponse : Type := mkWebhook { status_code : Z; wh_success : bool; wh_duration : f64 }.
Record SlackResponse : Type := mkSlack { slack_status : Z; slack_success : bool; slack_duration : f64 }.
Record EmailResponse : Type := mkEmail { email_success : bool; message_id : option string; email_duration : f64 }.
Record SmsResponse : Type := mkSms { sms_success : bool; sms_duration : f64; sms_message_id : option string }.
Record PushResponse : Type := mkPush { push_success : bool; push_duration : f64; notification_id : option string }.
Record SearchResponse : Type := mkSearch { search_success : bool; search_duration : f64; indexed : bool }.
Record CacheResponse : Type := mkCache { cache_success : bool; cache_duration : f64; keys_affected : Z }.

(** [is_success] and [is_client_error] of a status. *)
Definition is_success (status : Z) : bool := (200 <=? status) && (status <? 300).
Definition is_client_error (status : Z) : bool := (400 <=? status) && (status <? 500).

Module Actions.
(** A name or a value with a character that ends or splits a header. *)
Definition has_any (cs : list ascii) (s : string) : bool := existsb (fun c => has_char c s) cs.
Definition CR : ascii := ascii_of_nat 13.
Definition LF : ascii := ascii_of_nat 10.
Definition NUL : ascii := ascii_of_nat 0.
Definition injects (s : string) : bool := has_any [CR; LF; NUL] s.
Section Execute.
Context (env : string -> option string) (parse_url : string -> result string (option string * option Z)) (show_ip : IpAddr -> string).
Context (debug_str : string -> string) (status_text : Z -> string) (json_text : json -> string) (from_str : string -> option json).
(** The headers in the order their map is read in. *)
Context (entries : strmap string -> list (string * string)).
(** The world: names are resolved, requests are posted, identifiers drawn; the
    milliseconds an action has taken are read at its end. *)
Context {W : Type} (lookup_host : string -> Z -> W -> result string (list IpAddr) * W)
  (post : string -> list (string * string) -> json -> W -> result string Z * W)
  (new_v4 : W -> string * W) (elapsed : W -> f64).

Definition check_header (h : string * string) : result ObserverError unit :=
  let '(name, value) := h in
  guard_err injects name
    as ActionPermanentlyFailed ("Invalid webhook header name — contains CR/LF/NUL (header injection): " ++ debug_str name) ;;
  guard_err has_char ":" name
    as ActionPermanentlyFailed ("Invalid webhook header name — contains colon (name/value separator): " ++ debug_str name) ;;
  guard_err injects value
    as ActionPermanentlyFailed ("Invalid webhook header value for '" ++ name ++ "' — contains CR/LF/NUL (header injection)") ;;
  Ok ().
Fixpoint validate_headers (headers : list (string * string)) : result ObserverError unit :=
  match headers with [] => Ok () | h :: headers => _ ← check_header h; validate_headers headers end.
Definition classify_http_status (status : Z) (duration : f64) : result ObserverError WebhookResponse :=
  if is_success status then Ok (mkWebhook status true duration)
  else if is_client_error status && negb (status =? 429)
  then Err (ActionPermanentlyFailed ("HTTP " ++ status_text status ++ " (client error — will not retry)"))
  else Err (ActionExecutionFailed ("HTTP " ++ status_text status ++ " response")).

(** The fields of the event put in for their placeholders, one after another. *)
Definition value_text (v : json) : string := match v with JString s => s | _ => json_text v end.
Definition placeholder (key : string) : string := ("{{ " ++ key ++ " }}")%string.
Definition render_message_template (template : string) (data : json) : string :=
  match data with
  | JObject fields => foldl (fun text kv => replace (placeholder kv.1) (value_text kv.2) text) template fields
  | _ => template
  end.
Definition render_body_template (template : string) (data : json) : json :=
  let rendered := render_message_template template data in
  match from_str rendered with Some v => v | None => JString rendered end.

Definition webhook_execute (url : string) (headers : strmap string) (body_template : option string) (event : Event.EntityEvent) (w : W)
    : result ObserverError WebhookResponse * W :=
  match Outbound.validate_outbound_url env url with
  | Err e => (Err e, w)
  | Ok _ =>
      let '(resolved, w) := Ssrf.dns_resolve_and_check env parse_url show_ip lookup_host url w in
      match resolved with
      | Err e => (Err e, w)
      | Ok _ =>
          match validate_headers (entries headers) with
          | Err e => (Err e, w)
          | Ok _ =>
              let body := match body_template with Some t => render_body_template t event.(Event.data) | None => event.(Event.data) end in
              let '(r, w) := post url (entries headers) body w in
              (match r with
               | Err e => Err (ActionExecutionFailed ("HTTP request failed: " ++ e))
               | Ok status => classify_http_status status (elapsed w)
               end, w)
          end
      end
  end.
Definition slack_execute (webhook_url : string) (channel message_template : option string) (event : Event.EntityEvent) (w : W)
    : result ObserverError SlackResponse * W :=
  let message := match message_template with
                 | Some t => render_message_template t event.(Event.data)
                 | None => ("Event: " ++ Event.as_str event.(Event.event_type) ++ " on " ++ event.(Event.entity_type)
                            ++ " (ID: " ++ event.(Event.entity_id) ++ ")")%string
                 end in
  let payload := JObject (match channel with Some ch => [("channel"%string, JString ch)] | None => [] end
                          ++ [("text"%string, JString message); ("type"%string, JString "mrkdwn")])%list in
  match Outbound.validate_outbound_url env webhook_url with
  | Err e => (Err e, w)
  | Ok _ =>
      let '(resolved, w) := Ssrf.dns_resolve_and_check env parse_url show_ip lookup_host webhook_url w in
      match resolved with
      | Err e => (Err e, w)
      | Ok _ =>
          let '(r, w) := post webhook_url [] payload w in
          (match r with
           | Err e => Err (ActionExecutionFailed ("Slack webhook failed: " ++ e))
           | Ok status =>
               if is_success status then Ok (mkSlack status true (elapsed w))
               else if is_client_error status
               then Err (ActionPermanentlyFailed ("Slack HTTP " ++ status_text status ++ " (client error — will not retry)"))
               else Err (ActionExecutionFailed ("Slack HTTP " ++ status_text status ++ " response"))
           end, w)
      end
  end.
(** The rest are stubs in the source. *)
Definition email_execute (w : W) : result ObserverError EmailResponse * W :=
  let '(uuid, w) := new_v4 w in (Ok (mkEmail true (Some uuid) (f64_of_Z 10)), w).
Definition sms_execute (w : W) : result ObserverError SmsResponse * W :=
  let '(uuid, w) := new_v4 w in (Ok (mkSms true (elapsed w) (Some ("sms_" ++ uuid)%string)), w).
Definition push_execute (w : W) : result ObserverError PushResponse * W :=
  let '(uuid, w) := new_v4 w in (Ok (mkPush true (elapsed w) (Some ("push_" ++ uuid)%string)), w).
Definition search_execute (w : W) : result ObserverError SearchResponse * W := (Ok (mkSearch true (elapsed w) true), w).
Definition cache_execute (w : W) : result ObserverError CacheResponse * W := (Ok (mkCache true (elapsed w) 1), w).

(** [DefaultActionDispatcher::dispatch]. *)
Definition required (o : option string) (reason : string) : result ObserverError string :=
  match o with Some s => Ok s | None => Err (InvalidActionConfig reason) end.
Definition done {A} (f : A -> ActionResult) (r : result ObserverError A * W) : result ObserverError ActionResult * W := (f <$> r.1, r.2).
Definition webhook_result (r : WebhookResponse) : ActionResult := mkResult "webhook" true ("HTTP " ++ pretty r.(status_code)) r.(wh_duration).
Definition slack_result (r : SlackResponse) : ActionResult := mkResult "slack" true ("HTTP " ++ pretty r.(slack_status)) r.(slack_duration).
Definition email_result (r : EmailResponse) : ActionResult := mkResult "email" r.(email_success) (default "queued" r.(message_id)) r.(email_duration).
Definition sms_result (r : SmsResponse) : ActionResult := mkResult "sms" r.(sms_success) (default "sent" r.(sms_message_id)) r.(sms_duration).
Definition push_result (r : PushResponse) : ActionResult := mkResult "push" r.(push_success) (default "sent" r.(notification_id)) r.(push_duration).
Definition search_result (r : SearchResponse) : ActionResult :=
  mkResult "search" r.(search_success) (if r.(indexed) then "indexed" else "not_indexed") r.(search_duration).
Definition cache_result (r : CacheResponse) : ActionResult :=
  mkResult "cache" r.(cache_success) ("affected: " ++ pretty r.(keys_affected)) r.(cache_duration).
Definition dispatch (action : ActionConfig) (event : Event.EntityEvent) (w : W) : result ObserverError ActionResult * W :=
  match action with
  | Webhook url url_env headers body_template =>
      match Dispatch.resolve_url env show_ip url url_env "Webhook" with
      | Err e => (Err e, w)
      | Ok webhook_url => done webhook_result (webhook_execute webhook_url headers body_template event w)
      end
  | Slack webhook_url webhook_url_env channel message_template =>
      match Dispatch.resolve_url env show_ip webhook_url webhook_url_env "Slack" with
      | Err e => (Err e, w)
      | Ok slack_url => done slack_result (slack_execute slack_url channel message_template event w)
      end
  | Email to _ subject _ _ _ =>
      match (_ ← required to "Email 'to' not provided"; required subject "Email 'subject' not provided") with
      | Err e => (Err e, w)
      | Ok _ => done email_result (email_execute w)
      end
  | Sms phone _ _ =>
      match required phone "SMS 'phone' not provided" with Err e => (Err e, w) | Ok _ => done sms_result (sms_execute w) end
  | Push device_token title_template body_template =>
      match (_ ← required device_token "Push 'device_token' not provided";
             _ ← required title_template "Push 'title_template' not provided";
             required body_template "Push 'body_template' not provided") with
      | Err e => (Err e, w)
      | Ok _ => done push_result (push_execute w)
      end
  | Search _ _ => done search_result (search_execute w)
  | Cache _ _ => done cache_result (cache_execute w)
  end.
End Execute.
End Actions.

(** ** Where requests go *)
(** *** What should not be reached *)
(** An address as groups of [w] bits is in the block of those that have their
    first [len] bits from [net]. *)
Fixpoint in_block (w : Z) (net : list Z) (len : Z) (addr : list Z) : bool :=
  match net, addr with
  | n :: net, a :: addr =>
      if len <=? 0 then true
      else if w <=? len then (a =? n) && in_block w net (len - w) addr
      else a / 2 ^ (w - len) =? n / 2 ^ (w - len)
  | [], [] => true
  | _, _ => false
  end.
(** Loopback, private networks, link-local, shared and unspecified addresses. *)
Definition reserved_v4 : list (list Z * Z) :=
  [([127; 0; 0; 0], 8); ([10; 0; 0; 0], 8); ([172; 16; 0; 0], 12); ([192; 168; 0; 0], 16); ([169; 254; 0; 0], 16); ([100; 64; 0; 0], 10); ([0; 0; 0; 0], 32)].
(** Loopback, unspecified, unique local, link-local and mapped IPv4 addresses. *)
Definition reserved_v6 : list (list Z * Z) :=
  [([0; 0; 0; 0; 0; 0; 0; 1], 128); ([0; 0; 0; 0; 0; 0; 0; 0], 128); ([64512; 0; 0; 0; 0; 0; 0; 0], 7); ([65152; 0; 0; 0; 0; 0; 0; 0], 10);
   ([0; 0; 0; 0; 0; 65535; 0; 0], 96)].
Definition reserved (ip : IpAddr) : bool :=
  match ip with
  | V4 o => existsb (fun b => in_block 8 b.1 b.2 o) reserved_v4
  | V6 s => existsb (fun b => in_block 16 b.1 b.2 s) reserved_v6
  end.
(** No character that ends a header, and in a name no colon. *)
Definition free_of (bad : list Z) (s : string) : Prop := Forall (fun c => ~ In (byte c) bad) (String.list_ascii_of_string s).
Definition header_ok (h : string * string) : Prop := free_of [0; 10; 13; 58] h.1 /\ free_of [0; 10; 13] h.2.

(** The code's tests find all of it. *)
Lemma land_high a k m : 0 <= k -> Z.land a (m * 2 ^ k) = Z.land (a / 2 ^ k) m * 2 ^ k.
Proof.
  intros Hk. rewrite <- Z.shiftr_div_pow2, <- !Z.shiftl_mul_pow2 by done. apply Z.bits_inj'. intros n Hn.
  rewrite Z.land_spec, !Z.shiftl_spec, Z.land_spec by done. destruct (Z.lt_ge_cases n k) as [Hlt|Hge].
  - rewrite !(Z.testbit_neg_r _ (n - k)) by lia. by rewrite !andb_false_r.
  - rewrite Z.shiftr_spec by lia. by replace (n - k + k) with n by lia.
Qed.
Lemma in_block_whole w net addr : 0 < w -> in_block w net (w * Z.of_nat (length net)) addr = true -> addr = net.
Proof.
  intros Hw. revert addr. induction net as [|n net IH]; intros [|a addr]; try done. cbn [in_block length]. rewrite Nat2Z.inj_succ.
  replace (w * Z.succ (Z.of_nat (length net)) - w) with (w * Z.of_nat (length net)) by lia.
  assert (w <= w * Z.succ (Z.of_nat (length net))) by nia. destruct (Z.leb_spec (w * Z.succ (Z.of_nat (length net))) 0); [lia|].
  destruct (Z.leb_spec w (w * Z.succ (Z.of_nat (length net)))); [|lia]. intros [->%Z.eqb_eq H']%andb_true_iff. by rewrite (IH addr H').
Qed.
Lemma reserved_v4_blocked o : reserved (V4 o) = true -> Ssrf.is_ssrf_blocked_ip (V4 o) = true.
Proof.
  unfold Ssrf.is_ssrf_blocked_ip, is_loopback_v4, is_private_v4, is_link_local_v4. intros H.
  repeat (apply orb_true_iff in H as [H|H]); try done; cbn [fst snd] in H; [..|by apply (in_block_whole 8 [0; 0; 0; 0]) in H as ->];
    destruct o as [|a [|b o]]; try done; cbv -[Z.div Z.eqb andb] in H; repeat (apply andb_true_iff in H as [H ?]); try done;
    rewrite ?orb_true_iff, ?andb_true_iff, ?Z.leb_le, ?Z.eqb_eq in *; unfold octet; cbn [nth]; Z.to_euclidean_division_equations; lia.
Qed.
Lemma reserved_v6_blocked s : reserved (V6 s) = true -> Ssrf.is_ssrf_blocked_ip (V6 s) = true.
Proof.
  unfold Ssrf.is_ssrf_blocked_ip, is_ula_v6, is_link_local_v6, is_mapped_v6. intros H.
  repeat (apply orb_true_iff in H as [H|H]); try done; cbn [fst snd] in H;
    [by apply (in_block_whole 16 [0; 0; 0; 0; 0; 0; 0; 1]) in H as ->|by apply (in_block_whole 16 [0; 0; 0; 0; 0; 0; 0; 0]) in H as ->|..];
    cbv -[Z.div Z.eqb andb] in H.
  - destruct s as [|a s]; [done|]. apply Z.eqb_eq in H. change 65024 with (127 * 2 ^ 9). rewrite land_high by done. unfold octet. cbn [nth].
    change (2 ^ 9) with 512. rewrite H. change (_ =? 64512) with true. by rewrite !orb_true_r.
  - destruct s as [|a s]; [done|]. apply Z.eqb_eq in H. change 65472 with (1023 * 2 ^ 6). rewrite land_high by done. unfold octet. cbn [nth].
    change (2 ^ 6) with 64. rewrite H. change (_ =? 65152) with true. by rewrite !orb_true_r.
  - do 6 (destruct s as [|? s]; [by rewrite ?andb_false_r in H|]).
    repeat (apply andb_true_iff in H as [H%Z.eqb_eq H']; subst; rename H' into H). by rewrite !orb_true_r.
Qed.
Lemma not_reserved ip : Ssrf.is_ssrf_blocked_ip ip = false -> reserved ip = false.
Proof.
  intros H. apply not_true_is_false. intros Hr. destruct ip as [o|s]; [apply reserved_v4_blocked in Hr|apply reserved_v6_blocked in Hr]; congruence.
Qed.
Lemma has_char_out c s : has_char c s = false -> Forall (fun d => byte d <> byte c) (String.list_ascii_of_string s).
Proof.
  induction s as [|d s IH]; cbn; [constructor|]. intros [Hd Hs]%orb_false_iff. constructor; [|by apply IH].
  apply Ascii.eqb_neq in Hd. unfold byte. intros E. apply Hd. rewrite <- (ascii_nat_embedding d), <- (ascii_nat_embedding c). f_equal. lia.
Qed.
Section Posts.
Context (env : string -> option string) (parse_url : string -> result string (option string * option Z)) (show_ip : IpAddr -> string)
  (debug_str : string -> string) (status_text : Z -> string) (json_text : json -> string) (from_str : string -> option json)
  (entries : strmap string -> list (string * string)).
Context {W : Type} (lookup : string -> Z -> W -> result string (list IpAddr) * W)
  (answer : string -> list (string * string) -> json -> W -> result string Z * list string * W) (new_v4 : W -> string * W) (elapsed : W -> f64).
(** The world with the requests that were posted: the URL, the headers and the
    URLs the client went on to by itself, following redirects. *)
Abbreviation Posted := (list (string * list (string * string) * list string)).
Definition on_world {A} (f : W -> A * W) (x : W * Posted) : A * (W * Posted) := let '(a, w) := f x.1 in (a, (w, x.2)).
Definition post (url : string) (headers : list (string * string)) (body : json) (x : W * Posted) : result string Z * (W * Posted) :=
  let '(r, followed, w) := answer url headers body x.1 in (r, (w, x.2 ++ [(url, headers, followed)])).
#[local] Notation dispatch := (Actions.dispatch env parse_url show_ip debug_str status_text json_text from_str entries
  (fun host port => on_world (lookup host port)) post (on_world new_v4) (fun x => elapsed x.1)).
#[local] Notation check := (Ssrf.dns_resolve_and_check env parse_url show_ip (fun host port => on_world (lookup host port))).

(** The addresses of the URL's host, when they were looked up in [w], are
    there and none is reserved. *)
Definition resolves_public (url : string) (w : W) : Prop :=
  exists host port addrs w', parse_url url = Ok (Some host, port) /\ lookup host (default 443 port) w = (Ok addrs, w')
    /\ addrs <> [] /\ Forall (fun ip => reserved ip = false) addrs.
(** The checks are switched off by the environment. *)
Definition switched_off : Prop :=
  exists v, env "FRAISEQL_OBSERVERS_ALLOW_INSECURE" = Some v /\ (v = "1"%string \/ to_ascii_lowercase v = "true"%string).
(** What one action adds to the requests posted. *)
Definition posts_well (w : W) (sent : Posted) : Prop :=
  sent = [] \/ exists url headers followed, sent = [(url, headers, followed)] /\ Forall header_ok headers /\ (switched_off \/ resolves_public url w).
Lemma insecure_off : allow_insecure env = true -> switched_off.
Proof.
  unfold allow_insecure, switched_off. destruct (env _) as [v|]; [|done]. intros [H|H]%orb_true_iff; apply String.eqb_eq in H; exists v; auto.
Qed.
Lemma check_keeps url w l : (check url (w, l)).2.2 = l.
Proof.
  unfold Ssrf.dns_resolve_and_check. destruct (allow_insecure env); [done|]. destruct (Ssrf.host_and_port parse_url url) as [[host port]|e]; [|done].
  unfold on_world. cbn. by destruct (lookup host (default 443 port) w).
Qed.
Lemma check_ok url w l w' : check url (w, l) = (Ok (), w') -> switched_off \/ resolves_public url w.
Proof.
  unfold Ssrf.dns_resolve_and_check, Ssrf.host_and_port. destruct (allow_insecure env) eqn:Eoff; [left; by apply insecure_off|].
  destruct (parse_url url) as [[[host|] port]|e] eqn:Eu; [|done..]. unfold on_world. cbn.
  destruct (lookup host (default 443 port) w) as [addrs w1] eqn:El. destruct addrs as [addrs|e]; [|done]. destruct addrs as [|a addrs]; [done|].
  destruct (find _ _) eqn:Ef; [done|]. intros _. right. exists host, port, (a :: addrs), w1. split_and!; [done..|].
  apply list.Forall_forall. intros x Hx%list_elem_of_In. by eapply not_reserved, find_none.
Qed.
Lemma injects_free s : Actions.injects s = false -> free_of [0; 10; 13] s.
Proof.
  unfold Actions.injects, Actions.has_any, free_of. cbn. rewrite !orb_false_iff. intros (H1%has_char_out & H2%has_char_out & H3%has_char_out & _).
  rewrite !list.Forall_forall in *. intros c Hc [E|[E|[E|[]]]]; [by apply (H3 c Hc)|by apply (H2 c Hc)|by apply (H1 c Hc)].
Qed.
Lemma headers_ok hs : Actions.validate_headers debug_str hs = Ok () -> Forall header_ok hs.
Proof.
  induction hs as [|[name value] hs IH]; [constructor|]. cbn [Actions.validate_headers]. unfold Actions.check_header. destruct (Actions.injects name) eqn:E1; [done|].
  destruct (has_char ":" name) eqn:E2; [done|]. destruct (Actions.injects value) eqn:E3; [done|]. intros H. constructor; [|by apply IH].
  pose proof (injects_free _ E1) as Hn. apply has_char_out in E2. split; [|by apply injects_free]. unfold free_of in *. cbn [fst] in *.
  rewrite !list.Forall_forall in *. intros c Hc [E|[E|[E|[E|[]]]]]; [by apply (Hn c Hc); rewrite <- E; cbn; auto..|]. by apply (E2 c Hc).
Qed.
Lemma done_world {A} (f : A -> ActionResult) (r : result ObserverError A * (W * Posted)) : (Actions.done f r).2 = r.2.
Proof. done. Qed.

Lemma webhook_posts url headers body event w l :
  exists sent, (Actions.webhook_execute env parse_url show_ip debug_str status_text json_text from_str entries
    (fun host port => on_world (lookup host port)) post (fun x => elapsed x.1) url headers body event (w, l)).2.2 = l ++ sent /\ posts_well w sent.
Proof.
  assert (Hnil : exists sent, l = l ++ sent /\ posts_well w sent) by (exists []; rewrite app_nil_r; split; [done|by left]).
  unfold Actions.webhook_execute. destruct (Outbound.validate_outbound_url env url); [|done].
  pose proof (check_keeps url w l) as Hk. destruct (check url (w, l)) as [[[]|e] [w1 l1]] eqn:Ec; cbn in Hk; subst l1; [|done].
  destruct (Actions.validate_headers debug_str (entries headers)) as [[]|e] eqn:Eh; [|done]. unfold post. cbn.
  destruct (answer _ _ _ w1) as [[r followed] w2]. cbn. exists [(url, entries headers, followed)]. split; [done|]. right. exists url, (entries headers), followed.
  split_and!; [done|by apply headers_ok|by eapply check_ok].
Qed.
Lemma slack_posts url channel message event w l :
  exists sent, (Actions.slack_execute env parse_url show_ip status_text json_text
    (fun host port => on_world (lookup host port)) post (fun x => elapsed x.1) url channel message event (w, l)).2.2 = l ++ sent /\ posts_well w sent.
Proof.
  assert (Hnil : exists sent, l = l ++ sent /\ posts_well w sent) by (exists []; rewrite app_nil_r; split; [done|by left]).
  unfold Actions.slack_execute. destruct (Outbound.validate_outbound_url env url); [|done].
  pose proof (check_keeps url w l) as Hk. destruct (check url (w, l)) as [[[]|e] [w1 l1]] eqn:Ec; cbn in Hk; subst l1; [|done].
  unfold post. cbn. destruct (answer _ _ _ w1) as [[r followed] w2]. cbn. exists [(url, [], followed)]. split; [done|]. right. exists url, [], followed.
  split_and!; [done|constructor|by eapply check_ok].
Qed.

(** C30. Whatever action runs on whatever event, it posts at most one request, and
    only to a URL whose host had addresses, none of them in a reserved block
    ([reserved_v4], [reserved_v6]), when it was looked up before (or with the
    checks switched off by the environment), with headers that no name or value
    can split.  Nothing is said of the URLs the client goes on to by itself when
    it is redirected: they are not checked ([redirect_followed]). *)
Theorem posts_only_public action event w l :
  exists sent, (dispatch action event (w, l)).2.2 = l ++ sent /\ posts_well w sent.
Proof.
  assert (Hnil : exists sent, l = l ++ sent /\ posts_well w sent) by (exists []; rewrite app_nil_r; split; [done|by left]).
  assert (Huuid : (on_world new_v4 (w, l)).2.2 = l) by (unfold on_world; cbn; by destruct (new_v4 w)).
  unfold Actions.dispatch. destruct action as [url url_env headers body|url url_env channel message|to ? subject ? ? ?|phone ? ?|token title body|?|?].
  - destruct (Dispatch.resolve_url _ _ _ _ _) as [u|e]; [|done]. rewrite done_world. apply webhook_posts.
  - destruct (Dispatch.resolve_url _ _ _ _ _) as [u|e]; [|done]. rewrite done_world. apply slack_posts.
  - destruct (_ ≫= _); [|done]. rewrite done_world. unfold Actions.email_execute. destruct (on_world new_v4 (w, l)) as [u [w1 l1]]. cbn in Huuid |- *. rewrite Huuid. exact Hnil.
  - destruct (Actions.required _ _); [|done]. rewrite done_world. unfold Actions.sms_execute. destruct (on_world new_v4 (w, l)) as [u [w1 l1]]. cbn in Huuid |- *. rewrite Huuid. exact Hnil.
  - destruct (_ ≫= _); [|done]. rewrite done_world. unfold Actions.push_execute. destruct (on_world new_v4 (w, l)) as [u [w1 l1]]. cbn in Huuid |- *. rewrite Huuid. exact Hnil.
  - done.
  - done.
Qed.
End Posts.

(** ** Concrete URLs *)
Module GuardDemo.
Definition no_env : string -> option string := fun _ => None.
Definition show (ip : IpAddr) : string := "ip".
(** A name before an at sign hides the host from the first two guards. *)
Example userinfo_passes :
  Dispatch.validate_url_ssrf no_env show "http://x@169.254.169.254/latest" = Ok ()
  /\ Outbound.validate_outbound_url no_env "http://x@169.254.169.254/latest" = Ok ()
  /\ Dispatch.validate_url_ssrf no_env show "http://user:pw@127.0.0.1/" = Ok ().
Proof. vm_compute. done. Qed.
(** The guards disagree: on the scheme's case, on the rest of 0.0.0.0/8, on a
    mapped address and on names below [localhost]. *)
Example guards_disagree :
  map (fun u => (is_ok (Dispatch.validate_url_ssrf no_env show u), is_ok (Outbound.validate_outbound_url no_env u)))
    ["HTTP://example.com/"; "http://0.0.0.1/"; "http://[::ffff:10.0.0.1]/"; "http://a.localhost/"; "http://[::]/"; "http://10.0.0.1?x"]%string
  = [(false, true); (false, true); (false, true); (false, true); (true, false); (true, false)].
Proof. vm_compute. done. Qed.
(** A public host redirects the client to an address the guards refuse. *)
Example redirect_followed :
  let lookup (_ : string) (_ : Z) (w : unit) := (Ok [V4 [93; 184; 216; 34]], w) : result string (list IpAddr) * unit in
  let answer (_ : string) (_ : list (string * string)) (_ : json) (w : unit) := (Ok 200, ["http://169.254.169.254/latest"%string], w) in
  let event := Event.mkEvent "e1" Event.Created "Order" "o1" (JObject []) None None None 0 in
  (Actions.dispatch no_env (fun _ => Ok (Some "hooks.example"%string, Some 443)) show (fun s => s) pretty (fun _ => EmptyString) (fun _ => None)
     (fun _ => []) (fun host port => on_world (lookup host port)) (post answer) (on_world (fun w => (EmptyString, w))) (fun _ => f64_zero)
     (Webhook (Some "https://hooks.example/"%string) None ∅ None) event ((), [])).2.2
  = [("https://hooks.example/"%string, [], ["http://169.254.169.254/latest"%string])]
  /\ Dispatch.validate_url_ssrf no_env show "http://169.254.169.254/latest" <> Ok ().
Proof. vm_compute. done. Qed.
(** A value that looks like a placeholder is filled in in its turn. *)
Example values_are_templates :
  Actions.render_message_template (fun _ => EmptyString) "Hello {{ a }}"
    (JObject [("a", JString "{{ b }}"); ("b", JString "secret")]%string) = "Hello secret"%string.
Proof. vm_compute. done. Qed.
End GuardDemo.
