(* ===== verification/ObserverRun.v ===== *)
(** * Running observers

    [fraiseql-observers/src/]: which observers an event concerns (matcher.rs,
    [EventMatcher]), the executor that checks their conditions and runs their
    actions with retries (executor/, [ObserverExecutor]) and the wrapper that
    keeps tenants apart and duplicates out (deduped_executor.rs, dedup/,
    [Dedup]).  The dispatcher, the dead letter queue and the cache of results are
    interfaces on a world; random draws, the timer and the character table of
    [str::to_uppercase] are arguments. *)

From stdpp Require Import pretty.
From S2P Require Import Prelude ObserverError Json ObserverConfig Condition ObserverActions Chars Redis.
#[local] Open Scope Z_scope.

(** ** Which observers an event concerns *)
Module EventMatcher.
Abbreviation t := (strmap (strmap (list ObserverDefinition))).
Section Matcher.
Context (to_uppercase : string -> string).
Definition at_entity (by_entity : strmap (list ObserverDefinition)) (entity_type : string) : list ObserverDefinition :=
  default [] (by_entity !! entity_type).
Definition add_observer (o : ObserverDefinition) (index : t) : t :=
  let event_type := to_uppercase o.(event_type_name) in
  let by_entity := default ∅ (index !! event_type) in
  <[event_type := <[o.(entity) := at_entity by_entity o.(entity) ++ [o]]> by_entity]> index.
(** The definitions in the order their map is read in. *)
Definition build (observers : list ObserverDefinition) : t := foldl (fun index o => add_observer o index) ∅ observers.
Definition find_by_event_and_entity (event_type : Event.EventKind) (entity_type : string) (index : t) : list ObserverDefinition :=
  match index !! to_uppercase (Event.as_str event_type) with
  | Some by_entity => at_entity by_entity entity_type ++ at_entity by_entity "*"
  | None => []
  end.
Definition find_matches (event : Event.EntityEvent) (index : t) : list ObserverDefinition :=
  find_by_event_and_entity event.(Event.event_type) event.(Event.entity_type) index.
Definition observer_count (index : t) : nat :=
  list_sum (map (fun by_entity => list_sum (map (fun kv => length kv.2) (map_to_list by_entity.2))) (map_to_list index)).

(** The index finds what a search through the definitions finds. *)
Definition concerns (kind entity_type : string) (o : ObserverDefinition) : bool :=
  (to_uppercase o.(event_type_name) =s kind) && (o.(entity) =s entity_type).
Definition indexed (kind entity_type : string) (index : t) : list ObserverDefinition :=
  at_entity (default ∅ (index !! kind)) entity_type.
Lemma indexed_add kind entity_type o index :
  indexed kind entity_type (add_observer o index)
  = indexed kind entity_type index ++ (if concerns kind entity_type o then [o] else []).
Proof.
  unfold indexed, add_observer, concerns, at_entity. cbv zeta. destruct (decide (to_uppercase o.(event_type_name) = kind)) as [<-|Hk].
  - rewrite lookup_insert_eq, (String.eqb_refl (to_uppercase _)). cbn. destruct (decide (o.(entity) = entity_type)) as [<-|He].
    + by rewrite lookup_insert_eq, String.eqb_refl.
    + rewrite lookup_insert_ne by done. apply String.eqb_neq in He as ->. by rewrite app_nil_r.
  - rewrite lookup_insert_ne by done. apply String.eqb_neq in Hk as ->. by rewrite app_nil_r.
Qed.
Lemma indexed_build kind entity_type observers :
  indexed kind entity_type (build observers) = List.filter (concerns kind entity_type) observers.
Proof.
  unfold build. assert (H : forall index, indexed kind entity_type (foldl (fun index o => add_observer o index) index observers)
                                          = indexed kind entity_type index ++ List.filter (concerns kind entity_type) observers).
  { induction observers as [|o l IH]; intros index; cbn; [by rewrite app_nil_r|]. rewrite IH, indexed_add, <- app_assoc.
    by destruct (concerns kind entity_type o). }
  rewrite H. unfold indexed, at_entity. by rewrite lookup_empty.
Qed.
Lemma find_matches_build event observers :
  find_matches event (build observers)
  = List.filter (concerns (to_uppercase (Event.as_str event.(Event.event_type))) event.(Event.entity_type)) observers
    ++ List.filter (concerns (to_uppercase (Event.as_str event.(Event.event_type))) "*") observers.
Proof.
  rewrite <- !indexed_build. unfold find_matches, find_by_event_and_entity, indexed, at_entity.
  destruct (build observers !! _); [done|]. reflexivity.
Qed.
End Matcher.
End EventMatcher.

(** ** What is kept about an event *)
Record ExecutionSummary : Type := mkSummary {
  successful_actions : Z;
  failed_actions : Z;
  conditions_skipped : Z;
  total_duration_ms : f64;
  dlq_errors : Z;
  errors : list string;
  duplicate_skipped : bool;
  tenant_rejected : bool;
  cache_hits : Z;
  cache_misses : Z
}.
Definition new_summary : ExecutionSummary := mkSummary 0 0 0 f64_zero 0 [] false false 0 0.
Definition MAX_ERROR_STRINGS : nat := 100.
Definition summary_is_success (s : ExecutionSummary) : bool :=
  (s.(failed_actions) =? 0) && (s.(dlq_errors) =? 0) && match s.(errors) with [] => true | _ => false end.
Definition total_actions (s : ExecutionSummary) : Z := s.(successful_actions) + s.(failed_actions).
Definition add_success (ms : f64) (s : ExecutionSummary) : ExecutionSummary :=
  mkSummary (s.(successful_actions) + 1) s.(failed_actions) s.(conditions_skipped) (f64_add s.(total_duration_ms) ms) s.(dlq_errors)
    s.(errors) s.(duplicate_skipped) s.(tenant_rejected) s.(cache_hits) s.(cache_misses).
Definition add_failure (s : ExecutionSummary) : ExecutionSummary :=
  mkSummary s.(successful_actions) (s.(failed_actions) + 1) s.(conditions_skipped) s.(total_duration_ms) s.(dlq_errors)
    s.(errors) s.(duplicate_skipped) s.(tenant_rejected) s.(cache_hits) s.(cache_misses).
Definition add_dlq_error (s : ExecutionSummary) : ExecutionSummary :=
  mkSummary s.(successful_actions) s.(failed_actions) s.(conditions_skipped) s.(total_duration_ms) (s.(dlq_errors) + 1)
    s.(errors) s.(duplicate_skipped) s.(tenant_rejected) s.(cache_hits) s.(cache_misses).
Definition add_skip (s : ExecutionSummary) : ExecutionSummary :=
  mkSummary s.(successful_actions) s.(failed_actions) (s.(conditions_skipped) + 1) s.(total_duration_ms) s.(dlq_errors)
    s.(errors) s.(duplicate_skipped) s.(tenant_rejected) s.(cache_hits) s.(cache_misses).
Definition add_error (e : string) (s : ExecutionSummary) : ExecutionSummary :=
  if (length s.(errors) <? MAX_ERROR_STRINGS)%nat then
    mkSummary s.(successful_actions) s.(failed_actions) s.(conditions_skipped) s.(total_duration_ms) s.(dlq_errors)
      (s.(errors) ++ [e]) s.(duplicate_skipped) s.(tenant_rejected) s.(cache_hits) s.(cache_misses)
  else s.

(** ** Delays between attempts *)
(** [jitter] is a draw from [0..=n].  The product of the linear strategy wraps,
    as in a build without overflow checks. *)
Definition calculate_backoff (jitter : Z -> Z) (attempt : Z) (c : RetryConfig) : Z :=
  match c.(backoff_strategy) with
  | Exponential =>
      let base_delay := Z.min (u64_saturating_mul c.(initial_delay_ms) (u64_saturating_pow 2 (attempt - 1))) c.(max_delay_ms) in
      let jitter_range := base_delay / 4 in
      if 0 <? jitter_range
      then u64_saturating_sub (u64_saturating_add base_delay (jitter (u64_saturating_mul jitter_range 2))) jitter_range
      else base_delay
  | Linear => Z.min (u64_wrap (c.(initial_delay_ms) * attempt)) c.(max_delay_ms)
  | Fixed => c.(initial_delay_ms)
  end.

(** ** The executor *)
(** What happens to the actions of an event. *)
Inductive Step : Type :=
| Tried (action : ActionConfig) (r : result ObserverError ActionResult)
| Slept (ms : Z)
| Pushed (action : ActionConfig) (message : string) (ok : bool).
Record CacheBackend (W : Type) : Type := mkBackend {
  cache_get : string -> W -> result ObserverError (option ActionResult) * W;
  cache_set : string -> ActionResult -> W -> result ObserverError unit * W
}.
Arguments cache_get {W}.
Arguments cache_set {W}.
Record Run (W : Type) : Type := mkRun { condition_cache : strmap ConditionAst; dlq_push_count : Z; steps : list Step; world : W }.
Arguments mkRun {W}.
Arguments condition_cache {W}.
Arguments dlq_push_count {W}.
Arguments steps {W}.
Arguments world {W}.

Module ObserverExecutor.
Section Executor.
Context {W : Type} (to_uppercase : string -> string) (debug : option string -> string) (from_str : string -> option json).
Context (dispatch : ActionConfig -> Event.EntityEvent -> W -> result ObserverError ActionResult * W).
(** [tokio::time::timeout]: [None] when the time has passed. *)
Context (timeout : Z -> (W -> result ObserverError ActionResult * W) -> W -> option (result ObserverError ActionResult) * W).
Context (sleep : Z -> W -> W) (jitter : W -> Z -> Z).
Context (push : Event.EntityEvent -> ActionConfig -> string -> W -> result ObserverError unit * W).
Context (push_raw : list Byte.byte -> string -> W -> result ObserverError unit * W).
(** The hash of the debug text of an action, in decimal. *)
Context (action_hash : ActionConfig -> string).
Context (matcher : EventMatcher.t) (max_dlq_size action_timeout_ms : option Z) (cache_backend : option (CacheBackend W)).
#[local] Notation to_string := (ObserverError.to_string debug).
#[local] Notation evaluate := (Evaluator.evaluate from_str).

Definition did (s : Step) (w : W) (x : Run W) : Run W := mkRun x.(condition_cache) x.(dlq_push_count) (x.(steps) ++ [s]) w.
Definition count_push (x : Run W) : Run W := mkRun x.(condition_cache) (u64_wrap (x.(dlq_push_count) + 1)) x.(steps) x.(world).

(** *** Cached results *)
Definition cache_key (event : Event.EntityEvent) (action : ActionConfig) : string :=
  "action_result:" ++ event.(Event.id) ++ ":" ++ action_hash action ++ ":" ++ event.(Event.entity_type) ++ ":" ++ event.(Event.entity_id).
Definition try_cache_get (event : Event.EntityEvent) (action : ActionConfig) (w : W) : option ActionResult * W :=
  match cache_backend with
  | Some cache => let '(r, w) := cache.(cache_get) (cache_key event action) w in (match r with Ok hit => hit | Err _ => None end, w)
  | None => (None, w)
  end.
Definition cache_store (event : Event.EntityEvent) (action : ActionConfig) (r : ActionResult) (w : W) : W :=
  match cache_backend with
  | Some cache => if r.(success) then snd (cache.(cache_set) (cache_key event action) r w) else w
  | None => w
  end.
Definition is_cache_action (action : ActionConfig) : bool := match action with Cache _ _ => true | _ => false end.

(** *** One attempt *)
Definition timed_out (action : ActionConfig) (ms : Z) : ObserverError :=
  ActionExecutionFailed ("action '" ++ action_type action ++ "' timed out after " ++ pretty ms ++ " ms").
Definition execute_action_internal (action : ActionConfig) (event : Event.EntityEvent) (w : W) : result ObserverError ActionResult * W :=
  let '(hit, w) := if is_cache_action action then (None, w) else try_cache_get event action w in
  match hit with
  | Some r => (Ok r, w)
  | None =>
      let '(r, w) := match action_timeout_ms with
                     | Some ms => let '(r, w) := timeout ms (dispatch action event) w in (default (Err (timed_out action ms)) r, w)
                     | None => dispatch action event w
                     end in
      match r with
      | Ok res => (r, if is_cache_action action then w else cache_store event action res w)
      | Err _ => (r, w)
      end
  end.

(** *** After the last attempt *)
Definition dlq_full (x : Run W) : bool := match max_dlq_size with Some max => max <=? x.(dlq_push_count) | None => false end.
Definition handle_action_failure (action : ActionConfig) (event : Event.EntityEvent) (e : ObserverError) (policy : FailurePolicy)
    (s : ExecutionSummary) (x : Run W) : ExecutionSummary * Run W :=
  match policy with
  | Log | Alert => (add_failure s, x)
  | Dlq =>
      if dlq_full x then (add_failure s, x)
      else
        let '(r, w) := push event action (to_string e) x.(world) in
        let x := did (Pushed action (to_string e) (is_ok r)) w x in
        match r with
        | Ok _ => (add_failure s, count_push x)
        | Err _ => (add_failure (add_dlq_error s), x)
        end
  end.

(** *** All attempts *)
(** [None] when the fuel is spent; [attempt] counts this attempt. *)
Fixpoint retry_loop (fuel : nat) (attempt : Z) (action : ActionConfig) (event : Event.EntityEvent) (c : RetryConfig) (policy : FailurePolicy)
    (s : ExecutionSummary) (x : Run W) : option (ExecutionSummary * Run W) :=
  match fuel with
  | O => None
  | S fuel =>
      let '(r, w) := execute_action_internal action event x.(world) in
      let x := did (Tried action r) w x in
      match r with
      | Ok res => Some (add_success res.(duration_ms) s, x)
      | Err e =>
          if negb (is_transient e) || (c.(max_attempts) <=? attempt)
          then Some (handle_action_failure action event e policy s x)
          else
            let delay := calculate_backoff (jitter w) attempt c in
            retry_loop fuel (attempt + 1) action event c policy s (did (Slept delay) (sleep delay w) x)
      end
  end.
Definition enough_attempts (c : RetryConfig) : nat := Z.to_nat (Z.max 1 c.(max_attempts)).
Definition execute_action_with_retry (action : ActionConfig) (event : Event.EntityEvent) (c : RetryConfig) (policy : FailurePolicy)
    (s : ExecutionSummary) (x : Run W) : option (ExecutionSummary * Run W) :=
  retry_loop (enough_attempts c) 1 action event c policy s x.

(** *** An event *)
Definition condition_holds (condition : string) (event : Event.EntityEvent) (x : Run W) : result ObserverError bool * Run W :=
  match x.(condition_cache) !! condition with
  | Some ast => (evaluate ast event, x)
  | None =>
      match Parser.parse condition with
      | Ok ast => (evaluate ast event, mkRun (<[condition := ast]> x.(condition_cache)) x.(dlq_push_count) x.(steps) x.(world))
      | Err e => (Err e, x)
      end
  end.
Fixpoint run_actions (actions : list ActionConfig) (event : Event.EntityEvent) (o : ObserverDefinition) (s : ExecutionSummary) (x : Run W)
    : option (ExecutionSummary * Run W) :=
  match actions with
  | [] => Some (s, x)
  | action :: actions =>
      '(s, x) ← execute_action_with_retry action event o.(retry) o.(on_failure) s x; run_actions actions event o s x
  end.
Definition run_observer (event : Event.EntityEvent) (o : ObserverDefinition) (s : ExecutionSummary) (x : Run W)
    : option (ExecutionSummary * Run W) :=
  match o.(condition) with
  | None => run_actions o.(actions) event o s x
  | Some c =>
      let '(holds, x) := condition_holds c event x in
      match holds with
      | Ok true => run_actions o.(actions) event o s x
      | Ok false => Some (add_skip s, x)
      | Err e => Some (add_error (to_string e) s, x)
      end
  end.
Fixpoint run_observers (event : Event.EntityEvent) (observers : list ObserverDefinition) (s : ExecutionSummary) (x : Run W)
    : option (ExecutionSummary * Run W) :=
  match observers with
  | [] => Some (s, x)
  | o :: observers => '(s, x) ← run_observer event o s x; run_observers event observers s x
  end.
Definition process_event (event : Event.EntityEvent) (x : Run W) : option (ExecutionSummary * Run W) :=
  run_observers event (EventMatcher.find_matches to_uppercase event matcher) new_summary x.

(** *** A stream of events *)
(** What a transport hands over: the summaries are logged only. *)
Definition on_delivery (d : result ObserverError Event.EntityEvent) (x : Run W) : option (Run W) :=
  match d with
  | Ok event => '(_, x) ← process_event event x; Some x
  | Err (DeserializationError raw reason) =>
      let '(_, w) := push_raw raw reason x.(world) in Some (mkRun x.(condition_cache) x.(dlq_push_count) x.(steps) w)
  | Err _ => Some x
  end.
Fixpoint on_deliveries (ds : list (result ObserverError Event.EntityEvent)) (x : Run W) : option (Run W) :=
  match ds with [] => Some x | d :: ds => x ← on_delivery d x; on_deliveries ds x end.
(** [subscription] is the answer to [subscribe]: the stream until it ends. *)
Definition run_with_transport (subscription : result ObserverError (list (result ObserverError Event.EntityEvent))) (x : Run W)
    : option (result ObserverError unit * Run W) :=
  match subscription with
  | Err e => Some (Err e, x)
  | Ok ds => x ← on_deliveries ds x; Some (Ok (), x)
  end.
End Executor.
End ObserverExecutor.

(** ** What is done about an event *)
Section Handled.
Context {W : Type} (to_uppercase : string -> string) (debug : option string -> string) (from_str : string -> option json)
  (dispatch : ActionConfig -> Event.EntityEvent -> W -> result ObserverError ActionResult * W)
  (timeout : Z -> (W -> result ObserverError ActionResult * W) -> W -> option (result ObserverError ActionResult) * W)
  (sleep : Z -> W -> W) (jitter : W -> Z -> Z) (push : Event.EntityEvent -> ActionConfig -> string -> W -> result ObserverError unit * W)
  (action_hash : ActionConfig -> string) (observers : list ObserverDefinition) (max_dlq_size action_timeout_ms : option Z)
  (cache_backend : option (CacheBackend W)).
#[local] Notation to_string := (ObserverError.to_string debug).
#[local] Notation retry_loop := (ObserverExecutor.retry_loop debug dispatch timeout sleep jitter push action_hash max_dlq_size action_timeout_ms cache_backend).
#[local] Notation run_actions := (ObserverExecutor.run_actions debug dispatch timeout sleep jitter push action_hash max_dlq_size action_timeout_ms cache_backend).
#[local] Notation run_observers := (ObserverExecutor.run_observers debug from_str dispatch timeout sleep jitter push action_hash max_dlq_size action_timeout_ms cache_backend).
#[local] Notation process_event := (ObserverExecutor.process_event to_uppercase debug from_str dispatch timeout sleep jitter push action_hash
  (EventMatcher.build to_uppercase observers) max_dlq_size action_timeout_ms cache_backend).

(** *** One attempt, as it should be *)
(** A result is kept for one action, its hash, and one event with what it
    concerns. *)
Definition result_key (event : Event.EntityEvent) (a : ActionConfig) : string :=
  String.concat ":" ["action_result"%string; event.(Event.id); action_hash a; event.(Event.entity_type); event.(Event.entity_id)].
Lemma cache_key_spec event a : ObserverExecutor.cache_key action_hash event a = result_key event a.
Proof. unfold ObserverExecutor.cache_key, result_key. cbn. done. Qed.
(** No result was kept: the action is one that is not cached, there is no cache,
    or the cache was asked and had none. *)
Definition missed (event : Event.EntityEvent) (a : ActionConfig) (w w1 : W) : Prop :=
  match cache_backend with
  | Some cache =>
      if ObserverExecutor.is_cache_action a then w1 = w
      else exists r, cache.(cache_get) (result_key event a) w = (r, w1) /\ forall hit, r <> Ok (Some hit)
  | None => w1 = w
  end.
(** The action was dispatched, and the time limit, if there is one, applied to
    just that. *)
Definition dispatched (event : Event.EntityEvent) (a : ActionConfig) (w : W) (r : result ObserverError ActionResult) (w1 : W) : Prop :=
  match action_timeout_ms with
  | Some ms => exists o, timeout ms (dispatch a event) w = (o, w1) /\ r = default (Err (ObserverExecutor.timed_out a ms)) o
  | None => dispatch a event w = (r, w1)
  end.
(** A successful result is kept. *)
Definition keeps (event : Event.EntityEvent) (a : ActionConfig) (r : result ObserverError ActionResult) (w : W) : W :=
  match cache_backend, r with
  | Some cache, Ok res =>
      if negb (ObserverExecutor.is_cache_action a) && res.(success) then (cache.(cache_set) (result_key event a) res w).2 else w
  | _, _ => w
  end.
(** An attempt is answered by a result that was kept, or by running the action. *)
Inductive answered (event : Event.EntityEvent) (a : ActionConfig) (w : W) : result ObserverError ActionResult -> W -> Prop :=
| answered_kept cache r w1 : cache_backend = Some cache -> ObserverExecutor.is_cache_action a = false ->
    cache.(cache_get) (result_key event a) w = (Ok (Some r), w1) -> answered event a w (Ok r) w1
| answered_run w1 r w2 : missed event a w w1 -> dispatched event a w1 r w2 -> answered event a w r (keeps event a r w2).
Lemma attempt_answered event a w :
  let '(r, w1) := ObserverExecutor.execute_action_internal dispatch timeout action_hash action_timeout_ms cache_backend a event w in answered event a w r w1.
Proof.
  unfold ObserverExecutor.execute_action_internal.
  destruct (if ObserverExecutor.is_cache_action a then _ else _) as [hit w0] eqn:Eg.
  assert (Hhit : match hit with
                 | Some r => exists cache, cache_backend = Some cache /\ ObserverExecutor.is_cache_action a = false
                     /\ cache.(cache_get) (result_key event a) w = (Ok (Some r), w0)
                 | None => missed event a w w0
                 end).
  { unfold ObserverExecutor.try_cache_get, missed in *. rewrite cache_key_spec in Eg. destruct (ObserverExecutor.is_cache_action a), cache_backend as [cache|]; try (by injection Eg as <- <-).
    destruct (cache.(cache_get) _ w) as [r w'] eqn:Er. destruct r as [[r|]|e]; injection Eg as <- <-; [by exists cache|eexists; split; [done|congruence]..]. }
  destruct hit as [r|]; [destruct Hhit as (cache & H1 & H2 & H3); by eapply answered_kept|].
  destruct (match action_timeout_ms with Some _ => _ | None => _ end) as [r w1] eqn:Ed.
  assert (Hd : dispatched event a w0 r w1).
  { unfold dispatched. destruct action_timeout_ms as [ms|]; [|done]. destruct (timeout ms _ w0) as [o w']. injection Ed as <- <-. by exists o. }
  pose proof (answered_run event a w w0 r w1 Hhit Hd) as H. unfold keeps in H. destruct r as [res|e]; [|by destruct cache_backend].
  unfold ObserverExecutor.cache_store. rewrite cache_key_spec. destruct (ObserverExecutor.is_cache_action a), cache_backend as [cache|]; try done.
Qed.

(** The attempts of an action from the [n]-th on: after each but the last there
    was an error that can pass and a wait, and the last one succeeded, failed
    for good, or was the last allowed. *)
Inductive attempts (c : RetryConfig) (event : Event.EntityEvent) (a : ActionConfig) : Z -> W -> list Step -> W -> option ObserverError -> Prop :=
| attempts_ok n w r w1 : answered event a w (Ok r) w1 -> attempts c event a n w [Tried a (Ok r)] w1 None
| attempts_end n w e w1 : answered event a w (Err e) w1 -> is_transient e = false \/ c.(max_attempts) <= n ->
    attempts c event a n w [Tried a (Err e)] w1 (Some e)
| attempts_again n w e w1 l w' o : answered event a w (Err e) w1 -> is_transient e = true -> n < c.(max_attempts) ->
    let ms := calculate_backoff (jitter w1) n c in
    attempts c event a (n + 1) (sleep ms w1) l w' o -> attempts c event a n w (Tried a (Err e) :: Slept ms :: l) w' o.

(** What became of an action: it succeeded, its failure was only logged, or it
    was put on the dead letter queue, which can fail too.  [k] counts what was
    put on the queue: a failure that belongs there is only logged when the
    count has reached the limit. *)
Inductive Outcome : Type := Succeeded | Logged (e : ObserverError) | Queued (e : ObserverError) (ok : bool).
Inductive handled (event : Event.EntityEvent) (o : ObserverDefinition) (a : ActionConfig) (n : Z) (w : W) (k : Z) : list Step -> W -> Z -> Outcome -> Prop :=
| handled_ok l w' : attempts o.(retry) event a n w l w' None -> handled event o a n w k l w' k Succeeded
| handled_logged l w' e : attempts o.(retry) event a n w l w' (Some e) ->
    o.(on_failure) <> Dlq \/ (exists max, max_dlq_size = Some max /\ max <= k) ->
    handled event o a n w k l w' k (Logged e)
| handled_queued l w1 e r w' : attempts o.(retry) event a n w l w1 (Some e) -> o.(on_failure) = Dlq ->
    (forall max, max_dlq_size = Some max -> k < max) -> push event a (to_string e) w1 = (r, w') ->
    handled event o a n w k (l ++ [Pushed a (to_string e) (is_ok r)]) w' (if is_ok r then u64_wrap (k + 1) else k) (Queued e (is_ok r)).
(** A list of actions with their observers, one after the other. *)
Fixpoint all_handled (event : Event.EntityEvent) (todo : list (ObserverDefinition * ActionConfig)) (outs : list (list Step * Outcome))
    (w : W) (k : Z) (w' : W) (k' : Z) : Prop :=
  match todo, outs with
  | [], [] => w' = w /\ k' = k
  | (o, a) :: todo, (l, out) :: outs => exists w1 k1, handled event o a 1 w k l w1 k1 out /\ all_handled event todo outs w1 k1 w' k'
  | _, _ => False
  end.
Lemma all_handled_app event todo1 todo2 outs1 outs2 w k w1 k1 w2 k2 :
  all_handled event todo1 outs1 w k w1 k1 -> all_handled event todo2 outs2 w1 k1 w2 k2 -> all_handled event (todo1 ++ todo2) (outs1 ++ outs2) w k w2 k2.
Proof.
  revert outs1 w k. induction todo1 as [|[o a] todo IH]; intros [|[l out] outs] w k; cbn; try done; [by intros [-> ->]|].
  intros (w3 & k3 & H1 & H2) H3. exists w3, k3. split; [done|]. by apply IH.
Qed.
Definition succeeded (out : Outcome) : bool := match out with Succeeded => true | _ => false end.
Definition unqueued (out : Outcome) : bool := match out with Queued _ false => true | _ => false end.

(** What the outcomes add to a summary. *)
Definition counts (outs : list Outcome) (s s' : ExecutionSummary) : Prop :=
  s'.(successful_actions) = s.(successful_actions) + Z.of_nat (length (List.filter succeeded outs))
  /\ s'.(failed_actions) = s.(failed_actions) + Z.of_nat (length (List.filter (fun o => negb (succeeded o)) outs))
  /\ s'.(dlq_errors) = s.(dlq_errors) + Z.of_nat (length (List.filter unqueued outs))
  /\ s'.(conditions_skipped) = s.(conditions_skipped) /\ s'.(errors) = s.(errors).
Lemma counts_nil s : counts [] s s.
Proof. unfold counts. cbn. split_and!; (done || lia). Qed.
Lemma counts_app outs outs' s s' s'' : counts outs s s' -> counts outs' s' s'' -> counts (outs ++ outs') s s''.
Proof.
  unfold counts. rewrite !List.filter_app, !length_app, !Nat2Z.inj_add. intros (-> & -> & -> & -> & ->) (-> & -> & -> & -> & ->). split_and!; (done || lia).
Qed.

Lemma retry_handled fuel o a event n s x :
  o.(retry).(max_attempts) - n < Z.of_nat fuel -> fuel <> O ->
  exists s' x' l out, retry_loop fuel n a event o.(retry) o.(on_failure) s x = Some (s', x')
    /\ x'.(condition_cache) = x.(condition_cache) /\ x'.(steps) = x.(steps) ++ l
    /\ handled event o a n x.(world) x.(dlq_push_count) l x'.(world) x'.(dlq_push_count) out /\ counts [out] s s'.
Proof.
  revert n s x. induction fuel as [|fuel IH]; intros n s x Hf Hz; [done|]. cbn [ObserverExecutor.retry_loop].
  pose proof (attempt_answered event a x.(world)) as Ha.
  destruct (ObserverExecutor.execute_action_internal _ _ _ _ _ _ _ _) as [r w]. destruct r as [res|e].
  { exists (add_success (duration_ms res) s), (ObserverExecutor.did (Tried a (Ok res)) w x), [Tried a (Ok res)], Succeeded.
    split_and!; [done..| |]. { constructor. by constructor. } unfold counts. cbn. split_and!; (done || lia). }
  destruct (negb (is_transient e) || (o.(retry).(max_attempts) <=? n)) eqn:Elast.
  - assert (Hend : attempts o.(retry) event a n x.(world) [Tried a (Err e)] w (Some e)).
    { constructor; [done|]. apply orb_true_iff in Elast as [H|H]; [left; by apply negb_true_iff in H|right; lia]. }
    unfold ObserverExecutor.handle_action_failure. destruct (o.(on_failure)) eqn:Ep.
    1,2: exists (add_failure s), (ObserverExecutor.did (Tried a (Err e)) w x), [Tried a (Err e)], (Logged e); split_and!; [done..| |];
      [constructor; [done|left; congruence]|unfold counts; cbn; split_and!; (done || lia)].
    destruct (ObserverExecutor.dlq_full max_dlq_size _) eqn:Efull; unfold ObserverExecutor.dlq_full in Efull; cbn [ObserverExecutor.did dlq_push_count] in Efull.
    { exists (add_failure s), (ObserverExecutor.did (Tried a (Err e)) w x), [Tried a (Err e)], (Logged e). split_and!; [done..| |].
      - constructor; [done|right]. destruct max_dlq_size as [max|]; [|done]. exists max. split; [done|by apply Z.leb_le].
      - unfold counts. cbn. split_and!; (done || lia). }
    cbn [ObserverExecutor.did world]. destruct (push event a (to_string e) w) as [r w'] eqn:Epush.
    assert (Hroom : forall max, max_dlq_size = Some max -> x.(dlq_push_count) < max) by (intros max ->; lia).
    pose proof (handled_queued event o a n x.(world) x.(dlq_push_count) [Tried a (Err e)] w e r w' Hend Ep Hroom Epush) as Hq.
    destruct r as [[]|e']; (eexists _, _, [Tried a (Err e); Pushed a (to_string e) _], (Queued e _);
      split_and!; [done|done|cbn; by rewrite <- app_assoc|exact Hq|unfold counts; cbn; split_and!; (done || lia)]).
  - apply orb_false_iff in Elast as [Ht%negb_false_iff Hn]. apply Z.leb_gt in Hn.
    match goal with |- context [retry_loop fuel (n + 1) a event _ _ s ?y] => destruct (IH (n + 1) s y) as (s' & x' & l & out & H1 & H2 & H3 & H4 & H5); [lia| |] end.
    { intros ->. lia. }
    exists s', x', (Tried a (Err e) :: Slept (calculate_backoff (jitter w) n o.(retry)) :: l), out. split_and!; [exact H1|exact H2| | |exact H5].
    + rewrite H3. cbn. by rewrite <- !app_assoc.
    + cbn [ObserverExecutor.did world dlq_push_count] in H4. inversion H4; subst.
      * constructor. by eapply attempts_again.
      * constructor; [by eapply attempts_again|done].
      * rewrite !app_comm_cons. eapply handled_queued; [by eapply attempts_again|done..].
Qed.

Lemma actions_handled o event actions s x :
  exists s' x' outs, run_actions actions event o s x = Some (s', x')
    /\ x'.(condition_cache) = x.(condition_cache) /\ x'.(steps) = x.(steps) ++ concat outs.*1
    /\ all_handled event (map (pair o) actions) outs x.(world) x.(dlq_push_count) x'.(world) x'.(dlq_push_count) /\ counts outs.*2 s s'.
Proof.
  revert s x. induction actions as [|a actions IH]; intros s x.
  { exists s, x, []. cbn. rewrite app_nil_r. split_and!; [done..|apply counts_nil]. }
  cbn [ObserverExecutor.run_actions]. unfold ObserverExecutor.execute_action_with_retry.
  destruct (retry_handled (ObserverExecutor.enough_attempts o.(retry)) o a event 1 s x) as (s1 & x1 & l & out & -> & Hc & Hl & Hh & Hs);
    [unfold ObserverExecutor.enough_attempts; lia..|]. cbn [mbind option_bind].
  destruct (IH s1 x1) as (s2 & x2 & outs & -> & Hc2 & Hl2 & Hh2 & Hs2). exists s2, x2, ((l, out) :: outs). split_and!; [done|congruence| | |].
  - rewrite Hl2, Hl. cbn. by rewrite app_assoc.
  - by exists x1.(world), x1.(dlq_push_count).
  - by apply (counts_app [out] _ s s1).
Qed.

(** A condition is parsed once; what is kept is what it parses to. *)
Definition parsed (cache : strmap ConditionAst) : Prop := map_Forall (fun c ast => Parser.parse c = Ok ast) cache.
Definition holds (event : Event.EntityEvent) (o : ObserverDefinition) : result ObserverError bool :=
  match o.(condition) with None => Ok true | Some c => Evaluator.parse_and_evaluate from_str c event end.
Lemma condition_cached c event (x : Run W) :
  parsed x.(condition_cache) ->
  exists x', ObserverExecutor.condition_holds from_str c event x = (Evaluator.parse_and_evaluate from_str c event, x')
    /\ parsed x'.(condition_cache) /\ x'.(steps) = x.(steps) /\ x'.(world) = x.(world) /\ x'.(dlq_push_count) = x.(dlq_push_count).
Proof.
  intros Hp. unfold ObserverExecutor.condition_holds, Evaluator.parse_and_evaluate. destruct (x.(condition_cache) !! c) as [ast|] eqn:E.
  - exists x. by rewrite (Hp c ast E).
  - destruct (Parser.parse c) as [ast|e] eqn:Ea; [|by exists x]. eexists. split; [done|]. split; [|done]. cbn. by apply map_Forall_insert_2.
Qed.
Definition to_run (event : Event.EntityEvent) (os : list ObserverDefinition) : list (ObserverDefinition * ActionConfig) :=
  flat_map (fun o => match holds event o with Ok true => map (pair o) o.(actions) | _ => [] end) os.
Definition not_met (event : Event.EntityEvent) (o : ObserverDefinition) : bool := match holds event o with Ok false => true | _ => false end.
Definition broken (event : Event.EntityEvent) (o : ObserverDefinition) : bool := match holds event o with Err _ => true | _ => false end.
Definition number {A} (f : A -> bool) (l : list A) : Z := Z.of_nat (length (List.filter f l)).

(** What a list of observers adds: [outs] are what became of the actions. *)
Definition observed (event : Event.EntityEvent) (os : list ObserverDefinition) (outs : list Outcome) (s s' : ExecutionSummary) : Prop :=
  s'.(successful_actions) = s.(successful_actions) + Z.of_nat (length (List.filter succeeded outs))
  /\ s'.(failed_actions) = s.(failed_actions) + Z.of_nat (length (List.filter (fun o => negb (succeeded o)) outs))
  /\ s'.(dlq_errors) = s.(dlq_errors) + Z.of_nat (length (List.filter unqueued outs))
  /\ s'.(conditions_skipped) = s.(conditions_skipped) + number (not_met event) os
  /\ Z.of_nat (length s'.(errors)) = Z.min 100 (Z.of_nat (length s.(errors)) + number (broken event) os).
Lemma number_cons {A} (f : A -> bool) a l : number f (a :: l) = (if f a then 1 else 0) + number f l.
Proof. unfold number. cbn. destruct (f a); cbn [length]; lia. Qed.
Lemma observed_nil event s : (length s.(errors) <= 100)%nat -> observed event [] [] s s.
Proof. intros H. unfold observed, number. cbn. split_and!; lia. Qed.
Lemma observed_app event o os outs1 outs2 s s1 s2 :
  observed event [o] outs1 s s1 -> observed event os outs2 s1 s2 -> observed event (o :: os) (outs1 ++ outs2) s s2.
Proof.
  unfold observed. rewrite !List.filter_app, !length_app, !Nat2Z.inj_add, !number_cons.
  assert (Hnil : forall f : ObserverDefinition -> bool, number f [] = 0) by done. rewrite !Hnil.
  assert (0 <= number (broken event) os) by apply Nat2Z.is_nonneg.
  intros (H1 & H2 & H3 & H4 & H5) (K1 & K2 & K3 & K4 & K5). split_and!; lia.
Qed.

Lemma observer_handled event o s x : parsed x.(condition_cache) -> (length s.(errors) <= 100)%nat ->
  exists s' x' outs, ObserverExecutor.run_observer debug from_str dispatch timeout sleep jitter push action_hash max_dlq_size action_timeout_ms
      cache_backend event o s x = Some (s', x')
    /\ parsed x'.(condition_cache) /\ x'.(steps) = x.(steps) ++ concat outs.*1
    /\ all_handled event (to_run event [o]) outs x.(world) x.(dlq_push_count) x'.(world) x'.(dlq_push_count) /\ observed event [o] outs.*2 s s'.
Proof.
  intros Hp Hs. assert (Hrun : forall x1, parsed x1.(condition_cache) -> x1.(steps) = x.(steps) -> x1.(world) = x.(world) -> x1.(dlq_push_count) = x.(dlq_push_count) -> holds event o = Ok true ->
    exists s' x' outs, run_actions o.(actions) event o s x1 = Some (s', x') /\ parsed x'.(condition_cache)
    /\ x'.(steps) = x.(steps) ++ concat outs.*1 /\ all_handled event (to_run event [o]) outs x.(world) x.(dlq_push_count) x'.(world) x'.(dlq_push_count) /\ observed event [o] outs.*2 s s').
  { intros x1 Hp1 Hx1 Hw1 Hk1 Ho. destruct (actions_handled o event o.(actions) s x1) as (s' & x' & outs & H1 & H2 & H3 & H4 & (K1 & K2 & K3 & K4 & K5)).
    exists s', x', outs. split_and!; [done|by rewrite H2|by rewrite H3, Hx1| |].
    - unfold to_run. cbn. by rewrite Ho, app_nil_r, <- Hw1, <- Hk1.
    - unfold observed, number, not_met, broken. cbn. rewrite Ho, K5. cbn. split_and!; (done || lia). }
  unfold ObserverExecutor.run_observer. destruct (o.(condition)) as [c|] eqn:Ec; [|apply Hrun; [done..|by unfold holds; rewrite Ec]].
  destruct (condition_cached c event x Hp) as (x1 & -> & Hp1 & Hx1 & Hw1 & Hk1).
  assert (Ho : holds event o = Evaluator.parse_and_evaluate from_str c event) by (unfold holds; by rewrite Ec).
  destruct (Evaluator.parse_and_evaluate from_str c event) as [[|]|e]; [by apply Hrun| |].
  - exists (add_skip s), x1, []. unfold to_run, observed, number, not_met, broken. cbn. rewrite Ho, app_nil_r. cbn. split_and!; (done || constructor || lia).
  - exists (add_error (to_string e) s), x1, []. unfold to_run, observed, number, not_met, broken. cbn [flat_map List.filter fmap list_fmap]. rewrite Ho.
    unfold add_error. destruct (Nat.ltb_spec (length s.(errors)) MAX_ERROR_STRINGS) as [Hlt|Hge]; unfold MAX_ERROR_STRINGS in *;
      cbn; rewrite ?length_app, ?app_nil_r; cbn [length]; split_and!; (done || constructor || lia).
Qed.
Lemma observers_handled event os s x : parsed x.(condition_cache) -> (length s.(errors) <= 100)%nat ->
  exists s' x' outs, run_observers event os s x = Some (s', x')
    /\ parsed x'.(condition_cache) /\ x'.(steps) = x.(steps) ++ concat outs.*1
    /\ all_handled event (to_run event os) outs x.(world) x.(dlq_push_count) x'.(world) x'.(dlq_push_count) /\ observed event os outs.*2 s s'.
Proof.
  revert s x. induction os as [|o os IH]; intros s x Hp Hs.
  { exists s, x, []. cbn. rewrite app_nil_r. split_and!; [done..|constructor|by apply observed_nil]. }
  cbn [ObserverExecutor.run_observers]. destruct (observer_handled event o s x Hp Hs) as (s1 & x1 & outs1 & -> & Hp1 & Hx1 & Hf1 & Ho1). cbn [mbind option_bind].
  assert (Hs1 : (length s1.(errors) <= 100)%nat) by (destruct Ho1 as (_ & _ & _ & _ & H); lia).
  destruct (IH s1 x1 Hp1 Hs1) as (s2 & x2 & outs2 & -> & Hp2 & Hx2 & Hf2 & Ho2). exists s2, x2, (outs1 ++ outs2). split_and!; [done|done| | |].
  - by rewrite Hx2, Hx1, fmap_app, concat_app, app_assoc.
  - unfold to_run in *. cbn in Hf1 |- *. rewrite app_nil_r in Hf1. by eapply all_handled_app.
  - rewrite fmap_app. by eapply observed_app.
Qed.

(** C29. The executor ends, and what it does about an event is this and no more:
    the observers of the event's kind on its entity type, then those on every
    type; of each whose condition holds every action in turn, each tried until it
    succeeds, fails for good or was tried as often as allowed, with a wait in
    between.  An attempt dispatches the action, under the time limit if there is
    one, unless a result of it for this event is in the cache.  A failure is
    put on the dead letter queue where its observer says so and the count of
    what was put there has not reached the limit, and is logged otherwise; the
    summary counts what became of the actions, the conditions that did not hold
    and those that could not be evaluated. *)
Theorem event_handled event x (Hcache : parsed x.(condition_cache)) :
  let concerned := List.filter (EventMatcher.concerns to_uppercase (to_uppercase (Event.as_str event.(Event.event_type))) event.(Event.entity_type)) observers
                   ++ List.filter (EventMatcher.concerns to_uppercase (to_uppercase (Event.as_str event.(Event.event_type))) "*") observers in
  exists s x' outs, process_event event x = Some (s, x') /\ parsed x'.(condition_cache)
    /\ x'.(steps) = x.(steps) ++ concat outs.*1
    /\ all_handled event (to_run event concerned) outs x.(world) x.(dlq_push_count) x'.(world) x'.(dlq_push_count)
    /\ observed event concerned outs.*2 new_summary s.
Proof.
  cbv zeta. unfold ObserverExecutor.process_event. rewrite EventMatcher.find_matches_build. apply observers_handled; [done|cbn; lia].
Qed.
End Handled.

(** ** Once per event and within a tenant *)
(** The store of claims, in the world. *)
Class DeduplicationStore (W : Type) : Type := {
  claim_event : string -> W -> result string bool * W;
  is_duplicate : string -> W -> result string bool * W;
  mark_processed : string -> W -> result string unit * W;
  remove : string -> W -> result string unit * W
}.
Module RedisDeduplicationStore.
Section Store.
Context {R : Type} `{Redis R} (window_seconds : Z).
Definition dedup_key (event_key : string) : string := "dedup:v1:" ++ event_key.
Definition claim_event (now : Z) (event_key : string) (s : R) : result string bool * R :=
  redis_set_nx_ex now (dedup_key event_key) "1" window_seconds s.
Definition is_duplicate (now : Z) (event_key : string) (s : R) : result string bool * R := redis_exists now (dedup_key event_key) s.
Definition mark_processed (now : Z) (event_key : string) (s : R) : result string unit * R :=
  redis_set_ex now (dedup_key event_key) "1" window_seconds s.
Definition remove (now : Z) (event_key : string) (s : R) : result string unit * R := redis_del now [dedup_key event_key] s.
(** A world is the time, in seconds, and the server. *)
Definition at_time {A} (f : Z -> R -> A * R) (w : Z * R) : A * (Z * R) := let '(a, s) := f w.1 w.2 in (a, (w.1, s)).
#[export] Instance redis_store : DeduplicationStore (Z * R) := {
  ObserverRun.claim_event k := at_time (fun now => claim_event now k);
  ObserverRun.is_duplicate k := at_time (fun now => is_duplicate now k);
  ObserverRun.mark_processed k := at_time (fun now => mark_processed now k);
  ObserverRun.remove k := at_time (fun now => remove now k)
}.
End Store.
End RedisDeduplicationStore.

Module DeduplicationStats.
Record t : Type := mkStats { total_checked : Z; duplicates_skipped : Z; new_events : Z; hit_rate : f64 }.
Definition new : t := mkStats 0 0 0 f64_zero.
Definition record (is_duplicate : bool) (x : t) : t :=
  let total := u64_wrap (x.(total_checked) + 1) in
  let dup := if is_duplicate then u64_wrap (x.(duplicates_skipped) + 1) else x.(duplicates_skipped) in
  let fresh := if is_duplicate then x.(new_events) else u64_wrap (x.(new_events) + 1) in
  mkStats total dup fresh (if 0 <? total then f64_div (f64_of_Z dup) (f64_of_Z total) else x.(hit_rate)).
Definition reset (x : t) : t := new.
End DeduplicationStats.

Inductive TenantScope : Type := Unrestricted | Single (required : string) | AllowList (allowed : list string).
Module DedupedObserverExecutor.
Section Executor.
Context (tenant_scope : TenantScope).
Definition tenant_allowed (event_tenant : option string) : bool :=
  match tenant_scope with
  | Unrestricted => true
  | Single required => match event_tenant with Some t => t =s required | None => false end
  | AllowList allowed => match event_tenant with Some t => existsb (fun a => a =s t) allowed | None => false end
  end.
Definition scope_description : string :=
  match tenant_scope with
  | Unrestricted => "Unrestricted"
  | Single required => "Single(" ++ required ++ ")"
  | AllowList allowed => "AllowList([" ++ join ", " allowed ++ "])"
  end.
Definition rejected : ExecutionSummary := mkSummary 0 0 0 f64_zero 0 [] false true 0 0.
Definition skipped : ExecutionSummary := mkSummary 0 0 0 f64_zero 0 [] true false 0 0.

Context {W : Type} `{DeduplicationStore W} (debug : option string -> string) (to_vec : Event.EntityEvent -> option (list Byte.byte))
  (push_raw : list Byte.byte -> string -> W -> result ObserverError unit * W)
  (inner : Event.EntityEvent -> Run W -> option (ExecutionSummary * Run W)).
Definition event_key (event : Event.EntityEvent) : string := "event:" ++ event.(Event.id).
Definition quote (s : string) : string := let q := String (Ascii.ascii_of_nat 34) EmptyString in q ++ s ++ q.
Definition placeholder (event : Event.EntityEvent) : list Byte.byte :=
  String.list_byte_of_string ("{" ++ quote "error" ++ ":" ++ quote "serialization_failed" ++ "," ++ quote "event_id" ++ ":"
                              ++ quote event.(Event.id) ++ "}").
Definition in_world {A} (f : W -> A * W) (x : Run W) : A * Run W :=
  let '(a, w) := f x.(world) in (a, mkRun x.(condition_cache) x.(dlq_push_count) x.(steps) w).
(** A store that does not answer lets the event through. *)
Definition claim (event : Event.EntityEvent) (x : Run W) : bool * Run W :=
  let '(r, x) := in_world (claim_event (event_key event)) x in (match r with Ok claimed => claimed | Err _ => true end, x).
Definition to_retry (s : ExecutionSummary) : bool := (0 <? s.(failed_actions)) || (0 <? s.(dlq_errors)).
Definition unclaim (event : Event.EntityEvent) (s : ExecutionSummary) (x : Run W) : Run W :=
  if to_retry s then snd (in_world (remove (event_key event)) x) else x.
Definition process_event (event : Event.EntityEvent) (x : Run W) : option (ExecutionSummary * Run W) :=
  if negb (tenant_allowed event.(Event.tenant_id)) then
    let violation := TenantViolation event.(Event.tenant_id) scope_description in
    let raw := default (placeholder event) (to_vec event) in
    let '(_, x) := in_world (push_raw raw (ObserverError.to_string debug violation)) x in
    Some (rejected, x)
  else
    let '(claimed, x) := claim event x in
    if negb claimed then Some (skipped, x)
    else '(s, x) ← inner event x; Some (s, unclaim event s x).
End Executor.
End DedupedObserverExecutor.

(** *** Workers on one server *)
Section Workers.
Context {R : Type} `{RL : RedisLaws R} (window : Z) (Hwindow : 0 < window).
(** What workers did, newest first: a worker started on an event, with the time
    and whether the server gave it the claim, skipped it, or ended, and whether
    the event is to be tried again. *)
Inductive Did : Type :=
| Began (worker : nat) (event : string) (at_ : Z) (claimed : bool)
| Passed (worker : nat) (event : string) (at_ : Z)
| Ended (worker : nat) (event : string) (at_ : Z) (retry : bool).
Record Workers : Type := mkWorkers { clock : Z; server : R; log : list Did }.
#[local] Notation claim_of := (RedisDeduplicationStore.claim_event window).
Definition dedup_begin (worker : nat) (event : string) (x : Workers) : Workers :=
  let '(r, s) := claim_of x.(clock) event x.(server) in
  mkWorkers x.(clock) s (match r with
                         | Ok true => Began worker event x.(clock) true
                         | Ok false => Passed worker event x.(clock)
                         | Err _ => Began worker event x.(clock) false
                         end :: x.(log)).
Definition dedup_end (worker : nat) (event : string) (retry : bool) (x : Workers) : Workers :=
  let s := if retry then snd (RedisDeduplicationStore.remove x.(clock) event x.(server)) else x.(server) in
  mkWorkers x.(clock) s (Ended worker event x.(clock) retry :: x.(log)).
(** Workers take their steps in any order, an end only after its beginning. *)
Inductive worker_step : Workers -> Workers -> Prop :=
| ws_tick d x : 0 <= d -> worker_step x (mkWorkers (x.(clock) + d) x.(server) x.(log))
| ws_begin worker event x : worker_step x (dedup_begin worker event x)
| ws_end worker event t b retry x : In (Began worker event t b) x.(log) -> worker_step x (dedup_end worker event retry x).
Definition worker_run : Workers -> Workers -> Prop := rtc worker_step.

Definition to_retry_in (event : string) (l : list Did) : Prop := exists worker t, In (Ended worker event t true) l.
(** A claim holds its window unless the event was to be tried again since. *)
Definition claims_hold (x : Workers) : Prop :=
  forall l2 worker event t l1, x.(log) = l2 ++ Began worker event t true :: l1 ->
    held x.(clock) (t + window) (RedisDeduplicationStore.dedup_key event) "1" x.(server) \/ to_retry_in event l2.
Lemma dedup_key_inj e e' : RedisDeduplicationStore.dedup_key e = RedisDeduplicationStore.dedup_key e' -> e = e'.
Proof. unfold RedisDeduplicationStore.dedup_key. by injection 1. Qed.
Lemma to_retry_cons event d l : to_retry_in event l -> to_retry_in event (d :: l).
Proof. intros (w & t & Hin). exists w, t. by right. Qed.
Lemma claims_later x d s : claims_hold x ->
  (forall until k, held x.(clock) until k "1" x.(server) -> held x.(clock) until k "1" s) ->
  (forall worker event t, d = Began worker event t true -> held x.(clock) (t + window) (RedisDeduplicationStore.dedup_key event) "1" s) ->
  claims_hold (mkWorkers x.(clock) s (d :: x.(log))).
Proof.
  intros Hx Hs Hd l2 worker event t l1 E. cbn in E |- *. destruct l2 as [|d' l2]; injection E as -> E; [left; by eapply Hd|].
  destruct (Hx _ _ _ _ _ E) as [Hh|Hh]; [left; by apply Hs|right; by apply to_retry_cons].
Qed.
Lemma claims_hold_step x y : worker_step x y -> claims_hold x -> claims_hold y.
Proof.
  intros [d x' Hd|worker event x'|worker event t b retry x' Hin] Hx.
  - intros l2 worker event t l1 E. cbn in E |- *. destruct (Hx _ _ _ _ _ E) as [Hh|Hh]; [|by right]. left. eapply held_later; [done|lia].
  - unfold dedup_begin. destruct (claim_of _ event _) as [r s] eqn:Ec. apply claims_later; [done| |].
    + intros u k Hh. by eapply held_set_nx.
    + destruct r as [[|]|]; intros w' e' t' [= <- <- <-]. by apply (set_nx_held _ _ _ _ _ _ Hwindow Ec).
  - unfold dedup_end. destruct retry; [|by apply claims_later].
    intros l2 worker' event' t' l1 E. cbn in E |- *. destruct l2 as [|d' l2]; [done|]. injection E as <- E.
    destruct (decide (event' = event)) as [->|Hne]; [right; exists worker, x'.(clock); by left|].
    destruct (Hx _ _ _ _ _ E) as [Hh|Hh]; [|right; by apply to_retry_cons]. left.
    unfold RedisDeduplicationStore.remove. destruct (redis_del _ _ _) as [r s] eqn:Er. cbn.
    eapply held_del; [|done|done]. intros He%dedup_key_inj. done.
Qed.

(** C31. However many workers share a server and in whatever order they take their
    steps: when two of them are given the claim of the same event less than a
    window apart, the processing of that event was reported to be tried again
    in between. *)
Theorem restart_needs_failure x y l3 worker2 event t2 l2 worker1 t1 l1 :
  x.(log) = [] -> worker_run x y ->
  y.(log) = l3 ++ Began worker2 event t2 true :: l2 ++ Began worker1 event t1 true :: l1 ->
  t2 < t1 + window -> to_retry_in event l2.
Proof.
  intros Hx Hrun. revert l3. assert (H0 : claims_hold x) by (intros [|] ? ? ? ? E; by rewrite Hx in E).
  cut (claims_hold y /\ forall l3, y.(log) = l3 ++ Began worker2 event t2 true :: l2 ++ Began worker1 event t1 true :: l1 ->
    t2 < t1 + window -> to_retry_in event l2); [by intros [_ Hy]|].
  revert y Hrun. apply rtc_ind_r; [split; [done|]; intros [|] E; by rewrite Hx in E|]. intros y z Hrun Hstep [Hy IH].
  split; [by eapply claims_hold_step|]. destruct Hstep as [d y Hd|worker event' y|worker event' t b retry y Hin]; [exact IH| |].
  - unfold dedup_begin. destruct (claim_of _ event' _) as [r s] eqn:Ec. intros [|d l3] E Hw; cbn in E; injection E as Ed E; [|by eapply IH].
    destruct r as [[|]|]; try done. injection Ed as -> -> <-.
    destruct (Hy _ _ _ _ _ E) as [Hh|Hh]; [|done]. pose proof (set_nx_free _ _ _ _ _ _ _ _ Hwindow Hh Ec). lia.
  - unfold dedup_end. intros [|d l3] E Hw; cbn in E; injection E as Ed E; [done|by eapply IH].
Qed.
End Workers.

(** ** Concrete events *)
Module RunDemo.
Definition event : Event.EntityEvent := Event.mkEvent "e1" Event.Created "Order" "o1" (JObject []) None None None 0.
Definition hook : ActionConfig := Webhook (Some "https://hooks.example/"%string) None ∅ None.
Definition twice : RetryConfig := {| max_attempts := 2; initial_delay_ms := 100; max_delay_ms := 1000; backoff_strategy := Fixed |}.
Definition observer (entity : string) (condition : option string) : ObserverDefinition :=
  {| event_type_name := "INSERT"; entity := entity; condition := condition; actions := [hook]; retry := twice; on_failure := Dlq |}.
(** The world counts calls: the first fails and can pass, later ones succeed. *)
Definition flaky (_ : ActionConfig) (_ : Event.EntityEvent) (n : nat) : result ObserverError ActionResult * nat :=
  (match n with O => Err (ActionExecutionFailed "503") | S _ => Ok (mkResult "webhook" true "HTTP 200" f64_zero) end, S n).
Definition upper (s : string) : string := s.
Definition process (observers : list ObserverDefinition) (x : Run nat) : option (ExecutionSummary * Run nat) :=
  ObserverExecutor.process_event upper (fun _ => EmptyString) (fun _ => None) flaky (fun _ _ n => (None, n)) (fun _ n => n) (fun _ _ => 0)
    (fun _ _ _ n => (Ok (), n)) (fun _ => EmptyString) (EventMatcher.build upper observers) None None None event x.
Definition start : Run nat := mkRun ∅ 0 [] 0%nat.
Example retried : (fun r => (r.1.(successful_actions), r.2.(steps))) <$> process [observer "Order" None] start
  = Some (1, [Tried hook (Err (ActionExecutionFailed "503")); Slept 100; Tried hook (Ok (mkResult "webhook" true "HTTP 200" f64_zero))]).
Proof. vm_compute. reflexivity. Qed.
(** An event on the entity type [*] concerns an observer of [*] twice. *)
Definition star : Event.EntityEvent := Event.mkEvent "e2" Event.Created "*" "o1" (JObject []) None None None 0.
Example star_twice : EventMatcher.find_matches upper star (EventMatcher.build upper [observer "*" None]) = [observer "*" None; observer "*" None].
Proof. vm_compute. reflexivity. Qed.
(** The delay of the linear strategy wraps, and a draw can take the delay of the
    exponential one over its maximum. *)
Example delays :
  calculate_backoff (fun n => n) 2 {| max_attempts := 3; initial_delay_ms := 2 ^ 63; max_delay_ms := 30000; backoff_strategy := Linear |} = 0
  /\ calculate_backoff (fun n => n) 5 {| max_attempts := 9; initial_delay_ms := 1000; max_delay_ms := 1000; backoff_strategy := Exponential |} = 1250.
Proof. vm_compute. done. Qed.
Lemma event_handled_witness :
  parsed start.(condition_cache)
  /\ exists s x' outs, process [observer "Order" None; observer "*" (Some "has_field('total')"%string)] start = Some (s, x') /\ parsed x'.(condition_cache)
    /\ x'.(steps) = concat outs.*1 /\ s.(successful_actions) = Z.of_nat (length (List.filter succeeded outs.*2)) /\ s.(conditions_skipped) = 1.
Proof.
  assert (Hp : parsed (condition_cache start)) by apply map_Forall_empty. split; [exact Hp|].
  destruct (event_handled upper (fun _ => EmptyString) (fun _ => None) flaky (fun _ _ n => (None, n)) (fun _ n => n) (fun _ _ => 0)
    (fun _ _ _ n => (Ok (), n)) (fun _ => EmptyString) [observer "Order" None; observer "*" (Some "has_field('total')"%string)] None None None event start Hp)
    as (s & x' & outs & H1 & H2 & H3 & _ & (H4 & _ & _ & H5 & _)).
  exists s, x', outs. split_and!; [exact H1|exact H2|exact H3|exact H4|]. rewrite H5. vm_compute. reflexivity.
Defined.

Import MapRedis.
(** A worker that is slower than the window gives up the claim another worker
    has by now, and a third starts beside it. *)
Definition five_steps : list (Workers (R := MapRedis.t) -> Workers (R := MapRedis.t)) :=
  [dedup_begin 300 1 "e"; (fun x => mkWorkers (x.(clock) + 300) x.(server) x.(log)); dedup_begin 300 2 "e"; dedup_end 1 "e" true; dedup_begin 300 3 "e"].
Example slow_worker : (foldl (fun x f => f x) (mkWorkers 0 (∅ : MapRedis.t) []) five_steps).(log)
  = [Began 3 "e" 300 true; Ended 1 "e" 300 true; Began 2 "e" 300 true; Began 1 "e" 0 true].
Proof. vm_compute. reflexivity. Qed.
Lemma restart_needs_failure_witness :
  let x := mkWorkers 0 (∅ : MapRedis.t) [] in
  let y := dedup_begin 300 2 "e" (dedup_end 1 "e" true (dedup_begin 300 1 "e" x)) in
  worker_run 300 x y /\ to_retry_in "e" [Ended 1 "e" 0 true].
Proof.
  cbv zeta. assert (Hrun : worker_run 300 (mkWorkers 0 (∅ : MapRedis.t) [])
    (dedup_begin 300 2 "e" (dedup_end 1 "e" true (dedup_begin 300 1 "e" (mkWorkers 0 (∅ : MapRedis.t) []))))).
  { eapply rtc_l; [apply ws_begin|]. eapply rtc_l; [eapply (ws_end 300 1 "e" 0 true); vm_compute; by left|]. apply rtc_once, ws_begin. }
  split; [exact Hrun|].
  apply (restart_needs_failure 300 ltac:(lia) (mkWorkers 0 (∅ : MapRedis.t) []) (dedup_begin 300 2 "e" (dedup_end 1 "e" true (dedup_begin 300 1 "e" (mkWorkers 0 (∅ : MapRedis.t) [])))) [] 2 "e" 0 [Ended 1 "e" 0 true] 1 0 [] ltac:(reflexivity) Hrun); [vm_compute; reflexivity|lia].
Defined.
End RunDemo.
