(* ===== verification/ChangeLog.v ===== *)
(** * Events out of the database

    [fraiseql-observers/src/]: the change log and how its entries become events
    (listener/change_log.rs, [ChangeLogEntry] and [ChangeLogListener]), the loop
    that hands them to the executor (executor/retry.rs, [run_listener_loop]) and
    the listener on notifications (listener/mod.rs, [EventListener]).  The
    parsers of identifiers and of times, the clock, new identifiers and the
    database are arguments. *)

From Stdlib Require Import Ascii.
From stdpp Require Import pretty sorting.
From S2P Require Import Prelude ObserverError Json ObserverConfig.
#[local] Open Scope Z_scope.

(** ** Entries of the change log *)
(** A row of the table: its number, its identifier and what changed. *)
Record ChangeLogRow : Type := mkRow {
  row_pk : Z; row_id : string; row_org : option string; row_contact : option string; row_object_type : string; row_object_id : string;
  row_modification : string; row_status : option string; row_data : json; row_metadata : option json; row_created : option string
}.
Module ChangeLogEntry.
Record t : Type := mkEntry {
  id : Z; pk_entity_change_log : string; fk_customer_org : string; fk_contact : option string; object_type : string; object_id : string;
  modification_type : string; change_status : string; object_data : json; extra_metadata : option json; created_at : string
}.
(** Times are text in RFC 3339; [now] stands for one that is missing. *)
Definition of_row (now : string) (r : ChangeLogRow) : t :=
  mkEntry r.(row_pk) r.(row_id) (default EmptyString r.(row_org)) r.(row_contact) r.(row_object_type) r.(row_object_id) r.(row_modification)
    (default EmptyString r.(row_status)) r.(row_data) r.(row_metadata) (default now r.(row_created)).

(** [chars().next()] of valid UTF-8. *)
Definition continues (c : ascii) : bool := let n := Z.of_N (N_of_ascii c) in (128 <=? n) && (n <? 192).
Fixpoint rest_of_char (s : string) : string :=
  match s with String c s => if continues c then String c (rest_of_char s) else EmptyString | EmptyString => EmptyString end.
Definition first_char (s : string) : option string :=
  match s with String c s => Some (String c (rest_of_char s)) | EmptyString => None end.
Definition as_str (v : json) : option string := match v with JString s => Some s | _ => None end.
Definition debezium_operation (e : t) : result ObserverError string :=
  match (json_get e.(object_data) "op" ≫= as_str) ≫= first_char with
  | Some c => Ok c
  | None => Err (TemplateRenderingFailed "Missing 'op' field in Debezium envelope")
  end.
Definition after_values (e : t) : result ObserverError json :=
  match json_get e.(object_data) "after" with
  | Some v => Ok v
  | None => Err (TemplateRenderingFailed "Missing 'after' field in Debezium envelope")
  end.
Definition before_values (e : t) : option json := json_get e.(object_data) "before".

(** The fields that differ between two objects. *)
Definition compare_after (before : list (string * json)) (changes : strmap Event.FieldChanges) (kv : string * json) : strmap Event.FieldChanges :=
  match assoc kv.1 before with
  | Some b => if json_eqb b kv.2 then changes else <[kv.1 := {| Event.old := b; Event.new := kv.2 |}]> changes
  | None => <[kv.1 := {| Event.old := JNull; Event.new := kv.2 |}]> changes
  end.
Definition compare_before (after : list (string * json)) (changes : strmap Event.FieldChanges) (kv : string * json) : strmap Event.FieldChanges :=
  match assoc kv.1 after with
  | Some _ => changes
  | None => <[kv.1 := {| Event.old := kv.2; Event.new := JNull |}]> changes
  end.
Definition field_changes (before after : list (string * json)) : strmap Event.FieldChanges :=
  foldl (compare_before after) (foldl (compare_after before) ∅ after) before.
Definition build_field_changes (e : t) : result ObserverError (option (strmap Event.FieldChanges)) :=
  op ← debezium_operation e;
  if negb (op =s "u") then Ok None
  else
    match before_values e with
    | Some (JObject before) =>
        after ← after_values e;
        match after with
        | JObject after => let changes := field_changes before after in Ok (if bool_decide (changes = ∅) then None else Some changes)
        | _ => Ok None
        end
    | _ => Ok None
    end.

Section Convert.
Context (parse_uuid : string -> result string string) (parse_rfc3339 parse_naive : string -> result string Z).
Definition event_kind (op : string) : result ObserverError Event.EventKind :=
  if op =s "c" then Ok Event.Created else if op =s "u" then Ok Event.Updated
  else if op =s "d" then Ok Event.Deleted else if op =s "r" then Ok Event.Custom
  else Err (TemplateRenderingFailed ("Unknown operation code: " ++ op)).
Definition timestamp_of (created_at : string) : result ObserverError Z :=
  match parse_rfc3339 created_at with
  | Ok t => Ok t
  | Err _ => match parse_naive created_at with
             | Ok t => Ok t
             | Err e => Err (TemplateRenderingFailed ("Invalid timestamp format: " ++ created_at ++ " - " ++ e))
             end
  end.
(** [fresh] is a new identifier, for an entry whose own cannot be read. *)
Definition to_entity_event (fresh : string) (e : t) : result ObserverError Event.EntityEvent :=
  op ← debezium_operation e;
  kind ← event_kind op;
  entity_id ← match parse_uuid e.(object_id) with
              | Ok u => Ok u
              | Err err => Err (TemplateRenderingFailed ("Invalid entity ID (not UUID): " ++ e.(object_id) ++ " - " ++ err))
              end;
  timestamp ← timestamp_of e.(created_at);
  data ← (if decide (kind = Event.Deleted) then Ok (default (JObject []) (before_values e)) else after_values e);
  changes ← (if decide (kind = Event.Updated) then build_field_changes e else Ok None);
  Ok (Event.mkEvent (match parse_uuid e.(pk_entity_change_log) with Ok u => u | Err _ => fresh end) kind e.(object_type) entity_id data
        changes e.(fk_contact) None timestamp).
End Convert.
End ChangeLogEntry.

(** ** The listener on the change log *)
Record ChangeLogListenerConfig : Type := mkListenerConfig { poll_interval_ms : Z; batch_size : Z; resume_from_id : option Z }.
Definition default_listener_config : ChangeLogListenerConfig := mkListenerConfig 100 100 None.
Record ChangeLogListener : Type := mkListener { config : ChangeLogListenerConfig; last_processed_id : Z }.
Definition new_listener (c : ChangeLogListenerConfig) : ChangeLogListener := mkListener c (default 0 c.(resume_from_id)).
Definition set_checkpoint (id : Z) (l : ChangeLogListener) : ChangeLogListener := mkListener l.(config) id.

Module ListenerLoop.
Section Loop.
Context {X : Type} (fetch : Z -> Z -> X -> result string (list ChangeLogRow) * X) (now_text : X -> Z -> string) (sleep : Z -> X -> X)
  (new_v4 : X -> string * X).
Context (parse_uuid : string -> result string string) (parse_rfc3339 parse_naive : string -> result string Z).
(** [None] when it does not end. *)
Context (process_event : Event.EntityEvent -> X -> option X).

(** The rows after the last one fetched, [now_text] being the clock as a row is
    read; they are behind the listener before
    anything is done about them. *)
Definition next_batch (l : ChangeLogListener) (x : X) : result ObserverError (list ChangeLogEntry.t) * ChangeLogListener * X :=
  let '(r, x) := fetch l.(last_processed_id) (cast_signed l.(config).(batch_size)) x in
  match r with
  | Err e => (Err (DatabaseError ("Failed to query change log: " ++ e)), l, x)
  | Ok rows =>
      (Ok (map (fun r => ChangeLogEntry.of_row (now_text x r.(row_pk)) r) rows),
       set_checkpoint (foldl (fun _ pk => pk) l.(last_processed_id) (map row_pk rows)) l, x)
  end.
Definition process_entry (e : ChangeLogEntry.t) (x : X) : option X :=
  let '(fresh, x') := new_v4 x in
  match ChangeLogEntry.to_entity_event parse_uuid parse_rfc3339 parse_naive fresh e with
  | Ok event => process_event event (if is_ok (parse_uuid e.(ChangeLogEntry.pk_entity_change_log)) then x else x')
  | Err _ => Some x
  end.
Fixpoint process_entries (es : list ChangeLogEntry.t) (x : X) : option X :=
  match es with [] => Some x | e :: es => x ← process_entry e x; process_entries es x end.

Definition MAX_CONSECUTIVE_ERRORS : Z := 10.
Definition MAX_BACKOFF_MS : Z := 30000.
Definition loop_backoff (consecutive_errors : Z) : Z :=
  Z.min (u64_wrap (1000 * u64_saturating_pow 2 (consecutive_errors - 1))) MAX_BACKOFF_MS.
Definition at_limit (max_iterations : option nat) (iteration : nat) : bool :=
  match max_iterations with Some max => (max <=? iteration)%nat | None => false end.
(** [None] when the fuel is spent, or an event's processing does not end. *)
Fixpoint run_loop (fuel : nat) (max_iterations : option nat) (iteration : nat) (consecutive_errors : Z) (l : ChangeLogListener) (x : X)
    : option (result ObserverError unit * ChangeLogListener * X) :=
  match fuel with
  | O => None
  | S fuel =>
      if at_limit max_iterations iteration then Some (Ok (), l, x)
      else
        let '(r, l, x) := next_batch l x in
        match r with
        | Ok [] => run_loop fuel max_iterations (S iteration) 0 l (sleep 100 x)
        | Ok entries => x ← process_entries entries x; run_loop fuel max_iterations (S iteration) 0 l x
        | Err e =>
            let consecutive_errors := consecutive_errors + 1 in
            if MAX_CONSECUTIVE_ERRORS <=? consecutive_errors then Some (Err e, l, x)
            else run_loop fuel max_iterations (S iteration) consecutive_errors l (sleep (loop_backoff consecutive_errors) x)
        end
  end.
Definition run_listener_loop (fuel : nat) (max_iterations : option nat) (l : ChangeLogListener) (x : X)
    : option (result ObserverError unit * ChangeLogListener * X) := run_loop fuel max_iterations 0 0 l x.
(** One round of the listener's own loop, which has no end: what it fetches is
    dropped. *)
Definition run_once (l : ChangeLogListener) (x : X) : ChangeLogListener * X :=
  let '(r, l, x) := next_batch l x in
  match r with
  | Ok [] => (l, sleep l.(config).(poll_interval_ms) x)
  | Ok _ => (l, x)
  | Err _ => (l, sleep 1000 x)
  end.
End Loop.
End ListenerLoop.

(** ** The listener on notifications *)
Module EventListener.
(** The channel to the receiver: the events in it, its size, and whether the
    receiver is gone. *)
Record t : Type := mkEventListener { running : bool; channel : list Event.EntityEvent; channel_capacity : nat; closed : bool }.
Definition new (capacity : nat) : t := mkEventListener false [] capacity false.
Definition set_running (b : bool) (x : t) : t := mkEventListener b x.(channel) x.(channel_capacity) x.(closed).
(** [connect] and [listen] are the answers of the database. *)
Definition start (connect listen : result string unit) (x : t) : result ObserverError unit * t :=
  if x.(running) then (Err (ListenerConnectionFailed "Listener already running"), x)
  else
    let x := set_running true x in
    match connect with
    | Err e => (Err (ListenerConnectionFailed ("Failed to create listener: " ++ e)), x)
    | Ok _ => match listen with
              | Err e => (Err (ListenerConnectionFailed ("Failed to listen to channel: " ++ e)), x)
              | Ok _ => (Ok (), x)
              end
    end.
Definition stop (x : t) : t := set_running false x.
Definition is_running (x : t) : bool := x.(running).
(** [Sender::capacity]: the places that are free. *)
Definition backlog_size (x : t) : nat := x.(channel_capacity) - length x.(channel).
Definition capacity (x : t) : nat := x.(channel_capacity) - length x.(channel).
Section Task.
Context (from_str : string -> option Event.EntityEvent).
(** One round of the task: [recv] is what the connection gives; whether the
    task goes on. *)
Definition round (recv : result string string) (x : t) : bool * t :=
  if negb x.(running) then (false, x)
  else
    match recv with
    | Err _ => (false, set_running false x)
    | Ok payload =>
        match from_str payload with
        | None => (true, x)
        | Some event =>
            if x.(closed) then (false, set_running false x)
            else if (length x.(channel) <? x.(channel_capacity))%nat
                 then (true, mkEventListener x.(running) (x.(channel) ++ [event]) x.(channel_capacity) x.(closed))
                 else (true, x)
        end
    end.
End Task.
End EventListener.

(** ** What changed *)
Section Changes.
Import ChangeLogEntry.
Definition change_at (before after : option json) : option Event.FieldChanges :=
  match before, after with
  | Some b, Some a => if json_eqb b a then None else Some {| Event.old := b; Event.new := a |}
  | None, Some a => Some {| Event.old := JNull; Event.new := a |}
  | Some b, None => Some {| Event.old := b; Event.new := JNull |}
  | None, None => None
  end.
Lemma assoc_not_in {A} k (l : list (string * A)) : k ∉ l.*1 -> assoc k l = None.
Proof.
  induction l as [|[k' v] l IH]; [done|]. cbn. intros [Hk Hl]%not_elem_of_cons. destruct (k' =s k) eqn:E; [|by apply IH].
  by apply String.eqb_eq in E.
Qed.
Lemma compared_after before after m k : NoDup after.*1 ->
  foldl (compare_after before) m after !! k
  = match assoc k after with Some a => match change_at (assoc k before) (Some a) with Some c => Some c | None => m !! k end | None => m !! k end.
Proof.
  revert m. induction after as [|[k' a] after IH]; intros m; [done|]. cbn [foldl fmap list_fmap]. intros [Hk Hn]%list.NoDup_cons. rewrite IH by done. cbn [assoc].
  unfold compare_after at 1 2. cbn. destruct (k' =s k) eqn:E.
  - apply String.eqb_eq in E as ->. rewrite (assoc_not_in k after) by done. destruct (assoc k before) as [b|]; cbn; [destruct (json_eqb b a); [done|]|]; by rewrite lookup_insert_eq.
  - apply String.eqb_neq in E. destruct (assoc k' before) as [b|]; [destruct (json_eqb b a); [done|]|]; by rewrite lookup_insert_ne.
Qed.
Lemma compared_before after before m k : NoDup before.*1 ->
  foldl (compare_before after) m before !! k
  = match assoc k before, assoc k after with Some b, None => Some {| Event.old := b; Event.new := JNull |} | _, _ => m !! k end.
Proof.
  revert m. induction before as [|[k' b] before IH]; intros m; [done|]. cbn [foldl fmap list_fmap]. intros [Hk Hn]%list.NoDup_cons. rewrite IH by done. cbn [assoc].
  unfold compare_before at 1 2. cbn. destruct (k' =s k) eqn:E.
  - apply String.eqb_eq in E as ->. rewrite (assoc_not_in k before) by done. destruct (assoc k after); [done|]. by rewrite lookup_insert_eq.
  - apply String.eqb_neq in E. destruct (assoc k' after); [done|]. by rewrite lookup_insert_ne.
Qed.
(** A field is reported exactly when it differs, with its two values. *)
Lemma field_changes_exact before after k : NoDup before.*1 -> NoDup after.*1 ->
  field_changes before after !! k = change_at (assoc k before) (assoc k after).
Proof.
  intros Hb Ha. unfold field_changes. rewrite compared_before, compared_after, lookup_empty by done.
  destruct (assoc k before) as [b|], (assoc k after) as [a|]; cbn; try done; by destruct (json_eqb b a).
Qed.
End Changes.

(** ** What the loop reads *)
Section Reads.
Context {W : Type} (parse_uuid : string -> result string string) (parse_rfc3339 parse_naive : string -> result string Z)
  (now_text : W -> Z -> string) (new_v4 : W -> string * W) (sleep : Z -> W -> W) (process : Event.EntityEvent -> W -> W).
(** The polls to come, each answered with the table as it is then or failed,
    and the events given to the executor. *)
Abbreviation Poll := (result string (list ChangeLogRow)).
Record Feed : Type := mkFeed { polls : list Poll; given : list Event.EntityEvent; rest : W }.
Definition row_le (r r' : ChangeLogRow) : Prop := r.(row_pk) <= r'.(row_pk).
Definition row_lt (r r' : ChangeLogRow) : Prop := r.(row_pk) < r'.(row_pk).
#[local] Instance row_le_dec r r' : Decision (row_le r r') := ltac:(unfold row_le; apply _).
(** The statement: the rows after [last], by number, at most [limit]. *)
Definition select (last limit : Z) (table : list ChangeLogRow) : list ChangeLogRow :=
  take (Z.to_nat limit) (merge_sort row_le (List.filter (fun r => last <? r.(row_pk)) table)).
Definition feed_fetch (last limit : Z) (x : Feed) : Poll * Feed :=
  match x.(polls) with
  | [] => (Ok [], x)
  | p :: ps => (match p with Ok table => Ok (select last limit table) | Err e => Err e end, mkFeed ps x.(given) x.(rest))
  end.
Definition feed_process (event : Event.EntityEvent) (x : Feed) : option Feed := Some (mkFeed x.(polls) (x.(given) ++ [event]) (process event x.(rest))).
Definition in_rest {A} (f : W -> A * W) (x : Feed) : A * Feed := let '(a, w) := f x.(rest) in (a, mkFeed x.(polls) x.(given) w).
#[local] Notation to_event := (ChangeLogEntry.to_entity_event parse_uuid parse_rfc3339 parse_naive).
#[local] Notation process_entries := (ListenerLoop.process_entries (in_rest new_v4) parse_uuid parse_rfc3339 parse_naive feed_process).
#[local] Notation next_batch := (ListenerLoop.next_batch feed_fetch (fun x => now_text x.(rest))).
#[local] Notation run_loop := (ListenerLoop.run_loop feed_fetch (fun x => now_text x.(rest)) (fun ms x => mkFeed x.(polls) x.(given) (sleep ms x.(rest)))
  (in_rest new_v4) parse_uuid parse_rfc3339 parse_naive feed_process).

(** The event of a row, or none when the row cannot be read as one. *)
Definition shown (r : ChangeLogRow) (oe : option Event.EntityEvent) : Prop :=
  exists now fresh, match oe with
                    | Some event => to_event fresh (ChangeLogEntry.of_row now r) = Ok event
                    | None => exists e, to_event fresh (ChangeLogEntry.of_row now r) = Err e
                    end.
Lemma entries_shown now rows x : exists x' oes, process_entries (map (fun r => ChangeLogEntry.of_row (now r.(row_pk)) r) rows) x = Some x'
  /\ x'.(polls) = x.(polls) /\ Forall2 shown rows oes /\ x'.(given) = x.(given) ++ omap id oes.
Proof.
  revert x. induction rows as [|r rows IH]; intros x; cbn [map ListenerLoop.process_entries].
  { exists x, []. by rewrite app_nil_r. }
  unfold ListenerLoop.process_entry, in_rest. destruct (new_v4 x.(rest)) as [fresh w]. destruct (to_event fresh _) as [event|e] eqn:E; cbn [mbind option_bind feed_process].
  - destruct (IH (mkFeed (polls (if is_ok (parse_uuid (ChangeLogEntry.pk_entity_change_log (ChangeLogEntry.of_row (now (row_pk r)) r))) then x else mkFeed x.(polls) x.(given) w))
      (x.(given) ++ [event]) (process event (rest (if is_ok (parse_uuid (ChangeLogEntry.pk_entity_change_log (ChangeLogEntry.of_row (now (row_pk r)) r))) then x else mkFeed x.(polls) x.(given) w)))))
      as (x' & oes & H1 & H2 & H3 & H4). exists x', (Some event :: oes). split_and!.
    + rewrite <- H1. unfold feed_process. cbn [mbind option_bind]. by destruct (is_ok _).
    + rewrite H2. by destruct (is_ok _).
    + constructor; [by exists (now r.(row_pk)), fresh|done].
    + rewrite H4. cbn. by rewrite <- app_assoc.
  - destruct (IH x) as (x' & oes & H1 & H2 & H3 & H4). exists x', (None :: oes). split_and!; [done|done| |by rewrite H4].
    constructor; [by exists (now r.(row_pk)), fresh; eexists|done].
Qed.

(** *** Rows in the order of their numbers *)
Definition sorted (l : list ChangeLogRow) : Prop := StronglySorted row_lt l.
(** How many rows are behind [last]. *)
Definition behind (last : Z) (l : list ChangeLogRow) : nat := length (List.filter (fun r => r.(row_pk) <=? last) l).
Lemma sorted_after last r l : Forall (row_lt r) l -> last < r.(row_pk) ->
  List.filter (fun r => last <? r.(row_pk)) l = l /\ behind last l = 0%nat.
Proof.
  intros Hl Hr. unfold behind. induction Hl as [|r' l Hr' Hl IH]; [done|]. cbn. unfold row_lt in Hr'.
  destruct (Z.ltb_spec last r'.(row_pk)), (Z.leb_spec r'.(row_pk) last); try lia. destruct IH as [-> ->]. done.
Qed.
Lemma after_drops last n l : sorted l -> List.filter (fun r => last <? r.(row_pk)) (take n l) = drop (behind last l) (take n l).
Proof.
  intros Hl. revert n. induction Hl as [|r l Hl IH Hr]; intros [|n]; cbn; [done..|by rewrite drop_nil|]. unfold behind. cbn.
  destruct (Z.ltb_spec last r.(row_pk)), (Z.leb_spec r.(row_pk) last); try lia; cbn.
  - assert (Ht : Forall (row_lt r) (take n l)) by by apply Forall_take. destruct (sorted_after last r _ Ht) as [-> _]; [done|].
    destruct (sorted_after last r l Hr) as [_ Hz]; [done|]. unfold behind in Hz. by rewrite Hz.
  - apply IH.
Qed.
Lemma behind_at i r l : sorted l -> l !! i = Some r -> behind r.(row_pk) l = S i.
Proof.
  intros Hl. revert i. induction Hl as [|r' l Hl IH Hr']; intros i Hi; [done|]. unfold behind. cbn. destruct i as [|i]; cbn in Hi.
  - injection Hi as ->. rewrite Z.leb_refl. cbn. f_equal. apply length_zero_iff_nil. clear IH Hl.
    induction Hr' as [|r'' l Hr'' Hl' IH]; [done|]. cbn. unfold row_lt in Hr''. destruct (Z.leb_spec r''.(row_pk) r.(row_pk)); [lia|done].
  - assert (row_lt r' r) as Hlt by (eapply Forall_lookup_1; done). unfold row_lt in Hlt. destruct (Z.leb_spec r'.(row_pk) r.(row_pk)); [|lia]. cbn. f_equal. by apply IH.
Qed.
Lemma rows_unique l l' : sorted l -> sorted l' -> l ≡ₚ l' -> l = l'.
Proof.
  intros Hl Hl' Hp. assert (AntiSymm (=) row_lt) by (intros x y H1 H2; unfold row_lt in *; lia). by apply (StronglySorted_unique row_lt).
Qed.
Lemma strictly l : StronglySorted row_le l -> NoDup (map row_pk l) -> sorted l.
Proof.
  induction 1 as [|r l Hl IH Hr]; intros Hn; [constructor|]. inversion Hn as [|? ? Hnin Hn']; subst. constructor; [by apply IH|].
  apply list.Forall_forall. intros r' Hin. rewrite list.Forall_forall in Hr. specialize (Hr r' Hin). unfold row_le in Hr. unfold row_lt.
  assert (row_pk r <> row_pk r'); [|lia]. intros E. apply Hnin. rewrite E. apply list_elem_of_In, in_map. by apply list_elem_of_In.
Qed.
Lemma sorted_filter f l : sorted l -> sorted (List.filter f l).
Proof.
  induction 1 as [|r l Hl IH Hr]; cbn; [constructor|]. destruct (f r); [|done]. constructor; [done|].
  apply list.Forall_forall. intros x Hx%list_elem_of_In. apply filter_In in Hx as [Hx _]. rewrite list.Forall_forall in Hr. apply Hr. by apply list_elem_of_In.
Qed.
Lemma sorted_take n l : sorted l -> sorted (take n l).
Proof. intros Hl. revert n. induction Hl as [|r l Hl IH Hr]; intros [|n]; cbn; try constructor; [apply IH|by apply Forall_take]. Qed.
Lemma sorted_nodup l : sorted l -> NoDup (map row_pk l).
Proof.
  induction 1 as [|r l Hl IH Hr]; cbn; [constructor|]. constructor; [|done]. intros Hx%list_elem_of_In. apply in_map_iff in Hx as (r' & E & Hin).
  rewrite list.Forall_forall in Hr. specialize (Hr r'). unfold row_lt in Hr. rewrite list_elem_of_In in Hr. specialize (Hr Hin). lia.
Qed.
Lemma filter_perm f (l l' : list ChangeLogRow) : l ≡ₚ l' -> List.filter f l ≡ₚ List.filter f l'.
Proof. induction 1 as [|r l l' _ IH|r r' l|l1 l2 l3 _ IH1 _ IH2]; cbn; [done|by destruct (f r); rewrite IH| |by rewrite IH1]. destruct (f r), (f r'); by try apply Permutation_swap. Qed.
#[local] Instance row_le_total : Total row_le.
Proof. intros x y. unfold row_le. lia. Qed.
#[local] Instance row_le_trans : Transitive row_le.
Proof. intros x y z. unfold row_le. lia. Qed.
(** A poll of a table that shows the first [n] rows. *)
Lemma select_chunk last limit n l table : sorted l -> table ≡ₚ take n l ->
  select last limit table = drop (behind last l) (take (Nat.min n (behind last l + Z.to_nat limit)) l).
Proof.
  intros Hl Hp. unfold select. rewrite Nat.min_comm, <- take_take, <- take_drop_commute. f_equal. rewrite <- after_drops by done.
  set (f := fun r => last <? r.(row_pk)). assert (Hperm : merge_sort row_le (List.filter f table) ≡ₚ List.filter f (take n l)).
  { rewrite merge_sort_Permutation. by apply filter_perm. }
  assert (Hs : sorted (List.filter f (take n l))) by by apply sorted_filter, sorted_take.
  apply rows_unique; [|done|done]. apply strictly.
  - apply (StronglySorted_merge_sort row_le).
  - rewrite Hperm. by apply sorted_nodup.
Qed.

(** What a round reads, from the position [pos], is the next part of the rows. *)
Definition part (from to : nat) (l : list ChangeLogRow) : list ChangeLogRow := drop from (take to l).
Lemma part_app from mid to l : (from <= mid <= to)%nat -> part from mid l ++ part mid to l = part from to l.
Proof.
  intros H. unfold part. replace (take mid l) with (take mid (take to l)) by (rewrite take_take; f_equal; lia). set (m := take to l).
  rewrite <- (take_drop mid m) at 3. rewrite drop_app, length_take. destruct (Nat.le_gt_cases mid (length m)).
  - by replace (from - Nat.min mid (length m))%nat with 0%nat by lia.
  - rewrite (drop_ge m mid) by lia. by rewrite drop_nil.
Qed.
Lemma part_empty from to l : (to <= from)%nat -> part from to l = [].
Proof. intros H. unfold part. apply drop_ge. rewrite length_take. lia. Qed.
Lemma behind_last last to l : sorted l ->
  behind (foldl (fun _ pk => pk) last (map row_pk (part (behind last l) to l))) l = Nat.max (behind last l) (Nat.min to (length l)).
Proof.
  intros Hl. set (pos := behind last l). assert (Hlen : length (part pos to l) = (Nat.min to (length l) - pos)%nat) by (unfold part; by rewrite length_drop, length_take).
  destruct (part pos to l) as [|r xs _] eqn:E using rev_ind; cbn in Hlen; [cbn; fold pos; lia|].
  rewrite map_app, foldl_app. cbn. rewrite length_app in Hlen. cbn in Hlen.
  assert (Hr : l !! (pos + length xs)%nat = Some r).
  { rewrite <- (lookup_take_lt l to) by lia. rewrite <- lookup_drop. fold (part pos to l). rewrite E. by rewrite lookup_app_r, Nat.sub_diag by lia. }
  rewrite (behind_at _ _ _ Hl Hr). lia.
Qed.
Definition advance (batch : nat) (pos : nat) (p : Poll) : nat :=
  match p with Ok table => Nat.max pos (Nat.min (length table) (pos + batch)) | Err _ => pos end.
Lemma advance_ge batch ps pos : (pos <= foldl (advance batch) pos ps)%nat.
Proof. revert pos. induction ps as [|p ps IH]; intros pos; [done|]. cbn. etrans; [|apply IH]. destruct p; cbn; lia. Qed.
(** The polls made before the loop ends, and the error that ends it. *)
Fixpoint polled (errors : Z) (ps : list Poll) : list Poll * option string :=
  match ps with
  | [] => ([], None)
  | Ok t :: ps => let '(made, e) := polled 0 ps in (Ok t :: made, e)
  | Err e :: ps =>
      if ListenerLoop.MAX_CONSECUTIVE_ERRORS <=? errors + 1 then ([Err e], Some e)
      else let '(made, e') := polled (errors + 1) ps in (Err e :: made, e')
  end.
(** Rows become visible in the order of their numbers. *)
Definition visible (l : list ChangeLogRow) (p : Poll) : Prop := match p with Ok table => exists n, table ≡ₚ take n l | Err _ => True end.
Lemma batch_part l table last limit : sorted l -> visible l (Ok table) -> let pos := behind last l in let rows := select last limit table in
  behind (foldl (fun _ pk => pk) last (map row_pk rows)) l = advance (Z.to_nat limit) pos (Ok table)
  /\ rows = part pos (advance (Z.to_nat limit) pos (Ok table)) l.
Proof.
  intros Hl [n Hn] pos rows. assert (Ht : table ≡ₚ take (length table) l).
  { rewrite (Permutation_length Hn) at 1. rewrite length_take. rewrite Hn. destruct (Nat.le_gt_cases n (length l)); [by rewrite Nat.min_l by lia|].
    rewrite Nat.min_r, !take_ge by lia. done. }
  assert (Hlen : (length table <= length l)%nat) by (rewrite (Permutation_length Hn), length_take; lia).
  assert (Hrows : rows = part pos (Nat.min (length table) (pos + Z.to_nat limit)) l) by by apply select_chunk.
  rewrite Hrows. pose proof (behind_last last (Nat.min (length table) (pos + Z.to_nat limit)) l Hl) as Hb. fold pos in Hb.
  split; [rewrite Hb; cbn; lia|]. cbn. destruct (Nat.le_gt_cases pos (Nat.min (length table) (pos + Z.to_nat limit))).
  - by rewrite Nat.max_r by lia.
  - by rewrite !part_empty by lia.
Qed.

Lemma loop_from l ps errors iteration fuel listener x : let batch := cast_signed listener.(config).(batch_size) in
  sorted l -> Forall (visible l) ps -> x.(polls) = ps -> (length ps < fuel)%nat ->
  exists listener' x' oes,
    run_loop fuel (Some (iteration + length ps)%nat) iteration errors listener x
      = Some (match (polled errors ps).2 with None => Ok () | Some e => Err (DatabaseError ("Failed to query change log: " ++ e)) end, listener', x')
    /\ behind listener'.(last_processed_id) l = foldl (advance (Z.to_nat batch)) (behind listener.(last_processed_id) l) (polled errors ps).1
    /\ Forall2 shown (part (behind listener.(last_processed_id) l) (behind listener'.(last_processed_id) l) l) oes
    /\ x'.(given) = x.(given) ++ omap id oes.
Proof.
  intros batch Hl. revert errors iteration fuel listener batch x. induction ps as [|p ps IH]; intros errors iteration fuel listener batch x Hv Hx Hf.
  { destruct fuel as [|fuel]; [cbn in Hf; lia|]. cbn. rewrite Nat.add_0_r, Nat.leb_refl. exists listener, x, []. cbn. rewrite part_empty, app_nil_r by lia. done. }
  apply list.Forall_cons in Hv as [Hp Hv]. destruct fuel as [|fuel]; [cbn in Hf; lia|]. cbn in Hf. cbn [ListenerLoop.run_loop ListenerLoop.at_limit length].
  destruct (Nat.leb_spec (iteration + S (length ps)) iteration); [lia|]. replace (iteration + S (length ps))%nat with (S iteration + length ps)%nat by lia.
  assert (Hfetch : forall last limit, feed_fetch last limit x = (match p with Ok table => Ok (select last limit table) | Err e => Err e end, mkFeed ps x.(given) x.(rest)))
    by (intros; unfold feed_fetch; by rewrite Hx).
  unfold ListenerLoop.next_batch. rewrite Hfetch. destruct p as [table|e]; cbn [map].
  - destruct (batch_part l table listener.(last_processed_id) batch Hl Hp) as [Hb Hrows]. fold batch. set (rows := select _ batch table) in *.
    set (listener1 := set_checkpoint _ listener).
    assert (Hfin : forall y oes1, y.(polls) = ps -> Forall2 shown rows oes1 -> y.(given) = x.(given) ++ omap id oes1 -> exists listener' x' oes,
      run_loop fuel (Some (S iteration + length ps)%nat) (S iteration) 0 listener1 y
        = Some (match (polled errors (Ok table :: ps)).2 with None => Ok () | Some e => Err (DatabaseError ("Failed to query change log: " ++ e)) end, listener', x')
      /\ behind listener'.(last_processed_id) l = foldl (advance (Z.to_nat batch)) (behind listener.(last_processed_id) l) (polled errors (Ok table :: ps)).1
      /\ Forall2 shown (part (behind listener.(last_processed_id) l) (behind listener'.(last_processed_id) l) l) oes
      /\ x'.(given) = x.(given) ++ omap id oes).
    { intros y oes1 Hy Hs Hg. destruct (IH 0 (S iteration) fuel listener1 y Hv Hy) as (listener' & x' & oes & H1 & H2 & H3 & H4); [lia|].
      change (last_processed_id listener1) with (foldl (fun _ pk => pk) (last_processed_id listener) (map row_pk rows)) in H2, H3. rewrite Hb in H2, H3.
      exists listener', x', (oes1 ++ oes). cbn [polled]. destruct (polled 0 ps) as [made e]. cbn in H1, H2 |- *. split_and!; [exact H1| | |].
      - exact H2.
      - rewrite <- (part_app _ (advance (Z.to_nat batch) (behind (last_processed_id listener) l) (Ok table))).
        + apply Forall2_app; [by rewrite <- Hrows|exact H3].
        + split; [cbn; lia|]. rewrite H2. apply advance_ge.
      - rewrite H4, Hg, omap_app. by rewrite <- app_assoc. }
    destruct (entries_shown (fun pk => now_text x.(rest) pk) rows (mkFeed ps x.(given) x.(rest))) as (x2 & oes1 & H1 & H2 & H3 & H4).
    clearbody rows. destruct rows as [|r rows']; [by apply (Hfin _ []); rewrite ?app_nil_r|].
    cbn [map rest polls given] in H1 |- *. rewrite H1. cbn [mbind option_bind]. by apply (Hfin _ oes1).
  - cbv zeta. cbn [polled]. destruct (ListenerLoop.MAX_CONSECUTIVE_ERRORS <=? errors + 1) eqn:Emax.
    + exists listener, (mkFeed ps x.(given) x.(rest)), []. cbn. rewrite part_empty, app_nil_r by lia. done.
    + match goal with |- context [run_loop fuel _ _ _ listener ?y] => destruct (IH (errors + 1) (S iteration) fuel listener y Hv eq_refl) as (listener' & x' & oes & H1 & H2 & H3 & H4); [lia|] end.
      exists listener', x', oes. destruct (polled (errors + 1) ps) as [made e']. by split_and!.
Qed.

(** C32. While rows become visible in the order of their numbers, the loop, whatever
    polls fail, gives the executor the events of the rows from the listener's
    checkpoint on, each once and in order, leaving out only rows that cannot be
    read as events.  An answered poll takes the position up to a batch further,
    no further than the table shows; the loop ends with an error exactly when
    ten polls have failed in a row, and the checkpoint is the last row given. *)
Theorem loop_reads l listener x : sorted l -> Forall (visible l) x.(polls) ->
  let batch := Z.to_nat (cast_signed listener.(config).(batch_size)) in
  let from := behind listener.(last_processed_id) l in
  let '(made, failed) := polled 0 x.(polls) in
  exists listener' x' oes,
    ListenerLoop.run_listener_loop feed_fetch (fun x => now_text x.(rest)) (fun ms x => mkFeed x.(polls) x.(given) (sleep ms x.(rest)))
      (in_rest new_v4) parse_uuid parse_rfc3339 parse_naive feed_process (S (length x.(polls))) (Some (length x.(polls))) listener x
      = Some (match failed with None => Ok () | Some e => Err (DatabaseError ("Failed to query change log: " ++ e)) end, listener', x')
    /\ behind listener'.(last_processed_id) l = foldl (advance batch) from made
    /\ Forall2 shown (part from (foldl (advance batch) from made) l) oes
    /\ x'.(given) = x.(given) ++ omap id oes.
Proof.
  intros Hl Hv. destruct (loop_from l x.(polls) 0 0 (S (length x.(polls))) listener x Hl Hv eq_refl) as (listener' & x' & oes & H1 & H2 & H3 & H4); [lia|].
  cbv zeta. destruct (polled 0 x.(polls)) as [made failed]. cbn in H1, H2. exists listener', x', oes. rewrite <- H2. by split_and!.
Qed.
End Reads.

(** ** A concrete table *)
Module LogDemo.
Definition data : json := JObject [("after", JObject []); ("op", JString "c")]%string.
Definition row (pk : Z) (object_id : string) : ChangeLogRow := mkRow pk "u" None None "Order" object_id "INSERT" None data None (Some "t"%string).
Definition uuid (s : string) : result string string := if s =s "bad" then Err "invalid character"%string else Ok s.
Definition listener : ChangeLogListener := new_listener (mkListenerConfig 100 2 None).
Definition feed (ps : list (result string (list ChangeLogRow))) : Feed (W := unit) := mkFeed ps [] ().
Definition run (ps : list (result string (list ChangeLogRow))) : option (result ObserverError unit * ChangeLogListener * Feed (W := unit)) :=
  ListenerLoop.run_listener_loop feed_fetch (fun _ _ => EmptyString) (fun _ x => x) (in_rest (fun w => (EmptyString, w))) uuid (fun _ => Ok 0) (fun _ => Ok 0)
    (feed_process (fun _ w => w)) (S (length ps)) (Some (length ps)) listener (feed ps).
Definition ids (ps : list (result string (list ChangeLogRow))) : option (list string * Z) :=
  (fun r => (map Event.entity_id r.2.(given), r.1.2.(last_processed_id))) <$> run ps.
(** A row that becomes visible after a row with a higher number was read is
    never read: numbers are drawn before transactions commit. *)
Example late_row : ids [Ok [row 2 "b"]; Ok [row 1 "a"; row 2 "b"]; Ok [row 1 "a"; row 2 "b"; row 3 "c"]] = Some (["b"; "c"]%string, 3).
Proof. vm_compute. reflexivity. Qed.
(** An entry that cannot be read is behind the checkpoint all the same. *)
Example unreadable_row : ids [Ok [row 1 "a"; row 2 "bad"]] = Some (["a"]%string, 2).
Proof. vm_compute. reflexivity. Qed.
(** The event of a change names no tenant. *)
Example no_tenant : ChangeLogEntry.to_entity_event uuid (fun _ => Ok 0) (fun _ => Ok 0) EmptyString
    (ChangeLogEntry.of_row EmptyString (mkRow 1 "u" (Some "acme"%string) None "Order" "a" "INSERT" None data None None))
  = Ok (Event.mkEvent "u" Event.Created "Order" "a" (JObject []) None None None 0).
Proof. vm_compute. reflexivity. Qed.
(** A listener that could not connect counts as running and cannot be started. *)
Example failed_start : let '(_, x) := EventListener.start (Err "refused"%string) (Ok ()) (EventListener.new 1) in
  EventListener.start (Ok ()) (Ok ()) x = (Err (ListenerConnectionFailed "Listener already running"), x).
Proof. reflexivity. Qed.
Definition table : list ChangeLogRow := [row 1 "a"; row 2 "bad"; row 3 "c"].
Lemma loop_reads_witness : sorted table /\ exists listener' x' oes,
  run [Ok [row 1 "a"]; Err "timeout"%string; Ok table] = Some (Ok (), listener', x')
  /\ behind listener'.(last_processed_id) table = 3%nat
  /\ Forall2 (shown uuid (fun _ => Ok 0) (fun _ => Ok 0)) table oes /\ x'.(given) = omap id oes.
Proof.
  assert (Hs : sorted table) by (unfold table, sorted, row_lt; repeat constructor). split; [exact Hs|].
  assert (Hv : Forall (visible table) [Ok [row 1 "a"]; Err "timeout"%string; Ok table]).
  { constructor; [by exists 1%nat|]. constructor; [done|]. constructor; [by exists 3%nat|constructor]. }
  destruct (loop_reads uuid (fun _ => Ok 0) (fun _ => Ok 0) (fun _ _ => EmptyString) (fun w => (EmptyString, w)) (fun _ w => w) (fun _ w => w)
    table listener (feed [Ok [row 1 "a"]; Err "timeout"%string; Ok table]) Hs Hv) as (listener' & x' & oes & H1 & H2 & H3 & H4).
  exists listener', x', oes. split_and!; [exact H1|exact H2|exact H3|exact H4].
Defined.
End LogDemo.
