(* ===== verification/Listeners.v ===== *)
(** * Listeners that share the work

    [fraiseql-observers/src/]: the states of a listener (listener/state.rs,
    [ListenerStateMachine]), the three leases on a checkpoint (listener/lease.rs,
    [InProcessLease], [PostgresAdvisoryLease], [RedisAdvisoryLease] and
    [CheckpointLease] over them), who leads (listener/coordinator.rs,
    [Coordinator]), what is done when one fails (listener/failover.rs,
    [FailoverManager]) and where their progress is kept (checkpoint/,
    [Checkpoint]).  Instants are nanoseconds, the times of the Redis server
    seconds.  Both databases and the order in which a map is read are arguments. *)

From stdpp Require Import pretty.
From S2P Require Import Prelude ObserverError Json Redis SagaStore.
#[local] Open Scope Z_scope.

Definition MILLIS : Z := 1000000.
Definition invalid_config {A} (message : string) : result ObserverError A := Err (InvalidConfig message).

(** ** The states of a listener *)
Inductive ListenerState : Type := Initializing | Connecting | Running | Recovering | Stopped.
#[export] Instance ListenerState_eq_dec : EqDecision ListenerState.
Proof. solve_decision. Defined.
Module ListenerStateMachine.
Record t : Type := mkMachine { state : ListenerState; state_change_time : Z; recovery_attempts : Z; max_recovery_attempts : Z }.
Definition new (now : Z) : t := mkMachine Initializing now 0 3.
Definition with_max_recovery_attempts (max : Z) (m : t) : t := mkMachine m.(state) m.(state_change_time) m.(recovery_attempts) max.
Definition state_text (s : ListenerState) : string :=
  match s with
  | Initializing => "initializing" | Connecting => "connecting" | Running => "running" | Recovering => "recovering" | Stopped => "stopped"
  end.
Definition is_valid_transition (current next : ListenerState) : bool :=
  match current, next with
  | Initializing, (Connecting | Stopped) | Connecting, (Running | Recovering | Stopped) | Running, (Recovering | Stopped)
  | Recovering, (Running | Connecting | Stopped) | Stopped, Stopped => true
  | _, _ => false
  end.
(** A refused recovery has been counted. *)
Definition transition (now : Z) (next : ListenerState) (m : t) : result ObserverError unit * t :=
  if negb (is_valid_transition m.(state) next)
  then (invalid_config ("Invalid state transition: " ++ state_text m.(state) ++ " → " ++ state_text next), m)
  else
    let attempts := if decide (next = Running) then 0 else m.(recovery_attempts) in
    let attempts := if decide (next = Recovering) then u32_wrap (attempts + 1) else attempts in
    if bool_decide (next = Recovering) && (m.(max_recovery_attempts) <? attempts)
    then (invalid_config "Max recovery attempts exceeded", mkMachine m.(state) m.(state_change_time) attempts m.(max_recovery_attempts))
    else (Ok (), mkMachine next now attempts m.(max_recovery_attempts)).
Definition get_state_duration (now : Z) (m : t) : Z := now - m.(state_change_time).
Definition can_recover (m : t) : bool := m.(recovery_attempts) <? m.(max_recovery_attempts).

(** A listener that recovers has done so as often as allowed at most since it
    last ran, and one that stopped stays so. *)
Definition within (m : t) : Prop := m.(state) = Recovering -> m.(recovery_attempts) <= m.(max_recovery_attempts).
Lemma transition_within now next m : within m -> within (transition now next m).2.
Proof.
  unfold transition, within. destruct (is_valid_transition m.(state) next) eqn:Ev; [|done]. cbn.
  destruct (decide (next = Recovering)) as [->|Hn].
  - rewrite bool_decide_eq_true_2, decide_False by done. cbn -[u32_wrap]. destruct (Z.ltb_spec (max_recovery_attempts m) (u32_wrap (recovery_attempts m + 1))); cbn -[u32_wrap]; [|intros; lia].
    intros _ E. by rewrite E in Ev.
  - rewrite bool_decide_eq_false_2 by done. cbn. done.
Qed.
Lemma stopped_stays now next m : m.(state) = Stopped -> (transition now next m).2.(state) = Stopped.
Proof. unfold transition. intros E. rewrite E. by destruct next; cbn. Qed.
End ListenerStateMachine.

(** ** Leases *)
(** *** In one process *)
Module InProcessLease.
Record t : Type := mkLease { listener_id : string; checkpoint_id : Z; lease_duration_ms : Z; holder : option string; acquired_at : option Z }.
Definition new (listener_id : string) (checkpoint_id lease_duration_ms : Z) : t := mkLease listener_id checkpoint_id lease_duration_ms None None.
Definition elapsed_ms (now at_ : Z) : Z := (now - at_) / MILLIS.
Definition hold (now : Z) (l : t) : t := mkLease l.(listener_id) l.(checkpoint_id) l.(lease_duration_ms) (Some l.(listener_id)) (Some now).
Definition acquire (now : Z) (l : t) : bool * t :=
  match l.(holder), l.(acquired_at) with
  | Some current, Some at_ =>
      if elapsed_ms now at_ <? l.(lease_duration_ms) then (current =s l.(listener_id), l) else (true, hold now l)
  | _, _ => (true, hold now l)
  end.
Definition mine (l : t) : bool := match l.(holder) with Some current => current =s l.(listener_id) | None => false end.
Definition release (debug : option string -> string) (l : t) : result ObserverError unit * t :=
  if mine l then (Ok (), mkLease l.(listener_id) l.(checkpoint_id) l.(lease_duration_ms) None None)
  else (invalid_config ("Cannot release lease held by another listener: " ++ debug l.(holder)), l).
Definition renew (now : Z) (l : t) : bool * t :=
  if mine l then (true, mkLease l.(listener_id) l.(checkpoint_id) l.(lease_duration_ms) l.(holder) (Some now)) else (false, l).
Definition is_valid (now : Z) (l : t) : bool :=
  mine l && match l.(acquired_at) with Some at_ => elapsed_ms now at_ <? l.(lease_duration_ms) | None => false end.
Definition time_remaining_ms (now : Z) (l : t) : Z :=
  match l.(acquired_at) with
  | Some at_ => let elapsed := u64_wrap (elapsed_ms now at_) in if elapsed <? l.(lease_duration_ms) then l.(lease_duration_ms) - elapsed else 0
  | None => l.(lease_duration_ms)
  end.
End InProcessLease.

(** *** By a lock of a PostgreSQL session *)
(** Connections of a pool and the locks of their sessions. *)
Class AdvisoryLocks (P Conn : Type) : Type := {
  pool_acquire : P -> result string Conn * P;
  try_advisory_lock : Conn -> Z -> P -> result string bool * P;
  advisory_unlock : Conn -> Z -> P -> result string unit * P;
  give_back : Conn -> P -> P
}.
Module PostgresAdvisoryLease.
Section Lease.
Context {P Conn : Type} `{AdvisoryLocks P Conn}.
Record t : Type := mkLease { listener_id : string; checkpoint_id : Z; conn : option Conn }.
Definition new (listener_id : string) (checkpoint_id : Z) : t := mkLease listener_id checkpoint_id None.
Definition with_conn (c : option Conn) (l : t) : t := mkLease l.(listener_id) l.(checkpoint_id) c.
Definition acquire (l : t) (p : P) : result ObserverError bool * t * P :=
  match l.(conn) with
  | Some _ => (Ok true, l, p)
  | None =>
      let '(r, p) := pool_acquire p in
      match r with
      | Err e => (Err (DatabaseError ("Failed to acquire connection for advisory lock: " ++ e)), l, p)
      | Ok c =>
          let '(r, p) := try_advisory_lock c l.(checkpoint_id) p in
          match r with
          | Err e => (Err (DatabaseError ("pg_try_advisory_lock failed: " ++ e)), l, give_back c p)
          | Ok true => (Ok true, with_conn (Some c) l, p)
          | Ok false => (Ok false, l, give_back c p)
          end
      end
  end.
Definition release (l : t) (p : P) : result ObserverError unit * t * P :=
  match l.(conn) with
  | Some c =>
      let '(r, p) := advisory_unlock c l.(checkpoint_id) p in
      (match r with Ok _ => Ok () | Err e => Err (DatabaseError ("pg_advisory_unlock failed: " ++ e)) end, with_conn None l, give_back c p)
  | None => (invalid_config "Cannot release advisory lock: not currently held", l, p)
  end.
Definition is_held (l : t) : bool := match l.(conn) with Some _ => true | None => false end.
Definition get_holder (l : t) : option string := if is_held l then Some l.(listener_id) else None.
End Lease.
Arguments t : clear implicits.
End PostgresAdvisoryLease.

(** *** By a key of a Redis server *)
Module RedisAdvisoryLease.
Record t : Type := mkLease { listener_id : string; checkpoint_id : Z; lease_duration_secs : Z }.
Section Lease.
Context {R : Type} `{Redis R}.
Definition redis_error (e : string) : ObserverError := DatabaseError ("Redis error: " ++ e).
Definition answered {A B} (f : A -> B) (r : result string A) : result ObserverError B := match r with Ok a => Ok (f a) | Err e => Err (redis_error e) end.
Definition redis_key (l : t) : string := "fraiseql:lease:" ++ pretty l.(checkpoint_id).
Definition acquire (now : Z) (l : t) (s : R) : result ObserverError bool * R :=
  let '(r, s) := redis_set_nx_ex now (redis_key l) l.(listener_id) l.(lease_duration_secs) s in (answered (fun b => b) r, s).
(** The scripts run as one step on the server. *)
Definition release (now : Z) (l : t) (s : R) : result ObserverError unit * R :=
  let '(r, s) := redis_get now (redis_key l) s in
  match r with
  | Err e => (Err (redis_error e), s)
  | Ok v => if bool_decide (v = Some l.(listener_id)) then (let '(r, s) := redis_del now [redis_key l] s in (answered (fun _ => ()) r, s)) else (Ok (), s)
  end.
Definition renew (now : Z) (l : t) (s : R) : result ObserverError bool * R :=
  let '(r, s) := redis_get now (redis_key l) s in
  match r with
  | Err e => (Err (redis_error e), s)
  | Ok v => if bool_decide (v = Some l.(listener_id))
            then (let '(r, s) := redis_expire now (redis_key l) l.(lease_duration_secs) s in (answered (fun _ => true) r, s)) else (Ok false, s)
  end.
Definition get_holder (now : Z) (l : t) (s : R) : result ObserverError (option string) * R :=
  let '(r, s) := redis_get now (redis_key l) s in (answered (fun v => v) r, s).
Definition is_valid (now : Z) (l : t) (s : R) : result ObserverError bool * R :=
  let '(r, s) := redis_get now (redis_key l) s in (answered (fun v => bool_decide (v = Some l.(listener_id))) r, s).
Definition time_remaining_ms (now : Z) (l : t) (s : R) : result ObserverError Z * R :=
  let '(r, s) := redis_ttl now (redis_key l) s in (answered (fun ttl => if ttl <? 0 then 0 else u64_wrap (ttl * 1000)) r, s).
End Lease.
End RedisAdvisoryLease.

(** *** Any of the three *)
Module CheckpointLease.
Section Lease.
Context {P Conn R : Type} `{AdvisoryLocks P Conn} `{Redis R} (debug : option string -> string).
Inductive LeaseKind : Type :=
| InProcess (l : InProcessLease.t)
| Postgres (l : PostgresAdvisoryLease.t Conn)
| OnRedis (l : RedisAdvisoryLease.t).
Record World : Type := mkWorld { instant : Z; seconds : Z; pool : P; server : R }.
Definition on_pool {A B} (r : A * B * P) (w : World) : A * B * World := (r.1, mkWorld w.(instant) w.(seconds) r.2 w.(server)).
Definition on_server {A} (l : RedisAdvisoryLease.t) (r : A * R) (w : World) : A * LeaseKind * World :=
  (r.1, OnRedis l, mkWorld w.(instant) w.(seconds) w.(pool) r.2).
Definition as_postgres {A} (r : A * PostgresAdvisoryLease.t Conn * World) : A * LeaseKind * World := (r.1.1, Postgres r.1.2, r.2).
Definition in_process {A} (r : A * InProcessLease.t) (w : World) : result ObserverError A * LeaseKind * World := (Ok r.1, InProcess r.2, w).
Definition acquire (l : LeaseKind) (w : World) : result ObserverError bool * LeaseKind * World :=
  match l with
  | InProcess l => in_process (InProcessLease.acquire w.(instant) l) w
  | Postgres l => as_postgres (on_pool (PostgresAdvisoryLease.acquire l w.(pool)) w)
  | OnRedis l => on_server l (RedisAdvisoryLease.acquire w.(seconds) l w.(server)) w
  end.
Definition release (l : LeaseKind) (w : World) : result ObserverError unit * LeaseKind * World :=
  match l with
  | InProcess l => let '(r, l) := InProcessLease.release debug l in (r, InProcess l, w)
  | Postgres l => as_postgres (on_pool (PostgresAdvisoryLease.release l w.(pool)) w)
  | OnRedis l => on_server l (RedisAdvisoryLease.release w.(seconds) l w.(server)) w
  end.
Definition renew (l : LeaseKind) (w : World) : result ObserverError bool * LeaseKind * World :=
  match l with
  | InProcess l => in_process (InProcessLease.renew w.(instant) l) w
  | Postgres l' => (Ok (PostgresAdvisoryLease.is_held l'), l, w)
  | OnRedis l => on_server l (RedisAdvisoryLease.renew w.(seconds) l w.(server)) w
  end.
Definition is_valid (l : LeaseKind) (w : World) : result ObserverError bool * LeaseKind * World :=
  match l with
  | InProcess l' => (Ok (InProcessLease.is_valid w.(instant) l'), l, w)
  | Postgres l' => (Ok (PostgresAdvisoryLease.is_held l'), l, w)
  | OnRedis l => on_server l (RedisAdvisoryLease.is_valid w.(seconds) l w.(server)) w
  end.
Definition get_holder (l : LeaseKind) (w : World) : result ObserverError (option string) * LeaseKind * World :=
  match l with
  | InProcess l' => (Ok l'.(InProcessLease.holder), l, w)
  | Postgres l' => (Ok (PostgresAdvisoryLease.get_holder l'), l, w)
  | OnRedis l => on_server l (RedisAdvisoryLease.get_holder w.(seconds) l w.(server)) w
  end.
Definition time_remaining_ms (l : LeaseKind) (w : World) : result ObserverError Z * LeaseKind * World :=
  match l with
  | InProcess l' => (Ok (InProcessLease.time_remaining_ms w.(instant) l'), l, w)
  | Postgres _ => (Ok u64_max, l, w)
  | OnRedis l => on_server l (RedisAdvisoryLease.time_remaining_ms w.(seconds) l w.(server)) w
  end.
Definition checkpoint_id (l : LeaseKind) : Z :=
  match l with
  | InProcess l => l.(InProcessLease.checkpoint_id)
  | Postgres l => l.(PostgresAdvisoryLease.checkpoint_id)
  | OnRedis l => l.(RedisAdvisoryLease.checkpoint_id)
  end.
End Lease.
End CheckpointLease.

(** *** Listeners on one server *)
Section Exclusive.
Context {R : Type} `{RL : RedisLaws R} (checkpoint ttl : Z) (Httl : 0 < ttl).
Definition lease_of (id : string) : RedisAdvisoryLease.t := RedisAdvisoryLease.mkLease id checkpoint ttl.
(** What the listeners were answered, newest first: the lease was given or
    extended, its release was asked for, and whether it is valid. *)
Inductive Answered : Type := Granted (id : string) (at_ : Z) | Gave (id : string) (at_ : Z) | Seen (id : string) (at_ : Z) (valid : bool).
Record Leased : Type := mkLeased { lease_clock : Z; lease_server : R; answers : list Answered }.
Definition after_answer {A} (r : result ObserverError A * R) (f : A -> list Answered) (x : Leased) : Leased :=
  mkLeased x.(lease_clock) r.2 (match r.1 with Ok a => f a | Err _ => [] end ++ x.(answers)).
Definition granted (id : string) (x : Leased) (b : bool) : list Answered := if b then [Granted id x.(lease_clock)] else [].
Definition do_acquire (id : string) (x : Leased) : Leased :=
  after_answer (RedisAdvisoryLease.acquire x.(lease_clock) (lease_of id) x.(lease_server)) (granted id x) x.
Definition do_renew (id : string) (x : Leased) : Leased :=
  after_answer (RedisAdvisoryLease.renew x.(lease_clock) (lease_of id) x.(lease_server)) (granted id x) x.
Definition do_is_valid (id : string) (x : Leased) : Leased :=
  after_answer (RedisAdvisoryLease.is_valid x.(lease_clock) (lease_of id) x.(lease_server)) (fun b => [Seen id x.(lease_clock) b]) x.
(** A release counts whatever its answer. *)
Definition do_release (id : string) (x : Leased) : Leased :=
  mkLeased x.(lease_clock) (RedisAdvisoryLease.release x.(lease_clock) (lease_of id) x.(lease_server)).2 (Gave id x.(lease_clock) :: x.(answers)).
Inductive lease_step : Leased -> Leased -> Prop :=
| ls_tick d x : 0 <= d -> lease_step x (mkLeased (x.(lease_clock) + d) x.(lease_server) x.(answers))
| ls_acquire id x : lease_step x (do_acquire id x)
| ls_renew id x : lease_step x (do_renew id x)
| ls_is_valid id x : lease_step x (do_is_valid id x)
| ls_release id x : lease_step x (do_release id x).
Definition gave_in (id : string) (l : list Answered) : Prop := exists t, In (Gave id t) l.
#[local] Notation key := (RedisAdvisoryLease.redis_key (lease_of EmptyString)).
Definition leases_hold (x : Leased) : Prop :=
  forall l2 id t l1, x.(answers) = l2 ++ Granted id t :: l1 ->
    t <= x.(lease_clock) /\ (held x.(lease_clock) (t + ttl) key id x.(lease_server) \/ gave_in id l2).

Lemma gave_app id l l' : gave_in id l' -> gave_in id (l ++ l').
Proof. intros (t & Hin). exists t. apply in_app_iff. by right. Qed.
Lemma got t k s r s' : redis_get t k s = (r, s') -> same_keys t s s' /\ forall v, r = Ok v -> v = live s t k.
Proof. apply get_law. Qed.
(** A renewal leaves a key that holds another's name, and takes its own further. *)
Lemma renew_holds t id until v s r s' : RedisAdvisoryLease.renew t (lease_of id) s = (r, s') -> (v = id -> until <= t + ttl) ->
  held t until key v s -> held t until key v s'.
Proof.
  unfold RedisAdvisoryLease.renew. change (RedisAdvisoryLease.redis_key (lease_of id)) with key. intros E Hid Hh.
  destruct (redis_get t key s) as [g s1] eqn:Eg. destruct (got _ _ _ _ _ Eg) as [Hs Hv]. assert (Hh1 : held t until key v s1) by by eapply held_same.
  destruct g as [w|e]; [|by injection E as _ <-]. destruct (bool_decide _) eqn:Ew; [|by injection E as _ <-]. apply bool_decide_eq_true in Ew. cbn in Ew.
  destruct (redis_expire _ _ _ s1) as [r1 s2] eqn:Ee. injection E as _ <-. destruct (expire_law _ _ _ _ _ _ Httl Ee) as [_ [(v' & Hl & Hw)|Hs2]]; [|by eapply held_same].
  intros u Hu. rewrite Hw, String.eqb_refl by lia. rewrite (Hh1 t) in Hl by lia. injection Hl as ->. specialize (Hv _ eq_refl). rewrite <- (Hs t) in Hv by lia.
  rewrite (Hh1 t) in Hv by lia. assert (v' = id) as -> by congruence. specialize (Hid eq_refl). destruct (Z.ltb_spec u (t + ttl)); [done|lia].
Qed.
Lemma renew_grants t id s s' : RedisAdvisoryLease.renew t (lease_of id) s = (Ok true, s') -> held t (t + ttl) key id s' /\ live s t key = Some id.
Proof.
  unfold RedisAdvisoryLease.renew. change (RedisAdvisoryLease.redis_key (lease_of id)) with key. intros E.
  destruct (redis_get t key s) as [g s1] eqn:Eg. destruct (got _ _ _ _ _ Eg) as [Hs Hv]. destruct g as [w|e]; [|done].
  destruct (bool_decide _) eqn:Ew; [|done]. apply bool_decide_eq_true in Ew. cbn in Ew. specialize (Hv _ eq_refl). subst w.
  destruct (redis_expire _ _ _ s1) as [r1 s2] eqn:Ee. destruct r1 as [b|]; [|done]. injection E as <-. destruct (expire_law _ _ _ _ _ _ Httl Ee) as [Hok _].
  specialize (Hok _ eq_refl). rewrite (Hs t), <- Hv in Hok by lia. cbn in Hok. split; [|done].
  intros u Hu. rewrite Hok, String.eqb_refl by lia. destruct (Z.ltb_spec u (t + ttl)); [done|lia].
Qed.
Lemma release_holds t id until v s : id <> v -> held t until key v s -> held t until key v (RedisAdvisoryLease.release t (lease_of id) s).2.
Proof.
  unfold RedisAdvisoryLease.release. change (RedisAdvisoryLease.redis_key (lease_of id)) with key. intros Hne Hh.
  destruct (redis_get t key s) as [g s1] eqn:Eg. destruct (got _ _ _ _ _ Eg) as [Hs Hv]. assert (Hh1 : held t until key v s1) by by eapply held_same.
  destruct g as [w|e]; [|done]. destruct (bool_decide _) eqn:Ew; [|done]. apply bool_decide_eq_true in Ew. cbn in Ew. specialize (Hv _ eq_refl). subst w.
  destruct (redis_del _ _ s1) as [r s2] eqn:Ed. cbn. intros u Hu. rewrite (Hh t) in Ew by lia. congruence.
Qed.
Lemma is_valid_same t id s r s' : RedisAdvisoryLease.is_valid t (lease_of id) s = (r, s') ->
  same_keys t s s' /\ forall b, r = Ok b -> b = bool_decide (live s t key = Some id).
Proof.
  unfold RedisAdvisoryLease.is_valid. change (RedisAdvisoryLease.redis_key (lease_of id)) with key. destruct (redis_get t key s) as [g s1] eqn:Eg.
  intros [= <- <-]. destruct (got _ _ _ _ _ Eg) as [Hs Hv]. split; [done|]. intros b. destruct g as [w|e]; [|done]. cbn. intros [= <-]. by rewrite (Hv _ eq_refl).
Qed.
Lemma leases_later x pre s : leases_hold x -> (length pre <= 1)%nat ->
  (forall id t, t <= x.(lease_clock) -> ~ gave_in id pre -> held x.(lease_clock) (t + ttl) key id x.(lease_server) -> held x.(lease_clock) (t + ttl) key id s) ->
  (forall id t, pre = [Granted id t] -> t <= x.(lease_clock) /\ held x.(lease_clock) (t + ttl) key id s) ->
  leases_hold (mkLeased x.(lease_clock) s (pre ++ x.(answers))).
Proof.
  intros Hx Hlen Hkeep Hpre l2 id t l1 E. cbn in E |- *. destruct pre as [|a [|b pre]]; [| |cbn in Hlen; lia].
  - destruct (Hx _ _ _ _ E) as [Ht [Hh|Hg]]; (split; [done|]); [left; apply Hkeep; [done| |done]; by intros (? & [])|by right].
  - destruct l2 as [|a' l2]; injection E as -> E; [destruct (Hpre _ _ eq_refl); auto|].
    destruct (Hx _ _ _ _ E) as [Ht [Hh|Hg]]; (split; [done|]); [|right; by apply (gave_app _ [a'])].
    destruct a' as [id' t'|id' t'|id' t' b].
    + left. apply Hkeep; [done| |done]. by intros (? & [?|[]]).
    + destruct (decide (id' = id)) as [->|Hne]; [right; exists t'; by left|]. left. apply Hkeep; [done| |done]. intros (t'' & [[= ? ?]|[]]). done.
    + left. apply Hkeep; [done| |done]. by intros (? & [?|[]]).
Qed.
Lemma leases_hold_step x y : lease_step x y -> leases_hold x -> leases_hold y.
Proof.
  intros [d x' Hd|id x'|id x'|id x'|id x'] Hx.
  - intros l2 id t l1 E. cbn in E |- *. destruct (Hx _ _ _ _ E) as [Ht [Hh|Hg]]; (split; [lia|]); [|by right]. left. eapply held_later; [done|lia].
  - unfold do_acquire, after_answer, RedisAdvisoryLease.acquire. change (RedisAdvisoryLease.redis_key (lease_of id)) with key.
    destruct (redis_set_nx_ex _ _ _ _ _) as [r s] eqn:Er. cbn [fst snd]. apply leases_later; [done| | |].
    + by destruct r as [[|]|]; cbn; lia.
    + intros id' t Ht _ Hh. by eapply held_set_nx.
    + destruct r as [[|]|]; cbn; intros id' t [= <- <-]. split; [lia|]. by apply (set_nx_held _ _ _ _ _ _ Httl Er).
  - unfold do_renew, after_answer. destruct (RedisAdvisoryLease.renew _ _ _) as [r s] eqn:Er. cbn [fst snd]. apply leases_later; [done| | |].
    + by destruct r as [[|]|]; cbn; lia.
    + intros id' t Ht _ Hh. eapply renew_holds; [done| |done]. intros _. lia.
    + destruct r as [[|]|]; cbn; intros id' t [= <- <-]. split; [lia|]. by apply (renew_grants _ _ _ _ Er).
  - unfold do_is_valid, after_answer. destruct (RedisAdvisoryLease.is_valid _ _ _) as [r s] eqn:Er. cbn [fst snd]. apply leases_later; [done| | |].
    + by destruct r; cbn; lia.
    + intros id' t Ht _ Hh. eapply held_same; [done|]. by apply (is_valid_same _ _ _ _ _ Er).
    + by destruct r.
  - apply (leases_later x' [Gave id x'.(lease_clock)]); [done|cbn; lia| |done].
    intros id' t Ht Hg Hh. apply release_holds; [|done]. intros ->. apply Hg. eexists. by left.
Qed.

(** C33. A lease on one server, whatever listeners do with it in whatever order and
    whatever commands fail: while it was given to a listener, or extended, less
    than its duration ago and that listener has not released it since, no other
    listener is given it, and a listener is told that it is valid exactly when
    it is that listener's. *)
Theorem lease_exclusive x y l3 a l2 id t l1 :
  x.(answers) = [] -> rtc lease_step x y -> y.(answers) = l3 ++ a :: l2 ++ Granted id t :: l1 -> ~ gave_in id l2 ->
  match a with
  | Granted id' t' => t' < t + ttl -> id' = id
  | Seen id' t' valid => t' < t + ttl -> valid = (id' =s id)
  | Gave _ _ => True
  end.
Proof.
  intros Hx Hrun Hy Hg. revert l3 Hy. assert (H0 : leases_hold x) by (intros [|] ? ? ? E; by rewrite Hx in E).
  cut (leases_hold y /\ forall l3, y.(answers) = l3 ++ a :: l2 ++ Granted id t :: l1 ->
    match a with Granted id' t' => t' < t + ttl -> id' = id | Seen id' t' valid => t' < t + ttl -> valid = (id' =s id) | Gave _ _ => True end);
    [by intros [_ Hy]|].
  revert y Hrun. apply rtc_ind_r; [split; [done|]; intros [|] E; by rewrite Hx in E|]. intros y z Hrun Hstep [Hy IH].
  split; [by eapply leases_hold_step|]. destruct Hstep as [d y Hd|id' y|id' y|id' y|id' y].
  - exact IH.
  - unfold do_acquire, after_answer, RedisAdvisoryLease.acquire. change (RedisAdvisoryLease.redis_key (lease_of id')) with key.
    destruct (redis_set_nx_ex _ _ _ _ _) as [r s] eqn:Er. cbn. destruct r as [[|]|]; [|exact IH..].
    intros [|b l3] E; cbn in E; injection E as <- E; [|by eapply IH]. destruct (Hy _ _ _ _ E) as [Ht [Hh|Hg']]; [|done].
    intros Hlt. pose proof (set_nx_free _ _ _ _ _ _ _ _ Httl Hh Er). lia.
  - unfold do_renew, after_answer. destruct (RedisAdvisoryLease.renew _ _ _) as [r s] eqn:Er. cbn. destruct r as [[|]|]; [|exact IH..].
    intros [|b l3] E; cbn in E; injection E as <- E; [|by eapply IH]. destruct (Hy _ _ _ _ E) as [Ht [Hh|Hg']]; [|done].
    intros Hlt. destruct (renew_grants _ _ _ _ Er) as [_ Hl]. rewrite (Hh _) in Hl by lia. congruence.
  - unfold do_is_valid, after_answer. destruct (RedisAdvisoryLease.is_valid _ _ _) as [r s] eqn:Er. cbn. destruct r as [b|]; [|exact IH].
    intros [|c l3] E; cbn in E; injection E as <- E; [|by eapply IH]. destruct (Hy _ _ _ _ E) as [Ht [Hh|Hg']]; [|done].
    intros Hlt. destruct (is_valid_same _ _ _ _ _ Er) as [_ Hb]. rewrite (Hb _ eq_refl), (Hh _) by lia.
    destruct (String.eqb_spec id' id) as [->|Hne]; [by apply bool_decide_eq_true_2|]. apply bool_decide_eq_false_2. congruence.
  - intros [|b l3] E; cbn in E; injection E as <- E; [done|by eapply IH].
Qed.
End Exclusive.

(** ** Who leads *)
Module Coordinator.
Record ListenerHandle : Type := mkHandle { handle_id : string; state_machine : ListenerStateMachine.t; checkpoint : Z; last_heartbeat : Z }.
Record ListenerHealth : Type := mkHealth { listener_id : string; is_healthy : bool; last_checkpoint : Z; state : ListenerState; heartbeat : Z }.
Record t : Type := mkCoordinator { listeners : gmap string ListenerHandle; leader_id : option string }.
Definition new : t := mkCoordinator ∅ None.
Definition with_listener (id : string) (h : ListenerHandle) (c : t) : t := mkCoordinator (<[id := h]> c.(listeners)) c.(leader_id).
Definition register_listener (now : Z) (id : string) (c : t) : t := with_listener id (mkHandle id (ListenerStateMachine.new now) 0 now) c.
Definition deregister_listener (id : string) (c : t) : t := mkCoordinator (delete id c.(listeners)) c.(leader_id).
Definition get_handle (id : string) (c : t) : result ObserverError ListenerHandle :=
  match c.(listeners) !! id with Some h => Ok h | None => invalid_config ("Listener " ++ id ++ " not found") end.
Definition get_listener_state (id : string) (c : t) : result ObserverError ListenerState :=
  h ← get_handle id c; Ok h.(state_machine).(ListenerStateMachine.state).
Definition update_heartbeat (now : Z) (id : string) (c : t) : result ObserverError t :=
  h ← get_handle id c; Ok (with_listener id (mkHandle h.(handle_id) h.(state_machine) h.(checkpoint) now) c).
(** Kept as a [u64] with the bits of the [i64]. *)
Definition update_checkpoint (id : string) (checkpoint : Z) (c : t) : result ObserverError t :=
  h ← get_handle id c; Ok (with_listener id (mkHandle h.(handle_id) h.(state_machine) (cast_unsigned checkpoint) h.(last_heartbeat)) c).
Definition transition_listener_state (now : Z) (id : string) (next : ListenerState) (c : t) : result ObserverError unit * t :=
  match get_handle id c with
  | Err e => (Err e, c)
  | Ok h => let '(r, m) := ListenerStateMachine.transition now next h.(state_machine) in
            (r, with_listener id (mkHandle h.(handle_id) m h.(checkpoint) h.(last_heartbeat)) c)
  end.
Definition listener_count (c : t) : nat := size c.(listeners).
Definition health_of (now : Z) (h : ListenerHandle) : ListenerHealth :=
  let state := h.(state_machine).(ListenerStateMachine.state) in
  mkHealth h.(handle_id) (bool_decide (state = Running) && ((now - h.(last_heartbeat)) / NANOS <? 60)) (cast_signed h.(checkpoint)) state h.(last_heartbeat).
Section Order.
(** The listeners in the order their map is read in. *)
Context (values : gmap string ListenerHandle -> list ListenerHandle).
Definition check_listener_health (now : Z) (c : t) : list ListenerHealth := map (health_of now) (values c.(listeners)).
Definition still_leads (c : t) : option string :=
  match c.(leader_id) with
  | Some current => match get_listener_state current c with Ok Running => Some current | _ => None end
  | None => None
  end.
Definition elect_leader (now : Z) (c : t) : result ObserverError string * t :=
  match still_leads c with
  | Some current => (Ok current, c)
  | None =>
      match str_sort (map listener_id (List.filter is_healthy (check_listener_health now c))) with
      | [] => (invalid_config "No healthy listeners available for election", c)
      | new_leader :: _ => (Ok new_leader, mkCoordinator c.(listeners) (Some new_leader))
      end
  end.
End Order.

(** An election does not depend on the order the listeners are read in. *)
Lemma election_settled values values' now c : values c.(listeners) ≡ₚ values' c.(listeners) -> elect_leader values now c = elect_leader values' now c.
Proof.
  intros H. unfold elect_leader. destruct (still_leads c); [done|].
  rewrite (str_sort_unique _ (map listener_id (List.filter is_healthy (check_listener_health values' now c)))); [done|].
  apply Permutation_map. unfold check_listener_health. apply (Permutation_map (health_of now)) in H.
  induction H as [|r l l' _ IH|r r' l|l1 l2 l3 _ IH1 _ IH2]; cbn; [done|by destruct (is_healthy r); rewrite IH| |by rewrite IH1].
  destruct (is_healthy r), (is_healthy r'); by try apply Permutation_swap.
Qed.
End Coordinator.

(** ** When a listener fails *)
Module FailoverManager.
Import Coordinator.
Record t : Type := mkManager { health_check_interval_ms : Z; failover_threshold_ms : Z; shutdown : bool }.
Definition new : t := mkManager 5000 60000 false.
Definition with_intervals (interval threshold : Z) : t := mkManager interval threshold false.
Record FailoverEvent : Type := mkFailover { failed_listener_id : string; failover_target_id : string; event_checkpoint : Z; event_time : Z }.
Section Order.
Context (values : gmap string ListenerHandle -> list ListenerHandle).
Definition failed (m : t) (now : Z) (h : ListenerHealth) : bool :=
  negb (bool_decide (h.(state) = Running)) || (m.(failover_threshold_ms) * MILLIS <=? now - h.(heartbeat)).
Definition detect_failures (m : t) (now : Z) (c : Coordinator.t) : list string :=
  map listener_id (List.filter (failed m now) (check_listener_health values now c)).
Definition trigger_failover (now : Z) (failed_id : string) (c : Coordinator.t) : result ObserverError FailoverEvent * Coordinator.t :=
  match find (fun h => h.(listener_id) =s failed_id) (check_listener_health values now c) with
  | None => (invalid_config ("Listener " ++ failed_id ++ " not found"), c)
  | Some h => let '(r, c) := elect_leader values now c in ((fun target => mkFailover failed_id target h.(last_checkpoint) now) <$> r, c)
  end.
(** The listener is left as it was when it is not recovering. *)
Definition resume_from_checkpoint (now : Z) (id : string) (checkpoint : Z) (c : Coordinator.t) : result ObserverError unit * Coordinator.t :=
  match update_checkpoint id checkpoint c with
  | Err e => (Err e, c)
  | Ok c => match get_listener_state id c with
            | Ok Recovering => transition_listener_state now id Running c
            | _ => (Ok (), c)
            end
  end.
(** One round of the monitor after its sleep: the events it sends. *)
Fixpoint fail_over (now : Z) (failed_ids : list string) (c : Coordinator.t) : list FailoverEvent * Coordinator.t :=
  match failed_ids with
  | [] => ([], c)
  | id :: ids =>
      let '(r, c) := trigger_failover now id c in
      let '(events, c) := fail_over now ids c in
      (match r with Ok e => e :: events | Err _ => events end, c)
  end.
Definition monitor_round (m : t) (now : Z) (c : Coordinator.t) : option (list FailoverEvent * Coordinator.t) :=
  if m.(shutdown) then None else Some (fail_over now (detect_failures m now c) c).
End Order.
Definition start_health_monitor (m : t) : t := mkManager m.(health_check_interval_ms) m.(failover_threshold_ms) false.
Definition stop_health_monitor (m : t) : t := mkManager m.(health_check_interval_ms) m.(failover_threshold_ms) true.
End FailoverManager.

(** ** Checkpoints *)
Module Checkpoint.
Record CheckpointState : Type := mkCheckpoint { listener_id : string; last_processed_id : Z; last_processed_at : Z; batch_size : Z; event_count : Z }.
Inductive CheckpointStrategy : Type := AtLeastOnce | EffectivelyOnce (idempotency_table : string).
Definition is_effectively_once (s : CheckpointStrategy) : bool := match s with EffectivelyOnce _ => true | AtLeastOnce => false end.
Definition idempotency_table (s : CheckpointStrategy) : option string := match s with EffectivelyOnce table => Some table | AtLeastOnce => None end.
Section Keys.
(** The statements on the table of keys. *)
Context {W : Type} (select_exists : string -> string -> string -> W -> result string bool * W) (insert_key : string -> string -> string -> W -> result string unit * W)
  (create_table : string -> W -> result string unit * W).
Definition database {A} (what : string) (r : result string A * W) : result ObserverError A * W :=
  (match r.1 with Ok a => Ok a | Err e => Err (DatabaseError (what ++ e)) end, r.2).
Definition create_table_if_not_exists (s : CheckpointStrategy) (w : W) : result ObserverError unit * W :=
  match idempotency_table s with
  | None => (Ok (), w)
  | Some table => database ("Failed to create idempotency table '" ++ table ++ "': ") (create_table table w)
  end.
Definition is_duplicate (s : CheckpointStrategy) (listener key : string) (w : W) : result ObserverError bool * W :=
  match idempotency_table s with
  | None => (Ok false, w)
  | Some table => database "Failed to check idempotency key: " (select_exists table key listener w)
  end.
Definition record_idempotency_key (s : CheckpointStrategy) (listener key : string) (w : W) : result ObserverError unit * W :=
  match idempotency_table s with
  | None => (Ok (), w)
  | Some table => database "Failed to record idempotency key: " (insert_key table key listener w)
  end.
End Keys.
Inductive CheckpointMode : Type := DevOnly | Persistent.
Definition check_checkpoint_requirement (lowercase : string -> string) (env : string -> option string) (mode : CheckpointMode) : result ObserverError unit :=
  match mode with
  | DevOnly =>
      let required := match env "FRAISEQL_CHECKPOINT_REQUIRE_PERSISTENT"%string with
                      | Some v => existsb (String.eqb (lowercase v)) ["true"; "1"; "yes"]%string | None => false end in
      if required then invalid_config "FRAISEQL_CHECKPOINT_REQUIRE_PERSISTENT is set but InMemoryCheckpointStore is in use. Configure PostgresCheckpointStore for production deployments."
      else Ok ()
  | Persistent => Ok ()
  end.

(** *** In memory *)
Abbreviation Memory := (gmap string CheckpointState).
Definition memory_load (id : string) (s : Memory) : option CheckpointState := s !! id.
Definition memory_save (id : string) (c : CheckpointState) (s : Memory) : Memory := <[id := c]> s.
Definition memory_compare_and_swap (now : Z) (id : string) (expected_id new_id : Z) (s : Memory) : bool * Memory :=
  match s !! id with
  | None => if expected_id =? 0 then (true, <[id := mkCheckpoint id new_id now 0 0]> s) else (false, s)
  | Some c => if c.(last_processed_id) =? expected_id
              then (true, <[id := mkCheckpoint c.(listener_id) new_id now c.(batch_size) c.(event_count)]> s) else (false, s)
  end.
Definition memory_delete (id : string) (s : Memory) : Memory := delete id s.

(** *** In PostgreSQL *)
(** The rows by their key; the counts are [INT] columns. *)
Abbreviation Table := (gmap string CheckpointState).
Definition postgres_load (id : string) (s : Table) : option CheckpointState :=
  (fun r => mkCheckpoint r.(listener_id) r.(last_processed_id) r.(last_processed_at) (i32_as_usize r.(batch_size)) (i32_as_usize r.(event_count))) <$> s !! id.
Definition postgres_save (id : string) (c : CheckpointState) (s : Table) : Table :=
  <[id := mkCheckpoint id c.(last_processed_id) c.(last_processed_at) (usize_as_i32 c.(batch_size)) (usize_as_i32 c.(event_count))]> s.
(** The two statements of a swap: other statements can come in between. *)
Definition swap_update (id : string) (expected_id new_id : Z) (s : Table) : bool * Table :=
  match s !! id with
  | Some r => if r.(last_processed_id) =? expected_id
              then (true, <[id := mkCheckpoint r.(listener_id) new_id r.(last_processed_at) r.(batch_size) r.(event_count)]> s) else (false, s)
  | None => (false, s)
  end.
Definition swap_insert (now : Z) (id : string) (new_id : Z) (s : Table) : bool * Table :=
  match s !! id with Some _ => (false, s) | None => (true, <[id := mkCheckpoint id new_id now 0 0]> s) end.
(** Only a caller that expects no progress inserts a row. *)
Definition may_insert (expected_id : Z) : bool := expected_id =? 0.
Definition postgres_compare_and_swap (now : Z) (id : string) (expected_id new_id : Z) (s : Table) : bool * Table :=
  let '(updated, s) := swap_update id expected_id new_id s in
  if updated then (true, s) else if may_insert expected_id then swap_insert now id new_id s else (false, s).
Definition postgres_delete (id : string) (s : Table) : Table := delete id s.
End Checkpoint.

(** *** Swaps at the same time *)
Section Swaps.
Import Checkpoint.
(** What succeeded, newest first, as the caller asked for it (the listener, the
    value it expected and the new one), and the callers that have had no row to
    update and are still to insert one. *)
Record Swaps : Type := mkSwaps { table : Table; to_insert : list (nat * (string * Z * Z)); swapped : list (string * Z * Z) }.
Definition swap_first (caller : nat) (id : string) (expected_id new_id : Z) (x : Swaps) : Swaps :=
  let '(updated, s) := swap_update id expected_id new_id x.(table) in
  if updated then mkSwaps s x.(to_insert) ((id, expected_id, new_id) :: x.(swapped))
  else mkSwaps s (if may_insert expected_id then (caller, (id, expected_id, new_id)) :: x.(to_insert) else x.(to_insert)) x.(swapped).
Definition swap_second (now : Z) (p : nat * (string * Z * Z)) (x : Swaps) : Swaps :=
  let '(id, expected_id, new_id) := p.2 in
  let '(inserted, s) := swap_insert now id new_id x.(table) in
  mkSwaps s (List.filter (fun q => negb (bool_decide (q = p))) x.(to_insert)) (if inserted then p.2 :: x.(swapped) else x.(swapped)).
Inductive swap_step : Swaps -> Swaps -> Prop :=
| sw_first caller id expected_id new_id x : swap_step x (swap_first caller id expected_id new_id x)
| sw_second now p x : In p x.(to_insert) -> swap_step x (swap_second now p x).
Definition value (id : string) (s : Table) : Z := default 0 (last_processed_id <$> s !! id).
(** The swaps of a listener take its value from one to the next. *)
Fixpoint chain (id : string) (from : Z) (l : list (string * Z * Z)) (to : Z) : Prop :=
  match l with
  | [] => from = to
  | (id', expected_id, new_id) :: l => if id' =s id then new_id = to /\ chain id from l expected_id else chain id from l to
  end.
(** Who is to insert a row expects none. *)
Definition expect_none (x : Swaps) : Prop := Forall (fun p => p.2.1.2 = 0) x.(to_insert).
Lemma swap_step_expect_none x y : swap_step x y -> expect_none x -> expect_none y.
Proof.
  unfold expect_none. intros [caller id e n z|now [caller [[id e] n]] z Hin] Hx.
  - unfold swap_first, may_insert. destruct (swap_update id e n z.(table)) as [[|] s]; [done|]. cbn. destruct (Z.eqb_spec e 0); [|done]. by constructor.
  - unfold swap_second. cbn. destruct (swap_insert now id n z.(table)) as [inserted s]. cbn.
    rewrite !list.Forall_forall in *. intros p Hp%list_elem_of_In%filter_In. apply Hx, list_elem_of_In, Hp.
Qed.
Lemma expected_succeeds caller now id n y : let first := swap_first caller id (value id y.(table)) n y in
  if y.(table) !! id then first.(swapped) = (id, value id y.(table), n) :: y.(swapped)
  else In (caller, (id, 0, n)) first.(to_insert) /\ (swap_second now (caller, (id, 0, n)) first).(swapped) = (id, 0, n) :: y.(swapped).
Proof.
  unfold swap_first, swap_update, value, may_insert. destruct (y.(table) !! id) as [r|] eqn:Er; cbn.
  - by rewrite Z.eqb_refl.
  - split; [by left|]. unfold swap_second, swap_insert. cbn. by rewrite Er.
Qed.
(** C34. However the statements of concurrent swaps interleave, those that succeed
    follow one another: each caller found the value it expected, which is the
    one the swap before it had left, or 0 where there was no row; so of those
    that expect the same value of a listener one at a time succeeds.  And a
    caller that expects the value there is does succeed: with its first
    statement where the listener has a row, with its second where it still
    has none. *)
Theorem swaps_chain id x y : x.(swapped) = [] -> x.(to_insert) = [] -> rtc swap_step x y ->
  chain id (value id x.(table)) y.(swapped) (value id y.(table))
  /\ forall caller now n, let first := swap_first caller id (value id y.(table)) n y in
    if y.(table) !! id then first.(swapped) = (id, value id y.(table), n) :: y.(swapped)
    else In (caller, (id, 0, n)) first.(to_insert) /\ (swap_second now (caller, (id, 0, n)) first).(swapped) = (id, 0, n) :: y.(swapped).
Proof.
  intros Hx Hi Hrun. assert (H0 : expect_none x) by (unfold expect_none; by rewrite Hi).
  split; [|by intros caller now n; apply expected_succeeds].
  cut (chain id (value id x.(table)) y.(swapped) (value id y.(table)) /\ expect_none y); [by intros [? _]|].
  revert y Hrun. apply rtc_ind_r; [by rewrite Hx|]. intros y z _ Hstep [IH Hn]. split; [|by eapply swap_step_expect_none].
  destruct Hstep as [caller id' e n y|now [caller [[id' e] n]] y Hin].
  - unfold swap_first, swap_update, value in *. destruct (y.(table) !! id') as [r|] eqn:Er; [|exact IH]. destruct (Z.eqb_spec r.(last_processed_id) e) as [He|He]; [|exact IH].
    cbn. destruct (String.eqb_spec id' id) as [->|Hne]; [|by rewrite lookup_insert_ne by done]. rewrite lookup_insert_eq. split; [done|]. rewrite Er in IH. cbn in IH. by rewrite <- He.
  - assert (He : e = 0) by (unfold expect_none in Hn; rewrite list.Forall_forall in Hn; by apply (Hn (caller, (id', e, n))), list_elem_of_In).
    unfold swap_second, swap_insert, value in *. cbn. destruct (y.(table) !! id') as [r|] eqn:Er; [exact IH|]. cbn.
    destruct (String.eqb_spec id' id) as [->|Hne]; [|by rewrite lookup_insert_ne by done]. rewrite lookup_insert_eq, He. split; [done|]. by rewrite Er in IH.
Qed.
(** The store in memory swaps as the two statements of one caller do, but for
    the time it notes. *)
Lemma stores_agree now id e n s : (memory_compare_and_swap now id e n s).1 = (postgres_compare_and_swap now id e n s).1
  /\ forall k, value k (memory_compare_and_swap now id e n s).2 = value k (postgres_compare_and_swap now id e n s).2.
Proof.
  unfold memory_compare_and_swap, postgres_compare_and_swap, may_insert, swap_update, swap_insert, value. destruct (s !! id) as [r|] eqn:Er.
  - destruct (r.(last_processed_id) =? e); [|by destruct (e =? 0); rewrite ?Er]. split; [done|]. intros k. cbn.
    destruct (decide (k = id)) as [->|Hk]; [by rewrite !lookup_insert_eq|by rewrite !lookup_insert_ne by done].
  - destruct (e =? 0); [|done]. by rewrite Er.
Qed.
End Swaps.

(** ** Concrete listeners *)
Module ListenerDemo.
(** Each lease in one process has a state of its own: two hold a checkpoint. *)
Example both_lead : (InProcessLease.acquire 0 (InProcessLease.new "l1" 7 1000)).1 = true /\ (InProcessLease.acquire 0 (InProcessLease.new "l2" 7 1000)).1 = true.
Proof. done. Qed.
(** A free lease reports all its time as remaining. *)
Example free_remaining : InProcessLease.time_remaining_ms 0 (InProcessLease.new "l1" 7 1000) = 1000.
Proof. done. Qed.
(** A lease on Redis is not given again to the listener that holds it. *)
Import MapRedis.
Example not_again : let l := RedisAdvisoryLease.mkLease "l1" 7 30 in
  let '(r1, s) := RedisAdvisoryLease.acquire 0 l (∅ : MapRedis.t) in let '(r2, _) := RedisAdvisoryLease.acquire 1 l s in r1 = Ok true /\ r2 = Ok false.
Proof. vm_compute. done. Qed.
(** A refused recovery is counted. *)
Example refused_counts : let m := ListenerStateMachine.mkMachine Running 0 3 3 in
  let '(r, m) := ListenerStateMachine.transition 1 Recovering m in r = invalid_config "Max recovery attempts exceeded" /\ m.(ListenerStateMachine.recovery_attempts) = 4.
Proof. vm_compute. done. Qed.
(** The leader whose heart has stopped is in the way of its own replacement. *)
Definition running (id : string) (beat : Z) : Coordinator.ListenerHandle :=
  Coordinator.mkHandle id (ListenerStateMachine.mkMachine Running 0 0 3) 5 beat.
Definition values (m : gmap string Coordinator.ListenerHandle) : list Coordinator.ListenerHandle := (map_to_list m).*2.
Definition pair : Coordinator.t := Coordinator.mkCoordinator (<["l1" := running "l1" 0]> (<["l2" := running "l2" (100 * NANOS)]> ∅)) (Some "l1"%string).
Example fails_over_to_itself : FailoverManager.monitor_round values FailoverManager.new (100 * NANOS) pair
  = Some ([FailoverManager.mkFailover "l1" "l1" 5 (100 * NANOS)], pair).
Proof. vm_compute. reflexivity. Qed.
(** A first swap to zero leaves a row a second one finds. *)
Example swap_to_zero : let '(r1, s) := Checkpoint.postgres_compare_and_swap 1 "l" 0 0 ∅ in let '(r2, _) := Checkpoint.postgres_compare_and_swap 2 "l" 0 0 s in r1 = true /\ r2 = true.
Proof. vm_compute. done. Qed.

Lemma lease_exclusive_witness :
  let x := mkLeased 0 (∅ : MapRedis.t) [] in
  let y := do_is_valid 7 30 "l2" (do_acquire 7 30 "l2" (do_acquire 7 30 "l1" x)) in
  rtc (lease_step 7 30) x y /\ y.(answers) = [Seen "l2" 0 false; Granted "l1" 0] /\ (0 < 0 + 30 -> false = ("l2" =s "l1")).
Proof.
  cbv zeta. set (x := mkLeased 0 (∅ : MapRedis.t) []).
  assert (Hrun : rtc (lease_step 7 30) x (do_is_valid 7 30 "l2" (do_acquire 7 30 "l2" (do_acquire 7 30 "l1" x)))).
  { eapply rtc_l; [apply ls_acquire|]. eapply rtc_l; [apply ls_acquire|]. apply rtc_once, ls_is_valid. }
  split_and!; [exact Hrun|vm_compute; reflexivity|].
  apply (lease_exclusive 7 30 ltac:(lia) x _ [] (Seen "l2" 0 false) [] "l1" 0 [] ltac:(reflexivity) Hrun); [vm_compute; reflexivity|by intros (? & [])].
Defined.
Lemma swaps_chain_witness :
  let x := mkSwaps ∅ [] [] in let y := swap_second 1 (1%nat, ("l"%string, 0, 5)) (swap_second 1 (2%nat, ("l"%string, 0, 6)) (swap_first 2 "l" 0 6 (swap_first 1 "l" 0 5 x))) in
  rtc swap_step x y /\ chain "l" 0 y.(swapped) 6.
Proof.
  cbv zeta. assert (Hrun : rtc swap_step (mkSwaps ∅ [] []) (swap_second 1 (1%nat, ("l"%string, 0, 5)) (swap_second 1 (2%nat, ("l"%string, 0, 6)) (swap_first 2 "l" 0 6 (swap_first 1 "l" 0 5 (mkSwaps ∅ [] [])))))).
  { eapply rtc_l; [apply (sw_first 1 "l" 0 5)|]. eapply rtc_l; [apply (sw_first 2 "l" 0 6)|]. eapply rtc_l; [apply (sw_second 1 (2%nat, ("l"%string, 0, 6))); vm_compute; auto|].
    apply rtc_once, sw_second. vm_compute. auto. }
  split; [exact Hrun|]. exact (proj1 (swaps_chain "l" (mkSwaps ∅ [] []) _ eq_refl eq_refl Hrun)).
Defined.
End ListenerDemo.
